(* ===== verification/_CoqProject ===== *)
-Q . S2P
Prelude.v
GoValue.v
GoUtf8.v
GoBase64.v
GoSort.v
GoFloat.v
CoreFrames.v
CoreBinaryVector.v
CoreCodec.v
CoreStatus.v
CoreCache.v
NcpFrames.v
NcpHandshake.v
NcpSession.v
NcpFailover.v
NopFrames.v
NopModels.v
NopDag.v
NopInput.v
NopCondition.v
NopConditionSpec.v
NopTask.v
NopRun.v
NopRunProof.v
NopExecute.v
NopPortable.v
NopPortableProof.v
NdpRegistry.v
NdpProfile.v
NwpFilter.v
NwpSql.v
NwpReputation.v
NwpEpoch.v
NwpContext.v
NwpContextProof.v
NipFrames.v
NwpAnchor.v
NwpAnchorProof.v
NwpAction.v
NwpActionProof.v
NwpStatus.v
NwpLlm.v
NwpLlmProof.v
NwpMemory.v
NwpMemoryProof.v
NwpComplex.v
NwpComplexProof.v
NipDer.v
NipPhase3.v
NipStore.v
NipSqlStore.v
NipSqlStoreProof.v
NipPath.v
NipRa.v
NipVerifier.v
NipVerifierProof.v
NipCa.v
NipCaProof.v
NipX509.v
NipX509Proof.v
NipAcme.v
NipAcmeClient.v
NipAcmeToy.v
NipAcmeProof.v
NipAcmeClientProof.v
NipRouter.v
NipRouterProof.v
NwpFrames.v
NwpNative.v
NwpNativeProof.v
NwpPortable.v
NwpBridge.v
NwpBridgeServer.v
NwpBridgeProof.v
NipLog.v
NipLogProof.v
Alpha19Policy.v
Alpha19PolicyProof.v
Alpha20Features.v
Alpha20FeaturesProof.v
