(* ===== verification/Prelude.v ===== *)
(** * NPS Go SDK: a verification library

    The repository is the Go SDK of the NPS protocol suite.  This library models
    the packages that carry the protocol logic and proves what makes them correct.

    ** The parts and how they interact

    - core (src/core): every protocol message is a frame, a header followed by the
      payload of a dict at one of three encoding tiers.  [core.NpsFrameCodec]
      encodes and decodes frames against a registry of frame types; the third tier
      (BinaryVector) carries float vectors outside the dict; schemas are cached
      under content addresses.
    - ncp (src/ncp): the session layer.  A client sends a preamble and a
      HelloFrame, the server negotiates version, encoding, protocols and limits
      and answers with a CapsFrame or an ErrorFrame; then both ends exchange
      frames on the byte stream, under the negotiated encoding policy.
    - nop (src/nop): orchestration.  A task is a DAG of nodes that are delegated
      to workers; the orchestrator validates the DAG, runs nodes as their inputs
      complete (K-of-N, conditions, retries), compensates on failure, aggregates
      the results and records the progress in a task store.
    - ndp (src/ndp): discovery.  Nodes announce themselves to registries, which
      answer lookups, elect the active anchor of a cluster and relay lookups
      through a bounded federation.
    - nwp (src/nwp): nodes that answer queries.  A memory node filters, orders and
      pages rows in process or translates JSON filters to SQL; a complex node answers
      a query and fetches its children, which may be complex nodes themselves; an
      anchor node fences writers by cluster epoch; a reputation policy accepts, rejects or bans callers; an
      action node runs a provider's actions, at once, as streams or as tasks, and
      remembers answers under idempotency keys; a store keeps the transcripts of
      LLM contexts with versions, leases and quotas, and an LLM node is an action
      node whose provider works on that store; a bridge offers the actions of nodes
      as MCP tools, A2A skills and gRPC calls.
    - nip (src/nip): identities.  A certificate authority enrolls agents, nodes,
      groups and sessions and signs their identity frames, for the clients of its HTTP
      interface and under the enrollment policy of its operator; a verifier checks a
      frame's expiry, issuer, signature, certificate chain, revocation,
      capabilities and scope; a client of the reputation log checks signed entries and
      their inclusion in a Merkle tree; an ACME server issues X.509 leaves for agents,
      whose client goes through its directory, order, challenge and finalization.
    - alpha19 and alpha20 (src/alpha19, src/alpha20): the policy decisions of one
      release on JSON objects, the parsers of the feature headers of the next.

    ** Files

    - Prelude: Go integers, bytes, strings, sorted maps, durations; the [result]
      type with its notation; tactics, hints and generic lemmas.
    - GoValue: the dynamic values ([any]) and maps that frames are read from.
      GoUtf8 is unicode/utf8, GoBase64 encoding/base64, GoSort what package sort
      promises.
    - CoreFrames (core/frames.go, core/registry.go), CoreBinaryVector
      (core/binary_vector.go), CoreCodec (core/codec.go), CoreStatus
      (core/status_codes.go), CoreCache (core/cache.go).
    - NcpFrames (ncp/frames.go, ncp/handshake_caps.go), NcpHandshake
      (ncp/preamble.go, encoding_policy.go, patch_format.go, handshake_profile.go),
      NcpSession (ncp/frame_io.go, session.go, native_client.go, server.go), NcpFailover
      (ncp/failover.go).
    - NopModels (nop/models.go, constants.go, error_codes.go), NopDag
      (nop/dag_validator.go), NopInput (nop/input_mapper.go, result_aggregator.go),
      NopCondition and NopConditionSpec (nop/condition_evaluator.go), NopTask
      (nop/task_store.go, orchestrator_options.go and executeNodeWithRetry,
      executeNodeOnce of nop/orchestrator.go), NopRun and NopRunProof (runDag and
      its helpers), NopExecute (Execute, Cancel, runPreflight, callback_validator.go,
      cluster_delegation.go), NopPortable and NopPortableProof
      (nop/portable_profile.go), NopFrames (nop/frames.go).
    - NdpRegistry (ndp/frames.go, registry.go, cluster.go, federation.go,
      dns_txt.go) and NdpProfile (ndp/registry_profile.go).
    - NwpFilter (nwp/filter_translator.go), NwpSql (nwp/sql_query_builder.go,
      sql_memory_node_provider.go), NwpReputation (nwp/reputation.go), NwpEpoch
      (nwp/anchor_epoch.go, anchor_state.go), NwpAnchor and NwpAnchorProof
      (nwp/anchor_server.go), NwpContext and NwpContextProof (nwp/llm_context_store.go,
      llm.go), NwpAction and NwpActionProof (nwp/action_node_server.go), NwpStatus
      (the statuses of nwp/error_codes.go), NwpLlm and NwpLlmProof
      (nwp/llm_action_server.go), NwpMemory and NwpMemoryProof
      (nwp/memory_node_inmemory.go, memory_node_server.go), NwpComplex and
      NwpComplexProof (nwp/complex_node_server.go), NwpBridge (nwp/bridge_backend.go,
      bridge_inbound_options.go, bridge_error_map.go, bridge_jsonrpc.go and the MCP, A2A
      and gRPC services of bridge_mcp_inbound.go, bridge_a2a_inbound.go,
      bridge_grpc_inbound.go), NwpBridgeServer (nwp/bridge_server.go) and NwpBridgeProof,
      NwpFrames (nwp/frames.go), NwpNative and NwpNativeProof (nwp/native_server.go,
      client.go), NwpPortable (nwp/portable_profile.go, cgn.go).
    - NipFrames (nip/frames.go, assurance_level.go), NipDer and NipPhase3
      (nip/phase3.go and the part of encoding/asn1 it uses), NipPath, NipVerifier
      and NipVerifierProof (nip/verifier.go, revocation_policy.go,
      trust_frame_validator.go), NipStore (nip/ca_store.go), NipSqlStore and
      NipSqlStoreProof (nip/sql_ca_store.go), NipRa (nip/ca_ra.go),
      NipCa and NipCaProof (nip/ca_service.go), NipRouter and NipRouterProof
      (nip/ca_router.go, group_jws.go), NipLog and NipLogProof
      (nip/reputation_client.go), NipX509 and NipX509Proof (nip/x509), NipAcme
      (nip/acme/server.go, jws.go, messages.go, wire.go), NipAcmeClient
      (nip/acme/client.go), NipAcmeToy (an instance of their classes), NipAcmeProof and
      NipAcmeClientProof.
    - Alpha19Policy and Alpha19PolicyProof (alpha19/policy.go), with GoFloat, what a
      float64 comparison and conversion is assumed to do.
    - Alpha20Features and Alpha20FeaturesProof (alpha20/feature_wire_parser.go).

    Go functions keep their names; a method [T.M] is [M] or [T_M]; helpers in
    lower case are the loops and blocks of the function they are used in.  A
    [map] whose order of iteration can be observed is an association list or is
    quantified over permutations, other maps are [gmap]; a mutex-protected
    operation is one step; clocks, random identifiers, hashes and the
    serialisers of other packages are arguments, with the classes [Msgpack],
    [GoJSON], [RequestJSON], [StableSort], [UnstableSort], [NodeExec], [X509], [AcmeEnv],
    [ClientEnv], [Transport], [SqlDatabase] and [BridgeEnv] where several operations go
    together.

    ** What is proved

    - core: headers, frames and BinaryVector payloads round-trip and the decoders
      accept nothing else; the cache is content-addressed and honours its TTLs.
    - ncp: negotiation accepts exactly when the peers have something in common and
      then meets the session contract; whatever the client and server of one
      handshake compute, they agree; a byte stream of frames is self-delimiting.
    - nop: validation accepts exactly the well-formed acyclic graphs, with a
      topological order; the condition evaluator computes the meaning of the
      syntax tree and is total; runs are safe under every schedule (dependencies,
      single launch, concurrency bound), terminate, and succeed when no node
      fails; retries, streams, compensation and the life cycle in the store.  The
      portable profile: the order of a task is the least topological one whatever
      order maps are ranged over in, a run settles the nodes before the one it ends
      at and touches none after it, compensation undoes what is owed in reverse,
      leases exclude each other, a delegation goes to the one live leader.
    - ndp: lookups, expiry, target matching, elections, federation loops; the
      signed registry never rolls back and its entries are faithful to their
      frames.
    - nwp: a query in memory is answered by the rows that match, in their order and
      within the budget ([query_answers], [budget_respected]); the requests of a complex
      node to its children pass its guards, and a network of such nodes ends
      ([network_terminates]) and never meets a node twice on a path;
      a translated filter means what the filter says, in three-valued logic;
      queries bind every parameter; paging delivers every row once; a fenced
      anchor accepts no write; reputation verdicts and bans; the anchor server
      runs an action exactly for the requests that pass its gates, answers each
      request once and asks its topology service only well-formed questions; a
      reservation of a context excludes every other writer, a version identifies a
      transcript, outcomes are retained and owners isolated; an action node replays
      the answer of a key, tasks follow their life cycle through any interleaving of
      requests and goroutines ([task_lifecycle]), streams are well formed; a
      completion reserves, runs and commits or aborts, so that a failed one leaves
      the context as it was, and the store's invariant holds for every request that
      a node serves ([llm_node_invariant], through the class [ProviderInvariant]).  The
      bridge turns away whoever its verifier does not accept before any node is asked
      ([bridge_fails_closed]), resolves a tool name to one action or to none
      ([tool_is_chosen]), runs that action once and tells its outcome
      ([tools_call_answers], [tasks_send_reports], [grpc_invoke_reports]).  The frames of
      nodes reach a peer as they were meant whatever the transport makes of their numbers
      and slices ([nwp_frames_roundtrip]); a native server answers the frames of a session
      one by one and in order ([native_conversation]), a query of a client is one POST
      whose body a peer reads as the query it was ([query_exchange]); the two transports
      of a node admit the same frames ([transports_agree]), a bridge call is dispatched
      exactly under its preflight ([lifecycle_dispatches]).
    - nip: verification decides its six steps and reports the first that fails
      ([verify_full_decides]), Phase 3 and trust frames likewise; serial numbers
      are unique, revocation is permanent and reaches sessions (in memory; the store in a
      database refines it, [sql_refines_memory]), sessions stay
      within their group, tokens are used once, the pending queue is bounded.
      Over HTTP only the operator, or the key of a live group for a session of that
      group, changes anything ([request_authority]); histories of requests are
      the histories of the service that the requests ask for, each answered with its
      outcome ([http_refines_service]), so an acknowledged revocation
      holds for every later client; an approval issues once; the routes are exactly
      those written down ([routes_exact]).  Inclusion proofs exist for every entry of a
      full tree and fix the entry at a place of it ([inclusion_complete],
      [inclusion_binding]).  A chain verifies exactly under the stages of its verifier
      ([x509_verify_iff]), and what is issued verifies.  The ACME server finalizes only
      orders whose challenge was answered ([certificates_backed]), takes a nonce for one
      request ([nonce_acts_once]), and a client that talks to it over the same transport
      ends with a certificate for its key ([client_gets_certificate]).
    - alpha19: revocation, leases, selection and the other decisions of the release as
      functions of their inputs ([revocation_decides], [best_are_selected]).
    - alpha20: the feature header has one text per selection ([header_exact]); accepted
      offers are well formed and every well-formed one can be written ([offer_exact]);
      the reader takes exactly the strict values ([reader_exact]).

    Some theorems state defects of the code as it is: a failed task reported as
    completed ([failure_reported_completed]), withdrawals that are lost on the
    wire ([withdrawal_lost]), tokens ignored after a condition
    ([condition_ignores_trailing]), TTL overflow ([cache_ttl_overflow]), escapes
    kept in canonical schemas ([jcs_keeps_html_escapes]), vectors that cannot be
    decoded ([binvec_not_finite_undecodable]), an unregistered frame type
    ([full_registry_types]), two active anchors at one epoch ([split_brain]),
    a signed request of any age ([iat_window]), registrations that no policy sees
    ([x509_ignores_policy]), proofs whose position is not checked
    ([position_unchecked]), signatures that round the sequence number
    ([signature_rounds_seq]), identity frames that their own verifier rejects
    ([ca_frames_do_not_verify]),
    sessions that outlive their bound by renewal ([renewal_escapes_session]),
    serials that survive revocation ([renewed_serial_survives]), OCSP refusals
    that pass ([fail_open_ignores_refusal]), an unsigned field that switches the
    X.509 check off ([x509_step_is_optional]), a panic on a scope pattern
    ([path_match_panics]), a lease that wraps around ([lease_wraps]), records evicted
    from a store with room ([evicts_with_room]), certificates for whoever has an account
    ([any_account_is_certified]), a client that a spent nonce stops
    ([spent_nonce_sticks]), an ambiguous skill that is guessed ([ambiguous_name]), and
    limits reported as the outcome of a tool ([infrastructure_reported_as_domain]), a
    native frame whose end is missing and taken for the end of the stream
    ([cut_frame_is_end]), a serial given twice ([serials_race]), and a revocation that
    reaches every certificate of a NID in one store and the newest in the other
    ([sql_revokes_all]).

    ** Fuel

    Every fuel argument is supplied by the modelled function itself and shown to
    be enough: one unit per node for Kahn's algorithm ([kahn_drains]) and for the
    scheduler's loop ([loop_fuel]), one per edge and one more for the
    reachability search, four per token for the condition parser and one per byte
    for its tokenizer ([condition_total]), one per byte for trimming
    ([strip_fuel_done]), one per byte of a DER sequence ([read_shrinks]), one per
    bit for digits of a number ([hex_fuel], [parse_FormatUint]), one page per row
    for a stream ([stream_complete]).  Retry loops recurse on the remaining
    attempts.  A network of complex nodes needs one unit per nested request
    ([network_terminates]).  The reader of feature blocks needs at
    most one unit per token ([reader_exact]), the scan for escapes one per byte.  In the portable profile one unit per node drains the queue
    ([drain_order]) and one more than the nodes collects ancestors
    ([collect_ancestors]).

    ** Not modelled

    Sockets, HTTP, SQL engines, signatures and hashes, which are the standard library's
    or third-party code around the logic; the clients that send one HTTP request per
    method (nop/client.go, nwp/anchor_client.go, nip/ca_client.go); ndp's resolve and
    graph frames and its validator; the packages telemetry, daemon, ca-server and conformance.  A request to the
    certificate authority, to the ACME server or to the bridge is one step: the
    interleaving of two requests inside their handlers is not modelled. *)

From Stdlib Require Export ZArith Lia.
From Stdlib Require Export Strings.Byte.
From stdpp Require Export base list gmap strings pretty sorting.

(** ** Scope and notation *)

Declare Scope go_scope.
Delimit Scope go_scope with go.
Open Scope Z_scope.
Open Scope go_scope.

(** A fallible Go call: either the value or the [error]. *)
Inductive result (E A : Type) : Type :=
| Ok (a : A)
| Err (e : E).
Arguments Ok {E A} a.
Arguments Err {E A} e.

Notation "'let?' x ':=' c 'in' k" :=
  (match c with Ok x => k | Err e => Err e end)
  (at level 10, x pattern, c at level 100, k at level 200) : go_scope.

Definition is_ok {E A} (r : result E A) : bool :=
  match r with Ok _ => true | Err _ => false end.

(** The error values the modelled packages return. *)
Inductive go_error : Type :=
| ErrPlain (msg : string)             (* errors.New / fmt.Errorf *)
| ErrFrame (msg : string)             (* core.ErrFrame *)
| ErrCodec (msg : string)             (* core.ErrCodec *)
| ErrAnchorNotFound (id : string)     (* core.ErrAnchorNotFound *)
| ErrAnchorPoison (id : string)       (* core.ErrAnchorPoison *)
| ErrPreambleInvalid (reason : string) (* ncp.ErrPreambleInvalid *)
| ErrHandshake (code msg : string)    (* ncp.NcpHandshakeError *)
| ErrNipCa (code msg : string)        (* nip.NipCaError *)
| ErrRaPending (id : string)          (* nip.NipRaPendingError *)
| ErrEOF                              (* io.EOF *)
| ErrUnexpectedEOF                    (* io.ErrUnexpectedEOF *)
| ErrClosed                           (* net.ErrClosed *)
| ErrPanic (msg : string).            (* a run-time panic *)

#[export] Instance go_error_eq_dec : EqDecision go_error.
Proof. solve_decision. Defined.

(** The [Error()] text of an error value. *)
Definition error_text (e : go_error) : string :=
  match e with
  | ErrPlain m => m
  | ErrFrame m => "NPS frame error: " +:+ m
  | ErrCodec m => "NPS codec error: " +:+ m
  | ErrAnchorNotFound id => "NPS anchor not found: " +:+ id
  | ErrAnchorPoison id => "NPS anchor poison: " +:+ id
  | ErrPreambleInvalid r => "NCP preamble invalid: " +:+ r
  | ErrHandshake c m => "NCP handshake failed [" +:+ c +:+ "]: " +:+ m
  | ErrNipCa _ m => m
  | ErrRaPending id => "Registration queued with pending id: " +:+ id
  | ErrEOF => "EOF"
  | ErrUnexpectedEOF => "unexpected EOF"
  | ErrClosed => "use of closed network connection"
  | ErrPanic m => m
  end.

Abbreviation go_result := (result go_error).

(** ** Machine integers *)

Definition wrapu (w z : Z) : Z := z mod 2 ^ w.
Definition wraps (w z : Z) : Z := (z + 2 ^ (w - 1)) mod 2 ^ w - 2 ^ (w - 1).

Abbreviation u8 := (wrapu 8).
Abbreviation u16 := (wrapu 16).
Abbreviation u32 := (wrapu 32).
Abbreviation u64 := (wrapu 64).
Abbreviation i64 := (wraps 64).

Definition maxInt64 : Z := 2 ^ 63 - 1.

Lemma wrapu_range w z : 0 <= w -> 0 <= wrapu w z < 2 ^ w.
Proof. intros. apply Z.mod_pos_bound. by apply Z.pow_pos_nonneg. Qed.

Lemma wrapu_small w z : 0 <= z < 2 ^ w -> wrapu w z = z.
Proof. apply Z.mod_small. Qed.

Lemma wraps_small w z : 0 < w -> - 2 ^ (w - 1) <= z < 2 ^ (w - 1) -> wraps w z = z.
Proof.
  intros Hw Hz. unfold wraps.
  assert (2 ^ w = 2 * 2 ^ (w - 1)).
  { rewrite <- Z.pow_succ_r by lia. f_equal; lia. }
  rewrite Z.mod_small; lia.
Qed.

Lemma wraps_range w z : 0 < w -> - 2 ^ (w - 1) <= wraps w z < 2 ^ (w - 1).
Proof.
  intros Hw. unfold wraps.
  assert (2 ^ w = 2 * 2 ^ (w - 1)).
  { rewrite <- Z.pow_succ_r by lia. f_equal; lia. }
  pose proof (Z.mod_pos_bound (z + 2 ^ (w - 1)) (2 ^ w)).
  assert (0 < 2 ^ w) by (apply Z.pow_pos_nonneg; lia). lia.
Qed.

(** ** Bytes

    A [[]byte] is a [list byte]; [byte_z] and [z_byte] move between a byte and
    its value, the second truncating like the conversion [byte(x)]. *)

Definition byte_z (b : byte) : Z := Z.of_N (Byte.to_N b).
Definition z_byte (z : Z) : byte :=
  match Byte.of_N (Z.to_N (u8 z)) with Some b => b | None => x00 end.

#[export] Instance byte_eq_dec : EqDecision byte.
Proof. intros x y. apply Byte.byte_eq_dec. Defined.

Lemma byte_z_range b : 0 <= byte_z b < 256.
Proof.
  unfold byte_z. pose proof (Byte.to_N_bounded b). lia.
Qed.

Lemma z_byte_byte_z b : z_byte (byte_z b) = b.
Proof.
  pose proof (byte_z_range b). unfold z_byte.
  rewrite wrapu_small by (change (2 ^ 8) with 256; lia).
  unfold byte_z. rewrite N2Z.id. by rewrite Byte.of_to_N.
Qed.

Lemma byte_z_z_byte z : byte_z (z_byte z) = u8 z.
Proof.
  unfold byte_z, z_byte. pose proof (wrapu_range 8 z ltac:(lia)) as H.
  change (2 ^ 8) with 256 in H.
  destruct (Byte.of_N (Z.to_N (u8 z))) as [b|] eqn:E.
  - apply Byte.to_of_N in E. rewrite E. rewrite Z2N.id; lia.
  - apply Byte.of_N_None_iff in E. lia.
Qed.

Definition char_z (c : Ascii.ascii) : Z := Z.of_N (Ascii.N_of_ascii c).

Definition bytes_of_string (s : string) : list byte := String.list_byte_of_string s.
Definition string_of_bytes (l : list byte) : string := String.string_of_list_byte l.

Lemma string_of_bytes_of_string s : string_of_bytes (bytes_of_string s) = s.
Proof. apply String.string_of_list_byte_of_string. Qed.

(** [encoding/binary]: [n] bytes of a value, most (least) significant first. *)
Fixpoint put_be (n : nat) (v : Z) : list byte :=
  match n with
  | O => []
  | S n' => put_be n' (v / 256) ++ [z_byte v]
  end.

Definition put_le (n : nat) (v : Z) : list byte := reverse (put_be n v).

Fixpoint get_le (l : list byte) : Z :=
  match l with
  | [] => 0
  | b :: r => byte_z b + 256 * get_le r
  end.

Definition get_be (l : list byte) : Z := get_le (reverse l).

Lemma length_put_be n v : length (put_be n v) = n.
Proof. revert v; induction n; intros; simpl; [done|]. rewrite length_app, IHn; simpl; lia. Qed.

Lemma length_put_le n v : length (put_le n v) = n.
Proof. unfold put_le. by rewrite length_reverse, length_put_be. Qed.

Lemma get_be_snoc l b : get_be (l ++ [b]) = 256 * get_be l + byte_z b.
Proof. unfold get_be. rewrite reverse_app. simpl. lia. Qed.

Lemma get_put_be n v : 0 <= v < 256 ^ Z.of_nat n -> get_be (put_be n v) = v.
Proof.
  revert v; induction n; intros v Hv; simpl.
  - change (256 ^ Z.of_nat 0) with 1 in Hv. unfold get_be. simpl. lia.
  - rewrite Nat2Z.inj_succ, Z.pow_succ_r in Hv by lia.
    rewrite get_be_snoc, IHn.
    + rewrite byte_z_z_byte. unfold wrapu. change (2 ^ 8) with 256.
      pose proof (Z.div_mod v 256). lia.
    + split; [apply Z.div_pos; lia|]. apply Z.div_lt_upper_bound; lia.
Qed.

Lemma get_put_le n v : 0 <= v < 256 ^ Z.of_nat n -> get_le (put_le n v) = v.
Proof.
  intros Hv. rewrite <- (get_put_be n v Hv) at 2.
  unfold get_be, put_le. done.
Qed.

Lemma get_le_range l : 0 <= get_le l < 256 ^ Z.of_nat (length l).
Proof.
  induction l as [|b l IH]; simpl; [done|].
  pose proof (byte_z_range b). rewrite Nat2Z.inj_succ, Z.pow_succ_r by lia. lia.
Qed.

Lemma get_be_range l : 0 <= get_be l < 256 ^ Z.of_nat (length l).
Proof. unfold get_be. pose proof (get_le_range (reverse l)). by rewrite length_reverse in *. Qed.

Lemma get_be_u16 b0 b1 : 0 <= get_be [b0; b1] < 2 ^ 16.
Proof. exact (get_be_range [b0; b1]). Qed.

Lemma get_be_u32 b0 b1 b2 b3 : 0 <= get_be [b0; b1; b2; b3] < 2 ^ 32.
Proof. exact (get_be_range [b0; b1; b2; b3]). Qed.

Lemma put_get_be l : put_be (length l) (get_be l) = l.
Proof.
  induction l as [|b l IH] using rev_ind; [done|].
  rewrite length_app, Nat.add_comm. simpl.
  rewrite get_be_snoc. pose proof (byte_z_range b).
  replace ((256 * get_be l + byte_z b) / 256) with (get_be l)
    by (apply Z.div_unique with (byte_z b); lia).
  rewrite IH. do 2 f_equal.
  rewrite <- (z_byte_byte_z b) at 2. unfold z_byte, wrapu.
  change (2 ^ 8) with 256. do 3 f_equal.
  rewrite <- Z.add_mod_idemp_l, Z.mul_comm, Z.mod_mul by lia. done.
Qed.

(** ** Strings

    A Go string is a byte string, here a [string] of [ascii] characters. *)

Definition str_len (s : string) : Z := Z.of_nat (String.length s).

(** [strings.Split(s, sep)] for a one-byte separator. *)
Fixpoint split_on (c : Ascii.ascii) (s : string) : list string :=
  match s with
  | EmptyString => [""]
  | String a r =>
      if Ascii.eqb a c then "" :: split_on c r
      else match split_on c r with
           | w :: ws => String a w :: ws
           | [] => [String a ""]
           end
  end.

(** [strings.Join]. *)
Fixpoint join (sep : string) (l : list string) : string :=
  match l with
  | [] => ""
  | [x] => x
  | x :: r => x +:+ sep +:+ join sep r
  end.

(** [strings.HasPrefix] and [strings.CutPrefix]. *)
Fixpoint cut_prefix (p s : string) : option string :=
  match p, s with
  | EmptyString, _ => Some s
  | String a p', String b s' => if Ascii.eqb a b then cut_prefix p' s' else None
  | String _ _, EmptyString => None
  end.

Definition has_prefix (p s : string) : bool :=
  match cut_prefix p s with Some _ => true | None => false end.

Fixpoint str_contains_char (c : Ascii.ascii) (s : string) : bool :=
  match s with
  | EmptyString => false
  | String a r => Ascii.eqb a c || str_contains_char c r
  end.

(** [strings.TrimSpace]: the UTF-8 encodings of the code points for which
    [unicode.IsSpace] holds, stripped from both ends. *)
Definition chr (n : N) : Ascii.ascii := Ascii.ascii_of_N n.
Definition str_of (l : list N) : string :=
  foldr (fun n s => String (chr n) s) EmptyString l.

Definition space_encodings : list string :=
  str_of <$>
  ([[0x09]; [0x0A]; [0x0B]; [0x0C]; [0x0D]; [0x20]; [0xC2; 0x85]; [0xC2; 0xA0];
    [0xE1; 0x9A; 0x80]] ++
   ((fun n => [0xE2; 0x80; n]) <$>
      [0x80; 0x81; 0x82; 0x83; 0x84; 0x85; 0x86; 0x87; 0x88; 0x89; 0x8A; 0xA8; 0xA9; 0xAF]) ++
   [[0xE2; 0x81; 0x9F]; [0xE3; 0x80; 0x80]])%N.

Definition strip_one (encs : list string) (s : string) : option string :=
  foldr (fun e acc => match cut_prefix e s with Some r => Some r | None => acc end) None encs.

Fixpoint strip_fuel (fuel : nat) (encs : list string) (s : string) : string :=
  match fuel with
  | O => s
  | S n => match strip_one encs s with Some r => strip_fuel n encs r | None => s end
  end.

Definition trim_left (s : string) : string := strip_fuel (String.length s) space_encodings s.
Definition trim_right (s : string) : string :=
  String.rev (strip_fuel (String.length s) (String.rev <$> space_encodings) (String.rev s)).
Definition trim_space (s : string) : string := trim_right (trim_left s).

(** [fmt.Sprintf] verbs: [%d] and [%02X]. *)
Definition fmt_d (z : Z) : string := pretty z.
Definition hex_digit (z : Z) : string :=
  nth (Z.to_nat z) ["0"; "1"; "2"; "3"; "4"; "5"; "6"; "7"; "8"; "9";
                    "A"; "B"; "C"; "D"; "E"; "F"] "?".
Definition fmt_02X (z : Z) : string := hex_digit (z / 16) +:+ hex_digit (z mod 16).

(** [strings.EqualFold(s, want)] for a lower-case ASCII [want]: ASCII case, and the
    two non-ASCII letters that fold to ASCII ones (long s and the Kelvin sign). *)
Definition lower (c : Ascii.ascii) : Ascii.ascii :=
  let z := char_z c in if (65 <=? z) && (z <=? 90) then chr (Z.to_N (z + 32)) else c.

Definition long_s : string := str_of [0xC5; 0xBF]%N.
Definition kelvin : string := str_of [0xE2; 0x84; 0xAA]%N.

Fixpoint EqualFold (s want : string) : bool :=
  match want with
  | EmptyString => String.eqb s ""
  | String w want' =>
      let special := if Ascii.eqb w (chr 115) then cut_prefix long_s s
                     else if Ascii.eqb w (chr 107) then cut_prefix kelvin s else None in
      match special with
      | Some rest => EqualFold rest want'
      | None => match s with
                | String c s' => Ascii.eqb (lower c) w && EqualFold s' want'
                | EmptyString => false
                end
      end
  end.

(** [strings.ToLower(s) == want] for a lower-case ASCII [want]: besides the ASCII
    capitals, the dotted capital I and the Kelvin sign have an ASCII lower case. *)
Definition dotted_I : string := str_of [0xC4; 0xB0]%N.

Fixpoint LowerIs (s want : string) : bool :=
  match want with
  | EmptyString => String.eqb s ""
  | String w want' =>
      let special := if Ascii.eqb w (chr 105) then cut_prefix dotted_I s
                     else if Ascii.eqb w (chr 107) then cut_prefix kelvin s else None in
      match special with
      | Some rest => LowerIs rest want'
      | None => match s with
                | String c s' => Ascii.eqb (lower c) w && LowerIs s' want'
                | EmptyString => false
                end
      end
  end.

(** [strings.TrimRight(s, "/")]. *)
Fixpoint trim_slashes (s : string) : string :=
  match s with
  | EmptyString => EmptyString
  | String c r =>
      match trim_slashes r with
      | EmptyString => if Ascii.eqb c (chr 47) then EmptyString else String c EmptyString
      | t => String c t
      end
  end.

Definition mem_string (x : string) (l : list string) : bool :=
  existsb (fun y => String.eqb y x) l.

Lemma mem_string_true x l : mem_string x l = true <-> x ∈ l.
Proof.
  unfold mem_string. rewrite existsb_exists, list_elem_of_In. split.
  - intros (y & ? & Hy). apply String.eqb_eq in Hy. by subst.
  - intros. exists x. split; [done|]. apply String.eqb_refl.
Qed.

Lemma mem_string_false x l : mem_string x l = false <-> x ∉ l.
Proof. rewrite <- mem_string_true. destruct (mem_string x l); naive_solver. Qed.

(** [sort.Strings]. *)
Definition sort_strings (l : list string) : list string := merge_sort String.le l.

Lemma sort_strings_perm l : sort_strings l ≡ₚ l.
Proof. apply merge_sort_Permutation. Qed.

Lemma sort_strings_sorted l : Sorted String.le (sort_strings l).
Proof. apply Sorted_merge_sort, _. Qed.

Lemma sort_strings_proper l1 l2 : l1 ≡ₚ l2 -> sort_strings l1 = sort_strings l2.
Proof.
  intros H. apply (Sorted_unique String.le); try apply sort_strings_sorted.
  by rewrite !sort_strings_perm.
Qed.

Lemma cut_prefix_Some p s r : cut_prefix p s = Some r <-> s = p +:+ r.
Proof.
  revert s; induction p as [|a p IH]; intros s; simpl.
  - split; [by intros [= ->]|]. unfold String.app. simpl. by intros ->.
  - destruct s as [|b s]; [done|].
    destruct (Ascii.eqb_spec a b) as [->|Hab].
    + rewrite IH. split; [by intros ->|]. by intros [= ->].
    + split; [done|]. intros [= ]. congruence.
Qed.

Lemma split_on_nonempty c s : split_on c s <> [].
Proof. destruct s as [|a s]; simpl; [done|]. destruct (Ascii.eqb a c); [done|]. by destruct (split_on c s). Qed.

Lemma join_split c s : join (String c "") (split_on c s) = s.
Proof.
  induction s as [|a s IH]; [done|]. simpl.
  destruct (Ascii.eqb_spec a c) as [->|Hac].
  - pose proof (split_on_nonempty c s). destruct (split_on c s) as [|w ws]; [done|].
    simpl in *. rewrite <- IH. done.
  - pose proof (split_on_nonempty c s). destruct (split_on c s) as [|w [|w' ws]]; [done|..];
      simpl in *; rewrite <- IH; done.
Qed.

Lemma str_app_assoc (a b c : string) : (a +:+ b) +:+ c = a +:+ (b +:+ c).
Proof. induction a as [|x a IH]; [done|]. exact (f_equal (String x) IH). Qed.

Lemma str_length_app (a b : string) : String.length (a +:+ b) = (String.length a + String.length b)%nat.
Proof. induction a as [|x a IH]; [done|]. exact (f_equal S IH). Qed.

Lemma str_app_nil_r (a : string) : a +:+ "" = a.
Proof. induction a as [|x a IH]; [done|]. exact (f_equal (String x) IH). Qed.

(** ** Time

    An instant is a number of nanoseconds.  [t.Add(time.Duration(n) * time.Second)]
    multiplies two [int64] values, so a large [n] wraps around before it is
    added; [t.After(u)] is [u <? t]. *)
Definition second : Z := 1000000000.
Definition add_seconds (t n : Z) : Z := t + i64 (i64 n * second).
Definition after (t u : Z) : bool := u <? t.

(** The largest number of seconds a [time.Duration] holds. *)
Definition max_seconds : Z := 9223372036.

Lemma add_seconds_exact t n : 0 <= n <= max_seconds -> add_seconds t n = t + n * second.
Proof.
  unfold add_seconds, second, max_seconds. intros.
  rewrite (wraps_small 64 n) by (simpl; lia).
  rewrite wraps_small; [done|lia|simpl; lia].
Qed.

(** One second more, and the deadline falls before the start. *)
Lemma add_seconds_wraps t : add_seconds t (max_seconds + 1) < t.
Proof.
  unfold add_seconds. change (i64 (i64 (max_seconds + 1) * second)) with (-9223372036709551616). lia.
Qed.

(** ** Automation *)

Create HintDb nps.
Create Rewrite HintDb nps.
#[export] Hint Resolve byte_z_range get_be_range get_le_range split_on_nonempty : nps.
#[export] Hint Rewrite length_put_be length_put_le z_byte_byte_z byte_z_z_byte
  string_of_bytes_of_string @length_app @length_reverse : nps.

(** Split the conjunctions and disjunctions of boolean tests in the context. *)
Ltac bool_hyps :=
  repeat match goal with
  | H : (_ && _)%bool = true |- _ => apply andb_true_iff in H as [? ?]
  | H : (_ || _)%bool = false |- _ => apply orb_false_iff in H as [? ?]
  | H : negb _ = true |- _ => apply negb_true_iff in H
  | H : negb _ = false |- _ => apply negb_false_iff in H
  | H : bool_decide _ = true |- _ => apply bool_decide_eq_true in H
  | H : bool_decide _ = false |- _ => apply bool_decide_eq_false in H
  | H : String.eqb _ _ = true |- _ => apply String.eqb_eq in H
  | H : String.eqb _ _ = false |- _ => apply String.eqb_neq in H
  | H : (_ =? _) = true |- _ => apply Z.eqb_eq in H
  | H : (_ =? _) = false |- _ => apply Z.eqb_neq in H
  | H : (_ <? _) = true |- _ => apply Z.ltb_lt in H
  | H : (_ <? _) = false |- _ => apply Z.ltb_ge in H
  | H : (_ <=? _) = true |- _ => apply Z.leb_le in H
  | H : (_ <=? _) = false |- _ => apply Z.leb_gt in H
  | H : (_ >? _) = true |- _ => apply Z.gtb_lt in H
  | H : (_ >? _) = false |- _ => rewrite Z.gtb_ltb in H; apply Z.ltb_ge in H
  | H : (_ >=? _) = true |- _ => rewrite Z.geb_leb in H; apply Z.leb_le in H
  | H : (_ >=? _) = false |- _ => rewrite Z.geb_leb in H; apply Z.leb_gt in H
  end.

(** Case analysis on the innermost test of a returned result. *)
Ltac case_ok H := repeat (case_match; try discriminate H; simplify_eq).

(** ** Decimal numbers

    [strconv.FormatUint(n, 10)] and [strconv.ParseUint(s, 10, 64)]: digits only,
    at least one, and a value below 2^64. *)
Definition dot : Ascii.ascii := chr 46.
Definition digit_char (d : Z) : Ascii.ascii := chr (Z.to_N (48 + d)).
Definition char_digit (c : Ascii.ascii) : option Z :=
  let z := char_z c in if (48 <=? z) && (z <=? 57) then Some (z - 48) else None.

Fixpoint format_digits (fuel : nat) (n : Z) (acc : string) : string :=
  match fuel with
  | O => acc
  | S f => let acc := String (digit_char (n mod 10)) acc in
           if n / 10 =? 0 then acc else format_digits f (n / 10) acc
  end.

Definition FormatUint (n : Z) : string := format_digits (S (Z.to_nat (Z.log2 n))) n "".

Fixpoint parse_digits (s : string) (acc : Z) : option Z :=
  match s with
  | EmptyString => Some acc
  | String c r => match char_digit c with
                  | Some d => parse_digits r (acc * 10 + d)
                  | None => None
                  end
  end.

Definition ParseUint (s : string) : option Z :=
  match s with
  | EmptyString => None
  | _ => match parse_digits s 0 with
         | Some n => if n <? 2 ^ 64 then Some n else None
         | None => None
         end
  end.

Lemma char_digit_char d : 0 <= d < 10 -> char_digit (digit_char d) = Some d.
Proof.
  intros Hd. assert (d = 0 \/ d = 1 \/ d = 2 \/ d = 3 \/ d = 4 \/ d = 5 \/ d = 6 \/ d = 7 \/
    d = 8 \/ d = 9) as H by lia. by destruct_or! H; subst.
Qed.

Lemma parse_format_digits fuel n acc :
  0 <= n < 2 ^ Z.of_nat fuel ->
  forall a, exists k, 0 <= k /\
    parse_digits (format_digits fuel n acc) a = parse_digits acc (a * 10 ^ k + n).
Proof.
  revert n acc; induction fuel as [|f IH]; intros n acc Hn a; simpl.
  { exists 0. change (2 ^ Z.of_nat 0) with 1 in Hn. split; [done|]. f_equal. lia. }
  pose proof (Z.div_mod n 10 ltac:(lia)) as Hdm.
  pose proof (Z.mod_pos_bound n 10 ltac:(lia)) as Hm.
  destruct (n / 10 =? 0) eqn:E; bool_hyps.
  - exists 1. split; [lia|]. simpl. rewrite char_digit_char by done. f_equal. lia.
  - rewrite Nat2Z.inj_succ, Z.pow_succ_r in Hn by lia.
    destruct (IH (n / 10) (String (digit_char (n mod 10)) acc)) with (a := a) as (k & Hk & ->).
    { split; [apply Z.div_pos; lia|]. apply Z.div_lt_upper_bound; lia. }
    exists (k + 1). split; [lia|]. simpl. rewrite char_digit_char by done. f_equal.
    rewrite Z.pow_add_r by lia. lia.
Qed.

Lemma FormatUint_nonempty n : FormatUint n <> "".
Proof.
  unfold FormatUint. generalize (Z.to_nat (Z.log2 n)) as f. intros f.
  assert (forall f n acc, acc <> "" -> format_digits f n acc <> "") as H.
  { clear. induction f as [|f IH]; intros n acc Ha; simpl; [done|].
    case_match; [done|]. by apply IH. }
  simpl. case_match; [done|]. by apply H.
Qed.

Lemma parse_FormatUint n : 0 <= n -> parse_digits (FormatUint n) 0 = Some n.
Proof.
  intros Hn. unfold FormatUint.
  destruct (parse_format_digits (S (Z.to_nat (Z.log2 n))) n "") with (a := 0) as (k & _ & ->); [|done].
  split; [lia|]. rewrite Nat2Z.inj_succ, Z2Nat.id by apply Z.log2_nonneg.
  destruct (Z.eq_dec n 0) as [->|]; [done|]. apply Z.log2_spec. lia.
Qed.

Lemma FormatUint_inj a b : 0 <= a -> 0 <= b -> FormatUint a = FormatUint b -> a = b.
Proof.
  intros Ha Hb E. apply (f_equal (fun s => parse_digits s 0)) in E.
  rewrite !parse_FormatUint in E by done. congruence.
Qed.

Lemma ParseUint_FormatUint n : 0 <= n < 2 ^ 64 -> ParseUint (FormatUint n) = Some n.
Proof.
  intros Hn. unfold ParseUint. pose proof (FormatUint_nonempty n) as Hne.
  destruct (FormatUint n) eqn:E; [done|]. rewrite <- E, parse_FormatUint by lia.
  by rewrite (proj2 (Z.ltb_lt _ _)) by lia.
Qed.

Lemma FormatUint_no_dot n : 0 <= n -> str_contains_char dot (FormatUint n) = false.
Proof.
  intros Hn. unfold FormatUint. generalize (S (Z.to_nat (Z.log2 n))) as f. intros f.
  assert (forall acc, str_contains_char dot acc = false ->
    str_contains_char dot (format_digits f n acc) = false) as H; [|by apply H].
  revert n Hn; induction f as [|f IH]; intros n Hn acc Ha; simpl; [done|].
  assert (str_contains_char dot (String (digit_char (n mod 10)) acc) = false) as Hs.
  { simpl. rewrite Ha, orb_false_r. pose proof (Z.mod_pos_bound n 10 ltac:(lia)) as Hm.
    pose proof (char_digit_char _ Hm) as Hc. apply Ascii.eqb_neq. intros E. by rewrite E in Hc. }
  case_match; [done|]. apply IH; [apply Z.div_pos; lia|done].
Qed.

(** Splitting a joined pair whose first part has no separator. *)
Lemma split_on_no_sep c s : str_contains_char c s = false -> split_on c s = [s].
Proof.
  induction s as [|a s IH]; simpl; [done|]. intros H. bool_hyps.
  rewrite H, IH by done. done.
Qed.

Lemma split_on_pair c a b :
  str_contains_char c a = false -> str_contains_char c b = false ->
  split_on c (a +:+ String c b) = [a; b].
Proof.
  intros Ha Hb. induction a as [|x a IH].
  - change ("" +:+ String c b) with (String c b). simpl. rewrite Ascii.eqb_refl.
    by rewrite split_on_no_sep.
  - change (String x a +:+ String c b) with (String x (a +:+ String c b)).
    simpl in *. bool_hyps. by rewrite H, IH.
Qed.

(** Splitting what was joined. *)
Lemma split_on_join c ps :
  ps <> [] -> Forall (fun p => str_contains_char c p = false) ps ->
  split_on c (join (String c "") ps) = ps.
Proof.
  intros Hne Hf. induction Hf as [|p ps Hp Hps IH]; [done|]. clear Hne.
  destruct ps as [|q ps]; [by apply split_on_no_sep|].
  specialize (IH ltac:(done)). cbn [join] in IH |- *.
  set (rest := match ps with [] => q | _ => _ end) in *.
  assert (E : p +:+ String c "" +:+ rest = p +:+ String c rest) by done. rewrite E. clear E.
  revert Hp. induction p as [|a p IHp]; intros Hp.
  - change ("" +:+ String c rest) with (String c rest). cbn [split_on]. by rewrite Ascii.eqb_refl, IH.
  - change (String a p +:+ String c rest) with (String a (p +:+ String c rest)).
    simpl in Hp. bool_hyps. cbn [split_on]. by rewrite H, (IHp H0).
Qed.

(** *** Trimming *)

Lemma str_rev_app s t : String.rev_app s t = String.rev s +:+ t.
Proof.
  unfold String.rev. revert t. induction s as [|a s IH]; intros t; [done|].
  cbn [String.rev_app]. rewrite IH, (IH (String a "")), str_app_assoc. done.
Qed.

Lemma str_rev_cons a s : String.rev (String a s) = String.rev s +:+ String a "".
Proof. exact (str_rev_app s (String a "")). Qed.

Lemma str_rev_concat s t : String.rev (s +:+ t) = String.rev t +:+ String.rev s.
Proof.
  induction s as [|a s IH]; [by rewrite str_app_nil_r|].
  change (String a s +:+ t) with (String a (s +:+ t)). by rewrite !str_rev_cons, IH, str_app_assoc.
Qed.

Lemma str_rev_involutive s : String.rev (String.rev s) = s.
Proof. induction s as [|a s IH]; [done|]. by rewrite str_rev_cons, str_rev_concat, IH. Qed.

Lemma str_rev_length s : String.length (String.rev s) = String.length s.
Proof. induction s as [|a s IH]; [done|]. rewrite str_rev_cons, str_length_app, IH. simpl. lia. Qed.

Lemma strip_one_None encs s : strip_one encs s = None <-> Forall (fun e => cut_prefix e s = None) encs.
Proof.
  induction encs as [|e encs IH]; [by split|]. simpl. rewrite Forall_cons, <- IH.
  destruct (cut_prefix e s); [split; [done|by intros []]|]. split; [done|by intros []].
Qed.

Lemma strip_one_Some encs s r :
  Forall (fun e => e <> "") encs -> strip_one encs s = Some r -> exists e, s = e +:+ r /\ e <> "".
Proof.
  induction 1 as [|e encs He _ IH]; simpl; [done|]. destruct (cut_prefix e s) as [r'|] eqn:E; [|done].
  intros [= ->]. apply cut_prefix_Some in E. eauto.
Qed.

Lemma strip_fuel_suffix n encs s :
  Forall (fun e => e <> "") encs -> exists p, s = p +:+ strip_fuel n encs s.
Proof.
  intros He. revert s. induction n as [|n IH]; intros s; simpl; [by exists ""|].
  destruct (strip_one encs s) as [r|] eqn:E; [|by exists ""].
  apply strip_one_Some in E as (e & -> & _); [|done]. destruct (IH r) as [p Hp]. exists (e +:+ p).
  by rewrite str_app_assoc, <- Hp.
Qed.

Lemma strip_fuel_done n encs s :
  Forall (fun e => e <> "") encs -> (String.length s <= n)%nat -> strip_one encs (strip_fuel n encs s) = None.
Proof.
  intros He. revert s. induction n as [|n IH]; intros s Hs; simpl.
  - destruct s; [|simpl in Hs; lia]. destruct (strip_one encs "") as [r|] eqn:E; [|done].
    apply strip_one_Some in E as (e & E & Hne); [|done]. by destruct e.
  - destruct (strip_one encs s) as [r|] eqn:E; [|done]. apply IH.
    apply strip_one_Some in E as (e & -> & Hne); [|done]. rewrite str_length_app in Hs.
    destruct e; [done|]. simpl in Hs. lia.
Qed.

Lemma strip_fuel_stable n encs s : strip_one encs s = None -> strip_fuel n encs s = s.
Proof. intros H. destruct n; simpl; [done|]. by rewrite H. Qed.

Lemma strip_one_prefix encs a b : strip_one encs (a +:+ b) = None -> strip_one encs a = None.
Proof.
  rewrite !strip_one_None. intros H. eapply Forall_impl; [exact H|]. intros e He. cbv beta in *.
  destruct (cut_prefix e a) as [r|] eqn:E; [|done]. apply cut_prefix_Some in E as ->.
  rewrite str_app_assoc in He. assert (cut_prefix e (e +:+ (r +:+ b)) = Some (r +:+ b)) as Hc
    by (by apply cut_prefix_Some). congruence.
Qed.

Definition rev_encodings : list string := String.rev <$> space_encodings.

Lemma encodings_nonempty : Forall (fun e => e <> "") space_encodings.
Proof. apply Forall_forall. intros e He Hn. subst. by apply (bool_decide_eq_true_2 _) in He. Qed.
Lemma rev_encodings_nonempty : Forall (fun e => e <> "") rev_encodings.
Proof. apply Forall_forall. intros e He Hn. subst. by apply (bool_decide_eq_true_2 _) in He. Qed.

(** What [trim_space] returns is a factor of its argument that it leaves alone. *)
Lemma trim_space_factor s : exists p q, s = p +:+ trim_space s +:+ q.
Proof.
  unfold trim_space, trim_right, trim_left. fold rev_encodings.
  destruct (strip_fuel_suffix (String.length s) space_encodings s encodings_nonempty) as [p Hp].
  set (t := strip_fuel _ _ s) in *.
  destruct (strip_fuel_suffix (String.length t) rev_encodings (String.rev t) rev_encodings_nonempty) as [q Hq].
  exists p, (String.rev q). rewrite Hp at 1. f_equal.
  rewrite <- str_rev_concat, <- Hq. by rewrite str_rev_involutive.
Qed.

Lemma trim_space_idem s : trim_space (trim_space s) = trim_space s.
Proof.
  unfold trim_space at 1 3. set (t := trim_left s).
  assert (Ht : strip_one space_encodings t = None)
    by (apply strip_fuel_done; [exact encodings_nonempty|done]).
  assert (Hr : strip_one rev_encodings (String.rev (trim_right t)) = None).
  { unfold trim_right. rewrite str_rev_involutive. apply strip_fuel_done; [exact rev_encodings_nonempty|].
    by rewrite str_rev_length. }
  assert (Hl : strip_one space_encodings (trim_right t) = None).
  { destruct (strip_fuel_suffix (String.length t) rev_encodings (String.rev t) rev_encodings_nonempty) as [q Hq].
    apply (strip_one_prefix _ _ (String.rev q)). unfold trim_right. fold rev_encodings.
    rewrite <- str_rev_concat, <- Hq. by rewrite str_rev_involutive. }
  unfold trim_space. fold t. set (u := trim_right t) in *.
  unfold trim_left. rewrite strip_fuel_stable by done. unfold trim_right. fold rev_encodings.
  rewrite strip_fuel_stable by done. apply str_rev_involutive.
Qed.

Lemma trim_space_lead s : trim_space (String (chr 32) s) = trim_space s.
Proof. done. Qed.

Lemma contains_char_app c a b :
  str_contains_char c (a +:+ b) = str_contains_char c a || str_contains_char c b.
Proof.
  induction a as [|x a IH]; [done|]. change (String x a +:+ b) with (String x (a +:+ b)).
  simpl. by rewrite IH, orb_assoc.
Qed.

Lemma split_on_clean c s : Forall (fun p => str_contains_char c p = false) (split_on c s).
Proof.
  induction s as [|a s IH]; simpl; [by constructor|]. destruct (Ascii.eqb a c) eqn:E; [by constructor|].
  destruct (split_on c s) as [|w ws]; constructor.
  - simpl. by rewrite E.
  - done.
  - inversion IH; subst. simpl. by rewrite E.
  - by inversion IH.
Qed.

(** *** Printable text is not trimmed *)

Fixpoint str_forall (f : Ascii.ascii -> bool) (s : string) : bool :=
  match s with EmptyString => true | String c r => f c && str_forall f r end.

Definition printable (c : Ascii.ascii) : bool := (33 <=? char_z c) && (char_z c <=? 126).

Definition starts_printable (s : string) : bool :=
  match s with String c _ => printable c | EmptyString => false end.

Lemma strip_printable n encs s :
  forallb (fun e => match e with String c _ => negb (printable c) | EmptyString => false end) encs = true ->
  starts_printable s = true -> strip_fuel n encs s = s.
Proof.
  intros He Hs. destruct n as [|n]; [done|]. cbn [strip_fuel].
  replace (strip_one encs s) with (@None string); [done|]. symmetry. unfold strip_one.
  induction encs as [|e encs IH]; [done|]. cbn [forallb foldr] in *. bool_hyps.
  destruct e as [|c e]; [done|]. destruct s as [|d s]; [done|]. cbn [cut_prefix starts_printable] in *.
  bool_hyps.
  destruct (Ascii.eqb_spec c d) as [->|]; [congruence|by apply IH].
Qed.

Lemma trim_printable s :
  starts_printable s = true -> starts_printable (String.rev s) = true -> trim_space s = s.
Proof.
  intros H1 H2. unfold trim_space, trim_left. rewrite strip_printable by done.
  unfold trim_right. rewrite strip_printable by done. apply str_rev_involutive.
Qed.

Lemma forall_starts s : s <> "" -> str_forall printable s = true -> starts_printable s = true.
Proof. destruct s; simpl; [done|]. intros. by bool_hyps. Qed.

Lemma str_forall_impl (f g : Ascii.ascii -> bool) s :
  (forall c, f c = true -> g c = true) -> str_forall f s = true -> str_forall g s = true.
Proof. intros Hfg. induction s as [|c s IH]; simpl; [done|]. intros. bool_hyps. by rewrite Hfg, IH. Qed.

Lemma str_forall_app f a b : str_forall f (a +:+ b) = str_forall f a && str_forall f b.
Proof.
  induction a as [|x a IH]; [done|]. change (String x a +:+ b) with (String x (a +:+ b)).
  simpl. by rewrite IH, andb_assoc.
Qed.

Lemma str_forall_rev f s : str_forall f (String.rev s) = str_forall f s.
Proof.
  induction s as [|c s IH]; [done|]. change (String c s) with (String c "" +:+ s) at 1.
  rewrite str_rev_concat, str_forall_app, IH. simpl. by rewrite andb_true_r, andb_comm.
Qed.

Lemma trim_all_printable s : str_forall printable s = true -> trim_space s = s.
Proof.
  intros H. destruct (String.eqb_spec s "") as [->|Hne]; [done|]. apply trim_printable; [by apply forall_starts|].
  apply forall_starts; [|by rewrite str_forall_rev]. intros E. apply Hne. by rewrite <- (str_rev_involutive s), E.
Qed.

Lemma find_app {A} (P : A -> bool) l1 l2 :
  List.find P (l1 ++ l2) = match List.find P l1 with Some x => Some x | None => List.find P l2 end.
Proof. induction l1 as [|x l1 IH]; simpl; [done|]. by destruct (P x). Qed.

Lemma ltb_leb s t : String.ltb s t = negb (String.leb t s).
Proof. unfold String.ltb, String.leb. rewrite (String.compare_antisym t s). by destruct (String.compare s t). Qed.
