(* ===== verification/GoValue.v ===== *)
(** * Dynamic Go values

    The [any] values that reach the frame packages (a JSON or MsgPack payload
    decodes into [map[string]any]), the map operations on them and the type
    assertions the packages share.  A [map[string]any] is an association list
    read by its first binding; [dict_set] replaces in place or appends, so a
    key that was unique stays unique.  A [float64] is a [spec_float] of the
    Standard Library (binary64 through the constants [53] and [1024]); a
    [float32] is its 32-bit pattern. *)

From S2P Require Import Prelude.
From Stdlib Require Export SpecFloat.

Abbreviation float64 := spec_float.

Inductive int_kind : Set :=
| KInt | KInt8 | KInt16 | KInt32 | KInt64
| KUint | KUint8 | KUint16 | KUint32 | KUint64.

Inductive any : Type :=
| VNil
| VBool (b : bool)
| VString (s : string)
| VInt (k : int_kind) (z : Z)
| VFloat64 (f : float64)
| VFloat32 (bits : Z)
| VNumber (lit : string)                   (* json.Number *)
| VSlice (l : list any)                    (* []any *)
| VStrings (l : list string)               (* []string *)
| VFloats32 (l : list Z)                   (* []float32 *)
| VFloats64 (l : list float64)             (* []float64 *)
| VMap (m : list (string * any))           (* map[string]any *)
| VMaps (l : list (list (string * any))).  (* []map[string]any *)

Abbreviation dict := (list (string * any)).

#[export] Instance int_kind_eq_dec : EqDecision int_kind.
Proof. solve_decision. Defined.
#[export] Instance spec_float_eq_dec : EqDecision spec_float.
Proof. solve_decision. Defined.

(** ** Association lists *)

Section Assoc.
Context {A : Type}.

Fixpoint assoc_get (k : string) (m : list (string * A)) : option A :=
  match m with
  | [] => None
  | (k', v) :: r => if String.eqb k' k then Some v else assoc_get k r
  end.

Fixpoint assoc_set (k : string) (v : A) (m : list (string * A)) : list (string * A) :=
  match m with
  | [] => [(k, v)]
  | (k', w) :: r => if String.eqb k' k then (k, v) :: r else (k', w) :: assoc_set k v r
  end.

Fixpoint assoc_del (k : string) (m : list (string * A)) : list (string * A) :=
  match m with
  | [] => []
  | (k', w) :: r => if String.eqb k' k then assoc_del k r else (k', w) :: assoc_del k r
  end.

Lemma assoc_get_set_eq k v m : assoc_get k (assoc_set k v m) = Some v.
Proof.
  induction m as [|[k' w] m IH]; simpl; [by rewrite String.eqb_refl|].
  destruct (String.eqb k' k) eqn:E; simpl; [by rewrite String.eqb_refl|].
  by rewrite E.
Qed.

Lemma assoc_get_set_ne k k' v m : k <> k' -> assoc_get k' (assoc_set k v m) = assoc_get k' m.
Proof.
  intros Hk. assert (E : String.eqb k k' = false) by by apply String.eqb_neq.
  induction m as [|[k0 w] m IH]; simpl; [by rewrite E|].
  destruct (String.eqb k0 k) eqn:E0; simpl.
  - apply String.eqb_eq in E0. subst. by rewrite E.
  - by rewrite IH.
Qed.

Lemma assoc_set_keys k v m :
  (assoc_set k v m).*1 = m.*1 \/ (k ∉ m.*1 /\ (assoc_set k v m).*1 = m.*1 ++ [k]).
Proof.
  induction m as [|[k' w] m IH]; simpl; [right; split; [set_solver|done]|].
  destruct (String.eqb k' k) eqn:E; csimpl.
  - apply String.eqb_eq in E. subst. by left.
  - apply String.eqb_neq in E. destruct IH as [IH|[Hk IH]]; rewrite IH; [by left|right].
    split; [set_solver|done].
Qed.

Lemma assoc_set_nodup k v m : NoDup m.*1 -> NoDup (assoc_set k v m).*1.
Proof.
  intros H. destruct (assoc_set_keys k v m) as [E|[Hk E]]; rewrite E; [done|].
  apply NoDup_app. split_and!; [done| |apply NoDup_singleton]. set_solver.
Qed.

Lemma assoc_get_None k m : k ∉ m.*1 -> assoc_get k m = None.
Proof.
  induction m as [|[k' w] m IH]; [done|]. csimpl. intros Hk. simpl.
  destruct (String.eqb_spec k' k); [set_solver|]. apply IH. set_solver.
Qed.

Lemma assoc_get_elem k v m : NoDup m.*1 -> assoc_get k m = Some v <-> (k, v) ∈ m.
Proof.
  induction m as [|[k0 e0] m IH]; intros Hnd; [set_solver|]. csimpl in Hnd.
  apply NoDup_cons in Hnd as [Hk Hnd]. simpl. rewrite elem_of_cons.
  destruct (String.eqb_spec k0 k) as [->|Hne].
  - split; [intros [= ->]; by left|]. intros [[= ->]|Hin]; [done|].
    destruct Hk. apply list_elem_of_fmap. by exists (k, v).
  - rewrite IH by done. naive_solver.
Qed.
End Assoc.

Abbreviation dict_get := (assoc_get (A := any)).
Abbreviation dict_set := (assoc_set (A := any)).

(** [d[k]] as an [any]: the zero value [nil] when the key is absent. *)
Definition dict_at (d : dict) (k : string) : any := default VNil (dict_get k d).

(** ** Type assertions *)

Definition as_string (v : any) : option string :=
  match v with VString s => Some s | _ => None end.
Definition as_bool (v : any) : option bool :=
  match v with VBool b => Some b | _ => None end.
Definition as_map (v : any) : option dict :=
  match v with VMap m => Some m | _ => None end.
Definition as_slice (v : any) : option (list any) :=
  match v with VSlice l => Some l | _ => None end.

(** The [asStringSlice] closures: a [[]string] as it is, the string elements
    of a [[]any], [nil] otherwise. *)
Definition as_string_slice (v : any) : option (list string) :=
  match v with
  | VStrings l => Some l
  | VSlice l => Some (omap as_string l)
  | _ => None
  end.

(** ** Integers and float64 *)

(** [float64(z)] for an integer: round to nearest even at 53 bits. *)
Definition float64_of_Z (z : Z) : float64 := binary_normalize 53 1024 z 0 false.

(** Truncation towards zero of a finite float64. *)
Definition float_trunc (f : float64) : option Z :=
  match f with
  | S754_zero _ => Some 0
  | S754_finite s m e =>
      let a := if 0 <=? e then Zpos m * 2 ^ e else Zpos m / 2 ^ (- e) in
      Some (if s then - a else a)
  | _ => None
  end.

(** [uint64(f)]; outside the range of [uint64] the value the amd64 compiler gives. *)
Definition uint64_of_float (f : float64) : Z :=
  match float_trunc f with
  | Some t => if (- 2 ^ 63 <=? t) && (t <? 2 ^ 64) then u64 t else 2 ^ 63
  | None => 2 ^ 63
  end.

(** [int64(v)]; outside the range the value the amd64 compiler gives. *)
Definition int64_of_float (f : float64) : Z :=
  match float_trunc f with
  | Some t => if (- 2 ^ 63 <=? t) && (t <? 2 ^ 63) then t else - 2 ^ 63
  | None => - 2 ^ 63
  end.

Lemma digits2_pos_log2 p : Zpos (digits2_pos p) = Z.log2 (Zpos p) + 1.
Proof.
  induction p as [p IH|p IH|]; simpl digits2_pos; [..|done].
  - rewrite Pos2Z.inj_succ, IH, Pos2Z.inj_xI, Z.log2_succ_double; lia.
  - rewrite Pos2Z.inj_succ, IH, Pos2Z.inj_xO, Z.log2_double; lia.
Qed.

Lemma iter_xO_mul d p : Zpos (Pos.iter xO p d) = Zpos p * 2 ^ Zpos d.
Proof.
  induction d using Pos.peano_ind; [simpl; lia|].
  rewrite Pos.iter_succ, Pos2Z.inj_xO, IHd, Pos2Z.inj_succ, Z.pow_succ_r; lia.
Qed.

Lemma shr_fexp_fixed m e :
  fexp 53 1024 (Zdigits2 m + e) = e ->
  shr_fexp 53 1024 m e loc_Exact = (Build_shr_record m false false, e).
Proof. intros E. unfold shr_fexp. by rewrite E, Z.sub_diag. Qed.

Lemma binary_round_aux_fixed m e :
  fexp 53 1024 (Zpos (digits2_pos m) + e) = e -> e <= 971 ->
  binary_round_aux 53 1024 false (Zpos m) e loc_Exact = S754_finite false m e.
Proof.
  intros E He. unfold binary_round_aux. rewrite shr_fexp_fixed by done. simpl.
  rewrite shr_fexp_fixed by done. simpl. by rewrite (proj2 (Z.leb_le _ _)).
Qed.

(** Integers below 2^53 are exact in float64. *)
Lemma float64_of_Z_trunc z : 0 <= z < 2 ^ 53 -> float_trunc (float64_of_Z z) = Some z.
Proof.
  intros [Hz0 Hz]. destruct z as [|p|p]; [done| |lia].
  unfold float64_of_Z, binary_normalize, binary_round.
  assert (Hd : 1 <= Zpos (digits2_pos p) <= 53).
  { rewrite digits2_pos_log2. pose proof (Z.log2_nonneg (Zpos p)).
    assert (Z.log2 (Zpos p) < 53) by (apply Z.log2_lt_pow2; lia). lia. }
  assert (Hf : fexp 53 1024 (Zpos (digits2_pos p) + 0) = Zpos (digits2_pos p) - 53).
  { unfold fexp, emin. lia. }
  rewrite Hf. unfold shl_align. rewrite Z.sub_0_r.
  destruct (Zpos (digits2_pos p) - 53) as [|d|d] eqn:E; [|lia|].
  - rewrite binary_round_aux_fixed; [|unfold fexp, emin; lia|lia]. simpl. f_equal. lia.
  - rewrite binary_round_aux_fixed; [| |lia].
    + unfold float_trunc. rewrite (proj2 (Z.leb_gt _ _)) by lia.
      rewrite iter_xO_mul. change (- Z.neg d) with (Zpos d).
      rewrite Z.div_mul by (pose proof (Z.pow_pos_nonneg 2 (Zpos d)); lia). done.
    + rewrite digits2_pos_log2, iter_xO_mul, Z.log2_mul_pow2 by lia.
      rewrite digits2_pos_log2 in *. unfold fexp, emin. lia.
Qed.

Lemma uint64_of_float_exact z : 0 <= z < 2 ^ 53 -> uint64_of_float (float64_of_Z z) = z.
Proof.
  intros Hz. unfold uint64_of_float. rewrite float64_of_Z_trunc by done.
  rewrite (proj2 (Z.leb_le _ _)), (proj2 (Z.ltb_lt _ _)) by lia. simpl.
  apply wrapu_small. lia.
Qed.

Lemma int64_of_float_exact z : 0 <= z < 2 ^ 53 -> int64_of_float (float64_of_Z z) = z.
Proof.
  intros Hz. unfold int64_of_float. rewrite float64_of_Z_trunc by done.
  by rewrite (proj2 (Z.leb_le _ _)), (proj2 (Z.ltb_lt _ _)) by lia.
Qed.

(** [json.Number.Int64]: the value and whether there was no error; out of range
    the nearest int64, and 0 on a syntax error. *)
Definition Number_Int64 (lit : string) : Z * bool :=
  let '(neg, digits) := match lit with
                        | String c r => if Ascii.eqb c (chr 45) then (true, r)
                                        else if Ascii.eqb c (chr 43) then (false, r) else (false, lit)
                        | EmptyString => (false, lit)
                        end in
  match digits, parse_digits digits 0 with
  | EmptyString, _ | _, None => (0, false)
  | _, Some n => if neg then (if n <=? 2 ^ 63 then (- n, true) else (- 2 ^ 63, false))
                 else (if n <? 2 ^ 63 then (n, true) else (2 ^ 63 - 1, false))
  end.

(** ** Induction on values

    The induction principle that reaches the members of slices and maps. *)
Section AnyInd.
Context (P : any -> Prop)
  (Hleaf : forall v, (forall l, v <> VSlice l) -> (forall m, v <> VMap m) -> P v)
  (Hslice : forall l, Forall P l -> P (VSlice l))
  (Hmap : forall m, Forall (fun p : string * any => P p.2) m -> P (VMap m)).

Fixpoint any_nested_ind (v : any) : P v :=
  match v with
  | VSlice l =>
      Hslice l ((fix go l : Forall P l :=
        match l with [] => Forall_nil_2 _ | x :: r => Forall_cons_2 _ _ _ (any_nested_ind x) (go r) end) l)
  | VMap m =>
      Hmap m ((fix go m : Forall (fun p : string * any => P p.2) m :=
        match m with [] => Forall_nil_2 _ | x :: r => Forall_cons_2 _ _ _ (any_nested_ind x.2) (go r) end) m)
  | VNil => Hleaf VNil ltac:(done) ltac:(done)
  | VBool b => Hleaf (VBool b) ltac:(done) ltac:(done)
  | VString s => Hleaf (VString s) ltac:(done) ltac:(done)
  | VInt k z => Hleaf (VInt k z) ltac:(done) ltac:(done)
  | VFloat64 f => Hleaf (VFloat64 f) ltac:(done) ltac:(done)
  | VFloat32 b => Hleaf (VFloat32 b) ltac:(done) ltac:(done)
  | VNumber s => Hleaf (VNumber s) ltac:(done) ltac:(done)
  | VStrings l => Hleaf (VStrings l) ltac:(done) ltac:(done)
  | VFloats32 l => Hleaf (VFloats32 l) ltac:(done) ltac:(done)
  | VFloats64 l => Hleaf (VFloats64 l) ltac:(done) ltac:(done)
  | VMaps l => Hleaf (VMaps l) ltac:(done) ltac:(done)
  end.
End AnyInd.
