(* ===== verification/GoUtf8.v ===== *)
(** * UTF-8

    The runes of a string and [utf8.ValidString].  As everywhere in Go, a byte that
    does not start a valid sequence is read as U+FFFD. *)

From S2P Require Import Prelude.

Definition cont_byte (lo hi : Z) (c : Ascii.ascii) : bool :=
  (lo <=? char_z c) && (char_z c <=? hi).

(** Length of the valid multi-byte UTF-8 sequence at the head, if there is one
    ([utf8.DecodeRuneInString]). *)
Definition utf8_multi (s : string) : option nat :=
  match s with
  | String a (String b r) =>
      let x := char_z a in
      if (0xC2 <=? x) && (x <=? 0xDF) then if cont_byte 0x80 0xBF b then Some 2%nat else None
      else
        let lo := if x =? 0xE0 then 0xA0 else if x =? 0xF0 then 0x90 else 0x80 in
        let hi := if x =? 0xED then 0x9F else if x =? 0xF4 then 0x8F else 0xBF in
        if negb (cont_byte lo hi b) then None
        else if (0xE0 <=? x) && (x <=? 0xEF) then
          match r with String c _ => if cont_byte 0x80 0xBF c then Some 3%nat else None | _ => None end
        else if (0xF0 <=? x) && (x <=? 0xF4) then
          match r with
          | String c (String d _) =>
              if cont_byte 0x80 0xBF c && cont_byte 0x80 0xBF d then Some 4%nat else None
          | _ => None
          end
        else None
  | _ => None
  end.

Definition rune_error : string := str_of [0xEF; 0xBF; 0xBD]%N.

(** The runes of a string, an invalid byte being read as U+FFFD. *)
Fixpoint runes (fuel : nat) (s : string) : list string :=
  match fuel, s with
  | O, _ | _, EmptyString => []
  | S n, String c r =>
      if char_z c <? 0x80 then String c "" :: runes n r
      else match utf8_multi s with
           | None => rune_error :: runes n r
           | Some k => String.substring 0 k s :: runes n (String.substring k (String.length s - k) s)
           end
  end.

Definition runes_of (s : string) : list string := runes (String.length s) s.

(** [utf8.ValidString]. *)
Fixpoint valid_utf8 (fuel : nat) (s : string) : bool :=
  match fuel, s with
  | O, EmptyString => true
  | O, _ => false
  | _, EmptyString => true
  | S n, String c r =>
      if char_z c <? 0x80 then valid_utf8 n r
      else match utf8_multi s with
           | None => false
           | Some k => valid_utf8 n (String.substring k (String.length s - k) s)
           end
  end.
