(* ===== verification/GoBase64.v ===== *)
(** * encoding/base64

    The encodings that the packages use: the URL alphabet without padding
    ([RawURLEncoding]) and with it ([URLEncoding]), and the decoder of the
    standard alphabet without padding ([RawStdEncoding]).  As in Go, the decoders
    skip line ends and do not check the unused bits of the last character. *)

From S2P Require Import Prelude.
From Stdlib Require Import Ascii.

(** ** The URL alphabet *)

Definition b64_char (v : Z) : Ascii.ascii :=
  chr (Z.to_N (if v <? 26 then 65 + v else if v <? 52 then 97 + (v - 26)
               else if v <? 62 then 48 + (v - 52) else if v =? 62 then 45 else 95)).

Definition b64_value (c : Ascii.ascii) : option Z :=
  let z := char_z c in
  if (65 <=? z) && (z <=? 90) then Some (z - 65)
  else if (97 <=? z) && (z <=? 122) then Some (z - 97 + 26)
  else if (48 <=? z) && (z <=? 57) then Some (z - 48 + 52)
  else if z =? 45 then Some 62 else if z =? 95 then Some 63 else None.

(** [RawURLEncoding.EncodeToString]. *)
Fixpoint b64_encode (l : list byte) : list Z :=
  match l with
  | a :: b :: c :: r =>
      let n := byte_z a * 65536 + byte_z b * 256 + byte_z c in
      n / 262144 :: n / 4096 mod 64 :: n / 64 mod 64 :: n mod 64 :: b64_encode r
  | [a; b] => let n := byte_z a * 65536 + byte_z b * 256 in [n / 262144; n / 4096 mod 64; n / 64 mod 64]
  | [a] => let n := byte_z a * 65536 in [n / 262144; n / 4096 mod 64]
  | [] => []
  end.

Fixpoint b64_decode (l : list Z) : option (list byte) :=
  match l with
  | a :: b :: c :: d :: r =>
      let n := a * 262144 + b * 4096 + c * 64 + d in
      (fun t => z_byte (n / 65536) :: z_byte (n / 256) :: z_byte n :: t) <$> b64_decode r
  | [a; b; c] => let n := a * 262144 + b * 4096 + c * 64 in Some [z_byte (n / 65536); z_byte (n / 256)]
  | [a; b] => let n := a * 262144 + b * 4096 in Some [z_byte (n / 65536)]
  | [_] => None
  | [] => Some []
  end.

Definition chars_of (s : string) : list Ascii.ascii := String.list_ascii_of_string s.
Definition string_of (l : list Ascii.ascii) : string := String.string_of_list_ascii l.

(** The decoder skips line ends. *)
Definition no_newlines (s : string) : list Ascii.ascii :=
  List.filter (fun c => negb (Ascii.eqb c (chr 10)) && negb (Ascii.eqb c (chr 13))) (chars_of s).

Definition RawURL_Encode (l : list byte) : string := string_of (b64_char <$> b64_encode l).
Definition RawURL_Decode (s : string) : option (list byte) :=
  vs ← mapM b64_value (no_newlines s); b64_decode vs.

(** [URLEncoding.DecodeString]: whole quanta, the last one padded with [=]. *)
Definition URL_Decode (s : string) : option (list byte) :=
  let cs := no_newlines s in
  let n := length cs in
  let pad := if bool_decide (drop (n - 2) cs = ["="%char; "="%char]) then 2%nat
             else if bool_decide (drop (n - 1) cs = ["="%char]) then 1%nat else 0%nat in
  if (n mod 4 =? 0)%nat then vs ← mapM b64_value (take (n - pad) cs); b64_decode vs else None.

(** Padding of a text whose length is no multiple of four, where the code tolerates none. *)
Definition pad4 (s : string) : string :=
  let pad := (String.length s mod 4)%nat in if (pad =? 0)%nat then s else s +:+ String.substring 0 (4 - pad) "====".

(** [strings.NewReplacer("-", "+", "_", "/")] on one character. *)
Definition std_char (c : Ascii.ascii) : Ascii.ascii :=
  if Ascii.eqb c (chr 45) then chr 43 else if Ascii.eqb c (chr 95) then chr 47 else c.

(** A character of the standard alphabet: 62 is [+] and 63 is [/]. *)
Definition std_value (c : Ascii.ascii) : option Z :=
  let z := char_z c in
  if z =? 43 then Some 62 else if z =? 47 then Some 63
  else if (z =? 45) || (z =? 95) then None else b64_value c.

(** [RawStdEncoding.DecodeString]. *)
Definition RawStd_Decode (s : string) : option (list byte) :=
  vs ← mapM std_value (no_newlines s); b64_decode vs.

(** ** Round trip *)

Lemma z_byte_u8 z : z_byte z = z_byte (u8 z).
Proof. unfold z_byte, wrapu. by rewrite Z.mod_mod by done. Qed.

Lemma z_byte_mod z b : z mod 256 = byte_z b -> z_byte z = b.
Proof. intros H. rewrite z_byte_u8. unfold wrapu. change (2 ^ 8) with 256. rewrite H. apply z_byte_byte_z. Qed.

Lemma digits4 n :
  0 <= n -> n / 262144 * 262144 + n / 4096 mod 64 * 4096 + n / 64 mod 64 * 64 + n mod 64 = n.
Proof. intros. Z.div_mod_to_equations. lia. Qed.

Lemma b64_quantum a b c :
  let n := byte_z a * 65536 + byte_z b * 256 + byte_z c in
  z_byte (n / 65536) = a /\ z_byte (n / 256) = b /\ z_byte n = c.
Proof.
  pose proof (byte_z_range a). pose proof (byte_z_range b). pose proof (byte_z_range c).
  split_and!; apply z_byte_mod; Z.div_mod_to_equations; lia.
Qed.

Lemma b64_roundtrip l : b64_decode (b64_encode l) = Some l.
Proof.
  assert (H : forall n l, (length l <= n)%nat -> b64_decode (b64_encode l) = Some l); [|by eapply H].
  clear l. induction n as [|n IH]; intros l Hl; [by destruct l; [|simpl in Hl; lia]|].
  destruct l as [|a [|b [|c r]]]; cbn [b64_encode]; cbv zeta; [done|..].
  - cbn [b64_decode]. cbv zeta. pose proof (byte_z_range a). f_equal. f_equal. apply z_byte_mod.
    Z.div_mod_to_equations. lia.
  - cbn [b64_decode]. cbv zeta. pose proof (byte_z_range a). pose proof (byte_z_range b). do 2 f_equal; [|f_equal];
      apply z_byte_mod; Z.div_mod_to_equations; lia.
  - cbn [b64_decode]. cbv zeta. pose proof (byte_z_range a). pose proof (byte_z_range b). pose proof (byte_z_range c).
    rewrite digits4 by lia. rewrite IH by (simpl in Hl; lia). simpl.
    destruct (b64_quantum a b c) as (-> & -> & ->). done.
Qed.

Lemma b64_encode_range l : Forall (fun v => 0 <= v < 64) (b64_encode l).
Proof.
  assert (H : forall n l, (length l <= n)%nat -> Forall (fun v => 0 <= v < 64) (b64_encode l)); [|by eapply H].
  clear l. induction n as [|n IH]; intros l Hl; [by destruct l; [constructor|simpl in Hl; lia]|].
  destruct l as [|a [|b [|c r]]]; cbn [b64_encode]; cbv zeta; [constructor|..];
    pose proof (byte_z_range a); try (pose proof (byte_z_range b)); try (pose proof (byte_z_range c));
    repeat (apply Forall_cons; split; [Z.div_mod_to_equations; lia|]); [constructor..|].
  apply IH. simpl in Hl. lia.
Qed.

Lemma b64_char_value v :
  0 <= v < 64 -> b64_value (b64_char v) = Some v /\ b64_char v <> chr 10 /\ b64_char v <> chr 13.
Proof.
  intros Hv. assert (forall n, (n < 64)%nat -> bool_decide (b64_value (b64_char (Z.of_nat n)) = Some (Z.of_nat n) /\
    b64_char (Z.of_nat n) <> chr 10 /\ b64_char (Z.of_nat n) <> chr 13) = true) as H.
  { assert (forallb (fun n => bool_decide (b64_value (b64_char (Z.of_nat n)) = Some (Z.of_nat n) /\
      b64_char (Z.of_nat n) <> chr 10 /\ b64_char (Z.of_nat n) <> chr 13)) (seq 0 64) = true) as Hb by (vm_compute; done).
    rewrite forallb_forall in Hb. intros n Hn. apply Hb, in_seq. lia. }
  specialize (H (Z.to_nat v) ltac:(lia)). rewrite Z2Nat.id in H by lia. by apply bool_decide_eq_true in H.
Qed.

(** The characters of an encoding are kept and read back. *)
Lemma b64_chars_clean vs : Forall (fun v => 0 <= v < 64) vs ->
  List.filter (fun c => negb (Ascii.eqb c (chr 10)) && negb (Ascii.eqb c (chr 13))) (b64_char <$> vs) = b64_char <$> vs /\
  mapM b64_value (b64_char <$> vs) = Some vs.
Proof.
  induction 1 as [|v vs Hv _ [IH1 IH2]]; [done|]. destruct (b64_char_value v Hv) as (E & H1 & H2).
  apply Ascii.eqb_neq in H1, H2. change (b64_char <$> v :: vs) with (b64_char v :: (b64_char <$> vs)).
  cbn [List.filter]. rewrite H1, H2. cbn [negb andb]. rewrite IH1. split; [done|].
  change (mapM b64_value (b64_char v :: (b64_char <$> vs))) with
    (y ← b64_value (b64_char v); k ← mapM b64_value (b64_char <$> vs); mret (y :: k)).
  by rewrite E, IH2.
Qed.

Lemma RawURL_roundtrip l : RawURL_Decode (RawURL_Encode l) = Some l.
Proof.
  unfold RawURL_Decode, RawURL_Encode, no_newlines, chars_of, string_of.
  rewrite String.list_ascii_of_string_of_list_ascii.
  destruct (b64_chars_clean _ (b64_encode_range l)) as [-> ->]. simpl. apply b64_roundtrip.
Qed.

Lemma b64_encode_length l : length (b64_encode l) = (match length l mod 3 with 0 => 4 * (length l / 3) | S k => 4 * (length l / 3) + k + 2 end)%nat.
Proof.
  assert (H : forall n l, (length l <= n)%nat -> length (b64_encode l) = (match length l mod 3 with 0 => 4 * (length l / 3) | S k => 4 * (length l / 3) + k + 2 end)%nat); [|by eapply H].
  clear l. induction n as [|n IH]; intros l Hl; [by destruct l; [|simpl in Hl; lia]|].
  destruct l as [|a [|b [|c r]]]; [done..|]. cbn [b64_encode length]. cbv zeta. cbn [length]. rewrite IH by (simpl in Hl; lia).
  replace (S (S (S (length r)))) with (length r + 1 * 3)%nat by lia. rewrite Nat.Div0.mod_add, Nat.div_add by lia. destruct (length r mod 3)%nat; lia.
Qed.

Lemma b64_char_not_pad v : 0 <= v < 64 -> b64_char v <> "="%char.
Proof. intros Hv E. destruct (b64_char_value v Hv) as [Hc _]. by rewrite E in Hc. Qed.

Definition padding (n : nat) : list Ascii.ascii := match (n mod 4)%nat with 0%nat => [] | S k => List.repeat "="%char (3 - k) end.

Lemma pad4_chars s : chars_of (pad4 s) = chars_of s ++ padding (String.length s).
Proof.
  unfold pad4, padding, chars_of. cbv zeta. pose proof (Nat.mod_upper_bound (String.length s) 4 ltac:(lia)).
  assert (Happ : forall a b, String.list_ascii_of_string (a +:+ b) = String.list_ascii_of_string a ++ String.list_ascii_of_string b).
  { intros a b. induction a as [|c a IH]; [done|]. exact (f_equal (cons c) IH). }
  destruct (String.length s mod 4)%nat as [|[|[|[|]]]]; cbn; [by rewrite app_nil_r|by rewrite Happ..|lia].
Qed.

Lemma padding_clean n :
  List.filter (fun c => negb (Ascii.eqb c (chr 10)) && negb (Ascii.eqb c (chr 13))) (padding n) = padding n.
Proof.
  unfold padding. destruct (n mod 4)%nat as [|k]; [done|]. generalize (3 - k)%nat. intros m. induction m as [|m IH]; [done|].
  cbn [List.repeat]. exact (f_equal (cons "="%char) IH).
Qed.

(** [URLEncoding] reads a padded [RawURLEncoding]. *)
Lemma URL_pad_roundtrip l : URL_Decode (pad4 (RawURL_Encode l)) = Some l.
Proof.
  unfold URL_Decode, no_newlines. rewrite pad4_chars.
  assert (Hcl : chars_of (RawURL_Encode l) = b64_char <$> b64_encode l) by apply String.list_ascii_of_string_of_list_ascii.
  destruct (b64_chars_clean _ (b64_encode_range l)) as [Hf Hm]. rewrite Hcl, List.filter_app, Hf, padding_clean.
  assert (Hlen : String.length (RawURL_Encode l) = length (b64_encode l)).
  { unfold RawURL_Encode, string_of. rewrite <- (length_fmap b64_char). generalize (b64_char <$> b64_encode l). intros x. induction x as [|c x IH]; [done|]. exact (f_equal S IH). }
  rewrite Hlen. pose proof (b64_encode_length l) as Hl. pose proof (Nat.mod_upper_bound (length l) 3 ltac:(lia)).
  assert (Hno : "="%char ∉ b64_char <$> b64_encode l).
  { intros (v & E & Hv)%list_elem_of_fmap. pose proof (b64_encode_range l) as Hr. rewrite Forall_forall in Hr. by apply (b64_char_not_pad v); [apply Hr|]. }
  set (cs := b64_char <$> b64_encode l) in *. assert (Hcs : length cs = length (b64_encode l)) by apply length_fmap. unfold padding.
  assert (Hdrop : forall k p, (k + length p)%nat = 2%nat \/ (k + length p)%nat = 1%nat -> (0 < k)%nat -> Forall (fun c => c = "="%char) p ->
    drop (length (cs ++ p) - (k + length p)) (cs ++ p) = repeat "="%char (k + length p) -> False).
  { intros k p Hk H0 _ E. destruct (decide (k <= length cs)%nat) as [Hle|Hgt].
    - rewrite length_app in E. replace (length cs + length p - (k + length p))%nat with (length cs - k)%nat in E by lia.
      rewrite drop_app_le in E by lia. destruct (drop (length cs - k) cs) as [|c r] eqn:Ed; [apply (f_equal length) in Ed; rewrite length_drop in Ed; cbn in Ed; lia|].
      apply Hno. rewrite <- (take_drop (length cs - k) cs), Ed. destruct k as [|k]; [lia|]. cbn in E. injection E as -> _. set_solver.
    - apply (f_equal length) in E. rewrite length_drop, repeat_length, length_app in E. lia. }
  destruct (length l mod 3)%nat as [|[|[|]]] eqn:E3; [| | |lia].
  - replace (length (b64_encode l) mod 4)%nat with 0%nat by (rewrite Hl; symmetry; rewrite Nat.mul_comm; apply Nat.Div0.mod_mul).
    rewrite app_nil_r, Hcs. specialize (Hdrop). rewrite bool_decide_eq_false_2, bool_decide_eq_false_2.
    + replace (length (b64_encode l) mod 4)%nat with 0%nat by (rewrite Hl; symmetry; rewrite Nat.mul_comm; apply Nat.Div0.mod_mul).
      cbn [Nat.eqb]. rewrite Nat.sub_0_r, take_ge by lia. rewrite Hm. apply b64_roundtrip.
    + intros E. apply (Hdrop 1%nat []); [by right|lia|constructor|]. rewrite app_nil_r. cbn [length]. rewrite Hcs, Nat.add_0_r. exact E.
    + intros E. apply (Hdrop 2%nat []); [by left|lia|constructor|]. rewrite app_nil_r. cbn [length]. rewrite Hcs, Nat.add_0_r. exact E.
  - assert (Hm4 : (length (b64_encode l) mod 4 = 2)%nat).
    { rewrite Hl. replace (4 * (length l / 3) + 0 + 2)%nat with (2 + (length l / 3) * 4)%nat by lia. by rewrite Nat.Div0.mod_add. }
    rewrite Hm4. cbn [Nat.sub List.repeat].
    rewrite length_app. cbn [length]. rewrite bool_decide_eq_true_2 by (replace (length cs + 2 - 2)%nat with (length cs) by lia; apply drop_app_length).
    replace ((length cs + 2) mod 4)%nat with 0%nat by (rewrite Hcs, Nat.Div0.add_mod, Hm4; done). cbn [Nat.eqb].
    replace (length cs + 2 - 2)%nat with (length cs) by lia. rewrite take_app_length, Hm. apply b64_roundtrip.
  - assert (Hm4 : (length (b64_encode l) mod 4 = 3)%nat).
    { rewrite Hl. replace (4 * (length l / 3) + 1 + 2)%nat with (3 + (length l / 3) * 4)%nat by lia. by rewrite Nat.Div0.mod_add. }
    rewrite Hm4. cbn [Nat.sub List.repeat].
    rewrite length_app. cbn [length]. rewrite bool_decide_eq_false_2; [|intros E; apply (Hdrop 1%nat ["="%char]); [by left|lia|by repeat constructor|rewrite length_app; exact E]].
    rewrite bool_decide_eq_true_2 by (replace (length cs + 1 - 1)%nat with (length cs) by lia; apply drop_app_length).
    replace ((length cs + 1) mod 4)%nat with 0%nat by (rewrite Hcs, Nat.Div0.add_mod, Hm4; done). cbn [Nat.eqb].
    replace (length cs + 1 - 1)%nat with (length cs) by lia. rewrite take_app_length, Hm. apply b64_roundtrip.
Qed.

Lemma RawURL_Encode_nonempty a l : RawURL_Encode (a :: l) <> "".
Proof. unfold RawURL_Encode. by destruct l as [|b [|c r]]. Qed.
