(* ===== verification/GoSort.v ===== *)
(** * Package sort

    What the documentation of [sort.Slice] and [sort.SliceStable] promises, as classes,
    and insertion sort, which keeps the promises. *)

From S2P Require Import Prelude.

(** ** Orders *)

(** [less] orders the elements of [l] up to ties. *)
Record weak_order {A} (less : A -> A -> bool) (l : list A) : Prop := {
  wo_irrefl : forall a, a ∈ l -> less a a = false;
  wo_trans : forall a b c, a ∈ l -> b ∈ l -> c ∈ l -> less a b = true -> less b c = true -> less a c = true;
  wo_ties : forall a b c, a ∈ l -> b ∈ l -> c ∈ l -> less a b = false -> less b c = false -> less a c = false
}.

Definition tied {A} (less : A -> A -> bool) (a b : A) : bool := negb (less a b) && negb (less b a).

(** What the documentation of [sort.SliceStable] promises. *)
Class StableSort : Type := {
  SliceStable : forall {A : Type}, (A -> A -> bool) -> list A -> list A;
  SliceStable_perm : forall A (less : A -> A -> bool) l, SliceStable less l ≡ₚ l;
  SliceStable_sorted : forall A (less : A -> A -> bool) l, weak_order less l -> StronglySorted (fun a b => less b a = false) (SliceStable less l);
  SliceStable_ties : forall A (less : A -> A -> bool) l a, weak_order less l -> a ∈ l -> List.filter (tied less a) (SliceStable less l) = List.filter (tied less a) l
}.

(** What the documentation of [sort.Slice] promises: ties in any order. *)
Class UnstableSort : Type := {
  Slice : forall {A : Type}, (A -> A -> bool) -> list A -> list A;
  Slice_perm : forall A (less : A -> A -> bool) l, Slice less l ≡ₚ l;
  Slice_sorted : forall A (less : A -> A -> bool) l, weak_order less l -> StronglySorted (fun a b => less b a = false) (Slice less l)
}.

(** ** Insertion sort *)

Lemma strongly_sorted_weaken {A} (R R' : A -> A -> Prop) l : (forall a b, R a b -> R' a b) -> StronglySorted R l -> StronglySorted R' l.
Proof. intros HR. induction 1 as [|x l _ IH Hx]; constructor; [done|]. eapply Forall_impl; [done|]. auto. Qed.

(** Insertion sort keeps the promises: it is what package sort does on short slices. *)
Fixpoint ins {A} (less : A -> A -> bool) (x : A) (l : list A) : list A :=
  match l with [] => [x] | y :: r => if less y x then y :: ins less x r else x :: l end.

Definition insertion_sort {A} (less : A -> A -> bool) (l : list A) : list A := foldr (ins less) [] l.

Lemma ins_perm {A} (less : A -> A -> bool) x l : ins less x l ≡ₚ x :: l.
Proof. induction l as [|y l IH]; [done|]. cbn [ins]. destruct (less y x); [|done]. rewrite IH. constructor. Qed.

Lemma insertion_sort_perm {A} (less : A -> A -> bool) l : insertion_sort less l ≡ₚ l.
Proof. induction l as [|x l IH]; [done|]. cbn [insertion_sort foldr]. rewrite ins_perm. by constructor. Qed.

Lemma weak_order_sub {A} (less : A -> A -> bool) l l' : (forall a, a ∈ l' -> a ∈ l) -> weak_order less l -> weak_order less l'.
Proof. intros Hs [H1 H2 H3]. split; eauto. Qed.

Lemma ins_sorted {A} (less : A -> A -> bool) x l : weak_order less (x :: l) ->
  StronglySorted (fun a b => less b a = false) l -> StronglySorted (fun a b => less b a = false) (ins less x l).
Proof.
  intros Hw. induction 1 as [|y l Hs IH Hy]; [by repeat constructor|]. cbn [ins]. rewrite Forall_forall in Hy. destruct (less y x) eqn:E.
  - constructor; [apply IH; eapply weak_order_sub; [|done]; set_solver|]. apply Forall_forall. intros z. rewrite ins_perm. intros [->|Hz]%elem_of_cons; [|by apply Hy].
    destruct (less x y) eqn:E'; [|done]. pose proof (wo_trans _ _ Hw x y x ltac:(set_solver) ltac:(set_solver) ltac:(set_solver) E' E) as T.
    by rewrite (wo_irrefl _ _ Hw) in T by set_solver.
  - constructor; [constructor; [done|by apply Forall_forall]|]. apply Forall_forall. intros z [->|Hz]%elem_of_cons; [done|].
    apply (wo_ties _ _ Hw z y x); [set_solver..|by apply Hy|done].
Qed.

Lemma ins_ties {A} (less : A -> A -> bool) a x l : weak_order less (a :: x :: l) ->
  List.filter (tied less a) (ins less x l) = List.filter (tied less a) (x :: l).
Proof.
  induction l as [|y l IH]; intros Hw; [done|]. cbn [ins]. destruct (less y x) eqn:E; [|done].
  cbn [List.filter] in IH |- *. rewrite IH by (eapply weak_order_sub; [|done]; set_solver).
  destruct (tied less a y) eqn:Ey, (tied less a x) eqn:Ex; try done. exfalso. unfold tied in Ex, Ey.
  apply andb_true_iff in Ex as [Ex1 Ex2]. apply andb_true_iff in Ey as [Ey1 Ey2]. rewrite negb_true_iff in *.
  pose proof (wo_ties _ _ Hw y a x ltac:(set_solver) ltac:(set_solver) ltac:(set_solver) Ey2 Ex1). congruence.
Qed.

#[export] Instance insertion_stable : StableSort.
Proof.
  refine {| SliceStable := fun A less l => insertion_sort less l |}.
  - intros A less l. apply insertion_sort_perm.
  - intros A less l. induction l as [|x l IH]; intros Hw; [constructor|]. cbn [insertion_sort foldr]. fold (insertion_sort less l).
    apply ins_sorted; [eapply weak_order_sub; [|done]; intros a; by rewrite elem_of_cons, insertion_sort_perm, elem_of_cons|].
    apply IH. eapply weak_order_sub; [|done]. set_solver.
  - intros A less l a Hw Ha. assert (Hw' : weak_order less (a :: l)) by (eapply weak_order_sub; [|done]; set_solver). clear Hw Ha.
    induction l as [|x l IH]; [done|]. cbn [insertion_sort foldr]. fold (insertion_sort less l). rewrite ins_ties.
    + cbn [List.filter]. rewrite IH; [done|]. eapply weak_order_sub; [|done]. set_solver.
    + eapply weak_order_sub; [|done]. intros z. by rewrite !elem_of_cons, insertion_sort_perm.
Defined.

#[export] Instance insertion_slice : UnstableSort.
Proof.
  refine {| Slice := fun A less l => insertion_sort less l |}.
  - intros A less l. apply insertion_sort_perm.
  - apply (@SliceStable_sorted insertion_stable).
Defined.

(** ** Orders without ties *)

(** Where only equal elements tie, the elements fix the sorted list. *)
Lemma sorted_unique {A} (less : A -> A -> bool) l1 l2 :
  (forall a b, a ∈ l1 -> b ∈ l1 -> tied less a b = true -> a = b) -> l1 ≡ₚ l2 ->
  StronglySorted (fun a b => less b a = false) l1 -> StronglySorted (fun a b => less b a = false) l2 -> l1 = l2.
Proof.
  intros Ht Hp H1 H2. apply (StronglySorted_unique_strong (fun a b => less b a = false)); [|done..].
  intros a b Ha Hb Hab Hba. rewrite <- Hp in Hb. apply Ht; [done..|]. unfold tied. by rewrite Hab, Hba.
Qed.

Lemma slice_proper `{UnstableSort} {A} (less : A -> A -> bool) l1 l2 :
  weak_order less l1 -> (forall a b, a ∈ l1 -> b ∈ l1 -> tied less a b = true -> a = b) -> l1 ≡ₚ l2 ->
  Slice less l1 = Slice less l2.
Proof.
  intros Hw Ht Hp. apply (sorted_unique less).
  - intros a b. rewrite !Slice_perm. apply Ht.
  - by rewrite !Slice_perm.
  - by apply Slice_sorted.
  - apply Slice_sorted. eapply weak_order_sub; [|done]. intros a. by rewrite Hp.
Qed.

(** ** Orders by several keys *)

(** The complement of a total preorder, turned round, is a strict order up to ties. *)
Lemma weak_order_total {A} (less : A -> A -> bool) (le : relation A) l :
  (forall a b, less a b = true <-> ~ le b a) -> Total le -> Transitive le -> weak_order less l.
Proof.
  intros Hl Ht Htr. assert (Hf : forall a b, less a b = false -> ~ ~ le b a) by (intros a b E Hn; apply Hl in Hn; congruence).
  split.
  - intros a _. destruct (less a a) eqn:E; [|done]. apply Hl in E. by destruct (Ht a a).
  - intros a b c _ _ _ H1%Hl H2%Hl. apply Hl. intros Hca. destruct (Ht b c) as [Hbc|]; [|done]. apply H1. by trans c.
  - intros a b c _ _ _ H1%Hf H2%Hf. destruct (less a c) eqn:E; [|done]. apply Hl in E. exfalso. apply H1. intros Hba. apply H2. intros Hcb.
    apply E. by trans b.
Qed.

(** First by [f], then by [le] where [f] agrees. *)
Definition by_key {A} (f : A -> Z) (le : relation A) (a b : A) : Prop := f a < f b \/ f a = f b /\ le a b.

#[export] Instance by_key_total {A} (f : A -> Z) (le : relation A) : Total le -> Total (by_key f le).
Proof. intros Ht a b. unfold by_key. destruct (Z.lt_trichotomy (f a) (f b)) as [|[E|]]; [auto| |auto]. destruct (Ht a b); auto. Qed.
#[export] Instance by_key_trans {A} (f : A -> Z) (le : relation A) : Transitive le -> Transitive (by_key f le).
Proof. intros Ht a b c. unfold by_key. intros [|[E1 ?]] [|[E2 ?]]; [left; lia..|]. right. split; [congruence|by trans b]. Qed.

(** The same with a text. *)
Definition by_text {A} (f : A -> string) (le : relation A) (a b : A) : Prop := f a <> f b /\ String.le (f a) (f b) \/ f a = f b /\ le a b.

#[export] Instance by_text_total {A} (f : A -> string) (le : relation A) : Total le -> Total (by_text f le).
Proof.
  intros Ht a b. unfold by_text. destruct (decide (f a = f b)) as [E|E]; [destruct (Ht a b); auto|].
  destruct (total String.le (f a) (f b)); [auto|]. right. left. split; [congruence|done].
Qed.
#[export] Instance by_text_trans {A} (f : A -> string) (le : relation A) : Transitive le -> Transitive (by_text f le).
Proof.
  intros Ht a b c. unfold by_text. intros [[E1 L1]|[E1 L1]] [[E2 L2]|[E2 L2]].
  - left. split; [|by trans (f b)]. intros E. rewrite E in *. by destruct E1, (anti_symm String.le (f c) (f b)).
  - rewrite <- E2. auto.
  - rewrite E1. auto.
  - right. split; [congruence|by trans b].
Qed.

Lemma text_ltb_le (a b : string) : String.ltb a b = true <-> ~ String.le b a.
Proof.
  unfold String.le, String.ltb, String.leb. rewrite (String.compare_antisym b a). destruct (String.compare a b); cbn; naive_solver.
Qed.
