(* ===== verification/GoFloat.v ===== *)
(** * The order of floats

    [SpecFloat] compares sign, exponent and mantissa; a float that is not NaN has a key
    whose lexicographic order is the comparison. *)

From S2P Require Import Prelude GoValue.

(** Floats that are not NaN, as triples in lexicographic order. *)
Definition float_key (f : float64) : Z * Z * Z :=
  match f with
  | S754_infinity s => (if s then 0 else 4, 0, 0)
  | S754_finite s m e => if s then (1, - e, - Zpos m) else (3, e, Zpos m)
  | _ => (2, 0, 0)
  end.

Definition key_lt (x y : Z * Z * Z) : Prop :=
  let '(a, b, c) := x in let '(a', b', c') := y in a < a' \/ a = a' /\ (b < b' \/ b = b' /\ c < c').

Lemma SFltb_key x y : x <> S754_nan -> y <> S754_nan -> SFltb x y = true <-> key_lt (float_key x) (float_key y).
Proof.
  intros Hx Hy. unfold SFltb, SFcompare, key_lt.
  destruct x as [[]|[]| |[] m e], y as [[]|[]| |[] m' e']; cbn [float_key]; try done; try (split; [try done; lia|try done; lia]);
    destruct (Z.compare_spec e e'); try (split; [done|lia]);
    change (Pos.compare_cont Eq m m') with (Pos.compare m m'); destruct (Pos.compare_spec m m'); cbn; split; (done || lia).
Qed.

Lemma key_lt_total x y : key_lt x y \/ x = y \/ key_lt y x.
Proof. destruct x as [[a b] c], y as [[a' b'] c']. unfold key_lt. destruct (Z.lt_trichotomy a a') as [|[]], (Z.lt_trichotomy b b') as [|[]], (Z.lt_trichotomy c c') as [|[]]; subst; auto; lia. Qed.

Lemma key_lt_irrefl x : ~ key_lt x x.
Proof. destruct x as [[a b] c]. unfold key_lt. lia. Qed.

Lemma key_lt_trans x y z : key_lt x y -> key_lt y z -> key_lt x z.
Proof. destruct x as [[a b] c], y as [[a' b'] c'], z as [[a'' b''] c'']. unfold key_lt. lia. Qed.

Lemma SFeqb_key x y : x <> S754_nan -> y <> S754_nan -> SFeqb x y = true <-> float_key x = float_key y.
Proof.
  intros Hx Hy. unfold SFeqb, SFcompare.
  destruct x as [[]|[]| |[] m e], y as [[]|[]| |[] m' e']; cbn [float_key]; try done;
    destruct (Z.compare_spec e e'); try (split; [done|by intros [=]; lia]); subst;
    change (Pos.compare_cont Eq m m') with (Pos.compare m m'); destruct (Pos.compare_spec m m'); cbn; split; try done; try (intros [=]; lia); by subst.
Qed.

Lemma SFleb_key x y : x <> S754_nan -> y <> S754_nan -> SFleb x y = true <-> ~ key_lt (float_key y) (float_key x).
Proof.
  intros Hx Hy. assert (E : SFleb x y = SFltb x y || SFeqb x y).
  { unfold SFleb, SFltb, SFeqb. by destruct (SFcompare x y) as [[]|]. }
  rewrite E, orb_true_iff, SFltb_key, SFeqb_key by done. split.
  - intros [Hlt|Heq] Hlt'; [apply (key_lt_irrefl (float_key x)); by eapply key_lt_trans|]. rewrite Heq in Hlt'. by eapply key_lt_irrefl.
  - intros Hn. destruct (key_lt_total (float_key x) (float_key y)) as [|[]]; auto. done.
Qed.

(** Above zero and with the same key, a float is the same float. *)
Lemma positive_key_inj x y : SFltb (S754_zero false) x = true -> float_key x = float_key y -> x = y.
Proof. destruct x as [[]|[]| |[] m e], y as [[]|[]| |[] m' e']; cbn; try done. intros _ [=]. by subst. Qed.
