(* ===== verification/CoreFrames.v ===== *)
(** * core/frames.go and core/registry.go: frame header and frame registry

    [FrameType] and [EncodingTier] are [uint8] names for byte values, so they
    are [Z]; the header is the wire header of 4 (or, with the EXT flag, 8)
    bytes.  The theorems give the exact inverse relation between [ToBytes] and
    [ParseFrameHeader], what the parser rejects, and where the 32-bit length
    field of the extended header loses information. *)

From S2P Require Import Prelude.

(** ** Frame types and tiers (core/frames.go) *)

Definition FrameTypeAnchor : Z := 0x01.
Definition FrameTypeDiff : Z := 0x02.
Definition FrameTypeStream : Z := 0x03.
Definition FrameTypeCaps : Z := 0x04.
Definition FrameTypeHello : Z := 0x06.
Definition FrameTypeNop : Z := 0x07.
Definition FrameTypeQuery : Z := 0x10.
Definition FrameTypeAction : Z := 0x11.
Definition FrameTypeIdent : Z := 0x20.
Definition FrameTypeTrust : Z := 0x21.
Definition FrameTypeRevoke : Z := 0x22.
Definition FrameTypeAnnounce : Z := 0x30.
Definition FrameTypeResolve : Z := 0x31.
Definition FrameTypeGraph : Z := 0x32.
Definition FrameTypeSubscribe : Z := 0x12.
Definition FrameTypeTask : Z := 0x40.
Definition FrameTypeDelegate : Z := 0x41.
Definition FrameTypeSync : Z := 0x42.
Definition FrameTypeAlignStream : Z := 0x43.
Definition FrameTypeError : Z := 0xFE.

Definition knownFrameTypes : list Z :=
  [FrameTypeAnchor; FrameTypeDiff; FrameTypeStream; FrameTypeCaps; FrameTypeHello;
   FrameTypeNop; FrameTypeQuery; FrameTypeAction; FrameTypeSubscribe; FrameTypeIdent;
   FrameTypeTrust; FrameTypeRevoke; FrameTypeAnnounce; FrameTypeResolve; FrameTypeGraph;
   FrameTypeTask; FrameTypeDelegate; FrameTypeSync; FrameTypeAlignStream; FrameTypeError].

Definition FrameTypeFromByte (b : byte) : go_result Z :=
  let ft := byte_z b in
  if existsb (Z.eqb ft) knownFrameTypes then Ok ft
  else Err (ErrPlain ("unknown frame type: 0x" +:+ fmt_02X (byte_z b))).

Definition EncodingTierJSON : Z := 0.
Definition EncodingTierMsgPack : Z := 1.
Definition EncodingTierBinaryVector : Z := 2.

(** ** FrameHeader *)

Record FrameHeader : Type := MkFrameHeader {
  FrameType : Z;          (* uint8 *)
  Flags : Z;              (* uint8 *)
  PayloadLength : Z;      (* uint64 *)
  IsExtended : bool
}.

#[export] Instance FrameHeader_eq_dec : EqDecision FrameHeader.
Proof. solve_decision. Defined.

Definition NewFrameHeader (ft tier : Z) (isFinal : bool) (payloadLen : Z) : FrameHeader :=
  let isExt := payloadLen >? 0xFFFF in
  let flags := Z.land (u8 tier) 0x03 in
  let flags := if isFinal then Z.lor flags 0x04 else flags in
  let flags := if isExt then Z.lor flags 0x80 else flags in
  MkFrameHeader ft flags payloadLen isExt.

Definition EncodingTier (h : FrameHeader) : Z := Z.land (Flags h) 0x03.
Definition IsFinal (h : FrameHeader) : bool := negb (Z.land (Flags h) 0x04 =? 0).
Definition HeaderSize (h : FrameHeader) : nat := if IsExtended h then 8%nat else 4%nat.

Definition ToBytes (h : FrameHeader) : list byte :=
  if IsExtended h then
    [z_byte (FrameType h); z_byte (Flags h); x00; x00] ++ put_be 4 (u32 (PayloadLength h))
  else
    [z_byte (FrameType h); z_byte (Flags h)] ++ put_be 2 (u16 (PayloadLength h)).

Definition ParseFrameHeader (wire : list byte) : go_result FrameHeader :=
  match wire with
  | b0 :: b1 :: b2 :: b3 :: rest =>
      let? ft := FrameTypeFromByte b0 in
      let flags := byte_z b1 in
      if negb (Z.land flags 0x80 =? 0) then
        match rest with
        | b4 :: b5 :: b6 :: b7 :: _ =>
            Ok (MkFrameHeader ft flags (get_be [b4; b5; b6; b7]) true)
        | _ => Err (ErrPlain "buffer too small for extended header")
        end
      else Ok (MkFrameHeader ft flags (get_be [b2; b3]) false)
  | _ => Err (ErrPlain "buffer too small for frame header")
  end.

(** ** FrameRegistry (core/registry.go) *)

Record FrameRegistry : Type := MkFrameRegistry { registered : gset Z }.

Definition NewFrameRegistry : FrameRegistry := MkFrameRegistry ∅.
Definition Register (ft : Z) (r : FrameRegistry) : FrameRegistry :=
  MkFrameRegistry ({[ft]} ∪ registered r).
Definition IsRegistered (r : FrameRegistry) (ft : Z) : bool := bool_decide (ft ∈ registered r).

Definition register_all (fts : list Z) (r : FrameRegistry) : FrameRegistry :=
  foldl (fun r ft => Register ft r) r fts.

Definition CreateDefaultRegistry : FrameRegistry :=
  register_all [FrameTypeAnchor; FrameTypeDiff; FrameTypeStream; FrameTypeCaps;
                FrameTypeHello; FrameTypeError] NewFrameRegistry.

Definition CreateFullRegistry : FrameRegistry :=
  register_all [FrameTypeQuery; FrameTypeAction; FrameTypeSubscribe;
                FrameTypeIdent; FrameTypeTrust; FrameTypeRevoke;
                FrameTypeAnnounce; FrameTypeResolve; FrameTypeGraph;
                FrameTypeTask; FrameTypeDelegate; FrameTypeSync; FrameTypeAlignStream]
               CreateDefaultRegistry.

(** ** Well-formed headers

    What [ParseFrameHeader] can return: a known type, one byte of flags whose
    EXT bit agrees with [IsExtended], and a length that fits the width. *)
Definition known_type (ft : Z) : bool := existsb (Z.eqb ft) knownFrameTypes.

Definition header_wf (h : FrameHeader) : bool :=
  known_type (FrameType h) &&
  (0 <=? Flags h) && (Flags h <? 256) &&
  Bool.eqb (IsExtended h) (negb (Z.land (Flags h) 0x80 =? 0)) &&
  (0 <=? PayloadLength h) &&
  (PayloadLength h <? (if IsExtended h then 2 ^ 32 else 2 ^ 16)).

(** ** Lemmas *)

Lemma known_type_range ft : known_type ft = true -> 0 <= ft < 256.
Proof.
  unfold known_type. rewrite existsb_exists. intros (x & Hx & E).
  apply Z.eqb_eq in E. subst x. apply list_elem_of_In in Hx.
  assert (Forall (fun z => 0 <= z < 256) knownFrameTypes) as H
    by (repeat constructor; done).
  rewrite Forall_forall in H. by apply H.
Qed.

Lemma FrameTypeFromByte_known ft :
  known_type ft = true -> FrameTypeFromByte (z_byte ft) = Ok ft.
Proof.
  intros H. pose proof (known_type_range ft H).
  unfold FrameTypeFromByte. rewrite byte_z_z_byte, wrapu_small by lia.
  unfold known_type in H. by rewrite H.
Qed.

Lemma FrameTypeFromByte_Ok b ft :
  FrameTypeFromByte b = Ok ft -> ft = byte_z b /\ known_type ft = true.
Proof. unfold FrameTypeFromByte. case_match eqn:E; [|done]. intros [= <-]. done. Qed.

Lemma length_ToBytes h : length (ToBytes h) = HeaderSize h.
Proof. unfold ToBytes, HeaderSize. by destruct (IsExtended h). Qed.

Lemma put_be_4 v : exists b4 b5 b6 b7, put_be 4 v = [b4; b5; b6; b7].
Proof. simpl. eauto. Qed.

Lemma header_wf_spec h : header_wf h = true <->
  known_type (FrameType h) = true /\ 0 <= Flags h < 256 /\
  IsExtended h = negb (Z.land (Flags h) 0x80 =? 0) /\
  0 <= PayloadLength h < (if IsExtended h then 2 ^ 32 else 2 ^ 16).
Proof.
  unfold header_wf. rewrite !andb_true_iff, !Z.leb_le, !Z.ltb_lt, Bool.eqb_true_iff.
  intuition lia.
Qed.

(** Re-serialising a well-formed header and parsing it again gives it back,
    whatever follows on the wire. *)
Lemma parse_ToBytes h rest :
  header_wf h = true -> ParseFrameHeader (ToBytes h ++ rest) = Ok h.
Proof.
  rewrite header_wf_spec. intros (Hft & Hfl & Hext & Hlen).
  assert (Hb : byte_z (z_byte (Flags h)) = Flags h)
    by (rewrite byte_z_z_byte; apply wrapu_small; lia).
  destruct h as [ft fl len ext]. unfold ToBytes.
  cbn [FrameType Flags PayloadLength IsExtended] in *.
  destruct ext; cbn [app].
  - destruct (put_be_4 (u32 len)) as (b4 & b5 & b6 & b7 & E).
    rewrite E. cbn [ParseFrameHeader app].
    rewrite FrameTypeFromByte_known, Hb, <- Hext by done. cbv zeta iota.
    rewrite <- E, wrapu_small, get_put_be; [done| |lia].
    change (256 ^ Z.of_nat 4) with (2 ^ 32). lia.
  - rewrite wrapu_small by lia.
    rewrite <- (get_put_be 2 len) at 2 by (change (256 ^ Z.of_nat 2) with (2 ^ 16); lia).
    cbn [put_be app ParseFrameHeader].
    rewrite FrameTypeFromByte_known, Hb, <- Hext by done. done.
Qed.

Lemma parse_header_wf wire h : ParseFrameHeader wire = Ok h -> header_wf h = true.
Proof.
  rewrite header_wf_spec. unfold ParseFrameHeader.
  destruct wire as [|b0 [|b1 [|b2 [|b3 rest]]]]; try done.
  destruct (FrameTypeFromByte b0) as [ft|] eqn:E; [|done].
  apply FrameTypeFromByte_Ok in E as [-> Hk].
  pose proof (byte_z_range b1).
  case_match eqn:Hx.
  - destruct rest as [|b4 [|b5 [|b6 [|b7 rest]]]]; try done.
    intros [= <-]. simpl. pose proof (get_be_u32 b4 b5 b6 b7).
    rewrite Hx. split_and!; done || lia.
  - intros [= <-]. simpl. pose proof (get_be_u16 b2 b3). rewrite Hx. split_and!; done || lia.
Qed.

(** The bytes a parsed header was read from: the re-serialised header, except
    that the two reserved bytes of an extended header are not looked at. *)
Lemma parse_header_bytes wire h :
  ParseFrameHeader wire = Ok h ->
  if IsExtended h
  then take 2 wire = take 2 (ToBytes h) /\ take 4 (drop 4 wire) = drop 4 (ToBytes h)
  else take 4 wire = ToBytes h.
Proof.
  unfold ParseFrameHeader.
  destruct wire as [|b0 [|b1 [|b2 [|b3 rest]]]]; try done.
  destruct (FrameTypeFromByte b0) as [ft|] eqn:E; [|done].
  apply FrameTypeFromByte_Ok in E as [-> Hk].
  case_match eqn:Hx.
  - destruct rest as [|b4 [|b5 [|b6 [|b7 rest]]]]; try done.
    intros [= <-]. unfold ToBytes; cbn [IsExtended FrameType Flags PayloadLength].
    pose proof (get_be_u32 b4 b5 b6 b7) as Hr.
    rewrite !z_byte_byte_z, wrapu_small by exact Hr.
    pose proof (put_get_be [b4; b5; b6; b7]) as E; cbn [length] in E. by rewrite E.
  - intros [= <-]. unfold ToBytes; cbn [IsExtended FrameType Flags PayloadLength].
    pose proof (get_be_u16 b2 b3) as Hr.
    rewrite !z_byte_byte_z, wrapu_small by exact Hr.
    pose proof (put_get_be [b2; b3]) as E; cbn [length] in E. by rewrite E.
Qed.

(** The flag byte that [NewFrameHeader] builds. *)
Lemma new_header_flags ft tier fin len :
  let h := NewFrameHeader ft tier fin len in
  0 <= Flags h < 256 /\ IsExtended h = negb (Z.land (Flags h) 0x80 =? 0) /\
  EncodingTier h = Z.land (u8 tier) 3 /\ IsFinal h = fin /\ Z.land (Flags h) 0x08 = 0.
Proof.
  unfold EncodingTier, IsFinal, NewFrameHeader. cbn [Flags IsExtended].
  assert (Z.land (u8 tier) 3 = u8 tier mod 4) as -> by (apply (Z.land_ones _ 2); lia).
  pose proof (Z.mod_pos_bound (u8 tier) 4 ltac:(lia)) as Hm.
  assert (u8 tier mod 4 = 0 \/ u8 tier mod 4 = 1 \/ u8 tier mod 4 = 2 \/ u8 tier mod 4 = 3)
    as [E|[E|[E|E]]] by lia; rewrite E;
  destruct fin, (len >? 0xFFFF); split_and!; done.
Qed.

Lemma new_header_wf ft tier fin len :
  known_type ft = true -> 0 <= len < 2 ^ 32 ->
  header_wf (NewFrameHeader ft tier fin len) = true.
Proof.
  intros Hk Hl. destruct (new_header_flags ft tier fin len) as (Hf & He & _).
  rewrite header_wf_spec. split_and!; try done; try lia;
  cbn; destruct (len >? 65535) eqn:E; bool_hyps; lia.
Qed.

Lemma IsRegistered_register_all fts r ft :
  IsRegistered (register_all fts r) ft = existsb (Z.eqb ft) fts || IsRegistered r ft.
Proof.
  revert r; induction fts as [|x fts IH]; intros r; [done|]. simpl.
  unfold register_all in *; simpl. rewrite IH. unfold IsRegistered, Register; simpl.
  rewrite (bool_decide_ext (ft ∈ {[x]} ∪ registered r) (ft = x \/ ft ∈ registered r)) by set_solver.
  rewrite bool_decide_or.
  assert (bool_decide (ft = x) = (ft =? x)) as -> by (destruct (Z.eqb_spec ft x); by case_bool_decide).
  destruct (ft =? x), (existsb (Z.eqb ft) fts); done.
Qed.

(** ** Properties *)

(** Wire round trip of a frame header: parsing the bytes of the header that
    [NewFrameHeader] builds for a known frame type, with any bytes after it,
    returns that header with its type, flags and EXT bit, and with its payload
    length up to the width of the length field: exactly for every length below
    2^32, and reduced modulo 2^32 for the longer ones. *)
Theorem header_roundtrip ft tier fin len rest :
  known_type ft = true -> 0 <= len < 2 ^ 64 ->
  let h := NewFrameHeader ft tier fin len in
  ParseFrameHeader (ToBytes h ++ rest) =
    Ok (MkFrameHeader ft (Flags h) (if IsExtended h then u32 len else len) (IsExtended h)).
Proof.
  intros Hk Hl h. destruct (new_header_flags ft tier fin len) as (Hf & He & _).
  set (h' := MkFrameHeader ft (Flags h) (if IsExtended h then u32 len else len) (IsExtended h)).
  assert (ToBytes h = ToBytes h') as ->.
  { unfold ToBytes, h'. simpl. destruct (len >? 65535); [|done].
    unfold wrapu. by rewrite Z.mod_mod. }
  apply parse_ToBytes, header_wf_spec.
  pose proof (wrapu_range 32 len ltac:(lia)).
  split_and!; [done|apply Hf|apply Hf|apply He|..];
    unfold h', h, NewFrameHeader; cbn [PayloadLength IsExtended];
    destruct (len >? 65535) eqn:E; bool_hyps; lia.
Qed.

Lemma header_roundtrip_witness :
  ParseFrameHeader (ToBytes (NewFrameHeader FrameTypeHello EncodingTierJSON true 70000) ++ [x01]) =
    Ok (MkFrameHeader FrameTypeHello 0x84 70000 true).
Proof. apply (header_roundtrip FrameTypeHello EncodingTierJSON true 70000 [x01]); done. Defined.

(** The parser rejects nothing else: [ParseFrameHeader] succeeds exactly on
    the inputs that start with a known type byte, have four bytes, and have
    eight when the EXT flag is set; and what it returns is a well-formed header
    whose re-serialisation parses to itself. *)
Theorem parse_header_total wire :
  match ParseFrameHeader wire with
  | Ok h =>
      header_wf h = true /\ (HeaderSize h <= length wire)%nat /\
      (FrameType h = byte_z (nth 0 wire x00) /\ Flags h = byte_z (nth 1 wire x00)) /\
      forall rest, ParseFrameHeader (ToBytes h ++ rest) = Ok h
  | Err _ =>
      (length wire < 4)%nat \/ known_type (byte_z (nth 0 wire x00)) = false \/
      (Z.land (byte_z (nth 1 wire x00)) 0x80 <> 0 /\ (length wire < 8)%nat)
  end.
Proof.
  destruct (ParseFrameHeader wire) as [h|e] eqn:E.
  - pose proof (parse_header_wf _ _ E) as Hwf.
    split; [done|]. split; [|split; [|intros; by apply parse_ToBytes]]; revert E;
    destruct wire as [|b0 [|b1 [|b2 [|b3 rest]]]]; try done; simpl;
    destruct (FrameTypeFromByte b0) as [ft|] eqn:Hft; try done;
    apply FrameTypeFromByte_Ok in Hft as [-> Hk]; case_match;
    try (destruct rest as [|b4 [|b5 [|b6 [|b7 rest]]]]; try done);
    intros [= <-]; unfold HeaderSize; simpl; lia || done.
  - revert E. destruct wire as [|b0 [|b1 [|b2 [|b3 rest]]]]; try (simpl; lia).
    simpl. unfold FrameTypeFromByte at 1. fold (known_type (byte_z b0)).
    destruct (known_type (byte_z b0)); [|auto].
    case_match eqn:Hx; [|done]. bool_hyps.
    destruct rest as [|b4 [|b5 [|b6 [|b7 rest]]]]; simpl; try done; right; right;
      split; (done || lia).
Qed.

(** [CreateFullRegistry] registers every frame type the parser knows except
    the NCP keepalive frame [FrameTypeNop]; it registers nothing unknown. *)
Theorem full_registry_types ft :
  IsRegistered CreateFullRegistry ft = known_type ft && negb (ft =? FrameTypeNop).
Proof.
  unfold CreateFullRegistry, CreateDefaultRegistry. rewrite !IsRegistered_register_all.
  unfold known_type. simpl. rewrite orb_false_r.
  destruct (Z.eqb_spec ft FrameTypeNop) as [->|_]; [done|].
  repeat match goal with
  | |- context [ft =? ?c] => destruct (Z.eqb_spec ft c); [subst; done|]
  end. done.
Qed.
