(* ===== verification/CoreBinaryVector.v ===== *)
(** * core/binary_vector.go: the Tier-3 BinaryVector payload

    A payload is a 16-byte prefix (magic, version, reserved byte, vector count,
    metadata length, reserved word), the MsgPack bytes of the frame dict with
    the search vector replaced by a marker, and one segment per vector: a
    big-endian dimension and little-endian float32 values.  The MsgPack library
    is third-party code: its two entry points are the operations of the class
    [Msgpack].  A [float32] is its bit pattern, so [math.Float32bits] is the
    identity. *)

From S2P Require Import Prelude GoValue.

(** The entry points of github.com/vmihailenco/msgpack/v5 that core calls. *)
Class Msgpack := {
  msgpack_Marshal : dict -> go_result (list byte);
  msgpack_Unmarshal : list byte -> go_result dict
}.

(** ** float32 and float64 *)

(** The bit pattern of a binary32 value. *)
Definition float32_bits (f : spec_float) : Z :=
  let sgn (s : bool) := if s then 0x80000000 else 0 in
  match f with
  | S754_zero s => sgn s
  | S754_infinity s => sgn s + 0x7F800000
  | S754_nan => 0x7FC00000
  | S754_finite s m e =>
      if Zpos m <? 2 ^ 23 then sgn s + Zpos m
      else sgn s + (e + 150) * 2 ^ 23 + (Zpos m - 2 ^ 23)
  end.

(** [float32(f)] for a [float64]: round to nearest even at 24 bits. *)
Definition float32_of_float64 (f : float64) : Z :=
  float32_bits
    match f with
    | S754_finite s m e => binary_round 24 128 s m e
    | g => g
    end.

(** [float64(x)] for a [float32], from its bit pattern. *)
Definition float64_of_float32 (bits : Z) : float64 :=
  let s := negb (bits / 2 ^ 31 =? 0) in
  let ex := (bits / 2 ^ 23) mod 256 in
  let man := bits mod 2 ^ 23 in
  if ex =? 255 then (if man =? 0 then S754_infinity s else S754_nan)
  else if ex =? 0 then
    match man with Zpos m => binary_round 53 1024 s m (-149) | _ => S754_zero s end
  else match man + 2 ^ 23 with
       | Zpos m => binary_round 53 1024 s m (ex - 150)
       | _ => S754_nan
       end.

Definition is_finite64 (f : float64) : bool :=
  match f with S754_zero _ | S754_finite _ _ _ => true | _ => false end.

(** Neither NaN nor an infinity: the exponent field is not all ones. *)
Definition is_finite32 (bits : Z) : bool := negb ((bits / 2 ^ 23) mod 256 =? 255).

(** ** Reading dynamic values *)

Definition binaryVectorPrefix : nat := 16.
Definition binaryVectorVersion : byte := x01.
Definition binaryVectorMarker : string := "$nps_binary_vector".
Definition binaryVectorMagic : list byte := bytes_of_string "NPBV".

Fixpoint cloneValue (v : any) : any :=
  match v with
  | VMap m =>
      VMap ((fix clone_map (m : dict) : dict :=
               match m with
               | [] => []
               | (k, x) :: r => (k, cloneValue x) :: clone_map r
               end) m)
  | VSlice l =>
      VSlice ((fix clone_list (l : list any) : list any :=
                 match l with
                 | [] => []
                 | x :: r => cloneValue x :: clone_list r
                 end) l)
  | _ => v
  end.

Definition asFrameDict (v : any) : option dict := as_map v.

Definition floatValue (v : any) : option float64 :=
  match v with
  | VFloat32 b => Some (float64_of_float32 b)
  | VFloat64 f => Some f
  | VInt _ z => Some (float64_of_Z z)
  | _ => None
  end.

Definition intValue (v : any) : option Z :=
  match v with VInt _ z => Some (i64 z) | _ => None end.

Definition readFloatVector (v : any) : option (list Z) :=
  match v with
  | VFloats32 l => Some l
  | VFloats64 l => Some (float32_of_float64 <$> l)
  | VSlice l =>
      mapM (fun item =>
              match floatValue item with
              | Some number =>
                  if is_finite64 number then Some (float32_of_float64 number) else None
              | None => None
              end) l
  | _ => None
  end.

(** ** Encoding *)

Definition vectorMarker (index : nat) (vector : list Z) : any :=
  VMap [(binaryVectorMarker, VInt KInt (Z.of_nat index));
        ("dtype", VString "float32");
        ("dim", VInt KInt (Z.of_nat (length vector)))].

Definition extractVectorSearchVector (metadata : dict) (vectors : list (list Z)) :
    dict * list (list Z) :=
  match asFrameDict (dict_at metadata "vector_search") with
  | None => (metadata, vectors)
  | Some vectorSearch =>
      match readFloatVector (dict_at vectorSearch "vector") with
      | None => (metadata, vectors)
      | Some vector =>
          let marker := vectorMarker (length vectors) vector in
          (dict_set "vector_search" (VMap (dict_set "vector" marker vectorSearch)) metadata,
           vectors ++ [vector])
      end
  end.

Definition encodeSegment (vector : list Z) : list byte :=
  put_be 4 (u32 (Z.of_nat (length vector))) ++ concat (put_le 4 <$> vector).

(** The payload layout: prefix, metadata bytes, one segment per vector. *)
Definition layoutPayload (metadataBytes : list byte) (vectors : list (list Z)) : list byte :=
  binaryVectorMagic ++ [binaryVectorVersion; x00] ++
  put_be 2 (u16 (Z.of_nat (length vectors))) ++
  put_be 4 (u32 (Z.of_nat (length metadataBytes))) ++
  put_be 4 0 ++ metadataBytes ++ concat (encodeSegment <$> vectors).

Definition encodeBinaryVector `{Msgpack} (d : dict) : go_result (list byte) :=
  match asFrameDict (cloneValue (VMap d)) with
  | None => Err (ErrCodec "binary vector metadata root must be an object")
  | Some metadata =>
      let '(metadata, vectors) := extractVectorSearchVector metadata [] in
      if 65535 <? Z.of_nat (length vectors) then
        Err (ErrCodec "binary vector supports at most 65535 vectors per frame")
      else
        match msgpack_Marshal metadata with
        | Err e => Err (ErrCodec (error_text e))
        | Ok metadataBytes => Ok (layoutPayload metadataBytes vectors)
        end
  end.

(** ** Decoding *)

Fixpoint readValues (dim : nat) (bs : list byte) : go_result (list Z * list byte) :=
  match dim with
  | O => Ok ([], bs)
  | S n =>
      let value := get_le (take 4 bs) in
      if is_finite32 value then
        let? (vs, r) := readValues n (drop 4 bs) in
        Ok (value :: vs, r)
      else Err (ErrCodec "binary vector values must be finite float32")
  end.

Fixpoint readSegments (count : nat) (bs : list byte) : go_result (list (list Z) * list byte) :=
  match count with
  | O => Ok ([], bs)
  | S n =>
      if (length bs <? 4)%nat then Err (ErrCodec "binary vector segment missing dimension")
      else
        let dim32 := get_be (take 4 bs) in
        if dim32 >? maxInt64 / 4 then
          Err (ErrCodec "binary vector dimension exceeds addressable payload size")
        else
          let bs := drop 4 bs in
          if Z.of_nat (length bs) <? dim32 * 4 then
            Err (ErrCodec "binary vector segment is truncated")
          else
            let? (vector, bs) := readValues (Z.to_nat dim32) bs in
            let? (vs, r) := readSegments n bs in
            Ok (vector :: vs, r)
  end.

Definition restoreVectorSearchVector (metadata : dict) (vectors : list (list Z)) : go_result dict :=
  match asFrameDict (dict_at metadata "vector_search") with
  | None => Ok metadata
  | Some vectorSearch =>
      match dict_get "vector" vectorSearch with
      | None => Ok metadata
      | Some markerValue =>
          match asFrameDict markerValue with
          | None => Err (ErrCodec "binary vector marker must be an object")
          | Some marker =>
              match intValue (dict_at marker binaryVectorMarker) with
              | None => Err (ErrCodec "binary vector marker missing vector index")
              | Some index =>
                  if (index <? 0) || (index >=? Z.of_nat (length vectors)) then
                    Err (ErrCodec ("binary vector marker references vector " +:+ fmt_d index +:+
                      ", but only " +:+ fmt_d (Z.of_nat (length vectors)) +:+ " vectors are present"))
                  else if negb (String.eqb (default "" (as_string (dict_at marker "dtype"))) "float32")
                  then Err (ErrCodec "binary vector v1 only supports dtype=float32")
                  else
                    let vector := nth (Z.to_nat index) vectors [] in
                    match intValue (dict_at marker "dim") with
                    | Some dim =>
                        if dim =? Z.of_nat (length vector) then
                          Ok (dict_set "vector_search"
                                (VMap (dict_set "vector" (VFloats32 vector) vectorSearch)) metadata)
                        else Err (ErrCodec "binary vector marker dimension does not match vector segment")
                    | None => Err (ErrCodec "binary vector marker dimension does not match vector segment")
                    end
              end
          end
      end
  end.

Definition decodeBinaryVector `{Msgpack} (payload : list byte) : go_result dict :=
  if (length payload <? binaryVectorPrefix)%nat then
    Err (ErrCodec ("binary vector payload too short: " +:+
                   fmt_d (Z.of_nat (length payload)) +:+ " bytes"))
  else if bool_decide (take 4 payload <> binaryVectorMagic) then
    Err (ErrCodec "binary vector payload magic mismatch")
  else if bool_decide (nth 4 payload x00 <> binaryVectorVersion) then
    Err (ErrCodec ("unsupported binary vector version: " +:+ fmt_d (byte_z (nth 4 payload x00))))
  else if bool_decide (nth 5 payload x00 <> x00) ||
          negb (get_be (take 4 (drop 12 payload)) =? 0) then
    Err (ErrCodec "binary vector reserved fields must be zero")
  else
    let vectorCount := get_be (take 2 (drop 6 payload)) in
    let metadataLen := get_be (take 4 (drop 8 payload)) in
    if metadataLen >? Z.of_nat (length payload) - Z.of_nat binaryVectorPrefix then
      Err (ErrCodec "binary vector metadata length exceeds payload length")
    else
      let body := drop binaryVectorPrefix payload in
      match msgpack_Unmarshal (take (Z.to_nat metadataLen) body) with
      | Err e => Err (ErrCodec (error_text e))
      | Ok metadata =>
          let? (vectors, rest) :=
            readSegments (Z.to_nat vectorCount) (drop (Z.to_nat metadataLen) body) in
          match rest with
          | [] => restoreVectorSearchVector metadata vectors
          | _ :: _ => Err (ErrCodec "binary vector payload has trailing bytes")
          end
      end.

(** ** Lemmas: the segment reader inverts the segment writer *)

Definition float32_ok (b : Z) : Prop := 0 <= b < 2 ^ 32 /\ is_finite32 b = true.

Definition vector_ok (v : list Z) : Prop :=
  Forall float32_ok v /\ Z.of_nat (length v) < 2 ^ 32.

Lemma cloneValue_id v : cloneValue v = v.
Proof.
  revert v. fix IH 1. intros [| | | | | | |l| | | |m|]; try reflexivity; cbn [cloneValue];
    apply f_equal.
  - induction l as [|x l IHl]; [reflexivity|]. apply f_equal2; [apply IH|apply IHl].
  - induction m as [|[k x] m IHm]; [reflexivity|].
    apply f_equal2; [apply f_equal, IH|apply IHm].
Qed.

Lemma readValues_put v r :
  Forall float32_ok v ->
  readValues (length v) (concat (put_le 4 <$> v) ++ r) = Ok (v, r).
Proof.
  induction 1 as [|b v [Hb Hf] _ IH]; [done|].
  cbn [length fmap list_fmap concat]. rewrite <- app_assoc. cbn [readValues].
  rewrite take_app_length', drop_app_length' by (by rewrite length_put_le).
  rewrite get_put_le by (change (256 ^ Z.of_nat 4) with (2 ^ 32); lia).
  by rewrite Hf, IH.
Qed.

Lemma readValues_not_finite v1 b v2 r :
  Forall float32_ok v1 -> 0 <= b < 2 ^ 32 -> is_finite32 b = false ->
  readValues (length (v1 ++ b :: v2)) (concat (put_le 4 <$> (v1 ++ b :: v2)) ++ r) =
    Err (ErrCodec "binary vector values must be finite float32").
Proof.
  intros H1 Hb Hf. induction H1 as [|x v1 [Hx Hxf] _ IH];
    cbn [app length fmap list_fmap concat]; rewrite <- app_assoc; cbn [readValues];
    rewrite take_app_length', ?drop_app_length' by (by rewrite length_put_le);
    rewrite get_put_le by (change (256 ^ Z.of_nat 4) with (2 ^ 32); lia).
  - by rewrite Hf.
  - by rewrite Hxf, IH.
Qed.

Lemma put_get_le_4 bs : (4 <= length bs)%nat -> put_le 4 (get_le (take 4 bs)) = take 4 bs.
Proof.
  intros H. pose proof (put_get_be (reverse (take 4 bs))) as E.
  rewrite length_reverse, length_take_le in E by done.
  unfold get_be in E. rewrite reverse_involutive in E.
  unfold put_le. rewrite E. apply reverse_involutive.
Qed.

Lemma readValues_inv dim bs v r :
  readValues dim bs = Ok (v, r) -> (4 * dim <= length bs)%nat ->
  bs = concat (put_le 4 <$> v) ++ r /\ length v = dim /\ Forall float32_ok v.
Proof.
  revert bs v; induction dim as [|n IH]; intros bs v; cbn [readValues].
  { intros [= <- <-]. done. }
  destruct (is_finite32 (get_le (take 4 bs))) eqn:Hf; [|done].
  destruct (readValues n (drop 4 bs)) as [[vs r']|] eqn:E; [|done].
  intros [= <- <-] Hl.
  apply IH in E as (Hbs & Hlen & Hok); [|rewrite length_drop; lia].
  cbn [fmap list_fmap concat length]. split_and!; [|lia|].
  - rewrite put_get_le_4 by lia. rewrite <- app_assoc, <- Hbs. by rewrite take_drop.
  - constructor; [|done]. split; [|done].
    pose proof (get_le_range (take 4 bs)) as Hr.
    rewrite length_take_le in Hr by lia. exact Hr.
Qed.

Lemma concat_put_le_length v : length (concat (put_le 4 <$> v)) = (4 * length v)%nat.
Proof.
  induction v as [|b v IH]; [done|].
  cbn [fmap list_fmap concat length]. rewrite length_app, length_put_le. lia.
Qed.

Lemma encodeSegment_length v : length (encodeSegment v) = (4 + 4 * length v)%nat.
Proof. unfold encodeSegment. by rewrite length_app, length_put_be, concat_put_le_length. Qed.

Lemma encodeSegment_app v r :
  encodeSegment v ++ r =
    put_be 4 (u32 (Z.of_nat (length v))) ++ (concat (put_le 4 <$> v) ++ r).
Proof. unfold encodeSegment. by rewrite <- app_assoc. Qed.

Lemma readSegments_layout vs r :
  Forall vector_ok vs ->
  readSegments (length vs) (concat (encodeSegment <$> vs) ++ r) = Ok (vs, r).
Proof.
  induction 1 as [|v vs [Hv Hl] _ IH]; [done|].
  cbn [length fmap list_fmap concat readSegments]. rewrite <- app_assoc.
  rewrite (proj2 (Nat.ltb_ge _ _)) by (rewrite length_app, encodeSegment_length; lia).
  rewrite !encodeSegment_app.
  rewrite take_app_length', !drop_app_length' by (by rewrite length_put_be).
  rewrite wrapu_small by lia.
  rewrite get_put_be by (change (256 ^ Z.of_nat 4) with (2 ^ 32); lia).
  destruct (Z.of_nat (length v) >? maxInt64 / 4) eqn:Eg.
  { bool_hyps. unfold maxInt64 in *. change ((2 ^ 63 - 1) / 4) with 2305843009213693951 in *. lia. }
  rewrite (proj2 (Z.ltb_ge _ _)) by (rewrite length_app, concat_put_le_length; lia).
  rewrite Nat2Z.id, readValues_put by done. by rewrite IH.
Qed.

Lemma readSegments_all vs :
  Forall vector_ok vs ->
  readSegments (length vs) (concat (encodeSegment <$> vs)) = Ok (vs, []).
Proof. intros. rewrite <- (app_nil_r (concat _)). by apply readSegments_layout. Qed.

Lemma readSegments_inv count bs vs r :
  readSegments count bs = Ok (vs, r) ->
  bs = concat (encodeSegment <$> vs) ++ r /\ length vs = count /\ Forall vector_ok vs.
Proof.
  revert bs vs; induction count as [|n IH]; intros bs vs; cbn [readSegments].
  { intros [= <- <-]. done. }
  destruct (Nat.ltb_spec (length bs) 4) as [|Hlen]; [done|].
  set (dim := get_be (take 4 bs)).
  assert (0 <= dim < 2 ^ 32) as Hdim.
  { pose proof (get_be_range (take 4 bs)) as Hr. rewrite length_take_le in Hr by done. exact Hr. }
  case_match; [done|]. destruct (_ <? dim * 4) eqn:Ht; [done|]. bool_hyps.
  destruct (readValues (Z.to_nat dim) (drop 4 bs)) as [[v bs']|] eqn:Ev; [|done].
  destruct (readSegments n bs') as [[vs' r']|] eqn:Es; [|done].
  intros [= <- <-]. apply IH in Es as (-> & <- & Hok).
  apply readValues_inv in Ev as (Hbs & Hl & Hv); [|lia].
  split_and!; [|done|constructor; [split; [done|lia]|done]].
  cbn [fmap list_fmap concat]. unfold encodeSegment at 1. rewrite <- !app_assoc, <- Hbs, Hl.
  rewrite Z2Nat.id, wrapu_small by lia.
  pose proof (put_get_be (take 4 bs)) as E. rewrite length_take_le in E by done.
  fold dim in E. rewrite E. by rewrite take_drop.
Qed.

Lemma readSegments_not_finite v1 b v2 vs r :
  Forall float32_ok v1 -> 0 <= b < 2 ^ 32 -> is_finite32 b = false ->
  Z.of_nat (length (v1 ++ b :: v2)) < 2 ^ 32 ->
  readSegments (S (length vs)) (concat (encodeSegment <$> ((v1 ++ b :: v2) :: vs)) ++ r) =
    Err (ErrCodec "binary vector values must be finite float32").
Proof.
  intros H1 Hb Hf Hl. set (v := v1 ++ b :: v2) in *.
  cbn [fmap list_fmap concat readSegments]. rewrite <- app_assoc.
  rewrite (proj2 (Nat.ltb_ge _ _)) by (rewrite length_app, encodeSegment_length; lia).
  rewrite !encodeSegment_app.
  rewrite take_app_length', !drop_app_length' by (by rewrite length_put_be).
  rewrite wrapu_small by lia.
  rewrite get_put_be by (change (256 ^ Z.of_nat 4) with (2 ^ 32); lia).
  destruct (Z.of_nat (length v) >? maxInt64 / 4) eqn:Eg.
  { bool_hyps. unfold maxInt64 in *. change ((2 ^ 63 - 1) / 4) with 2305843009213693951 in *. lia. }
  rewrite (proj2 (Z.ltb_ge _ _)) by (rewrite length_app, concat_put_le_length; lia).
  rewrite Nat2Z.id. unfold v at 1 2. by rewrite readValues_not_finite.
Qed.

Lemma put_be_cons2 v : exists a b, put_be 2 v = [a; b].
Proof. simpl. eauto. Qed.
Lemma put_be_cons4 v : exists a b c d, put_be 4 v = [a; b; c; d].
Proof. simpl. eauto. Qed.

(** What the decoder computes on a payload with the encoder's layout. *)
Lemma decode_layout `{Msgpack} md vs :
  Z.of_nat (length md) < 2 ^ 32 -> Z.of_nat (length vs) < 2 ^ 16 ->
  decodeBinaryVector (layoutPayload md vs) =
    match msgpack_Unmarshal md with
    | Err e => Err (ErrCodec (error_text e))
    | Ok metadata =>
        let? (vectors, rest) := readSegments (length vs) (concat (encodeSegment <$> vs)) in
        match rest with
        | [] => restoreVectorSearchVector metadata vectors
        | _ :: _ => Err (ErrCodec "binary vector payload has trailing bytes")
        end
    end.
Proof.
  intros Hm Hv. unfold layoutPayload. rewrite !wrapu_small by lia.
  pose proof (get_put_be 2 (Z.of_nat (length vs))) as E2.
  pose proof (get_put_be 4 (Z.of_nat (length md))) as E4.
  change (256 ^ Z.of_nat 2) with (2 ^ 16) in E2. change (256 ^ Z.of_nat 4) with (2 ^ 32) in E4.
  destruct (put_be_cons2 (Z.of_nat (length vs))) as (a & b & Ev).
  destruct (put_be_cons4 (Z.of_nat (length md))) as (c & d & e & f & Em).
  rewrite Ev in *; rewrite Em in *.
  change (put_be 4 0) with [x00; x00; x00; x00]. change binaryVectorMagic with [x4e; x50; x42; x56].
  unfold decodeBinaryVector, binaryVectorPrefix. cbn [app take drop nth length].
  rewrite E2, E4 by lia.
  rewrite (proj2 (Nat.ltb_ge _ _)) by lia.
  rewrite !bool_decide_eq_false_2 by (intros Hn; by apply Hn). cbn [orb].
  replace (negb (get_be [x00; x00; x00; x00] =? 0)) with false by done.
  rewrite Z.gtb_ltb, (proj2 (Z.ltb_ge _ _)) by (rewrite length_app; lia).
  cbn match. rewrite !drop_0, !Nat2Z.id, take_app_length, drop_app_length. done.
Qed.

(** ** Decoded values

    [sim v v']: [v'] is what a MsgPack round trip makes of [v].  The kind of an
    integer may change (the library picks the kind from the encoding) and typed
    string slices become [[]any]; everything else is kept. *)
Inductive sim : any -> any -> Prop :=
| sim_refl v : sim v v
| sim_int k k' z : sim (VInt k z) (VInt k' z)
| sim_strings l : sim (VStrings l) (VSlice (VString <$> l))
| sim_slice l l' : Forall2 sim l l' -> sim (VSlice l) (VSlice l')
| sim_map m m' : Forall2 (fun p p' => p.1 = p'.1 /\ sim p.2 p'.2) m m' -> sim (VMap m) (VMap m').

Definition dict_sim (d d' : dict) : Prop :=
  Forall2 (fun p p' => p.1 = p'.1 /\ sim p.2 p'.2) d d'.

(** The MsgPack library round-trips the dict [d] to a similar one. *)
Definition mp_roundtrips `{Msgpack} (d d' : dict) (b : list byte) : Prop :=
  msgpack_Marshal d = Ok b /\ msgpack_Unmarshal b = Ok d' /\ dict_sim d d'.

Lemma dict_sim_refl d : dict_sim d d.
Proof. unfold dict_sim. induction d; constructor; eauto using sim. Qed.

Lemma sim_map_inv m v : sim (VMap m) v -> exists m', v = VMap m' /\ dict_sim m m'.
Proof. inversion 1; subst; eauto using dict_sim_refl. Qed.

Lemma dict_sim_get k d d' :
  dict_sim d d' ->
  match dict_get k d, dict_get k d' with
  | Some v, Some v' => sim v v'
  | None, None => True
  | _, _ => False
  end.
Proof.
  induction 1 as [|[k1 v] [k2 v'] d d' [Hk Hv] _ IH]; simpl in *; [done|]. subst.
  by destruct (String.eqb k2 k).
Qed.

Lemma dict_sim_at k d d' : dict_sim d d' -> sim (dict_at d k) (dict_at d' k).
Proof.
  intros Hs. pose proof (dict_sim_get k _ _ Hs). unfold dict_at.
  destruct (dict_get k d), (dict_get k d'); simpl; done || apply sim_refl.
Qed.

Lemma dict_sim_set k v v' d d' :
  dict_sim d d' -> sim v v' -> dict_sim (dict_set k v d) (dict_set k v' d').
Proof.
  intros Hs Hv. induction Hs as [|[k1 w] [k2 w'] d d' [Hk Hw] Hd IH]; simpl in *.
  - by repeat constructor.
  - subst. destruct (String.eqb k2 k); by repeat constructor.
Qed.

Lemma assoc_set_set {A} k (v w : A) m : assoc_set k v (assoc_set k w m) = assoc_set k v m.
Proof.
  induction m as [|[k' x] m IH]; simpl; [by rewrite String.eqb_refl|].
  destruct (String.eqb k' k) eqn:E; simpl; [by rewrite String.eqb_refl|].
  by rewrite E, IH.
Qed.

Lemma assoc_set_get {A} k (v : A) m : assoc_get k m = Some v -> assoc_set k v m = m.
Proof.
  induction m as [|[k' x] m IH]; simpl; [done|].
  destruct (String.eqb k' k) eqn:E.
  - intros [= ->]. apply String.eqb_eq in E. by subst.
  - intros Hg. by rewrite IH.
Qed.

Lemma dict_at_map k d m : dict_at d k = VMap m -> dict_get k d = Some (VMap m).
Proof. unfold dict_at. destruct (dict_get k d); simpl; congruence. Qed.

Lemma marker_sim_inv v mk :
  sim (vectorMarker 0 v) mk -> exists k k',
    mk = VMap [(binaryVectorMarker, VInt k 0); ("dtype", VString "float32");
               ("dim", VInt k' (Z.of_nat (length v)))].
Proof.
  intros H. apply sim_map_inv in H as (m & -> & Hm). unfold dict_sim in Hm.
  repeat match goal with
  | H : Forall2 _ (_ :: _) _ |- _ => inversion H as [|? [] ? ? [? ?]]; clear H; simpl in *; subst
  | H : Forall2 _ [] _ |- _ => inversion H; clear H; subst
  | H : sim (VInt _ _) _ |- _ => inversion H; clear H; subst
  | H : sim (VString _) _ |- _ => inversion H; clear H; subst
  end; eauto.
Qed.

(** [restoreVectorSearchVector] on what MsgPack returns for the marked dict. *)
Lemma restore_marked d vs v md' :
  vector_ok v ->
  dict_sim (dict_set "vector_search" (VMap (dict_set "vector" (vectorMarker 0 v) vs)) d) md' ->
  exists vs', dict_sim (dict_set "vector" (vectorMarker 0 v) vs) vs' /\
    restoreVectorSearchVector md' [v] =
      Ok (dict_set "vector_search" (VMap (dict_set "vector" (VFloats32 v) vs')) md').
Proof.
  intros [_ Hlen] Hs.
  pose proof (dict_sim_get "vector_search" _ _ Hs) as H1. rewrite assoc_get_set_eq in H1.
  destruct (dict_get "vector_search" md') as [x|] eqn:E1; [|done].
  apply sim_map_inv in H1 as (vs' & -> & Hvs). exists vs'. split; [done|].
  pose proof (dict_sim_get "vector" _ _ Hvs) as H2. rewrite assoc_get_set_eq in H2.
  destruct (dict_get "vector" vs') as [mk|] eqn:E2; [|done].
  apply marker_sim_inv in H2 as (k & k' & ->).
  unfold restoreVectorSearchVector, dict_at. rewrite E1. simpl. rewrite E2.
  cbn [asFrameDict as_map assoc_get String.eqb default binaryVectorMarker].
  simpl. rewrite !wraps_small by (simpl; lia). simpl.
  by rewrite Z.eqb_refl.
Qed.

Lemma encode_vector `{Msgpack} d vs v b :
  dict_at d "vector_search" = VMap vs ->
  readFloatVector (dict_at vs "vector") = Some v ->
  msgpack_Marshal
    (dict_set "vector_search" (VMap (dict_set "vector" (vectorMarker 0 v) vs)) d) = Ok b ->
  encodeBinaryVector d = Ok (layoutPayload b [v]).
Proof.
  intros Hd Hv Hm. unfold encodeBinaryVector. rewrite cloneValue_id. cbn [asFrameDict as_map].
  unfold extractVectorSearchVector. rewrite Hd. cbn [asFrameDict as_map]. rewrite Hv.
  cbn [length app]. by rewrite Hm.
Qed.

(** ** Properties *)

(** C15. BinaryVector round trip: for a dict whose search vector is readable as
    finite float32 values, and a MsgPack library that round-trips the marked
    metadata, encoding succeeds and decoding the payload gives back a dict
    similar to the original in which the vector holds exactly those float32
    values. *)
Theorem binvec_roundtrip `{Msgpack} d vs v md' b :
  dict_at d "vector_search" = VMap vs ->
  readFloatVector (dict_at vs "vector") = Some v -> vector_ok v ->
  mp_roundtrips
    (dict_set "vector_search" (VMap (dict_set "vector" (vectorMarker 0 v) vs)) d) md' b ->
  Z.of_nat (length b) < 2 ^ 32 ->
  exists p d', encodeBinaryVector d = Ok p /\ decodeBinaryVector p = Ok d' /\
    dict_sim (dict_set "vector_search" (VMap (dict_set "vector" (VFloats32 v) vs)) d) d'.
Proof.
  intros Hd Hv Hok (Hm & Hu & Hs) Hb.
  exists (layoutPayload b [v]). rewrite (encode_vector d vs v b) by done.
  rewrite decode_layout, Hu by (simpl; lia).
  rewrite readSegments_all by (by apply Forall_singleton).
  destruct (restore_marked d vs v md' Hok Hs) as (vs' & Hvs & ->).
  eexists. split_and!; [done|done|].
  rewrite <- (assoc_set_set "vector_search" _ (VMap (dict_set "vector" (vectorMarker 0 v) vs)) d).
  apply dict_sim_set; [done|]. apply sim_map.
  rewrite <- (assoc_set_set "vector" (VFloats32 v) (vectorMarker 0 v) vs).
  apply dict_sim_set; [done|apply sim_refl].
Qed.

(** The decoder accepts only the encoder's layout: whenever decoding
    succeeds the payload is the 16-byte prefix, some metadata bytes and the
    segments of at most 65535 vectors of finite float32 values, with no other
    byte before, between or after them. *)
Theorem decode_only_layout `{Msgpack} p d :
  decodeBinaryVector p = Ok d ->
  exists md vs, p = layoutPayload md vs /\ Forall vector_ok vs /\
    Z.of_nat (length vs) < 2 ^ 16 /\ Z.of_nat (length md) < 2 ^ 32 /\
    is_ok (msgpack_Unmarshal md) = true.
Proof.
  unfold decodeBinaryVector, binaryVectorPrefix.
  destruct (Nat.ltb_spec (length p) 16) as [|Hl]; [done|].
  destruct p as [|b0 [|b1 [|b2 [|b3 [|b4 [|b5 [|b6 [|b7 [|b8 [|b9 [|b10 [|b11 [|b12
    [|b13 [|b14 [|b15 body]]]]]]]]]]]]]]]]; try (simpl in Hl; lia).
  cbn [take drop nth]. rewrite take_0.
  case_bool_decide as Hm; [done|]. case_bool_decide as Hv; [done|].
  case_bool_decide as Hr; cbn [orb]; [done|].
  destruct (get_be [b12; b13; b14; b15] =? 0) eqn:Hz; [|done]. cbn [negb]. bool_hyps.
  destruct (get_be [b8; b9; b10; b11] >? _) eqn:Hmd; [done|]. bool_hyps.
  rewrite drop_0. destruct (msgpack_Unmarshal _) as [metadata|] eqn:Hu; [|done].
  destruct (readSegments _ _) as [[vs rest]|] eqn:Hs; [|done].
  destruct rest; [|done]. intros _.
  apply readSegments_inv in Hs as (Hbs & Hc & Hok). rewrite app_nil_r in Hbs.
  exists (take (Z.to_nat (get_be [b8; b9; b10; b11])) body), vs.
  cbn [length] in Hmd. pose proof (get_be_u16 b6 b7). pose proof (get_be_u32 b8 b9 b10 b11).
  assert (Hlen : length (take (Z.to_nat (get_be [b8; b9; b10; b11])) body) =
                 Z.to_nat (get_be [b8; b9; b10; b11])) by (apply length_take_le; lia).
  split_and!; [|done|lia|lia|by rewrite Hu].
  unfold layoutPayload. rewrite Hlen, Hc, !Z2Nat.id, !wrapu_small, <- Hbs by lia.
  pose proof (put_get_be [b6; b7]) as E2. pose proof (put_get_be [b8; b9; b10; b11]) as E4.
  pose proof (put_get_be [b12; b13; b14; b15]) as E0. rewrite Hz in E0.
  cbn [length] in E0, E2, E4. rewrite E0, E2, E4, <- Hm, <- Hv, <- Hr.
  cbn [app]. by rewrite take_drop.
Qed.

(** A vector with a value outside the float32 range (or not finite) encodes
    without an error but to a payload its own decoder rejects: the finiteness
    check of [readFloatVector] is made on the float64 before it is narrowed,
    and is not made at all on typed slices. *)
Theorem binvec_not_finite_undecodable `{Msgpack} d vs v1 x v2 b md' :
  dict_at d "vector_search" = VMap vs ->
  readFloatVector (dict_at vs "vector") = Some (v1 ++ x :: v2) ->
  Forall float32_ok v1 -> 0 <= x < 2 ^ 32 -> is_finite32 x = false ->
  Z.of_nat (length (v1 ++ x :: v2)) < 2 ^ 32 -> Z.of_nat (length b) < 2 ^ 32 ->
  msgpack_Marshal (dict_set "vector_search"
    (VMap (dict_set "vector" (vectorMarker 0 (v1 ++ x :: v2)) vs)) d) = Ok b ->
  msgpack_Unmarshal b = Ok md' ->
  exists p, encodeBinaryVector d = Ok p /\
    decodeBinaryVector p = Err (ErrCodec "binary vector values must be finite float32").
Proof.
  intros Hd Hv H1 Hx Hf Hl Hb Hm Hu.
  exists (layoutPayload b [v1 ++ x :: v2]). split; [by apply encode_vector with vs|].
  rewrite decode_layout, Hu by (simpl; lia).
  pose proof (readSegments_not_finite v1 x v2 [] [] H1 Hx Hf Hl) as E.
  rewrite app_nil_r in E. cbn [length] in *. by rewrite E.
Qed.

(** ** Witnesses *)

(** A MsgPack library that knows one dict: it writes [b] and reads [d] back. *)
Definition one_dict_msgpack (b : list byte) (d : dict) : Msgpack :=
  {| msgpack_Marshal := fun _ => Ok b; msgpack_Unmarshal := fun _ => Ok d |}.

(** [{"vector_search": {"top_k": 3, "vector": [1.0, -2.0]}}], typed float32. *)
Definition sample_search : dict :=
  [("top_k", VInt KInt 3); ("vector", VFloats32 [0x3F800000; 0xC0000000])].
Definition sample_query : dict := [("vector_search", VMap sample_search)].
Definition sample_marked : dict :=
  [("vector_search", VMap [("top_k", VInt KInt 3);
                           ("vector", vectorMarker 0 [0x3F800000; 0xC0000000])])].

Lemma binvec_roundtrip_witness :
  let M := one_dict_msgpack [x81] sample_marked in
  exists p d', encodeBinaryVector sample_query = Ok p /\ decodeBinaryVector p = Ok d' /\
    dict_sim sample_query d'.
Proof.
  intros M.
  apply (binvec_roundtrip sample_query sample_search [0x3F800000; 0xC0000000] sample_marked [x81]);
    try done.
  - split; [|done]. repeat (constructor; [split; [lia|reflexivity]|]). constructor.
  - split_and!; [done..|apply dict_sim_refl].
Defined.

Lemma decode_only_layout_witness :
  let M := one_dict_msgpack [x81] sample_marked in
  exists md vs,
    layoutPayload [x81] [[0x3F800000; 0xC0000000]] = layoutPayload md vs /\ Forall vector_ok vs /\
    Z.of_nat (length vs) < 2 ^ 16 /\ Z.of_nat (length md) < 2 ^ 32 /\
    is_ok (msgpack_Unmarshal md) = true.
Proof. intros M. apply (decode_only_layout _ sample_query). vm_compute. reflexivity. Defined.

(** A [[]any] vector holding the float64 1e39, finite but beyond float32. *)
Definition huge : any := VFloat64 (S754_finite false 6617444900424221 77).
Definition huge_query : dict := [("vector_search", VMap [("vector", VSlice [huge])])].

Lemma binvec_not_finite_witness :
  let M := one_dict_msgpack [x81] [] in
  exists p, encodeBinaryVector huge_query = Ok p /\
    decodeBinaryVector p = Err (ErrCodec "binary vector values must be finite float32").
Proof.
  intros M.
  apply (binvec_not_finite_undecodable huge_query [("vector", VSlice [huge])] [] 0x7F800000 [] [x81] []);
    solve [reflexivity | constructor | lia | done].
Defined.
