(* ===== verification/CoreCodec.v ===== *)
(** * core/codec.go: the frame codec

    [Encode] serialises a dict at one of three tiers and puts a frame header in
    front; [Decode] checks the header, the registry and the declared length and
    deserialises the payload.  The whole-value entry points of encoding/json
    are the operations of the class [GoJSON] (their number formatting is not
    needed by any statement here), MsgPack is the class of
    CoreBinaryVector.v; BinaryVector is the model of that file. *)

From S2P Require Import Prelude GoValue CoreFrames CoreBinaryVector.

(** [json.Marshal] of a [map[string]any] and [json.Unmarshal] into one. *)
Class GoJSON := {
  json_Marshal : dict -> go_result (list byte);
  json_Unmarshal : list byte -> go_result dict
}.

Definition DefaultMaxPayload : Z := 10 * 1024 * 1024.

Record NpsFrameCodec : Type := MkCodec {
  Registry : FrameRegistry;
  MaxPayload : Z            (* int64 *)
}.

Definition NewNpsFrameCodec (reg : FrameRegistry) : NpsFrameCodec :=
  MkCodec reg DefaultMaxPayload.

Section Codec.
Context `{Msgpack} `{GoJSON}.

Definition encodePayload (d : dict) (tier : Z) : go_result (list byte) :=
  if tier =? EncodingTierJSON then json_Marshal d
  else if tier =? EncodingTierMsgPack then msgpack_Marshal d
  else if tier =? EncodingTierBinaryVector then encodeBinaryVector d
  else Err (ErrCodec ("unknown encoding tier " +:+ fmt_d tier)).

Definition decodePayload (payload : list byte) (tier : Z) : go_result dict :=
  if tier =? EncodingTierJSON then
    match json_Unmarshal payload with
    | Ok d => Ok d
    | Err e => Err (ErrCodec (error_text e))
    end
  else if tier =? EncodingTierMsgPack then
    match msgpack_Unmarshal payload with
    | Ok d => Ok d
    | Err e => Err (ErrCodec (error_text e))
    end
  else if tier =? EncodingTierBinaryVector then decodeBinaryVector payload
  else Err (ErrCodec ("unknown encoding tier " +:+ fmt_d tier)).

Definition Encode (c : NpsFrameCodec) (ft : Z) (d : dict) (tier : Z) (isFinal : bool) :
    go_result (list byte) :=
  let? payload := encodePayload d tier in
  let n := Z.of_nat (length payload) in
  if n >? MaxPayload c then
    Err (ErrCodec ("payload " +:+ fmt_d n +:+ " exceeds max " +:+ fmt_d (MaxPayload c)))
  else Ok (ToBytes (NewFrameHeader ft tier isFinal n) ++ payload).

Definition Decode (c : NpsFrameCodec) (wire : list byte) : go_result (Z * dict) :=
  let? hdr := ParseFrameHeader wire in
  if negb (IsRegistered (Registry c) (FrameType hdr)) then
    Err (ErrFrame ("unregistered frame type 0x" +:+ fmt_02X (FrameType hdr)))
  else
    let hdrLen := HeaderSize hdr in
    let pLen := PayloadLength hdr in
    if Z.of_nat (length wire) <? Z.of_nat hdrLen + pLen then
      Err (ErrCodec "wire too short for declared payload")
    else
      let? d := decodePayload (take (Z.to_nat pLen) (drop hdrLen wire)) (EncodingTier hdr) in
      Ok (FrameType hdr, d).

Definition PeekHeader (wire : list byte) : go_result FrameHeader := ParseFrameHeader wire.

(** ** Lemmas *)

Lemma encodePayload_tier d tier p :
  encodePayload d tier = Ok p -> tier = 0 \/ tier = 1 \/ tier = 2.
Proof.
  unfold encodePayload, EncodingTierJSON, EncodingTierMsgPack, EncodingTierBinaryVector.
  repeat (case_match; bool_hyps; [by auto|]). done.
Qed.

Lemma stable_tier tier : tier = 0 \/ tier = 1 \/ tier = 2 -> Z.land (u8 tier) 3 = tier.
Proof. by intros [->|[->| ->]]. Qed.

(** Decoding a header that was parsed, followed by its payload. *)
Lemma Decode_header c h p rest :
  header_wf h = true -> Z.of_nat (length p) = PayloadLength h ->
  IsRegistered (Registry c) (FrameType h) = true ->
  Decode c (ToBytes h ++ p ++ rest) =
    let? d := decodePayload p (EncodingTier h) in Ok (FrameType h, d).
Proof.
  intros Hwf Hp Hreg. unfold Decode. rewrite parse_ToBytes, Hreg by done. cbn [negb].
  rewrite !length_app, length_ToBytes, <- Hp.
  rewrite (proj2 (Z.ltb_ge _ _)) by lia.
  rewrite drop_app_length' by (by rewrite length_ToBytes).
  by rewrite Nat2Z.id, take_app_length.
Qed.

(** The frame [Encode] writes. *)
Lemma Encode_Ok c ft d tier fin wire :
  Encode c ft d tier fin = Ok wire <->
  exists p, encodePayload d tier = Ok p /\ Z.of_nat (length p) <= MaxPayload c /\
    wire = ToBytes (NewFrameHeader ft tier fin (Z.of_nat (length p))) ++ p.
Proof.
  unfold Encode. destruct (encodePayload d tier) as [p|e]; [|naive_solver].
  destruct (_ >? _) eqn:E; bool_hyps; split.
  - done.
  - intros (p' & [= <-] & ? & _). lia.
  - intros [= <-]. eauto.
  - intros (p' & [= <-] & _ & ->). done.
Qed.

(** ** Properties *)

(** C14. Codec round trip: when the payload serialiser of the tier round-trips
    the dict and the payload is within [MaxPayload] and 32 bits, [Encode]
    succeeds and [Decode] of its output, with any bytes following, returns the
    frame type and the round-tripped dict. *)
Theorem codec_roundtrip c ft d tier fin p d' rest :
  known_type ft = true -> IsRegistered (Registry c) ft = true ->
  encodePayload d tier = Ok p -> decodePayload p tier = Ok d' ->
  Z.of_nat (length p) <= MaxPayload c -> Z.of_nat (length p) < 2 ^ 32 ->
  exists wire, Encode c ft d tier fin = Ok wire /\ Decode c (wire ++ rest) = Ok (ft, d').
Proof.
  intros Hk Hr He Hd Hm Hl. set (h := NewFrameHeader ft tier fin (Z.of_nat (length p))).
  exists (ToBytes h ++ p). split; [apply Encode_Ok; eauto|].
  rewrite <- app_assoc, Decode_header; [|by apply new_header_wf; [|lia]|done|done].
  destruct (new_header_flags ft tier fin (Z.of_nat (length p))) as (_ & _ & Et & _).
  fold h in Et. rewrite Et, stable_tier by (eapply encodePayload_tier; eauto). by rewrite Hd.
Qed.

(** [Decode] never accepts a frame of an unregistered type or one shorter
    than its header and declared payload, and hands the payload deserialiser
    exactly the declared bytes. *)
Theorem Decode_sound c wire ft d :
  Decode c wire = Ok (ft, d) ->
  exists h, PeekHeader wire = Ok h /\ FrameType h = ft /\
    IsRegistered (Registry c) ft = true /\ known_type ft = true /\
    Z.of_nat (HeaderSize h) + PayloadLength h <= Z.of_nat (length wire) /\
    decodePayload (take (Z.to_nat (PayloadLength h)) (drop (HeaderSize h) wire))
      (EncodingTier h) = Ok d.
Proof.
  unfold Decode, PeekHeader. destruct (ParseFrameHeader wire) as [h|] eqn:Eh; [|done].
  pose proof (parse_header_wf _ _ Eh) as Hwf. apply header_wf_spec in Hwf as (Hk & _).
  destruct (IsRegistered _ _) eqn:Er; [|done]. cbn [negb].
  case_match; [done|]. bool_hyps.
  destruct (decodePayload _ _) as [d0|] eqn:Ed; [|done]. intros [= <- <-]. eauto 10.
Qed.

End Codec.

(** ** Witnesses *)

Definition one_dict_json (b : list byte) (d : dict) : GoJSON :=
  {| json_Marshal := fun _ => Ok b; json_Unmarshal := fun _ => Ok d |}.

Lemma codec_roundtrip_witness :
  let M := one_dict_msgpack [] [] in
  let J := one_dict_json (bytes_of_string "{}") [] in
  exists wire, Encode (NewNpsFrameCodec CreateFullRegistry) FrameTypeHello [] EncodingTierJSON true = Ok wire /\
    Decode (NewNpsFrameCodec CreateFullRegistry) (wire ++ [x07]) = Ok (FrameTypeHello, []).
Proof.
  intros M J. apply (codec_roundtrip _ _ _ _ _ (bytes_of_string "{}")); done.
Defined.

Lemma Decode_sound_witness :
  let M := one_dict_msgpack [] [] in
  let J := one_dict_json [] [] in
  exists h, PeekHeader [x06; x04; x00; x02; x7b; x7d] = Ok h /\ FrameType h = FrameTypeHello /\
    IsRegistered CreateFullRegistry FrameTypeHello = true /\ known_type FrameTypeHello = true /\
    Z.of_nat (HeaderSize h) + PayloadLength h <= 6 /\
    decodePayload (take (Z.to_nat (PayloadLength h)) (drop (HeaderSize h) [x06; x04; x00; x02; x7b; x7d]))
      (EncodingTier h) = Ok [].
Proof.
  intros M J. apply (Decode_sound (NewNpsFrameCodec CreateFullRegistry)). vm_compute. reflexivity.
Defined.
