(* ===== verification/CoreStatus.v ===== *)
(** * Status codes

    core/status_codes.go: the NPS status codes and the HTTP status of each. *)

From S2P Require Import Prelude GoValue.

Definition HttpStatusMap : list (string * Z) :=
  [("NPS-OK", 200);
   ("NPS-OK-ACCEPTED", 202);
   ("NPS-OK-NO-CONTENT", 204);
   ("NPS-CLIENT-BAD-FRAME", 400);
   ("NPS-CLIENT-BAD-PARAM", 400);
   ("NPS-CLIENT-NOT-FOUND", 404);
   ("NPS-CLIENT-CONFLICT", 409);
   ("NPS-CLIENT-GONE", 410);
   ("NPS-CLIENT-UNPROCESSABLE", 422);
   ("NPS-AUTH-UNAUTHENTICATED", 401);
   ("NPS-AUTH-FORBIDDEN", 403);
   ("NPS-LIMIT-RATE", 429);
   ("NPS-LIMIT-BUDGET", 429);
   ("NPS-LIMIT-PAYLOAD", 413);
   ("NPS-LIMIT-RESOURCE", 429);
   ("NPS-SERVER-INTERNAL", 500);
   ("NPS-SERVER-UNSUPPORTED", 501);
   ("NPS-SERVER-UNAVAILABLE", 503);
   ("NPS-SERVER-TIMEOUT", 504);
   ("NPS-SERVER-ENCODING-UNSUPPORTED", 415);
   ("NPS-DOWNSTREAM-UNAVAILABLE", 502);
   ("NPS-STREAM-SEQ-GAP", 422);
   ("NPS-STREAM-NOT-FOUND", 404);
   ("NPS-STREAM-LIMIT", 429);
   ("NPS-PROTO-VERSION-INCOMPATIBLE", 426);
   ("NPS-PROTO-PREAMBLE-INVALID", 400);
   ("NPS-CLIENT-RATE-LIMITED", 429);
   ("NPS-LIMIT-EXCEEDED", 429);
   ("NPS-CLIENT-REQUEST-TOO-LARGE", 413)].

Definition ToHttpStatus (code : string) : Z := default 500 (assoc_get code HttpStatusMap).
