(* ===== verification/CoreCache.v ===== *)
(** * core/cache.go: the AnchorFrame cache

    Schemas are stored under a SHA-256 anchor id with a TTL.  The clock is the
    argument [now] (nanoseconds), the mutex makes each operation one step, and
    the hash is an argument: every statement holds for any hash function. *)

From S2P Require Import Prelude GoValue GoUtf8 CoreBinaryVector CoreCodec.

(** ** encoding/json string literals

    [json.Marshal] of a Go string: the mandatory escapes, the HTML escapes of
    [<], [>] and [&], [\u2028] and [\u2029], and [\ufffd] for every byte that
    does not start a valid UTF-8 sequence. *)

Definition hex_lower (z : Z) : string :=
  nth (Z.to_nat z) ["0"; "1"; "2"; "3"; "4"; "5"; "6"; "7"; "8"; "9";
                    "a"; "b"; "c"; "d"; "e"; "f"] "?".

(** The text of one ASCII character inside a JSON string literal. *)
Definition json_escape_ascii (c : Ascii.ascii) : string :=
  let z := char_z c in
  if z =? 0x22 then "\" +:+ String c ""
  else if z =? 0x5C then "\\"
  else if z =? 0x08 then "\b"
  else if z =? 0x0C then "\f"
  else if z =? 0x0A then "\n"
  else if z =? 0x0D then "\r"
  else if z =? 0x09 then "\t"
  else if (z <? 0x20) || (z =? 0x3C) || (z =? 0x3E) || (z =? 0x26)
  then "\u00" +:+ hex_lower (z / 16) +:+ hex_lower (z mod 16)
  else String c "".

Fixpoint json_escape (fuel : nat) (s : string) : string :=
  match fuel, s with
  | O, _ => ""
  | _, EmptyString => ""
  | S n, String c r =>
      if char_z c <? 0x80 then json_escape_ascii c +:+ json_escape n r
      else match utf8_multi s with
           | None => "\ufffd" +:+ json_escape n r
           | Some k =>
               let rune := String.substring 0 k s in
               let rest := String.substring k (String.length s - k) s in
               (if String.eqb rune (str_of [0xE2; 0x80; 0xA8]%N) then "\u2028"
                else if String.eqb rune (str_of [0xE2; 0x80; 0xA9]%N) then "\u2029"
                else rune) +:+ json_escape n rest
           end
  end.

Definition dquote : string := String (chr 0x22) "".
Definition json_Marshal_string (s : string) : string :=
  dquote +:+ json_escape (String.length s) s +:+ dquote.

(** [strings.NewReplacer(...).Replace] when every old string is one byte. *)
Fixpoint replace_bytes (table : list (Ascii.ascii * string)) (s : string) : string :=
  match s with
  | EmptyString => EmptyString
  | String c r =>
      match List.find (fun p => Ascii.eqb (fst p) c) table with
      | Some p => snd p
      | None => String c ""
      end +:+ replace_bytes table r
  end.

(** ** Anchor ids *)

Definition jcsStr (v : any) : string := default "" (as_string v).

Definition unescapeHTML (s : string) : string :=
  replace_bytes [(chr 0x3C, "<"); (chr 0x3E, ">"); (chr 0x26, "&")] s.

Definition writeJCSString (s : string) : string := unescapeHTML (json_Marshal_string s).

(** A double-quoted JSON key. *)
Definition jkey (k : string) : string := dquote +:+ k +:+ dquote +:+ ":".

Definition canonicalField (fm : dict) : string :=
  "{" +:+ jkey "name" +:+ writeJCSString (jcsStr (dict_at fm "name")) +:+
  "," +:+ jkey "nullable" +:+
  (if default false (as_bool (dict_at fm "nullable")) then "true" else "false") +:+
  (let s := jcsStr (dict_at fm "semantic") in
   if String.eqb s "" then "" else "," +:+ jkey "semantic" +:+ writeJCSString s) +:+
  "," +:+ jkey "type" +:+ writeJCSString (jcsStr (dict_at fm "type")) +:+ "}".

Definition canonicalFrameSchemaJSON (schema : dict) : option string :=
  match dict_get "fields" schema with
  | None => None
  | Some raw =>
      let fields := match raw with
                    | VSlice v => Some v
                    | VMaps v => Some (VMap <$> v)
                    | _ => None
                    end in
      match fields with
      | None => None
      | Some fs =>
          match mapM as_map fs with
          | None => None
          | Some fms =>
              Some ("{" +:+ jkey "fields" +:+ "[" +:+ join "," (canonicalField <$> fms) +:+ "]}")
          end
      end
  end.

(** ** AnchorFrameCache *)

Record anchorEntry : Type := MkAnchorEntry { schema : dict; expires : Z }.

Section Cache.
Context (sha256_hex : list byte -> string) `{GoJSON}.

(** [b, _ := json.Marshal(m)]: the error is dropped, the bytes are [nil]. *)
Definition marshal_or_nil (d : dict) : list byte :=
  match json_Marshal d with Ok b => b | Err _ => [] end.

Definition ComputeAnchorID (s : dict) : string :=
  match canonicalFrameSchemaJSON s with
  | Some canonical => "sha256:" +:+ sha256_hex (bytes_of_string canonical)
  | None => "sha256:" +:+ sha256_hex (marshal_or_nil s)
  end.

Definition mapsEqual (a b : dict) : bool :=
  if negb (length a =? length b)%nat then false
  else bool_decide (marshal_or_nil a = marshal_or_nil b).

Abbreviation cache := (gmap string anchorEntry).

Definition NewAnchorFrameCache : cache := ∅.

Definition Set_ (c : cache) (now : Z) (s : dict) (ttlSecs : Z) : cache * go_result string :=
  let id := ComputeAnchorID s in
  let poisoned := match c !! id with
                  | Some e => after (expires e) now && negb (mapsEqual (schema e) s)
                  | None => false
                  end in
  if poisoned then (c, Err (ErrAnchorPoison id))
  else (<[id := MkAnchorEntry s (add_seconds now ttlSecs)]> c, Ok id).

Definition Get (c : cache) (now : Z) (id : string) : option dict :=
  match c !! id with
  | Some e => if after (expires e) now then Some (schema e) else None
  | None => None
  end.

Definition GetRequired (c : cache) (now : Z) (id : string) : go_result dict :=
  match Get c now id with
  | None => Err (ErrAnchorNotFound id)
  | Some v => Ok v
  end.

Definition Invalidate (c : cache) (id : string) : cache := delete id c.

Definition Len (c : cache) (now : Z) : nat :=
  size (filter (fun p : string * anchorEntry => after (expires p.2) now = true) c).

(** ** Runs of the cache

    Any interleaving of operations under a clock that does not go back. *)
Inductive cache_op : Type :=
| OpSet (s : dict) (ttl : Z)
| OpInvalidate (id : string).

Definition apply_op (c : cache) (now : Z) (op : cache_op) : cache :=
  match op with
  | OpSet s ttl => (Set_ c now s ttl).1
  | OpInvalidate id => Invalidate c id
  end.

Inductive reachable : cache -> Z -> Prop :=
| reach_new t : reachable NewAnchorFrameCache t
| reach_tick c t t' : reachable c t -> t <= t' -> reachable c t'
| reach_op c t op : reachable c t -> reachable (apply_op c t op) t.

(** Every entry is stored under the id computed from its own schema. *)
Definition ids_match (c : cache) : Prop :=
  map_Forall (fun id e => id = ComputeAnchorID (schema e)) c.

Lemma ids_match_apply c t op : ids_match c -> ids_match (apply_op c t op).
Proof.
  intros Hc. destruct op as [s ttl|id]; simpl.
  - unfold Set_. case_match; [done|]. by apply map_Forall_insert_2.
  - by apply map_Forall_delete.
Qed.

Lemma reachable_ids_match c t : reachable c t -> ids_match c.
Proof. induction 1; [apply map_Forall_empty|done|by apply ids_match_apply]. Qed.

(** ** Properties *)

(** Content addressing: in every reachable cache each entry sits under the
    anchor id of its own schema, so whatever [Get] returns for an id hashes to
    that id. *)
Theorem cache_content_addressed c t now id s :
  reachable c t -> Get c now id = Some s -> ComputeAnchorID s = id.
Proof.
  intros Hr%reachable_ids_match Hg. unfold Get in Hg. destruct (c !! id) as [e|] eqn:E; [|done].
  case_match; [|done]. injection Hg as <-. symmetry. exact (Hr id e E).
Qed.

(** [Set_] then [Get]: a successful [Set_] with a TTL a [time.Duration] can
    hold makes exactly that schema readable until the TTL has passed and not
    later, leaves every other id as it was, and is refused (with the cache
    unchanged) exactly when the id is live with a different schema. *)
Theorem cache_set_get c now s ttl :
  0 <= ttl <= max_seconds ->
  match Set_ c now s ttl with
  | (c', Ok id) =>
      id = ComputeAnchorID s /\
      (forall now', Get c' now' id = if now' <? now + ttl * second then Some s else None) /\
      (forall id' now', id' <> id -> Get c' now' id' = Get c now' id') /\
      (forall s', Get c now id = Some s' -> mapsEqual s' s = true)
  | (c', Err e) =>
      c' = c /\ e = ErrAnchorPoison (ComputeAnchorID s) /\
      exists s', Get c now (ComputeAnchorID s) = Some s' /\ mapsEqual s' s = false
  end.
Proof.
  intros Httl. unfold Set_. set (id := ComputeAnchorID s).
  destruct (match c !! id with Some e => _ | None => false end) eqn:Ep.
  - split_and!; [done..|]. unfold Get. destruct (c !! id) as [e|] eqn:E; [|done].
    bool_hyps. exists (schema e). split; [|done]. by case_match.
  - split_and!; [done|..].
    + intros now'. unfold Get. rewrite lookup_insert_eq. simpl. unfold after.
      by rewrite add_seconds_exact.
    + intros id' now' Hne. unfold Get. by rewrite lookup_insert_ne.
    + unfold Get. destruct (c !! id) as [e|]; [|done]. intros s'.
      destruct (after (expires e) now); [|done]. intros [= <-]. simpl in Ep. by bool_hyps.
Qed.

(** A TTL one second beyond what a [time.Duration] holds wraps around: the
    entry [Set_] reports as stored is already expired. *)
Theorem cache_ttl_overflow c now s id c' :
  Set_ c now s (max_seconds + 1) = (c', Ok id) -> Get c' now id = None.
Proof.
  unfold Set_. case_match; [done|]. intros [= <- <-]. unfold Get.
  rewrite lookup_insert_eq. simpl. unfold after.
  by rewrite (proj2 (Z.ltb_ge _ _)) by (pose proof (add_seconds_wraps now); lia).
Qed.

End Cache.

Lemma replace_bytes_id table s :
  Forall (fun p => snd p = String (fst p) "") table -> replace_bytes table s = s.
Proof.
  intros Ht. induction s as [|c s IH]; [done|]. simpl. rewrite IH.
  destruct (List.find _ table) as [p|] eqn:E; [|done].
  apply List.find_some in E as [Hin Hc]. apply Ascii.eqb_eq in Hc.
  rewrite Forall_forall in Ht. apply list_elem_of_In in Hin.
  rewrite (Ht p Hin), Hc. done.
Qed.

(** [unescapeHTML] changes nothing, so [writeJCSString] emits the literal of
    [json.Marshal] with its HTML escapes: the canonical form of a schema whose
    field name is [<] carries the six characters [\u003c], not [<]. *)
Theorem jcs_keeps_html_escapes :
  (forall s, writeJCSString s = json_Marshal_string s) /\
  canonicalFrameSchemaJSON [("fields", VSlice [VMap [("name", VString "<"); ("type", VString "t")]])]
  = Some ("{" +:+ jkey "fields" +:+ "[{" +:+ jkey "name" +:+ dquote +:+ "\u003c" +:+ dquote +:+ "," +:+
          jkey "nullable" +:+ "false," +:+ jkey "type" +:+ dquote +:+ "t" +:+ dquote +:+ "}]}").
Proof.
  split; [|reflexivity]. intros s. apply replace_bytes_id.
  repeat (constructor; [done|]). constructor.
Qed.

(** ** Witnesses *)

Definition sample_hash (b : list byte) : string := string_of_bytes b.
Definition sample_json : GoJSON := one_dict_json (bytes_of_string "{}") [].

Lemma cache_content_addressed_witness :
  ComputeAnchorID sample_hash (H := sample_json) [] = "sha256:{}".
Proof.
  apply (cache_content_addressed sample_hash (H := sample_json)
           (Set_ sample_hash (H := sample_json) ∅ 5 [] 60).1 5 7).
  - exact (reach_op sample_hash (H := sample_json) ∅ 5 (OpSet [] 60)
             (reach_new sample_hash (H := sample_json) 5)).
  - vm_compute. reflexivity.
Defined.

Lemma cache_set_get_witness :
  Get (Set_ sample_hash (H := sample_json) ∅ 5 [] 60).1 7 "sha256:{}" = Some [].
Proof.
  assert (0 <= 60 <= max_seconds) as H60 by (unfold max_seconds; lia).
  exact (proj1 (proj2 (cache_set_get sample_hash (H := sample_json) ∅ 5 [] 60 H60)) 7).
Defined.

Lemma cache_ttl_overflow_witness :
  Get (Set_ sample_hash (H := sample_json) ∅ 5 [] (max_seconds + 1)).1 5 "sha256:{}" = None.
Proof. apply (cache_ttl_overflow sample_hash (H := sample_json) ∅ 5 []). reflexivity. Defined.
