(* ===== verification/NcpFrames.v ===== *)
(** * ncp/frames.go and ncp/handshake_caps.go: NCP frames and their dicts

    One record per frame with [ToDict] and [FromDict] as the code builds them.
    A Go pointer field is an [option]; a slice whose nil-ness the code tests is
    an [option] of a list.  [dict_tr] relates a dict to what the peer decodes
    after JSON (integers become float64, typed slices become [[]any]) or
    MsgPack; the [FromDict] functions are [Proper] for it. *)

From S2P Require Import Prelude GoValue CoreFrames.

(** ** Helpers *)

Definition str (d : dict) (k : string) : string := default "" (as_string (dict_at d k)).
Definition optStr (d : dict) (k : string) : option string := as_string (dict_at d k).

Definition toUint64 (v : any) : Z :=
  match v with
  | VInt KInt64 x => u64 x
  | VInt KUint64 x => x
  | VFloat64 x => uint64_of_float x
  | VInt KInt x => u64 x
  | _ => 0
  end.

Definition anySlice (v : any) : option (list any) :=
  match v with
  | VSlice items => Some items
  | VNil => None
  | items => Some [items]
  end.

Definition optBoolPtr (d : dict) (k : string) : option bool := as_bool (dict_at d k).

Definition optUint64Ptr (d : dict) (k : string) : option Z :=
  match dict_get k d with Some v => Some (toUint64 v) | None => None end.

(** Set a key only when the pointer field is not nil. *)
Definition set_opt {A} (k : string) (inj : A -> any) (o : option A) (d : dict) : dict :=
  match o with Some x => dict_set k (inj x) d | None => d end.

(** ** AnchorFrame, DiffFrame, StreamFrame *)

Record AnchorFrame : Type := MkAnchorFrame {
  af_AnchorID : string; af_Schema : dict; af_Namespace : option string;
  af_Description : option string; af_NodeType : option string; af_TTL : Z
}.

Definition AnchorFrame_ToDict (f : AnchorFrame) : dict :=
  set_opt "node_type" VString (af_NodeType f)
  (set_opt "description" VString (af_Description f)
  (set_opt "namespace" VString (af_Namespace f)
    [("anchor_id", VString (af_AnchorID f)); ("schema", VMap (af_Schema f));
     ("ttl", VInt KUint64 (af_TTL f))])).

Definition AnchorFrameFromDict (d : dict) : AnchorFrame :=
  let ttl := toUint64 (dict_at d "ttl") in
  MkAnchorFrame (str d "anchor_id") (default [] (as_map (dict_at d "schema")))
    (optStr d "namespace") (optStr d "description") (optStr d "node_type")
    (if ttl =? 0 then 3600 else ttl).

Record DiffFrame : Type := MkDiffFrame {
  df_AnchorID : string; df_NewAnchorID : string; df_Patch : list any
}.

Definition DiffFrame_ToDict (f : DiffFrame) : dict :=
  [("anchor_id", VString (df_AnchorID f)); ("new_anchor_id", VString (df_NewAnchorID f));
   ("patch", VSlice (df_Patch f))].

Definition DiffFrameFromDict (d : dict) : DiffFrame :=
  MkDiffFrame (str d "anchor_id") (str d "new_anchor_id")
    (default [] (as_slice (dict_at d "patch"))).

Record StreamFrame : Type := MkStreamFrame {
  sf_AnchorID : string; sf_Seq : Z; sf_Payload : any; sf_IsLast : bool
}.

Definition StreamFrame_ToDict (f : StreamFrame) : dict :=
  [("anchor_id", VString (sf_AnchorID f)); ("seq", VInt KUint64 (sf_Seq f));
   ("payload", sf_Payload f); ("is_last", VBool (sf_IsLast f))].

Definition StreamFrameFromDict (d : dict) : StreamFrame :=
  MkStreamFrame (str d "anchor_id") (toUint64 (dict_at d "seq")) (dict_at d "payload")
    (default false (as_bool (dict_at d "is_last"))).

(** ** CapsFrame *)

Record CapsFrame : Type := MkCapsFrame {
  cf_NodeID : string; cf_Caps : list string; cf_AnchorRef : option string;
  cf_Count : Z; cf_Data : option (list any); cf_NextCursor : option string;
  cf_TokenEst : option Z; cf_Cached : option bool; cf_TokenizerUsed : option string;
  cf_RequestID : option string; cf_Payload : any
}.

Definition not_nil (v : any) : bool := match v with VNil => false | _ => true end.

Definition CapsFrame_ToDict (f : CapsFrame) : dict :=
  let d := [] in
  let d := if String.eqb (cf_NodeID f) "" then d else dict_set "node_id" (VString (cf_NodeID f)) d in
  let d := match cf_Caps f with [] => d | l => dict_set "caps" (VStrings l) d end in
  let d := set_opt "anchor_ref" VString (cf_AnchorRef f) d in
  let d := if bool_decide (cf_Data f <> None) || negb (cf_Count f =? 0) then
             let d := dict_set "count" (VInt KUint64 (cf_Count f)) d in
             let d := if cf_Count f =? 0
                      then dict_set "count" (VInt KUint64 (Z.of_nat (length (default [] (cf_Data f))))) d
                      else d in
             dict_set "data" (VSlice (default [] (cf_Data f))) d
           else d in
  let d := set_opt "next_cursor" VString (cf_NextCursor f) d in
  let d := set_opt "token_est" (VInt KUint64) (cf_TokenEst f) d in
  let d := set_opt "cached" VBool (cf_Cached f) d in
  let d := set_opt "tokenizer_used" VString (cf_TokenizerUsed f) d in
  let d := set_opt "request_id" VString (cf_RequestID f) d in
  if not_nil (cf_Payload f) then dict_set "payload" (cf_Payload f) d else d.

Definition CapsFrameFromDict (d : dict) : CapsFrame :=
  MkCapsFrame (str d "node_id") (default [] (as_string_slice (dict_at d "caps")))
    (optStr d "anchor_ref") (toUint64 (dict_at d "count")) (anySlice (dict_at d "data"))
    (optStr d "next_cursor") (optUint64Ptr d "token_est") (optBoolPtr d "cached")
    (optStr d "tokenizer_used") (optStr d "request_id") (dict_at d "payload").

Definition NewCapsFrame (anchorRef : string) (data : option (list any)) : CapsFrame :=
  MkCapsFrame "" [] (Some anchorRef) (Z.of_nat (length (default [] data))) data
    None None None None None VNil.

(** ** HelloFrame *)

Record HelloFrame : Type := MkHelloFrame {
  hf_NpsVersion : string; hf_SupportedEncodings : list string;
  hf_SupportedProtocols : list string; hf_MinVersion : option string;
  hf_AgentID : option string; hf_MaxFramePayload : Z; hf_ExtSupport : bool;
  hf_MaxConcurrentStreams : Z; hf_E2eEncAlgorithms : option (list string);
  hf_PingIntervalMs : Z
}.

Definition HelloDefaultMaxFramePayload : Z := 0xFFFF.
Definition HelloDefaultMaxConcurrentStreams : Z := 32.

Definition or_default (x dflt : Z) : Z := if x =? 0 then dflt else x.

Definition HelloFrame_ToDict (f : HelloFrame) : dict :=
  let maxPayload := or_default (hf_MaxFramePayload f) HelloDefaultMaxFramePayload in
  let maxStreams := or_default (hf_MaxConcurrentStreams f) HelloDefaultMaxConcurrentStreams in
  let d := [("nps_version", VString (hf_NpsVersion f));
            ("supported_encodings", VStrings (hf_SupportedEncodings f));
            ("supported_protocols", VStrings (hf_SupportedProtocols f));
            ("max_frame_payload", VInt KUint64 maxPayload);
            ("ext_support", VBool (hf_ExtSupport f));
            ("max_concurrent_streams", VInt KUint64 maxStreams)] in
  let d := set_opt "min_version" VString (hf_MinVersion f) d in
  let d := set_opt "agent_id" VString (hf_AgentID f) d in
  let d := set_opt "e2e_enc_algorithms" VStrings (hf_E2eEncAlgorithms f) d in
  if hf_PingIntervalMs f >? 0
  then dict_set "ping_interval_ms" (VInt KUint64 (hf_PingIntervalMs f)) d else d.

Definition HelloFrameFromDict (d : dict) : HelloFrame :=
  MkHelloFrame (str d "nps_version")
    (default [] (as_string_slice (dict_at d "supported_encodings")))
    (default [] (as_string_slice (dict_at d "supported_protocols")))
    (optStr d "min_version") (optStr d "agent_id")
    (or_default (toUint64 (dict_at d "max_frame_payload")) HelloDefaultMaxFramePayload)
    (default false (as_bool (dict_at d "ext_support")))
    (or_default (toUint64 (dict_at d "max_concurrent_streams")) HelloDefaultMaxConcurrentStreams)
    (match dict_get "e2e_enc_algorithms" d with
     | Some v => as_string_slice v | None => None end)
    (toUint64 (dict_at d "ping_interval_ms")).

(** ** NopFrame and ErrorFrame *)

Inductive NopFrame : Type := MkNopFrame.
Definition NopFrame_ToDict (f : NopFrame) : dict := [].
Definition NopFrameFromDict (d : dict) : NopFrame := MkNopFrame.

Record ErrorFrame : Type := MkErrorFrame {
  ef_ErrorCode : string; ef_Message : string; ef_Detail : any
}.

Definition ErrorFrame_ToDict (f : ErrorFrame) : dict :=
  let d := [("error_code", VString (ef_ErrorCode f)); ("message", VString (ef_Message f))] in
  if not_nil (ef_Detail f) then dict_set "detail" (ef_Detail f) d else d.

Definition ErrorFrameFromDict (d : dict) : ErrorFrame :=
  MkErrorFrame (str d "error_code") (str d "message") (dict_at d "detail").

(** ** NcpHandshakeCapsFrame *)

Record NcpHandshakeCapsFrame : Type := MkHandshakeCaps {
  hc_NodeID : string; hc_Caps : list string; hc_NegotiatedEncoding : option string;
  hc_EnabledEncodings : option (list string); hc_SessionVersion : option string;
  hc_SupportedProtocols : option (list string); hc_MaxFramePayload : option Z;
  hc_ExtSupport : option bool; hc_MaxConcurrentStreams : option Z;
  hc_AnchorRef : option string; hc_Payload : any
}.

Definition NcpHandshakeCapsFrame_ToDict (f : NcpHandshakeCapsFrame) : dict :=
  let d := [("node_id", VString (hc_NodeID f)); ("caps", VStrings (hc_Caps f))] in
  let d := set_opt "negotiated_encoding" VString (hc_NegotiatedEncoding f) d in
  let d := set_opt "enabled_encodings" VStrings (hc_EnabledEncodings f) d in
  let d := set_opt "session_version" VString (hc_SessionVersion f) d in
  let d := set_opt "supported_protocols" VStrings (hc_SupportedProtocols f) d in
  let d := set_opt "max_frame_payload" (VInt KUint64) (hc_MaxFramePayload f) d in
  let d := set_opt "ext_support" VBool (hc_ExtSupport f) d in
  let d := set_opt "max_concurrent_streams" (VInt KUint64) (hc_MaxConcurrentStreams f) d in
  let d := set_opt "anchor_ref" VString (hc_AnchorRef f) d in
  if not_nil (hc_Payload f) then dict_set "payload" (hc_Payload f) d else d.

Definition NcpHandshakeCapsFrameFromDict (d : dict) : NcpHandshakeCapsFrame :=
  MkHandshakeCaps (str d "node_id") (default [] (as_string_slice (dict_at d "caps")))
    (optStr d "negotiated_encoding")
    (match dict_get "enabled_encodings" d with Some v => as_string_slice v | None => None end)
    (optStr d "session_version")
    (match dict_get "supported_protocols" d with Some v => as_string_slice v | None => None end)
    (optUint64Ptr d "max_frame_payload") (optBoolPtr d "ext_support")
    (optUint64Ptr d "max_concurrent_streams") (optStr d "anchor_ref") (dict_at d "payload").

(** ** Transport of dicts *)

(** What a peer may decode for a value: the value itself; a float64 for an
    integer small enough to be exact; a [[]any] for a [[]string]. *)
Inductive transported : any -> any -> Prop :=
| tr_same v : transported v v
| tr_float z : 0 <= z < 2 ^ 53 -> transported (VInt KUint64 z) (VFloat64 (float64_of_Z z))
| tr_int z : 0 <= z < 2 ^ 53 -> transported (VInt KInt64 z) (VFloat64 (float64_of_Z z))
| tr_strings l : transported (VStrings l) (VSlice (VString <$> l)).

Definition dict_tr (d d' : dict) : Prop :=
  Forall2 (fun p p' => p.1 = p'.1 /\ transported p.2 p'.2) d d'.

Lemma dict_tr_refl d : dict_tr d d.
Proof. unfold dict_tr. induction d; constructor; eauto using transported. Qed.

Lemma dict_tr_get k d d' :
  dict_tr d d' -> option_Forall2 transported (dict_get k d) (dict_get k d').
Proof.
  induction 1 as [|[k1 v] [k2 v'] d d' [Hk Hv] _ IH]; simpl in *; [constructor|]. subst.
  destruct (String.eqb k2 k); [by constructor|done].
Qed.

Lemma dict_tr_at k d d' : dict_tr d d' -> transported (dict_at d k) (dict_at d' k).
Proof. intros Hs%(dict_tr_get k). unfold dict_at. destruct Hs; simpl; [done|constructor]. Qed.

Lemma omap_VString (l : list string) : omap as_string (VString <$> l) = l.
Proof. induction l as [|x l IH]; [done|]. csimpl. by f_equal. Qed.

#[export] Instance toUint64_tr : Proper (transported ==> eq) toUint64.
Proof. intros ? ? [| | |]; [done| | |done]; simpl; rewrite uint64_of_float_exact by done; [done|]. by apply wrapu_small; lia. Qed.
#[export] Instance as_string_slice_tr : Proper (transported ==> eq) as_string_slice.
Proof. intros ? ? [| | |l]; [done..|]. simpl. by rewrite omap_VString. Qed.
#[export] Instance as_string_tr : Proper (transported ==> eq) as_string.
Proof. by intros ? ? [| | |]. Qed.
#[export] Instance as_bool_tr : Proper (transported ==> eq) as_bool.
Proof. by intros ? ? [| | |]. Qed.
#[export] Instance as_map_tr : Proper (transported ==> eq) as_map.
Proof. by intros ? ? [| | |]. Qed.
#[export] Instance dict_at_tr : Proper (dict_tr ==> eq ==> transported) dict_at.
Proof. intros d d' Hd k ? <-. by apply dict_tr_at. Qed.
#[export] Instance str_tr : Proper (dict_tr ==> eq ==> eq) str.
Proof. intros d d' Hd k ? <-. unfold str. by rewrite (dict_tr_at k _ _ Hd). Qed.
#[export] Instance optStr_tr : Proper (dict_tr ==> eq ==> eq) optStr.
Proof. intros d d' Hd k ? <-. unfold optStr. by rewrite (dict_tr_at k _ _ Hd). Qed.
#[export] Instance optBoolPtr_tr : Proper (dict_tr ==> eq ==> eq) optBoolPtr.
Proof. intros d d' Hd k ? <-. unfold optBoolPtr. by rewrite (dict_tr_at k _ _ Hd). Qed.
#[export] Instance optUint64Ptr_tr : Proper (dict_tr ==> eq ==> eq) optUint64Ptr.
Proof.
  intros d d' Hd k ? <-. unfold optUint64Ptr.
  destruct (dict_tr_get k _ _ Hd) as [v v' Hv|]; [by rewrite Hv|done].
Qed.

Lemma string_slice_get_tr k d d' :
  dict_tr d d' ->
  match dict_get k d with Some v => as_string_slice v | None => None end =
  match dict_get k d' with Some v => as_string_slice v | None => None end.
Proof. intros Hd. destruct (dict_tr_get k _ _ Hd) as [v v' Hv|]; [by rewrite Hv|done]. Qed.

#[export] Instance HelloFrameFromDict_tr : Proper (dict_tr ==> eq) HelloFrameFromDict.
Proof.
  intros d d' Hd. unfold HelloFrameFromDict.
  f_equal; try (by rewrite Hd); try (f_equal; rewrite Hd; done);
    by apply string_slice_get_tr.
Qed.

(** The two frames agree on everything but the opaque payload. *)
Definition caps_agree (f g : NcpHandshakeCapsFrame) : Prop :=
  f = MkHandshakeCaps (hc_NodeID g) (hc_Caps g) (hc_NegotiatedEncoding g) (hc_EnabledEncodings g)
        (hc_SessionVersion g) (hc_SupportedProtocols g) (hc_MaxFramePayload g) (hc_ExtSupport g)
        (hc_MaxConcurrentStreams g) (hc_AnchorRef g) (hc_Payload f) /\
  transported (hc_Payload f) (hc_Payload g).

#[export] Instance handshakeCapsFromDict_tr :
  Proper (dict_tr ==> caps_agree) NcpHandshakeCapsFrameFromDict.
Proof.
  intros d d' Hd. split; [|by apply dict_tr_at]. unfold NcpHandshakeCapsFrameFromDict.
  cbn. f_equal; try (by rewrite Hd); by apply string_slice_get_tr.
Qed.

(** ** Local round trips *)

Definition hello_defaults (f : HelloFrame) : HelloFrame :=
  MkHelloFrame (hf_NpsVersion f) (hf_SupportedEncodings f) (hf_SupportedProtocols f)
    (hf_MinVersion f) (hf_AgentID f)
    (or_default (hf_MaxFramePayload f) HelloDefaultMaxFramePayload) (hf_ExtSupport f)
    (or_default (hf_MaxConcurrentStreams f) HelloDefaultMaxConcurrentStreams)
    (hf_E2eEncAlgorithms f) (hf_PingIntervalMs f).

Lemma or_default_idem x y : or_default (or_default x y) y = or_default x y.
Proof. unfold or_default. by destruct (x =? 0) eqn:E; [destruct (y =? 0)|rewrite E]. Qed.

Lemma hello_local f :
  0 <= hf_PingIntervalMs f ->
  HelloFrameFromDict (HelloFrame_ToDict f) = hello_defaults f.
Proof.
  intros Hp. destruct f as [v se sp [mv|] [ag|] mp ext ms [e2|] ping]; simpl in Hp;
  unfold HelloFrame_ToDict, hello_defaults; cbn [hf_NpsVersion hf_SupportedEncodings
    hf_SupportedProtocols hf_MinVersion hf_AgentID hf_MaxFramePayload hf_ExtSupport
    hf_MaxConcurrentStreams hf_E2eEncAlgorithms hf_PingIntervalMs set_opt];
  (destruct (ping >? 0) eqn:E; bool_hyps;
   [|replace ping with 0 by lia];
   cbv -[or_default]; rewrite !or_default_idem; reflexivity).
Qed.

Lemma handshake_caps_local f :
  NcpHandshakeCapsFrameFromDict (NcpHandshakeCapsFrame_ToDict f) = f.
Proof.
  destruct f as [n c [ne|] [ee|] [sv|] [sp|] [mf|] [es|] [ms|] [ar|] p];
    destruct p; reflexivity.
Qed.

(** ** Properties *)

(** A HelloFrame survives the wire: whatever a JSON or MsgPack peer decodes
    for its dict (integers as float64 up to 2^53, string slices as [[]any])
    reads back as the same frame with the two zero limits replaced by their
    defaults; in particular a decoded limit is never 0. *)
Theorem hello_roundtrip f d' :
  0 <= hf_PingIntervalMs f -> dict_tr (HelloFrame_ToDict f) d' ->
  HelloFrameFromDict d' = hello_defaults f /\
  hf_MaxFramePayload (HelloFrameFromDict d') <> 0 /\
  hf_MaxConcurrentStreams (HelloFrameFromDict d') <> 0.
Proof.
  intros Hp Hd%HelloFrameFromDict_tr. rewrite <- Hd, hello_local by done. split; [done|]. simpl.
  unfold or_default. split; destruct (_ =? 0) eqn:E; bool_hyps; done.
Qed.

(** The handshake CapsFrame survives the wire: every negotiated field is
    read back as it was written, the opaque payload as it was transported. *)
Theorem handshake_caps_roundtrip f d' :
  dict_tr (NcpHandshakeCapsFrame_ToDict f) d' ->
  caps_agree f (NcpHandshakeCapsFrameFromDict d').
Proof. intros Hd%handshakeCapsFromDict_tr. by rewrite handshake_caps_local in Hd. Qed.

(** ** Witnesses *)

Definition sample_hello : HelloFrame :=
  MkHelloFrame "0.11" ["msgpack"; "json"] ["ncp"; "nwp"] (Some "0.5") None 0 true 8 (Some []) 250.

Definition sample_hello_wire : dict :=
  [("nps_version", VString "0.11");
   ("supported_encodings", VSlice [VString "msgpack"; VString "json"]);
   ("supported_protocols", VSlice [VString "ncp"; VString "nwp"]);
   ("max_frame_payload", VFloat64 (float64_of_Z 0xFFFF)); ("ext_support", VBool true);
   ("max_concurrent_streams", VFloat64 (float64_of_Z 8)); ("min_version", VString "0.5");
   ("e2e_enc_algorithms", VSlice []); ("ping_interval_ms", VFloat64 (float64_of_Z 250))].

Lemma sample_hello_tr : dict_tr (HelloFrame_ToDict sample_hello) sample_hello_wire.
Proof.
  repeat first [apply Forall2_nil_2 | apply Forall2_cons_2; [split; [reflexivity|]|]];
  try apply tr_same;
  [ exact (tr_strings ["msgpack"; "json"]) | exact (tr_strings ["ncp"; "nwp"])
  | exact (tr_float 0xFFFF ltac:(lia)) | exact (tr_float 8 ltac:(lia))
  | exact (tr_strings []) | exact (tr_float 250 ltac:(lia)) ].
Qed.

Lemma hello_roundtrip_witness :
  HelloFrameFromDict sample_hello_wire = hello_defaults sample_hello /\
  hf_MaxFramePayload (HelloFrameFromDict sample_hello_wire) <> 0 /\
  hf_MaxConcurrentStreams (HelloFrameFromDict sample_hello_wire) <> 0.
Proof. apply (hello_roundtrip sample_hello); [simpl; lia|apply sample_hello_tr]. Defined.

Definition sample_caps : NcpHandshakeCapsFrame :=
  MkHandshakeCaps "urn:nps:agent:a:b" ["ncp"] (Some "json") (Some ["json"]) (Some "0.11")
    (Some ["ncp"]) (Some 0xFFFF) (Some false) (Some 32) None VNil.

Lemma handshake_caps_roundtrip_witness :
  caps_agree sample_caps
    (NcpHandshakeCapsFrameFromDict (NcpHandshakeCapsFrame_ToDict sample_caps)).
Proof. apply (handshake_caps_roundtrip sample_caps). apply dict_tr_refl. Defined.
