(* ===== verification/NcpHandshake.v ===== *)
(** * NCP admission: preamble, encoding policy, deterministic negotiation

    ncp/preamble.go, ncp/encoding_policy.go, ncp/patch_format.go and
    ncp/handshake_profile.go, all pure decisions.  The negotiation theorem
    states the abstract contract (greatest common version, first common stable
    encoding in client order, protocol intersection, minima of the limits) and
    that [NegotiateHandshake] accepts exactly when the contract can be met. *)

From S2P Require Import Prelude GoValue CoreFrames NcpFrames.

(** ** Wire constants (ncp/error_codes.go, core/status_codes.go) *)

Definition ErrEncodingUnsupported : string := "NCP-ENCODING-UNSUPPORTED".
Definition ErrVersionIncompatible : string := "NCP-VERSION-INCOMPATIBLE".
Definition ErrPreambleInvalidCode : string := "NCP-PREAMBLE-INVALID".
Definition NpsServerEncodingUnsupported : string := "NPS-SERVER-ENCODING-UNSUPPORTED".
Definition NpsProtoVersionIncompatible : string := "NPS-PROTO-VERSION-INCOMPATIBLE".

(** ** Preamble (ncp/preamble.go) *)

Definition PreambleLength : nat := 8.
Definition preambleBytes : list byte :=
  bytes_of_string ("NPS/1.0" +:+ String (chr 0x0A) "").

Fixpoint prefix_matches (want buf : list byte) : bool :=
  match want, buf with
  | [], _ => true
  | w :: want, b :: buf => bool_decide (b = w) && prefix_matches want buf
  | _ :: _, [] => false
  end.

Definition PreambleMatches (buf : list byte) : bool :=
  if (length buf <? PreambleLength)%nat then false else prefix_matches preambleBytes buf.

Definition ValidatePreamble (buf : list byte) : go_result unit :=
  if (length buf <? PreambleLength)%nat then
    Err (ErrPreambleInvalid ("short read (" +:+ fmt_d (Z.of_nat (length buf)) +:+ "/" +:+
           fmt_d (Z.of_nat PreambleLength) +:+ " bytes); peer is not speaking NCP"))
  else if negb (PreambleMatches buf) then
    if (4 <=? length buf)%nat && prefix_matches (bytes_of_string "NPS/") buf then
      Err (ErrPreambleInvalid
        "future-major-version NPS preamble; close with NPS-PREAMBLE-UNSUPPORTED-VERSION diagnostic")
    else Err (ErrPreambleInvalid "preamble mismatch; peer is not speaking NPS/1.x")
  else Ok tt.

(** ** Encoding policy (ncp/encoding_policy.go) *)

Definition EncodingToken (tier : Z) : string :=
  if tier =? EncodingTierJSON then "json"
  else if tier =? EncodingTierMsgPack then "msgpack"
  else if tier =? EncodingTierBinaryVector then "binary_vector.v1"
  else "unknown:" +:+ fmt_d (u8 tier).

Record NcpEncodingPolicy : Type := MkPolicy {
  DefaultTier : Z;
  BinaryVectorEnabled : bool
}.

Definition NewNcpEncodingPolicy (defaultTier : Z) (binaryVectorEnabled : bool) : NcpEncodingPolicy :=
  MkPolicy defaultTier binaryVectorEnabled.

Definition EnabledEncodings (p : NcpEncodingPolicy) : list string :=
  if BinaryVectorEnabled p
  then [EncodingToken (DefaultTier p); "binary_vector.v1"]
  else [EncodingToken (DefaultTier p)].

Definition isBinaryVectorFrame (frameType : Z) : bool := frameType =? FrameTypeQuery.

Definition Allows (p : NcpEncodingPolicy) (tier frameType : Z) : bool :=
  if tier =? DefaultTier p then true
  else (tier =? EncodingTierBinaryVector) && BinaryVectorEnabled p && isBinaryVectorFrame frameType.

Definition EnsureAllows (p : NcpEncodingPolicy) (h : FrameHeader) : go_result unit :=
  if Allows p (EncodingTier h) (FrameType h) then Ok tt
  else Err (ErrCodec ("frame type 0x" +:+ fmt_02X (FrameType h) +:+ " used " +:+
              EncodingToken (EncodingTier h) +:+ ", but the negotiated session policy allows " +:+
              join ", " (EnabledEncodings p))).

Definition containsToken (tokens : list string) (want : string) : bool := mem_string want tokens.

Definition NcpEncodingPolicyFromEnabledEncodings (defaultTier : Z) (enabled : list string) :
    NcpEncodingPolicy :=
  MkPolicy defaultTier (containsToken enabled "binary_vector.v1").

(** ** Patch formats (ncp/patch_format.go) *)

(** [Quote] renders the [%q] verb ([strconv.Quote]). *)
Definition ValidatePatchFormat (Quote : string -> string) (patchFormat : string) (tier : Z) :
    go_result unit :=
  if String.eqb patchFormat "json_patch" then Ok tt
  else if String.eqb patchFormat "binary_bitset" then
    if negb (tier =? EncodingTierMsgPack) then
      Err (ErrFrame ("patch format " +:+ Quote patchFormat +:+
             " MUST only be used in Tier-2 (MsgPack) frames, got " +:+ EncodingToken tier))
    else Ok tt
  else Err (ErrFrame ("unsupported patch format " +:+ Quote patchFormat)).

(** ** Versions (ncp/handshake_profile.go) *)

Record protocolVersion : Type := MkVersion { major : Z; minor : Z }.

#[export] Instance protocolVersion_eq_dec : EqDecision protocolVersion.
Proof. solve_decision. Defined.

Definition version_String (v : protocolVersion) : string :=
  FormatUint (major v) +:+ String dot (FormatUint (minor v)).

Definition parseProtocolVersion (value : string) : option protocolVersion :=
  match split_on dot value with
  | [p0; p1] =>
      match ParseUint p0 with
      | None => None
      | Some maj => match ParseUint p1 with
                    | None => None
                    | Some min => Some (MkVersion maj min)
                    end
      end
  | _ => None
  end.

Definition compareProtocolVersion (left right : protocolVersion) : Z :=
  if (major left <? major right) || ((major left =? major right) && (minor left <? minor right))
  then -1
  else if bool_decide (left = right) then 0 else 1.

Definition minProtocolVersion (left right : protocolVersion) : protocolVersion :=
  if compareProtocolVersion left right <=? 0 then left else right.

Definition maxProtocolVersion (left right : protocolVersion) : protocolVersion :=
  if compareProtocolVersion left right >=? 0 then left else right.

(** ** Decisions *)

Inductive NcpHandshakeAction : Type :=
| NcpHandshakeContinue | NcpHandshakeAccept | NcpHandshakeSilentClose | NcpHandshakeErrorClose.

#[export] Instance NcpHandshakeAction_eq_dec : EqDecision NcpHandshakeAction.
Proof. solve_decision. Defined.

Record NcpHandshakeDecision : Type := MkDecision {
  Action : NcpHandshakeAction; Status : string; Error : string; DiagnosticError : string;
  SessionVersion : string; NegotiatedEncoding : string; d_EnabledEncodings : list string;
  SupportedProtocols : list string; MaxFramePayload : option Z; ExtSupport : option bool;
  MaxConcurrentStreams : option Z
}.

(** A composite literal that sets only these four fields. *)
Definition decision (a : NcpHandshakeAction) (status err diag : string) : NcpHandshakeDecision :=
  MkDecision a status err diag "" "" [] [] None None None.

Definition EvaluatePreamble (received : list byte) (elapsed timeout : Z) : NcpHandshakeDecision :=
  if (timeout >? 0) && (elapsed >=? timeout) then decision NcpHandshakeSilentClose "" "" ""
  else if (length received <? PreambleLength)%nat then decision NcpHandshakeContinue "" "" ""
  else if negb (PreambleMatches received) then
    decision NcpHandshakeSilentClose "" "" ErrPreambleInvalidCode
  else decision NcpHandshakeContinue "" "" "".

Definition EvaluateHelloHeader (h : FrameHeader) (elapsed timeout maxHelloPayload : Z) :
    NcpHandshakeDecision :=
  if (timeout >? 0) && (elapsed >=? timeout) then decision NcpHandshakeSilentClose "" "" ""
  else if negb (FrameType h =? FrameTypeHello) ||
          negb (EncodingTier h =? EncodingTierJSON) ||
          negb (Z.land (Flags h) 0x08 =? 0) ||
          IsExtended h ||
          (PayloadLength h >? maxHelloPayload)
  then decision NcpHandshakeSilentClose "" "" ""
  else decision NcpHandshakeContinue "" "" "".

Record NcpHandshakeProfile : Type := MkProfile {
  p_MinVersion : string; p_NpsVersion : string; p_SupportedEncodings : list string;
  p_SupportedProtocols : list string; p_MaxFramePayload : Z; p_ExtSupport : bool;
  p_MaxConcurrentStreams : Z
}.

Definition DefaultNcpHandshakeProfile : NcpHandshakeProfile :=
  MkProfile "0.1" "0.11" ["msgpack"; "json"; "binary_vector.v1"]
    ["ncp"; "nwp"; "nip"; "ndp"; "nop"] HelloDefaultMaxFramePayload false
    HelloDefaultMaxConcurrentStreams.

Definition ncpVersionError : NcpHandshakeDecision :=
  decision NcpHandshakeErrorClose NpsProtoVersionIncompatible ErrVersionIncompatible "".

(** [stringSet]: the map of the listed strings to true. *)
Definition stringSet (values : list string) : gset string := list_to_set values.

(** The first client token that is a stable encoding the server has. *)
Fixpoint stable_encoding (server : gset string) (tokens : list string) : string :=
  match tokens with
  | [] => ""
  | token :: r =>
      if (String.eqb token "msgpack" || String.eqb token "json") && bool_decide (token ∈ server)
      then token else stable_encoding server r
  end.

(** The loop that collects common protocols in client order, each once. *)
Fixpoint common_protocols (server seen : gset string) (tokens : list string) :
    list string * gset string :=
  match tokens with
  | [] => ([], seen)
  | token :: r =>
      if bool_decide (token ∈ server) && negb (bool_decide (token ∈ seen)) then
        let '(ps, seen') := common_protocols server ({[token]} ∪ seen) r in
        (token :: ps, seen')
      else common_protocols server seen r
  end.

Definition NegotiateHandshake (server : NcpHandshakeProfile) (client : HelloFrame) :
    NcpHandshakeDecision :=
  let clientMinToken := default (hf_NpsVersion client) (hf_MinVersion client) in
  match parseProtocolVersion (p_MinVersion server), parseProtocolVersion (p_NpsVersion server),
        parseProtocolVersion clientMinToken, parseProtocolVersion (hf_NpsVersion client) with
  | Some serverMin, Some serverMax, Some clientMin, Some clientMax =>
      if (compareProtocolVersion serverMin serverMax >? 0) ||
         (compareProtocolVersion clientMin clientMax >? 0)
      then ncpVersionError
      else
        let overlapMin := maxProtocolVersion serverMin clientMin in
        let overlapMax := minProtocolVersion serverMax clientMax in
        if compareProtocolVersion overlapMin overlapMax >? 0 then ncpVersionError
        else
          let serverEncodings := stringSet (p_SupportedEncodings server) in
          let stable := stable_encoding serverEncodings (hf_SupportedEncodings client) in
          if String.eqb stable "" then
            decision NcpHandshakeErrorClose NpsServerEncodingUnsupported ErrEncodingUnsupported ""
          else
            let '(protocols, seen) :=
              common_protocols (stringSet (p_SupportedProtocols server)) ∅
                (hf_SupportedProtocols client) in
            if negb (bool_decide ("ncp" ∈ seen)) || (hf_MaxFramePayload client =? 0) ||
               (p_MaxFramePayload server =? 0) || (hf_MaxConcurrentStreams client =? 0) ||
               (p_MaxConcurrentStreams server =? 0)
            then ncpVersionError
            else
              let enabled :=
                if bool_decide ("binary_vector.v1" ∈ serverEncodings) &&
                   containsToken (hf_SupportedEncodings client) "binary_vector.v1"
                then [stable; "binary_vector.v1"] else [stable] in
              MkDecision NcpHandshakeAccept "" "" "" (version_String overlapMax) stable enabled
                protocols (Some (Z.min (hf_MaxFramePayload client) (p_MaxFramePayload server)))
                (Some (hf_ExtSupport client && p_ExtSupport server))
                (Some (Z.min (hf_MaxConcurrentStreams client) (p_MaxConcurrentStreams server)))
  | _, _, _, _ => ncpVersionError
  end.

(** ** Lemmas: version order *)

Definition ver_le (a b : protocolVersion) : Prop :=
  major a < major b \/ (major a = major b /\ minor a <= minor b).

Lemma compare_gt a b : (compareProtocolVersion a b >? 0) = true <-> ~ ver_le a b.
Proof.
  unfold compareProtocolVersion, ver_le. destruct a as [a1 a2], b as [b1 b2]; simpl.
  destruct (Z.ltb_spec a1 b1), (Z.eqb_spec a1 b1), (Z.ltb_spec a2 b2); simpl;
    try (case_bool_decide as E; [injection E as ??|assert (a1 <> b1 \/ a2 <> b2)
           by (destruct (decide (a1 = b1)); [right|left]; congruence)]);
    split; try done; try lia.
Qed.

Lemma compare_le a b : (compareProtocolVersion a b <=? 0) = true <-> ver_le a b.
Proof.
  pose proof (compare_gt a b) as H.
  assert (ver_le a b \/ ~ ver_le a b) as Hd by (unfold ver_le; lia).
  rewrite Z.leb_le. rewrite Z.gtb_lt in H. split; intros Hc.
  - destruct Hd as [|Hn]; [done|]. apply H in Hn. lia.
  - apply Z.nlt_ge. intros Hlt. by apply H in Hlt.
Qed.

Lemma ver_le_refl a : ver_le a a.
Proof. unfold ver_le. lia. Qed.
Lemma ver_le_trans a b c : ver_le a b -> ver_le b c -> ver_le a c.
Proof. unfold ver_le. lia. Qed.
Lemma ver_le_total a b : ver_le a b \/ ver_le b a.
Proof. unfold ver_le. lia. Qed.

Lemma min_version a b :
  (minProtocolVersion a b = a /\ ver_le a b) \/ (minProtocolVersion a b = b /\ ver_le b a).
Proof.
  unfold minProtocolVersion. destruct (_ <=? 0) eqn:E; [left|right]; split; try done.
  - by apply compare_le.
  - destruct (ver_le_total b a); [done|]. apply compare_le in H. congruence.
Qed.

Lemma max_version a b :
  (maxProtocolVersion a b = a /\ ver_le b a) \/ (maxProtocolVersion a b = b /\ ver_le a b).
Proof.
  unfold maxProtocolVersion. destruct (_ >=? 0) eqn:E; [left|right]; split; try done.
  - bool_hyps. unfold compareProtocolVersion in E. destruct a as [a1 a2], b as [b1 b2].
    unfold ver_le. simpl in *. repeat case_match; bool_hyps; try lia;
      rewrite ?orb_true_iff, ?andb_true_iff in *; try lia.
    all: repeat match goal with H : (_ && _)%bool = false |- _ => apply andb_false_iff in H as [?|?] end;
      bool_hyps; lia.
  - bool_hyps. apply compare_le, Z.leb_le. lia.
Qed.

#[export] Hint Resolve ver_le_refl ver_le_trans : nps.

Lemma parse_digits_nonneg s acc n : parse_digits s acc = Some n -> 0 <= acc -> 0 <= n.
Proof.
  revert acc; induction s as [|c s IH]; simpl; intros acc; [congruence|].
  unfold char_digit. case_match; [|done]. case_match; [|done]. intros H' Ha.
  simplify_eq. apply IH in H'; [done|]. bool_hyps. lia.
Qed.

Lemma ParseUint_range s n : ParseUint s = Some n -> 0 <= n < 2 ^ 64.
Proof.
  unfold ParseUint. destruct s; [done|]. case_match eqn:E; [|done]. case_match; [|done].
  intros [= <-]. apply parse_digits_nonneg in E; [|done]. bool_hyps. lia.
Qed.

Lemma parse_version_range s v :
  parseProtocolVersion s = Some v -> 0 <= major v < 2 ^ 64 /\ 0 <= minor v < 2 ^ 64.
Proof.
  unfold parseProtocolVersion. destruct (split_on dot s) as [|p0 [|p1 [|? ?]]]; try done.
  destruct (ParseUint p0) eqn:E0; [|done]. destruct (ParseUint p1) eqn:E1; [|done].
  intros [= <-]. simpl. split; by eapply ParseUint_range.
Qed.

Lemma parse_version_String v :
  0 <= major v < 2 ^ 64 -> 0 <= minor v < 2 ^ 64 ->
  parseProtocolVersion (version_String v) = Some v.
Proof.
  intros H1 H2. unfold parseProtocolVersion, version_String.
  rewrite split_on_pair by (apply FormatUint_no_dot; lia).
  rewrite !ParseUint_FormatUint by done. by destruct v.
Qed.

(** ** Lemmas: encodings and protocols *)

Definition stable_common (server : list string) (token : string) : Prop :=
  (token = "msgpack" \/ token = "json") /\ token ∈ server.

Lemma stable_test server token :
  (String.eqb token "msgpack" || String.eqb token "json") &&
    bool_decide (token ∈ stringSet server) = true <-> stable_common server token.
Proof.
  unfold stable_common, stringSet.
  rewrite andb_true_iff, orb_true_iff, !String.eqb_eq, bool_decide_eq_true.
  by rewrite elem_of_list_to_set.
Qed.

(** The chosen stable encoding is the first common one in client order. *)
Lemma stable_encoding_spec server tokens :
  let e := stable_encoding (stringSet server) tokens in
  (e = "" /\ Forall (fun t => ~ stable_common server t) tokens) \/
  (e <> "" /\ exists pre post, tokens = pre ++ e :: post /\ stable_common server e /\
     Forall (fun t => ~ stable_common server t) pre).
Proof.
  induction tokens as [|t tokens IH]; [left; by constructor|]. cbn [stable_encoding].
  destruct ((String.eqb t "msgpack" || _) && _) eqn:E.
  - apply stable_test in E. right. destruct E as [Ht ?].
    split; [by destruct Ht; subst|]. by exists [], tokens.
  - assert (~ stable_common server t) as Hn by (rewrite <- stable_test; by rewrite E).
    destruct IH as [[IH Hf]|(Hne & pre & post & Ht & Hs & Hf)].
    + left. by split; [|constructor].
    + right. split; [done|]. exists (t :: pre), post. split_and!; [by rewrite Ht at 1|done|by constructor].
Qed.

Lemma common_protocols_spec server seen tokens ps seen' :
  common_protocols server seen tokens = (ps, seen') ->
  NoDup ps /\ ps `sublist_of` tokens /\ seen' = seen ∪ list_to_set ps /\
  (forall x, x ∈ ps <-> x ∈ tokens /\ x ∈ server /\ x ∉ seen).
Proof.
  revert seen ps; induction tokens as [|t tokens IH]; intros seen ps; cbn [common_protocols].
  { intros [= <- <-]. split_and!; [constructor|constructor|set_solver|set_solver]. }
  destruct (bool_decide (t ∈ server) && negb (bool_decide (t ∈ seen))) eqn:E.
  - destruct (common_protocols server ({[t]} ∪ seen) tokens) as [ps1 seen1] eqn:E1.
    intros [= <- <-]. apply IH in E1 as (Hnd & Hsub & -> & Hin). bool_hyps.
    split_and!; [|by apply sublist_skip|set_solver|].
    + constructor; [rewrite Hin; set_solver|done].
    + intros x. rewrite !elem_of_cons, Hin. destruct (decide (x = t)); set_solver.
  - intros H. apply IH in H as (Hnd & Hsub & -> & Hin).
    split_and!; [done|by apply sublist_cons|done|].
    intros x. rewrite Hin, elem_of_cons. apply andb_false_iff in E as [E|E].
    + apply bool_decide_eq_false in E. set_solver.
    + apply negb_false_iff, bool_decide_eq_true in E. set_solver.
Qed.

(** ** The negotiation contract *)

(** [v] lies between two version tokens. *)
Definition between (lo hi : string) (v : protocolVersion) : Prop :=
  exists l h, parseProtocolVersion lo = Some l /\ parseProtocolVersion hi = Some h /\
    ver_le l v /\ ver_le v h.

Definition server_speaks (s : NcpHandshakeProfile) : protocolVersion -> Prop :=
  between (p_MinVersion s) (p_NpsVersion s).
Definition client_speaks (c : HelloFrame) : protocolVersion -> Prop :=
  between (default (hf_NpsVersion c) (hf_MinVersion c)) (hf_NpsVersion c).

(** What an accepted session promises to both peers. *)
Record session_contract (s : NcpHandshakeProfile) (c : HelloFrame) (d : NcpHandshakeDecision) : Prop := {
  sc_version : exists v, parseProtocolVersion (SessionVersion d) = Some v /\
    server_speaks s v /\ client_speaks c v /\
    forall v', server_speaks s v' -> client_speaks c v' -> ver_le v' v;
  sc_encoding : exists pre post,
    hf_SupportedEncodings c = pre ++ NegotiatedEncoding d :: post /\
    stable_common (p_SupportedEncodings s) (NegotiatedEncoding d) /\
    Forall (fun t => ~ stable_common (p_SupportedEncodings s) t) pre;
  sc_enabled : forall t, t ∈ d_EnabledEncodings d <->
    t = NegotiatedEncoding d \/
    (t = "binary_vector.v1" /\ t ∈ p_SupportedEncodings s /\ t ∈ hf_SupportedEncodings c);
  sc_protocols : NoDup (SupportedProtocols d) /\
    SupportedProtocols d `sublist_of` hf_SupportedProtocols c /\
    (forall x, x ∈ SupportedProtocols d <->
       x ∈ hf_SupportedProtocols c /\ x ∈ p_SupportedProtocols s) /\
    "ncp" ∈ SupportedProtocols d;
  sc_payload : MaxFramePayload d = Some (Z.min (hf_MaxFramePayload c) (p_MaxFramePayload s));
  sc_ext : ExtSupport d = Some (hf_ExtSupport c && p_ExtSupport s);
  sc_streams : MaxConcurrentStreams d =
    Some (Z.min (hf_MaxConcurrentStreams c) (p_MaxConcurrentStreams s))
}.

(** When the two peers have a session to agree on. *)
Definition compatible (s : NcpHandshakeProfile) (c : HelloFrame) : Prop :=
  (exists v, server_speaks s v /\ client_speaks c v) /\
  Exists (stable_common (p_SupportedEncodings s)) (hf_SupportedEncodings c) /\
  "ncp" ∈ hf_SupportedProtocols c /\ "ncp" ∈ p_SupportedProtocols s /\
  hf_MaxFramePayload c <> 0 /\ p_MaxFramePayload s <> 0 /\
  hf_MaxConcurrentStreams c <> 0 /\ p_MaxConcurrentStreams s <> 0.

Lemma overlap_bounds sMin sMax cMin cMax v :
  ver_le sMin v -> ver_le v sMax -> ver_le cMin v -> ver_le v cMax ->
  ver_le (maxProtocolVersion sMin cMin) v /\ ver_le v (minProtocolVersion sMax cMax).
Proof.
  intros. destruct (max_version sMin cMin) as [[-> _]|[-> _]],
    (min_version sMax cMax) as [[-> _]|[-> _]]; done.
Qed.

Lemma overlap_max_in sMin sMax cMin cMax :
  ver_le (maxProtocolVersion sMin cMin) (minProtocolVersion sMax cMax) ->
  let v := minProtocolVersion sMax cMax in
  ver_le sMin v /\ ver_le v sMax /\ ver_le cMin v /\ ver_le v cMax.
Proof.
  intros H v. subst v. destruct (max_version sMin cMin) as [[E Hm]|[E Hm]]; rewrite E in H;
    destruct (min_version sMax cMax) as [[E' Hn]|[E' Hn]]; rewrite E' in *;
    split_and!; eauto with nps.
Qed.

(** The version half of the negotiation. *)
Definition common_version (s : NcpHandshakeProfile) (c : HelloFrame) : option protocolVersion :=
  match parseProtocolVersion (p_MinVersion s), parseProtocolVersion (p_NpsVersion s),
        parseProtocolVersion (default (hf_NpsVersion c) (hf_MinVersion c)),
        parseProtocolVersion (hf_NpsVersion c) with
  | Some sMin, Some sMax, Some cMin, Some cMax =>
      if (compareProtocolVersion sMin sMax >? 0) || (compareProtocolVersion cMin cMax >? 0) ||
         (compareProtocolVersion (maxProtocolVersion sMin cMin) (minProtocolVersion sMax cMax) >? 0)
      then None else Some (minProtocolVersion sMax cMax)
  | _, _, _, _ => None
  end.

Lemma common_version_Some s c v :
  common_version s c = Some v ->
  server_speaks s v /\ client_speaks c v /\
  (forall v', server_speaks s v' -> client_speaks c v' -> ver_le v' v) /\
  parseProtocolVersion (version_String v) = Some v.
Proof.
  unfold common_version, server_speaks, client_speaks, between.
  destruct (parseProtocolVersion (p_MinVersion s)) as [sMin|]; [|done].
  destruct (parseProtocolVersion (p_NpsVersion s)) as [sMax|] eqn:E2; [|done].
  destruct (parseProtocolVersion (default _ _)) as [cMin|]; [|done].
  destruct (parseProtocolVersion (hf_NpsVersion c)) as [cMax|] eqn:E4; [|done].
  case_match eqn:E; [done|]. intros [= <-]. apply orb_false_iff in E as [_ E].
  assert (ver_le (maxProtocolVersion sMin cMin) (minProtocolVersion sMax cMax)) as Ho.
  { apply compare_le. rewrite Z.leb_antisym, <- Z.gtb_ltb. by rewrite E. }
  split_and!; try (apply overlap_max_in in Ho as (?&?&?&?); eauto 10).
  - intros v' (?&?&?&?&?&?) (?&?&?&?&?&?). simplify_eq. by eapply overlap_bounds.
  - destruct (min_version sMax cMax) as [[-> _]|[-> _]]; apply parse_version_String;
      first [apply (parse_version_range _ _ E2) | apply (parse_version_range _ _ E4)].
Qed.

Lemma common_version_None s c v :
  common_version s c = None -> server_speaks s v -> client_speaks c v -> False.
Proof.
  unfold common_version. intros Hn (sMin & sMax & E1 & E2 & H1 & H2) (cMin & cMax & E3 & E4 & H3 & H4).
  rewrite E1, E2, E3, E4 in Hn. case_match eqn:E; [|done].
  rewrite !orb_true_iff, !compare_gt in E.
  destruct (overlap_bounds sMin sMax cMin cMax v) as [Ha Hb]; try done.
  destruct_or! E; apply E; eauto with nps.
Qed.

(** The rest of the negotiation once the session version [v] is known. *)
Definition negotiate_rest (s : NcpHandshakeProfile) (c : HelloFrame) (v : protocolVersion) :
    NcpHandshakeDecision :=
  let stable := stable_encoding (stringSet (p_SupportedEncodings s)) (hf_SupportedEncodings c) in
  if String.eqb stable "" then
    decision NcpHandshakeErrorClose NpsServerEncodingUnsupported ErrEncodingUnsupported ""
  else
    let '(protocols, seen) :=
      common_protocols (stringSet (p_SupportedProtocols s)) ∅ (hf_SupportedProtocols c) in
    if negb (bool_decide ("ncp" ∈ seen)) || (hf_MaxFramePayload c =? 0) ||
       (p_MaxFramePayload s =? 0) || (hf_MaxConcurrentStreams c =? 0) ||
       (p_MaxConcurrentStreams s =? 0)
    then ncpVersionError
    else
      MkDecision NcpHandshakeAccept "" "" "" (version_String v) stable
        (if bool_decide ("binary_vector.v1" ∈ stringSet (p_SupportedEncodings s)) &&
            containsToken (hf_SupportedEncodings c) "binary_vector.v1"
         then [stable; "binary_vector.v1"] else [stable])
        protocols (Some (Z.min (hf_MaxFramePayload c) (p_MaxFramePayload s)))
        (Some (hf_ExtSupport c && p_ExtSupport s))
        (Some (Z.min (hf_MaxConcurrentStreams c) (p_MaxConcurrentStreams s))).

Lemma negotiate_eq s c :
  NegotiateHandshake s c =
    match common_version s c with Some v => negotiate_rest s c v | None => ncpVersionError end.
Proof.
  unfold NegotiateHandshake, common_version. repeat (case_match; try done).
  all: rewrite ?orb_true_iff, ?orb_false_iff in *; naive_solver congruence.
Qed.

(** ** Properties *)

(** An accepted handshake meets the session contract: the session version
    is the greatest one both peers speak (and its text parses back to it), the
    default encoding is the first stable client offer the server has, the
    protocols are the common ones in client order without repetition and with
    ncp among them, and every limit is the smaller of the two. *)
Theorem negotiate_contract s c :
  Action (NegotiateHandshake s c) = NcpHandshakeAccept ->
  session_contract s c (NegotiateHandshake s c).
Proof.
  rewrite negotiate_eq. destruct (common_version s c) as [v|] eqn:Ev; [|done].
  apply common_version_Some in Ev as (Hs & Hc & Hmax & Hp). unfold negotiate_rest.
  destruct (stable_encoding_spec (p_SupportedEncodings s) (hf_SupportedEncodings c))
    as [[-> _]|(Hne & pre & post & Ht & Hst & Hf)]; [done|].
  apply String.eqb_neq in Hne as Hne'. rewrite Hne'.
  destruct (common_protocols _ _ _) as [ps seen] eqn:Ecp.
  apply common_protocols_spec in Ecp as (Hnd & Hsub & -> & Hin).
  case_match eqn:E; [done|]. bool_hyps. intros _.
  split; cbn; eauto.
  - intros t. unfold containsToken.
    destruct (_ && _) eqn:Eb; rewrite ?elem_of_cons.
    + apply andb_true_iff in Eb as [Eb1%bool_decide_eq_true Eb2%mem_string_true].
      unfold stringSet in Eb1. set_solver.
    + split; [set_solver|]. intros [->|(-> & Hb1 & Hb2)]; [set_solver|].
      apply andb_false_iff in Eb as [Eb%bool_decide_eq_false|Eb%mem_string_false]; [|done].
      unfold stringSet in Eb. set_solver.
  - split_and!; [done|done| |set_solver]. intros x. rewrite Hin. unfold stringSet. set_solver.
Qed.

(** Completeness of the negotiation: it accepts exactly when the peers share
    a version, a stable encoding and the ncp protocol and no limit is zero; it
    reports an encoding error exactly when they share a version but no stable
    encoding, and a version error in every other case. *)
Theorem negotiate_complete s c :
  let d := NegotiateHandshake s c in
  (Action d = NcpHandshakeAccept <-> compatible s c) /\
  (Error d = ErrEncodingUnsupported <->
     (exists v, server_speaks s v /\ client_speaks c v) /\
     Forall (fun t => ~ stable_common (p_SupportedEncodings s) t) (hf_SupportedEncodings c)) /\
  (Action d <> NcpHandshakeAccept ->
     Action d = NcpHandshakeErrorClose /\
     (Error d = ErrEncodingUnsupported \/ Error d = ErrVersionIncompatible)).
Proof.
  rewrite negotiate_eq. unfold compatible.
  destruct (common_version s c) as [v|] eqn:Ev; cycle 1.
  { cbn. pose proof (fun v => common_version_None s c v Ev). naive_solver. }
  apply common_version_Some in Ev as (Hs & Hc & _ & _). unfold negotiate_rest.
  destruct (stable_encoding_spec (p_SupportedEncodings s) (hf_SupportedEncodings c))
    as [[-> Hf]|(Hne & pre & post & Ht & Hst & Hf)].
  { cbn. split_and!; [split; [done|]|naive_solver|naive_solver].
    intros (_ & Hx & _). apply Exists_exists in Hx as (x & Hx & Hxs).
    rewrite Forall_forall in Hf. by destruct (Hf x Hx). }
  apply String.eqb_neq in Hne. rewrite Hne.
  destruct (common_protocols _ _ _) as [ps seen] eqn:Ecp.
  apply common_protocols_spec in Ecp as (_ & _ & -> & Hin). specialize (Hin "ncp").
  assert (Hx : Exists (stable_common (p_SupportedEncodings s)) (hf_SupportedEncodings c)).
  { rewrite Ht. apply Exists_app. right. by constructor. }
  assert (Hnf : ~ Forall (fun t => ~ stable_common (p_SupportedEncodings s) t) (hf_SupportedEncodings c)).
  { intros Hall. rewrite Ht in Hall. apply Forall_app in Hall as [_ Hall]. by inversion Hall. }
  unfold stringSet in Hin.
  case_match eqn:E; cbn; (split_and!; [|naive_solver|naive_solver]); split; try done.
  - intros (_ & _ & H1 & H2 & H3 & H4 & H5 & H6).
    rewrite (proj2 (Z.eqb_neq _ _) H3), (proj2 (Z.eqb_neq _ _) H4), (proj2 (Z.eqb_neq _ _) H5),
      (proj2 (Z.eqb_neq _ _) H6), !orb_false_r in E. bool_hyps. set_solver.
  - intros _. bool_hyps. set_solver.
Qed.

Lemma prefix_matches_spec want buf :
  prefix_matches want buf = true <-> exists rest, buf = want ++ rest.
Proof.
  revert buf; induction want as [|w want IH]; intros buf; simpl; [naive_solver|].
  destruct buf as [|b buf]; [naive_solver|].
  rewrite andb_true_iff, bool_decide_eq_true, IH. naive_solver.
Qed.

(** Preamble admission: a buffer is accepted exactly when it starts with the
    eight bytes of the NPS/1.0 preamble; the streaming evaluator keeps waiting
    on any shorter input before the timeout, closes silently with a diagnostic
    on a mismatch, and closes silently at the timeout whatever was received. *)
Theorem preamble_admission buf elapsed timeout :
  (ValidatePreamble buf = Ok tt <-> exists rest, buf = preambleBytes ++ rest) /\
  (0 < timeout -> timeout <= elapsed ->
     EvaluatePreamble buf elapsed timeout = decision NcpHandshakeSilentClose "" "" "") /\
  (timeout <= 0 \/ elapsed < timeout ->
     Action (EvaluatePreamble buf elapsed timeout) = NcpHandshakeContinue <->
     (length buf < 8)%nat \/ is_ok (ValidatePreamble buf) = true).
Proof.
  assert (Hm : PreambleMatches buf = true <-> exists rest, buf = preambleBytes ++ rest).
  { unfold PreambleMatches, PreambleLength. rewrite <- prefix_matches_spec.
    destruct (Nat.ltb_spec (length buf) 8); [|done]. split; [done|].
    intros (rest & ->)%prefix_matches_spec. rewrite length_app in *. simpl in *. lia. }
  assert (Hv : ValidatePreamble buf = Ok tt <-> PreambleMatches buf = true).
  { unfold ValidatePreamble, PreambleMatches. destruct (_ <? _)%nat; [done|].
    destruct (prefix_matches preambleBytes buf); simpl; [done|]. by case_match. }
  split_and!; [by rewrite Hv| |].
  - intros H1 H2. unfold EvaluatePreamble. rewrite Z.gtb_ltb, Z.geb_leb.
    by rewrite (proj2 (Z.ltb_lt _ _)), (proj2 (Z.leb_le _ _)).
  - intros Ht. assert (is_ok (ValidatePreamble buf) = true <-> PreambleMatches buf = true) as ->.
    { rewrite <- Hv. by destruct (ValidatePreamble buf) as [[]|]. }
    unfold EvaluatePreamble.
    assert ((timeout >? 0) && (elapsed >=? timeout) = false) as ->
      by (apply andb_false_iff; rewrite Z.gtb_ltb, Z.geb_leb, Z.ltb_ge, Z.leb_gt; lia).
    unfold PreambleLength. destruct (Nat.ltb_spec (length buf) 8); [naive_solver|].
    destruct (PreambleMatches buf); simpl; [naive_solver|]. split; [done|]. intros [|]; [lia|done].
Qed.

(** ** Witnesses *)

Lemma negotiate_contract_witness :
  session_contract DefaultNcpHandshakeProfile (hello_defaults sample_hello)
    (NegotiateHandshake DefaultNcpHandshakeProfile (hello_defaults sample_hello)).
Proof. apply negotiate_contract. vm_compute. reflexivity. Defined.
