(* ===== verification/NcpSession.v ===== *)
(** * NCP native mode: stream framing, client and server handshake, sessions

    ncp/frame_io.go, ncp/session.go, ncp/native_client.go and ncp/server.go over
    a connection modelled by what it will still deliver ([inp], after which the
    peer has closed), what was written to it ([out]) and whether it is open.
    Read deadlines are not modelled.  The theorems show that framing on a byte
    stream is self-delimiting and that the two ends of a handshake agree. *)

From S2P Require Import Prelude GoValue CoreFrames CoreBinaryVector CoreCodec NcpFrames NcpHandshake.

(** ** Connections *)

Record Conn : Type := MkConn { ident : Z; inp : list byte; out : list byte; is_open : bool }.

Definition ReadFull (c : Conn) (n : nat) : go_result (list byte) * Conn :=
  if negb (is_open c) then (Err ErrClosed, c)
  else if (n =? 0)%nat then (Ok [], c)
  else match inp c with
       | [] => (Err ErrEOF, c)
       | _ => if (length (inp c) <? n)%nat
              then (Err ErrUnexpectedEOF, MkConn (ident c) [] (out c) true)
              else (Ok (take n (inp c)), MkConn (ident c) (drop n (inp c)) (out c) true)
       end.

Definition Write (c : Conn) (bs : list byte) : go_result unit * Conn :=
  if is_open c then (Ok tt, MkConn (ident c) (inp c) (out c ++ bs) true)
  else (Err ErrClosed, c).

Definition CloseConn (c : Conn) : go_result unit * Conn :=
  if is_open c then (Ok tt, MkConn (ident c) (inp c) (out c) false)
  else (Err ErrClosed, c).

(** Sequencing of fallible steps that thread the connection. *)
Notation "'do?' x ',' c '<-' m ';' k" :=
  (match m with (Ok x, c) => k | (Err e, c) => (Err e, c) end)
  (at level 10, x pattern, c name, m at level 100, k at level 200) : go_scope.

(** ** frame_io.go *)

Definition frameHeaderDefaultSize : nat := 4.
Definition frameHeaderExtendedSize : nat := 8.

Definition ReadFrameHeader (c : Conn) : go_result FrameHeader * Conn :=
  do? peek, c <- ReadFull c 2;
  let ext := negb (Z.land (byte_z (nth 1 peek x00)) 0x80 =? 0) in
  let remaining := if ext then (frameHeaderExtendedSize - 2)%nat else (frameHeaderDefaultSize - 2)%nat in
  do? rest, c <- ReadFull c remaining;
  (ParseFrameHeader (peek ++ rest), c).

(** ** session.go *)

(** Any frame: its type and its dict. *)
Record Frame : Type := MkFrame { fr_type : Z; fr_dict : dict }.

Record NcpSession : Type := MkSession {
  conn : Conn;
  codec : option NpsFrameCodec;     (* nil until SetCodec *)
  closed : bool;
  ServerCaps : NcpHandshakeCapsFrame;
  EncodingPolicy : NcpEncodingPolicy
}.

Definition newNcpSession (c : Conn) (caps : NcpHandshakeCapsFrame) (p : NcpEncodingPolicy) :
    NcpSession := MkSession c None false caps p.

Definition SetCodec (s : NcpSession) (k : NpsFrameCodec) : NcpSession :=
  MkSession (conn s) (Some k) (closed s) (ServerCaps s) (EncodingPolicy s).

Definition with_conn (s : NcpSession) (c : Conn) : NcpSession :=
  MkSession c (codec s) (closed s) (ServerCaps s) (EncodingPolicy s).

Definition NegotiatedTier (s : NcpSession) : Z := DefaultTier (EncodingPolicy s).
Definition IsConnected (s : NcpSession) : bool := negb (closed s).

Definition Close (s : NcpSession) : go_result unit * NcpSession :=
  if closed s then (Ok tt, s)
  else let '(r, c) := CloseConn (conn s) in
       (r, MkSession c (codec s) true (ServerCaps s) (EncodingPolicy s)).

Section Session.
Context `{Msgpack} `{GoJSON}.

Definition Send (s : NcpSession) (f : Frame) (tier : Z) (isFinal : bool) :
    go_result unit * NcpSession :=
  match EnsureAllows (EncodingPolicy s) (NewFrameHeader (fr_type f) tier isFinal 0) with
  | Err e => (Err e, s)
  | Ok _ =>
      match codec s with
      | None => (Err (ErrPanic "nil codec"), s)
      | Some k =>
          match Encode k (fr_type f) (fr_dict f) tier isFinal with
          | Err e => (Err e, s)
          | Ok wire => let '(r, c) := Write (conn s) wire in (r, with_conn s c)
          end
      end
  end.

Definition SendDefault (s : NcpSession) (f : Frame) (isFinal : bool) : go_result unit * NcpSession :=
  Send s f (DefaultTier (EncodingPolicy s)) isFinal.

Definition Receive (s : NcpSession) : go_result (Z * dict) * NcpSession :=
  match ReadFrameHeader (conn s) with
  | (Err e, c) => (Err e, with_conn s c)
  | (Ok header, c) =>
      match EnsureAllows (EncodingPolicy s) header with
      | Err e => (Err e, with_conn s c)
      | Ok _ =>
          match ReadFull c (Z.to_nat (PayloadLength header)) with
          | (Err e, c) => (Err e, with_conn s c)
          | (Ok payload, c) =>
              match codec s with
              | None => (Err (ErrPanic "nil codec"), with_conn s c)
              | Some k => (Decode k (ToBytes header ++ payload), with_conn s c)
              end
          end
      end
  end.

(** ** native_client.go *)

Definition ErrHandshakeUnexpectedFrame : string := "NCP-HANDSHAKE-UNEXPECTED-FRAME".

Definition ClientHandshake (k : NpsFrameCodec) (c : Conn) (hello : HelloFrame) :
    go_result NcpSession * Conn :=
  do? _, c <- Write c preambleBytes;
  match Encode k FrameTypeHello (HelloFrame_ToDict hello) EncodingTierJSON true with
  | Err e => (Err e, c)
  | Ok helloWire =>
      do? _, c <- Write c helloWire;
      do? header, c <- ReadFrameHeader c;
      do? payload, c <- ReadFull c (Z.to_nat (PayloadLength header));
      let wire := ToBytes header ++ payload in
      if FrameType header =? FrameTypeError then
        match Decode k wire with
        | Err e => (Err e, c)
        | Ok (_, d) =>
            let ef := ErrorFrameFromDict d in
            (Err (ErrHandshake (ef_ErrorCode ef) (ef_Message ef)), c)
        end
      else if negb (FrameType header =? FrameTypeCaps) then
        (Err (ErrHandshake ErrHandshakeUnexpectedFrame
                ("Expected CapsFrame (0x" +:+ fmt_02X FrameTypeCaps +:+ "), got 0x" +:+
                 fmt_02X (FrameType header) +:+ ".")), c)
      else
        match Decode k wire with
        | Err e => (Err e, c)
        | Ok (_, d) =>
            let caps := NcpHandshakeCapsFrameFromDict d in
            let policy := NcpEncodingPolicyFromEnabledEncodings (EncodingTier header)
                            (default [] (hc_EnabledEncodings caps)) in
            (Ok (newNcpSession c caps policy), c)
        end
  end.

(** ** server.go *)

Record NcpServerOptions : Type := MkOptions {
  AuthenticateConn : option (Conn -> go_result (option Conn));   (* inner None: nil conn *)
  RequireAuthenticatedConn : bool;
  MaxHelloPayload : Z;
  HandshakeReadTimeout : Z;        (* time.Duration, ns *)
  HelloReadTimeout : Z;
  HandshakeProfile : option NcpHandshakeProfile
}.

(** [withDefaults] on a possibly nil pointer; the result has a profile. *)
Definition withDefaults (o : option NcpServerOptions) : NcpServerOptions :=
  let base := default (MkOptions None false 0 0 0 None) o in
  let nil_ := match o with None => true | Some _ => false end in
  MkOptions (AuthenticateConn base) (RequireAuthenticatedConn base)
    (if MaxHelloPayload base =? 0 then HelloDefaultMaxFramePayload else MaxHelloPayload base)
    (if (HandshakeReadTimeout base =? 0) && nil_ then 10 * second else HandshakeReadTimeout base)
    (if (HelloReadTimeout base =? 0) && nil_ then 5 * second else HelloReadTimeout base)
    (Some (default DefaultNcpHandshakeProfile (HandshakeProfile base))).

Definition authenticate (o : NcpServerOptions) (c : Conn) : go_result Conn :=
  match AuthenticateConn o with
  | None =>
      if RequireAuthenticatedConn o then
        Err (ErrFrame ("NcpServerOptions.RequireAuthenticatedConn is true, " +:+
                       "but no AuthenticateConn hook is configured."))
      else Ok c
  | Some hook =>
      let? authed := hook c in
      match authed with
      | None => Err (ErrFrame "NCP connection authentication hook returned nil.")
      | Some a =>
          if RequireAuthenticatedConn o && (ident a =? ident c) then
            Err (ErrFrame ("NCP connection authentication hook returned the original connection " +:+
                           "while RequireAuthenticatedConn is true."))
          else Ok a
      end
  end.

Record NcpServerConnection : Type := MkServerConnection {
  sc_conn : Conn;
  sc_codec : NpsFrameCodec;
  ClientHello : HelloFrame;
  sc_profile : NcpHandshakeProfile
}.

Definition handshake (k : NpsFrameCodec) (o : NcpServerOptions) (rawConn : Conn) :
    go_result NcpServerConnection * Conn :=
  match authenticate o rawConn with
  | Err e => (Err e, rawConn)
  | Ok c =>
      do? preambleBuf, c <- ReadFull c PreambleLength;
      match ValidatePreamble preambleBuf with
      | Err e => (Err e, c)
      | Ok _ =>
          do? header, c <- ReadFrameHeader c;
          if bool_decide (Action (EvaluateHelloHeader header 0 (HelloReadTimeout o) (MaxHelloPayload o))
                          <> NcpHandshakeContinue)
          then (Err (ErrFrame "Invalid native NCP Hello header."), c)
          else
            do? payload, c <- ReadFull c (Z.to_nat (PayloadLength header));
            match Decode k (ToBytes header ++ payload) with
            | Err e => (Err e, c)
            | Ok (_, d) =>
                (Ok (MkServerConnection c k (HelloFrameFromDict d)
                       (default DefaultNcpHandshakeProfile (HandshakeProfile o))), c)
            end
      end
  end.

(** [AcceptConnection] after [listener.Accept] returned [c]: a failed handshake
    closes the connection. *)
Definition AcceptConnection (k : NpsFrameCodec) (o : NcpServerOptions) (c : Conn) :
    go_result NcpServerConnection * Conn :=
  match handshake k o c with
  | (Err e, c) => (Err e, (CloseConn c).2)
  | r => r
  end.

Definition Reject (sc : NcpServerConnection) (ef : ErrorFrame) : go_result unit * Conn :=
  let c := match Encode (sc_codec sc) FrameTypeError (ErrorFrame_ToDict ef) EncodingTierJSON true with
           | Ok wire => (Write (sc_conn sc) wire).2
           | Err _ => sc_conn sc
           end in
  CloseConn c.

(** The session policy and the CapsFrame [Accept] derives from a decision. *)
Definition acceptPolicy (d : NcpHandshakeDecision) : NcpEncodingPolicy :=
  let tier := if String.eqb (NegotiatedEncoding d) "msgpack"
              then EncodingTierMsgPack else EncodingTierJSON in
  NewNcpEncodingPolicy tier (containsToken (d_EnabledEncodings d) "binary_vector.v1").

Definition acceptCaps (serverCaps : NcpHandshakeCapsFrame) (d : NcpHandshakeDecision) :
    NcpHandshakeCapsFrame :=
  MkHandshakeCaps (hc_NodeID serverCaps) (hc_Caps serverCaps)
    (Some (NegotiatedEncoding d)) (Some (d_EnabledEncodings d)) (Some (SessionVersion d))
    (Some (SupportedProtocols d)) (MaxFramePayload d) (ExtSupport d)
    (MaxConcurrentStreams d) (hc_AnchorRef serverCaps) (hc_Payload serverCaps).

(** The ErrorFrame [Accept] sends when the negotiation failed. *)
Definition rejectFrame (d : NcpHandshakeDecision) : ErrorFrame :=
  let errCode := if String.eqb (Error d) "" then ErrVersionIncompatible else Error d in
  let status := if String.eqb (Status d) "" then NpsProtoVersionIncompatible else Status d in
  MkErrorFrame errCode "Native NCP handshake negotiation failed." (VMap [("status", VString status)]).

Definition Accept (sc : NcpServerConnection) (serverCaps : NcpHandshakeCapsFrame) :
    go_result NcpSession * Conn :=
  let d := NegotiateHandshake (sc_profile sc) (ClientHello sc) in
  if bool_decide (Action d <> NcpHandshakeAccept) then
    let '(_, c) := Reject sc (rejectFrame d) in
    (Err (ErrFrame ("[" +:+ ef_ErrorCode (rejectFrame d) +:+
                    "] Native NCP handshake negotiation failed.")), c)
  else
    let policy := acceptPolicy d in
    let caps := acceptCaps serverCaps d in
    match Encode (sc_codec sc) FrameTypeCaps (NcpHandshakeCapsFrame_ToDict caps) (DefaultTier policy) true with
    | Err e => (Err e, sc_conn sc)
    | Ok wire =>
        do? _, c <- Write (sc_conn sc) wire;
        (Ok (SetCodec (newNcpSession c caps policy) (sc_codec sc)), c)
    end.

(** [negotiateEncodingPolicy]: the helper kept beside the profile negotiation. *)
Definition negotiateEncodingPolicy (hello : HelloFrame) : go_result NcpEncodingPolicy :=
  let bv := containsToken (hf_SupportedEncodings hello) "binary_vector.v1" in
  (fix loop (encs : list string) : go_result NcpEncodingPolicy :=
     match encs with
     | [] => Err (ErrCodec ("Client did not offer a supported stable default encoding " +:+
                            "(expected msgpack or json)."))
     | enc :: r =>
         if String.eqb enc "msgpack" then Ok (NewNcpEncodingPolicy EncodingTierMsgPack bv)
         else if String.eqb enc "json" then Ok (NewNcpEncodingPolicy EncodingTierJSON bv)
         else loop r
     end) (hf_SupportedEncodings hello).

(** ** Lemmas: reading *)

(** [c] with [p] prepended to what it will deliver. *)
Definition feed (p : list byte) (c : Conn) : Conn := MkConn (ident c) (p ++ inp c) (out c) (is_open c).

Lemma ReadFull_feed p c n :
  is_open c = true -> n = length p -> ReadFull (feed p c) n = (Ok p, c).
Proof.
  intros Ho ->. unfold ReadFull, feed; cbn [is_open inp ident out]. rewrite Ho. cbn [negb].
  destruct p as [|b p]; [by destruct c; simpl in *; subst|]. cbn [length Nat.eqb app].
  rewrite (proj2 (Nat.ltb_ge _ _)) by (simpl; rewrite length_app; lia).
  cbn [take drop]. rewrite take_app_length, drop_app_length. by destruct c; simpl in *; subst.
Qed.

Lemma feed_app p q c : feed (p ++ q) c = feed p (feed q c).
Proof. unfold feed; simpl. by rewrite app_assoc. Qed.

Lemma ToBytes_split h :
  header_wf h = true ->
  exists b0 b1 rest, ToBytes h = [b0; b1] ++ rest /\ byte_z b1 = Flags h /\
    length rest = if IsExtended h then 6%nat else 2%nat.
Proof.
  intros (_ & Hf & _)%header_wf_spec. unfold ToBytes.
  exists (z_byte (FrameType h)), (z_byte (Flags h)).
  rewrite byte_z_z_byte, (wrapu_small 8) by lia.
  destruct (IsExtended h); eexists; (split; [reflexivity|]); by rewrite ?length_app, ?length_put_be.
Qed.

Lemma ReadFrameHeader_feed h c :
  header_wf h = true -> is_open c = true -> ReadFrameHeader (feed (ToBytes h) c) = (Ok h, c).
Proof.
  intros Hwf Ho. destruct (ToBytes_split h Hwf) as (b0 & b1 & rest & E & Hb & Hl).
  pose proof (parse_ToBytes h [] Hwf) as Hp. rewrite app_nil_r in Hp. rewrite E in *.
  apply header_wf_spec in Hwf as (_ & _ & Hext & _).
  unfold ReadFrameHeader. rewrite feed_app, (ReadFull_feed [b0; b1] (feed rest c) 2) by done.
  cbn [nth]. rewrite Hb, <- Hext.
  rewrite ReadFull_feed; [|done|rewrite Hl; by destruct (IsExtended h)].
  by rewrite Hp.
Qed.

(** ** Lemmas: one frame on the stream *)

(** A frame the codec [k] can carry: [pl] is its payload and [d'] what decodes. *)
Record carried (k k' : NpsFrameCodec) (f : Frame) (tier : Z) (pl : list byte) (d' : dict) : Prop := {
  ca_known : known_type (fr_type f) = true;
  ca_reg : IsRegistered (Registry k') (fr_type f) = true;
  ca_enc : encodePayload (fr_dict f) tier = Ok pl;
  ca_dec : decodePayload pl tier = Ok d';
  ca_max : Z.of_nat (length pl) <= MaxPayload k;
  ca_len : Z.of_nat (length pl) < 2 ^ 32
}.

Definition frame_header (f : Frame) (tier : Z) (fin : bool) (pl : list byte) : FrameHeader :=
  NewFrameHeader (fr_type f) tier fin (Z.of_nat (length pl)).
Definition frame_wire (f : Frame) (tier : Z) (fin : bool) (pl : list byte) : list byte :=
  ToBytes (frame_header f tier fin pl) ++ pl.

Lemma carried_header k k' f tier pl d' fin :
  carried k k' f tier pl d' ->
  header_wf (frame_header f tier fin pl) = true /\
  EncodingTier (frame_header f tier fin pl) = tier /\
  Encode k (fr_type f) (fr_dict f) tier fin = Ok (frame_wire f tier fin pl) /\
  Decode k' (frame_wire f tier fin pl) = Ok (fr_type f, d').
Proof.
  intros Hc. assert (header_wf (frame_header f tier fin pl) = true) as Hwf
    by (apply new_header_wf; [apply Hc|destruct Hc; lia]).
  assert (EncodingTier (frame_header f tier fin pl) = tier) as Ht.
  { unfold frame_header.
    destruct (new_header_flags (fr_type f) tier fin (Z.of_nat (length pl))) as (_ & _ & -> & _).
    apply stable_tier. by eapply encodePayload_tier, ca_enc. }
  split_and!; [done|done|apply Encode_Ok; exists pl; split_and!; by try apply Hc|].
  unfold frame_wire. rewrite <- (app_nil_r pl) at 2. rewrite Decode_header; [|done|done|apply Hc].
  rewrite Ht, (ca_dec _ _ _ _ _ _ Hc). done.
Qed.

Lemma read_frame k k' f tier pl d' fin c :
  carried k k' f tier pl d' -> is_open c = true ->
  ReadFrameHeader (feed (frame_wire f tier fin pl) c) = (Ok (frame_header f tier fin pl), feed pl c) /\
  ReadFull (feed pl c) (Z.to_nat (PayloadLength (frame_header f tier fin pl))) = (Ok pl, c).
Proof.
  intros Hc Ho. destruct (carried_header _ _ _ _ _ _ fin Hc) as (Hwf & _ & _ & _).
  unfold frame_wire. rewrite feed_app, ReadFrameHeader_feed by done. split; [done|].
  apply ReadFull_feed; [done|]. cbn. lia.
Qed.

Lemma EnsureAllows_header p h : Allows p (EncodingTier h) (FrameType h) = true -> EnsureAllows p h = Ok tt.
Proof. unfold EnsureAllows. by intros ->. Qed.

(** A sent frame is received whole, and only it is taken off the stream. *)
Lemma Receive_frame k k' s f tier pl d' fin c :
  carried k k' f tier pl d' -> codec s = Some k' -> is_open c = true ->
  Allows (EncodingPolicy s) tier (fr_type f) = true ->
  Receive (with_conn s (feed (frame_wire f tier fin pl) c)) = (Ok (fr_type f, d'), with_conn s c).
Proof.
  intros Hc Hk Ho Ha. destruct (read_frame _ _ _ _ _ _ fin c Hc Ho) as [Hh Hp].
  destruct (carried_header _ _ _ _ _ _ fin Hc) as (_ & Ht & _ & Hd).
  unfold Receive. cbn [conn with_conn EncodingPolicy codec]. rewrite Hh.
  rewrite EnsureAllows_header by (by rewrite Ht). rewrite Hp, Hk.
  unfold frame_wire in Hd. by rewrite Hd.
Qed.

(** ** Lemmas: the two sides of the handshake *)

(** A fresh connection that will deliver [p]. *)
Definition fresh (i : Z) (p : list byte) : Conn := MkConn i p [] true.

Definition hello_frame (hello : HelloFrame) : Frame := MkFrame FrameTypeHello (HelloFrame_ToDict hello).
Definition caps_frame (caps : NcpHandshakeCapsFrame) : Frame :=
  MkFrame FrameTypeCaps (NcpHandshakeCapsFrame_ToDict caps).
Definition error_frame (ef : ErrorFrame) : Frame := MkFrame FrameTypeError (ErrorFrame_ToDict ef).

(** What the client puts on the wire before it reads. *)
Definition client_opening (hello : HelloFrame) (pl : list byte) : list byte :=
  preambleBytes ++ frame_wire (hello_frame hello) EncodingTierJSON true pl.

Lemma fresh_feed i p q : fresh i (p ++ q) = feed p (fresh i q).
Proof. done. Qed.

(** The server reads the opening and learns the hello, its defaults filled in. *)
Lemma handshake_opening ks kc o hello pl d i :
  AuthenticateConn o = None -> RequireAuthenticatedConn o = false ->
  carried kc ks (hello_frame hello) EncodingTierJSON pl d ->
  dict_tr (HelloFrame_ToDict hello) d -> 0 <= hf_PingIntervalMs hello ->
  Z.of_nat (length pl) <= Z.min 0xFFFF (MaxHelloPayload o) ->
  handshake ks o (fresh i (client_opening hello pl)) =
    (Ok (MkServerConnection (fresh i []) ks (hello_defaults hello)
           (default DefaultNcpHandshakeProfile (HandshakeProfile o))), fresh i []).
Proof.
  intros Ha Hr Hc Hd Hp Hl.
  destruct (carried_header _ _ _ _ _ _ true Hc) as (_ & Ht & _ & Hdec).
  destruct (read_frame _ _ _ _ _ _ true (fresh i []) Hc eq_refl) as [Hh Hpl].
  unfold handshake, authenticate, client_opening. rewrite Ha, Hr.
  rewrite fresh_feed, ReadFull_feed by done.
  change (ValidatePreamble preambleBytes) with (@Ok go_error unit tt). cbv iota.
  rewrite <- (app_nil_r (frame_wire _ _ _ _)), fresh_feed, Hh.
  rewrite bool_decide_eq_false_2; cycle 1.
  { intros Hne; apply Hne; clear Hne. unfold EvaluateHelloHeader. rewrite Ht.
    destruct (new_header_flags FrameTypeHello EncodingTierJSON true (Z.of_nat (length pl)))
      as (_ & _ & _ & _ & H8).
    unfold frame_header in *. cbn [hello_frame fr_type] in *. rewrite H8. cbn.
    replace (_ && _) with false by (symmetry; apply andb_false_iff;
      rewrite Z.gtb_ltb, Z.geb_leb, Z.ltb_ge, Z.leb_gt; lia).
    rewrite !Z.gtb_ltb, !(proj2 (Z.ltb_ge _ _)) by lia. done. }
  rewrite Hpl. unfold frame_wire in Hdec. rewrite Hdec.
  apply HelloFrameFromDict_tr in Hd. by rewrite <- Hd, hello_local.
Qed.

(** The client writes its opening and then acts on the one frame it reads. *)
Lemma ClientHandshake_reads kc ks hello pl d f tier plf df i :
  carried kc ks (hello_frame hello) EncodingTierJSON pl d ->
  carried ks kc f tier plf df ->
  let c := MkConn i [] (client_opening hello pl) true in
  ClientHandshake kc (fresh i (frame_wire f tier true plf)) hello =
    if fr_type f =? FrameTypeError then
      (Err (ErrHandshake (ef_ErrorCode (ErrorFrameFromDict df)) (ef_Message (ErrorFrameFromDict df))), c)
    else if fr_type f =? FrameTypeCaps then
      (Ok (newNcpSession c (NcpHandshakeCapsFrameFromDict df)
             (NcpEncodingPolicyFromEnabledEncodings tier
                (default [] (hc_EnabledEncodings (NcpHandshakeCapsFrameFromDict df))))), c)
    else (Err (ErrHandshake ErrHandshakeUnexpectedFrame
                 ("Expected CapsFrame (0x04), got 0x" +:+ fmt_02X (fr_type f) +:+ ".")), c).
Proof.
  intros Hh Hf c. destruct (carried_header _ _ _ _ _ _ true Hh) as (_ & _ & Henc & _).
  destruct (carried_header _ _ _ _ _ _ true Hf) as (_ & Ht & _ & Hdec).
  cbn [hello_frame fr_type fr_dict] in Henc.
  unfold ClientHandshake. cbn [Write fresh is_open inp out ident app]. rewrite Henc.
  cbn [Write is_open inp out ident]. fold (client_opening hello pl).
  assert (MkConn i (frame_wire f tier true plf) (client_opening hello pl) true =
          feed (frame_wire f tier true plf) c) as ->
    by (unfold feed; simpl; by rewrite app_nil_r).
  destruct (read_frame _ _ _ _ _ _ true c Hf eq_refl) as [-> ->].
  change (FrameType (frame_header f tier true plf)) with (fr_type f).
  unfold frame_wire in Hdec. rewrite Hdec, Ht.
  destruct (fr_type f =? FrameTypeError); [done|]. by destruct (fr_type f =? FrameTypeCaps).
Qed.

(** ** Streams of frames *)

(** A frame to send with its tier, final flag, payload and decoded form. *)
Record Sent : Type := MkSent {
  st_frame : Frame; st_tier : Z; st_final : bool; st_payload : list byte; st_dict : dict }.

Definition sent_wire (m : Sent) : list byte :=
  frame_wire (st_frame m) (st_tier m) (st_final m) (st_payload m).

Definition sendable (k k' : NpsFrameCodec) (p p' : NcpEncodingPolicy) (m : Sent) : Prop :=
  carried k k' (st_frame m) (st_tier m) (st_payload m) (st_dict m) /\
  Allows p (st_tier m) (fr_type (st_frame m)) = true /\
  Allows p' (st_tier m) (fr_type (st_frame m)) = true.

Fixpoint send_all (s : NcpSession) (ms : list Sent) : go_result unit * NcpSession :=
  match ms with
  | [] => (Ok tt, s)
  | m :: ms => match Send s (st_frame m) (st_tier m) (st_final m) with
               | (Ok _, s) => send_all s ms
               | r => r
               end
  end.

Fixpoint receive_n (n : nat) (s : NcpSession) : go_result (list (Z * dict)) * NcpSession :=
  match n with
  | O => (Ok [], s)
  | S n => match Receive s with
           | (Ok x, s) => match receive_n n s with
                          | (Ok xs, s) => (Ok (x :: xs), s)
                          | r => r
                          end
           | (Err e, s) => (Err e, s)
           end
  end.

Lemma Send_frame k k' s f tier pl d' fin :
  carried k k' f tier pl d' -> codec s = Some k -> is_open (conn s) = true ->
  Allows (EncodingPolicy s) tier (fr_type f) = true ->
  Send s f tier fin =
    (Ok tt, with_conn s (MkConn (ident (conn s)) (inp (conn s))
                           (out (conn s) ++ frame_wire f tier fin pl) true)).
Proof.
  intros Hc Hk Ho Ha. unfold Send. rewrite EnsureAllows_header.
  - rewrite Hk. destruct (carried_header _ _ _ _ _ _ fin Hc) as (_ & _ & -> & _).
    unfold Write. by rewrite Ho.
  - destruct (new_header_flags (fr_type f) tier fin 0) as (_ & _ & -> & _).
    rewrite stable_tier by (by eapply encodePayload_tier, ca_enc). done.
Qed.

(** What a session sends, and what one reads of it. *)
Lemma send_all_wires k k' p' s ms :
  codec s = Some k -> is_open (conn s) = true -> Forall (sendable k k' (EncodingPolicy s) p') ms ->
  let '(r, t) := send_all s ms in
  r = Ok tt /\ out (conn t) = out (conn s) ++ concat (sent_wire <$> ms) /\ inp (conn t) = inp (conn s).
Proof.
  revert s. induction ms as [|m ms IH]; intros s Hk Ho Hms; csimpl; [by rewrite app_nil_r|].
  apply Forall_cons in Hms as [(Hm & Ha & _) Hms].
  rewrite (Send_frame _ _ _ _ _ _ _ _ Hm Hk Ho Ha).
  match goal with |- context [send_all ?t ms] => specialize (IH t Hk eq_refl Hms) end.
  destruct (send_all _ _) as [r t]. destruct IH as (-> & -> & ->). cbn.
  by rewrite <- app_assoc.
Qed.

Lemma receive_all k k' p s' ms c :
  codec s' = Some k' -> is_open c = true -> Forall (sendable k k' p (EncodingPolicy s')) ms ->
  receive_n (length ms) (with_conn s' (feed (concat (sent_wire <$> ms)) c)) =
    (Ok ((fun m => (fr_type (st_frame m), st_dict m)) <$> ms), with_conn s' c).
Proof.
  intros Hk' Hc. induction 1 as [|m ms (Hm & _ & Ha) _ IH]; csimpl.
  - unfold feed. simpl. by destruct c.
  - rewrite feed_app. unfold sent_wire at 1.
    rewrite (Receive_frame _ _ _ _ _ _ _ _ (feed (concat (sent_wire <$> ms)) c) Hm Hk' Hc Ha).
    by rewrite IH.
Qed.

(** ** Properties *)

(** Framing on a byte stream is self-delimiting: any sequence of frames the
    codecs can carry and both policies allow is sent without error as the
    concatenation of its wires, and a session that reads that concatenation
    receives exactly those frames, in order, and leaves what follows on the
    stream untouched. *)
Theorem stream_roundtrip k k' s s' ms c :
  codec s = Some k -> codec s' = Some k' -> is_open (conn s) = true -> is_open c = true ->
  Forall (sendable k k' (EncodingPolicy s) (EncodingPolicy s')) ms ->
  (let '(r, t) := send_all s ms in
   r = Ok tt /\ out (conn t) = out (conn s) ++ concat (sent_wire <$> ms) /\ inp (conn t) = inp (conn s)) /\
  receive_n (length ms) (with_conn s' (feed (concat (sent_wire <$> ms)) c)) =
    (Ok ((fun m => (fr_type (st_frame m), st_dict m)) <$> ms), with_conn s' c).
Proof.
  intros. split; [by apply (send_all_wires k k' (EncodingPolicy s'))|by apply (receive_all k k' (EncodingPolicy s))].
Qed.

(** C9. The two ends of a native handshake agree.  If the client's hello and the
    server's caps are carried by the two codecs and the negotiation accepts, then
    the server, reading exactly what the client writes, accepts it with the
    client's hello; the client, reading exactly what the server writes, gets a
    session; and the two sessions have the same encoding policy and agree on
    every negotiated field of the caps frame. *)
Theorem handshake_agreement kc ks o hello caps plh dh plc dc i j :
  let profile := default DefaultNcpHandshakeProfile (HandshakeProfile o) in
  let d := NegotiateHandshake profile (hello_defaults hello) in
  AuthenticateConn o = None -> RequireAuthenticatedConn o = false ->
  0 <= hf_PingIntervalMs hello ->
  carried kc ks (hello_frame hello) EncodingTierJSON plh dh ->
  dict_tr (HelloFrame_ToDict hello) dh ->
  Z.of_nat (length plh) <= Z.min 0xFFFF (MaxHelloPayload o) ->
  Action d = NcpHandshakeAccept ->
  carried ks kc (caps_frame (acceptCaps caps d)) (DefaultTier (acceptPolicy d)) plc dc ->
  dict_tr (NcpHandshakeCapsFrame_ToDict (acceptCaps caps d)) dc ->
  exists toServer toClient sc server client,
    AcceptConnection ks o (fresh i toServer) = (Ok sc, fresh i []) /\
    ClientHello sc = hello_defaults hello /\
    Accept sc caps = (Ok server, MkConn i [] toClient true) /\
    ClientHandshake kc (fresh j toClient) hello = (Ok client, MkConn j [] toServer true) /\
    EncodingPolicy client = EncodingPolicy server /\
    caps_agree (ServerCaps server) (ServerCaps client).
Proof.
  intros profile d Ha Hr Hp Hh Hd Hl Hok Hc Hdc.
  exists (client_opening hello plh),
    (frame_wire (caps_frame (acceptCaps caps d)) (DefaultTier (acceptPolicy d)) true plc).
  do 3 eexists. split_and!.
  - unfold AcceptConnection. by rewrite (handshake_opening ks kc o hello plh dh i).
  - done.
  - unfold Accept. cbn [sc_profile ClientHello sc_codec sc_conn]. fold profile. fold d.
    rewrite Hok, bool_decide_eq_false_2 by naive_solver.
    destruct (carried_header _ _ _ _ _ _ true Hc) as (_ & _ & Henc & _).
    cbn [caps_frame fr_type fr_dict] in Henc. rewrite Henc. done.
  - by rewrite (ClientHandshake_reads kc ks hello plh dh _ _ _ _ j Hh Hc).
  - cbn. apply handshakeCapsFromDict_tr in Hdc. rewrite handshake_caps_local in Hdc.
    destruct Hdc as [Hdc _]. injection Hdc. intros _ _ _ _ _ _ <- _ _ _. done.
  - cbn. apply handshakeCapsFromDict_tr in Hdc. by rewrite handshake_caps_local in Hdc.
Qed.

(** C10. A refused handshake fails on both ends: when the negotiation does not
    accept, [Accept] returns an error, sends one ErrorFrame and closes the
    connection, and the client that reads that frame fails with a handshake
    error carrying the negotiation's own code, one of the two codes the
    negotiation can produce; no session exists on either side. *)
Theorem handshake_refusal kc ks hello prof plh dh ple de caps i j :
  let d := NegotiateHandshake prof (hello_defaults hello) in
  let sc := MkServerConnection (fresh i []) ks (hello_defaults hello) prof in
  Action d <> NcpHandshakeAccept ->
  carried kc ks (hello_frame hello) EncodingTierJSON plh dh ->
  carried ks kc (error_frame (rejectFrame d)) EncodingTierJSON ple de ->
  dict_tr (ErrorFrame_ToDict (rejectFrame d)) de ->
  exists e toClient,
    Accept sc caps = (Err e, MkConn i [] toClient false) /\
    ClientHandshake kc (fresh j toClient) hello =
      (Err (ErrHandshake (Error d) "Native NCP handshake negotiation failed."),
       MkConn j [] (client_opening hello plh) true) /\
    (Error d = ErrVersionIncompatible \/ Error d = ErrEncodingUnsupported).
Proof.
  intros d sc Hno Hh He Hde.
  assert (Herr : Error d = ErrVersionIncompatible \/ Error d = ErrEncodingUnsupported).
  { subst d. rewrite negotiate_eq in *. destruct (common_version _ _); [|by left].
    unfold negotiate_rest in *. case_match; [by right|]. case_match. case_match; [by left|]. done. }
  destruct (carried_header _ _ _ _ _ _ true He) as (_ & _ & Henc & _).
  cbn [error_frame fr_type fr_dict] in Henc.
  assert (ef_ErrorCode (rejectFrame d) = Error d) as Hcode by (unfold rejectFrame; by destruct Herr as [->| ->]).
  eexists _, (frame_wire (error_frame (rejectFrame d)) EncodingTierJSON true ple). split_and!; [..|done].
  - subst sc. unfold Accept. cbn [sc_profile ClientHello]. fold d.
    rewrite bool_decide_eq_true_2 by done. unfold Reject. cbn [sc_codec sc_conn]. rewrite Henc. done.
  - rewrite (ClientHandshake_reads kc ks hello plh dh _ _ _ _ j Hh He).
    change (fr_type _ =? FrameTypeError) with true. cbv iota. do 3 f_equal; unfold ErrorFrameFromDict; cbn.
    + rewrite <- (str_tr _ _ Hde _ _ eq_refl), <- Hcode. done.
    + rewrite <- (str_tr _ _ Hde _ _ eq_refl). done.
Qed.

End Session.

(** ** Witnesses *)

(** A JSON library that knows the dicts of one hello, one caps and one error frame. *)
Definition table_json (h c e : dict) : GoJSON :=
  {| json_Marshal := fun d => if bool_decide (dict_get "nps_version" d <> None) then Ok [x00]
                              else if bool_decide (dict_get "node_id" d <> None) then Ok [x01]
                              else Ok [x02];
     json_Unmarshal := fun b => if bool_decide (b = [x00]) then Ok h
                                else if bool_decide (b = [x01]) then Ok c else Ok e |}.

Definition full_codec : NpsFrameCodec := NewNpsFrameCodec CreateFullRegistry.
Definition json_hello : HelloFrame :=
  MkHelloFrame "0.11" ["json"] ["ncp"] None None 0 false 0 None 0.
Definition cbor_hello : HelloFrame :=
  MkHelloFrame "0.11" ["cbor"] ["ncp"] None None 0 false 0 None 0.
Definition default_decision (h : HelloFrame) : NcpHandshakeDecision :=
  NegotiateHandshake DefaultNcpHandshakeProfile (hello_defaults h).

Ltac carry := split; vm_compute; (reflexivity || discriminate).

Lemma stream_roundtrip_witness :
  let M := one_dict_msgpack [] [] in
  let J := table_json (HelloFrame_ToDict json_hello) [] [] in
  let m := MkSent (hello_frame json_hello) 0 true [x00] (HelloFrame_ToDict json_hello) in
  let s := SetCodec (newNcpSession (fresh 1 []) sample_caps (MkPolicy 0 false)) full_codec in
  (let '(r, t) := send_all s [m; m] in
   r = Ok tt /\ out (conn t) = [] ++ concat (sent_wire <$> [m; m]) /\ inp (conn t) = []) /\
  receive_n 2 (with_conn s (feed (concat (sent_wire <$> [m; m])) (fresh 2 [x09]))) =
    (Ok ((fun m => (fr_type (st_frame m), st_dict m)) <$> [m; m]), with_conn s (fresh 2 [x09])).
Proof.
  intros M J m s.
  apply (stream_roundtrip full_codec full_codec s s [m; m] (fresh 2 [x09])); try reflexivity.
  assert (sendable full_codec full_codec (EncodingPolicy s) (EncodingPolicy s) m)
    by (split; [carry|done]). apply Forall_cons; split; [done|]. by apply Forall_singleton.
Defined.

Lemma handshake_agreement_witness :
  let caps := acceptCaps sample_caps (default_decision json_hello) in
  let M := one_dict_msgpack [] [] in
  let J := table_json (HelloFrame_ToDict json_hello) (NcpHandshakeCapsFrame_ToDict caps) [] in
  exists toServer toClient sc server client,
    AcceptConnection full_codec (withDefaults None) (fresh 1 toServer) = (Ok sc, fresh 1 []) /\
    ClientHello sc = hello_defaults json_hello /\
    Accept sc sample_caps = (Ok server, MkConn 1 [] toClient true) /\
    ClientHandshake full_codec (fresh 2 toClient) json_hello = (Ok client, MkConn 2 [] toServer true) /\
    EncodingPolicy client = EncodingPolicy server /\
    caps_agree (ServerCaps server) (ServerCaps client).
Proof.
  intros caps M J.
  apply (handshake_agreement full_codec full_codec (withDefaults None) json_hello sample_caps
    [x00] (HelloFrame_ToDict json_hello) [x01] (NcpHandshakeCapsFrame_ToDict caps));
    try reflexivity; try apply dict_tr_refl; first [carry | vm_compute; discriminate].
Defined.

Lemma handshake_refusal_witness :
  let d := default_decision cbor_hello in
  let M := one_dict_msgpack [] [] in
  let J := table_json (HelloFrame_ToDict cbor_hello) [] (ErrorFrame_ToDict (rejectFrame d)) in
  exists e toClient,
    Accept (MkServerConnection (fresh 1 []) full_codec (hello_defaults cbor_hello)
              DefaultNcpHandshakeProfile) sample_caps = (Err e, MkConn 1 [] toClient false) /\
    ClientHandshake full_codec (fresh 2 toClient) cbor_hello =
      (Err (ErrHandshake (Error d) "Native NCP handshake negotiation failed."),
       MkConn 2 [] (client_opening cbor_hello [x00]) true) /\
    (Error d = ErrVersionIncompatible \/ Error d = ErrEncodingUnsupported).
Proof.
  intros d M J.
  apply (handshake_refusal full_codec full_codec cbor_hello DefaultNcpHandshakeProfile [x00]
    (HelloFrame_ToDict cbor_hello) [x02] (ErrorFrame_ToDict (rejectFrame d)));
    try apply dict_tr_refl; [vm_compute; discriminate|carry|carry].
Defined.
