(* ===== verification/NcpFailover.v ===== *)
(** * ncp/failover.go: reconnecting across a transfer of ownership

    The connector is generic in the session, the resolver and the connect step; so is
    the model, in which both act on a world.  An error is a tree, as [errors.Is] and
    [errors.As] walk it. *)

From S2P Require Import Prelude GoValue.

Record NcpEndpoint : Type := MkEndpoint { ep_Host : string; ep_Port : Z }.
Definition NcpEndpoint_String (e : NcpEndpoint) : string := ep_Host e +:+ ":" +:+ fmt_d (ep_Port e).

(** ** Errors *)

Definition ErrNidMismatch : string := "NCP-NID-MISMATCH".

(** [NcpErrorToNpsStatus]. *)
Definition NcpErrorToNpsStatus : list (string * string) := [
  ("NCP-FEATURE-NEGOTIATION-INVALID", "NPS-CLIENT-BAD-FRAME"); ("NCP-FEATURE-REQUIRED-UNSUPPORTED", "NPS-CLIENT-CONFLICT");
  ("NCP-ANCHOR-NOT-FOUND", "NPS-CLIENT-NOT-FOUND"); ("NCP-ANCHOR-SCHEMA-INVALID", "NPS-CLIENT-BAD-FRAME");
  ("NCP-ANCHOR-ID-MISMATCH", "NPS-CLIENT-CONFLICT"); ("NCP-FRAME-UNKNOWN-TYPE", "NPS-CLIENT-BAD-FRAME");
  ("NCP-FRAME-PAYLOAD-TOO-LARGE", "NPS-LIMIT-PAYLOAD"); ("NCP-FRAME-FLAGS-INVALID", "NPS-CLIENT-BAD-FRAME");
  ("NCP-STREAM-SEQ-GAP", "NPS-STREAM-SEQ-GAP"); ("NCP-STREAM-NOT-FOUND", "NPS-STREAM-NOT-FOUND");
  ("NCP-STREAM-LIMIT-EXCEEDED", "NPS-STREAM-LIMIT"); ("NCP-ENCODING-UNSUPPORTED", "NPS-SERVER-ENCODING-UNSUPPORTED");
  ("NCP-ANCHOR-STALE", "NPS-CLIENT-CONFLICT"); ("NCP-DIFF-FORMAT-UNSUPPORTED", "NPS-CLIENT-BAD-FRAME");
  ("NCP-VERSION-INCOMPATIBLE", "NPS-PROTO-VERSION-INCOMPATIBLE"); ("NCP-STREAM-WINDOW-OVERFLOW", "NPS-STREAM-LIMIT");
  ("NCP-ENC-NOT-NEGOTIATED", "NPS-CLIENT-BAD-FRAME"); ("NCP-ENC-AUTH-FAILED", "NPS-CLIENT-BAD-FRAME");
  ("NCP-PREAMBLE-INVALID", "NPS-PROTO-PREAMBLE-INVALID"); ("NCP-KEEPALIVE-TIMEOUT", "NPS-SERVER-TIMEOUT");
  ("NCP-REKEY-REQUIRED", "NPS-CLIENT-BAD-FRAME"); (ErrNidMismatch, "NPS-AUTH-UNAUTHENTICATED");
  ("NCP-EARLY-DATA-REJECTED", "NPS-PROTO-VERSION-INCOMPATIBLE")].

(** The dynamic types the connector asks for. *)
Inductive err_kind : Type :=
| KProtocol (code status : string)     (* *NcpProtocolError *)
| KNet                                 (* a net.Error *)
| KOp                                  (* *net.OpError *)
| KErrno                               (* syscall.Errno *)
| KSentinel (name : string)            (* io.EOF and the like *)
| KOther.

Inductive go_err : Type := GoErr (kind : err_kind) (text : string) (wrapped : list go_err).

(** [NcpProtocolError.Error]. *)
Definition protocol_text (code message : string) : string := if String.eqb message "" then code else code +:+ ": " +:+ message.

Definition NewNcpProtocolError (code message : string) : go_err :=
  GoErr (KProtocol code (default "" (assoc_get code NcpErrorToNpsStatus))) (protocol_text code message) [].

Definition ProtocolErrorCode (k : err_kind) : option string := match k with KProtocol code _ => Some code | _ => None end.

(** [errors.As]: the first match, before the wrapped errors. *)
Fixpoint find_err {A} (p : err_kind -> option A) (e : go_err) : option A :=
  let 'GoErr k _ l := e in
  match p k with
  | Some a => Some a
  | None => (fix go l := match l with
                         | [] => None
                         | e :: l => match find_err p e with Some a => Some a | None => go l end
                         end) l
  end.

Definition has_kind (p : err_kind -> bool) (e : go_err) : bool :=
  match find_err (fun k => if p k then Some tt else None) e with Some _ => true | None => false end.

Definition io_sentinels : list string := ["io.EOF"; "io.ErrUnexpectedEOF"; "io.ErrClosedPipe"; "net.ErrClosed"].

Definition IsFailoverShaped (e : go_err) : bool :=
  match find_err ProtocolErrorCode e with
  | Some code => String.eqb code ErrNidMismatch
  | None =>
      if has_kind (fun k => match k with KNet | KOp | KErrno => true | _ => false end) e then true
      else if has_kind (fun k => match k with KOp => true | _ => false end) e then true
      else if has_kind (fun k => match k with KErrno => true | _ => false end) e then true
      else has_kind (fun k => match k with KSentinel s => mem_string s io_sentinels | _ => false end) e
  end.

(** ** The connector *)

Section Connector.
Context {W Session : Type}.

Definition ResolveActiveFunc : Type := W -> result go_err NcpEndpoint * W.
Definition ConnectFunc : Type := NcpEndpoint -> W -> result go_err Session * W.

Record FailoverConnector : Type := MkConnector { resolveActive : ResolveActiveFunc; connect : ConnectFunc; maxAttempts : Z }.

Definition NewFailoverConnector (r : option ResolveActiveFunc) (c : option ConnectFunc) (max : Z) : result string FailoverConnector :=
  match r, c with
  | None, _ => Err "ncp: resolveActive is required"
  | _, None => Err "ncp: connect is required"
  | Some r, Some c =>
      let max := if max =? 0 then 2 else max in
      if max <? 1 then Err ("ncp: maxAttempts must be >= 1, got " +:+ fmt_d max) else Ok (MkConnector r c max)
  end.

Context (ctx_err : W -> option go_err).

(** The rest of the attempts; the session is the zero value where there is an error, and
    the error is nil where there was no failure. *)
Fixpoint connect_loop (c : FailoverConnector) (attempts : nat) (lastErr : option go_err) (w : W) : result (option go_err) Session * W :=
  match attempts with
  | O => (Err lastErr, w)
  | S n =>
      match ctx_err w with
      | Some e => (Err (Some e), w)
      | None =>
          match resolveActive c w with
          | (Err e, w) => (Err (Some e), w)
          | (Ok ep, w) =>
              match connect c ep w with
              | (Ok s, w) => (Ok s, w)
              | (Err e, w) => if negb (IsFailoverShaped e) then (Err (Some e), w) else connect_loop c n (Some e) w
              end
          end
      end
  end.

Definition Connect (c : FailoverConnector) (w : W) : result (option go_err) Session * W :=
  connect_loop c (Z.to_nat (maxAttempts c)) None w.

(** ** What it promises *)

(** Attempts that reached an anchor that is no longer the active one: each resolves anew. *)
Inductive failed_over (c : FailoverConnector) : W -> list (NcpEndpoint * go_err) -> W -> Prop :=
| no_attempt w : failed_over c w [] w
| next_attempt w ep w1 e w2 l w3 :
    ctx_err w = None -> resolveActive c w = (Ok ep, w1) -> connect c ep w1 = (Err e, w2) -> IsFailoverShaped e = true ->
    failed_over c w2 l w3 -> failed_over c w ((ep, e) :: l) w3.

(** How the attempt after them ends the call. *)
Inductive ends (c : FailoverConnector) (w : W) : result (option go_err) Session -> W -> Prop :=
| ends_cancelled e : ctx_err w = Some e -> ends c w (Err (Some e)) w
| ends_unresolved e w1 : ctx_err w = None -> resolveActive c w = (Err e, w1) -> ends c w (Err (Some e)) w1
| ends_connected ep s w1 w2 : ctx_err w = None -> resolveActive c w = (Ok ep, w1) -> connect c ep w1 = (Ok s, w2) -> ends c w (Ok s) w2
| ends_refused ep e w1 w2 : ctx_err w = None -> resolveActive c w = (Ok ep, w1) -> connect c ep w1 = (Err e, w2) ->
    IsFailoverShaped e = false -> ends c w (Err (Some e)) w2.

Lemma connect_loop_spec c n last w :
  exists l w1, failed_over c w l w1 /\ (length l <= n)%nat /\
    let '(r, w2) := connect_loop c n last w in
    ((length l < n)%nat /\ ends c w1 r w2) \/
    (length l = n /\ w2 = w1 /\ r = Err (match List.rev l with (_, e) :: _ => Some e | [] => last end)).
Proof.
  revert last w. induction n as [|n IH]; intros last w; [exists [], w; split_and!; [constructor|done|by right]|]. cbn [connect_loop].
  assert (Hend : forall r w', ends c w r w' -> exists l w1, failed_over c w l w1 /\ (length l <= S n)%nat /\
    ((length l < S n)%nat /\ ends c w1 r w' \/
     length l = S n /\ w' = w1 /\ r = Err (match List.rev l with (_, e) :: _ => Some e | [] => last end))).
  { intros r w' He. exists [], w. split_and!; [constructor|cbn; lia|left; split; [cbn; lia|done]]. }
  destruct (ctx_err w) as [e|] eqn:Ec; [by apply Hend, ends_cancelled|].
  destruct (resolveActive c w) as [[ep|e] w1] eqn:Er; [|by apply Hend, ends_unresolved].
  destruct (connect c ep w1) as [[s|e] w2] eqn:Es; [by eapply Hend, ends_connected|].
  destruct (IsFailoverShaped e) eqn:Ef; cbn [negb]; [|by eapply Hend, ends_refused].
  destruct (IH (Some e) w2) as (l & w3 & Hl & Hn & Hr). destruct (connect_loop c n (Some e) w2) as [r w4].
  exists ((ep, e) :: l), w3. split_and!; [by econstructor|cbn; lia|]. destruct Hr as [[Hlt He]|(Hlen & -> & ->)].
  - left. split; [cbn; lia|done].
  - right. split_and!; [cbn; lia|done|]. cbn [List.rev]. destruct (List.rev l) as [|[ep' e'] l'] eqn:E; [done|by destruct l'].
Qed.

(** A connector tries at least once and at most [maxAttempts] times, resolves the active
    anchor before every attempt, and goes on only after a failure that means that the
    anchor moved.  Every other outcome ends the call at once and as it is; when the
    attempts are used up, the last failure is returned. *)
Theorem connect_contract r c max conn w :
  NewFailoverConnector (Some r) (Some c) max = Ok conn ->
  (1 <= maxAttempts conn /\ (max <> 0 -> maxAttempts conn = max)) /\
  exists l w1, failed_over conn w l w1 /\ Z.of_nat (length l) <= maxAttempts conn /\
    let '(res, w2) := Connect conn w in
    (Z.of_nat (length l) < maxAttempts conn /\ ends conn w1 res w2) \/
    (exists l' ep e, l = l' ++ [(ep, e)] /\ Z.of_nat (length l) = maxAttempts conn /\ w2 = w1 /\ res = Err (Some e)).
Proof.
  unfold NewFailoverConnector. destruct (_ <? 1) eqn:Em; [done|]. intros [= <-]. apply Z.ltb_ge in Em. split.
  { cbn. split; [done|]. intros Hm. by apply Z.eqb_neq in Hm as ->. }
  set (conn := MkConnector r c _) in *. destruct (connect_loop_spec conn (Z.to_nat (maxAttempts conn)) None w) as (l & w1 & Hl & Hn & Hr).
  exists l, w1. assert (1 <= maxAttempts conn) by done. split_and!; [done|lia|]. unfold Connect. destruct (connect_loop _ _ _ _) as [res w2].
  destruct Hr as [[Hlt He]|(Hlen & -> & ->)]; [left; split; [lia|done]|right].
  destruct l as [|[ep e] l' _] using rev_ind; [cbn in Hlen; lia|]. exists l', ep, e.
  split_and!; [done|rewrite Hlen, Z2Nat.id; lia|done|by rewrite List.rev_app_distr].
Qed.
End Connector.

(** The anchor moves once: the second attempt reaches it. *)
Lemma connect_contract_witness :
  let r : ResolveActiveFunc := fun w : nat => (Ok (MkEndpoint "anchor" (Z.of_nat w)), w) in
  let c : ConnectFunc (Session := nat) := fun ep w => if ep_Port ep =? 0 then (Err (NewNcpProtocolError ErrNidMismatch "moved"), S w) else (Ok w, w) in
  let conn := MkConnector r c 2 in
  let ctx := fun _ : nat => None in
  Connect ctx conn 0%nat = (Ok 1%nat, 1%nat) /\
  (1 <= maxAttempts conn /\ (0 <> 0 -> maxAttempts conn = 0)) /\
  exists l w1, failed_over ctx conn 0%nat l w1 /\ Z.of_nat (length l) <= maxAttempts conn /\
    let '(res, w2) := Connect ctx conn 0%nat in
    (Z.of_nat (length l) < maxAttempts conn /\ ends ctx conn w1 res w2) \/
    (exists l' ep e, l = l' ++ [(ep, e)] /\ Z.of_nat (length l) = maxAttempts conn /\ w2 = w1 /\ res = Err (Some e)).
Proof. intros r c conn ctx. split; [reflexivity|]. exact (connect_contract ctx r c 0 conn 0%nat eq_refl). Defined.
