(* ===== verification/NopFrames.v ===== *)
(** * nop/frames.go: the wire frames of orchestration

    One record per frame with [ToDict] and [FromDict] as the code builds them, in the
    conventions of NcpFrames.v. *)

From S2P Require Import Prelude GoValue CoreFrames NcpFrames.

(** ** Helpers *)

Definition str (d : dict) (k : string) : string := default "" (as_string (dict_at d k)).
Definition optStr (d : dict) (k : string) : option string := as_string (dict_at d k).

Definition toUint64 (v : any) : Z :=
  match v with VInt KInt64 x => u64 x | VInt KUint64 x => x | VFloat64 x => uint64_of_float x | _ => 0 end.
Definition toInt64 (v : any) : Z :=
  match v with VInt KInt64 x => x | VFloat64 x => int64_of_float x | _ => 0 end.

Definition optUint64 (d : dict) (k : string) : option Z := toUint64 <$> dict_get k d.
Definition optInt64 (d : dict) (k : string) : option Z := toInt64 <$> dict_get k d.

(** [nil] is the empty slice. *)
Definition toSliceStr (v : any) : list string := default [] (as_string_slice v).

(** ** TaskFrame *)

Record TaskFrame : Type := MkTaskFrame {
  tf_TaskID : string; tf_DAG : any; tf_TimeoutMs : option Z; tf_CallbackURL : option string; tf_Context : any;
  tf_Priority : option string; tf_Depth : option Z; tf_CompensationPolicy : string; tf_ResultTtlSeconds : Z
}.

Definition ttl_default (ttl : Z) : Z := if ttl =? 0 then 3600 else ttl.

Definition TaskFrame_ToDict (f : TaskFrame) : dict :=
  let d := [("task_id", VString (tf_TaskID f)); ("dag", tf_DAG f)] in
  let d := set_opt "timeout_ms" (VInt KUint64) (tf_TimeoutMs f) d in
  let d := set_opt "callback_url" VString (tf_CallbackURL f) d in
  let d := if not_nil (tf_Context f) then dict_set "context" (tf_Context f) d else d in
  let d := set_opt "priority" VString (tf_Priority f) d in
  let d := set_opt "depth" (VInt KInt64) (tf_Depth f) d in
  let d := if String.eqb (tf_CompensationPolicy f) "" then d else dict_set "compensation_policy" (VString (tf_CompensationPolicy f)) d in
  dict_set "result_ttl_seconds" (VInt KUint64 (ttl_default (tf_ResultTtlSeconds f))) d.

Definition TaskFrameFromDict (d : dict) : TaskFrame :=
  MkTaskFrame (str d "task_id") (dict_at d "dag") (optUint64 d "timeout_ms") (optStr d "callback_url") (dict_at d "context")
    (optStr d "priority") (optInt64 d "depth") (str d "compensation_policy") (ttl_default (toUint64 (dict_at d "result_ttl_seconds"))).

(** ** DelegateFrame *)

Record DelegateFrame : Type := MkDelegateFrame {
  dg_TaskID : string; dg_SubtaskID : string; dg_Action : string; dg_TargetNID : string; dg_Inputs : any; dg_Config : any;
  dg_IdempotencyKey : option string; dg_TargetClusterAnchor : option string
}.

Definition DelegateFrame_ToDict (f : DelegateFrame) : dict :=
  let d := [("parent_task_id", VString (dg_TaskID f)); ("subtask_id", VString (dg_SubtaskID f));
            ("action", VString (dg_Action f)); ("target_agent_nid", VString (dg_TargetNID f))] in
  let d := if not_nil (dg_Inputs f) then dict_set "inputs" (dg_Inputs f) d else d in
  let d := if not_nil (dg_Config f) then dict_set "config" (dg_Config f) d else d in
  let d := set_opt "idempotency_key" VString (dg_IdempotencyKey f) d in
  set_opt "target_cluster_anchor" VString (dg_TargetClusterAnchor f) d.

Definition DelegateFrameFromDict (d : dict) : DelegateFrame :=
  MkDelegateFrame (str d "parent_task_id") (str d "subtask_id") (str d "action") (str d "target_agent_nid")
    (dict_at d "inputs") (dict_at d "config") (optStr d "idempotency_key") (optStr d "target_cluster_anchor").

(** ** SyncFrame *)

Record SyncFrame : Type := MkSyncFrame {
  sy_TaskID : string; sy_SyncID : string; sy_SubtaskIDs : list string; sy_MinRequired : Z; sy_Aggregate : string;
  sy_TimeoutMs : option Z
}.

Definition SyncFrame_ToDict (f : SyncFrame) : dict :=
  set_opt "timeout_ms" (VInt KUint64) (sy_TimeoutMs f)
    [("task_id", VString (sy_TaskID f)); ("sync_id", VString (sy_SyncID f)); ("wait_for", VStrings (sy_SubtaskIDs f));
     ("min_required", VInt KInt64 (sy_MinRequired f)); ("aggregate", VString (sy_Aggregate f))].

Definition SyncFrameFromDict (d : dict) : SyncFrame :=
  let agg := str d "aggregate" in
  MkSyncFrame (str d "task_id") (str d "sync_id") (toSliceStr (dict_at d "wait_for")) (toInt64 (dict_at d "min_required"))
    (if String.eqb agg "" then "merge" else agg) (optUint64 d "timeout_ms").

(** ** AlignStreamFrame *)

Record AlignStreamFrame : Type := MkAlignStreamFrame {
  al_SyncID : string; al_TaskID : string; al_SubtaskID : string; al_Seq : Z; al_IsFinal : bool; al_SourceNID : option string;
  al_Result : any; al_Error : option dict; al_WindowSize : option Z; al_AckSeq : option Z; al_NakSeq : option Z
}.

Definition error_member (f : AlignStreamFrame) (k : string) : string := match al_Error f with None => "" | Some e => str e k end.
Definition ErrorCode (f : AlignStreamFrame) : string := error_member f "error_code".
Definition ErrorMessage (f : AlignStreamFrame) : string := error_member f "message".

Definition AlignStreamFrame_ToDict (f : AlignStreamFrame) : dict :=
  let d := [("stream_id", VString (al_SyncID f)); ("task_id", VString (al_TaskID f)); ("subtask_id", VString (al_SubtaskID f));
            ("seq", VInt KUint64 (al_Seq f)); ("is_final", VBool (al_IsFinal f))] in
  let d := set_opt "sender_nid" VString (al_SourceNID f) d in
  let d := if not_nil (al_Result f) then dict_set "result" (al_Result f) d else d in
  let d := set_opt "error" VMap (al_Error f) d in
  let d := set_opt "window_size" (VInt KUint64) (al_WindowSize f) d in
  let d := set_opt "ack_seq" (VInt KUint64) (al_AckSeq f) d in
  set_opt "nak_seq" (VInt KUint64) (al_NakSeq f) d.

Definition AlignStreamFrameFromDict (d : dict) : AlignStreamFrame :=
  MkAlignStreamFrame (str d "stream_id") (str d "task_id") (str d "subtask_id") (toUint64 (dict_at d "seq"))
    (default false (as_bool (dict_at d "is_final"))) (optStr d "sender_nid") (dict_at d "result") (as_map (dict_at d "error"))
    (optUint64 d "window_size") (optUint64 d "ack_seq") (optUint64 d "nak_seq").

(** ** Transport *)

#[export] Instance nop_str_tr : Proper (dict_tr ==> eq ==> eq) str := str_tr.
#[export] Instance nop_optStr_tr : Proper (dict_tr ==> eq ==> eq) optStr := optStr_tr.
#[export] Instance nop_toUint64_tr : Proper (transported ==> eq) toUint64.
Proof. intros ? ? [| | |]; [done| | |done]; simpl; rewrite uint64_of_float_exact by done; [done|]. by apply wrapu_small; lia. Qed.

(** [toInt64] reads no unsigned integer, which a JSON peer would see as a number. *)
Definition signed (v : any) : Prop := forall z, v <> VInt KUint64 z.

Lemma toInt64_tr v v' : transported v v' -> signed v -> toInt64 v = toInt64 v'.
Proof. intros [| z| |] Hs; [done|by destruct (Hs z)| |done]; simpl; by rewrite int64_of_float_exact. Qed.
#[export] Instance toSliceStr_tr : Proper (transported ==> eq) toSliceStr.
Proof. intros v v' Hv. unfold toSliceStr. by rewrite Hv. Qed.
#[export] Instance optUint64_tr : Proper (dict_tr ==> eq ==> eq) optUint64.
Proof. intros d d' Hd k ? <-. unfold optUint64. destruct (dict_tr_get k _ _ Hd) as [v v' Hv|]; [|done]. cbn. f_equal. by apply nop_toUint64_tr. Qed.
Lemma optInt64_tr d d' k : dict_tr d d' -> signed (dict_at d k) -> optInt64 d k = optInt64 d' k.
Proof.
  intros Hd. unfold optInt64, dict_at. destruct (dict_tr_get k _ _ Hd) as [v v' Hv|]; [|done]. cbn. intros Hs. f_equal. by apply toInt64_tr.
Qed.

(** ** Round trips *)

Definition task_defaults (f : TaskFrame) : TaskFrame :=
  MkTaskFrame (tf_TaskID f) (tf_DAG f) (tf_TimeoutMs f) (tf_CallbackURL f) (tf_Context f) (tf_Priority f) (tf_Depth f)
    (tf_CompensationPolicy f) (ttl_default (tf_ResultTtlSeconds f)).

Lemma ttl_default_idem z : ttl_default (ttl_default z) = ttl_default z.
Proof. unfold ttl_default. by destruct (z =? 0) eqn:E; rewrite ?E. Qed.

Lemma task_local f : TaskFrameFromDict (TaskFrame_ToDict f) = task_defaults f.
Proof.
  destruct f as [i g [t|] [c|] x [p|] [dp|] cp ttl]; destruct x; destruct cp as [|ch cp];
    cbv -[ttl_default]; by rewrite ttl_default_idem.
Qed.

Lemma task_signed f : signed (dict_at (TaskFrame_ToDict f) "depth").
Proof. destruct f as [i g [t|] [c|] x [p|] [dp|] cp ttl]; destruct x; destruct cp as [|ch cp]; by intros ?. Qed.

Lemma delegate_local f : DelegateFrameFromDict (DelegateFrame_ToDict f) = f.
Proof. destruct f as [i s a t x y [k|] [c|]]; destruct x; destruct y; reflexivity. Qed.

Lemma sync_local f : SyncFrameFromDict (SyncFrame_ToDict f) =
  MkSyncFrame (sy_TaskID f) (sy_SyncID f) (sy_SubtaskIDs f) (sy_MinRequired f)
    (if String.eqb (sy_Aggregate f) "" then "merge" else sy_Aggregate f) (sy_TimeoutMs f).
Proof. by destruct f as [i s l m a [t|]]. Qed.

Lemma align_local f : AlignStreamFrameFromDict (AlignStreamFrame_ToDict f) = f.
Proof. destruct f as [s i u q fin [n|] r [e|] [w|] [a|] [k|]]; destruct r; reflexivity. Qed.

(** What a peer reads: the same frame but for the opaque values, which are what the wire
    made of them. *)
Definition task_agree (f g : TaskFrame) : Prop :=
  f = MkTaskFrame (tf_TaskID g) (tf_DAG f) (tf_TimeoutMs g) (tf_CallbackURL g) (tf_Context f) (tf_Priority g) (tf_Depth g)
        (tf_CompensationPolicy g) (tf_ResultTtlSeconds g) /\
  transported (tf_DAG f) (tf_DAG g) /\ transported (tf_Context f) (tf_Context g).

Definition delegate_agree (f g : DelegateFrame) : Prop :=
  f = MkDelegateFrame (dg_TaskID g) (dg_SubtaskID g) (dg_Action g) (dg_TargetNID g) (dg_Inputs f) (dg_Config f)
        (dg_IdempotencyKey g) (dg_TargetClusterAnchor g) /\
  transported (dg_Inputs f) (dg_Inputs g) /\ transported (dg_Config f) (dg_Config g).

Definition align_agree (f g : AlignStreamFrame) : Prop :=
  f = MkAlignStreamFrame (al_SyncID g) (al_TaskID g) (al_SubtaskID g) (al_Seq g) (al_IsFinal g) (al_SourceNID g) (al_Result f)
        (al_Error g) (al_WindowSize g) (al_AckSeq g) (al_NakSeq g) /\
  transported (al_Result f) (al_Result g).

Ltac carried Hd := first [by rewrite Hd | f_equal; by rewrite Hd].

Lemma TaskFrameFromDict_tr d d' : dict_tr d d' -> signed (dict_at d "depth") -> task_agree (TaskFrameFromDict d) (TaskFrameFromDict d').
Proof.
  intros Hd Hs. split; [|split; by apply dict_tr_at]. unfold TaskFrameFromDict. cbn. f_equal; first [by apply optInt64_tr | carried Hd | by rewrite Hd].
Qed.
#[export] Instance DelegateFrameFromDict_tr : Proper (dict_tr ==> delegate_agree) DelegateFrameFromDict.
Proof. intros d d' Hd. split; [|split; by apply dict_tr_at]. unfold DelegateFrameFromDict. cbn. f_equal; carried Hd. Qed.
Lemma SyncFrameFromDict_tr d d' : dict_tr d d' -> signed (dict_at d "min_required") -> SyncFrameFromDict d = SyncFrameFromDict d'.
Proof.
  intros Hd Hs. unfold SyncFrameFromDict. rewrite (nop_str_tr _ _ Hd "aggregate" _ eq_refl).
  f_equal; first [apply toInt64_tr; [by apply dict_tr_at|done] | by rewrite Hd | carried Hd].
Qed.
#[export] Instance AlignStreamFrameFromDict_tr : Proper (dict_tr ==> align_agree) AlignStreamFrameFromDict.
Proof. intros d d' Hd. split; [|by apply dict_tr_at]. unfold AlignStreamFrameFromDict. cbn. f_equal; carried Hd. Qed.

(** The frames of orchestration survive the wire: whatever a JSON or MsgPack peer decodes
    for the dict of a frame reads back as the frame, a time to live of zero as the
    default of an hour and an empty aggregate as [merge]; the optional fields stay
    absent or present. *)
Theorem nop_frames_roundtrip t g s a dt dg ds da :
  dict_tr (TaskFrame_ToDict t) dt -> dict_tr (DelegateFrame_ToDict g) dg ->
  dict_tr (SyncFrame_ToDict s) ds -> dict_tr (AlignStreamFrame_ToDict a) da ->
  task_agree (task_defaults t) (TaskFrameFromDict dt) /\
  delegate_agree g (DelegateFrameFromDict dg) /\
  SyncFrameFromDict ds = MkSyncFrame (sy_TaskID s) (sy_SyncID s) (sy_SubtaskIDs s) (sy_MinRequired s)
    (if String.eqb (sy_Aggregate s) "" then "merge" else sy_Aggregate s) (sy_TimeoutMs s) /\
  align_agree a (AlignStreamFrameFromDict da) /\
  ErrorCode (AlignStreamFrameFromDict da) = ErrorCode a /\ ErrorMessage (AlignStreamFrameFromDict da) = ErrorMessage a.
Proof.
  intros Ht Hg%DelegateFrameFromDict_tr Hs Ha%AlignStreamFrameFromDict_tr.
  apply TaskFrameFromDict_tr in Ht; [|apply task_signed]. apply SyncFrameFromDict_tr in Hs; [|by destruct s as [? ? ? ? ? []]].
  rewrite task_local in Ht. rewrite delegate_local in Hg. rewrite sync_local in Hs. rewrite align_local in Ha.
  split_and!; try done; destruct Ha as [-> _]; reflexivity.
Qed.

(** The frames as a JSON peer decodes them. *)
Lemma nop_frames_roundtrip_witness :
  let t := MkTaskFrame "t-1" (VMap []) (Some 5000) None VNil (Some "high") (Some 2) "" 0 in
  let s := MkSyncFrame "t-1" "s-1" ["a"; "b"] 2 "" None in
  let a := MkAlignStreamFrame "st" "t-1" "a" 7 true None (VBool true) (Some [("error_code", VString "E")]) None (Some 6) None in
  let g := MkDelegateFrame "t-1" "a" "run" "urn:n" VNil VNil None (Some "c") in
  let dt := [("task_id", VString "t-1"); ("dag", VMap []); ("timeout_ms", VFloat64 (float64_of_Z 5000)); ("priority", VString "high");
             ("depth", VFloat64 (float64_of_Z 2)); ("result_ttl_seconds", VFloat64 (float64_of_Z 3600))] in
  let ds := [("task_id", VString "t-1"); ("sync_id", VString "s-1"); ("wait_for", VSlice [VString "a"; VString "b"]);
             ("min_required", VFloat64 (float64_of_Z 2)); ("aggregate", VString "")] in
  task_agree (task_defaults t) (TaskFrameFromDict dt) /\ sy_Aggregate (SyncFrameFromDict ds) = "merge".
Proof.
  intros t s a g dt ds. destruct (nop_frames_roundtrip t g s a dt (DelegateFrame_ToDict g) ds (AlignStreamFrame_ToDict a)) as (Ht & _ & Hs & _).
  - unfold dict_tr; cbn. repeat (apply Forall2_cons_2; [split; [reflexivity|first [apply tr_same|apply tr_float; lia|apply tr_int; lia]]|]); constructor.
  - apply dict_tr_refl.
  - unfold dict_tr; cbn. repeat (apply Forall2_cons_2; [split; [reflexivity|first [apply tr_same|apply (tr_strings ["a"; "b"])|apply tr_int; lia]]|]); constructor.
  - apply dict_tr_refl.
  - split; [exact Ht|by rewrite Hs].
Defined.
