(* ===== verification/NopModels.v ===== *)
(** * NOP data model: JSON values, DAGs, policies, task states, retry delays

    nop/constants.go, nop/models.go and the codes of nop/error_codes.go.  A
    [json.RawMessage] is the JSON value it spells ([json], with the members of an
    object in source order), or [None] for an empty one: every raw message the
    package holds was produced by encoding/json, so it is well formed.  Slices
    of pointers hold no nil entry here. *)

From S2P Require Import Prelude GoValue.

(** ** JSON values *)

Inductive json : Type :=
| JNull
| JBool (b : bool)
| JNum (lit : string)
| JStr (s : string)
| JArr (l : list json)
| JObj (m : list (string * json)).

Abbreviation RawMessage := (option json).

(** [json.Unmarshal(raw, &s)] into a string: [null] leaves the zero value. *)
Definition unmarshal_string (j : json) : option string :=
  match j with JStr s => Some s | JNull => Some "" | _ => None end.

(** Into a slice of raw messages: [null] gives a nil slice. *)
Definition unmarshal_slice (j : json) : option (list json) :=
  match j with JArr l => Some l | JNull => Some [] | _ => None end.

(** Into a map of raw messages: [null] gives a nil map; of a repeated member
    the last one stays. *)
Definition unmarshal_map (j : json) : option (gmap string json) :=
  match j with
  | JObj m => Some (foldl (fun acc '(k, v) => <[k := v]> acc) ∅ m)
  | JNull => Some ∅
  | _ => None
  end.

(** [json.Marshal] of a map of raw messages: members in the order of their keys;
    an empty raw message is [null]. *)
Definition map_keys {A} (m : gmap string A) : list string := (map_to_list m).*1.

Definition marshal_map (m : gmap string RawMessage) : json :=
  JObj ((fun k => (k, default JNull (mjoin (m !! k)))) <$> sort_strings (map_keys m)).

(** ** Limits (nop/constants.go) *)

Definition MaxDagNodes : Z := 32.
Definition MaxDelegateChainDepth : Z := 3.
Definition MaxConditionLength : Z := 512.
Definition MaxInputMappingDepth : Z := 8.
Definition DefaultTimeoutMs : Z := 30000.
Definition MaxTimeoutMs : Z := 3600000.
Definition CallbackMaxRetries : Z := 3.

(** ** Error codes (nop/error_codes.go) *)

Definition ErrTaskDagInvalid : string := "NOP-TASK-DAG-INVALID".
Definition ErrTaskDagCycle : string := "NOP-TASK-DAG-CYCLE".
Definition ErrTaskDagTooLarge : string := "NOP-TASK-DAG-TOO-LARGE".
Definition ErrTaskTimeout : string := "NOP-TASK-TIMEOUT".
Definition ErrTaskCancelled : string := "NOP-TASK-CANCELLED".
Definition ErrTaskNotFound : string := "NOP-TASK-NOT-FOUND".
Definition ErrTaskAlreadyCompleted : string := "NOP-TASK-ALREADY-COMPLETED".
Definition ErrDelegateRejected : string := "NOP-DELEGATE-REJECTED".
Definition ErrDelegateChainTooDeep : string := "NOP-DELEGATE-CHAIN-TOO-DEEP".
Definition ErrDelegateTimeout : string := "NOP-DELEGATE-TIMEOUT".
Definition ErrSyncDependencyFailed : string := "NOP-SYNC-DEPENDENCY-FAILED".
Definition ErrStreamNidMismatch : string := "NOP-STREAM-NID-MISMATCH".
Definition ErrStreamSeqGap : string := "NOP-STREAM-SEQ-GAP".
Definition ErrResourceInsufficient : string := "NOP-RESOURCE-INSUFFICIENT".
Definition ErrConditionEvalError : string := "NOP-CONDITION-EVAL-ERROR".
Definition ErrInputMappingError : string := "NOP-INPUT-MAPPING-ERROR".
Definition ErrCompensationFailed : string := "NOP-COMPENSATION-FAILED".
Definition ErrCompensationPartialFailed : string := "NOP-COMPENSATION-PARTIAL-FAILED".
Definition ErrCompensationNotSupported : string := "NOP-COMPENSATION-NOT-SUPPORTED".

(** ** Policies (nop/models.go) *)

Definition AggregateStrategyMerge : string := "merge".
Definition AggregateStrategyFirst : string := "first".
Definition AggregateStrategyAll : string := "all".
Definition AggregateStrategyFastestK : string := "fastest_k".

Definition CompensationPolicyBestEffort : string := "best_effort".
Definition CompensationPolicyStrict : string := "strict".
Definition CompensationPolicyNone : string := "none".
Definition CompensationPolicyOnFailure : string := "on_failure".
Definition CompensationPolicyAlways : string := "always".

Definition CompensationRunsOnFailure (policy : string) : bool :=
  mem_string policy [CompensationPolicyBestEffort; CompensationPolicyStrict;
                     CompensationPolicyOnFailure; CompensationPolicyAlways].
Definition CompensationRunsOnSuccess (policy : string) : bool :=
  String.eqb policy CompensationPolicyAlways.
Definition CompensationIsStrict (policy : string) : bool :=
  String.eqb policy CompensationPolicyStrict.

(** ** RetryPolicy *)

Record RetryPolicy : Type := MkRetryPolicy {
  MaxRetries : Z;          (* uint32 *)
  Backoff : string;
  InitialDelayMs : Z;      (* uint64 *)
  MaxDelayMs : Z;
  RetryOn : list string
}.

Definition BackoffStrategyFixed : string := "fixed".
Definition BackoffStrategyLinear : string := "linear".
Definition BackoffStrategyExponential : string := "exponential".

Fixpoint pow2 (n : nat) : float64 :=
  match n with O => float64_of_Z 1 | S k => SFmul 53 1024 (pow2 k) (float64_of_Z 2) end.

(** The conversion [float64(int)] of an attempt number is [float64_of_Z]. *)
Definition RetryPolicy_ComputeDelayMs (p : RetryPolicy) (attempt : Z) : Z :=
  let initial := if InitialDelayMs p =? 0 then 1000 else InitialDelayMs p in
  let maxDelay := if MaxDelayMs p =? 0 then 30000 else MaxDelayMs p in
  let factor :=
    if String.eqb (Backoff p) BackoffStrategyFixed then float64_of_Z 1
    else if String.eqb (Backoff p) BackoffStrategyLinear then float64_of_Z (i64 (attempt + 1))
    else pow2 (Z.to_nat attempt) in
  let delay := SFmul 53 1024 (float64_of_Z initial) factor in
  if SFltb (float64_of_Z maxDelay) delay then maxDelay else uint64_of_float delay.

(** The legacy integer helper. *)
Inductive BackoffStrategy : Type := BackoffFixed | BackoffLinear | BackoffExponential.

Definition ComputeDelayMs (strategy : BackoffStrategy) (baseMs maxMs attempt : Z) : Z :=
  let raw :=
    match strategy with
    | BackoffFixed => baseMs
    | BackoffLinear => i64 (baseMs * i64 (attempt + 1))
    | BackoffExponential => i64 (Z.shiftl baseMs (u64 attempt))
    end in
  if raw >? maxMs then maxMs else raw.

(** ** TaskDag *)

Record DagNode : Type := MkDagNode {
  ID : string;
  NodeAction : string;
  Agent : string;
  InputFrom : list string;
  InputMapping : list (string * json);      (* map[string]json.RawMessage *)
  TimeoutMs : option Z;
  RetryPolicyOf : option RetryPolicy;
  Condition : string;
  MinRequired : Z;                           (* uint64 *)
  CompensateAction : string;
  CompensateParamsMapping : list (string * json)
}.

Record DagEdge : Type := MkDagEdge { From : string; To : string }.

Record TaskDag : Type := MkTaskDag { Nodes : list DagNode; Edges : list DagEdge }.

#[export] Instance DagEdge_eq_dec : EqDecision DagEdge.
Proof. solve_decision. Defined.

(** ** TaskState *)

Inductive TaskState : Type :=
| TaskStatePending | TaskStatePreflight | TaskStateRunning | TaskStateWaitingSync
| TaskStateCompleted | TaskStateFailed | TaskStateCancelled | TaskStateSkipped
| TaskStateCompensating | TaskStateCompensated.

#[export] Instance TaskState_eq_dec : EqDecision TaskState.
Proof. solve_decision. Defined.

Definition all_states : list TaskState :=
  [TaskStatePending; TaskStatePreflight; TaskStateRunning; TaskStateWaitingSync;
   TaskStateCompleted; TaskStateFailed; TaskStateCancelled; TaskStateSkipped;
   TaskStateCompensating; TaskStateCompensated].

(** The string value of a state constant. *)
Definition TaskState_string (s : TaskState) : string :=
  match s with
  | TaskStatePending => "pending" | TaskStatePreflight => "preflight"
  | TaskStateRunning => "running" | TaskStateWaitingSync => "waiting_sync"
  | TaskStateCompleted => "completed" | TaskStateFailed => "failed"
  | TaskStateCancelled => "cancelled" | TaskStateSkipped => "skipped"
  | TaskStateCompensating => "compensating" | TaskStateCompensated => "compensated"
  end.

Definition TaskStateFromString (s : string) : go_result TaskState :=
  match list_find (fun st => TaskState_string st = s) all_states with
  | Some (_, st) => Ok st
  | None => Err (ErrPlain ("unknown task state: " +:+ s))
  end.

Definition IsTerminal (s : TaskState) : bool :=
  bool_decide (s = TaskStateCompleted) || bool_decide (s = TaskStateFailed) ||
  bool_decide (s = TaskStateCancelled).

(** ** Lemmas and properties *)

(** The legacy helper respects its cap and, while the product does not overflow,
    is the capped product. *)
Lemma ComputeDelayMs_cap st base m attempt : ComputeDelayMs st base m attempt <= m.
Proof. unfold ComputeDelayMs. case_match eqn:E; bool_hyps; lia. Qed.

Lemma ComputeDelayMs_exact st base m attempt :
  0 <= base -> 0 <= attempt < maxInt64 -> base * 2 ^ attempt < 2 ^ 63 ->
  ComputeDelayMs st base m attempt =
    Z.min m (base * match st with BackoffFixed => 1 | BackoffLinear => attempt + 1
                                | BackoffExponential => 2 ^ attempt end).
Proof.
  intros Hb Ha Ho. unfold ComputeDelayMs, maxInt64 in *.
  assert (attempt + 1 <= 2 ^ attempt) as Hg.
  { pose proof (Z.pow_gt_lin_r 2 attempt). lia. }
  assert (0 <= base * (attempt + 1) < 2 ^ 63) by nia.
  assert (0 <= base * 2 ^ attempt) by nia.
  destruct st.
  - case_match eqn:E; bool_hyps; lia.
  - rewrite (wraps_small 64 (attempt + 1)), (wraps_small 64) by (simpl; lia).
    case_match eqn:E; bool_hyps; lia.
  - rewrite Z.shiftl_mul_pow2, (wrapu_small 64 attempt) by (rewrite ?wrapu_small; lia).
    rewrite (wraps_small 64) by (simpl; lia). case_match eqn:E; bool_hyps; lia.
Qed.
