(* ===== verification/NopDag.v ===== *)
(** * NOP DAG validation (nop/dag_validator.go)

    [ValidateDag] with its checks in source order and Kahn's algorithm as the
    source runs it: a work queue, the map of remaining in-degrees and the order
    so far.  The loop has one unit of fuel per node, which [kahn_drains] shows
    to be enough.  The theorems relate it to the abstract notion of a directed
    acyclic graph. *)

From S2P Require Import Prelude GoValue NopModels.

Record DagValidationResult : Type := MkDagResult {
  IsValid : bool; ErrorCode : string; ErrorMessage : string; TopologicalOrder : list string
}.

Definition dagSuccess (order : list string) : DagValidationResult := MkDagResult true "" "" order.
Definition dagFailure (code msg : string) : DagValidationResult := MkDagResult false code msg [].

(** ** The loops of ValidateDag; [Err] is an early return *)

Fixpoint collect_ids (nodes : list DagNode) (nodeIDs : gset string) :
    result DagValidationResult (gset string) :=
  match nodes with
  | [] => Ok nodeIDs
  | node :: r =>
      if bool_decide (ID node ∈ nodeIDs) then
        Err (dagFailure ErrTaskDagInvalid ("Duplicate node ID: '" +:+ ID node +:+ "'."))
      else collect_ids r ({[ID node]} ∪ nodeIDs)
  end.

Abbreviation Adjacency := (gmap string (list string)).
Abbreviation Degrees := (gmap string Z).

Fixpoint add_edges (nodeIDs : gset string) (edges : list DagEdge) (adjacency : Adjacency)
    (inDegree : Degrees) : result DagValidationResult (Adjacency * Degrees) :=
  match edges with
  | [] => Ok (adjacency, inDegree)
  | edge :: r =>
      if negb (bool_decide (From edge ∈ nodeIDs)) then
        Err (dagFailure ErrTaskDagInvalid
               ("Edge references unknown source node: '" +:+ From edge +:+ "'."))
      else if negb (bool_decide (To edge ∈ nodeIDs)) then
        Err (dagFailure ErrTaskDagInvalid
               ("Edge references unknown target node: '" +:+ To edge +:+ "'."))
      else
        add_edges nodeIDs r
          (<[From edge := default [] (adjacency !! From edge) ++ [To edge]]> adjacency)
          (<[To edge := default 0 (inDegree !! To edge) + 1]> inDegree)
  end.

Fixpoint check_upstreams (nodeIDs : gset string) (id : string) (ups : list string) :
    result DagValidationResult unit :=
  match ups with
  | [] => Ok tt
  | u :: r =>
      if bool_decide (u ∈ nodeIDs) then check_upstreams nodeIDs id r
      else Err (dagFailure ErrTaskDagInvalid ("Node '" +:+ id +:+
                  "' references unknown upstream node '" +:+ u +:+ "' in input_from."))
  end.

Fixpoint check_inputs (nodeIDs : gset string) (nodes : list DagNode) :
    result DagValidationResult unit :=
  match nodes with
  | [] => Ok tt
  | node :: r => let? _ := check_upstreams nodeIDs (ID node) (InputFrom node) in
                 check_inputs nodeIDs r
  end.

Fixpoint check_conditions (nodes : list DagNode) : result DagValidationResult unit :=
  match nodes with
  | [] => Ok tt
  | node :: r =>
      if str_len (Condition node) >? MaxConditionLength then
        Err (dagFailure ErrConditionEvalError ("Node '" +:+ ID node +:+
               "' condition expression exceeds " +:+ fmt_d MaxConditionLength +:+ " characters."))
      else check_conditions r
  end.

(** ** Kahn's algorithm *)

(** One neighbour: decrement its in-degree, enqueue it when it reaches zero. *)
Definition relax (st : Degrees * list string) (neighbor : string) : Degrees * list string :=
  let '(remaining, queue) := st in
  let d := default 0 (remaining !! neighbor) - 1 in
  (<[neighbor := d]> remaining, if d =? 0 then queue ++ [neighbor] else queue).

(** The loop [for len(queue) > 0]; the second component is what is left queued. *)
Fixpoint kahn (fuel : nat) (adjacency : Adjacency) (remaining : Degrees)
    (queue sorted : list string) : list string * list string :=
  match fuel with
  | O => (sorted, queue)
  | S f =>
      match queue with
      | [] => (sorted, [])
      | current :: queue =>
          let '(remaining, queue) :=
            fold_left relax (default [] (adjacency !! current)) (remaining, queue) in
          kahn f adjacency remaining queue (sorted ++ [current])
      end
  end.

Definition seeds (nodes : list DagNode) (remaining : Degrees) : list string :=
  filter (fun id => default 0 (remaining !! id) = 0) (ID <$> nodes).

(** The checks for a start node, an end node and condition lengths, then the sort. *)
Definition sort_phase (dag : TaskDag) (nodeIDs : gset string) (adjacency : Adjacency)
    (inDegree : Degrees) : result DagValidationResult DagValidationResult :=
  if negb (existsb (fun '(_, d) => d =? 0) (map_to_list inDegree)) then
    Err (dagFailure ErrTaskDagInvalid
           "DAG must have at least one start node (no incoming edges).")
  else if negb (existsb (fun '(_, l) => bool_decide (l = [])) (map_to_list adjacency)) then
    Err (dagFailure ErrTaskDagInvalid
           "DAG must have at least one end node (no outgoing edges).")
  else
    let? _ := check_conditions (Nodes dag) in
    let '(sorted, _) :=
      kahn (length (Nodes dag)) adjacency inDegree (seeds (Nodes dag) inDegree) [] in
    if negb (length sorted =? size nodeIDs)%nat then
      Err (dagFailure ErrTaskDagCycle "DAG contains a cycle.")
    else Ok (dagSuccess sorted).

Definition ValidateDag (dag : option TaskDag) : DagValidationResult :=
  match dag with
  | None => dagFailure ErrTaskDagInvalid "DAG must contain at least one node."
  | Some dag =>
      let n := Z.of_nat (length (Nodes dag)) in
      if n =? 0 then dagFailure ErrTaskDagInvalid "DAG must contain at least one node."
      else if n >? MaxDagNodes then
        dagFailure ErrTaskDagTooLarge ("DAG contains " +:+ fmt_d n +:+
          " nodes, exceeding the maximum of " +:+ fmt_d MaxDagNodes +:+ ".")
      else
        let run :=
          let? nodeIDs := collect_ids (Nodes dag) ∅ in
          let? (adjacency, inDegree) :=
            add_edges nodeIDs (Edges dag) (gset_to_gmap [] nodeIDs) (gset_to_gmap 0 nodeIDs) in
          let? _ := check_inputs nodeIDs (Nodes dag) in
          sort_phase dag nodeIDs adjacency inDegree in
        match run with Ok r => r | Err r => r end
  end.

(** ** Graphs *)

Definition node_ids (dag : TaskDag) : list string := ID <$> Nodes dag.
Definition edge_rel (es : list DagEdge) (x y : string) : Prop := MkDagEdge x y ∈ es.

(** The targets of the edges leaving [x], in source order. *)
Definition succs (es : list DagEdge) (x : string) : list string :=
  To <$> filter (fun e => From e = x) es.

(** The number of occurrences of [x]. *)
Definition occurs (x : string) (l : list string) : nat := length (filter (eq x) l).

(** The number of edges into [x] from outside [done]. *)
Definition pending (es : list DagEdge) (done : list string) (x : string) : nat :=
  length (filter (fun e => To e = x /\ From e ∉ done) es).

Definition acyclic (es : list DagEdge) : Prop := forall x, ~ tc (edge_rel es) x x.

(** [order] puts the source of every edge before its target. *)
Definition respects (es : list DagEdge) (order : list string) : Prop :=
  forall pre v post, order = pre ++ v :: post -> forall u, edge_rel es u v -> u ∈ pre.

(** ** Lemmas: counting *)

Lemma occurs_cons x y l : occurs x (y :: l) = ((if decide (x = y) then 1 else 0) + occurs x l)%nat.
Proof. unfold occurs. rewrite filter_cons. case_decide; simpl; done. Qed.

Lemma occurs_pos x l : (0 < occurs x l)%nat <-> x ∈ l.
Proof.
  induction l as [|y l IH]; [unfold occurs; simpl; set_solver by lia|].
  rewrite occurs_cons, elem_of_cons. case_decide; naive_solver lia.
Qed.

Lemma pending_snoc es done c x :
  c ∉ done -> pending es done x = (pending es (done ++ [c]) x + occurs x (succs es c))%nat.
Proof.
  intros Hc. unfold pending, succs.
  induction es as [|[u v] es IH]; [done|]. rewrite !filter_cons. cbn [From To].
  destruct (decide (u = c)) as [->|Hu].
  - rewrite (decide_False (P := v = x /\ c ∉ done ++ [c])) by set_solver.
    csimpl. rewrite occurs_cons. destruct (decide (v = x)) as [->|Hv].
    + rewrite !decide_True by done. simpl. lia.
    + rewrite (decide_False (P := v = x /\ c ∉ done)), (decide_False (P := x = v)) by naive_solver. lia.
  - assert ((v = x /\ u ∉ done) <-> (v = x /\ u ∉ done ++ [c])) as Hiff by set_solver.
    rewrite (decide_ext _ _ _ _ Hiff). case_decide; simpl; lia.
Qed.

Lemma pending_zero es done x :
  pending es done x = 0%nat <-> forall u, edge_rel es u x -> u ∈ done.
Proof.
  unfold pending, edge_rel. rewrite length_zero_iff_nil. split.
  - intros Hf u Hu. destruct (decide (u ∈ done)) as [|Hn]; [done|exfalso].
    assert (MkDagEdge u x ∈ filter (fun e => To e = x /\ From e ∉ done) es) as Hin
      by (by apply list_elem_of_filter). rewrite Hf in Hin. set_solver.
  - intros Hall. destruct (filter _ es) as [|[u v] l] eqn:E; [done|exfalso].
    assert (MkDagEdge u v ∈ filter (fun e => To e = x /\ From e ∉ done) es) as Hin
      by (rewrite E; set_solver). apply list_elem_of_filter in Hin as [[Hv Hu] Hin].
    simpl in *. subst. by apply Hu, Hall.
Qed.

(** ** Lemmas: one round of the queue *)

Abbreviation deg m x := (default 0 (m !! x)).

Lemma relax_fold l rem q :
  (forall x, Z.of_nat (occurs x l) <= deg rem x) ->
  let '(rem', q') := fold_left relax l (rem, q) in
  (forall x, deg rem' x = deg rem x - Z.of_nat (occurs x l)) /\
  exists new, q' = q ++ new /\ NoDup new /\ forall x, x ∈ new <-> x ∈ l /\ deg rem' x = 0.
Proof.
  revert rem q; induction l as [|y l IH]; intros rem q Hle.
  { cbn. split; [intros; unfold occurs; simpl; lia|].
    exists []. rewrite app_nil_r. split_and!; [done|constructor|set_solver]. }
  cbn [fold_left]. unfold relax at 2.
  set (rem1 := <[y := deg rem y - 1]> rem).
  assert (Hd : forall x, deg rem1 x = deg rem x - (if decide (x = y) then 1 else 0)).
  { intros x. subst rem1. destruct (decide (x = y)) as [->|Hne].
    - by rewrite lookup_insert_eq.
    - rewrite lookup_insert_ne by done. lia. }
  assert (Hle1 : forall x, Z.of_nat (occurs x l) <= deg rem1 x).
  { intros x. specialize (Hle x). rewrite occurs_cons in Hle. rewrite Hd. case_decide; lia. }
  assert (Hdy : deg rem1 y = deg rem y - 1) by (rewrite Hd, decide_True by done; lia).
  rewrite <- Hdy. specialize (IH rem1 (if deg rem1 y =? 0 then q ++ [y] else q) Hle1).
  destruct (fold_left relax l _) as [rem' q']. destruct IH as (Hr & new & -> & Hnd & Hnew).
  split. { intros x. rewrite Hr, Hd, occurs_cons. case_decide; lia. }
  destruct (deg rem1 y =? 0) eqn:E; bool_hyps.
  - assert (Hny : y ∉ l) by (rewrite <- occurs_pos; specialize (Hle1 y); lia).
    exists (y :: new). rewrite <- app_assoc. split_and!; [done|constructor; [set_solver|done]|].
    intros x. rewrite !elem_of_cons, Hnew. split; [|naive_solver].
    intros [->|?]; [|naive_solver]. split; [by left|].
    rewrite Hr. assert (occurs y l = 0%nat) as -> by (rewrite <- occurs_pos in Hny; lia). lia.
  - exists new. split_and!; [done|done|]. intros x. rewrite elem_of_cons, Hnew. split; [naive_solver|].
    intros [[->|Hx] H0]; [|done]. split; [|done]. apply occurs_pos. rewrite Hr in H0. lia.
Qed.

(** ** The invariant of the queue *)

Section Kahn.
Context (es : list DagEdge) (ids : list string) (adjacency : Adjacency).
Hypothesis Hadj : forall x, default [] (adjacency !! x) = succs es x.
Hypothesis Hto : forall e, e ∈ es -> To e ∈ ids.
Hypothesis Hfrom : forall e, e ∈ es -> From e ∈ ids.

Record kahn_inv (remaining : Degrees) (queue sorted : list string) : Prop := {
  ki_nodup : NoDup (sorted ++ queue);
  ki_ids : forall x, x ∈ sorted ++ queue -> x ∈ ids;
  ki_rem : forall x, deg remaining x = Z.of_nat (pending es sorted x);
  ki_zero : forall x, x ∈ ids -> x ∈ sorted ++ queue <-> pending es sorted x = 0%nat;
  ki_resp : respects es sorted
}.

Lemma respects_snoc sorted c :
  respects es sorted -> (forall u, edge_rel es u c -> u ∈ sorted) -> respects es (sorted ++ [c]).
Proof using.
  intros Hs Hc pre v post E u Hu. destruct post as [|w post] using rev_ind.
  - apply app_inj_tail in E as [-> ->]. by apply Hc.
  - change (v :: post ++ [w]) with ((v :: post) ++ [w]) in E. rewrite app_assoc in E.
    apply app_inj_tail in E as [-> _]. by eapply Hs.
Qed.

Lemma succs_edge x c : x ∈ succs es c <-> edge_rel es c x.
Proof using.
  unfold succs, edge_rel. rewrite list_elem_of_fmap. split.
  - intros ([u v] & -> & [Hf He]%list_elem_of_filter). simpl in *. by subst.
  - intros He. exists (MkDagEdge c x). split; [done|]. by apply list_elem_of_filter.
Qed.

(** One round, with the successors in any order. *)
Lemma kahn_round remaining c l queue sorted rem' q' :
  kahn_inv remaining (c :: queue) sorted -> l ≡ₚ succs es c ->
  fold_left relax l (remaining, queue) = (rem', q') ->
  kahn_inv rem' q' (sorted ++ [c]).
Proof using Hto.
  clear Hadj Hfrom. intros [Hnd Hids Hrem Hz Hr] Hl Hf.
  assert (Hocc : forall x, occurs x l = occurs x (succs es c)) by (intros x; unfold occurs; by rewrite Hl).
  assert (Hcs : c ∉ sorted) by (apply NoDup_app in Hnd as (_ & Hd & _); set_solver).
  assert (Hps := fun x => pending_snoc es sorted c x Hcs).
  pose proof (relax_fold l remaining queue) as H. rewrite Hf in H.
  destruct H as (Hd & new & -> & Hnn & Hnew).
  { intros x. rewrite Hrem, Hps, Hocc. lia. }
  assert (Hrem' : forall x, deg rem' x = Z.of_nat (pending es (sorted ++ [c]) x)).
  { intros x. rewrite Hd, Hrem, Hps, Hocc. lia. }
  assert (Hnew' : forall x, x ∈ new <-> x ∈ succs es c /\ pending es (sorted ++ [c]) x = 0%nat).
  { intros x. rewrite Hnew, Hrem', Hl. split; (intros [? ?]; split; [done|lia]). }
  assert (Hfresh : forall x, x ∈ new -> x ∈ ids /\ x ∉ sorted ++ c :: queue).
  { intros x [Hx _]%Hnew'. assert (x ∈ ids) as Hi.
    { apply succs_edge in Hx. by apply Hto in Hx. }
    split; [done|]. rewrite (Hz x Hi), Hps. apply occurs_pos in Hx. lia. }
  assert (Hsplit : (sorted ++ [c]) ++ queue ++ new ≡ₚ (sorted ++ c :: queue) ++ new)
    by (by rewrite <- !app_assoc).
  split.
  - rewrite Hsplit. apply NoDup_app. split_and!; [done| |done].
    intros x Hx Hn. by apply Hfresh in Hn as [_ Hn].
  - intros x. rewrite Hsplit, elem_of_app. intros [Hx|Hx]; [by apply Hids|by apply Hfresh].
  - done.
  - intros x Hi. rewrite Hsplit, elem_of_app, (Hz x Hi), Hnew', Hps.
    assert (occurs x (succs es c) = 0%nat \/ x ∈ succs es c) as [H0|H1]
      by (rewrite <- occurs_pos; lia); [lia|].
    split; [lia|]. intros E. by right.
  - apply respects_snoc; [done|]. apply pending_zero. apply Hz; [|set_solver]. apply Hids. set_solver.
Qed.

Lemma kahn_step remaining c queue sorted rem' q' :
  kahn_inv remaining (c :: queue) sorted ->
  fold_left relax (default [] (adjacency !! c)) (remaining, queue) = (rem', q') ->
  kahn_inv rem' q' (sorted ++ [c]).
Proof using Hadj Hto. intros Hi. apply kahn_round; [done|by rewrite Hadj]. Qed.

Lemma kahn_inv_perm remaining queue queue' sorted : queue ≡ₚ queue' -> kahn_inv remaining queue sorted -> kahn_inv remaining queue' sorted.
Proof using. intros Hp [H1 H2 H3 H4 H5]. split; try done; [by rewrite <- Hp|intros x; rewrite <- Hp; apply H2|intros x; rewrite <- Hp; apply H4]. Qed.

(** The fuel is enough: one unit per node drains the queue. *)
Lemma kahn_drains fuel remaining queue sorted :
  kahn_inv remaining queue sorted -> (length ids <= fuel + length sorted)%nat ->
  exists rem' sorted', kahn fuel adjacency remaining queue sorted = (sorted', []) /\
    kahn_inv rem' [] sorted'.
Proof using Hadj Hto Hfrom.
  revert remaining queue sorted; induction fuel as [|f IH]; intros remaining queue sorted Hi Hl.
  - assert (queue = []) as ->; [|by eauto].
    assert (length (sorted ++ queue) <= length ids)%nat as Hle.
    { apply submseteq_length, NoDup_submseteq; [apply Hi|]. intros x. apply (ki_ids _ _ _ Hi). }
    rewrite length_app in Hle. destruct queue; simpl in *; [done|lia].
  - cbn [kahn]. destruct queue as [|c queue]; [by eauto|].
    destruct (fold_left relax _ _) as [rem' q'] eqn:E.
    apply (IH rem' q' (sorted ++ [c])); [by eapply kahn_step|]. rewrite length_app; simpl; lia.
Qed.

(** ** Acyclicity *)

Lemma respects_acyclic order :
  NoDup order -> respects es order -> (forall x, x ∈ ids -> x ∈ order) -> acyclic es.
Proof using Hfrom.
  clear adjacency Hadj Hto. intros Hnd Hr Hall.
  assert (Hlt : forall x y, tc (edge_rel es) x y ->
            forall pre post, order = pre ++ y :: post -> x ∈ pre).
  { induction 1 as [x y Hxy|x y z Hxy Hyz IH]; intros pre post E.
    - by eapply Hr.
    - apply IH in E as Hy. apply list_elem_of_split in Hy as (p1 & p2 & ->).
      apply elem_of_app. left. eapply Hr; [|done]. rewrite E, <- app_assoc. done. }
  intros x Hx. assert (x ∈ ids) as Hi.
  { inversion Hx as [? ? He|? ? ? He _]; subst; by apply Hfrom in He. }
  apply Hall, list_elem_of_split in Hi as (pre & post & E).
  specialize (Hlt x x Hx pre post E). rewrite E in Hnd.
  apply NoDup_app in Hnd as (_ & Hd & _). eapply Hd; [done|set_solver].
Qed.

(** Going backwards along the edges of a finite acyclic graph ends. *)
Lemma acyclic_sn x : acyclic es -> sn (flip (edge_rel es)) x.
Proof using Hfrom.
  clear adjacency Hadj Hto. intros Hac. apply tc_finite_sn.
  - intros y Hy. apply (Hac y). clear -Hy.
    assert (forall a b, tc (flip (edge_rel es)) a b -> tc (edge_rel es) b a) as H; [|by apply H].
    induction 1 as [a b Hab|a b c Hab _ IH]; [by apply tc_once|].
    eapply tc_transitive; [apply IH|by apply tc_once].
  - exists ids. intros y Hy. clear Hac.
    assert (forall a b, tc (flip (edge_rel es)) a b -> b ∈ ids) as H; [|by eapply H].
    induction 1 as [a b Hab|]; [by apply Hfrom in Hab|done].
Qed.

(** With an empty queue, an acyclic graph has been sorted whole. *)
Lemma drained_all rem sorted :
  kahn_inv rem [] sorted -> acyclic es -> forall x, x ∈ ids -> x ∈ sorted.
Proof using Hfrom.
  clear adjacency Hadj Hto. intros Hi Hac x Hx.
  pose proof (acyclic_sn x Hac) as Hsn.
  induction Hsn as [x _ IH]. rewrite <- (app_nil_r sorted), (ki_zero _ _ _ Hi x Hx).
  apply pending_zero. intros u Hu. apply IH; [done|by apply Hfrom in Hu].
Qed.

End Kahn.

(** ** Lemmas: the checking loops *)

(** A failure result with the given code. *)
Definition fails_with (code : string) (r : DagValidationResult) : Prop :=
  IsValid r = false /\ ErrorCode r = code /\ TopologicalOrder r = [].

Lemma dagFailure_fails code msg : fails_with code (dagFailure code msg).
Proof. done. Qed.
#[local] Hint Resolve dagFailure_fails : nps.

Lemma collect_ids_spec nodes seen :
  match collect_ids nodes seen with
  | Ok s => NoDup (ID <$> nodes) /\ (forall x, x ∈ ID <$> nodes -> x ∉ seen) /\
            s = list_to_set (ID <$> nodes) ∪ seen
  | Err r => fails_with ErrTaskDagInvalid r /\
             ~ (NoDup (ID <$> nodes) /\ forall x, x ∈ ID <$> nodes -> x ∉ seen)
  end.
Proof.
  revert seen; induction nodes as [|n nodes IH]; intros seen; csimpl.
  { split_and!; [constructor|set_solver|set_solver]. }
  case_bool_decide as Hn.
  { split; [done|]. intros [_ H]. by apply (H (ID n)); [left|]. }
  specialize (IH ({[ID n]} ∪ seen)). destruct (collect_ids _ _) as [s|r].
  - destruct IH as (Hnd & Hs & ->). split_and!; [|set_solver|set_solver].
    constructor; [|done]. intros Hin. apply (Hs _ Hin). set_solver.
  - destruct IH as [Hr IH]. split; [done|]. intros [Hnd Hs].
    apply NoDup_cons in Hnd as [? ?]. apply IH. split; [done|]. set_solver.
Qed.

Lemma add_edges_spec ids es adj din :
  match add_edges ids es adj din with
  | Ok (a, d) => Forall (fun e => From e ∈ ids /\ To e ∈ ids) es /\
      (forall x, default [] (a !! x) = default [] (adj !! x) ++ succs es x) /\
      (forall x, deg d x = deg din x + Z.of_nat (pending es [] x)) /\
      dom a ⊆ dom adj ∪ ids /\ dom d ⊆ dom din ∪ ids /\ dom adj ⊆ dom a /\ dom din ⊆ dom d
  | Err r => fails_with ErrTaskDagInvalid r /\ ~ Forall (fun e => From e ∈ ids /\ To e ∈ ids) es
  end.
Proof.
  revert adj din; induction es as [|[u v] es IH]; intros adj din; cbn [add_edges From To].
  { split_and!; [constructor|intros; unfold succs; simpl; by rewrite app_nil_r|
      intros; unfold pending; simpl; lia|set_solver..]. }
  case_bool_decide as Hu; simpl; [|split; [done|]; intros [[? _] _]%Forall_cons; done].
  case_bool_decide as Hv; simpl; [|split; [done|]; intros [[_ ?] _]%Forall_cons; done].
  specialize (IH (<[u := default [] (adj !! u) ++ [v]]> adj) (<[v := deg din v + 1]> din)).
  destruct (add_edges _ _ _ _) as [[a d]|r].
  - destruct IH as (Hf & Ha & Hd & H1 & H2 & H3 & H4). rewrite dom_insert_L in *.
    rewrite ?dom_insert_L in *. split_and!; [by constructor| | |set_solver..].
    + intros x. rewrite Ha. unfold succs. rewrite filter_cons. cbn [From].
      destruct (decide (u = x)) as [->|]; csimpl.
      * by rewrite lookup_insert_eq; simpl; rewrite <- app_assoc.
      * by rewrite lookup_insert_ne.
    + intros x. rewrite Hd. unfold pending. rewrite filter_cons. cbn [From To].
      destruct (decide (v = x)) as [->|].
      * rewrite lookup_insert_eq, decide_True by set_solver. simpl. lia.
      * rewrite lookup_insert_ne, decide_False by naive_solver. done.
  - destruct IH as [Hr Hn]. split; [done|]. intros [_ ?]%Forall_cons. done.
Qed.

Lemma check_upstreams_spec ids id ups :
  match check_upstreams ids id ups with
  | Ok _ => Forall (fun u => u ∈ ids) ups
  | Err r => fails_with ErrTaskDagInvalid r /\ ~ Forall (fun u => u ∈ ids) ups
  end.
Proof.
  induction ups as [|u ups IH]; simpl; [constructor|]. case_bool_decide.
  - destruct (check_upstreams ids id ups); [by constructor|]. rewrite Forall_cons. naive_solver.
  - split; [done|]. by intros [? _]%Forall_cons.
Qed.

Lemma check_inputs_spec ids nodes :
  let ok := Forall (fun n => Forall (fun u => u ∈ ids) (InputFrom n)) nodes in
  match check_inputs ids nodes with
  | Ok _ => ok
  | Err r => fails_with ErrTaskDagInvalid r /\ ~ ok
  end.
Proof.
  induction nodes as [|n nodes IH]; simpl; [constructor|].
  pose proof (check_upstreams_spec ids (ID n) (InputFrom n)) as H.
  destruct (check_upstreams _ _ _); [|rewrite Forall_cons; naive_solver].
  destruct (check_inputs ids nodes); [by constructor|]. rewrite Forall_cons. naive_solver.
Qed.

Definition condition_ok (n : DagNode) : Prop := str_len (Condition n) <= MaxConditionLength.

Lemma check_conditions_spec nodes :
  match check_conditions nodes with
  | Ok _ => Forall condition_ok nodes
  | Err r => fails_with ErrConditionEvalError r /\ ~ Forall condition_ok nodes
  end.
Proof.
  induction nodes as [|n nodes IH]; simpl; [constructor|].
  destruct (_ >? _) eqn:E; bool_hyps.
  - split; [done|]. intros [Hn _]%Forall_cons. unfold condition_ok in Hn. lia.
  - destruct (check_conditions nodes); [|rewrite Forall_cons; naive_solver].
    constructor; [unfold condition_ok; lia|done].
Qed.

Lemma exists_value {A} (P : A -> bool) (m : gmap string A) :
  existsb (fun '(_, a) => P a) (map_to_list m) = true <-> exists k a, m !! k = Some a /\ P a = true.
Proof.
  rewrite existsb_exists. split.
  - intros ([k a] & Hin & Hp). exists k, a. split; [|done].
    by apply elem_of_map_to_list, list_elem_of_In.
  - intros (k & a & Hk & Hp). exists (k, a). split; [|done].
    by apply list_elem_of_In, elem_of_map_to_list.
Qed.

(** ** The abstract specification *)

Record dag_wf (dag : TaskDag) : Prop := {
  dw_size : 1 <= Z.of_nat (length (Nodes dag)) <= MaxDagNodes;
  dw_ids : NoDup (node_ids dag);
  dw_edges : Forall (fun e => From e ∈ node_ids dag /\ To e ∈ node_ids dag) (Edges dag);
  dw_inputs : Forall (fun n => Forall (fun u => u ∈ node_ids dag) (InputFrom n)) (Nodes dag);
  dw_conditions : Forall condition_ok (Nodes dag)
}.

(** The first node of a complete order has no incoming edge, the last no outgoing one. *)
Lemma order_start es x order u : respects es (x :: order) -> ~ edge_rel es u x.
Proof. intros Hr Hu. specialize (Hr [] x order eq_refl u Hu). set_solver. Qed.

Lemma order_end es order x v :
  respects es (order ++ [x]) -> NoDup (order ++ [x]) -> v ∈ order ++ [x] -> ~ edge_rel es x v.
Proof.
  intros Hr Hnd Hv He. apply list_elem_of_split in Hv as (pre & post & E).
  specialize (Hr pre v post E x He). destruct post as [|w post] using rev_ind.
  - apply app_inj_tail in E as [-> ->]. apply NoDup_app in Hnd as (_ & Hd & _).
    by apply (Hd v); [|set_solver].
  - change (v :: post ++ [w]) with ((v :: post) ++ [w]) in E. rewrite app_assoc in E.
    apply app_inj_tail in E as [-> ->]. apply NoDup_app in Hnd as (_ & Hd & _).
    apply (Hd w); [set_solver|set_solver].
Qed.

Lemma seeds_inv es nodes din :
  NoDup (ID <$> nodes) -> (forall x, deg din x = Z.of_nat (pending es [] x)) ->
  kahn_inv es (ID <$> nodes) din (seeds nodes din) [].
Proof.
  intros Hnd Hd. unfold seeds. split; cbn [app]; [| |done| |].
  - by apply NoDup_filter.
  - intros x [_ Hx]%list_elem_of_filter. done.
  - intros x Hx. rewrite list_elem_of_filter, Hd. naive_solver lia.
  - intros pre v post E. by destruct pre.
Qed.

(** The sorting half of the validator: what is accepted is a topological order of
    all nodes, and an acyclic graph is accepted. *)
Lemma kahn_complete dag (adj : Adjacency) (din : Degrees) :
  NoDup (node_ids dag) ->
  Forall (fun e => From e ∈ node_ids dag /\ To e ∈ node_ids dag) (Edges dag) ->
  (forall x, default [] (adj !! x) = succs (Edges dag) x) ->
  (forall x, deg din x = Z.of_nat (pending (Edges dag) [] x)) ->
  exists order, kahn (length (Nodes dag)) adj din (seeds (Nodes dag) din) [] = (order, []) /\
    NoDup order /\ respects (Edges dag) order /\
    (length order = length (node_ids dag) <-> acyclic (Edges dag)) /\
    (length order = length (node_ids dag) -> order ≡ₚ node_ids dag).
Proof.
  intros Hnd He Ha Hd. rewrite Forall_forall in He.
  assert (Hto : forall e, e ∈ Edges dag -> To e ∈ node_ids dag) by naive_solver.
  assert (Hfr : forall e, e ∈ Edges dag -> From e ∈ node_ids dag) by naive_solver.
  destruct (kahn_drains (Edges dag) (node_ids dag) adj Ha Hto Hfr (length (Nodes dag)) din
    (seeds (Nodes dag) din) []) as (rem & order & E & Hi).
  { by apply seeds_inv. }
  { unfold node_ids. rewrite length_fmap. lia. }
  exists order. pose proof Hi as [Ho Hids _ _ Hr]. rewrite app_nil_r in *.
  assert (Hperm : length order = length (node_ids dag) -> order ≡ₚ node_ids dag).
  { intros Hl. apply submseteq_length_Permutation; [by apply NoDup_submseteq|lia]. }
  split_and!; try done. split.
  - intros Hl%Hperm. apply (respects_acyclic _ (node_ids dag) Hfr order); [done..|].
    intros x. by rewrite Hl.
  - intros Hac. apply Permutation_length, NoDup_Permutation; [done..|]. intros x. split; [apply Hids|].
    by eapply drained_all.
Qed.

(** The graph is the one thing [ValidateDag] looks at after the simple checks. *)
Lemma acyclic_start_end dag (adj : Adjacency) (din : Degrees) :
  dag_wf dag -> acyclic (Edges dag) ->
  (forall x, default [] (adj !! x) = succs (Edges dag) x) ->
  (forall x, deg din x = Z.of_nat (pending (Edges dag) [] x)) ->
  (forall x, x ∈ node_ids dag -> is_Some (adj !! x) /\ is_Some (din !! x)) ->
  (exists k d, din !! k = Some d /\ (d =? 0) = true) /\
  (exists k l, adj !! k = Some l /\ bool_decide (l = []) = true).
Proof.
  intros [Hsz Hnd He _ _] Hac Ha Hd Hdom.
  destruct (kahn_complete dag adj din Hnd He Ha Hd) as (order & _ & Hno & Hr & Hl & Hperm).
  apply Hl, Hperm in Hac as Hp.
  assert (length order <> 0)%nat as Hne.
  { rewrite Hp. unfold node_ids. rewrite length_fmap. lia. }
  split.
  - destruct order as [|x order]; [done|].
    destruct (Hdom x) as [_ [d Hx]]; [rewrite <- Hp; set_solver|].
    exists x, d. split; [done|]. specialize (Hd x). rewrite Hx in Hd. simpl in Hd.
    assert (pending (Edges dag) [] x = 0%nat) as H0.
    { apply pending_zero. intros u Hu. by apply (order_start _ _ _ u Hr) in Hu. }
    apply Z.eqb_eq. lia.
  - destruct order as [|x order _] using rev_ind; [done|].
    destruct (Hdom x) as [[l Hx] _]; [rewrite <- Hp; set_solver|].
    exists x, l. split; [done|]. apply bool_decide_eq_true. specialize (Ha x). rewrite Hx in Ha.
    simpl in Ha. subst l. destruct (succs (Edges dag) x) as [|v l] eqn:E; [done|exfalso].
    assert (edge_rel (Edges dag) x v) as Hv by (apply succs_edge; rewrite E; set_solver).
    revert Hv. apply order_end with order; [done..|]. rewrite Hp.
    rewrite Forall_forall in He. apply (He (MkDagEdge x v)).
    apply succs_edge. rewrite E. set_solver.
Qed.

(** The outcome [r] of validating [dag], case by case. *)
Definition dag_outcome (dag : TaskDag) (r : DagValidationResult) : Prop :=
  (IsValid r = true /\ dag_wf dag /\ acyclic (Edges dag) /\
     TopologicalOrder r ≡ₚ node_ids dag /\ respects (Edges dag) (TopologicalOrder r)) \/
  (fails_with ErrTaskDagTooLarge r /\ MaxDagNodes < Z.of_nat (length (Nodes dag))) \/
  (fails_with ErrTaskDagInvalid r /\ ~ (dag_wf dag /\ acyclic (Edges dag)) /\
     Z.of_nat (length (Nodes dag)) <= MaxDagNodes) \/
  (fails_with ErrConditionEvalError r /\ ~ Forall condition_ok (Nodes dag) /\
     Z.of_nat (length (Nodes dag)) <= MaxDagNodes) \/
  (fails_with ErrTaskDagCycle r /\ dag_wf dag /\ ~ acyclic (Edges dag)).

Lemma outcome_invalid dag r :
  fails_with ErrTaskDagInvalid r -> ~ (dag_wf dag /\ acyclic (Edges dag)) ->
  Z.of_nat (length (Nodes dag)) <= MaxDagNodes -> dag_outcome dag r.
Proof. intros. right. right. by left. Qed.

(** [sort_phase] on the maps that [add_edges] builds. *)
Lemma sort_phase_outcome dag ids (adj : Adjacency) (din : Degrees) :
  1 <= Z.of_nat (length (Nodes dag)) <= MaxDagNodes -> NoDup (node_ids dag) ->
  ids = list_to_set (node_ids dag) ->
  Forall (fun e => From e ∈ node_ids dag /\ To e ∈ node_ids dag) (Edges dag) ->
  Forall (fun n => Forall (fun u => u ∈ node_ids dag) (InputFrom n)) (Nodes dag) ->
  (forall x, default [] (adj !! x) = succs (Edges dag) x) ->
  (forall x, deg din x = Z.of_nat (pending (Edges dag) [] x)) ->
  (forall x, x ∈ node_ids dag -> is_Some (adj !! x) /\ is_Some (din !! x)) ->
  dag_outcome dag (match sort_phase dag ids adj din with Ok r => r | Err r => r end).
Proof.
  intros Hsz Hnd -> He Hin Ha Hd Hdom. unfold sort_phase.
  assert (Hse := fun Hw Hac => acyclic_start_end dag adj din Hw Hac Ha Hd Hdom).
  destruct (existsb _ (map_to_list din)) eqn:Es; cycle 1; simpl.
  { apply outcome_invalid; [done| |lia]. intros [Hw Hac].
    destruct (Hse Hw Hac) as [H _]. apply exists_value in H. congruence. }
  destruct (existsb _ (map_to_list adj)) eqn:Ee; cycle 1; simpl.
  { apply outcome_invalid; [done| |lia]. intros [Hw Hac]. destruct (Hse Hw Hac) as [_ H].
    apply (exists_value (fun l => bool_decide (l = []))) in H. congruence. }
  pose proof (check_conditions_spec (Nodes dag)) as Hc.
  destruct (check_conditions _) as [|r]; [|right; right; right; left; naive_solver lia].
  assert (Hw : dag_wf dag) by done.
  destruct (kahn_complete dag adj din Hnd He Ha Hd) as (order & -> & Hno & Hr & Hl & Hperm).
  rewrite size_list_to_set by done.
  destruct (Nat.eqb_spec (length order) (length (node_ids dag))) as [E|E]; simpl.
  - left. split_and!; [done|done|by apply Hl|by apply Hperm|done].
  - right. right. right. right. split_and!; [done|done|]. by rewrite <- Hl.
Qed.

Lemma validate_outcome dag : dag_outcome dag (ValidateDag (Some dag)).
Proof.
  cbn [ValidateDag]. destruct (_ =? 0) eqn:E0; bool_hyps.
  { apply outcome_invalid; [done| |unfold MaxDagNodes; lia]. intros [[H _ _ _ _] _]. lia. }
  destruct (_ >? _) eqn:E1; bool_hyps; [right; left; by split|].
  pose proof (collect_ids_spec (Nodes dag) ∅) as Hc.
  destruct (collect_ids _ _) as [ids|r]; cycle 1.
  { destruct Hc as [Hr Hn]. apply outcome_invalid; [done| |done].
    intros [[_ H _ _ _] _]. apply Hn. split; [done|set_solver]. }
  destruct Hc as (Hnd & _ & Hids). rewrite union_empty_r_L in Hids. fold (node_ids dag) in *.
  pose proof (add_edges_spec ids (Edges dag) (gset_to_gmap [] ids) (gset_to_gmap 0 ids)) as He.
  assert (Hin : forall x, x ∈ ids <-> x ∈ node_ids dag) by (subst; set_solver).
  assert (He' : Forall (fun e => From e ∈ ids /\ To e ∈ ids) (Edges dag) <->
                Forall (fun e => From e ∈ node_ids dag /\ To e ∈ node_ids dag) (Edges dag)).
  { apply Forall_iff. intros e. by rewrite !Hin. }
  destruct (add_edges _ _ _ _) as [[adj din]|r]; cycle 1.
  { destruct He as [Hr Hn]. apply outcome_invalid; [done| |done].
    intros [[_ _ H _ _] _]. by apply Hn, He'. }
  destruct He as (He%He' & Ha & Hd & _ & _ & Hd3 & Hd4). rewrite !dom_gset_to_gmap in *.
  pose proof (check_inputs_spec ids (Nodes dag)) as Hi. cbn zeta in Hi.
  assert (Hi' : Forall (fun n => Forall (fun u => u ∈ ids) (InputFrom n)) (Nodes dag) <->
                Forall (fun n => Forall (fun u => u ∈ node_ids dag) (InputFrom n)) (Nodes dag))
    by (apply Forall_iff; intros n; by apply Forall_iff).
  destruct (check_inputs _ _) as [|r]; rewrite Hi' in Hi; cycle 1.
  { destruct Hi as [Hr Hn]. apply outcome_invalid; [done|by intros [[] _]|done]. }
  apply sort_phase_outcome; try done; [lia|..].
  - intros x. rewrite Ha, lookup_gset_to_gmap. by destruct (decide (x ∈ ids)); simplify_option_eq.
  - intros x. rewrite Hd, lookup_gset_to_gmap. by destruct (decide (x ∈ ids)); simplify_option_eq.
  - intros x Hx%Hin. rewrite <- !elem_of_dom. set_solver.
Qed.

Lemma valid_acyclic dag : IsValid (ValidateDag (Some dag)) = true -> acyclic (Edges dag).
Proof.
  intros Hv. by destruct (validate_outcome dag)
    as [(_&_&?&_)|[[(?&_) ?]|[[(?&_) ?]|[[(?&_) ?]|[(?&_) ?]]]]]; try congruence.
Qed.

Lemma valid_nodup dag : IsValid (ValidateDag (Some dag)) = true -> NoDup (node_ids dag).
Proof.
  intros Hv. destruct (validate_outcome dag)
    as [(_&[]&_)|[[(?&_) ?]|[[(?&_) ?]|[[(?&_) ?]|[(?&_) ?]]]]]; [done|congruence..].
Qed.

(** ** Properties *)

(** C5. [ValidateDag] decides well-formed acyclic graphs: it accepts a DAG
    exactly when it has 1 to 32 uniquely named nodes, every edge and input_from
    reference names one of them, no condition is too long and the edge relation
    has no cycle. *)
Theorem validate_dag_iff dag :
  IsValid (ValidateDag (Some dag)) = true <-> dag_wf dag /\ acyclic (Edges dag).
Proof.
  destruct (validate_outcome dag) as [(?&?&?&_)|[[(?&_) ?]|[[(?&_) ?]|[[(?&_) ?]|[(?&_) [? ?]]]]]].
  - done.
  - split; [congruence|]. intros [[] _]. lia.
  - split; [congruence|]. naive_solver.
  - split; [congruence|]. intros [[] _]. naive_solver.
  - split; [congruence|]. naive_solver.
Qed.

(** C6. The order returned for a valid DAG is a topological order: a permutation
    of the node ids in which the source of every edge precedes its target. *)
Theorem validate_dag_order dag :
  IsValid (ValidateDag (Some dag)) = true ->
  let order := TopologicalOrder (ValidateDag (Some dag)) in
  order ≡ₚ node_ids dag /\ NoDup order /\
  (forall e, e ∈ Edges dag -> exists pre mid post,
     order = pre ++ From e :: mid ++ To e :: post).
Proof.
  intros Hv; cbv zeta. destruct (validate_outcome dag)
    as [(_&Hw&_&Hp&Hr)|[[(?&_) ?]|[[(?&_) ?]|[[(?&_) ?]|[(?&_) ?]]]]]; try congruence.
  split_and!; [done|rewrite Hp; apply Hw|]. intros [u v] He. cbn [From To].
  assert (v ∈ TopologicalOrder (ValidateDag (Some dag))) as Hin.
  { rewrite Hp. pose proof (dw_edges _ Hw) as H. rewrite Forall_forall in H. by apply (H _ He). }
  apply list_elem_of_split in Hin as (pre & post & E).
  destruct (list_elem_of_split _ _ (Hr _ _ _ E u He)) as (p1 & p2 & Ep).
  exists p1, p2, post. by rewrite E, Ep, <- app_assoc.
Qed.

(** Every rejection has an empty order and one of four codes, and the code
    is right: TOO-LARGE exactly for more than 32 nodes, CYCLE only for
    an otherwise well-formed graph that is not acyclic, CONDITION only for an
    over-long condition. *)
Theorem validate_dag_errors dag :
  let r := ValidateDag (Some dag) in
  IsValid r = false ->
  TopologicalOrder r = [] /\
  ErrorCode r ∈ [ErrTaskDagInvalid; ErrTaskDagTooLarge; ErrConditionEvalError; ErrTaskDagCycle] /\
  (ErrorCode r = ErrTaskDagTooLarge <-> MaxDagNodes < Z.of_nat (length (Nodes dag))) /\
  (ErrorCode r = ErrTaskDagCycle -> dag_wf dag /\ ~ acyclic (Edges dag)) /\
  (ErrorCode r = ErrConditionEvalError -> exists n, n ∈ Nodes dag /\ MaxConditionLength < str_len (Condition n)).
Proof.
  intros r Hv. subst r. destruct (validate_outcome dag) as [(?&_)|Ho]; [congruence|].
  destruct Ho as [[(_&Hc&Ho) Hn]|[[(_&Hc&Ho) [_ Hn]]|[[(_&Hc&Ho) [Hf Hn]]|[(_&Hc&Ho) [Hw Hac]]]]];
    rewrite Hc, Ho; (split_and!; [done|set_solver|..]); try done; try (split; [done|lia]).
  - intros _. apply not_Forall_Exists, Exists_exists in Hf as (n & Hn1 & Hn2);
      [|intros ?; apply Z_le_dec]. exists n. split; [done|]. unfold compose, condition_ok in Hn2. lia.
  - split; [done|]. destruct Hw. lia.
Qed.

(** ** Witnesses *)

Definition plain_node (id : string) (ups : list string) : DagNode :=
  MkDagNode id "nwp://act" "agent" ups [] None None "" 0 "" [].

(** The diamond a -> b, c -> d. *)
Definition diamond : TaskDag :=
  MkTaskDag [plain_node "d" ["b"; "c"]; plain_node "a" []; plain_node "b" ["a"]; plain_node "c" ["a"]]
    [MkDagEdge "a" "b"; MkDagEdge "a" "c"; MkDagEdge "b" "d"; MkDagEdge "c" "d"].

(** s -> a -> b -> a, b -> t: a start and an end node, and a cycle. *)
Definition looped : TaskDag :=
  MkTaskDag [plain_node "s" []; plain_node "a" []; plain_node "b" []; plain_node "t" []]
    [MkDagEdge "s" "a"; MkDagEdge "a" "b"; MkDagEdge "b" "a"; MkDagEdge "b" "t"].

Example diamond_order : TopologicalOrder (ValidateDag (Some diamond)) = ["a"; "b"; "c"; "d"].
Proof. vm_compute. reflexivity. Qed.

Example looped_cycle : ErrorCode (ValidateDag (Some looped)) = ErrTaskDagCycle.
Proof. vm_compute. reflexivity. Qed.

Lemma validate_dag_order_witness :
  let order := TopologicalOrder (ValidateDag (Some diamond)) in
  order ≡ₚ node_ids diamond /\ NoDup order /\
  (forall e, e ∈ Edges diamond -> exists pre mid post,
     order = pre ++ From e :: mid ++ To e :: post).
Proof. apply (validate_dag_order diamond). vm_compute. reflexivity. Defined.

Lemma validate_dag_errors_witness :
  let r := ValidateDag (Some looped) in
  TopologicalOrder r = [] /\
  ErrorCode r ∈ [ErrTaskDagInvalid; ErrTaskDagTooLarge; ErrConditionEvalError; ErrTaskDagCycle] /\
  (ErrorCode r = ErrTaskDagTooLarge <-> MaxDagNodes < Z.of_nat (length (Nodes looped))) /\
  (ErrorCode r = ErrTaskDagCycle -> dag_wf looped /\ ~ acyclic (Edges looped)) /\
  (ErrorCode r = ErrConditionEvalError -> exists n, n ∈ Nodes looped /\ MaxConditionLength < str_len (Condition n)).
Proof. apply (validate_dag_errors looped). vm_compute. reflexivity. Defined.
