(* ===== verification/NopInput.v ===== *)
(** * NOP data flow: input mapping and result aggregation

    nop/input_mapper.go and nop/result_aggregator.go on JSON values.  A context
    (the results of the completed nodes) is a finite map; an input mapping is the
    list of its entries, in the order in which the Go runtime happens to range
    over the map, so that the theorems can state what does not depend on it. *)

From S2P Require Import Prelude GoValue NopModels.

Abbreviation Results := (gmap string json).

(** ** input_mapper.go *)

Record MappingError : Type := MkMappingError { Message : string; MappingErrorCode : string }.

Definition newMappingError (msg : string) : MappingError := MkMappingError msg ErrInputMappingError.

(** [json.Marshal] of a context. *)
Definition marshal_results (m : Results) : json := marshal_map (Some <$> m).

(** The navigation loop: [None] is Go's nil raw message. *)
Fixpoint navigate (current : json) (parts : list string) : option json :=
  match parts with
  | [] => Some current
  | p :: r =>
      match unmarshal_map current with
      | None => None
      | Some obj => match obj !! p with None => None | Some next => navigate next r end
      end
  end.

Definition path_parts (path : string) : list string :=
  filter (fun p => p <> "") (split_on dot path).

Definition ResolvePath (path : string) (context : Results) : result MappingError RawMessage :=
  if String.eqb (trim_space path) "" then
    Err (newMappingError "Input mapping path must not be empty.")
  else if negb (has_prefix "$." path) then
    Err (newMappingError ("Input mapping path must start with '$.' — got: " +:+ path))
  else
    let parts := path_parts path in
    let n := Z.of_nat (length parts) in
    if n >? MaxInputMappingDepth + 1 then
      Err (newMappingError ("Input mapping path depth " +:+ fmt_d (n - 1) +:+
             " exceeds maximum " +:+ fmt_d MaxInputMappingDepth +:+ ": " +:+ path))
    else
      match parts with
      | [_] => Ok (Some (marshal_results context))
      | _ :: nodeID :: rest =>
          match context !! nodeID with
          | None => Ok None
          | Some nodeResult => Ok (navigate nodeResult rest)
          end
      | [] => Ok None        (* unreachable: the path starts with a dollar sign *)
      end.

Definition jsonOrNull (raw : RawMessage) : json := default JNull raw.

(** The elements of an array entry: paths are resolved, other values kept. *)
Fixpoint build_array (arr : list json) (context : Results) : result MappingError (list json) :=
  match arr with
  | [] => Ok []
  | p :: r =>
      let? v := match unmarshal_string p with
                | Some ps => let? resolved := ResolvePath ps context in Ok (jsonOrNull resolved)
                | None => Ok p
                end in
      let? l := build_array r context in
      Ok (v :: l)
  end.

(** One entry of the mapping: a path, an array or a literal. *)
Definition build_param (pathElement : json) (context : Results) : result MappingError json :=
  match unmarshal_string pathElement with
  | Some s => let? resolved := ResolvePath s context in Ok (jsonOrNull resolved)
  | None =>
      match unmarshal_slice pathElement with
      | Some arr => let? l := build_array arr context in Ok (JArr l)
      | None => Ok pathElement
      end
  end.

Fixpoint build_entries (mapping : list (string * json)) (context result : Results) :
    Prelude.result MappingError Results :=
  match mapping with
  | [] => Ok result
  | (paramName, pathElement) :: r =>
      let? v := build_param pathElement context in
      build_entries r context (<[paramName := v]> result)
  end.

Definition BuildParams (inputMapping : list (string * json)) (context : Results) :
    result MappingError json :=
  match inputMapping with
  | [] => Ok (JObj [])
  | _ => let? r := build_entries inputMapping context ∅ in Ok (marshal_results r)
  end.

(** ** result_aggregator.go *)

Definition buildArray (results : list json) : json := JArr results.

Fixpoint merge_from (i : Z) (results : list json) (merged : Results) : Results :=
  match results with
  | [] => merged
  | r :: rest =>
      let merged := match unmarshal_map r with
                    | Some obj => obj ∪ merged
                    | None => <["_result_" +:+ fmt_d i := r]> merged
                    end in
      merge_from (i + 1) rest merged
  end.

Definition mergeResults (results : list json) : json := marshal_results (merge_from 0 results ∅).

Definition Aggregate (strategy : string) (results : list json) (minRequired : Z) : json :=
  match results with
  | [] => JObj []
  | r0 :: _ =>
      if String.eqb strategy AggregateStrategyFirst then r0
      else if String.eqb strategy AggregateStrategyAll then buildArray results
      else if String.eqb strategy AggregateStrategyFastestK then
        let n := Z.of_nat (length results) in
        let k := if (minRequired <=? 0) || (minRequired >? n) then n else minRequired in
        buildArray (take (Z.to_nat k) results)
      else mergeResults results
  end.

Definition AggregateEndNodes (endNodeIDs : list string) (allResults : Results) (strategy : string) : json :=
  Aggregate strategy (omap (fun id => allResults !! id) endNodeIDs) 0.

(** ** Lemmas *)

(** Reading a member of an object value, the last of its name. *)
Definition member (k : string) (j : json) : option json := unmarshal_map j ≫= lookup k.

Lemma foldl_insert_lookup {A} (l : list (string * A)) (m : gmap string A) k :
  NoDup l.*1 ->
  foldl (fun acc '(k, v) => <[k := v]> acc) m l !! k =
    match assoc_get k l with Some v => Some v | None => m !! k end.
Proof.
  revert m; induction l as [|[k' v] l IH]; intros m Hnd; [done|]. csimpl.
  apply NoDup_cons in Hnd as [Hk Hnd]. cbn [foldl]. rewrite IH by done.
  destruct (String.eqb_spec k' k) as [->|Hne].
  - by rewrite assoc_get_None, lookup_insert_eq.
  - by rewrite lookup_insert_ne.
Qed.

Lemma assoc_get_fmap {A} (f : string -> A) l k :
  assoc_get k ((fun x => (x, f x)) <$> l) = if decide (k ∈ l) then Some (f k) else None.
Proof.
  induction l as [|x l IH]; [done|]. csimpl. destruct (String.eqb_spec x k) as [->|Hne].
  - rewrite decide_True by set_solver. done.
  - rewrite IH. apply decide_ext. set_solver.
Qed.

(** Reading back the object that [json.Marshal] writes for a map. *)
Lemma member_marshal m k : member k (marshal_results m) = m !! k.
Proof.
  unfold member, marshal_results, marshal_map. simpl. unfold mbind, option_bind.
  assert (Hks : forall x, x ∈ sort_strings (map_keys (Some <$> m)) <-> is_Some (m !! x)).
  { intros x. rewrite sort_strings_perm. unfold map_keys. rewrite list_elem_of_fmap. split.
    - intros ([y a] & -> & Hy%elem_of_map_to_list). rewrite lookup_fmap in Hy.
      apply fmap_Some in Hy as (z & Hz & _). by exists z.
    - intros [a Ha]. exists (x, Some a). split; [done|].
      apply elem_of_map_to_list. by rewrite lookup_fmap, Ha. }
  rewrite foldl_insert_lookup.
  - rewrite assoc_get_fmap, lookup_empty. case_decide as Hin.
    + apply Hks in Hin as [a Ha]. by rewrite lookup_fmap, Ha.
    + rewrite Hks in Hin. by apply eq_None_not_Some in Hin as ->.
  - rewrite <- list_fmap_compose. unfold compose. simpl. rewrite list_fmap_id.
    rewrite sort_strings_perm. apply NoDup_fst_map_to_list.
Qed.

(** A character that is in no space encoding survives [strings.TrimSpace]. *)
Lemma contains_app c a b :
  str_contains_char c (a +:+ b) = str_contains_char c a || str_contains_char c b.
Proof.
  induction a as [|x a IH]; [done|].
  change (String x a +:+ b) with (String x (a +:+ b)). simpl. by rewrite IH, orb_assoc.
Qed.

Lemma strip_fuel_contains n encs c s :
  Forall (fun e => str_contains_char c e = false) encs ->
  str_contains_char c s = true -> str_contains_char c (strip_fuel n encs s) = true.
Proof.
  intros Hf. revert s; induction n as [|n IH]; intros s Hs; [done|]. cbn [strip_fuel].
  destruct (strip_one encs s) as [r|] eqn:E; [|done]. apply IH. unfold strip_one in E.
  clear IH. induction Hf as [|e encs He _ IHf]; simpl in E; [done|].
  destruct (cut_prefix e s) as [r'|] eqn:Ec; [|by apply IHf].
  simplify_eq. apply cut_prefix_Some in Ec. subst s. rewrite contains_app, He in Hs. done.
Qed.

Lemma contains_rev c s : str_contains_char c (String.rev s) = str_contains_char c s.
Proof.
  unfold String.rev. assert (forall s t, str_contains_char c (String.rev_app s t) =
    str_contains_char c s || str_contains_char c t) as H; [|rewrite H; apply orb_false_r].
  clear s. induction s as [|a s IH]; intros t; [done|]. simpl. rewrite IH. simpl.
  by rewrite orb_assoc, (orb_comm (str_contains_char c s)).
Qed.

Lemma trim_space_dollar s : trim_space (String (chr 36) s) <> "".
Proof.
  intros E. assert (str_contains_char (chr 36) (trim_space (String (chr 36) s)) = true) as H;
    [|by rewrite E in H]. clear E. unfold trim_space, trim_right, trim_left.
  rewrite contains_rev. apply strip_fuel_contains; [by vm_compute; repeat constructor|].
  rewrite contains_rev. apply strip_fuel_contains; [by vm_compute; repeat constructor|done].
Qed.

(** ** Reference semantics of a path *)

(** Follow member names from a value. *)
Definition walk (j : json) (names : list string) : option json :=
  foldl (fun acc p => acc ≫= member p) (Some j) names.

Definition path_of (names : list string) : string := "$." +:+ join "." names.
Definition plain_name (p : string) : Prop := p <> "" /\ str_contains_char dot p = false.

Lemma navigate_walk j names : navigate j names = walk j names.
Proof.
  unfold walk. revert j; induction names as [|p names IH]; intros j; [done|]. cbn [navigate foldl].
  assert (Hn : forall l, foldl (fun acc p => acc ≫= member p) None l = None)
    by (by induction l as [|? l IHl]).
  unfold member at 2. simpl. destruct (unmarshal_map j) as [obj|]; simpl; [|by rewrite Hn].
  destruct (obj !! p); [apply IH|by rewrite Hn].
Qed.

Lemma path_parts_of names :
  names <> [] -> Forall plain_name names -> path_parts (path_of names) = "$" :: names.
Proof.
  intros Hne Hf. unfold path_parts.
  assert (path_of names = join "." ("$" :: names)) as -> by (by destruct names).
  change "."%string with (String dot ""). rewrite split_on_join; [|done|].
  - rewrite filter_cons_True by done. f_equal. clear Hne.
    induction Hf as [|p names [Hp _] _ IH]; [done|]. by rewrite filter_cons_True, IH.
  - constructor; [done|]. eapply Forall_impl; [done|]. by intros p [_ ?].
Qed.

(** ** Lemmas: parameters *)

Lemma build_entries_spec mapping context acc :
  NoDup mapping.*1 ->
  match build_entries mapping context acc with
  | Ok r => forall k, match assoc_get k mapping with
                      | Some e => exists v, build_param e context = Ok v /\ r !! k = Some v
                      | None => r !! k = acc !! k
                      end
  | Err err => exists k e, assoc_get k mapping = Some e /\ build_param e context = Err err
  end.
Proof.
  revert acc; induction mapping as [|[k0 e0] mapping IH]; intros acc Hnd; [done|].
  csimpl in Hnd. apply NoDup_cons in Hnd as [Hk0 Hnd]. cbn [build_entries assoc_get].
  assert (Hfresh : assoc_get k0 mapping = None) by (by apply assoc_get_None).
  destruct (build_param e0 context) as [v|err] eqn:Ev.
  - specialize (IH (<[k0 := v]> acc) Hnd). destruct (build_entries _ _ _) as [r|err].
    + intros k. specialize (IH k). destruct (String.eqb_spec k0 k) as [->|Hne].
      * rewrite Hfresh, lookup_insert_eq in IH. eauto.
      * destruct (assoc_get k mapping); [done|]. by rewrite lookup_insert_ne in IH.
    + destruct IH as (k & e & Hg & He). exists k, e. split; [|done].
      destruct (String.eqb_spec k0 k) as [->|]; [congruence|done].
  - exists k0, e0. by rewrite String.eqb_refl.
Qed.

Lemma ResolvePath_code path context e :
  ResolvePath path context = Err e -> MappingErrorCode e = ErrInputMappingError.
Proof.
  unfold ResolvePath. repeat (case_match; try discriminate; try (by intros [= <-])).
Qed.

Lemma build_array_code arr context e :
  build_array arr context = Err e -> MappingErrorCode e = ErrInputMappingError.
Proof.
  induction arr as [|p arr IH]; [done|]. cbn [build_array].
  destruct (unmarshal_string p) as [ps|].
  - destruct (ResolvePath ps context) eqn:E; [|intros [= <-]; by eapply ResolvePath_code].
    destruct (build_array arr context); [done|]. intros [= <-]. by apply IH.
  - destruct (build_array arr context); [done|]. intros [= <-]. by apply IH.
Qed.

Lemma build_param_code elt context e :
  build_param elt context = Err e -> MappingErrorCode e = ErrInputMappingError.
Proof.
  unfold build_param. destruct (unmarshal_string elt) as [s|].
  - destruct (ResolvePath s context) eqn:E; [done|]. intros [= <-]. by eapply ResolvePath_code.
  - destruct (unmarshal_slice elt); [|done]. destruct (build_array _ _) eqn:E; [done|].
    intros [= <-]. by eapply build_array_code.
Qed.

(** [BuildParams] by the entries of the mapping. *)
Lemma BuildParams_entries mapping context :
  NoDup mapping.*1 ->
  match BuildParams mapping context with
  | Ok params => forall k, match assoc_get k mapping with
                           | Some e => exists v, build_param e context = Ok v /\ member k params = Some v
                           | None => member k params = None
                           end
  | Err err => exists k e, assoc_get k mapping = Some e /\ build_param e context = Err err
  end.
Proof.
  intros Hnd. pose proof (build_entries_spec mapping context ∅ Hnd) as H.
  unfold BuildParams. destruct mapping as [|en mapping]; [done|].
  destruct (build_entries _ _ _) as [r|err]; [|done].
  intros k. specialize (H k). rewrite member_marshal. by destruct (assoc_get k _).
Qed.

(** ** Lemmas: aggregation *)

(** What the [i]-th result contributes under the name [k]. *)
Definition contribution (k : string) (i : Z) (r : json) : option json :=
  match unmarshal_map r with
  | Some obj => obj !! k
  | None => if String.eqb ("_result_" +:+ fmt_d i) k then Some r else None
  end.

Fixpoint contributions (k : string) (i : Z) (results : list json) : list json :=
  match results with
  | [] => []
  | r :: rest => match contribution k i r with
                 | Some v => v :: contributions k (i + 1) rest
                 | None => contributions k (i + 1) rest
                 end
  end.

Lemma merge_from_lookup k i results merged :
  merge_from i results merged !! k =
    match last (contributions k i results) with Some v => Some v | None => merged !! k end.
Proof.
  revert i merged; induction results as [|r results IH]; intros i merged; [done|].
  cbn [merge_from contributions]. rewrite IH. unfold contribution.
  destruct (unmarshal_map r) as [obj|].
  - destruct (obj !! k) as [v|] eqn:Ek.
    + rewrite last_cons. destruct (last _); [done|]. by apply lookup_union_Some_l.
    + destruct (last _); [done|]. by apply lookup_union_r.
  - destruct (String.eqb_spec ("_result_" +:+ fmt_d i) k) as [<-|Hne].
    + rewrite last_cons. destruct (last _); [done|]. by rewrite lookup_insert_eq.
    + destruct (last _); [done|]. by rewrite lookup_insert_ne.
Qed.

(** ** Properties *)

(** Input paths mean member access: a path "$.n.f1.f2..." of plain names
    resolves to the value reached from the result of node n by following the
    member names, to nothing when a step is missing, and is rejected with the
    mapping code exactly when it is more than eight names deep. *)
Theorem resolve_path_walks n names context :
  Forall plain_name (n :: names) ->
  ((length names < 8)%nat ->
     ResolvePath (path_of (n :: names)) context = Ok (context !! n ≫= fun r => walk r names)) /\
  ((8 <= length names)%nat ->
     exists e, ResolvePath (path_of (n :: names)) context = Err e /\
       MappingErrorCode e = ErrInputMappingError).
Proof.
  intros Hf. unfold ResolvePath. rewrite path_parts_of by done.
  change (path_of (n :: names)) with (String (chr 36) ("." +:+ join "." (n :: names))).
  pose proof (trim_space_dollar ("." +:+ join "." (n :: names))) as Ht.
  apply String.eqb_neq in Ht. rewrite Ht. clear Ht.
  replace (has_prefix "$." _) with true by done. cbn [negb length]. unfold MaxInputMappingDepth.
  destruct (_ >? _) eqn:E; bool_hyps; split; intros Hl; try lia.
  - by eexists.
  - destruct (context !! n); [|done]. simpl. by rewrite navigate_walk.
Qed.

(** [BuildParams] is compositional and does not depend on the order in which
    the mapping is ranged over: it succeeds exactly when every entry does, the
    object it returns has for every entry the value of that entry and no other
    member, and any other order gives the same members or fails as well, always
    with the mapping error code. *)
Theorem build_params_spec mapping mapping' context :
  NoDup mapping.*1 -> mapping ≡ₚ mapping' ->
  match BuildParams mapping context, BuildParams mapping' context with
  | Ok p, Ok p' => (forall k, member k p = member k p') /\
      (forall k e, (k, e) ∈ mapping -> exists v, build_param e context = Ok v /\ member k p = Some v) /\
      (forall k, k ∉ mapping.*1 -> member k p = None)
  | Err e, Err e' => MappingErrorCode e = ErrInputMappingError /\ MappingErrorCode e' = ErrInputMappingError
  | _, _ => False
  end.
Proof.
  intros Hnd Hp.
  assert (Hnd' : NoDup mapping'.*1) by (by rewrite <- Hp).
  assert (Hsame : forall k, assoc_get k mapping = assoc_get k mapping').
  { intros k. apply option_eq. intros e. rewrite !assoc_get_elem by done. by rewrite Hp. }
  pose proof (BuildParams_entries mapping context Hnd) as H1.
  pose proof (BuildParams_entries mapping' context Hnd') as H2.
  destruct (BuildParams mapping context) as [p|e], (BuildParams mapping' context) as [p'|e'].
  - split_and!.
    + intros k. specialize (H1 k). specialize (H2 k). rewrite <- Hsame in H2.
      destruct (assoc_get k mapping); [|by rewrite H1, H2].
      destruct H1 as (v & Hv & ->), H2 as (v' & Hv' & ->). congruence.
    + intros k e Hin%assoc_get_elem; [|done]. specialize (H1 k). by rewrite Hin in H1.
    + intros k Hk. specialize (H1 k). destruct (assoc_get k mapping) as [e|] eqn:E; [|done].
      apply assoc_get_elem in E; [|done]. destruct Hk. apply list_elem_of_fmap. by exists (k, e).
  - destruct H2 as (k & x & Hg & Hx). rewrite <- Hsame in Hg. specialize (H1 k).
    rewrite Hg in H1. naive_solver congruence.
  - destruct H1 as (k & x & Hg & Hx). rewrite Hsame in Hg. specialize (H2 k).
    rewrite Hg in H2. naive_solver congruence.
  - destruct H1 as (k & x & _ & Hx), H2 as (k' & x' & _ & Hx').
    split; by eapply build_param_code.
Qed.

(** The merge strategy is last-write-wins: each member of the merged object
    is the one of the last result that contributes it, an object contributing
    its members and any other non-null value itself under its index; a null
    result contributes nothing, although the comment promises it an index. *)
Theorem merge_last_wins results k :
  member k (Aggregate AggregateStrategyMerge results 0) = last (contributions k 0 results) /\
  contribution k 0 JNull = None.
Proof.
  split; [|done]. destruct results as [|r rest]; [done|].
  change (Aggregate _ _ _) with (mergeResults (r :: rest)).
  unfold mergeResults. rewrite member_marshal, merge_from_lookup.
  by destruct (last _).
Qed.

(** ** Witnesses *)

Definition sample_context : Results :=
  {["fetch" := JObj [("body", JObj [("rows", JArr [JNum "1"])]); ("ok", JBool true)]]}.

Lemma resolve_path_walks_witness :
  ((2 < 8)%nat -> ResolvePath (path_of ["fetch"; "body"; "rows"]) sample_context =
     Ok (sample_context !! "fetch" ≫= fun r => walk r ["body"; "rows"])) /\
  ((8 <= 2)%nat -> exists e, ResolvePath (path_of ["fetch"; "body"; "rows"]) sample_context = Err e /\
     MappingErrorCode e = ErrInputMappingError).
Proof.
  apply (resolve_path_walks "fetch" ["body"; "rows"] sample_context).
  repeat (apply Forall_cons; split; [by split|]). apply Forall_nil_2.
Defined.

Definition sample_mapping : list (string * json) :=
  [("rows", JStr "$.fetch.body.rows"); ("both", JArr [JStr "$.fetch.ok"; JNum "7"]); ("lit", JNum "3")].

Example sample_params :
  BuildParams sample_mapping sample_context =
    Ok (JObj [("both", JArr [JBool true; JNum "7"]); ("lit", JNum "3"); ("rows", JArr [JNum "1"])]).
Proof. vm_compute. reflexivity. Qed.

Lemma build_params_spec_witness :
  match BuildParams sample_mapping sample_context, BuildParams (reverse sample_mapping) sample_context with
  | Ok p, Ok p' => (forall k, member k p = member k p') /\
      (forall k e, (k, e) ∈ sample_mapping ->
         exists v, build_param e sample_context = Ok v /\ member k p = Some v) /\
      (forall k, k ∉ sample_mapping.*1 -> member k p = None)
  | Err e, Err e' => MappingErrorCode e = ErrInputMappingError /\ MappingErrorCode e' = ErrInputMappingError
  | _, _ => False
  end.
Proof.
  apply (build_params_spec sample_mapping (reverse sample_mapping) sample_context).
  - apply (bool_decide_unpack _). vm_compute. exact I.
  - by rewrite reverse_Permutation.
Defined.
