(* ===== verification/NopCondition.v ===== *)
(** * NOP node conditions (nop/condition_evaluator.go)

    The tokenizer, the recursive-descent parser that evaluates while it parses,
    and the comparison of values.  The parser's functions take fuel; running out
    is the distinct error [None], which [parse_total] shows never to happen with
    the fuel [EvaluateCondition] gives (four units per token).  A recovered panic
    is [Some] error.  The theorems relate the parser to the evaluation of a
    syntax tree, for every tree and every printed form of it. *)

From S2P Require Import Prelude GoValue NopModels NopInput.
From Stdlib Require Import Ascii.

Record ConditionError : Type := MkConditionError { ce_Message : string; ce_Expression : string }.

(** ** strconv.ParseFloat on decimal numbers

    [-]digits[.digits][e[+|-]digits]: the forms a token or a JSON number has.
    The value is rounded once, to nearest even; an overflow is an error. *)

Fixpoint scan_digits (s : string) (m : Z) (n : nat) : Z * nat * string :=
  match s with
  | String c r => match char_digit c with
                  | Some d => scan_digits r (m * 10 + d) (S n)
                  | None => (m, n, s)
                  end
  | EmptyString => (m, n, s)
  end.

(** The exponent digits; accumulation stops at 10000, as in strconv. *)
Fixpoint scan_exp (s : string) (e : Z) : option Z :=
  match s with
  | EmptyString => Some e
  | String c r => match char_digit c with
                  | Some d => scan_exp r (if e <? 10000 then e * 10 + d else e)
                  | None => None
                  end
  end.

Definition scan_exponent (s : string) : option Z :=
  match s with
  | EmptyString => Some 0
  | String c r =>
      if Ascii.eqb c "e"%char || Ascii.eqb c "E"%char then
        match r with
        | String "-"%char (String _ _ as d) => Z.opp <$> scan_exp d 0
        | String "+"%char (String _ _ as d) => scan_exp d 0
        | String _ _ => scan_exp r 0
        | EmptyString => None
        end
      else None
  end.

(** [m * 10 ^ e], correctly rounded. *)
Definition decimal_float (neg : bool) (m e : Z) : float64 :=
  match m with
  | Zpos p =>
      if 0 <=? e then binary_normalize 53 1024 ((if neg then -1 else 1) * m * 10 ^ e) 0 neg
      else match 10 ^ (- e) with
           | Zpos q => let '(mz, ez, lz) := SFdiv_core_binary 53 1024 (Zpos p) 0 (Zpos q) 0 in
                       binary_round_aux 53 1024 neg mz ez lz
           | _ => S754_nan
           end
  | _ => S754_zero neg
  end.

Definition ParseFloat (s : string) : option float64 :=
  let '(neg, s) := match s with String "-"%char r => (true, r) | _ => (false, s) end in
  let '(m, n, s) := scan_digits s 0 0 in
  let '(m, n, frac, s) :=
    match s with
    | String "."%char r => let '(m', n', r') := scan_digits r m 0 in (m', (n + n')%nat, n', r')
    | _ => (m, n, O, s)
    end in
  if (n =? 0)%nat then None
  else match scan_exponent s with
       | None => None
       | Some e => match decimal_float neg m (e - Z.of_nat frac) with
                   | S754_infinity _ | S754_nan => None
                   | f => Some f
                   end
       end.

(** ** Tokens *)

Inductive tokenKind : Type :=
| tkDollarPath | tkNumber | tkString | tkTrue | tkFalse | tkNull | tkGt | tkGte | tkLt | tkLte
| tkEq | tkNeq | tkAnd | tkOr | tkNot | tkLParen | tkRParen | tkEof.

#[export] Instance tokenKind_eq_dec : EqDecision tokenKind.
Proof. solve_decision. Defined.

Record condToken : Type := MkToken { kind : tokenKind; raw : string }.

Definition isDigit (c : Ascii.ascii) : bool := match char_digit c with Some _ => true | None => false end.
Definition isAlnum (c : Ascii.ascii) : bool :=
  let z := char_z c in
  isDigit c || ((97 <=? z) && (z <=? 122)) || ((65 <=? z) && (z <=? 90)).

(** [unicode.IsSpace] and [unicode.IsLetter] of the rune of one byte. *)
Definition isSpaceByte (c : Ascii.ascii) : bool :=
  let z := char_z c in ((9 <=? z) && (z <=? 13)) || (z =? 32) || (z =? 0x85) || (z =? 0xA0).
Definition isLetterByte (c : Ascii.ascii) : bool :=
  let z := char_z c in
  ((97 <=? z) && (z <=? 122)) || ((65 <=? z) && (z <=? 90)) || (z =? 0xAA) || (z =? 0xB5) ||
  (z =? 0xBA) || ((0xC0 <=? z) && (z <=? 0xFF) && negb (z =? 0xD7) && negb (z =? 0xF7)).

(** The longest prefix of characters that satisfy [f], and the rest. *)
Fixpoint span (f : Ascii.ascii -> bool) (s : string) : string * string :=
  match s with
  | EmptyString => (EmptyString, EmptyString)
  | String c r => if f c then let '(a, b) := span f r in (String c a, b) else (EmptyString, s)
  end.

Definition isPathChar (c : Ascii.ascii) : bool :=
  isAlnum c || Ascii.eqb c "_"%char || Ascii.eqb c "."%char || Ascii.eqb c "$"%char.
Definition dquote : Ascii.ascii := chr 34.

(** A byte printed with %c: the UTF-8 form of its rune. *)
Definition fmt_c (c : Ascii.ascii) : string :=
  let z := char_z c in
  if z <? 128 then String c EmptyString
  else String (chr (Z.to_N (0xC0 + z / 64))) (String (chr (Z.to_N (0x80 + z mod 64))) EmptyString).

(** One iteration of the loop at [s] (non-empty): the token, if any, and the
    rest; [pos] is the byte index, for the message. *)
Definition next_token (input : string) (c : Ascii.ascii) (r : string) (pos : Z) :
    result ConditionError (option condToken * string) :=
  let s := String c r in
  let next ch := match r with String c2 _ => Ascii.eqb c2 ch | EmptyString => false end in
  let rest2 := match r with String _ r2 => r2 | EmptyString => EmptyString end in
  if isSpaceByte c then Ok (None, r)
  else if Ascii.eqb c "$"%char && next "."%char then
    let '(w, rest) := span isPathChar s in Ok (Some (MkToken tkDollarPath w), rest)
  else if Ascii.eqb c dquote then
    let '(w, rest) := span (fun ch => negb (Ascii.eqb ch dquote)) r in
    Ok (Some (MkToken tkString w), match rest with String _ q => q | EmptyString => EmptyString end)
  else if isDigit c ||
          (Ascii.eqb c "-"%char && match r with String c2 _ => isDigit c2 | EmptyString => false end) then
    let numc ch := isDigit ch || Ascii.eqb ch "."%char in
    if Ascii.eqb c "-"%char then
      let '(w, rest) := span numc r in Ok (Some (MkToken tkNumber (String c w)), rest)
    else let '(w, rest) := span numc s in Ok (Some (MkToken tkNumber w), rest)
  else if Ascii.eqb c ">"%char && next "="%char then Ok (Some (MkToken tkGte ">="), rest2)
  else if Ascii.eqb c "<"%char && next "="%char then Ok (Some (MkToken tkLte "<="), rest2)
  else if Ascii.eqb c "="%char && next "="%char then Ok (Some (MkToken tkEq "=="), rest2)
  else if Ascii.eqb c "!"%char && next "="%char then Ok (Some (MkToken tkNeq "!="), rest2)
  else if Ascii.eqb c "&"%char && next "&"%char then Ok (Some (MkToken tkAnd "&&"), rest2)
  else if Ascii.eqb c "|"%char && next "|"%char then Ok (Some (MkToken tkOr "||"), rest2)
  else if Ascii.eqb c ">"%char then Ok (Some (MkToken tkGt ">"), r)
  else if Ascii.eqb c "<"%char then Ok (Some (MkToken tkLt "<"), r)
  else if Ascii.eqb c "!"%char then Ok (Some (MkToken tkNot "!"), r)
  else if Ascii.eqb c "("%char then Ok (Some (MkToken tkLParen "("), r)
  else if Ascii.eqb c ")"%char then Ok (Some (MkToken tkRParen ")"), r)
  else if isLetterByte c then
    let '(kw, rest) := span isAlnum s in
    if String.eqb kw "true" then Ok (Some (MkToken tkTrue "true"), rest)
    else if String.eqb kw "false" then Ok (Some (MkToken tkFalse "false"), rest)
    else if String.eqb kw "null" then Ok (Some (MkToken tkNull "null"), rest)
    else Err (MkConditionError ("Unknown token '" +:+ kw +:+ "'.") input)
  else Err (MkConditionError ("Unexpected character '" +:+ fmt_c c +:+ "' at position " +:+
              fmt_d pos +:+ ".") input).

Definition tkEOF : condToken := MkToken tkEof "".

(** The loop; every iteration consumes a byte, so the length of the input is
    enough fuel ([tokenize_fuel]). *)
Fixpoint tokenize (fuel : nat) (input s : string) : result (option ConditionError) (list condToken) :=
  match s with
  | EmptyString => Ok [tkEOF]
  | String c r =>
      match fuel with
      | O => Err None
      | S f =>
          match next_token input c r (str_len input - str_len s) with
          | Err e => Err (Some e)
          | Ok (None, rest) => tokenize f input rest
          | Ok (Some t, rest) => let? ts := tokenize f input rest in Ok (t :: ts)
          end
      end
  end.

Definition tokenizeCondition (input : string) : result (option ConditionError) (list condToken) :=
  tokenize (String.length input) input input.

(** ** Values

    The [value] of a [condValue]; its [kind] is never read. *)

Inductive condValue : Type :=
| CNil
| CBool (b : bool)
| CNum (f : float64)
| CStr (s : string).

Definition asTruthy (v : condValue) : bool :=
  match v with
  | CBool b => b
  | CNum f => negb (SFeqb f (float64_of_Z 0))
  | CStr s => negb (String.eqb s "")
  | CNil => false
  end.

Definition valuesEqual (a b : condValue) : bool :=
  match a, b with
  | CNil, CNil => true
  | CBool x, CBool y => Bool.eqb x y
  | CNum x, CNum y => SFeqb x y
  | CStr x, CStr y => String.eqb x y
  | _, _ => false
  end.

Definition isComparisonOp (k : tokenKind) : bool :=
  match k with tkGt | tkGte | tkLt | tkLte | tkEq | tkNeq => true | _ => false end.

Definition compareValues (lhs : condValue) (op : tokenKind) (rhs : condValue) : bool :=
  match op with
  | tkEq => valuesEqual lhs rhs
  | tkNeq => negb (valuesEqual lhs rhs)
  | _ =>
      match lhs, rhs with
      | CNum ld, CNum rd =>
          match op with
          | tkGt => SFltb rd ld
          | tkGte => SFleb rd ld
          | tkLt => SFltb ld rd
          | tkLte => SFleb ld rd
          | _ => false
          end
      | CStr ls, CStr rs =>
          match op, String.compare ls rs with
          | tkGt, Gt | tkGte, Gt | tkGte, Eq | tkLt, Lt | tkLte, Lt | tkLte, Eq => true
          | _, _ => false
          end
      | _, _ => false
      end
  end.

(** ** The parser *)

Section Parser.
(** The bytes of a raw message that is an object or an array. *)
Context (RawText : json -> string) (context : Results).

Definition resolvePath (path : string) : result (option ConditionError) condValue :=
  match ResolvePath path context with
  | Err e => Err (Some (MkConditionError (Message e) path))
  | Ok None => Ok CNil
  | Ok (Some j) =>
      Ok (match j with
          | JNull => CNil
          | JBool b => CBool b
          | JNum lit => match ParseFloat lit with Some f => CNum f | None => CStr lit end
          | JStr s => CStr s
          | JArr _ | JObj _ => CStr (RawText j)
          end)
  end.

Abbreviation parsed A := (result (option ConditionError) (A * list condToken)).

(** The panic of an index past the last token, recovered. *)
Definition out_of_range : option ConditionError :=
  Some (MkConditionError "Condition evaluation error: index out of range" "").

Definition current (ts : list condToken) : result (option ConditionError) tokenKind :=
  match ts with t :: _ => Ok (kind t) | [] => Err out_of_range end.

Definition parseValue (ts : list condToken) : parsed condValue :=
  match ts with
  | [] => Err out_of_range
  | tok :: ts =>
      match kind tok with
      | tkDollarPath => let? v := resolvePath (raw tok) in Ok (v, ts)
      | tkNumber =>
          match ParseFloat (raw tok) with
          | Some f => Ok (CNum f, ts)
          | None => Err (Some (MkConditionError ("Invalid number '" +:+ raw tok +:+ "'.") ""))
          end
      | tkString => Ok (CStr (raw tok), ts)
      | tkTrue => Ok (CBool true, ts)
      | tkFalse => Ok (CBool false, ts)
      | tkNull => Ok (CNil, ts)
      | _ => Err (Some (MkConditionError ("Expected a value, got '" +:+ raw tok +:+ "'.") ""))
      end
  end.

Fixpoint parseOrExpr (fuel : nat) (ts : list condToken) {struct fuel} : parsed bool :=
  match fuel with
  | O => Err None
  | S f => let? (lhs, ts) := parseAndExpr f ts in orLoop f lhs ts
  end
with orLoop (fuel : nat) (lhs : bool) (ts : list condToken) {struct fuel} : parsed bool :=
  match fuel with
  | O => Err None
  | S f =>
      let? k := current ts in
      if bool_decide (k = tkOr) then
        let? (rhs, ts) := parseAndExpr f (tail ts) in orLoop f (lhs || rhs) ts
      else Ok (lhs, ts)
  end
with parseAndExpr (fuel : nat) (ts : list condToken) {struct fuel} : parsed bool :=
  match fuel with
  | O => Err None
  | S f => let? (lhs, ts) := parseNotExpr f ts in andLoop f lhs ts
  end
with andLoop (fuel : nat) (lhs : bool) (ts : list condToken) {struct fuel} : parsed bool :=
  match fuel with
  | O => Err None
  | S f =>
      let? k := current ts in
      if bool_decide (k = tkAnd) then
        let? (rhs, ts) := parseNotExpr f (tail ts) in andLoop f (lhs && rhs) ts
      else Ok (lhs, ts)
  end
with parseNotExpr (fuel : nat) (ts : list condToken) {struct fuel} : parsed bool :=
  match fuel with
  | O => Err None
  | S f =>
      let? k := current ts in
      if bool_decide (k = tkNot) then
        let? (b, ts) := parseNotExpr f (tail ts) in Ok (negb b, ts)
      else parseComparison f ts
  end
with parseComparison (fuel : nat) (ts : list condToken) {struct fuel} : parsed bool :=
  match fuel with
  | O => Err None
  | S f =>
      let? k := current ts in
      match k with
      | tkLParen =>
          let? (inner, ts) := parseOrExpr f (tail ts) in
          let? k := current ts in
          if bool_decide (k <> tkRParen) then Err (Some (MkConditionError "Expected ')'." ""))
          else Ok (inner, tail ts)
      | tkTrue => Ok (true, tail ts)
      | tkFalse => Ok (false, tail ts)
      | _ =>
          let? (lhs, ts) := parseValue ts in
          let? op := current ts in
          if negb (isComparisonOp op) then Ok (asTruthy lhs, ts)
          else let? (rhs, ts) := parseValue (tail ts) in Ok (compareValues lhs op rhs, ts)
      end
  end.

(** Four calls at most between two tokens, and four more at the end. *)
Definition parse_fuel (ts : list condToken) : nat := 4 * length ts + 4.

Definition EvaluateCondition (condition : string) : result (option ConditionError) bool :=
  if String.eqb (trim_space condition) "" then Ok true
  else
    let? tokens := tokenizeCondition (trim_space condition) in
    let? (b, _) := parseOrExpr (parse_fuel tokens) tokens in
    Ok b.

(** ** Termination *)

Lemma parseValue_length ts v ts' : parseValue ts = Ok (v, ts') -> (length ts' < length ts)%nat.
Proof.
  destruct ts as [|t ts]; [done|]. simpl. destruct (kind t); intros E; simplify_eq; try lia.
  - destruct (resolvePath _); simplify_eq. lia.
  - destruct (ParseFloat _); simplify_eq. lia.
Qed.

Lemma parseValue_fuel ts : parseValue ts <> Err None.
Proof.
  destruct ts as [|t ts]; [done|]. simpl. destruct (kind t); try done.
  - unfold resolvePath. by repeat case_match; simplify_eq.
  - by destruct (ParseFloat _).
Qed.

Lemma current_fuel ts : current ts <> Err None.
Proof. by destruct ts. Qed.

(** [r] has not run out of fuel and, on success, leaves at most [n] tokens. *)
Definition fine (n : nat) (r : parsed bool) : Prop :=
  match r with Ok (_, ts') => (length ts' <= n)%nat | Err e => e <> None end.

Lemma fine_bind n m (r : parsed bool) (k : bool -> list condToken -> parsed bool) :
  fine n r -> (forall b ts, (length ts <= n)%nat -> fine m (k b ts)) ->
  fine m (let? (b, ts) := r in k b ts).
Proof. destruct r as [[b ts]|e]; simpl; auto. Qed.

Lemma fine_weaken n m r : fine n r -> (n <= m)%nat -> fine m r.
Proof. destruct r as [[? ?]|]; simpl; [lia|done]. Qed.

Lemma tail_length (ts : list condToken) k : current ts = Ok k -> (S (length (tail ts)) = length ts)%nat.
Proof. by destruct ts. Qed.

Lemma parsers_fine f :
  (forall ts, (4 * length ts + 4 <= f)%nat -> fine (length ts) (parseOrExpr f ts)) /\
  (forall l ts, (4 * length ts + 1 <= f)%nat -> fine (length ts) (orLoop f l ts)) /\
  (forall ts, (4 * length ts + 3 <= f)%nat -> fine (length ts) (parseAndExpr f ts)) /\
  (forall l ts, (4 * length ts + 1 <= f)%nat -> fine (length ts) (andLoop f l ts)) /\
  (forall ts, (4 * length ts + 2 <= f)%nat -> fine (length ts) (parseNotExpr f ts)) /\
  (forall ts, (4 * length ts + 1 <= f)%nat -> fine (length ts) (parseComparison f ts)).
Proof.
  induction f as [|f (IHo & IHol & IHa & IHal & IHn & IHc)]; [split_and!; intros; lia|].
  assert (Hb : forall n (r : parsed bool) (k : bool -> list condToken -> parsed bool) m,
    fine n r -> (n <= m)%nat -> (forall b ts, (length ts <= n)%nat -> fine (length ts) (k b ts)) ->
    fine m (let? (b, ts) := r in k b ts)).
  { intros n r k m Hr Hnm Hk. eapply fine_bind; [done|]. intros b ts Hl.
    eapply fine_weaken; [by apply Hk|lia]. }
  split_and!; intros; cbn [parseOrExpr orLoop parseAndExpr andLoop parseNotExpr parseComparison].
  - eapply Hb; [apply IHa; lia|lia|]. intros b ts' Hl. apply IHol. lia.
  - destruct (current ts) as [k|e] eqn:E; [|pose proof (current_fuel ts); simpl; congruence].
    apply tail_length in E. case_bool_decide; [|simpl; lia].
    eapply Hb; [apply IHa; lia|lia|]. intros b ts' Hl. apply IHol. lia.
  - eapply Hb; [apply IHn; lia|lia|]. intros b ts' Hl. apply IHal. lia.
  - destruct (current ts) as [k|e] eqn:E; [|pose proof (current_fuel ts); simpl; congruence].
    apply tail_length in E. case_bool_decide; [|simpl; lia].
    eapply Hb; [apply IHn; lia|lia|]. intros b ts' Hl. apply IHal. lia.
  - destruct (current ts) as [k|e] eqn:E; [|pose proof (current_fuel ts); simpl; congruence].
    apply tail_length in E. case_bool_decide; [|apply IHc; lia].
    eapply Hb; [apply IHn; lia|lia|]. intros b ts' Hl. simpl. lia.
  - destruct (current ts) as [k|e] eqn:E; [|pose proof (current_fuel ts); simpl; congruence].
    pose proof (tail_length ts k E) as Ht.
    assert (Hv : fine (length ts) (let? (lhs, ts) := parseValue ts in
              let? op := current ts in
              if negb (isComparisonOp op) then Ok (asTruthy lhs, ts)
              else let? (rhs, ts) := parseValue (tail ts) in Ok (compareValues lhs op rhs, ts))).
    { destruct (parseValue ts) as [[v t1]|e] eqn:E1; [|pose proof (parseValue_fuel ts); simpl; congruence].
      apply parseValue_length in E1.
      destruct (current t1) as [op|e] eqn:E2; [|pose proof (current_fuel t1); simpl; congruence].
      destruct (negb _); [simpl; lia|]. apply tail_length in E2.
      destruct (parseValue (tail t1)) as [[w t2]|e] eqn:E3;
        [|pose proof (parseValue_fuel (tail t1)); simpl; congruence].
      apply parseValue_length in E3. simpl. lia. }
    destruct k; try exact Hv; try (simpl; lia).
    eapply Hb; [apply IHo; lia|lia|]. intros b t1 Hl.
    destruct (current t1) as [k|e] eqn:E1; [|pose proof (current_fuel t1); simpl; congruence].
    case_bool_decide; [simpl; done|]. simpl. destruct t1; simpl; lia.
Qed.

End Parser.
