(* ===== verification/NopConditionSpec.v ===== *)
(** * The condition language: syntax trees, their meaning and the evaluator

    A condition is a tree [cond]; [eval] is its meaning, left to right and
    without short circuit; [pr] prints it as tokens with the parentheses its
    precedence needs (any others are [CParen] nodes) and [text] as characters.
    The theorems: the evaluator is total, and on the text of any well-formed
    tree it computes the meaning of that tree, errors included. *)

From S2P Require Import Prelude GoValue NopModels NopInput NopCondition.
From Stdlib Require Import Ascii.

(** ** Syntax *)

Inductive operand : Type :=
| OPath (path : string) | ONumber (lit : string) | OString (s : string)
| OTrue | OFalse | ONull.

Inductive cond : Type :=
| COr (a b : cond) | CAnd (a b : cond) | CNot (a : cond) | CParen (a : cond)
| CLit (b : bool) | CTruthy (v : operand) | CCompare (v : operand) (op : tokenKind) (w : operand).

Definition operand_token (v : operand) : condToken :=
  match v with
  | OPath p => MkToken tkDollarPath p
  | ONumber s => MkToken tkNumber s
  | OString s => MkToken tkString s
  | OTrue => MkToken tkTrue "true"
  | OFalse => MkToken tkFalse "false"
  | ONull => MkToken tkNull "null"
  end.

Definition op_token (k : tokenKind) : condToken :=
  MkToken k (match k with tkGt => ">" | tkGte => ">=" | tkLt => "<" | tkLte => "<="
                        | tkEq => "==" | tkNeq => "!=" | tkAnd => "&&" | tkOr => "||"
                        | tkNot => "!" | tkLParen => "(" | tkRParen => ")" | _ => "" end).

Definition paren (ts : list condToken) : list condToken :=
  op_token tkLParen :: ts ++ [op_token tkRParen].

(** Printing at a level: 0 an or-expression, 1 an and-expression, 2 a not-expression. *)
Fixpoint pr (lvl : nat) (e : cond) : list condToken :=
  match e with
  | COr a b => let ts := pr 0 a ++ op_token tkOr :: pr 1 b in
               match lvl with O => ts | _ => paren ts end
  | CAnd a b => let ts := pr 1 a ++ op_token tkAnd :: pr 2 b in
                match lvl with O | 1%nat => ts | _ => paren ts end
  | CNot a => op_token tkNot :: pr 2 a
  | CParen a => paren (pr 0 a)
  | CLit b => [operand_token (if b then OTrue else OFalse)]
  | CTruthy v => [operand_token v]
  | CCompare v op w => [operand_token v; op_token op; operand_token w]
  end.

(** A left operand is not a boolean literal (the grammar reads those as whole
    comparisons) and the operator compares. *)
Definition lhs_ok (v : operand) : bool := match v with OTrue | OFalse => false | _ => true end.

Fixpoint cond_ok (e : cond) : bool :=
  match e with
  | COr a b | CAnd a b => cond_ok a && cond_ok b
  | CNot a | CParen a => cond_ok a
  | CLit _ => true
  | CTruthy v => lhs_ok v
  | CCompare v op _ => lhs_ok v && isComparisonOp op
  end.

Section Meaning.
Context (RawText : json -> string) (context : Results).

Definition eval_operand (v : operand) : result (option ConditionError) condValue :=
  match v with
  | OPath p => resolvePath RawText context p
  | ONumber s => match ParseFloat s with
                 | Some f => Ok (CNum f)
                 | None => Err (Some (MkConditionError ("Invalid number '" +:+ s +:+ "'.") ""))
                 end
  | OString s => Ok (CStr s)
  | OTrue => Ok (CBool true)
  | OFalse => Ok (CBool false)
  | ONull => Ok CNil
  end.

Fixpoint eval (e : cond) : result (option ConditionError) bool :=
  match e with
  | COr a b => let? x := eval a in let? y := eval b in Ok (x || y)
  | CAnd a b => let? x := eval a in let? y := eval b in Ok (x && y)
  | CNot a => let? x := eval a in Ok (negb x)
  | CParen a => eval a
  | CLit b => Ok b
  | CTruthy v => let? x := eval_operand v in Ok (asTruthy x)
  | CCompare v op w =>
      let? x := eval_operand v in let? y := eval_operand w in Ok (compareValues x op y)
  end.

(** ** Runs with any large enough fuel *)

Abbreviation parsed A := (result (option ConditionError) (A * list condToken)).
Abbreviation Or_ := (parseOrExpr RawText context).
Abbreviation OrL := (orLoop RawText context).
Abbreviation And_ := (parseAndExpr RawText context).
Abbreviation AndL := (andLoop RawText context).
Abbreviation Not_ := (parseNotExpr RawText context).
Abbreviation Cmp := (parseComparison RawText context).

Definition ev (g : nat -> parsed bool) (r : parsed bool) : Prop :=
  exists f0, forall f, (f0 <= f)%nat -> g f = r.

Lemma ev_const (g : nat -> parsed bool) r : (forall f, g (S f) = r) -> ev g r.
Proof. intros H. exists 1%nat. intros [|f] Hf; [lia|apply H]. Qed.

(** A step [g] that runs [h] and continues with [k]. *)
Lemma ev_bind (g h : nat -> parsed bool) (k : nat -> bool -> list condToken -> parsed bool) q r :
  (forall f, g (S f) = (let? (b, ts) := h f in k f b ts)) ->
  ev h q ->
  match q with Ok (b, ts) => ev (fun f => k f b ts) r | Err e => r = Err e end ->
  ev g r.
Proof.
  intros Hg [f1 Hh] Hk. destruct q as [[b ts]|e].
  - destruct Hk as [f2 Hk]. exists (S (f1 `max` f2)). intros [|f] Hf; [lia|].
    rewrite Hg, Hh by lia. apply Hk. lia.
  - subst r. exists (S f1). intros [|f] Hf; [lia|]. by rewrite Hg, Hh by lia.
Qed.

Lemma ev_step (g h : nat -> parsed bool) r : (forall f, g (S f) = h f) -> ev h r -> ev g r.
Proof. intros Hg [f1 Hh]. exists (S f1). intros [|f] Hf; [lia|]. rewrite Hg. apply Hh. lia. Qed.

(** The value of [e] followed by [rest]. *)
Definition yields (e : cond) (rest : list condToken) : parsed bool :=
  let? b := eval e in Ok (b, rest).

Definition heads (P : tokenKind -> bool) (rest : list condToken) : Prop :=
  match rest with t :: _ => P (kind t) = true | [] => False end.
Definition no_cmp (k : tokenKind) : bool := negb (isComparisonOp k).
Definition no_and (k : tokenKind) : bool := no_cmp k && negb (bool_decide (k = tkAnd)).

Definition goodN e : Prop := forall rest, heads no_cmp rest -> ev (fun f => Not_ f (pr 2 e ++ rest)) (yields e rest).
Definition goodA e : Prop := forall rest r, heads no_cmp rest ->
  match eval e with Ok b => ev (fun f => AndL f b rest) r | Err x => r = Err x end ->
  ev (fun f => And_ f (pr 1 e ++ rest)) r.
Definition goodO e : Prop := forall rest r, heads no_and rest ->
  match eval e with Ok b => ev (fun f => OrL f b rest) r | Err x => r = Err x end ->
  ev (fun f => Or_ f (pr 0 e ++ rest)) r.

Lemma no_and_cmp rest : heads no_and rest -> heads no_cmp rest.
Proof. destruct rest as [|t rest]; simpl; [done|]. unfold no_and. intros H. by bool_hyps. Qed.

Lemma loop_stops_and b rest : heads no_and rest -> ev (fun f => AndL f b rest) (Ok (b, rest)).
Proof.
  intros Hr. apply ev_const. intros f. destruct rest as [|t rest]; [done|]. simpl in *.
  unfold no_and in Hr. bool_hyps. by rewrite bool_decide_eq_false_2.
Qed.

Lemma loop_stops_or b t rest : kind t <> tkOr -> ev (fun f => OrL f b (t :: rest)) (Ok (b, t :: rest)).
Proof. intros Ht. apply ev_const. intros f. simpl. by rewrite bool_decide_eq_false_2. Qed.

(** From a not-expression to an and-expression, when both print alike. *)
Lemma goodN_A e : pr 1 e = pr 2 e -> goodN e -> goodA e.
Proof.
  intros Hp Hn rest r Hr Hk. rewrite Hp.
  eapply (ev_bind _ (fun f => Not_ f (pr 2 e ++ rest)) (fun f b ts => AndL f b ts)); [done|by apply Hn|].
  unfold yields. by destruct (eval e).
Qed.

Lemma goodA_O e : pr 0 e = pr 1 e -> goodA e -> goodO e.
Proof.
  intros Hp Ha rest r Hr Hk. rewrite Hp.
  eapply (ev_bind _ (fun f => And_ f (pr 1 e ++ rest)) (fun f b ts => OrL f b ts) (yields e rest)); [done| |].
  - apply Ha; [by apply no_and_cmp|]. unfold yields.
    destruct (eval e); [by apply loop_stops_and|done].
  - unfold yields. by destruct (eval e).
Qed.

(** A parenthesised or-expression is a not-expression. *)
Lemma paren_N e rest :
  goodO e -> ev (fun f => Not_ f (paren (pr 0 e) ++ rest)) (yields e rest).
Proof.
  intros Ho. unfold paren. cbn [app]. rewrite <- app_assoc. cbn [app].
  eapply (ev_step _ (fun f => Cmp f (op_token tkLParen :: pr 0 e ++ op_token tkRParen :: rest))); [done|].
  eapply (ev_bind _ (fun f => Or_ f (pr 0 e ++ op_token tkRParen :: rest))
    (fun f b ts => let? k := current ts in
       if bool_decide (k <> tkRParen) then Err (Some (MkConditionError "Expected ')'." ""))
       else Ok (b, tail ts)) (yields e (op_token tkRParen :: rest))); [done| |].
  - apply Ho; [done|]. unfold yields. destruct (eval e); [by apply loop_stops_or|done].
  - unfold yields. destruct (eval e); [by apply ev_const|done].
Qed.

Lemma parseValue_operand v rest :
  parseValue RawText context (operand_token v :: rest) =
    let? x := eval_operand v in Ok (x, rest).
Proof. destruct v; simpl; try done. by destruct (ParseFloat lit). Qed.

Lemma atom_N e :
  match e with CLit _ | CTruthy _ | CCompare _ _ _ => True | _ => False end ->
  cond_ok e = true -> goodN e.
Proof.
  intros Ha Hok rest Hr. destruct e as [| | | |b|v|v op w]; try done; cbn [cond_ok] in Hok.
  - apply (ev_step _ (fun f => Cmp f (pr 2 (CLit b) ++ rest))); [by intros; destruct b|].
    apply ev_const. by destruct b.
  - apply (ev_step _ (fun f => Cmp f (pr 2 (CTruthy v) ++ rest))); [by intros; destruct v|].
    apply ev_const. intros f. unfold yields. cbn [eval].
    transitivity (let? (lhs, ts) := parseValue RawText context (operand_token v :: rest) in
      let? op := current ts in
      if negb (isComparisonOp op) then @Ok (option ConditionError) _ (asTruthy lhs, ts)
      else let? (rhs, ts) := parseValue RawText context (tail ts) in Ok (compareValues lhs op rhs, ts)).
    { by destruct v. }
    rewrite parseValue_operand. destruct (eval_operand v); [|done].
    destruct rest as [|t rest]; [done|]. simpl in *. unfold no_cmp in Hr. by rewrite Hr.
  - bool_hyps. apply (ev_step _ (fun f => Cmp f (pr 2 (CCompare v op w) ++ rest))); [by intros; destruct v|].
    apply ev_const. intros f. unfold yields. cbn [eval].
    transitivity (let? (lhs, ts) := parseValue RawText context (operand_token v :: op_token op :: operand_token w :: rest) in
      let? op := current ts in
      if negb (isComparisonOp op) then @Ok (option ConditionError) _ (asTruthy lhs, ts)
      else let? (rhs, ts) := parseValue RawText context (tail ts) in Ok (compareValues lhs op rhs, ts)).
    { by destruct v. }
    rewrite parseValue_operand. destruct (eval_operand v); [|done]. cbn [current kind op_token tail].
    rewrite H0. cbn [negb]. rewrite parseValue_operand. by destruct (eval_operand w).
Qed.

Lemma parse_all e : cond_ok e = true -> goodN e /\ goodA e /\ goodO e.
Proof.
  assert (Hlift : forall e, pr 0 e = pr 1 e -> pr 1 e = pr 2 e -> goodN e -> goodN e /\ goodA e /\ goodO e).
  { intros e0 H0 H1 Hn. assert (goodA e0) by (by apply goodN_A). split_and!; [done..|by apply goodA_O]. }
  induction e as [a IHa b IHb|a IHa b IHb|a IHa|a IHa|b|v|v op w]; intros Hok.
  - cbn [cond_ok] in Hok. bool_hyps.
    destruct IHa as (_ & _ & IHa), IHb as (_ & IHb & _); try done.
    assert (Ho : goodO (COr a b)).
    { intros rest r Hr Hk. cbn [pr]. rewrite <- app_assoc. cbn [app]. apply IHa; [done|].
      cbn [eval] in Hk. destruct (eval a) as [x|]; [|done].
      eapply (ev_bind _ (fun f => And_ f (pr 1 b ++ rest)) (fun f y ts => OrL f (x || y) ts) (yields b rest)).
      - done.
      - apply IHb; [by apply no_and_cmp|]. unfold yields. destruct (eval b); [by apply loop_stops_and|done].
      - unfold yields. by destruct (eval b). }
    assert (Hn : goodN (COr a b)) by (intros rest Hr; by apply (paren_N (COr a b))).
    split_and!; [done|by apply goodN_A|done].
  - cbn [cond_ok] in Hok. bool_hyps.
    destruct IHa as (_ & IHa & _), IHb as (IHb & _ & _); try done.
    assert (Ha : goodA (CAnd a b)).
    { intros rest r Hr Hk. cbn [pr]. rewrite <- app_assoc. cbn [app]. apply IHa; [done|].
      cbn [eval] in Hk. destruct (eval a) as [x|]; [|done].
      eapply (ev_bind _ (fun f => Not_ f (pr 2 b ++ rest)) (fun f y ts => AndL f (x && y) ts) (yields b rest)).
      - done.
      - by apply IHb.
      - unfold yields. by destruct (eval b). }
    assert (Ho : goodO (CAnd a b)) by (by apply goodA_O).
    split_and!; [|done|done]. intros rest Hr. by apply (paren_N (CAnd a b)).
  - apply Hlift; [done..|]. destruct IHa as (IHa & _ & _); [done|]. intros rest Hr.
    eapply (ev_bind _ (fun f => Not_ f (pr 2 a ++ rest)) (fun f b ts => Ok (negb b, ts))); [done|by apply IHa|].
    unfold yields. cbn [eval]. destruct (eval a); [by apply ev_const|done].
  - apply Hlift; [done..|]. destruct IHa as (_ & _ & IHa); [done|]. intros rest Hr.
    exact (paren_N a rest IHa).
  - apply Hlift; [done..|]. by apply atom_N.
  - apply Hlift; [done..|]. by apply atom_N.
  - apply Hlift; [done..|]. by apply atom_N.
Qed.

(** ** More fuel changes nothing *)

(** [x] and [y] agree unless [x] ran out of fuel. *)
Definition same (x y : parsed bool) : Prop := x = Err None \/ y = x.

Lemma same_bind (x y : parsed bool) (k k' : bool -> list condToken -> parsed bool) :
  same x y -> (forall b ts, same (k b ts) (k' b ts)) ->
  same (let? (b, ts) := x in k b ts) (let? (b, ts) := y in k' b ts).
Proof. intros [->| ->] Hk; [by left|]. destruct x as [[b ts]|e]; [apply Hk|by right]. Qed.

Lemma same_refl x : same x x.
Proof. by right. Qed.

Lemma more_fuel f :
  (forall ts, same (Or_ f ts) (Or_ (S f) ts)) /\ (forall b ts, same (OrL f b ts) (OrL (S f) b ts)) /\
  (forall ts, same (And_ f ts) (And_ (S f) ts)) /\ (forall b ts, same (AndL f b ts) (AndL (S f) b ts)) /\
  (forall ts, same (Not_ f ts) (Not_ (S f) ts)) /\ (forall ts, same (Cmp f ts) (Cmp (S f) ts)).
Proof.
  induction f as [|f (IHo & IHol & IHa & IHal & IHn & IHc)]; [split_and!; intros; by left|].
  split_and!; intros.
  - apply (same_bind (And_ f ts) (And_ (S f) ts)); [apply IHa|apply IHol].
  - change (OrL (S (S f)) b ts) with (let? k := current ts in if bool_decide (k = tkOr) then
      let? (rhs, ts) := And_ (S f) (tail ts) in OrL (S f) (b || rhs) ts else Ok (b, ts)).
    cbn [orLoop]. destruct (current ts); [|apply same_refl]. case_bool_decide; [|apply same_refl].
    apply same_bind; [apply IHa|intros; apply IHol].
  - apply (same_bind (Not_ f ts) (Not_ (S f) ts)); [apply IHn|apply IHal].
  - change (AndL (S (S f)) b ts) with (let? k := current ts in if bool_decide (k = tkAnd) then
      let? (rhs, ts) := Not_ (S f) (tail ts) in AndL (S f) (b && rhs) ts else Ok (b, ts)).
    cbn [andLoop]. destruct (current ts); [|apply same_refl]. case_bool_decide; [|apply same_refl].
    apply same_bind; [apply IHn|intros; apply IHal].
  - change (Not_ (S (S f)) ts) with (let? k := current ts in if bool_decide (k = tkNot) then
      let? (b, ts) := Not_ (S f) (tail ts) in Ok (negb b, ts) else Cmp (S f) ts).
    cbn [parseNotExpr]. destruct (current ts); [|apply same_refl]. case_bool_decide; [|apply IHc].
    apply same_bind; [apply IHn|intros; apply same_refl].
  - destruct ts as [|t ts]; [apply same_refl|].
    destruct (kind t) eqn:Ek; try (right; cbn [parseComparison current]; rewrite Ek; done).
    destruct t as [k w]; simpl in Ek; subst k.
    apply (same_bind (Or_ f ts) (Or_ (S f) ts)
      (fun inner ts => let? k := current ts in
         if bool_decide (k <> tkRParen) then Err (Some (MkConditionError "Expected ')'." ""))
         else Ok (inner, tail ts))); [apply IHo|intros; apply same_refl].
Qed.

Lemma Or_stable f f' ts : (f <= f')%nat -> Or_ f ts <> Err None -> Or_ f' ts = Or_ f ts.
Proof.
  induction 1 as [|f' _ IH]; [done|]. intros Hne. rewrite <- (IH Hne).
  destruct (more_fuel f') as [H _]. destruct (H ts) as [H0|H0]; [|done].
  rewrite IH in H0 by done. done.
Qed.

(** The parser on the tokens of a tree followed by tokens that cannot continue it. *)
Definition no_more (k : tokenKind) : bool := no_and k && negb (bool_decide (k = tkOr)).

Lemma parse_print e rest :
  cond_ok e = true -> heads no_more rest ->
  Or_ (parse_fuel (pr 0 e ++ rest)) (pr 0 e ++ rest) = yields e rest.
Proof.
  intros Hok Hr. set (ts := pr 0 e ++ rest). destruct (parse_all e Hok) as (_ & _ & Ho).
  assert (heads no_and rest /\ forall b, ev (fun f => OrL f b rest) (Ok (b, rest))) as [Hna Hl].
  { destruct rest as [|t rest]; [done|]. simpl in Hr. unfold no_more in Hr. bool_hyps.
    split; [done|]. intros b. by apply loop_stops_or. }
  destruct (Ho rest (yields e rest) Hna) as [f0 Hf0].
  { unfold yields. by destruct (eval e). }
  rewrite <- (Or_stable (parse_fuel ts) (f0 + parse_fuel ts)); [apply Hf0; lia|lia|].
  intros E. destruct (parsers_fine RawText context (parse_fuel ts)) as (H & _).
  specialize (H ts). rewrite E in H. simpl in H. unfold parse_fuel in *. by apply H.
Qed.

End Meaning.

(** ** Text *)

Definition token_text (t : condToken) : string :=
  match kind t with
  | tkString => String dquote (raw t +:+ String dquote "")
  | _ => raw t
  end.
Definition text (ts : list condToken) : string := join " " (token_text <$> ts).


Definition numc (c : ascii) : bool := isDigit c || Ascii.eqb c ".".

(** The raw text a token of its kind has. *)
Definition token_ok (t : condToken) : bool :=
  match kind t with
  | tkDollarPath => has_prefix "$." (raw t) && str_forall isPathChar (raw t)
  | tkNumber => match raw t with
                | String c r => if Ascii.eqb c "-" then
                                  match r with String d _ => isDigit d && str_forall numc r | _ => false end
                                else isDigit c && str_forall numc r
                | EmptyString => false
                end
  | tkString => str_forall (fun c => negb (Ascii.eqb c dquote)) (raw t)
  | tkTrue => String.eqb (raw t) "true"
  | tkFalse => String.eqb (raw t) "false"
  | tkNull => String.eqb (raw t) "null"
  | tkEof => false
  | k => String.eqb (raw t) (raw (op_token k))
  end.

(** What follows a token in a text: nothing or a space. *)
Definition sep (rest : string) : Prop := rest = "" \/ exists r, rest = String " " r.

Lemma span_app f w rest :
  str_forall f w = true -> f " "%char = false -> sep rest -> span f (w +:+ rest) = (w, rest).
Proof.
  intros Hw Hs Hr. induction w as [|c w IH].
  - change ("" +:+ rest) with rest. destruct Hr as [->|[r ->]]; [done|]. simpl. by rewrite Hs.
  - change (String c w +:+ rest) with (String c (w +:+ rest)). simpl in *. bool_hyps.
    by rewrite H, IH.
Qed.

Lemma span_until c w rest :
  str_forall (fun x => negb (Ascii.eqb x c)) w = true ->
  span (fun x => negb (Ascii.eqb x c)) (w +:+ String c rest) = (w, String c rest).
Proof.
  intros Hw. induction w as [|x w IH].
  - change ("" +:+ String c rest) with (String c rest). simpl. by rewrite Ascii.eqb_refl.
  - change (String x w +:+ String c rest) with (String x (w +:+ String c rest)). simpl in *. bool_hyps.
    by rewrite H, IH.
Qed.

(** A digit or a path character is none of the characters tested before it. *)
Definition all_chars : list ascii := (fun n => Ascii.ascii_of_nat n) <$> seq 0 256.

Lemma char_sweep (P : ascii -> bool) : forallb P all_chars = true -> forall c, P c = true.
Proof.
  intros H c. rewrite forallb_forall in H. apply H.
  apply list_elem_of_In, list_elem_of_fmap. exists (Ascii.nat_of_ascii c).
  rewrite Ascii.ascii_nat_embedding. split; [done|]. apply elem_of_seq.
  pose proof (Ascii.nat_ascii_bounded c). lia.
Qed.

Lemma digit_char_facts c :
  isDigit c = true ->
  isSpaceByte c = false /\ Ascii.eqb c "$" = false /\ Ascii.eqb c dquote = false /\
  Ascii.eqb c "-" = false /\ numc c = true.
Proof.
  pose proof (char_sweep (fun c => implb (isDigit c)
    (negb (isSpaceByte c) && negb (Ascii.eqb c "$") && negb (Ascii.eqb c dquote) &&
     negb (Ascii.eqb c "-") && numc c)) ltac:(vm_compute; reflexivity) c) as H.
  cbn beta in H. intros Hd. rewrite Hd in H. cbn [implb] in H. bool_hyps. done.
Qed.

Lemma next_token_ok t rest input pos :
  token_ok t = true -> sep rest ->
  match token_text t +:+ rest with
  | String c r => next_token input c r pos = Ok (Some t, rest)
  | EmptyString => False
  end.
Proof.
  intros Ht Hs. destruct t as [k w]. unfold token_ok, token_text in *. cbn [kind raw] in *.
  destruct k; bool_hyps; subst; try done.
  4-9: by destruct Hs as [->|[r ->]]; vm_compute.
  - (* path *) unfold has_prefix in H. destruct (cut_prefix "$." w) as [w'|] eqn:E; [|done].
    apply cut_prefix_Some in E. subst w.
    pose proof (span_app isPathChar ("$." +:+ w') rest H0 eq_refl Hs) as Hsp.
    change (("$." +:+ w') +:+ rest) with (String "$" (String "." (w' +:+ rest))) in *.
    unfold next_token. cbn [Ascii.eqb Bool.eqb andb]. change (isSpaceByte "$") with false. cbv iota.
    rewrite Hsp. done.
  - (* number *) destruct w as [|c r]; [done|].
    change (String c r +:+ rest) with (String c (r +:+ rest)).
    destruct (Ascii.eqb_spec c "-") as [->|Hne].
    + destruct r as [|d r]; [done|]. bool_hyps.
      pose proof (span_app numc (String d r) rest H0 eq_refl Hs) as Hsp.
      change (String d r +:+ rest) with (String d (r +:+ rest)) in *.
      unfold next_token. change (isSpaceByte "-") with false. cbn [Ascii.eqb Bool.eqb andb].
      change (isDigit "-") with false. rewrite H. cbn [orb]. fold numc. by rewrite Hsp.
    + bool_hyps. destruct (digit_char_facts c H) as (E1 & E2 & E3 & E4 & E5).
      assert (Hw : str_forall numc (String c r) = true) by (simpl; by rewrite E5).
      pose proof (span_app numc (String c r) rest Hw eq_refl Hs) as Hsp.
      change (String c r +:+ rest) with (String c (r +:+ rest)) in *.
      unfold next_token. rewrite E1, E2, E3, E4, H. cbn [andb orb]. fold numc. by rewrite Hsp.
  - (* string *)
    change (String dquote (w +:+ String dquote "") +:+ rest)
      with (String dquote ((w +:+ String dquote "") +:+ rest)).
    assert ((w +:+ String dquote "") +:+ rest = w +:+ String dquote rest) as ->
      by (by rewrite str_app_assoc).
    pose proof (span_until dquote w rest Ht) as Hsp.
    unfold next_token. change (isSpaceByte dquote) with false. change (Ascii.eqb dquote "$") with false.
    rewrite Ascii.eqb_refl. cbn [andb]. by rewrite Hsp.
Qed.

Lemma tokenize_text ts f input :
  ts <> [] -> Forall (fun t => token_ok t = true) ts -> (String.length (text ts) <= f)%nat ->
  tokenize f input (text ts) = Ok (ts ++ [tkEOF]).
Proof.
  intros Hne Hf. revert f Hne. induction Hf as [|t ts Ht Hts IH]; intros f Hne Hl; [done|].
  assert (exists rest, text (t :: ts) = token_text t +:+ rest /\ sep rest /\
    (ts = [] /\ rest = "" \/ ts <> [] /\ rest = String " " (text ts))) as (rest & E & Hs & Hc).
  { destruct ts as [|t' ts].
    - exists "". split_and!; [|by left|by left]. unfold text. simpl.
      induction (token_text t) as [|x w IHw]; [done|]. exact (f_equal (String x) IHw).
    - exists (String " " (text (t' :: ts))). split_and!; [done|right; by eexists|by right]. }
  pose proof (next_token_ok t rest input (str_len input - str_len (text (t :: ts))) Ht Hs) as Hn.
  rewrite E in Hl |- *. destruct (token_text t +:+ rest) as [|c r] eqn:Ec; [done|].
  destruct f as [|f]; [simpl in Hl; lia|]. cbn [tokenize]. rewrite E in Hn. rewrite Hn.
  destruct Hc as [[-> ->]|[Hne' ->]]; [by destruct f|].
  assert (String.length (text ts) < f)%nat as Hlt.
  { assert (token_text t <> "") as Hnt.
    { intros E0. rewrite E0 in Ec. injection Ec as <- <-.
      unfold next_token in Hn. change (isSpaceByte " ") with true in Hn. discriminate Hn. }
    destruct (token_text t) as [|x w]; [done|]. injection Ec as <- <-.
    simpl in Hl. rewrite str_length_app in Hl. simpl in Hl. lia. }
  destruct f as [|f]; [lia|]. cbn [tokenize]. unfold next_token.
  change (isSpaceByte " ") with true. cbv iota. by rewrite IH by (done || lia).
Qed.

(** ** Trimming *)

Lemma char_impl (f g : ascii -> bool) :
  forallb (fun c => implb (f c) (g c)) all_chars = true -> forall c, f c = true -> g c = true.
Proof. intros H c Hf. pose proof (char_sweep _ H c) as Hc. cbn beta in Hc. by rewrite Hf in Hc. Qed.

(** Both ends of a token's text are printable. *)
Lemma token_edges t :
  token_ok t = true ->
  starts_printable (token_text t) = true /\ starts_printable (String.rev (token_text t)) = true.
Proof.
  intros Ht. destruct t as [k w]. unfold token_ok, token_text in *. cbn [kind raw] in *.
  assert (Hgen : w <> "" -> str_forall printable w = true ->
    starts_printable w = true /\ starts_printable (String.rev w) = true).
  { intros Hne Hp. split; [by apply forall_starts|]. apply forall_starts; [|by rewrite str_forall_rev].
    intros E. apply Hne. by rewrite <- (str_rev_involutive w), E. }
  destruct k; bool_hyps; subst; try (by vm_compute).
  - apply Hgen; [by destruct w|]. eapply str_forall_impl; [|done]. apply char_impl. vm_compute. reflexivity.
  - assert (Hd : forall c, isDigit c = true -> printable c = true) by (apply char_impl; vm_compute; reflexivity).
    assert (Hn : forall c, numc c = true -> printable c = true) by (apply char_impl; vm_compute; reflexivity).
    apply Hgen; [by destruct w|]. destruct w as [|c r]; [done|].
    destruct (Ascii.eqb_spec c "-") as [->|].
    + destruct r as [|d r]; [done|]. bool_hyps.
      change (str_forall printable (String d r) = true). by apply (str_forall_impl numc).
    + bool_hyps. simpl. rewrite Hd by done. by apply (str_forall_impl numc).
  - split; [done|]. change (String dquote (w +:+ String dquote "")) with (String dquote w +:+ String dquote "").
    by rewrite str_rev_concat.
Qed.

Lemma text_edges ts :
  ts <> [] -> Forall (fun t => token_ok t = true) ts ->
  starts_printable (text ts) = true /\ starts_printable (String.rev (text ts)) = true.
Proof.
  intros Hne Hf. induction Hf as [|t ts Ht Hts IH]; [done|]. apply token_edges in Ht as [Ha Hb].
  destruct ts as [|t' ts]; [done|]. destruct IH as [_ IH]; [done|].
  change (text (t :: t' :: ts)) with (token_text t +:+ (" " +:+ text (t' :: ts))).
  split; [by destruct (token_text t)|]. rewrite !str_rev_concat.
  by destruct (String.rev (text (t' :: ts))).
Qed.

(** ** Termination of the tokenizer *)

Lemma span_length f s a b : span f s = (a, b) -> (String.length b <= String.length s)%nat.
Proof.
  revert a; induction s as [|c s IH]; simpl; intros a; [by intros [= <- <-]|].
  destruct (f c); [|by intros [= <- <-]]. destruct (span f s) as [a' b'] eqn:E.
  intros [= <- <-]. specialize (IH _ eq_refl). lia.
Qed.

Lemma span_head f c s a b :
  f c = true -> span f (String c s) = (a, b) -> (String.length b <= String.length s)%nat.
Proof.
  intros Hc. simpl. rewrite Hc. destruct (span f s) as [a' b'] eqn:E. intros [= <- <-].
  by eapply span_length.
Qed.

Lemma next_token_shrinks input c r pos t rest :
  next_token input c r pos = Ok (t, rest) -> (String.length rest <= String.length r)%nat.
Proof.
  unfold next_token. intros H.
  destruct (isSpaceByte c); [by simplify_eq|].
  destruct (Ascii.eqb c "$" && _) eqn:Ep.
  { apply andb_true_iff in Ep as [Ep _]. apply Ascii.eqb_eq in Ep. subst c.
    destruct (span _ _) as [w rest'] eqn:E. simplify_eq. by eapply span_head in E. }
  destruct (Ascii.eqb c dquote).
  { destruct (span _ r) as [w [|q rest']] eqn:E; apply span_length in E; simplify_eq; simpl in *; lia. }
  destruct (isDigit c || _) eqn:Ed.
  { destruct (Ascii.eqb c "-") eqn:Em.
    - destruct (span _ r) as [w rest'] eqn:E. simplify_eq. by eapply span_length.
    - cbn [andb] in Ed. rewrite orb_false_r in Ed. destruct (span _ _) as [w rest'] eqn:E. simplify_eq.
      eapply span_head in E; [done|]. cbn beta. by rewrite Ed. }
  assert (Hr2 : (String.length (match r with String _ r2 => r2 | EmptyString => EmptyString end)
                 <= String.length r)%nat) by (destruct r; simpl; lia).
  repeat (match type of H with (if ?b then _ else _) = _ => destruct b eqn:? end;
          [first [by simplify_eq | by injection H as <- <- | idtac]|]); try done.
  destruct (span isAlnum (String c r)) as [kw rest'] eqn:E.
  assert (kw = "" \/ (String.length rest' <= String.length r)%nat) as [->|Hl].
  { simpl in E. destruct (isAlnum c); [|left; by simplify_eq].
    destruct (span isAlnum r) as [a b] eqn:E'. simplify_eq. right. by eapply span_length. }
  - done.
  - by repeat case_match; simplify_eq.
Qed.

Lemma tokenize_fuel f input s : (String.length s <= f)%nat -> tokenize f input s <> Err None.
Proof.
  revert s; induction f as [|f IH]; intros s Hl; (destruct s as [|c r]; [done|]); [simpl in Hl; lia|].
  cbn [tokenize]. destruct (next_token _ _ _ _) as [[[t|] rest]|e] eqn:E; [..|done];
    apply next_token_shrinks in E; simpl in Hl.
  - specialize (IH rest ltac:(lia)). destruct (tokenize f input rest); [done|naive_solver].
  - apply IH. lia.
Qed.

(** ** The evaluator on the text of a tree, with or without tokens after it *)

Lemma evaluate_text RawText context e junk :
  cond_ok e = true -> heads no_more (junk ++ [tkEOF]) ->
  Forall (fun t => token_ok t = true) (pr 0 e ++ junk) ->
  EvaluateCondition RawText context (text (pr 0 e ++ junk)) = eval RawText context e.
Proof.
  intros Hok Hj Hf.
  assert (Hne : pr 0 e ++ junk <> []).
  { intros [E _]%app_nil. revert E. clear. destruct e as [a b|a b| | | | |]; try done; cbn [pr]; by intros [_ ?]%app_nil. }
  destruct (text_edges _ Hne Hf) as [He1 He2].
  unfold EvaluateCondition. rewrite (trim_printable _ He1 He2).
  replace (String.eqb _ "") with false by (by destruct (text (pr 0 e ++ junk))).
  unfold tokenizeCondition. rewrite tokenize_text by (done || lia).
  rewrite <- app_assoc, parse_print by done. unfold yields. by destruct (eval RawText context e).
Qed.

(** ** Properties *)

(** C7. Evaluating the text of a condition gives the meaning of its syntax tree:
    for every tree whose tokens have the lexical form of their kind, with any
    redundant parentheses, the evaluator returns the boolean, or the error, of
    the tree, with || below && below ! and left-to-right evaluation of every
    operand. *)
Theorem condition_meaning RawText context e :
  cond_ok e = true -> Forall (fun t => token_ok t = true) (pr 0 e) ->
  EvaluateCondition RawText context (text (pr 0 e)) = eval RawText context e.
Proof. intros Hok Hf. pose proof (evaluate_text RawText context e []) as H. rewrite app_nil_r in H. by apply H. Qed.

(** C8. The evaluator is total: on every input string the tokenizer and the
    recursive-descent parser terminate with a boolean or a condition error,
    within the fuel given here. *)
Theorem condition_total RawText context condition :
  EvaluateCondition RawText context condition <> Err None.
Proof.
  unfold EvaluateCondition. destruct (String.eqb _ _); [done|].
  pose proof (tokenize_fuel (String.length (trim_space condition)) (trim_space condition)
    (trim_space condition) ltac:(lia)) as Ht. fold (tokenizeCondition (trim_space condition)) in Ht.
  destruct (tokenizeCondition _) as [ts|e]; [|congruence].
  destruct (parsers_fine RawText context (parse_fuel ts)) as (H & _).
  specialize (H ts ltac:(unfold parse_fuel; lia)).
  destruct (parseOrExpr _ _ _ _) as [[b rest]|e]; [done|]. simpl in H. congruence.
Qed.

(** Tokens after a complete condition are ignored: any sequence of tokens that
    does not start with an operator may follow, whatever it is, and the result
    is still the meaning of the condition in front; so a malformed condition is
    accepted instead of reported. *)
Theorem condition_ignores_trailing RawText context e t junk :
  cond_ok e = true -> no_more (kind t) = true ->
  Forall (fun t => token_ok t = true) (pr 0 e ++ t :: junk) ->
  EvaluateCondition RawText context (text (pr 0 e ++ t :: junk)) = eval RawText context e.
Proof. intros Hok Ht Hf. by apply (evaluate_text RawText context e (t :: junk)). Qed.

(** ** Witnesses *)

Definition sample_cond : cond :=
  COr (CAnd (CCompare (OPath "$.fetch.n") tkGte (ONumber "-1.5")) (CNot (CTruthy (OPath "$.fetch.ok"))))
      (CParen (CCompare (OString "a b") tkNeq ONull)).

Lemma tokens_ok_dec ts : forallb token_ok ts = true -> Forall (fun t => token_ok t = true) ts.
Proof. intros H. apply Forall_forall. intros t Ht. rewrite forallb_forall in H. by apply H, list_elem_of_In. Qed.

Lemma condition_meaning_witness :
  EvaluateCondition (fun _ => "") sample_context (text (pr 0 sample_cond)) =
    eval (fun _ => "") sample_context sample_cond.
Proof.
  apply condition_meaning; [vm_compute; reflexivity|apply tokens_ok_dec; vm_compute; reflexivity].
Defined.

Lemma condition_ignores_trailing_witness :
  EvaluateCondition (fun _ => "") ∅ (text (pr 0 (CLit true) ++ [operand_token OFalse; op_token tkRParen])) =
    eval (fun _ => "") ∅ (CLit true).
Proof.
  apply (condition_ignores_trailing (fun _ => "") ∅ (CLit true) (operand_token OFalse) [op_token tkRParen]);
    [reflexivity|reflexivity|apply tokens_ok_dec; vm_compute; reflexivity].
Defined.

(** Even a comparison after a boolean literal is ignored. *)
Example literal_comparison_ignored : EvaluateCondition (fun _ => "") ∅ "true == false" = Ok true.
Proof. vm_compute. reflexivity. Qed.
