(* ===== verification/NopTask.v ===== *)
(** * NOP tasks: the task store, delegation to a worker, retries

    nop/task_store.go, nop/orchestrator_options.go and the node-execution half of
    nop/orchestrator.go.  A worker is what it answers to the n-th delegation of a
    node: an error, or the events the stream loop then sees (frames, the closing
    of the channel, the node's context being done); when the events end, the
    node's deadline fires.  Writes to the store are logged as operations and
    applied by [apply_op]; random subtask ids are inputs. *)

From S2P Require Import Prelude GoValue NopModels NopInput NopCondition.

(** ** task_store.go *)

Record OrchestratorTask : Type := MkTask {
  TaskID : string; Dag : option TaskDag; TaskTimeoutMs : Z; TaskMaxRetries : Z;
  Priority : string; CallbackURL : string; CallbackSecret : string; Preflight : bool;
  Context_ : any; RequestID : string; DelegateDepth : Z; CompensationPolicy : string
}.

Definition TaskPriorityNormal : string := "normal".

Definition effectiveTimeoutMs (t : OrchestratorTask) : Z :=
  if TaskTimeoutMs t =? 0 then DefaultTimeoutMs else TaskTimeoutMs t.
Definition effectivePriority (t : OrchestratorTask) : string :=
  if String.eqb (Priority t) "" then TaskPriorityNormal else Priority t.
Definition effectiveCompensationPolicy (t : OrchestratorTask) : string :=
  if String.eqb (CompensationPolicy t) "" then CompensationPolicyBestEffort else CompensationPolicy t.

Record NopSubtaskRecord : Type := MkSubtask {
  sub_NodeID : string; sub_SubtaskID : string; sub_State : TaskState; sub_Result : RawMessage;
  sub_ErrorCode : string; sub_ErrorMessage : string; AttemptCount : Z
}.

Record NopTaskRecord : Type := MkTaskRecord {
  rec_TaskID : string; rec_Task : OrchestratorTask; State : TaskState; StartedAt : Z;
  CompletedAt : option Z; Subtasks : gmap string NopSubtaskRecord
}.

Record SubtaskUpdate : Type := MkUpdate {
  upd_TaskID : string; upd_NodeID : string; upd_SubtaskID : string; upd_State : TaskState;
  upd_Result : RawMessage; upd_ErrorCode : string; upd_ErrorMessage : string; upd_Attempt : Z
}.

(** [InMemoryTaskStore.tasks]: each task's one shared record. *)
Abbreviation InMemoryTaskStore := (gmap string NopTaskRecord).

Definition NewInMemoryTaskStore : InMemoryTaskStore := ∅.

Definition Save (s : InMemoryTaskStore) (record : NopTaskRecord) : go_result unit * InMemoryTaskStore :=
  match s !! rec_TaskID record with
  | Some _ => (Err (ErrPlain ("task already exists: " +:+ rec_TaskID record)), s)
  | None => (Ok tt, <[rec_TaskID record := record]> s)
  end.

Definition GetTask (s : InMemoryTaskStore) (taskID : string) : option NopTaskRecord := s !! taskID.

Definition set_state (st : TaskState) (r : NopTaskRecord) : NopTaskRecord :=
  MkTaskRecord (rec_TaskID r) (rec_Task r) st (StartedAt r) (CompletedAt r) (Subtasks r).
Definition set_completed (t : Z) (r : NopTaskRecord) : NopTaskRecord :=
  MkTaskRecord (rec_TaskID r) (rec_Task r) (State r) (StartedAt r) (Some t) (Subtasks r).
Definition set_subtasks (m : gmap string NopSubtaskRecord) (r : NopTaskRecord) : NopTaskRecord :=
  MkTaskRecord (rec_TaskID r) (rec_Task r) (State r) (StartedAt r) (CompletedAt r) m.

Definition UpdateState (s : InMemoryTaskStore) (taskID : string) (st : TaskState) : InMemoryTaskStore :=
  alter (set_state st) taskID s.

(** The subtask record after an update; fields left empty keep their value. *)
Definition updated_subtask (old : option NopSubtaskRecord) (upd : SubtaskUpdate) : NopSubtaskRecord :=
  let sub := default (MkSubtask (upd_NodeID upd) (upd_SubtaskID upd) TaskStatePending None "" "" 0) old in
  MkSubtask (sub_NodeID sub) (sub_SubtaskID sub) (upd_State upd)
    (match upd_Result upd with Some r => Some r | None => sub_Result sub end)
    (if String.eqb (upd_ErrorCode upd) "" then sub_ErrorCode sub else upd_ErrorCode upd)
    (if String.eqb (upd_ErrorMessage upd) "" then sub_ErrorMessage sub else upd_ErrorMessage upd)
    (upd_Attempt upd).

Definition UpdateSubtask (s : InMemoryTaskStore) (upd : SubtaskUpdate) : InMemoryTaskStore :=
  alter (fun r => set_subtasks
           (<[upd_NodeID upd := updated_subtask (Subtasks r !! upd_NodeID upd) upd]> (Subtasks r)) r)
        (upd_TaskID upd) s.

(** A write to the store. *)
Inductive store_op : Type :=
| OpState (taskID : string) (st : TaskState)
| OpSubtask (upd : SubtaskUpdate).

Definition apply_op (s : InMemoryTaskStore) (op : store_op) : InMemoryTaskStore :=
  match op with OpState id st => UpdateState s id st | OpSubtask upd => UpdateSubtask s upd end.

Record SagaCompensationResult : Type := MkSaga {
  Attempted : Z; Succeeded : Z; Failed : Z; FailedNodeIDs : list string
}.

Record NopTaskResult : Type := MkTaskResult {
  res_TaskID : string; FinalState : TaskState; AggregatedResult : RawMessage;
  res_ErrorCode : string; res_ErrorMessage : string; NodeResults : Results;
  Compensation : option SagaCompensationResult
}.

Definition newSuccessResult (taskID : string) (aggregated : RawMessage) (nodeResults : Results)
    (comp : option SagaCompensationResult) : NopTaskResult :=
  MkTaskResult taskID TaskStateCompleted aggregated "" "" nodeResults comp.
Definition newFailureResult (taskID errorCode errorMessage : string)
    (comp : option SagaCompensationResult) : NopTaskResult :=
  MkTaskResult taskID TaskStateFailed None errorCode errorMessage ∅ comp.

(** ** orchestrator_options.go *)

Record OrchestratorOptions : Type := MkOrchestratorOptions {
  MaxConcurrentNodes : Z; ValidateSenderNID : bool; EnableCallback : bool;
  CallbackTimeoutMs : Z; CallbackRetryBaseDelayMs : Z; DefaultAggregateStrategy : string
}.

(** [procs] is [runtime.GOMAXPROCS(0)]. *)
Definition DefaultOrchestratorOptions (procs : Z) : OrchestratorOptions :=
  MkOrchestratorOptions (procs * 2) true true 10000 1000 AggregateStrategyMerge.

Definition normalized (procs : Z) (o : option OrchestratorOptions) : OrchestratorOptions :=
  match o with
  | None => DefaultOrchestratorOptions procs
  | Some o =>
      MkOrchestratorOptions
        (if MaxConcurrentNodes o <=? 0 then procs * 2 else MaxConcurrentNodes o)
        (ValidateSenderNID o) (EnableCallback o)
        (if CallbackTimeoutMs o <=? 0 then 10000 else CallbackTimeoutMs o)
        (CallbackRetryBaseDelayMs o)
        (if String.eqb (DefaultAggregateStrategy o) "" then AggregateStrategyMerge
         else DefaultAggregateStrategy o)
  end.

(** ** worker_client.go *)

Record StreamError : Type := MkStreamError { se_Code : string; se_Message : string; Retryable : bool }.

Record WorkerStreamFrame : Type := MkWorkerFrame {
  StreamID : string; wf_TaskID : string; wf_SubtaskID : string; Seq : Z; Data : RawMessage;
  wf_IsFinal : bool; SenderNID : string; wf_Error : option StreamError
}.

(** [DeadlineAt] is the offset in milliseconds from the time of the call. *)
Record DelegateRequest : Type := MkDelegateRequest {
  ParentTaskID : string; rq_SubtaskID : string; rq_NodeID : string; TargetAgentNID : string;
  rq_Action : string; Params : json; DelegatedScope : json; DeadlineAt : Z;
  IdempotencyKey : string; rq_Priority : string; rq_Context : any; rq_DelegateDepth : Z
}.

(** What the select loop of a delegation sees next. *)
Inductive stream_event : Type :=
| EvFrame (f : WorkerStreamFrame)
| EvClosed                          (* the channel was closed *)
| EvDone (parentErr : bool).        (* the node context is done; is the task's? *)

(** The surroundings of one node's execution; attempts count from 1. *)
Record NodeEnv : Type := MkNodeEnv {
  Delegate : Z -> DelegateRequest -> go_result (list stream_event);
  ctx_done : Z -> bool;             (* ctx.Err() != nil before the attempt *)
  wait_done : Z -> bool;            (* ctx.Done() won the wait after the attempt *)
  env_subtaskID : string;
  env_idempotencyKey : string
}.

(** ** Node execution (nop/orchestrator.go) *)

Record nodeOutcome : Type := MkOutcome {
  state : TaskState; out_result : RawMessage; errorCode : string; errorMessage : string
}.

Definition failed (code msg : string) : nodeOutcome := MkOutcome TaskStateFailed None code msg.
Definition completed (r : RawMessage) : nodeOutcome := MkOutcome TaskStateCompleted r "" "".

(** The select loop.  A final frame returns at once, so a closed channel always
    means that no final frame came. *)
Fixpoint stream_loop (opts : OrchestratorOptions) (node : DagNode) (nodeTimeoutMs : Z)
    (events : list stream_event) (lastSeq : Z) : nodeOutcome :=
  let timeout := failed ErrDelegateTimeout
        ("Node '" +:+ ID node +:+ "' timed out after " +:+ fmt_d nodeTimeoutMs +:+ "ms.") in
  match events with
  | [] => timeout
  | EvDone parentErr :: _ => if parentErr then failed ErrTaskCancelled "" else timeout
  | EvClosed :: _ => failed ErrDelegateTimeout "Stream ended without final frame."
  | EvFrame frame :: events =>
      if negb (Seq frame =? lastSeq) && negb (Seq frame =? 0) && negb (Seq frame =? u64 (lastSeq + 1))
      then failed ErrStreamSeqGap ""
      else if ValidateSenderNID opts && negb (String.eqb (SenderNID frame) (Agent node)) then
        failed ErrStreamNidMismatch ""
      else if wf_IsFinal frame then
        match wf_Error frame with
        | Some e => failed (se_Code e) (se_Message e)
        | None => completed (Data frame)
        end
      else stream_loop opts node nodeTimeoutMs events (Seq frame)
  end.

Definition executeNodeOnce (opts : OrchestratorOptions) (env : NodeEnv) (task : OrchestratorTask)
    (node : DagNode) (attempt : Z) (context : Results) : nodeOutcome :=
  match BuildParams (InputMapping node) context with
  | Err e =>
      failed (if String.eqb (MappingErrorCode e) "" then ErrInputMappingError else MappingErrorCode e)
        (Message e)
  | Ok params =>
      let nodeTimeoutMs := default (effectiveTimeoutMs task) (TimeoutMs node) in
      let nodeTimeoutMs := if nodeTimeoutMs >? MaxTimeoutMs then MaxTimeoutMs else nodeTimeoutMs in
      let req := MkDelegateRequest (TaskID task) (env_subtaskID env) (ID node) (Agent node)
                   (NodeAction node) params (JObj []) nodeTimeoutMs (env_idempotencyKey env)
                   (effectivePriority task) (Context_ task) (DelegateDepth task + 1) in
      match Delegate env attempt req with
      | Err e => failed ErrDelegateRejected (error_text e)
      | Ok events => stream_loop opts node nodeTimeoutMs events 0
      end
  end.

Definition shouldRetry (policy : option RetryPolicy) (code : string) (attempt maxRetries : Z) : bool :=
  if attempt >? maxRetries then false
  else match policy with
       | Some p => match RetryOn p with
                   | [] => true
                   | l => if String.eqb code "" then true else mem_string code l
                   end
       | None => true
       end.

Definition ConditionError_text (e : ConditionError) : string :=
  ce_Message e +:+ "  Expression: «" +:+ ce_Expression e +:+ "»".

Section Retry.
Context (RawText : json -> string) (opts : OrchestratorOptions) (env : NodeEnv).
Context (task : OrchestratorTask) (node : DagNode) (context : Results).

Definition maxRetries : Z := match RetryPolicyOf node with Some p => MaxRetries p | None => TaskMaxRetries task end.

Definition update (st : TaskState) (r : RawMessage) (code msg : string) (attempt : Z) : SubtaskUpdate :=
  MkUpdate (TaskID task) (ID node) (env_subtaskID env) st r code msg attempt.

(** The condition, before the first attempt only: an early outcome, if any. *)
Definition check_condition (attempt : Z) : option (nodeOutcome * list SubtaskUpdate) :=
  if (attempt =? 1) && negb (String.eqb (Condition node) "") then
    match EvaluateCondition RawText context (Condition node) with
    | Err e =>
        let msg := default "" (ConditionError_text <$> e) in
        Some (failed ErrConditionEvalError msg,
              [update TaskStateFailed None ErrConditionEvalError msg attempt])
    | Ok false => Some (MkOutcome TaskStateSkipped None "" "", [update TaskStateSkipped None "" "" attempt])
    | Ok true => None
    end
  else None.

(** The loop; [left_] is the number of iterations that remain. *)
Fixpoint retry_loop (left_ : nat) (attempt : Z) : nodeOutcome * list SubtaskUpdate :=
  match left_ with
  | O =>
      (failed ErrDelegateTimeout "",
       [update TaskStateFailed None ErrDelegateTimeout
          ("Node '" +:+ ID node +:+ "' exhausted " +:+ fmt_d maxRetries +:+ " retries.") 0])
  | S n =>
      if ctx_done env attempt then (failed ErrTaskCancelled "", [])
      else
        match check_condition attempt with
        | Some r => r
        | None =>
            let running := update TaskStateRunning None "" "" attempt in
            let outcome := executeNodeOnce opts env task node attempt context in
            if bool_decide (state outcome = TaskStateCompleted) then
              (outcome, [running; update TaskStateCompleted (out_result outcome) "" "" attempt])
            else if negb (shouldRetry (RetryPolicyOf node) (errorCode outcome) attempt maxRetries) then
              (outcome, [running; update TaskStateFailed None (errorCode outcome) (errorMessage outcome) attempt])
            else if wait_done env attempt then (failed ErrTaskCancelled "", [running])
            else let '(o, log) := retry_loop n (attempt + 1) in (o, running :: log)
        end
  end.

Definition executeNodeWithRetry : nodeOutcome * list SubtaskUpdate :=
  retry_loop (Z.to_nat (maxRetries + 1)) 1.
End Retry.

(** ** Lemmas: streams *)

(** The sequence numbers a stream may continue with after [last]. *)
Fixpoint seq_chain (last : Z) (fs : list WorkerStreamFrame) : Prop :=
  match fs with
  | [] => True
  | f :: r => (Seq f = last \/ Seq f = 0 \/ Seq f = u64 (last + 1)) /\ seq_chain (Seq f) r
  end.

Definition sender_ok (opts : OrchestratorOptions) (node : DagNode) (f : WorkerStreamFrame) : Prop :=
  ValidateSenderNID opts = true -> SenderNID f = Agent node.

(** The stream delivers the result [r]: good frames, then a final one without error. *)
Definition delivers (opts : OrchestratorOptions) (node : DagNode) (last : Z)
    (events : list stream_event) (r : RawMessage) : Prop :=
  exists pre f post, events = (EvFrame <$> pre) ++ EvFrame f :: post /\
    Forall (fun g => wf_IsFinal g = false) pre /\ wf_IsFinal f = true /\ wf_Error f = None /\
    Data f = r /\ seq_chain last (pre ++ [f]) /\ Forall (sender_ok opts node) (pre ++ [f]).

Lemma seq_test s last :
  negb (s =? last) && negb (s =? 0) && negb (s =? u64 (last + 1)) = false <->
  s = last \/ s = 0 \/ s = u64 (last + 1).
Proof. rewrite !andb_false_iff, !negb_false_iff, !Z.eqb_eq. tauto. Qed.

Lemma sender_test opts node f :
  ValidateSenderNID opts && negb (String.eqb (SenderNID f) (Agent node)) = false <-> sender_ok opts node f.
Proof.
  unfold sender_ok. rewrite andb_false_iff, negb_false_iff, String.eqb_eq.
  destruct (ValidateSenderNID opts); naive_solver.
Qed.

Lemma stream_failed_or opts node t events last :
  state (stream_loop opts node t events last) = TaskStateFailed \/
  exists r, stream_loop opts node t events last = completed r.
Proof.
  revert last; induction events as [|[f| |[]] events IH]; intros last; simpl; try (by left).
  repeat (case_match; try (by left)); [right; by eexists|apply IH].
Qed.

Lemma stream_delivers opts node t events last r :
  stream_loop opts node t events last = completed r <-> delivers opts node last events r.
Proof.
  revert last; induction events as [|[f| |[]] events IH]; intros last; cbn [stream_loop];
    try (split; [done|intros ([|? ?] & ? & ? & E & _); discriminate E]).
  destruct (negb _ && _ && _) eqn:Eq; [split; [done|]|].
  { intros (pre & g & post & E & _ & _ & _ & _ & Hq & _).
    destruct pre as [|g' pre]; simplify_eq/=; destruct Hq as [Hq _]; apply seq_test in Hq; congruence. }
  apply seq_test in Eq. destruct (ValidateSenderNID opts && _) eqn:Es; [split; [done|]|].
  { intros (pre & g & post & E & _ & _ & _ & _ & _ & Hs).
    destruct pre as [|g' pre]; simplify_eq/=; apply Forall_cons in Hs as [Hs _];
      apply sender_test in Hs; congruence. }
  apply sender_test in Es. destruct (wf_IsFinal f) eqn:Ef.
  - split.
    + destruct (wf_Error f) eqn:Ee; [done|]. intros [= <-].
      exists [], f, events. split_and!; simpl; try done. by apply Forall_singleton.
    + intros (pre & g & post & E & Hp & Hg & He & Hd & _). destruct pre as [|g' pre]; simplify_eq/=.
      * by rewrite He.
      * apply Forall_cons in Hp as [Hp _]. congruence.
  - rewrite IH. split.
    + intros (pre & g & post & -> & Hp & Hg & He & Hd & Hq & Hs).
      exists (f :: pre), g, post. split_and!; simpl; try done; by constructor.
    + intros (pre & g & post & E & Hp & Hg & He & Hd & Hq & Hs).
      destruct pre as [|g' pre]; simplify_eq/=; [congruence|].
      apply Forall_cons in Hp as [_ Hp]. apply Forall_cons in Hs as [_ Hs]. destruct Hq as [_ Hq].
      by exists pre, g, post.
Qed.

Lemma once_failed_or opts env task node attempt context :
  state (executeNodeOnce opts env task node attempt context) = TaskStateFailed \/
  exists r, executeNodeOnce opts env task node attempt context = completed r.
Proof.
  unfold executeNodeOnce. case_match; [|by left]. case_match; [|by left]. apply stream_failed_or.
Qed.

(** ** Lemmas: retries *)

Section RetryLemmas.
Context (RawText : json -> string) (opts : OrchestratorOptions) (env : NodeEnv).
Context (task : OrchestratorTask) (node : DagNode) (context : Results).

Abbreviation loop := (retry_loop RawText opts env task node context).
Abbreviation once := (fun i => executeNodeOnce opts env task node i context).
Abbreviation retries := (maxRetries task node).
Abbreviation again := (fun i => shouldRetry (RetryPolicyOf node) (errorCode (once i)) i retries).

(** The number of delegations a log records. *)
Definition attempts (log : list SubtaskUpdate) : nat :=
  length (filter (fun u => upd_State u = TaskStateRunning) log).

Lemma loop_states n a :
  state (loop n a).1 ∈ [TaskStateCompleted; TaskStateFailed; TaskStateSkipped].
Proof.
  revert a; induction n as [|n IH]; intros a; cbn [retry_loop]; [set_solver|].
  destruct (ctx_done env a); [set_solver|]. unfold check_condition.
  destruct ((a =? 1) && _); [destruct (EvaluateCondition _ _ _) as [[]|]; try set_solver|].
  all: destruct (once_failed_or opts env task node a context) as [Hf|[r Hr]];
    [|rewrite Hr; simpl; set_solver].
  all: rewrite Hf; cbn; destruct (negb _); [simpl; rewrite Hf; set_solver|];
    destruct (wait_done env a); [set_solver|]; specialize (IH (a + 1));
    destruct (retry_loop _ _ _ _ _ _ _ _); done.
Qed.

Lemma attempts_cons u log :
  attempts (u :: log) = ((if decide (upd_State u = TaskStateRunning) then 1 else 0) + attempts log)%nat.
Proof. unfold attempts. rewrite filter_cons. by case_decide. Qed.

Lemma loop_attempts n a : (attempts (loop n a).2 <= n)%nat.
Proof.
  revert a; induction n as [|n IH]; intros a; cbn [retry_loop]; [done|].
  destruct (ctx_done env a); [unfold attempts; simpl; lia|]. unfold check_condition.
  destruct ((a =? 1) && _); [destruct (EvaluateCondition _ _ _) as [[]|]; try (unfold attempts; simpl; lia)|].
  all: case_bool_decide; [unfold attempts; simpl; lia|];
    destruct (negb _); [unfold attempts; simpl; lia|];
    destruct (wait_done env a); [unfold attempts; simpl; lia|]; specialize (IH (a + 1));
    destruct (retry_loop _ _ _ _ _ _ _ _); cbn [snd] in *; rewrite attempts_cons; simpl; lia.
Qed.

(** Attempt by attempt, when nothing is cancelled and the condition lets the node run. *)
Lemma loop_trace n a :
  (forall i, ctx_done env i = false) -> (forall i, wait_done env i = false) ->
  (a = 1 -> check_condition RawText env task node context 1 = None) ->
  1 <= a -> retries + 2 = a + Z.of_nat n -> (0 < n)%nat ->
  exists k, a <= k <= retries + 1 /\ (loop n a).1 = once k /\
    (forall i, a <= i < k -> state (once i) <> TaskStateCompleted /\ again i = true) /\
    (state (once k) = TaskStateCompleted \/ again k = false) /\
    Z.of_nat (attempts (loop n a).2) = k - a + 1.
Proof.
  intros Hc Hw. revert a; induction n as [|n IH]; intros a Hcond Ha Hn Hpos; [lia|].
  cbn [retry_loop]. rewrite Hc.
  assert (check_condition RawText env task node context a = None) as ->.
  { destruct (decide (a = 1)) as [->|Hne]; [by apply Hcond|]. unfold check_condition.
    by rewrite (proj2 (Z.eqb_neq _ _) Hne). }
  assert (Hcase : forall o u1 u2, upd_State u1 = TaskStateRunning -> upd_State u2 <> TaskStateRunning ->
    o = once a -> (state (once a) = TaskStateCompleted \/ again a = false) ->
    exists k, a <= k <= retries + 1 /\ o = once k /\
      (forall i, a <= i < k -> state (once i) <> TaskStateCompleted /\ again i = true) /\
      (state (once k) = TaskStateCompleted \/ again k = false) /\
      Z.of_nat (attempts [u1; u2]) = k - a + 1).
  { intros o u1 u2 H1 H2 -> Hend. exists a. split_and!; try done; try lia.
    rewrite !attempts_cons, decide_True, decide_False by done. unfold attempts. simpl. lia. }
  case_bool_decide as Hcp; [by apply Hcase; [..|left]|].
  destruct (shouldRetry _ _ _ _) eqn:Er; cbn [negb]; [|by apply Hcase; [..|right]].
  rewrite Hw. assert (a <= retries).
  { unfold shouldRetry in Er. destruct (a >? retries) eqn:Eg; [done|]. bool_hyps. lia. }
  destruct (IH (a + 1)) as (k & Hk & Ho & Hi & He & Hat); [lia..|].
  exists k. destruct (retry_loop _ _ _ _ _ _ _ _) as [o log]. cbn [fst snd] in *.
  split_and!; try done; try lia.
  - intros i Hia. destruct (decide (i = a)) as [->|]; [done|]. apply Hi. lia.
  - rewrite attempts_cons, decide_True by done. lia.
Qed.
End RetryLemmas.

(** ** Lemmas: the store *)

(** The node a subtask write is about. *)
Definition touches (op : store_op) : option (string * string) :=
  match op with OpSubtask u => Some (upd_TaskID u, upd_NodeID u) | OpState _ _ => None end.

Lemma alter_alter_commute (f g : NopTaskRecord -> NopTaskRecord) i j (s : InMemoryTaskStore) :
  (i = j -> forall r, f (g r) = g (f r)) -> alter f i (alter g j s) = alter g j (alter f i s).
Proof.
  intros Hfg. apply map_eq. intros k. rewrite !lookup_alter.
  repeat case_decide; subst; try done. destruct (s !! k); simpl; [|done]. f_equal. by apply Hfg.
Qed.

(** ** Properties *)

(** A node's execution stays within its retry budget and ends in a terminal
    state: at most MaxRetries + 1 delegations are made, whatever the worker and
    the context do, and the outcome is completed, failed or skipped. *)
Theorem retry_bounded RawText opts env task node context :
  0 <= maxRetries task node ->
  let '(o, log) := executeNodeWithRetry RawText opts env task node context in
  state o ∈ [TaskStateCompleted; TaskStateFailed; TaskStateSkipped] /\
  Z.of_nat (attempts log) <= maxRetries task node + 1.
Proof.
  intros Hm. unfold executeNodeWithRetry.
  pose proof (loop_states RawText opts env task node context (Z.to_nat (maxRetries task node + 1)) 1) as Hs.
  pose proof (loop_attempts RawText opts env task node context (Z.to_nat (maxRetries task node + 1)) 1) as Ha.
  destruct (retry_loop _ _ _ _ _ _ _ _) as [o log]. simpl in *. split; [done|lia].
Qed.

(** Retry discipline: if the context is never cancelled and the condition lets
    the node run, the outcome is that of some attempt k within the budget, every
    earlier attempt failed with a retryable error, the k-th either completed or
    is not retryable, and exactly k delegations were recorded; in particular the
    exhaustion outcome after the loop is never produced. *)
Theorem retry_discipline RawText opts env task node context :
  0 <= maxRetries task node ->
  (forall i, ctx_done env i = false) -> (forall i, wait_done env i = false) ->
  check_condition RawText env task node context 1 = None ->
  let once i := executeNodeOnce opts env task node i context in
  let again i := shouldRetry (RetryPolicyOf node) (errorCode (once i)) i (maxRetries task node) in
  exists k, 1 <= k <= maxRetries task node + 1 /\
    let '(o, log) := executeNodeWithRetry RawText opts env task node context in
    o = once k /\
    (forall i, 1 <= i < k -> state (once i) = TaskStateFailed /\ again i = true) /\
    (state o = TaskStateCompleted \/ again k = false) /\
    Z.of_nat (attempts log) = k.
Proof.
  intros Hm Hc Hw Hcond once again.
  destruct (loop_trace RawText opts env task node context (Z.to_nat (maxRetries task node + 1)) 1)
    as (k & Hk & Ho & Hi & He & Ha); try done; try lia.
  exists k. split; [done|]. unfold executeNodeWithRetry.
  destruct (retry_loop _ _ _ _ _ _ _ _) as [o log]. cbn [fst snd] in *. subst o.
  split_and!; [done| |done|lia]. intros i Hik. destruct (Hi i Hik) as [Hn Hr]. split; [|done].
  destruct (once_failed_or opts env task node i context) as [|[r E]]; [done|].
  unfold once in Hn. by rewrite E in Hn.
Qed.

(** A delegation completes with a result exactly when the worker's stream
    delivers it: contiguous sequence numbers, every frame (when validation is on)
    from the node's own agent, and a final frame without error that carries the
    result; anything else is a failure. *)
Theorem stream_completes_iff opts node timeout events r :
  (stream_loop opts node timeout events 0 = completed r <-> delivers opts node 0 events r) /\
  ((forall r', ~ delivers opts node 0 events r') ->
     state (stream_loop opts node timeout events 0) = TaskStateFailed).
Proof.
  split; [apply stream_delivers|]. intros Hn.
  destruct (stream_failed_or opts node timeout events 0) as [|[r' E]]; [done|].
  apply stream_delivers in E. by apply Hn in E.
Qed.

(** Concurrent nodes do not disturb each other's records: writes about
    different nodes, and state writes against subtask writes, commute, so any
    interleaving of the nodes' updates leaves the same store. *)
Theorem store_writes_commute s op1 op2 :
  touches op1 <> touches op2 -> apply_op (apply_op s op1) op2 = apply_op (apply_op s op2) op1.
Proof.
  intros Hne. destruct op1 as [i1 st1|u1], op2 as [i2 st2|u2]; [done|..]; cbn [apply_op];
    unfold UpdateState, UpdateSubtask; apply alter_alter_commute; try done.
  intros Et r. unfold set_subtasks. cbn [Subtasks rec_TaskID rec_Task State StartedAt CompletedAt].
  assert (upd_NodeID u1 <> upd_NodeID u2) as Hn by (intros En; apply Hne; cbn; congruence).
  f_equal. rewrite !lookup_insert_ne by done. by apply insert_insert_ne.
Qed.

(** ** Witnesses *)

(** A worker whose first delegation is refused and whose second delivers [7]. *)
Definition flaky_env : NodeEnv :=
  MkNodeEnv (fun a _ => if a =? 1 then Err (ErrPlain "refused")
                        else Ok [EvFrame (MkWorkerFrame "s" "t" "u" 0 (Some (JNum "7")) true "agent" None)])
    (fun _ => false) (fun _ => false) "sub" "key".

Definition sample_task : OrchestratorTask :=
  MkTask "t" None 0 2 "" "" "" false VNil "" 0 "".
Definition sample_node : DagNode :=
  MkDagNode "n" "nwp://act" "agent" [] [] None None "" 0 "" [].

Example flaky_outcome :
  (executeNodeWithRetry (fun _ => "") (DefaultOrchestratorOptions 1) flaky_env sample_task sample_node ∅).1
    = completed (Some (JNum "7")).
Proof. vm_compute. reflexivity. Qed.

Lemma retry_bounded_witness :
  let '(o, log) := executeNodeWithRetry (fun _ => "") (DefaultOrchestratorOptions 1) flaky_env sample_task sample_node ∅ in
  state o ∈ [TaskStateCompleted; TaskStateFailed; TaskStateSkipped] /\ Z.of_nat (attempts log) <= 3.
Proof.
  apply (retry_bounded (fun _ => "") (DefaultOrchestratorOptions 1) flaky_env sample_task sample_node ∅).
  vm_compute. discriminate.
Defined.

Lemma retry_discipline_witness :
  let once i := executeNodeOnce (DefaultOrchestratorOptions 1) flaky_env sample_task sample_node i ∅ in
  let again i := shouldRetry None (errorCode (once i)) i 2 in
  exists k, 1 <= k <= 3 /\
    let '(o, log) := executeNodeWithRetry (fun _ => "") (DefaultOrchestratorOptions 1) flaky_env sample_task sample_node ∅ in
    o = once k /\
    (forall i, 1 <= i < k -> state (once i) = TaskStateFailed /\ again i = true) /\
    (state o = TaskStateCompleted \/ again k = false) /\ Z.of_nat (attempts log) = k.
Proof.
  apply (retry_discipline (fun _ => "") (DefaultOrchestratorOptions 1) flaky_env sample_task sample_node ∅);
    [vm_compute; discriminate|reflexivity..].
Defined.

Lemma store_writes_commute_witness :
  let u n := OpSubtask (MkUpdate "t" n "s" TaskStateRunning None "" "" 1) in
  let s : InMemoryTaskStore := {["t" := MkTaskRecord "t" sample_task TaskStateRunning 0 None ∅]} in
  apply_op (apply_op s (u "a")) (u "b") = apply_op (apply_op s (u "b")) (u "a").
Proof. intros u s. apply store_writes_commute. vm_compute. discriminate. Defined.
