(* ===== verification/NopRun.v ===== *)
(** * The NOP orchestrator: running a DAG

    The scheduling half of nop/orchestrator.go.  Node goroutines are what they
    send on the done channel: an in-flight node carries the outcome its execution
    computes from the snapshot of results taken when it was launched, and the
    run is driven by a schedule that says, per iteration of the main loop,
    whether the context is cancelled and which in-flight node finishes next.
    The theorems hold for every schedule.  Each iteration records the state of at
    least one more node, so one unit of fuel per node is enough ([loop_fuel]). *)

From S2P Require Import Prelude GoValue NopModels NopDag NopInput NopCondition NopTask.

(** ** What the scheduler needs from node execution *)

Class NodeExec := {
  exec : DagNode -> Results -> nodeOutcome * list SubtaskUpdate;
  exec_once : DagNode -> Results -> nodeOutcome;
  exec_terminal : forall n ctx,
    state (exec n ctx).1 ∈ [TaskStateCompleted; TaskStateFailed; TaskStateSkipped]
}.

(** The implementation of NopTask.v discharges it; [env] and [cenv] are the
    surroundings of a node's run and of its compensation. *)
#[refine] Instance orchestrator_exec (RawText : json -> string) (opts : OrchestratorOptions)
    (env cenv : string -> NodeEnv) (task : OrchestratorTask) : NodeExec := {|
  exec n ctx := executeNodeWithRetry RawText opts (env (ID n)) task n ctx;
  exec_once n ctx := executeNodeOnce opts (cenv (ID n)) task n 1 ctx |}.
Proof. intros n ctx. apply loop_states. Defined.

Abbreviation States := (gmap string TaskState).

(** ** Dependencies *)

Definition dep_in (states : States) (match_ : list TaskState) (d : string) : bool :=
  match states !! d with
  | Some s => existsb (fun m => bool_decide (s = m)) match_
  | None => false
  end.

Definition countDeps (deps : list string) (states : States) (match_ : list TaskState) : Z :=
  Z.of_nat (length (List.filter (dep_in states match_) deps)).

(** [k]: all dependencies, or [MinRequired] of them, converted to int. *)
Definition required (node : DagNode) : Z :=
  if MinRequired node >? 0 then i64 (MinRequired node) else Z.of_nat (length (InputFrom node)).

Definition succeeded_deps (node : DagNode) (states : States) : Z :=
  countDeps (InputFrom node) states [TaskStateCompleted; TaskStateSkipped].
Definition failed_deps (node : DagNode) (states : States) : Z :=
  countDeps (InputFrom node) states [TaskStateFailed].

Definition areDepsDone (node : DagNode) (states : States) : bool :=
  match InputFrom node with
  | [] => true
  | _ =>
      if succeeded_deps node states >=? required node then true
      else Z.of_nat (length (InputFrom node)) - failed_deps node states <? required node
  end.

Definition canEndNodeStillSucceed (node : DagNode) (states : States) : bool :=
  match InputFrom node with
  | [] => false
  | _ => Z.of_nat (length (InputFrom node)) - failed_deps node states >=? required node
  end.

Definition edge_adjacency (edges : list DagEdge) : Adjacency :=
  fold_left (fun adj e => <[From e := default [] (adj !! From e) ++ [To e]]> adj) edges ∅.

(** The breadth-first search; the queue receives each edge at most once. *)
Fixpoint reach_loop (fuel : nat) (adj : Adjacency) (target : string) (visited : gset string)
    (queue : list string) : bool :=
  match fuel with
  | O => false
  | S f =>
      match queue with
      | [] => false
      | cur :: queue =>
          if String.eqb cur target then true
          else if bool_decide (cur ∈ visited) then reach_loop f adj target visited queue
          else reach_loop f adj target ({[cur]} ∪ visited) (queue ++ default [] (adj !! cur))
      end
  end.

Definition canReachEndNode (endNodeID failedNodeID : string) (edges : list DagEdge) : bool :=
  reach_loop (S (length edges)) (edge_adjacency edges) endNodeID ∅ [failedNodeID].

(** ** The state of a run *)

Record run_state : Type := MkRun {
  rs_results : Results;                          (* nodeResults *)
  rs_states : States;                            (* nodeStates *)
  rs_inFlight : list (string * nodeOutcome);     (* inFlight, with what will be sent *)
  rs_log : list store_op;                        (* writes to the store *)
  rs_launched : list string                      (* the nodes launched so far *)
}.

Definition run_init : run_state := MkRun ∅ ∅ [] [] [].

Section Run.
Context `{NodeExec} (opts : OrchestratorOptions) (task : OrchestratorTask) (dag : TaskDag).
Context (topoOrder : list string) (newUUID : string -> string).

Definition allNodes : gmap string DagNode :=
  fold_left (fun m n => <[ID n := n]> m) (Nodes dag) ∅.

(** Nodes without an outgoing edge, in declaration order. *)
Definition endNodeIDs : list string :=
  filter (fun id => id ∉ From <$> Edges dag) (ID <$> Nodes dag).

Definition ready (st : run_state) (n : DagNode) : bool :=
  negb (bool_decide (is_Some (rs_states st !! ID n))) &&
  negb (mem_string (ID n) (rs_inFlight st).*1) && areDepsDone n (rs_states st).

(** K-of-N: ready nodes that can no longer have enough dependencies fail now. *)
Fixpoint k_of_n (nodes : list DagNode) (states : States) (log : list store_op) :
    list DagNode * States * list store_op :=
  match nodes with
  | [] => ([], states, log)
  | n :: r =>
      let success := succeeded_deps n states in
      if negb (bool_decide (InputFrom n = [])) && (success <? required n) then
        k_of_n r (<[ID n := TaskStateFailed]> states)
          (log ++ [OpSubtask (MkUpdate (TaskID task) (ID n) (newUUID (ID n)) TaskStateFailed None
                     ErrSyncDependencyFailed ("Only " +:+ fmt_d success +:+ "/" +:+ fmt_d (required n) +:+
                     " required dependencies succeeded.") 0)])
      else let '(filtered, states, log) := k_of_n r states log in (n :: filtered, states, log)
  end.

(** Launch up to [MaxConcurrentNodes]; the outcome is computed from the snapshot. *)
Fixpoint launch (nodes : list DagNode) (st : run_state) : run_state :=
  match nodes with
  | [] => st
  | n :: r =>
      if Z.of_nat (length (rs_inFlight st)) >=? MaxConcurrentNodes opts then st
      else
        let '(o, updates) := exec n (rs_results st) in
        launch r (MkRun (rs_results st) (rs_states st) (rs_inFlight st ++ [(ID n, o)])
                    (rs_log st ++ (OpSubtask <$> updates)) (rs_launched st ++ [ID n]))
  end.

(** The first half of an iteration. *)
Definition schedule (st : run_state) : run_state :=
  let '(nodes, states, log) := k_of_n (List.filter (ready st) (Nodes dag)) (rs_states st) (rs_log st) in
  launch nodes (MkRun (rs_results st) states (rs_inFlight st) log (rs_launched st)).

(** Receiving a message: the second half, up to the failure check. *)
Definition receive (st : run_state) (id : string) (o : nodeOutcome) : run_state :=
  MkRun (match out_result o with
         | Some r => if bool_decide (state o = TaskStateCompleted)
                     then <[id := r]> (rs_results st) else rs_results st
         | None => rs_results st
         end)
        (<[id := state o]> (rs_states st))
        (List.filter (fun '(i, _) => negb (String.eqb i id)) (rs_inFlight st))
        (rs_log st) (rs_launched st).

Definition mustAbort (st : run_state) (id : string) : bool :=
  existsb (fun e => canReachEndNode e id (Edges dag) &&
                    negb (match allNodes !! e with
                          | Some n => canEndNodeStillSucceed n (rs_states st)
                          | None => false
                          end)) endNodeIDs.

(** ** Saga compensation *)

Definition compensation_node (node : DagNode) : DagNode :=
  MkDagNode (ID node) (CompensateAction node) (Agent node) [] (CompensateParamsMapping node)
    (TimeoutMs node) None "" 0 "" [].

(** The completed nodes, in reverse topological order. *)
Definition completed_nodes (states : States) : list DagNode :=
  omap (fun id => if bool_decide (states !! id = Some TaskStateCompleted) then allNodes !! id else None)
    (reverse topoOrder).

Definition has_compensation (n : DagNode) : bool := negb (String.eqb (CompensateAction n) "").

Definition runSagaCompensation (results : Results) (states : States) :
    SagaCompensationResult * list store_op :=
  let completed := completed_nodes states in
  let missing := ID <$> List.filter (fun n => negb (has_compensation n)) completed in
  if CompensationIsStrict (effectiveCompensationPolicy task) && negb (bool_decide (missing = [])) then
    (MkSaga 0 0 (Z.of_nat (length missing)) missing, [])
  else
    let toCompensate := List.filter has_compensation completed in
    if bool_decide (length toCompensate = 0%nat) then (MkSaga 0 0 0 [], [])
    else
      let run n := exec_once (compensation_node n) results in
      let ok n := bool_decide (state (run n) = TaskStateCompleted) in
      let failedIDs := ID <$> List.filter (fun n => negb (ok n)) toCompensate in
      (MkSaga (Z.of_nat (length toCompensate)) (Z.of_nat (length (List.filter ok toCompensate)))
         (Z.of_nat (length failedIDs)) failedIDs,
       [OpState (TaskID task) TaskStateCompensating]).

Definition compensationFailureErrorCode (comp : option SagaCompensationResult) : string :=
  match comp with
  | Some c =>
      if negb (CompensationIsStrict (effectiveCompensationPolicy task)) || (Failed c =? 0) then ""
      else if Attempted c =? 0 then ErrCompensationNotSupported else ErrCompensationFailed
  | None => ""
  end.

Definition buildAbortResult (st : run_state) (defaultCode message : string) :
    NopTaskResult * list store_op :=
  let '(comp, ops) :=
    if CompensationRunsOnFailure (effectiveCompensationPolicy task)
    then let '(c, ops) := runSagaCompensation (rs_results st) (rs_states st) in (Some c, ops)
    else (None, []) in
  let code := compensationFailureErrorCode comp in
  (newFailureResult (TaskID task) (if String.eqb code "" then defaultCode else code) message comp,
   rs_log st ++ ops).

(** ** The main loop *)

Inductive iteration_result : Type :=
| Return (r : NopTaskResult) (log : list store_op)     (* return from runDag *)
| Break (st : run_state)                               (* leave the loop *)
| Continue (st : run_state).

(** One iteration; the choice says whether the context is cancelled and which
    in-flight node's message arrives. *)
Definition iteration (choice : bool * nat) (st : run_state) : iteration_result :=
  let '(cancelled, pick) := choice in
  if cancelled then
    let '(r, log) := buildAbortResult st ErrTaskCancelled "Task cancelled." in Return r log
  else
    let st := schedule st in
    match rs_inFlight st !! (pick mod length (rs_inFlight st))%nat with
    | None => Break st                       (* nothing in flight *)
    | Some (id, o) =>
        let st := receive st id o in
        if bool_decide (state o = TaskStateFailed) && mustAbort st id then
          let '(r, log) := buildAbortResult st ErrSyncDependencyFailed
                             ("Node '" +:+ id +:+ "' failed: " +:+ errorCode o) in Return r log
        else Continue st
    end.

(** After the loop: failed end nodes, aggregation, compensation on success. *)
Definition conclude (st : run_state) : NopTaskResult * list store_op :=
  let failedNodes := (List.filter (fun '(_, s) => bool_decide (s = TaskStateFailed))
                        (map_to_list (rs_states st))).*1 in
  let endFailed := existsb (fun e => bool_decide (rs_states st !! e = Some TaskStateFailed)) endNodeIDs in
  if negb (bool_decide (failedNodes = [])) && endFailed then
    buildAbortResult st ErrSyncDependencyFailed ("End node(s) failed: " +:+ join ", " failedNodes)
  else
    let aggregated := AggregateEndNodes endNodeIDs (rs_results st) (DefaultAggregateStrategy opts) in
    let '(comp, ops) :=
      if CompensationRunsOnSuccess (effectiveCompensationPolicy task)
      then let '(c, ops) := runSagaCompensation (rs_results st) (rs_states st) in (Some c, ops)
      else (None, []) in
    (newSuccessResult (TaskID task) (Some aggregated) (rs_results st) comp, rs_log st ++ ops).

Definition unfinished (st : run_state) : bool := (size (rs_states st) <? size allNodes)%nat.

(** The loop under a schedule; [None] is running out of fuel. *)
Fixpoint dag_loop (fuel : nat) (sched : nat -> bool * nat) (i : nat) (st : run_state) :
    option (NopTaskResult * list store_op) :=
  if unfinished st then
    match fuel with
    | O => None
    | S f =>
        match iteration (sched i) st with
        | Return r log => Some (r, log)
        | Break st => Some (conclude st)
        | Continue st => dag_loop f sched (S i) st
        end
    end
  else Some (conclude st).

Definition runDag (sched : nat -> bool * nat) : option (NopTaskResult * list store_op) :=
  dag_loop (length (Nodes dag)) sched 0 run_init.

End Run.
