(* ===== verification/NopRunProof.v ===== *)
(** * The NOP orchestrator: safety, termination and success of a run

    Invariants of the states reachable under any schedule, by induction on the
    steps of the main loop, and what follows for [runDag]. *)

From S2P Require Import Prelude GoValue NopModels NopDag NopInput NopCondition NopTask NopRun.

(** ** Counting dependencies *)

Lemma filter_length_le {A} (f g : A -> bool) l :
  (forall x, x ∈ l -> f x = true -> g x = true) ->
  (length (List.filter f l) <= length (List.filter g l))%nat.
Proof.
  induction l as [|x l IH]; intros Hfg; simpl; [done|].
  assert (length (List.filter f l) <= length (List.filter g l))%nat by (apply IH; set_solver).
  destruct (f x) eqn:Ef.
  - rewrite Hfg by (done || set_solver). simpl. lia.
  - destruct (g x); simpl; lia.
Qed.

Lemma countDeps_mono deps (s s' : States) ms : s ⊆ s' -> countDeps deps s ms <= countDeps deps s' ms.
Proof.
  intros Hs. unfold countDeps. apply inj_le, filter_length_le. intros d _. unfold dep_in.
  destruct (s !! d) as [t|] eqn:E; [|done]. by rewrite (lookup_weaken _ _ _ _ E Hs).
Qed.

(** A new failure changes no success count. *)
Lemma success_insert_failed n (s : States) id :
  s !! id = None -> succeeded_deps n (<[id := TaskStateFailed]> s) = succeeded_deps n s.
Proof.
  intros Hn. unfold succeeded_deps, countDeps. do 2 f_equal. apply List.filter_ext. intros d.
  unfold dep_in. destruct (decide (d = id)) as [->|Hd].
  - by rewrite lookup_insert_eq, Hn.
  - by rewrite lookup_insert_ne.
Qed.

Section RunProof.
Context `{NodeExec} (opts : OrchestratorOptions) (task : OrchestratorTask) (dag : TaskDag).
Context (topoOrder : list string) (newUUID : string -> string).
Hypothesis Hids : NoDup (node_ids dag).
Hypothesis Hmax : 1 <= MaxConcurrentNodes opts.

Abbreviation schedule := (NopRun.schedule opts task dag newUUID).
Abbreviation iteration := (NopRun.iteration opts task dag topoOrder newUUID).
Abbreviation k_of_n := (NopRun.k_of_n task newUUID).
Abbreviation launch := (NopRun.launch opts).

Definition terminal : list TaskState := [TaskStateCompleted; TaskStateFailed; TaskStateSkipped].

(** A node may start: it has no dependencies or enough of them succeeded. *)
Definition may_start (s : States) (n : DagNode) : Prop :=
  InputFrom n = [] \/ required n <= succeeded_deps n s.

Lemma may_start_mono s s' n : s ⊆ s' -> may_start s n -> may_start s' n.
Proof.
  intros Hs [?|Hr]; [by left|right]. unfold succeeded_deps in *.
  pose proof (countDeps_mono (InputFrom n) s s' [TaskStateCompleted; TaskStateSkipped] Hs). lia.
Qed.

(** ** K-of-N and launching *)

Lemma k_of_n_spec nodes states log filtered states' log' :
  k_of_n nodes states log = (filtered, states', log') ->
  NoDup (ID <$> nodes) -> (forall n, n ∈ nodes -> states !! ID n = None) ->
  filtered `sublist_of` nodes /\ states ⊆ states' /\
  (forall n, n ∈ filtered -> may_start states n /\ states' !! ID n = None) /\
  (forall n, n ∈ nodes -> n ∉ filtered -> ~ may_start states n) /\
  (forall id s, states' !! id = Some s -> states !! id = Some s \/
     (s = TaskStateFailed /\ exists n, n ∈ nodes /\ ID n = id /\ ~ may_start states n)).
Proof.
  revert states log filtered. induction nodes as [|n nodes IH]; intros states log filtered E Hnd Hn.
  { simplify_eq/=. split_and!; [done|done|set_solver|set_solver|by left]. }
  csimpl in Hnd. apply NoDup_cons in Hnd as [Hni Hnd]. cbn [NopRun.k_of_n] in E.
  assert (Hnone : states !! ID n = None) by (apply Hn; set_solver).
  destruct (negb _ && _) eqn:Et.
  - bool_hyps. apply IH in E as (Hsub & Hst & Hf & Hnf & Hnew); [|done|].
    2: { intros m Hm. rewrite lookup_insert_ne; [apply Hn; set_solver|].
         intros En. apply Hni. rewrite En. by apply list_elem_of_fmap_2. }
    assert (Hms : forall m, may_start (<[ID n := TaskStateFailed]> states) m <-> may_start states m).
    { intros m. unfold may_start. by rewrite success_insert_failed. }
    split_and!.
    + by apply sublist_cons.
    + etrans; [by apply insert_subseteq|done].
    + intros m Hm. destruct (Hf m Hm) as [? ?]. by rewrite <- Hms.
    + intros m Hm Hmf. apply elem_of_cons in Hm as [->|Hm]; [|rewrite <- Hms; by apply Hnf].
      unfold may_start. intros [?|?]; [done|]. lia.
    + intros id s Hs. apply Hnew in Hs as [Hs|[-> (m & Hm & <- & Hms')]].
      * apply lookup_insert_Some in Hs as [[<- <-]|[_ Hs]]; [right|by left].
        split; [done|]. exists n. split_and!; [set_solver|done|]. unfold may_start. intros [?|?]; [done|lia].
      * right. split; [done|]. exists m. rewrite Hms in Hms'. set_solver.
  - destruct (k_of_n nodes states log) as [[fl st] lg] eqn:Ek. simplify_eq.
    apply IH in Ek as (Hsub & Hst & Hf & Hnf & Hnew); [|done|intros; apply Hn; set_solver].
    assert (Hmn : may_start states n).
    { unfold may_start. apply andb_false_iff in Et as [Et|Et]; bool_hyps; [by left|by right]. }
    split_and!.
    + by apply sublist_skip.
    + done.
    + intros m Hm. apply elem_of_cons in Hm as [->|Hm]; [|by apply Hf]. split; [done|].
      destruct (states' !! ID n) as [s|] eqn:E; [|done].
      apply Hnew in E as [E|(_ & m & Hm & E & _)]; [congruence|].
      destruct Hni. rewrite <- E. by apply list_elem_of_fmap_2.
    + intros m Hm Hmf. apply elem_of_cons in Hm as [->|Hm]; [set_solver|]. apply Hnf; set_solver.
    + intros id s Hs. apply Hnew in Hs as [Hs|[-> (m & Hm & ? & ?)]]; [by left|right].
      split; [done|]. exists m. set_solver.
Qed.

Lemma launch_spec nodes st :
  exists ns, ns `sublist_of` nodes /\
    rs_results (launch nodes st) = rs_results st /\ rs_states (launch nodes st) = rs_states st /\
    rs_inFlight (launch nodes st) = rs_inFlight st ++ ((fun n => (ID n, (exec n (rs_results st)).1)) <$> ns) /\
    rs_launched (launch nodes st) = rs_launched st ++ (ID <$> ns) /\
    (Z.of_nat (length (rs_inFlight st)) <= MaxConcurrentNodes opts ->
       Z.of_nat (length (rs_inFlight (launch nodes st))) <= MaxConcurrentNodes opts) /\
    (rs_inFlight st = [] -> nodes <> [] -> rs_inFlight (launch nodes st) <> []).
Proof.
  revert st; induction nodes as [|n nodes IH]; intros st.
  { exists []. cbn. rewrite !app_nil_r. by split_and!. }
  cbn [NopRun.launch]. destruct (_ >=? _) eqn:E; bool_hyps.
  { exists []. cbn. rewrite !app_nil_r. split_and!; try done; [apply sublist_nil_l|].
    intros Hnil. rewrite Hnil in E. simpl in E. lia. }
  destruct (exec n (rs_results st)) as [o ups] eqn:Ex.
  match goal with |- context [launch nodes ?s] => destruct (IH s) as (ns & Hs & Hr & Hst & Hf & Hl & Hc & _) end.
  cbn [rs_results rs_states rs_inFlight rs_launched] in *.
  exists (n :: ns). split_and!; [by apply sublist_skip|done|done| | | |].
  - rewrite Hf, <- app_assoc. csimpl. by rewrite Ex.
  - rewrite Hl, <- app_assoc. done.
  - intros _. apply Hc. rewrite length_app. simpl. lia.
  - intros _ _. rewrite Hf. by destruct (rs_inFlight st).
Qed.

(** ** The invariant of a run *)

Record run_inv (st : run_state) : Prop := {
  ri_launched : NoDup (rs_launched st);
  ri_known : forall id, id ∈ rs_launched st -> id ∈ node_ids dag;
  ri_dom : forall id s, rs_states st !! id = Some s -> id ∈ node_ids dag /\ s ∈ terminal;
  ri_flight : NoDup (rs_inFlight st).*1;
  ri_flight_new : forall id o, (id, o) ∈ rs_inFlight st ->
    id ∈ rs_launched st /\ rs_states st !! id = None /\ state o ∈ terminal;
  ri_done : forall id, id ∈ rs_launched st -> is_Some (rs_states st !! id) \/ id ∈ (rs_inFlight st).*1;
  ri_conc : Z.of_nat (length (rs_inFlight st)) <= MaxConcurrentNodes opts;
  ri_results : forall id r, rs_results st !! id = Some r -> rs_states st !! id = Some TaskStateCompleted;
  ri_deps : forall n, n ∈ Nodes dag -> ID n ∈ rs_launched st -> may_start (rs_states st) n
}.

Lemma run_inv_init : run_inv run_init.
Proof.
  split; simpl; try (by constructor); try set_solver; try done. lia.
Qed.

Lemma filter_sub {A} (f : A -> bool) l : List.filter f l `sublist_of` l.
Proof. induction l as [|x l IH]; simpl; [done|]. destruct (f x); by constructor. Qed.

Lemma in_filter {A} (f : A -> bool) l x : x ∈ List.filter f l <-> x ∈ l /\ f x = true.
Proof. rewrite !list_elem_of_In. apply filter_In. Qed.

Lemma ready_spec st n :
  ready st n = true <->
  rs_states st !! ID n = None /\ ID n ∉ (rs_inFlight st).*1 /\ areDepsDone n (rs_states st) = true.
Proof.
  unfold ready. rewrite !andb_true_iff, !negb_true_iff, bool_decide_eq_false, mem_string_false.
  rewrite eq_None_not_Some. tauto.
Qed.

Lemma nodup_map_inj {A B} (f : A -> B) l x y :
  NoDup (f <$> l) -> x ∈ l -> y ∈ l -> f x = f y -> x = y.
Proof.
  induction l as [|z l IH]; csimpl; [set_solver|]. intros [Hz Hnd]%NoDup_cons Hx Hy Hf.
  apply elem_of_cons in Hx as [->|Hx], Hy as [->|Hy]; [done|..|by apply IH].
  - destruct Hz. rewrite Hf. by apply list_elem_of_fmap_2.
  - destruct Hz. rewrite <- Hf. by apply list_elem_of_fmap_2.
Qed.

(** Adding failures of nodes not in flight and launching fresh nodes keeps the invariant. *)
Lemma grow_inv st st' ns :
  run_inv st -> rs_states st ⊆ rs_states st' -> rs_results st' = rs_results st ->
  (forall id s, rs_states st' !! id = Some s -> rs_states st !! id = Some s \/
     (s = TaskStateFailed /\ id ∈ node_ids dag /\ id ∉ (rs_inFlight st).*1)) ->
  rs_inFlight st' = rs_inFlight st ++ ((fun n => (ID n, (exec n (rs_results st)).1)) <$> ns) ->
  rs_launched st' = rs_launched st ++ (ID <$> ns) ->
  Z.of_nat (length (rs_inFlight st')) <= MaxConcurrentNodes opts ->
  NoDup (ID <$> ns) ->
  (forall n, n ∈ ns -> n ∈ Nodes dag /\ may_start (rs_states st') n /\ ID n ∉ rs_launched st /\
     rs_states st' !! ID n = None) ->
  run_inv st'.
Proof.
  intros Hi Hst Hr Hnew Hf Hl Hc Hnd Hns.
  assert (Hfst : (rs_inFlight st').*1 = (rs_inFlight st).*1 ++ (ID <$> ns)).
  { by rewrite Hf, fmap_app, <- list_fmap_compose. }
  assert (Hfl : forall id, id ∈ (rs_inFlight st).*1 -> id ∈ rs_launched st /\ rs_states st !! id = None).
  { intros id ([i o] & -> & Hin)%list_elem_of_fmap. destruct (ri_flight_new _ Hi _ _ Hin) as (? & ? & _). done. }
  split; rewrite ?Hfst, ?Hl, ?Hr.
  - apply NoDup_app. split_and!; [apply Hi| |done].
    intros id Hid (n & -> & Hn)%list_elem_of_fmap. by destruct (Hns n Hn) as (_ & _ & ? & _).
  - intros id [Hid|(n & -> & Hn)%list_elem_of_fmap]%elem_of_app; [by apply Hi|].
    destruct (Hns n Hn) as (? & _). by apply list_elem_of_fmap_2.
  - intros id s [Hs|(-> & ? & _)]%Hnew; [by apply Hi|]. split; [done|]. unfold terminal. set_solver.
  - apply NoDup_app. split_and!; [apply Hi| |done].
    intros id Hid (n & -> & Hn)%list_elem_of_fmap. destruct (Hns n Hn) as (_ & _ & Hnl & _).
    by apply Hnl, Hfl.
  - intros id o. rewrite Hf. intros [Hin|(n & E & Hn)%list_elem_of_fmap]%elem_of_app.
    + destruct (ri_flight_new _ Hi _ _ Hin) as (Hl1 & Hn1 & Ht). split_and!; [set_solver| |done].
      destruct (rs_states st' !! id) as [s|] eqn:E; [|done].
      apply Hnew in E as [E|(_ & _ & E)]; [congruence|]. destruct E.
      apply list_elem_of_fmap. by exists (id, o).
    + simplify_eq. destruct (Hns n Hn) as (_ & _ & _ & ?). split_and!; [|done|apply exec_terminal].
      apply elem_of_app. right. by apply list_elem_of_fmap_2.
  - intros id [Hid|Hid]%elem_of_app; [|right; set_solver].
    destruct (ri_done _ Hi _ Hid) as [[s Hs]|?]; [left|right; set_solver].
    exists s. by eapply lookup_weaken.
  - done.
  - intros id r Hir. eapply lookup_weaken; [|done]. by eapply Hi.
  - intros n Hn [Hid|(m & E & Hm)%list_elem_of_fmap]%elem_of_app.
    + eapply may_start_mono; [done|]. by apply Hi.
    + assert (n = m) as ->; [|by apply Hns]. destruct (Hns m Hm) as (Hm' & _).
      by apply (nodup_map_inj ID (Nodes dag)).
Qed.

(** The nodes a scheduling step launches, and what it leaves. *)
Lemma schedule_spec st :
  run_inv st ->
  exists new, run_inv (schedule st) /\
    rs_launched (schedule st) = rs_launched st ++ (ID <$> new) /\
    rs_states st ⊆ rs_states (schedule st) /\
    (forall n, n ∈ new -> n ∈ Nodes dag /\ may_start (rs_states st) n /\
       ID n ∉ rs_launched st /\ rs_states st !! ID n = None) /\
    (forall id s, rs_states (schedule st) !! id = Some s -> rs_states st !! id = Some s \/
       (s = TaskStateFailed /\ exists n, n ∈ Nodes dag /\ ready st n = true /\ ~ may_start (rs_states st) n)) /\
    (rs_inFlight (schedule st) = [] ->
       forall n, n ∈ Nodes dag -> ready st n = true -> ~ may_start (rs_states st) n).
Proof.
  intros Hi. unfold NopRun.schedule.
  set (rd := List.filter (ready st) (Nodes dag)).
  assert (Hrd : forall n, n ∈ rd -> n ∈ Nodes dag /\ rs_states st !! ID n = None /\ ID n ∉ (rs_inFlight st).*1).
  { intros n [Hn Hr]%in_filter. apply ready_spec in Hr. naive_solver. }
  assert (Hndr : NoDup (ID <$> rd)).
  { eapply sublist_NoDup; [exact Hids|]. apply fmap_sublist, filter_sub. }
  destruct (k_of_n rd (rs_states st) (rs_log st)) as [[fl states'] log'] eqn:Ek.
  apply k_of_n_spec in Ek as (Hsub & Hst & Hf & Hnf & Hnew); [|done|naive_solver].
  match goal with |- context [launch fl ?s] =>
    destruct (launch_spec fl s) as (ns & Hns & Hr' & Hs' & Hf' & Hl' & Hc' & Hne') end.
  cbn [rs_results rs_states rs_inFlight rs_launched] in *.
  assert (Hmem : forall n, n ∈ ns -> n ∈ fl /\ n ∈ rd).
  { intros n Hn. split; [|eapply elem_of_sublist; [|exact Hsub]]; by eapply elem_of_sublist. }
  assert (Hfresh : forall n, n ∈ rd -> ID n ∉ rs_launched st).
  { intros n Hn Hl. destruct (Hrd n Hn) as (_ & Hnone & Hnf'). apply (ri_done _ Hi) in Hl as [[s Hs]|Hin]; congruence. }
  assert (Hndn : NoDup (ID <$> ns)).
  { eapply sublist_NoDup; [exact Hndr|]. apply fmap_sublist. by etrans. }
  exists ns. split_and!; [|done|by rewrite Hs'| | |].
  - eapply (grow_inv st _ ns Hi); rewrite ?Hs'; try done; [|apply Hc', Hi|].
    + intros id s [?|(-> & n & Hn & <- & _)]%Hnew; [by left|right]. split; [done|].
      destruct (Hrd n Hn) as (Hn1 & _ & Hn2).
      split; [by apply list_elem_of_fmap_2|done].
    + intros n Hn. destruct (Hmem n Hn) as [Hn1 Hn2]. destruct (Hrd n Hn2) as (? & _ & _).
      destruct (Hf n Hn1) as [Hm ?]. split_and!; [done| |by apply Hfresh|done].
      by eapply may_start_mono.
  - intros n Hn. destruct (Hmem n Hn) as [Hn1 Hn2]. destruct (Hrd n Hn2) as (? & ? & ?).
    split_and!; [done|by apply Hf|by apply Hfresh|done].
  - rewrite Hs'. intros id s [?|(-> & n & Hn & _ & Hm)]%Hnew; [by left|right].
    split; [done|]. exists n. apply in_filter in Hn. naive_solver.
  - intros Hnil n Hn Hr Hm. assert (n ∈ rd) as Hin by (by apply in_filter).
    assert (rs_inFlight st = []) as Hnil0 by (rewrite Hf' in Hnil; by apply app_nil in Hnil as [? _]).
    destruct fl as [|m fl]; [|by apply (Hne' Hnil0)]. apply (Hnf n); [done|set_solver|done].
Qed.

Lemma receive_inv st id o :
  run_inv st -> (id, o) ∈ rs_inFlight st -> run_inv (receive st id o).
Proof.
  intros Hi Hin. destruct (ri_flight_new _ Hi _ _ Hin) as (Hl & Hnone & Ht).
  assert (Hsub : rs_states st ⊆ <[id := state o]> (rs_states st)) by (by apply insert_subseteq).
  split; unfold receive; cbn [rs_launched rs_states rs_inFlight rs_results].
  - apply Hi.
  - apply Hi.
  - intros i s [[<- <-]|[_ Hs]]%lookup_insert_Some; [|by apply Hi]. split; [by apply Hi|done].
  - eapply sublist_NoDup; [apply (ri_flight _ Hi)|]. apply fmap_sublist, filter_sub.
  - intros i o' [Hio Hne]%in_filter. bool_hyps. destruct (ri_flight_new _ Hi _ _ Hio) as (? & ? & ?).
    split_and!; [done| |done]. by rewrite lookup_insert_ne.
  - intros i Hil. destruct (decide (i = id)) as [->|Hne]; [left; by rewrite lookup_insert_eq|].
    rewrite lookup_insert_ne by done.
    destruct (ri_done _ Hi _ Hil) as [?|([j o'] & -> & Hj)%list_elem_of_fmap]; [by left|right].
    apply list_elem_of_fmap. exists (j, o'). split; [done|]. apply in_filter. split; [done|].
    by apply negb_true_iff, String.eqb_neq.
  - pose proof (sublist_length _ _ (filter_sub (fun '(i, _) => negb (String.eqb i id)) (rs_inFlight st))).
    pose proof (ri_conc _ Hi). lia.
  - intros i r. destruct (decide (i = id)) as [->|Hne].
    + rewrite lookup_insert_eq. case_match; [case_bool_decide as Hc; [by rewrite Hc|]|];
        intros Hr%(ri_results _ Hi); congruence.
    + rewrite lookup_insert_ne by done. intros Hr. apply (ri_results _ Hi i r).
      revert Hr. case_match; [case_bool_decide|]; [|done..]. by rewrite lookup_insert_ne.
  - intros n Hn Hnl. eapply may_start_mono; [done|]. by apply Hi.
Qed.

(** ** Reachable states *)

Inductive run_step : run_state -> run_state -> Prop :=
| rstep choice st st' : unfinished dag st = true -> iteration choice st = Continue st' -> run_step st st'.

Definition reachable : run_state -> Prop := rtc run_step run_init.

(** A continuing iteration schedules and then receives one in-flight message. *)
Lemma iteration_continue choice st st' :
  iteration choice st = Continue st' ->
  exists id o, (id, o) ∈ rs_inFlight (schedule st) /\ st' = receive (schedule st) id o.
Proof.
  destruct choice as [[] pick]; unfold NopRun.iteration.
  { by destruct (buildAbortResult _ _ _ _ _ _). }
  destruct (_ !! _) as [[id o]|] eqn:E; [|done]. apply list_elem_of_lookup_2 in E.
  destruct (_ && _); [by destruct (buildAbortResult _ _ _ _ _ _)|]. intros [= <-]. eauto.
Qed.

Lemma step_inv st st' : run_inv st -> run_step st st' -> run_inv st'.
Proof.
  intros Hi Hst. revert Hi. destruct Hst as [choice s s' _ Hs]. intros Hi. apply iteration_continue in Hs as (id & o & Hin & ->).
  destruct (schedule_spec _ Hi) as (new & Hi' & _). by apply receive_inv.
Qed.

Lemma reachable_inv st : reachable st -> run_inv st.
Proof.
  intros Hr. assert (forall s, rtc run_step s st -> run_inv s -> run_inv st) as Hg.
  { induction 1 as [|x y z Hxy _ IH]; [done|]. intros Hx. by apply IH, (step_inv x). }
  apply (Hg _ Hr), run_inv_init.
Qed.

(** ** Termination *)

Lemma allNodes_size : size (allNodes dag) = length (Nodes dag).
Proof using Hids.
  clear H Hmax opts task topoOrder newUUID.
  unfold allNodes. assert (forall l m, NoDup (ID <$> l) -> (forall n, n ∈ l -> m !! ID n = None) ->
    size (fold_left (fun (m : gmap string DagNode) n => <[ID n := n]> m) l m) = (size m + length l)%nat) as Hg.
  { induction l as [|n l IH]; intros m Hnd Hm; simpl; [lia|]. csimpl in Hnd.
    apply NoDup_cons in Hnd as [Hn Hnd]. rewrite IH; [|done|].
    - rewrite map_size_insert_None by (apply Hm; set_solver). lia.
    - intros n' Hn'. rewrite lookup_insert_ne; [apply Hm; set_solver|].
      intros E. apply Hn. rewrite E. by apply list_elem_of_fmap_2. }
  rewrite Hg; [|done|done]. by rewrite map_size_empty.
Qed.

Lemma step_grows st st' : run_inv st -> run_step st st' -> (size (rs_states st) < size (rs_states st'))%nat.
Proof.
  intros Hi Hst. revert Hi. destruct Hst as [choice s s' _ Hs]. intros Hi. apply iteration_continue in Hs as (id & o & Hin & ->).
  destruct (schedule_spec _ Hi) as (new & Hi' & _ & Hsub & _).
  destruct (ri_flight_new _ Hi' _ _ Hin) as (_ & Hnone & _). cbn [receive rs_states].
  rewrite map_size_insert_None by done. apply map_subseteq_size in Hsub. lia.
Qed.

Lemma loop_fuel fuel sched i st :
  run_inv st -> (length (Nodes dag) <= fuel + size (rs_states st))%nat ->
  exists r, dag_loop opts task dag topoOrder newUUID fuel sched i st = Some r.
Proof.
  revert i st; induction fuel as [|f IH]; intros i st Hi Hl; cbn [dag_loop];
    destruct (unfinished dag st) eqn:Eu; try (by eexists).
  - unfold unfinished in Eu. apply Nat.ltb_lt in Eu. rewrite allNodes_size in Eu. lia.
  - destruct (iteration (sched i) st) as [r log|st'|st'] eqn:E; [by eexists..|].
    assert (Hs : run_step st st') by (by econstructor). apply step_grows in Hs as Hg; [|done].
    apply IH; [by eapply step_inv|lia].
Qed.

(** A finished run has a state for every node. *)
Lemma finished_settled st :
  (forall id s, rs_states st !! id = Some s -> id ∈ node_ids dag) -> unfinished dag st = false ->
  forall id, id ∈ node_ids dag -> is_Some (rs_states st !! id).
Proof using Hids.
  clear H Hmax opts task topoOrder newUUID. intros Hdom Hu id Hid.
  destruct (rs_states st !! id) eqn:En; [by eexists|exfalso].
  unfold unfinished in Hu. apply Nat.ltb_ge in Hu. rewrite allNodes_size, <- (length_fmap ID) in Hu.
  fold (node_ids dag) in Hu. rewrite <- size_dom in Hu.
  assert (dom (rs_states st) ⊂ list_to_set (C := gset string) (node_ids dag)) as Hss.
  { split.
    - intros i [s Hs]%elem_of_dom. apply elem_of_list_to_set. by eapply Hdom.
    - intros Hsub. assert (id ∈ dom (rs_states st)) as Hd by (apply Hsub; by apply elem_of_list_to_set).
      apply elem_of_dom in Hd as [s Hs]. congruence. }
  apply subset_size in Hss. rewrite size_list_to_set in Hss by done. lia.
Qed.

(** ** Success *)

(** The input_from references as edges. *)
Definition dep_edges : list DagEdge :=
  Nodes dag ≫= fun n => (fun u => MkDagEdge u (ID n)) <$> InputFrom n.

Lemma dep_edges_spec e : e ∈ dep_edges <-> exists n, n ∈ Nodes dag /\ To e = ID n /\ From e ∈ InputFrom n.
Proof.
  unfold dep_edges. rewrite list_elem_of_bind. split.
  - intros (n & (u & -> & Hu)%list_elem_of_fmap & Hn). by exists n.
  - intros (n & Hn & Ht & Hf). exists n. split; [|done]. apply list_elem_of_fmap.
    exists (From e). split; [|done]. destruct e. simpl in *. by subst.
Qed.

Section Success.
Hypothesis Hok : forall n ctx, state (exec n ctx).1 <> TaskStateFailed.
Hypothesis Hin : forall n u, n ∈ Nodes dag -> u ∈ InputFrom n -> u ∈ node_ids dag.
Hypothesis Hac : acyclic dep_edges.
Hypothesis Hk : forall n, n ∈ Nodes dag -> required n <= Z.of_nat (length (InputFrom n)).

Definition no_failure (st : run_state) : Prop :=
  (forall id s, rs_states st !! id = Some s -> s <> TaskStateFailed) /\
  (forall id o, (id, o) ∈ rs_inFlight st -> state o <> TaskStateFailed).

Lemma filter_none {A} (f : A -> bool) l : (forall x, f x = false) -> List.filter f l = [].
Proof. intros Hf. induction l as [|x l IH]; simpl; [done|]. by rewrite Hf. Qed.

Lemma filter_all {A} (f : A -> bool) l : (forall x, x ∈ l -> f x = true) -> List.filter f l = l.
Proof. induction l as [|x l IH]; intros Hf; simpl; [done|]. rewrite Hf by set_solver. f_equal. apply IH. set_solver. Qed.

(** Without failures a node whose dependencies are settled may start. *)
Lemma ready_may_start st n :
  no_failure st -> n ∈ Nodes dag -> ready st n = true -> may_start (rs_states st) n.
Proof.
  intros [Hs _] Hn Hr. apply ready_spec in Hr as (_ & _ & Hd). unfold areDepsDone in Hd.
  destruct (InputFrom n) as [|u us] eqn:E; [by left|right].
  destruct (_ >=? _) eqn:Eg; bool_hyps; [lia|exfalso].
  assert (failed_deps n (rs_states st) = 0) as H0.
  { unfold failed_deps, countDeps. rewrite filter_none; [done|]. intros d. unfold dep_in.
    destruct (rs_states st !! d) as [s|] eqn:Es; [|done]. simpl.
    rewrite bool_decide_eq_false_2; [done|by eapply Hs]. }
  rewrite H0, <- E in Hd. specialize (Hk n Hn). apply Z.ltb_lt in Hd. lia.
Qed.

Lemma schedule_no_failure st : run_inv st -> no_failure st -> no_failure (schedule st).
Proof.
  intros Hi Hnf. destruct (schedule_spec _ Hi) as (new & Hi' & _ & _ & _ & Hs & _). split.
  - intros id s [Hid|(-> & n & Hn & Hr & Hm)]%Hs; [by eapply Hnf|].
    destruct Hm. by apply ready_may_start.
  - intros id o Hio. unfold NopRun.schedule in Hio.
    destruct (k_of_n _ _ _) as [[fl states'] log']. revert Hio.
    match goal with |- context [launch fl ?s] => destruct (launch_spec fl s) as (ns & _ & _ & _ & -> & _) end.
    intros [Hio|(n & E & _)%list_elem_of_fmap]%elem_of_app; [by eapply Hnf|].
    simplify_eq. apply Hok.
Qed.

(** Every node is settled when nothing is left to launch. *)
Lemma all_settled st :
  run_inv st -> no_failure st -> rs_inFlight (schedule st) = [] ->
  forall id, id ∈ node_ids dag -> is_Some (rs_states st !! id).
Proof.
  intros Hi Hnf Hnil id Hid.
  destruct (schedule_spec _ Hi) as (new & _ & _ & _ & _ & _ & Hstuck).
  specialize (Hstuck Hnil).
  assert (Hfr : forall e, e ∈ dep_edges -> From e ∈ node_ids dag).
  { intros e (n & Hn & _ & Hu)%dep_edges_spec. by eapply Hin. }
  pose proof (acyclic_sn dep_edges (node_ids dag) Hfr id Hac) as Hsn.
  induction Hsn as [id _ IH]. apply list_elem_of_fmap in Hid as (n & -> & Hn).
  destruct (rs_states st !! ID n) as [s|] eqn:Es; [by eexists|exfalso].
  assert (Hdeps : forall u, u ∈ InputFrom n -> is_Some (rs_states st !! u)).
  { intros u Hu. apply IH; [|by eapply Hin]. apply dep_edges_spec. by exists n. }
  assert (Hms : required n <= succeeded_deps n (rs_states st)).
  { unfold succeeded_deps, countDeps. rewrite filter_all; [by apply Hk|]. intros u Hu.
    destruct (Hdeps u Hu) as [s Hs]. unfold dep_in. rewrite Hs.
    destruct Hnf as [Hnf _]. apply Hnf in Hs as Hf. apply (ri_dom _ Hi) in Hs as [_ Ht].
    unfold terminal in Ht. by destruct s; set_solver. }
  apply (Hstuck n Hn); [|by right]. apply ready_spec. split_and!; [done| |].
  - intros Hfl. apply list_elem_of_fmap in Hfl as ([i o] & E & Hio). simpl in E.
    unfold NopRun.schedule in Hnil. destruct (k_of_n _ _ _) as [[fl st'] lg]. revert Hnil.
    match goal with |- context [launch fl ?s] => destruct (launch_spec fl s) as (ns & _ & _ & _ & -> & _) end.
    intros [Hz _]%app_nil. cbn in Hz. rewrite Hz in Hio. set_solver.
  - unfold areDepsDone. destruct (InputFrom n); [done|].
    rewrite Z.geb_leb, (proj2 (Z.leb_le _ _) Hms). done.
Qed.

Lemma settled_finished st :
  (forall id, id ∈ node_ids dag -> is_Some (rs_states st !! id)) -> unfinished dag st = false.
Proof.
  intros Hall. unfold unfinished. apply Nat.ltb_ge. rewrite allNodes_size, <- (length_fmap ID).
  rewrite <- (size_list_to_set (C := gset string)) by apply Hids.
  rewrite <- size_dom. apply subseteq_size. intros id Hid%elem_of_list_to_set.
  by apply elem_of_dom, Hall.
Qed.

(** A step without cancellation or failures continues. *)
Lemma step_continues pick st :
  run_inv st -> no_failure st -> unfinished dag st = true ->
  exists st', iteration (false, pick) st = Continue st' /\ no_failure st'.
Proof.
  intros Hi Hnf Hu. pose proof (schedule_no_failure st Hi Hnf) as Hnf'.
  unfold NopRun.iteration.
  destruct (rs_inFlight (schedule st) !! _) as [[id o]|] eqn:E.
  - apply list_elem_of_lookup_2 in E.
    rewrite bool_decide_eq_false_2 by (by eapply Hnf'). eexists. split; [done|]. split.
    + cbn. intros i s [[<- <-]|[_ Hs]]%lookup_insert_Some; [by eapply Hnf'|by eapply Hnf'].
    + cbn. intros i o' [Hio _]%in_filter. by eapply Hnf'.
  - exfalso. apply lookup_ge_None in E.
    assert (rs_inFlight (schedule st) = []) as Hnil.
    { destruct (rs_inFlight (schedule st)) as [|x l] eqn:El; [done|exfalso].
      pose proof (Nat.mod_upper_bound pick (length (x :: l)) ltac:(simpl; lia)). lia. }
    pose proof (settled_finished st (all_settled st Hi Hnf Hnil)). congruence.
Qed.

Lemma loop_success fuel pick i st :
  run_inv st -> no_failure st -> reachable st -> (length (Nodes dag) <= fuel + size (rs_states st))%nat ->
  exists st', reachable st' /\ run_inv st' /\ no_failure st' /\ unfinished dag st' = false /\
    dag_loop opts task dag topoOrder newUUID fuel (fun j => (false, pick j)) i st =
      Some (conclude opts task dag topoOrder st').
Proof.
  revert i st; induction fuel as [|f IH]; intros i st Hi Hnf Hre Hl; cbn [dag_loop];
    destruct (unfinished dag st) eqn:Eu; try (by exists st).
  - unfold unfinished in Eu. apply Nat.ltb_lt in Eu. rewrite allNodes_size in Eu. lia.
  - destruct (step_continues (pick i) st Hi Hnf Eu) as (st' & E & Hnf'). rewrite E.
    assert (Hs : run_step st st') by (by econstructor). apply step_grows in Hs as Hg; [|done].
    apply IH; [by eapply step_inv|done|by eapply rtc_r|lia].
Qed.
End Success.
End RunProof.

(** ** Reachability of an end node *)

Section Reach.
Context (es : list DagEdge) (target : string).

Lemma edge_adjacency_succs x : default [] (edge_adjacency es !! x) = succs es x.
Proof.
  unfold edge_adjacency. assert (forall l (m : Adjacency),
    default [] (fold_left (fun adj e => <[From e := default [] (adj !! From e) ++ [To e]]> adj) l m !! x) =
    default [] (m !! x) ++ succs l x) as Hg; [|by rewrite Hg].
  induction l as [|[u v] l IH]; intros m; simpl; [by rewrite app_nil_r|].
  rewrite IH. unfold succs. rewrite filter_cons. cbn [From].
  destruct (decide (u = x)) as [->|]; csimpl.
  - by rewrite lookup_insert_eq; simpl; rewrite <- app_assoc.
  - by rewrite lookup_insert_ne.
Qed.

(** The edges whose source has not been visited. *)
Definition unvisited (visited : gset string) : nat := length (filter (fun e => From e ∉ visited) es).

Lemma unvisited_step (visited : gset string) c :
  c ∉ visited -> unvisited visited = (unvisited ({[c]} ∪ visited) + length (succs es c))%nat.
Proof.
  intros Hc. unfold unvisited, succs. rewrite length_fmap.
  induction es as [|[u v] l IH]; [done|]. rewrite !filter_cons. cbn [From].
  destruct (decide (u = c)) as [->|Hu].
  - rewrite (decide_True (P := c ∉ visited)), (decide_False (P := c ∉ {[c]} ∪ visited)) by set_solver.
    simpl. lia.
  - assert (u ∉ visited <-> u ∉ {[c]} ∪ visited) as Hiff by set_solver.
    rewrite (decide_ext _ _ _ _ Hiff). case_decide; simpl; lia.
Qed.

Lemma leaves_visited (visited : gset string) (queue : list string) v :
  (forall a b, a ∈ visited -> edge_rel es a b -> b ∈ visited \/ b ∈ queue) ->
  target ∉ visited -> v ∈ visited -> rtc (edge_rel es) v target ->
  exists w, w ∈ queue /\ rtc (edge_rel es) w target.
Proof.
  intros Hcl Ht Hv Hr. induction Hr as [|x y z Hxy Hyz IH]; [done|].
  destruct (Hcl x y Hv Hxy) as [?|?]; [by apply IH|]. by exists y.
Qed.

Lemma reach_loop_spec fuel visited queue :
  (length queue + unvisited visited <= fuel)%nat -> target ∉ visited ->
  (forall a b, a ∈ visited -> edge_rel es a b -> b ∈ visited \/ b ∈ queue) ->
  reach_loop fuel (edge_adjacency es) target visited queue = true <->
  exists q, q ∈ queue /\ rtc (edge_rel es) q target.
Proof.
  revert visited queue; induction fuel as [|f IH]; intros visited queue Hl Ht Hcl.
  { destruct queue; [|simpl in Hl; lia]. simpl. set_solver. }
  cbn [reach_loop]. destruct queue as [|cur queue]; [set_solver|]. simpl in Hl.
  destruct (String.eqb_spec cur target) as [->|Hne].
  { split; [|done]. intros _. exists target. split; [set_solver|done]. }
  case_bool_decide as Hv.
  - rewrite IH; [|lia|done|]; cycle 1.
    { intros a b Ha Hab. destruct (Hcl a b Ha Hab) as [?|[->|?]%elem_of_cons]; naive_solver. }
    split; [set_solver|]. intros (q & [->|Hq]%elem_of_cons & Hr); [|by exists q].
    eapply leaves_visited; [|exact Ht|exact Hv|done].
    intros a b Ha Hab. destruct (Hcl a b Ha Hab) as [?|[->|?]%elem_of_cons]; naive_solver.
  - rewrite edge_adjacency_succs, IH; cycle 1.
    { rewrite (unvisited_step visited cur Hv) in Hl. rewrite length_app. lia. }
    { set_solver. }
    { intros a b Ha Hab. apply elem_of_union in Ha as [->%elem_of_singleton|Ha].
      - right. apply elem_of_app. right. by apply succs_edge.
      - destruct (Hcl a b Ha Hab) as [?|[->|?]%elem_of_cons]; [left|left|right]; set_solver. }
    split.
    + intros (q & [Hq|Hq%succs_edge]%elem_of_app & Hr); [set_solver|].
      exists cur. split; [set_solver|]. by eapply rtc_l.
    + intros (q & [->|Hq]%elem_of_cons & Hr); [|set_solver].
      inversion Hr as [|? y ? Hy Hr']; subst; [done|]. exists y. split; [|done].
      apply elem_of_app. right. by apply succs_edge.
Qed.
End Reach.

(** ** Compensation *)

Lemma allNodes_ID dag id n : allNodes dag !! id = Some n -> ID n = id.
Proof.
  unfold allNodes. assert (forall l (m : gmap string DagNode), (forall i x, m !! i = Some x -> ID x = i) ->
    forall i x, fold_left (fun m n => <[ID n := n]> m) l m !! i = Some x -> ID x = i) as Hg.
  { induction l as [|y l IH]; intros m Hm i x; simpl; [apply Hm|]. apply IH.
    intros j z [[<- <-]|[_ Hz]]%lookup_insert_Some; [done|by apply Hm]. }
  apply Hg. done.
Qed.

Lemma completed_ids dag topoOrder states :
  ID <$> completed_nodes dag topoOrder states `sublist_of` reverse topoOrder /\
  (forall n, n ∈ completed_nodes dag topoOrder states -> states !! ID n = Some TaskStateCompleted).
Proof.
  unfold completed_nodes. induction (reverse topoOrder) as [|id l [IH1 IH2]]; [split; [done|set_solver]|].
  csimpl. case_bool_decide as Hs; [|split; [by apply sublist_cons|done]].
  destruct (allNodes dag !! id) as [n|] eqn:E; [|split; [by apply sublist_cons|done]].
  apply allNodes_ID in E as <-. csimpl. split; [by apply sublist_skip|].
  intros m [->|Hm]%elem_of_cons; [done|by apply IH2].
Qed.

Lemma length_pos {A} (l : list A) : l <> [] -> 0 < Z.of_nat (length l).
Proof. destruct l; simpl; [done|lia]. Qed.

Lemma filter_partition {A} (f : A -> bool) l :
  (length (List.filter f l) + length (List.filter (fun x => negb (f x)) l) = length l)%nat.
Proof. induction l as [|x l IH]; simpl; [done|]. destruct (f x); simpl; lia. Qed.

(** ** Properties *)

(** C1. Scheduler safety, for every schedule and whatever the nodes return: in
    every state the main loop reaches, no node has been launched twice, no more
    than MaxConcurrentNodes run at once, no node is both running and finished,
    only completed nodes have results, every finished node is in a terminal
    state, and every launched node has its K-of-N dependencies satisfied by
    completed or skipped nodes; and a node is launched only when that was already
    so before its launch. *)
Theorem run_safety `{NodeExec} opts task dag topoOrder newUUID st :
  NoDup (node_ids dag) -> 1 <= MaxConcurrentNodes opts ->
  reachable opts task dag topoOrder newUUID st ->
  run_inv opts dag st /\
  exists new, rs_launched (schedule opts task dag newUUID st) = rs_launched st ++ (ID <$> new) /\
    forall n, n ∈ new -> may_start (rs_states st) n /\ ID n ∉ rs_launched st.
Proof.
  intros Hnd Hm Hr. assert (Hi : run_inv opts dag st) by (by eapply reachable_inv). split; [done|].
  destruct (schedule_spec opts task dag newUUID Hnd Hm st Hi) as (new & _ & Hl & _ & Hn & _).
  exists new. split; [done|]. intros n Hin. destruct (Hn n Hin) as (_ & ? & ? & _). done.
Qed.

(** C2. Every run ends: under any schedule the main loop returns a result after at
    most one iteration per node. *)
Theorem run_terminates `{NodeExec} opts task dag topoOrder newUUID sched :
  NoDup (node_ids dag) -> 1 <= MaxConcurrentNodes opts ->
  exists r log, runDag opts task dag topoOrder newUUID sched = Some (r, log).
Proof.
  intros Hnd Hm. destruct (loop_fuel opts task dag topoOrder newUUID Hnd Hm
    (length (Nodes dag)) sched 0 run_init) as [[r log] E]; [by apply run_inv_init|lia|].
  exists r, log. exact E.
Qed.

(** C3. A run in which no node fails completes: if executions complete or skip,
    the input_from references are known and acyclic, and no node asks for more
    dependencies than it has, then for every order in which the nodes finish the
    task ends completed, after every node has been executed, with the aggregate
    of the end nodes' results. *)
Theorem run_succeeds `{NodeExec} opts task dag topoOrder newUUID pick :
  NoDup (node_ids dag) -> 1 <= MaxConcurrentNodes opts ->
  (forall n ctx, state (exec n ctx).1 <> TaskStateFailed) ->
  (forall n u, n ∈ Nodes dag -> u ∈ InputFrom n -> u ∈ node_ids dag) ->
  acyclic (dep_edges dag) ->
  (forall n, n ∈ Nodes dag -> required n <= Z.of_nat (length (InputFrom n))) ->
  exists st r log, reachable opts task dag topoOrder newUUID st /\
    runDag opts task dag topoOrder newUUID (fun i => (false, pick i)) = Some (r, log) /\
    FinalState r = TaskStateCompleted /\ res_ErrorCode r = "" /\
    (forall id, id ∈ node_ids dag -> exists s, rs_states st !! id = Some s /\
       (s = TaskStateCompleted \/ s = TaskStateSkipped)) /\
    AggregatedResult r = Some (AggregateEndNodes (endNodeIDs dag) (rs_results st) (DefaultAggregateStrategy opts)).
Proof.
  intros Hnd Hm Hok Hin Hac Hk.
  destruct (loop_success opts task dag topoOrder newUUID Hnd Hm Hok Hin Hac Hk
    (length (Nodes dag)) pick 0 run_init) as (st & Hr & Hi & Hnf & Hu & E);
    [by apply run_inv_init|split; [done|cbn; set_solver]|apply rtc_refl|lia|].
  exists st, (conclude opts task dag topoOrder st).1, (conclude opts task dag topoOrder st).2.
  split; [done|]. split; [unfold runDag; rewrite E; by destruct (conclude _ _ _ _ _)|].
  assert (Hend : existsb (fun e => bool_decide (rs_states st !! e = Some TaskStateFailed)) (endNodeIDs dag) = false).
  { apply not_true_iff_false. rewrite existsb_exists. intros (e & _ & He%bool_decide_eq_true).
    by apply Hnf in He. }
  unfold conclude. rewrite Hend, andb_false_r. destruct (if CompensationRunsOnSuccess _ then _ else _) as [c ops].
  split_and!; try done. intros id Hid.
  destruct (finished_settled dag Hnd st (fun i s Hs => proj1 (ri_dom _ _ _ Hi i s Hs)) Hu id Hid) as [s Hs].
  exists s. split; [done|]. apply Hnf in Hs as Hf. apply (ri_dom _ _ _ Hi) in Hs as [_ Ht].
  unfold terminal in Ht. set_solver.
Qed.

(** The search that decides whether a failure can still be masked is exact:
    [canReachEndNode] holds exactly when the end node is reachable from the
    failed node along edges, also through cycles. *)
Theorem canReachEndNode_iff endNodeID failedNodeID edges :
  canReachEndNode endNodeID failedNodeID edges = true <-> rtc (edge_rel edges) failedNodeID endNodeID.
Proof.
  unfold canReachEndNode. rewrite reach_loop_spec.
  - set_solver.
  - unfold unvisited. simpl. apply le_n_S, length_filter.
  - set_solver.
  - set_solver.
Qed.

(** Saga accounting: compensation touches completed nodes only, in reverse
    topological order.  Under the strict policy a completed node without a
    compensation action stops it before anything is undone, and those nodes are
    reported; otherwise every completed node with an action is attempted once,
    and the attempts are exactly the successes and the reported failures. *)
Theorem saga_accounting `{NodeExec} task dag topoOrder results states :
  let '(c, ops) := runSagaCompensation task dag topoOrder results states in
  let comp := completed_nodes dag topoOrder states in
  let strict := CompensationIsStrict (effectiveCompensationPolicy task) in
  Failed c = Z.of_nat (length (FailedNodeIDs c)) /\
  FailedNodeIDs c `sublist_of` reverse topoOrder /\
  (forall id, id ∈ FailedNodeIDs c -> states !! id = Some TaskStateCompleted) /\
  (if strict && existsb (fun n => negb (has_compensation n)) comp
   then Attempted c = 0 /\ Succeeded c = 0 /\ 0 < Failed c /\ ops = []
   else Attempted c = Succeeded c + Failed c /\
        Attempted c = Z.of_nat (length (List.filter has_compensation comp))).
Proof.
  destruct (completed_ids dag topoOrder states) as [Hsub Hdone]. unfold runSagaCompensation.
  set (comp := completed_nodes dag topoOrder states) in *.
  assert (Hf : forall f, ID <$> List.filter f comp `sublist_of` reverse topoOrder).
  { intros f. etrans; [apply fmap_sublist, filter_sub|done]. }
  assert (Hff : forall f g, ID <$> List.filter f (List.filter g comp) `sublist_of` reverse topoOrder).
  { intros f g. etrans; [apply fmap_sublist, filter_sub|done]. }
  assert (Hc : forall f id, id ∈ ID <$> List.filter f comp -> states !! id = Some TaskStateCompleted).
  { intros f id (n & -> & [Hn _]%in_filter)%list_elem_of_fmap. by apply Hdone. }
  assert (Hcc : forall f g id, id ∈ ID <$> List.filter f (List.filter g comp) -> states !! id = Some TaskStateCompleted).
  { intros f g id (n & -> & [[Hn _]%in_filter _]%in_filter)%list_elem_of_fmap. by apply Hdone. }
  assert (Hmiss : bool_decide (ID <$> List.filter (fun n => negb (has_compensation n)) comp = []) =
    negb (existsb (fun n => negb (has_compensation n)) comp)).
  { clear. induction comp as [|n l IH]; [done|]. simpl. by destruct (has_compensation n). }
  rewrite Hmiss, negb_involutive.
  destruct (CompensationIsStrict _ && existsb _ comp) eqn:Es.
  - cbn. apply andb_true_iff in Es as [_ Es]. rewrite Es in Hmiss. apply bool_decide_eq_false in Hmiss.
    split_and!; try done; [by apply Hc|by apply length_pos].
  - destruct (bool_decide (length (List.filter has_compensation comp) = 0%nat)) eqn:E0; bool_hyps;
      cbv beta iota; cbn [Attempted Succeeded Failed FailedNodeIDs length].
    + split_and!; try done; [apply sublist_nil_l|set_solver|lia].
    + split_and!; try done; [by apply Hcc|]. rewrite length_fmap, <- Nat2Z.inj_add. by rewrite filter_partition.
Qed.

(** ** Witnesses and a misreported failure *)

(** Executions that complete with the node's id, except the nodes in [bad]. *)
#[refine] Instance scripted_exec (bad : list string) : NodeExec := {|
  exec n _ := if mem_string (ID n) bad then (failed ErrDelegateRejected "", [])
              else (completed (Some (JStr (ID n))), []);
  exec_once n _ := completed None |}.
Proof. intros n ctx. destruct (mem_string (ID n) bad); set_solver. Defined.

Definition four : OrchestratorOptions := DefaultOrchestratorOptions 2.
Definition in_order (i : nat) : bool * nat := (false, O).

(** The chain a -> b -> c, and two nodes that wait for each other. *)
Definition chain : TaskDag :=
  MkTaskDag [plain_node "a" []; plain_node "b" ["a"]; plain_node "c" ["b"]]
    [MkDagEdge "a" "b"; MkDagEdge "b" "c"].
Definition mutual : TaskDag := MkTaskDag [plain_node "a" ["b"]; plain_node "b" ["a"]] [].

(** A failed task can be reported as completed.  When the first node of the
    chain a -> b -> c fails, the run gives up with c never executed, and yet its
    final state is completed, with no error code and no results; and a DAG whose
    input_from references are circular is accepted by [ValidateDag] and
    "completes" without any node having run. *)
Theorem failure_reported_completed :
  (IsValid (ValidateDag (Some chain)) = true /\
   exists r log, runDag (H := scripted_exec ["a"]) four sample_task chain ["a"; "b"; "c"] id in_order = Some (r, log) /\
     FinalState r = TaskStateCompleted /\ res_ErrorCode r = "" /\ NodeResults r = ∅) /\
  (IsValid (ValidateDag (Some mutual)) = true /\
   exists r, runDag (H := scripted_exec []) four sample_task mutual ["a"; "b"] id in_order = Some (r, []) /\
     FinalState r = TaskStateCompleted /\ NodeResults r = ∅).
Proof.
  split; (split; [vm_compute; reflexivity|]).
  - do 2 eexists. split_and!; vm_compute; reflexivity.
  - eexists. split_and!; vm_compute; reflexivity.
Qed.

Lemma run_safety_witness :
  let st := run_init in
  run_inv four diamond st /\
  exists new, rs_launched (schedule (H := scripted_exec []) four sample_task diamond id st) = rs_launched st ++ (ID <$> new) /\
    forall n, n ∈ new -> may_start (rs_states st) n /\ ID n ∉ rs_launched st.
Proof.
  intros st. apply (run_safety (H := scripted_exec []) four sample_task diamond ["a"; "b"; "c"; "d"] id st).
  - apply (bool_decide_unpack _). vm_compute. exact I.
  - vm_compute. discriminate.
  - apply rtc_refl.
Defined.

Lemma run_terminates_witness :
  exists r log, runDag (H := scripted_exec ["b"]) four sample_task diamond ["a"; "b"; "c"; "d"] id in_order = Some (r, log).
Proof.
  apply (run_terminates (H := scripted_exec ["b"]) four sample_task diamond ["a"; "b"; "c"; "d"] id in_order).
  - apply (bool_decide_unpack _). vm_compute. exact I.
  - vm_compute. discriminate.
Defined.

Lemma run_succeeds_witness :
  exists st r log, reachable (H := scripted_exec []) four sample_task diamond ["a"; "b"; "c"; "d"] id st /\
    runDag (H := scripted_exec []) four sample_task diamond ["a"; "b"; "c"; "d"] id (fun i => (false, i)) = Some (r, log) /\
    FinalState r = TaskStateCompleted /\ res_ErrorCode r = "" /\
    (forall i, i ∈ node_ids diamond -> exists s, rs_states st !! i = Some s /\
       (s = TaskStateCompleted \/ s = TaskStateSkipped)) /\
    AggregatedResult r = Some (AggregateEndNodes (endNodeIDs diamond) (rs_results st) (DefaultAggregateStrategy four)).
Proof.
  apply (run_succeeds (H := scripted_exec []) four sample_task diamond ["a"; "b"; "c"; "d"] id (fun i => i)).
  - apply (bool_decide_unpack _). vm_compute. exact I.
  - vm_compute. discriminate.
  - intros n ctx. done.
  - intros n u Hn. cbn in Hn. rewrite !elem_of_cons in Hn.
    destruct_or! Hn; subst; cbn; set_solver.
  - apply (valid_acyclic (MkTaskDag (Nodes diamond) (dep_edges diamond))). vm_compute. reflexivity.
  - apply (Forall_forall (fun n => required n <= Z.of_nat (length (InputFrom n)))).
    repeat (apply Forall_cons; split; [vm_compute; discriminate|]). apply Forall_nil_2.
Defined.
