(* ===== verification/NopExecute.v ===== *)
(** * NOP task lifecycle: Execute, preflight, callback URLs, cluster delegation

    [Execute] of nop/orchestrator.go over the in-memory task store, with the
    admission checks in source order, [runPreflight], nop/callback_validator.go
    and nop/cluster_delegation.go.  [url.Parse] and the IPv6 half of
    [net.ParseIP] are parameters; the run itself is NopRun.v. *)

From S2P Require Import Prelude GoValue NopModels NopDag NopInput NopCondition NopTask NopRun NopRunProof.

(** ** callback_validator.go *)

(** An address is its 16 bytes; [To4] of an IPv4-mapped one. *)
Definition To4 (ip : list Z) : option (list Z) :=
  if bool_decide (take 12 ip = repeat 0 10 ++ [0xFF; 0xFF]) && (length ip =? 16)%nat
  then Some (drop 12 ip) else None.

Definition octet (s : string) : option Z :=
  if (String.length s <=? 3)%nat then
    match ParseUint s with
    | Some n => if (n <=? 255) && String.eqb (FormatUint n) s then Some n else None
    | None => None
    end
  else None.

Definition parseIPv4 (s : string) : option (list Z) :=
  match split_on dot s with
  | [a; b; c; d] =>
      match octet a, octet b, octet c, octet d with
      | Some a, Some b, Some c, Some d => Some (repeat 0 10 ++ [0xFF; 0xFF; a; b; c; d])
      | _, _, _, _ => None
      end
  | _ => None
  end.

(** IPv6: loopback ::1, link-local unicast fe80::/10, link-local multicast ff02/16. *)
Definition IsLoopback6 (ip : list Z) : bool := bool_decide (ip = repeat 0 15 ++ [1]).
Definition IsLinkLocalUnicast6 (ip : list Z) : bool :=
  (nth 0 ip 0 =? 0xFE) && (Z.land (nth 1 ip 0) 0xC0 =? 0x80).
Definition IsLinkLocalMulticast6 (ip : list Z) : bool :=
  (nth 0 ip 0 =? 0xFF) && (Z.land (nth 1 ip 0) 0x0F =? 0x02).

Definition isPrivateIP (ip : list Z) : bool :=
  match To4 ip with
  | Some v4 =>
      let a := nth 0 v4 0 in let b := nth 1 v4 0 in
      (a =? 127) || (a =? 10) || (a =? 0) || ((a =? 172) && (b >=? 16) && (b <=? 31)) ||
      ((a =? 192) && (b =? 168)) || ((a =? 169) && (b =? 254))
  | None => IsLoopback6 ip || IsLinkLocalUnicast6 ip || IsLinkLocalMulticast6 ip
  end.

Definition trim_brackets (host : string) : string :=
  let h := match cut_prefix "]" (String.rev host) with Some r => String.rev r | None => host end in
  default h (cut_prefix "[" h).

Record URL : Type := MkURL { Scheme : string; Host : string; Hostname : string }.

Section Callback.
Context (url_Parse : string -> option URL) (parseIPv6 : string -> option (list Z)).

(** [net.ParseIP]: the first dot or colon decides the family. *)
Fixpoint ip_family (s : string) : option bool :=
  match s with
  | EmptyString => None
  | String c r => if Ascii.eqb c dot then Some true
                  else if Ascii.eqb c (chr 58) then Some false else ip_family r
  end.

Definition ParseIP (s : string) : option (list Z) :=
  match ip_family s with
  | Some true => parseIPv4 s
  | Some false => parseIPv6 s
  | None => None
  end.

Definition IsPrivateHost (host : string) : bool :=
  if String.eqb host "" then true
  else if EqualFold host "localhost" then true
  else match ParseIP (trim_brackets host) with Some ip => isPrivateIP ip | None => false end.

Definition ValidateCallbackURL (callbackURL : string) : string :=
  if String.eqb (trim_space callbackURL) "" then "callback_url must not be empty."
  else
    match url_Parse callbackURL with
    | None => "callback_url '" +:+ callbackURL +:+ "' is not a valid absolute URI."
    | Some u =>
        if String.eqb (Scheme u) "" || String.eqb (Host u) "" then
          "callback_url '" +:+ callbackURL +:+ "' is not a valid absolute URI."
        else if negb (EqualFold (Scheme u) "https") then
          "callback_url MUST use the https:// scheme (got '" +:+ Scheme u +:+ "://')."
        else if IsPrivateHost (Hostname u) then
          "callback_url host '" +:+ Hostname u +:+
          "' resolves to a private or loopback address (SSRF guard)."
        else ""
    end.
End Callback.

(** ** Preflight (nop/orchestrator.go) *)

Record PreflightResult : Type := MkPreflight {
  AgentNID : string; Available : bool; UnavailableReason : string
}.

(** One probe per distinct agent, with the action of its first node. *)
Fixpoint preflight_probes (seen : gset string) (nodes : list DagNode) : list (string * string) :=
  match nodes with
  | [] => []
  | n :: r => if bool_decide (Agent n ∈ seen) then preflight_probes seen r
              else (Agent n, NodeAction n) :: preflight_probes ({[Agent n]} ∪ seen) r
  end.

(** The answers in order of arrival ([None]: a nil result without error). *)
Fixpoint preflight_collect (answers : list (go_result (option PreflightResult)))
    (firstUnavailable probeErr : string) : string :=
  match answers with
  | [] => if String.eqb probeErr "" then firstUnavailable else probeErr
  | Err e :: r =>
      preflight_collect r firstUnavailable
        (if String.eqb probeErr "" then "Preflight probe failed: " +:+ error_text e else probeErr)
  | Ok (Some p) :: r =>
      if negb (Available p) && String.eqb firstUnavailable "" then
        let reason := if String.eqb (UnavailableReason p) "" then "no reason given"
                      else UnavailableReason p in
        preflight_collect r ("Agent '" +:+ AgentNID p +:+ "' is unavailable: " +:+ reason) probeErr
      else preflight_collect r firstUnavailable probeErr
  | Ok None :: r => preflight_collect r firstUnavailable probeErr
  end.

(** ** Execute *)

(** What the outside does during one Execute. *)
Record ExecuteEnv : Type := MkExecuteEnv {
  validate_url : string -> string;                                    (* ValidateCallbackURL *)
  probe : list (string * string) -> list (go_result (option PreflightResult));
  ee_sched : nat -> bool * nat;
  ee_timedOut : bool;         (* runCtx.Err() != nil, or the budget is used up *)
  ee_parentErr : bool;        (* ctx.Err() != nil *)
  ee_start : Z; ee_end : Z;   (* clock readings *)
  ee_uuid : string -> string
}.

Section Execute.
Context `{NodeExec} (opts : OrchestratorOptions).

(** Step 1: the checks before the store is consulted. *)
Definition admission (env : ExecuteEnv) (task : OrchestratorTask) : result NopTaskResult DagValidationResult :=
  if DelegateDepth task >=? MaxDelegateChainDepth then
    Err (newFailureResult (TaskID task) ErrDelegateChainTooDeep
           ("Delegation chain depth " +:+ fmt_d (DelegateDepth task) +:+ " exceeds the maximum of " +:+
            fmt_d MaxDelegateChainDepth +:+ ".") None)
  else
    let urlErr := if String.eqb (CallbackURL task) "" then "" else validate_url env (CallbackURL task) in
    if negb (String.eqb urlErr "") then Err (newFailureResult (TaskID task) ErrTaskDagInvalid urlErr None)
    else
      let v := ValidateDag (Dag task) in
      if negb (IsValid v) then Err (newFailureResult (TaskID task) (ErrorCode v) (ErrorMessage v) None)
      else Ok v.

(** The result, the store and whether the callback is fired; [None] when the
    run is out of fuel. *)
Definition Execute (env : ExecuteEnv) (store : InMemoryTaskStore) (task : OrchestratorTask) :
    option (NopTaskResult * InMemoryTaskStore * bool) :=
  match admission env task with
  | Err r => Some (r, store, false)
  | Ok validation =>
      match GetTask store (TaskID task) with
      | Some _ =>
          Some (newFailureResult (TaskID task) ErrTaskAlreadyCompleted
                  ("Task '" +:+ TaskID task +:+ "' already exists.") None, store, false)
      | None =>
          let record := MkTaskRecord (TaskID task) task TaskStatePending (ee_start env) None ∅ in
          match Save store record with
          | (Err e, store) =>
              Some (newFailureResult (TaskID task) ErrTaskAlreadyCompleted (error_text e) None, store, false)
          | (Ok _, store) =>
              let timeoutMs := effectiveTimeoutMs task in
              let timeoutMs := if timeoutMs >? MaxTimeoutMs then MaxTimeoutMs else timeoutMs in
              let dag := default (MkTaskDag [] []) (Dag task) in
              let '(store, preflightFail) :=
                if Preflight task then
                  (UpdateState store (TaskID task) TaskStatePreflight,
                   preflight_collect (probe env (preflight_probes ∅ (Nodes dag))) "" "")
                else (store, "") in
              if negb (String.eqb preflightFail "") then
                Some (newFailureResult (TaskID task) ErrResourceInsufficient preflightFail None,
                      UpdateState store (TaskID task) TaskStateFailed, false)
              else
                let store := UpdateState store (TaskID task) TaskStateRunning in
                match runDag opts task dag (TopologicalOrder validation) (ee_uuid env) (ee_sched env) with
                | None => None
                | Some (result, log) =>
                    let store := foldl apply_op store log in
                    if ee_timedOut env && negb (ee_parentErr env) &&
                       bool_decide (FinalState result <> TaskStateCompleted) then
                      Some (newFailureResult (TaskID task) ErrTaskTimeout
                              ("Task exceeded timeout of " +:+ fmt_d timeoutMs +:+ "ms.") None,
                            UpdateState store (TaskID task) TaskStateFailed, false)
                    else
                      let store := alter (set_completed (ee_end env)) (TaskID task) store in
                      Some (result, UpdateState store (TaskID task) (FinalState result),
                            EnableCallback opts && negb (String.eqb (CallbackURL task) ""))
                end
          end
      end
  end.

(** [Cancel]: the context is cancelled elsewhere; the store records it. *)
Definition Cancel (store : InMemoryTaskStore) (taskID : string) : InMemoryTaskStore :=
  UpdateState store taskID TaskStateCancelled.

Definition GetStatus (store : InMemoryTaskStore) (taskID : string) : option NopTaskRecord :=
  GetTask store taskID.
End Execute.

(** ** cluster_delegation.go *)

Record ClusterAnchorInfo : Type := MkAnchorInfo { ActiveNid : string; ClusterEpoch : Z }.

(** The resolver's cache; the lookup is an argument of the calls. *)
Abbreviation ClusterDelegationResolver := (gmap string ClusterAnchorInfo).
Abbreviation Lookup := (string -> go_result (option ClusterAnchorInfo)).

Definition isNpsNid (s : string) : bool :=
  match cut_prefix "urn:nps:" s with Some (String _ _) => true | _ => false end.

(** The compare-then-set under the second lock: never let a stale lookup
    overwrite a newer entry. *)
Definition store_fresh (r : ClusterDelegationResolver) (clusterAnchor : string) (fresh : ClusterAnchorInfo) :
    ClusterAnchorInfo * ClusterDelegationResolver :=
  match r !! clusterAnchor with
  | Some cur => if ClusterEpoch fresh <=? ClusterEpoch cur then (cur, r)
                else (fresh, <[clusterAnchor := fresh]> r)
  | None => (fresh, <[clusterAnchor := fresh]> r)
  end.

(** [ResolveActive]; [during] is what concurrent calls do to the cache while the
    lookup runs outside the lock. *)
Definition ResolveActive (r : ClusterDelegationResolver) (lookup : Lookup)
    (during : ClusterDelegationResolver -> ClusterDelegationResolver) (clusterAnchor : string) :
    go_result (option ClusterAnchorInfo) * ClusterDelegationResolver :=
  if String.eqb clusterAnchor "" then (Err (ErrPlain "nop: clusterAnchor is required"), r)
  else match r !! clusterAnchor with
       | Some cached => (Ok (Some cached), r)
       | None =>
           let r := during r in
           match lookup clusterAnchor with
           | Err e => (Err e, r)
           | Ok None => (Ok None, r)
           | Ok (Some fresh) => let '(info, r) := store_fresh r clusterAnchor fresh in (Ok (Some info), r)
           end
       end.

Record DelegateFrame : Type := MkDelegateFrame {
  df_TargetNID : string; TargetClusterAnchor : option string
}.

Definition ResolveDelegateTarget (r : ClusterDelegationResolver) (lookup : Lookup)
    (during : ClusterDelegationResolver -> ClusterDelegationResolver) (frame : DelegateFrame) :
    go_result string * ClusterDelegationResolver :=
  match TargetClusterAnchor frame with
  | None | Some "" => (Ok (df_TargetNID frame), r)
  | Some cluster =>
      if negb (isNpsNid cluster) then
        (Err (ErrPlain ("nop: target_cluster_anchor must be a urn:nps: NID, not a URL: " +:+ cluster)), r)
      else match ResolveActive r lookup during cluster with
           | (Err e, r) => (Err e, r)
           | (Ok None, r) => (Ok "", r)
           | (Ok (Some info), r) => (Ok (ActiveNid info), r)
           end
  end.

Definition OnAnchorFailover (r : ClusterDelegationResolver) (clusterAnchor successorNid : string)
    (clusterEpoch : Z) : go_result bool * ClusterDelegationResolver :=
  if String.eqb clusterAnchor "" then (Err (ErrPlain "nop: clusterAnchor is required"), r)
  else if String.eqb successorNid "" then (Err (ErrPlain "nop: successorNid is required"), r)
  else
    let stale := match r !! clusterAnchor with
                 | Some cur => clusterEpoch <=? ClusterEpoch cur
                 | None => false
                 end in
    if stale then (Ok false, r)
    else (Ok true, <[clusterAnchor := MkAnchorInfo successorNid clusterEpoch]> r).

Definition InvalidateCluster (r : ClusterDelegationResolver) (clusterAnchor : string) :
    ClusterDelegationResolver := delete clusterAnchor r.

(** ** Lemmas: what a run writes and returns *)

(** A write about task [id]. *)
Definition about (id : string) (op : store_op) : Prop :=
  match op with OpState i _ => i = id | OpSubtask u => upd_TaskID u = id end.

Definition good_result (id : string) (r : NopTaskResult) : Prop :=
  res_TaskID r = id /\ (FinalState r = TaskStateCompleted \/ FinalState r = TaskStateFailed).

Section Writes.
Context `{NodeExec} (opts : OrchestratorOptions) (task : OrchestratorTask) (dag : TaskDag).
Context (topoOrder : list string) (newUUID : string -> string).
Hypothesis Hexec : forall n ctx u, u ∈ (exec n ctx).2 -> upd_TaskID u = TaskID task.

Abbreviation mine := (about (TaskID task)).

Lemma saga_writes results states :
  Forall mine (runSagaCompensation task dag topoOrder results states).2.
Proof. unfold runSagaCompensation. repeat case_match; repeat constructor. Qed.

Lemma abort_writes st code msg :
  Forall mine (rs_log st) ->
  let '(r, log) := buildAbortResult task dag topoOrder st code msg in
  good_result (TaskID task) r /\ Forall mine log.
Proof.
  intros Hl. unfold buildAbortResult. destruct (CompensationRunsOnFailure _).
  - pose proof (saga_writes (rs_results st) (rs_states st)) as Hs.
    destruct (runSagaCompensation _ _ _ _ _) as [c ops]. split; [by split; [|right]|].
    apply Forall_app. by split.
  - split; [by split; [|right]|]. apply Forall_app. by split; [|constructor].
Qed.

Lemma k_of_n_writes nodes states log :
  Forall mine log -> Forall mine (k_of_n task newUUID nodes states log).2.
Proof.
  revert states log; induction nodes as [|n nodes IH]; intros states log Hl; [done|].
  cbn [k_of_n]. destruct (_ && _).
  - apply IH, Forall_app. split; [done|]. by apply Forall_singleton.
  - specialize (IH states log Hl). by destruct (k_of_n _ _ _ _ _) as [[? ?] ?].
Qed.

Lemma launch_writes nodes st : Forall mine (rs_log st) -> Forall mine (rs_log (launch opts nodes st)).
Proof.
  revert st; induction nodes as [|n nodes IH]; intros st Hl; [done|]. cbn [launch].
  destruct (_ >=? _); [done|]. pose proof (Hexec n (rs_results st)) as Hu.
  destruct (exec n (rs_results st)) as [o ups]. apply IH. cbn. apply Forall_app. split; [done|].
  apply Forall_fmap, Forall_forall. intros u Hin. by apply Hu.
Qed.

Lemma schedule_writes st :
  Forall mine (rs_log st) -> Forall mine (rs_log (schedule opts task dag newUUID st)).
Proof.
  intros Hl. unfold schedule.
  pose proof (k_of_n_writes (List.filter (ready st) (Nodes dag)) (rs_states st) (rs_log st) Hl) as Hk.
  destruct (k_of_n _ _ _ _ _) as [[fl states] log]. by apply launch_writes.
Qed.

Lemma conclude_writes st :
  Forall mine (rs_log st) ->
  let '(r, log) := conclude opts task dag topoOrder st in good_result (TaskID task) r /\ Forall mine log.
Proof.
  intros Hl. unfold conclude. destruct (_ && _); [by apply abort_writes|].
  destruct (CompensationRunsOnSuccess _).
  - pose proof (saga_writes (rs_results st) (rs_states st)) as Hs.
    destruct (runSagaCompensation _ _ _ _ _) as [c ops]. split; [by split; [|left]|].
    apply Forall_app. by split.
  - split; [by split; [|left]|]. apply Forall_app. by split; [|constructor].
Qed.

Lemma dag_loop_writes fuel sched i st r log :
  Forall mine (rs_log st) -> dag_loop opts task dag topoOrder newUUID fuel sched i st = Some (r, log) ->
  good_result (TaskID task) r /\ Forall mine log.
Proof.
  revert i st; induction fuel as [|f IH]; intros i st Hl; cbn [dag_loop];
    pose proof (conclude_writes st Hl) as Hc;
    (destruct (unfinished dag st); [|destruct (conclude _ _ _ _ _); by intros [= <- <-]]); [done|].
  unfold iteration. destruct (sched i) as [[] pick].
  - pose proof (abort_writes st ErrTaskCancelled "Task cancelled." Hl) as Ha.
    destruct (buildAbortResult _ _ _ _ _ _). by intros [= <- <-].
  - pose proof (schedule_writes st Hl) as Hs. destruct (_ !! _) as [[id o]|].
    + destruct (_ && _).
      * pose proof (abort_writes (receive (schedule opts task dag newUUID st) id o) ErrSyncDependencyFailed
          ("Node '" +:+ id +:+ "' failed: " +:+ errorCode o) Hs) as Ha.
        destruct (buildAbortResult _ _ _ _ _ _). by intros [= <- <-].
      * by apply IH.
    + pose proof (conclude_writes _ Hs) as Hc'. destruct (conclude _ _ _ _ (schedule _ _ _ _ _)).
      by intros [= <- <-].
Qed.
End Writes.

Lemma apply_op_other id op s i : about id op -> i <> id -> apply_op s op !! i = s !! i.
Proof.
  intros Ha Hi. destruct op; simpl in *; subst; unfold UpdateState, UpdateSubtask; by rewrite lookup_alter_ne.
Qed.

Lemma apply_op_same id op s : about id op -> is_Some (s !! id) -> is_Some (apply_op s op !! id).
Proof.
  intros Ha Hs. destruct op; simpl in *; subst; unfold UpdateState, UpdateSubtask;
    rewrite lookup_alter_eq; by apply fmap_is_Some.
Qed.

Lemma apply_ops id ops s :
  Forall (about id) ops -> is_Some (s !! id) ->
  is_Some (foldl apply_op s ops !! id) /\ forall i, i <> id -> foldl apply_op s ops !! i = s !! i.
Proof.
  intros Hf. revert s; induction Hf as [|op ops Ho _ IH]; intros s Hs; [done|]. simpl.
  destruct (IH (apply_op s op) (apply_op_same id op s Ho Hs)) as [H1 H2]. split; [done|].
  intros i Hi. rewrite H2 by done. by eapply apply_op_other.
Qed.

(** The store after a write of the task's state. *)
Lemma UpdateState_same (s : InMemoryTaskStore) id st :
  is_Some (s !! id) -> exists rec, UpdateState s id st !! id = Some rec /\ State rec = st.
Proof. intros [r Hr]. exists (set_state st r). unfold UpdateState. by rewrite lookup_alter_eq, Hr. Qed.

Lemma UpdateState_other (s : InMemoryTaskStore) id st i : i <> id -> UpdateState s id st !! i = s !! i.
Proof. intros. unfold UpdateState. by rewrite lookup_alter_ne. Qed.

(** What [Execute] leaves behind: the other tasks as they were, and a record of
    this one in the state of the result. *)
Definition executed (store store' : InMemoryTaskStore) (id : string) (r : NopTaskResult) : Prop :=
  good_result id r /\ (forall i, i <> id -> store' !! i = store !! i) /\
  exists rec, store' !! id = Some rec /\ State rec = FinalState r.

Lemma executed_state store s id st r :
  is_Some (s !! id) -> (forall i, i <> id -> s !! i = store !! i) -> good_result id r -> FinalState r = st ->
  executed store (UpdateState s id st) id r.
Proof.
  intros Hs Ho Hg Hf. split_and!; [done| |].
  - intros i Hi. rewrite UpdateState_other by done. by apply Ho.
  - rewrite Hf. by apply UpdateState_same.
Qed.

Lemma failure_good id code msg comp : good_result id (newFailureResult id code msg comp).
Proof. split; [done|by right]. Qed.
#[local] Hint Resolve failure_good : nps.

Lemma admission_ok env task v :
  admission env task = Ok v ->
  exists dag, Dag task = Some dag /\ v = ValidateDag (Some dag) /\ IsValid v = true.
Proof.
  unfold admission. destruct (_ >=? _); [done|]. destruct (negb _); [done|].
  destruct (IsValid (ValidateDag (Dag task))) eqn:E; [|done]. intros [= <-].
  destruct (Dag task) as [dag|]; [by exists dag|done].
Qed.

Lemma admission_err env task r : admission env task = Err r -> good_result (TaskID task) r /\ FinalState r = TaskStateFailed.
Proof.
  unfold admission. repeat (case_match; try done); intros [= <-]; (split; [apply failure_good|done]).
Qed.

(** ** Properties *)

(** Every path through [Execute], given what the admission checks said. *)
Lemma execute_outcome `{NodeExec} opts env store task :
  (forall n ctx u, u ∈ (exec n ctx).2 -> upd_TaskID u = TaskID task) ->
  1 <= MaxConcurrentNodes opts ->
  exists r store' cb, Execute opts env store task = Some (r, store', cb) /\
    match admission env task, store !! TaskID task with
    | Ok _, None => executed store store' (TaskID task) r
    | _, _ => store' = store /\ FinalState r = TaskStateFailed /\ cb = false
    end.
Proof.
  intros Hexec Hmax. unfold Execute, GetTask, Save.
  destruct (admission env task) as [v|r] eqn:Ea; cycle 1.
  { apply admission_err in Ea as [_ ?]. by exists r, store, false. }
  destruct (store !! TaskID task) as [rec|] eqn:Es; [by do 3 eexists|].
  cbn [rec_TaskID]. rewrite Es.
  set (rec := MkTaskRecord _ _ _ _ _ _). set (s1 := <[TaskID task := rec]> store).
  assert (Hs1 : is_Some (s1 !! TaskID task) /\ forall i, i <> TaskID task -> s1 !! i = store !! i).
  { subst s1. rewrite lookup_insert_eq. split; [done|]. intros. by rewrite lookup_insert_ne. }
  assert (Hup : forall s st, is_Some (s !! TaskID task) /\ (forall i, i <> TaskID task -> s !! i = store !! i) ->
    is_Some (UpdateState s (TaskID task) st !! TaskID task) /\
    forall i, i <> TaskID task -> UpdateState s (TaskID task) st !! i = store !! i).
  { intros s st [H1 H2]. split; [by destruct (UpdateState_same s (TaskID task) st H1) as (? & -> & _)|].
    intros i Hi. rewrite UpdateState_other by done. by apply H2. }
  destruct (admission_ok _ _ _ Ea) as (dag & Hdag & -> & Hv). rewrite Hdag. cbv zeta.
  change (default (MkTaskDag [] []) (Some dag)) with dag.
  assert (Hpre : exists s2 fail, (if Preflight task then
      (UpdateState s1 (TaskID task) TaskStatePreflight,
       preflight_collect (probe env (preflight_probes ∅ (Nodes dag))) "" "") else (s1, "")) = (s2, fail) /\
      is_Some (s2 !! TaskID task) /\ forall i, i <> TaskID task -> s2 !! i = store !! i).
  { destruct (Preflight task); do 2 eexists; (split; [done|]); [by apply Hup|done]. }
  destruct Hpre as (s2 & fail & Hpe & Hs2).
  match goal with |- context [if Preflight task then ?a else ?b] =>
    change (if Preflight task then a else b) with
      (if Preflight task then (UpdateState s1 (TaskID task) TaskStatePreflight,
        preflight_collect (probe env (preflight_probes ∅ (Nodes dag))) "" "") else (s1, "")) end.
  rewrite Hpe. destruct (negb (String.eqb fail "")).
  { do 3 eexists. split; [done|]. apply executed_state; [apply Hs2..|apply failure_good|done]. }
  destruct (Hup s2 TaskStateRunning Hs2) as [Hs3 Ho3].
  assert (Hnd : NoDup (node_ids dag)) by (by apply valid_nodup).
  destruct (loop_fuel opts task dag (TopologicalOrder (ValidateDag (Some dag))) (ee_uuid env) Hnd Hmax
    (length (Nodes dag)) (ee_sched env) 0 run_init) as [[r log] Er]; [by apply run_inv_init|lia|].
  unfold runDag. rewrite Er. apply dag_loop_writes in Er as [Hg Hl]; [|done|constructor].
  destruct (apply_ops _ _ (UpdateState s2 (TaskID task) TaskStateRunning) Hl Hs3) as [Hs4 Ho4].
  destruct (_ && _ && _).
  - do 3 eexists. split; [done|]. apply executed_state; [done| |apply failure_good|done].
    intros i Hi. rewrite Ho4 by done. by apply Ho3.
  - do 3 eexists. split; [done|]. apply executed_state; [| |done|done].
    + rewrite lookup_alter_eq. by apply fmap_is_Some.
    + intros i Hi. rewrite lookup_alter_ne, Ho4 by done. by apply Ho3.
Qed.

Lemma admission_iff env task :
  is_ok (admission env task) = true <->
  DelegateDepth task < MaxDelegateChainDepth /\
  (CallbackURL task = "" \/ validate_url env (CallbackURL task) = "") /\
  IsValid (ValidateDag (Dag task)) = true.
Proof.
  unfold admission. destruct (DelegateDepth task >=? MaxDelegateChainDepth) eqn:Ed; bool_hyps.
  { split; [done|]. lia. }
  destruct (String.eqb_spec (CallbackURL task) "") as [Eu|Eu]; cbn [negb String.eqb].
  - destruct (IsValid _); naive_solver.
  - destruct (String.eqb_spec (validate_url env (CallbackURL task)) "") as [Ev|Ev]; cbn [negb];
      [destruct (IsValid _); naive_solver|naive_solver].
Qed.

(** C4. The life cycle of a task: [Execute] always returns.  A task is admitted
    exactly when its delegation depth is below the maximum, its callback URL, if
    it has one, passes the guard and its DAG is valid.  A task that is refused,
    or whose id is known, fails without touching the store.  Otherwise the store
    ends with one new record for the task, whose state is the final state of the
    result (completed or failed, a timeout included), and every other task's
    record is as before. *)
Theorem execute_contract `{NodeExec} opts env store task :
  (forall n ctx u, u ∈ (exec n ctx).2 -> upd_TaskID u = TaskID task) ->
  1 <= MaxConcurrentNodes opts ->
  (is_ok (admission env task) = true <->
   DelegateDepth task < MaxDelegateChainDepth /\
   (CallbackURL task = "" \/ validate_url env (CallbackURL task) = "") /\
   IsValid (ValidateDag (Dag task)) = true) /\
  exists r store' cb, Execute opts env store task = Some (r, store', cb) /\
    match admission env task, store !! TaskID task with
    | Ok _, None => executed store store' (TaskID task) r
    | _, _ => store' = store /\ FinalState r = TaskStateFailed /\ cb = false
    end.
Proof. intros. split; [apply admission_iff|by apply execute_outcome]. Qed.

(** ** Cluster delegation: epochs only grow *)

(** The atomic changes of the cache, in any interleaving of concurrent calls. *)
Inductive cache_step : ClusterDelegationResolver -> ClusterDelegationResolver -> Prop :=
| cs_failover r c nid ep : cache_step r (OnAnchorFailover r c nid ep).2
| cs_fresh r c fresh : cache_step r (store_fresh r c fresh).2.

(** [r'] is at least as recent as [r], and never another owner at the same epoch. *)
Definition newer (r r' : ClusterDelegationResolver) : Prop :=
  forall c info, r !! c = Some info -> exists info', r' !! c = Some info' /\
    (info' = info \/ ClusterEpoch info < ClusterEpoch info').

Lemma newer_refl r : newer r r.
Proof. intros c info Hc. eauto. Qed.

Lemma newer_trans r1 r2 r3 : newer r1 r2 -> newer r2 r3 -> newer r1 r3.
Proof.
  intros H1 H2 c info (i2 & Hi2 & E2)%H1. destruct (H2 _ _ Hi2) as (i3 & Hi3 & E3). exists i3.
  split; [done|]. destruct E2 as [->|], E3 as [->|]; [by left|right; lia..].
Qed.

Lemma newer_insert r c info :
  (forall cur, r !! c = Some cur -> ClusterEpoch cur < ClusterEpoch info) -> newer r (<[c := info]> r).
Proof.
  intros Hc c' i Hi. destruct (decide (c' = c)) as [->|Hne].
  - exists info. rewrite lookup_insert_eq. split; [done|right; by apply Hc].
  - exists i. rewrite lookup_insert_ne by done. by split; [|left].
Qed.

Lemma step_newer r r' : cache_step r r' -> newer r r'.
Proof.
  intros [r0 c nid ep|r0 c fresh].
  - unfold OnAnchorFailover. repeat case_match; try apply newer_refl; apply newer_insert.
    all: intros cur Hcur; simplify_eq; bool_hyps; simpl; try lia; congruence.
  - unfold store_fresh. repeat case_match; try apply newer_refl; apply newer_insert.
    all: intros cur Hcur; simplify_eq; bool_hyps; simpl; try lia; congruence.
Qed.

(** The delegation resolver never goes back: through any interleaving of
    failover events and finishing lookups, a cluster's cached owner changes only
    to one of a strictly higher epoch, so a replayed or equal-epoch event cannot
    flip it; and [ResolveActive], whatever runs while its lookup is out, is such
    a sequence and returns what the cache then holds. *)
Theorem resolver_monotone r r' :
  rtc cache_step r r' ->
  newer r r' /\
  (forall lookup during c res r'', rtc cache_step r' (during r') ->
     ResolveActive r' lookup during c = (Ok (Some res), r'') ->
     rtc cache_step r' r'' /\ newer r' r'' /\ r'' !! c = Some res).
Proof.
  intros Hr. assert (Hn : forall a b, rtc cache_step a b -> newer a b).
  { induction 1 as [|x y z Hxy _ IH]; [apply newer_refl|]. eapply newer_trans; [by apply step_newer|done]. }
  split; [by apply Hn|]. intros lookup during c res r'' Hd. unfold ResolveActive.
  destruct (String.eqb c ""); [done|]. destruct (r' !! c) as [cached|] eqn:Ec.
  { intros [= <- <-]. split_and!; [done|apply newer_refl|done]. }
  destruct (lookup c) as [[fresh|]|]; [|done..].
  pose proof (cs_fresh (during r') c fresh) as Hs.
  destruct (store_fresh (during r') c fresh) as [info r2] eqn:Ef. intros [= <- <-].
  assert (rtc cache_step r' r2) by (by eapply rtc_r). split_and!; [done|by apply Hn|].
  unfold store_fresh in Ef. repeat case_match; simplify_eq; [done|by rewrite lookup_insert_eq..].
Qed.

(** ** Witnesses *)

Definition open_env : ExecuteEnv :=
  MkExecuteEnv (fun _ => "") (fun _ => []) in_order false false 0 1 id.
Definition diamond_task : OrchestratorTask :=
  MkTask "t" (Some diamond) 0 0 "" "" "" false VNil "" 0 "".

Lemma execute_contract_witness :
  exists r store' cb, Execute (H := scripted_exec []) four open_env NewInMemoryTaskStore diamond_task = Some (r, store', cb) /\
    match admission open_env diamond_task, NewInMemoryTaskStore !! TaskID diamond_task with
    | Ok _, None => executed NewInMemoryTaskStore store' (TaskID diamond_task) r
    | _, _ => store' = NewInMemoryTaskStore /\ FinalState r = TaskStateFailed /\ cb = false
    end.
Proof.
  apply (execute_contract (H := scripted_exec []) four open_env NewInMemoryTaskStore diamond_task).
  - intros n ctx u Hu. cbn in Hu. set_solver.
  - vm_compute. discriminate.
Defined.

Definition cluster_c : ClusterDelegationResolver := {["urn:nps:c" := MkAnchorInfo "urn:nps:a" 3]}.

Lemma resolver_monotone_witness :
  let r' := (OnAnchorFailover cluster_c "urn:nps:c" "urn:nps:b" 4).2 in
  newer cluster_c r' /\
  (forall lookup during c res r'', rtc cache_step r' (during r') ->
     ResolveActive r' lookup during c = (Ok (Some res), r'') ->
     rtc cache_step r' r'' /\ newer r' r'' /\ r'' !! c = Some res).
Proof. intros r'. apply (resolver_monotone cluster_c). apply rtc_once, cs_failover. Defined.
