(* ===== verification/NopPortable.v ===== *)
(** * The portable orchestration profile

    nop/portable_profile.go: a deterministic evaluator of scripted tasks (order,
    conditions, input mapping, retries, compensation, aggregation) and of the
    runtime profile (callbacks, signatures, leases, delegation, spawn
    specifications, lifecycle).

    Inputs are decoded JSON.  [to_json] is json.Marshal of such a value, which does
    not fail, [of_json] json.Unmarshal into [any]; [range m] lists a map in the order
    in which the runtime happens to range over it. *)

From S2P Require Import Prelude GoValue GoBase64 NopModels NopInput NopCondition NopExecute.

Definition ErrDelegateScopeViolation : string := "NOP-DELEGATE-SCOPE-VIOLATION".
Definition ErrCallbackHmacMissing : string := "NOP-CALLBACK-HMAC-MISSING".
Definition ErrCallbackInvalid : string := "NOP-CALLBACK-INVALID".
Definition ErrCallbackHmacInvalid : string := "NOP-CALLBACK-HMAC-INVALID".
Definition ErrSpawnSpecInvalid : string := "NOP-SPAWN-SPEC-INVALID".
Definition ErrRuntimeIdleTimeout : string := "NOP-RUNTIME-IDLE-TIMEOUT".
Definition ErrRuntimeMaxRuntime : string := "NOP-RUNTIME-MAX-RUNTIME".
Definition ndpClusterSplit : string := "NDP-CLUSTER-SPLIT".

(** ** Reading values *)

Definition object (v : any) : dict := default [] (as_map v).
Definition anySlice (v : any) : list any := default [] (as_slice v).
Definition stringValue (v : any) : string := default "" (as_string v).
Definition boolValue (v : any) : bool := default false (as_bool v).
Definition stringSlice (v : any) : list string := stringValue <$> anySlice v.

Definition intValue (v : any) (fallback : Z) : Z :=
  match v with
  | VFloat64 f => int64_of_float f
  | VInt KInt z => z
  | VNumber lit => let '(n, ok) := Number_Int64 lit in if ok then n else fallback
  | _ => fallback
  end.

Definition containsString (values : list string) (expected : string) : bool := mem_string expected values.
Definition stringSubset (values allowed : list string) : bool := forallb (fun v => mem_string v allowed) values.

Definition present (d : dict) (k : string) : bool := bool_decide (is_Some (dict_get k d)).

(** ** Order *)

Abbreviation nodemap := (gmap string dict).

Definition dependencies (nodes : nodemap) (id : string) : list string := stringSlice (dict_at (default [] (nodes !! id)) "depends_on").

(** One dependency of [id]: [None] is the early return. *)
Definition add_dependency (nodes : nodemap) (id : string) (st : option (gmap string Z * gmap string (list string))) (dependency : string) :
    option (gmap string Z * gmap string (list string)) :=
  match st with
  | None => None
  | Some (indegree, outgoing) =>
      if bool_decide (nodes !! dependency = None) then None
      else Some (<[id := default 0 (indegree !! id) + 1]> indegree,
                 <[dependency := default [] (outgoing !! dependency) ++ [id]]> outgoing)
  end.

Definition add_node (nodes : nodemap) (st : option (gmap string Z * gmap string (list string))) (entry : string * dict) :
    option (gmap string Z * gmap string (list string)) :=
  fold_left (add_dependency nodes entry.1) (stringSlice (dict_at entry.2 "depends_on")) st.

(** One successor: the ready list is kept sorted. *)
Definition release_next (st : gmap string Z * list string) (next : string) : gmap string Z * list string :=
  let '(indegree, ready) := st in
  let d := default 0 (indegree !! next) - 1 in
  (<[next := d]> indegree, if d =? 0 then sort_strings (ready ++ [next]) else ready).

Fixpoint drain (fuel : nat) (outgoing : gmap string (list string)) (indegree : gmap string Z) (ready order : list string) : list string * list string :=
  match fuel with
  | O => (order, ready)
  | S f =>
      match ready with
      | [] => (order, [])
      | id :: ready =>
          let '(indegree, ready) := fold_left release_next (sort_strings (default [] (outgoing !! id))) (indegree, ready) in
          drain f outgoing indegree ready (order ++ [id])
      end
  end.

(** [entries] lists the nodes and [degrees] the map of degrees, each in some order. *)
Definition stablePortableTopology (nodes : nodemap) (entries : list (string * dict)) (degrees : gmap string Z -> list (string * Z)) : option (list string) :=
  match fold_left (add_node nodes) entries (Some ((fun _ => 0) <$> nodes, (fun _ => []) <$> nodes)) with
  | None => None
  | Some (indegree, outgoing) =>
      let ready := sort_strings ((filter (fun '(_, d) => d = 0) (degrees indegree)).*1) in
      let order := (drain (size nodes) outgoing indegree ready []).1 in
      if (length order =? size nodes)%nat then Some order else None
  end.

(** ** Results *)

(** The members of the map that [portableResult] returns. *)
Record PortableResult : Type := MkPortable {
  events : list string; terminal_state : string; error_code : string; aggregate : any; node_states : gmap string string;
  attempt_counts : gmap string Z; mapped_params : any; compensation_order : list string
}.

(** ** Compensation *)

Fixpoint collect (fuel : nat) (nodes : nodemap) (id : string) (ancestors : gset string) : gset string :=
  match fuel with
  | O => ancestors
  | S f => fold_left (fun anc d => if bool_decide (d ∈ anc) then anc else collect f nodes d ({[d]} ∪ anc)) (dependencies nodes id) ancestors
  end.

(** The loop over the candidates that have an action. *)
Fixpoint compensate_loop (strict : bool) (nodes : nodemap) (candidates order evs : list string) (states : gmap string string) :
    list string * string * list string * gmap string string :=
  match candidates with
  | [] => (order, "", evs, states)
  | id :: rest =>
      let node := default [] (nodes !! id) in
      if negb (present node "compensate_action") then compensate_loop strict nodes rest order evs states
      else
        let order := order ++ [id] in
        let evs := evs ++ [id +:+ ":compensating"] in
        if String.eqb (stringValue (dict_at node "compensation_outcome")) "failure" then
          let states := <[id := "compensation_failed"]> states in
          let evs := evs ++ [id +:+ ":compensation_failed"] in
          if strict then (order, ErrCompensationFailed, evs, states) else compensate_loop strict nodes rest order evs states
        else compensate_loop strict nodes rest order (evs ++ [id +:+ ":compensated"]) (<[id := "compensated"]> states)
  end.

Definition compensation_candidates (failedID : string) (topology : list string) (nodes : nodemap) (states : gmap string string) : list string :=
  let ancestors := collect (S (size nodes)) nodes failedID ∅ in
  filter (fun id => id ∈ ancestors /\ states !! id = Some "completed") (rev topology).

Definition compensatePortable (task : dict) (failedID : string) (topology : list string) (nodes : nodemap)
    (evs : list string) (states : gmap string string) : list string * string * list string * gmap string string :=
  let policy := stringValue (dict_at task "compensation_policy") in
  if negb (String.eqb policy "best_effort") && negb (String.eqb policy "strict") then ([], "", evs, states)
  else
    let candidates := compensation_candidates failedID topology nodes states in
    let strict := String.eqb policy "strict" in
    if strict && existsb (fun id => negb (present (default [] (nodes !! id)) "compensate_action")) candidates then
      ([], ErrCompensationNotSupported, evs, states)
    else compensate_loop strict nodes candidates [] evs states.

Section Portable.
Context (RawText : json -> string) (to_json : any -> json) (of_json : json -> any).
Context (range : forall A : Type, gmap string A -> list (string * A)).

Definition deepCopy (v : any) : any := match v with VNil => VNil | _ => of_json (to_json v) end.

Definition rawMessageContext (values : gmap string any) : Results := to_json <$> values.

(** ** Aggregation *)

Definition has_outgoing (nodes : nodemap) : gset string :=
  list_to_set (concat ((fun '(_, node) => stringSlice (dict_at node "depends_on")) <$> range dict nodes)).

Definition merge_item (mergeAll : bool) (merged : dict) (key : string) (item : any) : dict :=
  match mergeAll, as_slice (dict_at merged key), as_slice item with
  | true, Some existing, Some incoming => dict_set key (VSlice (existing ++ anySlice (deepCopy (VSlice incoming)))) merged
  | _, _, _ => dict_set key (deepCopy item) merged
  end.

Definition merge_value (mergeAll : bool) (merged : dict) (raw : any) : dict :=
  match as_map raw with
  | None => merged
  | Some value => fold_left (fun m key => merge_item mergeAll m key (dict_at value key)) (sort_strings value.*1) merged
  end.

Definition aggregatePortable (task : dict) (topology : list string) (nodes : nodemap) (states : gmap string string) (results : gmap string any) : any :=
  let sources := has_outgoing nodes in
  let values := omap (fun id => match results !! id with
                                | Some r => if bool_decide (id ∉ sources) && bool_decide (states !! id = Some "completed") then Some (deepCopy r) else None
                                | None => None
                                end) topology in
  match values with
  | [] => VNil
  | _ => if String.eqb (stringValue (dict_at task "aggregate")) "all" then VSlice values
         else VMap (fold_left (merge_value (String.eqb (stringValue (dict_at task "aggregate")) "merge_all")) values [])
  end.

(** ** Tasks *)

(** The variables of the loop over the nodes. *)
Record run_state : Type := MkRun {
  rs_events : list string; rs_results : gmap string any; rs_states : gmap string string; rs_attempts : gmap string Z; rs_mapped : gmap string dict
}.

(** [portableResult] with the variables as they are. *)
Definition portableResult (st : run_state) (state errorCode : string) (agg : any) (compensation : list string) : PortableResult :=
  MkPortable (rs_events st) state errorCode (deepCopy agg) (rs_states st) (rs_attempts st)
    (deepCopy (VMap (prod_map id VMap <$> range dict (rs_mapped st)))) compensation.

Definition emptyPortableFailure (errorCode : string) : PortableResult :=
  portableResult (MkRun ["task:failed"] ∅ ∅ ∅ ∅) "failed" errorCode VNil [].

Definition add_events (l : list string) (st : run_state) : run_state :=
  MkRun (rs_events st ++ l) (rs_results st) (rs_states st) (rs_attempts st) (rs_mapped st).
Definition set_state (id state : string) (st : run_state) : run_state :=
  MkRun (rs_events st) (rs_results st) (<[id := state]> (rs_states st)) (rs_attempts st) (rs_mapped st).
Definition set_attempts (id : string) (n : Z) (st : run_state) : run_state :=
  MkRun (rs_events st) (rs_results st) (rs_states st) (<[id := n]> (rs_attempts st)) (rs_mapped st).
Definition set_result (id : string) (r : any) (st : run_state) : run_state :=
  MkRun (rs_events st) (<[id := r]> (rs_results st)) (rs_states st) (rs_attempts st) (rs_mapped st).
Definition set_mapped (id : string) (p : dict) (st : run_state) : run_state :=
  MkRun (rs_events st) (rs_results st) (rs_states st) (rs_attempts st) (<[id := p]> (rs_mapped st)).

(** A node that fails before it is attempted. *)
Definition fail_node (id code : string) (st : run_state) : PortableResult :=
  portableResult (add_events [id +:+ ":failed"; "task:failed"] (set_attempts id 0 (set_state id "failed" st))) "failed" code VNil [].

(** The parameters of a mapping: [None] when a path fails or finds nothing. *)
Fixpoint map_params (mapping : list (string * any)) (context : Results) (params : dict) : option dict :=
  match mapping with
  | [] => Some params
  | (name, path) :: r =>
      match ResolvePath (stringValue path) context with
      | Ok (Some j) => map_params r context (dict_set name (of_json j) params)
      | _ => None
      end
  end.

(** The loop over the scripted attempts: the state, the attempts made, the last error
    and whether the node completed. *)
Fixpoint run_attempts (id : string) (node : dict) (maxRetries : Z) (scripted : list any) (index : Z) (finalError : string) (st : run_state) :
    run_state * Z * string * bool :=
  match scripted with
  | [] => (st, index, finalError, false)
  | raw :: rest =>
      if maxRetries <? index then (st, index, finalError, false)
      else
        let outcome := object raw in
        let count := index + 1 in
        let st := add_events [id +:+ ":attempt:" +:+ fmt_d count] st in
        let kind := stringValue (dict_at outcome "kind") in
        if String.eqb kind "success" then
          let result := match dict_at outcome "result" with VNil => VMap [] | r => r end in
          (add_events [id +:+ ":completed"] (set_state id "completed" (set_result id (deepCopy result) st)), count, finalError, true)
        else
          let finalError := if String.eqb kind "timeout" then ErrDelegateTimeout
                            else if String.eqb (stringValue (dict_at outcome "error_code")) "" then ErrDelegateRejected
                            else stringValue (dict_at outcome "error_code") in
          let retryable := String.eqb kind "timeout" || boolValue (dict_at outcome "retryable") in
          let selected := negb (present node "retry_on") || containsString (stringSlice (dict_at node "retry_on")) finalError in
          if retryable && selected && (count <=? maxRetries) && negb (bool_decide (rest = [])) then
            run_attempts id node maxRetries rest count finalError (add_events [id +:+ ":retrying"] st)
          else (add_events [id +:+ ":failed"] (set_state id "failed" st), count, finalError, false)
  end.

(** What one node leads to. *)
Inductive node_outcome : Type :=
| Continue (st : run_state)
| Return (r : PortableResult).

Definition attempt_node (task : dict) (nodes : nodemap) (topology : list string) (id : string) (node : dict) (st : run_state) : node_outcome :=
  let maxRetries := intValue (dict_at node "max_retries") (intValue (dict_at task "max_retries") 0) in
  let '(st, count, finalError, completed) := run_attempts id node maxRetries (anySlice (dict_at node "attempts")) 0 "" st in
  let st := set_attempts id count st in
  if completed then Continue st
  else
    let '(compensation, compensationError, evs, states) := compensatePortable task id topology nodes (rs_events st) (rs_states st) in
    let st := MkRun (evs ++ ["task:failed"]) (rs_results st) states (rs_attempts st) (rs_mapped st) in
    let finalError := if String.eqb compensationError "" then finalError else compensationError in
    Return (portableResult st "failed" (if String.eqb finalError "" then ErrDelegateRejected else finalError) VNil compensation).

Definition map_node (task : dict) (nodes : nodemap) (topology : list string) (id : string) (node : dict) (st : run_state) : node_outcome :=
  match dict_get "input_mapping" node with
  | None => attempt_node task nodes topology id node st
  | Some mapping =>
      match map_params (object mapping) (rawMessageContext (rs_results st)) [] with
      | None => Return (fail_node id ErrInputMappingError st)
      | Some params => attempt_node task nodes topology id node (set_mapped id params st)
      end
  end.

Definition run_node (task : dict) (nodes : nodemap) (topology : list string) (id : string) (st : run_state) : node_outcome :=
  let node := default [] (nodes !! id) in
  if String.eqb (stringValue (dict_at task "cancel_before")) id then
    Return (portableResult (add_events ["task:cancelled"] st) "cancelled" ErrTaskCancelled VNil [])
  else
    match dict_get "condition" node with
    | None => map_node task nodes topology id node st
    | Some condition =>
        match EvaluateCondition RawText (rawMessageContext (rs_results st)) (stringValue condition) with
        | Err _ => Return (fail_node id ErrConditionEvalError st)
        | Ok false => Continue (add_events [id +:+ ":skipped"] (set_attempts id 0 (set_state id "skipped" st)))
        | Ok true => map_node task nodes topology id node st
        end
    end.

Fixpoint run_nodes (task : dict) (nodes : nodemap) (topology todo : list string) (st : run_state) : PortableResult :=
  match todo with
  | [] =>
      let agg := aggregatePortable task topology nodes (rs_states st) (rs_results st) in
      portableResult (add_events ["task:completed"] st) "completed" "" agg []
  | id :: rest =>
      match run_node task nodes topology id st with
      | Return r => r
      | Continue st => run_nodes task nodes topology rest st
      end
  end.

(** The nodes by id; [None] when an id repeats. *)
Fixpoint index_nodes (raw : list any) (nodes : nodemap) : option nodemap :=
  match raw with
  | [] => Some nodes
  | r :: rest =>
      let node := object r in
      let id := stringValue (dict_at node "id") in
      if bool_decide (is_Some (nodes !! id)) then None else index_nodes rest (<[id := node]> nodes)
  end.

Definition unavailable (nodes : nodemap) (id : string) : bool :=
  let node := default [] (nodes !! id) in present node "preflight_available" && negb (boolValue (dict_at node "preflight_available")).

Definition EvaluateOrchestration (task : dict) : PortableResult :=
  match index_nodes (anySlice (dict_at task "nodes")) ∅ with
  | None => emptyPortableFailure ErrTaskDagInvalid
  | Some nodes =>
      match stablePortableTopology nodes (range dict nodes) (range Z) with
      | None => emptyPortableFailure ErrTaskDagCycle
      | Some topology =>
          let preflight := boolValue (dict_at task "preflight") in
          let start := MkRun (if preflight then ["task:preflight"] else []) ∅ ∅ ∅ ∅ in
          if preflight && existsb (unavailable nodes) topology then
            portableResult (add_events ["task:failed"] start) "failed" ErrResourceInsufficient VNil []
          else run_nodes task nodes topology topology (add_events ["task:running"] start)
      end
  end.
End Portable.

(** ** The runtime profile *)

(** [url.Parse]: the URL and whether it has user information. *)
Section Runtime.
Context (url_Parse : string -> option (URL * bool)) (parseIPv6 : string -> option (list Z)).
Context (hmac_sha256_hex : list byte -> list byte -> string) (sha256_hex : list byte -> string).

Definition IsUnspecified (ip : list Z) : bool := bool_decide (ip = repeat 0 16) || bool_decide (To4 ip = Some [0; 0; 0; 0]).
Definition IsLoopback (ip : list Z) : bool := match To4 ip with Some b => nth 0 b 0 =? 127 | None => IsLoopback6 ip end.
Definition IsPrivate (ip : list Z) : bool :=
  match To4 ip with
  | Some b => (nth 0 b 0 =? 10) || ((nth 0 b 0 =? 172) && (Z.land (nth 1 b 0) 0xF0 =? 16)) || ((nth 0 b 0 =? 192) && (nth 1 b 0 =? 168))
  | None => Z.land (nth 0 ip 0) 0xFE =? 0xFC
  end.
Definition IsLinkLocalUnicast (ip : list Z) : bool :=
  match To4 ip with Some b => (nth 0 b 0 =? 169) && (nth 1 b 0 =? 254) | None => IsLinkLocalUnicast6 ip end.
Definition IsLinkLocalMulticast (ip : list Z) : bool :=
  match To4 ip with Some b => (nth 0 b 0 =? 224) && (nth 1 b 0 =? 0) && (nth 2 b 0 =? 0) | None => IsLinkLocalMulticast6 ip end.
Definition IsMulticast (ip : list Z) : bool :=
  match To4 ip with Some b => Z.land (nth 0 b 0) 0xF0 =? 0xE0 | None => nth 0 ip 0 =? 0xFF end.

Definition isPublicIP (ip : list Z) : bool :=
  if IsUnspecified ip || IsLoopback ip || IsPrivate ip || IsLinkLocalUnicast ip || IsLinkLocalMulticast ip || IsMulticast ip then false
  else match To4 ip with Some b => negb (nth 0 b 0 =? 0) && (nth 0 b 0 <? 224) | None => true end.

Definition callbackDestinationAllowed (value : string) (addresses : list string) : bool :=
  match url_Parse value with
  | None => false
  | Some (u, hasUser) =>
      EqualFold (Scheme u) "https" && negb (String.eqb (Hostname u) "") && negb hasUser && negb (bool_decide (addresses = [])) &&
      forallb (fun a => match ParseIP parseIPv6 a with Some ip => isPublicIP ip | None => false end) addresses
  end.

Definition evaluatePortableCallback (input : dict) : bool * option string :=
  let allowed := callbackDestinationAllowed (stringValue (dict_at input "url")) (stringSlice (dict_at input "resolved_ips")) in
  let allowed := if allowed then
                   match dict_get "redirect_url" input with
                   | Some redirect => callbackDestinationAllowed (stringValue redirect) (stringSlice (dict_at input "redirect_resolved_ips"))
                   | None => true
                   end
                 else false in
  (allowed, if allowed then None else Some ErrCallbackInvalid).

Definition evaluatePortableHMAC (input : dict) : bool * option string :=
  match dict_at input "signature" with
  | VNil => (false, Some ErrCallbackHmacMissing)
  | signature =>
      match RawURL_Decode (stringValue (dict_at input "secret_base64url")) with
      | None => (false, Some ErrCallbackHmacInvalid)
      | Some key =>
          let expected := "sha256=" +:+ hmac_sha256_hex key (bytes_of_string (stringValue (dict_at input "raw_body"))) in
          let valid := (length key =? 32)%nat && String.eqb expected (stringValue signature) in
          (valid, if valid then None else Some ErrCallbackHmacInvalid)
      end
  end.

Definition ComputeDedupKey (taskID dagHash : string) : string :=
  sha256_hex (bytes_of_string (taskID +:+ str_of [0]%N +:+ dagHash)).

(** *** Leases *)

Record portableLease : Type := MkLease { runnerNID : string; expiresAt : Z }.
Record lease_state : Type := MkLeases { leases : gmap string portableLease; terminal : gset string }.

Definition clampLeaseSeconds (value : Z) : Z := if value <? 10 then 10 else if 600 <? value then 600 else value.

Definition portableTerminalKey (event : dict) : string :=
  stringValue (dict_at event "dedup_key") +:+ str_of [0]%N +:+ stringValue (dict_at event "node_id").

(** One event: the outcome it appends, if any. *)
Definition lease_event (event : dict) (s : lease_state) : option string * lease_state :=
  let at_ := intValue (dict_at event "at") 0 in
  let op := stringValue (dict_at event "op") in
  let taskID := stringValue (dict_at event "task_id") in
  let runner := stringValue (dict_at event "runner_nid") in
  let seconds := clampLeaseSeconds (intValue (dict_at event "lease_seconds") 0) in
  let granted := MkLeases (<[taskID := MkLease runner (i64 (at_ + seconds))]> (leases s)) (terminal s) in
  if String.eqb op "claim" then
    match leases s !! taskID with
    | Some lease =>
        if at_ <? expiresAt lease then
          if String.eqb (runnerNID lease) runner then (Some "granted", granted) else (Some "conflict", s)
        else (Some "reclaimed", granted)
    | None => (Some "granted", granted)
    end
  else if String.eqb op "renew" then
    match leases s !! taskID with
    | Some lease => if (at_ <? expiresAt lease) && String.eqb (runnerNID lease) runner then (Some "granted", granted) else (Some "conflict", s)
    | None => (Some "conflict", s)
    end
  else if String.eqb op "mark_terminal" then (Some "recorded", MkLeases (leases s) ({[portableTerminalKey event]} ∪ terminal s))
  else if String.eqb op "is_terminal" then (Some (if bool_decide (portableTerminalKey event ∈ terminal s) then "terminal" else "pending"), s)
  else (None, s).

Fixpoint lease_events (evs : list dict) (s : lease_state) : list string * lease_state :=
  match evs with
  | [] => ([], s)
  | e :: r => let '(o, s) := lease_event e s in let '(os, s) := lease_events r s in (option_list o ++ os, s)
  end.

Definition evaluatePortableLease (input : dict) : list string := (lease_events (object <$> anySlice (dict_at input "events")) (MkLeases ∅ ∅)).1.

(** *** Delegation *)

Definition epoch_of (candidate : dict) : Z := intValue (dict_at candidate "cluster_epoch") 0.

(** The one live candidate with the highest epoch, or the error. *)
Definition delegate_target (attempt : dict) : result string string :=
  let live := List.filter (fun c => boolValue (dict_at c "live")) (object <$> anySlice (dict_at attempt "candidates")) in
  match live with
  | [] => Err ErrDelegateRejected
  | first :: rest =>
      let highest := fold_left (fun h c => if h <? epoch_of c then epoch_of c else h) rest (epoch_of first) in
      match List.filter (fun c => epoch_of c =? highest) live with
      | [leader] => Ok (stringValue (dict_at leader "nid"))
      | _ => Err ndpClusterSplit
      end
  end.

Fixpoint delegate_attempts (attempts : list dict) (targets : list string) : list string * option string :=
  match attempts with
  | [] => (targets, None)
  | a :: r => match delegate_target a with Err e => (targets, Some e) | Ok t => delegate_attempts r (targets ++ [t]) end
  end.

Definition scope_within (parent delegated : dict) : bool :=
  stringSubset (stringSlice (dict_at delegated "nodes")) (stringSlice (dict_at parent "nodes")) &&
  stringSubset (stringSlice (dict_at delegated "actions")) (stringSlice (dict_at parent "actions")) &&
  (intValue (dict_at delegated "max_token_budget") 0 <=? intValue (dict_at parent "max_token_budget") 0).

Definition evaluatePortableDelegation (input : dict) : list string * option string :=
  if negb (scope_within (object (dict_at input "parent_scope")) (object (dict_at input "delegated_scope"))) then ([], Some ErrDelegateScopeViolation)
  else delegate_attempts (object <$> anySlice (dict_at input "attempts")) [].

(** *** Spawn specification and lifecycle *)

Definition evaluatePortableSpawnSpec (input : dict) : option string :=
  let spec := object (dict_at input "spawn_spec") in
  let valid := negb (String.eqb (trim_space (stringValue (dict_at spec "image"))) "") in
  let valid := if valid && present spec "idle_timeout_seconds" && present spec "max_runtime_seconds" &&
                  (intValue (dict_at spec "max_runtime_seconds") 0 <? intValue (dict_at spec "idle_timeout_seconds") 0) then false else valid in
  if valid then None else Some ErrSpawnSpecInvalid.

Definition evaluatePortableLifecycle (input : dict) : string * option string :=
  let num k := intValue (dict_at input k) 0 in
  if num "max_runtime_seconds" <=? num "elapsed_seconds" then ("failed", Some ErrRuntimeMaxRuntime)
  else if num "idle_timeout_seconds" <=? num "idle_seconds" then ("failed", Some ErrRuntimeIdleTimeout)
  else if String.eqb (stringValue (dict_at input "worker_terminal")) "done" then ("completed", None)
  else ("failed", Some ErrDelegateRejected).

(** *** Dispatch *)

Definition error_value (e : option string) : any := match e with Some s => VString s | None => VNil end.

(** [None] is the panic on an unknown category. *)
Definition EvaluateRuntime (category : string) (input : dict) : option dict :=
  if String.eqb category "callback" then let '(b, e) := evaluatePortableCallback input in Some [("allowed", VBool b); ("error", error_value e)]
  else if String.eqb category "hmac" then let '(b, e) := evaluatePortableHMAC input in Some [("valid", VBool b); ("error", error_value e)]
  else if String.eqb category "lease" then Some [("outcomes", VStrings (evaluatePortableLease input))]
  else if String.eqb category "delegation" then let '(t, e) := evaluatePortableDelegation input in Some [("targets", VStrings t); ("error", error_value e)]
  else if String.eqb category "spawn_spec" then Some [("error", error_value (evaluatePortableSpawnSpec input))]
  else if String.eqb category "lifecycle" then let '(s, e) := evaluatePortableLifecycle input in Some [("state", VString s); ("error", error_value e)]
  else if String.eqb category "dedup_key" then
    Some [("value", VString (ComputeDedupKey (stringValue (dict_at input "task_id")) (stringValue (dict_at input "dag_hash"))))]
  else None.
End Runtime.
