(* ===== verification/NopPortableProof.v ===== *)
(** * What the portable profile guarantees

    The order of a task, the outcome of its run, compensation, leases and delegation. *)

From stdpp Require Import fin_sets.
From S2P Require Import Prelude GoValue GoBase64 NopModels NopDag NopInput NopCondition NopExecute NopPortable.

(** ** The edges of a task *)

Definition node_edges (entry : string * dict) : list DagEdge :=
  (fun d => MkDagEdge d entry.1) <$> stringSlice (dict_at entry.2 "depends_on").
Definition edges_of (entries : list (string * dict)) : list DagEdge := mjoin (node_edges <$> entries).

Definition add_edge (nodes : nodemap) st (e : DagEdge) := add_dependency nodes (To e) st (From e).

Lemma add_node_edges nodes entries st : fold_left (add_node nodes) entries st = fold_left (add_edge nodes) (edges_of entries) st.
Proof.
  unfold edges_of. revert st. induction entries as [|[id node] entries IH]; intros st; [done|]. cbn [fold_left]. csimpl. rewrite fold_left_app.
  rewrite IH. f_equal. unfold add_node, node_edges. cbn [fst snd]. generalize (stringSlice (dict_at node "depends_on")) as l. intros l. revert st.
  induction l as [|d l IHl]; intros st; [done|]. apply IHl.
Qed.

Lemma add_edges_none nodes es : fold_left (add_edge nodes) es None = None.
Proof. by induction es. Qed.

Lemma add_edges_meaning nodes es indegree outgoing :
  match fold_left (add_edge nodes) es (Some (indegree, outgoing)) with
  | Some (i, o) => Forall (fun e => From e ∈ dom nodes) es /\
      (forall x, deg i x = deg indegree x + Z.of_nat (NopDag.pending es [] x)) /\
      (forall x, default [] (o !! x) = default [] (outgoing !! x) ++ succs es x) /\
      (forall s : gset string, (forall e, e ∈ es -> To e ∈ s) -> dom indegree = s -> dom i = s)
  | None => ~ Forall (fun e => From e ∈ dom nodes) es
  end.
Proof.
  revert indegree outgoing. induction es as [|[u v] es IH]; intros indegree outgoing; cbn [fold_left].
  { split_and!; [constructor|intros; unfold NopDag.pending; simpl; lia|intros; unfold succs; simpl; by rewrite app_nil_r|done]. }
  unfold add_edge at 2. cbn [From To add_dependency]. case_bool_decide as Hu.
  { rewrite add_edges_none. intros [H _]%Forall_cons. apply elem_of_dom in H as [? H]. cbn in H. congruence. }
  specialize (IH (<[v := default 0 (indegree !! v) + 1]> indegree) (<[u := default [] (outgoing !! u) ++ [v]]> outgoing)).
  destruct (fold_left (add_edge nodes) es _) as [[i o]|]; [|rewrite Forall_cons; naive_solver].
  destruct IH as (Hf & Hi & Ho & Hd). split_and!.
  - constructor; [|done]. cbn. apply elem_of_dom. destruct (nodes !! u); [eauto|done].
  - intros x. rewrite Hi. unfold NopDag.pending. rewrite filter_cons. cbn [From To]. destruct (decide (v = x)) as [->|Hn].
    + rewrite lookup_insert_eq, decide_True by set_solver. cbn. lia.
    + rewrite lookup_insert_ne by done. rewrite decide_False by naive_solver. done.
  - intros x. rewrite Ho. unfold succs. rewrite filter_cons. cbn [From]. destruct (decide (u = x)) as [->|Hn].
    + rewrite lookup_insert_eq. csimpl. by rewrite <- app_assoc.
    + by rewrite lookup_insert_ne.
  - intros s Hs Hdom. apply Hd; [set_solver|]. rewrite dom_insert_L, Hdom. assert (v ∈ s) by (apply (Hs (MkDagEdge u v)); by left). set_solver.
Qed.

(** ** The sorted queue *)

Lemma release_perm l rem q q0 : q ≡ₚ q0 ->
  let '(rem1, q1) := fold_left release_next l (rem, q) in let '(rem2, q2) := fold_left relax l (rem, q0) in rem1 = rem2 /\ q1 ≡ₚ q2.
Proof.
  revert rem q q0. induction l as [|x l IH]; intros rem q q0 Hq; [done|]. cbn [fold_left release_next relax].
  apply IH. destruct (_ =? 0); [|done]. by rewrite sort_strings_perm, Hq.
Qed.

Lemma sort_strings_strong l : StronglySorted String.le (sort_strings l).
Proof. apply Sorted_StronglySorted; [apply _|apply sort_strings_sorted]. Qed.

Lemma release_sorted l rem q : StronglySorted String.le q -> StronglySorted String.le (fold_left release_next l (rem, q)).2.
Proof.
  revert rem q. induction l as [|x l IH]; intros rem q Hq; [done|]. cbn [fold_left release_next]. apply IH.
  destruct (_ =? 0); [apply sort_strings_strong|done].
Qed.

(** Every node comes after its dependencies, and is the least of those that could come. *)
Definition least_first (nodes : nodemap) (order : list string) : Prop :=
  forall pre id post, order = pre ++ id :: post ->
    (forall d, d ∈ dependencies nodes id -> d ∈ pre) /\
    forall y, is_Some (nodes !! y) -> y ∉ pre -> (forall d, d ∈ dependencies nodes y -> d ∈ pre) -> String.le id y.

Section Order.
Context (nodes : nodemap) (entries : list (string * dict)).
Hypothesis Hentries : entries ≡ₚ map_to_list nodes.

Abbreviation es := (edges_of entries).
Abbreviation ids := (map_keys nodes).

Lemma portable_edge d id : edge_rel es d id <-> is_Some (nodes !! id) /\ d ∈ dependencies nodes id.
Proof.
  unfold edge_rel, edges_of, dependencies. rewrite list_elem_of_join. split.
  - intros (l & Hl & ([id' node] & -> & Hin)%list_elem_of_fmap). apply list_elem_of_fmap in Hl as (d' & E & Hd). cbn in E, Hd. injection E as -> ->.
    rewrite Hentries in Hin. apply elem_of_map_to_list in Hin. rewrite Hin. eauto.
  - intros [[node Hn] Hd]. rewrite Hn in Hd. cbn in Hd. exists (node_edges (id, node)). split.
    + apply list_elem_of_fmap. by exists d.
    + apply list_elem_of_fmap. exists (id, node). split; [done|]. rewrite Hentries. by apply elem_of_map_to_list.
Qed.

Lemma ids_dom x : x ∈ ids <-> is_Some (nodes !! x).
Proof.
  unfold map_keys. rewrite list_elem_of_fmap. split.
  - intros ([k n] & -> & H). apply elem_of_map_to_list in H. eauto.
  - intros [n H]. exists (x, n). split; [done|]. by apply elem_of_map_to_list.
Qed.

Lemma ids_nodup : NoDup ids.
Proof. apply NoDup_fst_map_to_list. Qed.

Lemma ids_length : length ids = size nodes.
Proof. unfold map_keys. by rewrite length_fmap, length_map_to_list. Qed.

Lemma to_ids e : e ∈ es -> To e ∈ ids.
Proof. destruct e as [u v]. intros He. apply ids_dom. by apply portable_edge in He as [? _]. Qed.

Record order_inv (remaining : gmap string Z) (ready sorted : list string) : Prop := {
  oi_kahn : kahn_inv es ids remaining ready sorted;
  oi_sorted : StronglySorted String.le ready;
  oi_least : least_first nodes sorted
}.

Lemma ready_complete remaining ready sorted y : kahn_inv es ids remaining ready sorted -> is_Some (nodes !! y) -> y ∉ sorted ->
  (forall d, d ∈ dependencies nodes y -> d ∈ sorted) -> y ∈ ready.
Proof.
  intros Hi Hy Hn Hd. assert (Hin : y ∈ sorted ++ ready); [|set_solver].
  apply (ki_zero _ _ _ _ _ Hi); [by apply ids_dom|]. apply pending_zero. intros u [_ Hu]%portable_edge. auto.
Qed.

Lemma order_step (outgoing : gmap string (list string)) remaining c ready sorted : (forall x, default [] (outgoing !! x) ≡ₚ succs es x) ->
  order_inv remaining (c :: ready) sorted ->
  let '(remaining', ready') := fold_left release_next (sort_strings (default [] (outgoing !! c))) (remaining, ready) in
  order_inv remaining' ready' (sorted ++ [c]).
Proof.
  intros Hout [Hk Hs Hl]. set (l := sort_strings _).
  assert (Hlp : l ≡ₚ succs es c) by (subst l; by rewrite sort_strings_perm).
  pose proof (release_perm l remaining ready ready (Permutation_refl ready)) as Hp. pose proof (release_sorted l remaining ready) as Hsort.
  destruct (fold_left release_next l _) as [rem1 q1]. destruct (fold_left relax l _) as [rem2 q2] eqn:E2. destruct Hp as [-> Hp].
  pose proof (kahn_round es ids to_ids remaining c l ready sorted rem2 q2 Hk Hlp E2) as Hk2.
  apply StronglySorted_inv in Hs as [Hs Hle]. split; [by eapply kahn_inv_perm|by apply Hsort|].
  intros pre id post E. destruct post as [|w post _] using rev_ind.
  - apply app_inj_tail in E as [-> ->]. split.
    + intros d Hd. assert (Hz : NopDag.pending es pre id = 0%nat) by (apply (ki_zero _ _ _ _ _ Hk); [apply (ki_ids _ _ _ _ _ Hk)|]; set_solver).
      pose proof (proj1 (pending_zero _ _ _) Hz) as Hall. apply Hall, portable_edge. split; [|done]. apply ids_dom, (ki_ids _ _ _ _ _ Hk). set_solver.
    + intros y Hy Hn Hd. pose proof (ready_complete _ _ _ y Hk Hy Hn Hd) as [->|Hin]%elem_of_cons; [reflexivity|].
      rewrite Forall_forall in Hle. by apply Hle.
  - change (id :: post ++ [w]) with ((id :: post) ++ [w]) in E. rewrite app_assoc in E. apply app_inj_tail in E as [E _]. by eapply Hl.
Qed.

Lemma drain_order outgoing fuel remaining ready sorted : (forall x, default [] (outgoing !! x) ≡ₚ succs es x) ->
  order_inv remaining ready sorted -> (length ids <= fuel + length sorted)%nat ->
  exists remaining', order_inv remaining' [] (drain fuel outgoing remaining ready sorted).1.
Proof.
  intros Hout. revert remaining ready sorted. induction fuel as [|f IH]; intros remaining ready sorted Hi Hl.
  - assert (ready = []) as ->; [|by eauto]. pose proof (oi_kahn _ _ _ Hi) as Hk.
    assert (length (sorted ++ ready) <= length ids)%nat as Hle.
    { apply submseteq_length, NoDup_submseteq; [apply Hk|]. intros x. apply (ki_ids _ _ _ _ _ Hk). }
    rewrite length_app in Hle. destruct ready; simpl in *; [done|lia].
  - cbn [drain]. destruct ready as [|c ready]; [by eauto|]. pose proof (order_step outgoing remaining c ready sorted Hout Hi) as Hst.
    destruct (fold_left release_next _ _) as [rem' q']. apply (IH rem' q'); [done|]. rewrite length_app. simpl. lia.
Qed.

Context (degrees : gmap string Z -> list (string * Z)).
Hypothesis Hdegrees : forall m, degrees m ≡ₚ map_to_list m.

Lemma seed_inv i : dom i = dom nodes -> (forall x, deg i x = Z.of_nat (NopDag.pending es [] x)) ->
  order_inv i (sort_strings (filter (fun '(_, d) => d = 0) (degrees i)).*1) [].
Proof.
  intros Hd Hi. set (keys := (filter _ (degrees i)).*1).
  assert (Hkeys : forall x, x ∈ keys <-> i !! x = Some 0).
  { intros x. subst keys. rewrite list_elem_of_fmap. split.
    - intros ([k d] & -> & [E Hin]%list_elem_of_filter). rewrite Hdegrees in Hin. apply elem_of_map_to_list in Hin. cbn in E |- *. by subst d.
    - intros E. exists (x, 0). split; [done|]. apply list_elem_of_filter. split; [done|]. rewrite Hdegrees. by apply elem_of_map_to_list. }
  split; [|apply sort_strings_strong|]; [split; cbn [app]|].
  - rewrite sort_strings_perm. subst keys. eapply sublist_NoDup; [|apply (fmap_sublist fst), sublist_filter]. rewrite Hdegrees. apply NoDup_fst_map_to_list.
  - intros x. rewrite sort_strings_perm, Hkeys. intros E. apply ids_dom, elem_of_dom. rewrite <- Hd. apply elem_of_dom. eauto.
  - done.
  - intros x Hx. rewrite sort_strings_perm, Hkeys. apply ids_dom, elem_of_dom in Hx. rewrite <- Hd in Hx. apply elem_of_dom in Hx as [d Hx].
    specialize (Hi x). rewrite Hx in Hi |- *. cbn in Hi. split; [intros [= ->]; lia|intros E; f_equal; lia].
  - intros [|? ?]; done.
  - intros [|? ?]; done.
Qed.
End Order.

Definition depends (nodes : nodemap) (d id : string) : Prop := is_Some (nodes !! id) /\ d ∈ dependencies nodes id.
(** Every dependency is a node. *)
Definition closed (nodes : nodemap) : Prop := forall d id, depends nodes d id -> is_Some (nodes !! d).

Lemma tc_ext {A} (R1 R2 : A -> A -> Prop) x y : (forall a b, R1 a b <-> R2 a b) -> tc R1 x y <-> tc R2 x y.
Proof. intros H. split; (induction 1; [apply tc_once; by apply H|eapply tc_l; [by apply H|done]]). Qed.

Lemma least_first_unique nodes pre l1 l2 : l1 ≡ₚ l2 -> NoDup (pre ++ l1) -> (forall x, x ∈ l1 -> is_Some (nodes !! x)) ->
  least_first nodes (pre ++ l1) -> least_first nodes (pre ++ l2) -> l1 = l2.
Proof.
  revert pre l2. induction l1 as [|a l1 IH]; intros pre l2 Hp Hnd Hin H1 H2; [by apply Permutation_nil in Hp|].
  destruct l2 as [|b l2]; [by apply Permutation_sym, Permutation_nil in Hp|].
  destruct (H1 pre a l1 eq_refl) as [Hda Hla]. destruct (H2 pre b l2 eq_refl) as [Hdb Hlb].
  apply NoDup_app in Hnd as Hnd'. destruct Hnd' as (_ & Hdis & _).
  assert (Hb : b ∈ a :: l1) by (rewrite Hp; by left).
  assert (a = b) as ->.
  { apply (anti_symm String.le); [apply Hla|apply Hlb]; auto; try (by intros Hx; eapply Hdis; [done|set_solver]); apply Hin; set_solver. }
  f_equal. apply (IH (pre ++ [b])); rewrite <- ?app_assoc; try done; [by apply Permutation_cons_inv in Hp|]. intros x Hx. apply Hin. by right.
Qed.

Lemma topology_spec nodes entries degrees : entries ≡ₚ map_to_list nodes -> (forall m, degrees m ≡ₚ map_to_list m) ->
  match stablePortableTopology nodes entries degrees with
  | Some order => order ≡ₚ map_keys nodes /\ least_first nodes order /\ closed nodes /\ forall x, ~ tc (depends nodes) x x
  | None => ~ (closed nodes /\ forall x, ~ tc (depends nodes) x x)
  end.
Proof.
  intros He Hdeg. unfold stablePortableTopology. rewrite add_node_edges.
  pose proof (add_edges_meaning nodes (edges_of entries) ((fun _ => 0) <$> nodes) ((fun _ => []) <$> nodes)) as Hm.
  pose proof (portable_edge nodes entries He) as Hedge. pose proof (to_ids nodes entries He) as Hto.
  assert (Hall : Forall (fun e => From e ∈ dom nodes) (edges_of entries) <-> closed nodes).
  { rewrite Forall_forall. split.
    - intros H d id Hd. apply elem_of_dom. apply (H (MkDagEdge d id)). by apply Hedge.
    - intros H [d id] Hd. apply elem_of_dom. cbn. apply (H d id). by apply Hedge. }
  destruct (fold_left (add_edge nodes) (edges_of entries) _) as [[i o]|]; [|intros [Hc _]; by apply Hm, Hall].
  destruct Hm as (Hf & Hi & Ho & Hd). apply Hall in Hf.
  assert (Hi' : forall x, deg i x = Z.of_nat (NopDag.pending (edges_of entries) [] x)).
  { intros x. rewrite Hi, lookup_fmap. destruct (nodes !! x); cbn; lia. }
  assert (Ho' : forall x, default [] (o !! x) ≡ₚ succs (edges_of entries) x).
  { intros x. rewrite Ho, lookup_fmap. by destruct (nodes !! x). }
  assert (Hdom : dom i = dom nodes).
  { apply Hd; [|by rewrite dom_fmap_L]. intros e Hin. apply elem_of_dom, ids_dom. by apply Hto. }
  pose proof (seed_inv nodes entries degrees Hdeg i Hdom Hi') as Hseed.
  destruct (drain_order nodes entries He o (size nodes) i _ [] Ho' Hseed) as [rem' [Hk _ Hl]]; [rewrite ids_length; simpl; lia|].
  set (order := (drain _ _ _ _ _).1) in *. pose proof (ki_nodup _ _ _ _ _ Hk) as Hnd. pose proof (ki_ids _ _ _ _ _ Hk) as Hids. rewrite app_nil_r in Hnd, Hids.
  assert (Hfrom : forall e, e ∈ edges_of entries -> From e ∈ map_keys nodes).
  { intros [d id] Hin. apply ids_dom. apply (Hf d id). by apply Hedge. }
  assert (Htc : forall x, tc (edge_rel (edges_of entries)) x x <-> tc (depends nodes) x x) by (intros x; by apply tc_ext).
  destruct (Nat.eqb_spec (length order) (size nodes)) as [Hlen|Hlen].
  - assert (Hperm : order ≡ₚ map_keys nodes).
    { apply submseteq_length_Permutation; [by apply NoDup_submseteq|]. rewrite ids_length. lia. }
    split_and!; [done|done|done|]. intros x Hx. apply (respects_acyclic (edges_of entries) (map_keys nodes) Hfrom order Hnd) with (x := x).
    + apply (ki_resp _ _ _ _ _ Hk).
    + intros y. by rewrite Hperm.
    + by apply Htc.
  - intros [_ Hac]. apply Hlen. rewrite <- (ids_length nodes). apply Permutation_length. apply NoDup_Permutation; [done|apply ids_nodup|].
    intros x. split; [apply Hids|]. apply (drained_all (edges_of entries) (map_keys nodes) Hfrom _ _ Hk). intros y Hy. apply (Hac y). by apply Htc.
Qed.

(** C11. The order of a task.  [stablePortableTopology] finds one exactly if every
    dependency is a node and no node depends on itself, directly or through others; the
    order then contains every node once, each after all its dependencies, and at every
    point the next node is the least id among those whose dependencies are done: it
    does not depend on the orders in which the runtime ranges over its maps. *)
Theorem portable_order nodes entries degrees (Hentries : entries ≡ₚ map_to_list nodes) (Hdegrees : forall m, degrees m ≡ₚ map_to_list m) :
  (is_Some (stablePortableTopology nodes entries degrees) <-> closed nodes /\ forall x, ~ tc (depends nodes) x x) /\
  (forall order, stablePortableTopology nodes entries degrees = Some order ->
     order ≡ₚ map_keys nodes /\ NoDup order /\ least_first nodes order) /\
  (forall entries' degrees', entries' ≡ₚ map_to_list nodes -> (forall m, degrees' m ≡ₚ map_to_list m) ->
     stablePortableTopology nodes entries' degrees' = stablePortableTopology nodes entries degrees).
Proof.
  pose proof (topology_spec nodes entries degrees Hentries Hdegrees) as H. split_and!.
  - destruct (stablePortableTopology nodes entries degrees); [|split; [by intros [? ?]|done]]. split; [intros _; apply H|eauto].
  - intros order E. rewrite E in H. destruct H as (Hp & Hl & _). split_and!; [done| |done]. rewrite Hp. apply ids_nodup.
  - intros entries' degrees' He' Hd'. pose proof (topology_spec nodes entries' degrees' He' Hd') as H'.
    destruct (stablePortableTopology nodes entries degrees) as [o1|], (stablePortableTopology nodes entries' degrees') as [o2|]; try done.
    + destruct H as (Hp & Hl & _), H' as (Hp' & Hl' & _). f_equal. apply (least_first_unique nodes []); try done.
      * by rewrite Hp, Hp'.
      * cbn. rewrite Hp'. apply ids_nodup.
      * intros x. rewrite Hp'. apply ids_dom.
    + destruct H as (_ & _ & ? & ?). by destruct H'.
    + destruct H' as (_ & _ & ? & ?). by destruct H.
Qed.

(** ** Compensation *)

Section Collect.
Context (nodes : nodemap).
Hypothesis Hclosed : closed nodes.

Definition unvisited (anc : gset string) : nat := size (dom nodes ∖ anc).

Lemma unvisited_mono (a b : gset string) : a ⊆ b -> (unvisited b <= unvisited a)%nat.
Proof. intros H. unfold unvisited. apply subseteq_size. set_solver. Qed.

Lemma unvisited_lt (anc : gset string) d : d ∈ dom nodes -> d ∉ anc -> (unvisited ({[d]} ∪ anc) < unvisited anc)%nat.
Proof. intros Hd Hn. unfold unvisited. apply subset_size. split; [set_solver|]. intros H. assert (d ∈ dom nodes ∖ anc) by set_solver. set_solver. Qed.

Definition visits (id : string) (anc anc' : gset string) : Prop :=
  anc ⊆ anc' /\ (forall x, x ∈ anc' -> x ∈ anc \/ tc (depends nodes) x id) /\
  (forall x d, x ∈ anc' -> x ∉ anc -> depends nodes d x -> d ∈ anc').

Definition visit (f : nat) (anc : gset string) (d : string) : gset string := if bool_decide (d ∈ anc) then anc else collect f nodes d ({[d]} ∪ anc).

Lemma visit_all f id (IH : forall d anc, (unvisited anc < f)%nat ->
    visits d anc (collect f nodes d anc) /\ forall d', depends nodes d' d -> d' ∈ collect f nodes d anc) l anc :
  (forall d, d ∈ l -> depends nodes d id) -> (unvisited anc < S f)%nat ->
  visits id anc (fold_left (visit f) l anc) /\ forall d, d ∈ l -> d ∈ fold_left (visit f) l anc.
Proof.
  revert anc. induction l as [|d l IHl]; intros anc Hl Hf; cbn [fold_left].
  { split; [split_and!; set_solver|set_solver]. }
  assert (Hd : depends nodes d id) by (apply Hl; by left).
  assert (Hstep : visits id anc (visit f anc d) /\ d ∈ visit f anc d).
  { unfold visit. case_bool_decide as Hin; [split; [split_and!; set_solver|done]|].
    destruct (IH d ({[d]} ∪ anc)) as [(Hm & Hr & Hc) Hdeps].
    { assert (d ∈ dom nodes) by (apply elem_of_dom, (Hclosed d id Hd)). pose proof (unvisited_lt anc d). set_unfold. naive_solver lia. }
    split; [|set_solver]. split_and!; [set_solver| |].
    - intros x Hx. destruct (Hr x Hx) as [[->%elem_of_singleton|Ha]%elem_of_union|Ht]; [right; by apply tc_once|by left|].
      right. eapply tc_r; [done|]. done.
    - intros x d' Hx Hxn Hdep. destruct (decide (x = d)) as [->|Hne]; [by apply Hdeps|]. eapply Hc; [done|set_solver|done]. }
  destruct Hstep as [(Hm & Hr & Hc) Hdin]. destruct (IHl (visit f anc d)) as [(Hm' & Hr' & Hc') Hall].
  { intros d' Hd'. apply Hl. by right. }
  { pose proof (unvisited_mono _ _ Hm). lia. }
  split; [split_and!|].
  - set_solver.
  - intros x Hx. destruct (Hr' x Hx) as [Hx'|?]; [by apply Hr|by right].
  - intros x d' Hx Hxn Hdep. destruct (decide (x ∈ visit f anc d)) as [Hx'|Hx']; [|by eapply Hc'].
    apply Hm'. by eapply Hc.
  - intros d' [->|Hd']%elem_of_cons; [by apply Hm'|by apply Hall].
Qed.

Lemma collect_visits f id anc : (unvisited anc < f)%nat ->
  visits id anc (collect f nodes id anc) /\ forall d, depends nodes d id -> d ∈ collect f nodes id anc.
Proof.
  revert id anc. induction f as [|f IH]; intros id anc Hf; [lia|]. cbn [collect].
  change (fold_left _ (dependencies nodes id) anc) with (fold_left (visit f) (dependencies nodes id) anc).
  destruct (nodes !! id) as [node|] eqn:E.
  - destruct (visit_all f id IH (dependencies nodes id) anc) as [Hv Hall]; [|done|].
    { intros d Hd. split; [by rewrite E|done]. }
    split; [done|]. intros d [_ Hd]. by apply Hall.
  - unfold dependencies at 1 2. rewrite E. cbn. split; [|intros d [[? Hs] _]; congruence]. split_and!; [done|by left|done].
Qed.

Lemma collect_ancestors id x : x ∈ collect (S (size nodes)) nodes id ∅ <-> tc (depends nodes) x id.
Proof.
  destruct (collect_visits (S (size nodes)) id ∅) as [(_ & Hr & Hc) Hd].
  { unfold unvisited. rewrite difference_empty_L, size_dom. lia. }
  split; [intros Hx; destruct (Hr x Hx); set_solver|]. intros Ht.
  induction Ht as [x y H|x y z H Ht IH]; [by apply Hd|]. eapply (Hc y x); [by apply IH|set_solver|done].
Qed.
End Collect.

Definition supported (nodes : nodemap) (id : string) : Prop := present (default [] (nodes !! id)) "compensate_action" = true.
Definition broken (nodes : nodemap) (id : string) : Prop :=
  stringValue (dict_at (default [] (nodes !! id)) "compensation_outcome") = "failure".
(** A node that a failure leaves to be undone. *)
Definition owed (nodes : nodemap) (states : gmap string string) (failedID id : string) : Prop :=
  tc (depends nodes) id failedID /\ states !! id = Some "completed".

#[export] Instance supported_dec nodes id : Decision (supported nodes id).
Proof. unfold supported. apply _. Defined.
#[export] Instance broken_dec nodes id : Decision (broken nodes id).
Proof. unfold broken. apply _. Defined.

Definition undone (nodes : nodemap) (id : string) : string := if decide (broken nodes id) then "compensation_failed" else "compensated".

Definition undo_events (nodes : nodemap) (id : string) : list string := [id +:+ ":compensating"; id +:+ ":" +:+ undone nodes id].

(** The nodes [done] of the list [due] were undone: all of them, or, under the strict
    policy, those up to the first whose action failed. *)
Definition undo_result (strict : bool) (nodes : nodemap) (due done_ : list string) (err : string) : Prop :=
  (err = "" /\ done_ = due /\ (strict = true -> Forall (fun x => ~ broken nodes x) due)) \/
  (err = ErrCompensationFailed /\ strict = true /\ exists pre x post, due = pre ++ x :: post /\ done_ = pre ++ [x] /\ broken nodes x /\ Forall (fun y => ~ broken nodes y) pre).

Lemma undo_result_cons strict nodes x due done_ err : (strict = true -> ~ broken nodes x) ->
  undo_result strict nodes due done_ err -> undo_result strict nodes (x :: due) (x :: done_) err.
Proof.
  intros Hx [(-> & -> & Hall)|(-> & -> & pre & y & post & -> & -> & Hb & Hall)].
  - left. split_and!; [done..|]. intros Hs. constructor; auto.
  - right. split_and!; [done..|]. exists (x :: pre), y, post. split_and!; [done..|]. constructor; auto.
Qed.

Lemma undo_lookup nodes id done_ (states : gmap string string) x :
  (if decide (x ∈ done_) then Some (undone nodes x) else <[id := undone nodes id]> states !! x) =
  if decide (x ∈ id :: done_) then Some (undone nodes x) else states !! x.
Proof.
  destruct (decide (x ∈ done_)); [by rewrite decide_True by set_solver|]. destruct (decide (x = id)) as [->|Hn].
  - by rewrite lookup_insert_eq, decide_True by set_solver.
  - rewrite lookup_insert_ne by done. by rewrite decide_False by set_solver.
Qed.

Lemma undo_events_cons nodes evs id done_ : (evs ++ [id +:+ ":compensating"]) ++ [id +:+ ":" +:+ undone nodes id] ++ mjoin (undo_events nodes <$> done_) =
  evs ++ mjoin (undo_events nodes <$> id :: done_).
Proof. by rewrite <- app_assoc. Qed.

Lemma compensate_loop_spec strict nodes candidates order evs states :
  let '(order', err, evs', states') := compensate_loop strict nodes candidates order evs states in
  exists done_, order' = order ++ done_ /\ evs' = evs ++ mjoin (undo_events nodes <$> done_) /\
    undo_result strict nodes (filter (supported nodes) candidates) done_ err /\
    forall x, states' !! x = if decide (x ∈ done_) then Some (undone nodes x) else states !! x.
Proof.
  revert order evs states. induction candidates as [|id rest IH]; intros order evs states; cbn [compensate_loop].
  { exists []. rewrite app_nil_r. split_and!; [done|by csimpl; rewrite app_nil_r|left; by split_and!|done]. }
  rewrite filter_cons. destruct (decide (supported nodes id)) as [Hs|Hs]; [|by apply not_true_is_false in Hs; rewrite Hs; apply IH].
  rewrite Hs. cbn [negb]. destruct (String.eqb_spec (stringValue (dict_at (default [] (nodes !! id)) "compensation_outcome")) "failure") as [Hb|Hb].
  - assert (undone nodes id = "compensation_failed") as Hu by (unfold undone; by rewrite decide_True). rewrite <- Hu.
    change (String (Ascii.ascii_of_nat 58) (undone nodes id)) with (":" +:+ undone nodes id). destruct strict.
    + exists [id]. split_and!; [done|by rewrite <- undo_events_cons; csimpl| |intros x; apply (undo_lookup nodes id [] states x)].
      right. split_and!; [done..|]. by exists [], id, (filter (supported nodes) rest).
    + specialize (IH (order ++ [id]) ((evs ++ [id +:+ ":compensating"]) ++ [id +:+ ":" +:+ undone nodes id]) (<[id := undone nodes id]> states)).
      destruct (compensate_loop false nodes rest _ _ _) as [[[o err] ev] sts]. destruct IH as (d & -> & -> & Hr & Hst).
      exists (id :: d). rewrite <- undo_events_cons, <- !app_assoc. split_and!; [done|done|by apply undo_result_cons|]. intros x. by rewrite Hst, undo_lookup.
  - assert (undone nodes id = "compensated") as Hu by (unfold undone; by rewrite decide_False). rewrite <- Hu.
    change (String (Ascii.ascii_of_nat 58) (undone nodes id)) with (":" +:+ undone nodes id).
    specialize (IH (order ++ [id]) ((evs ++ [id +:+ ":compensating"]) ++ [id +:+ ":" +:+ undone nodes id]) (<[id := undone nodes id]> states)).
    destruct (compensate_loop strict nodes rest _ _ _) as [[[o err] ev] sts]. destruct IH as (d & -> & -> & Hr & Hst).
    exists (id :: d). rewrite <- undo_events_cons, <- !app_assoc. split_and!; [done|done|by apply undo_result_cons|]. intros x. by rewrite Hst, undo_lookup.
Qed.

(** Compensation.  What a failure leaves to be undone is what completed among the
    nodes that the failed one depends on, directly or not.  Under the strict policy
    nothing is undone if one of them has no action; otherwise those with an action are
    undone in the reverse of the order of the task, all of them or, under the strict
    policy, up to the first whose action fails.  No other state changes, and no other
    event is recorded. *)
Theorem compensation_exact task failedID nodes entries degrees topology evs states
    (Hentries : entries ≡ₚ map_to_list nodes) (Hdegrees : forall m, degrees m ≡ₚ map_to_list m)
    (Htopology : stablePortableTopology nodes entries degrees = Some topology) :
  let policy := stringValue (dict_at task "compensation_policy") in
  let '(order, err, evs', states') := compensatePortable task failedID topology nodes evs states in
  exists due, sublist due (rev topology) /\ (forall x, x ∈ due <-> owed nodes states failedID x) /\
    (policy <> "best_effort" -> policy <> "strict" -> order = [] /\ err = "") /\
    (policy = "strict" -> (exists x, x ∈ due /\ ~ supported nodes x) -> order = [] /\ err = ErrCompensationNotSupported) /\
    (policy = "best_effort" \/ policy = "strict" /\ (forall x, x ∈ due -> supported nodes x) ->
       undo_result (String.eqb policy "strict") nodes (filter (supported nodes) due) order err) /\
    evs' = evs ++ mjoin (undo_events nodes <$> order) /\
    forall x, states' !! x = if decide (x ∈ order) then Some (undone nodes x) else states !! x.
Proof.
  cbv zeta. set (policy := stringValue _). pose proof (topology_spec nodes entries degrees Hentries Hdegrees) as Ht. rewrite Htopology in Ht.
  destruct Ht as (Hp & _ & Hclosed & _).
  unfold compensatePortable. fold policy. set (due := compensation_candidates failedID topology nodes states).
  assert (Hdue : forall x, x ∈ due <-> owed nodes states failedID x).
  { intros x. subst due. unfold compensation_candidates, owed.
    rewrite list_elem_of_filter, (collect_ancestors nodes Hclosed), <- (Permutation_rev topology), Hp, ids_dom.
    split; [by intros [? ?]|]. intros [Ha Hc]. split; [done|]. by destruct Ha as [x y H|x y z H _]; apply (Hclosed _ _ H). }
  assert (Hsub : sublist due (rev topology)) by apply sublist_filter.
  assert (Hloop : forall strict, let '(order, err, evs', states') := compensate_loop strict nodes due [] evs states in
    undo_result strict nodes (filter (supported nodes) due) order err /\ evs' = evs ++ mjoin (undo_events nodes <$> order) /\
    forall x, states' !! x = if decide (x ∈ order) then Some (undone nodes x) else states !! x).
  { intros strict. pose proof (compensate_loop_spec strict nodes due [] evs states) as H.
    destruct (compensate_loop strict nodes due [] evs states) as [[[o err] ev] sts]. destruct H as (d & -> & -> & Hr & Hst). by split_and!. }
  assert (Hun : existsb (fun id => negb (present (default [] (nodes !! id)) "compensate_action")) due = true <-> exists x, x ∈ due /\ ~ supported nodes x).
  { rewrite existsb_exists. unfold supported. split; intros (x & Hx & Hn); exists x; rewrite ?list_elem_of_In, ?negb_true_iff, ?not_true_iff_false in *; done. }
  assert (Hnone : evs = evs ++ mjoin (undo_events nodes <$> [])) by (csimpl; by rewrite app_nil_r).
  destruct (String.eqb_spec policy "strict") as [Hs|Hs].
  - rewrite Hs. cbn [String.eqb Ascii.eqb Bool.eqb negb andb].
    change (negb (String.eqb "strict" "best_effort") && false) with false. cbv iota.
    destruct (existsb _ due) eqn:E.
    + exists due. destruct (proj1 Hun eq_refl) as (x & Hx & Hn). split_and!; [done|done|done|done| |done|done]. intros [?|[_ H]]; [done|]. by destruct (Hn (H x Hx)).
    + specialize (Hloop true). destruct (compensate_loop true nodes due [] evs states) as [[[o err] ev] sts]. destruct Hloop as (Hr & He & Hst).
      exists due. split_and!; [done|done|done| |done|done|done]. intros _ H. by apply Hun in H.
  - rewrite andb_true_r. cbn [andb]. destruct (String.eqb_spec policy "best_effort") as [Hb|Hb]; cbn [negb].
    + specialize (Hloop false). destruct (compensate_loop false nodes due [] evs states) as [[[o err] ev] sts]. destruct Hloop as (Hr & He & Hst).
      exists due. split_and!; [done|done|done|done|done|done|done].
    + exists due. split_and!; [done|done|done|done| |done|done]. by intros [?|[? _]].
Qed.

(** ** Leases *)

Definition lease_op (e : dict) : string := stringValue (dict_at e "op").
Definition lease_task (e : dict) : string := stringValue (dict_at e "task_id").
Definition lease_runner (e : dict) : string := stringValue (dict_at e "runner_nid").
Definition lease_at (e : dict) : Z := intValue (dict_at e "at") 0.
(** The time at which a lease that [e] obtains ends. *)
Definition lease_expiry (e : dict) : Z := i64 (lease_at e + clampLeaseSeconds (intValue (dict_at e "lease_seconds") 0)).

(** The events with their outcomes. *)
Fixpoint lease_trace (evs : list dict) (s : lease_state) : list (dict * option string) :=
  match evs with
  | [] => []
  | e :: r => (e, (lease_event e s).1) :: lease_trace r (lease_event e s).2
  end.

(** The event obtained the lease of [t]. *)
Definition obtains (t : string) (x : dict * option string) : Prop :=
  lease_task x.1 = t /\ (lease_op x.1 = "claim" \/ lease_op x.1 = "renew") /\ (x.2 = Some "granted" \/ x.2 = Some "reclaimed").

#[export] Instance obtains_dec t x : Decision (obtains t x).
Proof. unfold obtains. apply _. Defined.

Definition last_lease (past : list (dict * option string)) (t : string) : option dict := fst <$> last (filter (obtains t) past).

Definition marked (past : list (dict * option string)) (key : string) : Prop :=
  exists x, x ∈ past /\ lease_op x.1 = "mark_terminal" /\ portableTerminalKey x.1 = key.

(** What the state says of the past. *)
Definition recalls (past : list (dict * option string)) (s : lease_state) : Prop :=
  (forall t, leases s !! t = (fun e => MkLease (lease_runner e) (lease_expiry e)) <$> last_lease past t) /\
  (forall key, key ∈ terminal s <-> marked past key).

Lemma last_lease_snoc past x t : last_lease (past ++ [x]) t = if decide (obtains t x) then Some x.1 else last_lease past t.
Proof.
  unfold last_lease. rewrite filter_app, filter_cons. destruct (decide (obtains t x)).
  - rewrite filter_nil, last_snoc. done.
  - by rewrite filter_nil, app_nil_r.
Qed.

Lemma marked_snoc past x key : marked (past ++ [x]) key <-> marked past key \/ lease_op x.1 = "mark_terminal" /\ portableTerminalKey x.1 = key.
Proof.
  unfold marked. setoid_rewrite elem_of_app. setoid_rewrite list_elem_of_singleton. naive_solver.
Qed.

Lemma recalls_granted past s e o : recalls past s -> (lease_op e = "claim" \/ lease_op e = "renew") -> o = "granted" \/ o = "reclaimed" ->
  recalls (past ++ [(e, Some o)]) (MkLeases (<[lease_task e := MkLease (lease_runner e) (lease_expiry e)]> (leases s)) (terminal s)).
Proof.
  intros [Hl Ht] Hop Ho. split; cbn [leases terminal].
  - intros t. rewrite last_lease_snoc. destruct (decide (lease_task e = t)) as [<-|Hn].
    + rewrite lookup_insert_eq, decide_True; [done|]. split_and!; [done|done|]. by destruct Ho as [-> | ->]; [left|right].
    + rewrite lookup_insert_ne by done. rewrite decide_False; [apply Hl|]. by intros [? _].
  - intros key. rewrite Ht, marked_snoc. cbn [fst]. split; [by left|]. intros [?|[H _]]; [done|]. by destruct Hop as [Hop|Hop]; rewrite Hop in H.
Qed.

Lemma recalls_same past s e o : recalls past s -> (lease_op e = "claim" \/ lease_op e = "renew" -> o = Some "conflict") -> lease_op e <> "mark_terminal" ->
  recalls (past ++ [(e, o)]) s.
Proof.
  intros [Hl Ht] Hop Hm. split.
  - intros t. rewrite last_lease_snoc, decide_False; [apply Hl|]. intros (_ & H & Ho). rewrite (Hop H) in Ho. by destruct Ho.
  - intros key. rewrite Ht, marked_snoc. cbn [fst]. split; [by left|]. by intros [?|[? _]].
Qed.

(** [r] holds the lease of [t] at [now]: it was the last to obtain it, and the lease runs. *)
Definition holds (past : list (dict * option string)) (t : string) (now : Z) (r : string) : Prop :=
  exists e, last_lease past t = Some e /\ now < lease_expiry e /\ lease_runner e = r.

(** What the answer to an event means for the history before it. *)
Definition lease_answer (past : list (dict * option string)) (e : dict) (o : option string) : Prop :=
  let t := lease_task e in
  (lease_op e = "claim" ->
     (o = Some "conflict" <-> exists r, holds past t (lease_at e) r /\ r <> lease_runner e) /\
     (o = Some "reclaimed" <-> exists prev, last_lease past t = Some prev /\ lease_expiry prev <= lease_at e) /\
     (o = Some "conflict" \/ o = Some "granted" \/ o = Some "reclaimed")) /\
  (lease_op e = "renew" -> (o = Some "granted" <-> holds past t (lease_at e) (lease_runner e)) /\ (o = Some "granted" \/ o = Some "conflict")) /\
  (lease_op e = "mark_terminal" -> o = Some "recorded") /\
  (lease_op e = "is_terminal" -> (o = Some "terminal" <-> marked past (portableTerminalKey e)) /\ (o = Some "terminal" \/ o = Some "pending")).

Lemma lease_event_spec past s e : recalls past s ->
  lease_answer past e (lease_event e s).1 /\ recalls (past ++ [(e, (lease_event e s).1)]) (lease_event e s).2.
Proof.
  intros Hr. pose proof Hr as [Hl Ht]. specialize (Hl (lease_task e)). unfold lease_event, lease_answer, holds.
  fold (lease_op e). fold (lease_task e) (lease_runner e) (lease_at e). fold (lease_expiry e).
  destruct (String.eqb_spec (lease_op e) "claim") as [Ho|Ho].
  { rewrite Hl. destruct (last_lease past (lease_task e)) as [prev|] eqn:E; cbn [fmap option_fmap option_map].
    - cbn [expiresAt runnerNID]. destruct (Z.ltb_spec (lease_at e) (lease_expiry prev)) as [Hlt|Hge].
      + destruct (String.eqb_spec (lease_runner prev) (lease_runner e)) as [Hrun|Hrun]; cbn [fst snd].
        * split; [|apply recalls_granted; auto]. split_and!; intros H; try congruence.
          split_and!; [split; [done|]; intros (r & (? & [= <-] & _ & <-) & ?); done|split; [done|]; intros (? & [= <-] & ?); lia|auto].
        * split; [|apply recalls_same; [done|auto|congruence]]. split_and!; intros H; try congruence.
          split_and!; [split; [intros _; eauto 10|done]|split; [done|]; intros (? & [= <-] & ?); lia|auto].
      + cbn [fst snd]. split; [|apply recalls_granted; auto]. split_and!; intros H; try congruence.
        split_and!; [split; [done|]; intros (r & (? & [= <-] & ? & <-) & ?); lia|split; [eauto|done]|auto].
    - cbn [fst snd]. split; [|apply recalls_granted; auto]. split_and!; intros H; try congruence.
      split_and!; [split; [done|]; by intros (r & (? & ? & _) & ?)|split; [done|]; by intros (? & ? & _)|auto]. }
  destruct (String.eqb_spec (lease_op e) "renew") as [Ho2|Ho2].
  { rewrite Hl. destruct (last_lease past (lease_task e)) as [prev|] eqn:E; cbn [fmap option_fmap option_map].
    - cbn [expiresAt runnerNID]. destruct (Z.ltb_spec (lease_at e) (lease_expiry prev)) as [Hlt|Hge]; cbn [andb];
        [destruct (String.eqb_spec (lease_runner prev) (lease_runner e)) as [Hrun|Hrun]|]; cbn [fst snd];
        (split; [|first [by apply recalls_granted; auto|by apply recalls_same; [done|auto|congruence]]]); split_and!; intros H; try congruence.
      + split; [split; [eauto 10|done]|auto].
      + split; [split; [done|]; by intros (? & [= <-] & _ & ?)|auto].
      + split; [split; [done|]; intros (? & [= <-] & ? & ?); lia|auto].
    - cbn [fst snd]. split; [|apply recalls_same; [done|auto|congruence]]. split_and!; intros H; try congruence.
      split; [split; [done|]; by intros (? & ? & _)|auto]. }
  destruct (String.eqb_spec (lease_op e) "mark_terminal") as [Ho3|Ho3].
  { cbn [fst snd]. split; [by split_and!; intros; try congruence|]. split; cbn [leases terminal].
    - intros t. rewrite last_lease_snoc, decide_False; [apply Hr|]. by intros (_ & [?|?] & _).
    - intros key. rewrite elem_of_union, elem_of_singleton, Ht, marked_snoc. cbn [fst]. naive_solver. }
  destruct (String.eqb_spec (lease_op e) "is_terminal") as [Ho4|Ho4]; cbn [fst snd].
  - split; [|apply recalls_same; [done|by intros [?|?]|done]]. split_and!; try done. intros _. rewrite <- Ht. case_bool_decide; split; [done|auto|done|auto].
  - split; [|apply recalls_same; [done|by intros [?|?]|done]]. by split_and!.
Qed.

Lemma lease_trace_outcomes evs s : (lease_events evs s).1 = omap snd (lease_trace evs s).
Proof.
  revert s. induction evs as [|e r IH]; intros s; [done|]. cbn [lease_events lease_trace]. specialize (IH (lease_event e s).2).
  destruct (lease_event e s) as [o s']. cbn [fst snd] in IH |- *. destruct (lease_events r s') as [os s'']. cbn [fst] in IH |- *. rewrite IH. by destruct o.
Qed.

Lemma lease_trace_events evs s : (lease_trace evs s).*1 = evs.
Proof. revert s. induction evs as [|e r IH]; intros s; [done|]. cbn [lease_trace]. csimpl. by rewrite IH. Qed.

Lemma lease_trace_answers evs past0 s past e o post : recalls past0 s -> lease_trace evs s = past ++ (e, o) :: post -> lease_answer (past0 ++ past) e o.
Proof.
  revert past0 s past. induction evs as [|e0 r IH]; intros past0 s past Hr E; cbn [lease_trace] in E; [by destruct past|].
  destruct (lease_event_spec past0 s e0 Hr) as [Ha Hr']. destruct past as [|x past]; cbn [app] in E.
  - injection E as <- <- _. by rewrite app_nil_r.
  - injection E as <- E2. specialize (IH _ _ past Hr' E2). by rewrite <- app_assoc in IH.
Qed.

Lemma last_lease_between pre x mid t : obtains t x -> (forall z, z ∈ mid -> ~ obtains t z) -> last_lease (pre ++ x :: mid) t = Some x.1.
Proof.
  intros Hx. induction mid as [|z mid IH] using rev_ind; intros Hm; [by rewrite last_lease_snoc, decide_True|].
  change (pre ++ x :: mid ++ [z]) with (pre ++ (x :: mid) ++ [z]). rewrite app_assoc, last_lease_snoc, decide_False by (apply Hm; set_solver).
  apply IH. set_solver.
Qed.

Lemma answer_exclusive past y t e : lease_answer past y.1 y.2 -> obtains t y -> last_lease past t = Some e ->
  lease_runner e = lease_runner y.1 \/ lease_expiry e <= lease_at y.1.
Proof.
  intros (Hc & Hn & _) (<- & [Ho|Ho] & Hout) El.
  - destruct (Hc Ho) as (Hconf & _ & _). destruct (decide (lease_expiry e <= lease_at y.1)) as [|Hlt]; [by right|]. left.
    destruct (decide (lease_runner e = lease_runner y.1)) as [|Hne]; [done|]. exfalso.
    assert (y.2 = Some "conflict") as E; [|rewrite E in Hout; by destruct Hout]. apply Hconf. exists (lease_runner e). split; [|done]. exists e. split_and!; [done|lia|done].
  - destruct (Hn Ho) as ([Hg _] & [E|E]); [|rewrite E in Hout; by destruct Hout]. destruct (Hg E) as (e' & El' & _ & Hr). left. congruence.
Qed.

(** Leases.  The outcome of every event is what the history before it calls for: a
    claim is refused exactly while another runner holds the lease of the task, a renewal
    is granted exactly to its holder, and a key is terminal exactly once it was marked.
    So between two consecutive holders of a task the lease of the first has run out:
    two runners never hold it at one time. *)
Theorem lease_exclusive input :
  let evs := object <$> anySlice (dict_at input "events") in
  exists trace, evaluatePortableLease input = omap snd trace /\ trace.*1 = evs /\
    (forall past e o post, trace = past ++ (e, o) :: post -> lease_answer past e o) /\
    forall t pre x mid y post, trace = pre ++ x :: mid ++ y :: post -> obtains t x -> obtains t y -> (forall z, z ∈ mid -> ~ obtains t z) ->
      lease_runner x.1 = lease_runner y.1 \/ lease_expiry x.1 <= lease_at y.1.
Proof.
  intros evs. set (trace := lease_trace evs (MkLeases ∅ ∅)).
  assert (Hstart : recalls [] (MkLeases ∅ ∅)).
  { split; [done|]. intros key. split; [set_solver|]. intros (x & Hx & _). by apply elem_of_nil in Hx. }
  assert (Hans : forall past e o post, trace = past ++ (e, o) :: post -> lease_answer past e o).
  { intros past e o post E. by apply (lease_trace_answers evs [] _ past e o post Hstart). }
  exists trace. split_and!; [apply lease_trace_outcomes|apply lease_trace_events|done|].
  intros t pre x mid [e o] post E Hx Hy Hm. change (x :: mid ++ (e, o) :: post) with ((x :: mid) ++ (e, o) :: post) in E. rewrite app_assoc in E.
  apply (answer_exclusive (pre ++ x :: mid) (e, o) t); [by eapply Hans|done|by apply last_lease_between].
Qed.

(** ** Delegation *)

Definition live_candidates (attempt : dict) : list dict := List.filter (fun c => boolValue (dict_at c "live")) (object <$> anySlice (dict_at attempt "candidates")).

(** [c] is live, and every other live candidate has a lower epoch. *)
Definition leads (attempt c : dict) : Prop :=
  exists pre post, live_candidates attempt = pre ++ c :: post /\ Forall (fun d => epoch_of d < epoch_of c) (pre ++ post).

Lemma highest_spec rest h0 : let h := fold_left (fun h c => if h <? epoch_of c then epoch_of c else h) rest h0 in
  h0 <= h /\ Forall (fun c => epoch_of c <= h) rest /\ (h = h0 \/ exists c, c ∈ rest /\ epoch_of c = h).
Proof.
  revert h0. induction rest as [|c rest IH]; intros h0; cbn [fold_left]; [split_and!; [lia|constructor|by left]|].
  destruct (IH (if h0 <? epoch_of c then epoch_of c else h0)) as (Hle & Hall & Hex). destruct (Z.ltb_spec h0 (epoch_of c)); split_and!; try lia.
  - by constructor.
  - right. destruct Hex as [->|(d & Hd & <-)]; [exists c|exists d]; split; [by left|done|by right|done].
  - constructor; [lia|done].
  - destruct Hex as [->|(d & Hd & <-)]; [by left|right]. exists d. split; [by right|done].
Qed.

Lemma filter_one {A} (f : A -> bool) l c : List.filter f l = [c] -> exists pre post, l = pre ++ c :: post /\ Forall (fun x => f x = false) (pre ++ post).
Proof.
  induction l as [|x l IH]; [done|]. cbn [List.filter]. destruct (f x) eqn:E.
  - intros [= -> Hl]. exists [], l. split; [done|]. clear -Hl. induction l as [|y l IH]; [constructor|]. cbn [List.filter] in Hl. destruct (f y) eqn:E; [done|]. by constructor; [|apply IH].
  - intros (pre & post & -> & H)%IH. exists (x :: pre), post. split; [done|]. by constructor.
Qed.

Lemma list_filter_none {A} (f : A -> bool) l : (forall x, x ∈ l -> f x = false) -> List.filter f l = [].
Proof. induction l as [|x l IH]; intros H; [done|]. cbn [List.filter]. rewrite (H x) by (by left). apply IH. intros y Hy. apply H. by right. Qed.

(** The answer to one attempt: its leader, or that nobody is live, or that nobody leads. *)
Definition attempt_answer (attempt : dict) (r : result string string) : Prop :=
  match r with
  | Ok t => exists c, leads attempt c /\ t = stringValue (dict_at c "nid")
  | Err e => e = ErrDelegateRejected /\ live_candidates attempt = [] \/
             e = ndpClusterSplit /\ live_candidates attempt <> [] /\ forall c, ~ leads attempt c
  end.

Lemma delegate_target_spec attempt : attempt_answer attempt (delegate_target attempt).
Proof.
  unfold delegate_target. fold (live_candidates attempt). destruct (live_candidates attempt) as [|first rest] eqn:El; [by left|].
  destruct (highest_spec rest (epoch_of first)) as (Hle & Hall & Hex). set (h := fold_left _ rest (epoch_of first)) in *.
  assert (Hmax : Forall (fun c => epoch_of c <= h) (first :: rest)) by (by constructor).
  assert (Hin : exists c, c ∈ first :: rest /\ epoch_of c = h).
  { destruct Hex as [->|(c & Hc & E)]; [exists first; split; [by left|done]|exists c; split; [by right|done]]. }
  destruct (List.filter (fun c => epoch_of c =? h) (first :: rest)) as [|c [|c' l]] eqn:Ef.
  - exfalso. destruct Hin as (c & Hc & E). apply list_elem_of_In in Hc. assert (In c []) as []. rewrite <- Ef. apply filter_In. split; [done|]. by apply Z.eqb_eq.
  - exists c. split; [|done]. assert (Hh : epoch_of c = h).
    { assert (In c [c]) as H by (by left). rewrite <- Ef in H. apply filter_In in H as [_ H]. by apply Z.eqb_eq in H. }
    destruct (filter_one _ _ _ Ef) as (pre & post & E & Hf). exists pre, post. split; [by rewrite El|]. rewrite E in Hmax. rewrite Forall_forall in Hmax, Hf |- *.
    intros d Hd. specialize (Hf d Hd). apply Z.eqb_neq in Hf. assert (epoch_of d <= h); [apply Hmax; set_solver|lia].
  - right. split_and!; [done|by rewrite El|]. intros d (pre & post & E & Hall'). rewrite El in E. rewrite E, List.filter_app in Ef. cbn [List.filter] in Ef.
    assert (Hd : forall x, x ∈ pre ++ post -> epoch_of x <> h).
    { rewrite Forall_forall in Hall'. intros x Hx Ex. destruct Hin as (y & Hy & Ey). specialize (Hall' x Hx).
      rewrite Forall_forall in Hmax. assert (epoch_of d <= h); [apply Hmax; rewrite E; set_solver|lia]. }
    rewrite !list_filter_none in Ef by (intros x Hx; apply Z.eqb_neq, Hd; set_solver). by destruct (_ =? h).
Qed.

Lemma delegate_attempts_spec attempts targets :
  let '(targets', e) := delegate_attempts attempts targets in
  exists served rest new, attempts = served ++ rest /\ targets' = targets ++ new /\ Forall2 (fun a t => attempt_answer a (Ok t)) served new /\
    match e with None => rest = [] | Some code => exists a r, rest = a :: r /\ attempt_answer a (Err code) end.
Proof.
  revert targets. induction attempts as [|a r IH]; intros targets; cbn [delegate_attempts].
  { exists [], [], []. rewrite (app_nil_r targets). split_and!; [done|done|constructor|done]. }
  pose proof (delegate_target_spec a) as Ha. destruct (delegate_target a) as [t|code].
  - specialize (IH (targets ++ [t])). destruct (delegate_attempts r _) as [ts e]. destruct IH as (served & rest & new & -> & -> & Hf & He).
    exists (a :: served), rest, (t :: new). rewrite <- app_assoc. split_and!; [done|done|by constructor|done].
  - exists [], (a :: r), []. rewrite (app_nil_r targets). split_and!; [done|done|constructor|eauto].
Qed.

(** What is delegated is within what the parent may do. *)
Definition narrower (parent delegated : dict) : Prop :=
  (forall x, x ∈ stringSlice (dict_at delegated "nodes") -> x ∈ stringSlice (dict_at parent "nodes")) /\
  (forall x, x ∈ stringSlice (dict_at delegated "actions") -> x ∈ stringSlice (dict_at parent "actions")) /\
  intValue (dict_at delegated "max_token_budget") 0 <= intValue (dict_at parent "max_token_budget") 0.

Lemma stringSubset_spec values allowed : stringSubset values allowed = true <-> forall x, x ∈ values -> x ∈ allowed.
Proof.
  unfold stringSubset. rewrite forallb_forall. split; intros H x Hx; [apply mem_string_true|apply mem_string_true]; apply H; by apply list_elem_of_In.
Qed.

Lemma scope_within_spec parent delegated : scope_within parent delegated = true <-> narrower parent delegated.
Proof. unfold scope_within, narrower. rewrite !andb_true_iff, !stringSubset_spec, Z.leb_le. naive_solver. Qed.

(** Delegation.  A scope that exceeds the parent's in a node, an action or the
    budget is refused before any target is chosen.  Otherwise the attempts are served in
    order, each by the live candidate whose epoch is above that of every other live
    one; the first attempt without a live candidate, or where the highest epoch is
    shared, ends the delegation with the error that says which. *)
Theorem delegation_targets input :
  let parent := object (dict_at input "parent_scope") in let delegated := object (dict_at input "delegated_scope") in
  let '(targets, e) := evaluatePortableDelegation input in
  (e = Some ErrDelegateScopeViolation <-> ~ narrower parent delegated) /\
  (~ narrower parent delegated -> targets = []) /\
  (narrower parent delegated ->
     exists served rest, object <$> anySlice (dict_at input "attempts") = served ++ rest /\ Forall2 (fun a t => attempt_answer a (Ok t)) served targets /\
       match e with None => rest = [] | Some code => exists a r, rest = a :: r /\ attempt_answer a (Err code) end).
Proof.
  cbv zeta. unfold evaluatePortableDelegation. set (parent := object (dict_at input "parent_scope")). set (delegated := object _).
  pose proof (scope_within_spec parent delegated) as Hs. destruct (scope_within parent delegated); cbn [negb].
  - assert (Hn : narrower parent delegated) by (by apply Hs).
    pose proof (delegate_attempts_spec (object <$> anySlice (dict_at input "attempts")) []) as H.
    destruct (delegate_attempts _ []) as [ts e]. destruct H as (served & rest & new & E & -> & Hf & He). split_and!; [|done|by exists served, rest].
    split; [intros ->|done]. destruct He as (a & r & _ & [[? _]|[? _]]); done.
  - assert (Hn : ~ narrower parent delegated) by (intros H; by apply Hs in H). split_and!; [done|done|done].
Qed.

(** ** Runs *)

Lemma compensate_states task failedID topology nodes evs states :
  let '(_, _, _, states') := compensatePortable task failedID topology nodes evs states in
  forall x, states' !! x = states !! x \/ states !! x = Some "completed" /\ states' !! x = Some (undone nodes x).
Proof.
  unfold compensatePortable. set (due := compensation_candidates _ _ _ _). repeat case_match; simplify_eq; try (by left).
  match goal with H : compensate_loop ?s _ _ _ _ _ = _ |- _ => pose proof (compensate_loop_spec s nodes due [] evs states) as Hs; rewrite H in Hs end.
  destruct Hs as (d & _ & _ & Hr & Hst). intros x. rewrite Hst. destruct (decide (x ∈ d)) as [Hx|]; [right|by left]. split; [|done].
  assert (Hdue : x ∈ filter (supported nodes) due).
  { destruct Hr as [(_ & -> & _)|(_ & _ & pre & y & post & -> & -> & _)]; [done|]. set_solver. }
  apply list_elem_of_filter in Hdue as [_ Hdue]. by apply list_elem_of_filter in Hdue as [[_ ?] _].
Qed.

Section Run.
Context (RawText : json -> string) (to_json : any -> json) (of_json : json -> any).
Context (range : forall A : Type, gmap string A -> list (string * A)).
Context (task : dict) (nodes : nodemap) (topology : list string).

Abbreviation portableResult := (portableResult to_json of_json range).

Definition retries (id : string) : Z := intValue (dict_at (default [] (nodes !! id)) "max_retries") (intValue (dict_at task "max_retries") 0).
Definition attempted (id : string) (n : Z) : Prop := 0 <= n <= Z.max 0 (retries id + 1).

Lemma run_attempts_spec id node maxRetries scripted index fe st :
  let '(st', count, _, completed) := run_attempts to_json of_json id node maxRetries scripted index fe st in
  (if completed then rs_states st' = <[id := "completed"]> (rs_states st) else rs_states st' = rs_states st \/ rs_states st' = <[id := "failed"]> (rs_states st)) /\
  rs_attempts st' = rs_attempts st /\ index <= count <= Z.max index (maxRetries + 1).
Proof.
  revert index fe st. induction scripted as [|raw rest IH]; intros index fe st; cbn [run_attempts]; [split_and!; [by left|done|lia|lia]|].
  destruct (Z.ltb_spec maxRetries index) as [Hlt|Hge]; [split_and!; [by left|done|lia|lia]|].
  destruct (String.eqb _ "success"); [cbn; split_and!; [done|done|lia|lia]|].
  match goal with |- context [if ?b && negb (bool_decide (rest = [])) then _ else _] => destruct (b && negb (bool_decide (rest = []))) end; [|cbn; split_and!; [by right|done|lia|lia]].
  match goal with |- context [run_attempts _ _ _ _ _ _ ?i ?f ?s] => specialize (IH i f s); destruct (run_attempts to_json of_json id node maxRetries rest i f s) as [[[st' count] fe'] c] end.
  destruct IH as (Hs & Ha & Hc). cbn [add_events rs_states rs_attempts] in Hs, Ha. split_and!; [done|done|lia|lia].
Qed.

(** The nodes [pre] completed or were skipped, no other node was touched. *)
Definition settled (pre : list string) (st : run_state) : Prop :=
  forall x, (x ∈ pre -> exists s n, rs_states st !! x = Some s /\ (s = "completed" \/ s = "skipped") /\ rs_attempts st !! x = Some n /\ attempted x n) /\
    (x ∉ pre -> rs_states st !! x = None /\ rs_attempts st !! x = None).

(** How a result came about: [pre] was settled, and the run ended at the first of [post]. *)
Record ended (r : PortableResult) (pre post : list string) : Prop := {
  en_last : last (events r) = Some ("task:" +:+ terminal_state r);
  en_state : (terminal_state r = "completed" /\ error_code r = "" /\ post = []) \/
             (terminal_state r = "failed" /\ error_code r <> "") \/
             (terminal_state r = "cancelled" /\ error_code r = ErrTaskCancelled /\ head post = Some (stringValue (dict_at task "cancel_before")));
  en_pre : forall x, x ∈ pre -> exists s n, node_states r !! x = Some s /\
             (s = "completed" \/ s = "skipped" \/ s = undone nodes x /\ terminal_state r = "failed") /\ attempt_counts r !! x = Some n /\ attempted x n;
  en_at : forall x, head post = Some x -> (node_states r !! x = None \/ node_states r !! x = Some "failed") /\ forall n, attempt_counts r !! x = Some n -> attempted x n;
  en_rest : forall x, x ∉ pre -> head post <> Some x -> node_states r !! x = None /\ attempt_counts r !! x = None
}.

Lemma settled_set pre id st s n : settled pre st -> s = "completed" \/ s = "skipped" -> attempted id n ->
  forall st', rs_states st' = <[id := s]> (rs_states st) -> rs_attempts st' = <[id := n]> (rs_attempts st) -> settled (pre ++ [id]) st'.
Proof.
  intros Hset Hs Hn st' Hst Hat x. rewrite Hst, Hat, elem_of_app, list_elem_of_singleton. destruct (decide (x = id)) as [->|Hx].
  - rewrite !lookup_insert_eq. split; [eauto 10|tauto].
  - rewrite !lookup_insert_ne by done. destruct (Hset x) as [H1 H2]. split; intros H; [apply H1|apply H2]; tauto.
Qed.

(** A failure at [id], after which compensation may have changed what completed. *)
Lemma ended_failed pre id rest st st' code agg comp : settled pre st -> id ∉ pre -> code <> "" ->
  (forall x, x <> id -> rs_states st' !! x = rs_states st !! x \/ rs_states st !! x = Some "completed" /\ rs_states st' !! x = Some (undone nodes x)) ->
  (rs_states st' !! id = None \/ rs_states st' !! id = Some "failed") ->
  (exists n, rs_attempts st' = <[id := n]> (rs_attempts st) /\ attempted id n) -> last (rs_events st') = Some "task:failed" ->
  ended (portableResult st' "failed" code agg comp) pre (id :: rest).
Proof.
  intros Hset Hid Hcode Hst Hstid (n & Hat & Hn) Hev. split; cbn [events terminal_state error_code node_states attempt_counts NopPortable.portableResult head].
  - done.
  - right. by left.
  - intros x Hx. assert (x <> id) as Hne by set_solver. destruct (Hset x) as [H1 _]. destruct (H1 Hx) as (s & m & Hs & Hsv & Hm & Ham).
    rewrite Hat, lookup_insert_ne by done. destruct (Hst x Hne) as [E|[E E']]; [exists s, m; rewrite E; naive_solver|exists (undone nodes x), m; rewrite E'; naive_solver].
  - intros x [= <-]. split; [done|]. intros m. rewrite Hat, lookup_insert_eq. by intros [= <-].
  - intros x Hx Hne. assert (x <> id) as Hne' by congruence. destruct (Hset x) as [_ H2]. destruct (H2 Hx) as [Hs Ha].
    rewrite Hat, lookup_insert_ne by done. destruct (Hst x Hne') as [E|[E _]]; [by rewrite E|congruence].
Qed.

Definition outcome_ok (pre : list string) (id : string) (rest : list string) (o : node_outcome) : Prop :=
  match o with Continue st => settled (pre ++ [id]) st | Return r => ended r pre (id :: rest) end.

Lemma attempted_0 id : attempted id 0.
Proof. unfold attempted. lia. Qed.
#[local] Hint Resolve attempted_0 : core.

Lemma attempt_node_ok pre id rest st : settled pre st -> id ∉ pre ->
  outcome_ok pre id rest (attempt_node to_json of_json range task nodes topology id (default [] (nodes !! id)) st).
Proof.
  intros Hset Hid. unfold attempt_node. fold (retries id).
  pose proof (run_attempts_spec id (default [] (nodes !! id)) (retries id) (anySlice (dict_at (default [] (nodes !! id)) "attempts")) 0 "" st) as H.
  destruct (run_attempts _ _ id _ _ _ 0 "" st) as [[[st' count] fe] completed]. destruct H as (Hs & Ha & Hc).
  assert (Hatt : attempted id count) by (unfold attempted; lia). destruct completed.
  - apply (settled_set pre id st "completed" count Hset); [by left|done|done|]. cbn. by rewrite Ha.
  - pose proof (compensate_states task id topology nodes (rs_events st') (rs_states st')) as Hcomp. cbn [set_attempts rs_events rs_states rs_results rs_attempts rs_mapped].
    destruct (compensatePortable task id topology nodes (rs_events st') (rs_states st')) as [[[comp err] evs] states]. cbn [outcome_ok].
    assert (Hbefore : forall x, x <> id -> rs_states st' !! x = rs_states st !! x) by (intros x Hx; destruct Hs as [-> | ->]; [done|by rewrite lookup_insert_ne]).
    assert (Hnot : rs_states st' !! id = None \/ rs_states st' !! id = Some "failed").
    { destruct Hs as [-> | ->]; [left; by apply Hset|right; by rewrite lookup_insert_eq]. }
    apply (ended_failed pre id rest st); cbn [rs_states rs_attempts rs_events]; [done|done| | | |exists count; by rewrite Ha|by rewrite last_snoc].
    + match goal with |- (if String.eqb ?c "" then _ else _) <> "" => destruct (String.eqb_spec c ""); done end.
    + intros x Hx. rewrite <- (Hbefore x Hx). apply Hcomp.
    + destruct (Hcomp id) as [E|[E _]]; [by rewrite E|]. rewrite E in Hnot. by destruct Hnot.
Qed.

Lemma fail_node_ok pre id rest st code : settled pre st -> id ∉ pre -> code <> "" -> ended (fail_node to_json of_json range id code st) pre (id :: rest).
Proof.
  intros Hset Hid Hcode. apply (ended_failed pre id rest st); cbn; [done|done|done| | |by exists 0|].
  - intros x Hx. left. by rewrite lookup_insert_ne.
  - right. by rewrite lookup_insert_eq.
  - change [id +:+ ":failed"; "task:failed"] with ([id +:+ ":failed"] ++ ["task:failed"]). by rewrite app_assoc, last_snoc.
Qed.

Lemma map_node_ok pre id rest st : settled pre st -> id ∉ pre ->
  outcome_ok pre id rest (map_node to_json of_json range task nodes topology id (default [] (nodes !! id)) st).
Proof.
  intros Hset Hid. unfold map_node. destruct (dict_get "input_mapping" _) as [mapping|]; [|by apply attempt_node_ok].
  destruct (map_params _ _ _ _) as [params|]; [|by apply fail_node_ok]. by apply attempt_node_ok.
Qed.

Lemma run_node_ok pre id rest st : settled pre st -> id ∉ pre ->
  outcome_ok pre id rest (run_node RawText to_json of_json range task nodes topology id st).
Proof.
  intros Hset Hid. unfold run_node. destruct (String.eqb_spec (stringValue (dict_at task "cancel_before")) id) as [Hc|Hc].
  - split; cbn; [by rewrite last_snoc|right; right; by subst|intros x Hx; destruct (Hset x) as [H1 _]; naive_solver| |].
    + intros x [= <-]. destruct (Hset id) as [_ H2]. destruct (H2 Hid) as [-> ->]. by split; [left|].
    + intros x Hx _. by apply Hset.
  - destruct (dict_get "condition" _) as [condition|]; [|by apply map_node_ok].
    destruct (EvaluateCondition _ _ _) as [[|]|]; [by apply map_node_ok| |by apply fail_node_ok].
    apply (settled_set pre id st "skipped" 0 Hset); auto.
Qed.

Lemma run_nodes_ok pre todo st : settled pre st -> NoDup (pre ++ todo) ->
  exists pre' post, pre ++ todo = pre' ++ post /\ ended (run_nodes RawText to_json of_json range task nodes topology todo st) pre' post.
Proof.
  revert pre st. induction todo as [|id rest IH]; intros pre st Hset Hnd; cbn [run_nodes].
  - exists pre, []. split; [done|]. split; cbn; [by rewrite last_snoc|by left|intros x Hx; destruct (Hset x) as [H1 _]; naive_solver|done|].
    intros x Hx _. by apply Hset.
  - assert (id ∉ pre) as Hid. { intros Hin. apply NoDup_app in Hnd as (_ & Hd & _). apply (Hd id Hin). by left. }
    pose proof (run_node_ok pre id rest st Hset Hid) as H. destruct (run_node _ _ _ _ _ _ _ id st) as [st'|r]; [|by exists pre, (id :: rest)].
    specialize (IH (pre ++ [id]) st' H). rewrite <- app_assoc in IH. by apply IH.
Qed.
End Run.

(** C12. Tasks.  A run always ends, and its last event names how: completed, and then
    without an error code, failed with one, or cancelled before the node that the task
    names.  The nodes before the one it ended at, in the order of the task, completed or
    were skipped, or were undone after a failure, and none was attempted more often than
    its retries allow; no node after it was touched.  A completed task has settled every
    node. *)
Theorem portable_run RawText to_json of_json (range : forall A, gmap string A -> list (string * A)) task (Hrange : forall A m, range A m ≡ₚ map_to_list m) :
  let r := EvaluateOrchestration RawText to_json of_json range task in
  match index_nodes (anySlice (dict_at task "nodes")) ∅ with
  | None => ended task ∅ r [] [] /\ error_code r = ErrTaskDagInvalid
  | Some nodes =>
      match stablePortableTopology nodes (range dict nodes) (range Z) with
      | None => ended task nodes r [] [] /\ error_code r = ErrTaskDagCycle
      | Some topology => exists pre post, topology = pre ++ post /\ ended task nodes r pre post
      end
  end.
Proof.
  cbv zeta. unfold EvaluateOrchestration.
  destruct (index_nodes _ ∅) as [nodes|]; [|split; [|done]; split; cbn; [done|right; by left|by intros x Hx%elem_of_nil|done|done]].
  pose proof (topology_spec nodes (range dict nodes) (range Z) (Hrange _ _) (Hrange _)) as Ht.
  destruct (stablePortableTopology nodes _ _) as [topology|]; [|split; [|done]; split; cbn; [done|right; by left|by intros x Hx%elem_of_nil|done|done]].
  destruct Ht as (Hp & _). case_match.
  - exists [], topology. split; [done|]. split; cbn; [by rewrite last_snoc|right; by left|by intros x Hx%elem_of_nil|by intros x _; split; [left|]|done].
  - apply (run_nodes_ok _ _ _ _ _ _ _ []).
    + intros x. split; [by intros Hx%elem_of_nil|]. by case_match.
    + rewrite app_nil_l, Hp. apply ids_nodup.
Qed.

(** ** Concrete inputs *)

Definition toy_node (id : string) (deps : list string) (more : dict) : dict := [("id", VString id); ("depends_on", VSlice (VString <$> deps))] ++ more.
Definition toy_success : string * any := ("attempts", VSlice [VMap [("kind", VString "success")]]).
Definition toy_failure : string * any := ("attempts", VSlice [VMap [("kind", VString "failure")]]).
Definition toy_undo : string * any := ("compensate_action", VString "undo").

Definition toy_list : list dict :=
  [toy_node "merge" ["parse"; "score"] [toy_failure]; toy_node "score" ["fetch"] [toy_success]; toy_node "parse" ["fetch"] [toy_success; toy_undo];
   toy_node "fetch" [] [toy_success; toy_undo]; toy_node "report" ["merge"] [toy_success]].
Definition toy_task : dict := [("nodes", VSlice (VMap <$> toy_list)); ("compensation_policy", VString "best_effort")].
Definition toy_nodes : nodemap := default ∅ (index_nodes (VMap <$> toy_list) ∅).
Definition toy_order : list string := ["fetch"; "parse"; "score"; "merge"; "report"].
Definition toy_states : gmap string string := list_to_map [("fetch", "completed"); ("parse", "completed"); ("score", "completed"); ("merge", "failed")].

Lemma portable_order_witness :
  stablePortableTopology toy_nodes (map_to_list toy_nodes) map_to_list = Some toy_order /\
  forall entries degrees, entries ≡ₚ map_to_list toy_nodes -> (forall m, degrees m ≡ₚ map_to_list m) -> stablePortableTopology toy_nodes entries degrees = Some toy_order.
Proof.
  assert (E : stablePortableTopology toy_nodes (map_to_list toy_nodes) map_to_list = Some toy_order) by (vm_compute; reflexivity).
  split; [exact E|]. rewrite <- E.
  exact (proj2 (proj2 (portable_order toy_nodes (map_to_list toy_nodes) map_to_list (Permutation_refl _) (fun m => Permutation_refl _)))).
Defined.

Lemma compensation_exact_witness :
  exists due, sublist due (rev toy_order) /\ (forall x, x ∈ due <-> owed toy_nodes toy_states "merge" x) /\
    undo_result false toy_nodes (filter (supported toy_nodes) due) ["parse"; "fetch"] "".
Proof.
  assert (E : stablePortableTopology toy_nodes (map_to_list toy_nodes) map_to_list = Some toy_order) by (vm_compute; reflexivity).
  pose proof (compensation_exact toy_task "merge" toy_nodes (map_to_list toy_nodes) map_to_list toy_order [] toy_states
    (Permutation_refl _) (fun m => Permutation_refl _) E) as H.
  assert (R : (compensatePortable toy_task "merge" toy_order toy_nodes [] toy_states).1.1 = (["parse"; "fetch"], "")) by (vm_compute; reflexivity).
  cbv zeta in H. destruct (compensatePortable _ _ _ _ _ _) as [[[order err] evs] states]. cbn [fst] in R. injection R as -> ->.
  destruct H as (due & H1 & H2 & _ & _ & H3 & _). exists due. split; [exact H1|]. split; [exact H2|]. apply H3. left. vm_compute. reflexivity.
Defined.

Definition toy_run : PortableResult := EvaluateOrchestration (fun _ => "") (fun _ => JNull) (fun _ => VNil) (fun A => map_to_list) toy_task.

Lemma portable_run_witness :
  node_states toy_run !! "parse" = Some "compensated" /\ node_states toy_run !! "report" = None /\
  exists pre post, toy_order = pre ++ post /\ ended toy_task toy_nodes toy_run pre post.
Proof.
  split; [vm_compute; reflexivity|]. split; [vm_compute; reflexivity|].
  pose proof (portable_run (fun _ => "") (fun _ => JNull) (fun _ => VNil) (fun A => map_to_list) toy_task (fun A m => Permutation_refl _)) as H.
  cbv zeta in H. fold toy_run in H.
  assert (E : index_nodes (anySlice (dict_at toy_task "nodes")) ∅ = Some toy_nodes) by (vm_compute; reflexivity). rewrite E in H.
  assert (T : stablePortableTopology toy_nodes (map_to_list toy_nodes) map_to_list = Some toy_order) by (vm_compute; reflexivity). rewrite T in H. exact H.
Defined.
