(* ===== verification/NdpRegistry.v ===== *)
(** * NDP: announcements, the in-memory registry, cluster election, federation

    ndp/frames.go (AnnounceFrame), ndp/registry.go, ndp/cluster.go,
    ndp/federation.go and ndp/dns_txt.go.  Clock readings are arguments; the DNS
    resolver is a parameter.  A Go map is ranged over in an unspecified order, so
    the theorems about ranges quantify over permutations. *)

From S2P Require Import Prelude GoValue CoreFrames NcpFrames.

(** ** Reading dicts (ndp/frames.go) *)

Definition ndp_toUint64 (v : any) : Z :=
  match v with
  | VInt KInt64 z => u64 z
  | VInt KUint64 z => z
  | VInt KInt z => u64 z
  | VFloat64 f => uint64_of_float f
  | VNumber lit => default 0 (ParseUint lit)
  | _ => 0
  end.

Definition toSliceStr (v : any) : option (list string) := as_string_slice v.

Definition toSliceMap (v : any) : list dict :=
  match v with VSlice l => omap as_map l | _ => [] end.

Definition toMap (v : any) : option dict := as_map v.

(** ** AnnounceFrame *)

Record AnnounceFrame : Type := MkAnnounce {
  NID : string; Addresses : list dict; Caps : list string; TTL : Z; Timestamp : string;
  Signature : string; NodeType : option string; NodeRoles : list string; ClusterAnchor : string;
  SpawnSpecRef : string; BridgeProtocols : list string; BridgeInboundProtocols : list string;
  ActivationMode : string; ActivationEndpoint : option dict; HeartbeatIntervalMs : Z;
  ClusterEpoch : option Z; Health : string; LastSeen : string; GraphSeq : option Z
}.

Definition set_str (k v : string) (d : dict) : dict :=
  if String.eqb v "" then d else dict_set k (VString v) d.
Definition set_list (k : string) (l : list string) (d : dict) : dict :=
  match l with [] => d | _ => dict_set k (VStrings l) d end.

(** [sortedDict]: the same entries, inserted in the order of their keys. *)
Definition sortedDict (d : dict) : dict :=
  (fun k => (k, dict_at d k)) <$> sort_strings d.*1.

(** The optional members both dicts share. *)
Definition announce_optional (f : AnnounceFrame) (d : dict) : dict :=
  let d := set_opt "node_type" VString (NodeType f) d in
  let d := set_list "node_roles" (NodeRoles f) d in
  let d := set_str "cluster_anchor" (ClusterAnchor f) d in
  let d := set_str "spawn_spec_ref" (SpawnSpecRef f) d in
  let d := set_list "bridge_protocols" (BridgeProtocols f) d in
  let d := set_list "bridge_inbound_protocols" (BridgeInboundProtocols f) d in
  let d := set_str "activation_mode" (ActivationMode f) d in
  let d := set_opt "activation_endpoint" VMap (ActivationEndpoint f) d in
  let d := set_opt "cluster_epoch" (VInt KUint64) (ClusterEpoch f) d in
  set_opt "graph_seq" (VInt KUint64) (GraphSeq f) d.

Definition UnsignedDict (f : AnnounceFrame) : dict :=
  sortedDict (announce_optional f
    [("nid", VString (NID f)); ("addresses", VMaps (Addresses f));
     ("capabilities", VStrings (Caps f)); ("ttl", VInt KUint64 (TTL f));
     ("timestamp", VString (Timestamp f));
     ("heartbeat_interval_ms", VInt KUint64 (HeartbeatIntervalMs f))]).

Definition AnnounceFrame_ToDict (f : AnnounceFrame) : dict :=
  let d := announce_optional f (dict_set "signature" (VString (Signature f)) (UnsignedDict f)) in
  let d := dict_set "heartbeat_interval_ms" (VInt KUint64 (HeartbeatIntervalMs f)) d in
  set_str "last_seen" (LastSeen f) (set_str "health" (Health f) d).

Definition nil_or (v w : any) : any := match v with VNil => w | _ => v end.

Definition opt_uint (d : dict) (k : string) : option Z :=
  match dict_get k d with
  | None | Some VNil => None
  | Some v => Some (ndp_toUint64 v)
  end.

Definition AnnounceFrameFromDict (d : dict) : AnnounceFrame :=
  let nodeRoles := nil_or (dict_at d "node_roles") (dict_at d "node_kind") in
  let caps := nil_or (dict_at d "capabilities") (dict_at d "caps") in
  let hbMs := match dict_get "heartbeat_interval_ms" d with
              | Some v => ndp_toUint64 v
              | None => 60000
              end in
  let ttl := ndp_toUint64 (dict_at d "ttl") in
  MkAnnounce (str d "nid") (toSliceMap (dict_at d "addresses")) (default [] (toSliceStr caps))
    (if ttl =? 0 then 300 else ttl) (str d "timestamp") (str d "signature") (optStr d "node_type")
    (default [] (toSliceStr nodeRoles)) (str d "cluster_anchor") (str d "spawn_spec_ref")
    (default [] (toSliceStr (dict_at d "bridge_protocols")))
    (default [] (toSliceStr (dict_at d "bridge_inbound_protocols"))) (str d "activation_mode")
    (toMap (dict_at d "activation_endpoint")) hbMs (opt_uint d "cluster_epoch") (str d "health")
    (str d "last_seen") (opt_uint d "graph_seq").

(** ** registry.go *)

Record ResolveResult : Type := MkResolve {
  r_Host : string; r_Port : Z; r_Protocol : string; CertFingerprint : string
}.

Record registryEntry : Type := MkEntry { re_frame : AnnounceFrame; re_expires : Z }.

Abbreviation InMemoryNdpRegistry := (gmap string registryEntry).

Definition NewInMemoryNdpRegistry : InMemoryNdpRegistry := ∅.

Definition Announce (r : InMemoryNdpRegistry) (now : Z) (frame : AnnounceFrame) : InMemoryNdpRegistry :=
  if TTL frame =? 0 then delete (NID frame) r
  else <[NID frame := MkEntry frame (add_seconds now (TTL frame))]> r.

Definition GetByNID (r : InMemoryNdpRegistry) (now : Z) (nid : string) : option AnnounceFrame :=
  match r !! nid with
  | None => None
  | Some e => if after (re_expires e) now then Some (re_frame e) else None
  end.

Definition colon : Ascii.ascii := chr 58.
Definition slash : Ascii.ascii := chr 47.

(** The text before and after the first slash. *)
Fixpoint cut_slash (s : string) : option (string * string) :=
  match s with
  | EmptyString => None
  | String c r => if Ascii.eqb c slash then Some ("", r)
                  else match cut_slash r with Some (a, b) => Some (String c a, b) | None => None end
  end.

Definition NwpTargetMatchesNID (nid target : string) : bool :=
  match split_on colon nid with
  | p0 :: p1 :: p2 :: nidHost :: ((_ :: _) as tail) =>
      if negb (String.eqb p0 "urn") || negb (String.eqb p1 "nps") || negb (String.eqb p2 "node") then false
      else
        let nidPath := join "/" tail in
        match cut_prefix "nwp://" target with
        | None => false
        | Some rest =>
            match cut_slash rest with
            | None => false
            | Some (authority, path) =>
                if negb (String.eqb authority nidHost) then false
                else String.eqb path nidPath || has_prefix (nidPath +:+ "/") path
            end
        end
  | _ => false
  end.

(** The frames [GetAll] returns, in some order of the map. *)
Definition GetAll (r : InMemoryNdpRegistry) (now : Z) : list AnnounceFrame :=
  omap (fun '(_, e) => if after (re_expires e) now then Some (re_frame e) else None) (map_to_list r).

(** [Resolve] on the entries in the order the map is ranged over. *)
Fixpoint resolve_in (entries : list registryEntry) (now : Z) (target : string) : option ResolveResult :=
  match entries with
  | [] => None
  | e :: rest =>
      if negb (after (re_expires e) now) then resolve_in rest now target
      else
        match Addresses (re_frame e) with
        | addr :: _ =>
            if NwpTargetMatchesNID (NID (re_frame e)) target then
              Some (MkResolve (str addr "host") (ndp_toUint64 (dict_at addr "port")) (str addr "protocol") "")
            else resolve_in rest now target
        | [] => resolve_in rest now target
        end
  end.

Definition Resolve (r : InMemoryNdpRegistry) (now : Z) (target : string) : option ResolveResult :=
  resolve_in (map_to_list r).*2 now target.

(** ** dns_txt.go *)

(** [strings.Fields]: the words between runs of white space; [acc] is the current
    word, reversed.  Every step consumes a byte. *)
Fixpoint fields_fuel (fuel : nat) (s acc : string) : list string :=
  let flush := if String.eqb acc "" then [] else [String.rev acc] in
  match fuel, s with
  | S f, String c r => match strip_one space_encodings s with
                       | Some rest => flush ++ fields_fuel f rest ""
                       | None => fields_fuel f r (String c acc)
                       end
  | _, _ => flush
  end.

Definition fields (s : string) : list string := fields_fuel (String.length s) s "".

Fixpoint cut_eq (s : string) : option (string * string) :=
  match s with
  | EmptyString => None
  | String c r => if Ascii.eqb c (chr 61) then Some ("", r)
                  else match cut_eq r with Some (a, b) => Some (String c a, b) | None => None end
  end.

Definition ParseNpsTxtRecord (txt host : string) : option ResolveResult :=
  let kv : gmap string string :=
    fold_left (fun m f => match cut_eq f with Some (k, v) => <[k := v]> m | None => m end) (fields txt) ∅ in
  if negb (String.eqb (default "" (kv !! "v")) "nps1") then None
  else if String.eqb (default "" (kv !! "nid")) "" then None
  else
    let port := match kv !! "port" with
                | Some ps => if String.eqb ps "" then 17433 else default 17433 (ParseUint ps)
                | None => 17433
                end in
    Some (MkResolve host port "https" (default "" (kv !! "fp"))).

Definition ExtractHostFromTarget (target : string) : string :=
  match cut_prefix "nwp://" target with
  | None => ""
  | Some rest => match cut_slash rest with Some (h, _) => h | None => rest end
  end.

Definition dnsTxtLabelPrefix : string := "_nps-node.".

Fixpoint first_record (records : list string) (host : string) : option ResolveResult :=
  match records with
  | [] => None
  | rec :: rest => match ParseNpsTxtRecord rec host with Some r => Some r | None => first_record rest host end
  end.

Definition ResolveViaDns (r : InMemoryNdpRegistry) (now : Z) (LookupTXT : string -> go_result (list string))
    (target : string) : option ResolveResult :=
  match Resolve r now target with
  | Some res => Some res
  | None =>
      let host := ExtractHostFromTarget target in
      if String.eqb host "" then None
      else match LookupTXT (dnsTxtLabelPrefix +:+ host) with
           | Err _ => None
           | Ok records => first_record records host
           end
  end.

(** ** cluster.go *)

Definition DefaultClusterEpoch : Z := 1.
Definition ClusterEpochOrDefault (f : AnnounceFrame) : Z := default DefaultClusterEpoch (ClusterEpoch f).

Record ClusterSplitError : Type := MkSplit { split_ClusterAnchor : string; split_Epoch : Z }.

(** The registry surface the election needs. *)
Class AnnounceLister (R : Type) := { list_live : R -> list AnnounceFrame }.

#[export] Instance in_memory_lister : AnnounceLister (InMemoryNdpRegistry * Z) :=
  {| list_live '(r, now) := GetAll r now |}.

Definition top_epoch (first : AnnounceFrame) (rest : list AnnounceFrame) : Z :=
  fold_left (fun top f => if ClusterEpochOrDefault f >? top then ClusterEpochOrDefault f else top)
    rest (ClusterEpochOrDefault first).

(** [Ok None] is the (nil, nil) result. *)
Definition ResolveCluster {R} `{AnnounceLister R} (registry : R) (clusterAnchor : string) :
    result ClusterSplitError (option AnnounceFrame) :=
  if String.eqb clusterAnchor "" then Ok None
  else
    match List.filter (fun f => String.eqb (ClusterAnchor f) clusterAnchor) (list_live registry) with
    | [] => Ok None
    | first :: rest =>
        let top := top_epoch first rest in
        match List.filter (fun f => ClusterEpochOrDefault f =? top) (first :: rest) with
        | [leader] => Ok (Some leader)
        | _ => Err (MkSplit clusterAnchor top)
        end
    end.

(** ** federation.go *)

Definition MaxFederationHops : Z := 3.
Definition ErrFederationLoop : string := "NDP-FEDERATION-LOOP".
Definition comma : Ascii.ascii := chr 44.

Definition ParseForwardedBy (header : string) : list string :=
  if String.eqb header "" then []
  else List.filter (fun h => negb (String.eqb h "")) (trim_space <$> split_on comma header).

(** The next header and whether to forward. *)
Definition AppendForwardedBy (ownNID header : string) : go_result (string * bool) :=
  let hops := ParseForwardedBy header in
  if mem_string ownNID hops then
    Err (ErrPlain (ErrFederationLoop +:+ ": own NID already appears in ndp-forwarded-by"))
  else if Z.of_nat (length hops) >=? MaxFederationHops then Ok ("", false)
  else Ok (join ", " (hops ++ [ownNID]), true).

(** ** Lemmas *)

Lemma cut_slash_Some s a b :
  cut_slash s = Some (a, b) <-> s = a +:+ String slash b /\ str_contains_char slash a = false.
Proof.
  revert a; induction s as [|c s IH]; intros a; cbn [cut_slash].
  { split; [done|]. intros [E _]. by destruct a. }
  destruct (Ascii.eqb_spec c slash) as [->|Hc].
  - split; [by intros [= <- <-]|]. destruct a as [|c' a]; [by intros [[= ->] _]|].
    intros [[= <- _] Ha]. cbn [str_contains_char] in Ha. by rewrite Ascii.eqb_refl in Ha.
  - destruct a as [|c' a].
    + destruct (cut_slash s) as [[a' b']|]; (split; [done|]); intros [[= ? _] _]; congruence.
    + specialize (IH a). change (String c' a +:+ String slash b) with (String c' (a +:+ String slash b)).
      cbn [str_contains_char]. apply Ascii.eqb_neq in Hc. split.
      * destruct (cut_slash s) as [[a' b']|]; [|done]. intros [= <- <- <-].
        destruct IH as [IH _]. destruct (IH eq_refl) as [-> Ha]. by rewrite Hc.
      * intros [[= <- E] Ha]. rewrite Hc in Ha. destruct IH as [_ IH]. by rewrite IH.
Qed.

(** A path equals [path] or continues it after a slash. *)
Lemma path_continues path pth :
  String.eqb pth path || has_prefix (path +:+ "/") pth = true <->
  exists r, pth = path +:+ r /\ (r = "" \/ exists more, r = "/" +:+ more).
Proof.
  rewrite orb_true_iff, String.eqb_eq. unfold has_prefix. split.
  - intros [->|Hp].
    + exists "". split; [|by left]. by rewrite str_app_nil_r.
    + destruct (cut_prefix (path +:+ "/") pth) as [more|] eqn:E; [|done].
      apply cut_prefix_Some in E as ->. exists ("/" +:+ more). split; [|right; by eexists].
      by rewrite str_app_assoc.
  - intros (r & -> & [->|(more & ->)]).
    + left. by rewrite str_app_nil_r.
    + right. assert (cut_prefix (path +:+ "/") (path +:+ "/" +:+ more) = Some more) as ->; [|done].
      apply cut_prefix_Some. by rewrite str_app_assoc.
Qed.

(** ** Properties *)

(** The registry is a map of live announcements: a frame announced for t
    seconds (t within a time.Duration) is found under its NID until exactly t
    seconds later and hides any earlier one, a frame with ttl 0 withdraws the
    NID, and no other NID is affected; one second more than a Duration holds and
    the announcement is expired when it is made. *)
Theorem registry_announce_get r t now f nid :
  (0 < TTL f <= max_seconds ->
     GetByNID (Announce r t f) now nid =
       if String.eqb (NID f) nid then (if now <? t + TTL f * second then Some f else None)
       else GetByNID r now nid) /\
  (TTL f = 0 ->
     GetByNID (Announce r t f) now nid = if String.eqb (NID f) nid then None else GetByNID r now nid) /\
  (TTL f = max_seconds + 1 -> GetByNID (Announce r t f) t (NID f) = None).
Proof.
  unfold GetByNID, Announce. split_and!; intros Ht.
  - rewrite (proj2 (Z.eqb_neq _ _)) by lia. rewrite add_seconds_exact by lia.
    destruct (String.eqb_spec (NID f) nid) as [->|Hne]; [by rewrite lookup_insert_eq|].
    by rewrite lookup_insert_ne.
  - rewrite Ht. simpl. destruct (String.eqb_spec (NID f) nid) as [->|Hne];
      [by rewrite lookup_delete_eq|by rewrite lookup_delete_ne].
  - rewrite (proj2 (Z.eqb_neq _ _)) by (unfold max_seconds in *; lia). rewrite lookup_insert_eq. simpl.
    unfold after. rewrite Ht. pose proof (add_seconds_wraps t). by rewrite (proj2 (Z.ltb_ge _ _)) by lia.
Qed.

(** Target matching is by whole segments: the NID urn:nps:node:host:p1:...:pn
    matches exactly the targets nwp://host/p1/.../pn and those that continue with
    a slash, so a longer name with the same prefix does not match. *)
Theorem target_matches_iff host parts target :
  parts <> [] -> Forall (fun p => str_contains_char colon p = false) (host :: parts) ->
  NwpTargetMatchesNID (join ":" ("urn" :: "nps" :: "node" :: host :: parts)) target = true <->
  str_contains_char slash host = false /\
  exists rest, target = "nwp://" +:+ host +:+ "/" +:+ join "/" parts +:+ rest /\
    (rest = "" \/ exists more, rest = "/" +:+ more).
Proof.
  intros Hne Hf. unfold NwpTargetMatchesNID. change ":" with (String colon "").
  rewrite split_on_join; [|done|by repeat (apply Forall_cons; split; [done|])].
  destruct parts as [|p parts]; [done|]. cbn [String.eqb Ascii.eqb Bool.eqb negb orb].
  set (path := join "/" (p :: parts)). split.
  - destruct (cut_prefix "nwp://" target) as [rest|] eqn:Ep; [|done].
    destruct (cut_slash rest) as [[auth pth]|] eqn:Es; [|done].
    apply cut_prefix_Some in Ep as ->. apply cut_slash_Some in Es as [-> Ha].
    destruct (String.eqb_spec auth host) as [->|]; [|done]. cbn [negb]. rewrite path_continues.
    intros (r & -> & Hr). split; [done|]. exists r. split; [reflexivity|exact Hr].
  - intros (Hh & r & -> & Hr).
    assert (cut_prefix "nwp://" ("nwp://" +:+ host +:+ "/" +:+ path +:+ r) =
      Some (host +:+ String slash (path +:+ r))) as -> by (by apply cut_prefix_Some).
    assert (cut_slash (host +:+ String slash (path +:+ r)) = Some (host, path +:+ r)) as ->
      by (by apply cut_slash_Some).
    rewrite String.eqb_refl. cbn [negb]. apply path_continues. eauto.
Qed.

(** ** Lemmas: the election *)

Abbreviation epoch := ClusterEpochOrDefault.

Lemma top_epoch_spec first rest :
  Forall (fun f => epoch f <= top_epoch first rest) (first :: rest) /\
  Exists (fun f => epoch f = top_epoch first rest) (first :: rest).
Proof.
  unfold top_epoch. assert (forall l a, a <= fold_left (fun top f => if epoch f >? top then epoch f else top) l a /\
    Forall (fun f => epoch f <= fold_left (fun top f => if epoch f >? top then epoch f else top) l a) l /\
    (fold_left (fun top f => if epoch f >? top then epoch f else top) l a = a \/
     Exists (fun f => epoch f = fold_left (fun top f => if epoch f >? top then epoch f else top) l a) l)) as Hg.
  { induction l as [|f l IH]; intros a; simpl; [split_and!; [lia|constructor|by left]|].
    destruct (epoch f >? a) eqn:E; bool_hyps.
    - destruct (IH (epoch f)) as (H1 & H2 & H3). split_and!; [lia|by constructor|].
      right. destruct H3 as [H3|H3]; [left; by rewrite H3|by right].
    - destruct (IH a) as (H1 & H2 & H3). split_and!; [done|constructor; [lia|done]|].
      destruct H3; [by left|right; by right]. }
  destruct (Hg rest (epoch first)) as (H1 & H2 & H3). split; [by constructor|].
  destruct H3 as [H3|H3]; [left; by rewrite H3|by right].
Qed.

(** [f] alone has the highest epoch among [members]. *)
Definition sole_leader (members : list AnnounceFrame) (f : AnnounceFrame) : Prop :=
  exists others, members ≡ₚ f :: others /\ Forall (fun g => epoch g < epoch f) others.

Lemma sole_leader_unique members f g : sole_leader members f -> sole_leader members g -> f = g.
Proof.
  intros (o1 & P1 & H1) (o2 & P2 & H2). rewrite P1 in P2.
  assert (g ∈ f :: o1) as Hg by (rewrite P2; set_solver).
  assert (f ∈ g :: o2) as Hf by (rewrite <- P2; set_solver).
  apply elem_of_cons in Hg as [->|Hg]; [done|]. apply elem_of_cons in Hf as [->|Hf]; [done|].
  rewrite Forall_forall in H1, H2. apply H1 in Hg. apply H2 in Hf. lia.
Qed.

Lemma filter_all_in {A} (P : A -> bool) l : Forall (fun x => P x = true) l -> List.filter P l = l.
Proof. induction 1 as [|x l Hx _ IH]; simpl; [done|]. by rewrite Hx, IH. Qed.
Lemma filter_none_in {A} (P : A -> bool) l : Forall (fun x => P x = false) l -> List.filter P l = [].
Proof. induction 1 as [|x l Hx _ IH]; simpl; [done|]. by rewrite Hx. Qed.
Lemma filter_perm {A} (P : A -> bool) l l' : l ≡ₚ l' -> List.filter P l ≡ₚ List.filter P l'.
Proof.
  induction 1 as [|x l l' _ IH|x y l|l1 l2 l3 _ IH1 _ IH2]; simpl; [done|..].
  - destruct (P x); by rewrite IH.
  - destruct (P x), (P y); try done. apply Permutation_swap.
  - by rewrite IH1.
Qed.

Lemma filter_split {A} (P : A -> bool) l :
  l ≡ₚ List.filter P l ++ List.filter (fun x => negb (P x)) l.
Proof.
  induction l as [|x l IH]; simpl; [done|]. destruct (P x); simpl.
  - by rewrite IH at 1.
  - rewrite IH at 1. apply Permutation_middle.
Qed.

(** The election on a non-empty list of members. *)
Lemma leaders_spec first rest :
  let top := top_epoch first rest in
  match List.filter (fun f => epoch f =? top) (first :: rest) with
  | [leader] => sole_leader (first :: rest) leader
  | _ => forall f, ~ sole_leader (first :: rest) f
  end.
Proof.
  intros top. destruct (top_epoch_spec first rest) as [Hle Hex]. fold top in Hle, Hex.
  set (P := fun f => epoch f =? top). set (ms := first :: rest) in *.
  assert (Hf : forall f, sole_leader ms f -> List.filter P ms = [f]).
  { intros f (others & Hp & Ho). assert (epoch f = top) as Hft.
    { rewrite Hp in Hle, Hex. apply Forall_cons in Hle as [Hf _].
      apply Exists_cons in Hex as [?|Hx]; [done|]. apply Exists_exists in Hx as (g & Hg & Hgt).
      rewrite Forall_forall in Ho. apply Ho in Hg. cbv beta in *. lia. }
    assert (List.filter P ms ≡ₚ [f]) as Hpf.
    { rewrite (filter_perm P _ _ Hp). simpl. unfold P at 1. rewrite Hft, Z.eqb_refl.
      rewrite filter_none_in; [done|]. eapply Forall_impl; [exact Ho|]. intros g Hg. unfold P.
      apply Z.eqb_neq. cbv beta in Hg. lia. }
    by apply Permutation_singleton_r in Hpf. }
  destruct (List.filter P ms) as [|leader [|l2 ls]] eqn:E.
  - intros f Hs%Hf. congruence.
  - exists (List.filter (fun x => negb (P x)) ms). split; [by rewrite (filter_split P ms) at 1; rewrite E|].
    assert (epoch leader = top) as Hlt.
    { assert (In leader (List.filter P ms)) as Hin by (rewrite E; by left).
      apply filter_In in Hin as [_ Hin]. by apply Z.eqb_eq in Hin. }
    apply Forall_forall. intros g Hg. apply list_elem_of_In, filter_In in Hg as [Hg Hp].
    apply negb_true_iff, Z.eqb_neq in Hp. rewrite Forall_forall in Hle.
    apply list_elem_of_In, Hle in Hg. lia.
  - intros f Hs%Hf. congruence.
Qed.

Lemma sole_leader_perm ms ms' f : ms ≡ₚ ms' -> sole_leader ms f -> sole_leader ms' f.
Proof. intros Hp (o & Ho & Hf). exists o. by rewrite <- Hp. Qed.

(** The members of a cluster in a registry. *)
Definition cluster_members {R} `{AnnounceLister R} (registry : R) (c : string) : list AnnounceFrame :=
  List.filter (fun f => String.eqb (ClusterAnchor f) c) (list_live registry).

Lemma ResolveCluster_cases {R} `{AnnounceLister R} (registry : R) c :
  c <> "" ->
  match ResolveCluster registry c with
  | Ok None => cluster_members registry c = []
  | Ok (Some f) => sole_leader (cluster_members registry c) f
  | Err e => split_ClusterAnchor e = c /\ cluster_members registry c <> [] /\
             (forall f, ~ sole_leader (cluster_members registry c) f) /\
             Forall (fun f => epoch f <= split_Epoch e) (cluster_members registry c) /\
             Exists (fun f => epoch f = split_Epoch e) (cluster_members registry c)
  end.
Proof.
  intros Hc. unfold ResolveCluster. apply String.eqb_neq in Hc. rewrite Hc. fold (cluster_members registry c).
  destruct (cluster_members registry c) as [|first rest]; [done|].
  pose proof (leaders_spec first rest) as Hl. pose proof (top_epoch_spec first rest) as [Ht1 Ht2].
  cbn zeta in Hl. destruct (List.filter _ (first :: rest)) as [|x [|y l]]; done.
Qed.

(** Cluster election is by strictly highest epoch and does not depend on the
    order in which a registry lists its frames: a member is returned exactly when
    it alone has the highest epoch of the live members of that cluster, nothing
    is returned exactly when the cluster has no live member, and every other case
    is a split error at the top epoch; any two registries that list the same
    frames agree. *)
Theorem cluster_election {R R'} `{AnnounceLister R} `{AnnounceLister R'} (registry : R) (registry' : R') c :
  c <> "" -> list_live registry ≡ₚ list_live registry' ->
  (forall f, ResolveCluster registry c = Ok (Some f) <-> sole_leader (cluster_members registry c) f) /\
  (ResolveCluster registry c = Ok None <-> cluster_members registry c = []) /\
  (forall e, ResolveCluster registry c = Err e ->
     Forall (fun f => epoch f <= split_Epoch e) (cluster_members registry c)) /\
  ResolveCluster registry c = ResolveCluster registry' c.
Proof.
  intros Hc Hp. pose proof (ResolveCluster_cases registry c Hc) as H1.
  pose proof (ResolveCluster_cases registry' c Hc) as H2.
  assert (Hm : cluster_members registry c ≡ₚ cluster_members registry' c) by (by apply filter_perm).
  assert (Hne : forall f, sole_leader (cluster_members registry c) f -> cluster_members registry c <> []).
  { intros f (o & Ho & _) E. rewrite E in Ho. by apply Permutation_nil_l in Ho. }
  split_and!.
  - intros f. destruct (ResolveCluster registry c) as [[g|]|e]; split; try done.
    + by intros [= <-].
    + intros Hs. do 2 f_equal. by eapply sole_leader_unique.
    + intros Hs%Hne. done.
    + intros Hs. destruct H1 as (_ & _ & Hn & _). by apply Hn in Hs.
  - destruct (ResolveCluster registry c) as [[g|]|e]; split; try done.
    + intros E. by apply Hne in H1.
    + intros E. by destruct H1 as (_ & Hn & _).
  - intros e E. rewrite E in H1. apply H1.
  - destruct (ResolveCluster registry c) as [[g|]|e], (ResolveCluster registry' c) as [[g'|]|e']; try done.
    + do 2 f_equal. eapply sole_leader_unique; [done|]. by eapply sole_leader_perm.
    + apply Hne in H1. rewrite H2 in Hm. by apply Permutation_nil_r in Hm.
    + destruct H2 as (_ & _ & H2 & _). by apply (sole_leader_perm _ _ _ Hm), H2 in H1.
    + rewrite H1 in Hm. apply Permutation_nil_l in Hm. rewrite <- Hm in H2. by destruct H2 as (o & Ho%Permutation_nil_l & _).
    + rewrite H1 in Hm. apply Permutation_nil_l in Hm. rewrite <- Hm in H2. by destruct H2 as (_ & ? & _).
    + apply (sole_leader_perm _ _ _ (symmetry Hm)) in H2. destruct H1 as (_ & _ & H1 & _). by apply H1 in H2.
    + rewrite H2 in Hm. apply Permutation_nil_r in Hm. by destruct H1 as (_ & ? & _).
    + f_equal. destruct e as [c1 t1], e' as [c2 t2]. simpl in *.
      destruct H1 as (-> & _ & _ & Ha & Hb), H2 as (-> & _ & _ & Ha' & Hb'). f_equal.
      rewrite <- Hm in Ha', Hb'. apply Exists_exists in Hb as (x & Hx & <-), Hb' as (y & Hy & <-).
      rewrite Forall_forall in Ha, Ha'. apply Ha in Hy. apply Ha' in Hx. lia.
Qed.

(** ** Lemmas: federation *)

(** A hop as [ParseForwardedBy] returns it: not empty, no comma, no outer space. *)
Definition clean_hop (h : string) : Prop :=
  h <> "" /\ str_contains_char comma h = false /\ trim_space h = h.

Lemma join_comma_space h rest :
  join ", " (h :: rest) = join (String comma "") (h :: (String (chr 32) <$> rest)).
Proof.
  revert h; induction rest as [|k rest IH]; intros h; [done|].
  change (h +:+ ", " +:+ join ", " (k :: rest) =
    h +:+ String comma (join (String comma "") (String (chr 32) k :: (String (chr 32) <$> rest)))).
  f_equal. rewrite IH. destruct rest; done.
Qed.

Lemma parse_clean header : Forall clean_hop (ParseForwardedBy header).
Proof.
  unfold ParseForwardedBy. destruct (String.eqb header ""); [constructor|].
  apply Forall_forall. intros h Hh. apply list_elem_of_In, filter_In in Hh as [Hh Hne].
  apply list_elem_of_In, list_elem_of_fmap in Hh as (p & -> & Hp).
  pose proof (split_on_clean comma header) as Hc. rewrite Forall_forall in Hc. apply Hc in Hp.
  split_and!; [by intros E; rewrite E in Hne| |apply trim_space_idem].
  destruct (trim_space_factor p) as (a & b & E). rewrite E, !contains_char_app in Hp. by bool_hyps.
Qed.

Lemma parse_join hops : Forall clean_hop hops -> ParseForwardedBy (join ", " hops) = hops.
Proof.
  intros Hf. destruct hops as [|h rest]; [done|]. rewrite join_comma_space. unfold ParseForwardedBy.
  assert (String.eqb (join (String comma "") (h :: (String (chr 32) <$> rest))) "" = false) as ->.
  { apply Forall_cons in Hf as [(Hne & _) _]. destruct h; [done|]. by destruct rest. }
  rewrite split_on_join; [|done|].
  - cbn [fmap list_fmap]. rewrite <- list_fmap_compose.
    assert ((trim_space ∘ String (chr 32) <$> rest) = rest) as ->.
    { rewrite <- (list_fmap_id rest) at 2. apply list_fmap_ext. intros i x Hx. cbv [compose id].
      rewrite trim_space_lead. apply Forall_cons in Hf as [_ Hf]. by apply (Forall_lookup_1 _ _ _ _ Hf) in Hx as (_ & _ & ->). }
    pose proof Hf as Hf'. apply Forall_cons in Hf' as [(_ & _ & ->) _].
    apply filter_all_in. eapply Forall_impl; [exact Hf|]. intros x (Hx & _). by apply negb_true_iff, String.eqb_neq.
  - apply Forall_cons in Hf as [(_ & Hh & _) Hf]. constructor; [done|]. apply Forall_fmap.
    eapply Forall_impl; [exact Hf|]. by intros x (_ & Hx & _).
Qed.

(** A header that passes through the nodes [nids] in turn. *)
Fixpoint relay (header : string) (nids : list string) : go_result (string * bool) :=
  match nids with
  | [] => Ok (header, true)
  | n :: ns => match AppendForwardedBy n header with
               | Ok (next, true) => relay next ns
               | r => r
               end
  end.

Lemma append_cases own header :
  clean_hop own ->
  let hops := ParseForwardedBy header in
  match AppendForwardedBy own header with
  | Ok (next, true) => own ∉ hops /\ (length hops < 3)%nat /\ ParseForwardedBy next = hops ++ [own]
  | Ok (next, false) => own ∉ hops /\ (3 <= length hops)%nat
  | Err _ => own ∈ hops
  end.
Proof.
  intros Ho hops. unfold AppendForwardedBy. fold hops.
  destruct (mem_string own hops) eqn:E; [by apply mem_string_true|]. apply mem_string_false in E.
  unfold MaxFederationHops. destruct (Z.of_nat (length hops) >=? 3) eqn:El; bool_hyps; [split; [done|lia]|].
  split_and!; [done|lia|]. apply parse_join. apply Forall_app. split; [apply parse_clean|by constructor].
Qed.

Lemma relay_iff header nids :
  Forall clean_hop nids -> NoDup (ParseForwardedBy header) ->
  match relay header nids with
  | Ok (next, true) => ParseForwardedBy next = ParseForwardedBy header ++ nids /\
      (nids = [] \/ NoDup (ParseForwardedBy header ++ nids) /\ (length (ParseForwardedBy header ++ nids) <= 3)%nat)
  | _ => ~ (NoDup (ParseForwardedBy header ++ nids) /\ (length (ParseForwardedBy header ++ nids) <= 3)%nat)
  end.
Proof.
  intros Hc. revert header. induction Hc as [|own nids Ho Hc IH]; intros header Hd; cbn [relay].
  { rewrite app_nil_r. split; [done|by left]. }
  pose proof (append_cases own header Ho) as Ha. cbv zeta in Ha. rewrite length_app. cbn [length].
  destruct (AppendForwardedBy own header) as [[next [|]]|e].
  - destruct Ha as (Hn & Hl & Hp). specialize (IH next). rewrite Hp, <- app_assoc in IH. simpl in IH.
    assert (Hd' : NoDup (ParseForwardedBy header ++ [own])).
    { apply NoDup_app. split_and!; [done|set_solver|apply NoDup_singleton]. }
    specialize (IH Hd'). rewrite length_app in IH. cbn [length] in IH.
    destruct (relay next nids) as [[n2 [|]]|e2]; [|done..]. destruct IH as [IH1 [->|IH2]]; split; try done; right; [|done].
    split; [done|simpl; lia].
  - intros [_ Hl]. lia.
  - intros [Hn _]. apply NoDup_app in Hn as (_ & Hn & _). apply (Hn own Ha). by left.
Qed.

(** A lookup that is relayed carries exactly the nodes it went through: it is
    forwarded through a chain of nodes exactly when the chain, with the hops the
    header already names, has no repeated node and at most three hops, and the
    header then lists the earlier hops followed by the chain. Whatever header
    arrives, a node that finds itself in it refuses, so no chain revisits a node. *)
Theorem federation_relay header nids :
  Forall clean_hop nids -> nids <> [] -> NoDup (ParseForwardedBy header) ->
  (forall next, relay header nids = Ok (next, true) ->
     ParseForwardedBy next = ParseForwardedBy header ++ nids) /\
  ((exists next, relay header nids = Ok (next, true)) <->
   NoDup (ParseForwardedBy header ++ nids) /\ (length (ParseForwardedBy header ++ nids) <= 3)%nat).
Proof.
  intros Hc Hne Hd. pose proof (relay_iff header nids Hc Hd) as H.
  destruct (relay header nids) as [[next [|]]|e]; split; try done.
  - intros n [= <-]. by destruct H.
  - destruct H as [_ [?|H]]; [done|]. split; [done|eauto].
  - split; [by intros [? ?]|done].
  - split; [by intros [? ?]|done].
Qed.

Example federation_relay_witness :
  exists next, relay "urn:a, urn:b" ["urn:c"] = Ok (next, true).
Proof.
  assert (Hc : Forall clean_hop ["urn:c"]) by (constructor; [split_and!; [done|reflexivity..]|constructor]).
  refine (proj2 (proj2 (federation_relay "urn:a, urn:b" ["urn:c"] Hc ltac:(done) ltac:(vm_compute; apply (bool_decide_eq_true_1 _); reflexivity))) _).
  split; [apply (bool_decide_eq_true_1 _); reflexivity|vm_compute; lia].
Defined.

(** ** Lemmas: the announce dict *)

Lemma assoc_get_keys {A} (g : string -> A) ks k :
  assoc_get k ((fun x => (x, g x)) <$> ks) = if decide (k ∈ ks) then Some (g k) else None.
Proof.
  induction ks as [|x ks IH]; csimpl; [by destruct (decide (k ∈ []))|].
  destruct (String.eqb_spec x k) as [->|Hne].
  - destruct (decide (k ∈ k :: ks)); [done|set_solver].
  - rewrite IH. destruct (decide (k ∈ ks)), (decide (k ∈ x :: ks)); set_solver.
Qed.

(** Sorting the members does not change what a key reads. *)
Lemma sortedDict_get d k : dict_get k (sortedDict d) = dict_get k d.
Proof.
  unfold sortedDict. rewrite assoc_get_keys. unfold dict_at.
  destruct (decide (k ∈ sort_strings d.*1)) as [Hin|Hout]; rewrite sort_strings_perm in *.
  - destruct (dict_get k d) eqn:E; [done|]. exfalso. revert E Hin. clear.
    induction d as [|[k' v] d IH]; csimpl; [set_solver|]. destruct (String.eqb_spec k' k); [done|]. set_solver.
  - by rewrite assoc_get_None.
Qed.

Lemma set_str_get k k' v d : k <> k' -> dict_get k' (set_str k v d) = dict_get k' d.
Proof. intros. unfold set_str. destruct (String.eqb v ""); [done|]. by apply assoc_get_set_ne. Qed.
Lemma set_list_get k k' l d : k <> k' -> dict_get k' (set_list k l d) = dict_get k' d.
Proof. intros. unfold set_list. destruct l; [done|]. by apply assoc_get_set_ne. Qed.
Lemma set_opt_get {A} k k' (inj : A -> any) o d : k <> k' -> dict_get k' (set_opt k inj o d) = dict_get k' d.
Proof. intros. unfold set_opt. destruct o; [|done]. by apply assoc_get_set_ne. Qed.

Definition optional_keys : list string :=
  ["node_type"; "node_roles"; "cluster_anchor"; "spawn_spec_ref"; "bridge_protocols";
   "bridge_inbound_protocols"; "activation_mode"; "activation_endpoint"; "cluster_epoch"; "graph_seq"].

Lemma announce_optional_get f d k :
  k ∉ optional_keys -> dict_get k (announce_optional f d) = dict_get k d.
Proof.
  intros Hk. unfold optional_keys in Hk. unfold announce_optional.
  by repeat first [rewrite set_opt_get by set_solver | rewrite set_list_get by set_solver
                  | rewrite set_str_get by set_solver].
Qed.

(** The members that are always written. *)
Lemma ToDict_get f k v :
  k ∉ optional_keys ++ ["signature"; "heartbeat_interval_ms"; "health"; "last_seen"] ->
  dict_get k [("nid", VString (NID f)); ("addresses", VMaps (Addresses f));
     ("capabilities", VStrings (Caps f)); ("ttl", VInt KUint64 (TTL f));
     ("timestamp", VString (Timestamp f));
     ("heartbeat_interval_ms", VInt KUint64 (HeartbeatIntervalMs f))] = Some v ->
  dict_get k (AnnounceFrame_ToDict f) = Some v.
Proof.
  intros Hk Hv. unfold AnnounceFrame_ToDict, UnsignedDict.
  rewrite !set_str_get, assoc_get_set_ne, announce_optional_get, assoc_get_set_ne, sortedDict_get,
    announce_optional_get by set_solver. done.
Qed.

(** A withdrawal is lost on the wire: a frame with ttl 0 that is sent and
    decoded by a peer has ttl 300, so the peer's registry keeps the node for
    another five minutes where the local registry drops it at once. *)
Theorem withdrawal_lost f d' r now :
  TTL f = 0 -> dict_tr (AnnounceFrame_ToDict f) d' ->
  TTL (AnnounceFrameFromDict d') = 300 /\ NID (AnnounceFrameFromDict d') = NID f /\
  GetByNID (Announce r now f) now (NID f) = None /\
  GetByNID (Announce r now (AnnounceFrameFromDict d')) now (NID f) = Some (AnnounceFrameFromDict d').
Proof.
  intros Ht Hd.
  assert (H300 : TTL (AnnounceFrameFromDict d') = 300).
  { simpl. pose proof (dict_tr_at "ttl" _ _ Hd) as Hv. unfold dict_at at 1 in Hv.
    rewrite (ToDict_get f "ttl" (VInt KUint64 0)) in Hv; [|vm_compute; set_solver|simpl; by rewrite Ht].
    simpl in Hv. inversion Hv as [v E1 E2|z Hz E1 E2|z Hz E1 E2|]; subst; reflexivity. }
  assert (Hn : NID (AnnounceFrameFromDict d') = NID f).
  { simpl. rewrite <- (str_tr _ _ Hd _ _ eq_refl). unfold str, dict_at.
    rewrite (ToDict_get f "nid" (VString (NID f))); [done|vm_compute; set_solver|done]. }
  split_and!; [done|done|..]; unfold GetByNID, Announce.
  - rewrite Ht. simpl. by rewrite lookup_delete_eq.
  - rewrite H300, Hn. simpl. rewrite lookup_insert_eq. cbn [re_expires re_frame].
    rewrite add_seconds_exact by (vm_compute; split; congruence || done).
    unfold after, second. by rewrite (proj2 (Z.ltb_lt _ _)) by lia.
Qed.

(** ** Witnesses *)

Definition sample_announce (nid : string) (ttl : Z) (epoch : option Z) : AnnounceFrame :=
  MkAnnounce nid [[("host", VString "10.1.2.3"); ("port", VInt KUint64 17433)]] ["nwp:query"] ttl
    "2026-01-01T00:00:00Z" "" None ["anchor"] "urn:nps:cluster:c" "" [] [] "" None 60000 epoch "" "" None.

Example withdrawal_lost_witness :
  let f := sample_announce "urn:nps:node:h:a" 0 None in
  TTL (AnnounceFrameFromDict (AnnounceFrame_ToDict f)) = 300.
Proof. exact (proj1 (withdrawal_lost (sample_announce "urn:nps:node:h:a" 0 None) _ ∅ 0 eq_refl (dict_tr_refl _))). Defined.

Example target_matches_iff_witness :
  NwpTargetMatchesNID (join ":" ["urn"; "nps"; "node"; "api.example.com"; "products"])
    "nwp://api.example.com/products-admin" <> true.
Proof.
  intros H.
  apply (target_matches_iff "api.example.com" ["products"]) in H as (_ & r & E & Hr);
    [|done|repeat constructor].
  vm_compute in E. injection E as E. destruct Hr as [->|[more ->]]; vm_compute in E; congruence.
Defined.

Definition sample_cluster : InMemoryNdpRegistry :=
  Announce (Announce ∅ 0 (sample_announce "urn:nps:node:h:a" 60 (Some 7))) 0
    (sample_announce "urn:nps:node:h:b" 60 None).

Example cluster_election_witness :
  ResolveCluster (sample_cluster, 5) "urn:nps:cluster:c" =
    Ok (Some (sample_announce "urn:nps:node:h:a" 60 (Some 7))).
Proof.
  apply (cluster_election (sample_cluster, 5) (sample_cluster, 5) "urn:nps:cluster:c"); [done|done|].
  exists [sample_announce "urn:nps:node:h:b" 60 None]. split; [|constructor; [vm_compute; done|constructor]].
  assert (E : cluster_members (sample_cluster, 5) "urn:nps:cluster:c" =
    [sample_announce "urn:nps:node:h:a" 60 (Some 7); sample_announce "urn:nps:node:h:b" 60 None] \/
    cluster_members (sample_cluster, 5) "urn:nps:cluster:c" =
    [sample_announce "urn:nps:node:h:b" 60 None; sample_announce "urn:nps:node:h:a" 60 (Some 7)])
    by (vm_compute; auto).
  destruct E as [-> | ->]; [done|apply Permutation_swap].
Defined.
