(* ===== verification/NdpProfile.v ===== *)
(** * NDP: the signed-announce registry profile

    ndp/registry_profile.go: the transport-independent registry state machine.
    [json.Marshal] is the class [GoJSON], SHA-256 in hexadecimal is the argument
    [sha256_hex] and [time.Parse(time.RFC3339, _)] the argument [time_Parse]
    (nanoseconds): every statement holds for all of them.  The signature is
    verified by the caller, which passes [signatureValid]. *)

From S2P Require Import Prelude GoValue CoreCodec NcpFrames NdpRegistry.

(** ** Decisions and state *)

Inductive NdpRegistryDecision : Set :=
| NdpAccepted | NdpDuplicate | NdpRefreshed | NdpRemoved | NdpRejected.

Record NdpRegistryAdmission : Type := MkAdmission { Decision_ : NdpRegistryDecision; ErrorCode : string }.

Record NdpClusterSelection : Type := MkSelection { sel_NID : string; sel_Epoch : Z; sel_ErrorCode : string }.

Record profileEntry : Type := MkProfileEntry { pe_frame : dict; signedDigest : string; expiresAt : Z }.

Record NdpRegistryProfile : Type := MkProfile {
  SecurityProfile : string; entries : gmap string profileEntry; sequences : gmap string Z
}.

Definition NewNdpRegistryProfile (securityProfile : string) : NdpRegistryProfile :=
  MkProfile (if String.eqb securityProfile "" then "local-dev" else securityProfile) ∅ ∅.

Definition ErrAnnounceSignatureInvalid : string := "NDP-ANNOUNCE-SIGNATURE-INVALID".
Definition ErrAnnounceProfileViolation : string := "NDP-ANNOUNCE-PROFILE-VIOLATION".
Definition ErrGraphSeqRollback : string := "NDP-GRAPH-SEQ-ROLLBACK".
Definition ErrAnnounceConflict : string := "NDP-ANNOUNCE-CONFLICT".
Definition ErrAnnounceStale : string := "NDP-ANNOUNCE-STALE".
Definition ErrClusterSplit : string := "NDP-CLUSTER-SPLIT".

Definition rejectAdmission (errorCode : string) : NdpRegistryAdmission := MkAdmission NdpRejected errorCode.

(** ** Reading a frame *)

(** [number >= 0 && !math.IsInf(number, 0) && math.Trunc(number) == number]. *)
Definition float_is_natural (f : float64) : bool :=
  match f with
  | S754_zero _ => true
  | S754_finite false m e => (0 <=? e) || (Zpos m mod 2 ^ (- e) =? 0)
  | _ => false
  end.

Definition uintValue (value : any) : Z * bool :=
  match value with
  | VInt KUint64 z => (z, true)
  | VInt KInt z | VInt KInt64 z => (u64 z, 0 <=? z)
  | VFloat64 f => (uint64_of_float f, float_is_natural f)
  | VNumber lit => let '(parsed, ok) := Number_Int64 lit in (u64 parsed, ok && (0 <=? parsed))
  | _ => (0, false)
  end.

Definition stringField (frame : dict) (field : string) : string :=
  default "" (as_string (dict_at frame field)).

Definition stringsField (frame : dict) (field : string) : list string :=
  default [] (as_string_slice (dict_at frame field)).

Fixpoint contains (values : list string) (wanted : string) : bool :=
  match values with
  | [] => false
  | v :: rest => if String.eqb v wanted then true else contains rest wanted
  end.

(** A nil member of an object is dropped, at every depth. *)
Fixpoint withoutNulls (value : any) : any :=
  match value with
  | VMap item =>
      VMap ((fix go (m : dict) : dict :=
               match m with
               | [] => []
               | (key, nested) :: r =>
                   match nested with
                   | VNil => go r
                   | _ => (key, withoutNulls nested) :: go r
                   end
               end) item)
  | VSlice item => VSlice (map withoutNulls item)
  | _ => value
  end.

Definition cloneMap (value : dict) : dict := default [] (as_map (withoutNulls (VMap value))).

Definition is_nil (v : any) : bool := match v with VNil => true | _ => false end.

(** The members that are signed. *)
Definition unsigned_key (key : string) : bool :=
  String.eqb key "frame" || String.eqb key "signature" || String.eqb key "health" || String.eqb key "last_seen".

Fixpoint signed_members (frame : dict) : dict :=
  match frame with
  | [] => []
  | (key, value) :: rest =>
      if unsigned_key key || is_nil value then signed_members rest
      else (key, withoutNulls value) :: signed_members rest
  end.

Definition signed_root (frame : dict) : dict :=
  let root := signed_members frame in
  match dict_get "heartbeat_interval_ms" root with
  | Some _ => root
  | None => dict_set "heartbeat_interval_ms" (VInt KInt 60000) root
  end.

Definition CanonicalAnnounceJSON `{GoJSON} (frame : dict) : go_result (list byte) :=
  json_Marshal (signed_root frame).

Definition isBridge (frame : dict) : bool :=
  contains (stringsField frame "node_roles") "bridge" || String.eqb (stringField frame "node_type") "bridge".

Definition blank (s : string) : bool := String.eqb (trim_space s) "".

(** (present, values, valid). *)
Definition protocolList (frame : dict) (field : string) : bool * list string * bool :=
  match dict_get field frame with
  | None => (false, [], true)
  | Some (VSlice values) =>
      match mapM (fun v => match v with
                           | VString text => if blank text then None else Some text
                           | _ => None
                           end) values with
      | Some result => (true, result, true)
      | None => (true, [], false)
      end
  | Some (VStrings typed) => if existsb blank typed then (true, [], false) else (true, typed, true)
  | Some _ => (true, [], false)
  end.

Definition bridgeShapeIsValid (frame : dict) : bool :=
  let '(outboundPresent, outbound, outboundValid) := protocolList frame "bridge_protocols" in
  let '(inboundPresent, inbound, inboundValid) := protocolList frame "bridge_inbound_protocols" in
  if negb outboundValid || negb inboundValid then false
  else if isBridge frame then (0 <? length outbound + length inbound)%nat
  else negb outboundPresent && negb inboundPresent.

Definition sameLiveness (old new : dict) : bool :=
  String.eqb (stringField old "health") (stringField new "health") &&
  String.eqb (stringField old "last_seen") (stringField new "last_seen").

(** [t.Sub(u)] saturates at the range of a Duration. *)
Definition time_Sub (t u : Z) : Z := Z.max (- 2 ^ 63) (Z.min (2 ^ 63 - 1) (t - u)).
(** [Duration.Abs]: the least Duration goes to the greatest. *)
Definition dur_Abs (d : Z) : Z := Z.min (2 ^ 63 - 1) (Z.abs d).

Section Profile.
Context `{GoJSON} (sha256_hex : list byte -> string) (time_Parse : string -> option Z).

Definition timeValue (frame : dict) (field : string) : option Z :=
  let value := stringField frame field in
  if String.eqb value "" then None else time_Parse value.

Definition freshnessDeadline (frame : dict) : option Z :=
  match (match timeValue frame "last_seen" with
         | Some t => Some t
         | None => timeValue frame "timestamp"
         end) with
  | None => None
  | Some source => Some (add_seconds source (uintValue (dict_at frame "ttl")).1)
  end.

(** The entry that a fresh announcement installs. *)
Definition fresh_entry (frame : dict) (digest : string) (receivedAt : Z) : option profileEntry :=
  match freshnessDeadline frame with
  | Some expires => if after expires receivedAt then Some (MkProfileEntry (cloneMap frame) digest expires)
                    else None
  | None => None
  end.

Definition put_entry (r : NdpRegistryProfile) (nid : string) (e : profileEntry) : NdpRegistryProfile :=
  MkProfile (SecurityProfile r) (<[nid := e]> (entries r)) (sequences r).
Definition drop_entry (r : NdpRegistryProfile) (nid : string) : NdpRegistryProfile :=
  MkProfile (SecurityProfile r) (delete nid (entries r)) (sequences r).
Definition put_sequence (r : NdpRegistryProfile) (nid : string) (s : Z) : NdpRegistryProfile :=
  MkProfile (SecurityProfile r) (entries r) (<[nid := s]> (sequences r)).

(** The part of [ApplyAnnounce] for a sequence the NID has not reached. *)
Definition apply_new (r : NdpRegistryProfile) (nid : string) (sequence ttl : Z) (frame : dict)
    (digest : string) (receivedAt : Z) : NdpRegistryProfile * NdpRegistryAdmission :=
  if ttl =? 0 then (drop_entry (put_sequence r nid sequence) nid, MkAdmission NdpRemoved "")
  else match fresh_entry frame digest receivedAt with
       | None => (r, rejectAdmission ErrAnnounceStale)
       | Some e => (put_entry (put_sequence r nid sequence) nid e, MkAdmission NdpAccepted "")
       end.

(** The part for the sequence the NID is at. *)
Definition apply_same (r : NdpRegistryProfile) (nid : string) (frame : dict)
    (digest : string) (receivedAt : Z) : NdpRegistryProfile * NdpRegistryAdmission :=
  match entries r !! nid with
  | None => (r, MkAdmission NdpDuplicate "")
  | Some current =>
      if negb (String.eqb (signedDigest current) digest) then (r, rejectAdmission ErrAnnounceConflict)
      else if sameLiveness (pe_frame current) frame then (r, MkAdmission NdpDuplicate "")
      else match fresh_entry frame digest receivedAt with
           | None => (r, rejectAdmission ErrAnnounceStale)
           | Some e => (put_entry r nid e, MkAdmission NdpRefreshed "")
           end
  end.

(** The checks before the state is read: the NID, the sequence, the ttl and the
    digest of an admissible frame, or the error. *)
Definition screen_announce (profile : string) (frame : dict) (signatureValid : bool) (receivedAt : Z) :
    result string (string * Z * Z * string) :=
  if negb signatureValid then Err ErrAnnounceSignatureInvalid
  else
    let nid := default "" (as_string (dict_at frame "nid")) in
    match timeValue frame "timestamp" with
    | None => Err ErrAnnounceProfileViolation
    | Some timestamp =>
        if String.eqb nid "" then Err ErrAnnounceProfileViolation
        else
          let sequencePresent := match dict_get "graph_seq" frame with Some _ => true | None => false end in
          let '(sequence, hasSequence) := uintValue (dict_at frame "graph_seq") in
          let '(ttl, hasTtl) := uintValue (dict_at frame "ttl") in
          if (sequencePresent && negb hasSequence) || (negb sequencePresent && negb (String.eqb profile "local-dev"))
             || negb hasTtl || (ttl >? 2 ^ 32 - 1) then Err ErrAnnounceProfileViolation
          else if negb (bridgeShapeIsValid frame) then Err ErrAnnounceProfileViolation
          else if negb (String.eqb profile "local-dev")
                  && (dur_Abs (time_Sub receivedAt timestamp) >? 5 * 60 * second) then Err ErrAnnounceSignatureInvalid
          else match CanonicalAnnounceJSON frame with
               | Err _ => Err ErrAnnounceProfileViolation
               | Ok canonical => Ok (nid, sequence, ttl, sha256_hex canonical)
               end
    end.

Definition ApplyAnnounce (r : NdpRegistryProfile) (frame : dict) (signatureValid : bool) (receivedAt : Z) :
    NdpRegistryProfile * NdpRegistryAdmission :=
  match screen_announce (SecurityProfile r) frame signatureValid receivedAt with
  | Err code => (r, rejectAdmission code)
  | Ok (nid, sequence, ttl, digest) =>
      match sequences r !! nid with
      | Some highest =>
          if sequence <? highest then (r, rejectAdmission ErrGraphSeqRollback)
          else if sequence =? highest then apply_same r nid frame digest receivedAt
          else apply_new r nid sequence ttl frame digest receivedAt
      | None => apply_new r nid sequence ttl frame digest receivedAt
      end
  end.

(** ** Queries *)

(** The live entries, in some order of the map. *)
Definition live_entries (r : NdpRegistryProfile) (now : Z) : list (string * profileEntry) :=
  List.filter (fun p => after (expiresAt p.2) now) (map_to_list (entries r)).

Definition LiveNIDs (r : NdpRegistryProfile) (now : Z) : list string :=
  sort_strings (live_entries r now).*1.

Definition HighestSequences (r : NdpRegistryProfile) : gmap string Z := sequences r.

Definition HasStaleEntry (r : NdpRegistryProfile) (now : Z) : bool :=
  existsb (fun p => negb (after (expiresAt p.2) now)) (map_to_list (entries r)).

Definition member_epoch (frame : dict) : Z :=
  let '(epoch, ok) := uintValue (dict_at frame "cluster_epoch") in if ok then epoch else 1.

Definition profile_members (r : NdpRegistryProfile) (clusterAnchor : string) (now : Z) : list (string * Z) :=
  omap (fun '(nid, entry) =>
    if negb (after (expiresAt entry) now)
       || negb (String.eqb (stringField (pe_frame entry) "cluster_anchor") clusterAnchor)
       || negb (contains (stringsField (pe_frame entry) "node_roles") "anchor")
    then None else Some (nid, member_epoch (pe_frame entry))) (map_to_list (entries r)).

Definition profile_ResolveCluster (r : NdpRegistryProfile) (clusterAnchor : string) (now : Z) : NdpClusterSelection :=
  match profile_members r clusterAnchor now with
  | [] => MkSelection "" 0 ""
  | members =>
      let top := fold_left (fun top c => if c.2 >? top then c.2 else top) members 0 in
      let leaders := sort_strings (List.filter (fun c => c.2 =? top) members).*1 in
      match leaders with
      | [nid] => MkSelection nid top ""
      | _ => MkSelection "" 0 ErrClusterSplit
      end
  end.

Definition DiscoverBridges (r : NdpRegistryProfile) (direction protocol : string) (now : Z) :
    go_result (list string) :=
  let discover field :=
    Ok (sort_strings (List.filter (fun p =>
      after (expiresAt p.2) now && negb (String.eqb (stringField (pe_frame p.2) "health") "draining")
      && isBridge (pe_frame p.2) && contains (stringsField (pe_frame p.2) field) protocol)
      (map_to_list (entries r))).*1) in
  if String.eqb direction "inbound" then discover "bridge_inbound_protocols"
  else if String.eqb direction "outbound" then discover "bridge_protocols"
  else Err (ErrPlain "bridge direction must be inbound or outbound").
End Profile.

(** ** Lemmas: null members *)

Lemma withoutNulls_map m : withoutNulls (VMap m) = VMap (cloneMap m).
Proof. done. Qed.

Lemma cloneMap_cons k v m :
  cloneMap ((k, v) :: m) = if is_nil v then cloneMap m else (k, withoutNulls v) :: cloneMap m.
Proof. by destruct v. Qed.

Lemma is_nil_withoutNulls v : is_nil (withoutNulls v) = is_nil v.
Proof. by destruct v. Qed.

Lemma withoutNulls_idem v : withoutNulls (withoutNulls v) = withoutNulls v.
Proof.
  induction v as [v Hs Hm|l IH|m IH] using any_nested_ind.
  - destruct v; try done; [by destruct (Hs l)|by destruct (Hm m)].
  - simpl. f_equal. rewrite map_map. induction IH as [|x l Hx _ IH]; simpl; [done|]. by rewrite Hx, IH.
  - rewrite !withoutNulls_map. f_equal. induction IH as [|[k x] m Hx _ IH]; [done|].
    rewrite cloneMap_cons. destruct (is_nil x) eqn:E; [done|].
    rewrite cloneMap_cons, is_nil_withoutNulls, E. simpl in Hx. by rewrite Hx, IH.
Qed.

(** Storing a frame without its nulls does not change what is signed. *)
Lemma signed_members_clone d : signed_members (cloneMap d) = signed_members d.
Proof.
  induction d as [|[k v] d IH]; [done|]. rewrite cloneMap_cons. cbn [signed_members].
  destruct (is_nil v) eqn:E; [by rewrite orb_true_r|]. cbn [signed_members].
  by rewrite is_nil_withoutNulls, E, IH, withoutNulls_idem.
Qed.

Lemma Canonical_clone `{GoJSON} d : CanonicalAnnounceJSON (cloneMap d) = CanonicalAnnounceJSON d.
Proof. unfold CanonicalAnnounceJSON, signed_root. by rewrite signed_members_clone. Qed.

Lemma cloneMap_get d k :
  NoDup d.*1 -> dict_at (cloneMap d) k = withoutNulls (dict_at d k).
Proof.
  unfold dict_at. induction d as [|[k' v] d IH]; [done|]. csimpl. intros [Hk Hd]%NoDup_cons.
  rewrite cloneMap_cons. destruct (is_nil v) eqn:E.
  - rewrite IH by done. destruct (String.eqb_spec k' k) as [->|]; [|done].
    rewrite assoc_get_None by done. by destruct v.
  - csimpl. destruct (String.eqb k' k); [done|]. by apply IH.
Qed.

Lemma stringField_clone d k : NoDup d.*1 -> stringField (cloneMap d) k = stringField d k.
Proof. intros. unfold stringField. rewrite cloneMap_get by done. by destruct (dict_at d k). Qed.

Lemma uintValue_clone d k : NoDup d.*1 -> uintValue (dict_at (cloneMap d) k) = uintValue (dict_at d k).
Proof. intros. rewrite cloneMap_get by done. by destruct (dict_at d k). Qed.

(** ** Lemmas: admission *)

(** A [uint64] value is in its range. *)
Definition uint_ok (v : any) : Prop := match v with VInt KUint64 z => 0 <= z < 2 ^ 64 | _ => True end.

Lemma uintValue_nonneg v : uint_ok v -> 0 <= (uintValue v).1.
Proof.
  assert (Hu : forall z, 0 <= u64 z) by (intros z; apply wrapu_range; lia).
  destruct v as [| | |[] z|f| |lit| | | | | |]; simpl; try done; intros; try apply Hu; try lia.
  - unfold uint64_of_float. repeat case_match; try apply Hu; lia.
  - destruct (Number_Int64 lit). apply Hu.
Qed.

Section ProfileLemmas.
Context `{GoJSON} (sha256_hex : list byte -> string) (time_Parse : string -> option Z).

Abbreviation screen := (screen_announce sha256_hex time_Parse).
Abbreviation apply := (ApplyAnnounce sha256_hex time_Parse).
Abbreviation fresh := (fresh_entry time_Parse).

Lemma freshnessDeadline_clone d :
  NoDup d.*1 -> freshnessDeadline time_Parse (cloneMap d) = freshnessDeadline time_Parse d.
Proof.
  intros Hd. unfold freshnessDeadline, timeValue. rewrite !stringField_clone by done.
  by rewrite uintValue_clone.
Qed.

(** What passes the screen. *)
Lemma screen_Ok profile frame sv t nid sequence ttl digest :
  screen profile frame sv t = Ok (nid, sequence, ttl, digest) ->
  sv = true /\ nid = stringField frame "nid" /\ nid <> "" /\
  sequence = (uintValue (dict_at frame "graph_seq")).1 /\ uintValue (dict_at frame "ttl") = (ttl, true) /\
  ttl <= 2 ^ 32 - 1 /\ bridgeShapeIsValid frame = true /\
  (exists ts, timeValue time_Parse frame "timestamp" = Some ts /\
     (profile <> "local-dev" -> Z.abs (t - ts) <= 5 * 60 * second)) /\
  (exists c, CanonicalAnnounceJSON frame = Ok c /\ digest = sha256_hex c).
Proof.
  unfold screen_announce. destruct sv; [|done]. simpl. fold (stringField frame "nid").
  destruct (timeValue time_Parse frame "timestamp") as [ts|] eqn:Ets; [|done].
  destruct (String.eqb_spec (stringField frame "nid") "") as [|Hnid]; [done|].
  destruct (uintValue (dict_at frame "graph_seq")) as [sq hs] eqn:Es.
  destruct (uintValue (dict_at frame "ttl")) as [tt ht] eqn:Et.
  match goal with |- context [if ?b then _ else _] => destruct b eqn:E1; [done|] end.
  destruct (bridgeShapeIsValid frame) eqn:Eb; [|done]. simpl.
  match goal with |- context [if ?b then _ else _] => destruct b eqn:E2; [done|] end.
  destruct (CanonicalAnnounceJSON frame) as [c|] eqn:Ec; [|done]. intros [= <- <- <- <-].
  apply orb_false_iff in E1 as [[_ Hht%negb_false_iff]%orb_false_iff Htt]. subst ht.
  assert (tt <= 2 ^ 32 - 1) by (rewrite Z.gtb_ltb in Htt; by apply Z.ltb_ge in Htt).
  split_and!; try done; [|by exists c]. exists ts. split; [done|]. intros Hp.
  apply String.eqb_neq in Hp. rewrite Hp in E2. cbn [negb andb] in E2.
  rewrite Z.gtb_ltb in E2. apply Z.ltb_ge in E2. unfold dur_Abs, time_Sub, second in *. lia.
Qed.

Lemma fresh_entry_Some frame digest t e :
  fresh frame digest t = Some e ->
  exists expires, freshnessDeadline time_Parse frame = Some expires /\ t < expires /\
    e = MkProfileEntry (cloneMap frame) digest expires.
Proof.
  unfold fresh_entry, after. destruct (freshnessDeadline time_Parse frame) as [x|]; [|done].
  destruct (t <? x) eqn:E; [|done]. intros [= <-]. bool_hyps. eauto.
Qed.

(** The effect of a step, by its decision. *)
Inductive effect (r : NdpRegistryProfile) (frame : dict) (t : Z) : NdpRegistryProfile -> NdpRegistryDecision -> Prop :=
| eff_none d : d = NdpRejected \/ d = NdpDuplicate -> effect r frame t r d
| eff_accept nid s ttl digest e :
    screen (SecurityProfile r) frame true t = Ok (nid, s, ttl, digest) -> ttl <> 0 ->
    (forall h, sequences r !! nid = Some h -> h < s) -> fresh frame digest t = Some e ->
    effect r frame t (put_entry (put_sequence r nid s) nid e) NdpAccepted
| eff_remove nid s digest :
    screen (SecurityProfile r) frame true t = Ok (nid, s, 0, digest) ->
    (forall h, sequences r !! nid = Some h -> h < s) ->
    effect r frame t (drop_entry (put_sequence r nid s) nid) NdpRemoved
| eff_refresh nid s ttl digest old e :
    screen (SecurityProfile r) frame true t = Ok (nid, s, ttl, digest) ->
    sequences r !! nid = Some s -> entries r !! nid = Some old -> signedDigest old = digest ->
    sameLiveness (pe_frame old) frame = false -> fresh frame digest t = Some e ->
    effect r frame t (put_entry r nid e) NdpRefreshed.

(** Only a rejection carries an error code. *)
Definition coded (a : NdpRegistryAdmission) : Prop := ErrorCode a = "" <-> Decision_ a <> NdpRejected.

Lemma reject_coded code : code <> "" -> coded (rejectAdmission code).
Proof. intros Hc. split; [done|by intros []]. Qed.

Lemma screen_Err_coded profile frame sv t code : screen profile frame sv t = Err code -> code <> "".
Proof. unfold screen_announce. repeat case_match; try done; by intros [= <-]. Qed.

Lemma screen_sig profile frame sv t x : screen profile frame sv t = Ok x -> sv = true.
Proof. unfold screen_announce. by destruct sv. Qed.

Lemma apply_new_effect r nid s ttl frame digest t :
  screen (SecurityProfile r) frame true t = Ok (nid, s, ttl, digest) ->
  (forall h, sequences r !! nid = Some h -> h < s) ->
  effect r frame t (apply_new time_Parse r nid s ttl frame digest t).1
    (Decision_ (apply_new time_Parse r nid s ttl frame digest t).2) /\
  coded (apply_new time_Parse r nid s ttl frame digest t).2.
Proof.
  intros Hs Hh. unfold apply_new. destruct (Z.eqb_spec ttl 0) as [->|Ht].
  { split; [by eapply eff_remove|done]. }
  destruct (fresh frame digest t) eqn:E; simpl.
  - split; [by eapply eff_accept|done].
  - split; [apply eff_none; by left|by apply reject_coded].
Qed.

Lemma apply_same_effect r nid s ttl frame digest t :
  screen (SecurityProfile r) frame true t = Ok (nid, s, ttl, digest) -> sequences r !! nid = Some s ->
  effect r frame t (apply_same time_Parse r nid frame digest t).1
    (Decision_ (apply_same time_Parse r nid frame digest t).2) /\
  coded (apply_same time_Parse r nid frame digest t).2.
Proof.
  intros Hs Hq. unfold apply_same. destruct (entries r !! nid) as [old|] eqn:Eo.
  2:{ split; [apply eff_none; by right|done]. }
  destruct (String.eqb_spec (signedDigest old) digest) as [Hd|]; cbn [negb].
  2:{ split; [apply eff_none; by left|by apply reject_coded]. }
  destruct (sameLiveness (pe_frame old) frame) eqn:El.
  { split; [apply eff_none; by right|done]. }
  destruct (fresh frame digest t) eqn:E; simpl.
  - split; [by eapply eff_refresh|done].
  - split; [apply eff_none; by left|by apply reject_coded].
Qed.

Lemma apply_effect r frame sv t :
  effect r frame t (apply r frame sv t).1 (Decision_ (apply r frame sv t).2) /\ coded (apply r frame sv t).2.
Proof.
  unfold ApplyAnnounce. destruct (screen (SecurityProfile r) frame sv t) as [[[[nid s] ttl] digest]|code] eqn:Es.
  2:{ split; [apply eff_none; by left|]. apply reject_coded. by eapply screen_Err_coded. }
  pose proof (screen_sig _ _ _ _ _ Es) as ->. destruct (sequences r !! nid) as [h|] eqn:Eh.
  - destruct (s <? h) eqn:E1; [split; [apply eff_none; by left|by apply reject_coded]|].
    destruct (Z.eqb_spec s h) as [->|Hne]; [by eapply apply_same_effect|].
    apply apply_new_effect; [done|]. intros h' Hh'. rewrite Eh in Hh'. injection Hh' as <-. bool_hyps. lia.
  - apply apply_new_effect; [done|]. congruence.
Qed.

(** *** Histories *)

(** Announcements with the verdict on their signature and the time they arrived. *)
Definition run (r : NdpRegistryProfile) (h : list (dict * bool * Z)) : NdpRegistryProfile :=
  fold_left (fun r '(frame, sv, t) => (apply r frame sv t).1) h r.

(** The order on the state of one NID: the sequence does not go back, and at the
    same sequence the node stays removed or keeps the body it was signed with. *)
Definition nid_le (nid : string) (r r' : NdpRegistryProfile) : Prop :=
  match sequences r !! nid, sequences r' !! nid with
  | None, None => entries r' !! nid = entries r !! nid
  | None, Some _ => True
  | Some _, None => False
  | Some s, Some s' =>
      s < s' \/ s = s' /\ signedDigest <$> entries r' !! nid = signedDigest <$> entries r !! nid
  end.

Lemma nid_le_refl nid r : nid_le nid r r.
Proof. unfold nid_le. destruct (sequences r !! nid); [by right|done]. Qed.

Lemma nid_le_trans nid r1 r2 r3 : nid_le nid r1 r2 -> nid_le nid r2 r3 -> nid_le nid r1 r3.
Proof.
  unfold nid_le. destruct (sequences r1 !! nid), (sequences r2 !! nid), (sequences r3 !! nid); try done.
  - intros [?|[-> E]] [?|[-> E']]; [left; lia|left; lia|left; lia|right; split; [done|congruence]].
  - intros; congruence.
Qed.

Lemma nid_le_raise nid n s r r' :
  (forall h, sequences r !! n = Some h -> h < s) -> sequences r' = <[n := s]> (sequences r) ->
  (nid <> n -> entries r' !! nid = entries r !! nid) -> nid_le nid r r'.
Proof.
  intros Hh Hs He. unfold nid_le. rewrite Hs. destruct (decide (nid = n)) as [->|Hne].
  - rewrite lookup_insert_eq. destruct (sequences r !! n) as [h|]; [|done]. left. by apply Hh.
  - rewrite lookup_insert_ne by done. rewrite He by done. destruct (sequences r !! nid); [by right|done].
Qed.

Lemma effect_nid_le nid r frame t r' d : effect r frame t r' d -> nid_le nid r r'.
Proof.
  destruct 1 as [d Hd|n s ttl digest e Hs Ht Hh He|n s digest Hs Hh|n s ttl digest old e Hs Hq Ho Hd Hl He].
  - apply nid_le_refl.
  - eapply nid_le_raise; [exact Hh|done|]. intros Hne. simpl. by rewrite lookup_insert_ne.
  - eapply nid_le_raise; [exact Hh|done|]. intros Hne. simpl. by rewrite lookup_delete_ne.
  - unfold nid_le. simpl. apply fresh_entry_Some in He as (x & _ & _ & ->).
    destruct (decide (nid = n)) as [->|Hne].
    + rewrite Hq, lookup_insert_eq, Ho. right. split; [done|]. simpl. by rewrite Hd.
    + rewrite lookup_insert_ne by done. destruct (sequences r !! nid); [by right|done].
Qed.

Lemma run_nid_le nid h r : nid_le nid r (run r h).
Proof.
  revert r; induction h as [|[[f sv] t] h IH]; intros r; [apply nid_le_refl|].
  eapply nid_le_trans; [|apply IH]. eapply effect_nid_le, apply_effect.
Qed.

(** *** The invariant *)

(** An entry answers for the NID and the sequence it is stored under, carries the
    digest of its own signed body, and expires at the deadline of its own frame,
    which lies whole seconds after a time the frame states. *)
Definition entry_wf (r : NdpRegistryProfile) (nid : string) (e : profileEntry) : Prop :=
  nid <> "" /\ stringField (pe_frame e) "nid" = nid /\
  sequences r !! nid = Some (uintValue (dict_at (pe_frame e) "graph_seq")).1 /\
  (exists c, CanonicalAnnounceJSON (pe_frame e) = Ok c /\ signedDigest e = sha256_hex c) /\
  (exists src, (timeValue time_Parse (pe_frame e) "last_seen" = Some src \/
                timeValue time_Parse (pe_frame e) "timestamp" = Some src) /\
     expiresAt e = src + (uintValue (dict_at (pe_frame e) "ttl")).1 * second /\ src <= expiresAt e).

Definition profile_wf (r : NdpRegistryProfile) : Prop := map_Forall (entry_wf r) (entries r).

(** A frame as a Go map holds it. *)
Definition frame_ok (frame : dict) : Prop := NoDup frame.*1 /\ uint_ok (dict_at frame "ttl").

Lemma fresh_wf r' profile frame t nid s ttl digest e :
  frame_ok frame -> screen profile frame true t = Ok (nid, s, ttl, digest) ->
  fresh frame digest t = Some e -> sequences r' !! nid = Some s -> entry_wf r' nid e.
Proof.
  intros [Hnd Hu] Hs He Hq. apply fresh_entry_Some in He as (x & Hx & _ & ->).
  apply screen_Ok in Hs as (_ & -> & Hne & -> & Et & Hle & _ & _ & c & Hc & ->).
  unfold entry_wf. cbn [pe_frame signedDigest expiresAt]. unfold timeValue.
  rewrite !stringField_clone, !uintValue_clone, Canonical_clone by done.
  split_and!; [done|done|done|by exists c|].
  pose proof (uintValue_nonneg _ Hu) as Hn. rewrite Et in Hn |- *. simpl in Hn |- *.
  unfold freshnessDeadline, timeValue in Hx. rewrite Et in Hx. cbn [fst] in Hx.
  assert (Ha : forall src, add_seconds src ttl = src + ttl * second)
    by (intros; apply add_seconds_exact; unfold max_seconds; lia).
  destruct (if String.eqb (stringField frame "last_seen") "" then None else _) as [src|] eqn:E1.
  - injection Hx as <-. exists src. rewrite Ha. split_and!; [by left|done|unfold second; lia].
  - destruct (if String.eqb (stringField frame "timestamp") "" then None else _) as [src|] eqn:E2; [|done].
    injection Hx as <-. exists src. rewrite Ha. split_and!; [by right|done|unfold second; lia].
Qed.

Lemma entry_wf_seq r r' nid e :
  sequences r' !! nid = sequences r !! nid -> entry_wf r nid e -> entry_wf r' nid e.
Proof. unfold entry_wf. by intros ->. Qed.

Lemma effect_wf r frame t r' d : frame_ok frame -> effect r frame t r' d -> profile_wf r -> profile_wf r'.
Proof.
  intros Hf. destruct 1 as [d Hd|n s ttl digest e Hs Ht Hh He|n s digest Hs Hh|n s ttl digest old e Hs Hq Ho Hd Hl He];
    intros Hw; [done|..].
  - intros nid e' Hl. simpl in Hl. apply lookup_insert_Some in Hl as [[<- <-]|[Hne Hl]].
    + eapply fresh_wf; [done..|]. simpl. by rewrite lookup_insert_eq.
    + eapply entry_wf_seq; [|by apply Hw]. simpl. by rewrite lookup_insert_ne.
  - intros nid e' Hl. simpl in Hl. apply lookup_delete_Some in Hl as [Hne Hl].
    eapply entry_wf_seq; [|by apply Hw]. simpl. by rewrite lookup_insert_ne.
  - intros nid e' Hl'. simpl in Hl'. apply lookup_insert_Some in Hl' as [[<- <-]|[Hne Hl']].
    + by eapply fresh_wf.
    + by eapply entry_wf_seq, Hw.
Qed.

Lemma run_wf h r : Forall (fun ev => frame_ok ev.1.1) h -> profile_wf r -> profile_wf (run r h).
Proof.
  intros Hh. revert r. induction Hh as [|[[f sv] t] h Hf _ IH]; intros r Hw; [done|]. apply IH.
  eapply effect_wf; [exact Hf|apply apply_effect|done].
Qed.

(** *** Queries *)

Lemma LiveNIDs_elem r now nid :
  nid ∈ LiveNIDs r now <-> exists e, entries r !! nid = Some e /\ now < expiresAt e.
Proof.
  unfold LiveNIDs. rewrite sort_strings_perm, list_elem_of_fmap. unfold live_entries, after. split.
  - intros ([n e] & -> & Hin). apply list_elem_of_In, filter_In in Hin as [Hin Ha].
    apply list_elem_of_In, elem_of_map_to_list in Hin. simpl in *. bool_hyps. eauto.
  - intros (e & He & Ha). exists (nid, e). split; [done|]. apply list_elem_of_In, filter_In.
    split; [by apply list_elem_of_In, elem_of_map_to_list|]. simpl. by apply Z.ltb_lt.
Qed.

(** ** Properties *)

(** Replayed, reordered or forged announcements cannot roll a node back:
    over any history, from any state, the sequence of a NID never decreases and a
    NID is never forgotten; as long as its sequence has not risen, a removed node
    stays removed and a present one keeps the digest of the body it was accepted
    with. An announcement whose signature did not verify changes nothing. *)
Theorem profile_no_rollback r h nid :
  nid_le nid r (run r h) /\ forall frame t, (apply r frame false t).1 = r.
Proof. split; [apply run_nid_le|done]. Qed.

(** C17. From an empty registry, every entry that any history leaves behind is
    faithful to its frame: stored under the frame's NID and sequence, with the
    digest of the frame's signed body although nulls were stripped from it, and
    expiring exactly ttl seconds after the time the frame states, without
    overflow. *)
Theorem profile_invariant profile h :
  Forall (fun ev => frame_ok ev.1.1) h -> profile_wf (run (NewNdpRegistryProfile profile) h).
Proof. intros Hh. apply run_wf; [done|]. apply map_Forall_empty. Qed.

(** The answer of ApplyAnnounce tells what happened: rejections and
    duplicates leave the registry as it was and only rejections carry an error
    code; an accepted or refreshed node is live at the time of receipt, a removed
    one is in the registry at no time; no other NID is touched; and outside
    local-dev nothing is admitted whose timestamp is more than five minutes from
    the time of receipt. *)
Theorem profile_admission r frame sv t :
  let r' := (apply r frame sv t).1 in
  let a := (apply r frame sv t).2 in
  let nid := stringField frame "nid" in
  (Decision_ a = NdpRejected \/ Decision_ a = NdpDuplicate -> r' = r) /\
  (ErrorCode a = "" <-> Decision_ a <> NdpRejected) /\
  (Decision_ a = NdpAccepted \/ Decision_ a = NdpRefreshed -> nid ∈ LiveNIDs r' t) /\
  (Decision_ a = NdpRemoved -> forall now, nid ∉ LiveNIDs r' now) /\
  (forall other, other <> nid ->
     entries r' !! other = entries r !! other /\ sequences r' !! other = sequences r !! other) /\
  (SecurityProfile r <> "local-dev" -> r' <> r ->
     exists ts, timeValue time_Parse frame "timestamp" = Some ts /\ Z.abs (t - ts) <= 5 * 60 * second).
Proof.
  destruct (apply_effect r frame sv t) as [He Hc]. cbv zeta.
  split_and!; [| exact Hc | | | |]; clear Hc;
    destruct He as [d Hd|n s ttl digest e Hs Ht Hh He|n s digest Hs Hh|n s ttl digest old e Hs Hq Ho Hd Hl He];
    simpl; try (apply screen_Ok in Hs as (_ & -> & _ & _ & _ & _ & _ & Hts & _)); try done;
    try (by intros [?|?]); try (by intros [? | ?]; destruct Hd; congruence).
  - intros _. apply fresh_entry_Some in He as (x & _ & Hx & ->). apply LiveNIDs_elem. eexists. split; [apply lookup_insert_eq|done].
  - intros _. apply fresh_entry_Some in He as (x & _ & Hx & ->). apply LiveNIDs_elem. eexists. split; [apply lookup_insert_eq|done].
  - intros E. by destruct Hd; congruence.
  - intros _ now (e & He & _)%LiveNIDs_elem. simpl in He. by rewrite lookup_delete_eq in He.
  - intros o Ho. by rewrite !lookup_insert_ne by done.
  - intros o Ho. by rewrite lookup_insert_ne, lookup_delete_ne by done.
  - intros o Ho'. by rewrite lookup_insert_ne by done.
  - intros Hp _. destruct Hts as (ts & ? & Hb). exists ts. auto.
  - intros Hp _. destruct Hts as (ts & ? & Hb). exists ts. auto.
  - intros Hp _. destruct Hts as (ts & ? & Hb). exists ts. auto.
Qed.
End ProfileLemmas.

(** ** Lemmas: the election *)

Definition top_of (members : list (string * Z)) : Z :=
  fold_left (fun top c => if c.2 >? top then c.2 else top) members 0.

Lemma top_of_spec members :
  Forall (fun m => 0 <= m.2) members -> members <> [] ->
  Forall (fun m => m.2 <= top_of members) members /\ Exists (fun m => m.2 = top_of members) members.
Proof.
  unfold top_of. assert (Hg : forall l a, a <= fold_left (fun top (c : string * Z) => if c.2 >? top then c.2 else top) l a /\
    Forall (fun m => m.2 <= fold_left (fun top (c : string * Z) => if c.2 >? top then c.2 else top) l a) l /\
    (fold_left (fun top (c : string * Z) => if c.2 >? top then c.2 else top) l a = a \/
     Exists (fun m => m.2 = fold_left (fun top (c : string * Z) => if c.2 >? top then c.2 else top) l a) l)).
  { induction l as [|m l IH]; intros a; cbn [fold_left]; [split_and!; [lia|constructor|by left]|].
    destruct (IH (if m.2 >? a then m.2 else a)) as (H1 & H2 & H3). rewrite Z.gtb_ltb in *.
    destruct (a <? m.2) eqn:E; bool_hyps; (split_and!; [lia|constructor; [lia|done]|]);
      destruct H3 as [H3|H3]; try (right; by right); [right; left; by rewrite H3|by left]. }
  intros Hn Hne. destruct (Hg members 0) as (H1 & H2 & H3). split; [done|].
  destruct H3 as [H3|H3]; [|done]. destruct members as [|m members]; [done|]. left.
  apply Forall_cons in H2 as [H2 _], Hn as [Hn _]. cbv beta in *. lia.
Qed.

Lemma profile_members_nodup r anchor now : NoDup (profile_members r anchor now).*1.
Proof.
  unfold profile_members. eapply (sublist_NoDup _ (map_to_list (entries r)).*1); [apply NoDup_fst_map_to_list|].
  induction (map_to_list (entries r)) as [|[n e] l IH]; csimpl; [done|].
  destruct (_ || _); csimpl; [by apply sublist_cons|by apply sublist_skip].
Qed.

(** [n] has the highest epoch, alone. *)
Definition elected (members : list (string * Z)) (n : string) (e : Z) : Prop :=
  (n, e) ∈ members /\ forall n' e', (n', e') ∈ members -> n' <> n -> e' < e.

Lemma nodup_fst_inj (l : list (string * Z)) n e e' : NoDup l.*1 -> (n, e) ∈ l -> (n, e') ∈ l -> e = e'.
Proof.
  induction l as [|[k v] l IH]; csimpl; [by intros _ ?%elem_of_nil|]. intros [Hk Hd]%NoDup_cons.
  assert (Hin : forall x, (k, x) ∈ l -> False) by (intros x Hx; apply Hk, list_elem_of_fmap; by exists (k, x)).
  intros [[= -> ->]|H1]%elem_of_cons [[= ->]|H2]%elem_of_cons; subst; try done; try (by apply Hin in H1);
    try (by apply Hin in H2). by apply IH.
Qed.

(** The leaders, by cases. *)
Lemma leaders_cases members :
  Forall (fun m => 0 <= m.2) members -> NoDup members.*1 -> members <> [] ->
  let L := List.filter (fun c => c.2 =? top_of members) members in
  (exists n, L = [(n, top_of members)] /\ elected members n (top_of members)) \/
  ((2 <= length L)%nat /\ forall n e, ~ elected members n e).
Proof.
  intros Hn Hd Hne L. destruct (top_of_spec members Hn Hne) as [Hle Hex].
  assert (HL : forall m, m ∈ L <-> m ∈ members /\ m.2 = top_of members).
  { intros m. unfold L. by rewrite !list_elem_of_In, filter_In, Z.eqb_eq. }
  assert (HdL : NoDup L.*1).
  { unfold L. eapply sublist_NoDup; [exact Hd|]. apply fmap_sublist. generalize (top_of members). clear. intros top.
    induction members as [|m l IH]; csimpl; [done|]. destruct (_ =? _); [by apply sublist_skip|by apply sublist_cons]. }
  rewrite Forall_forall in Hle. apply Exists_exists in Hex as (m & Hm & Ht).
  assert (m ∈ L) as HmL by (by apply HL). destruct L as [|[n e] [|[n2 e2] rest]]; [by apply elem_of_nil in HmL|..].
  - left. exists n. destruct (HL (n, e)) as [HL1 _]. destruct HL1 as [Hin He]; [by left|]. simpl in He. subst e.
    split; [done|]. split; [done|]. intros n' e' Hin' Hne'. pose proof (Hle _ Hin') as Hx. simpl in Hx.
    destruct (decide (e' = top_of members)) as [->|]; [|lia].
    assert ((n', top_of members) ∈ [(n, top_of members)]) as Hc by (by apply HL).
    apply list_elem_of_singleton in Hc. congruence.
  - right. split; [simpl; lia|]. intros k ek [Hk Hlow]. csimpl in HdL. apply NoDup_cons in HdL as [Hn12 _].
    destruct (HL (n, e)) as [[Hi1 He1] _]; [by left|]. destruct (HL (n2, e2)) as [[Hi2 He2] _]; [right; by left|].
    simpl in *. subst. pose proof (Hle _ Hk) as Hx. simpl in Hx. destruct (decide (n = k)) as [->|Hnk].
    + assert (n2 <> k) as Hn2 by set_solver. pose proof (Hlow _ _ Hi2 Hn2). lia.
    + pose proof (Hlow _ _ Hi1 Hnk). lia.
Qed.

(** Cluster selection over the announced frames is a strict election: with
    live anchors in the cluster the answer is the one node whose epoch is higher
    than that of every other live anchor of the cluster, and the split error
    exactly when there is no such node; with none, the empty selection. Expired
    entries and nodes that are not anchors take no part. *)
Theorem profile_election r anchor now :
  let members := profile_members r anchor now in
  Forall (fun m => 0 <= m.2) members ->
  (members = [] -> profile_ResolveCluster r anchor now = MkSelection "" 0 "") /\
  (members <> [] -> forall n e,
     profile_ResolveCluster r anchor now = MkSelection n e "" <-> elected members n e) /\
  (members <> [] -> (forall n e, ~ elected members n e) ->
     profile_ResolveCluster r anchor now = MkSelection "" 0 ErrClusterSplit).
Proof.
  cbv zeta. intros Hn. pose proof (profile_members_nodup r anchor now) as Hd. unfold profile_ResolveCluster.
  destruct (profile_members r anchor now) as [|m0 rest] eqn:Em; [done|]. rewrite <- Em in *. fold (top_of (profile_members r anchor now)).
  assert (Hne : profile_members r anchor now <> []) by (by rewrite Em).
  destruct (leaders_cases _ Hn Hd Hne) as [(n & EL & Hel)|[HL Hno]].
  - rewrite EL. csimpl. split_and!; [done| |by intros _ Hx; apply Hx in Hel].
    intros _ n' e'. split; [by intros [= <- <-]|]. intros [Hin' Hlow'].
    destruct Hel as [Hin Hlow]. destruct (decide (n' = n)) as [->|Hnn].
    + by rewrite (nodup_fst_inj _ _ _ _ Hd Hin Hin').
    + pose proof (Hlow _ _ Hin' Hnn). assert (n <> n') as Hnn' by congruence.
      pose proof (Hlow' _ _ Hin Hnn'). lia.
  - set (L := List.filter _ _) in *.
    assert (Hls : (2 <= length (sort_strings L.*1))%nat) by (rewrite sort_strings_perm, length_fmap; done).
    destruct (sort_strings L.*1) as [|x [|y l]]; [simpl in Hls; lia..|]. split_and!; [done| |done].
    intros _ n e. split; [done|]. by intros ?%Hno.
Qed.

Lemma contains_true l w : contains l w = true <-> w ∈ l.
Proof.
  induction l as [|v l IH]; simpl; [split; [done|by intros ?%elem_of_nil]|].
  rewrite elem_of_cons. destruct (String.eqb_spec v w) as [->|Hne]; [naive_solver|]. rewrite IH. naive_solver.
Qed.

(** The discovery queries answer in sorted order with exactly the live
    nodes: DiscoverBridges lists the unexpired, not draining bridges that announce
    the protocol in the asked direction and refuses any other direction, LiveNIDs
    lists the unexpired nodes, and HasStaleEntry tells whether some entry is
    expired. *)
Theorem profile_queries r direction protocol now :
  (Sorted String.le (LiveNIDs r now) /\
   forall nid, nid ∈ LiveNIDs r now <-> exists e, entries r !! nid = Some e /\ now < expiresAt e) /\
  (HasStaleEntry r now = true <-> exists nid e, entries r !! nid = Some e /\ expiresAt e <= now) /\
  match DiscoverBridges r direction protocol now with
  | Err _ => direction <> "inbound" /\ direction <> "outbound"
  | Ok l => Sorted String.le l /\ (direction = "inbound" \/ direction = "outbound") /\
      forall nid, nid ∈ l <-> exists e, entries r !! nid = Some e /\ now < expiresAt e /\
        stringField (pe_frame e) "health" <> "draining" /\ isBridge (pe_frame e) = true /\
        protocol ∈ stringsField (pe_frame e)
          (if String.eqb direction "inbound" then "bridge_inbound_protocols" else "bridge_protocols")
  end.
Proof.
  split_and!; [apply sort_strings_sorted|intros nid; apply LiveNIDs_elem|..].
  - unfold HasStaleEntry. rewrite existsb_exists. split.
    + intros ([nid e] & Hin%list_elem_of_In%elem_of_map_to_list & Ha%negb_true_iff). simpl in Ha.
      unfold after in Ha. bool_hyps. eauto.
    + intros (nid & e & He & Ha). exists (nid, e). split; [by apply list_elem_of_In, elem_of_map_to_list|].
      unfold after. simpl. by apply negb_true_iff, Z.ltb_ge.
  - assert (Hd : forall field nid, nid ∈ sort_strings (List.filter (fun p : string * profileEntry =>
        after (expiresAt p.2) now && negb (String.eqb (stringField (pe_frame p.2) "health") "draining")
        && isBridge (pe_frame p.2) && contains (stringsField (pe_frame p.2) field) protocol)
        (map_to_list (entries r))).*1 <-> exists e, entries r !! nid = Some e /\ now < expiresAt e /\
        stringField (pe_frame e) "health" <> "draining" /\ isBridge (pe_frame e) = true /\
        protocol ∈ stringsField (pe_frame e) field).
    { intros field nid. rewrite sort_strings_perm, list_elem_of_fmap. split.
      - intros ([n e] & -> & Hin). apply list_elem_of_In, filter_In in Hin as [Hin Hp].
        apply list_elem_of_In, elem_of_map_to_list in Hin. simpl in Hp.
        rewrite !andb_true_iff, contains_true, negb_true_iff, String.eqb_neq in Hp. unfold after in Hp.
        destruct Hp as (((Ha & ?) & ?) & ?). apply Z.ltb_lt in Ha. exists e. auto.
      - intros (e & He & Ha & Hh & Hb & Hp). exists (nid, e). split; [done|]. apply list_elem_of_In, filter_In.
        split; [by apply list_elem_of_In, elem_of_map_to_list|]. simpl.
        rewrite !andb_true_iff, contains_true, negb_true_iff, String.eqb_neq. unfold after. rewrite Z.ltb_lt. done. }
    unfold DiscoverBridges.
    destruct (String.eqb_spec direction "inbound") as [->|Hi]; [split_and!; [apply sort_strings_sorted|by left|apply Hd]|].
    destruct (String.eqb_spec direction "outbound") as [->|Ho]; [split_and!; [apply sort_strings_sorted|by right|apply Hd]|done].
Qed.

(** ** Witnesses *)

Definition sample_frame : dict :=
  [("nid", VString "urn:nps:node:h:a"); ("timestamp", VString "t"); ("ttl", VInt KUint64 60);
   ("graph_seq", VInt KUint64 4); ("note", VNil); ("node_roles", VSlice [VString "anchor"]);
   ("cluster_anchor", VString "c"); ("cluster_epoch", VInt KUint64 2)].
Definition sample_profile_json : GoJSON := one_dict_json (bytes_of_string "{}") [].
Definition sample_profile : NdpRegistryProfile :=
  run (H := sample_profile_json) string_of_bytes (fun _ => Some 1000) (NewNdpRegistryProfile "prod") [(sample_frame, true, 2000)].

Example sample_profile_live : LiveNIDs sample_profile 2000 = ["urn:nps:node:h:a"].
Proof. vm_compute. reflexivity. Qed.

Example profile_invariant_witness :
  profile_wf (H := sample_profile_json) string_of_bytes (fun _ => Some 1000) sample_profile.
Proof.
  apply (profile_invariant (H := sample_profile_json) string_of_bytes (fun _ => Some 1000) "prod").
  constructor; [|constructor]. split; [apply (bool_decide_eq_true_1 _); reflexivity|vm_compute; done].
Defined.

Example profile_election_witness :
  profile_ResolveCluster sample_profile "c" 2000 = MkSelection "urn:nps:node:h:a" 2 "".
Proof.
  assert (Em : profile_members sample_profile "c" 2000 = [("urn:nps:node:h:a", 2)]) by (vm_compute; reflexivity).
  assert (Hn : Forall (fun m => 0 <= m.2) (profile_members sample_profile "c" 2000))
    by (rewrite Em; constructor; [simpl; lia|constructor]).
  apply (proj1 (proj2 (profile_election sample_profile "c" 2000 Hn))); [by rewrite Em|]. rewrite Em.
  split; [by left|]. intros n' e' Hin. apply list_elem_of_singleton in Hin. congruence.
Defined.
