(* ===== verification/NwpFilter.v ===== *)
(** * NWP filters: the filter language and its translation to SQL

    nwp/filter_translator.go.  The translator builds text; [sql] is the syntax of
    the conditions it builds, [print] their text as pieces (fixed text and
    parameter references), and the main theorem says that the text it returns is
    the print of a condition that means, in the three-valued logic of SQL, what
    the filter means, for every row, every comparison of the database and every
    order in which the members of the filter are visited.
    [strings.EqualFold] on field names and [%v] are parameters. *)

From S2P Require Import Prelude GoValue NopModels NopInput NopCondition.
From Stdlib Require Import Ascii.

(** ** Schema *)

Inductive DatabaseDialect : Set := DialectSqlServer | DialectPostgreSql.

Record SqlMemoryNodeField : Type := MkSqlField {
  sf_Name : string; sf_Type : string; sf_Description : string; sf_Nullable : bool; sf_ColumnName : string
}.

Definition ResolvedColumnName (f : SqlMemoryNodeField) : string :=
  if String.eqb (sf_ColumnName f) "" then sf_Name f else sf_ColumnName f.

Record SqlMemoryNodeSchema : Type := MkSqlSchema {
  TableName : string; PrimaryKey : string; Fields : list SqlMemoryNodeField
}.

Definition ErrQueryFilterInvalid : string := "NWP-QUERY-FILTER-INVALID".
Definition ErrQueryFieldUnknown : string := "NWP-QUERY-FIELD-UNKNOWN".

Record NwpFilterError : Type := MkFilterError { fe_Message : string; NwpErrorCode : string }.

Record NwpSqlParam : Type := MkParam { p_Name : string; p_Value : any }.

(** The mutable part of the translator. *)
Record tstate : Type := MkT { paramIndex : Z; t_params : list NwpSqlParam }.

(** [None] as an error is running out of fuel. *)
Abbreviation M A := (tstate -> result (option NwpFilterError) (A * tstate)).

Definition fail {A} (code msg : string) : result (option NwpFilterError) A := Err (Some (MkFilterError msg code)).

Definition extractValue (el : any) : any :=
  match el with
  | VFloat64 v => if SFeqb v (float64_of_Z (int64_of_float v)) then VInt KInt64 (int64_of_float v) else el
  | VNumber lit =>
      let '(i, ok) := Number_Int64 lit in
      if ok then VInt KInt64 i
      else match ParseFloat lit with Some f => VFloat64 f | None => VString lit end
  | _ => el
  end.

Definition sortedKeys (m : dict) : list string := sort_strings m.*1.

(** How deep a value nests. *)
Fixpoint any_depth (v : any) : nat :=
  match v with
  | VMap m => S (foldr (fun p d => Nat.max (any_depth p.2) d) 0%nat m)
  | VSlice l => S (foldr (fun x d => Nat.max (any_depth x) d) 0%nat l)
  | _ => 0%nat
  end.

Definition param_name (n : Z) : string := "p" +:+ FormatUint n.

Definition quoteColumn (d : DatabaseDialect) (col : string) : string :=
  match d with
  | DialectSqlServer => "[" +:+ col +:+ "]"
  | DialectPostgreSql => String (chr 34) "" +:+ col +:+ String (chr 34) ""
  end.

(** Run a fallible step on every element, left to right. *)
Fixpoint each {A B} (f : A -> M B) (l : list A) (st : tstate) : result (option NwpFilterError) (list B * tstate) :=
  match l with
  | [] => Ok ([], st)
  | x :: r => let? (y, st) := f x st in let? (ys, st) := each f r st in Ok (y :: ys, st)
  end.

Section Translator.
Context (strings_EqualFold : string -> string -> bool) (fmt_v : any -> string).
Context (schema : SqlMemoryNodeSchema) (dialect : DatabaseDialect).

Definition GetField (name : string) : option SqlMemoryNodeField :=
  List.find (fun f => strings_EqualFold (sf_Name f) name) (Fields schema).

Definition HasField (name : string) : bool := match GetField name with Some _ => true | None => false end.

Definition addParam (name : string) (value : any) (st : tstate) : tstate :=
  MkT (paramIndex st) (t_params st ++ [MkParam name value]).

Definition nextIndex (st : tstate) : tstate := MkT (paramIndex st + 1) (t_params st).

Definition validateField (name : string) : result (option NwpFilterError) SqlMemoryNodeField :=
  match GetField name with
  | Some f => Ok f
  | None => fail ErrQueryFieldUnknown ("Unknown field '" +:+ name +:+ "'.")
  end.

(** The SQL operator of a simple filter operator and the value it binds. *)
Definition simple_op (op : string) (v : any) : option (string * any) :=
  if String.eqb op "$eq" then Some ("=", v)
  else if String.eqb op "$ne" then Some ("<>", v)
  else if String.eqb op "$lt" then Some ("<", v)
  else if String.eqb op "$lte" then Some ("<=", v)
  else if String.eqb op "$gt" then Some (">", v)
  else if String.eqb op "$gte" then Some (">=", v)
  else if String.eqb op "$contains" then Some ("LIKE", VString ("%" +:+ fmt_v v +:+ "%"))
  else None.

Definition buildSimple (col op fieldName : string) (value : any) : M string := fun st =>
  let paramName := param_name (paramIndex st) in
  let st := nextIndex st in
  match simple_op op (extractValue value) with
  | Some (sqlop, v) => Ok (col +:+ " " +:+ sqlop +:+ " @" +:+ paramName, addParam paramName v st)
  | None => fail ErrQueryFilterInvalid ("Unknown filter operator '" +:+ op +:+ "' on field '" +:+ fieldName +:+ "'.")
  end.

Definition buildIn (col : string) (arr : any) (negate : bool) : M string := fun st =>
  match arr with
  | VSlice items =>
      let values := extractValue <$> items in
      match values with
      | [] => Ok (if negate then "1=1" else "1=0", st)
      | _ =>
          let paramName := param_name (paramIndex st) in
          let st := addParam paramName (VSlice values) (nextIndex st) in
          Ok (col +:+ (if negate then " NOT IN @" else " IN @") +:+ paramName, st)
      end
  | _ => fail ErrQueryFilterInvalid "$in/$nin requires an array value."
  end.

Definition buildBetween (col : string) (arr : any) : M string := fun st =>
  match arr with
  | VSlice [low; high] =>
      let pLow := param_name (paramIndex st) in
      let st := nextIndex st in
      let pHigh := param_name (paramIndex st) in
      let st := nextIndex st in
      let st := addParam pHigh (extractValue high) (addParam pLow (extractValue low) st) in
      Ok (col +:+ " BETWEEN @" +:+ pLow +:+ " AND @" +:+ pHigh, st)
  | _ => fail ErrQueryFilterInvalid "$between requires an array of exactly two values [low, high]."
  end.

Definition buildOp (field : SqlMemoryNodeField) (op : string) (val : any) : M string :=
  let col := quoteColumn dialect (ResolvedColumnName field) in
  if String.eqb op "$in" then buildIn col val false
  else if String.eqb op "$nin" then buildIn col val true
  else if String.eqb op "$between" then buildBetween col val
  else buildSimple col op (sf_Name field) val.

Definition buildFieldCondition (field : SqlMemoryNodeField) (condition : any) : M string := fun st =>
  match condition with
  | VMap cond =>
      let? (parts, st) := each (fun op => buildOp field op (dict_at cond op)) (sortedKeys cond) st in
      match parts with
      | [c] => Ok (c, st)
      | _ => Ok ("(" +:+ join " AND " parts +:+ ")", st)
      end
  | _ => fail ErrQueryFilterInvalid
           ("Field '" +:+ sf_Name field +:+ "' condition must be an object (e.g. {" +:+
            String (chr 34) "$eq" +:+ String (chr 34) ": value}).")
  end.

(** [buildObject] of the sub-objects is [rec]. *)
Definition buildLogical (rec : dict -> M string) (op : string) (value : any) : M string := fun st =>
  if String.eqb op "$not" then
    match value with
    | VMap sub =>
        let? (inner, st) := rec sub st in
        Ok (if String.eqb inner "" then "" else "NOT (" +:+ inner +:+ ")", st)
    | _ => fail ErrQueryFilterInvalid ("Logical operator '" +:+ op +:+ "' requires an object value.")
    end
  else
    match (if String.eqb op "$and" then Some " AND " else if String.eqb op "$or" then Some " OR " else None) with
    | None => fail ErrQueryFilterInvalid ("Unknown logical operator '" +:+ op +:+ "'.")
    | Some separator =>
        match value with
        | VSlice arr =>
            let? (parts, st) := each (fun el st =>
              match el with
              | VMap sub => rec sub st
              | _ => fail ErrQueryFilterInvalid ("Logical operator '" +:+ op +:+ "' array elements must be objects.")
              end) arr st in
            let parts := List.filter (fun s => negb (String.eqb s "")) parts in
            match parts with
            | [] => Ok ("", st)
            | [c] => Ok (c, st)
            | _ => Ok ("(" +:+ join separator parts +:+ ")", st)
            end
        | _ => fail ErrQueryFilterInvalid ("Logical operator '" +:+ op +:+ "' requires an array value.")
        end
    end.

Fixpoint buildObject (fuel : nat) (obj : dict) (st : tstate) : result (option NwpFilterError) (string * tstate) :=
  match fuel with
  | O => Err None
  | S f =>
      let? (clauses, st) := each (fun name st =>
        let val := dict_at obj name in
        if has_prefix "$" name then buildLogical (buildObject f) name val st
        else let? field := validateField name in buildFieldCondition field val st) (sortedKeys obj) st in
      match clauses with
      | [] => Ok ("", st)
      | [c] => Ok (c, st)
      | _ => Ok ("(" +:+ join " AND " clauses +:+ ")", st)
      end
  end.

Definition Translate (filter : any) : result (option NwpFilterError) (string * list NwpSqlParam) :=
  match filter with
  | VMap obj => let? (sql, st) := buildObject (any_depth filter) obj (MkT 0 []) in Ok (sql, t_params st)
  | _ => Ok ("", [])
  end.
End Translator.

(** ** SQL conditions

    The text of a condition is a list of pieces. *)
Inductive piece : Type := Lit (s : string) | Ref (name : string).

Definition render_piece (p : piece) : string := match p with Lit s => s | Ref n => "@" +:+ n end.
Definition render (ps : list piece) : string := foldr (fun p s => render_piece p +:+ s) "" ps.

Inductive sql : Type :=
| SCmp (col op p : string)
| SIn (col : string) (negate : bool) (p : string)
| SBetween (col lo hi : string)
| SConst (b : bool)
| SNot (c : sql)
| SJoin (isAnd : bool) (l : list sql).

Fixpoint joinp (sep : string) (l : list (list piece)) : list piece :=
  match l with
  | [] => []
  | [x] => x
  | x :: r => x ++ Lit sep :: joinp sep r
  end.

Fixpoint print (d : DatabaseDialect) (c : sql) : list piece :=
  match c with
  | SCmp col op p => [Lit (quoteColumn d col +:+ " " +:+ op +:+ " "); Ref p]
  | SIn col negate p => [Lit (quoteColumn d col +:+ (if negate then " NOT IN " else " IN ")); Ref p]
  | SBetween col lo hi => [Lit (quoteColumn d col +:+ " BETWEEN "); Ref lo; Lit " AND "; Ref hi]
  | SConst b => [Lit (if b then "1=1" else "1=0")]
  | SNot c => Lit "NOT (" :: print d c ++ [Lit ")"]
  | SJoin isAnd l => Lit "(" :: joinp (if isAnd then " AND " else " OR ") (map (print d) l) ++ [Lit ")"]
  end.

(** *** Three-valued logic *)

Abbreviation tri := (option bool).
Definition tand (a b : tri) : tri :=
  match a, b with
  | Some false, _ | _, Some false => Some false
  | Some true, Some true => Some true
  | _, _ => None
  end.
Definition tor (a b : tri) : tri :=
  match a, b with
  | Some true, _ | _, Some true => Some true
  | Some false, Some false => Some false
  | _, _ => None
  end.
Definition tnot (a : tri) : tri := negb <$> a.
Definition all_of (l : list tri) : tri := foldr tand (Some true) l.
Definition any_of (l : list tri) : tri := foldr tor (Some false) l.
Definition join_of (isAnd : bool) (l : list tri) : tri := if isAnd then all_of l else any_of l.

(** The value a parameter name is bound to. *)
Definition bound (ps : list NwpSqlParam) (n : string) : any :=
  match List.find (fun p => String.eqb (p_Name p) n) ps with Some p => p_Value p | None => VNil end.

(** A row gives the value of each column; the database compares values. *)
Record database : Type := MkDb { row : string -> any; cmp : string -> any -> any -> tri }.

Definition db_in (db : database) (x : any) (vs : list any) : tri := any_of (cmp db "=" x <$> vs).
Definition db_between (db : database) (x lo hi : any) : tri := tand (cmp db ">=" x lo) (cmp db "<=" x hi).

Fixpoint eval_sql (db : database) (ps : list NwpSqlParam) (c : sql) : tri :=
  match c with
  | SCmp col op p => cmp db op (row db col) (bound ps p)
  | SIn col negate p =>
      let r := db_in db (row db col) (default [] (as_slice (bound ps p))) in if negate then tnot r else r
  | SBetween col lo hi => db_between db (row db col) (bound ps lo) (bound ps hi)
  | SConst b => Some b
  | SNot c => tnot (eval_sql db ps c)
  | SJoin isAnd l => join_of isAnd (map (eval_sql db ps) l)
  end.

Fixpoint columns (c : sql) : list string :=
  match c with
  | SCmp col _ _ | SIn col _ _ | SBetween col _ _ => [col]
  | SConst _ => []
  | SNot c => columns c
  | SJoin _ l => flat_map columns l
  end.

(** ** The meaning of a filter (NPS-2, section 5.2) *)

Section Meaning.
Context (strings_EqualFold : string -> string -> bool) (fmt_v : any -> string).
Context (schema : SqlMemoryNodeSchema).

Abbreviation field_of := (GetField strings_EqualFold schema).

Definition op_sem (db : database) (col op : string) (val : any) : tri :=
  let x := row db col in
  if String.eqb op "$in" then db_in db x (extractValue <$> default [] (as_slice val))
  else if String.eqb op "$nin" then tnot (db_in db x (extractValue <$> default [] (as_slice val)))
  else if String.eqb op "$between" then
    match val with VSlice [lo; hi] => db_between db x (extractValue lo) (extractValue hi) | _ => None end
  else match simple_op fmt_v op (extractValue val) with Some (o, v) => cmp db o x v | None => None end.

Definition field_sem (db : database) (f : SqlMemoryNodeField) (cond : any) : tri :=
  match cond with
  | VMap ops => all_of ((fun p => op_sem db (ResolvedColumnName f) p.1 p.2) <$> ops)
  | _ => None
  end.

Fixpoint filter_sem (db : database) (v : any) : tri :=
  match v with
  | VMap m =>
      (fix go (m : dict) : tri :=
         match m with
         | [] => Some true
         | (k, x) :: r =>
             tand (if has_prefix "$" k then
                     if String.eqb k "$not" then tnot (filter_sem db x)
                     else match x with
                          | VSlice l => join_of (String.eqb k "$and") (map (filter_sem db) l)
                          | _ => None
                          end
                   else match field_of k with Some f => field_sem db f x | None => None end) (go r)
         end) m
  | _ => Some true
  end.

(** *** Well-formed filters: known fields and operators, no empty group *)

Definition op_wf (op : string) (val : any) : bool :=
  if String.eqb op "$in" || String.eqb op "$nin" then match val with VSlice _ => true | _ => false end
  else if String.eqb op "$between" then match val with VSlice [_; _] => true | _ => false end
  else match simple_op fmt_v op VNil with Some _ => true | None => false end.

(** The keys of a Go map are distinct. *)
Definition group {A} (m : list (string * A)) : bool :=
  match m with [] => false | _ => bool_decide (NoDup m.*1) end.

Definition field_wf (cond : any) : bool :=
  match cond with VMap ops => group ops && forallb (fun p => op_wf p.1 p.2) ops | _ => false end.

Fixpoint filter_wf (v : any) : bool :=
  match v with
  | VMap m =>
      group m &&
      (fix go (m : dict) : bool :=
         match m with
         | [] => true
         | (k, x) :: r =>
             (if has_prefix "$" k then
                if String.eqb k "$not" then filter_wf x
                else (String.eqb k "$and" || String.eqb k "$or") &&
                     match x with
                     | VSlice l => negb (bool_decide (length l = 0%nat)) && forallb filter_wf l
                     | _ => false
                     end
              else match field_of k with Some _ => field_wf x | None => false end) && go r
         end) m
  | _ => false
  end.

(** One member of a filter object. *)
Definition entry_sem (db : database) (k : string) (x : any) : tri :=
  if has_prefix "$" k then
    if String.eqb k "$not" then tnot (filter_sem db x)
    else match x with VSlice l => join_of (String.eqb k "$and") (map (filter_sem db) l) | _ => None end
  else match field_of k with Some f => field_sem db f x | None => None end.

Definition entry_wf (k : string) (x : any) : bool :=
  if has_prefix "$" k then
    if String.eqb k "$not" then filter_wf x
    else (String.eqb k "$and" || String.eqb k "$or") &&
         match x with
         | VSlice l => negb (bool_decide (length l = 0%nat)) && forallb filter_wf l
         | _ => false
         end
  else match field_of k with Some _ => field_wf x | None => false end.

Lemma filter_sem_map db m : filter_sem db (VMap m) = all_of ((fun p => entry_sem db p.1 p.2) <$> m).
Proof. induction m as [|[k x] m IH]; [done|]. unfold all_of. csimpl. f_equal. exact IH. Qed.

Lemma filter_wf_map m : filter_wf (VMap m) = group m && forallb (fun p => entry_wf p.1 p.2) m.
Proof.
  change (filter_wf (VMap m)) with (group m && (fix go (m : dict) : bool :=
    match m with [] => true | (k, x) :: r => entry_wf k x && go r end) m).
  f_equal. induction m as [|[k x] m IH]; [done|]. csimpl. by rewrite <- IH.
Qed.
End Meaning.

(** ** Lemmas: text *)

Lemma render_app a b : render (a ++ b) = render a +:+ render b.
Proof. induction a as [|p a IH]; [done|]. simpl. by rewrite IH, str_app_assoc. Qed.

Lemma render_joinp sep l : render (joinp sep l) = join sep (render <$> l).
Proof.
  induction l as [|x l IH]; [done|]. destruct l as [|y l]; [done|].
  change (joinp sep (x :: y :: l)) with (x ++ Lit sep :: joinp sep (y :: l)).
  rewrite render_app. change (render (Lit sep :: ?r)) with (sep +:+ render r). rewrite IH. done.
Qed.

Lemma render_SJoin d isAnd l :
  render (print d (SJoin isAnd l)) =
    "(" +:+ join (if isAnd then " AND " else " OR ") ((fun c => render (print d c)) <$> l) +:+ ")".
Proof.
  cbn [print]. change (Lit "(" :: ?x) with ([Lit "("] ++ x). rewrite !render_app, render_joinp.
  change (map (print d) l) with (print d <$> l). rewrite <- list_fmap_compose. done.
Qed.

(** A condition is never the empty text. *)
Lemma render_print_nonempty d c : render (print d c) <> "".
Proof. destruct c as [col op p|col n p|col lo hi|b|c|a l]; try done; try (by destruct d); by destruct b. Qed.

(** ** Lemmas: three-valued logic *)

Lemma tand_comm a b : tand a b = tand b a.
Proof. by destruct a as [[]|], b as [[]|]. Qed.
Lemma tand_assoc a b c : tand a (tand b c) = tand (tand a b) c.
Proof. by destruct a as [[]|], b as [[]|], c as [[]|]. Qed.
Lemma tand_true a : tand a (Some true) = a.
Proof. by destruct a as [[]|]. Qed.
Lemma tor_false a : tor a (Some false) = a.
Proof. by destruct a as [[]|]. Qed.

#[export] Instance all_of_perm : Proper ((≡ₚ) ==> eq) all_of.
Proof.
  induction 1 as [|x l l' _ IH|x y l|l1 l2 l3 _ IH1 _ IH2]; cbn [all_of foldr] in *; unfold all_of in *.
  - done.
  - simpl. by rewrite IH.
  - simpl. rewrite !tand_assoc. by rewrite (tand_comm x y).
  - by rewrite IH1.
Qed.

Lemma join_of_single isAnd x : join_of isAnd [x] = x.
Proof. destruct isAnd; unfold join_of, all_of, any_of; simpl; [apply tand_true|apply tor_false]. Qed.

(** Reading a map by its keys, in any order. *)
Lemma by_keys {B} (g : string -> any -> B) (m : dict) :
  NoDup m.*1 -> (fun k => g k (dict_at m k)) <$> m.*1 = (fun p => g p.1 p.2) <$> m.
Proof.
  intros Hd. rewrite <- list_fmap_compose. apply list_fmap_ext. intros i [k x] Hi. simpl. f_equal.
  unfold dict_at. apply list_elem_of_lookup_2 in Hi. apply assoc_get_elem in Hi; [|done]. by rewrite Hi.
Qed.

Lemma all_of_sorted (g : string -> any -> tri) (m : dict) :
  NoDup m.*1 -> all_of ((fun k => g k (dict_at m k)) <$> sortedKeys m) = all_of ((fun p => g p.1 p.2) <$> m).
Proof. intros Hd. unfold sortedKeys. by rewrite sort_strings_perm, by_keys. Qed.

Lemma sortedKeys_entry (m : dict) k : k ∈ sortedKeys m -> NoDup m.*1 -> (k, dict_at m k) ∈ m.
Proof.
  unfold sortedKeys. rewrite sort_strings_perm. intros ([k' x] & -> & Hin)%list_elem_of_fmap Hd. simpl.
  unfold dict_at. pose proof Hin as Hg. apply assoc_get_elem in Hg; [|done]. by rewrite Hg.
Qed.

Lemma group_spec {A} (m : list (string * A)) : group m = true -> m <> [] /\ NoDup m.*1.
Proof. destruct m; [done|]. cbn [group]. intros ?%bool_decide_eq_true. done. Qed.

Lemma sortedKeys_nonempty (m : dict) : m <> [] -> sortedKeys m <> [].
Proof.
  intros Hne E. apply (f_equal length) in E. unfold sortedKeys in E. rewrite sort_strings_perm, length_fmap in E.
  by destruct m.
Qed.

(** ** Lemmas: parameters *)

(** The parameters so far are p0, p1, ... *)
Definition params_inv (st : tstate) : Prop :=
  p_Name <$> t_params st = (fun i => param_name (Z.of_nat i)) <$> seq 0 (length (t_params st)) /\
  paramIndex st = Z.of_nat (length (t_params st)).

Lemma param_name_inj a b : 0 <= a -> 0 <= b -> param_name a = param_name b -> a = b.
Proof. intros Ha Hb E. unfold param_name in E. injection E as E. by apply FormatUint_inj. Qed.

Definition push (v : any) (st : tstate) : tstate := addParam (param_name (paramIndex st)) v (nextIndex st).

Lemma push_inv v st : params_inv st -> params_inv (push v st).
Proof.
  intros [Hn Hi]. split; simpl.
  - rewrite fmap_app, length_app, Hn, seq_app, fmap_app. simpl. by rewrite Hi.
  - rewrite length_app. simpl. lia.
Qed.

Lemma find_none {A} (P : A -> bool) l : (forall x, x ∈ l -> P x = false) -> List.find P l = None.
Proof.
  induction l as [|x l IH]; intros Hp; simpl; [done|]. rewrite Hp by set_solver. apply IH. set_solver.
Qed.

(** The parameter just added is found under its name, whatever comes after it. *)
Lemma bound_push v st l : params_inv st -> bound (t_params (push v st) ++ l) (param_name (paramIndex st)) = v.
Proof.
  intros [Hn Hi]. unfold bound. simpl. rewrite <- app_assoc, find_app.
  assert (List.find (fun p => String.eqb (p_Name p) (param_name (paramIndex st))) (t_params st) = None) as ->.
  { apply find_none. intros p Hp. apply String.eqb_neq. intros E.
    assert (p_Name p ∈ p_Name <$> t_params st) as Hin by (by apply list_elem_of_fmap_2).
    rewrite Hn, E in Hin. apply list_elem_of_fmap in Hin as (i & Ei & Hin). apply elem_of_seq in Hin.
    apply param_name_inj in Ei; lia. }
  simpl. by rewrite String.eqb_refl.
Qed.

(** ** Lemmas: placeholders stand alone

    In the text of a condition every @ starts a bound parameter, and the character
    after the name, if there is one, does not belong to a name. *)

Definition isNameChar (c : Ascii.ascii) : bool := isAlnum c || Ascii.eqb c "_"%char.
Definition no_at (s : string) : bool := negb (str_contains_char "@"%char s).

Definition piece_ok (ps : list NwpSqlParam) (p : piece) : Prop :=
  match p with Lit s => no_at s = true | Ref n => n ∈ p_Name <$> ps end.

Fixpoint sep_ok (l : list piece) : bool :=
  match l with
  | Ref _ :: ((Lit (String c _) :: _) as r) => negb (isNameChar c) && sep_ok r
  | Ref _ :: _ :: _ => false
  | _ :: r => sep_ok r
  | [] => true
  end.

Definition good (ps : list NwpSqlParam) (l : list piece) : Prop := Forall (piece_ok ps) l /\ sep_ok l = true.

Lemma good_later ps new l : good ps l -> good (ps ++ new) l.
Proof.
  intros [Hf Hs]. split; [|done]. eapply Forall_impl; [exact Hf|]. intros [s|n]; simpl; [done|].
  rewrite fmap_app. set_solver.
Qed.

(** [l] may be followed by text that does not start with a name character. *)
Lemma sep_ok_app l c s r :
  sep_ok l = true -> isNameChar c = false -> sep_ok (l ++ Lit (String c s) :: r) = sep_ok r.
Proof.
  intros Hl Hc. induction l as [|[t|n] l IH]; [done|exact (IH Hl)|].
  destruct l as [|[[|c' t]|n'] l]; simpl in *; [by rewrite Hc|done| |done].
  apply andb_prop in Hl as [H1 H2]. by rewrite H1, IH.
Qed.

Lemma good_app ps l c s r :
  good ps l -> isNameChar c = false -> no_at (String c s) = true -> good ps r ->
  good ps (l ++ Lit (String c s) :: r).
Proof.
  intros [Hl Hs] Hc Hn [Hr Hrs]. split; [apply Forall_app; by repeat constructor|].
  by rewrite sep_ok_app.
Qed.

Lemma good_lit ps s r : no_at s = true -> good ps r -> good ps (Lit s :: r).
Proof. intros Hn [Hr Hs]. split; [by constructor|done]. Qed.

Lemma good_joinp ps (isAnd : bool) ls :
  Forall (good ps) ls -> good ps (joinp (if isAnd then " AND " else " OR ") ls).
Proof.
  induction 1 as [|l ls Hl Hls IH]; [by split|]. destruct ls as [|l2 ls]; [done|].
  change (joinp ?sep (l :: l2 :: ls)) with (l ++ Lit sep :: joinp sep (l2 :: ls)).
  destruct isAnd; by apply good_app.
Qed.

Lemma no_at_app a b : no_at a = true -> no_at b = true -> no_at (a +:+ b) = true.
Proof. unfold no_at. rewrite contains_char_app. destruct (str_contains_char _ a), (str_contains_char _ b); done. Qed.

Lemma no_at_quote d col : no_at col = true -> no_at (quoteColumn d col) = true.
Proof. intros H. destruct d; simpl; repeat apply no_at_app; done. Qed.

Lemma simple_op_no_at fmt_v op v o w : simple_op fmt_v op v = Some (o, w) -> no_at o = true.
Proof. unfold simple_op. repeat case_match; try done; by intros [= <- _]. Qed.

(** ** Lemmas: the translator *)

Section Correct.
Context (strings_EqualFold : string -> string -> bool) (fmt_v : any -> string).
Context (schema : SqlMemoryNodeSchema) (d : DatabaseDialect).

Abbreviation text c := (render (print d c)).
Abbreviation schema_columns := (ResolvedColumnName <$> Fields schema).

(** What a step of the translator builds: the text of a condition over columns of
    the schema whose meaning, under the parameters it leaves behind and any that
    are added later, is [m]. *)
Definition means (st : tstate) (c : sql) (m : database -> tri) : Prop :=
  (forall db l, eval_sql db (t_params st ++ l) c = m db) /\ columns c ⊆ schema_columns /\
  (Forall (fun col => no_at col = true) schema_columns -> good (t_params st) (print d c)).

Definition builds (r : result (option NwpFilterError) (string * tstate)) (st : tstate) (m : database -> tri) : Prop :=
  exists c new st', r = Ok (text c, st') /\ params_inv st' /\ t_params st' = t_params st ++ new /\ means st' c m.

Lemma means_later st st' new c m : t_params st' = t_params st ++ new -> means st c m -> means st' c m.
Proof.
  intros E (Hm & Hc & Hg). split_and!; [|done|].
  - intros db l. rewrite E, <- app_assoc. apply Hm.
  - intros Hs. rewrite E. by apply good_later, Hg.
Qed.

Lemma builds_ext r st m m' : (forall db, m db = m' db) -> builds r st m -> builds r st m'.
Proof.
  intros Hm (c & new & st' & -> & Hi & Hp & Hc & Hcol). exists c, new, st'. split_and!; [done..|]. split; [|done].
  intros db l. by rewrite Hc, Hm.
Qed.

Lemma each_builds {A} (f : A -> M string) (m : A -> database -> tri) l st :
  params_inv st -> (forall x st, x ∈ l -> params_inv st -> builds (f x st) st (m x)) ->
  exists cs new st', each f l st = Ok ((fun c => text c) <$> cs, st') /\ params_inv st' /\
    t_params st' = t_params st ++ new /\ Forall2 (fun x c => means st' c (m x)) l cs.
Proof.
  intros Hi Hf. revert st Hi Hf. induction l as [|x l IH]; intros st Hi Hf.
  { exists [], [], st. rewrite app_nil_r. done. }
  destruct (Hf x st ltac:(by left) Hi) as (c & n1 & s1 & E1 & Hi1 & Hp1 & Hm1). simpl. rewrite E1.
  destruct (IH s1 Hi1) as (cs & n2 & s2 & E2 & Hi2 & Hp2 & Hm2); [intros; apply Hf; [by right|done]|].
  rewrite E2. exists (c :: cs), (n1 ++ n2), s2. split_and!; [done|done|by rewrite Hp2, Hp1, app_assoc|].
  constructor; [|done]. by eapply means_later.
Qed.

(** Joining clauses: the clause itself when there is one, else parentheses. *)
Definition joined (isAnd : bool) (ts : list string) : string :=
  match ts with
  | [t] => t
  | _ => "(" +:+ join (if isAnd then " AND " else " OR ") ts +:+ ")"
  end.

Lemma join_means (isAnd : bool) cs ms st :
  cs <> [] -> Forall2 (means st) cs ms ->
  exists c, joined isAnd ((fun c => text c) <$> cs) = text c /\ means st c (fun db => join_of isAnd ((fun m => m db) <$> ms)).
Proof.
  intros Hne Hf. destruct cs as [|c1 [|c2 cs]]; [done|..].
  - inversion Hf as [|? m1 ? ms' H1 Hn]; subst. inversion Hn; subst. exists c1. split; [done|].
    destruct H1 as [Hm Hc]. split; [|done]. intros db l. simpl. by rewrite join_of_single.
  - exists (SJoin isAnd (c1 :: c2 :: cs)). split; [by rewrite render_SJoin|]. split_and!.
    + intros db l. cbn [eval_sql]. f_equal. clear Hne. induction Hf as [|c m cs' ms' [Hm _] _ IH]; [done|].
      csimpl. by rewrite Hm, IH.
    + cbn [columns]. clear Hne. induction Hf as [|c m cs' ms' (_ & Hc & _) _ IH]; csimpl; [apply list_subseteq_nil|].
      by apply list_subseteq_app_iff_l.
    + intros Hs. cbn [print]. apply good_lit; [done|]. apply good_app; [|done|done|by split]. apply good_joinp.
      change (map (print d) (c1 :: c2 :: cs)) with (print d <$> (c1 :: c2 :: cs)). apply Forall_fmap.
      apply (Forall2_Forall_l _ _ _ _ Hf). apply Forall_forall. intros m _ c (_ & _ & Hg). by apply Hg.
Qed.

(** One parameter. *)
Lemma push_builds v t c st (m : database -> tri) :
  params_inv st -> t = text c -> columns c ⊆ schema_columns ->
  (Forall (fun col => no_at col = true) schema_columns ->
   exists l, print d c = [Lit l; Ref (param_name (paramIndex st))] /\ no_at l = true) ->
  (forall db ps, bound ps (param_name (paramIndex st)) = v -> eval_sql db ps c = m db) ->
  builds (Ok (t, push v st)) st m.
Proof.
  intros Hi -> Hc Hg He. exists c, [MkParam (param_name (paramIndex st)) v], (push v st).
  split_and!; [done|by apply push_inv|done|]. split_and!; [|done|].
  - intros db l. apply He. by apply bound_push.
  - intros Hs. destruct (Hg Hs) as (l & -> & Hl). apply good_lit; [done|]. split; [|done].
    repeat constructor. simpl. rewrite fmap_app. set_solver.
Qed.

Lemma buildSimple_builds col name op val st o v :
  params_inv st -> col ∈ schema_columns -> simple_op fmt_v op (extractValue val) = Some (o, v) ->
  builds (buildSimple fmt_v (quoteColumn d col) op name val st) st (fun db => cmp db o (row db col) v).
Proof.
  intros Hi Hc E. unfold buildSimple. rewrite E.
  apply (push_builds v _ (SCmp col o (param_name (paramIndex st)))); [done| |set_solver| |].
  - simpl. rewrite str_app_nil_r. rewrite !str_app_assoc. done.
  - intros Hs. eexists. split; [done|]. rewrite Forall_forall in Hs.
    repeat apply no_at_app; [by apply no_at_quote, Hs|done| |done]. by eapply simple_op_no_at.
  - intros db ps Hb. simpl. by rewrite Hb.
Qed.

Lemma buildIn_builds col items negate st :
  params_inv st -> col ∈ schema_columns ->
  builds (buildIn (quoteColumn d col) (VSlice items) negate st) st (fun db =>
    let r := db_in db (row db col) (extractValue <$> items) in if negate then tnot r else r).
Proof.
  intros Hi Hc. unfold buildIn. destruct (extractValue <$> items) as [|v vs] eqn:E.
  - exists (SConst negate), [], st. split_and!; [by destruct negate|done|by rewrite app_nil_r|].
    split_and!; [|apply list_subseteq_nil|by destruct negate; repeat constructor]. intros db l. by destruct negate.
  - apply (push_builds (VSlice (v :: vs)) _ (SIn col negate (param_name (paramIndex st)))); [done| |set_solver| |].
    + simpl. rewrite str_app_nil_r. destruct negate; rewrite !str_app_assoc; done.
    + intros Hs. eexists. split; [done|]. rewrite Forall_forall in Hs.
      apply no_at_app; [by apply no_at_quote, Hs|by destruct negate].
    + intros db ps Hb. simpl. by rewrite Hb.
Qed.

Lemma buildBetween_builds col lo hi st :
  params_inv st -> col ∈ schema_columns ->
  builds (buildBetween (quoteColumn d col) (VSlice [lo; hi]) st) st (fun db =>
    db_between db (row db col) (extractValue lo) (extractValue hi)).
Proof.
  intros Hi Hc. unfold buildBetween.
  set (s1 := push (extractValue lo) st). set (s2 := push (extractValue hi) s1).
  exists (SBetween col (param_name (paramIndex st)) (param_name (paramIndex s1))),
    [MkParam (param_name (paramIndex st)) (extractValue lo); MkParam (param_name (paramIndex s1)) (extractValue hi)], s2.
  split_and!; [|by do 2 apply push_inv|subst s1 s2; simpl; by rewrite <- app_assoc|].
  - f_equal. f_equal. simpl. rewrite str_app_nil_r. rewrite !str_app_assoc. done.
  - split_and!; [|set_solver|].
    2:{ intros Hs. rewrite Forall_forall in Hs. apply good_lit; [apply no_at_app; [by apply no_at_quote, Hs|done]|].
        subst s2 s1. split; [|done]. repeat constructor; simpl; rewrite !fmap_app; set_solver. }
    intros db l. cbn [eval_sql]. f_equal.
    + assert (t_params s2 = t_params s1 ++ [MkParam (param_name (paramIndex s1)) (extractValue hi)]) as -> by done.
      rewrite <- app_assoc. by apply bound_push.
    + by apply bound_push, push_inv.
Qed.

Lemma simple_op_any op v w : simple_op fmt_v op v <> None -> simple_op fmt_v op w <> None.
Proof. unfold simple_op. by repeat case_match. Qed.

Lemma buildOp_builds field op val st :
  params_inv st -> ResolvedColumnName field ∈ schema_columns -> op_wf fmt_v op val = true ->
  builds (buildOp fmt_v d field op val st) st (fun db => op_sem fmt_v db (ResolvedColumnName field) op val).
Proof.
  intros Hi Hc Hw. unfold buildOp, op_sem, op_wf in *.
  destruct (String.eqb op "$in"); [simpl in Hw; destruct val; try done; by apply buildIn_builds|].
  destruct (String.eqb op "$nin"); [simpl in Hw; destruct val; try done; by apply (buildIn_builds _ _ true)|].
  simpl in Hw. destruct (String.eqb op "$between").
  - destruct val as [| | | | | | |[|lo [|hi [|]]]| | | | |]; try done. by apply buildBetween_builds.
  - destruct (simple_op fmt_v op (extractValue val)) as [[o v]|] eqn:E; [by apply buildSimple_builds|].
    exfalso. eapply (simple_op_any op VNil); [|exact E]. by destruct (simple_op fmt_v op VNil).
Qed.

Lemma join_texts (isAnd : bool) (ts : list string) (st : tstate) :
  ts <> [] ->
  match ts with [c] => Ok (c, st) | _ => Ok ("(" +:+ join (if isAnd then " AND " else " OR ") ts +:+ ")", st) end
  = (Ok (joined isAnd ts, st) : result (option NwpFilterError) (string * tstate)).
Proof. by destruct ts as [|? [|? ?]]. Qed.

(** Building every element of a non-empty list and joining the clauses. *)
Lemma each_join {A} (isAnd : bool) (f : A -> M string) (m : A -> database -> tri) l st :
  l <> [] -> params_inv st -> (forall x st, x ∈ l -> params_inv st -> builds (f x st) st (m x)) ->
  exists ts st', each f l st = Ok (ts, st') /\ ts <> [] /\ Forall (fun t => t <> "") ts /\
    builds (Ok (joined isAnd ts, st')) st
      (fun db => join_of isAnd ((fun x => m x db) <$> l)).
Proof.
  intros Hne Hi Hf. destruct (each_builds f m l st Hi Hf) as (cs & new & st' & E & Hi' & Hp & Hm).
  exists ((fun c => text c) <$> cs), st'. rewrite E.
  assert (cs <> []) as Hcs by (intros ->; by apply Forall2_nil_inv_r in Hm).
  split_and!; [done|by destruct cs|apply Forall_fmap, Forall_forall; intros c _; apply render_print_nonempty|].
  destruct (join_means isAnd cs (m <$> l) st' Hcs) as (c & Ec & Hc).
  { apply Forall2_fmap_r, Forall2_flip. exact Hm. }
  exists c, new, st'. rewrite Ec. split_and!; [done..|].
  destruct Hc as [Hc1 Hc2]. split; [|done]. intros db l'. rewrite Hc1, <- list_fmap_compose. done.
Qed.

Lemma buildFieldCondition_builds field cond st :
  params_inv st -> ResolvedColumnName field ∈ schema_columns -> field_wf fmt_v cond = true ->
  builds (buildFieldCondition fmt_v d field cond st) st (fun db => field_sem fmt_v db field cond).
Proof.
  intros Hi Hc Hw. destruct cond as [| | | | | | | | | | |ops|]; try done. cbn [field_wf] in Hw.
  apply andb_prop in Hw as [[Hne Hd]%group_spec Hw]. rewrite forallb_forall in Hw. cbn [buildFieldCondition].
  destruct (each_join true (fun op => buildOp fmt_v d field op (dict_at ops op))
    (fun op db => op_sem fmt_v db (ResolvedColumnName field) op (dict_at ops op)) (sortedKeys ops) st)
    as (ts & st' & E & Hts & _ & Hb); [by apply sortedKeys_nonempty|done| |].
  { intros op s Hop Hs. apply buildOp_builds; [done|done|].
    apply sortedKeys_entry in Hop; [|done]. apply list_elem_of_In, Hw in Hop. done. }
  rewrite E, (join_texts true) by done. eapply builds_ext; [|exact Hb].
  intros db. unfold join_of. by rewrite (all_of_sorted (fun op v => op_sem fmt_v db (ResolvedColumnName field) op v)).
Qed.

Lemma field_column k f : GetField strings_EqualFold schema k = Some f -> ResolvedColumnName f ∈ schema_columns.
Proof. intros H%find_some. apply list_elem_of_fmap_2, list_elem_of_In. apply H. Qed.

Lemma depth_entry (m : dict) k x : (k, x) ∈ m -> (any_depth x < any_depth (VMap m))%nat.
Proof.
  intros Hin. simpl. apply Nat.lt_succ_r. induction m as [|[k' x'] m IH]; [by apply elem_of_nil in Hin|]. simpl.
  apply elem_of_cons in Hin as [[= -> ->]|Hin]; [lia|]. specialize (IH Hin). lia.
Qed.

Lemma depth_elem (l : list any) x : x ∈ l -> (any_depth x < any_depth (VSlice l))%nat.
Proof.
  intros Hin. simpl. apply Nat.lt_succ_r. induction l as [|y l IH]; [by apply elem_of_nil in Hin|]. simpl.
  apply elem_of_cons in Hin as [->|Hin]; [lia|]. specialize (IH Hin). lia.
Qed.

Abbreviation wf := (filter_wf strings_EqualFold fmt_v schema).
Abbreviation sem := (filter_sem strings_EqualFold fmt_v schema).
Abbreviation build := (buildObject strings_EqualFold fmt_v schema d).

Lemma wf_is_map v : wf v = true -> exists m, v = VMap m.
Proof. destruct v; try done. eauto. Qed.

Lemma all_nonempty (ts : list string) :
  Forall (fun t => t <> "") ts -> List.filter (fun s => negb (String.eqb s "")) ts = ts.
Proof.
  induction 1 as [|t ts Ht _ IH]; simpl; [done|]. apply String.eqb_neq in Ht. by rewrite Ht, IH.
Qed.

(** A group of objects under $and or $or. *)
Lemma buildLogical_group_builds (rec : dict -> M string) isAnd op l st :
  op = (if isAnd : bool then "$and" else "$or") -> l <> [] -> params_inv st -> Forall (fun v => wf v = true) l ->
  (forall m s, VMap m ∈ l -> params_inv s -> builds (rec m s) s (fun db => sem db (VMap m))) ->
  builds (buildLogical rec op (VSlice l) st) st (fun db => join_of isAnd (map (sem db) l)).
Proof.
  intros Hop Hne Hi Hw Hrec. unfold buildLogical.
  assert (String.eqb op "$not" = false /\ (if String.eqb op "$and" then Some " AND " else if String.eqb op "$or"
    then Some " OR " else None) = Some (if isAnd then " AND " else " OR ")) as [-> ->] by (subst op; by destruct isAnd).
  destruct (each_join isAnd (fun el st => match el with VMap sub => rec sub st
    | _ => fail ErrQueryFilterInvalid ("Logical operator '" +:+ op +:+ "' array elements must be objects.") end)
    (fun el db => sem db el) l st) as (ts & st' & E & Hts & Hne' & Hb); [done|done| |].
  { intros el s Hel Hs. rewrite Forall_forall in Hw. destruct (wf_is_map _ (Hw _ Hel)) as [m ->]. by apply Hrec. }
  rewrite E. cbv zeta. rewrite (all_nonempty ts Hne').
  destruct ts as [|t1 [|t2 ts]]; [done|exact Hb|exact Hb].
Qed.

Lemma buildLogical_builds (rec : dict -> M string) op val st :
  has_prefix "$" op = true -> params_inv st -> entry_wf strings_EqualFold fmt_v schema op val = true ->
  (forall m s, (any_depth (VMap m) <= any_depth val)%nat -> wf (VMap m) = true -> params_inv s ->
     builds (rec m s) s (fun db => sem db (VMap m))) ->
  builds (buildLogical rec op val st) st (fun db => entry_sem strings_EqualFold fmt_v schema db op val).
Proof.
  intros Hp Hi Hw Hrec. unfold entry_wf, entry_sem in *. rewrite Hp in *.
  destruct (String.eqb_spec op "$not") as [->|Hnot].
  - destruct (wf_is_map _ Hw) as [m ->]. destruct (Hrec m st) as (c & new & st' & E & Hi' & Hn & Hm & Hc); [done..|].
    unfold buildLogical. cbn [String.eqb Ascii.eqb Bool.eqb]. rewrite E.
    pose proof (render_print_nonempty d c) as Hne. apply String.eqb_neq in Hne. rewrite Hne.
    exists (SNot c), new, st'. split_and!; [|done..|].
    + f_equal. f_equal. cbn [print]. change (Lit "NOT (" :: ?x) with ([Lit "NOT ("] ++ x). by rewrite !render_app.
    + destruct Hc as [Hc Hg]. split_and!; [|done|].
      * intros db l. cbn [eval_sql]. by rewrite Hm.
      * intros Hs. cbn [print]. apply good_lit; [done|]. apply good_app; [by apply Hg|done|done|by split].
  - apply andb_prop in Hw as [Hop Hw]. destruct val as [| | | | | | |l| | | | |]; try done.
    apply andb_prop in Hw as [Hl Hw]. apply negb_true_iff, bool_decide_eq_false in Hl.
    rewrite forallb_forall in Hw. apply (buildLogical_group_builds rec (String.eqb op "$and")); [..|].
    + destruct (String.eqb_spec op "$and") as [->|]; [done|]. simpl in Hop. by apply String.eqb_eq in Hop.
    + by destruct l.
    + done.
    + apply Forall_forall. intros v Hv. apply Hw, list_elem_of_In, Hv.
    + intros m s Hm Hs. apply Hrec; [|by apply Hw, list_elem_of_In|done]. apply Nat.lt_le_incl. by apply depth_elem.
Qed.

Lemma buildObject_builds fuel m st :
  wf (VMap m) = true -> (any_depth (VMap m) <= fuel)%nat -> params_inv st ->
  builds (build fuel m st) st (fun db => sem db (VMap m)).
Proof.
  revert m st. induction fuel as [|f IH]; intros m st Hw Hd Hi; [simpl in Hd; lia|].
  rewrite filter_wf_map in Hw. apply andb_prop in Hw as [[Hne Hnd]%group_spec Hw]. rewrite forallb_forall in Hw.
  cbn [buildObject].
  destruct (each_join true (fun name st =>
      let val := dict_at m name in
      if has_prefix "$" name then buildLogical (build f) name val st
      else let? field := validateField strings_EqualFold schema name in buildFieldCondition fmt_v d field val st)
    (fun k db => entry_sem strings_EqualFold fmt_v schema db k (dict_at m k)) (sortedKeys m) st)
    as (ts & st' & E & Hts & _ & Hb); [by apply sortedKeys_nonempty|done| |].
  - intros k s Hk Hs. apply sortedKeys_entry in Hk; [|done]. pose proof (Hw _ (proj1 (list_elem_of_In _ _) Hk)) as Hwk.
    cbn [fst snd] in Hwk. pose proof (depth_entry m k _ Hk) as Hdk. cbv zeta. destruct (has_prefix "$" k) eqn:Ep.
    + apply buildLogical_builds; [done..|]. intros m' s' Hd' Hw' Hs'. apply IH; [done| |done]. lia.
    + unfold entry_wf, entry_sem, validateField in *. rewrite Ep in *.
      destruct (GetField strings_EqualFold schema k) as [field|] eqn:Ef; [|done].
      apply buildFieldCondition_builds; [done| |done]. by eapply field_column.
  - cbv zeta in E. rewrite E. destruct ts as [|t1 ts]; [done|]. rewrite (join_texts true (t1 :: ts)) by done.
    eapply builds_ext; [|exact Hb]. intros db. unfold join_of.
    rewrite (all_of_sorted (fun k v => entry_sem strings_EqualFold fmt_v schema db k v)) by done.
    by rewrite filter_sem_map.
Qed.

(** *** Totality *)

Lemma each_fuel {A B} (f : A -> M B) l st :
  (forall x s, x ∈ l -> f x s <> Err None) -> each f l st <> Err None.
Proof.
  revert st. induction l as [|x l IH]; intros st Hf; simpl; [done|].
  pose proof (Hf x st ltac:(by left)) as Hx. destruct (f x st) as [[y s]|e]; [|congruence].
  specialize (IH s ltac:(intros; apply Hf; by right)). destruct (each f l s) as [[ys s2]|e]; [done|congruence].
Qed.

Lemma buildOp_fuel field op val st : buildOp fmt_v d field op val st <> Err None.
Proof. unfold buildOp, buildIn, buildBetween, buildSimple, fail. repeat case_match; done. Qed.

Lemma buildFieldCondition_fuel field val st : buildFieldCondition fmt_v d field val st <> Err None.
Proof.
  destruct val as [| | | | | | | | | | |ops|]; try done. cbn [buildFieldCondition].
  pose proof (each_fuel (fun op => buildOp fmt_v d field op (dict_at ops op)) (sortedKeys ops) st
    ltac:(intros; apply buildOp_fuel)) as He.
  destruct (each _ _ _) as [[ts s]|e]; [|congruence]. by destruct ts as [|? [|? ?]].
Qed.

Lemma buildLogical_fuel rec op val st :
  (forall m s, (any_depth (VMap m) <= any_depth val)%nat -> rec m s <> Err None) ->
  buildLogical rec op val st <> Err None.
Proof.
  intros Hr. unfold buildLogical. destruct (String.eqb op "$not").
  - destruct val as [| | | | | | | | | | |m|]; try done. specialize (Hr m st ltac:(lia)).
    destruct (rec m st) as [[i s]|e]; [done|congruence].
  - destruct (if String.eqb op "$and" then _ else _) as [sep|]; [|done]. destruct val as [| | | | | | |l| | | | |]; try done.
    match goal with |- context [each ?f l st] => assert (He : each f l st <> Err None) end.
    { apply each_fuel. intros x s Hx. destruct x as [| | | | | | | | | | |m|]; try done.
      apply Hr. apply Nat.lt_le_incl. by apply depth_elem. }
    destruct (each _ l st) as [[ts s]|e]; [by destruct (List.filter _ ts) as [|? [|? ?]]|congruence].
Qed.

Lemma buildObject_fuel fuel m st : (any_depth (VMap m) <= fuel)%nat -> build fuel m st <> Err None.
Proof.
  revert m st. induction fuel as [|f IH]; intros m st Hd; [simpl in Hd; lia|]. cbn [buildObject].
  match goal with |- context [each ?g ?l st] => assert (He : each g l st <> Err None) end.
  2:{ destruct (each _ (sortedKeys m) st) as [[ts s]|e]; [by destruct ts as [|? [|? ?]]|congruence]. }
  apply each_fuel. intros k s Hk. cbv zeta. unfold validateField.
  destruct (has_prefix "$" k); [|destruct (GetField _ _ k); [apply buildFieldCondition_fuel|done]].
  apply buildLogical_fuel. intros m' s' Hm'. apply IH.
  assert (any_depth (dict_at m k) < any_depth (VMap m))%nat; [|lia]. clear -Hk.
  unfold sortedKeys in Hk. rewrite sort_strings_perm in Hk. unfold dict_at.
  destruct (dict_get k m) as [x|] eqn:E; [|simpl; lia]. simpl default. apply (depth_entry m k). clear Hk.
  induction m as [|[k' y] m IH]; [done|]. simpl in E. destruct (String.eqb_spec k' k) as [->|]; [|right; auto].
  injection E as ->. by left.
Qed.

Lemma translate_builds filter :
  wf filter = true ->
  exists c params, Translate strings_EqualFold fmt_v schema d filter = Ok (text c, params) /\
    (forall db l, eval_sql db (params ++ l) c = sem db filter) /\ columns c ⊆ schema_columns /\
    (Forall (fun col => no_at col = true) schema_columns -> good params (print d c)) /\
    p_Name <$> params = (fun i => param_name (Z.of_nat i)) <$> seq 0 (length params).
Proof.
  intros Hw. destruct (wf_is_map _ Hw) as [m ->]. unfold Translate.
  destruct (buildObject_builds (any_depth (VMap m)) m (MkT 0 []) Hw) as (c & new & st' & -> & [Hn _] & _ & Hm & Hc & Hg);
    [done|done|]. exists c, (t_params st'). split_and!; [done| |done|done|done].
  intros db l. by rewrite Hm.
Qed.

(** ** Properties *)

(** C18. The SQL a well-formed filter translates to means what the filter means: the
    text is the print of a condition over columns of the schema, whose value in
    SQL's three-valued logic under the returned parameters is the value of the
    filter, for every row and every way the database compares values; no value
    and no field name of the filter reaches the text, values only travel as the
    parameters p0, p1, ..., which are numbered without gaps. *)
Theorem translate_correct filter :
  wf filter = true ->
  exists c params, Translate strings_EqualFold fmt_v schema d filter = Ok (text c, params) /\
    (forall db, eval_sql db params c = sem db filter) /\ columns c ⊆ schema_columns /\
    p_Name <$> params = (fun i => param_name (Z.of_nat i)) <$> seq 0 (length params).
Proof.
  intros Hw. destruct (translate_builds filter Hw) as (c & params & H1 & H2 & H3 & _ & H4).
  exists c, params. split_and!; [done| |done|done]. intros db. by rewrite <- (H2 db []), app_nil_r.
Qed.

(** The translator is total: every filter value, well-formed or not, is
    translated or refused with a filter error; the recursion never runs out. *)
Theorem translate_total filter : Translate strings_EqualFold fmt_v schema d filter <> Err None.
Proof.
  unfold Translate. destruct filter as [| | | | | | | | | | |m|]; try done.
  pose proof (buildObject_fuel (any_depth (VMap m)) m (MkT 0 []) ltac:(lia)) as H.
  destruct (build _ m _) as [[s st]|e]; [done|congruence].
Qed.
End Correct.

(** ** Witnesses and examples *)

Definition sample_schema : SqlMemoryNodeSchema :=
  MkSqlSchema "products" "id"
    [MkSqlField "id" "number" "" false ""; MkSqlField "name" "string" "" true "product_name";
     MkSqlField "price" "number" "" true ""].

Definition sample_filter : any :=
  VMap [("price", VMap [("$gte", VInt KInt 5); ("$lt", VInt KInt 9)]);
        ("$or", VSlice [VMap [("name", VMap [("$in", VSlice [VString "a"; VString "b"])])];
                        VMap [("$not", VMap [("id", VMap [("$eq", VInt KInt 7)])])]])].

Abbreviation sample_translate := (Translate String.eqb (fun _ => "") sample_schema DialectSqlServer).

Example sample_sql :
  (let? (s, ps) := sample_translate sample_filter in Ok (s, p_Name <$> ps)) =
  Ok ("(([product_name] IN @p0 OR NOT ([id] = @p1)) AND ([price] >= @p2 AND [price] < @p3))",
      ["p0"; "p1"; "p2"; "p3"]).
Proof. vm_compute. reflexivity. Qed.

Example translate_correct_witness :
  exists c params, sample_translate sample_filter = Ok (render (print DialectSqlServer c), params) /\
    (forall db, eval_sql db params c = filter_sem String.eqb (fun _ => "") sample_schema db sample_filter) /\
    columns c ⊆ ResolvedColumnName <$> Fields sample_schema /\
    p_Name <$> params = (fun i => param_name (Z.of_nat i)) <$> seq 0 (length params).
Proof.
  apply (translate_correct String.eqb (fun _ => "") sample_schema DialectSqlServer sample_filter).
  vm_compute. reflexivity.
Defined.

(** An empty group beside another member leaves its empty clause in the
    conjunction, and a field with no operator an empty pair of parentheses: the
    text returned without an error is not SQL. *)
Example empty_group_malformed :
  (let? (s, _) := sample_translate (VMap [("$and", VSlice []); ("id", VMap [("$eq", VInt KInt 1)])]) in Ok s)
    = Ok "( AND [id] = @p0)" /\
  (let? (s, _) := sample_translate (VMap [("id", VMap [])]) in Ok s) = Ok "()".
Proof. vm_compute. done. Qed.
