(* ===== verification/NwpSql.v ===== *)
(** * NWP memory nodes over SQL: queries, cursors, placeholders, streaming

    nwp/sql_query_builder.go and nwp/sql_memory_node_provider.go over the filter
    translator of NwpFilter.v.  The database is the argument [executor]; reading
    the member o of a cursor document with encoding/json is the argument
    [unmarshal_o], with what the code relies on as a hypothesis. *)

From S2P Require Import Prelude GoValue NopModels NopInput NopCondition GoBase64 NwpFilter.
From Stdlib Require Import Ascii.

(** ** Cursors *)

Definition cursor_doc (n : Z) : string :=
  "{" +:+ String (chr 34) "o" +:+ String (chr 34) ":" +:+ FormatUint n +:+ "}".

Definition EncodeCursor (nextOffset : Z) : string :=
  if nextOffset <=? 0 then "" else RawURL_Encode (bytes_of_string (cursor_doc nextOffset)).

Section Cursor.
(** The literal of member o, [None] when the document does not decode. *)
Context (unmarshal_o : list byte -> option string).

Definition DecodeCursor (cursor : string) : Z :=
  if String.eqb cursor "" then 0
  else
    match (match RawURL_Decode cursor with Some data => Some data | None => URL_Decode cursor end) with
    | None => 0
    | Some data =>
        match unmarshal_o data with
        | None => 0
        | Some lit => let '(n, ok) := Number_Int64 lit in if ok then n else 0
        end
    end.
End Cursor.

(** ** SqlQueryBuilder *)

Record SqlQueryOptions : Type := MkQueryOptions { DefaultLimit : Z; MaxLimit : Z }.
Record SqlOrderClause : Type := MkOrder { o_Field : string; o_Dir : string }.

Record QueryFrame : Type := MkQuery {
  q_AnchorRef : string; q_Filter : any; q_Order : any; q_Fields : list string; q_VectorSearch : any;
  q_Cursor : option string; q_TokenBudget : option Z; q_Tokenizer : option string; q_RequestID : option string;
  q_AutoAnchor : option bool; q_Stream : option bool; q_Aggregate : any; q_Limit : option Z; q_Offset : option Z;
  q_Depth : option Z
}.

Definition order_entry (m : dict) : list SqlOrderClause :=
  let field := default "" (as_string (dict_at m "field")) in
  if String.eqb field "" then [] else [MkOrder field (default "" (as_string (dict_at m "dir")))].

Definition OrderClausesFromJSON (order : any) : list SqlOrderClause :=
  match order with
  | VMap m => order_entry m
  | VSlice l => flat_map (fun e => match e with VMap m => order_entry m | _ => [] end) l
  | _ => []
  end.

Definition clamp_limit (frameLimit : Z) (options : SqlQueryOptions) : Z :=
  let limit := if frameLimit =? 0 then DefaultLimit options else frameLimit in
  if (0 <? MaxLimit options) && (MaxLimit options <? limit) then MaxLimit options else limit.

Section Builder.
Context (strings_EqualFold : string -> string -> bool) (fmt_v : any -> string).
Context (unmarshal_o : list byte -> option string).
Context (schema : SqlMemoryNodeSchema) (dialect : DatabaseDialect).

Abbreviation field_of := (GetField strings_EqualFold schema).
Abbreviation quote := (quoteColumn dialect).

Definition select_column (f : SqlMemoryNodeField) : string :=
  let col := quote (ResolvedColumnName f) in
  if String.eqb (sf_ColumnName f) "" then col else col +:+ " AS " +:+ quote (sf_Name f).

Definition buildSelectList (fields : list string) : result (option NwpFilterError) string :=
  match fields with
  | [] => Ok (join ", " ((fun f => quote (ResolvedColumnName f)) <$> Fields schema))
  | _ =>
      match List.find (fun name => negb (HasField strings_EqualFold schema name)) fields with
      | Some name => fail ErrQueryFieldUnknown ("Unknown field '" +:+ name +:+ "'.")
      | None => Ok (join ", " (select_column <$> omap field_of fields))
      end
  end.

Fixpoint order_terms (order : list SqlOrderClause) : result (option NwpFilterError) (list string) :=
  match order with
  | [] => Ok []
  | o :: r =>
      match field_of (o_Field o) with
      | None => fail ErrQueryFieldUnknown ("Unknown order field '" +:+ o_Field o +:+ "'.")
      | Some f =>
          let dir := if EqualFold (o_Dir o) "desc" then "DESC" else "ASC" in
          let? ts := order_terms r in Ok ((quote (ResolvedColumnName f) +:+ " " +:+ dir) :: ts)
      end
  end.

Definition buildOrderBy (order : list SqlOrderClause) : result (option NwpFilterError) string :=
  let? ts := order_terms order in Ok (join ", " ts).

Definition pagination : string :=
  match dialect with
  | DialectSqlServer => " OFFSET @_offset ROWS FETCH NEXT @_limit ROWS ONLY"
  | DialectPostgreSql => " LIMIT @_limit OFFSET @_offset"
  end.

Definition where_clause (where_ : string) : string :=
  if String.eqb where_ "" then "" else " WHERE " +:+ where_.

Definition Build (fields : list string) (filter : any) (order : list SqlOrderClause) (frameLimit : Z)
    (cursor : string) (options : SqlQueryOptions) : result (option NwpFilterError) (string * list NwpSqlParam) :=
  let limit := clamp_limit frameLimit options in
  let offset := DecodeCursor unmarshal_o cursor in
  let? selectList := buildSelectList fields in
  let? (where_, params) := Translate strings_EqualFold fmt_v schema dialect filter in
  let? orderBy := match order with
                  | [] => Ok (quote (PrimaryKey schema))
                  | _ => buildOrderBy order
                  end in
  Ok ("SELECT " +:+ selectList +:+ " FROM " +:+ quote (TableName schema) +:+ where_clause where_ +:+
      " ORDER BY " +:+ orderBy +:+ pagination,
      params ++ [MkParam "_limit" (VInt KInt (i64 limit)); MkParam "_offset" (VInt KInt offset)]).

Definition BuildCount (filter : any) : result (option NwpFilterError) (string * list NwpSqlParam) :=
  let? (where_, params) := Translate strings_EqualFold fmt_v schema dialect filter in
  Ok ("SELECT COUNT(*) FROM " +:+ quote (TableName schema) +:+ where_clause where_, params).

(** ** Placeholders *)

(** [byName]: a later parameter hides an earlier one of the same name. *)
Definition byName (params : list NwpSqlParam) : gmap string any :=
  fold_left (fun m p => <[p_Name p := p_Value p]> m) params ∅.

Definition placeholder (pos : Z) : string :=
  match dialect with DialectPostgreSql => "$" +:+ FormatUint pos | DialectSqlServer => "?" end.

(** The text and the arguments for one bound value, with [pos] already used. *)
Definition bind_value (pos : Z) (val : any) : string * list any :=
  match val with
  | VSlice vs =>
      ("(" +:+ join ", " ((fun k => placeholder (pos + 1 + Z.of_nat k)) <$> seq 0 (length vs)) +:+ ")", vs)
  | _ => (placeholder (pos + 1), [val])
  end.

Fixpoint rebind_loop (fuel : nat) (env : gmap string any) (s : string) (pos : Z) : string * list any :=
  match fuel, s with
  | S f, String c r =>
      let '(name, rest) := span isNameChar r in
      match (if Ascii.eqb c "@"%char then env !! name else None) with
      | Some val =>
          let '(t, args) := bind_value pos val in
          let '(t2, args2) := rebind_loop f env rest (pos + Z.of_nat (length args)) in (t +:+ t2, args ++ args2)
      | None => let '(t2, args2) := rebind_loop f env r pos in (String c t2, args2)
      end
  | _, _ => ("", [])
  end.

Definition RebindNamedParams (namedSQL : string) (params : list NwpSqlParam) : string * list any :=
  rebind_loop (String.length namedSQL) (byName params) namedSQL 0.

(** ** SqlMemoryNodeProvider *)

Context (executor : string -> list any -> go_result (list dict)).
Context (options : SqlQueryOptions).

Definition frameLimit (q : QueryFrame) : Z := default 0 (q_Limit q).
Definition frameCursor (q : QueryFrame) : string := default "" (q_Cursor q).

Definition BuildQuerySQL (q : QueryFrame) : result (option NwpFilterError) (string * list NwpSqlParam) :=
  Build (q_Fields q) (q_Filter q) (OrderClausesFromJSON (q_Order q)) (frameLimit q) (frameCursor q) options.

Definition BuildCountSQL (q : QueryFrame) : result (option NwpFilterError) (string * list NwpSqlParam) :=
  BuildCount (q_Filter q).

Definition filter_error (e : option NwpFilterError) : go_error :=
  ErrPlain (match e with Some e => fe_Message e | None => "" end).

Definition run_query (q : QueryFrame) : go_result (list dict) :=
  match BuildQuerySQL q with
  | Err e => Err (filter_error e)
  | Ok (namedSQL, params) => let '(sqlText, args) := RebindNamedParams namedSQL params in executor sqlText args
  end.

Definition Query (q : QueryFrame) : go_result (list dict * string) :=
  let? rows := run_query q in
  let limit := clamp_limit (frameLimit q) options in
  Ok (rows, if Z.of_nat (length rows) =? limit
            then EncodeCursor (i64 (DecodeCursor unmarshal_o (frameCursor q) + i64 limit)) else "").

Definition Count (query_scalar : string -> list any -> go_result Z) (q : QueryFrame) : go_result Z :=
  match BuildCountSQL q with
  | Err e => Err (filter_error e)
  | Ok (namedSQL, params) => let '(sqlText, args) := RebindNamedParams namedSQL params in query_scalar sqlText args
  end.

Definition page_frame (q : QueryFrame) (pageLimit : Z) (cursor : string) : QueryFrame :=
  MkQuery (q_AnchorRef q) (q_Filter q) (q_Order q) (q_Fields q) (q_VectorSearch q) (Some cursor) (q_TokenBudget q)
    (q_Tokenizer q) (q_RequestID q) (q_AutoAnchor q) (q_Stream q) (q_Aggregate q) (Some pageLimit) (q_Offset q)
    (q_Depth q).

(** The pages sent and the error, if one was; [cancelled i] is the context at
    iteration [i]; [None] is running out of fuel. *)
Fixpoint stream_pages (fuel : nat) (cancelled : nat -> bool) (i : nat) (q : QueryFrame) (pageLimit : Z)
    (cursor : string) : option (list (list dict) * option go_error) :=
  match fuel with
  | O => None
  | S f =>
      if cancelled i then Some ([], None)
      else match run_query (page_frame q pageLimit cursor) with
           | Err e => Some ([], Some e)
           | Ok [] => Some ([], None)
           | Ok rows =>
               if negb (Z.of_nat (length rows) =? pageLimit) then Some ([rows], None)
               else match stream_pages f cancelled (S i) q pageLimit
                            (EncodeCursor (i64 (DecodeCursor unmarshal_o cursor + i64 (Z.of_nat (length rows))))) with
                    | Some (pages, e) => Some (rows :: pages, e)
                    | None => None
                    end
           end
  end.

Definition Stream (fuel : nat) (cancelled : nat -> bool) (q : QueryFrame) :
    option (list (list dict) * option go_error) :=
  stream_pages fuel cancelled 0 q (clamp_limit (frameLimit q) options) (frameCursor q).
End Builder.

(** [NewSqlMemoryNodeProvider]: the limits a provider works with. *)
Definition provider_options (o : SqlQueryOptions) : SqlQueryOptions :=
  MkQueryOptions (if DefaultLimit o =? 0 then 20 else DefaultLimit o)
    (if MaxLimit o =? 0 then 1000 else MaxLimit o).

(** ** Cursors *)

(** What the code relies on of encoding/json: it reads back the member of the
    documents [EncodeCursor] writes. *)
Definition reads_cursors (unmarshal_o : list byte -> option string) : Prop :=
  forall n, 0 < n -> unmarshal_o (bytes_of_string (cursor_doc n)) = Some (FormatUint n).

Lemma FormatUint_first n : 0 <= n -> exists c s, FormatUint n = String c s /\ is_Some (char_digit c).
Proof.
  intros Hn. pose proof (FormatUint_nonempty n). pose proof (parse_FormatUint n Hn) as Hp.
  destruct (FormatUint n) as [|c s]; [done|]. exists c, s. split; [done|]. simpl in Hp.
  by destruct (char_digit c).
Qed.

Lemma Number_Int64_FormatUint n : 0 <= n < 2 ^ 63 -> Number_Int64 (FormatUint n) = (n, true).
Proof.
  intros Hn. destruct (FormatUint_first n) as (c & s & E & Hc); [lia|].
  pose proof (parse_FormatUint n ltac:(lia)) as Hp. unfold Number_Int64. rewrite E in *.
  destruct (Ascii.eqb_spec c (chr 45)) as [->|_]; [by destruct Hc|].
  destruct (Ascii.eqb_spec c (chr 43)) as [->|_]; [by destruct Hc|].
  rewrite Hp. by rewrite (proj2 (Z.ltb_lt _ _)) by lia.
Qed.

Lemma cursor_decode unmarshal_o n :
  reads_cursors unmarshal_o -> 0 <= n < 2 ^ 63 -> DecodeCursor unmarshal_o (EncodeCursor n) = n.
Proof.
  intros Hr Hn. unfold EncodeCursor. destruct (n <=? 0) eqn:E; bool_hyps; unfold DecodeCursor; [simpl; lia|].
  destruct (bytes_of_string (cursor_doc n)) as [|a l] eqn:Eb; [done|].
  pose proof (RawURL_Encode_nonempty a l) as Hne. apply String.eqb_neq in Hne. rewrite Hne, RawURL_roundtrip, <- Eb.
  rewrite Hr by lia. by rewrite Number_Int64_FormatUint.
Qed.

(** ** Lemmas: placeholders *)

(** The text with positional placeholders, and the arguments in their order. *)
Fixpoint positional (d : DatabaseDialect) (env : gmap string any) (pos : Z) (ps : list piece) : string * list any :=
  match ps with
  | [] => ("", [])
  | Lit s :: r => let '(t, args) := positional d env pos r in (s +:+ t, args)
  | Ref n :: r =>
      let '(t, args) := bind_value d pos (default VNil (env !! n)) in
      let '(t2, args2) := positional d env (pos + Z.of_nat (length args)) r in (t +:+ t2, args ++ args2)
  end.

Lemma span_shorter P s : (String.length (span P s).2 <= String.length s)%nat.
Proof. induction s as [|c s IH]; simpl; [done|]. destruct (P c); [|done]. destruct (span P s). simpl in *. lia. Qed.

(** Any fuel that covers the text gives the same result. *)
Lemma rebind_fuel d env f f' s pos :
  (String.length s <= f)%nat -> (String.length s <= f')%nat -> rebind_loop d f env s pos = rebind_loop d f' env s pos.
Proof.
  revert f' s pos. induction f as [|f IH]; intros f' s pos Hf Hf'.
  { destruct s; [by destruct f'|simpl in Hf; lia]. }
  destruct s as [|c r]; [by destruct f'|]. destruct f' as [|f']; [simpl in Hf'; lia|]. simpl in Hf, Hf'.
  cbn [rebind_loop]. pose proof (span_shorter isNameChar r) as Hs. destruct (span isNameChar r) as [name rest]. simpl in Hs.
  destruct (if Ascii.eqb c "@"%char then env !! name else None) as [val|].
  - destruct (bind_value d pos val) as [t args]. by rewrite (IH f') by lia.
  - by rewrite (IH f') by lia.
Qed.

Lemma rebind_char d env c r pos f :
  c <> "@"%char -> (S (String.length r) <= f)%nat ->
  rebind_loop d f env (String c r) pos =
    let '(t, args) := rebind_loop d (String.length r) env r pos in (String c t, args).
Proof.
  intros Hc Hf. destruct f as [|f]; [lia|]. cbn [rebind_loop]. apply Ascii.eqb_neq in Hc. rewrite Hc.
  destruct (span isNameChar r). by rewrite (rebind_fuel d env f (String.length r)) by lia.
Qed.

Lemma rebind_lit d env s rest pos f :
  no_at s = true -> (String.length (s +:+ rest) <= f)%nat ->
  rebind_loop d f env (s +:+ rest) pos =
    let '(t, args) := rebind_loop d (String.length rest) env rest pos in (s +:+ t, args).
Proof.
  revert f. induction s as [|c s IH]; intros f Hn Hf.
  - change ("" +:+ rest) with rest in *. rewrite (rebind_fuel d env f (String.length rest)) by lia.
    by destruct (rebind_loop _ _ _ _ _).
  - change (String c s +:+ rest) with (String c (s +:+ rest)) in *. unfold no_at in Hn. simpl in Hn.
    apply negb_true_iff, orb_false_iff in Hn as [Hc Hs]. rewrite rebind_char; [|by apply Ascii.eqb_neq|simpl in Hf; lia].
    rewrite IH; [|unfold no_at; by rewrite Hs|done]. by destruct (rebind_loop _ _ env rest pos).
Qed.

(** Every character of a name is a name character. *)
Fixpoint all_name (s : string) : bool :=
  match s with EmptyString => true | String c r => isNameChar c && all_name r end.

Definition starts_outside (s : string) : bool :=
  match s with EmptyString => true | String c _ => negb (isNameChar c) end.

Lemma span_name n rest : all_name n = true -> starts_outside rest = true -> span isNameChar (n +:+ rest) = (n, rest).
Proof.
  intros Hn Hr. induction n as [|c n IH].
  - change ("" +:+ rest) with rest. destruct rest as [|c r]; [done|]. simpl in *. by destruct (isNameChar c).
  - change (String c n +:+ rest) with (String c (n +:+ rest)). simpl in *. apply andb_prop in Hn as [-> Hn].
    by rewrite IH.
Qed.

Lemma sep_ok_outside n l : sep_ok (Ref n :: l) = true -> starts_outside (render l) = true /\ sep_ok l = true.
Proof.
  destruct l as [|[[|c s]|m] l]; cbn [sep_ok]; [done|done| |done]. intros [H1 H2]%andb_prop. split; [|exact H2].
  simpl. exact H1.
Qed.

(** The names of the parameters that are bound. *)
Definition env_covers (env : gmap string any) (params : list NwpSqlParam) : Prop :=
  Forall (fun p => is_Some (env !! p_Name p) /\ all_name (p_Name p) = true) params.

Lemma rebind_pieces d env params ps pos :
  env_covers env params -> good params ps ->
  rebind_loop d (String.length (render ps)) env (render ps) pos = positional d env pos ps.
Proof.
  intros Henv. revert pos. induction ps as [|[s|n] ps IH]; intros pos [Hf Hs]; [done|..].
  - apply Forall_cons in Hf as [Hp Hf]. change (render (Lit s :: ps)) with (s +:+ render ps).
    rewrite rebind_lit by done. cbn [positional]. by rewrite IH.
  - apply Forall_cons in Hf as [Hp Hf]. apply sep_ok_outside in Hs as [Ho Hs]. simpl in Hp.
    apply list_elem_of_fmap in Hp as (p & -> & Hp). unfold env_covers in Henv. rewrite Forall_forall in Henv.
    destruct (Henv _ Hp) as [[v Hv] Hn].
    change (render (Ref (p_Name p) :: ps)) with (String "@"%char (p_Name p +:+ render ps)).
    cbn [String.length rebind_loop]. rewrite span_name by done. change (Ascii.eqb "@" "@") with true. cbn match.
    cbn [positional]. rewrite Hv. cbn [default from_option id]. destruct (bind_value d pos v) as [t args].
    rewrite (rebind_fuel d env _ (String.length (render ps))) by (rewrite ?str_length_app; lia).
    by rewrite IH.
Qed.

(** ** Lemmas: the text of a query *)

Lemma no_at_join sep l : no_at sep = true -> Forall (fun s => no_at s = true) l -> no_at (join sep l) = true.
Proof.
  intros Hs. induction 1 as [|x l Hx Hl IH]; [done|]. destruct l as [|y l]; [done|].
  change (join sep (x :: y :: l)) with (x +:+ sep +:+ join sep (y :: l)). by repeat apply no_at_app.
Qed.

Lemma digits_all_name s a n : parse_digits s a = Some n -> all_name s = true.
Proof.
  revert a. induction s as [|c s IH]; intros a; simpl; [done|]. destruct (char_digit c) eqn:E; [|done].
  intros H%IH. rewrite H, andb_true_r. unfold isNameChar, isAlnum, isDigit. by rewrite E.
Qed.

Lemma param_name_all n : 0 <= n -> all_name (param_name n) = true.
Proof. intros Hn. exact (digits_all_name _ _ _ (parse_FormatUint n Hn)). Qed.

Lemma byName_covers (ps : list NwpSqlParam) p : p ∈ ps -> is_Some (byName ps !! p_Name p).
Proof.
  unfold byName. assert (H : forall l (m : gmap string any), (p ∈ l \/ is_Some (m !! p_Name p)) ->
    is_Some (fold_left (fun m p => <[p_Name p := p_Value p]> m) l m !! p_Name p)).
  { induction l as [|q l IH]; intros m [Hin|Hm]; simpl; [by apply elem_of_nil in Hin|done|..]; apply IH.
    - apply elem_of_cons in Hin as [->|]; [right; by rewrite lookup_insert_eq|by left].
    - right. destruct (decide (p_Name q = p_Name p)) as [->|]; [by rewrite lookup_insert_eq|by rewrite lookup_insert_ne]. }
  intros Hp. apply H. by left.
Qed.

Definition page_pieces (d : DatabaseDialect) : list piece :=
  match d with
  | DialectSqlServer => [Lit " OFFSET "; Ref "_offset"; Lit " ROWS FETCH NEXT "; Ref "_limit"; Lit " ROWS ONLY"]
  | DialectPostgreSql => [Lit " LIMIT "; Ref "_limit"; Lit " OFFSET "; Ref "_offset"]
  end.

Lemma render_page d : render (page_pieces d) = pagination d.
Proof. by destruct d. Qed.

Section Query.
Context (strings_EqualFold : string -> string -> bool) (fmt_v : any -> string).
Context (unmarshal_o : list byte -> option string).
Context (schema : SqlMemoryNodeSchema) (d : DatabaseDialect).

(** No identifier of the schema contains an @. *)
Definition schema_clean : Prop :=
  no_at (TableName schema) = true /\ no_at (PrimaryKey schema) = true /\
  Forall (fun f => no_at (sf_Name f) = true /\ no_at (sf_ColumnName f) = true) (Fields schema).

Lemma clean_column f : schema_clean -> f ∈ Fields schema -> no_at (ResolvedColumnName f) = true /\ no_at (sf_Name f) = true.
Proof.
  intros (_ & _ & Hc) Hf. rewrite Forall_forall in Hc. destruct (Hc f Hf). unfold ResolvedColumnName.
  by destruct (String.eqb (sf_ColumnName f) "").
Qed.

Lemma field_of_elem k f : GetField strings_EqualFold schema k = Some f -> f ∈ Fields schema.
Proof. intros [H _]%find_some. by apply list_elem_of_In in H. Qed.

Lemma select_no_at fields s :
  schema_clean -> buildSelectList strings_EqualFold schema d fields = Ok s -> no_at s = true.
Proof.
  intros Hc. unfold buildSelectList. destruct fields as [|x fields].
  - intros [= <-]. apply no_at_join; [done|]. apply Forall_fmap, Forall_forall. intros f Hf.
    apply no_at_quote. by apply clean_column.
  - destruct (List.find _ _); [done|]. intros [= <-]. apply no_at_join; [done|]. apply Forall_fmap, Forall_forall.
    intros f Hf.
    destruct (proj1 (list_elem_of_omap (GetField strings_EqualFold schema) (x :: fields) f) Hf) as (k & _ & Hk).
    apply field_of_elem in Hk.
    destruct (clean_column f Hc Hk) as [H1 H2]. unfold select_column. simpl.
    destruct (String.eqb _ ""); repeat apply no_at_app; try done; by apply no_at_quote.
Qed.

Lemma order_no_at order s :
  schema_clean -> buildOrderBy strings_EqualFold schema d order = Ok s -> no_at s = true.
Proof.
  intros Hc. unfold buildOrderBy. destruct (order_terms _ _ _ _) as [ts|] eqn:E; [|done]. intros [= <-].
  apply no_at_join; [done|]. revert ts E. induction order as [|o order IH]; intros ts; cbn [order_terms]; [intros [= <-]; constructor|].
  destruct (GetField _ _ _) as [f|] eqn:Ef; [|done]. cbv zeta. destruct (order_terms _ _ _ order) as [us|]; [|done].
  intros [= <-]. constructor; [|by apply IH]. apply field_of_elem in Ef.
  repeat apply no_at_app; [apply no_at_quote; by apply clean_column|done|by match goal with |- no_at (if ?b then _ else _) = true => destruct b end].
Qed.

(** The text of a query as pieces. *)
Definition query_pieces (selectList orderBy : string) (where_ : option sql) : list piece :=
  Lit ("SELECT " +:+ selectList +:+ " FROM " +:+ quoteColumn d (TableName schema))
  :: match where_ with Some c => Lit " WHERE " :: print d c | None => [] end
  ++ Lit (" ORDER BY " +:+ orderBy) :: page_pieces d.

Lemma render_query sel ord where_ :
  "SELECT " +:+ sel +:+ " FROM " +:+ quoteColumn d (TableName schema) +:+
    where_clause (match where_ with Some c => render (print d c) | None => "" end) +:+
    " ORDER BY " +:+ ord +:+ pagination d = render (query_pieces sel ord where_).
Proof.
  unfold query_pieces. change (render (Lit ?s :: ?r)) with (s +:+ render r). rewrite render_app.
  change (render (Lit ?s :: page_pieces d)) with (s +:+ render (page_pieces d)). rewrite render_page, !str_app_assoc.
  do 4 f_equal. destruct where_ as [c|]; [|done]. unfold where_clause.
  pose proof (render_print_nonempty d c) as Hne. apply String.eqb_neq in Hne. by rewrite Hne.
Qed.

Definition page_params (limit offset : Z) : list NwpSqlParam :=
  [MkParam "_limit" (VInt KInt limit); MkParam "_offset" (VInt KInt offset)].

Lemma query_good sel ord where_ params limit offset :
  schema_clean -> no_at sel = true -> no_at ord = true ->
  match where_ with Some c => good params (print d c) | None => True end ->
  good (params ++ page_params limit offset) (query_pieces sel ord where_).
Proof.
  intros (Ht & _) Hs Ho Hw.
  assert (Hp : good (params ++ page_params limit offset) (page_pieces d)).
  { split; [|by destruct d]. assert ("_limit" ∈ p_Name <$> params ++ page_params limit offset /\
      "_offset" ∈ p_Name <$> params ++ page_params limit offset) as [H1 H2]
      by (rewrite fmap_app; set_solver). destruct d; repeat constructor; done. }
  apply good_lit; [repeat apply no_at_app; try done; by apply no_at_quote|].
  assert (Hn : no_at (" ORDER BY " +:+ ord) = true) by (by apply no_at_app).
  destruct where_ as [c|]; [|by apply good_lit]. simpl. apply good_lit; [done|].
  apply good_app; [by apply good_later|done|exact Hn|done].
Qed.

(** A query reaches the driver as it was meant: for a schema without @ in its
    identifiers and a well-formed filter, the text Build returns is the SELECT over
    the pieces of a condition that means the filter, every placeholder in it is
    bound, and rebinding yields the same text with positional placeholders in
    place of the names, with exactly the bound values, in the order of their
    placeholders, as arguments. *)
Theorem query_executes fields filter order limit cursor options sql_ params :
  schema_clean -> filter_wf strings_EqualFold fmt_v schema filter = true ->
  Build strings_EqualFold fmt_v unmarshal_o schema d fields filter order limit cursor options = Ok (sql_, params) ->
  exists c sel ord, sql_ = render (query_pieces sel ord (Some c)) /\
    (forall db, eval_sql db params c = filter_sem strings_EqualFold fmt_v schema db filter) /\
    good params (query_pieces sel ord (Some c)) /\
    RebindNamedParams d sql_ params = positional d (byName params) 0 (query_pieces sel ord (Some c)).
Proof.
  intros Hc Hw. unfold Build. cbv zeta. destruct (buildSelectList _ _ _ fields) as [sel|] eqn:Es; [|done].
  destruct (translate_builds strings_EqualFold fmt_v schema d filter Hw) as (c & ps & -> & Hm & _ & Hg & Hn).
  destruct (match order with [] => _ | _ => _ end) as [ord|] eqn:Eo; [|done]. intros [= <- <-].
  assert (Hord : no_at ord = true).
  { destruct order; [injection Eo as <-; apply no_at_quote, Hc|by eapply order_no_at]. }
  assert (Hcol : Forall (fun col => no_at col = true) (ResolvedColumnName <$> Fields schema)).
  { apply Forall_fmap, Forall_forall. intros f Hf. by apply clean_column. }
  change [MkParam "_limit" ?l; MkParam "_offset" ?o] with (page_params (i64 (clamp_limit limit options)) (DecodeCursor unmarshal_o cursor)).
  exists c, sel, ord. rewrite (render_query sel ord (Some c)).
  assert (Hgood : good (ps ++ page_params (i64 (clamp_limit limit options)) (DecodeCursor unmarshal_o cursor))
    (query_pieces sel ord (Some c))).
  { apply query_good; [done|by eapply select_no_at|done|by apply Hg]. }
  split_and!; [done|intros db; apply Hm|done|]. eapply rebind_pieces; [|exact Hgood].
  apply Forall_forall. intros p Hp. split; [by apply byName_covers|]. apply elem_of_app in Hp as [Hp|Hp].
  - assert (p_Name p ∈ p_Name <$> ps) as Hin by (by apply list_elem_of_fmap_2). rewrite Hn in Hin.
    apply list_elem_of_fmap in Hin as (i & -> & _). apply param_name_all. lia.
  - unfold page_params in Hp. apply elem_of_cons in Hp as [->|Hp]; [done|].
    by apply list_elem_of_singleton in Hp as ->.
Qed.
End Query.

(** ** Streaming *)

Lemma clamp_idem l o : clamp_limit l o <> 0 -> clamp_limit (clamp_limit l o) o = clamp_limit l o.
Proof.
  intros Hz. unfold clamp_limit at 1. rewrite (proj2 (Z.eqb_neq _ _) Hz).
  destruct (_ && _) eqn:E; [|done]. bool_hyps. unfold clamp_limit in *.
  destruct (_ && _) eqn:E2; [done|]. destruct (l =? 0); bool_hyps; apply andb_false_iff in E2; rewrite !Z.ltb_ge in E2; lia.
Qed.

Section Streaming.
Context (strings_EqualFold : string -> string -> bool) (fmt_v : any -> string).
Context (unmarshal_o : list byte -> option string) (schema : SqlMemoryNodeSchema) (d : DatabaseDialect).
Context (executor : string -> list any -> go_result (list dict)) (options : SqlQueryOptions).

Abbreviation run_q := (run_query strings_EqualFold fmt_v unmarshal_o schema d executor options).
Abbreviation decode := (DecodeCursor unmarshal_o).

(** The database answers every page of [q] with the window that LIMIT and OFFSET
    cut out of the same ordered result [rows]. *)
Definition answers (q : QueryFrame) (rows : list dict) : Prop :=
  forall limit cursor, 0 < limit -> 0 <= decode cursor ->
    run_q (page_frame q limit cursor) =
      Ok (take (Z.to_nat (clamp_limit limit options)) (drop (Z.to_nat (decode cursor)) rows)).

(** Pages are full but the last one, which is not empty. *)
Definition paged (limit : Z) (pages : list (list dict)) : Prop :=
  forall i p, pages !! i = Some p ->
    p <> [] /\ Z.of_nat (length p) <= limit /\ (S i < length pages -> Z.of_nat (length p) = limit)%nat.

Lemma paged_cons limit p pages :
  p <> [] -> Z.of_nat (length p) = limit -> paged limit pages -> paged limit (p :: pages).
Proof.
  intros Hp Hl Hs [|i] p' Hi; simpl in Hi.
  - injection Hi as <-. split_and!; [done|lia|done].
  - destruct (Hs i p' Hi) as (H1 & H2 & H3). split_and!; [done|done|]. simpl. intros. apply H3. lia.
Qed.

Lemma paged_last limit p : p <> [] -> Z.of_nat (length p) <= limit -> paged limit [p].
Proof. intros Hp Hl [|i] p' Hi; simpl in Hi; [|done]. injection Hi as <-. split_and!; [done|done|simpl; lia]. Qed.

Lemma stream_pages_complete q rows limit fuel i cursor :
  reads_cursors unmarshal_o -> answers q rows -> 0 < limit -> clamp_limit limit options = limit ->
  Z.of_nat (length rows) < 2 ^ 63 -> 0 <= decode cursor ->
  (length rows - Z.to_nat (decode cursor) < fuel)%nat ->
  exists pages, stream_pages strings_EqualFold fmt_v unmarshal_o schema d executor options fuel (fun _ => false) i q
      limit cursor = Some (pages, None) /\
    concat pages = drop (Z.to_nat (decode cursor)) rows /\ paged limit pages.
Proof.
  intros Hr Ha Hl Hc Hn. revert i cursor. induction fuel as [|f IH]; intros i cursor Ho Hf; [lia|].
  cbn [stream_pages]. rewrite Ha, Hc by done.
  set (off := Z.to_nat (decode cursor)) in *. set (page := take (Z.to_nat limit) (drop off rows)).
  assert (Hlen : length page = Nat.min (Z.to_nat limit) (length rows - off)%nat)
    by (unfold page; by rewrite length_take, length_drop).
  destruct page as [|r rs] eqn:Ep; cbv zeta.
  { exists []. split_and!; [done| |by intros i' p' ?]. simpl. simpl in Hlen.
    rewrite drop_ge by lia. done. }
  rewrite <- Ep in *. assert (Hne : page <> []) by (by rewrite Ep).
  assert (Hpos : (0 < length page)%nat) by (rewrite Ep; simpl; lia).
  destruct (Z.eqb_spec (Z.of_nat (length page)) limit) as [El|El]; cbn [negb].
  - rewrite (wraps_small 64 (Z.of_nat (length page))), (wraps_small 64 (decode cursor + _)) by lia.
    set (cursor' := EncodeCursor (decode cursor + Z.of_nat (length page))).
    assert (Hd : decode cursor' = decode cursor + Z.of_nat (length page))
      by (subst cursor'; apply cursor_decode; [done|lia]).
    destruct (IH (S i) cursor') as (pages & -> & Hcat & Hpg); [lia|lia|].
    exists (page :: pages). split_and!; [done| |by apply paged_cons]. simpl. rewrite Hcat, Hd.
    assert (Z.to_nat (decode cursor + Z.of_nat (length page)) = (off + length page)%nat) as -> by lia.
    rewrite <- drop_drop. assert (length page = Z.to_nat limit) as -> by lia. apply take_drop.
  - exists [page]. split_and!; [done| |apply paged_last; [done|lia]]. simpl. rewrite app_nil_r.
    unfold page. apply take_ge. rewrite length_drop. lia.
Qed.

(** Streaming delivers the whole result once: whatever cursor the request
    carries, the pages that a stream sends, in order, are the rows from that
    offset to the end, each page but the last full and none empty, and the stream
    ends without an error; the cursor it encodes for the next page decodes to the
    offset it stands for. *)
Theorem stream_complete q rows fuel :
  let limit := clamp_limit (frameLimit q) options in
  reads_cursors unmarshal_o -> answers q rows -> 0 < limit ->
  Z.of_nat (length rows) < 2 ^ 63 -> 0 <= decode (frameCursor q) -> (length rows < fuel)%nat ->
  exists pages, Stream strings_EqualFold fmt_v unmarshal_o schema d executor options fuel (fun _ => false) q =
      Some (pages, None) /\
    concat pages = drop (Z.to_nat (decode (frameCursor q))) rows /\ paged limit pages.
Proof.
  cbv zeta. intros Hr Ha Hl Hn Ho Hf. apply stream_pages_complete; try done; [|lia].
  apply clamp_idem. lia.
Qed.
End Streaming.

(** ** Witnesses *)

Lemma all_name_no_brace s : all_name s = true -> str_contains_char (chr 125) s = false.
Proof.
  induction s as [|c s IH]; cbn [all_name str_contains_char]; [done|]. intros [Hc Hs]%andb_prop. rewrite (IH Hs), orb_false_r.
  destruct (Ascii.eqb_spec c (chr 125)) as [->|]; done.
Qed.

(** A reader of cursor documents. *)
Definition sample_unmarshal (data : list byte) : option string :=
  match cut_prefix ("{" +:+ String (chr 34) "o" +:+ String (chr 34) ":") (string_of_bytes data) with
  | Some rest => match split_on (chr 125) rest with lit :: _ => Some lit | [] => None end
  | None => None
  end.

Lemma sample_reads : reads_cursors sample_unmarshal.
Proof.
  intros n Hn. unfold sample_unmarshal. rewrite string_of_bytes_of_string.
  assert (cut_prefix ("{" +:+ String (chr 34) "o" +:+ String (chr 34) ":") (cursor_doc n) =
    Some (FormatUint n +:+ String (chr 125) "")) as -> by (by apply cut_prefix_Some).
  rewrite split_on_pair; [done| |done]. apply all_name_no_brace.
  apply (digits_all_name _ 0 n). apply parse_FormatUint. lia.
Qed.

(** A table of three rows behind LIMIT and OFFSET. *)
Definition three_rows : list dict := [[("id", VInt KInt64 1)]; [("id", VInt KInt64 2)]; [("id", VInt KInt64 3)]].
Definition sample_executor (_ : string) (args : list any) : go_result (list dict) :=
  match args with
  | [VInt _ offset; VInt _ limit] => Ok (take (Z.to_nat limit) (drop (Z.to_nat offset) three_rows))
  | _ => Err (ErrPlain "bad arguments")
  end.
Definition sample_options : SqlQueryOptions := MkQueryOptions 2 1000.
Definition all_products : QueryFrame := MkQuery "" VNil VNil [] VNil None None None None None None VNil None None None.

Lemma sample_answers :
  answers String.eqb (fun _ => "") sample_unmarshal sample_schema DialectSqlServer sample_executor sample_options
    all_products three_rows.
Proof.
  intros limit cursor Hl Hc.
  assert (Hi : i64 (clamp_limit limit sample_options) = clamp_limit limit sample_options).
  { apply wraps_small; [done|]. unfold clamp_limit, sample_options. simpl. destruct (limit =? 0); simpl;
      [lia|]. destruct (1000 <? limit) eqn:E; bool_hyps; lia. }
  transitivity (Ok (take (Z.to_nat (i64 (clamp_limit limit sample_options)))
    (drop (Z.to_nat (DecodeCursor sample_unmarshal cursor)) three_rows)) : go_result (list dict)).
  - unfold run_query, BuildQuerySQL, Build. simpl. reflexivity.
  - by rewrite Hi.
Qed.

Example stream_complete_witness :
  exists pages, Stream String.eqb (fun _ => "") sample_unmarshal sample_schema DialectSqlServer sample_executor
      sample_options 4 (fun _ => false) all_products = Some (pages, None) /\
    concat pages = three_rows /\ paged 2 pages.
Proof.
  apply (stream_complete String.eqb (fun _ => "") sample_unmarshal sample_schema DialectSqlServer sample_executor
    sample_options all_products three_rows 4);
    [apply sample_reads|apply sample_answers|vm_compute; done..|simpl; lia].
Defined.

Example query_executes_witness :
  exists c sel ord, 
    "SELECT [price] FROM [products] WHERE [price] > @p0 ORDER BY [id] OFFSET @_offset ROWS FETCH NEXT @_limit ROWS ONLY"
      = render (query_pieces sample_schema DialectSqlServer sel ord (Some c)).
Proof.
  destruct (query_executes String.eqb (fun _ => "") sample_unmarshal sample_schema DialectSqlServer
    ["price"] (VMap [("price", VMap [("$gt", VInt KInt 5)])]) [] 10 "" sample_options
    "SELECT [price] FROM [products] WHERE [price] > @p0 ORDER BY [id] OFFSET @_offset ROWS FETCH NEXT @_limit ROWS ONLY"
    [MkParam "p0" (VInt KInt 5); MkParam "_limit" (VInt KInt 10); MkParam "_offset" (VInt KInt 0)])
    as (c & sel & ord & H & _).
  - split_and!; [done|done|repeat constructor].
  - vm_compute. reflexivity.
  - vm_compute. reflexivity.
  - exists c, sel, ord. exact H.
Defined.
