(* ===== verification/NwpReputation.v ===== *)
(** * NWP reputation: the policy of a node and its evaluator

    nwp/reputation.go.  The evaluator keeps bans and a cache of log entries; the
    answer of a log source to a URL is a parameter ([None]: unreachable, a status
    other than 2xx or a body that does not decode).  An evaluation reads the clock
    before it asks the logs ([t0]) and after ([t1]).  [strings.EqualFold] of two
    arbitrary strings is a parameter.  A nil slice of entries is [None]. *)

From S2P Require Import Prelude.

(** ** Data *)

Record ReputationRule : Type := MkRule {
  r_Incident : string; r_Severity : string; WithinDays : option Z; r_Count : Z
}.

Record ReputationPolicy : Type := MkPolicy {
  Enabled : bool; LogSources : list string; MinAssuranceLevel : string; CacheTtlSeconds : Z; BanTtlSeconds : Z;
  OnLogUnavailable : string; ThrottleOn : list ReputationRule; RejectOn : list ReputationRule;
  BanOn : list ReputationRule
}.

Inductive ReputationOutcome : Set := RepAccept | RepThrottle | RepReject | RepBan.

Record ReputationDecision : Type := MkDecision {
  Outcome : ReputationOutcome; MatchedRule : option ReputationRule; d_ErrorCode : string
}.

Record logEntry : Type := MkLog { l_Incident : string; l_Severity : string; l_Timestamp : Z }.

Record cacheEntry : Type := MkCached { c_expiresAt : Z; c_entries : option (list logEntry) }.

Record reputationEvaluator : Type := MkEvaluator { banMap : gmap string Z; logMap : gmap string cacheEntry }.

(** ** Orderings *)

Definition severityOrder : list string := ["info"; "minor"; "moderate"; "major"; "critical"].
Definition assuranceOrder : list string := ["anonymous"; "attested"; "verified"].

(** The position of the first name that the lower-cased string equals, or -1. *)
Fixpoint index_from (i : Z) (s : string) (order : list string) : Z :=
  match order with
  | [] => -1
  | v :: r => if LowerIs s v then i else index_from (i + 1) s r
  end.

Definition severityIndex (s : string) : Z := index_from 0 s severityOrder.
Definition assuranceIndex (s : string) : Z := index_from 0 s assuranceOrder.

(** ** Rules *)

Definition parseSeverityPredicate (s : string) : string * Z :=
  match cut_prefix ">=" s with
  | Some rest => (">=", severityIndex rest)
  | None => ("=", severityIndex s)
  end.

Definition severityMatches (op : string) (threshold : Z) (actual : string) : bool :=
  let idx := severityIndex actual in
  if idx <? 0 then false else if String.eqb op ">=" then threshold <=? idx else idx =? threshold.

(** [time.Now().AddDate(0, 0, -n)] in a location without clock changes. *)
Definition days_before (now n : Z) : Z := now + i64 (- i64 n) * 86400 * second.

Section Evaluator.
Context (strings_EqualFold : string -> string -> bool).

Definition incidentMatches (pattern incident : string) : bool :=
  String.eqb pattern "*" || strings_EqualFold pattern incident.

(** What one entry must satisfy to count for a rule. *)
Definition entry_matches (now : Z) (rule : ReputationRule) (e : logEntry) : bool :=
  let '(op, threshold) := parseSeverityPredicate (r_Severity rule) in
  negb (match WithinDays rule with Some n => l_Timestamp e <? days_before now n | None => false end)
  && incidentMatches (r_Incident rule) (l_Incident e) && severityMatches op threshold (l_Severity e).

Fixpoint count_loop (now : Z) (rule : ReputationRule) (count matched : Z) (entries : list logEntry) : bool :=
  match entries with
  | [] => false
  | e :: r =>
      if entry_matches now rule e then
        let matched := u64 (matched + 1) in
        if count <=? matched then true else count_loop now rule count matched r
      else count_loop now rule count matched r
  end.

Definition ruleMatches (now : Z) (rule : ReputationRule) (entries : list logEntry) : bool :=
  let count := if r_Count rule =? 0 then 1 else r_Count rule in
  count_loop now rule count 0 entries.

(** ** Log entries *)

(** [url.QueryEscape]. *)
Definition query_char (c : Ascii.ascii) : string :=
  let z := char_z c in
  if ((48 <=? z) && (z <=? 57)) || ((65 <=? z) && (z <=? 90)) || ((97 <=? z) && (z <=? 122)) ||
     (z =? 45) || (z =? 46) || (z =? 95) || (z =? 126) then String c ""
  else if z =? 32 then "+" else "%" +:+ fmt_02X z.

Fixpoint QueryEscape (s : string) : string :=
  match s with EmptyString => "" | String c r => query_char c +:+ QueryEscape r end.

Context (log_get : string -> option (option (list logEntry))).

Definition source_url (nid source : string) : string :=
  trim_slashes source +:+ "/entries?subject_nid=" +:+ QueryEscape nid.

(** The first source that answers decides, whatever it answers. *)
Fixpoint first_answer (nid : string) (sources : list string) : option (list logEntry) :=
  match sources with
  | [] => None
  | s :: r => match log_get (source_url nid s) with Some entries => entries | None => first_answer nid r end
  end.

Definition unavailable_entry (now : Z) : logEntry := MkLog "*" "critical" now.

Definition cached (ev : reputationEvaluator) (nid : string) (p : ReputationPolicy) (now : Z) :
    option (option (list logEntry)) :=
  if 0 <? CacheTtlSeconds p then
    match logMap ev !! nid with
    | Some c => if after (c_expiresAt c) now then Some (c_entries c) else None
    | None => None
    end
  else None.

Definition fetchEntries (ev : reputationEvaluator) (nid : string) (p : ReputationPolicy) (t0 t1 : Z) :
    option (list logEntry) * reputationEvaluator :=
  match cached ev nid p t0 with
  | Some entries => (entries, ev)
  | None =>
      let entries := first_answer nid (LogSources p) in
      let entries := match entries with
                     | None => if EqualFold (OnLogUnavailable p) "deny" then Some [unavailable_entry t1] else None
                     | Some _ => entries
                     end in
      (entries,
       if 0 <? CacheTtlSeconds p
       then MkEvaluator (banMap ev) (<[nid := MkCached (add_seconds t1 (CacheTtlSeconds p)) entries]> (logMap ev))
       else ev)
  end.

(** ** Evaluate *)

Definition isBanned (ev : reputationEvaluator) (nid : string) (now : Z) : bool :=
  match banMap ev !! nid with Some exp => after exp now | None => false end.

Definition setBan (ev : reputationEvaluator) (nid : string) (exp : Z) : reputationEvaluator :=
  MkEvaluator (<[nid := exp]> (banMap ev)) (logMap ev).

Definition ClearBan (ev : reputationEvaluator) (nid : string) : reputationEvaluator :=
  MkEvaluator (delete nid (banMap ev)) (logMap ev).

Definition ErrTooLow : string := "NWP-AUTH-ASSURANCE-TOO-LOW".
Definition ErrBlocked : string := "NWP-AUTH-REPUTATION-BLOCKED".

(** The loops over the three rule lists; [None] is no match in any. *)
Definition decide_rules (p : ReputationPolicy) (now : Z) (entries : list logEntry) : ReputationDecision :=
  match List.find (fun r => ruleMatches now r entries) (BanOn p) with
  | Some r => MkDecision RepBan (Some r) ErrBlocked
  | None =>
      match List.find (fun r => ruleMatches now r entries) (RejectOn p) with
      | Some r => MkDecision RepReject (Some r) ErrBlocked
      | None =>
          match List.find (fun r => ruleMatches now r entries) (ThrottleOn p) with
          | Some r => MkDecision RepThrottle (Some r) ""
          | None => MkDecision RepAccept None ""
          end
      end
  end.

Definition Evaluate (ev : reputationEvaluator) (nid assurance : string) (p : ReputationPolicy) (t0 t1 : Z) :
    ReputationDecision * reputationEvaluator :=
  if negb (Enabled p) then (MkDecision RepAccept None "", ev)
  else if assuranceIndex assurance <? assuranceIndex (MinAssuranceLevel p)
  then (MkDecision RepReject None ErrTooLow, ev)
  else if isBanned ev nid t0 then (MkDecision RepBan None ErrBlocked, ev)
  else
    let '(entries, ev) := fetchEntries ev nid p t0 t1 in
    let d := decide_rules p t1 (default [] entries) in
    (d, match Outcome d with RepBan => setBan ev nid (add_seconds t1 (BanTtlSeconds p)) | _ => ev end).
End Evaluator.

(** ** Rules count *)

Section Rules.
Context (strings_EqualFold : string -> string -> bool).

Abbreviation matches := (entry_matches strings_EqualFold).

(** Enough entries of the log match the rule. *)
Definition violated (now : Z) (entries : list logEntry) (rule : ReputationRule) : Prop :=
  Z.max 1 (r_Count rule) <= Z.of_nat (length (List.filter (matches now rule) entries)).

Definition rule_ok (rule : ReputationRule) : Prop := 0 <= r_Count rule < 2 ^ 64.

Lemma count_loop_iff now rule count matched entries :
  0 <= matched < count -> count < 2 ^ 64 ->
  count_loop strings_EqualFold now rule count matched entries = true <->
  count - matched <= Z.of_nat (length (List.filter (matches now rule) entries)).
Proof.
  revert matched. induction entries as [|e r IH]; intros matched Hm Hc; cbn [count_loop List.filter].
  { simpl. split; [done|lia]. }
  destruct (matches now rule e); [|by apply IH].
  rewrite wrapu_small by lia. cbn [length]. destruct (Z.leb_spec count (matched + 1)); [split; [lia|done]|].
  rewrite IH by lia. lia.
Qed.

Lemma rule_matches_iff now rule entries :
  rule_ok rule -> ruleMatches strings_EqualFold now rule entries = true <-> violated now entries rule.
Proof.
  intros [H0 H1]. unfold ruleMatches, violated. destruct (Z.eqb_spec (r_Count rule) 0) as [E|E].
  - rewrite E, count_loop_iff by lia. lia.
  - rewrite count_loop_iff by lia. lia.
Qed.

(** The first rule of a list that the log violates. *)
Definition first_violated (now : Z) (entries : list logEntry) (rules : list ReputationRule) (r : ReputationRule) : Prop :=
  exists before after, rules = before ++ r :: after /\ violated now entries r /\
    Forall (fun q => ~ violated now entries q) before.

Lemma find_first now entries rules :
  Forall rule_ok rules ->
  match List.find (fun r => ruleMatches strings_EqualFold now r entries) rules with
  | Some r => first_violated now entries rules r
  | None => Forall (fun r => ~ violated now entries r) rules
  end.
Proof.
  induction 1 as [|r rules Hr Hrs IH]; cbn [List.find]; [constructor|].
  destruct (ruleMatches _ now r entries) eqn:E.
  - apply rule_matches_iff in E; [|done]. exists [], rules. split_and!; [done|done|constructor].
  - assert (~ violated now entries r) by (rewrite <- rule_matches_iff by done; congruence).
    destruct (List.find _ rules); [|by constructor].
    destruct IH as (b & a & -> & Hv & Hb). exists (r :: b), a. split_and!; [done|done|by constructor].
Qed.

Lemma first_violated_none now entries rules r :
  first_violated now entries rules r -> ~ Forall (fun q => ~ violated now entries q) rules.
Proof. intros (b & a & -> & Hv & _) H. apply Forall_app in H as [_ H]. inversion H. naive_solver. Qed.

(** What the three rule lists say about a log. *)
Definition verdict (p : ReputationPolicy) (now : Z) (entries : list logEntry) (d : ReputationDecision) : Prop :=
  let clean := Forall (fun q => ~ violated now entries q) in
  match Outcome d, MatchedRule d with
  | RepBan, Some r => first_violated now entries (BanOn p) r
  | RepReject, Some r => clean (BanOn p) /\ first_violated now entries (RejectOn p) r
  | RepThrottle, Some r => clean (BanOn p) /\ clean (RejectOn p) /\ first_violated now entries (ThrottleOn p) r
  | RepAccept, None => clean (BanOn p) /\ clean (RejectOn p) /\ clean (ThrottleOn p)
  | _, _ => False
  end.

Definition policy_ok (p : ReputationPolicy) : Prop :=
  Forall rule_ok (BanOn p) /\ Forall rule_ok (RejectOn p) /\ Forall rule_ok (ThrottleOn p).

Lemma decide_rules_verdict p now entries :
  policy_ok p -> verdict p now entries (decide_rules strings_EqualFold p now entries).
Proof.
  intros (Hb & Hr & Ht). unfold decide_rules.
  pose proof (find_first now entries _ Hb). destruct (List.find _ (BanOn p)); [done|].
  pose proof (find_first now entries _ Hr). destruct (List.find _ (RejectOn p)); [done|].
  pose proof (find_first now entries _ Ht). by destruct (List.find _ (ThrottleOn p)).
Qed.
End Rules.

(** ** Decisions *)

Section Decisions.
Context (strings_EqualFold : string -> string -> bool).

(** What a reputation evaluation decides: with the policy enabled, a caller
    below the assurance floor is rejected; otherwise a caller whose ban has not
    expired is banned without looking at the log; otherwise the outcome is the
    strictest list with a rule that enough entries of the log match (ban, reject,
    throttle, accept), the reported rule is the first such rule of that list, and
    the caller is banned for the TTL of the policy exactly when the outcome is a
    ban. *)
Theorem evaluate_decides log_get ev nid assurance p t0 t1 :
  policy_ok p -> Enabled p = true ->
  let '(d, ev') := Evaluate strings_EqualFold log_get ev nid assurance p t0 t1 in
  let '(entries, _) := fetchEntries log_get ev nid p t0 t1 in
  if assuranceIndex assurance <? assuranceIndex (MinAssuranceLevel p) then
    d = MkDecision RepReject None ErrTooLow /\ ev' = ev
  else if isBanned ev nid t0 then d = MkDecision RepBan None ErrBlocked /\ ev' = ev
  else verdict strings_EqualFold p t1 (default [] entries) d /\
    banMap ev' = match Outcome d with
                 | RepBan => <[nid := add_seconds t1 (BanTtlSeconds p)]> (banMap ev)
                 | _ => banMap ev
                 end.
Proof.
  intros Hp He. unfold Evaluate. rewrite He. cbn [negb].
  assert (Hb : banMap (fetchEntries log_get ev nid p t0 t1).2 = banMap ev)
    by (unfold fetchEntries; destruct (cached ev nid p t0); [done|]; simpl; by destruct (0 <? _)).
  destruct (fetchEntries log_get ev nid p t0 t1) as [entries ev1].
  destruct (_ <? _); [done|]. destruct (isBanned ev nid t0); [done|].
  split; [by apply decide_rules_verdict|]. simpl in Hb. destruct (Outcome _); simpl; congruence.
Qed.

(** *** Histories *)

Inductive event : Type :=
| EvEvaluate (log_get : string -> option (option (list logEntry))) (nid assurance : string) (p : ReputationPolicy)
    (t0 t1 : Z)
| EvClearBan (nid : string).

Definition step (ev : reputationEvaluator) (e : event) : reputationEvaluator :=
  match e with
  | EvEvaluate log_get nid assurance p t0 t1 => (Evaluate strings_EqualFold log_get ev nid assurance p t0 t1).2
  | EvClearBan nid => ClearBan ev nid
  end.

(** The event neither clears the ban of [nid] nor evaluates it after [deadline]. *)
Definition respects (nid : string) (deadline : Z) (e : event) : Prop :=
  match e with
  | EvEvaluate _ nid' _ _ t0 _ => nid' = nid -> t0 < deadline
  | EvClearBan nid' => nid' <> nid
  end.

Lemma fetch_bans log_get ev nid p t0 t1 : banMap (fetchEntries log_get ev nid p t0 t1).2 = banMap ev.
Proof. unfold fetchEntries. destruct (cached ev nid p t0); [done|]. simpl. by destruct (0 <? _). Qed.

Lemma evaluate_keeps_ban log_get ev nid nid' assurance p t0 t1 exp :
  banMap ev !! nid = Some exp -> (nid' = nid -> t0 < exp) ->
  banMap (Evaluate strings_EqualFold log_get ev nid' assurance p t0 t1).2 !! nid = Some exp.
Proof.
  intros Hb Ht. unfold Evaluate. destruct (negb _); [done|]. destruct (_ <? _); [done|].
  destruct (isBanned ev nid' t0) eqn:Eb; [done|].
  pose proof (fetch_bans log_get ev nid' p t0 t1) as Hf.
  destruct (fetchEntries log_get ev nid' p t0 t1) as [entries ev1]. simpl in Hf. simpl.
  destruct (decide (nid' = nid)) as [->|Hne].
  - unfold isBanned, after in Eb. rewrite Hb in Eb. specialize (Ht eq_refl). apply Z.ltb_ge in Eb. lia.
  - destruct (Outcome _); simpl; rewrite ?lookup_insert_ne by done; congruence.
Qed.

Lemma history_keeps_ban h ev nid exp :
  banMap ev !! nid = Some exp -> Forall (respects nid exp) h -> banMap (fold_left step h ev) !! nid = Some exp.
Proof.
  intros Hb Hh. revert ev Hb. induction Hh as [|e h He Hh IH]; intros ev Hb; simpl; [done|].
  apply IH. destruct e as [lg nid' a p t0 t1|nid']; simpl in *; [by apply evaluate_keeps_ban|].
  by rewrite lookup_delete_ne.
Qed.

(** A ban lasts: once a rule has banned a caller at time t1, then whatever is
    evaluated afterwards, for whichever callers, policies and logs, as long as
    nobody clears the ban and its TTL (up to the range of a duration) has not
    passed, every evaluation of that caller under an enabled policy is refused (as
    banned, or for its assurance level) without consulting a log or changing the
    evaluator. *)
Theorem ban_lasts log_get ev nid assurance p t0 t1 h log_get' assurance' p' t0' t1' :
  let '(d, ev1) := Evaluate strings_EqualFold log_get ev nid assurance p t0 t1 in
  let exp := t1 + BanTtlSeconds p * second in
  let ev2 := fold_left step h ev1 in
  Outcome d = RepBan -> MatchedRule d <> None -> 0 <= BanTtlSeconds p <= max_seconds ->
  Forall (respects nid exp) h -> Enabled p' = true -> t0' < exp ->
  Evaluate strings_EqualFold log_get' ev2 nid assurance' p' t0' t1' =
    (if assuranceIndex assurance' <? assuranceIndex (MinAssuranceLevel p')
     then MkDecision RepReject None ErrTooLow else MkDecision RepBan None ErrBlocked, ev2).
Proof.
  destruct (Evaluate _ _ _ _ _ _ _ _) as [d ev1] eqn:E. cbv zeta. intros Ho Hm Httl Hh He Ht.
  assert (Hb : banMap ev1 !! nid = Some (t1 + BanTtlSeconds p * second)).
  { revert E. unfold Evaluate. destruct (negb _); [intros [= <- <-]; done|].
    destruct (_ <? _); [intros [= <- <-]; done|]. destruct (isBanned _ _ _); [intros [= <- <-]; done|].
    destruct (fetchEntries _ _ _ _ _ _) as [es ev0]. intros [= <- <-]. rewrite Ho. simpl.
    rewrite lookup_insert_eq. by rewrite add_seconds_exact. }
  pose proof (history_keeps_ban h ev1 nid _ Hb Hh) as Hb2. unfold Evaluate. rewrite He. cbn [negb].
  destruct (_ <? _); [done|]. unfold isBanned, after. rewrite Hb2. by rewrite (proj2 (Z.ltb_lt _ _) Ht).
Qed.

(** A policy that denies when no log can be reached accepts all the same, unless
    one of its rules has the wildcard incident: the entry made up for the missing
    log matches no rule that names an incident. *)
Theorem deny_fails_open log_get ev nid assurance p t0 t1 :
  Enabled p = true -> EqualFold (OnLogUnavailable p) "deny" = true -> (forall u, log_get u = None) ->
  assuranceIndex (MinAssuranceLevel p) <= assuranceIndex assurance ->
  isBanned ev nid t0 = false -> cached ev nid p t0 = None ->
  Forall (fun r => incidentMatches strings_EqualFold (r_Incident r) "*" = false) (BanOn p ++ RejectOn p ++ ThrottleOn p) ->
  Outcome (Evaluate strings_EqualFold log_get ev nid assurance p t0 t1).1 = RepAccept.
Proof.
  intros He Hd Hl Ha Hb Hc Hr. unfold Evaluate. rewrite He, Hb. cbn [negb].
  rewrite (proj2 (Z.ltb_ge _ _) Ha). unfold fetchEntries. rewrite Hc.
  assert (first_answer log_get nid (LogSources p) = None) as ->
    by (induction (LogSources p); simpl; [done|]; by rewrite Hl).
  rewrite Hd. cbn [fst default from_option].
  assert (Hn : forall rules, Forall (fun r => incidentMatches strings_EqualFold (r_Incident r) "*" = false) rules ->
    List.find (fun r => ruleMatches strings_EqualFold t1 r [unavailable_entry t1]) rules = None).
  { induction 1 as [|r rules H _ IH]; cbn [List.find]; [done|]. unfold ruleMatches at 1. cbn [count_loop].
    unfold entry_matches at 1. destruct (parseSeverityPredicate _) as [op th]. cbn [l_Incident unavailable_entry].
    rewrite H, andb_false_r. done. }
  rewrite !Forall_app in Hr. destruct Hr as (H1 & H2 & H3). unfold decide_rules. by rewrite !Hn.
Qed.
End Decisions.

(** ** Witnesses *)

Definition sample_log (_ : string) : option (option (list logEntry)) :=
  Some (Some [MkLog "spam" "major" 10; MkLog "spam" "minor" 20; MkLog "abuse" "critical" 30]).
Definition sample_policy : ReputationPolicy :=
  MkPolicy true ["https://log"] "anonymous" 0 60 "deny" [MkRule "*" ">=minor" None 2] []
    [MkRule "abuse" "major" None 1; MkRule "spam" ">=minor" None 2].
Definition fresh : reputationEvaluator := MkEvaluator ∅ ∅.

Example evaluate_decides_witness :
  Evaluate String.eqb sample_log fresh "nid" "attested" sample_policy 100 110 =
    (MkDecision RepBan (Some (MkRule "spam" ">=minor" None 2)) ErrBlocked, MkEvaluator {["nid" := 60000000110]} ∅) /\
  verdict String.eqb sample_policy 110 [MkLog "spam" "major" 10; MkLog "spam" "minor" 20; MkLog "abuse" "critical" 30]
    (MkDecision RepBan (Some (MkRule "spam" ">=minor" None 2)) ErrBlocked).
Proof.
  split; [vm_compute; reflexivity|].
  refine (proj1 (evaluate_decides String.eqb sample_log fresh "nid" "attested" sample_policy 100 110 _ eq_refl)).
  repeat constructor; done.
Defined.

Example ban_lasts_witness :
  let ev := MkEvaluator {["nid" := 60000000110]} ∅ in
  Evaluate String.eqb (fun _ => None) ev "nid" "attested" sample_policy 5000 5001 =
    (MkDecision RepBan None ErrBlocked, ev).
Proof.
  refine (ban_lasts String.eqb sample_log fresh "nid" "attested" sample_policy 100 110
    [EvEvaluate sample_log "other" "attested" sample_policy 120 121; EvEvaluate sample_log "nid" "attested" sample_policy 130 131;
     EvClearBan "other"] (fun _ => None) "attested" sample_policy 5000 5001 _ _ _ _ _ _);
    try done. repeat constructor; simpl; done.
Defined.
