(* ===== verification/NwpEpoch.v ===== *)
(** * NWP anchor ownership: topology events and the epoch guard

    nwp/anchor_epoch.go and nwp/anchor_state.go, with the topology types of
    nwp/anchor_client.go.  Each operation of the guard changes the state under
    its mutex, so it is one step; the callbacks it makes after unlocking are the
    [effect]s it returns.  A [json.RawMessage] is the document it encodes. *)

From S2P Require Import Prelude GoValue.

(** ** Topology types *)

Record MemberInfo : Type := MkMember {
  mi_Nid : string; mi_NodeRoles : list string; mi_ActivationMode : string; ChildAnchor : option bool;
  mi_MemberCount : option Z; mi_Tags : option (list string); JoinedAt : option string; mi_LastSeen : option string;
  mi_Capabilities : option any; mi_Metrics : option any
}.

Record TopologySnapshot : Type := MkSnapshot {
  s_Version : Z; s_AnchorNid : string; ClusterSize : Z; Members : option (list MemberInfo); Truncated : option bool;
  s_ClusterEpoch : option Z
}.

Record MemberChanges : Type := MkChanges {
  mc_NodeRoles : option (list string); mc_ActivationMode : option string; mc_Tags : option (list string);
  mc_MemberCount : option Z; mc_LastSeen : option string; mc_Capabilities : option any; mc_Metrics : option any
}.

Record AnchorStateEvent : Type := MkStateEvent { as_Field : string; as_Details : option dict }.

(** The one pointer of an event that is set. *)
Inductive topology_payload : Type :=
| MemberJoined (m : MemberInfo)
| MemberLeft (nid : string)
| MemberUpdated (nid : string) (changes : MemberChanges)
| AnchorState (e : AnchorStateEvent)
| ResyncRequired (reason : string).

Record TopologyEvent : Type := MkEvent { Kind : string; e_Version : Z; e_payload : topology_payload }.

Record TopologyProtocolError : Type := MkTopologyError {
  te_NwpErrorCode : string; te_NpsStatus : string; te_Message : string
}.

Definition ErrAnchorNotLeader : string := "NWP-ANCHOR-NOT-LEADER".
Definition ErrAnchorEpochFenced : string := "NWP-ANCHOR-EPOCH-FENCED".
Definition NpsClientConflict : string := "NPS-CLIENT-CONFLICT".

(** ** anchor_state.go *)

Definition eventAnchorState : string := "anchor_state".
Definition AnchorStateFieldAnchorFailover : string := "anchor_failover".
Definition AnchorStateFieldAnchorQuorumLost : string := "anchor_quorum_lost".
Definition AnchorFailoverReasonPlanned : string := "planned".
Definition AnchorFailoverReasonActiveLost : string := "active_lost".

Definition NewAnchorFailoverEvent (successorNid : string) (clusterEpoch : Z) (reason : string) (version : Z) : TopologyEvent :=
  MkEvent eventAnchorState version (AnchorState (MkStateEvent AnchorStateFieldAnchorFailover
    (Some [("successor_nid", VString successorNid); ("cluster_epoch", VInt KUint64 clusterEpoch);
           ("reason", VString reason)]))).

Definition NewAnchorFailoverEventDefaults (successorNid : string) (clusterEpoch : Z) : TopologyEvent :=
  NewAnchorFailoverEvent successorNid clusterEpoch AnchorFailoverReasonPlanned 0.

Definition NewAnchorQuorumLostEvent (quorumSize available version : Z) : TopologyEvent :=
  MkEvent eventAnchorState version (AnchorState (MkStateEvent AnchorStateFieldAnchorQuorumLost
    (Some [("quorum_size", VInt KUint32 quorumSize); ("available", VInt KUint32 available)]))).

Definition NewAnchorQuorumLostEventDefaults (quorumSize available : Z) : TopologyEvent :=
  NewAnchorQuorumLostEvent quorumSize available 0.

(** ** The guard *)

(** [EmitEvent] and [CloseStreams] say whether the callbacks are set. *)
Record AnchorEpochGuard : Type := MkGuard {
  anchorNid : string; ownEpoch : Z; standby : bool; degraded : bool; EmitEvent : bool; CloseStreams : bool
}.

Inductive effect : Type := Emitted (ev : TopologyEvent) | StreamsClosed.

Definition NewAnchorEpochGuard (nid : string) : AnchorEpochGuard := MkGuard nid 1 false false false false.

(** The host installs the callbacks before first use. *)
Definition with_callbacks (emit close : bool) (g : AnchorEpochGuard) : AnchorEpochGuard :=
  MkGuard (anchorNid g) (ownEpoch g) (standby g) (degraded g) emit close.

Definition OwnEpoch (g : AnchorEpochGuard) : Z := ownEpoch g.
Definition IsActive (g : AnchorEpochGuard) : bool := negb (standby g).
Definition IsDegraded (g : AnchorEpochGuard) : bool := degraded g.

Definition set_standby (b : bool) (g : AnchorEpochGuard) : AnchorEpochGuard :=
  MkGuard (anchorNid g) (ownEpoch g) b (degraded g) (EmitEvent g) (CloseStreams g).
Definition set_degraded (b : bool) (g : AnchorEpochGuard) : AnchorEpochGuard :=
  MkGuard (anchorNid g) (ownEpoch g) (standby g) b (EmitEvent g) (CloseStreams g).

Definition emit_if (g : AnchorEpochGuard) (ev : TopologyEvent) : list effect :=
  if EmitEvent g then [Emitted ev] else [].

Definition OnInboundFrame (g : AnchorEpochGuard) (inboundEpoch : option Z) (senderAnchorNid : string)
    (isTopologyWrite : bool) : option TopologyProtocolError * AnchorEpochGuard * list effect :=
  let inbound := default 1 inboundEpoch in
  if ownEpoch g <? inbound then
    let effects :=
      if negb (standby g) then
        emit_if g (NewAnchorFailoverEvent senderAnchorNid inbound AnchorFailoverReasonActiveLost 0) ++
        (if CloseStreams g then [StreamsClosed] else [])
      else [] in
    (Some (MkTopologyError ErrAnchorEpochFenced NpsClientConflict
       (ErrAnchorEpochFenced +:+ ": inbound cluster_epoch " +:+ fmt_d inbound +:+
        " supersedes this Anchor's epoch " +:+ fmt_d (ownEpoch g) +:+ "; it is no longer the cluster owner.")),
     set_standby true g, effects)
  else if isTopologyWrite && (standby g || degraded g) then
    let reason := if standby g then "this Anchor is a standby"
                  else "this Anchor has lost quorum and is read-only-degraded" in
    (Some (MkTopologyError ErrAnchorNotLeader NpsClientConflict
       (ErrAnchorNotLeader +:+ ": topology writes are accepted only by the active cluster owner — " +:+
        reason +:+ ".")), g, [])
  else (None, g, []).

Definition StampSnapshot (g : option AnchorEpochGuard) (snap : TopologySnapshot) : TopologySnapshot :=
  match g with
  | None => snap
  | Some g => MkSnapshot (s_Version snap) (s_AnchorNid snap) (ClusterSize snap) (Members snap) (Truncated snap)
                (Some (OwnEpoch g))
  end.

Definition OnQuorumLost (g : AnchorEpochGuard) (quorumSize available : Z) :
    TopologyEvent * AnchorEpochGuard * list effect :=
  let ev := NewAnchorQuorumLostEventDefaults quorumSize available in
  (ev, set_degraded true g, emit_if g ev).

Definition OnQuorumRestored (g : AnchorEpochGuard) : AnchorEpochGuard := set_degraded false g.

Definition TakeOwnership (g : AnchorEpochGuard) (newEpoch : Z) (reason : string) :
    go_result TopologyEvent * AnchorEpochGuard * list effect :=
  let reason := if String.eqb reason "" then AnchorFailoverReasonPlanned else reason in
  if newEpoch <=? ownEpoch g then
    (Err (ErrPlain ("cluster_epoch must strictly increase on every ownership transfer: " +:+ fmt_d newEpoch +:+
                    " is not greater than the observed " +:+ fmt_d (ownEpoch g))), g, [])
  else
    let g := MkGuard (anchorNid g) newEpoch false false (EmitEvent g) (CloseStreams g) in
    let ev := NewAnchorFailoverEvent (anchorNid g) newEpoch reason 0 in
    (Ok ev, g, emit_if g ev).

Definition ObserveEpoch (g : AnchorEpochGuard) (epoch : Z) : AnchorEpochGuard :=
  if ownEpoch g <? epoch then set_standby true g else g.

(** ** Histories *)

Inductive guard_op : Type :=
| Inbound (epoch : option Z) (sender : string) (isWrite : bool)
| Observe (epoch : Z)
| Take (epoch : Z) (reason : string)
| QuorumLost (quorumSize available : Z)
| QuorumRestored.

Definition apply_op (g : AnchorEpochGuard) (op : guard_op) : AnchorEpochGuard * list effect :=
  match op with
  | Inbound e s w => let '(_, g, effs) := OnInboundFrame g e s w in (g, effs)
  | Observe e => (ObserveEpoch g e, [])
  | Take e r => let '(_, g, effs) := TakeOwnership g e r in (g, effs)
  | QuorumLost q a => let '(_, g, effs) := OnQuorumLost g q a in (g, effs)
  | QuorumRestored => (OnQuorumRestored g, [])
  end.

Fixpoint run_ops (g : AnchorEpochGuard) (ops : list guard_op) : AnchorEpochGuard * list effect :=
  match ops with
  | [] => (g, [])
  | op :: r => let '(g1, e1) := apply_op g op in let '(g2, e2) := run_ops g1 r in (g2, e1 ++ e2)
  end.

(** *** The specification: what a history says *)

Definition proposed (op : guard_op) : option Z := match op with Take e _ => Some e | _ => None end.
Definition seen (op : guard_op) : option Z :=
  match op with Inbound e _ _ => Some (default 1 e) | Observe e => Some e | _ => None end.

(** The greatest epoch ownership was claimed at. *)
Definition claimed (ops : list guard_op) : Z := foldr Z.max 1 (omap proposed ops).

(** Since ownership was last claimed, a greater epoch has been seen. *)
Definition superseded (ops : list guard_op) : Prop :=
  exists before op later e, ops = before ++ op :: later /\ seen op = Some e /\
    claimed ops < e /\ claimed before = claimed ops.

(** Since ownership was last claimed, quorum was lost and not restored. *)
Definition quorum_down (ops : list guard_op) : Prop :=
  exists before q a later, ops = before ++ QuorumLost q a :: later /\ QuorumRestored ∉ later /\
    claimed before = claimed ops.

(** ** Lemmas *)

Lemma run_ops_app g ops1 ops2 :
  (run_ops g (ops1 ++ ops2)).1 = (run_ops (run_ops g ops1).1 ops2).1.
Proof.
  revert g. induction ops1 as [|op ops1 IH]; intros g; simpl; [done|].
  destruct (apply_op g op) as [g1 e1]. specialize (IH g1).
  destruct (run_ops g1 (ops1 ++ ops2)), (run_ops g1 ops1). simpl in *. done.
Qed.

Lemma run_ops_snoc g ops op : (run_ops g (ops ++ [op])).1 = (apply_op (run_ops g ops).1 op).1.
Proof. rewrite run_ops_app. simpl. by destruct (apply_op _ op). Qed.

Lemma claimed_app a b : claimed (a ++ b) = Z.max (claimed a) (claimed b).
Proof.
  unfold claimed. rewrite omap_app. induction (omap proposed a); simpl; [|lia].
  assert (1 <= foldr Z.max 1 (omap proposed b)) by (induction (omap proposed b); simpl; lia). lia.
Qed.

Lemma claimed_one op : claimed [op] = Z.max 1 (default 1 (proposed op)).
Proof. destruct op; simpl; unfold claimed; simpl; lia. Qed.

Lemma claimed_pos a : 1 <= claimed a.
Proof. unfold claimed. induction (omap proposed a); simpl; lia. Qed.

(** A split of [ops ++ [op]] is a split of [ops] or ends at [op]. *)
Lemma snoc_split {A} (ops : list A) op before x later :
  ops ++ [op] = before ++ x :: later ->
  (later = [] /\ before = ops /\ x = op) \/ exists later', later = later' ++ [op] /\ ops = before ++ x :: later'.
Proof.
  destruct later as [|y later] using rev_ind; intros H.
  - left. apply app_inj_2 in H as [-> [= ->]]; done.
  - right. exists later. rewrite app_comm_cons, app_assoc in H. apply app_inj_2 in H as [-> [= ->]]; done.
Qed.

Lemma superseded_snoc_claim ops op : claimed ops < claimed (ops ++ [op]) -> ~ superseded (ops ++ [op]).
Proof.
  intros Hc (b & x & l & e & Hs & He & Hlt & Hb). destruct (snoc_split _ _ _ _ _ Hs) as [(-> & -> & ->)|(l' & -> & ->)]; [lia|].
  rewrite claimed_app in Hc, Hb at 1. rewrite claimed_app in Hc. lia.
Qed.

Lemma superseded_snoc ops op :
  claimed (ops ++ [op]) = claimed ops ->
  superseded (ops ++ [op]) <-> superseded ops \/ exists e, seen op = Some e /\ claimed ops < e.
Proof.
  intros Hc. split.
  - intros (b & x & l & e & Hs & He & Hlt & Hb). rewrite Hc in *.
    destruct (snoc_split _ _ _ _ _ Hs) as [(-> & -> & ->)|(l' & -> & ->)]; [right; eauto|].
    left. by exists b, x, l', e.
  - intros [(b & x & l & e & -> & He & Hlt & Hb)|(e & He & Hlt)].
    + exists b, x, (l ++ [op]), e. rewrite Hc. split_and!; try done. by rewrite <- app_assoc.
    + exists ops, op, [], e. by rewrite Hc.
Qed.

Lemma quorum_snoc_claim ops op : claimed ops < claimed (ops ++ [op]) -> ~ quorum_down (ops ++ [op]).
Proof.
  intros Hc (b & q & a & l & Hs & He & Hb). destruct (snoc_split _ _ _ _ _ Hs) as [(-> & -> & _)|(l' & -> & ->)]; [lia|].
  rewrite claimed_app in Hc, Hb at 1. rewrite claimed_app in Hc. lia.
Qed.

Lemma quorum_snoc ops op :
  claimed (ops ++ [op]) = claimed ops ->
  quorum_down (ops ++ [op]) <->
  (quorum_down ops /\ op <> QuorumRestored) \/ exists q a, op = QuorumLost q a.
Proof.
  intros Hc. split.
  - intros (b & q & a & l & Hs & He & Hb). rewrite Hc in *.
    destruct (snoc_split _ _ _ _ _ Hs) as [(-> & -> & <-)|(l' & -> & ->)]; [right; eauto|].
    left. split; [exists b, q, a, l'; set_solver|set_solver].
  - intros [[(b & q & a & l & -> & He & Hb) Hop]|(q & a & ->)].
    + exists b, q, a, (l ++ [op]). rewrite Hc. split_and!; [by rewrite <- app_assoc|set_solver|done].
    + exists ops, q, a, []. rewrite Hc. split_and!; [done|set_solver|done].
Qed.

(** The state an operation leaves, as a function of what it proposes and shows. *)
Lemma apply_op_state g op :
  let g' := (apply_op g op).1 in
  ownEpoch g' = match proposed op with Some e => Z.max (ownEpoch g) e | None => ownEpoch g end /\
  (ownEpoch g < ownEpoch g' -> standby g' = false /\ degraded g' = false) /\
  (ownEpoch g' = ownEpoch g ->
     standby g' = standby g || match seen op with Some e => ownEpoch g <? e | None => false end /\
     degraded g' = match op with QuorumLost _ _ => true | QuorumRestored => false | _ => degraded g end).
Proof.
  destruct op as [e s w|e|e r|q a|]; simpl.
  - unfold OnInboundFrame. destruct (_ <? _) eqn:E; simpl.
    + split_and!; [done|lia|]. by rewrite orb_true_r.
    + destruct (_ && _); simpl; (split_and!; [done|lia|]); by rewrite orb_false_r.
  - unfold ObserveEpoch. destruct (_ <? _) eqn:E; simpl; (split_and!; [done|lia|]); by rewrite ?orb_true_r, ?orb_false_r.
  - unfold TakeOwnership. destruct (Z.leb_spec e (ownEpoch g)); simpl; (split_and!; [lia|lia|]); [by rewrite orb_false_r|lia].
  - split_and!; [done|lia|]. by rewrite orb_false_r.
  - split_and!; [done|lia|]. by rewrite orb_false_r.
Qed.

Section Guard.
Context (nid : string) (emit close : bool).

Abbreviation after_ops ops := ((run_ops (with_callbacks emit close (NewAnchorEpochGuard nid)) ops).1).

Lemma guard_history ops :
  let g := after_ops ops in
  ownEpoch g = claimed ops /\ (standby g = true <-> superseded ops) /\ (degraded g = true <-> quorum_down ops).
Proof.
  induction ops as [|op ops (IHo & IHs & IHd)] using rev_ind; cbv zeta.
  { split_and!; [done| |]; (split; [done|]).
    - intros ([] & ? & ? & ? & ? & _); simplify_list_eq.
    - intros ([] & ? & ? & ? & ? & _); simplify_list_eq. }
  rewrite run_ops_snoc. destruct (apply_op_state (after_ops ops) op) as (Ho & Hup & Hsame).
  set (g := after_ops ops) in *. set (g' := (apply_op g op).1) in *.
  assert (Hc : ownEpoch g' = claimed (ops ++ [op])).
  { rewrite claimed_app, claimed_one, Ho, IHo. pose proof (claimed_pos ops). destruct (proposed op); simpl; lia. }
  split; [done|]. destruct (Z.eq_dec (claimed (ops ++ [op])) (claimed ops)) as [E|E].
  - rewrite superseded_snoc, quorum_snoc by done. destruct Hsame as [-> ->]; [congruence|].
    rewrite orb_true_iff, IHs, IHo. split.
    + f_equiv. destruct (seen op) as [e|]; [rewrite Z.ltb_lt; naive_solver|naive_solver].
    + destruct op; rewrite ?IHd; naive_solver.
  - assert (claimed ops < claimed (ops ++ [op])) by (rewrite claimed_app in *; lia).
    destruct Hup as [-> ->]; [lia|]. split; (split; [done|]); intros H'; exfalso;
      [by eapply superseded_snoc_claim|by eapply quorum_snoc_claim].
Qed.

(** The epoch fence, over every history of an anchor: its epoch is the greatest
    one it claimed; a frame is fenced exactly when it carries a greater one; and a
    topology write is accepted exactly when it is not fenced, no epoch greater than
    the anchor's own has been seen since it last claimed ownership, and quorum has
    not been lost since without being restored.  Reads are only ever fenced. *)
Theorem epoch_fencing ops e sender :
  let g := after_ops ops in
  let answer w := (OnInboundFrame g e sender w).1.1 in
  let code w := te_NwpErrorCode <$> answer w in
  OwnEpoch g = claimed ops /\
  (forall w, code w = Some ErrAnchorEpochFenced <-> claimed ops < default 1 e) /\
  (code true = Some ErrAnchorNotLeader <-> default 1 e <= claimed ops /\ (superseded ops \/ quorum_down ops)) /\
  (answer true = None <-> default 1 e <= claimed ops /\ ~ superseded ops /\ ~ quorum_down ops) /\
  (answer false = None <-> default 1 e <= claimed ops).
Proof.
  cbv zeta. destruct (guard_history ops) as (Ho & Hs & Hd). rewrite <- Hs, <- Hd, <- Ho.
  unfold OnInboundFrame. destruct (Z.ltb_spec (ownEpoch (after_ops ops)) (default 1 e)); simpl.
  - split_and!; [done|by intros|naive_solver lia|naive_solver lia|naive_solver lia].
  - split; [done|]. split; [intros []; [destruct (standby _), (degraded _)|]; simpl; (split; [done|lia])|].
    split_and!; [| |by split].
    + destruct (standby _), (degraded _); simpl; naive_solver.
    + destruct (standby _), (degraded _); simpl; naive_solver.
Qed.

(** *** Callbacks *)

(** The guard takes ownership back from standby. *)
Definition regains (g : AnchorEpochGuard) (op : guard_op) : bool :=
  match op with Take e _ => standby g && (ownEpoch g <? e) | _ => false end.

Fixpoint regained (g : AnchorEpochGuard) (ops : list guard_op) : Z :=
  match ops with
  | [] => 0
  | op :: r => (if regains g op then 1 else 0) + regained (apply_op g op).1 r
  end.

Definition closings (effs : list effect) : Z :=
  Z.of_nat (length (List.filter (fun x => match x with StreamsClosed => true | _ => false end) effs)).

Definition no_observe (op : guard_op) : bool := match op with Observe _ => false | _ => true end.

Lemma closings_app a b : closings (a ++ b) = closings a + closings b.
Proof. unfold closings. rewrite List.filter_app, length_app. lia. Qed.
End Guard.

Definition standing (g : AnchorEpochGuard) : Z := if standby g then 1 else 0.

Lemma closings_emit g ev : closings (emit_if g ev) = 0.
Proof. unfold emit_if. by destruct (EmitEvent g). Qed.

Lemma apply_op_closings g op :
  CloseStreams g = true -> no_observe op = true ->
  CloseStreams (apply_op g op).1 = true /\
  closings (apply_op g op).2 + standing g = (if regains g op then 1 else 0) + standing (apply_op g op).1.
Proof.
  intros Hc Hn. unfold standing. destruct op as [e s w|e|e r|q a|]; [..|done]; simpl.
  - unfold OnInboundFrame. destruct (_ <? _); simpl.
    + split; [done|]. destruct (standby g); simpl; [done|]. by rewrite closings_app, closings_emit, Hc.
    + by destruct (_ && _).
  - done.
  - unfold TakeOwnership. destruct (Z.leb_spec e (ownEpoch g)) as [H|H]; simpl.
    + rewrite (proj2 (Z.ltb_ge _ _) H), andb_false_r. done.
    + rewrite (proj2 (Z.ltb_lt _ _) H), andb_true_r, closings_emit. by destruct (standby g).
  - by rewrite closings_emit.
Qed.

(** Streams are closed once for every loss of ownership: in a history of an
    anchor with the callback set that learns of other epochs from frames, the
    number of times the streams were closed is the number of times ownership was
    regained from standby, plus one when the anchor is a standby now. *)
Theorem streams_closed_once nid emit ops :
  forallb no_observe ops = true ->
  let g0 := with_callbacks emit true (NewAnchorEpochGuard nid) in
  let '(g, effs) := run_ops g0 ops in
  closings effs = regained g0 ops + (if standby g then 1 else 0).
Proof.
  intros Hn. cbv zeta. set (g0 := with_callbacks emit true (NewAnchorEpochGuard nid)).
  assert (H : forall g, CloseStreams g = true ->
    let '(g', effs) := run_ops g ops in closings effs + standing g = regained g ops + standing g').
  { clear g0. induction ops as [|op ops IH]; intros g Hc; simpl; [reflexivity|]. simpl in Hn. apply andb_prop in Hn as [Hop Hn].
    destruct (apply_op_closings g op Hc Hop) as [Hc1 H1]. destruct (apply_op g op) as [g1 e1]. simpl in *.
    specialize (IH Hn g1 Hc1). destruct (run_ops g1 ops) as [g2 e2]. rewrite closings_app. lia. }
  specialize (H g0 eq_refl). destruct (run_ops g0 ops) as [g effs]. unfold standing in H at 2. simpl in H. unfold standing in H. simpl in H. lia.
Qed.

(** ** What the guard does not keep *)

(** The guard does not remember the epochs it has seen: an anchor that was
    fenced by a peer at epoch e may take ownership at that same epoch, against the
    documented rule that a new epoch exceeds every observed one.  Then both anchors
    are active at epoch e, neither fences the other's frames, and both accept
    topology writes. *)
Theorem split_brain a b e reason :
  1 < e ->
  let peer := (TakeOwnership (NewAnchorEpochGuard b) e reason).1.2 in
  let fenced := OnInboundFrame (NewAnchorEpochGuard a) (Some (OwnEpoch peer)) b false in
  let '(result, self, _) := TakeOwnership fenced.1.2 e reason in
  te_NwpErrorCode <$> fenced.1.1 = Some ErrAnchorEpochFenced /\ is_ok result = true /\
  IsActive self = true /\ IsActive peer = true /\ OwnEpoch self = OwnEpoch peer /\
  OnInboundFrame self (Some (OwnEpoch peer)) b true = (None, self, []) /\
  OnInboundFrame peer (Some (OwnEpoch self)) a true = (None, peer, []).
Proof.
  intros He. assert (H1 : (e <=? 1) = false) by lia. assert (H2 : (1 <? e) = true) by lia.
  unfold TakeOwnership, OnInboundFrame, OwnEpoch, IsActive. simpl. rewrite H1. simpl. rewrite H2. simpl. rewrite H1.
  simpl. by rewrite Z.ltb_irrefl.
Qed.

(** An anchor that only observes a greater epoch becomes a standby without closing
    its streams or announcing a successor, then or when the frame that fences it
    arrives. *)
Theorem observe_silences a emit close e sender w :
  1 < e ->
  let g := with_callbacks emit close (NewAnchorEpochGuard a) in
  let '(g', effs) := run_ops g [Observe e; Inbound (Some e) sender w] in
  standby g' = true /\ effs = [].
Proof.
  intros He. cbv zeta. simpl. unfold ObserveEpoch. simpl. rewrite (proj2 (Z.ltb_lt _ _)) by lia.
  unfold OnInboundFrame. simpl. rewrite (proj2 (Z.ltb_lt _ _)) by lia. done.
Qed.

(** ** Witnesses *)

Example split_brain_witness :
  let peer := MkGuard "b" 2 false false false false in
  OnInboundFrame peer (Some 2) "a" true = (None, peer, []).
Proof. apply (split_brain "a" "b" 2 "planned"). lia. Defined.

Definition sample_ops : list guard_op :=
  [Inbound (Some 3) "b" true; Take 4 ""; QuorumLost 3 1; Inbound (Some 7) "c" false].

Example streams_closed_once_witness :
  let g0 := with_callbacks true true (NewAnchorEpochGuard "a") in
  closings (run_ops g0 sample_ops).2 = regained g0 sample_ops + 1.
Proof. exact (streams_closed_once "a" true sample_ops eq_refl). Defined.
