(* ===== verification/NwpContext.v ===== *)
(** * The LLM context store

    nwp/llm_context_store.go and the data of nwp/llm.go: a process-local store of
    conversation contexts with optimistic versions.  A mutation is reserved, the
    provider is called, and the reservation is committed or aborted.

    Every method holds the mutex of the store and is one step.  [c i] is the [i]-th
    reading of the clock in a step.  A slice whose empty and nil values marshal alike
    is a list; the copies that the code takes are copies of values here. *)

From S2P Require Import Prelude GoValue.

(** ** Data of nwp/llm.go *)

Definition LlmCompleteActionID : string := "llm.complete".
Definition LlmContextStatusActionID : string := "llm.context.status".
Definition LlmContextReleaseActionID : string := "llm.context.release".

Definition LlmContextOperation : Type := string.
Definition LlmContextCreate : LlmContextOperation := "create".
Definition LlmContextAppend : LlmContextOperation := "append".
Definition LlmContextFork : LlmContextOperation := "fork".
Definition LlmContextReset : LlmContextOperation := "reset".
Definition LlmContextRelease : LlmContextOperation := "release".

Inductive LlmContextState : Type :=
| LlmContextBusy
| LlmContextActive
| LlmContextReleased
| LlmContextExpired
| LlmContextFailed.
#[export] Instance LlmContextState_eq_dec : EqDecision LlmContextState.
Proof. solve_decision. Defined.

Record LlmToolCallDto : Type := MkToolCall { CallID : string; tc_ToolName : string; ArgumentsJSON : string }.
Record ToolParameterDto : Type := MkToolParam {
  tp_Name : string; tp_Type : string; tp_Description : option string; tp_Required : bool
}.
Record LlmToolDefinitionDto : Type := MkToolDef {
  td_Name : string; td_Description : option string; Parameters : list ToolParameterDto
}.
Record LlmMessageDto : Type := MkMessage {
  Role : string; Content : option string; ToolCallID : option string; ToolName : option string; ToolCalls : list LlmToolCallDto
}.
Record LlmContextReceiptDto : Type := MkReceipt {
  rc_ContextID : string; rc_Version : Z; rc_Operation : LlmContextOperation; rc_State : LlmContextState;
  rc_ExpiresAt : option string; ParentContextID : option string; ParentVersion : option Z
}.
Record LlmContextStatusDto : Type := MkStatus {
  sd_State : LlmContextState; sd_ContextID : option string; sd_Version : option Z; sd_ExpiresAt : option string;
  sd_RequestID : option string; sd_ErrorCode : option string
}.

(** ** Errors *)

Definition ErrActionParamsInvalid : string := "NWP-ACTION-PARAMS-INVALID".
Definition ErrActionIdempotencyConflict : string := "NWP-ACTION-IDEMPOTENCY-CONFLICT".
Definition ErrLlmContextNotFound : string := "NWP-LLM-CONTEXT-NOT-FOUND".
Definition ErrLlmContextExpired : string := "NWP-LLM-CONTEXT-EXPIRED".
Definition ErrLlmContextVersionConflict : string := "NWP-LLM-CONTEXT-VERSION-CONFLICT".
Definition ErrLlmContextBindingMismatch : string := "NWP-LLM-CONTEXT-BINDING-MISMATCH".
Definition ErrLlmContextForbidden : string := "NWP-LLM-CONTEXT-FORBIDDEN".
Definition ErrLlmContextLimitExceeded : string := "NWP-LLM-CONTEXT-LIMIT-EXCEEDED".
Definition ErrLlmContextOperationUnsupported : string := "NWP-LLM-CONTEXT-OPERATION-UNSUPPORTED".

(** The typed error of the store, or another error. *)
Inductive LlmContextStoreError : Type :=
| StoreErr (ErrorCode Message : string) (CurrentVersion : option Z)
| PlainErr (text : string).

Definition storeError (code message : string) (current : option Z) : LlmContextStoreError := StoreErr code message current.
Definition paramsInvalid (message : string) : LlmContextStoreError := storeError ErrActionParamsInvalid message None.
Definition notFound : LlmContextStoreError := storeError ErrLlmContextNotFound "context or retained outcome not found" None.

(** ** Data of the store *)

Record LlmContextOwner : Type := MkOwner { NID : string; SecurityScope : string }.
#[export] Instance LlmContextOwner_eq_dec : EqDecision LlmContextOwner.
Proof. solve_decision. Defined.

(** [None] is a nil slice, which marshals to null. *)
Record LlmContextBinding : Type := MkBinding {
  Model : string; SystemMessages : option (list LlmMessageDto); Tools : option (list LlmToolDefinitionDto); RuntimeRevision : string
}.

Record LlmContextMutationRequest : Type := MkMutation {
  mr_Operation : LlmContextOperation; mr_Owner : LlmContextOwner; mr_ContextID : option string; mr_BaseVersion : option Z;
  mr_Binding : LlmContextBinding; mr_Messages : list LlmMessageDto; mr_TTLSeconds : option Z; mr_IdempotencyKey : string;
  mr_RequestID : string
}.

Record LlmContextMutationReservation : Type := MkReservation {
  r_reservationID : string; r_request : LlmContextMutationRequest; r_bindingFingerprint : string;
  r_baseTranscript : list LlmMessageDto; r_effectiveTTLSeconds : option Z; r_parentContextID : option string;
  r_parentVersion : option Z
}.

Record LlmContextSnapshot : Type := MkContextSnapshot {
  cs_ContextID : string; cs_Version : Z; cs_State : LlmContextState; cs_Transcript : list LlmMessageDto;
  cs_Binding : LlmContextBinding; cs_ExpiresAt : option Z
}.

Record LlmContextStoreOptions : Type := MkStoreOptions {
  MaxContextsPerPrincipal : Z; DefaultTTLSeconds : Z; MaxTTLSeconds : Z; TombstoneSeconds : Z; IdempotencyTTL : Z;
  SupportedOperations : option (gmap LlmContextOperation bool)
}.

Record LlmContextStoreDescriptor : Type := MkDescriptor {
  Operations : list LlmContextOperation; Persistence : string; d_MaxContexts : Z; d_MaxTTL : Z; d_Tombstone : Z
}.

Record llmContextEntry : Type := MkContext {
  contextID : string; owner : LlmContextOwner; version : Z; state : LlmContextState; binding : LlmContextBinding;
  e_fingerprint : string; transcript : list LlmMessageDto; ttlSeconds : Z; expiresAt : option Z; tombstoneUntil : option Z;
  reservationID : string
}.

(** The [state] of an outcome. *)
Inductive llmOutcomeState : Type := OutcomeBusy | OutcomeFailed | OutcomeCompleted.
#[export] Instance llmOutcomeState_eq_dec : EqDecision llmOutcomeState.
Proof. solve_decision. Defined.

Record llmIdempotencyEntry : Type := MkOutcome {
  i_state : llmOutcomeState; retainUntil : Z; i_requestID : string; i_reservationID : string; i_errorCode : string;
  i_receipt : option LlmContextReceiptDto; i_contextID : string; i_baseVersion : option Z
}.

(** A reservation is handed out by pointer: its address and its id. *)
Record handle : Type := MkHandle { h_addr : nat; h_id : string }.
#[export] Instance handle_eq_dec : EqDecision handle.
Proof. solve_decision. Defined.

(** [next_addr] is the address of the next reservation that is allocated. *)
Record InMemoryLlmContextStore : Type := MkStore {
  options : LlmContextStoreOptions; contexts : gmap string llmContextEntry; idempotency : gmap string llmIdempotencyEntry;
  reservations : gmap string (nat * LlmContextMutationReservation); next_addr : nat
}.

Definition set_contexts (m : gmap string llmContextEntry) (s : InMemoryLlmContextStore) : InMemoryLlmContextStore :=
  MkStore (options s) m (idempotency s) (reservations s) (next_addr s).
Definition set_idempotency (m : gmap string llmIdempotencyEntry) (s : InMemoryLlmContextStore) : InMemoryLlmContextStore :=
  MkStore (options s) (contexts s) m (reservations s) (next_addr s).
Definition set_reservations (m : gmap string (nat * LlmContextMutationReservation)) (s : InMemoryLlmContextStore) : InMemoryLlmContextStore :=
  MkStore (options s) (contexts s) (idempotency s) m (next_addr s).

Definition set_reservation (rid : string) (e : llmContextEntry) : llmContextEntry :=
  MkContext (contextID e) (owner e) (version e) (state e) (binding e) (e_fingerprint e) (transcript e) (ttlSeconds e)
    (expiresAt e) (tombstoneUntil e) rid.

(** ** Construction *)

Definition or_else (v d : Z) : Z := if v =? 0 then d else v.

Definition all_operations : gmap LlmContextOperation bool :=
  list_to_map [(LlmContextCreate, true); (LlmContextAppend, true); (LlmContextFork, true); (LlmContextReset, true);
               (LlmContextRelease, true)].

Definition NewInMemoryLlmContextStore (o : LlmContextStoreOptions) : InMemoryLlmContextStore :=
  MkStore
    (MkStoreOptions (or_else (MaxContextsPerPrincipal o) 32) (or_else (DefaultTTLSeconds o) 3600) (or_else (MaxTTLSeconds o) 3600)
       (or_else (TombstoneSeconds o) 86400) (or_else (IdempotencyTTL o) (24 * 3600 * second))
       (Some (default all_operations (SupportedOperations o))))
    ∅ ∅ ∅ 0.

Definition supports (s : InMemoryLlmContextStore) (op : LlmContextOperation) : bool :=
  default false (default ∅ (SupportedOperations (options s)) !! op).

Definition Descriptor (s : InMemoryLlmContextStore) : LlmContextStoreDescriptor :=
  MkDescriptor (List.filter (supports s) [LlmContextCreate; LlmContextAppend; LlmContextFork; LlmContextReset; LlmContextRelease])
    "process" (MaxContextsPerPrincipal (options s)) (MaxTTLSeconds (options s)) (TombstoneSeconds (options s)).

(** ** Helpers *)

Definition isContextIDChar (c : Ascii.ascii) : bool :=
  let z := char_z c in
  ((65 <=? z) && (z <=? 90)) || ((97 <=? z) && (z <=? 122)) || ((48 <=? z) && (z <=? 57)) || (z =? 95) || (z =? 45).

Definition validateContextID (value : string) : option LlmContextStoreError :=
  if (22 <=? str_len value) && (str_len value <=? 128) && str_forall isContextIDChar value then None
  else Some (paramsInvalid "context_id must be a 22-128 character unpadded base64url locator").

Definition unit_separator : string := str_of [0x1f]%N.

Definition ownerKey (owner : LlmContextOwner) (action key : string) : string :=
  NID owner +:+ unit_separator +:+ SecurityScope owner +:+ unit_separator +:+ action +:+ unit_separator +:+ key.

Definition complete_key (req : LlmContextMutationRequest) : string :=
  ownerKey (mr_Owner req) LlmCompleteActionID (mr_IdempotencyKey req).

Definition clampTTL (s : InMemoryLlmContextStore) (value : Z) : Z := Z.min value (MaxTTLSeconds (options s)).

Definition is_op (op want : LlmContextOperation) : bool := String.eqb op want.

(** The operations that allocate a context. *)
Definition allocates (op : LlmContextOperation) : bool := is_op op LlmContextCreate || is_op op LlmContextFork.

Definition optionalString (v : string) : option string := if String.eqb v "" then None else Some v.

(** ** Sweeping *)

Definition expire_entry (s : InMemoryLlmContextStore) (now : Z) (e : llmContextEntry) : llmContextEntry :=
  match state e, reservationID e, expiresAt e with
  | LlmContextActive, EmptyString, Some t =>
      if negb (after t now) then
        MkContext (contextID e) (owner e) (version e) LlmContextExpired (binding e) (e_fingerprint e) (transcript e) (ttlSeconds e)
          None (Some (now + TombstoneSeconds (options s) * second)) (reservationID e)
      else e
  | _, _, _ => e
  end.

Definition is_gone (now : Z) (e : llmContextEntry) : bool :=
  (bool_decide (state e = LlmContextExpired) || bool_decide (state e = LlmContextReleased)) &&
  match tombstoneUntil e with Some t => negb (after t now) | None => false end.

Definition is_stale (now : Z) (i : llmIdempotencyEntry) : bool :=
  negb (bool_decide (i_state i = OutcomeBusy)) && negb (after (retainUntil i) now).

(** [s.sweepLocked(now)], with the number of changes. *)
Definition sweepLocked (now : Z) (s : InMemoryLlmContextStore) : nat * InMemoryLlmContextStore :=
  let expired := size (filter (fun '(_, e) => bool_decide (state (expire_entry s now e) = state e) = false) (contexts s)) in
  let aged := expire_entry s now <$> contexts s in
  let kept := filter (fun '(_, e) => is_gone now e = false) aged in
  let outcomes := filter (fun '(_, i) => is_stale now i = false) (idempotency s) in
  ((expired + (size aged - size kept) + (size (idempotency s) - size outcomes))%nat,
   set_idempotency outcomes (set_contexts kept s)).

(** ** Guards *)

Definition validateRequest (req : LlmContextMutationRequest) : option LlmContextStoreError :=
  let op := mr_Operation req in
  if is_op op LlmContextRelease then Some (paramsInvalid "release uses the lifecycle action")
  else if String.eqb (mr_IdempotencyKey req) "" then Some (paramsInvalid "a stateful request requires idempotency_key")
  else if bool_decide (mr_TTLSeconds req = Some 0) then Some (paramsInvalid "ttl_seconds must be greater than zero")
  else
    let located :=
      if is_op op LlmContextCreate then
        if bool_decide (mr_ContextID req <> None) || bool_decide (mr_BaseVersion req <> None) then
          Some (paramsInvalid "create forbids context_id and base_version")
        else None
      else
        match mr_ContextID req, mr_BaseVersion req with
        | Some id, Some _ => validateContextID id
        | _, _ => Some (paramsInvalid "append/fork/reset require context_id and base_version")
        end in
    match located with
    | Some e => Some e
    | None =>
        if negb (is_op op LlmContextFork) && bool_decide (mr_Messages req = []) then
          Some (paramsInvalid "only fork may carry an empty message delta")
        else if (is_op op LlmContextAppend || is_op op LlmContextFork) &&
                existsb (fun m => String.eqb (Role m) "system") (mr_Messages req) then
          Some (storeError ErrLlmContextBindingMismatch "append/fork deltas must not contain system messages" None)
        else None
    end.

Definition live_of (who : LlmContextOwner) (e : llmContextEntry) : bool :=
  bool_decide (owner e = who) && bool_decide (state e = LlmContextActive).
Definition pending_of (who : LlmContextOwner) (r : nat * LlmContextMutationReservation) : bool :=
  bool_decide (mr_Owner (r_request r.2) = who) && allocates (mr_Operation (r_request r.2)).

Definition live (s : InMemoryLlmContextStore) (who : LlmContextOwner) : nat :=
  size (filter (fun '(_, e) => live_of who e = true) (contexts s)).
Definition pending (s : InMemoryLlmContextStore) (who : LlmContextOwner) : nat :=
  size (filter (fun '(_, r) => pending_of who r = true) (reservations s)).

Definition ensureAllocationAvailable (s : InMemoryLlmContextStore) (who : LlmContextOwner) : option LlmContextStoreError :=
  if MaxContextsPerPrincipal (options s) <=? Z.of_nat (live s who + pending s who) then
    Some (storeError ErrLlmContextLimitExceeded "the principal's live context limit has been reached" None)
  else None.

Definition requireEntry (s : InMemoryLlmContextStore) (id : string) : result LlmContextStoreError llmContextEntry :=
  match contexts s !! id with Some e => Ok e | None => Err notFound end.

Definition requireMutable (s : InMemoryLlmContextStore) (who : LlmContextOwner) (id : string) : result LlmContextStoreError llmContextEntry :=
  let? e := requireEntry s id in
  if negb (bool_decide (owner e = who)) then Err (storeError ErrLlmContextForbidden "the caller does not own this context" None)
  else match state e with
       | LlmContextExpired => Err (storeError ErrLlmContextExpired "the context expired" (Some (version e)))
       | LlmContextReleased => Err notFound
       | _ => Ok e
       end.

Definition requireReservation (s : InMemoryLlmContextStore) (h : option handle) : result LlmContextStoreError LlmContextMutationReservation :=
  match h with
  | None => Err (PlainErr "context reservation is nil")
  | Some h =>
      match reservations s !! h_id h with
      | Some (a, r) => if Nat.eqb a (h_addr h) then Ok r else Err (PlainErr "context reservation is not active")
      | None => Err (PlainErr "context reservation is not active")
      end
  end.

(** [d.Sub(now)] saturates; the sum and the conversion to [uint32] wrap. *)
Definition saturate64 (z : Z) : Z := Z.max (- 2 ^ 63) (Z.min maxInt64 z).

Definition effectiveTTL (s : InMemoryLlmContextStore) (now : Z) (req : LlmContextMutationRequest) (e : llmContextEntry) : option Z :=
  match mr_TTLSeconds req with
  | Some ttl => Some (clampTTL s ttl)
  | None =>
      if is_op (mr_Operation req) LlmContextFork then
        match expiresAt e with
        | None => None
        | Some t => Some (u32 (Z.max 1 (Z.quot (i64 (saturate64 (t - now) + second - 1)) second)))
        end
      else if ttlSeconds e =? 0 then None
      else Some (ttlSeconds e)
  end.

(** The locator of the next context: at most eight answers of the factory. *)
Fixpoint nextContextID (attempts : nat) (ids : nat -> result string string) (s : InMemoryLlmContextStore) : result LlmContextStoreError string :=
  match attempts with
  | O => Err (PlainErr "context ID factory repeatedly produced collisions")
  | S attempts =>
      match ids 0%nat with
      | Err e => Err (PlainErr e)
      | Ok value =>
          match validateContextID value with
          | Some e => Err e
          | None => if bool_decide (contexts s !! value = None) then Ok value else nextContextID attempts (fun i => ids (S i)) s
          end
      end
  end.

Section Store.
(** [json.Marshal] of a binding, [sha256] in hexadecimal and the RFC 3339 format. *)
Context (json_binding : LlmContextBinding -> result string (list byte)) (sha256_hex : list byte -> string) (format_time : Z -> string).
(** [strconv.Quote], for the format verb q. *)
Context (quote : string -> string).

Definition ensureSupported (s : InMemoryLlmContextStore) (op : LlmContextOperation) : option LlmContextStoreError :=
  if supports s op then None
  else Some (storeError ErrLlmContextOperationUnsupported ("context operation " +:+ quote op +:+ " is not advertised") None).

Definition bindingFingerprint (b : LlmContextBinding) : result LlmContextStoreError string :=
  match json_binding b with Ok raw => Ok (sha256_hex raw) | Err e => Err (PlainErr e) end.

Definition newReservation (rid : string) (req : LlmContextMutationRequest) (transcript : list LlmMessageDto) (ttl : option Z)
    (parentID : option string) (parentVersion : option Z) : LlmContextMutationReservation :=
  MkReservation rid req (match bindingFingerprint (mr_Binding req) with Ok f => f | Err _ => "" end) transcript ttl parentID parentVersion.

(** ** Reserve *)

(** Store the reservation and its busy outcome. *)
Definition register (now : Z) (r : LlmContextMutationReservation) (s : InMemoryLlmContextStore) : handle * InMemoryLlmContextStore :=
  let req := r_request r in
  (MkHandle (next_addr s) (r_reservationID r),
   MkStore (options s) (contexts s)
     (<[complete_key req := MkOutcome OutcomeBusy (now + IdempotencyTTL (options s)) (mr_RequestID req) (r_reservationID r) "" None "" None]>
        (idempotency s))
     (<[r_reservationID r := (next_addr s, r)]> (reservations s)) (S (next_addr s))).

Definition reserve_create (c : nat -> Z) (rid : string) (req : LlmContextMutationRequest) (s : InMemoryLlmContextStore) :
    result LlmContextStoreError handle * InMemoryLlmContextStore :=
  match ensureAllocationAvailable s (mr_Owner req) with
  | Some e => (Err e, s)
  | None =>
      let ttl := clampTTL s (default (DefaultTTLSeconds (options s)) (mr_TTLSeconds req)) in
      let '(h, s) := register (c 2%nat) (newReservation rid req [] (Some ttl) None None) s in (Ok h, s)
  end.

Definition reserve_existing (c : nat -> Z) (rid : string) (req : LlmContextMutationRequest) (id : string) (base : Z)
    (s : InMemoryLlmContextStore) : result LlmContextStoreError handle * InMemoryLlmContextStore :=
  match requireMutable s (mr_Owner req) id with
  | Err e => (Err e, s)
  | Ok e =>
      if negb (String.eqb (reservationID e) "") || negb (version e =? base) then
        (Err (storeError ErrLlmContextVersionConflict "the context version is stale or a mutation is running" (Some (version e))), s)
      else
        match bindingFingerprint (mr_Binding req) with
        | Err err => (Err err, s)
        | Ok fingerprint =>
            let op := mr_Operation req in
            if (is_op op LlmContextAppend || is_op op LlmContextFork) && negb (String.eqb (e_fingerprint e) fingerprint) then
              (Err (storeError ErrLlmContextBindingMismatch "the request binding differs from the retained binding" None), s)
            else
              match (if is_op op LlmContextFork then ensureAllocationAvailable s (mr_Owner req) else None) with
              | Some err => (Err err, s)
              | None =>
                  let ttl := effectiveTTL s (c 1%nat) req e in
                  let fork := is_op op LlmContextFork in
                  let r := newReservation rid req (transcript e) ttl (if fork then Some (contextID e) else None)
                             (if fork then Some (version e) else None) in
                  let s := if fork then s else set_contexts (<[id := set_reservation rid e]> (contexts s)) s in
                  let '(h, s) := register (c 2%nat) r s in (Ok h, s)
              end
        end
  end.

Definition Reserve (c : nat -> Z) (rid : string) (req : LlmContextMutationRequest) (s : InMemoryLlmContextStore) :
    result LlmContextStoreError handle * InMemoryLlmContextStore :=
  let s := (sweepLocked (c 0%nat) s).2 in
  match validateRequest req with
  | Some e => (Err e, s)
  | None =>
      match ensureSupported s (mr_Operation req) with
      | Some e => (Err e, s)
      | None =>
          match idempotency s !! complete_key req with
          | Some _ => (Err (storeError ErrActionIdempotencyConflict "an outcome already exists for this idempotency key" None), s)
          | None =>
              if is_op (mr_Operation req) LlmContextCreate then reserve_create c rid req s
              else match mr_ContextID req, mr_BaseVersion req with
                   | Some id, Some base => reserve_existing c rid req id base s
                   | _, _ => (Err (PlainErr "nil pointer dereference"), s)
                   end
          end
      end
  end.

(** ** Commit and abort *)

Definition completeIdempotency (now : Z) (r : LlmContextMutationReservation) (receipt : LlmContextReceiptDto)
    (s : InMemoryLlmContextStore) : InMemoryLlmContextStore :=
  set_idempotency (<[complete_key (r_request r) :=
    MkOutcome OutcomeCompleted (now + IdempotencyTTL (options s)) (mr_RequestID (r_request r)) "" "" (Some receipt) "" None]> (idempotency s)) s.

(** The last statements of [Commit]. *)
Definition finish (c : nat -> Z) (r : LlmContextMutationReservation) (id : string) (v : Z) (expiry : option Z)
    (s : InMemoryLlmContextStore) : result LlmContextStoreError LlmContextReceiptDto * InMemoryLlmContextStore :=
  let receipt := MkReceipt id v (mr_Operation (r_request r)) LlmContextActive (format_time <$> expiry) (r_parentContextID r)
                   (r_parentVersion r) in
  let s := completeIdempotency (c 1%nat) r receipt s in
  (Ok receipt, set_reservations (delete (r_reservationID r) (reservations s)) s).

Definition new_entry (r : LlmContextMutationReservation) (id : string) (expiry : option Z) (reply : LlmMessageDto) : llmContextEntry :=
  let req := r_request r in
  let base := if is_op (mr_Operation req) LlmContextFork then r_baseTranscript r else [] in
  MkContext id (mr_Owner req) 1 LlmContextActive (mr_Binding req) (r_bindingFingerprint r)
    (base ++ mr_Messages req ++ [reply]) (default 0 (r_effectiveTTLSeconds r)) expiry None "".

Definition mutated_entry (r : LlmContextMutationReservation) (e : llmContextEntry) (expiry : option Z) (reply : LlmMessageDto) : llmContextEntry :=
  let req := r_request r in
  let reset := is_op (mr_Operation req) LlmContextReset in
  MkContext (contextID e) (owner e) (u64 (version e + 1)) LlmContextActive (if reset then mr_Binding req else binding e)
    (if reset then r_bindingFingerprint r else e_fingerprint e)
    (if reset then mr_Messages req ++ [reply] else transcript e ++ mr_Messages req ++ [reply])
    (default 0 (r_effectiveTTLSeconds r)) expiry (tombstoneUntil e) "".

(** [ids] are the answers of the context id factory. *)
Definition Commit (c : nat -> Z) (ids : nat -> result string string) (h : option handle) (reply : LlmMessageDto)
    (s : InMemoryLlmContextStore) : result LlmContextStoreError LlmContextReceiptDto * InMemoryLlmContextStore :=
  match requireReservation s h with
  | Err e => (Err e, s)
  | Ok r =>
      let req := r_request r in
      let expiry := (fun ttl => c 0%nat + ttl * second) <$> r_effectiveTTLSeconds r in
      if allocates (mr_Operation req) then
        match nextContextID 8 ids s with
        | Err e => (Err e, s)
        | Ok id => finish c r id 1 expiry (set_contexts (<[id := new_entry r id expiry reply]> (contexts s)) s)
        end
      else
        match mr_ContextID req with
        | None => (Err (PlainErr "nil pointer dereference"), s)
        | Some id =>
            match requireEntry s id with
            | Err e => (Err e, s)
            | Ok e =>
                let e := mutated_entry r e expiry reply in
                finish c r (contextID e) (version e) expiry (set_contexts (<[id := e]> (contexts s)) s)
            end
        end
  end.

Definition clearReservation (r : LlmContextMutationReservation) (s : InMemoryLlmContextStore) : InMemoryLlmContextStore :=
  match mr_ContextID (r_request r) with
  | None => s
  | Some id =>
      match contexts s !! id with
      | Some e => if String.eqb (reservationID e) (r_reservationID r) then set_contexts (<[id := set_reservation "" e]> (contexts s)) s else s
      | None => s
      end
  end.

Definition Abort (c : nat -> Z) (h : option handle) (errorCode : string) (s : InMemoryLlmContextStore) :
    option LlmContextStoreError * InMemoryLlmContextStore :=
  match requireReservation s h with
  | Err e => (Some e, s)
  | Ok r =>
      let s := clearReservation r s in
      let s := set_reservations (delete (r_reservationID r) (reservations s)) s in
      let s := set_idempotency (<[complete_key (r_request r) :=
                 MkOutcome OutcomeFailed (c 0%nat + IdempotencyTTL (options s)) (mr_RequestID (r_request r)) "" errorCode None "" None]>
                 (idempotency s)) s in
      (None, (sweepLocked (c 1%nat) s).2)
  end.

(** ** Release, status and snapshot *)

Definition released_entry (s : InMemoryLlmContextStore) (now : Z) (e : llmContextEntry) : llmContextEntry :=
  MkContext (contextID e) (owner e) (u64 (version e + 1)) LlmContextReleased (binding e) (e_fingerprint e) (transcript e)
    (ttlSeconds e) None (Some (now + TombstoneSeconds (options s) * second)) (reservationID e).

Definition same_release (prior : llmIdempotencyEntry) (id : string) (base : Z) : option LlmContextReceiptDto :=
  if bool_decide (i_state prior = OutcomeCompleted) && String.eqb (i_contextID prior) id && bool_decide (i_baseVersion prior = Some base)
  then i_receipt prior else None.

Definition Release (c : nat -> Z) (who : LlmContextOwner) (id : string) (base : Z) (idempotencyKey : string)
    (s : InMemoryLlmContextStore) : result LlmContextStoreError LlmContextReceiptDto * InMemoryLlmContextStore :=
  let s := (sweepLocked (c 0%nat) s).2 in
  match ensureSupported s LlmContextRelease with
  | Some e => (Err e, s)
  | None =>
      match validateContextID id with
      | Some e => (Err e, s)
      | None =>
          if String.eqb idempotencyKey "" then (Err (paramsInvalid "release requires idempotency_key"), s)
          else
            let key := ownerKey who LlmContextReleaseActionID idempotencyKey in
            match idempotency s !! key with
            | Some prior =>
                match same_release prior id base with
                | Some receipt => (Ok receipt, s)
                | None => (Err (storeError ErrActionIdempotencyConflict "a release with this idempotency key already exists" None), s)
                end
            | None =>
                match requireMutable s who id with
                | Err e => (Err e, s)
                | Ok e =>
                    if negb (String.eqb (reservationID e) "") || negb (version e =? base) then
                      (Err (storeError ErrLlmContextVersionConflict "the context version is stale or a mutation is running" (Some (version e))), s)
                    else
                      let e := released_entry s (c 1%nat) e in
                      let receipt := MkReceipt id (version e) LlmContextRelease LlmContextReleased None None None in
                      let s := set_contexts (<[id := e]> (contexts s)) s in
                      (Ok receipt, set_idempotency (<[key := MkOutcome OutcomeCompleted (c 2%nat + IdempotencyTTL (options s)) "" "" ""
                                     (Some receipt) id (Some base)]> (idempotency s)) s)
                end
            end
      end
  end.

Definition statusByContextLocked (s : InMemoryLlmContextStore) (who : LlmContextOwner) (id : string) :
    result LlmContextStoreError LlmContextStatusDto :=
  match validateContextID id with
  | Some e => Err e
  | None =>
      match contexts s !! id with
      | None => Err notFound
      | Some e =>
          if negb (bool_decide (owner e = who)) then Err (storeError ErrLlmContextForbidden "the caller does not own this context" None)
          else
            let busy := negb (String.eqb (reservationID e) "") in
            let requestID := if busy then
                               match reservations s !! reservationID e with
                               | Some (_, r) => optionalString (mr_RequestID (r_request r))
                               | None => None
                               end
                             else None in
            Ok (MkStatus (if busy then LlmContextBusy else state e) (Some (contextID e)) (Some (version e))
                  (format_time <$> expiresAt e) requestID None)
      end
  end.

Definition statusFromReceiptLocked (s : InMemoryLlmContextStore) (who : LlmContextOwner) (receipt : LlmContextReceiptDto) :
    result LlmContextStoreError LlmContextStatusDto :=
  match contexts s !! rc_ContextID receipt with
  | Some _ => statusByContextLocked s who (rc_ContextID receipt)
  | None => Ok (MkStatus (rc_State receipt) (Some (rc_ContextID receipt)) (Some (rc_Version receipt)) (rc_ExpiresAt receipt) None None)
  end.

Definition Status (c : nat -> Z) (who : LlmContextOwner) (id key : option string) (s : InMemoryLlmContextStore) :
    result LlmContextStoreError LlmContextStatusDto * InMemoryLlmContextStore :=
  let s := (sweepLocked (c 0%nat) s).2 in
  let answer :=
    match id, key with
    | Some id, None => statusByContextLocked s who id
    | None, Some key =>
        match idempotency s !! ownerKey who LlmCompleteActionID key with
        | None => Err notFound
        | Some outcome =>
            match i_state outcome with
            | OutcomeBusy => Ok (MkStatus LlmContextBusy None None None (optionalString (i_requestID outcome)) None)
            | OutcomeFailed => Ok (MkStatus LlmContextFailed None None None (optionalString (i_requestID outcome))
                                     (optionalString (i_errorCode outcome)))
            | OutcomeCompleted =>
                match i_receipt outcome with
                | Some receipt => statusFromReceiptLocked s who receipt
                | None => Err (PlainErr "nil pointer dereference")
                end
            end
        end
    | _, _ => Err (paramsInvalid "status requires exactly one locator")
    end in
  (answer, s).

Definition Snapshot (c : nat -> Z) (who : LlmContextOwner) (id : string) (s : InMemoryLlmContextStore) :
    result LlmContextStoreError LlmContextSnapshot * InMemoryLlmContextStore :=
  let s := (sweepLocked (c 0%nat) s).2 in
  match requireMutable s who id with
  | Err e => (Err e, s)
  | Ok e => (Ok (MkContextSnapshot (contextID e) (version e) (state e) (transcript e) (binding e) (expiresAt e)), s)
  end.

Definition SweepExpired (c : nat -> Z) (s : InMemoryLlmContextStore) : nat * InMemoryLlmContextStore := sweepLocked (c 0%nat) s.

End Store.
