(* ===== verification/NwpContextProof.v ===== *)
(** * What the context store guarantees

    The invariant of the store, the exclusion between a reservation and every other
    operation, versions as identities of transcripts, quotas, replays and isolation
    between owners. *)

From S2P Require Import Prelude GoValue NwpContext.

(** ** Counting in maps *)

(** [live] and [pending] count the entries of a map that pass a test. *)
Definition map_count {A} (p : A -> bool) (m : gmap string A) : nat := size (filter (fun '(_, x) => p x = true) m).

Lemma map_count_delete {A} (p : A -> bool) m k x : m !! k = Some x -> map_count p m = (map_count p (delete k m) + Nat.b2n (p x))%nat.
Proof.
  intros Hk. unfold map_count. rewrite <- (insert_delete_id m k x Hk) at 1. rewrite map_filter_insert. case_decide as Hp.
  - rewrite map_size_insert_None by (apply map_lookup_filter_None; left; apply lookup_delete_eq). rewrite Hp. cbn. lia.
  - rewrite delete_delete_eq. destruct (p x); [done|]. cbn. lia.
Qed.

Lemma map_count_insert {A} (p : A -> bool) m k x : map_count p (<[k := x]> m) = (map_count p (delete k m) + Nat.b2n (p x))%nat.
Proof. rewrite (map_count_delete p _ k x) by apply lookup_insert_eq. by rewrite delete_insert_eq. Qed.

Lemma map_count_fresh {A} (p : A -> bool) m k : m !! k = None -> map_count p (delete k m) = map_count p m.
Proof. intros Hk. by rewrite delete_id. Qed.

(** Removing entries, or changing them so that fewer pass, does not raise the count. *)
Lemma map_count_le {A} (p : A -> bool) (m m' : gmap string A) :
  (forall k x', m' !! k = Some x' -> p x' = true -> exists x, m !! k = Some x /\ p x = true) ->
  (map_count p m' <= map_count p m)%nat.
Proof.
  intros Hsub. unfold map_count. rewrite <- !size_dom. apply subseteq_size. intros k. rewrite !elem_of_dom.
  intros [x' [Hk Hp]%map_lookup_filter_Some]. destruct (Hsub k x' Hk Hp) as (x & Hx & Hpx). exists x. by apply map_lookup_filter_Some.
Qed.

Lemma live_count s who : live s who = map_count (live_of who) (contexts s).
Proof. done. Qed.
Lemma pending_count s who : pending s who = map_count (pending_of who) (reservations s).
Proof. done. Qed.

(** ** The invariant *)

(** The reservation [r] holds the lock of the context [id]. *)
Definition holds (id : string) (e : llmContextEntry) (r : LlmContextMutationReservation) : Prop :=
  allocates (mr_Operation (r_request r)) = false /\ mr_ContextID (r_request r) = Some id /\
  mr_BaseVersion (r_request r) = Some (version e) /\ mr_Owner (r_request r) = owner e /\ r_baseTranscript r = transcript e /\
  (mr_Operation (r_request r) = LlmContextAppend -> r_bindingFingerprint r = e_fingerprint e).

Record reservation_ok (s : InMemoryLlmContextStore) (rid : string) (a : nat) (r : LlmContextMutationReservation) : Prop := {
  res_id : r_reservationID r = rid;
  res_nonempty : rid <> "";
  res_addr : (a < next_addr s)%nat;
  res_busy : exists i, idempotency s !! complete_key (r_request r) = Some i /\ i_state i = OutcomeBusy /\ i_reservationID i = rid;
  res_lock : allocates (mr_Operation (r_request r)) = false ->
    exists id e, mr_ContextID (r_request r) = Some id /\ contexts s !! id = Some e /\ reservationID e = rid
}.

Record store_ok (s : InMemoryLlmContextStore) : Prop := {
  ok_id : forall id e, contexts s !! id = Some e -> contextID e = id;
  ok_state : forall id e, contexts s !! id = Some e ->
    state e = LlmContextActive \/
    (reservationID e = "" /\ is_Some (tombstoneUntil e) /\ (state e = LlmContextExpired \/ state e = LlmContextReleased));
  ok_lock : forall id e, contexts s !! id = Some e -> reservationID e <> "" ->
    exists a r, reservations s !! reservationID e = Some (a, r) /\ holds id e r;
  ok_held : forall rid a r, reservations s !! rid = Some (a, r) -> reservation_ok s rid a r;
  ok_busy : forall k i, idempotency s !! k = Some i -> i_state i = OutcomeBusy ->
    exists a r, reservations s !! i_reservationID i = Some (a, r) /\ complete_key (r_request r) = k;
  ok_quota : forall who, Z.of_nat (live s who + pending s who) <= MaxContextsPerPrincipal (options s)
}.

(** ** Sweeping *)

Lemma expire_entry_cases s now e :
  expire_entry s now e = e \/
  (state e = LlmContextActive /\ reservationID e = "" /\ state (expire_entry s now e) = LlmContextExpired /\
   contextID (expire_entry s now e) = contextID e /\ reservationID (expire_entry s now e) = "" /\
   is_Some (tombstoneUntil (expire_entry s now e)) /\ owner (expire_entry s now e) = owner e /\
   version (expire_entry s now e) = version e /\ transcript (expire_entry s now e) = transcript e /\
   binding (expire_entry s now e) = binding e).
Proof.
  unfold expire_entry. destruct (state e) eqn:Es; try (by left). destruct (reservationID e) eqn:Er; [|by left].
  destruct (expiresAt e); [|by left]. destruct (negb _); [|by left]. right. cbn. split_and!; eauto.
Qed.

Lemma sweep_lookup now s id e' :
  contexts (sweepLocked now s).2 !! id = Some e' <->
  exists e, contexts s !! id = Some e /\ e' = expire_entry s now e /\ is_gone now e' = false.
Proof.
  cbn. rewrite map_lookup_filter_Some, lookup_fmap, fmap_Some. naive_solver.
Qed.

(** A locked context is not touched. *)
Lemma sweep_locked_entry now s id e : store_ok s -> contexts s !! id = Some e -> reservationID e <> "" ->
  contexts (sweepLocked now s).2 !! id = Some e.
Proof.
  intros Hok He Hr. apply sweep_lookup. exists e. destruct (expire_entry_cases s now e) as [->|(_ & ? & _)]; [|done].
  split_and!; [done|done|]. unfold is_gone. destruct (ok_state s Hok id e He) as [->|(? & _)]; [done|done].
Qed.

Lemma sweep_busy now s k i : i_state i = OutcomeBusy -> idempotency s !! k = Some i -> idempotency (sweepLocked now s).2 !! k = Some i.
Proof. intros Hb Hi. cbn. apply map_lookup_filter_Some. split; [done|]. unfold is_stale. by rewrite Hb. Qed.

Lemma sweep_outcome now s k i : idempotency (sweepLocked now s).2 !! k = Some i -> idempotency s !! k = Some i.
Proof. cbn. intros [? _]%map_lookup_filter_Some. done. Qed.

Lemma sweep_fields now s : options (sweepLocked now s).2 = options s /\ reservations (sweepLocked now s).2 = reservations s /\
  next_addr (sweepLocked now s).2 = next_addr s.
Proof. done. Qed.

Lemma sweep_live now s who : (live (sweepLocked now s).2 who <= live s who)%nat.
Proof.
  rewrite !live_count. apply map_count_le. intros id e' He' Hl. apply sweep_lookup in He' as (e & He & -> & _). exists e. split; [done|].
  destruct (expire_entry_cases s now e) as [E|(Hs & _ & Hx & _ & _ & _ & Ho & _)]; [by rewrite <- E|].
  unfold live_of in *. rewrite Hx in Hl. by rewrite andb_false_r in Hl.
Qed.

Lemma sweep_ok now s : store_ok s -> store_ok (sweepLocked now s).2.
Proof.
  intros Hok. split.
  - intros id e' (e & He & -> & _)%sweep_lookup. pose proof (ok_id s Hok id e He).
    destruct (expire_entry_cases s now e) as [->|(_ & _ & _ & -> & _)]; done.
  - intros id e' (e & He & -> & _)%sweep_lookup. pose proof (ok_state s Hok id e He).
    destruct (expire_entry_cases s now e) as [->|(_ & _ & ? & _ & ? & ? & _)]; [done|]. right. eauto.
  - intros id e' (e & He & -> & _)%sweep_lookup Hr. destruct (expire_entry_cases s now e) as [E|(_ & _ & _ & _ & ? & _)]; [|done].
    rewrite E in *. by apply (ok_lock s Hok).
  - intros rid a r Hr. destruct (ok_held s Hok rid a r Hr) as [H1 H2 H3 (i & Hi & Hb & Hri) H5]. split; try done.
    + exists i. split_and!; [|done|done]. by apply sweep_busy.
    + intros Ha. destruct (H5 Ha) as (id & e & ? & He & Hl). exists id, e. split_and!; try done. apply sweep_locked_entry; congruence.
  - intros k i Hi Hb. by apply (ok_busy s Hok), Hb; apply sweep_outcome in Hi.
  - intros who. pose proof (sweep_live now s who). pose proof (ok_quota s Hok who).
    change (pending (sweepLocked now s).2 who) with (pending s who). change (options (sweepLocked now s).2) with (options s). lia.
Qed.

(** ** Taking and resolving a reservation *)

(** What taking the reservation [r] does to the contexts. *)
Definition locks (s : InMemoryLlmContextStore) (r : LlmContextMutationReservation) (m : gmap string llmContextEntry) : Prop :=
  (allocates (mr_Operation (r_request r)) = true /\ m = contexts s /\
   Z.of_nat (live s (mr_Owner (r_request r)) + pending s (mr_Owner (r_request r))) < MaxContextsPerPrincipal (options s)) \/
  (exists id e, contexts s !! id = Some e /\ reservationID e = "" /\ state e = LlmContextActive /\ holds id e r /\
    m = <[id := set_reservation (r_reservationID r) e]> (contexts s)).

(** A context is as before, or the one that was locked. *)
Lemma locks_lookup s r m : locks s r m -> forall id e', m !! id = Some e' ->
  contexts s !! id = Some e' \/
  exists e, contexts s !! id = Some e /\ reservationID e = "" /\ state e = LlmContextActive /\ holds id e r /\
    e' = set_reservation (r_reservationID r) e.
Proof.
  intros Hlocks id e' He'. destruct Hlocks as [(_ & -> & _)|(id0 & e & He & Hr & Hs & Hh & ->)]; [by left|].
  destruct (decide (id0 = id)) as [->|Hn]; [|left; by rewrite lookup_insert_ne in He'].
  rewrite lookup_insert_eq in He'. injection He' as <-. right. eauto 10.
Qed.

Lemma locks_unlocked s r m rid id e : locks s r m -> rid <> "" -> contexts s !! id = Some e -> reservationID e = rid -> m !! id = Some e.
Proof.
  intros [(_ & -> & _)|(id0 & e0 & He0 & Hr0 & _ & _ & ->)] Hne He Hre; [done|].
  rewrite lookup_insert_ne; [done|]. intros <-. rewrite He in He0. injection He0 as <-. congruence.
Qed.

Lemma live_insert s id e e' who : contexts s !! id = Some e -> state e = state e' -> owner e = owner e' ->
  map_count (live_of who) (<[id := e']> (contexts s)) = live s who.
Proof.
  intros He Es Eo. rewrite live_count, map_count_insert, (map_count_delete _ (contexts s) id e He). unfold live_of. by rewrite Es, Eo.
Qed.

Lemma register_ok now r m s : store_ok s -> r_reservationID r <> "" -> reservations s !! r_reservationID r = None ->
  idempotency s !! complete_key (r_request r) = None -> locks s r m -> store_ok (register now r (set_contexts m s)).2.
Proof.
  intros Hok Hne Hfresh Hkey Hlocks.
  assert (Hunlocked : forall id e, contexts s !! id = Some e -> reservationID e <> r_reservationID r).
  { intros id e He E. destruct (ok_lock s Hok id e He) as (a & r' & Hr & _); congruence. }
  pose proof (locks_lookup s r m) as Hm. specialize (Hm Hlocks).
  split; cbn.
  - intros id e' [He|(e & He & _ & _ & _ & ->)]%Hm; [by apply (ok_id s Hok)|by apply (ok_id s Hok id e)].
  - intros id e' [He|(e & He & _ & Hs & _ & ->)]%Hm; [by apply (ok_state s Hok id)|by left].
  - intros id e' [He|(e & He & _ & _ & Hh & ->)]%Hm Hr.
    + rewrite lookup_insert_ne by (intros E; by apply (Hunlocked id e' He)). by apply (ok_lock s Hok).
    + cbn. rewrite lookup_insert_eq. by exists (next_addr s), r.
  - intros rid a r' Hr'. destruct (decide (r_reservationID r = rid)) as [<-|Hn].
    + rewrite lookup_insert_eq in Hr'. injection Hr' as <- <-. split; cbn; [done|done|lia| |].
      * rewrite lookup_insert_eq. by eexists.
      * intros Ha. destruct Hlocks as [(? & _)|(id & e & He & _ & _ & Hh & ->)]; [congruence|]. destruct Hh as (_ & Hid & _).
        exists id, (set_reservation (r_reservationID r) e). by rewrite lookup_insert_eq.
    + rewrite lookup_insert_ne in Hr' by done. destruct (ok_held s Hok rid a r' Hr') as [H1 H2 H3 (i & Hi & Hb & Hri) H5].
      split; cbn; [done|done|lia| |].
      * exists i. split_and!; [|done|done]. rewrite lookup_insert_ne; [done|]. intros E. by rewrite <- E, Hkey in Hi.
      * intros Ha. destruct (H5 Ha) as (id & e & Hid & He & Hre). exists id, e. split_and!; try done.
        by apply (locks_unlocked s r m rid).
  - intros k i Hi Hb. destruct (decide (complete_key (r_request r) = k)) as [<-|Hn].
    + rewrite lookup_insert_eq in Hi. injection Hi as <-. cbn. exists (next_addr s), r. by rewrite lookup_insert_eq.
    + rewrite lookup_insert_ne in Hi by done. destruct (ok_busy s Hok k i Hi Hb) as (a & r' & Hr' & Hk). exists a, r'.
      split; [|done]. rewrite lookup_insert_ne; [done|]. intros E. by rewrite <- E, Hfresh in Hr'.
  - intros who. rewrite pending_count, live_count. cbn. rewrite map_count_insert, map_count_fresh by done.
    rewrite <- pending_count. pose proof (ok_quota s Hok who). destruct Hlocks as [(Ha & -> & Hq)|(id & e & He & _ & Hs & Hh & ->)].
    + rewrite <- live_count. unfold pending_of. cbn. rewrite Ha, andb_true_r. case_bool_decide as Eo; [subst who|]; cbn; lia.
    + rewrite (live_insert s id e) by done. unfold pending_of. cbn. destruct Hh as (Ha & _). rewrite Ha, andb_false_r. cbn. lia.
Qed.

(** What resolving the reservation [r] does to the contexts. *)
Definition resolves (s : InMemoryLlmContextStore) (r : LlmContextMutationReservation) (m : gmap string llmContextEntry) : Prop :=
  (allocates (mr_Operation (r_request r)) = true /\
   (m = contexts s \/
    exists id e', contexts s !! id = None /\ m = <[id := e']> (contexts s) /\ contextID e' = id /\ reservationID e' = "" /\
      state e' = LlmContextActive /\ owner e' = mr_Owner (r_request r))) \/
  (allocates (mr_Operation (r_request r)) = false /\
   exists id e e', contexts s !! id = Some e /\ reservationID e = r_reservationID r /\ m = <[id := e']> (contexts s) /\
     contextID e' = id /\ reservationID e' = "" /\ state e' = LlmContextActive /\ owner e' = owner e).

(** A reservation holds the lock of the context it names only. *)
Lemma lock_unique s a r id e : store_ok s -> reservations s !! r_reservationID r = Some (a, r) -> contexts s !! id = Some e ->
  reservationID e = r_reservationID r -> allocates (mr_Operation (r_request r)) = false /\ mr_ContextID (r_request r) = Some id.
Proof.
  intros Hok Hr He E. pose proof (ok_held s Hok _ _ _ Hr) as [_ Hne _ _ _].
  destruct (ok_lock s Hok id e He) as (a1 & r1 & Hr1 & (? & ? & _)); [congruence|]. rewrite E, Hr in Hr1. by injection Hr1 as <- <-.
Qed.

(** A context is as before and not locked by the reservation, or the one that resolving it wrote. *)
Lemma resolves_lookup s a r m : store_ok s -> reservations s !! r_reservationID r = Some (a, r) -> resolves s r m ->
  forall id e', m !! id = Some e' ->
    (contexts s !! id = Some e' /\ reservationID e' <> r_reservationID r) \/
    (contextID e' = id /\ reservationID e' = "" /\ state e' = LlmContextActive).
Proof.
  intros Hok Hr Hm id e' He'. pose proof (lock_unique s a r) as Huniq.
  destruct Hm as [[Ha [->|(id0 & e0 & Hn & -> & ? & ? & ? & _)]]|(Ha & id0 & e & e0 & He & Hre & -> & ? & ? & ? & _)].
  - left. split; [done|]. intros E. destruct (Huniq id e' Hok Hr He' E). congruence.
  - destruct (decide (id0 = id)) as [->|]; [rewrite lookup_insert_eq in He'; injection He' as <-; by right|].
    rewrite lookup_insert_ne in He' by done. left. split; [done|]. intros E. destruct (Huniq id e' Hok Hr He' E). congruence.
  - destruct (decide (id0 = id)) as [->|Hn]; [rewrite lookup_insert_eq in He'; injection He' as <-; by right|].
    rewrite lookup_insert_ne in He' by done. left. split; [done|]. intros E. destruct (Huniq id e' Hok Hr He' E) as [_ E1].
    destruct (Huniq id0 e Hok Hr He Hre) as [_ E2]. congruence.
Qed.

Definition resolved (s : InMemoryLlmContextStore) (r : LlmContextMutationReservation) (m : gmap string llmContextEntry)
    (i : llmIdempotencyEntry) : InMemoryLlmContextStore :=
  MkStore (options s) m (<[complete_key (r_request r) := i]> (idempotency s)) (delete (r_reservationID r) (reservations s)) (next_addr s).

Lemma resolved_ok s a r m i : store_ok s -> reservations s !! r_reservationID r = Some (a, r) -> i_state i <> OutcomeBusy ->
  resolves s r m -> store_ok (resolved s r m i).
Proof.
  intros Hok Hr Hi Hm.
  pose proof (resolves_lookup s a r m Hok Hr Hm) as Hlook.
  split; cbn.
  - intros id e' [[He _]|(? & _)]%Hlook; [by apply (ok_id s Hok)|done].
  - intros id e' [[He _]|(_ & _ & ?)]%Hlook; [by apply (ok_state s Hok id)|by left].
  - intros id e' [[He Hn]|(_ & ? & _)]%Hlook Hre; [|done]. destruct (ok_lock s Hok id e' He Hre) as (a' & r' & Hr' & Hh).
    exists a', r'. split; [|done]. rewrite lookup_delete_ne; [done|]. intros E. by apply Hn.
  - intros rid a' r' [Hn Hr']%lookup_delete_Some. destruct (ok_held s Hok rid a' r' Hr') as [H1 H2 H3 (j & Hj & Hb & Hrj) H5].
    split; cbn; try done.
    + exists j. split_and!; [|done|done]. rewrite lookup_insert_ne; [done|]. intros E.
      destruct (ok_held s Hok _ _ _ Hr) as [_ _ _ (j' & Hj' & _ & Hrj') _]. rewrite E in Hj'. congruence.
    + intros Ha. destruct (H5 Ha) as (id & e & Hid & He & Hre). exists id, e. split_and!; try done.
      destruct Hm as [[_ [->|(id0 & e0 & Hno & -> & _)]]|(_ & id0 & e0 & e1 & He0 & Hre0 & -> & _)]; [done| |];
        (rewrite lookup_insert_ne; [done|]; intros <-; congruence).
  - intros k j Hj Hb. destruct (decide (complete_key (r_request r) = k)) as [<-|Hn].
    + rewrite lookup_insert_eq in Hj. congruence.
    + rewrite lookup_insert_ne in Hj by done. destruct (ok_busy s Hok k j Hj Hb) as (a' & r' & Hr' & Hk). exists a', r'. split; [|done].
      rewrite lookup_delete_ne; [done|]. intros E. rewrite <- E, Hr in Hr'. injection Hr' as <- <-. done.
  - intros who. pose proof (ok_quota s Hok who) as Hq. rewrite pending_count, (map_count_delete _ _ _ _ Hr) in Hq.
    rewrite pending_count, live_count. cbn. unfold pending_of in Hq at 2. cbn in Hq.
    destruct Hm as [[Ha [->|(id & e & Hno & -> & _ & _ & Hs & Ho)]]|(Ha & id & e & e' & He & Hre & -> & _ & _ & Hs & Ho)].
    + rewrite <- live_count. lia.
    + rewrite map_count_insert, map_count_fresh by done. rewrite <- live_count. unfold live_of. rewrite Hs, Ho.
      rewrite Ha, andb_true_r in Hq. rewrite (bool_decide_eq_true_2 (LlmContextActive = _)), andb_true_r by done. lia.
    + rewrite (live_insert s id e); [lia|done| |done]. destruct (ok_state s Hok id e He) as [->|(E & _)]; [done|].
      pose proof (ok_held s Hok _ _ _ Hr) as [_ Hne _ _ _]. congruence.
Qed.

(** ** Operations *)

Section Operations.
Context (json_binding : LlmContextBinding -> result string (list byte)) (sha256_hex : list byte -> string) (format_time : Z -> string).
Context (quote : string -> string).

Abbreviation reserve := (Reserve json_binding sha256_hex quote).
Abbreviation commit := (Commit format_time).
Abbreviation release := (Release quote).
Abbreviation fingerprint := (bindingFingerprint json_binding sha256_hex).

Lemma allocation_available s who : ensureAllocationAvailable s who = None <->
  Z.of_nat (live s who + pending s who) < MaxContextsPerPrincipal (options s).
Proof. unfold ensureAllocationAvailable. destruct (Z.leb_spec (MaxContextsPerPrincipal (options s)) (Z.of_nat (live s who + pending s who))); split; try done; lia. Qed.

Lemma mutable_entry s who id e : store_ok s -> requireMutable s who id = Ok e ->
  contexts s !! id = Some e /\ owner e = who /\ state e = LlmContextActive.
Proof.
  intros Hok. unfold requireMutable, requireEntry. destruct (contexts s !! id) as [e0|] eqn:He; [|done]. cbn.
  case_bool_decide as Ho; cbn; [|done]. destruct (state e0) eqn:Es; try done; intros [= <-]; try done;
    destruct (ok_state s Hok id e0 He) as [?|(_ & _ & [?|?])]; congruence.
Qed.

(** The reservation that [Reserve] makes: for an allocation no context is needed and
    a fork copies its parent; any other operation locks its context. *)
Definition reserves (s : InMemoryLlmContextStore) (rid : string) (req : LlmContextMutationRequest) (r : LlmContextMutationReservation)
    (m : gmap string llmContextEntry) : Prop :=
  r_reservationID r = rid /\ r_request r = req /\ idempotency s !! complete_key req = None /\ locks s r m /\
  validateRequest req = None /\
  (mr_Operation req = LlmContextCreate -> r_baseTranscript r = []) /\
  (mr_Operation req <> LlmContextCreate -> exists id e, mr_ContextID req = Some id /\ contexts s !! id = Some e /\
     reservationID e = "" /\ state e = LlmContextActive /\ owner e = mr_Owner req /\ mr_BaseVersion req = Some (version e) /\
     r_baseTranscript r = transcript e).

Lemma is_op_true op want : is_op op want = true <-> op = want.
Proof. apply String.eqb_eq. Qed.

Lemma reserve_create_spec c rid req s : mr_Operation req = LlmContextCreate -> validateRequest req = None ->
  idempotency s !! complete_key req = None ->
  (exists e, reserve_create json_binding sha256_hex c rid req s = (Err e, s)) \/
  (exists r, reserves s rid req r (contexts s) /\
     reserve_create json_binding sha256_hex c rid req s = (Ok (MkHandle (next_addr s) rid), (register (c 2%nat) r (set_contexts (contexts s) s)).2)).
Proof.
  intros Hop Hv Hkey. unfold reserve_create. destruct (ensureAllocationAvailable s (mr_Owner req)) as [e|] eqn:Ea; [left; by exists e|].
  right. exists (newReservation json_binding sha256_hex rid req [] (Some (clampTTL s (default (DefaultTTLSeconds (options s)) (mr_TTLSeconds req)))) None None).
  split; [|by destruct s]. split_and!; try done.
  - left. cbn. apply allocation_available in Ea. split_and!; [|done|done]. unfold allocates. by rewrite Hop.
Qed.

Lemma reserve_existing_spec c rid req id base s : store_ok s -> mr_ContextID req = Some id -> mr_BaseVersion req = Some base ->
  mr_Operation req <> LlmContextCreate -> validateRequest req = None -> idempotency s !! complete_key req = None ->
  (exists e, reserve_existing json_binding sha256_hex c rid req id base s = (Err e, s)) \/
  (exists r m, reserves s rid req r m /\
     reserve_existing json_binding sha256_hex c rid req id base s = (Ok (MkHandle (next_addr s) rid), (register (c 2%nat) r (set_contexts m s)).2)).
Proof.
  intros Hok Hid Hbase Hop Hv Hkey. unfold reserve_existing. destruct (requireMutable s (mr_Owner req) id) as [e|] eqn:Em; [|eauto].
  destruct (mutable_entry s _ id e Hok Em) as (He & Ho & Hs). pose proof (ok_id s Hok id e He) as Hcid.
  destruct (negb _ || negb _) eqn:Ev; [eauto|]. apply orb_false_iff in Ev as [Er Ev]. bool_hyps. subst base.
  destruct (fingerprint (mr_Binding req)) as [f|] eqn:Ef; [|eauto]. cbv zeta. destruct (_ && negb (String.eqb _ f)) eqn:Eb; [eauto|].
  destruct (is_op (mr_Operation req) LlmContextFork) eqn:Efork.
  - destruct (ensureAllocationAvailable s (mr_Owner req)) as [err|] eqn:Ea; [eauto|]. right. eexists _, (contexts s).
    split; [|by destruct s]. apply is_op_true in Efork. split_and!; try done.
    + left. cbn. apply allocation_available in Ea. split_and!; [|done|done]. unfold allocates. by rewrite Efork.
    + intros _. exists id, e. split_and!; done.
  - assert (Ha : allocates (mr_Operation req) = false).
    { unfold allocates. rewrite Efork, orb_false_r. apply not_true_iff_false. by rewrite is_op_true. }
    right. eexists _, (<[id := set_reservation rid e]> (contexts s)). split; [|done]. split_and!; try done.
    + right. exists id, e. split_and!; try done. split_and!; try done.
      change (mr_Operation req = LlmContextAppend -> match fingerprint (mr_Binding req) with Ok f => f | Err _ => "" end = e_fingerprint e).
      intros Eop. rewrite Eop in Eb. rewrite Ef. by apply negb_false_iff, String.eqb_eq in Eb.
    + intros _. exists id, e. split_and!; done.
Qed.

Lemma reserve_spec c rid req s : store_ok s -> let s0 := (sweepLocked (c 0%nat) s).2 in
  (exists e, reserve c rid req s = (Err e, s0)) \/
  (exists r m, reserves s0 rid req r m /\ reserve c rid req s = (Ok (MkHandle (next_addr s) rid), (register (c 2%nat) r (set_contexts m s0)).2)).
Proof.
  intros Hok s0. assert (Hok0 : store_ok s0) by by apply sweep_ok. unfold Reserve. fold s0.
  destruct (validateRequest req) as [e|] eqn:Hv; [eauto|]. destruct (ensureSupported quote s0 _) as [e|]; [eauto|].
  destruct (idempotency s0 !! complete_key req) eqn:Hkey; [eauto|]. destruct (is_op (mr_Operation req) LlmContextCreate) eqn:Eop.
  - apply is_op_true in Eop. destruct (reserve_create_spec c rid req s0 Eop Hv Hkey) as [[e ->]|(r & Hr & ->)]; eauto 10.
  - destruct (mr_ContextID req) as [id|] eqn:Eid; [|eauto]. destruct (mr_BaseVersion req) as [base|] eqn:Eb; [|eauto].
    destruct (reserve_existing_spec c rid req id base s0 Hok0 Eid Eb) as [[e ->]|(r & m & Hr & ->)]; try done; eauto 10.
    intros E. apply is_op_true in E. congruence.
Qed.

Lemma required_reservation s h r : requireReservation s h = Ok r <->
  exists h', h = Some h' /\ reservations s !! h_id h' = Some (h_addr h', r).
Proof.
  unfold requireReservation. destruct h as [h|]; [|naive_solver]. destruct (reservations s !! h_id h) as [[a r']|] eqn:Hr; [|naive_solver].
  destruct (Nat.eqb_spec a (h_addr h)) as [->|]; [naive_solver|]. split; [done|]. intros (h' & [= <-] & E). congruence.
Qed.

Lemma next_id_fresh n ids s id : nextContextID n ids s = Ok id -> contexts s !! id = None.
Proof.
  revert ids. induction n as [|n IH]; intros ids; [done|]. cbn. destruct (ids 0%nat) as [v|]; [|done]. destruct (validateContextID v); [done|].
  case_bool_decide; [by intros [= <-]|apply IH].
Qed.

(** The contexts after a commit. *)
Definition committed (s : InMemoryLlmContextStore) (r : LlmContextMutationReservation) (reply : LlmMessageDto) (id : string)
    (v : Z) (m : gmap string llmContextEntry) : Prop :=
  exists e', m = <[id := e']> (contexts s) /\ version e' = v /\ contextID e' = id /\ reservationID e' = "" /\ state e' = LlmContextActive /\
  if allocates (mr_Operation (r_request r)) then
    contexts s !! id = None /\ v = 1 /\ owner e' = mr_Owner (r_request r) /\ binding e' = mr_Binding (r_request r) /\
    transcript e' = (if is_op (mr_Operation (r_request r)) LlmContextFork then r_baseTranscript r else []) ++ mr_Messages (r_request r) ++ [reply]
  else
    exists e, mr_ContextID (r_request r) = Some id /\ contexts s !! id = Some e /\ reservationID e = r_reservationID r /\
      v = u64 (version e + 1) /\ owner e' = owner e /\
      transcript e' = (if is_op (mr_Operation (r_request r)) LlmContextReset then [] else transcript e) ++ mr_Messages (r_request r) ++ [reply].

Lemma committed_resolves s a r reply id v m : store_ok s -> reservations s !! r_reservationID r = Some (a, r) ->
  committed s r reply id v m -> resolves s r m.
Proof.
  intros Hok Hr (e' & -> & _ & Hid & Hre & Hs & Hc). destruct (allocates _) eqn:Ha.
  - left. split; [done|]. right. destruct Hc as (Hn & _ & Ho & _). exists id, e'. by split_and!.
  - right. split; [done|]. destruct Hc as (e & _ & He & Hl & _ & Ho & _). exists id, e, e'. by split_and!.
Qed.

Lemma finish_resolved c r id v expiry m s : exists rc i,
  finish format_time c r id v expiry (set_contexts m s) = (Ok rc, resolved s r m i) /\ i_state i = OutcomeCompleted /\
  rc_ContextID rc = id /\ rc_Version rc = v /\ rc_Operation rc = mr_Operation (r_request r) /\
  retainUntil i = c 1%nat + IdempotencyTTL (options s).
Proof. eexists _, _. split; [reflexivity|]. by split_and!. Qed.

Lemma commit_spec c ids h reply s : store_ok s ->
  (exists e, commit c ids h reply s = (Err e, s) /\
     forall h' r, h = Some h' -> reservations s !! h_id h' = Some (h_addr h', r) ->
       allocates (mr_Operation (r_request r)) = true /\ exists e, nextContextID 8 ids s = Err e) \/
  (exists h' r rc m i, h = Some h' /\ reservations s !! h_id h' = Some (h_addr h', r) /\
     commit c ids h reply s = (Ok rc, resolved s r m i) /\ committed s r reply (rc_ContextID rc) (rc_Version rc) m /\
     i_state i = OutcomeCompleted /\ rc_Operation rc = mr_Operation (r_request r) /\ retainUntil i = c 1%nat + IdempotencyTTL (options s)).
Proof.
  intros Hok. unfold Commit. destruct (requireReservation s h) as [r|e] eqn:Er.
  2: { left. exists e. split; [done|]. intros h' r -> Hr. assert (requireReservation s (Some h') = Ok r) by (apply required_reservation; eauto). congruence. }
  apply required_reservation in Er as (h' & -> & Hr). pose proof (ok_held s Hok _ _ _ Hr) as [Hid _ _ _ Hlock]. cbv zeta.
  destruct (allocates (mr_Operation (r_request r))) eqn:Ha.
  - destruct (nextContextID 8 ids s) as [id|e] eqn:Eid; [|left; exists e; split; [done|]; intros h0 r0 [= <-] E; rewrite Hr in E; injection E as <-; eauto].
    right. apply next_id_fresh in Eid.
    destruct (finish_resolved c r id 1 ((fun ttl => c 0%nat + ttl * second) <$> r_effectiveTTLSeconds r)
      (<[id := new_entry r id ((fun ttl => c 0%nat + ttl * second) <$> r_effectiveTTLSeconds r) reply]> (contexts s)) s)
      as (rc & i & -> & Hi & Hrid & Hrv & Hop & Hret).
    eexists h', r, rc, _, i. split_and!; [done|done|reflexivity| |done|done|done]. rewrite Hrid, Hrv. eexists. split; [done|]. rewrite Ha. by split_and!.
  - destruct (Hlock eq_refl) as (id & e & Eid & He & Hre). rewrite Eid. unfold requireEntry. rewrite He. pose proof (ok_id s Hok id e He) as Hcid.
    right. set (e' := mutated_entry r e _ reply).
    destruct (finish_resolved c r (contextID e') (version e') ((fun ttl => c 0%nat + ttl * second) <$> r_effectiveTTLSeconds r)
      (<[id := e']> (contexts s)) s) as (rc & i & -> & Hi & Hrid & Hrv & Hop & Hret).
    eexists h', r, rc, _, i. split_and!; [done|done|reflexivity| |done|done|done]. change (contextID e') with (contextID e) in Hrid.
    rewrite Hrid, Hcid, Hrv. exists e'. split; [done|]. rewrite Ha. split_and!; [done|done|done|done|]. exists e. rewrite Hid.
    split_and!; try done. cbn. by destruct (is_op _ _).
Qed.

Definition abort_change (s : InMemoryLlmContextStore) (r : LlmContextMutationReservation) (m : gmap string llmContextEntry) : Prop :=
  if allocates (mr_Operation (r_request r)) then m = contexts s
  else exists id e, mr_ContextID (r_request r) = Some id /\ contexts s !! id = Some e /\ reservationID e = r_reservationID r /\
    m = <[id := set_reservation "" e]> (contexts s).

Lemma abort_resolves s a r m : store_ok s -> reservations s !! r_reservationID r = Some (a, r) -> abort_change s r m -> resolves s r m.
Proof.
  intros Hok Hr Hc. pose proof (ok_held s Hok _ _ _ Hr) as [_ Hne _ _ _]. unfold abort_change in Hc. destruct (allocates _) eqn:Ha.
  - left. by split; [|left].
  - right. split; [done|]. destruct Hc as (id & e & _ & He & Hre & ->). exists id, e, (set_reservation "" e). split_and!; try done.
    + by apply (ok_id s Hok id e).
    + destruct (ok_state s Hok id e He) as [?|[? _]]; [done|congruence].
Qed.

Lemma abort_spec c h code s : store_ok s ->
  (exists e, Abort c h code s = (Some e, s) /\ forall h' r, h = Some h' -> reservations s !! h_id h' = Some (h_addr h', r) -> False) \/
  (exists h' r m i, h = Some h' /\ reservations s !! h_id h' = Some (h_addr h', r) /\ abort_change s r m /\ i_state i = OutcomeFailed /\
     Abort c h code s = (None, (sweepLocked (c 1%nat) (resolved s r m i)).2)).
Proof.
  intros Hok. unfold Abort. destruct (requireReservation s h) as [r|e] eqn:Er.
  2: { left. exists e. split; [done|]. intros h' r -> Hr. assert (requireReservation s (Some h') = Ok r) by (apply required_reservation; eauto). congruence. }
  apply required_reservation in Er as (h' & -> & Hr). pose proof (ok_held s Hok _ _ _ Hr) as [Hid Hne _ _ Hlock].
  assert (Hr' : reservations s !! r_reservationID r = Some (h_addr h', r)) by congruence.
  right. exists h', r, (contexts (clearReservation r s)),
    (MkOutcome OutcomeFailed (c 0%nat + IdempotencyTTL (options s)) (mr_RequestID (r_request r)) "" code None "" None).
  split_and!; [done|done| |done|].
  - unfold abort_change, clearReservation. destruct (allocates (mr_Operation (r_request r))) eqn:Ha.
    + destruct (mr_ContextID (r_request r)) as [id|]; [|done]. destruct (contexts s !! id) as [e|] eqn:He; [|done].
      destruct (String.eqb_spec (reservationID e) (r_reservationID r)) as [E|]; [|done].
      destruct (lock_unique s _ r id e Hok Hr' He E). congruence.
    + destruct (Hlock eq_refl) as (id & e & Eid & He & Hre). rewrite Eid, He. exists id, e. rewrite Hre, Hid, String.eqb_refl. by split_and!.
  - unfold resolved. cbv zeta. unfold clearReservation. destruct (mr_ContextID (r_request r)) as [id|]; [|done].
    destruct (contexts s !! id) as [e|]; [|done]. by destruct (String.eqb _ _).
Qed.

Lemma release_spec c who id base key s : store_ok s -> let s0 := (sweepLocked (c 0%nat) s).2 in
  (exists res, release c who id base key s = (res, s0)) \/
  (exists e rc i, contexts s0 !! id = Some e /\ reservationID e = "" /\ state e = LlmContextActive /\ owner e = who /\ version e = base /\
     idempotency s0 !! ownerKey who LlmContextReleaseActionID key = None /\
     i = MkOutcome OutcomeCompleted (c 2%nat + IdempotencyTTL (options s)) "" "" "" (Some rc) id (Some base) /\
     rc = MkReceipt id (u64 (base + 1)) LlmContextRelease LlmContextReleased None None None /\
     release c who id base key s = (Ok rc, set_idempotency (<[ownerKey who LlmContextReleaseActionID key := i]> (idempotency s0))
       (set_contexts (<[id := released_entry s0 (c 1%nat) e]> (contexts s0)) s0))).
Proof.
  intros Hok s0. assert (Hok0 : store_ok s0) by by apply sweep_ok. unfold Release. fold s0.
  destruct (ensureSupported _ _ _); [eauto|]. destruct (validateContextID id); [eauto|]. destruct (String.eqb key ""); [eauto|].
  destruct (idempotency s0 !! _) as [prior|] eqn:Hkey; [destruct (same_release prior id base); eauto|].
  destruct (requireMutable s0 who id) as [e|] eqn:Em; [|eauto]. destruct (mutable_entry s0 who id e Hok0 Em) as (He & Ho & Hs).
  destruct (negb _ || negb _) eqn:Ev; [eauto|]. apply orb_false_iff in Ev as [Er Ev]. bool_hyps. right.
  exists e. do 2 eexists. split_and!; try done. subst base. reflexivity.
Qed.

Lemma released_ok s now who id e key i : store_ok s -> contexts s !! id = Some e -> reservationID e = "" -> state e = LlmContextActive ->
  idempotency s !! ownerKey who LlmContextReleaseActionID key = None -> i_state i = OutcomeCompleted ->
  store_ok (set_idempotency (<[ownerKey who LlmContextReleaseActionID key := i]> (idempotency s))
    (set_contexts (<[id := released_entry s now e]> (contexts s)) s)).
Proof.
  intros Hok He Hr Hs Hkey Hi.
  assert (Hlook : forall id' e', <[id := released_entry s now e]> (contexts s) !! id' = Some e' ->
     contexts s !! id' = Some e' \/ (id' = id /\ e' = released_entry s now e)).
  { intros id' e' H'. destruct (decide (id = id')) as [->|Hn]; [rewrite lookup_insert_eq in H'; injection H' as <-; by right|].
    rewrite lookup_insert_ne in H' by done. by left. }
  split; cbn.
  - intros id' e' [H'|[-> ->]]%Hlook; [by apply (ok_id s Hok)|by apply (ok_id s Hok id e)].
  - intros id' e' [H'|[-> ->]]%Hlook; [by apply (ok_state s Hok id')|right; cbn; eauto].
  - intros id' e' [H'|[-> ->]]%Hlook; [by apply (ok_lock s Hok)|done].
  - intros rid a r Hres. destruct (ok_held s Hok rid a r Hres) as [H1 H2 H3 (j & Hj & Hb & Hrj) H5]. split; cbn; try done.
    + exists j. split_and!; [|done|done]. rewrite lookup_insert_ne; [done|]. intros E. by rewrite <- E, Hkey in Hj.
    + intros Ha. destruct (H5 Ha) as (id' & e' & Hid' & He' & Hre'). exists id', e'. split_and!; try done.
      rewrite lookup_insert_ne; [done|]. intros <-. congruence.
  - intros k j Hj Hb. destruct (decide (ownerKey who LlmContextReleaseActionID key = k)) as [<-|Hn].
    + rewrite lookup_insert_eq in Hj. congruence.
    + rewrite lookup_insert_ne in Hj by done. by apply (ok_busy s Hok k j).
  - intros who'. pose proof (ok_quota s Hok who') as Hq. rewrite live_count, (map_count_delete _ _ _ _ He) in Hq.
    rewrite live_count. cbn. rewrite map_count_insert. change (pending (set_idempotency _ _) who') with (pending s who').
    unfold live_of at 2. cbn. rewrite andb_false_r. cbn. lia.
Qed.

(** *** Runs *)

Inductive op : Type :=
| OpReserve (c : nat -> Z) (rid : string) (req : LlmContextMutationRequest)
| OpCommit (c : nat -> Z) (ids : nat -> result string string) (h : option handle) (reply : LlmMessageDto)
| OpAbort (c : nat -> Z) (h : option handle) (code : string)
| OpRelease (c : nat -> Z) (who : LlmContextOwner) (id : string) (base : Z) (key : string)
| OpStatus (c : nat -> Z) (who : LlmContextOwner) (id key : option string)
| OpSnapshot (c : nat -> Z) (who : LlmContextOwner) (id : string)
| OpSweep (c : nat -> Z).

Definition apply_op (s : InMemoryLlmContextStore) (o : op) : InMemoryLlmContextStore :=
  match o with
  | OpReserve c rid req => (reserve c rid req s).2
  | OpCommit c ids h reply => (commit c ids h reply s).2
  | OpAbort c h code => (Abort c h code s).2
  | OpRelease c who id base key => (release c who id base key s).2
  | OpStatus c who id key => (Status format_time c who id key s).2
  | OpSnapshot c who id => (Snapshot c who id s).2
  | OpSweep c => (SweepExpired c s).2
  end.

Fixpoint run (s : InMemoryLlmContextStore) (ops : list op) : InMemoryLlmContextStore :=
  match ops with [] => s | o :: ops => run (apply_op s o) ops end.

(** A random reservation id is not the id of a live reservation. *)
Definition op_fresh (s : InMemoryLlmContextStore) (o : op) : Prop :=
  match o with OpReserve _ rid _ => rid <> "" /\ reservations s !! rid = None | _ => True end.

Fixpoint run_fresh (s : InMemoryLlmContextStore) (ops : list op) : Prop :=
  match ops with [] => True | o :: ops => op_fresh s o /\ run_fresh (apply_op s o) ops end.

Lemma run_app s ops1 ops2 : run s (ops1 ++ ops2) = run (run s ops1) ops2.
Proof. revert s. by induction ops1 as [|o ops1 IH]; intros s; [|apply IH]. Qed.

Lemma run_fresh_app s ops1 ops2 : run_fresh s (ops1 ++ ops2) <-> run_fresh s ops1 /\ run_fresh (run s ops1) ops2.
Proof. revert s. induction ops1 as [|o ops1 IH]; intros s; cbn; [tauto|]. rewrite IH. tauto. Qed.

Lemma step_ok s o : store_ok s -> op_fresh s o -> store_ok (apply_op s o).
Proof.
  intros Hok Hfresh. destruct o as [c rid req|c ids h reply|c h code|c who id base key|c who id key|c who id|c]; cbn [apply_op].
  - destruct Hfresh as [Hne Hf]. destruct (reserve_spec c rid req s Hok) as [[e ->]|(r & m & (Hid & Hreq & Hk & Hl & _) & ->)];
      cbn [snd]; [by apply sweep_ok|]. apply register_ok; [by apply sweep_ok|congruence| |by rewrite Hreq|done].
    by rewrite Hid.
  - destruct (commit_spec c ids h reply s Hok) as [(e & -> & _)|(h' & r & rc & m & i & -> & Hr & -> & Hc & Hi & _)]; [done|].
    pose proof (ok_held s Hok _ _ _ Hr) as [Hid _ _ _ _]. rewrite <- Hid in Hr. eapply resolved_ok; [done|done|congruence|].
    by eapply committed_resolves.
  - destruct (abort_spec c h code s Hok) as [(e & -> & _)|(h' & r & m & i & -> & Hr & Hc & Hi & ->)]; [done|].
    pose proof (ok_held s Hok _ _ _ Hr) as [Hid _ _ _ _]. rewrite <- Hid in Hr. apply sweep_ok.
    eapply resolved_ok; [done|done|congruence|]. by eapply abort_resolves.
  - pose proof (sweep_ok (c 0%nat) s Hok) as Hok0.
    destruct (release_spec c who id base key s Hok) as [[res ->]|(e & rc & i & He & Hr & Hs & _ & _ & Hk & -> & _ & ->)]; [done|].
    by apply released_ok.
  - by apply sweep_ok.
  - unfold Snapshot. destruct (requireMutable _ _ _); by apply sweep_ok.
  - by apply sweep_ok.
Qed.

Lemma run_store_ok s ops : store_ok s -> run_fresh s ops -> store_ok (run s ops).
Proof. revert s. induction ops as [|o ops IH]; intros s Hok; [done|]. intros [Hf Hr]. apply IH; [by apply step_ok|done]. Qed.

Lemma new_store_ok opts : 0 <= MaxContextsPerPrincipal opts -> store_ok (NewInMemoryLlmContextStore opts).
Proof.
  intros Hmax. split; cbn; try (intros; exfalso; done).
  intros who. cbn. unfold live, pending. cbn. rewrite !map_filter_empty, !map_size_empty. cbn. unfold or_else. destruct (_ =? 0); lia.
Qed.

(** The invariant of the context store.  After any sequence of operations, in any
    order and with any clock, an entry is stored under its own id and is active or a
    tombstone; a locked context is active and its lock is a live reservation made for
    the version, the owner and the transcript that the context still has; every live
    reservation holds its lock and the one busy outcome under its idempotency key;
    and no principal has more active contexts and pending allocations than the limit. *)
Theorem context_store_invariant opts ops :
  0 <= MaxContextsPerPrincipal opts -> run_fresh (NewInMemoryLlmContextStore opts) ops ->
  store_ok (run (NewInMemoryLlmContextStore opts) ops).
Proof. intros Hmax. apply run_store_ok. by apply new_store_ok. Qed.

(** *** Reservations exclude *)

Definition op_resolves (h : handle) (o : op) : Prop :=
  match o with OpCommit _ _ (Some h') _ | OpAbort _ (Some h') _ => h' = h | _ => False end.

(** The reservation is live and its context, if it locks one, is as it was. *)
Definition keeps_reservation (s s' : InMemoryLlmContextStore) (h : handle) (r : LlmContextMutationReservation) : Prop :=
  reservations s' !! h_id h = Some (h_addr h, r) /\
  forall id e, contexts s !! id = Some e -> reservationID e = h_id h -> contexts s' !! id = Some e.

Lemma resolved_keeps s h r h' r' m i : store_ok s -> reservations s !! h_id h = Some (h_addr h, r) ->
  reservations s !! h_id h' = Some (h_addr h', r') -> h' <> h -> resolves s r' m -> keeps_reservation s (resolved s r' m i) h r.
Proof.
  intros Hok Hr Hr' Hne Hm. pose proof (ok_held s Hok _ _ _ Hr') as [Hid' _ _ _ _].
  assert (Hn : h_id h' <> h_id h).
  { intros E. apply Hne. rewrite E, Hr in Hr'. injection Hr' as E1 _. destruct h, h'. cbn in *. congruence. }
  split; cbn.
  - rewrite Hid', lookup_delete_ne by done. done.
  - intros id e He Hre. destruct Hm as [[_ [->|(id0 & e0 & Hno & -> & _)]]|(_ & id0 & e0 & e1 & He0 & Hre0 & -> & _)]; [done| |];
      (rewrite lookup_insert_ne; [done|]); intros <-; congruence.
Qed.

Lemma step_keeps s h r o : store_ok s -> op_fresh s o -> reservations s !! h_id h = Some (h_addr h, r) -> ~ op_resolves h o ->
  keeps_reservation s (apply_op s o) h r.
Proof.
  intros Hok Hfresh Hr Hn. pose proof (ok_held s Hok _ _ _ Hr) as [_ Hne _ _ _].
  assert (Hsweep : forall now, keeps_reservation s (sweepLocked now s).2 h r).
  { intros now. split; [done|]. intros id e He Hre. apply sweep_locked_entry; congruence. }
  destruct o as [c rid req|c ids h0 reply|c h0 code|c who id base key|c who id key|c who id|c]; cbn [apply_op]; try apply Hsweep.
  - destruct Hfresh as [Hrid Hf]. destruct (reserve_spec c rid req s Hok) as [[e ->]|(r' & m & (Hid & _ & _ & Hl & _) & ->)]; cbn [snd]; [apply Hsweep|].
    destruct (Hsweep (c 0%nat)) as [Hk1 Hk2]. split; cbn.
    + rewrite lookup_insert_ne; [done|]. intros E. rewrite Hid in E. rewrite E in Hf. congruence.
    + intros id' e He Hre. eapply locks_unlocked; [done| |by apply Hk2|reflexivity]. congruence.
  - destruct (commit_spec c ids h0 reply s Hok) as [(e & -> & _)|(h' & r' & rc & m & i & -> & Hr' & -> & Hc & Hi & _)]; [done|].
    eapply resolved_keeps; [done|done|done|done|]. pose proof (ok_held s Hok _ _ _ Hr') as [Hid _ _ _ _]. rewrite <- Hid in Hr'.
    by eapply committed_resolves.
  - destruct (abort_spec c h0 code s Hok) as [(e & -> & _)|(h' & r' & m & i & -> & Hr' & Hc & Hi & ->)]; [done|]. cbn [snd].
    pose proof (ok_held s Hok _ _ _ Hr') as [Hid _ _ _ _]. pose proof Hr' as Hr2. rewrite <- Hid in Hr2.
    pose proof (abort_resolves s _ r' m Hok Hr2 Hc) as Hres. destruct (resolved_keeps s h r h' r' m i Hok Hr Hr' Hn Hres) as [Hk1 Hk2].
    split; [done|]. intros id e He Hre. apply sweep_locked_entry; [|by apply Hk2|congruence]. eapply resolved_ok; [done|done|congruence|done].
  - destruct (release_spec c who id base key s Hok) as [[res ->]|(e & rc & i & He & Hre & _ & _ & _ & _ & _ & _ & ->)]; [apply Hsweep|].
    destruct (Hsweep (c 0%nat)) as [Hk1 Hk2]. split; [done|]. cbn. intros id' e' He' Hre'. rewrite lookup_insert_ne; [by apply Hk2|].
    intros <-. pose proof (Hk2 id e' He' Hre') as E. rewrite He in E. congruence.
  - unfold Snapshot. destruct (requireMutable _ _ _); apply Hsweep.
Qed.

Lemma run_keeps s h r ops : store_ok s -> run_fresh s ops -> reservations s !! h_id h = Some (h_addr h, r) ->
  Forall (fun o => ~ op_resolves h o) ops -> keeps_reservation s (run s ops) h r.
Proof.
  revert s. induction ops as [|o ops IH]; intros s Hok Hf Hr Hn; [done|]. destruct Hf as [Hf1 Hf2].
  apply Forall_cons in Hn as [Hn1 Hn2]. destruct (step_keeps s h r o Hok Hf1 Hr Hn1) as [Hk1 Hk2].
  destruct (IH _ (step_ok s o Hok Hf1) Hf2 Hk1 Hn2) as [Hk3 Hk4]. split; [done|]. eauto.
Qed.

Lemma reserve_made c rid req s h s1 : store_ok s -> reserve c rid req s = (Ok h, s1) ->
  exists r m, reserves (sweepLocked (c 0%nat) s).2 rid req r m /\ h_id h = rid /\ reservations s1 !! rid = Some (h_addr h, r) /\ contexts s1 = m.
Proof.
  intros Hok E. destruct (reserve_spec c rid req s Hok) as [[e E']|(r & m & Hr & E')]; rewrite E' in E; [done|].
  injection E as <- <-. exists r, m. split_and!; [done|done| |done]. destruct Hr as (<- & _). cbn. by rewrite lookup_insert_eq.
Qed.

(** The committed transcript of the reservation: what it was based on, the messages and the reply. *)
Definition committed_transcript (req : LlmContextMutationRequest) (base : list LlmMessageDto) (reply : LlmMessageDto) : list LlmMessageDto :=
  (if is_op (mr_Operation req) LlmContextReset then [] else base) ++ mr_Messages req ++ [reply].

(** The version that committing the reservation gives the context. *)
Definition committed_version (req : LlmContextMutationRequest) : Z :=
  if allocates (mr_Operation req) then 1 else u64 (default 0 (mr_BaseVersion req) + 1).

(** What the commit of [req] promises, when it was reserved at [s0] and is resolved at [s2]. *)
Definition commit_meets (s0 s2 : InMemoryLlmContextStore) (req : LlmContextMutationRequest) (ids : nat -> result string string)
    (reply : LlmMessageDto) (out : result LlmContextStoreError LlmContextReceiptDto * InMemoryLlmContextStore) : Prop :=
  exists base,
    (mr_Operation req = LlmContextCreate -> base = []) /\
    (mr_Operation req <> LlmContextCreate -> exists id e, mr_ContextID req = Some id /\ contexts s0 !! id = Some e /\
       mr_BaseVersion req = Some (version e) /\ base = transcript e) /\
    match out with
    | (Ok rc, s3) =>
        rc_Version rc = committed_version req /\
        (if allocates (mr_Operation req) then contexts s2 !! rc_ContextID rc = None else mr_ContextID req = Some (rc_ContextID rc)) /\
        (exists e, contexts s3 !! rc_ContextID rc = Some e /\ version e = rc_Version rc /\ owner e = mr_Owner req /\
           transcript e = committed_transcript req base reply) /\
        forall id, id <> rc_ContextID rc -> contexts s3 !! id = contexts s2 !! id
    | (Err _, s3) => s3 = s2 /\ allocates (mr_Operation req) = true /\ exists e, nextContextID 8 ids s2 = Err e
    end.

(** C23. A reservation excludes every other operation.  Between a successful [Reserve]
    and its [Commit] any other operations may run, with any clock: the commit then
    succeeds (unless it allocates and the id factory fails, in which case nothing
    changes), the context gets the version after the one the request named and the
    transcript that this version had when it was reserved, with the request's messages
    and the reply; a fork copies the parent as it was when it was reserved; and no
    other context changes. *)
Theorem reservation_is_exclusive s c rid req h s1 ops c' ids reply :
  store_ok s -> rid <> "" -> reservations s !! rid = None -> reserve c rid req s = (Ok h, s1) ->
  run_fresh s1 ops -> Forall (fun o => ~ op_resolves h o) ops ->
  commit_meets (sweepLocked (c 0%nat) s).2 (run s1 ops) req ids reply (commit c' ids (Some h) reply (run s1 ops)).
Proof.
  intros Hok Hne Hfr E Hrf Hn. set (s2 := run s1 ops). destruct (reserve_made c rid req s h s1 Hok E) as (r & m & Hres & Hid & Hr & Hm).
  assert (Hok1 : store_ok s1).
  { change s1 with (Ok (E := LlmContextStoreError) h, s1).2. rewrite <- E. by apply (step_ok s (OpReserve c rid req)). }
  destruct Hres as (Hrid & Hreq & _ & _ & _ & Hcreate & Hother). rewrite <- Hid in Hr.
  destruct (run_keeps s1 h r ops Hok1 Hrf Hr Hn) as [Hk1 _]. fold s2 in Hk1.
  assert (Hok2 : store_ok s2) by by apply run_store_ok.
  exists (r_baseTranscript r). split; [done|]. split; [intros Ho; destruct (Hother Ho) as (id & e & ? & ? & _ & _ & _ & ? & ?); by exists id, e|].
  destruct (commit_spec c' ids (Some h) reply s2 Hok2) as [(err & -> & He)|(h' & r' & rc & mc & i & [= <-] & Hr' & -> & Hc & _)].
  - rewrite <- Hreq. split; [done|]. by apply (He h r).
  - rewrite Hk1 in Hr'. injection Hr' as <-. destruct Hc as (e' & -> & Hv & Hcid & _ & _ & Hc). unfold committed_version. rewrite <- Hreq.
    assert (Hothers : forall id, id <> rc_ContextID rc -> <[rc_ContextID rc := e']> (contexts s2) !! id = contexts s2 !! id).
    { intros id Hi. by rewrite lookup_insert_ne. }
    destruct (allocates (mr_Operation (r_request r))) eqn:Ha.
    + destruct Hc as (Hno & Hv1 & Ho & _ & Ht). split_and!; try done. exists e'. cbn. rewrite lookup_insert_eq. split_and!; try done.
      rewrite Ht. unfold committed_transcript. unfold allocates in Ha. destruct (is_op (mr_Operation (r_request r)) LlmContextFork) eqn:Ef.
      * apply is_op_true in Ef. by rewrite Ef.
      * rewrite orb_false_r in Ha. apply is_op_true in Ha. rewrite Hreq in Ha |- *. by rewrite Hcreate, Ha.
    + destruct Hc as (e & Hcid' & He & Hre & Hv' & Ho & Ht). pose proof (ok_held s2 Hok2 _ _ _ Hk1) as [Hid2 Hne2 _ _ _].
      destruct (ok_lock s2 Hok2 _ e He) as (a2 & r2 & Hr2 & (_ & _ & Hbv & Hown & Hbt & _)); [congruence|].
      rewrite Hre, Hid2, Hk1 in Hr2. injection Hr2 as _ <-. rewrite Hbv. split_and!; try done.
      exists e'. cbn. rewrite lookup_insert_eq. split_and!; try done; [congruence|]. rewrite Ht. unfold committed_transcript. by rewrite Hbt.
Qed.

(** *** Versions *)

Definition same_content (e e' : llmContextEntry) : Prop :=
  version e' = version e /\ owner e' = owner e /\ transcript e' = transcript e /\ binding e' = binding e.

(** What one operation may do to the entry under an id. *)
Definition entry_step (s : InMemoryLlmContextStore) (id : string) (e' : llmContextEntry) : Prop :=
  (exists e, contexts s !! id = Some e /\ (same_content e e' \/ (version e' = u64 (version e + 1) /\ owner e' = owner e))) \/
  (contexts s !! id = None /\ version e' = 1).

Lemma entry_same s id e : contexts s !! id = Some e -> entry_step s id e.
Proof. intros He. left. exists e. split; [done|]. by left. Qed.

Lemma sweep_entry now s id e' : contexts (sweepLocked now s).2 !! id = Some e' -> exists e, contexts s !! id = Some e /\ same_content e e'.
Proof.
  intros (e & He & -> & _)%sweep_lookup. exists e. split; [done|].
  destruct (expire_entry_cases s now e) as [->|(_ & _ & _ & _ & _ & _ & ? & ? & ? & ?)]; by split_and!.
Qed.

Lemma sweep_entry_step now s id e' : contexts (sweepLocked now s).2 !! id = Some e' -> entry_step s id e'.
Proof. intros (e & He & Hs)%sweep_entry. left. eauto. Qed.

Lemma step_entry s o id e' : store_ok s -> op_fresh s o -> contexts (apply_op s o) !! id = Some e' -> entry_step s id e'.
Proof.
  intros Hok Hfresh. destruct o as [c rid req|c ids h0 reply|c h0 code|c who id1 base key|c who id1 key|c who id1|c]; cbn [apply_op];
    try apply sweep_entry_step.
  - destruct (reserve_spec c rid req s Hok) as [[err ->]|(r & m & (_ & _ & _ & Hl & _) & ->)]; cbn [snd]; [apply sweep_entry_step|].
    cbn. intros [He|(e & He & _ & _ & _ & ->)]%(locks_lookup _ _ _ Hl); [by apply (sweep_entry_step (c 0%nat))|].
    apply sweep_entry in He as (e0 & He & Hs). left. exists e0. split; [done|]. by left.
  - destruct (commit_spec c ids h0 reply s Hok) as [(err & -> & _)|(h' & r & rc & m & i & -> & Hr & -> & Hc & _)]; [apply entry_same|].
    cbn. destruct Hc as (e0 & -> & Hv & _ & _ & _ & Hc). intros He'. destruct (decide (rc_ContextID rc = id)) as [<-|Hn].
    2: { rewrite lookup_insert_ne in He' by done. by apply entry_same. }
    rewrite lookup_insert_eq in He'. injection He' as <-. destruct (allocates _).
    + right. destruct Hc as (? & ? & _). split; [done|congruence].
    + left. destruct Hc as (e & _ & He & _ & ? & ? & _). exists e. split; [done|]. right. split; [congruence|done].
  - destruct (abort_spec c h0 code s Hok) as [(err & -> & _)|(h' & r & m & i & -> & Hr & Hc & _ & ->)]; [apply entry_same|]. cbn [snd].
    intros (e1 & He1 & Hs)%sweep_entry. cbn in He1. unfold abort_change in Hc. destruct (allocates _).
    + subst m. left. exists e1. split; [done|]. by left.
    + destruct Hc as (id0 & e & _ & He & _ & ->). destruct (decide (id0 = id)) as [->|Hn].
      * rewrite lookup_insert_eq in He1. injection He1 as <-. left. exists e. split; [done|]. by left.
      * rewrite lookup_insert_ne in He1 by done. left. exists e1. split; [done|]. by left.
  - destruct (release_spec c who id1 base key s Hok) as [[res ->]|(e & rc & i & He & _ & _ & _ & _ & _ & _ & _ & ->)]; [apply sweep_entry_step|].
    cbn. intros He'. destruct (decide (id1 = id)) as [->|Hn].
    + rewrite lookup_insert_eq in He'. injection He' as <-. apply sweep_entry in He as (e0 & He & Hv & Ho & _). left. exists e0. split; [done|].
      right. cbn. by rewrite Hv, Ho.
    + rewrite lookup_insert_ne in He' by done. by apply (sweep_entry_step (c 0%nat)).
  - unfold Snapshot. destruct (requireMutable _ _ _); apply sweep_entry_step.
Qed.

(** Versions stay in range for as long as they do not wrap. *)
Lemma run_versions s ops B : store_ok s -> run_fresh s ops -> (forall id e, contexts s !! id = Some e -> 1 <= version e <= B) ->
  1 <= B -> B + Z.of_nat (length ops) < 2 ^ 64 ->
  forall id e, contexts (run s ops) !! id = Some e -> 1 <= version e <= B + Z.of_nat (length ops).
Proof.
  revert s B. induction ops as [|o ops IH]; intros s B Hok Hf HB HB1 Hlen; cbn [length] in *.
  - intros id e He. specialize (HB id e He). lia.
  - destruct Hf as [Hf1 Hf2]. intros id e He. assert (Hl : Z.of_nat (S (length ops)) = Z.of_nat (length ops) + 1) by lia. rewrite Hl in *.
    replace (B + (Z.of_nat (length ops) + 1)) with ((B + 1) + Z.of_nat (length ops)) by lia.
    eapply (IH (apply_op s o) (B + 1)); [by apply step_ok|done| |lia|lia|exact He].
    intros id1 e1 He1. destruct (step_entry s o id1 e1 Hok Hf1 He1) as [(e0 & He0 & Hs)|[_ ->]]; [|lia]. specialize (HB id1 e0 He0).
    destruct Hs as [(-> & _)|(-> & _)]; [lia|]. rewrite wrapu_small by lia. lia.
Qed.

(** The context is there after every prefix of the operations. *)
Definition retained (s : InMemoryLlmContextStore) (ops : list op) (id : string) : Prop :=
  forall ops1 ops2, ops = ops1 ++ ops2 -> is_Some (contexts (run s ops1) !! id).

Lemma retained_cons s o ops id : retained s (o :: ops) id -> retained (apply_op s o) ops id.
Proof. intros H ops1 ops2 ->. apply (H (o :: ops1) ops2). done. Qed.

Lemma retained_nil s id : is_Some (contexts s !! id) -> retained s [] id.
Proof. intros H ops1 ops2 E. destruct ops1; [done|discriminate]. Qed.

Lemma retained_step s o ops id : is_Some (contexts s !! id) -> retained (apply_op s o) ops id -> retained s (o :: ops) id.
Proof. intros H Hr [|o1 ops1] ops2 E; [done|]. injection E as <- ->. by apply (Hr ops1 ops2). Qed.

Lemma run_content s ops id e e' B : store_ok s -> run_fresh s ops -> retained s ops id ->
  (forall id e, contexts s !! id = Some e -> 1 <= version e <= B) -> 1 <= B -> B + Z.of_nat (length ops) < 2 ^ 64 ->
  contexts s !! id = Some e -> contexts (run s ops) !! id = Some e' ->
  version e <= version e' /\ owner e' = owner e /\ (version e' = version e -> transcript e' = transcript e /\ binding e' = binding e).
Proof.
  revert s e B. induction ops as [|o ops IH]; intros s e B Hok Hf Hret HB HB1 Hlen He He'; cbn [length] in *.
  { cbn in He'. rewrite He in He'. injection He' as <-. split_and!; [lia|done|done]. }
  destruct Hf as [Hf1 Hf2]. destruct (Hret [o] ops eq_refl) as [e1 He1]. cbn [run] in He1.
  assert (HB' : forall id e, contexts (apply_op s o) !! id = Some e -> 1 <= version e <= B + 1).
  { intros id2 e2 He2. destruct (step_entry s o id2 e2 Hok Hf1 He2) as [(e0 & He0 & Hs)|[_ ->]]; [|lia]. specialize (HB id2 e0 He0).
    destruct Hs as [(-> & _)|(-> & _)]; [lia|]. rewrite wrapu_small by lia. lia. }
  destruct (IH (apply_op s o) e1 (B + 1) (step_ok s o Hok Hf1) Hf2 (retained_cons _ _ _ _ Hret) HB' ltac:(lia) ltac:(lia) He1 He') as (Hv & Ho & Hc).
  destruct (step_entry s o id e1 Hok Hf1 He1) as [(e0 & He0 & Hs)|[Hno _]]; [|congruence]. rewrite He in He0. injection He0 as <-.
  pose proof (HB id e He). destruct Hs as [(Hv1 & Ho1 & Ht1 & Hb1)|(Hv1 & Ho1)].
  - split_and!; [lia|congruence|]. intros E. destruct Hc as [-> ->]; [lia|]. done.
  - rewrite wrapu_small in Hv1 by lia. split_and!; [lia|congruence|]. intros E. lia.
Qed.

(** A version identifies a transcript.  While a context is retained its version
    never decreases and its owner does not change, and whenever it has the same version
    again it has the same transcript and the same binding: the base version that a
    request names stands for the conversation that its author saw.  (Fewer than 2^64
    operations are run, so versions do not wrap.) *)
Theorem version_identifies_transcript opts ops1 ops2 id e1 e2 :
  0 <= MaxContextsPerPrincipal opts -> let s0 := NewInMemoryLlmContextStore opts in
  run_fresh s0 (ops1 ++ ops2) -> Z.of_nat (length (ops1 ++ ops2)) < 2 ^ 64 - 1 ->
  contexts (run s0 ops1) !! id = Some e1 -> contexts (run s0 (ops1 ++ ops2)) !! id = Some e2 -> retained (run s0 ops1) ops2 id ->
  version e1 <= version e2 /\ owner e2 = owner e1 /\
  (version e2 = version e1 -> transcript e2 = transcript e1 /\ binding e2 = binding e1).
Proof.
  intros Hmax s0 [Hf1 Hf2]%run_fresh_app Hlen He1 He2 Hret. rewrite run_app in He2. rewrite length_app in Hlen.
  assert (Hok0 : store_ok s0) by by apply new_store_ok.
  eapply (run_content (run s0 ops1) ops2 id e1 e2 (1 + Z.of_nat (length ops1))); try done; [by apply run_store_ok| |lia|lia].
  apply run_versions; try done; lia.
Qed.

(** *** Outcomes are retained *)

(** The times at which the operation sweeps. *)
Definition sweep_times (o : op) : list Z :=
  match o with
  | OpReserve c _ _ | OpRelease c _ _ _ _ | OpStatus c _ _ _ | OpSnapshot c _ _ | OpSweep c => [c 0%nat]
  | OpAbort c _ _ => [c 1%nat]
  | OpCommit _ _ _ _ => []
  end.

Lemma sweep_retains now s k i : idempotency s !! k = Some i -> now < retainUntil i -> idempotency (sweepLocked now s).2 !! k = Some i.
Proof.
  intros Hi Ht. cbn. apply map_lookup_filter_Some. split; [done|]. unfold is_stale, after. rewrite (proj2 (Z.ltb_lt _ _) Ht). apply andb_false_r.
Qed.

Lemma resolved_outcome s a r m i k j : store_ok s -> reservations s !! r_reservationID r = Some (a, r) ->
  idempotency s !! k = Some j -> i_state j <> OutcomeBusy -> idempotency (resolved s r m i) !! k = Some j.
Proof.
  intros Hok Hr Hj Hb. cbn. rewrite lookup_insert_ne; [done|]. intros <-.
  destruct (ok_held s Hok _ _ _ Hr) as [_ _ _ (j' & Hj' & Hb' & _) _]. congruence.
Qed.

Lemma step_retains s o k i : store_ok s -> idempotency s !! k = Some i -> i_state i <> OutcomeBusy ->
  Forall (fun t => t < retainUntil i) (sweep_times o) -> idempotency (apply_op s o) !! k = Some i.
Proof.
  intros Hok Hi Hb Ht. pose proof (fun now => sweep_retains now s k i Hi) as Hsw.
  destruct o as [c rid req|c ids h0 reply|c h0 code|c who id1 base key|c who id1 key|c who id1|c]; cbn [apply_op sweep_times] in *;
    try (apply Forall_inv in Ht; cbv beta in Ht; specialize (Hsw _ Ht)); try done.
  - destruct (reserve_spec c rid req s Hok) as [[err ->]|(r & m & (_ & Hreq & Hk & _) & ->)]; [done|]. cbn.
    rewrite Hreq, lookup_insert_ne; [done|]. intros <-. congruence.
  - destruct (commit_spec c ids h0 reply s Hok) as [(err & -> & _)|(h' & r & rc & m & j & -> & Hr & -> & _)]; [done|].
    pose proof (ok_held s Hok _ _ _ Hr) as [Hid _ _ _ _]. rewrite <- Hid in Hr. by eapply resolved_outcome.
  - destruct (abort_spec c h0 code s Hok) as [(err & -> & _)|(h' & r & m & j & -> & Hr & _ & _ & ->)]; [done|]. cbn [snd].
    pose proof (ok_held s Hok _ _ _ Hr) as [Hid _ _ _ _]. rewrite <- Hid in Hr. apply sweep_retains; [|done]. by eapply resolved_outcome.
  - destruct (release_spec c who id1 base key s Hok) as [[res ->]|(e & rc & j & _ & _ & _ & _ & _ & Hk & _ & _ & ->)]; [done|]. cbn.
    rewrite lookup_insert_ne; [done|]. intros <-. congruence.
  - unfold Snapshot. by destruct (requireMutable _ _ _).
Qed.

Lemma run_retains s ops k i : store_ok s -> run_fresh s ops -> idempotency s !! k = Some i -> i_state i <> OutcomeBusy ->
  Forall (fun o => Forall (fun t => t < retainUntil i) (sweep_times o)) ops -> idempotency (run s ops) !! k = Some i.
Proof.
  revert s. induction ops as [|o ops IH]; intros s Hok Hf Hi Hb Ht; [done|]. destruct Hf as [Hf1 Hf2]. apply Forall_cons in Ht as [Ht1 Ht2].
  apply IH; try done; [by apply step_ok|by apply step_retains].
Qed.

Lemma step_options s o : store_ok s -> options (apply_op s o) = options s.
Proof.
  intros Hok. destruct o as [c rid req|c ids h0 reply|c h0 code|c who id1 base key|c who id1 key|c who id1|c]; cbn [apply_op]; try done.
  - by destruct (reserve_spec c rid req s Hok) as [[err ->]|(r & m & _ & ->)].
  - by destruct (commit_spec c ids h0 reply s Hok) as [(err & -> & _)|(h' & r & rc & m & j & _ & _ & -> & _)].
  - by destruct (abort_spec c h0 code s Hok) as [(err & -> & _)|(h' & r & m & j & _ & _ & _ & _ & ->)].
  - by destruct (release_spec c who id1 base key s Hok) as [[res ->]|(e & rc & j & _ & _ & _ & _ & _ & _ & _ & _ & ->)].
  - unfold Snapshot. by destruct (requireMutable _ _ _).
Qed.

Lemma run_options s ops : store_ok s -> run_fresh s ops -> options (run s ops) = options s.
Proof.
  revert s. induction ops as [|o ops IH]; intros s Hok Hf; [done|]. destruct Hf as [Hf1 Hf2]. cbn [run].
  rewrite IH by (try done; by apply step_ok). by apply step_options.
Qed.

(** A release that succeeded leaves its outcome. *)
Lemma release_outcome c who id base key s rc s1 : store_ok s -> release c who id base key s = (Ok rc, s1) ->
  ensureSupported quote s LlmContextRelease = None /\ validateContextID id = None /\ String.eqb key "" = false /\
  exists i, idempotency s1 !! ownerKey who LlmContextReleaseActionID key = Some i /\ same_release i id base = Some rc /\ i_state i = OutcomeCompleted.
Proof.
  intros Hok. unfold Release. change (ensureSupported quote (sweepLocked (c 0%nat) s).2) with (ensureSupported quote s).
  destruct (ensureSupported _ _ _); [done|]. destruct (validateContextID id); [done|]. destruct (String.eqb key ""); [done|].
  intros E. split_and!; try done. destruct (idempotency _ !! _) as [prior|] eqn:Hkey in E.
  - destruct (same_release prior id base) as [rc'|] eqn:Es; [|done]. injection E as -> <-. exists prior. split_and!; try done.
    unfold same_release in Es. destruct (bool_decide (i_state prior = _)) eqn:Eb; [by apply bool_decide_eq_true in Eb|done].
  - destruct (requireMutable _ _ _) as [e|]; [|done]. destruct (negb _ || negb _); [done|]. injection E as <- <-. cbn.
    rewrite lookup_insert_eq. eexists. split; [reflexivity|]. split; [|done]. unfold same_release. cbn.
    by rewrite String.eqb_refl, !bool_decide_eq_true_2.
Qed.

(** Outcomes are retained.  While the clock stays below the retention of the
    outcome, and whatever else is done: a release that succeeded and is sent again
    gets the same receipt and changes nothing (but for the sweep that every operation
    starts with); and the idempotency key of a committed completion cannot be
    reserved again. *)
Theorem outcomes_are_retained s ops : store_ok s ->
  (forall c who id base key rc s1, release c who id base key s = (Ok rc, s1) -> run_fresh s1 ops ->
    exists i, idempotency s1 !! ownerKey who LlmContextReleaseActionID key = Some i /\ forall c',
      Forall (fun t => t < retainUntil i) (c' 0%nat :: concat (sweep_times <$> ops)) ->
      release c' who id base key (run s1 ops) = (Ok rc, (sweepLocked (c' 0%nat) (run s1 ops)).2)) /\
  (forall c ids h reply rc s1, commit c ids (Some h) reply s = (Ok rc, s1) -> run_fresh s1 ops ->
    exists r, reservations s !! h_id h = Some (h_addr h, r) /\ forall c' rid req, complete_key req = complete_key (r_request r) ->
      Forall (fun t => t < c 1%nat + IdempotencyTTL (options s)) (c' 0%nat :: concat (sweep_times <$> ops)) ->
      exists e, reserve c' rid req (run s1 ops) = (Err e, (sweepLocked (c' 0%nat) (run s1 ops)).2)).
Proof.
  intros Hok.
  assert (Hconcat : forall u l, Forall (fun t => t < u) (concat (sweep_times <$> l)) -> Forall (fun o => Forall (fun t => t < u) (sweep_times o)) l).
  { intros u l. induction l as [|o l IH]; [done|]. cbn. intros [? ?]%Forall_app. constructor; auto. }
  split.
  - intros c who id base key rc s1 E Hf. destruct (release_outcome _ _ _ _ _ _ _ _ Hok E) as (Hsup & Hval & Hk & i & Hi & Hsame & Hst).
    exists i. split; [done|]. intros c' [Ht Hts]%Forall_cons.
    assert (Hok1 : store_ok s1).
    { change s1 with (Ok (E := LlmContextStoreError) rc, s1).2. rewrite <- E. by apply (step_ok s (OpRelease c who id base key)). }
    assert (Hopt : options s1 = options s).
    { change s1 with (Ok (E := LlmContextStoreError) rc, s1).2. rewrite <- E. by apply (step_options s (OpRelease c who id base key)). }
    pose proof (run_retains s1 ops _ i Hok1 Hf Hi ltac:(congruence) (Hconcat _ _ Hts)) as Hi2.
    unfold Release. change (ensureSupported quote (sweepLocked (c' 0%nat) (run s1 ops)).2) with (ensureSupported quote (run s1 ops)).
    assert (Hsup' : ensureSupported quote (run s1 ops) LlmContextRelease = None).
    { unfold ensureSupported, supports in *. by rewrite run_options, Hopt by done. }
    rewrite Hsup', Hval, Hk, (sweep_retains _ _ _ i Hi2 Ht), Hsame. done.
  - intros c ids h reply rc s1 E Hf. assert (Hok1 : store_ok s1).
    { change s1 with (Ok (E := LlmContextStoreError) rc, s1).2. rewrite <- E. by apply (step_ok s (OpCommit c ids (Some h) reply)). }
    destruct (commit_spec c ids (Some h) reply s Hok) as [(err & E' & _)|(h' & r & rc' & m & i & [= <-] & Hr & E' & _ & Hst & _ & Hret)];
      rewrite E' in E; [done|]. injection E as -> <-. exists r. split; [done|]. intros c' rid req Hk [Ht Hts]%Forall_cons.
    assert (Hi : idempotency (resolved s r m i) !! complete_key (r_request r) = Some i) by (cbn; apply lookup_insert_eq).
    rewrite <- Hret in Ht, Hts. pose proof (run_retains _ ops _ i Hok1 Hf Hi ltac:(congruence) (Hconcat _ _ Hts)) as Hi2.
    destruct (reserve_spec c' rid req (run (resolved s r m i) ops)) as [[e He]|(r' & m' & (_ & _ & Hno & _) & _)]; [by apply run_store_ok|eauto|].
    rewrite Hk, (sweep_retains _ _ _ i Hi2 Ht) in Hno. done.
Qed.

(** *** Owners *)

(** The principal that the operation acts for. *)
Definition acts_for (s : InMemoryLlmContextStore) (who : LlmContextOwner) (o : op) : Prop :=
  match o with
  | OpReserve _ _ req => mr_Owner req = who
  | OpRelease _ w _ _ _ | OpStatus _ w _ _ | OpSnapshot _ w _ => w = who
  | OpCommit _ _ (Some h) _ | OpAbort _ (Some h) _ =>
      forall r, reservations s !! h_id h = Some (h_addr h, r) -> mr_Owner (r_request r) = who
  | _ => True
  end.

(** As before, or as a sweep leaves it. *)
Definition only_swept (s s' : InMemoryLlmContextStore) (id : string) : Prop :=
  contexts s' !! id = contexts s !! id \/ exists now, contexts s' !! id = contexts (sweepLocked now s).2 !! id.

Lemma sweep_lookup_ext now s s' id : contexts s' !! id = contexts s !! id -> options s' = options s ->
  contexts (sweepLocked now s').2 !! id = contexts (sweepLocked now s).2 !! id.
Proof.
  intros Hc Ho. cbn. apply option_eq. intros e. rewrite !map_lookup_filter_Some, !lookup_fmap, Hc. unfold expire_entry. by rewrite Ho.
Qed.

Lemma locked_owner s h r id e : store_ok s -> reservations s !! h_id h = Some (h_addr h, r) -> contexts s !! id = Some e ->
  reservationID e = r_reservationID r -> owner e = mr_Owner (r_request r).
Proof.
  intros Hok Hr He Hre. pose proof (ok_held s Hok _ _ _ Hr) as [Hid Hne _ _ _].
  destruct (ok_lock s Hok id e He) as (a & r' & Hr' & (_ & _ & _ & Ho & _)); [congruence|].
  rewrite Hre, Hid, Hr in Hr'. by injection Hr' as _ <-.
Qed.

Lemma step_isolated s o who id e : store_ok s -> acts_for s who o -> contexts s !! id = Some e -> owner e <> who ->
  only_swept s (apply_op s o) id.
Proof.
  intros Hok Hact He Ho. assert (Hsw : forall now s', contexts s' !! id = contexts (sweepLocked now s).2 !! id -> only_swept s s' id) by (right; eauto).
  assert (Hother : forall now id1 e1, contexts (sweepLocked now s).2 !! id1 = Some e1 -> owner e1 = who -> id1 <> id).
  { intros now id1 e1 (e0 & He0 & _ & Ho0 & _)%sweep_entry Hw ->. congruence. }
  destruct o as [c rid req|c ids [h|] reply|c [h|] code|c w id1 base key|c w id1 key|c w id1|c]; cbn [apply_op acts_for] in *;
    try (left; reflexivity); try (eapply Hsw; reflexivity).
  - destruct (reserve_spec c rid req s Hok) as [[err ->]|(r & m & (_ & Hreq & _ & Hl & _) & ->)]; [eapply Hsw; reflexivity|]. eapply Hsw. cbn [snd].
    destruct Hl as [(_ & -> & _)|(id1 & e1 & He1 & _ & _ & (_ & _ & _ & Hown & _) & ->)]; [done|]. cbn. rewrite lookup_insert_ne; [done|].
    eapply Hother; [done|congruence].
  - destruct (commit_spec c ids (Some h) reply s Hok) as [(err & -> & _)|(h' & r & rc & m & i & [= <-] & Hr & -> & Hc & _)]; [by left|].
    left. cbn. destruct Hc as (e' & -> & _ & _ & _ & _ & Hc). rewrite lookup_insert_ne; [done|]. intros E. rewrite E in Hc.
    destruct (allocates _); [destruct Hc; congruence|]. destruct Hc as (e0 & _ & He0 & Hre & _). apply Ho.
    rewrite He in He0. injection He0 as <-. rewrite (locked_owner s h r id e Hok Hr He Hre). auto.
  - destruct (abort_spec c (Some h) code s Hok) as [(err & -> & _)|(h' & r & m & i & [= <-] & Hr & Hc & _ & ->)]; [by left|].
    apply (Hsw (c 1%nat)). apply sweep_lookup_ext; [|done]. cbn. unfold abort_change in Hc. destruct (allocates _); [by subst m|].
    destruct Hc as (id0 & e0 & _ & He0 & Hre & ->). rewrite lookup_insert_ne; [done|]. intros ->. apply Ho. rewrite He in He0. injection He0 as <-.
    rewrite (locked_owner s h r id e Hok Hr He Hre). auto.
  - destruct (release_spec c w id1 base key s Hok) as [[res ->]|(e1 & rc & i & He1 & _ & _ & Ho1 & _ & _ & _ & _ & ->)]; [eapply Hsw; reflexivity|].
    eapply Hsw. cbn [snd]. cbn. rewrite lookup_insert_ne; [done|]. eapply Hother; [done|congruence].
  - unfold Snapshot. destruct (requireMutable _ _ _); eapply Hsw; reflexivity.
Qed.

Lemma foreign_mutable now s who id e : contexts s !! id = Some e -> owner e <> who ->
  is_ok (requireMutable (sweepLocked now s).2 who id) = false.
Proof.
  intros He Ho. unfold requireMutable, requireEntry. destruct (contexts (sweepLocked now s).2 !! id) as [e'|] eqn:He'; [|done]. cbn.
  apply sweep_entry in He' as (e0 & He0 & _ & Ho' & _). rewrite bool_decide_eq_false_2; [done|]. congruence.
Qed.

(** Owners are isolated.  An operation that acts for one principal (the owner of
    the request, or of the reservation it resolves) leaves the contexts of every
    other principal as they are or as a sweep leaves them; a snapshot, a status or a
    reservation that names such a context is refused. *)
Theorem owners_are_isolated s o who id e : store_ok s -> acts_for s who o -> contexts s !! id = Some e -> owner e <> who ->
  only_swept s (apply_op s o) id /\
  (forall c, is_ok (Snapshot c who id s).1 = false) /\
  (forall c, is_ok (Status format_time c who (Some id) None s).1 = false) /\
  (forall c rid req, mr_Owner req = who -> mr_ContextID req = Some id -> mr_Operation req <> LlmContextCreate ->
     is_ok (reserve c rid req s).1 = false).
Proof.
  intros Hok Hact He Ho. split_and!.
  - by eapply step_isolated.
  - intros c. unfold Snapshot. pose proof (foreign_mutable (c 0%nat) s who id e He Ho) as Hf. by destruct (requireMutable _ _ _).
  - intros c. unfold Status. cbv zeta. cbn [fst]. unfold statusByContextLocked. destruct (validateContextID id); [done|].
    destruct (contexts (sweepLocked (c 0%nat) s).2 !! id) as [e'|] eqn:He'; [|done]. apply sweep_entry in He' as (e0 & He0 & _ & Ho' & _).
    rewrite bool_decide_eq_false_2; [done|]. congruence.
  - intros c rid req Hw Hid Hop. destruct (reserve_spec c rid req s Hok) as [[err ->]|(r & m & Hres & _)]; [done|].
    destruct Hres as (_ & _ & _ & _ & _ & _ & Hother). destruct (Hother Hop) as (id' & e' & Hid' & He' & _ & _ & Ho' & _).
    rewrite Hid in Hid'. injection Hid' as <-. apply sweep_entry in He' as (e0 & He0 & _ & Ho2 & _). congruence.
Qed.

End Operations.

(** ** Keys of outcomes *)

(** The separator of [ownerKey] does not occur in the string. *)
Definition separable (s : string) : Prop := str_contains_char (chr 0x1f) s = false.

Lemma separated_inj a b x y : separable a -> separable b -> a +:+ unit_separator +:+ x = b +:+ unit_separator +:+ y -> a = b /\ x = y.
Proof.
  unfold separable. change unit_separator with (String (chr 0x1f) ""). revert b.
  induction a as [|c a IH]; intros [|d b] Ha Hb E; cbn in Ha, Hb.
  - change (String (chr 0x1f) x = String (chr 0x1f) y) in E. by injection E as <-.
  - change (String (chr 0x1f) x = String d (b +:+ String (chr 0x1f) "" +:+ y)) in E. injection E as <- _. done.
  - change (String c (a +:+ String (chr 0x1f) "" +:+ x) = String (chr 0x1f) y) in E. injection E as -> _. done.
  - change (String c (a +:+ String (chr 0x1f) "" +:+ x) = String d (b +:+ String (chr 0x1f) "" +:+ y)) in E. injection E as <- E.
    apply orb_false_iff in Ha as [_ Ha]. apply orb_false_iff in Hb as [_ Hb]. by destruct (IH b Ha Hb E) as [-> ->].
Qed.

(** The keys under which outcomes are kept tell owners, actions and idempotency
    keys apart, provided that no identifier contains the separator; two principals
    whose identifiers do contain it share their outcomes. *)
Theorem owner_keys_distinct :
  (forall o1 o2 a1 a2 k1 k2, Forall separable [NID o1; SecurityScope o1; a1; NID o2; SecurityScope o2; a2] ->
     ownerKey o1 a1 k1 = ownerKey o2 a2 k2 -> o1 = o2 /\ a1 = a2 /\ k1 = k2) /\
  (exists o1 o2, o1 <> o2 /\ forall a k, ownerKey o1 a k = ownerKey o2 a k).
Proof.
  split.
  - intros [n1 s1] [n2 s2] a1 a2 k1 k2 Hs E. cbn in Hs. rewrite !Forall_cons in Hs. destruct Hs as (? & ? & ? & ? & ? & ? & _).
    unfold ownerKey in E. cbn in E. apply separated_inj in E as [-> E]; [|done|done]. apply separated_inj in E as [-> E]; [|done|done].
    apply separated_inj in E as [-> ->]; done.
  - exists (MkOwner ("a" +:+ unit_separator +:+ "b") "c"), (MkOwner "a" ("b" +:+ unit_separator +:+ "c")). split; [done|]. done.
Qed.

(** ** Witnesses *)

Definition sample_options : LlmContextStoreOptions := MkStoreOptions 2 0 0 0 0 None.
Definition sample_store : InMemoryLlmContextStore := NewInMemoryLlmContextStore sample_options.
Definition at_time (t : Z) (_ : nat) : Z := t.
Definition sample_id : string := "abcdefghijklmnopqrstuv".
Definition sample_ids (_ : nat) : result string string := Ok sample_id.
Definition sample_binding (b : LlmContextBinding) : result string (list byte) := Ok (bytes_of_string (Model b)).
Definition alice : LlmContextOwner := MkOwner "alice" "scope".
Definition bob : LlmContextOwner := MkOwner "bob" "scope".
Definition says (role text : string) : LlmMessageDto := MkMessage role (Some text) None None [].
Definition sample_request (operation : LlmContextOperation) (id : option string) (base : option Z) (key : string) : LlmContextMutationRequest :=
  MkMutation operation alice id base (MkBinding "m" None None "1") [says "user" key] None key key.
Definition sample_create : LlmContextMutationRequest := sample_request LlmContextCreate None None "k1".
Definition sample_append (key : string) : LlmContextMutationRequest := sample_request LlmContextAppend (Some sample_id) (Some 1) key.
(** A context of Alice's at version 1. *)
Definition sample_ops : list op :=
  [OpReserve (at_time 0) "r1" sample_create; OpCommit (at_time 1) sample_ids (Some (MkHandle 0 "r1")) (says "assistant" "hello")].
Abbreviation sample_run := (run sample_binding string_of_bytes fmt_d id).
Abbreviation sample_reserve := (Reserve sample_binding string_of_bytes id).
Definition sample_context : InMemoryLlmContextStore := sample_run sample_store sample_ops.
(** Another append of the same version, a sweep and a snapshot. *)
Definition sample_others : list op :=
  [OpReserve (at_time 3) "r3" (sample_append "k3"); OpSweep (at_time 4); OpSnapshot (at_time 5) alice sample_id].

Lemma sample_context_ok : store_ok sample_context.
Proof. apply run_store_ok; [by apply new_store_ok|]. by vm_compute. Qed.

Lemma context_store_invariant_witness : store_ok (sample_run sample_store (sample_ops ++ sample_others)).
Proof. apply context_store_invariant; [done|]. by vm_compute. Defined.

Lemma reservation_is_exclusive_witness :
  let s1 := (sample_reserve (at_time 2) "r2" (sample_append "k2") sample_context).2 in
  commit_meets (sweepLocked 2 sample_context).2 (sample_run s1 sample_others) (sample_append "k2") sample_ids (says "assistant" "yes")
    (Commit fmt_d (at_time 6) sample_ids (Some (MkHandle 1 "r2")) (says "assistant" "yes") (sample_run s1 sample_others)).
Proof.
  refine (reservation_is_exclusive sample_binding string_of_bytes fmt_d id sample_context (at_time 2) "r2" (sample_append "k2") (MkHandle 1 "r2")
    _ sample_others (at_time 6) sample_ids (says "assistant" "yes") sample_context_ok _ _ _ _ _); [done|by vm_compute|by vm_compute|by vm_compute|].
  repeat constructor; by intros [].
Defined.

Lemma version_identifies_transcript_witness :
  exists e1 e2, contexts sample_context !! sample_id = Some e1 /\ contexts (sample_run sample_context sample_others) !! sample_id = Some e2 /\
    version e2 = version e1 /\ transcript e2 = transcript e1.
Proof.
  let x := eval vm_compute in (contexts sample_context !! sample_id) in
  let y := eval vm_compute in (contexts (sample_run sample_context sample_others) !! sample_id) in
  match x with Some ?e1 => match y with Some ?e2 =>
    exists e1, e2; split; [vm_compute; reflexivity|]; split; [vm_compute; reflexivity|]; split; [reflexivity|];
    refine (proj1 (proj2 (proj2 (version_identifies_transcript sample_binding string_of_bytes fmt_d id sample_options sample_ops sample_others
      sample_id e1 e2 _ _ _ _ _ _)) eq_refl)) end end; [done|by vm_compute|done|vm_compute; reflexivity|vm_compute; reflexivity|].
  unfold sample_others. repeat (apply retained_step; [by eexists; vm_compute|]). apply retained_nil. by eexists; vm_compute.
Defined.

Lemma outcomes_are_retained_witness :
  let out := Release id (at_time 7) alice sample_id 1 "k9" sample_context in
  exists rc, out.1 = Ok rc /\ (Release id (at_time 9) alice sample_id 1 "k9" (sample_run out.2 [OpSweep (at_time 8)])).1 = Ok rc.
Proof.
  eexists. split; [vm_compute; reflexivity|].
  destruct (proj1 (outcomes_are_retained sample_binding string_of_bytes fmt_d id sample_context [OpSweep (at_time 8)] sample_context_ok)
    (at_time 7) alice sample_id 1 "k9" _ (Release id (at_time 7) alice sample_id 1 "k9" sample_context).2 ltac:(vm_compute; reflexivity) ltac:(done))
    as (i & Hi & Hrep).
  vm_compute in Hi. injection Hi as <-. rewrite (Hrep (at_time 9)); [reflexivity|]. cbn. repeat constructor; vm_compute; reflexivity.
Defined.

Lemma owners_are_isolated_witness :
  only_swept sample_context (apply_op sample_binding string_of_bytes fmt_d id sample_context (OpRelease (at_time 2) bob sample_id 1 "k")) sample_id.
Proof.
  refine (proj1 (owners_are_isolated sample_binding string_of_bytes fmt_d id sample_context (OpRelease (at_time 2) bob sample_id 1 "k") bob sample_id
    _ sample_context_ok _ _ _)); [done|vm_compute; reflexivity|done].
Defined.
