(* ===== verification/NipFrames.v ===== *)
(** * NIP frames: assurance levels, identity, trust and revocation frames

    nip/assurance_level.go and nip/frames.go.  Pointer fields and slices whose
    nil-ness is tested are [option]s, as in NcpFrames.v, whose [dict_tr] says what
    a peer may decode for a dict. *)

From S2P Require Import Prelude GoValue CoreFrames NcpFrames NdpRegistry.

(** ** Error codes (nip/error_codes.go) *)

Definition ErrCertExpired : string := "NIP-CERT-EXPIRED".
Definition ErrCertRevoked : string := "NIP-CERT-REVOKED".
Definition ErrCertSignatureInvalid : string := "NIP-CERT-SIGNATURE-INVALID".
Definition ErrCertUntrustedIssuer : string := "NIP-CERT-UNTRUSTED-ISSUER".
Definition ErrCertCapabilityMissing : string := "NIP-CERT-CAPABILITY-MISSING".
Definition ErrCertScopeViolation : string := "NIP-CERT-SCOPE-VIOLATION".
Definition ErrOcspUnavailable : string := "NIP-OCSP-UNAVAILABLE".
Definition ErrTrustFrameInvalid : string := "NIP-TRUST-FRAME-INVALID".
Definition ErrTrustFrameExpired : string := "NIP-TRUST-FRAME-EXPIRED".
Definition ErrTrustFrameScopeExceedsGrantor : string := "NIP-TRUST-FRAME-SCOPE-EXCEEDS-GRANTOR".
Definition ErrRevokeFrameInvalid : string := "NIP-REVOKE-FRAME-INVALID".
Definition ErrAssuranceMismatch : string := "NIP-ASSURANCE-MISMATCH".
Definition ErrCertFormatInvalid : string := "NIP-CERT-FORMAT-INVALID".
Definition ErrCertNodeRolesMismatch : string := "NIP-CERT-NODE-ROLES-MISMATCH".
Definition ErrCertCapabilitiesExceeded : string := "NIP-CERT-CAPABILITIES-EXCEEDED".
Definition ErrOcspStapleExpired : string := "NIP-OCSP-STAPLE-EXPIRED".
Definition ErrCaNidNotFound : string := "NIP-CA-NID-NOT-FOUND".
Definition ErrCaNidAlreadyExists : string := "NIP-CA-NID-ALREADY-EXISTS".
Definition ErrCaRenewalTooEarly : string := "NIP-CA-RENEWAL-TOO-EARLY".
Definition ErrCaScopeExpansionDenied : string := "NIP-CA-SCOPE-EXPANSION-DENIED".
Definition ErrCaGroupRevoked : string := "NIP-CA-GROUP-REVOKED".
Definition ErrCaParentNotFound : string := "NIP-CA-PARENT-NOT-FOUND".
Definition ErrCaParentNotGroup : string := "NIP-CA-PARENT-NOT-GROUP".
Definition ErrCaSessionValidityInvalid : string := "NIP-CA-SESSION-VALIDITY-INVALID".
Definition ErrCertParentRevoked : string := "NIP-CERT-PARENT-REVOKED".
Definition ErrRaTokenInvalid : string := "NIP-RA-TOKEN-INVALID".
Definition ErrRaTokenExpired : string := "NIP-RA-TOKEN-EXPIRED".
Definition ErrRaNidNotAllowed : string := "NIP-RA-NID-NOT-ALLOWED".
Definition CertFormatV2X509 : string := "v2-x509".

(** ** Assurance levels *)

Record AssuranceLevel : Type := MkAssurance { Wire : string; Rank : Z }.

#[export] Instance AssuranceLevel_eq_dec : EqDecision AssuranceLevel.
Proof. solve_decision. Defined.

Definition AssuranceAnonymous : AssuranceLevel := MkAssurance "anonymous" 0.
Definition AssuranceAttested : AssuranceLevel := MkAssurance "attested" 1.
Definition AssuranceVerified : AssuranceLevel := MkAssurance "verified" 2.

Definition assurance_levels : list AssuranceLevel := [AssuranceAnonymous; AssuranceAttested; AssuranceVerified].

Definition MeetsOrExceeds (l required : AssuranceLevel) : bool := Rank required <=? Rank l.

Definition AssuranceFromWire (wire : string) : go_result AssuranceLevel :=
  if String.eqb wire "" then Ok AssuranceAnonymous
  else match List.find (fun l => String.eqb (Wire l) wire) assurance_levels with
       | Some l => Ok l
       | None => Err (ErrPlain ("unknown assurance_level: " +:+ String (chr 34) wire +:+ String (chr 34) ""))
       end.

Definition AssuranceFromRank (rank : Z) : go_result AssuranceLevel :=
  match List.find (fun l => Rank l =? rank) assurance_levels with
  | Some l => Ok l
  | None => Err (ErrPlain ("unknown assurance_level rank: " +:+ fmt_d rank))
  end.

(** ** Reading dicts *)

Definition stringSlice (v : any) : option (list string) :=
  match v with
  | VStrings l => Some l
  | VSlice l => match omap as_string l with [] => None | out => Some out end
  | _ => None
  end.

(** [first]: the value of the first key that is present. *)
Fixpoint first_of (d : dict) (keys : list string) : any :=
  match keys with
  | [] => VNil
  | k :: r => match dict_get k d with Some v => v | None => first_of d r end
  end.

Fixpoint strAny (d : dict) (keys : list string) : string :=
  match keys with
  | [] => ""
  | k :: r => match as_string (dict_at d k) with Some s => s | None => strAny d r end
  end.

(** ** IdentFrame *)

Record IdentFrame : Type := MkIdent {
  id_NID : string; id_PubKey : string; id_Meta : option dict; id_Signature : option string; id_Scope : option dict;
  id_Lineage : option dict; id_IssuedBy : string; id_IssuedAt : string; id_ExpiresAt : string; id_Serial : string;
  id_AssuranceLevel : option AssuranceLevel; id_CertFormat : option string; id_CertChain : option (list string);
  id_OCSPStaple : string; id_NodeRoles : option (list string); id_Capabilities : list string
}.

Definition IdentFrame_UnsignedDict (f : IdentFrame) : dict :=
  let d := [("nid", VString (id_NID f)); ("pub_key", VString (id_PubKey f))] in
  let d := set_opt "metadata" VMap (id_Meta f) d in
  let d := set_opt "assurance_level" (fun l => VString (Wire l)) (id_AssuranceLevel f) d in
  let d := set_list "capabilities" (id_Capabilities f) d in
  let d := set_opt "scope" VMap (id_Scope f) d in
  let d := set_opt "lineage" VMap (id_Lineage f) d in
  let d := set_str "issued_by" (id_IssuedBy f) d in
  let d := set_str "issued_at" (id_IssuedAt f) d in
  let d := set_str "expires_at" (id_ExpiresAt f) d in
  set_str "serial" (id_Serial f) d.

Definition IdentFrame_ToDict (f : IdentFrame) : dict :=
  let d := IdentFrame_UnsignedDict f in
  let d := set_opt "signature" VString (id_Signature f) d in
  let d := set_opt "cert_format" VString (id_CertFormat f) d in
  let d := set_opt "cert_chain" VStrings (id_CertChain f) d in
  let d := set_str "ocsp_staple" (id_OCSPStaple f) d in
  set_opt "node_roles" VStrings (id_NodeRoles f) d.

Definition wire_assurance (v : any) : option AssuranceLevel :=
  match as_string v with
  | Some w => match AssuranceFromWire w with Ok l => Some l | Err _ => None end
  | None => None
  end.

Definition IdentFrameFromDict (d : dict) : IdentFrame :=
  MkIdent (str d "nid") (str d "pub_key") (as_map (dict_at d "metadata")) (optStr d "signature")
    (as_map (dict_at d "scope")) (as_map (dict_at d "lineage")) (str d "issued_by") (str d "issued_at")
    (str d "expires_at") (str d "serial") (wire_assurance (dict_at d "assurance_level")) (optStr d "cert_format")
    (stringSlice (dict_at d "cert_chain")) (str d "ocsp_staple") (stringSlice (dict_at d "node_roles"))
    (default [] (stringSlice (dict_at d "capabilities"))).

(** ** TrustFrame *)

Record TrustFrame : Type := MkTrust {
  GrantorNID : string; GranteeCA : string; TrustScope : list string; t_Nodes : list string; t_IssuedAt : string;
  t_ExpiresAt : string; t_Serial : string; t_SignerNID : string; t_Signature : string
}.

Definition TrustFrame_UnsignedDict (f : TrustFrame) : dict :=
  [("frame", VString "0x21"); ("grantor_nid", VString (GrantorNID f)); ("grantee_ca", VString (GranteeCA f));
   ("trust_scope", VStrings (TrustScope f)); ("nodes", VStrings (t_Nodes f)); ("issued_at", VString (t_IssuedAt f));
   ("expires_at", VString (t_ExpiresAt f)); ("serial", VString (t_Serial f)); ("signer_nid", VString (t_SignerNID f))].

Definition TrustFrame_ToDict (f : TrustFrame) : dict :=
  dict_set "signature" (VString (t_Signature f)) (TrustFrame_UnsignedDict f).

Definition TrustFrameFromDict (d : dict) : TrustFrame :=
  MkTrust (strAny d ["grantor_nid"; "issuer_nid"]) (strAny d ["grantee_ca"; "subject_nid"])
    (default [] (stringSlice (first_of d ["trust_scope"; "scopes"]))) (default [] (stringSlice (dict_at d "nodes")))
    (str d "issued_at") (str d "expires_at") (str d "serial") (strAny d ["signer_nid"; "grantor_nid"; "issuer_nid"])
    (str d "signature").

(** ** RevokeFrame *)

Record RevokeFrame : Type := MkRevoke {
  TargetNID : string; rv_Serial : option string; rv_Reason : string; RevokedAt : string; ParentNID : option string;
  rv_SignerNID : string; rv_Signature : string
}.

Definition RevokeFrame_Validate (f : RevokeFrame) : go_result unit :=
  if String.eqb (rv_Reason f) "parent_revoked" then
    match ParentNID f with
    | None => Err (ErrPlain (ErrRevokeFrameInvalid +:+ ": parent_nid is required when reason=parent_revoked"))
    | Some p => if String.eqb p ""
                then Err (ErrPlain (ErrRevokeFrameInvalid +:+ ": parent_nid is required when reason=parent_revoked"))
                else Ok tt
    end
  else match ParentNID f with
       | Some _ => Err (ErrPlain (ErrRevokeFrameInvalid +:+ ": parent_nid must be omitted unless reason=parent_revoked"))
       | None => Ok tt
       end.

Definition RevokeFrame_UnsignedDict (f : RevokeFrame) : dict :=
  let d := [("frame", VString "0x22"); ("target_nid", VString (TargetNID f)); ("reason", VString (rv_Reason f));
            ("revoked_at", VString (RevokedAt f)); ("signer_nid", VString (rv_SignerNID f))] in
  set_opt "parent_nid" VString (ParentNID f) (set_opt "serial" VString (rv_Serial f) d).

Definition RevokeFrame_ToDict (f : RevokeFrame) : dict :=
  dict_set "signature" (VString (rv_Signature f)) (RevokeFrame_UnsignedDict f).

Definition RevokeFrameFromDict (d : dict) : RevokeFrame :=
  MkRevoke (strAny d ["target_nid"; "nid"]) (optStr d "serial") (str d "reason") (str d "revoked_at")
    (optStr d "parent_nid") (str d "signer_nid") (str d "signature").

(** ** Transport *)

(** Frames that differ only in nil against empty slices. *)
Definition ident_agree (f g : IdentFrame) : Prop :=
  g = MkIdent (id_NID f) (id_PubKey f) (id_Meta f) (id_Signature f) (id_Scope f) (id_Lineage f) (id_IssuedBy f)
        (id_IssuedAt f) (id_ExpiresAt f) (id_Serial f) (id_AssuranceLevel f) (id_CertFormat f) (id_CertChain g)
        (id_OCSPStaple f) (id_NodeRoles g) (id_Capabilities f) /\
  default [] (id_CertChain g) = default [] (id_CertChain f) /\
  default [] (id_NodeRoles g) = default [] (id_NodeRoles f).

#[export] Instance wire_assurance_tr : Proper (transported ==> eq) wire_assurance.
Proof. intros v w H. unfold wire_assurance. by rewrite H. Qed.

Lemma stringSlice_tr v w : transported v w -> default [] (stringSlice v) = default [] (stringSlice w).
Proof. intros [| | |l]; [done..|]. simpl. rewrite omap_VString. by destruct l. Qed.

#[export] Instance IdentFrameFromDict_tr : Proper (dict_tr ==> ident_agree) IdentFrameFromDict.
Proof.
  intros d d' Hd. split; [|split; symmetry; by apply stringSlice_tr, dict_tr_at].
  unfold IdentFrameFromDict. cbn. f_equal; try (by rewrite Hd).
  symmetry. by apply stringSlice_tr, dict_tr_at.
Qed.

(** *** Reading back a dict that was built by conditional assignments *)

Section DictAt.
Context (k k' : string) (d : dict).

Lemma dict_at_set_eq v : dict_at (dict_set k v d) k = v.
Proof. unfold dict_at. by rewrite assoc_get_set_eq. Qed.
Lemma dict_at_set_ne v : k' <> k -> dict_at (dict_set k' v d) k = dict_at d k.
Proof. intros. unfold dict_at. by rewrite assoc_get_set_ne. Qed.

Lemma dict_at_set_opt_eq {A} (inj : A -> any) o :
  dict_at (set_opt k inj o d) k = match o with Some x => inj x | None => dict_at d k end.
Proof. destruct o; simpl; [apply dict_at_set_eq|done]. Qed.
Lemma dict_at_set_opt_ne {A} (inj : A -> any) o : k' <> k -> dict_at (set_opt k' inj o d) k = dict_at d k.
Proof. destruct o; simpl; [apply dict_at_set_ne|done]. Qed.

Lemma dict_at_set_str_eq s : dict_at (set_str k s d) k = if String.eqb s "" then dict_at d k else VString s.
Proof. unfold set_str. destruct (String.eqb s ""); [done|apply dict_at_set_eq]. Qed.
Lemma dict_at_set_str_ne s : k' <> k -> dict_at (set_str k' s d) k = dict_at d k.
Proof. unfold set_str. destruct (String.eqb s ""); [done|apply dict_at_set_ne]. Qed.

Lemma dict_at_set_list_eq l : dict_at (set_list k l d) k = match l with [] => dict_at d k | _ => VStrings l end.
Proof. destruct l; simpl; [done|apply dict_at_set_eq]. Qed.
Lemma dict_at_set_list_ne l : k' <> k -> dict_at (set_list k' l d) k = dict_at d k.
Proof. destruct l; simpl; [done|apply dict_at_set_ne]. Qed.
End DictAt.

Lemma string_or_empty s : default "" (as_string (if String.eqb s "" then VNil else VString s)) = s.
Proof. by destruct (String.eqb_spec s "") as [->|]. Qed.

(** Look a literal key up in such a dict. *)
Ltac dict_step :=
  first [ rewrite dict_at_set_opt_eq | rewrite dict_at_set_str_eq | rewrite dict_at_set_list_eq | rewrite dict_at_set_eq
        | rewrite dict_at_set_opt_ne by discriminate | rewrite dict_at_set_str_ne by discriminate
        | rewrite dict_at_set_list_ne by discriminate | rewrite dict_at_set_ne by discriminate ].
Ltac dict_lookup := repeat dict_step.

Definition known_assurance (o : option AssuranceLevel) : Prop :=
  match o with Some l => l ∈ assurance_levels | None => True end.

Lemma wire_assurance_known o :
  known_assurance o -> wire_assurance (match o with Some l => VString (Wire l) | None => VNil end) = o.
Proof.
  destruct o as [l|]; [|done]. simpl. unfold assurance_levels. intros H.
  repeat (apply elem_of_cons in H as [->|H]; [done|]). by apply not_elem_of_nil in H.
Qed.

Lemma option_map_back (o : option dict) : as_map (match o with Some m => VMap m | None => VNil end) = o.
Proof. by destruct o. Qed.
Lemma option_string_back (o : option string) : as_string (match o with Some m => VString m | None => VNil end) = o.
Proof. by destruct o. Qed.
Lemma option_slice_back (o : option (list string)) : stringSlice (match o with Some m => VStrings m | None => VNil end) = o.
Proof. by destruct o. Qed.
Lemma slice_back (l : list string) : default [] (stringSlice (match l with [] => VNil | _ => VStrings l end)) = l.
Proof. by destruct l. Qed.

Create HintDb wire.
#[export] Hint Resolve string_or_empty option_map_back option_string_back option_slice_back slice_back
  wire_assurance_known : wire.

Lemma ident_local f : known_assurance (id_AssuranceLevel f) -> IdentFrameFromDict (IdentFrame_ToDict f) = f.
Proof.
  intros Ha. destruct f. unfold IdentFrameFromDict, str, optStr, IdentFrame_ToDict, IdentFrame_UnsignedDict. cbn in Ha |- *.
  f_equal; dict_lookup; auto with wire.
Qed.

(** What the signature of an identity covers. *)
Definition signed_part (f : IdentFrame) :=
  (id_NID f, id_PubKey f, id_Meta f, id_Scope f, id_Lineage f, (id_IssuedBy f, id_IssuedAt f, id_ExpiresAt f, id_Serial f),
   id_AssuranceLevel f, id_Capabilities f).

Lemma unsigned_read f :
  known_assurance (id_AssuranceLevel f) -> signed_part (IdentFrameFromDict (IdentFrame_UnsignedDict f)) = signed_part f.
Proof.
  intros Ha. destruct f. unfold signed_part, IdentFrameFromDict, str, optStr, IdentFrame_UnsignedDict. cbn in Ha |- *.
  repeat match goal with |- (_, _) = (_, _) => f_equal end; dict_lookup; auto with wire.
Qed.

(** ** Properties *)

(** An identity frame survives the wire: what a peer decodes for the dict of a
    frame whose assurance level is one of the three defined ones is that frame, up
    to nil against empty slices. *)
Theorem ident_roundtrip f d' :
  known_assurance (id_AssuranceLevel f) -> dict_tr (IdentFrame_ToDict f) d' -> ident_agree f (IdentFrameFromDict d').
Proof. intros Ha Hd%IdentFrameFromDict_tr. by rewrite ident_local in Hd. Qed.

(** The signature binds the identity: frames with the same unsigned dict agree on
    the NID, the key, metadata, scope, lineage, issuer, validity, serial, assurance
    level and capabilities; and the dict is the same whatever the certificate
    format, the chain, the OCSP staple, the node roles and the signature are. *)
Theorem signature_binds f g :
  known_assurance (id_AssuranceLevel f) -> known_assurance (id_AssuranceLevel g) ->
  IdentFrame_UnsignedDict f = IdentFrame_UnsignedDict g <-> signed_part f = signed_part g.
Proof.
  intros Hf Hg. split.
  - intros E. rewrite <- unsigned_read, E by done. by apply unsigned_read.
  - destruct f, g. unfold signed_part. cbn. intros E. by simplify_eq.
Qed.

Lemma trust_local f : TrustFrameFromDict (TrustFrame_ToDict f) = f.
Proof. by destruct f. Qed.

Lemma revoke_local f : RevokeFrameFromDict (RevokeFrame_ToDict f) = f.
Proof. destruct f as [t [s|] r ra [p|] sn sg]; reflexivity. Qed.

Lemma strAny_tr d d' keys : dict_tr d d' -> strAny d keys = strAny d' keys.
Proof. intros Hd. induction keys as [|k r IH]; simpl; [done|]. by rewrite (dict_tr_at k _ _ Hd), IH. Qed.

Lemma first_of_tr d d' keys : dict_tr d d' -> transported (first_of d keys) (first_of d' keys).
Proof.
  intros Hd. induction keys as [|k r IH]; simpl; [constructor|]. destruct (dict_tr_get k _ _ Hd); [done|apply IH].
Qed.

(** Trust and revocation frames survive the wire: whatever a peer decodes for
    their dicts reads back as the same frame. *)
Theorem trust_revoke_roundtrip t r dt dr :
  dict_tr (TrustFrame_ToDict t) dt -> dict_tr (RevokeFrame_ToDict r) dr ->
  TrustFrameFromDict dt = t /\ RevokeFrameFromDict dr = r.
Proof.
  intros Ht Hr. split.
  - rewrite <- (trust_local t). unfold TrustFrameFromDict.
    f_equal; try (by rewrite Ht); try (symmetry; by apply strAny_tr); symmetry; apply stringSlice_tr;
      [by apply first_of_tr|by apply dict_tr_at].
  - rewrite <- (revoke_local r). unfold RevokeFrameFromDict. f_equal; try (by rewrite Hr). symmetry. by apply strAny_tr.
Qed.

(** ** Witnesses *)

Definition sample_ident : IdentFrame :=
  MkIdent "urn:nps:agent:ca.example:a1" "ed25519:AAAA" None (Some "ed25519:sig") (Some [("nodes", VStrings ["nwp://a/*"])])
    None "urn:nps:ca:ca.example" "2026-01-01T00:00:00Z" "2026-02-01T00:00:00Z" "0x01" (Some AssuranceAttested) None
    (Some []) "" None ["nwp:query"].

Example ident_roundtrip_witness : ident_agree sample_ident (IdentFrameFromDict (IdentFrame_ToDict sample_ident)).
Proof. apply (ident_roundtrip sample_ident); [by right; left|apply dict_tr_refl]. Defined.

Example signature_binds_witness :
  IdentFrame_UnsignedDict sample_ident = IdentFrame_UnsignedDict sample_ident <-> signed_part sample_ident = signed_part sample_ident.
Proof. apply (signature_binds sample_ident sample_ident); by right; left. Defined.

Definition sample_trust : TrustFrame := MkTrust "g" "c" ["nwp:query"] ["nwp://a/*"] "i" "e" "s" "n" "sig".
Definition sample_revoke : RevokeFrame := MkRevoke "t" None "key_compromise" "2026" None "ca" "sig".

Example trust_revoke_roundtrip_witness :
  TrustFrameFromDict (TrustFrame_ToDict sample_trust) = sample_trust /\
  RevokeFrameFromDict (RevokeFrame_ToDict sample_revoke) = sample_revoke.
Proof. apply (trust_revoke_roundtrip sample_trust sample_revoke); apply dict_tr_refl. Defined.
