(* ===== verification/NwpAnchor.v ===== *)
(** * The anchor node server

    nwp/anchor_server.go over the epoch guard of NwpEpoch.v, the reputation
    decisions of NwpReputation.v and the assurance levels of NipFrames.v.

    A request is its path, method, headers and body; what a handler does to the
    outside (limiter, evaluator, invoke handler, topology service, response) is the
    list of [act]s it returns, with the guard it leaves.  What the outside answers,
    the random strings and [json.Unmarshal] are parameters. *)

From S2P Require Import Prelude GoValue CoreCodec CoreStatus CoreCache NipFrames NwpReputation NwpEpoch.

(** ** Constants *)

Definition snapshotAnchorRef : string := "nps:system:topology:snapshot".
Definition HeaderAgent : string := "X-NWP-Agent".
Definition HeaderBudget : string := "X-NWP-Budget".
Definition HeaderIdent : string := "X-NWP-Ident".
Definition HeaderCapabilities : string := "X-NWP-Capabilities".
Definition HeaderSchema : string := "X-NWP-Schema".
Definition HeaderTokens : string := "X-NWP-Tokens".
Definition HeaderNodeType : string := "X-NWP-Node-Type".
Definition MimeCapsule : string := "application/nwp-capsule".
Definition MimeManifest : string := "application/nwp-manifest+json".
Definition ErrAuthNidScopeViolation : string := "NWP-AUTH-NID-SCOPE-VIOLATION".
Definition ErrAuthAssuranceTooLow : string := "NWP-AUTH-ASSURANCE-TOO-LOW".
Definition ErrReputationThrottled : string := "NWP-REPUTATION-THROTTLED".
Definition ErrReputationRejected : string := "NWP-REPUTATION-REJECTED".
Definition ErrReputationBanned : string := "NWP-REPUTATION-BANNED".
Definition ErrQueryFilterInvalid : string := "NWP-QUERY-FILTER-INVALID".
Definition ErrActionNotFound : string := "NWP-ACTION-NOT-FOUND".
Definition ErrActionParamsInvalid : string := "NWP-ACTION-PARAMS-INVALID".
Definition ErrBudgetExceeded : string := "NWP-BUDGET-EXCEEDED".
Definition ErrCgnLimitExceeded : string := "NWP-CGN-LIMIT-EXCEEDED".
Definition ErrNodeUnavailable : string := "NWP-NODE-UNAVAILABLE".
Definition ErrReservedTypeUnsupported : string := "NWP-RESERVED-TYPE-UNSUPPORTED".
Definition ErrTopologyUnauthorized : string := "NWP-TOPOLOGY-UNAUTHORIZED".
Definition ErrTopologyUnsupportedScope : string := "NWP-TOPOLOGY-UNSUPPORTED-SCOPE".
Definition ErrTopologyFilterUnsupported : string := "NWP-TOPOLOGY-FILTER-UNSUPPORTED".
Definition typeSnapshotWire : string := "topology.snapshot".
Definition typeStreamWire : string := "topology.stream".
Definition scopeClusterWire : string := "cluster".
Definition scopeMemberWire : string := "member".
Definition eventResyncWire : string := "resync_required".

(** ** Data *)

Record AnchorSnapshotRequest : Type := MkSnapReq {
  sr_Scope : string; sr_Include : list string; sr_Depth : Z; sr_TargetNid : string
}.

Record TopologyFilter : Type := MkTopoFilter {
  TagsAny : option (list string); TagsAll : option (list string); tf_NodeRoles : option (list string)
}.

Record AnchorStreamRequest : Type := MkStreamReq {
  st_Scope : string; st_Filter : option TopologyFilter; SinceVersion : option Z
}.

Record AnchorActionSpec : Type := MkSpec {
  sp_Description : string; ParamsAnchor : string; ResultAnchor : string; EstimatedCgn : Z; TimeoutMsDefault : Z;
  TimeoutMsMax : Z; RequiredCapability : string; sp_Async : bool; TopologyWrite : bool
}.

Record AnchorNodeOptions : Type := MkAnchorOptions {
  NodeID : string; PathPrefix : string; Actions : gmap string AnchorActionSpec; DisplayName : string;
  RequireAuth : option bool; an_RequiredCapabilities : option (list string); RequireTopologyCapability : bool;
  DefaultTimeoutMs : Z; MaxTimeoutMs : Z; DefaultTokenBudget : Z; CgnLimit : Z; AssuranceHintURL : string;
  an_ReputationPolicy : option ReputationPolicy; TrustAnchors : list string; RateLimits : option dict;
  AutoInjectTraceContext : option bool
}.

Record InvokeContext : Type := MkInvokeContext {
  ic_AgentNid : string; EffectiveTimeoutMs : Z; BudgetCgn : Z; TraceID : string; SpanID : string
}.

Record RateDecision : Type := MkRate { Allowed : bool; RetryAfterSeconds : Z; Reason : string }.

Record AnchorActionError : Type := MkActionError {
  ae_HTTPStatus : Z; ae_NpsStatus : string; ae_ErrorCode : string; ae_Message : string; ae_Details : any
}.

(** A request; a missing header reads as the empty string. *)
Record request : Type := MkRequest {
  rq_Path : string; rq_Method : string; rq_Header : string -> string; rq_Body : result string (list byte)
}.

Inductive resp_body : Type :=
| NoBody
| JsonBody (d : dict)
| RawBody (b : list byte)
| SnapshotBody (anchorRef : string) (snap : TopologySnapshot).

Record response : Type := MkResponse { rs_Status : Z; rs_Headers : list (string * string); rs_Body : resp_body }.

Inductive act : Type :=
| Respond (r : response)
| Line (d : dict)
| Callback (e : effect)
| Acquire (key : string) (cost : Z)
| Release (key : string)
| AskReputation (key assurance : string)
| Invoke (async : bool) (actionID : string) (params : list byte) (ic : InvokeContext)
| AskSnapshot (req : AnchorSnapshotRequest)
| AskSubscribe (req : AnchorStreamRequest).

(** ** Reading requests *)

Definition parseScope (topo : dict) : result TopologyProtocolError string :=
  let s := default "" (as_string (dict_at topo "scope")) in
  if String.eqb s "" then Ok scopeClusterWire
  else if String.eqb s scopeClusterWire || String.eqb s scopeMemberWire then Ok s
  else Err (MkTopologyError ErrTopologyUnsupportedScope "NPS-CLIENT-BAD-PARAM" ("unknown topology.scope '" +:+ s +:+ "'.")).

(** The strings of a [[]any]. *)
Definition as_string_list (v : any) : option (list string) :=
  match v with VSlice l => Some (omap as_string l) | _ => None end.

(** The keys that the map holds. *)
Definition parseInclude (topo : dict) : list string :=
  let known := ["members"; "capabilities"; "tags"; "metrics"] in
  let out := List.filter (fun s => mem_string s known) (default [] (as_string_list (dict_at topo "include"))) in
  match out with [] => ["members"] | _ => out end.

Definition parseDepth (topo : dict) : Z :=
  match dict_at topo "depth" with
  | VFloat64 d => if SFltb (S754_zero false) d then int64_of_float d else 1
  | _ => 1
  end.

Definition parseSnapshotRequest (body : dict) : result TopologyProtocolError AnchorSnapshotRequest :=
  match as_map (dict_at body "topology") with
  | None => Err (MkTopologyError ErrTopologyUnsupportedScope "NPS-CLIENT-BAD-PARAM"
                   "topology.snapshot requires a 'topology' object per NPS-2 §12.1.")
  | Some topo =>
      match parseScope topo with
      | Err e => Err e
      | Ok scope =>
          let targetNid := default "" (as_string (dict_at topo "target_nid")) in
          if String.eqb scope scopeMemberWire && String.eqb targetNid "" then
            Err (MkTopologyError ErrTopologyUnsupportedScope "NPS-CLIENT-BAD-PARAM"
                   ("topology.target_nid is required when topology.scope = " +:+ dquote +:+ "member" +:+ dquote +:+ "."))
          else Ok (MkSnapReq scope (parseInclude topo) (parseDepth topo) targetNid)
      end
  end.

(** The order of the list is the order in which the map is walked. *)
Fixpoint validateFilterKeys (f : dict) : option TopologyProtocolError :=
  match f with
  | [] => None
  | (k, _) :: r =>
      if mem_string k ["tags_any"; "tags_all"; "node_roles"] then validateFilterKeys r
      else if String.eqb k "node_kind" then
        Some (MkTopologyError ErrTopologyFilterUnsupported "NPS-CLIENT-BAD-PARAM"
                "topology.filter.node_kind expired after alpha.5; use node_roles.")
      else Some (MkTopologyError ErrTopologyFilterUnsupported "NPS-CLIENT-BAD-PARAM"
                   ("topology.filter key '" +:+ k +:+ "' is not recognized."))
  end.

Definition toStringSlice (v : any) : option (list string) := as_string_list v.

Definition as_float (v : any) : option float64 := match v with VFloat64 f => Some f | _ => None end.

(** [rand] names the stream when the request does not. *)
Definition parseStreamRequest (rand : string) (body : dict) : result TopologyProtocolError (AnchorStreamRequest * string) :=
  match as_map (dict_at body "topology") with
  | None => Err (MkTopologyError ErrTopologyUnsupportedScope "NPS-CLIENT-BAD-PARAM"
                   "topology.stream requires a 'topology' object per NPS-2 §12.2.")
  | Some topo =>
      match parseScope topo with
      | Err e => Err e
      | Ok scope =>
          let filter := match as_map (dict_at topo "filter") with
                        | None => Ok None
                        | Some f =>
                            match validateFilterKeys f with
                            | Some e => Err e
                            | None => Ok (Some (MkTopoFilter (toStringSlice (dict_at f "tags_any"))
                                                  (toStringSlice (dict_at f "tags_all")) (toStringSlice (dict_at f "node_roles"))))
                            end
                        end in
          match filter with
          | Err e => Err e
          | Ok filter =>
              let since := match as_float (dict_at topo "since_version") with
                           | Some f => Some (uint64_of_float f)
                           | None => uint64_of_float <$> as_float (dict_at body "resume_from_seq")
                           end in
              let streamID := default "" (as_string (dict_at body "stream_id")) in
              Ok (MkStreamReq scope filter since, if String.eqb streamID "" then rand else streamID)
          end
      end
  end.

(** A null document is a nil map, on which every lookup misses. *)
Definition inboundClusterEpoch (body : option dict) : option Z * string :=
  match body with
  | None => (None, "")
  | Some body =>
      let sender := default "" (as_string (dict_at body "anchor_nid")) in
      let sender := if String.eqb sender "" then default "" (as_string (dict_at body "sender_anchor_nid")) else sender in
      match dict_at body "cluster_epoch" with
      | VFloat64 x => (Some (uint64_of_float x), sender)
      | VInt KUint64 x => (Some x, sender)
      | VInt KInt64 x | VInt KInt x => (Some (u64 x), sender)
      | _ => (None, sender)
      end
  end.

(** ** The reference topology service *)

Record InMemoryAnchorTopologyService : Type := MkTopologyService {
  ts_Nid : string; ts_Members : list MemberInfo; ts_Version : Z; ts_Events : list TopologyEvent
}.

Definition GetSnapshot (s : InMemoryAnchorTopologyService) (req : AnchorSnapshotRequest) : TopologySnapshot :=
  MkSnapshot (ts_Version s) (ts_Nid s) (u32 (Z.of_nat (length (ts_Members s))))
    (if mem_string "members" (sr_Include req) then Some (ts_Members s) else None) None None.

Definition Subscribe (s : InMemoryAnchorTopologyService) (req : AnchorStreamRequest) : list TopologyEvent := ts_Events s.

(** ** Events on the wire *)

Definition memberToMap (m : MemberInfo) : dict :=
  let d := [("nid", VString (mi_Nid m)); ("node_roles", VStrings (mi_NodeRoles m));
            ("activation_mode", VString (mi_ActivationMode m))] in
  let opt {A} k (inj : A -> any) (o : option A) (d : dict) := match o with Some x => dict_set k (inj x) d | None => d end in
  opt "metrics" id (mi_Metrics m) (opt "capabilities" id (mi_Capabilities m) (opt "last_seen" VString (mi_LastSeen m)
    (opt "joined_at" VString (JoinedAt m) (opt "tags" VStrings (mi_Tags m) (opt "member_count" (VInt KUint32) (mi_MemberCount m)
      (opt "child_anchor" VBool (ChildAnchor m) d)))))).

(** The document of a [MemberChanges]: empty members are omitted. *)
Definition changes_map (c : MemberChanges) : dict :=
  let opt {A} k (inj : A -> any) (o : option A) := match o with Some x => [(k, inj x)] | None => [] end in
  let lst k (o : option (list string)) := match o with Some (_ :: _ as l) => [(k, VStrings l)] | _ => [] end in
  lst "node_roles" (mc_NodeRoles c) ++ opt "activation_mode" VString (mc_ActivationMode c) ++ lst "tags" (mc_Tags c) ++
  opt "member_count" (VInt KUint32) (mc_MemberCount c) ++ opt "last_seen" VString (mc_LastSeen c) ++
  opt "capabilities" id (mc_Capabilities c) ++ opt "metrics" id (mc_Metrics c).

(** The payload and whether it carries a sequence number; an event whose kind does
    not match its payload dereferences a nil pointer. *)
Definition event_payload (ev : TopologyEvent) : go_result (dict * bool) :=
  let panic := Err (ErrPanic "nil pointer dereference") in
  if String.eqb (Kind ev) "member_joined" then
    match e_payload ev with MemberJoined m => Ok (memberToMap m, true) | _ => panic end
  else if String.eqb (Kind ev) "member_left" then
    match e_payload ev with MemberLeft nid => Ok ([("nid", VString nid)], true) | _ => panic end
  else if String.eqb (Kind ev) "member_updated" then
    match e_payload ev with
    | MemberUpdated nid c => Ok ([("nid", VString nid); ("changes", VMap (changes_map c))], true)
    | _ => panic
    end
  else if String.eqb (Kind ev) "anchor_state" then
    match e_payload ev with
    | AnchorState e => Ok ([("field", VString (as_Field e)); ("details", match as_Details e with Some d => VMap d | None => VNil end)], true)
    | _ => panic
    end
  else if String.eqb (Kind ev) "resync_required" then
    match e_payload ev with ResyncRequired reason => Ok ([("reason", VString reason)], false) | _ => panic end
  else Ok ([], true).

Section Wire.
Context `{GoJSON}.

Definition eventToEnvelope (timestamp streamID : string) (ev : TopologyEvent) : go_result dict :=
  match event_payload ev with
  | Err e => Err e
  | Ok (payload, includeSeq) =>
      let cgnEst := Z.max 1 (Z.of_nat (length (marshal_or_nil payload)) / 4) in
      let env := [("stream_id", VString streamID); ("event_type", VString (Kind ev)); ("timestamp", VString timestamp);
                  ("payload", VMap payload); ("cgn_est", VInt KInt cgnEst)] in
      Ok (if includeSeq then env ++ [("seq", VInt KUint64 (e_Version ev))] else env)
  end.

(** The lines of a stream: a resync ends it, a panic cuts it. *)
Fixpoint stream_lines (timestamp streamID : string) (evs : list TopologyEvent) : list act :=
  match evs with
  | [] => []
  | ev :: r =>
      match eventToEnvelope timestamp streamID ev with
      | Err _ => []
      | Ok d => Line d :: (if String.eqb (Kind ev) eventResyncWire then [] else stream_lines timestamp streamID r)
      end
  end.
End Wire.

(** ** Limits *)

Definition clampTimeout (o : AnchorNodeOptions) (requested : Z) (spec : AnchorActionSpec) : Z :=
  let maxOpt := if MaxTimeoutMs o =? 0 then 300000 else MaxTimeoutMs o in
  let specMax := if TimeoutMsMax spec =? 0 then maxOpt else TimeoutMsMax spec in
  let hardMax := if maxOpt <? specMax then maxOpt else specMax in
  if requested <=? 0 then
    if 0 <? TimeoutMsDefault spec then TimeoutMsDefault spec
    else if 0 <? DefaultTimeoutMs o then DefaultTimeoutMs o else 30000
  else if hardMax <? requested then hardMax else requested.

(** [strconv.Atoi]. *)
Definition Atoi (s : string) : option Z := let '(v, ok) := Number_Int64 s in if ok then Some v else None.

Definition readEffectiveBudget (o : AnchorNodeOptions) (r : request) : Z :=
  let raw := rq_Header r HeaderBudget in
  let agentBudget := if String.eqb raw "" then DefaultTokenBudget o else default (DefaultTokenBudget o) (Atoi raw) in
  if CgnLimit o =? 0 then agentBudget
  else if agentBudget =? 0 then CgnLimit o
  else if CgnLimit o <? agentBudget then CgnLimit o else agentBudget.

(** ** Responses *)

Definition writeError (status : Z) (npsStatus errorCode message : string) (details : any) (extra : list (string * string)) : act :=
  let env := [("status", VString npsStatus); ("error", VString errorCode); ("message", VString message)] ++
             match details with VNil => [] | d => [("details", d)] end in
  Respond (MkResponse status (extra ++ [("Content-Type", "application/json")]) (JsonBody env)).

Definition writeTopologyError (e : TopologyProtocolError) : act :=
  let status := if String.eqb (te_NpsStatus e) "" then 400 else ToHttpStatus (te_NpsStatus e) in
  writeError status (te_NpsStatus e) (te_NwpErrorCode e) (te_Message e) VNil [].

(** [None] lets the request pass. *)
Definition applyReputation (o : AnchorNodeOptions) (d : ReputationDecision) (policy : ReputationPolicy)
    (assurance : AssuranceLevel) : option act :=
  let '(incident, severity) := match MatchedRule d with Some r => (r_Incident r, r_Severity r) | None => ("", "") end in
  let details := if String.eqb incident "" then VNil
                 else VMap [("matched_incident", VString incident); ("matched_severity", VString severity)] in
  match Outcome d with
  | RepAccept => None
  | RepBan =>
      let msg := if String.eqb incident "" then "Request rejected: NID temporarily banned."
                 else "Request rejected: " +:+ incident +:+ " (" +:+ severity +:+ ") — NID temporarily banned." in
      Some (writeError 403 "NPS-AUTH-FORBIDDEN" ErrReputationBanned msg details [])
  | RepReject =>
      if String.eqb (d_ErrorCode d) ErrAuthAssuranceTooLow then
        let minLevel := if String.eqb (MinAssuranceLevel policy) "" then "anonymous" else MinAssuranceLevel policy in
        Some (writeError 403 "NPS-AUTH-FORBIDDEN" ErrAuthAssuranceTooLow
          ("Assurance level too low: requires '" +:+ minLevel +:+ "', caller declared '" +:+ Wire assurance +:+ "'.")
          (VMap [("matched_incident", VNil); ("hint", VString (AssuranceHintURL o))]) [])
      else
        let msg := if String.eqb incident "" then "Request rejected by reputation policy."
                   else "Request rejected: " +:+ incident +:+ " (" +:+ severity +:+ ")." in
        Some (writeError 403 "NPS-AUTH-FORBIDDEN" ErrReputationRejected msg details [])
  | RepThrottle =>
      let msg := if String.eqb incident "" then "Request rate-limited by reputation policy."
                 else "Request rate-limited: " +:+ incident +:+ " (" +:+ severity +:+ ")." in
      Some (writeError 429 "NPS-CLIENT-RATE-LIMITED" ErrReputationThrottled msg details [("Retry-After", "60")])
  end.

(** ** Manifests *)

Definition action_entry (id : string) (spec : AnchorActionSpec) : dict :=
  let str k s := if String.eqb s "" then [] else [(k, VString s)] in
  let num k z := if z =? 0 then [] else [(k, VInt KInt z)] in
  [("action_id", VString id); ("async", VBool (sp_Async spec))] ++ str "description" (sp_Description spec) ++
  str "params_anchor" (ParamsAnchor spec) ++ str "result_anchor" (ResultAnchor spec) ++ num "cgn_est" (EstimatedCgn spec) ++
  num "timeout_ms_default" (TimeoutMsDefault spec) ++ num "timeout_ms_max" (TimeoutMsMax spec) ++
  str "required_capability" (RequiredCapability spec).

Definition actionsMap (o : AnchorNodeOptions) : dict :=
  (fun '(id, spec) => (id, VMap (action_entry id spec))) <$> map_to_list (Actions o).

Definition rule_map (r : ReputationRule) : dict :=
  [("incident", VString (r_Incident r)); ("severity", VString (r_Severity r))] ++
  match WithinDays r with Some n => [("within_days", VInt KUint n)] | None => [] end ++
  (if r_Count r =? 0 then [] else [("count", VInt KUint (r_Count r))]).

Definition reputationPolicyToMap (p : ReputationPolicy) : dict :=
  [("enabled", VBool (Enabled p)); ("log_sources", VStrings (LogSources p));
   ("min_assurance_level", VString (MinAssuranceLevel p)); ("cache_ttl_seconds", VInt KUint (CacheTtlSeconds p));
   ("ban_ttl_seconds", VInt KUint (BanTtlSeconds p)); ("on_log_unavailable", VString (OnLogUnavailable p));
   ("throttle_on", VMaps (rule_map <$> ThrottleOn p)); ("reject_on", VMaps (rule_map <$> RejectOn p));
   ("ban_on", VMaps (rule_map <$> BanOn p))].

Definition requireAuth (o : AnchorNodeOptions) : bool := default true (RequireAuth o).

Definition buildManifest (o : AnchorNodeOptions) (base : string) : dict :=
  [("nwp", VString "0.4"); ("node_id", VString (NodeID o)); ("node_type", VString "anchor")] ++
  (if String.eqb (DisplayName o) "" then [] else [("display_name", VString (DisplayName o))]) ++
  [("wire_formats", VStrings ["ncp-capsule"; "json"]); ("preferred_format", VString "json");
   ("capabilities", VMap [("query", VBool false); ("stream", VBool false); ("subscribe", VBool false);
      ("vector_search", VBool false); ("token_budget_hint", VBool true); ("ext_frame", VBool false)]);
   ("auth", VMap ([("required", VBool (requireAuth o));
      ("identity_type", VString (if requireAuth o then "nip-cert" else "none"))] ++
      match an_RequiredCapabilities o with Some l => [("required_capabilities", VStrings l)] | None => [] end));
   ("endpoints", VMap [("invoke", VString (base +:+ "/invoke")); ("schema", VString (base +:+ "/.schema"))])] ++
  (if 0 <? CgnLimit o then [("token_budget", VMap [("cgn_limit", VInt KInt (CgnLimit o)); ("profile", VString "cgn.v1")])] else []) ++
  match RateLimits o with Some d => [("rate_limits", VMap d)] | None => [] end ++
  match an_ReputationPolicy o with
  | Some p => if Enabled p then [("reputation_policy", VMap (reputationPolicyToMap p))] else []
  | None => []
  end ++
  match TrustAnchors o with [] => [] | l => [("trust_anchors", VStrings l)] end ++
  [("actions", VSlice ((fun id => dict_at (actionsMap o) id) <$> sort_strings ((map_to_list (Actions o)).*1)))].

(** ** The server *)

Record invokeBody : Type := MkInvokeBody { ib_ActionID : string; ib_Params : list byte; ib_Async : bool; ib_TimeoutMs : Z }.

(** What the host supplies and what it answers. *)
Record world : Type := MkWorld {
  w_limiter : string -> Z -> RateDecision;
  w_evaluator : option (string -> string -> result string ReputationDecision);
  w_handler : option (string -> list byte -> InvokeContext -> result (option AnchorActionError) any);
  w_snapshot : option (AnchorSnapshotRequest -> result (option TopologyProtocolError) TopologySnapshot);
  w_subscribe : AnchorStreamRequest -> result string (list TopologyEvent);
  w_trace : string; w_span : string; w_task : string; w_stream : string; w_timestamp : string
}.

Section Server.
Context `{GoJSON}.
(** [json.Unmarshal] into a map, with what the variable holds afterwards ([None] is a
    nil map) next to the error, and into [invokeBody]. *)
Context (unmarshal_map : list byte -> option dict * option string) (unmarshal_invoke : list byte -> result string invokeBody).
Context (o : AnchorNodeOptions) (w : world).

Definition prefix : string := trim_slashes (PathPrefix o).
Definition nwmJSON : list byte := marshal_or_nil (buildManifest o prefix).
Definition actionsJSON : list byte := marshal_or_nil [("actions", VMap (actionsMap o))].

(** A handler's acts and the guard it leaves. *)
Abbreviation outcome := (list act * option AnchorEpochGuard)%type.

Definition guardInbound (g : option AnchorEpochGuard) (body : option dict) (isTopologyWrite : bool) :
    option act * list act * option AnchorEpochGuard :=
  match g with
  | None => (None, [], None)
  | Some g =>
      let '(inbound, sender) := inboundClusterEpoch body in
      let '(perr, g, effs) := OnInboundFrame g inbound sender isTopologyWrite in
      (writeTopologyError <$> perr, Callback <$> effs, Some g)
  end.

Definition readJSON (r : request) : result string (option dict) :=
  match rq_Body r with
  | Err e => Err e
  | Ok raw =>
      match raw with
      | [] => Ok (Some [])
      | _ => let '(m, err) := unmarshal_map raw in match err with Some e => Err e | None => Ok m end
      end
  end.

Definition checkTopologyCapability (r : request) : option act :=
  if negb (RequireTopologyCapability o) then None
  else if existsb (fun c => EqualFold (trim_space c) "topology:read") (split_on (chr 44) (rq_Header r HeaderCapabilities)) then None
  else Some (writeError 403 "NPS-AUTH-FORBIDDEN" ErrTopologyUnauthorized
         "Caller must declare 'topology:read' in X-NWP-Capabilities to access topology endpoints." VNil []).

Definition extractIdentAssurance (r : request) : AssuranceLevel :=
  let raw := rq_Header r HeaderIdent in
  if String.eqb raw "" then AssuranceAnonymous
  else match unmarshal_map (bytes_of_string raw) with
       | (_, Some _) => AssuranceAnonymous
       | (doc, None) =>
           match as_string (dict_at (default [] doc) "assurance_level") with
           | Some lvl => match AssuranceFromWire lvl with Ok a => a | Err _ => AssuranceAnonymous end
           | None => AssuranceAnonymous
           end
       end.

(** The reserved type of a topology request. *)
Definition typed (route wire : string) (body : dict) : option act :=
  match dict_at body "type" with
  | VString t => if String.eqb t wire then None
                 else Some (writeError 501 "NPS-SERVER-UNSUPPORTED" ErrReservedTypeUnsupported
                        (if String.eqb t "" then "Anchor /" +:+ route +:+ " requires a reserved type per NPS-2 §12."
                         else "Reserved " +:+ route +:+ " type '" +:+ t +:+ "' is not implemented by this Anchor Node.") VNil [])
  | _ => Some (writeError 501 "NPS-SERVER-UNSUPPORTED" ErrReservedTypeUnsupported
           ("Anchor /" +:+ route +:+ " requires a reserved type per NPS-2 §12.") VNil [])
  end.

Definition handleQuery (g : option AnchorEpochGuard) (r : request) : outcome :=
  match checkTopologyCapability r with
  | Some e => ([e], g)
  | None =>
      match readJSON r with
      | Err e => ([writeError 400 "NPS-CLIENT-BAD-REQUEST" ErrQueryFilterInvalid e VNil []], g)
      | Ok body =>
          match guardInbound g body false with
          | (Some e, effs, g) => (effs ++ [e], g)
          | (None, effs, g) =>
              match typed "query" typeSnapshotWire (default [] body) with
              | Some e => (effs ++ [e], g)
              | None =>
                  match w_snapshot w with
                  | None => (effs ++ [writeError 501 "NPS-SERVER-UNSUPPORTED" ErrNodeUnavailable
                               "topology.snapshot is not available — no topology service registered." VNil []], g)
                  | Some get =>
                      match parseSnapshotRequest (default [] body) with
                      | Err e => (effs ++ [writeTopologyError e], g)
                      | Ok req =>
                          match get req with
                          | Err (Some e) => (effs ++ [AskSnapshot req; writeTopologyError e], g)
                          | Err None => (effs ++ [AskSnapshot req; writeError 500 "NPS-SERVER-INTERNAL" ErrNodeUnavailable
                                           "topology snapshot failed." VNil []], g)
                          | Ok snap =>
                              (effs ++ [AskSnapshot req; Respond (MkResponse 200
                                 [("Content-Type", MimeCapsule); (HeaderNodeType, "anchor"); (HeaderSchema, snapshotAnchorRef)]
                                 (SnapshotBody snapshotAnchorRef (StampSnapshot g snap)))], g)
                          end
                      end
                  end
              end
          end
      end
  end.

Definition handleSubscribe (g : option AnchorEpochGuard) (r : request) : outcome :=
  match checkTopologyCapability r with
  | Some e => ([e], g)
  | None =>
      match readJSON r with
      | Err e => ([writeError 400 "NPS-CLIENT-BAD-REQUEST" ErrQueryFilterInvalid e VNil []], g)
      | Ok body =>
          match guardInbound g body false with
          | (Some e, effs, g) => (effs ++ [e], g)
          | (None, effs, g) =>
              match typed "subscribe" typeStreamWire (default [] body) with
              | Some e => (effs ++ [e], g)
              | None =>
                  match w_snapshot w with
                  | None => (effs ++ [writeError 501 "NPS-SERVER-UNSUPPORTED" ErrNodeUnavailable
                               "topology.stream is not available — no topology service registered." VNil []], g)
                  | Some _ =>
                      match parseStreamRequest (w_stream w) (default [] body) with
                      | Err e => (effs ++ [writeTopologyError e], g)
                      | Ok (req, streamID) =>
                          match w_subscribe w req with
                          | Err _ => (effs ++ [AskSubscribe req; writeError 500 "NPS-SERVER-INTERNAL" ErrNodeUnavailable
                                        "topology stream failed." VNil []], g)
                          | Ok evs =>
                              let ack := [("kind", VString "ack"); ("stream_id", VString streamID); ("status", VString "subscribed");
                                          ("last_seq", VInt KInt 0); ("resumed", VBool (bool_decide (SinceVersion req <> None)))] ++
                                         match g with Some g => [("cluster_epoch", VInt KUint64 (OwnEpoch g))] | None => [] end in
                              (effs ++ [AskSubscribe req; Respond (MkResponse 200
                                 [("Content-Type", MimeCapsule); (HeaderNodeType, "anchor")] NoBody); Line ack] ++
                               stream_lines (w_timestamp w) streamID evs, g)
                          end
                      end
                  end
              end
          end
      end
  end.

(** *** /invoke *)

(** The body and the declared action, or the refusal. *)
Definition invoke_frame (r : request) : result act (list byte * invokeBody * AnchorActionSpec) :=
  match rq_Body r with
  | Err e => Err (writeError 400 "NPS-CLIENT-BAD-REQUEST" ErrActionParamsInvalid e VNil [])
  | Ok raw =>
      let invalid := Err (writeError 400 "NPS-CLIENT-BAD-REQUEST" ErrActionParamsInvalid
                            "invalid ActionFrame: missing action_id." VNil []) in
      match unmarshal_invoke raw with
      | Err _ => invalid
      | Ok frame =>
          if String.eqb (ib_ActionID frame) "" then invalid
          else match Actions o !! ib_ActionID frame with
               | None => Err (writeError 404 "NPS-CLIENT-NOT-FOUND" ErrActionNotFound
                                ("Unknown action_id '" +:+ ib_ActionID frame +:+ "'.") VNil [])
               | Some spec =>
                   if ib_Async frame && negb (sp_Async spec) then
                     Err (writeError 400 "NPS-CLIENT-BAD-REQUEST" ErrActionParamsInvalid
                            ("action '" +:+ ib_ActionID frame +:+ "' does not support async execution.") VNil [])
                   else Ok (raw, frame, spec)
               end
      end
  end.

(** The answer to a caller that the limiter refuses. *)
Definition rate_refusal (rate : RateDecision) : act :=
  writeError 429 "NPS-LIMIT-RATE" ErrBudgetExceeded (if String.eqb (Reason rate) "" then "rate limit exceeded." else Reason rate) VNil
    (if 0 <? RetryAfterSeconds rate then [("Retry-After", fmt_d (RetryAfterSeconds rate))] else []).

(** The reputation gate: its acts, and the refusal if there is one. *)
Definition reputation_gate (consumerKey : string) (assurance : AssuranceLevel) : list act * option act :=
  match an_ReputationPolicy o, w_evaluator w with
  | Some policy, Some evaluate =>
      if negb (Enabled policy) then ([], None)
      else ([AskReputation consumerKey (Wire assurance)],
            match evaluate consumerKey (Wire assurance) with
            | Err _ => Some (writeError 500 "NPS-SERVER-INTERNAL" ErrNodeUnavailable "reputation evaluation failed." VNil [])
            | Ok decision => applyReputation o decision policy assurance
            end)
  | _, _ => ([], None)
  end.

Definition budget_gate (budgetCgn cost : Z) : option act :=
  if (0 <? budgetCgn) && (0 <? cost) && (budgetCgn <? cost) then
    Some (writeError 400 "NPS-CLIENT-REQUEST-TOO-LARGE" ErrCgnLimitExceeded "estimated CGN exceeds effective budget."
            (VMap [("effective_budget", VInt KInt budgetCgn); ("estimated_cgn", VInt KInt cost)]) [])
  else None.

Definition invoke_context (r : request) (timeout budget : Z) : InvokeContext :=
  let auto := default true (AutoInjectTraceContext o) in
  MkInvokeContext (rq_Header r HeaderAgent) timeout budget (if auto then w_trace w else "") (if auto then w_span w else "").

(** Call the handler and answer. *)
Definition run_handler (handler : string -> list byte -> InvokeContext -> result (option AnchorActionError) any)
    (frame : invokeBody) (spec : AnchorActionSpec) (ic : InvokeContext) : list act :=
  let call := Invoke (ib_Async frame) (ib_ActionID frame) (ib_Params frame) ic in
  if ib_Async frame then
    [call; Respond (MkResponse 202 [("Content-Type", "application/json"); (HeaderNodeType, "anchor")]
       (JsonBody [("task_id", VString (w_task w)); ("status", VString "pending"); ("poll_url", VString (prefix +:+ "/invoke"))]))]
  else
    match handler (ib_ActionID frame) (ib_Params frame) ic with
    | Err (Some e) => [call; writeError (ae_HTTPStatus e) (ae_NpsStatus e) (ae_ErrorCode e) (ae_Message e) (ae_Details e) []]
    | Err None => [call; writeError 500 "NPS-SERVER-INTERNAL" ErrNodeUnavailable "anchor task execution failed." VNil []]
    | Ok result =>
        let '(count, data) := match result with VNil => (0, []) | v => (1, [v]) end in
        [call; Respond (MkResponse 200
           ([("Content-Type", MimeCapsule); (HeaderNodeType, "anchor")] ++
            (if String.eqb (ResultAnchor spec) "" then [] else [(HeaderSchema, ResultAnchor spec)]) ++
            (if 0 <? EstimatedCgn spec then [(HeaderTokens, fmt_d (EstimatedCgn spec))] else []))
           (JsonBody [("anchor_ref", VString (ResultAnchor spec)); ("count", VInt KInt count); ("data", VSlice data)]))]
    end.

(** What happens between the acquisition of the rate token and its release. *)
Definition admitted_acts (r : request) (frame : invokeBody) (spec : AnchorActionSpec) (consumerKey : string) : list act :=
  let effectiveTimeout := clampTimeout o (ib_TimeoutMs frame) spec in
  let budgetCgn := readEffectiveBudget o r in
  let '(acts, refusal) := reputation_gate consumerKey (extractIdentAssurance r) in
  acts ++
  match refusal with
  | Some e => [e]
  | None =>
      match budget_gate budgetCgn (EstimatedCgn spec) with
      | Some e => [e]
      | None =>
          match w_handler w with
          | None => [writeError 501 "NPS-SERVER-UNSUPPORTED" ErrNodeUnavailable
                       "no invoke handler registered on this Anchor Node." VNil []]
          | Some handler => run_handler handler frame spec (invoke_context r effectiveTimeout budgetCgn)
          end
      end
  end.

Definition consumer_key (r : request) : string :=
  if String.eqb (rq_Header r HeaderAgent) "" then "anonymous" else rq_Header r HeaderAgent.

Definition handleInvoke (g : option AnchorEpochGuard) (r : request) : outcome :=
  match invoke_frame r with
  | Err e => ([e], g)
  | Ok (raw, frame, spec) =>
      let body := (unmarshal_map raw).1 in
      match guardInbound g body (TopologyWrite spec) with
      | (Some e, effs, g) => (effs ++ [e], g)
      | (None, effs, g) =>
          let consumerKey := consumer_key r in
          let rate := w_limiter w consumerKey (EstimatedCgn spec) in
          (effs ++ Acquire consumerKey (EstimatedCgn spec) ::
           (if negb (Allowed rate) then [rate_refusal rate]
            else admitted_acts r frame spec consumerKey ++ [Release consumerKey]), g)
      end
  end.

(** *** Routing *)

Definition isKnownRoute (sub : string) : bool :=
  mem_string sub ["/.nwm"; "/.nwm/"; "/.schema"; "/.schema/"; "/actions"; "/actions/"; "/invoke"; "/invoke/"; "/query"; "/query/";
                  "/subscribe"; "/subscribe/"].

Definition post (r : request) (k : outcome) (g : option AnchorEpochGuard) : outcome :=
  if String.eqb (rq_Method r) "POST" then k else ([Respond (MkResponse 405 [] NoBody)], g).

Definition ServeHTTP (g : option AnchorEpochGuard) (r : request) : outcome :=
  match cut_prefix prefix (rq_Path r) with
  | None => ([writeError 404 "NPS-CLIENT-NOT-FOUND" ErrActionNotFound "no NWP node at this path." VNil []], g)
  | Some sub =>
      if negb (isKnownRoute sub) then
        ([writeError 404 "NPS-CLIENT-NOT-FOUND" ErrActionNotFound "unknown anchor sub-path." VNil []], g)
      else if requireAuth o && String.eqb (rq_Header r HeaderAgent) "" then
        ([writeError 401 "NPS-AUTH-UNAUTHENTICATED" ErrAuthNidScopeViolation "X-NWP-Agent header is required." VNil []], g)
      else if mem_string sub ["/.nwm"; "/.nwm/"] then
        ([Respond (MkResponse 200 [("Content-Type", MimeManifest); (HeaderNodeType, "anchor")] (RawBody nwmJSON))], g)
      else if mem_string sub ["/.schema"; "/.schema/"; "/actions"; "/actions/"] then
        ([Respond (MkResponse 200 [("Content-Type", "application/json")] (RawBody actionsJSON))], g)
      else if mem_string sub ["/invoke"; "/invoke/"] then post r (handleInvoke g r) g
      else if mem_string sub ["/query"; "/query/"] then post r (handleQuery g r) g
      else if mem_string sub ["/subscribe"; "/subscribe/"] then post r (handleSubscribe g r) g
      else ([writeError 404 "NPS-CLIENT-NOT-FOUND" ErrActionNotFound "unknown anchor sub-path." VNil []], g)
  end.
End Server.
