(* ===== verification/NwpAnchorProof.v ===== *)
(** * What the anchor server guarantees

    Which requests reach the invoke handler, that every granted rate token is
    released, that every request is answered once, and that a fenced server executes
    no topology write. *)

From S2P Require Import Prelude GoValue CoreCodec CoreStatus CoreCache NipFrames NwpReputation NwpEpoch NwpAnchor.

(** ** Traces *)

Definition calls (l : list act) : list (bool * string * list byte * InvokeContext) :=
  omap (fun a => match a with Invoke b id p ic => Some (b, id, p, ic) | _ => None end) l.
Definition responses (l : list act) : list response := omap (fun a => match a with Respond r => Some r | _ => None end) l.
Definition releases (l : list act) : list string := omap (fun a => match a with Release k => Some k | _ => None end) l.

(** The acts of the epoch guard are callbacks. *)
Definition quiet (l : list act) : Prop := calls l = [] /\ releases l = [] /\ responses l = [].

Section Server.
Context `{GoJSON} (unmarshal_map : list byte -> option dict * option string) (unmarshal_invoke : list byte -> result string invokeBody).
Context (o : AnchorNodeOptions) (w : world).

Abbreviation invoke := (handleInvoke unmarshal_map unmarshal_invoke o w).
Abbreviation query := (handleQuery unmarshal_map o w).
Abbreviation subscribe := (handleSubscribe unmarshal_map o w).
Abbreviation serve := (ServeHTTP unmarshal_map unmarshal_invoke o w).

(** The keys whose acquisition the limiter allowed. *)
Definition granted (l : list act) : list string :=
  omap (fun a => match a with Acquire k c => if Allowed (w_limiter w k c) then Some k else None | _ => None end) l.

(** ** Admission *)

(** The guard lets a frame pass: the anchor is not superseded, and a topology write
    needs an active anchor with quorum. *)
Definition guard_passes (g : option AnchorEpochGuard) (body : option dict) (isWrite : bool) : Prop :=
  match g with
  | None => True
  | Some g => default 1 (inboundClusterEpoch body).1 <= ownEpoch g /\
              (isWrite = true -> standby g = false /\ degraded g = false)
  end.

Definition reputation_accepts (key assurance : string) : Prop :=
  forall policy evaluate, an_ReputationPolicy o = Some policy -> w_evaluator w = Some evaluate -> Enabled policy = true ->
    exists d, evaluate key assurance = Ok d /\ Outcome d = RepAccept.

Definition decoded_body (raw : list byte) : option dict := (unmarshal_map raw).1.

Definition admitted (g : option AnchorEpochGuard) (r : request) (frame : invokeBody) (spec : AnchorActionSpec) : Prop :=
  (exists raw, rq_Body r = Ok raw /\ unmarshal_invoke raw = Ok frame /\ guard_passes g (decoded_body raw) (TopologyWrite spec)) /\
  ib_ActionID frame <> "" /\ Actions o !! ib_ActionID frame = Some spec /\ (ib_Async frame = true -> sp_Async spec = true) /\
  Allowed (w_limiter w (consumer_key r) (EstimatedCgn spec)) = true /\
  reputation_accepts (consumer_key r) (Wire (extractIdentAssurance unmarshal_map r)) /\
  ~ (0 < readEffectiveBudget o r < EstimatedCgn spec) /\ is_Some (w_handler w).

(** ** Acts of the parts *)

Lemma quiet_callbacks effs : quiet (Callback <$> effs).
Proof. unfold quiet, calls, releases, responses. by induction effs. Qed.

Lemma granted_callbacks effs : granted (Callback <$> effs) = [].
Proof. unfold granted. by induction effs. Qed.

Lemma calls_app a b : calls (a ++ b) = calls a ++ calls b.
Proof. apply omap_app. Qed.
Lemma responses_app a b : responses (a ++ b) = responses a ++ responses b.
Proof. apply omap_app. Qed.
Lemma releases_app a b : releases (a ++ b) = releases a ++ releases b.
Proof. apply omap_app. Qed.
Lemma granted_app a b : granted (a ++ b) = granted a ++ granted b.
Proof. apply omap_app. Qed.

Lemma calls_acquire k c l : calls (Acquire k c :: l) = calls l.
Proof. done. Qed.
Lemma releases_acquire k c l : releases (Acquire k c :: l) = releases l.
Proof. done. Qed.
Lemma responses_acquire k c l : responses (Acquire k c :: l) = responses l.
Proof. done. Qed.
Lemma granted_acquire k c l : granted (Acquire k c :: l) = (if Allowed (w_limiter w k c) then [k] else []) ++ granted l.
Proof. unfold granted. cbn. by destruct (Allowed _). Qed.

(** A refusal is an error response. *)
Definition refuses (a : act) : Prop := exists r, a = Respond r.

Lemma writeError_refuses s n c m d x : refuses (writeError s n c m d x).
Proof. by eexists. Qed.

Lemma guard_spec g body isWrite :
  let '(e, effs, g') := guardInbound g body isWrite in
  quiet effs /\ granted effs = [] /\ (e = None <-> guard_passes g body isWrite) /\ (forall a, e = Some a -> refuses a) /\
  (forall g0, g = Some g0 -> exists g1, g' = Some g1 /\ ownEpoch g1 = ownEpoch g0 /\ degraded g1 = degraded g0 /\
    (standby g0 = true -> standby g1 = true)).
Proof.
  unfold guardInbound, guard_passes. destruct g as [g|]; [|split_and!; [done|done|done|done|done]].
  destruct (inboundClusterEpoch body) as [inbound sender]. unfold OnInboundFrame. cbn [fst].
  destruct (Z.ltb_spec (ownEpoch g) (default 1 inbound)).
  - cbn [fmap option_fmap option_map]. split_and!; [apply quiet_callbacks|apply granted_callbacks| |intros a [= <-]; apply writeError_refuses|].
    + split; [done|]. intros [? _]. lia.
    + intros g0 [= <-]. by eexists.
  - destruct isWrite, (standby g) eqn:Es, (degraded g) eqn:Ed; cbn; split_and!; try done;
      try (intros a [= <-]; apply writeError_refuses); try (intros g0 [= <-]; by eexists);
      (split; [done|]); intros [_ Hw]; by destruct (Hw eq_refl).
Qed.

Lemma applyReputation_spec d policy a : 
  (applyReputation o d policy a = None <-> Outcome d = RepAccept) /\
  (forall x, applyReputation o d policy a = Some x -> refuses x).
Proof.
  unfold applyReputation. destruct (match MatchedRule d with Some r => _ | None => _ end) as [incident severity].
  destruct (Outcome d); cbn; try (split; [done|]; intros x [= <-]; apply writeError_refuses).
  destruct (String.eqb (d_ErrorCode d) _); (split; [done|]); intros x [= <-]; apply writeError_refuses.
Qed.

Lemma reputation_spec key a :
  let '(acts, e) := reputation_gate o w key a in
  quiet acts /\ granted acts = [] /\ (e = None <-> reputation_accepts key (Wire a)) /\ (forall x, e = Some x -> refuses x).
Proof.
  unfold reputation_gate, reputation_accepts. destruct (an_ReputationPolicy o) as [policy|]; [|by split_and!].
  destruct (w_evaluator w) as [ev|]; [|by split_and!]. destruct (Enabled policy) eqn:Ee; cbn [negb].
  2: { split_and!; [done..| |done]. split; [|done]. intros _ ? ? [= <-] _. congruence. }
  destruct (ev key (Wire a)) as [d|err] eqn:Ed.
  - destruct (applyReputation_spec d policy a) as [Hd Hx]. split_and!; [done..| |done]. rewrite Hd. split.
    + intros Ho ? ? [= <-] [= <-] _. eauto.
    + intros Hf. destruct (Hf policy ev eq_refl eq_refl Ee) as (d' & E & ?). congruence.
  - split_and!; [done..| |intros x [= <-]; apply writeError_refuses]. split; [done|]. intros Hf.
    destruct (Hf policy ev eq_refl eq_refl Ee) as (d' & E & ?). congruence.
Qed.

Lemma run_handler_spec handler frame spec ic :
  let acts := run_handler o w handler frame spec ic in
  calls acts = [(ib_Async frame, ib_ActionID frame, ib_Params frame, ic)] /\ releases acts = [] /\ granted acts = [] /\
  length (responses acts) = 1%nat.
Proof.
  cbv zeta. unfold run_handler. cbv zeta. destruct (ib_Async frame); [done|].
  destruct (handler _ _ _) as [v|[e|]]; [|done|done]. by destruct (match v with VNil => _ | _ => _ end).
Qed.

(** ** Invocation *)

(** The context that an admitted request is run with. *)
Definition context_of (r : request) (frame : invokeBody) (spec : AnchorActionSpec) : InvokeContext :=
  invoke_context o w r (clampTimeout o (ib_TimeoutMs frame) spec) (readEffectiveBudget o r).

Lemma refusal_acts a : refuses a -> calls [a] = [] /\ releases [a] = [] /\ granted [a] = [] /\ length (responses [a]) = 1%nat.
Proof. by intros [r ->]. Qed.

Lemma budget_spec b c :
  (budget_gate b c = None <-> ~ (0 < b < c)) /\ (forall a, budget_gate b c = Some a -> refuses a).
Proof.
  unfold budget_gate. destruct (_ && _ && _) eqn:E; split; try done.
  - split; [done|]. bool_hyps. lia.
  - intros a [= <-]. apply writeError_refuses.
  - split; [intros _ [? ?]|done]. rewrite !(proj2 (Z.ltb_lt _ _)) in E by lia. done.
Qed.

(** Between the grant and the release. *)
Lemma admitted_acts_spec r frame spec key :
  let acts := admitted_acts unmarshal_map o w r frame spec key in
  let ok := reputation_accepts key (Wire (extractIdentAssurance unmarshal_map r)) /\
            ~ (0 < readEffectiveBudget o r < EstimatedCgn spec) /\ is_Some (w_handler w) in
  releases acts = [] /\ granted acts = [] /\ length (responses acts) = 1%nat /\
  (ok -> calls acts = [(ib_Async frame, ib_ActionID frame, ib_Params frame, context_of r frame spec)]) /\
  (calls acts = [] \/ ok).
Proof.
  cbv zeta. unfold admitted_acts. pose proof (reputation_spec key (extractIdentAssurance unmarshal_map r)) as Hr.
  destruct (reputation_gate _ _ _ _) as [acts e]. destruct Hr as ((Hc & Hl & Hp) & Hg & He & Hx).
  rewrite calls_app, releases_app, granted_app, responses_app, Hc, Hl, Hp, Hg. cbn [app].
  destruct e as [a|].
  { destruct (refusal_acts a (Hx a eq_refl)) as (-> & -> & -> & ->). split_and!; try done; [|by left]. intros (Hok & _). by apply He in Hok. }
  assert (Hrep := proj1 He eq_refl).
  destruct (budget_spec (readEffectiveBudget o r) (EstimatedCgn spec)) as [Hb Hbx].
  destruct (budget_gate _ _) as [a|].
  { destruct (refusal_acts a (Hbx a eq_refl)) as (-> & -> & -> & ->). split_and!; try done; [|by left]. intros (_ & Hok & _). by apply Hb in Hok. }
  assert (Hbud := proj1 Hb eq_refl). destruct (w_handler w) as [handler|].
  - fold (context_of r frame spec).
    destruct (run_handler_spec handler frame spec (context_of r frame spec)) as (-> & -> & -> & ->).
    split_and!; try done. right. split_and!; eauto.
  - split_and!; try done; [by intros (_ & _ & [? ?])|by left].
Qed.

Lemma invoke_frame_spec r :
  match invoke_frame unmarshal_invoke o r with
  | Ok (raw, frame, spec) =>
      rq_Body r = Ok raw /\ unmarshal_invoke raw = Ok frame /\ ib_ActionID frame <> "" /\
      Actions o !! ib_ActionID frame = Some spec /\ (ib_Async frame = true -> sp_Async spec = true)
  | Err a => refuses a /\ forall raw frame spec, rq_Body r = Ok raw -> unmarshal_invoke raw = Ok frame -> ib_ActionID frame <> "" ->
      Actions o !! ib_ActionID frame = Some spec -> (ib_Async frame = true -> sp_Async spec = true) -> False
  end.
Proof.
  unfold invoke_frame. destruct (rq_Body r) as [raw|e]; [|split; [apply writeError_refuses|done]]. cbv zeta.
  destruct (unmarshal_invoke raw) as [frame|] eqn:Eu; [|split; [apply writeError_refuses|intros ? ? ? [= <-]; congruence]].
  destruct (String.eqb_spec (ib_ActionID frame) "") as [Hid|Hid].
  { split; [apply writeError_refuses|]. intros ? ? ? [= <-] E. congruence. }
  destruct (Actions o !! ib_ActionID frame) as [spec|] eqn:Es.
  2: { split; [apply writeError_refuses|]. intros ? ? ? [= <-] E. congruence. }
  destruct (ib_Async frame) eqn:Ea, (sp_Async spec) eqn:Esa; cbn [andb negb];
    [split_and!; [done..|congruence]| |split_and!; [done..|congruence]|split_and!; [done..|congruence]].
  split; [apply writeError_refuses|]. intros ? ? ? [= <-] E _ E' Ha. rewrite Eu in E. injection E as <-.
  rewrite Es in E'. injection E' as <-. rewrite Esa in Ha. by specialize (Ha Ea).
Qed.

(** The handler runs exactly for the admitted requests, every request is answered
    once, and exactly the granted tokens are released. *)
Lemma invoke_admits g r :
  let acts := (invoke g r).1 in
  (forall frame spec, admitted g r frame spec ->
    calls acts = [(ib_Async frame, ib_ActionID frame, ib_Params frame, context_of r frame spec)]) /\
  (calls acts = [] \/ exists frame spec, admitted g r frame spec) /\
  length (responses acts) = 1%nat /\ releases acts = granted acts.
Proof.
  cbv zeta. unfold handleInvoke. pose proof (invoke_frame_spec r) as Hf. destruct (invoke_frame _ _ _) as [[[raw frame] spec]|a].
  2: { cbn [fst]. destruct Hf as [Ha Hno]. destruct (refusal_acts a Ha) as (-> & -> & -> & ->). split_and!; try done; [|by left].
       intros frame spec ((raw & ? & ? & _) & ? & ? & ? & _). exfalso. by eapply Hno. }
  destruct Hf as (Hb & Hu & Hid & Hs & Has).
  assert (Huniq : forall frame' spec', admitted g r frame' spec' -> frame' = frame /\ spec' = spec).
  { intros f' s' ((raw' & E1 & E2 & _) & _ & E3 & _). rewrite Hb in E1. injection E1 as <-. rewrite Hu in E2. injection E2 as <-.
    rewrite Hs in E3. by injection E3 as <-. }
  fold (decoded_body raw). pose proof (guard_spec g (decoded_body raw) (TopologyWrite spec)) as Hg.
  destruct (guardInbound g (decoded_body raw) (TopologyWrite spec)) as [[[a|] effs] g']; destruct Hg as ((Hc & Hl & Hp) & Hgr & Hpass & Hx & _);
    cbn [fst]; rewrite calls_app, releases_app, granted_app, responses_app, Hc, Hl, Hp, Hgr; cbn [app].
  { destruct (refusal_acts a (Hx a eq_refl)) as (-> & -> & -> & ->). split_and!; try done; [|by left].
    intros f' s' Had. destruct (Huniq _ _ Had) as [-> ->]. destruct Had as ((raw' & E1 & _ & E2) & _). rewrite Hb in E1. injection E1 as <-.
    by apply Hpass in E2. }
  assert (Hgp := proj1 Hpass eq_refl). cbv zeta.
  rewrite calls_acquire, releases_acquire, responses_acquire, granted_acquire. destruct (Allowed (w_limiter w (consumer_key r) (EstimatedCgn spec))) eqn:Ear; cbn [negb].
  - rewrite calls_app, releases_app, granted_app, responses_app.
    destruct (admitted_acts_spec r frame spec (consumer_key r)) as (-> & -> & Hresp & Hyes & Hno).
    change (calls [Release (consumer_key r)]) with (@nil (bool * string * list byte * InvokeContext)).
    rewrite app_nil_r. split_and!.
    + intros f' s' Had. destruct (Huniq _ _ Had) as [-> ->]. apply Hyes. by destruct Had as (_ & _ & _ & _ & _ & ? & ? & ?).
    + destruct Hno as [->|(Hr & Hbd & Hh)]; [by left|right]. exists frame, spec. split_and!; eauto.
    + change (responses [Release (consumer_key r)]) with (@nil response). by rewrite app_nil_r.
    + done.
  - split_and!; try done; [|by left]. intros f' s' Had. destruct (Huniq _ _ Had) as [-> ->]. destruct Had as (_ & _ & _ & _ & Hal & _). congruence.
Qed.

(** ** Routes *)

(** What a request may do to the guard. *)
Definition guard_moves (g g' : option AnchorEpochGuard) : Prop :=
  forall g0, g = Some g0 -> exists g1, g' = Some g1 /\ ownEpoch g1 = ownEpoch g0 /\ degraded g1 = degraded g0 /\
    (standby g0 = true -> standby g1 = true).

Lemma guard_moves_refl g : guard_moves g g.
Proof. intros g0 ->. by eexists. Qed.

(** The acts of a request that runs no action: one answer and no token. *)
Definition reads_only (l : list act) : Prop := calls l = [] /\ releases l = [] /\ granted l = [] /\ length (responses l) = 1%nat.

Lemma reads_app effs l : quiet effs -> granted effs = [] -> reads_only l -> reads_only (effs ++ l).
Proof.
  intros (Hc & Hl & Hp) Hg (? & ? & ? & ?). unfold reads_only. by rewrite calls_app, releases_app, granted_app, responses_app, Hc, Hl, Hp, Hg.
Qed.

Lemma stream_lines_quiet ts id evs : quiet (stream_lines ts id evs) /\ granted (stream_lines ts id evs) = [].
Proof.
  induction evs as [|ev evs [(IHc & IHl & IHp) IHg]]; [done|]. cbn [stream_lines].
  destruct (eventToEnvelope ts id ev) as [d|]; [|done]. by destruct (String.eqb (Kind ev) _).
Qed.

Lemma capability_refuses r a : checkTopologyCapability o r = Some a -> refuses a.
Proof. unfold checkTopologyCapability. destruct (negb _); [done|]. destruct (existsb _ _); [done|]. intros [= <-]. apply writeError_refuses. Qed.

Lemma typed_refuses route wire body a : typed route wire body = Some a -> refuses a.
Proof.
  unfold typed. destruct (dict_at body "type"); try (intros [= <-]; apply writeError_refuses).
  destruct (String.eqb _ _); [done|]. intros [= <-]. apply writeError_refuses.
Qed.

Lemma query_reads g r : reads_only (query g r).1 /\ guard_moves g (query g r).2.
Proof.
  unfold handleQuery. destruct (checkTopologyCapability o r) as [a|] eqn:Ec.
  { destruct (capability_refuses _ _ Ec) as [? ->]. split; [done|apply guard_moves_refl]. }
  destruct (readJSON unmarshal_map r) as [body|]; [|split; [done|apply guard_moves_refl]].
  pose proof (guard_spec g body false) as Hg. destruct (guardInbound g body false) as [[[a|] effs] g'];
    destruct Hg as (Hq & Hgr & _ & Hx & Hmove).
  { split; [|done]. apply reads_app; try done. by destruct (Hx a eq_refl) as [? ->]. }
  destruct (typed _ _ _) as [a|] eqn:Et.
  { split; [|done]. apply reads_app; try done. by destruct (typed_refuses _ _ _ _ Et) as [? ->]. }
  destruct (w_snapshot w) as [get|]; [|split; [by apply reads_app|done]].
  destruct (parseSnapshotRequest _) as [req|e]; [|split; [by apply reads_app|done]].
  destruct (get req) as [snap|[e|]]; (split; [by apply reads_app|done]).
Qed.

Lemma subscribe_reads g r : reads_only (subscribe g r).1 /\ guard_moves g (subscribe g r).2.
Proof.
  unfold handleSubscribe. destruct (checkTopologyCapability o r) as [a|] eqn:Ec.
  { destruct (capability_refuses _ _ Ec) as [? ->]. split; [done|apply guard_moves_refl]. }
  destruct (readJSON unmarshal_map r) as [body|]; [|split; [done|apply guard_moves_refl]].
  pose proof (guard_spec g body false) as Hg. destruct (guardInbound g body false) as [[[a|] effs] g'];
    destruct Hg as (Hq & Hgr & _ & Hx & Hmove).
  { split; [|done]. apply reads_app; try done. by destruct (Hx a eq_refl) as [? ->]. }
  destruct (typed _ _ _) as [a|] eqn:Et.
  { split; [|done]. apply reads_app; try done. by destruct (typed_refuses _ _ _ _ Et) as [? ->]. }
  destruct (w_snapshot w) as [get|]; [|split; [by apply reads_app|done]].
  destruct (parseStreamRequest _ _) as [[req id]|e]; [|split; [by apply reads_app|done]].
  destruct (w_subscribe w req) as [evs|]; [|split; [by apply reads_app|done]].
  split; [|done]. apply reads_app; try done. cbv zeta. destruct (stream_lines_quiet (w_timestamp w) id evs) as ((Hc & Hl & Hp) & Hsg).
  unfold reads_only. by rewrite calls_app, releases_app, granted_app, responses_app, Hc, Hl, Hp, Hsg.
Qed.

Lemma invoke_moves g r : guard_moves g (invoke g r).2.
Proof.
  unfold handleInvoke. destruct (invoke_frame _ _ _) as [[[raw frame] spec]|a]; [|apply guard_moves_refl]. fold (decoded_body raw).
  pose proof (guard_spec g (decoded_body raw) (TopologyWrite spec)) as Hg.
  destruct (guardInbound g (decoded_body raw) (TopologyWrite spec)) as [[[a|] effs] g']; by destruct Hg as (_ & _ & _ & _ & Hmove).
Qed.

(** The request is a POST to the invoke route that names its agent where that is required. *)
Definition reaches_invoke (r : request) : Prop :=
  exists sub, cut_prefix (prefix o) (rq_Path r) = Some sub /\ (sub = "/invoke" \/ sub = "/invoke/") /\ rq_Method r = "POST" /\
    (requireAuth o = true -> rq_Header r HeaderAgent <> "").

Lemma serve_cases g r :
  (reaches_invoke r /\ serve g r = invoke g r) \/
  (~ reaches_invoke r /\ reads_only (serve g r).1 /\ guard_moves g (serve g r).2).
Proof.
  unfold ServeHTTP, reaches_invoke. destruct (cut_prefix (prefix o) (rq_Path r)) as [sub|].
  2: { right. split_and!; [|done|apply guard_moves_refl]. by intros (? & ? & _). }
  destruct (isKnownRoute sub) eqn:Ek; cbn [negb].
  2: { right. split_and!; [|done|apply guard_moves_refl]. intros (? & [= <-] & [-> | ->] & _); by vm_compute in Ek. }
  destruct (requireAuth o && _) eqn:Ea.
  { right. split_and!; [|done|apply guard_moves_refl]. apply andb_true_iff in Ea as [Hr Hh]. apply String.eqb_eq in Hh.
    intros (? & _ & _ & _ & Hn). by apply Hn. }
  assert (Hauth : requireAuth o = true -> rq_Header r HeaderAgent <> "").
  { intros Hr Hh. by rewrite Hr, Hh in Ea. }
  clear Ea. unfold post.
  assert (Hnot : mem_string sub ["/invoke"; "/invoke/"] = false -> ~ exists sub', Some sub = Some sub' /\ (sub' = "/invoke" \/ sub' = "/invoke/") /\
    rq_Method r = "POST" /\ (requireAuth o = true -> rq_Header r HeaderAgent <> "")).
  { intros Hm (? & [= <-] & [-> | ->] & _); by vm_compute in Hm. }
  destruct (mem_string sub ["/.nwm"; "/.nwm/"]) eqn:E1.
  { right. split_and!; [|done|apply guard_moves_refl]. intros (? & [= <-] & [-> | ->] & _); by vm_compute in E1. }
  destruct (mem_string sub ["/.schema"; _; _; _]) eqn:E2.
  { right. split_and!; [|done|apply guard_moves_refl]. intros (? & [= <-] & [-> | ->] & _); by vm_compute in E2. }
  destruct (mem_string sub ["/invoke"; "/invoke/"]) eqn:E3.
  { destruct (String.eqb_spec (rq_Method r) "POST") as [Hp|Hp].
    - left. split; [|done]. exists sub. split_and!; try done.
      apply mem_string_true in E3. rewrite !elem_of_cons, elem_of_nil in E3. naive_solver.
    - right. split_and!; [|done|apply guard_moves_refl]. by intros (? & _ & _ & ? & _). }
  right. split; [by apply Hnot|].
  destruct (mem_string sub ["/query"; "/query/"]).
  { destruct (String.eqb (rq_Method r) "POST"); [apply query_reads|split; [done|apply guard_moves_refl]]. }
  destruct (mem_string sub ["/subscribe"; "/subscribe/"]); [|split; [done|apply guard_moves_refl]].
  destruct (String.eqb (rq_Method r) "POST"); [apply subscribe_reads|split; [done|apply guard_moves_refl]].
Qed.

(** C22. Admission at the door of an anchor with a registered handler.  A POST to the
    invoke route, naming its agent where authentication is required, whose body names a
    declared action - one that supports asynchronous runs where the body asks for one -
    and that the epoch guard, the rate limiter, the reputation policy and the budget let
    pass is handed to the handler once, with its parameters and the context computed
    for it; no other request runs an action.  Whatever the request, it is answered
    once and exactly the tokens that the limiter granted are released; an
    unauthenticated one is refused with 401 or 404 and leaves the guard alone. *)
Theorem serve_admission g r :
  let acts := (serve g r).1 in
  (forall frame spec, reaches_invoke r -> admitted g r frame spec ->
    calls acts = [(ib_Async frame, ib_ActionID frame, ib_Params frame, context_of r frame spec)]) /\
  ((forall frame spec, ~ (reaches_invoke r /\ admitted g r frame spec)) -> calls acts = []) /\
  length (responses acts) = 1%nat /\ releases acts = granted acts /\
  (requireAuth o = true -> rq_Header r HeaderAgent = "" ->
    (serve g r).2 = g /\ exists rs, acts = [Respond rs] /\ (rs_Status rs = 401 \/ rs_Status rs = 404)).
Proof.
  cbv zeta.
  assert (Hun : requireAuth o = true -> rq_Header r HeaderAgent = "" ->
    (serve g r).2 = g /\ exists rs, (serve g r).1 = [Respond rs] /\ (rs_Status rs = 401 \/ rs_Status rs = 404)).
  { intros Hreq Hagent. unfold ServeHTTP. destruct (cut_prefix (prefix o) (rq_Path r)) as [sub|]; [|cbn; eauto 8].
    destruct (isKnownRoute sub); cbn [negb]; [rewrite Hreq, Hagent; cbn [andb String.eqb]|]; cbn; eauto 8. }
  destruct (serve_cases g r) as [[Hr Es]|(Hr & (Hc & Hl & Hg & Hp) & _)].
  - destruct (invoke_admits g r) as (Hyes & Hno & Hp & Hl). rewrite <- Es in Hyes, Hno, Hp, Hl. split_and!; try done.
    + intros ? ? _. apply Hyes.
    + intros Hn. destruct Hno as [?|(f & s & Had)]; [done|]. by destruct (Hn f s).
  - split_and!; try done. congruence.
Qed.

End Server.

(** ** What the topology service is asked *)

Definition known_scope (s : string) : Prop := s = scopeClusterWire \/ s = scopeMemberWire.

Definition snapshot_ok (req : AnchorSnapshotRequest) : Prop :=
  known_scope (sr_Scope req) /\ (sr_Scope req = scopeMemberWire -> sr_TargetNid req <> "") /\
  sr_Include req <> [] /\ Forall (fun s => mem_string s ["members"; "capabilities"; "tags"; "metrics"] = true) (sr_Include req) /\
  - 2 ^ 63 <= sr_Depth req < 2 ^ 63.

Definition stream_ok (req : AnchorStreamRequest) : Prop :=
  known_scope (st_Scope req) /\ forall v, SinceVersion req = Some v -> 0 <= v < 2 ^ 64.

Definition act_ok (a : act) : Prop :=
  match a with AskSnapshot req => snapshot_ok req | AskSubscribe req => stream_ok req | _ => True end.

Lemma uint64_of_float_range f : 0 <= uint64_of_float f < 2 ^ 64.
Proof. unfold uint64_of_float. repeat case_match; [apply wrapu_range; lia|lia|lia]. Qed.

Lemma int64_of_float_range f : - 2 ^ 63 <= int64_of_float f < 2 ^ 63.
Proof. unfold int64_of_float. repeat case_match; bool_hyps; lia. Qed.

Lemma parseScope_ok topo s : parseScope topo = Ok s -> known_scope s.
Proof.
  unfold parseScope, known_scope. destruct (String.eqb _ ""); [intros [= <-]; by left|].
  destruct (String.eqb_spec (default "" (as_string (dict_at topo "scope"))) scopeClusterWire); cbn [orb]; [intros [= <-]; by left|].
  destruct (String.eqb_spec (default "" (as_string (dict_at topo "scope"))) scopeMemberWire); [intros [= <-]; by right|done].
Qed.

Lemma parseInclude_ok topo :
  parseInclude topo <> [] /\ Forall (fun s => mem_string s ["members"; "capabilities"; "tags"; "metrics"] = true) (parseInclude topo).
Proof.
  unfold parseInclude. destruct (List.filter _ _) as [|x l] eqn:E; [split; [done|by repeat constructor]|].
  split; [done|]. apply List.Forall_forall. intros y Hy. rewrite <- E in Hy. by apply List.filter_In in Hy as [_ ?].
Qed.

Lemma parseSnapshotRequest_ok body req : parseSnapshotRequest body = Ok req -> snapshot_ok req.
Proof.
  unfold parseSnapshotRequest, snapshot_ok. destruct (as_map _) as [topo|]; [|done]. destruct (parseScope topo) as [scope|] eqn:Es; [|done].
  destruct (_ && _) eqn:Em; [done|]. intros [= <-]. cbn. destruct (parseInclude_ok topo). split_and!; try done.
  - by eapply parseScope_ok.
  - intros ->. cbn [String.eqb andb] in Em. by apply String.eqb_neq in Em.
  - unfold parseDepth. destruct (dict_at topo "depth"); try lia. destruct (SFltb _ _); [apply int64_of_float_range|lia].
  - unfold parseDepth. destruct (dict_at topo "depth"); try lia. destruct (SFltb _ _); [apply int64_of_float_range|lia].
Qed.

Lemma parseStreamRequest_ok rand body req id : parseStreamRequest rand body = Ok (req, id) -> stream_ok req.
Proof.
  unfold parseStreamRequest, stream_ok. destruct (as_map _) as [topo|]; [|done]. destruct (parseScope topo) as [scope|] eqn:Es; [|done].
  destruct (match as_map (dict_at topo "filter") with Some _ => _ | None => _ end) as [filter|]; [|done].
  intros [= <- _]. cbn. split; [by eapply parseScope_ok|]. intros v.
  destruct (as_float (dict_at topo "since_version")); [intros [= <-]; apply uint64_of_float_range|].
  destruct (as_float (dict_at body "resume_from_seq")); [intros [= <-]; apply uint64_of_float_range|done].
Qed.

(** ** Sequences of requests *)

Section History.
Context `{GoJSON} (unmarshal_map : list byte -> option dict * option string) (unmarshal_invoke : list byte -> result string invokeBody).
Context (o : AnchorNodeOptions).

(** The acts of requests served one after another, each with what the outside then
    answers. *)
Fixpoint serve_all (g : option AnchorEpochGuard) (l : list (world * request)) : list act * option AnchorEpochGuard :=
  match l with
  | [] => ([], g)
  | (w, r) :: l =>
      let '(acts, g) := ServeHTTP unmarshal_map unmarshal_invoke o w g r in
      let '(rest, g) := serve_all g l in (acts ++ rest, g)
  end.

(** The action is not a topology write. *)
Definition reads_topology (call : bool * string * list byte * InvokeContext) : Prop :=
  exists spec, Actions o !! call.1.1.2 = Some spec /\ TopologyWrite spec = false.

Definition fenced (g : option AnchorEpochGuard) : Prop := exists g0, g = Some g0 /\ (standby g0 = true \/ degraded g0 = true).

Lemma fenced_moves g g' : guard_moves g g' -> fenced g -> fenced g'.
Proof. intros Hm (g0 & -> & Hf). destruct (Hm g0 eq_refl) as (g1 & -> & _ & Ed & Hs). exists g1. rewrite Ed. naive_solver. Qed.

Lemma serve_moves w g r : guard_moves g (ServeHTTP unmarshal_map unmarshal_invoke o w g r).2.
Proof. destruct (serve_cases unmarshal_map unmarshal_invoke o w g r) as [[_ ->]|(_ & _ & ?)]; [apply invoke_moves|done]. Qed.

Lemma serve_all_moves g l : guard_moves g (serve_all g l).2.
Proof.
  revert g. induction l as [|[w r] l IH]; intros g; [apply guard_moves_refl|]. cbn [serve_all].
  pose proof (serve_moves w g r) as Hm. destruct (ServeHTTP _ _ _ _ _ _) as [acts g']. specialize (IH g').
  destruct (serve_all g' l) as [rest g'']. cbn [snd] in *. intros g0 E0. destruct (Hm g0 E0) as (g1 & E1 & ? & ? & ?).
  destruct (IH g1 E1) as (g2 & -> & ? & ? & ?). exists g2. split_and!; [done|congruence|congruence|auto].
Qed.

(** One admitted call, or none: an empty list of calls when nothing is admitted. *)
Lemma serve_calls_admitted w g r call : call ∈ calls (ServeHTTP unmarshal_map unmarshal_invoke o w g r).1 ->
  exists frame spec, admitted unmarshal_map unmarshal_invoke o w g r frame spec /\ call.1.1.2 = ib_ActionID frame.
Proof.
  destruct (serve_cases unmarshal_map unmarshal_invoke o w g r) as [[_ ->]|(_ & (-> & _) & _)]; [|by intros ?%elem_of_nil].
  intros Hin. destruct (invoke_admits unmarshal_map unmarshal_invoke o w g r) as (Hyes & [Hn|(f & s & Had)] & _).
  - rewrite Hn in Hin. by apply elem_of_nil in Hin.
  - rewrite (Hyes f s Had) in Hin. apply list_elem_of_singleton in Hin as ->. eauto.
Qed.

Lemma fenced_serve w g r call : fenced g -> call ∈ calls (ServeHTTP unmarshal_map unmarshal_invoke o w g r).1 -> reads_topology call.
Proof.
  intros (g0 & -> & Hf) Hin. destruct (serve_calls_admitted w (Some g0) r call Hin) as (f & s & Had & Ec).
  destruct Had as ((raw & _ & _ & _ & Hw) & _ & Hs & _). exists s. rewrite Ec. split; [done|].
  destruct (TopologyWrite s); [|done]. destruct (Hw eq_refl). destruct Hf; congruence.
Qed.

Lemma fenced_serve_all g l call : fenced g -> call ∈ calls (serve_all g l).1 -> reads_topology call.
Proof.
  revert g. induction l as [|[w r] l IH]; intros g Hf; [by intros ?%elem_of_nil|]. cbn [serve_all].
  pose proof (serve_moves w g r) as Hm. pose proof (fun c => fenced_serve w g r c Hf) as Hs.
  destruct (ServeHTTP _ _ _ _ _ _) as [acts g']. specialize (IH g' (fenced_moves _ _ Hm Hf)).
  destruct (serve_all g' l) as [rest g'']. cbn [fst]. rewrite calls_app. intros [?|?]%elem_of_app; auto.
Qed.

(** The request is a readable topology query with that body. *)
Definition topology_request (r : request) (body : option dict) : Prop :=
  cut_prefix (prefix o) (rq_Path r) = Some "/query" /\ rq_Method r = "POST" /\ rq_Header r HeaderAgent <> "" /\
  checkTopologyCapability o r = None /\ readJSON unmarshal_map r = Ok body.

Lemma superseding_request w g r body :
  topology_request r body -> ownEpoch g < default 1 (inboundClusterEpoch body).1 ->
  fenced (ServeHTTP unmarshal_map unmarshal_invoke o w (Some g) r).2 /\
  calls (ServeHTTP unmarshal_map unmarshal_invoke o w (Some g) r).1 = [].
Proof.
  intros (Hp & Hm & Ha & Hc & Hb) Hlt. unfold ServeHTTP. rewrite Hp.
  destruct (String.eqb_spec (rq_Header r HeaderAgent) "") as [?|_]; [done|]. rewrite andb_false_r.
  change (isKnownRoute "/query") with true. cbn [negb]. change (mem_string "/query" ["/query"; "/query/"]) with true.
  change (mem_string "/query" ["/.nwm"; "/.nwm/"]) with false. change (mem_string "/query" ["/invoke"; "/invoke/"]) with false.
  change (mem_string "/query" ["/.schema"; "/.schema/"; "/actions"; "/actions/"]) with false. cbv beta iota.
  unfold post. rewrite Hm. change (String.eqb "POST" "POST") with true. cbv beta iota.
  unfold handleQuery. rewrite Hc, Hb. unfold guardInbound. destruct (inboundClusterEpoch body) as [e sender]. cbn [fst] in Hlt.
  unfold OnInboundFrame. rewrite (proj2 (Z.ltb_lt _ _) Hlt). cbn [fmap option_fmap option_map]. split.
  - eexists. split; [done|]. by left.
  - cbn [fst]. rewrite calls_app. rewrite (proj1 (quiet_callbacks _)). done.
Qed.

(** A superseded anchor writes nothing more.  Whatever was served before, once an
    authorised topology query carries a cluster epoch above the anchor's own, neither
    that request nor any later one, in any order and on any route, runs an action
    that writes the topology; the same holds of an anchor that starts as a standby
    or without quorum. *)
Theorem superseded_anchor_writes_nothing g before w r body after :
  (topology_request r body /\ ownEpoch g < default 1 (inboundClusterEpoch body).1) \/ fenced (Some g) ->
  forall call, call ∈ calls (serve_all (serve_all (Some g) before).2 ((w, r) :: after)).1 -> reads_topology call.
Proof.
  intros Hcase call. pose proof (serve_all_moves (Some g) before) as Hm0. destruct Hcase as [[Hr Hlt]|Hf].
  2: { apply fenced_serve_all. by eapply fenced_moves. }
  destruct (Hm0 g eq_refl) as (g1 & -> & Eo & _). rewrite <- Eo in Hlt. cbn [serve_all].
  pose proof (superseding_request w g1 r body Hr Hlt) as [Hf Hc]. destruct (ServeHTTP _ _ _ _ _ _) as [acts g'].
  cbn [fst snd] in *. pose proof (fenced_serve_all g' after call Hf) as Hall. destruct (serve_all g' after) as [rest g''].
  cbn [fst] in *. rewrite calls_app, Hc. done.
Qed.

Lemma callbacks_ok effs : Forall act_ok (Callback <$> effs).
Proof. by induction effs; constructor. Qed.

Lemma refuses_ok a : refuses a -> act_ok a.
Proof. by intros [? ->]. Qed.

Lemma stream_lines_ok ts id evs : Forall act_ok (stream_lines ts id evs).
Proof.
  induction evs as [|ev evs IH]; [done|]. cbn [stream_lines]. destruct (eventToEnvelope ts id ev); [|done].
  destruct (String.eqb (Kind ev) _); by repeat constructor.
Qed.

Lemma guard_effs_ok g body b : Forall act_ok (guardInbound g body b).1.2 /\ (forall a, (guardInbound g body b).1.1 = Some a -> act_ok a).
Proof.
  unfold guardInbound. destruct g as [g|]; [|done]. destruct (inboundClusterEpoch body) as [e sender].
  destruct (OnInboundFrame g e sender b) as [[[p|] g'] effs]; cbn; (split; [apply callbacks_ok|]); [by intros a [= <-]|done].
Qed.

Lemma query_ok w g r : Forall act_ok (handleQuery unmarshal_map o w g r).1.
Proof.
  unfold handleQuery. destruct (checkTopologyCapability o r) as [a|] eqn:Ec; [apply Forall_singleton, refuses_ok; by eapply capability_refuses|].
  destruct (readJSON unmarshal_map r) as [body|]; [|by repeat constructor]. pose proof (guard_effs_ok g body false) as [He Ha].
  destruct (guardInbound g body false) as [[[a|] effs] g']; cbn in He, Ha.
  { apply Forall_app. split; [done|]. apply Forall_singleton. by apply Ha. }
  destruct (typed _ _ _) as [a|] eqn:Et.
  { apply Forall_app. split; [done|]. apply Forall_singleton, refuses_ok. by eapply typed_refuses. }
  destruct (w_snapshot w) as [get|]; [|apply Forall_app; split; [done|by repeat constructor]].
  destruct (parseSnapshotRequest _) as [req|] eqn:Ep; [|apply Forall_app; split; [done|by repeat constructor]].
  apply parseSnapshotRequest_ok in Ep. destruct (get req) as [snap|[e|]]; (apply Forall_app; split; [done|constructor; [done|by repeat constructor]]).
Qed.

Lemma subscribe_ok w g r : Forall act_ok (handleSubscribe unmarshal_map o w g r).1.
Proof.
  unfold handleSubscribe. destruct (checkTopologyCapability o r) as [a|] eqn:Ec; [apply Forall_singleton, refuses_ok; by eapply capability_refuses|].
  destruct (readJSON unmarshal_map r) as [body|]; [|by repeat constructor]. pose proof (guard_effs_ok g body false) as [He Ha].
  destruct (guardInbound g body false) as [[[a|] effs] g']; cbn in He, Ha.
  { apply Forall_app. split; [done|]. apply Forall_singleton. by apply Ha. }
  destruct (typed _ _ _) as [a|] eqn:Et.
  { apply Forall_app. split; [done|]. apply Forall_singleton, refuses_ok. by eapply typed_refuses. }
  destruct (w_snapshot w) as [get|]; [|apply Forall_app; split; [done|by repeat constructor]].
  destruct (parseStreamRequest _ _) as [[req id]|] eqn:Ep; [|apply Forall_app; split; [done|by repeat constructor]].
  apply parseStreamRequest_ok in Ep. destruct (w_subscribe w req); (apply Forall_app; split; [done|]); (constructor; [done|]); [|by repeat constructor].
  cbv zeta. constructor; [done|]. constructor; [done|apply stream_lines_ok].
Qed.

Lemma admitted_acts_ok w r frame spec key : Forall act_ok (admitted_acts unmarshal_map o w r frame spec key).
Proof.
  unfold admitted_acts. cbv zeta. pose proof (reputation_spec o w key (extractIdentAssurance unmarshal_map r)) as Hr.
  assert (Hacts : Forall act_ok (reputation_gate o w key (extractIdentAssurance unmarshal_map r)).1).
  { unfold reputation_gate. destruct (an_ReputationPolicy o), (w_evaluator w); try done. destruct (negb _); [done|].
    cbn [fst]. by apply Forall_singleton. }
  destruct (reputation_gate _ _ _ _) as [acts e]. destruct Hr as (_ & _ & _ & Hx). apply Forall_app. split; [done|].
  destruct e as [a|]; [apply Forall_singleton, refuses_ok; auto|].
  destruct (budget_spec (readEffectiveBudget o r) (EstimatedCgn spec)) as [_ Hb].
  destruct (budget_gate _ _) as [a|]; [apply Forall_singleton, refuses_ok; auto|].
  destruct (w_handler w) as [h|]; [|by repeat constructor]. unfold run_handler. cbv zeta.
  destruct (ib_Async frame); [by repeat constructor|]. destruct (h _ _ _) as [v|[e|]]; [|by repeat constructor..].
  destruct (match v with VNil => _ | _ => _ end). by repeat constructor.
Qed.

Lemma invoke_ok w g r : Forall act_ok (handleInvoke unmarshal_map unmarshal_invoke o w g r).1.
Proof.
  unfold handleInvoke. pose proof (invoke_frame_spec unmarshal_invoke o r) as Hf.
  destruct (invoke_frame _ _ _) as [[[raw frame] spec]|a]; [|apply Forall_singleton, refuses_ok; by destruct Hf].
  fold (decoded_body unmarshal_map raw). pose proof (guard_effs_ok g (decoded_body unmarshal_map raw) (TopologyWrite spec)) as [He Ha].
  destruct (guardInbound g _ _) as [[[a|] effs] g']; cbn in He, Ha; (apply Forall_app; split; [done|]).
  { apply Forall_singleton. by apply Ha. }
  cbv zeta. constructor; [done|]. destruct (negb _); [by repeat constructor|]. apply Forall_app. split; [apply admitted_acts_ok|by repeat constructor].
Qed.

(** The topology service is asked only well-formed questions: whatever JSON a
    request carries, a snapshot request that reaches the service has a known scope,
    names its target when the scope is one member, selects at least one known
    section and has a depth in the range of int64, and a subscription has a known
    scope and a start version in the range of uint64. *)
Theorem asked_requests_well_formed w g r : Forall act_ok (ServeHTTP unmarshal_map unmarshal_invoke o w g r).1.
Proof.
  unfold ServeHTTP, post. repeat case_match; try by repeat constructor.
  - apply invoke_ok.
  - apply query_ok.
  - apply subscribe_ok.
Qed.

End History.

(** ** Witnesses *)

Definition sample_spec : AnchorActionSpec := MkSpec "" "" "" 5 0 0 "" false true.
Definition sample_options : AnchorNodeOptions :=
  MkAnchorOptions "urn:nps:node:a" "/a" {["shard.move" := sample_spec]} "" None None false 0 0 0 0 "" None [] None None.
Definition sample_world : world :=
  MkWorld (fun _ _ => MkRate true 0 "") None (Some (fun _ _ _ => Ok (VBool true))) None (fun _ => Err "none") "t" "s" "k" "m" "now".
Definition sample_frame : invokeBody := MkInvokeBody "shard.move" [] false 0.
Definition sample_request (path : string) : request :=
  MkRequest ("/a" +:+ path) "POST" (fun h => if String.eqb h HeaderAgent then "agent" else "") (Ok [Byte.x7b]).
(** Every body is a JSON object that claims the epoch [n]. *)
Definition sample_body (n : Z) (_ : list byte) : option dict * option string := (Some [("cluster_epoch", VInt KUint64 n)], None).
Definition sample_json : GoJSON := one_dict_json [] [].

Lemma serve_admission_witness :
  calls (ServeHTTP (H := sample_json) (sample_body 1) (fun _ => Ok sample_frame) sample_options sample_world
           (Some (NewAnchorEpochGuard "a")) (sample_request "/invoke")).1 =
  [(false, "shard.move", [], MkInvokeContext "agent" 30000 0 "t" "s")].
Proof.
  refine (proj1 (serve_admission (H := sample_json) (sample_body 1) (fun _ => Ok sample_frame) sample_options sample_world
    (Some (NewAnchorEpochGuard "a")) (sample_request "/invoke")) sample_frame sample_spec _ _).
  - exists "/invoke". split_and!; [by vm_compute|by left|done|done].
  - split_and!; try done.
    + exists [Byte.x7b]. split_and!; [done|done|]. split; [by vm_compute|done].
    + vm_compute. intros [? ?]; discriminate.
Defined.

Lemma superseded_anchor_writes_nothing_witness :
  let acts := (serve_all (H := sample_json) (sample_body 2) (fun _ => Ok sample_frame) sample_options
                 (serve_all (H := sample_json) (sample_body 2) (fun _ => Ok sample_frame) sample_options
                    (Some (NewAnchorEpochGuard "a")) []).2
                 [(sample_world, sample_request "/query"); (sample_world, sample_request "/invoke")]).1 in
  Forall (reads_topology sample_options) (calls acts).
Proof.
  apply Forall_forall. refine (superseded_anchor_writes_nothing (H := sample_json) (sample_body 2) (fun _ => Ok sample_frame) sample_options
    (NewAnchorEpochGuard "a") [] sample_world (sample_request "/query") (Some [("cluster_epoch", VInt KUint64 2)])
    [(sample_world, sample_request "/invoke")] _).
  left. split; [|by vm_compute]. split_and!; by vm_compute.
Defined.
