(* ===== verification/NwpAction.v ===== *)
(** * The action node server

    nwp/action_node_server.go: the task store, the idempotency cache, the guard of
    callback URLs, streams, and every route of ActionNodeServer.

    A provider works on a state [S] of its own.  A stream is the tree of the calls it
    makes: it emits a frame and goes on with what [emit] returned, or reads and
    changes the provider's state.  [c i] is the [i]-th reading of a clock in a step;
    [json.Unmarshal], hashes and random strings are parameters. *)

From S2P Require Import Prelude GoValue CoreCodec CoreCache NopExecute NwpAnchor NwpContext.

(** ** Constants *)

Definition SystemTaskStatus : string := "system.task.status".
Definition SystemTaskCancel : string := "system.task.cancel".
Definition HeaderRequestID : string := "X-NWP-Request-Id".
Definition ErrTaskNotFound : string := "NWP-TASK-NOT-FOUND".
Definition ErrTaskAlreadyCancelled : string := "NWP-TASK-ALREADY-CANCELLED".

(** ** Data *)

Record ActionSpec : Type := MkActionSpec {
  as_Description : string; as_ParamsAnchor : string; as_ResultAnchor : string; as_Async : bool; Idempotent : option bool;
  as_TimeoutMsDefault : Z; as_TimeoutMsMax : Z; as_RequiredCapability : string
}.

Record ActionNodeOptions : Type := MkActionOptions {
  ao_NodeID : string; ao_DisplayName : string; ao_Actions : gmap string ActionSpec; ao_PathPrefix : string; ao_RequireAuth : bool;
  ao_DefaultTimeoutMs : Z; ao_MaxTimeoutMs : Z; ao_IdempotencyTTL : Z; TaskRetention : Z;
  RejectPrivateCallbackURLs : option bool; ao_DefaultTokenBudget : Z; Profiles : option dict
}.

Definition rejectPrivateCallbacks (o : ActionNodeOptions) : bool := default true (RejectPrivateCallbackURLs o).

Record ActionStreamFrame : Type := MkStreamFrame {
  StreamID : string; Seq : Z; IsLast : bool; sf_AnchorRef : string; Data : list (list byte); WindowSize : option Z; sf_ErrorCode : string
}.

Record ActionExecutionError : Type := MkExecError { HTTPStatus : Z; xe_NpsStatus : string; xe_ErrorCode : string; xe_Message : string }.

Inductive ctx_error : Type := DeadlineExceeded | Canceled.
#[export] Instance ctx_error_eq_dec : EqDecision ctx_error.
Proof. solve_decision. Defined.

(** The errors of a provider: a typed one, the error of the context, another. *)
Inductive exec_error : Type :=
| ExecErr (e : ActionExecutionError)
| CtxErr (e : ctx_error)
| OtherErr (text : string).

Definition ErrNodeUnavailable : string := "NWP-NODE-UNAVAILABLE".

Definition internalExecutionError (message : string) : exec_error :=
  ExecErr (MkExecError 500 "NPS-SERVER-INTERNAL" ErrNodeUnavailable message).

Definition executionErrorCode (e : exec_error) : string :=
  match e with ExecErr x => xe_ErrorCode x | _ => ErrNodeUnavailable end.

Definition exec_text (e : exec_error) : string :=
  match e with
  | ExecErr x => xe_Message x
  | CtxErr DeadlineExceeded => "context deadline exceeded"
  | CtxErr Canceled => "context canceled"
  | OtherErr t => t
  end.

Inductive ActionStream (S : Type) : Type :=
| SReturn (e : option exec_error)
| SEmit (f : option ActionStreamFrame) (k : option exec_error -> ActionStream S)
| SAccess (upd : S -> S) (k : S -> ActionStream S).
Arguments SReturn {S} e.
Arguments SEmit {S} f k.
Arguments SAccess {S} upd k.

Record ActionExecutionResult (S : Type) : Type := MkExecResult {
  er_Result : list byte; er_Stream : option (ActionStream S); er_AnchorRef : string; TokenEst : Z
}.
Arguments MkExecResult {S}.
Arguments er_Result {S}.
Arguments er_Stream {S}.
Arguments er_AnchorRef {S}.
Arguments TokenEst {S}.

Record ActionContext : Type := MkActionContext {
  ac_AgentNid : string; ac_RequestID : string; ac_TaskID : string; ac_Spec : ActionSpec; ac_TimeoutMs : Z; ac_Priority : string;
  WireInputBytes : Z
}.

(** nwp/frames.go. *)
Record ActionFrame : Type := MkActionFrame {
  Action : string; Params : any; af_AnchorRef : option string; Async : bool; af_IdempotencyKey : option string;
  af_TimeoutMs : option Z; af_RequestID : option string
}.

(** A nil result is [None]. *)
Record IActionNodeProvider (S : Type) : Type := MkProvider {
  Execute : ActionFrame -> ActionContext -> S -> result exec_error (option (ActionExecutionResult S)) * S;
  Authorize : option (ActionFrame -> ActionContext -> S -> option exec_error)
}.
Arguments MkProvider {S}.
Arguments Execute {S}.
Arguments Authorize {S}.

(** ** Task store *)

Record ActionTaskRecord : Type := MkTask {
  tk_TaskID : string; tk_ActionID : string; tk_Status : string; Progress : option float64; CreatedAt : Z; UpdatedAt : Z;
  tk_RequestID : string; tk_AgentNid : string; tk_Result : option (list byte); tk_Error : option (list byte)
}.
Abbreviation taskmap := (gmap string ActionTaskRecord).

Definition isTerminal (status : string) : bool :=
  String.eqb status "completed" || String.eqb status "failed" || String.eqb status "cancelled".

Definition one_float : float64 := float64_of_Z 1.
Definition zero_float : float64 := float64_of_Z 0.

Definition tasks_Create (now : Z) (taskID actionID requestID agentNid : string) (m : taskmap) : taskmap :=
  <[taskID := MkTask taskID actionID "pending" None now now requestID agentNid None None]> m.

Definition tasks_Get (m : taskmap) (taskID : string) : option ActionTaskRecord := m !! taskID.

Definition with_status (now : Z) (status : string) (r : ActionTaskRecord) : ActionTaskRecord :=
  MkTask (tk_TaskID r) (tk_ActionID r) status (Progress r) (CreatedAt r) now (tk_RequestID r) (tk_AgentNid r) (tk_Result r) (tk_Error r).

Definition TryTransition (now : Z) (taskID expectedStatus newStatus : string) (m : taskmap) : bool * taskmap :=
  match m !! taskID with
  | Some r => if String.eqb (tk_Status r) expectedStatus then (true, <[taskID := with_status now newStatus r]> m) else (false, m)
  | None => (false, m)
  end.

Definition tasks_Complete (now : Z) (taskID : string) (res : list byte) (m : taskmap) : bool * taskmap :=
  match m !! taskID with
  | Some r =>
      if isTerminal (tk_Status r) then (false, m)
      else (true, <[taskID := MkTask (tk_TaskID r) (tk_ActionID r) "completed" (Some one_float) (CreatedAt r) now (tk_RequestID r)
                                (tk_AgentNid r) (Some res) (tk_Error r)]> m)
  | None => (false, m)
  end.

Definition tasks_Fail (now : Z) (taskID : string) (payload : list byte) (m : taskmap) : bool * taskmap :=
  match m !! taskID with
  | Some r =>
      if isTerminal (tk_Status r) then (false, m)
      else (true, <[taskID := MkTask (tk_TaskID r) (tk_ActionID r) "failed" (Progress r) (CreatedAt r) now (tk_RequestID r)
                                (tk_AgentNid r) (tk_Result r) (Some payload)]> m)
  | None => (false, m)
  end.

Definition tasks_Cancel (now : Z) (taskID : string) (m : taskmap) : bool * taskmap :=
  match m !! taskID with
  | Some r => if isTerminal (tk_Status r) then (false, m) else (true, <[taskID := with_status now "cancelled" r]> m)
  | None => (false, m)
  end.

Definition UpdateProgress (now : Z) (taskID : string) (p : float64) (m : taskmap) : bool * taskmap :=
  match m !! taskID with
  | Some r =>
      let p := if SFltb p zero_float then zero_float else if SFltb one_float p then one_float else p in
      (true, <[taskID := MkTask (tk_TaskID r) (tk_ActionID r) (tk_Status r) (Some p) (CreatedAt r) now (tk_RequestID r) (tk_AgentNid r)
                           (tk_Result r) (tk_Error r)]> m)
  | None => (false, m)
  end.

(** Never called by the server. *)
Definition tasks_PurgeExpired (retention now : Z) (m : taskmap) : nat * taskmap :=
  let cutoff := now + i64 (- retention) in
  let kept := filter (fun '(_, r) => isTerminal (tk_Status r) && (UpdatedAt r <? cutoff) = false) m in
  ((size m - size kept)%nat, kept).

(** ** Idempotency cache *)

Record IdempotentEntry : Type := MkIdem {
  ie_ActionID : string; ParamsHash : string; ie_Result : list byte; StreamFrames : option (list ActionStreamFrame);
  ie_AnchorRef : string; ie_TaskID : string; ExpiresAt : Z
}.
Abbreviation cachemap := (gmap string IdempotentEntry).

Definition idemKey (actionID idempotencyKey : string) : string := actionID +:+ unit_separator +:+ idempotencyKey.

Definition cache_Get (now : Z) (actionID key : string) (m : cachemap) : option IdempotentEntry * cachemap :=
  match m !! idemKey actionID key with
  | None => (None, m)
  | Some e => if negb (after (ExpiresAt e) now) then (None, delete (idemKey actionID key) m) else (Some e, m)
  end.

Definition TryStore (now : Z) (actionID key : string) (e : IdempotentEntry) (m : cachemap) : bool * cachemap :=
  match m !! idemKey actionID key with
  | Some old => if after (ExpiresAt old) now then (String.eqb (ParamsHash old) (ParamsHash e), m) else (true, <[idemKey actionID key := e]> m)
  | None => (true, <[idemKey actionID key := e]> m)
  end.

(** Never called by the server. *)
Definition cache_PurgeExpired (now : Z) (m : cachemap) : nat * cachemap :=
  let kept := filter (fun '(_, e) => negb (after (ExpiresAt e) now) = false) m in ((size m - size kept)%nat, kept).

(** ** Callback guard *)

Section Callback.
Context (url_Parse : string -> option URL) (parseIPv6 : string -> option (list Z)).

Definition isIPv6SiteLocal (ip : list Z) : bool :=
  (length ip =? 16)%nat &&
  ((Z.land (nth 0 ip 0) 0xfe =? 0xfc) || ((nth 0 ip 0 =? 0xfe) && (Z.land (nth 1 ip 0) 0xc0 =? 0xc0))).

Definition isPrivateHost (host : string) : bool :=
  if String.eqb host "" then true
  else if EqualFold host "localhost" then true
  else match ParseIP parseIPv6 (trim_brackets host) with
       | None => false
       | Some ip =>
           match To4 ip with
           | Some b =>
               (nth 0 b 0 =? 127) || (nth 0 b 0 =? 10) || (nth 0 b 0 =? 0) ||
               ((nth 0 b 0 =? 172) && (nth 1 b 0 >=? 16) && (nth 1 b 0 <=? 31)) || ((nth 0 b 0 =? 192) && (nth 1 b 0 =? 168)) ||
               ((nth 0 b 0 =? 169) && (nth 1 b 0 =? 254))
           | None => IsLoopback6 ip || IsLinkLocalUnicast6 ip || IsLinkLocalMulticast6 ip || isIPv6SiteLocal ip
           end
       end.

Definition ValidateActionCallback (callbackURL : string) (rejectPrivate : bool) : string :=
  if String.eqb (trim_space callbackURL) "" then "callback_url must not be empty."
  else
    match url_Parse callbackURL with
    | None => "callback_url '" +:+ callbackURL +:+ "' is not a valid absolute URI."
    | Some u =>
        if String.eqb (Scheme u) "" || String.eqb (Host u) "" then "callback_url '" +:+ callbackURL +:+ "' is not a valid absolute URI."
        else if negb (EqualFold (Scheme u) "https") then "callback_url MUST use the https:// scheme (got '" +:+ Scheme u +:+ "://')."
        else if rejectPrivate && isPrivateHost (Hostname u) then
          "callback_url host '" +:+ Hostname u +:+ "' resolves to a private or loopback address (SSRF guard)."
        else ""
    end.
End Callback.

(** ** Streams *)

(** What [writeStream] has written: [emits] counts the calls of [emit]. *)
Record stream_state : Type := MkStreamState { emitted : list ActionStreamFrame; nextSeq : Z; terminal : bool; emits : nat }.

Section Stream.
Context {S : Type} (streamID : string).
(** The state of the context and of the connection at each call of [emit]. *)
Context (ctx_at : nat -> option ctx_error) (write_at : nat -> option string).

Definition emit (ws : stream_state) (supplied : option ActionStreamFrame) : option exec_error * stream_state :=
  let n := emits ws in
  let failed e := (Some e, MkStreamState (emitted ws) (nextSeq ws) (terminal ws) (Datatypes.S n)) in
  match ctx_at n with
  | Some e => failed (CtxErr e)
  | None =>
      match supplied with
      | None => failed (internalExecutionError "action stream emitted a nil frame")
      | Some f =>
          if terminal ws then failed (internalExecutionError "action stream emitted frames after its terminal frame")
          else if negb (Seq f =? nextSeq ws) then failed (internalExecutionError "action stream sequence is not contiguous from zero")
          else if negb (String.eqb (sf_ErrorCode f) "") && negb (IsLast f) then
            failed (internalExecutionError "action stream error_code is terminal-only")
          else
            match write_at n with
            | Some t => failed (OtherErr t)
            | None =>
                let frame := MkStreamFrame streamID (Seq f) (IsLast f) (sf_AnchorRef f) (Data f) (WindowSize f) (sf_ErrorCode f) in
                (None, MkStreamState (emitted ws ++ [frame]) (u64 (nextSeq ws + 1)) (IsLast f) (Datatypes.S n))
            end
      end
  end.

Fixpoint run_stream (st : ActionStream S) (ws : stream_state) (p : S) : option exec_error * stream_state * S :=
  match st with
  | SReturn e => (e, ws, p)
  | SEmit f k => let '(e, ws) := emit ws f in run_stream (k e) ws p
  | SAccess upd k => run_stream (k p) ws (upd p)
  end.

(** The frames written, and those of a completed stream. *)
Definition writeStream (st : ActionStream S) (p : S) : list ActionStreamFrame * option (list ActionStreamFrame) * S :=
  let '(err, ws, p) := run_stream st (MkStreamState [] 0 false 0) p in
  let err := match err with
             | None => if terminal ws then None else Some (internalExecutionError "action stream ended without a terminal frame")
             | Some e => Some e
             end in
  let ws := match err with
            | Some e =>
                if negb (terminal ws) && bool_decide (ctx_at (emits ws) = None) then
                  (emit ws (Some (MkStreamFrame "" (nextSeq ws) true "" [] None (executionErrorCode e)))).2
                else ws
            | None => ws
            end in
  let completed := match err, last (emitted ws) with
                   | None, Some f => if String.eqb (sf_ErrorCode f) "" then Some (emitted ws) else None
                   | _, _ => None
                   end in
  (emitted ws, completed, p).

Fixpoint replayActionStream (frames : list ActionStreamFrame) : ActionStream S :=
  match frames with
  | [] => SReturn None
  | f :: r => SEmit (Some f) (fun e => match e with Some e => SReturn (Some e) | None => replayActionStream r end)
  end.
End Stream.

(** ** The server *)

Record ActionFrameWire : Type := MkFrameWire {
  fw_ActionID : string; fw_Params : list byte; fw_IdempotencyKey : string; fw_TimeoutMs : Z; fw_Async : bool; fw_CallbackURL : string;
  fw_Priority : string; fw_RequestID : string
}.

(** A response: its status, its headers and what is written. *)
Inductive reply : Type :=
| JsonReply (status : Z) (headers : list (string * string)) (body : dict)
| CapsReply (headers : list (string * string)) (anchorRef : string) (data : list (list byte)) (tokenEst : Z)
| StreamReply (headers : list (string * string)) (lines : list ActionStreamFrame)
| StaticReply (headers : list (string * string)) (body : list byte)
| StatusReply (status : Z).

(** [taskCancels] holds the ids whose cancel function is registered; cancelling one of
    them is the act of [handleSystemTaskCancel]. *)
Record ActionNodeServer (S : Type) : Type := MkServer {
  tasks : taskmap; cache : cachemap; taskCancels : gset string; state_of : S
}.
Arguments MkServer {S}.
Arguments tasks {S}.
Arguments cache {S}.
Arguments taskCancels {S}.
Arguments state_of {S}.

(** What one request meets: the clock, random identifiers, whether the context ends
    before the provider answers, and its state at the calls of [emit]. *)
Record act_world : Type := MkActWorld {
  aw_clock : nat -> Z; aw_task : string; aw_stream : string; aw_done : option ctx_error; aw_expired : bool;
  aw_ctx_at : nat -> option ctx_error; aw_write_at : nat -> option string
}.

(** A task that a request starts. *)
Record spawn : Type := MkSpawn { sp_frame : ActionFrame; sp_context : ActionContext }.

Section Server.
Context `{GoJSON} {S : Type}.
Context (unmarshal_map : list byte -> option dict * option string) (unmarshal_any : list byte -> option any)
        (marshal_any : any -> option (list byte)) (unmarshal_frame : list byte -> result string ActionFrameWire).
Context (sha256_upper : list byte -> string) (format_time : Z -> string) (marshal_status : ActionTaskRecord -> list byte).
Context (url_Parse : string -> option URL) (parseIPv6 : string -> option (list Z)).
Context (o : ActionNodeOptions) (provider : IActionNodeProvider S).

Abbreviation server := (ActionNodeServer S).

Definition set_tasks (m : taskmap) (s : server) : server := MkServer m (cache s) (taskCancels s) (state_of s).
Definition set_cache (m : cachemap) (s : server) : server := MkServer (tasks s) m (taskCancels s) (state_of s).
Definition set_state (p : S) (s : server) : server := MkServer (tasks s) (cache s) (taskCancels s) p.
Definition set_cancels (g : gset string) (s : server) : server := MkServer (tasks s) (cache s) g (state_of s).

Definition action_prefix : string := trim_slashes (ao_PathPrefix o).

Definition idempotencyTTL : Z := if 0 <? ao_IdempotencyTTL o then ao_IdempotencyTTL o else 24 * 3600 * second.

Definition action_clampTimeout (requested : Z) (spec : ActionSpec) : Z :=
  let maxOpt := if ao_MaxTimeoutMs o =? 0 then 300000 else ao_MaxTimeoutMs o in
  let specMax := if as_TimeoutMsMax spec =? 0 then maxOpt else as_TimeoutMsMax spec in
  let hardMax := if maxOpt <? specMax then maxOpt else specMax in
  if requested =? 0 then
    if 0 <? as_TimeoutMsDefault spec then as_TimeoutMsDefault spec
    else if 0 <? ao_DefaultTimeoutMs o then ao_DefaultTimeoutMs o else 5000
  else if hardMax <? requested then hardMax else requested.

Definition scopedCacheActionID (actionID agentNid : string) : string :=
  ao_NodeID o +:+ unit_separator +:+ actionID +:+ unit_separator +:+ agentNid.

Definition hashParams (p : list byte) : string :=
  sha256_upper
    match p with
    | [] => bytes_of_string "null"
    | _ => match unmarshal_any p with
           | Some v => default p (marshal_any v)
           | None => p
           end
    end.

Definition readStringParam (p : list byte) (name : string) : string :=
  match p with
  | [] => ""
  | _ => match unmarshal_map p with
         | (_, Some _) => ""
         | (m, None) => default "" (as_string (dict_at (default [] m) name))
         end
  end.

Definition toActionFrame (f : ActionFrameWire) : ActionFrame :=
  MkActionFrame (fw_ActionID f)
    (match fw_Params f with [] => VNil | p => default VNil (unmarshal_any p) end) None (fw_Async f)
    (optionalString (fw_IdempotencyKey f)) (if fw_TimeoutMs f =? 0 then None else Some (u32 (fw_TimeoutMs f)))
    (optionalString (fw_RequestID f)).

(** *** Responses *)

Definition json_headers : list (string * string) := [("Content-Type", "application/json")].
Definition request_header (requestID : string) : list (string * string) :=
  if String.eqb requestID "" then [] else [(HeaderRequestID, requestID)].

Definition act_error (status : Z) (npsStatus errorCode message : string) : reply :=
  JsonReply status json_headers [("status", VString npsStatus); ("error", VString errorCode); ("message", VString message)].

Definition writeExecutionError (e : exec_error) (fallback : string) : reply :=
  match e with
  | ExecErr x => act_error (HTTPStatus x) (xe_NpsStatus x) (xe_ErrorCode x) (xe_Message x)
  | _ => act_error 500 "NPS-SERVER-INTERNAL" ErrNodeUnavailable fallback
  end.

Definition writeCaps (payload : list byte) (anchorRef requestID : string) (tokenEst : Z) : reply :=
  CapsReply ([("Content-Type", MimeCapsule); (HeaderNodeType, "action")] ++
             (if String.eqb anchorRef "" then [] else [(HeaderSchema, anchorRef)]) ++
             (if 0 <? tokenEst then [(HeaderTokens, FormatUint tokenEst)] else []) ++ request_header requestID)
    anchorRef (match payload with [] => [] | _ => [payload] end) tokenEst.

Definition writeAsyncResponse (taskID status requestID : string) (estimatedMs : option Z) : reply :=
  JsonReply 202 [("Content-Type", "application/json"); (HeaderNodeType, "action")]
    ([("task_id", VString taskID); ("status", VString status); ("poll_url", VString (action_prefix +:+ "/invoke"))] ++
     match estimatedMs with Some ms => [("estimated_ms", VInt KInt ms)] | None => [] end ++
     (if String.eqb requestID "" then [] else [("request_id", VString requestID)])).

Definition stream_headers (requestID : string) : list (string * string) :=
  [("Content-Type", "application/x-ndjson"); (HeaderNodeType, "action")] ++ request_header requestID.

(** *** Reserved actions *)

Definition owned_task (agentNid taskID : string) (s : server) : result reply ActionTaskRecord :=
  if String.eqb taskID "" then Err (act_error 400 "NPS-CLIENT-BAD-REQUEST" ErrActionParamsInvalid "params.task_id is required.")
  else match tasks_Get (tasks s) taskID with
       | None => Err (act_error 404 "NPS-CLIENT-NOT-FOUND" ErrTaskNotFound ("Unknown task_id '" +:+ taskID +:+ "'."))
       | Some r => if String.eqb (tk_AgentNid r) agentNid then Ok r
                   else Err (act_error 403 "NPS-AUTH-FORBIDDEN" ErrAuthNidScopeViolation "The caller does not own this task.")
       end.

Definition handleSystemTaskStatus (f : ActionFrameWire) (agentNid : string) (s : server) : reply :=
  match owned_task agentNid (readStringParam (fw_Params f) "task_id") s with
  | Err e => e
  | Ok r => writeCaps (marshal_status r) "" (fw_RequestID f) 0
  end.

(** The reply, the server and the task whose context is cancelled. *)
Definition handleSystemTaskCancel (now : Z) (f : ActionFrameWire) (agentNid : string) (s : server) : reply * server * option string :=
  let taskID := readStringParam (fw_Params f) "task_id" in
  match owned_task agentNid taskID s with
  | Err e => (e, s, None)
  | Ok r =>
      if isTerminal (tk_Status r) then
        (act_error 409 "NPS-CLIENT-CONFLICT" ErrTaskAlreadyCancelled
           ("Task '" +:+ taskID +:+ "' is already in a terminal state ('" +:+ tk_Status r +:+ "')."), s, None)
      else
        (writeCaps (marshal_or_nil [("status", VString "cancelled"); ("task_id", VString taskID)]) "" (fw_RequestID f) 0,
         set_tasks (tasks_Cancel now taskID (tasks s)).2 s, if bool_decide (taskID ∈ taskCancels s) then Some taskID else None)
  end.

(** *** Invocation *)

(** The provider's effects happen even when the context ends first. *)
Definition executeWithContext (w : act_world) (f : ActionFrame) (ac : ActionContext) (p : S) :
    result exec_error (option (ActionExecutionResult S)) * S :=
  let '(res, p) := Execute provider f ac p in
  (match aw_done w with Some e => Err (CtxErr e) | None => res end, p).

(** The checks before the provider is asked. *)
Definition admit_frame (f : ActionFrameWire) : result reply ActionSpec :=
  match ao_Actions o !! fw_ActionID f with
  | None => Err (act_error 404 "NPS-CLIENT-NOT-FOUND" ErrActionNotFound ("Unknown action_id '" +:+ fw_ActionID f +:+ "'."))
  | Some spec =>
      if negb (mem_string (fw_Priority f) [""; "low"; "normal"; "high"]) then
        Err (act_error 400 "NPS-CLIENT-BAD-REQUEST" ErrActionParamsInvalid
               ("priority '" +:+ fw_Priority f +:+ "' is invalid (allowed: low/normal/high)."))
      else if fw_Async f && negb (as_Async spec) then
        Err (act_error 400 "NPS-CLIENT-BAD-REQUEST" ErrActionParamsInvalid
               ("action '" +:+ fw_ActionID f +:+ "' does not support async execution."))
      else
        let errMsg := if String.eqb (fw_CallbackURL f) "" then ""
                      else ValidateActionCallback url_Parse parseIPv6 (fw_CallbackURL f) (rejectPrivateCallbacks o) in
        if String.eqb errMsg "" then Ok spec else Err (act_error 400 "NPS-CLIENT-BAD-REQUEST" ErrActionParamsInvalid errMsg)
  end.

Definition action_context (f : ActionFrameWire) (agentNid taskID : string) (spec : ActionSpec) (size : Z) : ActionContext :=
  MkActionContext agentNid (fw_RequestID f) taskID spec (action_clampTimeout (fw_TimeoutMs f) spec)
    (if String.eqb (fw_Priority f) "" then "normal" else fw_Priority f) size.

(** The response of a cached entry. *)
Definition replay_entry (w : act_world) (f : ActionFrameWire) (paramsHash : string) (e : IdempotentEntry) (s : server) : reply :=
  if negb (String.eqb (ParamsHash e) paramsHash) then
    act_error 409 "NPS-CLIENT-CONFLICT" ErrActionIdempotencyConflict "idempotency_key reuse with different params."
  else if negb (String.eqb (ie_TaskID e) "") then
    writeAsyncResponse (ie_TaskID e) (match tasks_Get (tasks s) (ie_TaskID e) with Some r => tk_Status r | None => "pending" end)
      (fw_RequestID f) None
  else
    match StreamFrames e with
    | Some frames => StreamReply (stream_headers (fw_RequestID f))
                       (writeStream (aw_stream w) (aw_ctx_at w) (aw_write_at w) (replayActionStream frames) (state_of s)).1.1
    | None => writeCaps (ie_Result e) (ie_AnchorRef e) (fw_RequestID f) 0
    end.

Definition try_store (w : act_world) (f : ActionFrameWire) (cacheActionID : string) (e : IdempotentEntry) (s : server) : server :=
  if String.eqb (fw_IdempotencyKey f) "" then s
  else set_cache (TryStore (aw_clock w 2%nat) cacheActionID (fw_IdempotencyKey f) e (cache s)).2 s.

Definition invoke_async (w : act_world) (f : ActionFrameWire) (agentNid cacheActionID paramsHash : string) (spec : ActionSpec)
    (size : Z) (s : server) : reply * server * option spawn :=
  let taskID := aw_task w in
  let s := set_tasks (tasks_Create (aw_clock w 1%nat) taskID (fw_ActionID f) (fw_RequestID f) agentNid (tasks s)) s in
  let s := try_store w f cacheActionID (MkIdem (fw_ActionID f) paramsHash [] None "" taskID (aw_clock w 3%nat + idempotencyTTL)) s in
  let s := set_cancels ({[taskID]} ∪ taskCancels s) s in
  (writeAsyncResponse taskID "pending" (fw_RequestID f) (if 0 <? as_TimeoutMsDefault spec then Some (as_TimeoutMsDefault spec) else None),
   s, Some (MkSpawn (toActionFrame f) (action_context f agentNid taskID spec size))).

Definition invoke_sync (w : act_world) (f : ActionFrameWire) (agentNid cacheActionID paramsHash : string) (spec : ActionSpec)
    (size : Z) (s : server) : reply * server :=
  let '(res, p) := executeWithContext w (toActionFrame f) (action_context f agentNid "" spec size) (state_of s) in
  let s := set_state p s in
  match res with
  | Err e =>
      (if aw_expired w then act_error 504 "NPS-SERVER-TIMEOUT" ErrNodeUnavailable "action execution timed out."
       else writeExecutionError e "action execution failed.", s)
  | Ok r =>
      let r := default (MkExecResult [] None "" 0) r in
      let anchorRef := if String.eqb (er_AnchorRef r) "" then as_ResultAnchor spec else er_AnchorRef r in
      match er_Stream r with
      | Some st =>
          let '(lines, completed, p) := writeStream (aw_stream w) (aw_ctx_at w) (aw_write_at w) st (state_of s) in
          let s := set_state p s in
          (StreamReply (stream_headers (fw_RequestID f)) lines,
           match completed with
           | Some frames => try_store w f cacheActionID (MkIdem (fw_ActionID f) paramsHash [] (Some frames) anchorRef "" (aw_clock w 3%nat + idempotencyTTL)) s
           | None => s
           end)
      | None =>
          (writeCaps (er_Result r) anchorRef (fw_RequestID f) (TokenEst r),
           try_store w f cacheActionID (MkIdem (fw_ActionID f) paramsHash (er_Result r) None anchorRef "" (aw_clock w 3%nat + idempotencyTTL)) s)
      end
  end.

(** An invocation that the checks and the authorizer let pass. *)
Definition invoke_admitted (w : act_world) (f : ActionFrameWire) (agentNid : string) (spec : ActionSpec) (size : Z) (s : server) :
    reply * server * option spawn :=
  let cacheActionID := scopedCacheActionID (fw_ActionID f) agentNid in
  let paramsHash := hashParams (fw_Params f) in
  let '(cached, s) := if String.eqb (fw_IdempotencyKey f) "" then (None, s)
                      else let '(e, m) := cache_Get (aw_clock w 0%nat) cacheActionID (fw_IdempotencyKey f) (cache s) in (e, set_cache m s) in
  match cached with
  | Some e => (replay_entry w f paramsHash e s, s, None)
  | None =>
      if fw_Async f then invoke_async w f agentNid cacheActionID paramsHash spec size s
      else (invoke_sync w f agentNid cacheActionID paramsHash spec size s, None)
  end.

Definition handleInvoke (w : act_world) (r : request) (s : server) : reply * server * option spawn * option string :=
  match rq_Body r with
  | Err e => (act_error 400 "NPS-CLIENT-BAD-REQUEST" ErrActionParamsInvalid e, s, None, None)
  | Ok raw =>
      match unmarshal_frame raw with
      | Err _ => (act_error 400 "NPS-CLIENT-BAD-REQUEST" ErrActionParamsInvalid "invalid ActionFrame: missing action_id.", s, None, None)
      | Ok f =>
          let agentNid := rq_Header r HeaderAgent in
          if String.eqb (fw_ActionID f) "" then
            (act_error 400 "NPS-CLIENT-BAD-REQUEST" ErrActionParamsInvalid "invalid ActionFrame: missing action_id.", s, None, None)
          else if String.eqb (fw_ActionID f) SystemTaskStatus then (handleSystemTaskStatus f agentNid s, s, None, None)
          else if String.eqb (fw_ActionID f) SystemTaskCancel then
            let '(rep, s, cancelled) := handleSystemTaskCancel (aw_clock w 0%nat) f agentNid s in (rep, s, None, cancelled)
          else
            match admit_frame f with
            | Err rep => (rep, s, None, None)
            | Ok spec =>
                let size := u64 (Z.of_nat (length raw)) in
                let refused := match Authorize provider with
                               | Some authorize => authorize (toActionFrame f) (action_context f agentNid "" spec size) (state_of s)
                               | None => None
                               end in
                match refused with
                | Some e => (writeExecutionError e "action authorization failed.", s, None, None)
                | None => (invoke_admitted w f agentNid spec size s, None)
                end
            end
      end
  end.

(** *** Routing *)

Definition llmProfileSupportsStream (profiles : option dict) : bool :=
  match as_map (dict_at (default [] profiles) "llm") with
  | Some llm => match dict_at llm "supports_stream" with VBool b => b | _ => false end
  | None => false
  end.

Definition spec_map (spec : ActionSpec) : dict :=
  let text k v := if String.eqb v "" then [] else [(k, VString v)] in
  let num k z := if z =? 0 then [] else [(k, VInt KInt z)] in
  text "description" (as_Description spec) ++ text "params_anchor" (as_ParamsAnchor spec) ++ text "result_anchor" (as_ResultAnchor spec) ++
  [("async", VBool (as_Async spec))] ++ match Idempotent spec with Some b => [("idempotent", VBool b)] | None => [] end ++
  num "timeout_ms_default" (as_TimeoutMsDefault spec) ++ num "timeout_ms_max" (as_TimeoutMsMax spec) ++
  text "required_capability" (as_RequiredCapability spec).

Definition action_nwm : dict :=
  [("nwp", VString "0.4"); ("node_id", VString (ao_NodeID o)); ("node_type", VString "action");
   ("wire_formats", VStrings ["ncp-capsule"; "json"]); ("preferred_format", VString "json");
   ("capabilities", VMap [("query", VBool false); ("stream", VBool (llmProfileSupportsStream (Profiles o))); ("token_budget_hint", VBool true)]);
   ("auth", VMap [("required", VBool (ao_RequireAuth o)); ("identity_type", VString (if ao_RequireAuth o then "nip-cert" else "none"))]);
   ("endpoints", VMap [("invoke", VString (action_prefix +:+ "/invoke")); ("schema", VString (action_prefix +:+ "/.schema"))])] ++
  (if String.eqb (ao_DisplayName o) "" then [] else [("display_name", VString (ao_DisplayName o))]) ++
  match Profiles o with Some p => [("profiles", VMap p)] | None => [] end.

Definition action_list : dict := [("actions", VMap ((fun '(k, v) => (k, VMap (spec_map v))) <$> map_to_list (ao_Actions o)))].

Definition ServeHTTP (w : act_world) (r : request) (s : server) : reply * server * option spawn * option string :=
  match cut_prefix action_prefix (rq_Path r) with
  | None => (StatusReply 404, s, None, None)
  | Some sub =>
      if ao_RequireAuth o && String.eqb (rq_Header r HeaderAgent) "" then
        (act_error 401 "NPS-CLIENT-UNAUTHORIZED" ErrAuthNidScopeViolation "X-NWP-Agent header is required.", s, None, None)
      else if mem_string sub ["/.nwm"; "/.nwm/"] then
        (StaticReply [("Content-Type", MimeManifest); (HeaderNodeType, "action")] (marshal_or_nil action_nwm), s, None, None)
      else if mem_string sub ["/.schema"; "/.schema/"; "/actions"; "/actions/"] then
        (StaticReply json_headers (marshal_or_nil action_list), s, None, None)
      else if mem_string sub ["/invoke"; "/invoke/"] then
        if String.eqb (rq_Method r) "POST" then handleInvoke w r s else (StatusReply 405, s, None, None)
      else (StatusReply 404, s, None, None)
  end.

(** *** Asynchronous tasks *)

(** [runAsyncTask] up to the provider: the task is taken from pending to running. *)
Definition async_start (now : Z) (taskID : string) (s : server) : bool * server :=
  let '(ok, m) := TryTransition now taskID "pending" "running" (tasks s) in (ok, set_tasks m s).

(** The call of the provider. *)
Definition async_execute (w : act_world) (t : spawn) (s : server) : result exec_error (option (ActionExecutionResult S)) * server :=
  let '(res, p) := executeWithContext w (sp_frame t) (sp_context t) (state_of s) in (res, set_state p s).

(** The end of [runAsyncTask]. *)
Definition async_finish (now : Z) (expired : bool) (taskID : string) (res : result exec_error (option (ActionExecutionResult S))) (s : server) : server :=
  let m :=
    match res with
    | Err e =>
        match tasks_Get (tasks s) taskID with
        | Some r =>
            if String.eqb (tk_Status r) "cancelled" then tasks s
            else
              let msg := if expired then "task timed out" else exec_text e in
              (tasks_Fail now taskID (marshal_or_nil [("code", VString (executionErrorCode e)); ("message", VString msg)]) (tasks s)).2
        | None => tasks s
        end
    | Ok r => (tasks_Complete now taskID (er_Result (default (MkExecResult [] None "" 0) r)) (tasks s)).2
    end in
  set_cancels (taskCancels s ∖ {[taskID]}) (set_tasks m s).

Definition runAsyncTask (w : act_world) (t : spawn) (s : server) : server :=
  let taskID := ac_TaskID (sp_context t) in
  let '(ok, s) := async_start (aw_clock w 0%nat) taskID s in
  if negb ok then set_cancels (taskCancels s ∖ {[taskID]}) s
  else let '(res, s) := async_execute w t s in async_finish (aw_clock w 1%nat) (aw_expired w) taskID res s.

(** *** The node and its goroutines *)

(** Where the goroutine of a task is: [go s.runAsyncTask] issued, the provider called,
    or its answer (or the end of the context) in hand. *)
Inductive phase : Type :=
| Spawned (t : spawn)
| Running (t : spawn)
| Answered (t : spawn) (res : result exec_error (option (ActionExecutionResult S))).

Record system : Type := MkSystem { node : server; routines : gmap string phase }.

(** A request, or the goroutine of a task taking its next step. *)
Inductive label : Type :=
| SRequest (w : act_world) (r : request)
| SAdvance (w : act_world) (taskID : string).

(** The next step of [runAsyncTask]; [None] is its return. *)
Definition advance (w : act_world) (taskID : string) (ph : phase) (s : server) : server * option phase :=
  match ph with
  | Spawned t =>
      let '(ok, s) := async_start (aw_clock w 0%nat) taskID s in
      if ok then (s, Some (Running t)) else (set_cancels (taskCancels s ∖ {[taskID]}) s, None)
  | Running t => let '(res, s) := async_execute w t s in (s, Some (Answered t res))
  | Answered _ res => (async_finish (aw_clock w 1%nat) (aw_expired w) taskID res s, None)
  end.

Definition sys_step (l : label) (y : system) : system :=
  match l with
  | SRequest w r =>
      let '(_, s, sp, _) := ServeHTTP w r (node y) in
      MkSystem s match sp with Some t => <[ac_TaskID (sp_context t) := Spawned t]> (routines y) | None => routines y end
  | SAdvance w taskID =>
      match routines y !! taskID with
      | None => y
      | Some ph => let '(s, ph') := advance w taskID ph (node y) in
                   MkSystem s match ph' with Some ph' => <[taskID := ph']> (routines y) | None => delete taskID (routines y) end
      end
  end.
End Server.
