(* ===== verification/NwpActionProof.v ===== *)
(** * What the action server guarantees

    Streams on the wire, replays under an idempotency key, the life cycle of tasks
    and the callback guard. *)

From S2P Require Import Prelude GoValue CoreCodec CoreCache NopExecute NwpAnchor NwpContext NwpAction.

(** ** Streams *)

Section Stream.
Context {S : Type} (streamID : string) (ctx_at : nat -> option ctx_error) (write_at : nat -> option string).

(** Frames of the stream, numbered from [n] without a gap, of which only the last may
    be terminal and only a terminal one may carry an error code. *)
Fixpoint frames_ok (n : nat) (l : list ActionStreamFrame) : Prop :=
  match l with
  | [] => True
  | f :: r => StreamID f = streamID /\ Seq f = u64 (Z.of_nat n) /\
              if IsLast f then r = [] else sf_ErrorCode f = "" /\ frames_ok (Datatypes.S n) r
  end.

Definition ends_terminal (l : list ActionStreamFrame) : bool := match last l with Some f => IsLast f | None => false end.

Lemma ends_terminal_snoc l f : ends_terminal (l ++ [f]) = IsLast f.
Proof. unfold ends_terminal. by rewrite last_snoc. Qed.

Lemma ends_terminal_cons f g l : ends_terminal (f :: g :: l) = ends_terminal (g :: l).
Proof. done. Qed.

Lemma frames_ok_snoc n l f : frames_ok n l -> ends_terminal l = false -> StreamID f = streamID ->
  Seq f = u64 (Z.of_nat (n + length l)) -> (IsLast f = false -> sf_ErrorCode f = "") -> frames_ok n (l ++ [f]).
Proof.
  revert n. induction l as [|g l IH]; intros n Hl Ht Hid Hseq He.
  - cbn in *. rewrite Nat.add_0_r in Hseq. split_and!; [done|done|]. destruct (IsLast f); [done|]. auto.
  - cbn in Hl |- *. destruct Hl as (? & ? & Hg). split_and!; [done|done|]. destruct (IsLast g) eqn:Eg.
    + subst l. unfold ends_terminal in Ht. cbn in Ht. congruence.
    + destruct Hg as [? Hg]. split; [done|]. apply IH; try done.
      * destruct l; [done|by rewrite ends_terminal_cons in Ht].
      * rewrite Hseq. f_equal. cbn [length]. lia.
Qed.

Definition stream_inv (ws : stream_state) : Prop :=
  frames_ok 0 (emitted ws) /\ nextSeq ws = u64 (Z.of_nat (length (emitted ws))) /\ terminal ws = ends_terminal (emitted ws).

Abbreviation emit' := (emit streamID ctx_at write_at).

(** [emit] fails and writes nothing, or writes the frame. *)
Lemma emit_cases ws f :
  (exists e, (emit' ws f).1 = Some e /\ emitted (emit' ws f).2 = emitted ws /\ nextSeq (emit' ws f).2 = nextSeq ws /\ terminal (emit' ws f).2 = terminal ws) \/
  (exists g h, f = Some g /\ (emit' ws f).1 = None /\ terminal ws = false /\ Seq g = nextSeq ws /\ (IsLast g = false -> sf_ErrorCode g = "") /\
     h = MkStreamFrame streamID (Seq g) (IsLast g) (sf_AnchorRef g) (Data g) (WindowSize g) (sf_ErrorCode g) /\
     emitted (emit' ws f).2 = emitted ws ++ [h] /\ nextSeq (emit' ws f).2 = u64 (nextSeq ws + 1) /\ terminal (emit' ws f).2 = IsLast g).
Proof.
  unfold emit. destruct (ctx_at (emits ws)); [left; eauto|]. destruct f as [g|]; [|left; eauto].
  destruct (terminal ws) eqn:Et; [left; eauto|]. destruct (negb (Seq g =? nextSeq ws)) eqn:Es; [left; eauto|].
  destruct (negb (String.eqb _ "") && negb (IsLast g)) eqn:Ee; [left; eauto|]. destruct (write_at (emits ws)); [left; eauto|].
  right. exists g. eexists. bool_hyps. split_and!; try done. intros Hl. rewrite Hl in Ee. cbn in Ee. rewrite andb_true_r in Ee. by bool_hyps.
Qed.

Lemma emit_inv ws f : stream_inv ws -> stream_inv (emit' ws f).2.
Proof.
  intros (Hf & Hs & Ht). destruct (emit_cases ws f) as [(e & _ & E1 & E2 & E3)|(g & h & _ & _ & Hn & Hseq & Hec & -> & E1 & E2 & E3)];
    unfold stream_inv; rewrite E1, E2, E3; [done|]. split_and!.
  - apply frames_ok_snoc; try done; [congruence|]. cbn. congruence.
  - rewrite Hs, length_app. cbn. unfold wrapu. rewrite Zplus_mod_idemp_l. f_equal. lia.
  - by rewrite ends_terminal_snoc.
Qed.

Lemma run_stream_inv (st : ActionStream S) ws p : stream_inv ws -> stream_inv (run_stream streamID ctx_at write_at st ws p).1.2.
Proof.
  revert ws p. induction st as [e|f k IH|upd k IH]; intros ws p Hi; cbn [run_stream]; [done| |by apply IH].
  pose proof (emit_inv ws f Hi) as Hi2. destruct (emit' ws f) as [e ws']. by apply IH.
Qed.

(** The context is alive and the connection takes every frame. *)
Definition healthy : Prop := forall n, ctx_at n = None /\ write_at n = None.

Lemma emit_error_frame ws code : healthy -> terminal ws = false ->
  let f := Some (MkStreamFrame "" (nextSeq ws) true "" [] None code) in
  emitted (emit' ws f).2 = emitted ws ++ [MkStreamFrame streamID (nextSeq ws) true "" [] None code] /\ terminal (emit' ws f).2 = true.
Proof.
  intros Hh Ht. destruct (Hh (emits ws)) as [Hc Hw]. unfold emit. rewrite Hc, Ht, Hw. cbn. rewrite Z.eqb_refl. cbn. by rewrite andb_false_r.
Qed.

(** What the provider's stream function returns, when the server answers its emits. *)
Definition returned (st : ActionStream S) (p : S) : option exec_error := (run_stream streamID ctx_at write_at st (MkStreamState [] 0 false 0) p).1.1.

(** The last line is terminal and carries no error. *)
Definition ends_clean (lines : list ActionStreamFrame) : Prop := exists f, last lines = Some f /\ IsLast f = true /\ sf_ErrorCode f = "".

(** C26. What a stream looks like on the wire, whatever the provider emits and returns:
    every line carries the server's stream id, the lines are numbered from 0 without a
    gap, only the last one may be terminal and only a terminal one may carry an error
    code; a stream counts as completed, with the lines that were written, exactly if
    the provider's function returned no error and the last line is terminal without an
    error code; and as long as the connection and the context hold, the last line is
    terminal, also when the provider fails, stops early or breaks the rules. *)
Theorem stream_well_formed (st : ActionStream S) (p : S) :
  let '(lines, completed, _) := writeStream streamID ctx_at write_at st p in
  frames_ok 0 lines /\
  (completed = Some lines <-> returned st p = None /\ ends_clean lines) /\ (forall fr, completed = Some fr -> fr = lines) /\
  (healthy -> ends_terminal lines = true).
Proof.
  unfold writeStream, returned, ends_clean. pose proof (run_stream_inv st (MkStreamState [] 0 false 0) p) as Hi.
  destruct (run_stream _ _ _ st _ p) as [[err ws] p']. cbn [fst snd] in *.
  assert (Hinv : stream_inv ws) by (apply Hi; done). clear Hi. pose proof Hinv as (Hf & Hs & Ht).
  assert (Hend : terminal ws = true <-> exists f, last (emitted ws) = Some f /\ IsLast f = true).
  { rewrite Ht. unfold ends_terminal. destruct (last (emitted ws)) as [f|]; [|by split; [|intros (? & ? & _)]].
    split; [by exists f|by intros (? & [= <-] & ?)]. }
  destruct err as [e|].
  - destruct (negb (terminal ws) && _) eqn:Eg; (split_and!; [|by split; [|intros [? _]]|done|]).
    + by apply emit_inv.
    + intros Hh. bool_hyps. destruct (emit_error_frame ws (executionErrorCode e) Hh) as [-> _]; [done|]. apply ends_terminal_snoc.
    + done.
    + intros Hh. rewrite <- Ht. apply andb_false_iff in Eg as [Eg|Eg]; [by bool_hyps|]. apply bool_decide_eq_false in Eg. by destruct (Hh (emits ws)).
  - destruct (terminal ws) eqn:Ett.
    + apply proj1 in Hend. destruct Hend as (f & Hl & Hlast); [done|]. rewrite Hl. split_and!; [done| | |intros _; congruence].
      * destruct (String.eqb_spec (sf_ErrorCode f) ""); (split; [intros Ec|intros [_ (g & Hg & _ & Hc)]]); [by eauto|done|done|congruence].
      * destruct (String.eqb _ _); [by intros fr [= <-]|done].
    + cbn [negb andb]. destruct (bool_decide _) eqn:Eg; split_and!; try done.
      * by apply emit_inv.
      * split; [done|]. intros [_ (f & Hl & Hlast & Hc)]. revert Hl Hlast Hc.
        destruct (emit_cases ws (Some (MkStreamFrame "" (nextSeq ws) true "" [] None (executionErrorCode (internalExecutionError "action stream ended without a terminal frame")))))
          as [(e & _ & E1 & _)|(g & h & [= <-] & _ & _ & _ & _ & -> & E1 & _)]; rewrite E1.
        -- intros Hl Hlast _. assert (terminal ws = true) by (rewrite Ett; apply Hend; eauto). congruence.
        -- rewrite last_snoc. by intros [= <-].
      * intros Hh. destruct (emit_error_frame ws (executionErrorCode (internalExecutionError "action stream ended without a terminal frame")) Hh) as [-> _]; [done|].
        apply ends_terminal_snoc.
      * split; [done|]. intros [_ (f & Hl & Hlast & _)]. assert (false = true) by (apply Hend; eauto). done.
      * intros Hh. apply bool_decide_eq_false in Eg. by destruct (Hh (emits ws)).
Qed.

(** The frames of a completed stream are those written. *)
Lemma writeStream_completed (st : ActionStream S) (p : S) fr : (writeStream streamID ctx_at write_at st p).1.2 = Some fr ->
  (writeStream streamID ctx_at write_at st p).1.1 = fr /\ frames_ok 0 fr /\ ends_terminal fr = true.
Proof.
  unfold writeStream. pose proof (run_stream_inv st (MkStreamState [] 0 false 0) p) as Hi.
  destruct (run_stream _ _ _ st _ p) as [[err ws] p']. cbn [fst snd] in Hi. destruct Hi as (Hf & Hs & Ht); [done|].
  destruct err as [e|]; [done|]. destruct (terminal ws) eqn:Ete; [|done]. cbn. destruct (last (emitted ws)) as [f|]; [|done].
  destruct (String.eqb _ _); [|done]. by intros [= <-].
Qed.

(** *** Replays *)

Definition restamp (f : ActionStreamFrame) : ActionStreamFrame :=
  MkStreamFrame streamID (Seq f) (IsLast f) (sf_AnchorRef f) (Data f) (WindowSize f) (sf_ErrorCode f).

End Stream.

Lemma replay_run {S : Type} sid sid0 ctx_at write_at (l : list ActionStreamFrame) ws (p : S) n :
  healthy ctx_at write_at -> frames_ok sid0 n l -> nextSeq ws = u64 (Z.of_nat n) -> terminal ws = false ->
  exists ws', run_stream sid ctx_at write_at (replayActionStream l) ws p = (None, ws', p) /\
    emitted ws' = emitted ws ++ (restamp sid <$> l) /\ terminal ws' = (match last l with Some f => IsLast f | None => false end).
Proof.
  intros Hh. revert ws n. induction l as [|f l IH]; intros ws n Hl Hs Ht.
  { exists ws. cbn. by rewrite app_nil_r, Ht. }
  cbn in Hl. destruct Hl as (_ & Hseq & Hrest). cbn [replayActionStream run_stream]. destruct (Hh (emits ws)) as [Hc Hw].
  assert (Hec : negb (String.eqb (sf_ErrorCode f) "") && negb (IsLast f) = false).
  { destruct (IsLast f); [apply andb_false_r|]. destruct Hrest as [-> _]. done. }
  unfold emit. rewrite Hc, Ht, Hec, Hw, Hseq, Hs, Z.eqb_refl. cbn [negb].
  set (ws1 := MkStreamState _ _ _ _). destruct (IsLast f) eqn:El.
  - subst l. exists ws1. cbn. unfold restamp. by rewrite Hseq, El.
  - destruct Hrest as [_ Hrest]. destruct (IH ws1 (Datatypes.S n) Hrest) as (ws' & -> & He & Hterm).
    + subst ws1. cbn. unfold wrapu. rewrite Zplus_mod_idemp_l. f_equal. lia.
    + done.
    + exists ws'. split; [done|]. split.
      * rewrite He. subst ws1. cbn. rewrite <- app_assoc. cbn. unfold restamp at 2. by rewrite Hseq, El.
      * rewrite Hterm. destruct l; [by cbn; rewrite El|done].
Qed.

(** A completed stream is replayed line by line, under a new stream id. *)
Lemma replay_writes {S : Type} sid sid0 ctx_at write_at (l : list ActionStreamFrame) (p : S) :
  healthy ctx_at write_at -> frames_ok sid0 0 l -> ends_terminal l = true ->
  (writeStream sid ctx_at write_at (replayActionStream l) p).1.1 = restamp sid <$> l.
Proof.
  intros Hh Hl Ht. unfold writeStream. destruct (replay_run sid sid0 ctx_at write_at l (MkStreamState [] 0 false 0) p 0 Hh Hl) as (ws & -> & He & Hterm);
    [done|done|]. unfold ends_terminal in Ht. rewrite Hterm, Ht. cbn. by rewrite He.
Qed.

(** ** Requests *)

Section Server.
Context `{GoJSON} {S : Type}.
Context (unmarshal_map : list byte -> option dict * option string) (unmarshal_any : list byte -> option any)
        (marshal_any : any -> option (list byte)) (unmarshal_frame : list byte -> result string ActionFrameWire).
Context (sha256_upper : list byte -> string) (marshal_status : ActionTaskRecord -> list byte).
Context (url_Parse : string -> option URL) (parseIPv6 : string -> option (list Z)).
Context (o : ActionNodeOptions) (provider : IActionNodeProvider S).

Abbreviation server := (ActionNodeServer S).
Abbreviation to_frame := (toActionFrame unmarshal_any).
Abbreviation invoke := (invoke_admitted unmarshal_any marshal_any sha256_upper o provider).
Abbreviation serve := (ServeHTTP unmarshal_map unmarshal_any marshal_any unmarshal_frame sha256_upper marshal_status url_Parse parseIPv6 o provider).
Abbreviation hash := (hashParams unmarshal_any marshal_any sha256_upper).
Abbreviation cache_key := (fun f agent => idemKey (scopedCacheActionID o (fw_ActionID f) agent) (fw_IdempotencyKey f)).

(** What a request has passed when it reaches the idempotency cache. *)
Definition action_admitted (r : request) (p : S) (f : ActionFrameWire) (spec : ActionSpec) (size : Z) : Prop :=
  (exists raw, rq_Body r = Ok raw /\ unmarshal_frame raw = Ok f /\ size = u64 (Z.of_nat (length raw))) /\
  (rq_Method r = "POST" /\ (ao_RequireAuth o = true -> rq_Header r HeaderAgent <> "") /\
   exists sub, cut_prefix (action_prefix o) (rq_Path r) = Some sub /\ mem_string sub ["/invoke"; "/invoke/"] = true) /\
  fw_ActionID f <> "" /\ fw_ActionID f <> SystemTaskStatus /\ fw_ActionID f <> SystemTaskCancel /\
  ao_Actions o !! fw_ActionID f = Some spec /\ mem_string (fw_Priority f) [""; "low"; "normal"; "high"] = true /\
  (fw_Async f = true -> as_Async spec = true) /\
  (fw_CallbackURL f <> "" -> ValidateActionCallback url_Parse parseIPv6 (fw_CallbackURL f) (rejectPrivateCallbacks o) = "") /\
  (forall authorize, Authorize provider = Some authorize -> authorize (to_frame f) (action_context o f (rq_Header r HeaderAgent) "" spec size) p = None).

Lemma admit_frame_ok f spec : admit_frame url_Parse parseIPv6 o f = Ok spec <->
  ao_Actions o !! fw_ActionID f = Some spec /\ mem_string (fw_Priority f) [""; "low"; "normal"; "high"] = true /\
  (fw_Async f = true -> as_Async spec = true) /\
  (fw_CallbackURL f <> "" -> ValidateActionCallback url_Parse parseIPv6 (fw_CallbackURL f) (rejectPrivateCallbacks o) = "").
Proof.
  unfold admit_frame. destruct (ao_Actions o !! _) as [sp|]; [|split; [done|by intros [? _]]].
  destruct (mem_string _ _); cbn [negb]; [|split; [done|by intros (_ & ? & _)]].
  destruct (fw_Async f), (as_Async sp) eqn:Ea; cbn [andb negb];
    try (split; [done|intros ([= ->] & _ & Hx & _); rewrite Hx in Ea; done]);
    (destruct (String.eqb_spec (fw_CallbackURL f) "") as [Ec|Ec]; [cbn|destruct (String.eqb_spec (ValidateActionCallback url_Parse parseIPv6 (fw_CallbackURL f) (rejectPrivateCallbacks o)) "")]);
    split; try (intros [= <-]; split_and!; done || (intros; congruence)); try (intros ([= <-] & _); done);
    try done; intros (_ & _ & _ & Hx); naive_solver.
Qed.

(** A request changes nothing, cancels a task of its sender, or is admitted. *)
Lemma act_serve_cases w r (s : server) :
  (exists rep, serve w r s = (rep, s, None, None)) \/
  (exists t id c rep, tasks s !! id = Some t /\ tk_AgentNid t = rq_Header r HeaderAgent /\ isTerminal (tk_Status t) = false /\
     serve w r s = (rep, set_tasks (tasks_Cancel (aw_clock w 0%nat) id (tasks s)).2 s, None, c)) \/
  (exists f spec size, action_admitted r (state_of s) f spec size /\
     serve w r s = (invoke w f (rq_Header r HeaderAgent) spec size s, None)).
Proof.
  unfold serve. unfold ServeHTTP. destruct (cut_prefix _ _) as [sub|] eqn:Ep; [|eauto].
  destruct (ao_RequireAuth o && _) eqn:Ea; [eauto|]. destruct (mem_string sub _); [eauto|]. destruct (mem_string sub _); [eauto|].
  destruct (mem_string sub _) eqn:Es; [|eauto]. destruct (String.eqb_spec (rq_Method r) "POST") as [Em|]; [|eauto].
  unfold handleInvoke. destruct (rq_Body r) as [raw|] eqn:Eb; [|eauto]. destruct (unmarshal_frame raw) as [f|] eqn:Ef; [|eauto].
  destruct (String.eqb_spec (fw_ActionID f) ""); [eauto|]. destruct (String.eqb_spec (fw_ActionID f) SystemTaskStatus); [eauto|].
  destruct (String.eqb_spec (fw_ActionID f) SystemTaskCancel).
  - unfold handleSystemTaskCancel, owned_task. destruct (String.eqb (readStringParam _ _ _) ""); [eauto|].
    destruct (tasks_Get _ _) as [t|] eqn:Et; [|eauto]. destruct (String.eqb_spec (tk_AgentNid t) (rq_Header r HeaderAgent)); [|eauto].
    destruct (isTerminal (tk_Status t)) eqn:Ei; [eauto|]. right; left. by do 4 eexists.
  - destruct (admit_frame _ _ _ f) as [spec|] eqn:Ead; [|eauto]. apply admit_frame_ok in Ead as (? & ? & ? & ?).
    destruct (match Authorize provider with Some _ => _ | None => None end) eqn:Eau; [eauto|].
    right; right. exists f, spec, (u64 (Z.of_nat (length raw))). split; [|done]. split_and!; eauto.
    + intros Hr. rewrite Hr in Ea. cbn in Ea. by bool_hyps.
    + intros authorize Hau. by rewrite Hau in Eau.
Qed.

(** *** Entries last *)

Lemma get_keeps (k : string) e now a key (m : cachemap) : m !! k = Some e -> now < ExpiresAt e -> (cache_Get now a key m).2 !! k = Some e.
Proof.
  intros He Hn. unfold cache_Get. destruct (m !! idemKey a key) as [e'|] eqn:Ek; [|done]. destruct (negb _) eqn:Ea; [|done]. cbn.
  rewrite lookup_delete_ne; [done|]. intros <-. rewrite He in Ek. injection Ek as <-. unfold after in Ea. bool_hyps. lia.
Qed.

Lemma store_keeps (k : string) e now a key e' (m : cachemap) : m !! k = Some e -> now < ExpiresAt e -> (TryStore now a key e' m).2 !! k = Some e.
Proof.
  intros He Hn. unfold TryStore. destruct (decide (idemKey a key = k)) as [->|Hk].
  - rewrite He. unfold after. by apply Z.ltb_lt in Hn as ->.
  - destruct (m !! idemKey a key); [destruct (after _ _); [done|]|]; cbn; by rewrite lookup_insert_ne.
Qed.

(** What [invoke] does to the cache: a read, then at most one store. *)
Lemma invoke_cache w f agent spec size (s : server) :
  let a := scopedCacheActionID o (fw_ActionID f) agent in
  let m := (cache_Get (aw_clock w 0%nat) a (fw_IdempotencyKey f) (cache s)).2 in
  let c := cache (invoke w f agent spec size s).1.2 in
  c = cache s \/ c = m \/ (exists e, c = (TryStore (aw_clock w 2%nat) a (fw_IdempotencyKey f) e m).2).
Proof.
  cbn zeta. unfold invoke_admitted. destruct (String.eqb (fw_IdempotencyKey f) "") eqn:Ek; [left|].
  - unfold invoke_async, invoke_sync, try_store. rewrite Ek. destruct (fw_Async f); [done|]. destruct (executeWithContext _ _ _ _ _) as [[r|e] p]; [|done].
    cbn. destruct (er_Stream _); [|done]. by destruct (writeStream _ _ _ _ _) as [[lines [fr|]] p'].
  - destruct (cache_Get _ _ _ _) as [[e|] m] eqn:Eg; [right; by left|]. cbn [snd]. right.
    unfold invoke_async, invoke_sync, try_store. rewrite Ek. destruct (fw_Async f); [right; by eexists|].
    destruct (executeWithContext _ _ _ _ _) as [[r|e] p]; [|by left].
    cbn. destruct (er_Stream _); [|right; by eexists]. destruct (writeStream _ _ _ _ _) as [[lines [fr|]] p']; [right; by eexists|by left].
Qed.

Lemma serve_keeps_entry (k : string) e w r (s : server) : cache s !! k = Some e -> aw_clock w 0%nat < ExpiresAt e -> aw_clock w 2%nat < ExpiresAt e ->
  cache (serve w r s).1.1.2 !! k = Some e.
Proof.
  intros He H0 H2. destruct (act_serve_cases w r s) as [(rep & ->)|[(t & id & c & rep & _ & _ & _ & ->)|(f & spec & size & _ & ->)]]; [done|done|].
  cbn [fst snd]. destruct (invoke_cache w f (rq_Header r HeaderAgent) spec size s) as [->|[->|[e' ->]]]; [done|by apply get_keeps|].
  apply store_keeps; [|done]. by apply get_keeps.
Qed.

(** *** Tasks *)

Lemma invoke_tasks w f agent spec size (s : server) : let '(rep, s', sp) := invoke w f agent spec size s in
  (tasks s' = tasks s /\ sp = None /\ taskCancels s' = taskCancels s) \/
  (fw_Async f = true /\ tasks s' = tasks_Create (aw_clock w 1%nat) (aw_task w) (fw_ActionID f) (fw_RequestID f) agent (tasks s) /\
   sp = Some (MkSpawn (to_frame f) (action_context o f agent (aw_task w) spec size)) /\ taskCancels s' = {[aw_task w]} ∪ taskCancels s).
Proof.
  unfold invoke_admitted. destruct (if String.eqb _ "" then _ else _) as [cached s0] eqn:Ec.
  assert (Ht : tasks s0 = tasks s /\ taskCancels s0 = taskCancels s).
  { destruct (String.eqb _ "") in Ec; [by injection Ec as _ <-|]. destruct (cache_Get _ _ _ _). by injection Ec as _ <-. }
  destruct Ht as [Ht Hc]. destruct cached as [e|]; [by left|]. destruct (fw_Async f).
  - unfold invoke_async, try_store. destruct (String.eqb _ ""); cbn; rewrite Ht, Hc; by right.
  - unfold invoke_sync, try_store. destruct (executeWithContext _ _ _ _ _) as [[r|e] p]; cbn; [|by left].
    destruct (er_Stream _); [destruct (writeStream _ _ _ _ _) as [[lines [fr|]] p']|]; destruct (String.eqb _ ""); by left.
Qed.

(** ** Histories *)

(** The steps of a server: requests, and those of the goroutines of its tasks. *)
Inductive event : Type :=
| Request (w : act_world) (r : request)
| TaskStart (now : Z) (taskID : string)
| TaskExecute (w : act_world) (t : spawn)
| TaskFinish (now : Z) (expired : bool) (taskID : string) (res : result exec_error (option (ActionExecutionResult S))).

Definition apply_event (s : server) (ev : event) : server :=
  match ev with
  | Request w r => (serve w r s).1.1.2
  | TaskStart now id => (async_start now id s).2
  | TaskExecute w t => (async_execute provider w t s).2
  | TaskFinish now expired id res => async_finish now expired id res s
  end.

Definition run_events (evs : list event) (s : server) : server := fold_left apply_event evs s.

(** The clock is below [e] when a request reads it for the cache. *)
Definition before (e : Z) (ev : event) : Prop :=
  match ev with Request w _ => aw_clock w 0%nat < e /\ aw_clock w 2%nat < e | _ => True end.

Lemma events_keep_entry (k : string) e evs (s : server) : cache s !! k = Some e -> Forall (before (ExpiresAt e)) evs -> cache (run_events evs s) !! k = Some e.
Proof.
  intros He Hb. revert s He. induction Hb as [|ev evs Hev _ IH]; intros s He; [done|]. apply IH. destruct ev as [w r|now id|w t|now x id res]; cbn.
  - by apply serve_keeps_entry; [|apply Hev..].
  - unfold async_start. by destruct (TryTransition _ _ _ _ _).
  - unfold async_execute. by destruct (executeWithContext _ _ _ _ _).
  - done.
Qed.

(** *** The life of a task *)

(** The changes an event taken alone makes to the record of the task [id], which is not
    in a terminal state; in what order its goroutine makes them is below. *)
Definition record_change (ev : event) (id : string) (t t' : ActionTaskRecord) : Prop :=
  isTerminal (tk_Status t) = false /\
  match ev with
  | Request w r => rq_Header r HeaderAgent = tk_AgentNid t /\ t' = with_status (aw_clock w 0%nat) "cancelled" t
  | TaskStart now id' => id' = id /\ tk_Status t = "pending" /\ t' = with_status now "running" t
  | TaskExecute _ _ => False
  | TaskFinish now _ id' (Ok r) =>
      id' = id /\ t' = MkTask (tk_TaskID t) (tk_ActionID t) "completed" (Some one_float) (CreatedAt t) now (tk_RequestID t) (tk_AgentNid t)
                         (Some (er_Result (default (MkExecResult [] None "" 0) r))) (tk_Error t)
  | TaskFinish now _ id' (Err e) =>
      id' = id /\ exists payload, t' = MkTask (tk_TaskID t) (tk_ActionID t) "failed" (Progress t) (CreatedAt t) now (tk_RequestID t)
                                         (tk_AgentNid t) (tk_Result t) (Some payload)
  end.

(** Random task ids do not repeat. *)
Definition fresh_id (s : server) (ev : event) : Prop := match ev with Request w _ => tasks s !! aw_task w = None | _ => True end.

Fixpoint fresh_ids (s : server) (evs : list event) : Prop :=
  match evs with [] => True | ev :: r => fresh_id s ev /\ fresh_ids (apply_event s ev) r end.

Definition same_task (t t' : ActionTaskRecord) : Prop :=
  tk_TaskID t' = tk_TaskID t /\ tk_ActionID t' = tk_ActionID t /\ CreatedAt t' = CreatedAt t /\ tk_RequestID t' = tk_RequestID t /\
  tk_AgentNid t' = tk_AgentNid t.

Lemma record_change_same ev id t t' : record_change ev id t t' -> same_task t t'.
Proof.
  intros [_ Hs]. destruct ev as [w r|now id'|w tk|now x id' [r|e]]; [destruct Hs as [_ ->]|destruct Hs as (_ & _ & ->)|done|destruct Hs as [_ ->]|destruct Hs as (_ & p & ->)]; done.
Qed.

Lemma record_change_not_pending ev id t t' : record_change ev id t t' -> tk_Status t' <> "pending".
Proof.
  intros [_ Hs]. destruct ev as [w r|now id'|w tk|now x id' [r|e]]; [destruct Hs as [_ ->]|destruct Hs as (_ & _ & ->)|done|destruct Hs as [_ ->]|destruct Hs as (_ & p & ->)]; done.
Qed.

Lemma insert_step (m : taskmap) id id' t t1 t1' (P : ActionTaskRecord -> ActionTaskRecord -> Prop) :
  m !! id = Some t -> m !! id' = Some t1 -> (id' = id -> t1 = t -> P t t1') ->
  exists t', <[id' := t1']> m !! id = Some t' /\ (t' = t \/ P t t').
Proof.
  intros Ht H1 Hp. destruct (decide (id' = id)) as [->|Hne].
  - rewrite Ht in H1. injection H1 as <-. exists t1'. rewrite lookup_insert_eq. auto.
  - exists t. rewrite lookup_insert_ne; auto.
Qed.

Lemma event_task ev (s : server) id t : tasks s !! id = Some t -> fresh_id s ev ->
  exists t', tasks (apply_event s ev) !! id = Some t' /\ (t' = t \/ record_change ev id t t').
Proof.
  intros Ht Hfr. assert (Hsame : exists t', tasks s !! id = Some t' /\ (t' = t \/ record_change ev id t t')) by eauto.
  destruct ev as [w r|now id'|w tk|now x id' res]; cbn [apply_event].
  - destruct (act_serve_cases w r s) as [(rep & ->)|[(t1 & id1 & c & rep & H1 & Hag & Hter & ->)|(f & spec & size & _ & ->)]]; [done| |].
    + cbn. unfold tasks_Cancel. rewrite H1, Hter. cbn. eapply insert_step; [done..|]. intros -> ->. by split.
    + pose proof (invoke_tasks w f (rq_Header r HeaderAgent) spec size s) as Hi. destruct (invoke _ _ _ _ _ _) as [[rep s'] sp]. cbn.
      destruct Hi as [(-> & _)|(_ & -> & _)]; [done|]. exists t. unfold tasks_Create. rewrite lookup_insert_ne; [auto|]. cbn in Hfr. congruence.
  - unfold async_start, TryTransition. destruct (tasks s !! id') as [t1|] eqn:H1; [|done].
    destruct (String.eqb_spec (tk_Status t1) "pending") as [Hp|]; [|done]. cbn. eapply insert_step; [done..|]. intros -> ->. split; [by rewrite Hp|done].
  - unfold async_execute. by destruct (executeWithContext _ _ _ _ _).
  - unfold async_finish, tasks_Get, tasks_Complete, tasks_Fail. cbn. destruct res as [r|e], (tasks s !! id') as [t1|] eqn:H1; try done.
    + destruct (isTerminal _) eqn:Hi; [done|]. eapply insert_step; [done..|]. by intros -> ->.
    + destruct (String.eqb _ "cancelled"); [done|]. destruct (isTerminal _) eqn:Hi; [done|]. cbn. eapply insert_step; [done..|]. intros -> ->. split; eauto.
Qed.

Lemma events_task evs (s : server) id t : tasks s !! id = Some t -> fresh_ids s evs ->
  exists t', tasks (run_events evs s) !! id = Some t' /\ rtc (fun t t' => exists ev, ev ∈ evs /\ record_change ev id t t') t t'.
Proof.
  revert s t. induction evs as [|ev evs IH]; intros s t Ht Hfr; [eauto using rtc_refl|]. destruct Hfr as [Hf Hfr].
  destruct (event_task ev s id t Ht Hf) as (t1 & H1 & Hstep). destruct (IH _ _ H1 Hfr) as (t' & H' & Hr). exists t'. split; [done|].
  assert (Hr' : rtc (fun t t' => exists ev', ev' ∈ ev :: evs /\ record_change ev' id t t') t1 t').
  { eapply (rtc_subrel _ _ t1 t' _ Hr). Unshelve. intros a b (e & He & Hs). exists e. split; [by right|done]. }
  destruct Hstep as [->|Hstep]; [done|]. eapply rtc_l; [|done]. exists ev. split; [by left|done].
Qed.

(** *** The node with the goroutines of its tasks *)

Abbreviation sysstep := (sys_step unmarshal_map unmarshal_any marshal_any unmarshal_frame sha256_upper marshal_status url_Parse parseIPv6 o provider).

Abbreviation sys := (@system S).

Definition run_system (ls : list label) (y : sys) : sys := fold_left (fun y l => sysstep l y) ls y.

(** Random task ids do not repeat. *)
Definition fresh_label (y : sys) (l : label) : Prop := match l with SRequest w _ => tasks (node y) !! aw_task w = None | SAdvance _ _ => True end.

Fixpoint fresh_labels (y : sys) (ls : list label) : Prop :=
  match ls with [] => True | l :: r => fresh_label y l /\ fresh_labels (sysstep l y) r end.

(** A goroutine that stands at each phase leaves the record of its task in these states. *)
Definition phase_fits (ph : @phase S) (status : string) : Prop :=
  match ph with Spawned _ => status = "pending" \/ status = "cancelled" | _ => status = "running" \/ status = "cancelled" end.

(** A goroutine has its record, in a state that fits, and a record without a goroutine
    is in a terminal state. *)
Definition record_ok (t : option ActionTaskRecord) (ph : option (@phase S)) : Prop :=
  match t, ph with
  | Some t, Some ph => phase_fits ph (tk_Status t)
  | Some t, None => isTerminal (tk_Status t) = true
  | None, Some _ => False
  | None, None => True
  end.

Definition system_ok (y : sys) : Prop := forall id, record_ok (tasks (node y) !! id) (routines y !! id).

(** The change the step [l] makes to the record [t] of the task [id]: a request of its
    owner cancels it, its goroutine takes it from pending to running, and once it has the
    answer of the provider, from running to completed with that answer or to failed. *)
Definition task_moves (l : label) (y : sys) (id : string) (t t' : ActionTaskRecord) : Prop :=
  match l with
  | SRequest w r => isTerminal (tk_Status t) = false /\ rq_Header r HeaderAgent = tk_AgentNid t /\ t' = with_status (aw_clock w 0%nat) "cancelled" t
  | SAdvance w id' =>
      id' = id /\
      match routines y !! id with
      | Some (Spawned _) => tk_Status t = "pending" /\ t' = with_status (aw_clock w 0%nat) "running" t
      | Some (Answered _ (Ok r)) =>
          tk_Status t = "running" /\
          t' = MkTask (tk_TaskID t) (tk_ActionID t) "completed" (Some one_float) (CreatedAt t) (aw_clock w 1%nat) (tk_RequestID t) (tk_AgentNid t)
                 (Some (er_Result (default (MkExecResult [] None "" 0) r))) (tk_Error t)
      | Some (Answered _ (Err e)) =>
          tk_Status t = "running" /\
          t' = MkTask (tk_TaskID t) (tk_ActionID t) "failed" (Progress t) (CreatedAt t) (aw_clock w 1%nat) (tk_RequestID t) (tk_AgentNid t) (tk_Result t)
                 (Some (marshal_or_nil [("code", VString (executionErrorCode e)); ("message", VString (if aw_expired w then "task timed out" else exec_text e))]))
      | _ => False
      end
  end.

(** The record of the task [id] through the steps [ls]: at each one it stays as it is or
    makes the move of that step. *)
Fixpoint life (id : string) (ls : list label) (y : sys) (t t' : ActionTaskRecord) : Prop :=
  match ls with
  | [] => t' = t
  | l :: r => exists u, tasks (node (sysstep l y)) !! id = Some u /\ (u = t \/ task_moves l y id t u) /\ life id r (sysstep l y) u t'
  end.

(** A step touches one task, and there keeps the record and the goroutine together. *)
Definition local_step (l : label) (y : sys) (id : string) : Prop :=
  let y' := sysstep l y in
  (forall id', id' <> id -> tasks (node y') !! id' = tasks (node y) !! id' /\ routines y' !! id' = routines y !! id') /\
  record_ok (tasks (node y') !! id) (routines y' !! id) /\
  (forall t, tasks (node y) !! id = Some t -> exists u, tasks (node y') !! id = Some u /\ (u = t \/ task_moves l y id t u)).

Lemma local_same l y id : system_ok y -> tasks (node (sysstep l y)) = tasks (node y) -> routines (sysstep l y) = routines y -> local_step l y id.
Proof. intros Hok Ht Hr. unfold local_step. cbn zeta. rewrite Ht, Hr. split_and!; [done|apply Hok|eauto]. Qed.

Lemma phase_cancelled ph : phase_fits ph "cancelled".
Proof. destruct ph; by right. Qed.

Lemma request_local w r y : system_ok y -> fresh_label y (SRequest w r) -> exists id, local_step (SRequest w r) y id.
Proof.
  intros Hok Hfr. destruct (act_serve_cases w r (node y)) as [(rep & Hs)|[(t & id & c & rep & Ht & Hag & Hter & Hs)|(f & spec & size & _ & Hs)]].
  - exists "". apply local_same; [done|..]; cbn; by rewrite Hs.
  - exists id. assert (Hy : sysstep (SRequest w r) y = MkSystem (set_tasks (<[id := with_status (aw_clock w 0%nat) "cancelled" t]> (tasks (node y))) (node y)) (routines y)).
    { cbn [sys_step]. rewrite Hs. unfold tasks_Cancel. by rewrite Ht, Hter. }
    unfold local_step. rewrite Hy. cbn. split_and!.
    + intros id' Hne. by rewrite lookup_insert_ne.
    + rewrite lookup_insert_eq. specialize (Hok id). rewrite Ht in Hok. cbn in *. destruct (routines y !! id); [apply phase_cancelled|done].
    + intros t0. rewrite Ht. intros [= <-]. rewrite lookup_insert_eq. eauto 7.
  - pose proof (invoke_tasks w f (rq_Header r HeaderAgent) spec size (node y)) as Hi.
    assert (Hy : sysstep (SRequest w r) y = let '(_, s, sp) := invoke w f (rq_Header r HeaderAgent) spec size (node y) in
      MkSystem s match sp with Some t => <[ac_TaskID (sp_context t) := Spawned t]> (routines y) | None => routines y end).
    { cbn [sys_step]. rewrite Hs. by destruct (invoke _ _ _ _ _ _) as [[? ?] ?]. }
    destruct (invoke _ _ _ _ _ _) as [[rep s'] sp]. destruct Hi as [(Ht & -> & _)|(_ & Ht & -> & _)].
    + exists "". apply local_same; [done|..]; by rewrite Hy.
    + exists (aw_task w). unfold local_step. rewrite Hy. cbn. rewrite Ht. unfold tasks_Create. cbn in Hfr. split_and!.
      * intros id' Hne. by rewrite !lookup_insert_ne.
      * rewrite !lookup_insert_eq. by left.
      * intros t. congruence.
Qed.

Lemma advance_local w id y : system_ok y -> local_step (SAdvance w id) y id.
Proof.
  intros Hok. destruct (routines y !! id) as [ph|] eqn:Er; [|apply local_same; [done|..]; cbn; by rewrite Er].
  pose proof (Hok id) as Hid. rewrite Er in Hid. destruct (tasks (node y) !! id) as [t|] eqn:Et; [|done]. cbn in Hid.
  unfold local_step, task_moves. cbn [sys_step]. rewrite Er, Et. destruct ph as [sp|sp|sp res]; cbn [advance phase_fits] in *.
  - unfold async_start, TryTransition. rewrite Et. destruct Hid as [Hp|Hp]; rewrite Hp; cbn.
    + split_and!; [intros id' Hne; by rewrite !lookup_insert_ne|rewrite !lookup_insert_eq; by left|]. intros t0 [= <-]. rewrite lookup_insert_eq. eauto 7.
    + split_and!; [intros id' Hne; by rewrite lookup_delete_ne|rewrite lookup_delete_eq, Et; cbn; by rewrite Hp|]. intros t0 [= <-]. eauto.
  - unfold async_execute. destruct (executeWithContext _ _ _ _ _) as [res p]. cbn. rewrite Et, lookup_insert_eq.
    split_and!; [intros id' Hne; by rewrite lookup_insert_ne|done|]. intros t0 [= <-]. eauto.
  - unfold async_finish, tasks_Get, tasks_Complete, tasks_Fail. cbn. rewrite lookup_delete_eq.
    destruct Hid as [Hp|Hp], res as [r|e]; rewrite Et, Hp; cbn; rewrite ?lookup_insert_eq, ?Et; cbn; rewrite ?Hp;
      (split_and!; [intros id' Hne; by rewrite ?lookup_insert_ne, lookup_delete_ne|done|]); intros t0 [= <-]; eexists; (split; [done|]); first [by left|right; by split_and!].
Qed.

Lemma label_local l y : system_ok y -> fresh_label y l -> exists id, local_step l y id.
Proof. destruct l as [w r|w id]; intros Hok Hfr; [by apply request_local|]. exists id. by apply advance_local. Qed.

Lemma sysstep_ok l y : system_ok y -> fresh_label y l -> system_ok (sysstep l y).
Proof.
  intros Hok Hfr. destruct (label_local l y Hok Hfr) as (id & Hne & Hid & _). intros id'. destruct (decide (id' = id)) as [->|Hd]; [done|].
  destruct (Hne id' Hd) as [-> ->]. apply Hok.
Qed.

Lemma sysstep_task l y id t : system_ok y -> fresh_label y l -> tasks (node y) !! id = Some t ->
  exists u, tasks (node (sysstep l y)) !! id = Some u /\ (u = t \/ task_moves l y id t u).
Proof.
  intros Hok Hfr Ht. destruct (label_local l y Hok Hfr) as (id' & Hne & _ & Hid). destruct (decide (id = id')) as [<-|Hd]; [by apply Hid|].
  destruct (Hne id Hd) as [-> _]. eauto.
Qed.

Lemma fresh_labels_app y before after : fresh_labels y (before ++ after) -> fresh_labels y before /\ fresh_labels (run_system before y) after.
Proof. revert y. induction before as [|l r IH]; intros y; [by split|]. intros [? Hr]. apply IH in Hr as [? ?]. by repeat split. Qed.

Lemma run_system_ok ls y : system_ok y -> fresh_labels y ls -> system_ok (run_system ls y).
Proof. revert y. induction ls as [|l r IH]; intros y Hok Hfr; [done|]. destruct Hfr. apply IH; [by apply sysstep_ok|done]. Qed.

Lemma run_system_life ls y id t : system_ok y -> fresh_labels y ls -> tasks (node y) !! id = Some t ->
  exists t', tasks (node (run_system ls y)) !! id = Some t' /\ life id ls y t t'.
Proof.
  revert y t. induction ls as [|l r IH]; intros y t Hok Hfr Ht; [by exists t|]. destruct Hfr as [Hf Hfr].
  destruct (sysstep_task l y id t Hok Hf Ht) as (u & Hu & Hmv). destruct (IH _ u (sysstep_ok l y Hok Hf) Hfr Hu) as (t' & Ht' & Hl).
  exists t'. split; [done|]. by exists u.
Qed.

(** A move keeps the identity of the task, leaves a state that is not terminal, and
    does not lead to pending. *)
Lemma task_moves_shape l y id t t' : task_moves l y id t t' ->
  same_task t t' /\ isTerminal (tk_Status t) = false /\ tk_Status t' <> "pending".
Proof.
  destruct l as [w r|w id']; cbn; [intros (Hi & _ & ->); by split_and!|]. intros [_ Hm].
  destruct (routines y !! id) as [[sp|sp|sp [r|e]]|]; try done; destruct Hm as [Hs ->]; rewrite Hs; by split_and!.
Qed.

Lemma life_shape id ls y t t' : life id ls y t t' ->
  same_task t t' /\ (isTerminal (tk_Status t) = true -> t' = t) /\ (tk_Status t' = "pending" -> t' = t).
Proof.
  revert y t. induction ls as [|l r IH]; intros y t; [by intros ->|]. intros (u & _ & Hmv & Hl). apply IH in Hl as (Hs & Ht & Hp).
  destruct Hmv as [->|Hmv]; [done|]. apply task_moves_shape in Hmv as (Hs' & Hn & Hp'). split_and!.
  - unfold same_task in *. intuition congruence.
  - congruence.
  - intros Hq. by rewrite <- (Hp Hq) in Hp'.
Qed.

(** Three steps of its goroutine end a task. *)
Definition steps_left (ph : option (@phase S)) : nat :=
  match ph with Some (Spawned _) => 3 | Some (Running _) => 2 | Some (Answered _ _) => 1 | None => 0 end.

Lemma advance_left w id y : (steps_left (routines (sysstep (SAdvance w id) y) !! id) <= steps_left (routines y !! id) - 1)%nat.
Proof.
  cbn [sys_step]. destruct (routines y !! id) as [[sp|sp|sp res]|] eqn:Er; cbn [advance].
  - destruct (async_start _ _ _) as [[] s]; cbn; [rewrite lookup_insert_eq|rewrite lookup_delete_eq]; cbn; lia.
  - destruct (async_execute _ _ _ _) as [res s]. cbn. by rewrite lookup_insert_eq.
  - cbn. by rewrite lookup_delete_eq.
  - by rewrite Er.
Qed.

Lemma three_steps_end w1 w2 w3 id t y : system_ok y -> tasks (node y) !! id = Some t ->
  exists t', tasks (node (run_system [SAdvance w1 id; SAdvance w2 id; SAdvance w3 id] y)) !! id = Some t' /\ isTerminal (tk_Status t') = true.
Proof.
  intros Hok Ht. set (ls := [_; _; _]). assert (Hfr : fresh_labels y ls) by done.
  destruct (run_system_life ls y id t Hok Hfr Ht) as (t' & Ht' & _). exists t'. split; [done|].
  pose proof (run_system_ok ls y Hok Hfr id) as Hr. rewrite Ht' in Hr. cbn [fold_left run_system ls] in Hr.
  pose proof (advance_left w1 id y). pose proof (advance_left w2 id (sysstep (SAdvance w1 id) y)).
  pose proof (advance_left w3 id (sysstep (SAdvance w2 id) (sysstep (SAdvance w1 id) y))).
  unfold run_system, ls in Hr. cbn [fold_left] in Hr. destruct (routines _ !! id) as [ph|] in Hr, H2; [|done].
  assert (steps_left (routines y !! id) <= 3)%nat by (destruct (routines y !! id) as [[]|]; cbn; lia). destruct ph; cbn in *; lia.
Qed.

(** Left alone, a goroutine runs [runAsyncTask]. *)
Lemma advance_runs w t y : routines y !! ac_TaskID (sp_context t) = Some (Spawned t) ->
  let l := SAdvance w (ac_TaskID (sp_context t)) in node (run_system [l; l; l] y) = runAsyncTask provider w t (node y).
Proof.
  intros Hr. unfold run_system, runAsyncTask. cbn [fold_left sys_step]. rewrite Hr. cbn [advance].
  destruct (async_start _ _ _) as [[] s]; cbn [negb routines node]; [|by rewrite !lookup_delete_eq; cbn [routines]; rewrite lookup_delete_eq].
  rewrite lookup_insert_eq. cbn [advance]. destruct (async_execute _ _ _ _) as [res s2]. cbn [routines node]. by rewrite lookup_insert_eq.
Qed.

(** C25. The life of a task on a node that started with no task, through any interleaving
    of requests with the steps of the goroutines their tasks run in, whatever the provider
    answers; the random task ids are taken not to repeat. The record stays in the store,
    keeps its id, action, owner and creation time, and changes only by these moves: its
    goroutine takes it from pending to running, then, holding the answer of the provider,
    from running to completed with that result or to failed with that error, and a
    request of its owner cancels it while it is not terminal. A record in a terminal
    state never changes again, and none returns to pending, so it starts at most once. A
    record that is not terminal has its goroutine, at the phase that fits its state, and
    three steps of that goroutine bring it to a terminal state. *)
Theorem task_lifecycle (ls1 ls2 : list label) (y0 : sys) (id : string) (t : ActionTaskRecord)
    (Hempty : tasks (node y0) = ∅ /\ routines y0 = ∅) (Hfresh : fresh_labels y0 (ls1 ++ ls2))
    (Ht : tasks (node (run_system ls1 y0)) !! id = Some t) :
  let y := run_system ls2 (run_system ls1 y0) in
  exists t', tasks (node y) !! id = Some t' /\ same_task t t' /\ life id ls2 (run_system ls1 y0) t t' /\
    (isTerminal (tk_Status t) = true -> t' = t) /\ (tk_Status t' = "pending" -> t' = t) /\ record_ok (Some t') (routines y !! id) /\
    (forall w1 w2 w3, exists t'', tasks (node (run_system [SAdvance w1 id; SAdvance w2 id; SAdvance w3 id] y)) !! id = Some t'' /\
                             isTerminal (tk_Status t'') = true).
Proof.
  assert (H0 : system_ok y0) by (destruct Hempty as [He Hr]; intros k; by rewrite He, Hr, !lookup_empty).
  apply fresh_labels_app in Hfresh as [Hf1 Hf2]. pose proof (run_system_ok ls1 y0 H0 Hf1) as H1. pose proof (run_system_ok ls2 _ H1 Hf2) as H2.
  destruct (run_system_life ls2 _ id t H1 Hf2 Ht) as (t' & Ht' & Hl). cbn zeta. exists t'.
  destruct (life_shape _ _ _ _ _ Hl) as (? & ? & ?). split_and!; try done.
  - specialize (H2 id). by rewrite Ht' in H2.
  - intros w1 w2 w3. by eapply three_steps_end.
Qed.

(** ** Idempotency *)

Lemma serve_admitted w r f spec size (s : server) : action_admitted r (state_of s) f spec size ->
  serve w r s = (invoke w f (rq_Header r HeaderAgent) spec size s, None).
Proof.
  intros ((raw & Hb & Hf & ->) & (Hm & Ha & sub & Hp & Hsub) & H1 & H2 & H3 & Hadm & Hpri & Has & Hcb & Hau).
  unfold ServeHTTP. rewrite Hp.
  assert (Hauth : ao_RequireAuth o && String.eqb (rq_Header r HeaderAgent) "" = false).
  { destruct (ao_RequireAuth o); [|done]. cbn. apply String.eqb_neq. auto. }
  rewrite Hauth, Hm, Hsub. assert (Hs : sub = "/invoke" \/ sub = "/invoke/") by (apply mem_string_true in Hsub; set_solver).
  assert (Hn : mem_string sub ["/.nwm"; "/.nwm/"] = false /\ mem_string sub ["/.schema"; "/.schema/"; "/actions"; "/actions/"] = false)
    by (by destruct Hs as [-> | ->]).
  destruct Hn as [-> ->]. cbn [String.eqb]. unfold handleInvoke. rewrite Hb, Hf. apply String.eqb_neq in H1, H2, H3. rewrite H1, H2, H3.
  assert (Hok : admit_frame url_Parse parseIPv6 o f = Ok spec) by by apply admit_frame_ok. rewrite Hok.
  destruct (Authorize provider) as [au|]; [|done]. by rewrite (Hau _ eq_refl).
Qed.

Lemma get_miss now a key (m : cachemap) : (cache_Get now a key m).1 = None -> (cache_Get now a key m).2 !! idemKey a key = None.
Proof.
  unfold cache_Get. destruct (m !! idemKey a key) eqn:Ek; [|done]. destruct (negb _); [|done]. intros _. apply lookup_delete_eq.
Qed.

Lemma get_hit now a key e (m : cachemap) : m !! idemKey a key = Some e -> now < ExpiresAt e -> cache_Get now a key m = (Some e, m).
Proof. intros He Hn. unfold cache_Get. rewrite He. unfold after. by apply Z.ltb_lt in Hn as ->. Qed.

(** What an entry holds of the reply that was given when it was stored. *)
Definition entry_answers (w : act_world) (agent : string) (s : server) (e : IdempotentEntry) (rep : reply) : Prop :=
  match rep with
  | CapsReply _ anchor data _ => ie_TaskID e = "" /\ StreamFrames e = None /\ ie_AnchorRef e = anchor /\ data = match ie_Result e with [] => [] | p => [p] end
  | StreamReply _ lines => ie_TaskID e = "" /\ StreamFrames e = Some lines /\ frames_ok (aw_stream w) 0 lines /\ ends_terminal lines = true
  | JsonReply _ _ _ => ie_TaskID e = aw_task w /\ exists t, tasks s !! aw_task w = Some t /\ tk_AgentNid t = agent
  | _ => False
  end.

(** An invocation without an answer to retain: the provider failed, or it returned a
    stream that was written but did not complete. *)
Definition unanswered (w : act_world) (f : ActionFrameWire) (agent : string) (spec : ActionSpec) (size : Z) (s : server) (rep : reply) : Prop :=
  let '(res, p) := executeWithContext provider w (to_frame f) (action_context o f agent "" spec size) (state_of s) in
  (exists e, res = Err e) \/
  (exists r st, res = Ok (Some r) /\ er_Stream r = Some st /\ (writeStream (aw_stream w) (aw_ctx_at w) (aw_write_at w) st p).1.2 = None /\
     rep = StreamReply (stream_headers (fw_RequestID f)) (writeStream (aw_stream w) (aw_ctx_at w) (aw_write_at w) st p).1.1).

(** The first invocation under a key: it fails, or its reply is retained. *)
Lemma invoke_first w f agent spec size (s : server) :
  fw_IdempotencyKey f <> "" ->
  (cache_Get (aw_clock w 0%nat) (scopedCacheActionID o (fw_ActionID f) agent) (fw_IdempotencyKey f) (cache s)).1 = None ->
  let '(rep, s1, sp) := invoke w f agent spec size s in
  match cache s1 !! cache_key f agent with
  | None => fw_Async f = false /\ unanswered w f agent spec size s rep
  | Some e => ParamsHash e = hash (fw_Params f) /\ ExpiresAt e = aw_clock w 3%nat + idempotencyTTL o /\ entry_answers w agent s1 e rep
  end.
Proof.
  intros Hk Hmiss. unfold invoke_admitted. apply String.eqb_neq in Hk. rewrite Hk. pose proof (get_miss _ _ _ _ Hmiss) as Hm0.
  destruct (cache_Get _ _ _ _) as [cached m0]. cbn [fst snd] in Hmiss, Hm0. subst cached.
  unfold invoke_async, invoke_sync, try_store, TryStore. rewrite Hk. cbn [cache set_cache set_tasks set_state]. rewrite Hm0. destruct (fw_Async f).
  - cbn. rewrite lookup_insert_eq. do 3 (split; [done|]). eexists. split; [apply lookup_insert_eq|done].
  - unfold unanswered. cbn [state_of set_cache]. destruct (executeWithContext _ _ _ _ _) as [[r|e] p] eqn:Ex; cbn.
    + destruct (er_Stream _) as [st|] eqn:Est.
      * pose proof (writeStream_completed (aw_stream w) (aw_ctx_at w) (aw_write_at w) st p) as Hw.
        destruct r as [r|]; [|done]. cbn [default] in *. change (id r) with r in *.
        destruct (writeStream _ _ _ _ _) as [[lines [fr|]] p'] eqn:Ews; cbn in *; [|rewrite Hm0; split; [done|]; right; exists r, st; by rewrite Ews].
        destruct (Hw fr eq_refl) as (-> & Hf & Ht). by rewrite lookup_insert_eq.
      * cbn. rewrite lookup_insert_eq. by destruct (er_Result _).
    + rewrite Hm0. eauto 6.
Qed.

(** What a later request with the same key is answered. *)
Definition replays (w1 : act_world) (agent : string) (w2 : act_world) (f2 : ActionFrameWire) (s : server) (rep1 rep2 : reply) : Prop :=
  match rep1 with
  | CapsReply _ anchor data _ => rep2 = writeCaps (concat data) anchor (fw_RequestID f2) 0
  | StreamReply _ lines => healthy (aw_ctx_at w2) (aw_write_at w2) ->
      rep2 = StreamReply (stream_headers (fw_RequestID f2)) (restamp (aw_stream w2) <$> lines)
  | JsonReply _ _ _ => exists t, tasks s !! aw_task w1 = Some t /\ tk_AgentNid t = agent /\
      rep2 = writeAsyncResponse o (aw_task w1) (tk_Status t) (fw_RequestID f2) None
  | _ => False
  end.

Lemma replay_entry_answers w1 w2 agent f2 e (s1 s2 : server) rep1 :
  aw_task w1 <> "" -> ParamsHash e = hash (fw_Params f2) -> entry_answers w1 agent s1 e rep1 ->
  (forall t, tasks s1 !! aw_task w1 = Some t -> exists t', tasks s2 !! aw_task w1 = Some t' /\ tk_AgentNid t' = tk_AgentNid t) ->
  replays w1 agent w2 f2 s2 rep1 (replay_entry o w2 f2 (hash (fw_Params f2)) e s2).
Proof.
  intros Hw Hh He Hkeep. unfold replay_entry. rewrite Hh, String.eqb_refl. cbn [negb]. destruct rep1 as [st h b|h anchor data te|h lines|h b|st]; cbn in He; [| | |done|done]; cbn [replays].
  - destruct He as (Hid & t & Ht & Hag). destruct (Hkeep t Ht) as (t' & Ht' & Hag'). rewrite Hid. apply String.eqb_neq in Hw. rewrite Hw. cbn.
    exists t'. unfold tasks_Get. rewrite Ht'. split_and!; [done|congruence|done].
  - destruct He as (-> & -> & <- & ->). cbn. destruct (ie_Result e); [done|]. cbn. by rewrite app_nil_r.
  - destruct He as (-> & -> & Hf & Ht). cbn. intros Hhe. f_equal. by eapply replay_writes.
Qed.


End Server.

(** ** The callback guard *)

(** A callback that the action server accepts with its guard on is one that the
    orchestrator accepts too: https, with a host that is not private. *)
Lemma action_guard_stricter url_Parse parseIPv6 u :
  ValidateActionCallback url_Parse parseIPv6 u true = "" -> NopExecute.ValidateCallbackURL url_Parse parseIPv6 u = "".
Proof.
  unfold ValidateActionCallback, ValidateCallbackURL. destruct (String.eqb _ _); [done|]. destruct (url_Parse u) as [U|]; [|done].
  destruct (_ || _); [done|]. destruct (negb _); [done|]. cbn. unfold isPrivateHost, IsPrivateHost, isPrivateIP.
  destruct (String.eqb _ _); [done|]. destruct (EqualFold _ _); [done|]. destruct (ParseIP _ _) as [ip|]; [|done]. cbn.
  destruct (To4 ip); [by destruct (_ || _)|]. by destruct (IsLoopback6 ip || _ || _).
Qed.

(** ** Witnesses *)

Definition sample_action : ActionSpec := MkActionSpec "" "" "anchor" true None 0 0 "".
Definition sample_options : ActionNodeOptions :=
  MkActionOptions "urn:nps:node:a" "" {["act" := sample_action]} "/n" true 0 0 0 0 None 0 None.
(** A provider that counts its calls. *)
Definition sample_provider : IActionNodeProvider nat :=
  MkProvider (fun _ _ n => (Ok (Some (MkExecResult [Byte.x31] None "" 7)), Datatypes.S n)) None.
Definition sample_world (t : Z) (id : string) : act_world :=
  MkActWorld (fun _ => t) id "stream" None false (fun _ => None) (fun _ => None).
Definition sample_request : request :=
  MkRequest "/n/invoke" "POST" (fun h => if String.eqb h HeaderAgent then "agent" else "") (Ok [Byte.x7b]).
Definition sample_frame (async : bool) : ActionFrameWire := MkFrameWire "act" [Byte.x7b] "key" 0 async "" "" "r".
Definition sample_json : GoJSON := one_dict_json [] [].
Definition sample_server : ActionNodeServer nat := MkServer ∅ ∅ ∅ 0%nat.

Abbreviation sample_serve := (fun async => ServeHTTP (H := sample_json) (fun _ => (None, Some "eof")) (fun _ => Some VNil) (fun _ => Some [Byte.x6e])
  (fun _ => Ok (sample_frame async)) (fun _ => "hash") (fun _ => []) (fun _ => None) (fun _ => None) sample_options sample_provider).

Lemma sample_admitted async p : action_admitted (fun _ => Some VNil) (fun _ => Ok (sample_frame async)) (fun _ => None) (fun _ => None)
  sample_options sample_provider sample_request p (sample_frame async) sample_action 1.
Proof. split_and!; try done. - by exists [Byte.x7b]. - exists "/invoke". by split; [vm_compute|]. Qed.


Definition sample_steps : list label :=
  [SAdvance (sample_world 6 "") "t1"; SRequest (sample_world 7 "t2") sample_request; SAdvance (sample_world 8 "") "t1"; SAdvance (sample_world 9 "") "t1"].

Lemma task_lifecycle_witness :
  exists t', tasks (node (run_system (H := sample_json) (fun _ => (None, Some "eof")) (fun _ => Some VNil) (fun _ => Some [Byte.x6e])
      (fun _ => Ok (sample_frame true)) (fun _ => "hash") (fun _ => []) (fun _ => None) (fun _ => None) sample_options sample_provider sample_steps
      (run_system (H := sample_json) (fun _ => (None, Some "eof")) (fun _ => Some VNil) (fun _ => Some [Byte.x6e]) (fun _ => Ok (sample_frame true))
        (fun _ => "hash") (fun _ => []) (fun _ => None) (fun _ => None) sample_options sample_provider
        [SRequest (sample_world 5 "t1") sample_request] (MkSystem sample_server ∅)))) !! "t1" = Some t' /\
    same_task (MkTask "t1" "act" "pending" None 5 5 "r" "agent" None None) t' /\ tk_Status t' = "completed".
Proof.
  destruct (task_lifecycle (H := sample_json) (fun _ => (None, Some "eof")) (fun _ => Some VNil) (fun _ => Some [Byte.x6e])
    (fun _ => Ok (sample_frame true)) (fun _ => "hash") (fun _ => []) (fun _ => None) (fun _ => None) sample_options sample_provider
    [SRequest (sample_world 5 "t1") sample_request] sample_steps (MkSystem sample_server ∅) "t1"
    (MkTask "t1" "act" "pending" None 5 5 "r" "agent" None None))
    as (t' & Ht' & Hsame & _); [by split|by vm_compute|by vm_compute|].
  exists t'. split; [done|]. split; [done|]. vm_compute in Ht'. by injection Ht' as <-.
Defined.
