(* ===== verification/NwpStatus.v ===== *)
(** * NPS status of the NWP error codes (nwp/error_codes.go)

    The table NwpErrorToNpsStatus; core's table gives the HTTP status of each. *)

From S2P Require Import Prelude GoValue CoreStatus.

Definition NwpErrorToNpsStatus : list (string * string) := [
  ("NWP-CHALLENGE-INVALID", "NPS-CLIENT-BAD-FRAME");
  ("NWP-CHALLENGE-NOT-FOUND", "NPS-CLIENT-NOT-FOUND");
  ("NWP-CHALLENGE-BINDING-CONFLICT", "NPS-CLIENT-CONFLICT");
  ("NWP-CHALLENGE-NOT-APPROVED", "NPS-CLIENT-CONFLICT");
  ("NWP-CHALLENGE-EXPIRED", "NPS-CLIENT-CONFLICT");
  ("NWP-CHALLENGE-STATE-UNAVAILABLE", "NPS-SERVER-UNAVAILABLE");
  ("NWP-FEATURE-REQUIREMENTS-INVALID", "NPS-CLIENT-BAD-FRAME");
  ("NWP-FEATURE-REQUIRED-UNSUPPORTED", "NPS-CLIENT-CONFLICT");
  ("NWP-AUTH-NID-SCOPE-VIOLATION", "NPS-AUTH-FORBIDDEN");
  ("NWP-AUTH-NID-EXPIRED", "NPS-AUTH-UNAUTHENTICATED");
  ("NWP-AUTH-NID-REVOKED", "NPS-AUTH-UNAUTHENTICATED");
  ("NWP-AUTH-NID-UNTRUSTED-ISSUER", "NPS-AUTH-UNAUTHENTICATED");
  ("NWP-AUTH-NID-CAPABILITY-MISSING", "NPS-AUTH-FORBIDDEN");
  ("NWP-AUTH-ASSURANCE-TOO-LOW", "NPS-AUTH-FORBIDDEN");
  ("NWP-AUTH-REPUTATION-BLOCKED", "NPS-AUTH-FORBIDDEN");
  ("NWP-REPUTATION-THROTTLED", "NPS-CLIENT-RATE-LIMITED");
  ("NWP-REPUTATION-REJECTED", "NPS-AUTH-FORBIDDEN");
  ("NWP-REPUTATION-BANNED", "NPS-AUTH-FORBIDDEN");
  ("NWP-QUERY-FILTER-INVALID", "NPS-CLIENT-BAD-PARAM");
  ("NWP-QUERY-FIELD-UNKNOWN", "NPS-CLIENT-BAD-PARAM");
  ("NWP-QUERY-CURSOR-INVALID", "NPS-CLIENT-BAD-PARAM");
  ("NWP-QUERY-REGEX-UNSAFE", "NPS-CLIENT-BAD-PARAM");
  ("NWP-QUERY-VECTOR-UNSUPPORTED", "NPS-SERVER-UNSUPPORTED");
  ("NWP-QUERY-AGGREGATE-UNSUPPORTED", "NPS-SERVER-UNSUPPORTED");
  ("NWP-QUERY-AGGREGATE-INVALID", "NPS-CLIENT-BAD-PARAM");
  ("NWP-QUERY-STREAM-UNSUPPORTED", "NPS-SERVER-UNSUPPORTED");
  ("NWP-ACTION-NOT-FOUND", "NPS-CLIENT-NOT-FOUND");
  ("NWP-ACTION-PARAMS-INVALID", "NPS-CLIENT-UNPROCESSABLE");
  ("NWP-ACTION-IDEMPOTENCY-CONFLICT", "NPS-CLIENT-CONFLICT");
  ("NWP-LLM-CONTEXT-NOT-FOUND", "NPS-CLIENT-NOT-FOUND");
  ("NWP-LLM-CONTEXT-EXPIRED", "NPS-CLIENT-GONE");
  ("NWP-LLM-CONTEXT-VERSION-CONFLICT", "NPS-CLIENT-CONFLICT");
  ("NWP-LLM-CONTEXT-BINDING-MISMATCH", "NPS-CLIENT-CONFLICT");
  ("NWP-LLM-CONTEXT-FORBIDDEN", "NPS-AUTH-FORBIDDEN");
  ("NWP-LLM-CONTEXT-LIMIT-EXCEEDED", "NPS-LIMIT-RESOURCE");
  ("NWP-LLM-CONTEXT-OPERATION-UNSUPPORTED", "NPS-SERVER-UNSUPPORTED");
  ("NWP-TASK-NOT-FOUND", "NPS-CLIENT-NOT-FOUND");
  ("NWP-TASK-ALREADY-CANCELLED", "NPS-CLIENT-CONFLICT");
  ("NWP-TASK-ALREADY-COMPLETED", "NPS-CLIENT-CONFLICT");
  ("NWP-TASK-ALREADY-FAILED", "NPS-CLIENT-CONFLICT");
  ("NWP-SUBSCRIBE-STREAM-NOT-FOUND", "NPS-CLIENT-NOT-FOUND");
  ("NWP-SUBSCRIBE-LIMIT-EXCEEDED", "NPS-LIMIT-EXCEEDED");
  ("NWP-SUBSCRIBE-FILTER-UNSUPPORTED", "NPS-SERVER-UNSUPPORTED");
  ("NWP-SUBSCRIBE-INTERRUPTED", "NPS-SERVER-UNAVAILABLE");
  ("NWP-SUBSCRIBE-SEQ-TOO-OLD", "NPS-CLIENT-CONFLICT");
  ("NWP-SUBSCRIBE-LEASE-INVALID", "NPS-CLIENT-BAD-PARAM");
  ("NWP-SUBSCRIBE-LEASE-EXPIRED", "NPS-CLIENT-GONE");
  ("NWP-BUDGET-EXCEEDED", "NPS-LIMIT-BUDGET");
  ("NWP-CGN-LIMIT-EXCEEDED", "NPS-CLIENT-REQUEST-TOO-LARGE");
  ("NWP-DEPTH-EXCEEDED", "NPS-CLIENT-BAD-PARAM");
  ("NWP-GRAPH-CYCLE", "NPS-CLIENT-UNPROCESSABLE");
  ("NWP-NODE-UNAVAILABLE", "NPS-SERVER-UNAVAILABLE");
  ("NWP-RATE-LIMIT-EXCEEDED", "NPS-LIMIT-RATE");
  ("NWP-MANIFEST-VERSION-UNSUPPORTED", "NPS-CLIENT-BAD-PARAM");
  ("NWP-MANIFEST-NODE-TYPE-REMOVED", "NPS-CLIENT-BAD-FRAME");
  ("NWP-MANIFEST-NODE-TYPE-UNKNOWN", "NPS-CLIENT-BAD-FRAME");
  ("NWP-RESERVED-TYPE-UNSUPPORTED", "NPS-SERVER-UNSUPPORTED");
  ("NWP-HTTP-ORIGIN-FORBIDDEN", "NPS-AUTH-FORBIDDEN");
  ("NWP-HTTP-CONTENT-TYPE-UNSUPPORTED", "NPS-CLIENT-BAD-FRAME");
  ("NWP-HTTP-ACCEPT-UNSATISFIABLE", "NPS-CLIENT-BAD-PARAM");
  ("NWP-HTTP-REQUEST-ID-MISMATCH", "NPS-CLIENT-BAD-PARAM");
  ("NWP-HTTP-FRAME-BODY-MALFORMED", "NPS-CLIENT-BAD-FRAME");
  ("NWP-HTTP-BODY-TOO-LARGE", "NPS-LIMIT-PAYLOAD");
  ("NWP-CAPABILITY-ADVERTISED-UNIMPLEMENTED", "NPS-SERVER-UNSUPPORTED");
  ("NWP-TOPOLOGY-UNAUTHORIZED", "NPS-AUTH-FORBIDDEN");
  ("NWP-TOPOLOGY-UNSUPPORTED-SCOPE", "NPS-CLIENT-BAD-PARAM");
  ("NWP-TOPOLOGY-DEPTH-UNSUPPORTED", "NPS-CLIENT-BAD-PARAM");
  ("NWP-TOPOLOGY-FILTER-UNSUPPORTED", "NPS-CLIENT-BAD-PARAM");
  ("NWP-ANCHOR-NOT-LEADER", "NPS-CLIENT-CONFLICT");
  ("NWP-ANCHOR-EPOCH-FENCED", "NPS-CLIENT-CONFLICT");
  ("NWP-BRIDGE-DIRECTION-UNSUPPORTED", "NPS-SERVER-UNSUPPORTED");
  ("NWP-BRIDGE-TARGET-INVALID", "NPS-CLIENT-UNPROCESSABLE");
  ("NWP-BRIDGE-PROTOCOL-UNSUPPORTED", "NPS-SERVER-UNSUPPORTED");
  ("NWP-BRIDGE-ENDPOINT-INVALID", "NPS-CLIENT-UNPROCESSABLE");
  ("NWP-BRIDGE-UPSTREAM-FAILED", "NPS-DOWNSTREAM-UNAVAILABLE");
  ("NWP-BRIDGE-SERVER-TOOL-NOT-FOUND", "NPS-CLIENT-NOT-FOUND");
  ("NWP-BRIDGE-SERVER-DISPATCHER-MISSING", "NPS-SERVER-INTERNAL");
  ("NWP-BRIDGE-SERVER-DISPATCH-FAILED", "NPS-SERVER-INTERNAL")].

Lemma error_statuses_known : forallb (fun '(_, status) => bool_decide (is_Some (assoc_get status HttpStatusMap))) NwpErrorToNpsStatus = true.
Proof. by vm_compute. Qed.
