(* ===== verification/NwpLlm.v ===== *)
(** * Stateful LLM actions

    nwp/llm_action_server.go: StatefulLlmActionProvider wraps a provider of actions
    with the life cycle of LLM contexts.  llm.complete with a context reserves a
    mutation in the store, calls the wrapped provider, and commits the reply or aborts;
    a stream is wrapped so that its terminal frame does.  It is itself an action
    provider, over the state of the wrapped one, the store and a count of the steps
    taken.

    JSON, clocks and random identifiers are arguments: [clock n] is the clock at the
    step [n], [ctx_done n] the state of the request's context, and [watcher n] says
    whether the goroutine that waits for the context has been scheduled by then. *)

From S2P Require Import Prelude GoValue CoreCodec CoreStatus CoreCache NopExecute NwpStatus NwpAnchor NwpContext NwpAction.

(** ** Data *)

Definition LlmCompleteRequestAnchor : string := "nps:system:llm.complete:request".
Definition LlmContextStatusRequestAnchor : string := "nps:system:llm.context.status:request".
Definition LlmContextReleaseRequestAnchor : string := "nps:system:llm.context.release:request".
Definition LlmCompleteResponseAnchor : string := "nps:system:llm.complete:response".
Definition LlmCompleteStreamAnchor : string := "nps:system:llm.complete:stream".
Definition LlmContextStatusResponseAnchor : string := "nps:system:llm.context.status:response".
Definition LlmContextReleaseResponseAnchor : string := "nps:system:llm.context.release:response".
Definition CapabilityLlmComplete : string := "llm:complete".
Definition CapabilityLlmContext : string := "llm:context".
Definition CapabilityLlmStream : string := "llm:stream".
Definition CapabilityLlmToolCall : string := "llm:tool_call".

Definition LlmStopError : string := "error".

Inductive LlmAuthorizationStage : Type := LlmAuthorizationAdmission | LlmAuthorizationCommit.

Record LlmContextRequestDto : Type := MkContextRequest {
  cq_Operation : LlmContextOperation; cq_ContextID : option string; cq_BaseVersion : option Z; cq_TTLSeconds : option Z
}.

Record LlmUsageDto : Type := MkUsage {
  InputTokens : option Z; OutputTokens : option Z; CacheHit : option bool; ReusedTokens : option Z; EvaluatedTokens : option Z;
  us_WireInputBytes : option Z
}.

(** [None] is a nil slice. *)
Record LlmCompleteActionRequest : Type := MkCompleteRequest {
  Kind : string; q_Model : string; MaxTokens : option Z; q_Stream : bool; Messages : option (list LlmMessageDto);
  q_Tools : option (list LlmToolDefinitionDto); q_Context : option LlmContextRequestDto
}.

Record LlmCompleteActionResponse : Type := MkCompleteResponse {
  StopReason : string; p_Content : option string; p_ToolCalls : list LlmToolCallDto; p_Error : option string; Usage : option LlmUsageDto;
  p_Context : option LlmContextReceiptDto
}.

Record LlmCompleteStreamChunkDto : Type := MkChunk {
  ContentDelta : option string; ck_ToolCalls : list LlmToolCallDto; ck_StopReason : option string; ck_Error : option string;
  ck_Usage : option LlmUsageDto; ck_Context : option LlmContextReceiptDto
}.

(** [Authorizer] reads the policy of the deployment as it is at a step. *)
Record StatefulLlmActionOptions : Type := MkLlmOptions {
  lo_SecurityScope : string; lo_RuntimeRevision : string; ProviderName : string; DefaultModel : string; SupportsTools : bool;
  SupportsStream : bool; SupportsJSONMode : bool; ReasoningVisibility : string;
  Authorizer : option (nat -> LlmContextOwner -> string -> LlmAuthorizationStage -> list string -> ActionContext -> option exec_error)
}.

(** ** Errors and small helpers *)

Definition paramsExecutionError (message : string) : exec_error :=
  ExecErr (MkExecError 422 "NPS-CLIENT-UNPROCESSABLE" ErrActionParamsInvalid message).

Definition mapLlmStoreError (e : LlmContextStoreError) : exec_error :=
  match e with
  | PlainErr t => internalExecutionError t
  | StoreErr code message _ =>
      let status := default "NPS-SERVER-INTERNAL" (assoc_get code NwpErrorToNpsStatus) in
      ExecErr (MkExecError (ToHttpStatus status) status code message)
  end.

Definition validStopReason (value : string) : bool :=
  mem_string value ["end_turn"; "tool_use"; "tool_calls"; "max_tokens"; "length"; LlmStopError].

Definition validContextOperation (value : LlmContextOperation) : bool :=
  mem_string value [LlmContextCreate; LlmContextAppend; LlmContextFork; LlmContextReset; LlmContextRelease].

Definition valueString (v : option string) : string := default "" v.

Definition requiredLlmCapabilities (frame : ActionFrame) : list string :=
  if String.eqb (Action frame) LlmContextStatusActionID || String.eqb (Action frame) LlmContextReleaseActionID then [CapabilityLlmContext]
  else
    let params := default [] (as_map (Params frame)) in
    [CapabilityLlmComplete; CapabilityLlmContext] ++
    (if default false (as_bool (dict_at params "stream")) then [CapabilityLlmStream] else []) ++
    match as_slice (dict_at params "tools") with Some (_ :: _) => [CapabilityLlmToolCall] | _ => [] end.

(** ** The provider *)

Record llm_state (S : Type) : Type := MkLlmState { ls_inner : S; ls_store : InMemoryLlmContextStore; ls_step : nat }.
Arguments MkLlmState {S}.
Arguments ls_inner {S}.
Arguments ls_store {S}.
Arguments ls_step {S}.

Section Provider.
Context {S : Type}.
Context (map_to_request : dict -> result string LlmCompleteActionRequest)
        (map_to_status : dict -> result string (option string * option string))
        (map_to_release : dict -> result string (string * Z))
        (unmarshal_response : list byte -> result string LlmCompleteActionResponse)
        (marshal_response : LlmCompleteActionResponse -> result string (list byte))
        (unmarshal_chunk : list byte -> result string LlmCompleteStreamChunkDto)
        (marshal_chunk : LlmCompleteStreamChunkDto -> list byte)
        (marshal_status_dto : LlmContextStatusDto -> result string (list byte))
        (marshal_receipt : LlmContextReceiptDto -> result string (list byte)).
Context (json_binding : LlmContextBinding -> result string (list byte)) (sha256_hex : list byte -> string) (format_time : Z -> string)
        (quote : string -> string).
Context (clock : nat -> nat -> Z) (rids : nat -> string) (context_ids : nat -> nat -> result string string)
        (ctx_done : nat -> option ctx_error) (watcher : nat -> bool).
Context (inner : IActionNodeProvider S) (o : StatefulLlmActionOptions).

Abbreviation state := (llm_state S).
Abbreviation outcome := (result exec_error (option (ActionExecutionResult state))).

Definition NewStatefulLlmActionProvider : option string :=
  if String.eqb (trim_space (lo_SecurityScope o)) "" then Some "security scope must not be empty"
  else if String.eqb (trim_space (lo_RuntimeRevision o)) "" then Some "runtime revision must not be empty"
  else None.

(** *** Steps of the store *)

(** The wrapped provider has been called, which is a step too. *)
Definition set_inner (i : S) (p : state) : state := MkLlmState i (ls_store p) (Datatypes.S (ls_step p)).

(** One method call of the store. *)
Definition with_store {A} (f : nat -> InMemoryLlmContextStore -> A * InMemoryLlmContextStore) (p : state) : A * state :=
  let '(a, s) := f (ls_step p) (ls_store p) in (a, MkLlmState (ls_inner p) s (Datatypes.S (ls_step p))).

Definition reserve_ (req : LlmContextMutationRequest) (p : state) : result LlmContextStoreError handle * state :=
  with_store (fun n => Reserve json_binding sha256_hex quote (clock n) (rids n) req) p.
Definition commit_ (h : handle) (reply : LlmMessageDto) (p : state) : result LlmContextStoreError LlmContextReceiptDto * state :=
  with_store (fun n => Commit format_time (clock n) (context_ids n) (Some h) reply) p.
Definition abort (h : handle) (errorCode : string) (p : state) : state :=
  (with_store (fun n => Abort (clock n) (Some h) errorCode) p).2.

(** The goroutine that aborts when the context ends. *)
Definition watch (h : handle) (p : state) : state :=
  if bool_decide (is_Some (ctx_done (ls_step p))) && watcher (ls_step p) then abort h ErrNodeUnavailable p else p.

(** *** Requests *)

Definition LlmCompleteRequestFromMap (value : dict) : result string LlmCompleteActionRequest :=
  match map_to_request value with
  | Err e => Err e
  | Ok r =>
      let r := if String.eqb (Kind r) "" then MkCompleteRequest LlmCompleteActionID (q_Model r) (MaxTokens r) (q_Stream r) (Messages r) (q_Tools r) (q_Context r)
               else r in
      if String.eqb (Kind r) LlmCompleteActionID then Ok r else Err ("unexpected LLM payload kind " +:+ quote (Kind r))
  end.

Definition decodeCompleteRequest (frame : ActionFrame) : result string LlmCompleteActionRequest :=
  match as_map (Params frame) with
  | None => Err "llm.complete requires an object params payload"
  | Some params =>
      match LlmCompleteRequestFromMap params with
      | Err e => Err e
      | Ok request =>
          if String.eqb (trim_space (q_Model request)) "" then Err "llm.complete requires a non-empty model"
          else match Messages request with
               | None => Err "messages must be an array"
               | Some messages =>
                   if existsb (fun m => String.eqb (trim_space (Role m)) "") messages then Err "each message requires a non-empty role"
                   else match q_Context request with
                        | Some c => if validContextOperation (cq_Operation c) then Ok request
                                    else Err ("invalid context operation " +:+ quote (cq_Operation c))
                        | None => Ok request
                        end
               end
      end
  end.

Definition decodeFrameParams {A} (decode : dict -> result string A) (frame : ActionFrame) : result string A :=
  match as_map (Params frame) with
  | None => Err "action requires an object params payload"
  | Some params => decode params
  end.

Definition owner_of (ac : ActionContext) : result exec_error LlmContextOwner :=
  if String.eqb (trim_space (ac_AgentNid ac)) "" then
    Err (ExecErr (MkExecError 401 "NPS-AUTH-UNAUTHENTICATED" ErrAuthNidScopeViolation
                    "stateful LLM context actions require an authenticated agent NID"))
  else Ok (MkOwner (ac_AgentNid ac) (lo_SecurityScope o)).

Definition checkAuthorization (n : nat) (owner : LlmContextOwner) (actionID : string) (stage : LlmAuthorizationStage)
    (capabilities : list string) (ac : ActionContext) : option exec_error :=
  match Authorizer o with
  | None => Some (ExecErr (MkExecError 403 "NPS-AUTH-FORBIDDEN" ErrLlmContextForbidden
                             "stateful LLM context authorization is not configured"))
  | Some authorizer => authorizer n owner actionID stage capabilities ac
  end.

Definition Authorize_llm (frame : ActionFrame) (ac : ActionContext) (p : state) : option exec_error :=
  let refused := match Authorize inner with Some authorize => authorize frame ac (ls_inner p) | None => None end in
  match refused with
  | Some e => Some e
  | None =>
      let complete := String.eqb (Action frame) LlmCompleteActionID in
      let requiresContext :=
        if complete then bool_decide (is_Some (dict_get "context" (default [] (as_map (Params frame)))))
        else String.eqb (Action frame) LlmContextStatusActionID || String.eqb (Action frame) LlmContextReleaseActionID in
      if negb requiresContext then None
      else
        let asyncStream :=
          if complete && Async frame then
            match decodeCompleteRequest frame with
            | Err e => Some (paramsExecutionError e)
            | Ok request => if q_Stream request then Some (paramsExecutionError "stream=true cannot be combined with async=true") else None
            end
          else None in
        match asyncStream with
        | Some e => Some e
        | None =>
            match owner_of ac with
            | Err e => Some e
            | Ok owner => checkAuthorization (ls_step p) owner (Action frame) LlmAuthorizationAdmission (requiredLlmCapabilities frame) ac
            end
        end
  end.

(** *** Results *)

Definition marshalActionResultWithTokens (payload : result string (list byte)) (anchor : string) (tokenEst : Z) : outcome :=
  match payload with
  | Err e => Err (internalExecutionError e)
  | Ok b => Ok (Some (MkExecResult b None anchor tokenEst))
  end.

Definition completionResult (response : LlmCompleteActionResponse) (r : ActionExecutionResult S) : outcome :=
  marshalActionResultWithTokens (marshal_response response)
    (if String.eqb (er_AnchorRef r) "" then LlmCompleteResponseAnchor else er_AnchorRef r) (TokenEst r).

Definition with_context (c : option LlmContextReceiptDto) (r : LlmCompleteActionResponse) : LlmCompleteActionResponse :=
  MkCompleteResponse (StopReason r) (p_Content r) (p_ToolCalls r) (p_Error r) (Usage r) c.

(** *** Streams *)

(** What [coordinateStream] accumulates. *)
Record stream_acc : Type := MkAcc { content : string; toolCalls : list LlmToolCallDto; resolved : bool; terminalSeen : bool }.

Definition set_resolved (acc : stream_acc) : stream_acc := MkAcc (content acc) (toolCalls acc) true (terminalSeen acc).
Definition set_terminal (acc : stream_acc) : stream_acc := MkAcc (content acc) (toolCalls acc) (resolved acc) true.

(** The chunks of a frame, without the contexts the provider put into them. *)
Fixpoint read_chunks (isLast : bool) (payloads : list (list byte)) (acc : stream_acc) : result exec_error (list LlmCompleteStreamChunkDto) * stream_acc :=
  match payloads with
  | [] => (Ok [], acc)
  | payload :: rest =>
      match unmarshal_chunk payload with
      | Err e => (Err (internalExecutionError ("stateful llm.complete returned an invalid stream payload: " +:+ e)), acc)
      | Ok c =>
          if negb isLast && (bool_decide (is_Some (ck_StopReason c)) || bool_decide (is_Some (ck_Error c)) ||
                             bool_decide (is_Some (ck_Usage c)) || bool_decide (is_Some (ck_Context c))) then
            (Err (internalExecutionError "LLM stream stop_reason, error, usage, and context are terminal-only fields"), acc)
          else
            let acc := MkAcc (content acc +:+ default "" (ContentDelta c)) (toolCalls acc ++ ck_ToolCalls c) (resolved acc) (terminalSeen acc) in
            let c := MkChunk (ContentDelta c) (ck_ToolCalls c) (ck_StopReason c) (ck_Error c) (ck_Usage c) None in
            let '(res, acc) := read_chunks isLast rest acc in
            (match res with Ok cs => Ok (c :: cs) | Err e => Err e end, acc)
      end
  end.

(** [terminalIndex]: the last chunk with a stop reason. *)
Fixpoint terminalIndex (chunks : list LlmCompleteStreamChunkDto) : option nat :=
  match chunks with
  | [] => None
  | c :: r => match terminalIndex r with
              | Some i => Some (Datatypes.S i)
              | None => if bool_decide (is_Some (ck_StopReason c)) then Some 0%nat else None
              end
  end.

Definition chunk_failed (c : LlmCompleteStreamChunkDto) : bool :=
  bool_decide (is_Some (ck_Error c)) || bool_decide (ck_StopReason c = Some LlmStopError).

Definition chunk_with (receipt : LlmContextReceiptDto) (c : LlmCompleteStreamChunkDto) : LlmCompleteStreamChunkDto :=
  MkChunk (ContentDelta c) (ck_ToolCalls c) (ck_StopReason c) (ck_Error c) (ck_Usage c) (Some receipt).

Definition marshalLlmStreamChunks (chunks : list LlmCompleteStreamChunkDto) : list (list byte) := marshal_chunk <$> chunks.

Definition with_chunks (chunks : list LlmCompleteStreamChunkDto) (errorCode : string) (f : ActionStreamFrame) : ActionStreamFrame :=
  MkStreamFrame (StreamID f) (Seq f) (IsLast f) (sf_AnchorRef f) (marshalLlmStreamChunks chunks) (WindowSize f) errorCode.

Section Coordinate.
Context (h : handle) (owner : LlmContextOwner) (requestFrame : ActionFrame) (ac : ActionContext).

(** The recheck of the authorization and the commit of a successful terminal frame. *)
Definition settle (acc : stream_acc) (p : state) : result exec_error LlmContextReceiptDto * state :=
  match checkAuthorization (ls_step p) owner (Action requestFrame) LlmAuthorizationCommit (requiredLlmCapabilities requestFrame) ac with
  | Some e => (Err e, abort h (executionErrorCode e) p)
  | None =>
      let reply := MkMessage "assistant" (if String.eqb (content acc) "" then None else Some (content acc)) None None (toolCalls acc) in
      match commit_ h reply p with
      | (Ok receipt, p) => (Ok receipt, p)
      | (Err e, p) => (Err (mapLlmStoreError e), abort h (executionErrorCode (mapLlmStoreError e)) p)
      end
  end.

Fixpoint coordinateStream (source : ActionStream S) (acc : stream_acc) : ActionStream state :=
  match source with
  | SReturn e =>
      let out := match e with
                 | Some e => Some e
                 | None => if terminalSeen acc then None
                           else Some (internalExecutionError "stateful llm.complete stream ended without a terminal frame")
                 end in
      if resolved acc then SReturn out else SAccess (abort h ErrNodeUnavailable) (fun _ => SReturn out)
  | SAccess upd k => SAccess (fun p => set_inner (upd (ls_inner p)) p) (fun p => coordinateStream (k (ls_inner p)) acc)
  | SEmit f k =>
      if terminalSeen acc then coordinateStream (k (Some (internalExecutionError "LLM stream emitted frames after terminal"))) acc
      else
        match f with
        | None => coordinateStream (k (Some (internalExecutionError "LLM stream emitted a nil frame"))) acc
        | Some f =>
            match read_chunks (IsLast f) (Data f) acc with
            | (Err e, acc) => coordinateStream (k (Some e)) acc
            | (Ok chunks, acc) =>
                if negb (IsLast f) then SEmit (Some (with_chunks chunks (sf_ErrorCode f) f)) (fun e => coordinateStream (k e) acc)
                else
                  let acc := set_terminal acc in
                  if negb (String.eqb (sf_ErrorCode f) "") || existsb chunk_failed chunks then
                    let code := if String.eqb (sf_ErrorCode f) "" then ErrNodeUnavailable else sf_ErrorCode f in
                    SAccess (abort h code)
                      (fun _ => SEmit (Some (with_chunks chunks code f)) (fun e => coordinateStream (k e) (set_resolved acc)))
                  else
                    match terminalIndex chunks with
                    | None => coordinateStream (k (Some (internalExecutionError "successful LLM stream terminal frame requires stop_reason"))) acc
                    | Some i =>
                        SAccess (fun p => (settle acc p).2)
                          (fun p => match (settle acc p).1 with
                                    | Err e => coordinateStream (k (Some e)) (set_resolved acc)
                                    | Ok receipt =>
                                        SEmit (Some (with_chunks (alter (chunk_with receipt) i chunks) (sf_ErrorCode f) f))
                                          (fun e => coordinateStream (k e) (set_resolved acc))
                                    end)
                    end
            end
        end
  end.
End Coordinate.

Definition start_acc : stream_acc := MkAcc "" [] false false.

(** *** llm.complete *)

Definition resolveBinding (owner : LlmContextOwner) (request : LlmCompleteActionRequest) (c : LlmContextRequestDto) (p : state) :
    result exec_error LlmContextBinding * state :=
  if is_op (cq_Operation c) LlmContextAppend || is_op (cq_Operation c) LlmContextFork then
    match cq_ContextID c with
    | None => (Err (paramsExecutionError "append/fork require context_id and base_version"), p)
    | Some id =>
        match with_store (fun n => Snapshot (clock n) owner id) p with
        | (Err e, p) => (Err (mapLlmStoreError e), p)
        | (Ok snapshot, p) =>
            let tools := match q_Tools request with None => Tools (cs_Binding snapshot) | Some t => Some t end in
            (Ok (MkBinding (q_Model request) (SystemMessages (cs_Binding snapshot)) tools (lo_RuntimeRevision o)), p)
        end
    end
  else
    (Ok (MkBinding (q_Model request) (Some (List.filter (fun m => EqualFold (Role m) "system") (default [] (Messages request))))
           (q_Tools request) (lo_RuntimeRevision o)), p).

(** The provider's official response, when the request is not a stream. *)
Definition complete_response (h : handle) (owner : LlmContextOwner) (frame : ActionFrame) (ac : ActionContext)
    (r : ActionExecutionResult S) (p : state) : outcome * state :=
  let invalid e := (Err (internalExecutionError ("stateful llm.complete returned an invalid official response: " +:+ e)), abort h ErrNodeUnavailable p) in
  match unmarshal_response (er_Result r) with
  | Err e => invalid e
  | Ok response =>
      if negb (validStopReason (StopReason response)) then invalid ("invalid stop_reason " +:+ quote (StopReason response))
      else if String.eqb (StopReason response) LlmStopError then
        (completionResult (with_context None response) r, abort h ErrNodeUnavailable p)
      else
        match checkAuthorization (ls_step p) owner (Action frame) LlmAuthorizationCommit (requiredLlmCapabilities frame) ac with
        | Some e => (Err e, abort h (executionErrorCode e) p)
        | None =>
            match ctx_done (ls_step p) with
            | Some e => (Err (CtxErr e), abort h ErrNodeUnavailable p)
            | None =>
                let p := watch h p in
                match commit_ h (MkMessage "assistant" (p_Content response) None None (p_ToolCalls response)) p with
                | (Err e, p) => (Err (mapLlmStoreError e), p)
                | (Ok receipt, p) => (completionResult (with_context (Some receipt) response) r, p)
                end
            end
        end
  end.

(** From the call of the wrapped provider on. *)
Definition complete_reserved (h : handle) (owner : LlmContextOwner) (request : LlmCompleteActionRequest) (frame : ActionFrame)
    (ac : ActionContext) (p : state) : outcome * state :=
  let p := watch h p in
  let '(res, i) := Execute inner frame ac (ls_inner p) in
  let p := watch h (set_inner i p) in
  match res with
  | Err e => (Err e, abort h (executionErrorCode e) p)
  | Ok r =>
      match ctx_done (ls_step p) with
      | Some e => (Err (CtxErr e), abort h ErrNodeUnavailable p)
      | None =>
          let r := default (MkExecResult [] None "" 0) r in
          match er_Result r, er_Stream r with
          | [], Some source =>
              if q_Stream request then
                (Ok (Some (MkExecResult [] (Some (coordinateStream h owner frame ac source start_acc)) LlmCompleteStreamAnchor (TokenEst r))), p)
              else (Err (internalExecutionError "stateful llm.complete returned no official response object"), abort h ErrNodeUnavailable p)
          | [], None =>
              (Err (internalExecutionError (if q_Stream request then "stateful streaming llm.complete returned no StreamFrame sequence"
                                            else "stateful llm.complete returned no official response object")), abort h ErrNodeUnavailable p)
          | _ :: _, _ =>
              if q_Stream request then
                (Err (internalExecutionError "stateful streaming llm.complete returned a unary response"), abort h ErrNodeUnavailable p)
              else complete_response h owner frame ac r p
          end
      end
  end.

(** The checks of a stateful request before anything is reserved. *)
Definition complete_screen (request : LlmCompleteActionRequest) (c : LlmContextRequestDto) (frame : ActionFrame) : option exec_error :=
  if q_Stream request && negb (SupportsStream o) then Some (paramsExecutionError "this node does not advertise LLM streaming support")
  else if q_Stream request && Async frame then Some (paramsExecutionError "stream=true cannot be combined with async=true")
  else if (is_op (cq_Operation c) LlmContextAppend || is_op (cq_Operation c) LlmContextFork || is_op (cq_Operation c) LlmContextReset) &&
          (bool_decide (cq_ContextID c = None) || bool_decide (cq_BaseVersion c = None)) then
    Some (paramsExecutionError "append/fork/reset require context_id and base_version")
  else None.

Definition mutation_request (owner : LlmContextOwner) (request : LlmCompleteActionRequest) (c : LlmContextRequestDto)
    (binding : LlmContextBinding) (frame : ActionFrame) : LlmContextMutationRequest :=
  MkMutation (cq_Operation c) owner (cq_ContextID c) (cq_BaseVersion c) binding (default [] (Messages request)) (cq_TTLSeconds c)
    (valueString (af_IdempotencyKey frame)) (valueString (af_RequestID frame)).

(** A stream of the wrapped provider, on the whole state. *)
Fixpoint lift_stream (source : ActionStream S) : ActionStream state :=
  match source with
  | SReturn e => SReturn e
  | SEmit f k => SEmit f (fun e => lift_stream (k e))
  | SAccess upd k => SAccess (fun p => set_inner (upd (ls_inner p)) p) (fun p => lift_stream (k (ls_inner p)))
  end.

(** The wrapped provider alone. *)
Definition run_inner (frame : ActionFrame) (ac : ActionContext) (p : state) : outcome * state :=
  let '(res, i) := Execute inner frame ac (ls_inner p) in
  (match res with
   | Err e => Err e
   | Ok None => Ok None
   | Ok (Some r) => Ok (Some (MkExecResult (er_Result r) (lift_stream <$> er_Stream r) (er_AnchorRef r) (TokenEst r)))
   end, set_inner i p).

Definition complete (frame : ActionFrame) (ac : ActionContext) (p : state) : outcome * state :=
  match decodeCompleteRequest frame with
  | Err e => (Err (paramsExecutionError e), p)
  | Ok request =>
      if negb (SupportsTools o) && bool_decide (default [] (q_Tools request) <> []) then
        (Err (paramsExecutionError "this node does not advertise LLM tool-definition support"), p)
      else
        match q_Context request with
        | None => run_inner frame ac p
        | Some c =>
            match complete_screen request c frame with
            | Some e => (Err e, p)
            | None =>
                match owner_of ac with
                | Err e => (Err e, p)
                | Ok owner =>
                    match resolveBinding owner request c p with
                    | (Err e, p) => (Err e, p)
                    | (Ok binding, p) =>
                        match reserve_ (mutation_request owner request c binding frame) p with
                        | (Err e, p) => (Err (mapLlmStoreError e), p)
                        | (Ok h, p) => let '(out, p) := complete_reserved h owner request frame ac p in (out, watch h p)
                        end
                    end
                end
            end
        end
  end.

(** *** Status, release and dispatch *)

Definition status (frame : ActionFrame) (ac : ActionContext) (p : state) : outcome * state :=
  match decodeFrameParams map_to_status frame with
  | Err e => (Err (paramsExecutionError e), p)
  | Ok (contextID, idempotencyKey) =>
      match owner_of ac with
      | Err e => (Err e, p)
      | Ok owner =>
          match with_store (fun n => Status format_time (clock n) owner contextID idempotencyKey) p with
          | (Err e, p) => (Err (mapLlmStoreError e), p)
          | (Ok dto, p) => (marshalActionResultWithTokens (marshal_status_dto dto) LlmContextStatusResponseAnchor 0, p)
          end
      end
  end.

Definition release (frame : ActionFrame) (ac : ActionContext) (p : state) : outcome * state :=
  match decodeFrameParams map_to_release frame with
  | Err e => (Err (paramsExecutionError e), p)
  | Ok (contextID, baseVersion) =>
      if String.eqb contextID "" then (Err (paramsExecutionError "context_id is required"), p)
      else
        match owner_of ac with
        | Err e => (Err e, p)
        | Ok owner =>
            match with_store (fun n => Release quote (clock n) owner contextID baseVersion (valueString (af_IdempotencyKey frame))) p with
            | (Err e, p) => (Err (mapLlmStoreError e), p)
            | (Ok receipt, p) => (marshalActionResultWithTokens (marshal_receipt receipt) LlmContextReleaseResponseAnchor 0, p)
            end
        end
  end.

Definition Execute_llm (frame : ActionFrame) (ac : ActionContext) (p : state) : outcome * state :=
  if String.eqb (Action frame) LlmCompleteActionID then complete frame ac p
  else if String.eqb (Action frame) LlmContextStatusActionID then status frame ac p
  else if String.eqb (Action frame) LlmContextReleaseActionID then release frame ac p
  else run_inner frame ac p.

Definition StatefulLlmActionProvider : IActionNodeProvider state := MkProvider Execute_llm (Some Authorize_llm).

(** *** Configuration of the node *)

Definition llm_profile (s : InMemoryLlmContextStore) : dict :=
  let d := Descriptor s in
  let text k v := if String.eqb v "" then [] else [(k, VString v)] in
  [("profile_version", VString "0.2");
   ("actions", VStrings [LlmCompleteActionID; LlmContextStatusActionID; LlmContextReleaseActionID]);
   ("supports_stream", VBool (SupportsStream o)); ("supports_tools", VBool (SupportsTools o));
   ("supports_json_mode", VBool (SupportsJSONMode o));
   ("context", VMap [("supported", VBool true); ("operations", VStrings (Operations d)); ("persistence", VString (Persistence d));
      ("max_contexts_per_principal", VInt KInt (d_MaxContexts d)); ("max_ttl_seconds", VInt KUint32 (d_MaxTTL d));
      ("tombstone_seconds", VInt KUint32 (d_Tombstone d))])] ++
  text "provider" (ProviderName o) ++ text "default_model" (DefaultModel o) ++ text "reasoning_visibility" (ReasoningVisibility o).

Definition llm_actions (actions : gmap string ActionSpec) : gmap string ActionSpec :=
  let old := default (MkActionSpec "" "" "" true None 0 0 "") (actions !! LlmCompleteActionID) in
  let complete := MkActionSpec (if String.eqb (as_Description old) "" then "Complete an LLM request" else as_Description old)
                    LlmCompleteRequestAnchor LlmCompleteResponseAnchor (as_Async old) (Some true) (as_TimeoutMsDefault old) (as_TimeoutMsMax old)
                    CapabilityLlmComplete in
  <[LlmContextReleaseActionID := MkActionSpec "Release an LLM context" LlmContextReleaseRequestAnchor LlmContextReleaseResponseAnchor false
      (Some true) 0 0 CapabilityLlmContext]>
  (<[LlmContextStatusActionID := MkActionSpec "Inspect an LLM context or retained create outcome" LlmContextStatusRequestAnchor
      LlmContextStatusResponseAnchor false None 0 0 CapabilityLlmContext]>
  (<[LlmCompleteActionID := complete]> actions)).

Definition ConfigureNode (s : InMemoryLlmContextStore) (node : ActionNodeOptions) : ActionNodeOptions :=
  MkActionOptions (ao_NodeID node) (ao_DisplayName node) (llm_actions (ao_Actions node)) (ao_PathPrefix node) (ao_RequireAuth node)
    (ao_DefaultTimeoutMs node) (ao_MaxTimeoutMs node) (ao_IdempotencyTTL node) (TaskRetention node) (RejectPrivateCallbackURLs node)
    (ao_DefaultTokenBudget node) (Some (dict_set "llm" (VMap (llm_profile s)) (default [] (Profiles node)))).
End Provider.
