(* ===== verification/NwpLlmProof.v ===== *)
(** * What the stateful LLM provider guarantees

    An interface: a provider of actions keeps an invariant of its state; then every
    history of the action server keeps it.  The stateful LLM provider implements it with
    the invariant of the context store; its completions and streams are transactions
    on the store. *)

From S2P Require Import Prelude GoValue CoreCodec CoreCache NopExecute NwpStatus NwpAnchor NwpContext NwpContextProof NwpAction NwpActionProof NwpLlm.

(** ** Providers with an invariant *)

(** A stream that changes the state of its provider only in ways that keep [Inv]. *)
Fixpoint stream_keeps {S : Type} (Inv : S -> Prop) (st : ActionStream S) : Prop :=
  match st with
  | SReturn _ => True
  | SEmit _ k => forall e, stream_keeps Inv (k e)
  | SAccess upd k => forall p, Inv p -> Inv (upd p) /\ stream_keeps Inv (k p)
  end.

Lemma run_stream_keeps {S} (Inv : S -> Prop) sid ctx_at write_at (st : ActionStream S) ws p :
  stream_keeps Inv st -> Inv p -> Inv (run_stream sid ctx_at write_at st ws p).2.
Proof.
  revert ws p. induction st as [e|f k IH|upd k IH]; intros ws p Hk Hp; cbn in *; [done| |].
  - destruct (emit _ _ _ _ _) as [e ws']. by apply IH.
  - destruct (Hk p Hp) as [Hu Hs]. by apply IH.
Qed.

Lemma writeStream_keeps {S} (Inv : S -> Prop) sid ctx_at write_at (st : ActionStream S) p :
  stream_keeps Inv st -> Inv p -> Inv (writeStream sid ctx_at write_at st p).2.
Proof.
  intros Hk Hp. unfold writeStream. pose proof (run_stream_keeps Inv sid ctx_at write_at st (MkStreamState [] 0 false 0) p Hk Hp) as Hr.
  by destruct (run_stream _ _ _ _ _ _) as [[err ws] p'].
Qed.

(** What a result may do to the state later: only its stream does anything. *)
Definition result_keeps {S : Type} (Inv : S -> Prop) (res : result exec_error (option (ActionExecutionResult S))) : Prop :=
  match res with
  | Ok (Some r) => match er_Stream r with Some st => stream_keeps Inv st | None => True end
  | _ => True
  end.

Class ProviderInvariant {S : Type} (provider : IActionNodeProvider S) (Inv : S -> Prop) : Prop :=
  execute_keeps f ac p : Inv p -> Inv (Execute provider f ac p).2 /\ result_keeps Inv (Execute provider f ac p).1.

Section Server.
Context `{GoJSON} {S : Type}.
Context (unmarshal_map : list byte -> option dict * option string) (unmarshal_any : list byte -> option any)
        (marshal_any : any -> option (list byte)) (unmarshal_frame : list byte -> result string ActionFrameWire).
Context (sha256_upper : list byte -> string) (marshal_status : ActionTaskRecord -> list byte).
Context (url_Parse : string -> option URL) (parseIPv6 : string -> option (list Z)).
Context (o : ActionNodeOptions) (provider : IActionNodeProvider S) (Inv : S -> Prop) `{!ProviderInvariant provider Inv}.

Lemma context_keeps w f ac p : Inv p ->
  Inv (executeWithContext provider w f ac p).2 /\ result_keeps Inv (executeWithContext provider w f ac p).1.
Proof.
  intros Hp. unfold executeWithContext. pose proof (execute_keeps f ac p Hp) as [H1 H2]. destruct (Execute _ _ _ _) as [res p']. cbn in *.
  split; [done|]. by destruct (aw_done w).
Qed.

Lemma sync_keeps w f agent a h spec size s : Inv (state_of s) ->
  Inv (state_of (invoke_sync unmarshal_any o provider w f agent a h spec size s).2).
Proof.
  intros Hs. unfold invoke_sync, try_store.
  pose proof (context_keeps w (toActionFrame unmarshal_any f) (action_context o f agent "" spec size) (state_of s) Hs) as [H1 H2].
  destruct (executeWithContext _ _ _ _ _) as [[r|e] p]; [|done]. cbn in *. destruct r as [r|]; cbn in *; [|by destruct (String.eqb _ _)].
  destruct (er_Stream r) as [st|]; cbn in *; [|by destruct (String.eqb _ _)].
  pose proof (writeStream_keeps Inv (aw_stream w) (aw_ctx_at w) (aw_write_at w) st p H2 H1) as H3.
  destruct (writeStream _ _ _ _ _) as [[lines [fr|]] p']; [|done]. by destruct (String.eqb _ _).
Qed.

Abbreviation apply := (apply_event unmarshal_map unmarshal_any marshal_any unmarshal_frame sha256_upper marshal_status url_Parse parseIPv6 o provider).

Lemma event_keeps s ev : Inv (state_of s) -> Inv (state_of (apply s ev)).
Proof.
  intros Hs. destruct ev as [w r|now id|w t|now x id res]; cbn [apply_event].
  - destruct (act_serve_cases unmarshal_map unmarshal_any marshal_any unmarshal_frame sha256_upper marshal_status url_Parse parseIPv6 o provider w r s)
      as [(rep & ->)|[(t & id & c & rep & _ & _ & _ & ->)|(f & spec & size & _ & ->)]]; [done|done|]. cbn [fst snd].
    unfold invoke_admitted. destruct (if String.eqb _ "" then _ else _) as [cached s0] eqn:Ec.
    assert (Hs0 : Inv (state_of s0)).
    { destruct (String.eqb _ "") in Ec; [by injection Ec as _ <-|]. destruct (cache_Get _ _ _ _). by injection Ec as _ <-. }
    destruct cached as [e|]; [done|]. destruct (fw_Async f); [|by apply sync_keeps].
    unfold invoke_async, try_store. by destruct (String.eqb _ _).
  - unfold async_start. by destruct (TryTransition _ _ _ _ _).
  - unfold async_execute. pose proof (context_keeps w (sp_frame t) (sp_context t) (state_of s) Hs) as [H1 _].
    by destruct (executeWithContext _ _ _ _ _).
  - done.
Qed.

Lemma history_keeps evs s : Inv (state_of s) -> Inv (state_of (run_events unmarshal_map unmarshal_any marshal_any unmarshal_frame sha256_upper
  marshal_status url_Parse parseIPv6 o provider evs s)).
Proof. revert s. induction evs as [|ev evs IH]; intros s Hs; [done|]. by apply IH, event_keeps. Qed.

End Server.

(** ** Contents of a store *)

Definition entry_content (e : llmContextEntry) : Z * LlmContextOwner * list LlmMessageDto := (version e, owner e, transcript e).
Definition contents (s : InMemoryLlmContextStore) : gmap string (Z * LlmContextOwner * list LlmMessageDto) := entry_content <$> contexts s.

Lemma contents_lookup s id c : contents s !! id = Some c <-> exists e, contexts s !! id = Some e /\ entry_content e = c.
Proof. unfold contents. rewrite lookup_fmap_Some. naive_solver. Qed.

Lemma sweep_contents now s : contents (sweepLocked now s).2 ⊆ contents s.
Proof.
  apply map_subseteq_spec. intros id c (e' & He' & <-)%contents_lookup. apply sweep_entry in He' as (e & He & Hv & Ho & Ht & _).
  apply contents_lookup. exists e. split; [done|]. unfold entry_content. by rewrite Hv, Ho, Ht.
Qed.

Lemma contents_insert s m id e : m = <[id := e]> (contexts s) -> entry_content <$> m = <[id := entry_content e]> (contents s).
Proof. intros ->. unfold contents. by rewrite fmap_insert. Qed.

Lemma contents_relock s id e rid : contexts s !! id = Some e -> entry_content <$> <[id := set_reservation rid e]> (contexts s) = contents s.
Proof. intros He. rewrite (contents_insert s _ id (set_reservation rid e)) by done. apply insert_id. apply contents_lookup. by exists e. Qed.

Lemma locks_contents s r m : locks s r m -> entry_content <$> m = contents s.
Proof. intros [(_ & -> & _)|(id & e & He & _ & _ & _ & ->)]; [done|by apply contents_relock]. Qed.

(** ** The provider *)

Create HintDb llm.

Section Provider.
Context {S : Type}.
Context (map_to_request : dict -> result string LlmCompleteActionRequest)
        (map_to_status : dict -> result string (option string * option string))
        (map_to_release : dict -> result string (string * Z))
        (unmarshal_response : list byte -> result string LlmCompleteActionResponse)
        (marshal_response : LlmCompleteActionResponse -> result string (list byte))
        (unmarshal_chunk : list byte -> result string LlmCompleteStreamChunkDto)
        (marshal_chunk : LlmCompleteStreamChunkDto -> list byte)
        (marshal_status_dto : LlmContextStatusDto -> result string (list byte))
        (marshal_receipt : LlmContextReceiptDto -> result string (list byte)).
Context (json_binding : LlmContextBinding -> result string (list byte)) (sha256_hex : list byte -> string) (format_time : Z -> string)
        (quote : string -> string).
Context (clock : nat -> nat -> Z) (rids : nat -> string) (context_ids : nat -> nat -> result string string)
        (ctx_done : nat -> option ctx_error) (watcher : nat -> bool).
Context (inner : IActionNodeProvider S) (o : StatefulLlmActionOptions).

Abbreviation state := (llm_state S).
Abbreviation apply := (apply_op json_binding sha256_hex format_time quote).
Abbreviation coordinate := (coordinateStream unmarshal_chunk marshal_chunk format_time clock context_ids o).
Abbreviation reserved := (complete_reserved unmarshal_response marshal_response unmarshal_chunk marshal_chunk format_time quote clock context_ids
  ctx_done watcher inner o).
Abbreviation complete' := (complete map_to_request unmarshal_response marshal_response unmarshal_chunk marshal_chunk json_binding sha256_hex
  format_time quote clock rids context_ids ctx_done watcher inner o).
Abbreviation execute := (Execute_llm map_to_request map_to_status map_to_release unmarshal_response marshal_response unmarshal_chunk marshal_chunk
  marshal_status_dto marshal_receipt json_binding sha256_hex format_time quote clock rids context_ids ctx_done watcher inner o).
Abbreviation provider := (StatefulLlmActionProvider map_to_request map_to_status map_to_release unmarshal_response marshal_response unmarshal_chunk
  marshal_chunk marshal_status_dto marshal_receipt json_binding sha256_hex format_time quote clock rids context_ids ctx_done watcher inner o).
Abbreviation abort' := (abort (S := S) clock).
Abbreviation watch' := (watch (S := S) clock ctx_done watcher).
Abbreviation settle' := (settle (S := S) format_time clock context_ids o).
Abbreviation authorization := (checkAuthorization o).

(** Reservation ids are random: they are not empty and do not repeat. *)
Hypothesis rids_nonempty : forall n, rids n <> "".
Hypothesis rids_inj : forall n m, rids n = rids m -> n = m.

(** The store is well formed and the reservation ids of later steps are not in use. *)
Definition llm_ok (p : state) : Prop :=
  store_ok (ls_store p) /\ forall n, (ls_step p <= n)%nat -> reservations (ls_store p) !! rids n = None.

(** Only [Reserve] adds reservations. *)
Definition not_reserve (op : op) : Prop := match op with OpReserve _ _ _ => False | _ => True end.

Lemma op_shrinks s op : store_ok s -> not_reserve op -> reservations (apply s op) ⊆ reservations s.
Proof.
  intros Hok Hop. destruct op as [c rid req|c ids h reply|c h code|c who id base key|c who id key|c who id|c]; cbn [apply_op]; try done.
  - destruct (commit_spec format_time c ids h reply s Hok) as [(e & -> & _)|(h' & r & rc & m & i & _ & _ & -> & _)]; [done|]. apply delete_subseteq.
  - destruct (abort_spec c h code s Hok) as [(e & -> & _)|(h' & r & m & i & _ & _ & _ & _ & ->)]; [done|]. apply delete_subseteq.
  - by destruct (release_spec quote c who id base key s Hok) as [[res ->]|(e & rc & i & _ & _ & _ & _ & _ & _ & _ & _ & ->)].
  - unfold Snapshot. by destruct (requireMutable _ _ _).
Qed.

Lemma op_no_new s op k : store_ok s -> reservations s !! k = None ->
  match op with OpReserve _ rid _ => rid <> k | _ => True end -> reservations (apply s op) !! k = None.
Proof.
  intros Hok Hk Ho. assert (Hn : not_reserve op -> reservations (apply s op) !! k = None).
  { intros Hop. eapply lookup_weaken_None; [done|by apply op_shrinks]. }
  destruct op as [c rid req| | | | | |]; try by apply Hn. cbn [apply_op].
  destruct (reserve_spec json_binding sha256_hex quote c rid req s Hok) as [[e ->]|(r & m & (Hid & _) & ->)]; [done|].
  cbn. rewrite lookup_insert_ne; [done|]. congruence.
Qed.

(** One method call of the store, which is the operation [op] of the store's histories. *)
Lemma with_store_ok {A} (f : nat -> InMemoryLlmContextStore -> A * InMemoryLlmContextStore) op p :
  (f (ls_step p) (ls_store p)).2 = apply (ls_store p) op -> match op with OpReserve _ rid _ => rid = rids (ls_step p) | _ => True end ->
  llm_ok p -> llm_ok (with_store f p).2.
Proof.
  intros Hf Hop [Hok Hr]. unfold with_store. destruct (f _ _) as [a s]. cbn in *. subst s. split; cbn.
  - apply step_ok; [done|]. destruct op; try done. cbn. subst rid. split; [done|]. by apply Hr.
  - intros n Hn. apply op_no_new; [done|apply Hr; lia|]. destruct op; try done. subst rid. intros E%rids_inj. lia.
Qed.

Lemma inner_ok i p : llm_ok p -> llm_ok (set_inner i p).
Proof. intros [Hok Hr]. split; [done|]. cbn. intros n Hn. apply Hr. lia. Qed.

Lemma reserve_ok req p : llm_ok p -> llm_ok (reserve_ json_binding sha256_hex quote clock rids req p).2.
Proof. by apply with_store_ok with (op := OpReserve (clock (ls_step p)) (rids (ls_step p)) req). Qed.
Lemma commit_ok h reply p : llm_ok p -> llm_ok (commit_ (S := S) format_time clock context_ids h reply p).2.
Proof. by apply with_store_ok with (op := OpCommit (clock (ls_step p)) (context_ids (ls_step p)) (Some h) reply). Qed.
Lemma abort_ok h code p : llm_ok p -> llm_ok (abort' h code p).
Proof. by apply with_store_ok with (op := OpAbort (clock (ls_step p)) (Some h) code). Qed.
Lemma watch_ok h p : llm_ok p -> llm_ok (watch' h p).
Proof. unfold watch. destruct (_ && _); [apply abort_ok|done]. Qed.
#[local] Hint Resolve inner_ok reserve_ok commit_ok abort_ok watch_ok : llm.
Ltac llm := cbn; auto with llm.

Lemma settle_ok h owner frame ac acc p : llm_ok p -> llm_ok (settle' h owner frame ac acc p).2.
Proof.
  intros Hp. unfold settle. destruct (authorization _ _ _ _ _ _); [llm|].
  cbv zeta. set (reply := MkMessage "assistant" _ _ _ _). pose proof (commit_ok h reply p Hp) as Hc. destruct (commit_ _ _ _ h reply p) as [[rc|e] p']; cbn in *; llm.
Qed.
#[local] Hint Resolve settle_ok : llm.

Lemma coordinate_keeps h owner frame ac (source : ActionStream S) acc : stream_keeps llm_ok (coordinate h owner frame ac source acc).
Proof.
  revert acc. induction source as [e|f k IH|upd k IH]; intros acc; cbn [coordinateStream].
  - destruct (resolved acc); [done|]. cbn. intros p Hp. auto with llm.
  - destruct (terminalSeen acc); [apply IH|]. destruct f as [f|]; [|apply IH]. destruct (read_chunks _ _ _ _) as [[chunks|e] acc']; [|apply IH].
    destruct (negb (IsLast f)); [cbn; auto|]. destruct (_ || _).
    + cbn. intros p Hp. split; [llm|]. intros e. apply IH.
    + destruct (terminalIndex chunks) as [i|]; [|apply IH]. cbn [stream_keeps]. intros p Hp. split; [llm|].
      destruct (settle' _ _ _ _ _ _).1; [|apply IH]. cbn. intros e. apply IH.
  - cbn. intros p Hp. split; [by apply inner_ok|apply IH].
Qed.

Lemma lift_keeps (source : ActionStream S) : stream_keeps llm_ok (lift_stream source).
Proof. induction source as [e|f k IH|upd k IH]; cbn; [done|done|]. intros p Hp. split; [by apply inner_ok|apply IH]. Qed.

Abbreviation good := (fun x => llm_ok x.2 /\ result_keeps llm_ok x.1).

Lemma run_inner_keeps frame ac p : llm_ok p -> good (run_inner inner frame ac p).
Proof.
  intros Hp. unfold run_inner. destruct (Execute inner frame ac (ls_inner p)) as [[[r|]|e] i]; (split; [by apply inner_ok|]); try done.
  cbn. destruct (er_Stream r); [apply lift_keeps|done].
Qed.

Lemma completion_keeps response r : result_keeps llm_ok (completionResult marshal_response response (r : ActionExecutionResult S)).
Proof. unfold completionResult, marshalActionResultWithTokens. by destruct (marshal_response response). Qed.
#[local] Hint Resolve completion_keeps : llm.

Lemma response_keeps h owner frame ac r p : llm_ok p ->
  good (complete_response unmarshal_response marshal_response format_time quote clock context_ids ctx_done watcher o h owner frame ac r p).
Proof.
  intros Hp. unfold complete_response. destruct (unmarshal_response _) as [response|]; [|llm].
  destruct (negb _); [llm|]. destruct (String.eqb _ _); [llm|].
  destruct (authorization _ _ _ _ _ _); [llm|]. destruct (ctx_done _); [llm|]. cbv zeta. set (reply := MkMessage "assistant" _ _ _ _). pose proof (commit_ok h reply _ (watch_ok h p Hp)) as Hc.
  destruct (commit_ _ _ _ h reply _) as [[rc|e] p']; llm.
Qed.

Lemma reserved_keeps h owner request frame ac p : llm_ok p -> good (reserved h owner request frame ac p).
Proof.
  intros Hp. unfold complete_reserved. destruct (Execute _ _ _ _) as [res i]. cbv zeta.
  assert (Hp2 : llm_ok (watch' h (set_inner i (watch' h p)))) by auto with llm. revert Hp2. generalize (watch' h (set_inner i (watch' h p))) as p2.
  intros p2 Hp2. destruct res as [r|e]; [|llm]. destruct (ctx_done _); [llm|]. generalize (default (MkExecResult [] None "" 0) r) as r'. intros r'.
  destruct (er_Result r') as [|b l]; [destruct (er_Stream r') as [st|]|]; destruct (q_Stream request); try (by llm).
  - split; [done|]. cbn. apply coordinate_keeps.
  - by apply response_keeps.
Qed.

Lemma binding_ok owner request c p : llm_ok p -> llm_ok (resolveBinding (S := S) clock o owner request c p).2.
Proof.
  intros Hp. unfold resolveBinding. destruct (_ || _); [|done]. destruct (cq_ContextID c) as [id|]; [|done].
  assert (Hs : llm_ok (with_store (fun n => Snapshot (clock n) owner id) p).2) by by apply with_store_ok with (op := OpSnapshot (clock (ls_step p)) owner id).
  by destruct (with_store _ p) as [[sn|e] p'].
Qed.

Lemma complete_keeps frame ac p : llm_ok p -> good (complete' frame ac p).
Proof.
  intros Hp. unfold complete. destruct (decodeCompleteRequest _ _ frame) as [request|]; [|done]. destruct (_ && _); [done|].
  destruct (q_Context request) as [c|]; [|by apply run_inner_keeps]. destruct (complete_screen _ _ _ _); [done|].
  destruct (owner_of o ac) as [owner|]; [|done]. pose proof (binding_ok owner request c p Hp) as Hb.
  destruct (resolveBinding _ _ _ _ _ _) as [[binding|e] p1]; [|done]. cbn in Hb.
  pose proof (reserve_ok (mutation_request owner request c binding frame) p1 Hb) as Hr. destruct (reserve_ _ _ _ _ _ _ _) as [[h|e] p2]; [|done]. cbn in Hr.
  pose proof (reserved_keeps h owner request frame ac p2 Hr) as [H1 H2]. destruct (reserved h owner request frame ac p2) as [out p3]. llm.
Qed.

Lemma status_keeps frame ac p : llm_ok p -> good (status (S := S) map_to_status marshal_status_dto format_time clock o frame ac p).
Proof.
  intros Hp. unfold status. destruct (decodeFrameParams _ _) as [[id key]|]; [|done]. destruct (owner_of o ac) as [owner|]; [|done].
  assert (Hs : llm_ok (with_store (fun n => Status format_time (clock n) owner id key) p).2)
    by by apply with_store_ok with (op := OpStatus (clock (ls_step p)) owner id key).
  destruct (with_store _ p) as [[dto|e] p']; [|done]. split; [done|]. cbn. unfold marshalActionResultWithTokens. by destruct (marshal_status_dto dto).
Qed.

Lemma release_keeps frame ac p : llm_ok p -> good (release (S := S) map_to_release marshal_receipt quote clock o frame ac p).
Proof.
  intros Hp. unfold release. destruct (decodeFrameParams _ _) as [[id base]|]; [|done]. destruct (String.eqb _ _); [done|].
  destruct (owner_of o ac) as [owner|]; [|done].
  assert (Hs : llm_ok (with_store (fun n => Release quote (clock n) owner id base (valueString (af_IdempotencyKey frame))) p).2)
    by by apply with_store_ok with (op := OpRelease (clock (ls_step p)) owner id base (valueString (af_IdempotencyKey frame))).
  destruct (with_store _ p) as [[rc|e] p']; [|done]. split; [done|]. cbn. unfold marshalActionResultWithTokens. by destruct (marshal_receipt rc).
Qed.

#[export] Instance llm_provider_invariant : ProviderInvariant provider llm_ok.
Proof.
  intros f ac p Hp. cbn [Execute StatefulLlmActionProvider]. unfold Execute_llm. destruct (String.eqb _ _); [by apply complete_keeps|].
  destruct (String.eqb _ _); [by apply status_keeps|]. destruct (String.eqb _ _); [by apply release_keeps|by apply run_inner_keeps].
Qed.

(** *** Transactions *)

(** Contents may be swept and reservations given back. *)
Record shrinks (p p' : state) : Prop := {
  shr_ok : llm_ok p';
  shr_contents : contents (ls_store p') ⊆ contents (ls_store p);
  shr_reservations : reservations (ls_store p') ⊆ reservations (ls_store p)
}.

Lemma shrinks_refl p : llm_ok p -> shrinks p p.
Proof. by split. Qed.
Lemma shrinks_trans p1 p2 p3 : shrinks p1 p2 -> shrinks p2 p3 -> shrinks p1 p3.
Proof. intros [_ H1 H2] [H3 H4 H5]. split; [done|by etransitivity..]. Qed.
Lemma shrinks_store p p' : llm_ok p -> llm_ok p' -> ls_store p' = ls_store p -> shrinks p p'.
Proof. intros H1 H2 E. split; [done|by rewrite E..]. Qed.

Lemma abort_shrinks h code p : llm_ok p -> shrinks p (abort' h code p).
Proof.
  intros Hp. pose proof Hp as [Hok _]. split; [by apply abort_ok| |].
  - unfold abort, with_store.
    destruct (abort_spec (clock (ls_step p)) (Some h) code (ls_store p) Hok) as [(e & -> & _)|(h' & r & m & i & _ & _ & Hc & _ & ->)]; [done|].
    cbn [snd ls_store]. etransitivity; [apply sweep_contents|]. unfold contents at 1. cbn [contexts NwpContextProof.resolved]. unfold abort_change in Hc.
    destruct (allocates _); [by subst m|]. destruct Hc as (id & e & _ & He & _ & ->). by rewrite contents_relock.
  - pose proof (op_shrinks (ls_store p) (OpAbort (clock (ls_step p)) (Some h) code) Hok I) as Hr. cbn [apply_op] in Hr.
    unfold abort, with_store. by destruct (Abort _ _ _ _).
Qed.

(** The reservation is not live: it was committed or aborted. *)
Definition settled (p : state) (h : handle) : Prop := forall r, reservations (ls_store p) !! h_id h <> Some (h_addr h, r).

Lemma shrinks_settled p p' h : shrinks p p' -> settled p h -> settled p' h.
Proof. intros [_ _ Hr] Hs r E. eapply Hs, lookup_weaken; done. Qed.

Lemma abort_settles h code p : llm_ok p -> settled (abort' h code p) h.
Proof.
  intros [Hok _] r. unfold abort, with_store.
  destruct (abort_spec (clock (ls_step p)) (Some h) code (ls_store p) Hok) as [(e & -> & Hn)|(h' & r' & m & i & [= <-] & Hr & _ & _ & ->)]; cbn [snd ls_store].
  - intros Hr. by eapply Hn.
  - cbn. pose proof (ok_held _ Hok _ _ _ Hr) as [-> _ _ _ _]. by rewrite lookup_delete_eq.
Qed.

Lemma abort_settled h code p : llm_ok p -> settled p h -> ls_store (abort' h code p) = ls_store p.
Proof.
  intros [Hok _] Hs. unfold abort, with_store.
  destruct (abort_spec (clock (ls_step p)) (Some h) code (ls_store p) Hok) as [(e & -> & Hn)|(h' & r' & m & i & [= <-] & Hr & _)]; [done|]. by destruct (Hs r').
Qed.

(** The goroutine does nothing, or settles the reservation. *)
Lemma watch_cases h p : llm_ok p -> watch' h p = p \/ (shrinks p (watch' h p) /\ settled (watch' h p) h).
Proof. intros Hp. unfold watch. destruct (_ && _); [right|by left]. split; [by apply abort_shrinks|by apply abort_settles]. Qed.

Lemma watch_shrinks h p : llm_ok p -> shrinks p (watch' h p).
Proof. intros Hp. destruct (watch_cases h p Hp) as [->|[? _]]; [by apply shrinks_refl|done]. Qed.

Lemma watch_settled h p : llm_ok p -> settled p h -> ls_store (watch' h p) = ls_store p.
Proof. intros Hp Hs. unfold watch. destruct (_ && _); [by apply abort_settled|done]. Qed.

(** What the transcript of the reservation is based on. *)
Definition base_of (r : LlmContextMutationReservation) : list LlmMessageDto :=
  if is_op (mr_Operation (r_request r)) LlmContextCreate then [] else r_baseTranscript r.

(** The reservation [h], live at [p], is committed: its context gets the next version
    and the transcript that the request and the reply make, and nothing else changes
    but by sweeping. *)
Definition commits (h : handle) (p p' : state) (reply : LlmMessageDto) (rc : LlmContextReceiptDto) : Prop :=
  exists r m, reservations (ls_store p) !! h_id h = Some (h_addr h, r) /\ m ⊆ contents (ls_store p) /\
    rc_Version rc = committed_version (r_request r) /\
    (allocates (mr_Operation (r_request r)) = false -> mr_ContextID (r_request r) = Some (rc_ContextID rc)) /\
    contents (ls_store p') =
      <[rc_ContextID rc := (rc_Version rc, mr_Owner (r_request r), committed_transcript (r_request r) (base_of r) reply)]> m /\
    settled p' h.

Lemma commit_commits h reply p : llm_ok p ->
  match commit_ format_time clock context_ids h reply p with
  | (Err _, p') => shrinks p p'
  | (Ok rc, p') => commits h p p' reply rc /\ llm_ok p'
  end.
Proof.
  intros Hp. pose proof (commit_ok h reply p Hp) as Hp'. pose proof Hp as [Hok _]. unfold commit_, with_store in *.
  destruct (commit_spec format_time (clock (ls_step p)) (context_ids (ls_step p)) (Some h) reply (ls_store p) Hok)
    as [(e & E & _)|(h' & r & rc & m & i & [= <-] & Hr & E & Hc & _)]; rewrite E in *; cbn [snd] in Hp'; [by apply shrinks_store|].
  split; [|done]. pose proof (ok_held _ Hok _ _ _ Hr) as [Hid Hne _ _ _]. destruct Hc as (e' & -> & Hv & Hcid & _ & _ & Hc).
  exists r, (contents (ls_store p)). split; [done|]. split; [done|]. unfold committed_version, base_of, committed_transcript.
  assert (Hset : settled (MkLlmState (ls_inner p) (NwpContextProof.resolved (ls_store p) r (<[rc_ContextID rc := e']> (contexts (ls_store p))) i)
                            (Datatypes.S (ls_step p))) h).
  { intros r0. cbn. by rewrite Hid, lookup_delete_eq. }
  cbn [ls_store]. unfold contents at 1. cbn [contexts NwpContextProof.resolved]. rewrite (contents_insert (ls_store p) _ (rc_ContextID rc) e') by done.
  unfold entry_content. destruct (allocates (mr_Operation (r_request r))) eqn:Ha.
  - destruct Hc as (_ & Hv1 & Ho & _ & Ht). rewrite Hv, Hv1, Ho, Ht. split_and!; try done. f_equal. f_equal. unfold allocates in Ha.
    apply orb_true_iff in Ha as [Ha%is_op_true|Ha%is_op_true]; by rewrite Ha.
  - destruct Hc as (e & Hcid' & He & Hre & Hv' & Ho & Ht).
    destruct (ok_lock _ Hok _ e He) as (a2 & r2 & Hr2 & (_ & _ & Hbv & Hown & Hbt & _)); [congruence|].
    rewrite Hre, Hid, Hr in Hr2. injection Hr2 as _ <-. rewrite Hbv. cbn [default]. rewrite Hv, Hv', Ho, Ht, <- Hown, <- Hbt. split_and!; try done.
    unfold allocates in Ha. apply orb_false_iff in Ha as [-> _]. done.
Qed.

Lemma commits_after h p p1 p2 reply rc : shrinks p p1 -> commits h p1 p2 reply rc -> commits h p p2 reply rc.
Proof.
  intros [_ Hc Hr] (r & m & H1 & H2 & H3). exists r, m. split; [by eapply lookup_weaken|]. split; [by etransitivity|done].
Qed.

Lemma commits_store h p p1 p2 reply rc : ls_store p2 = ls_store p1 -> commits h p p1 reply rc -> commits h p p2 reply rc.
Proof. intros E. unfold commits, settled. by rewrite E. Qed.

(** *** Unary completions *)

Definition reply_of (response : LlmCompleteActionResponse) : LlmMessageDto :=
  MkMessage "assistant" (p_Content response) None None (p_ToolCalls response).

(** The provider's response is one that may be committed. *)
Definition committable (r : ActionExecutionResult S) (response : LlmCompleteActionResponse) : Prop :=
  unmarshal_response (er_Result r) = Ok response /\ validStopReason (StopReason response) = true /\ StopReason response <> LlmStopError.

(** From [p] on the authorizer is asked at the stage of the commit and agrees, and then
    the reservation is committed, which leads to [p']. *)
Definition authorized_commit (owner : LlmContextOwner) (frame : ActionFrame) (ac : ActionContext) (h : handle) (reply : LlmMessageDto)
    (rc : LlmContextReceiptDto) (p p' : state) : Prop :=
  exists n p1, (ls_step p <= n <= ls_step p1)%nat /\
    authorization n owner (Action frame) LlmAuthorizationCommit (requiredLlmCapabilities frame) ac = None /\
    commit_ format_time clock context_ids h reply p1 = (Ok rc, p').

Lemma watch_step h p : (ls_step p <= ls_step (watch' h p))%nat.
Proof. unfold watch. destruct (_ && _); [|done]. unfold abort, with_store. destruct (Abort _ _ _ _). cbn. lia. Qed.

Lemma response_transaction h owner frame ac r p : llm_ok p ->
  let '(out, p') := complete_response unmarshal_response marshal_response format_time quote clock context_ids ctx_done watcher o h owner frame ac r p in
  shrinks p p' \/ exists response rc, committable r response /\ authorized_commit owner frame ac h (reply_of response) rc p p' /\ llm_ok p' /\
    commits h p p' (reply_of response) rc /\ out = completionResult marshal_response (with_context (Some rc) response) r.
Proof.
  intros Hp. unfold complete_response. destruct (unmarshal_response _) as [response|] eqn:Eu; [|left; by apply abort_shrinks].
  destruct (validStopReason _) eqn:Ev; cbn [negb]; [|left; by apply abort_shrinks].
  destruct (String.eqb_spec (StopReason response) LlmStopError); [left; by apply abort_shrinks|].
  destruct (authorization _ _ _ _ _ _) eqn:Ea; [left; by apply abort_shrinks|]. destruct (ctx_done _); [left; by apply abort_shrinks|]. cbv zeta.
  fold (reply_of response). pose proof (commit_commits h (reply_of response) _ (watch_ok h p Hp)) as Hc.
  destruct (commit_ _ _ _ h _ _) as [[rc|e] p'] eqn:Ecm.
  - right. exists response, rc. destruct Hc as [Hc Hp']. split_and!; try done.
    + exists (ls_step p), (watch' h p). split_and!; [done|apply watch_step|done|done].
    + eapply commits_after; [by apply watch_shrinks|done].
  - left. eapply shrinks_trans; [by apply watch_shrinks|done].
Qed.

Lemma with_store_inner {A} (f : nat -> InMemoryLlmContextStore -> A * InMemoryLlmContextStore) (p : state) : ls_inner (with_store f p).2 = ls_inner p.
Proof. unfold with_store. by destruct (f _ _). Qed.

Lemma watch_inner h p : ls_inner (watch' h p) = ls_inner p.
Proof. unfold watch. destruct (_ && _); [apply with_store_inner|done]. Qed.

(** What a completed unary request has done. *)
Definition unary_committed (owner : LlmContextOwner) (request : LlmCompleteActionRequest) (frame : ActionFrame) (ac : ActionContext) (h : handle)
    (p : state) (out : result exec_error (option (ActionExecutionResult state))) (p' : state) : Prop :=
  exists r i response rc, Execute inner frame ac (ls_inner p) = (Ok (Some r), i) /\ q_Stream request = false /\ committable r response /\
    authorized_commit owner frame ac h (reply_of response) rc (set_inner i (watch' h p)) p' /\ commits h p p' (reply_of response) rc /\
    out = completionResult marshal_response (with_context (Some rc) response) r.

Lemma reserved_transaction h owner request frame ac p : llm_ok p ->
  let '(out, p') := reserved h owner request frame ac p in
  shrinks p p' \/ (unary_committed owner request frame ac h p out p' /\ llm_ok p').
Proof.
  intros Hp. unfold complete_reserved, unary_committed. rewrite watch_inner. destruct (Execute _ _ _ _) as [res i] eqn:Ex. cbv zeta.
  assert (Hs : shrinks p (watch' h (set_inner i (watch' h p)))).
  { eapply shrinks_trans; [by apply watch_shrinks|]. eapply shrinks_trans; [by apply (shrinks_store _ (set_inner i (watch' h p))); auto with llm|].
    apply watch_shrinks. auto with llm. }
  pose proof (watch_step h (set_inner i (watch' h p))) as Hstep.
  revert Hs Hstep. generalize (watch' h (set_inner i (watch' h p))) as p2. intros p2 Hs Hstep. pose proof (shr_ok _ _ Hs) as Hp2.
  assert (Ha : forall code, shrinks p (abort' h code p2)) by (intros; eapply shrinks_trans; [done|by apply abort_shrinks]).
  destruct res as [r|e]; [|by left]. destruct (ctx_done _); [by left|]. destruct r as [r|]; cbn [default]; [change (id r) with r|].
  2: { cbn. by left. }
  destruct (er_Result r) as [|b l] eqn:Er; [destruct (er_Stream r) as [st|]; destruct (q_Stream request); cbn; by left|].
  destruct (q_Stream request); [by left|]. pose proof (response_transaction h owner frame ac r p2 Hp2) as Hr.
  destruct (complete_response _ _ _ _ _ _ _ _ _ _ _ _ _ _ _) as [out p']. destruct Hr as [Hr|(response & rc & Hal & (n & p3 & Hn & Hau) & Hp' & Hc & ->)].
  - left. by eapply shrinks_trans.
  - right. split; [|done]. exists r, i, response, rc. split_and!; try done; [|by eapply commits_after]. exists n, p3. split; [lia|done].
Qed.

Lemma reserve_reserves req p h p1 : llm_ok p -> reserve_ json_binding sha256_hex quote clock rids req p = (Ok h, p1) ->
  exists r, reservations (ls_store p1) !! h_id h = Some (h_addr h, r) /\ r_request r = req /\ ls_inner p1 = ls_inner p /\
    contents (ls_store p1) ⊆ contents (ls_store p) /\
    (if is_op (mr_Operation req) LlmContextCreate then base_of r = []
     else exists id v, mr_ContextID req = Some id /\ mr_BaseVersion req = Some v /\ contents (ls_store p) !! id = Some (v, mr_Owner req, base_of r)).
Proof.
  intros [Hok _]. unfold reserve_, with_store. destruct (Reserve _ _ _ _ _ _ _) as [a s] eqn:E. intros [= -> <-].
  destruct (reserve_made json_binding sha256_hex quote _ _ req (ls_store p) h s Hok E) as (r & m & (Hid & Hreq & _ & Hl & _ & Hcr & Hot) & Hhid & Hr & Hm).
  exists r. cbn. rewrite Hhid. assert (Hsub : contents s ⊆ contents (ls_store p)).
  { unfold contents at 1. rewrite Hm, (locks_contents _ r) by done. apply sweep_contents. }
  split_and!; try done. unfold base_of. rewrite Hreq. destruct (is_op _ _) eqn:Ec; [done|].
  destruct Hot as (id & e & Hcid & He & _ & _ & Ho & Hb & Ht); [intros Hop; apply is_op_true in Hop; congruence|].
  exists id, (version e). split_and!; [done..|]. eapply lookup_weaken; [|apply (sweep_contents (clock (ls_step p) 0%nat))].
  apply contents_lookup. exists e. split; [done|]. unfold entry_content. by rewrite Ho, Ht.
Qed.

Lemma binding_shrinks owner request c p : llm_ok p ->
  contents (ls_store (resolveBinding clock o owner request c p).2) ⊆ contents (ls_store p) /\ ls_inner (resolveBinding clock o owner request c p).2 = ls_inner p.
Proof.
  intros [Hok _]. unfold resolveBinding. destruct (_ || _); [|done]. destruct (cq_ContextID c) as [id|]; [|done].
  unfold with_store, Snapshot. pose proof (sweep_contents (clock (ls_step p) 0%nat) (ls_store p)). by destruct (requireMutable _ _ _).
Qed.

(** C27. A unary llm.complete is a transaction on the contexts of the store, whatever
    the wrapped provider, the authorizer and the end of the request's context do: the
    contexts keep their versions, owners and transcripts (they may expire and be swept),
    or the request carried a context operation and these steps were taken in this order:
    the mutation was reserved for the caller, the wrapped provider was called and
    answered with a valid response that is no error, the authorizer was asked at the
    stage of the commit and agreed, and the reservation was committed with the provider's
    reply. Then one context of the caller has the next version and the transcript it had
    at the version the request named, followed by the request's messages and the reply;
    the result carries the receipt of that version, and no other context has changed. *)
Theorem complete_is_transactional (frame : ActionFrame) (ac : ActionContext) (p : state) (Hp : llm_ok p) :
  let '(out, p') := complete' frame ac p in
  let before := contents (ls_store p) in let after := contents (ls_store p') in
  after ⊆ before \/
  exists request c owner r response rc base,
    (decodeCompleteRequest map_to_request quote frame = Ok request /\ q_Context request = Some c /\ q_Stream request = false /\
     owner_of o ac = Ok owner) /\
    (exists binding p1 h p2 i p3,
       resolveBinding clock o owner request c p = (Ok binding, p1) /\
       reserve_ json_binding sha256_hex quote clock rids (mutation_request owner request c binding frame) p1 = (Ok h, p2) /\
       Execute inner frame ac (ls_inner p) = (Ok (Some r), i) /\
       authorized_commit owner frame ac h (reply_of response) rc (set_inner i (watch' h p2)) p3 /\ ls_store p' = ls_store p3) /\
    committable r response /\
    out = completionResult marshal_response (with_context (Some rc) response) r /\
    rc_Version rc = (if allocates (cq_Operation c) then 1 else u64 (default 0 (cq_BaseVersion c) + 1)) /\
    (allocates (cq_Operation c) = false -> cq_ContextID c = Some (rc_ContextID rc)) /\
    (if is_op (cq_Operation c) LlmContextCreate then base = []
     else exists id v, cq_ContextID c = Some id /\ cq_BaseVersion c = Some v /\ before !! id = Some (v, owner, base)) /\
    after !! rc_ContextID rc = Some (rc_Version rc, owner,
      (if is_op (cq_Operation c) LlmContextReset then [] else base) ++ default [] (Messages request) ++ [reply_of response]) /\
    forall id, id <> rc_ContextID rc -> after !! id = None \/ after !! id = before !! id.
Proof.
  unfold complete. destruct (decodeCompleteRequest _ _ frame) as [request|] eqn:Ed; [|by left]. destruct (_ && _); [by left|].
  destruct (q_Context request) as [c|] eqn:Ec; [|unfold run_inner; destruct (Execute _ _ _ _); by left].
  destruct (complete_screen _ _ _ _); [by left|]. destruct (owner_of o ac) as [owner|] eqn:Eo; [|by left].
  pose proof (binding_ok owner request c p Hp) as Hb1. pose proof (binding_shrinks owner request c p Hp) as [Hb2 Hb3].
  destruct (resolveBinding _ _ _ _ _ _) as [[binding|e] p1] eqn:Erb; [|by left]. cbn [snd] in *.
  set (req := mutation_request owner request c binding frame). pose proof (reserve_ok req p1 Hb1) as Hr1.
  destruct (reserve_ _ _ _ _ _ req p1) as [[h|e] p2] eqn:Er; cbn [snd] in Hr1.
  2: { left. etransitivity; [|done]. assert (Es : ls_store p2 = (Reserve json_binding sha256_hex quote (clock (ls_step p1)) (rids (ls_step p1)) req (ls_store p1)).2)
         by (unfold reserve_, with_store in Er; destruct (Reserve _ _ _ _ _ _ _) as [a s]; by injection Er as _ <-).
       rewrite Es. destruct (reserve_spec json_binding sha256_hex quote (clock (ls_step p1)) (rids (ls_step p1)) req (ls_store p1) (proj1 Hb1))
         as [[e' ->]|(r & m & (_ & _ & _ & Hl & _) & E)]; [apply sweep_contents|].
       unfold reserve_, with_store in Er. rewrite E in Er. done. }
  destruct (reserve_reserves req p1 h p2 Hb1 Er) as (r0 & Hlive & Hreq & Hin & Hc2 & Hbase).
  pose proof (reserved_transaction h owner request frame ac p2 Hr1) as Ht. destruct (reserved h owner request frame ac p2) as [out p3].
  assert (Hp1 : contents (ls_store p2) ⊆ contents (ls_store p)) by by etransitivity.
  destruct Ht as [[H1 H2 H3]|[(r & i & response & rc & Hex & Hst & Hal & Hau & (r1 & m & Hl1 & Hm & Hv & Hid & Hct & Hset) & Hout) Hp3]].
  { left. etransitivity; [apply (watch_shrinks h p3 H1)|]. by etransitivity. }
  rewrite Hlive in Hl1. injection Hl1 as <-. pose proof (watch_settled h p3 Hp3 Hset) as Hst3. rewrite Hst3, Hct. rewrite Hreq in *. right.
  exists request, c, owner, r, response, rc, (base_of r0). rewrite Hin, Hb3 in Hex.
  split; [done|]. split; [by exists binding, p1, h, p2, i, p3|]. split_and!; try done.
  - change (cq_Operation c) with (mr_Operation req). destruct (is_op _ _); [done|]. destruct Hbase as (id & v & ? & ? & Hlk).
    exists id, v. split_and!; [done|done|]. by eapply lookup_weaken.
  - by rewrite lookup_insert_eq.
  - intros id Hne. rewrite lookup_insert_ne by done. destruct (m !! id) as [x|] eqn:Ex; [right|by left].
    symmetry. eapply lookup_weaken; [|done]. by eapply lookup_weaken.
Qed.

(** *** Streams *)

Lemma read_chunks_flags isLast payloads acc : resolved (read_chunks unmarshal_chunk isLast payloads acc).2 = resolved acc /\
  terminalSeen (read_chunks unmarshal_chunk isLast payloads acc).2 = terminalSeen acc.
Proof.
  revert acc. induction payloads as [|b payloads IH]; intros acc; [done|]. cbn. destruct (unmarshal_chunk b) as [c|]; [|done].
  destruct (_ && _); [done|]. set (acc1 := MkAcc _ _ _ _). destruct (IH acc1) as [H1 H2]. by destruct (read_chunks _ _ _ acc1).
Qed.

(** The last line is terminal and carries no error. *)
Definition clean_end (l : list ActionStreamFrame) : bool :=
  match last l with Some f => IsLast f && String.eqb (sf_ErrorCode f) "" | None => false end.

Lemma emit_clean_end sid ctx_at write_at ws f : clean_end (emitted ws) = false -> IsLast f && String.eqb (sf_ErrorCode f) "" = false ->
  clean_end (emitted (emit sid ctx_at write_at ws (Some f)).2) = false.
Proof.
  intros Hc Hf. destruct (emit_cases sid ctx_at write_at ws (Some f)) as [(e & _ & E & _)|(g & fr & [= <-] & _ & _ & _ & _ & -> & E & _)]; rewrite E; [done|].
  unfold clean_end. by rewrite last_snoc.
Qed.

Section Stream.
Context (sid : string) (ctx_at : nat -> option ctx_error) (write_at : nat -> option string).
Context (h : handle) (owner : LlmContextOwner) (frame : ActionFrame) (ac : ActionContext).
Abbreviation go := (run_stream (S := state) sid ctx_at write_at).

(** After the terminal frame nothing more is written, and the store is left alone but
    for the abort of a reservation that is still open. *)
Lemma coordinate_done (source : ActionStream S) acc ws p : terminalSeen acc = true ->
  let '(_, ws', p') := go (coordinate h owner frame ac source acc) ws p in
  ws' = ws /\ (if resolved acc then ls_store p' = ls_store p else llm_ok p -> shrinks p p' /\ settled p' h).
Proof.
  intros Ht. revert p. induction source as [e|f k IH|upd k IH]; intros p; cbn [coordinateStream].
  - rewrite Ht. destruct (resolved acc); cbn; [done|]. split; [done|]. intros Hp. split; [by apply abort_shrinks|by apply abort_settles].
  - rewrite Ht. apply IH.
  - cbn [run_stream]. specialize (IH (ls_inner p) (set_inner (upd (ls_inner p)) p)).
    destruct (go _ _ _) as [[e ws'] p']. destruct IH as [-> IH]. split; [done|]. destruct (resolved acc); [done|].
    intros Hp. destruct IH as [H1 H2]; [by apply inner_ok|]. split; [|done]. eapply shrinks_trans; [|done]. apply shrinks_store; [done|by apply inner_ok|done].
Qed.

(** The end of a stream: the reservation is settled; the contexts are kept or the
    reservation is committed, and it is if the last line is clean. *)
Definition stream_outcome (p : state) (ws' : stream_state) (p' : state) : Prop :=
  settled p' h /\ llm_ok p' /\
  ((shrinks p p' /\ clean_end (emitted ws') = false) \/
   exists n text calls rc, authorization n owner (Action frame) LlmAuthorizationCommit (requiredLlmCapabilities frame) ac = None /\
     commits h p p' (MkMessage "assistant" text None None calls) rc).

Lemma outcome_after p p1 ws' p' : shrinks p p1 -> stream_outcome p1 ws' p' -> stream_outcome p ws' p'.
Proof.
  intros Hs (H1 & H2 & [[H3 H4]|(n & text & calls & rc & H3 & H4)]); (split; [done|split; [done|]]).
  - left. split; [by eapply shrinks_trans|done].
  - right. exists n, text, calls, rc. split; [done|]. by eapply commits_after.
Qed.

(** The stream goes on after the reservation has been aborted. *)
Lemma outcome_aborted (source : ActionStream S) acc ws p p1 : terminalSeen acc = true -> resolved acc = true -> shrinks p p1 -> settled p1 h ->
  clean_end (emitted ws) = false ->
  let '(_, ws', p') := go (coordinate h owner frame ac source acc) ws p1 in stream_outcome p ws' p'.
Proof.
  intros Ht Hr Hs Hset Hc. pose proof (coordinate_done source acc ws p1 Ht) as Hd. pose proof (coordinate_keeps h owner frame ac source acc) as Hk.
  pose proof (run_stream_keeps llm_ok sid ctx_at write_at _ ws p1 Hk (shr_ok _ _ Hs)) as Hp'. destruct (go _ _ _) as [[e ws'] p'].
  rewrite Hr in Hd. destruct Hd as [-> E]. split; [unfold settled; by rewrite E|]. split; [done|]. left. split; [|done].
  eapply shrinks_trans; [done|]. by apply shrinks_store; [apply (shr_ok _ _ Hs)| |].
Qed.

Lemma settle_cases acc p : llm_ok p ->
  match settle' h owner frame ac acc p with
  | (Err _, p1) => shrinks p p1 /\ settled p1 h
  | (Ok rc, p1) => llm_ok p1 /\ exists n text calls, authorization n owner (Action frame) LlmAuthorizationCommit (requiredLlmCapabilities frame) ac = None /\
      commits h p p1 (MkMessage "assistant" text None None calls) rc
  end.
Proof.
  intros Hp. unfold settle. destruct (authorization _ _ _ _ _ _) eqn:Ea; [split; [by apply abort_shrinks|by apply abort_settles]|]. cbv zeta.
  set (reply := MkMessage "assistant" _ _ _ _). pose proof (commit_commits h reply p Hp) as Hc. destruct (commit_ _ _ _ h reply p) as [[rc|e] p1].
  - destruct Hc as [Hc Hp1]. split; [done|]. by do 3 eexists.
  - pose proof (shr_ok _ _ Hc) as Hp1. split; [|by apply abort_settles]. eapply shrinks_trans; [done|by apply abort_shrinks].
Qed.

Lemma coordinate_outcome (source : ActionStream S) acc ws p : llm_ok p -> resolved acc = false -> clean_end (emitted ws) = false ->
  let '(_, ws', p') := go (coordinate h owner frame ac source acc) ws p in stream_outcome p ws' p'.
Proof.
  revert acc ws p. induction source as [e|f k IH|upd k IH]; intros acc ws p Hp Hr Hc.
  - cbn [coordinateStream]. rewrite Hr. cbn. split; [by apply abort_settles|]. split; [by apply abort_ok|]. left. split; [by apply abort_shrinks|done].
  - cbn [coordinateStream]. destruct (terminalSeen acc) eqn:Ht; [by apply IH|]. destruct f as [f|]; [|by apply IH].
    destruct (read_chunks_flags (IsLast f) (Data f) acc) as [Hr1 Ht1]. destruct (read_chunks _ _ _ _) as [[chunks|e] acc1]; cbn in Hr1, Ht1; rewrite Hr in Hr1;
      [|by apply IH]. destruct (IsLast f) eqn:El; cbn [negb].
    2: { cbn [run_stream]. pose proof (emit_clean_end sid ctx_at write_at ws (with_chunks marshal_chunk chunks (sf_ErrorCode f) f) Hc) as Hem.
         cbn in Hem. rewrite El in Hem. destruct (emit _ _ _ _ _) as [e ws1]. apply IH; auto. }
    destruct (_ || _) eqn:Ef.
    + cbn [run_stream]. set (code := if String.eqb _ _ then _ else _).
      pose proof (emit_clean_end sid ctx_at write_at ws (with_chunks marshal_chunk chunks code f) Hc) as Hem. destruct (emit _ _ _ _ _) as [e ws1].
      apply outcome_aborted; [done|done|by apply abort_shrinks|by apply abort_settles|]. apply Hem. cbn. rewrite El. cbn. unfold code.
      destruct (String.eqb_spec (sf_ErrorCode f) "") as [|Hne]; [done|]. by apply String.eqb_neq.
    + destruct (terminalIndex chunks) as [i|].
      * cbn [run_stream]. pose proof (settle_cases (set_terminal acc1) p Hp) as Hs. destruct (settle' _ _ _ _ _ p) as [[rc|e] p1]; cbn [fst snd].
        -- cbn [run_stream]. destruct (emit _ _ _ _ _) as [e ws1]. destruct Hs as [Hp1 (n & text & calls & Hau & Hcm)].
           pose proof (coordinate_done (k e) (set_resolved (set_terminal acc1)) ws1 p1 eq_refl) as Hd.
           pose proof (run_stream_keeps llm_ok sid ctx_at write_at _ ws1 p1 (coordinate_keeps h owner frame ac (k e) (set_resolved (set_terminal acc1))) Hp1) as Hp'.
           destruct (go _ _ _) as [[e' ws'] p']. destruct Hd as [-> E]. pose proof (commits_store h p p1 p' _ rc E Hcm) as Hcm'.
           split; [by destruct Hcm' as (? & ? & ? & ? & ? & ? & ? & ?)|]. split; [done|]. right. by exists n, text, calls, rc.
        -- destruct Hs as [Hs1 Hs2]. by apply outcome_aborted.
      * by apply IH.
  - cbn [coordinateStream run_stream]. pose proof (IH (ls_inner p) acc ws (set_inner (upd (ls_inner p)) p) (inner_ok _ p Hp) Hr Hc) as H'.
    destruct (go _ _ _) as [[e ws'] p']. eapply outcome_after; [|done]. by apply shrinks_store; [|apply inner_ok|].
Qed.

End Stream.

(** A streamed llm.complete is a transaction too, whatever frames the wrapped
    provider emits and however the connection, the request's context and the authorizer
    behave: when the stream has been written the reservation is settled, no context has
    changed its version, owner or transcript unless the authorizer agreed at the end,
    and then exactly the reserved context has, by an assistant's reply; and a stream that
    the server counts as completed has been committed. *)
Theorem stream_is_transactional sid ctx_at write_at h owner frame ac (source : ActionStream S) (p : state) (Hp : llm_ok p) :
  let '(_, completed, p') := writeStream sid ctx_at write_at (coordinate h owner frame ac source start_acc) p in
  let committed := exists n text calls rc,
    authorization n owner (Action frame) LlmAuthorizationCommit (requiredLlmCapabilities frame) ac = None /\
    commits h p p' (MkMessage "assistant" text None None calls) rc in
  settled p' h /\ (contents (ls_store p') ⊆ contents (ls_store p) \/ committed) /\ (is_Some completed -> committed).
Proof.
  unfold writeStream. set (ws0 := MkStreamState [] 0 false 0).
  pose proof (coordinate_outcome sid ctx_at write_at h owner frame ac source start_acc ws0 p Hp eq_refl eq_refl) as Ho.
  pose proof (run_stream_inv sid ctx_at write_at (coordinate h owner frame ac source start_acc) ws0 p) as Hinv.
  destruct (run_stream _ _ _ _ ws0 p) as [[err ws] p']. cbn [fst snd] in Hinv. destruct Hinv as (_ & _ & Hterm); [done|].
  destruct Ho as (Hset & _ & Ho). split; [done|]. split; [destruct Ho as [[[_ Hs _] _]|Hc]; [by left|by right]|].
  intros [fr Hfr]. destruct Ho as [[_ Hcl]|Hc]; [exfalso|done]. destruct err as [e|]; [done|]. destruct (terminal ws) eqn:Et; [|done].
  cbn in Hfr. unfold ends_terminal in Hterm. unfold clean_end in Hcl. destruct (last (emitted ws)) as [f|]; [|done].
  destruct (String.eqb _ _); [|done]. rewrite <- Hterm in Hcl. done.
Qed.

End Provider.

(** C28. An action node over the stateful LLM provider keeps the invariant of the
    context store: from an empty store, after any history of requests and of steps of
    its asynchronous tasks, with any wrapped provider, streams, clocks, failures and
    cancellations, every context is under its own id and active or a tombstone, every
    lock is a live reservation of the version and transcript that the context has, and
    no principal has more live contexts and pending allocations than the limit. *)
Theorem llm_node_invariant `{GoJSON} {S : Type}
    (unmarshal_map : list byte -> option dict * option string) (unmarshal_any : list byte -> option any)
    (marshal_any : any -> option (list byte)) (unmarshal_frame : list byte -> result string ActionFrameWire)
    (sha256_upper : list byte -> string) (marshal_status : ActionTaskRecord -> list byte)
    (url_Parse : string -> option URL) (parseIPv6 : string -> option (list Z)) (node : ActionNodeOptions)
    map_to_request map_to_status map_to_release unmarshal_response marshal_response unmarshal_chunk marshal_chunk
    marshal_status_dto marshal_receipt json_binding sha256_hex format_time quote clock (rids : nat -> string) context_ids ctx_done watcher
    (inner : IActionNodeProvider S) (o : StatefulLlmActionOptions) (i : S) (opts : LlmContextStoreOptions)
    (Hids : forall n, rids n <> "") (Hinj : forall n m, rids n = rids m -> n = m) (Hmax : 0 <= MaxContextsPerPrincipal opts) evs :
  let provider := StatefulLlmActionProvider map_to_request map_to_status map_to_release unmarshal_response marshal_response unmarshal_chunk
    marshal_chunk marshal_status_dto marshal_receipt json_binding sha256_hex format_time quote clock rids context_ids ctx_done watcher inner o in
  store_ok (ls_store (state_of (run_events unmarshal_map unmarshal_any marshal_any unmarshal_frame sha256_upper marshal_status url_Parse parseIPv6
    node provider evs (MkServer ∅ ∅ ∅ (MkLlmState i (NewInMemoryLlmContextStore opts) 0))))).
Proof.
  intros provider. pose proof (llm_provider_invariant map_to_request map_to_status map_to_release unmarshal_response marshal_response unmarshal_chunk
    marshal_chunk marshal_status_dto marshal_receipt json_binding sha256_hex format_time quote clock rids context_ids ctx_done watcher inner o Hids Hinj) as Hk.
  apply (history_keeps unmarshal_map unmarshal_any marshal_any unmarshal_frame sha256_upper marshal_status url_Parse parseIPv6 node provider
    (llm_ok rids)). split; [by apply new_store_ok|done].
Qed.

(** ** Witnesses *)

Fixpoint sample_rid (n : nat) : string := match n with O => "r" | Datatypes.S n => String (chr 114) (sample_rid n) end.
Lemma sample_rid_inj n m : sample_rid n = sample_rid m -> n = m.
Proof. revert m. induction n as [|n IH]; intros [|m] E; [done| | |]; injection E as E; [by destruct m|by destruct n|]. by rewrite (IH m). Qed.
Lemma sample_rid_nonempty n : sample_rid n <> "".
Proof. by destruct n. Qed.

Definition sample_llm_options : StatefulLlmActionOptions :=
  MkLlmOptions "scope" "1" "" "" false true false "" (Some (fun _ _ _ _ _ _ => None)).
(** A provider that answers at once, or streams one chunk, and counts its calls. *)
Definition sample_inner (stream : bool) : IActionNodeProvider nat :=
  MkProvider (fun _ _ n => (Ok (Some (if stream
    then MkExecResult [] (Some (SEmit (Some (MkStreamFrame "" 0 true "" [[Byte.x63]] None "")) (fun e => SReturn e))) "" 0
    else MkExecResult [Byte.x31] None "" 0)), Datatypes.S n)) None.
Definition sample_llm_frame : ActionFrame := MkActionFrame LlmCompleteActionID (VMap []) None false (Some "k1") None None.
Definition sample_llm_context : ActionContext := MkActionContext "alice" "" "" (MkActionSpec "" "" "" true None 0 0 "") 1000 "normal" 0.
Definition sample_complete (stream : bool) : LlmCompleteActionRequest :=
  MkCompleteRequest LlmCompleteActionID "m" None stream (Some [says "user" "hi"]) None (Some (MkContextRequest LlmContextCreate None None None)).
Definition sample_response : LlmCompleteActionResponse := MkCompleteResponse "end_turn" (Some "hello") [] None None None.
Definition sample_chunk : LlmCompleteStreamChunkDto := MkChunk (Some "hello") [] (Some "end_turn") None None None.
Definition sample_state : llm_state nat := MkLlmState 0%nat sample_store 0.

Lemma sample_state_ok : llm_ok sample_rid sample_state.
Proof. split; [by apply new_store_ok|done]. Qed.

Abbreviation sample_complete_run := (fun ids => complete (fun _ => Ok (sample_complete false)) (fun _ => Ok sample_response) (fun _ => Ok [Byte.x61])
  (fun _ => Ok sample_chunk) (fun _ => []) sample_binding string_of_bytes fmt_d id (fun n _ => Z.of_nat n) sample_rid ids
  (fun _ => None) (fun _ => false) (sample_inner false) sample_llm_options sample_llm_frame sample_llm_context sample_state).

(** When the factory of context ids fails, the request fails and its reservation stays:
    the key is busy and the allocation counts against the quota of the caller. *)
Lemma commit_failure_leaks :
  let '(out, p) := sample_complete_run (fun _ _ => Err "entropy") in
  is_ok out = false /\ pending (ls_store p) alice = 1%nat /\
  idempotency (ls_store p) !! ownerKey alice LlmCompleteActionID "k1" <> None.
Proof. by vm_compute. Qed.

Lemma complete_is_transactional_witness :
  exists rc, rc_Version rc = 1 /\
    contents (ls_store (sample_complete_run (fun _ => sample_ids)).2) !! rc_ContextID rc = Some (1, alice, [says "user" "hi"; says "assistant" "hello"]).
Proof.
  pose proof (complete_is_transactional (fun _ => Ok (sample_complete false)) (fun _ => Ok sample_response) (fun _ => Ok [Byte.x61])
    (fun _ => Ok sample_chunk) (fun _ => []) sample_binding string_of_bytes fmt_d id (fun n _ => Z.of_nat n) sample_rid (fun _ => sample_ids)
    (fun _ => None) (fun _ => false) (sample_inner false) sample_llm_options sample_rid_nonempty sample_rid_inj sample_llm_frame sample_llm_context
    sample_state sample_state_ok) as Ht.
  destruct (sample_complete_run (fun _ => sample_ids)) as [out p'] eqn:E. destruct Ht as [Hsub|Ht].
  - vm_compute in E. injection E as _ <-. apply map_subseteq_spec with (i := sample_id) (x := (1, alice, [says "user" "hi"; says "assistant" "hello"])) in Hsub;
      [by vm_compute in Hsub|by vm_compute].
  - destruct Ht as (request & c & owner & r & response & rc & base & (Hd & Hc & _ & Ho) & _ & (Hu & _) & _ & Hv & _ & Hb & Hl & _).
    vm_compute in Hd. injection Hd as <-. injection Hc as <-. vm_compute in Ho. injection Ho as <-. injection Hu as <-. cbn in Hb, Hv. subst base.
    exists rc. split; [done|]. cbn [snd]. rewrite Hl, Hv. reflexivity.
Defined.

Definition sample_reserved : llm_state nat := (reserve_ sample_binding string_of_bytes id (fun n _ => Z.of_nat n) sample_rid sample_create sample_state).2.
Definition sample_stream : ActionStream nat :=
  SEmit (Some (MkStreamFrame "" 0 true "" [[Byte.x63]] None "")) (fun e => SReturn e).
Abbreviation sample_coordinated := (coordinateStream (fun _ => Ok sample_chunk) (fun _ => []) fmt_d (fun n _ => Z.of_nat n) (fun _ => sample_ids)
  sample_llm_options (MkHandle 0 "r") alice sample_llm_frame sample_llm_context sample_stream start_acc).

Lemma stream_is_transactional_witness :
  settled (writeStream "s" (fun _ => None) (fun _ => None) sample_coordinated sample_reserved).2 (MkHandle 0 "r") /\
  exists text calls rc, commits (MkHandle 0 "r") sample_reserved (writeStream "s" (fun _ => None) (fun _ => None) sample_coordinated sample_reserved).2
    (MkMessage "assistant" text None None calls) rc.
Proof.
  pose proof (stream_is_transactional (fun _ => Ok sample_chunk) (fun _ => []) sample_binding string_of_bytes fmt_d id (fun n _ => Z.of_nat n) sample_rid
    (fun _ => sample_ids) sample_llm_options sample_rid_nonempty sample_rid_inj "s" (fun _ => None) (fun _ => None) (MkHandle 0 "r") alice
    sample_llm_frame sample_llm_context sample_stream sample_reserved
    (reserve_ok sample_binding string_of_bytes fmt_d id (fun n _ => Z.of_nat n) sample_rid sample_rid_nonempty sample_rid_inj _ _ sample_state_ok)) as Ht.
  destruct (writeStream _ _ _ sample_coordinated sample_reserved) as [[lines completed] p'] eqn:E. destruct Ht as (H1 & _ & H2). split; [done|].
  assert (Hsome : is_Some completed) by (vm_compute in E; injection E as _ <- _; eauto).
  destruct (H2 Hsome) as (n & text & calls & rc & _ & Hc). by exists text, calls, rc.
Defined.

Definition sample_node : ActionNodeOptions :=
  MkActionOptions "urn:nps:node:a" "" {[LlmCompleteActionID := MkActionSpec "" "" "" true None 0 0 ""]} "/n" true 0 0 0 0 None 0 None.
Definition sample_llm_wire : ActionFrameWire := MkFrameWire LlmCompleteActionID [Byte.x7b] "k1" 0 false "" "" "r".

Abbreviation sample_node_run := (run_events (H := NwpActionProof.sample_json) (fun _ => (None, Some "eof")) (fun _ => Some (VMap [])) (fun _ => Some [Byte.x6e])
  (fun _ => Ok sample_llm_wire) (fun _ => "hash") (fun _ => []) (fun _ => None) (fun _ => None) sample_node
  (StatefulLlmActionProvider (fun _ => Ok (sample_complete true)) (fun _ => Err "") (fun _ => Err "") (fun _ => Ok sample_response) (fun _ => Ok [Byte.x61])
     (fun _ => Ok sample_chunk) (fun _ => []) (fun _ => Err "") (fun _ => Err "") sample_binding string_of_bytes fmt_d id (fun n _ => Z.of_nat n) sample_rid
     (fun _ => sample_ids) (fun _ => None) (fun _ => false) (sample_inner true) sample_llm_options)
  [Request (NwpActionProof.sample_world 5 "t1") NwpActionProof.sample_request] (MkServer ∅ ∅ ∅ (MkLlmState 0%nat sample_store 0))).

Lemma llm_node_invariant_witness :
  store_ok (ls_store (state_of sample_node_run)) /\ size (contexts (ls_store (state_of sample_node_run))) = 1%nat.
Proof.
  split; [|by vm_compute]. apply (llm_node_invariant (H := NwpActionProof.sample_json)); [apply sample_rid_nonempty|apply sample_rid_inj|done].
Defined.
