(* ===== verification/NwpMemory.v ===== *)
(** * Memory nodes in memory

    nwp/memory_node_inmemory.go: a provider that filters, orders and pages rows in
    process; nwp/memory_node_server.go: the HTTP handler of a memory node with its
    budget of tokens and its streams.

    A filter is decoded JSON; the order of a [dict] is the order in which the runtime
    ranges over the map.  [sort.SliceStable], [json.Marshal], hashes and the verdicts of
    the reputation evaluator are parameters. *)

From S2P Require Import Prelude GoValue GoSort CoreBinaryVector NwpReputation NwpAnchor NwpSql.

(** ** Values *)

Definition toFloat (v : any) : option float64 :=
  match v with
  | VFloat64 n => Some n
  | VFloat32 b => Some (float64_of_float32 b)
  | VInt KInt n | VInt KInt64 n | VInt KUint64 n => Some (float64_of_Z n)
  | _ => None
  end.

(** [reflect.DeepEqual] of decoded values. *)
Fixpoint DeepEqual (a b : any) {struct a} : bool :=
  match a, b with
  | VNil, VNil => true
  | VBool x, VBool y => Bool.eqb x y
  | VString x, VString y | VNumber x, VNumber y => String.eqb x y
  | VInt k x, VInt k' y => bool_decide (k = k') && (x =? y)
  | VFloat64 x, VFloat64 y => SFeqb x y
  | VFloat32 x, VFloat32 y => SFeqb (float64_of_float32 x) (float64_of_float32 y)
  | VSlice x, VSlice y =>
      (fix all2 (x y : list any) : bool :=
         match x, y with [], [] => true | v :: x, w :: y => DeepEqual v w && all2 x y | _, _ => false end) x y
  | VStrings x, VStrings y => bool_decide (x = y)
  | VFloats32 x, VFloats32 y => (length x =? length y)%nat && forallb (fun '(v, w) => SFeqb (float64_of_float32 v) (float64_of_float32 w)) (zip x y)
  | VFloats64 x, VFloats64 y => (length x =? length y)%nat && forallb (fun '(v, w) => SFeqb v w) (zip x y)
  | VMap x, VMap y =>
      (length x =? length y)%nat &&
      forallb (fun e => match dict_get e.1 y with Some w => DeepEqual e.2 w | None => false end) x
  | VMaps x, VMaps y =>
      (fix all2 (x y : list dict) : bool :=
         match x, y with
         | [], [] => true
         | m :: x, m' :: y =>
             (length m =? length m')%nat &&
             forallb (fun e => match dict_get e.1 m' with Some w => DeepEqual e.2 w | None => false end) m && all2 x y
         | _, _ => false
         end) x y
  | _, _ => false
  end.

Definition valuesEqual (a b : any) : bool :=
  match toFloat a, toFloat b with
  | Some af, Some bf => SFeqb af bf
  | _, _ => DeepEqual a b
  end.

Definition compareValues (a b : any) : Z :=
  match toFloat a, toFloat b with
  | Some af, Some bf => if SFltb af bf then -1 else if SFltb bf af then 1 else 0
  | _, _ =>
      match a, b with
      | VString s, VString t => if String.ltb s t then -1 else if String.ltb t s then 1 else 0
      | _, _ => 0
      end
  end.

Definition toSlice (v : any) : list any := default [] (as_slice v).

(** ** Filters *)

(** One operator; [None] for an unknown one. *)
Definition op_test (actual : any) (op : string) (want : any) : option bool :=
  if String.eqb op "eq" then Some (valuesEqual actual want)
  else if String.eqb op "ne" then Some (negb (valuesEqual actual want))
  else if String.eqb op "gt" then Some (0 <? compareValues actual want)
  else if String.eqb op "gte" then Some (0 <=? compareValues actual want)
  else if String.eqb op "lt" then Some (compareValues actual want <? 0)
  else if String.eqb op "lte" then Some (compareValues actual want <=? 0)
  else if String.eqb op "in" then Some (existsb (valuesEqual actual) (toSlice want))
  else None.

Fixpoint match_ops (actual cond : any) (ops : dict) : bool :=
  match ops with
  | [] => true
  | (op, want) :: r =>
      match op_test actual op want with
      | Some b => if b then match_ops actual cond r else false
      | None => valuesEqual actual cond
      end
  end.

Definition matchField (actual cond : any) : bool :=
  match cond with VMap ops => match_ops actual cond ops | _ => valuesEqual actual cond end.

Fixpoint matchFilter (row : dict) (filter : any) {struct filter} : bool :=
  match filter with
  | VMap m =>
      forallb (fun e =>
        if String.eqb e.1 "and" then match e.2 with VSlice subs => forallb (matchFilter row) subs | _ => true end
        else if String.eqb e.1 "or" then match e.2 with VSlice (_ :: _ as subs) => existsb (matchFilter row) subs | _ => true end
        else matchField (dict_at row e.1) e.2) m
  | _ => true
  end.

(** ** Order *)

Record orderClause : Type := MkClause { oc_field : string; oc_desc : bool }.

Definition add_clause (m : dict) : list orderClause :=
  let field := default "" (as_string (dict_at m "field")) in
  if String.eqb field "" then [] else [MkClause field (String.eqb (default "" (as_string (dict_at m "dir"))) "desc")].

Definition parseOrder (order : any) : list orderClause :=
  match order with
  | VMap m => add_clause m
  | VSlice l => flat_map (fun e => match e with VMap m => add_clause m | _ => [] end) l
  | _ => []
  end.

Fixpoint order_less (clauses : list orderClause) (a b : dict) : bool :=
  match clauses with
  | [] => false
  | c :: r =>
      let cmp := compareValues (dict_at a (oc_field c)) (dict_at b (oc_field c)) in
      if cmp =? 0 then order_less r a b else if oc_desc c then 0 <? cmp else cmp <? 0
  end.

Definition applyOrder `{StableSort} (rows : list dict) (order : any) : list dict :=
  match parseOrder order with [] => rows | clauses => SliceStable (order_less clauses) rows end.

(** ** The provider *)

Record MemoryNodeQueryResult : Type := MkQueryResult { Rows : option (list dict); NextCursor : string }.

Definition project (fields : list string) (row : dict) : dict :=
  fold_left (fun pr f => match dict_get f row with Some v => dict_set f v pr | None => pr end) fields [].

(** A negative offset panics. *)
Definition mem_Query `{StableSort} (Rows : list dict) (frame : QueryFrame) (defaultLimit : Z) : go_result MemoryNodeQueryResult :=
  let filtered := applyOrder (List.filter (fun row => matchFilter row (q_Filter frame)) Rows) (q_Order frame) in
  let len := Z.of_nat (length filtered) in
  let offset := match q_Offset frame with Some x => i64 x | None => 0 end in
  let offset := if len <? offset then len else offset in
  if offset <? 0 then Err (ErrPanic "slice bounds out of range")
  else
    let filtered := drop (Z.to_nat offset) filtered in
    let limit := match q_Limit frame with Some x => i64 x | None => i64 defaultLimit end in
    let filtered := if (0 <? limit) && (limit <? Z.of_nat (length filtered)) then take (Z.to_nat limit) filtered else filtered in
    Ok (MkQueryResult (Some (match q_Fields frame with [] => filtered | fields => project fields <$> filtered end)) "").

(** ** The server *)

Record MemoryNodeField : Type := MkMemField { mf_Name : string; mf_Type : string; mf_Description : string; mf_Nullable : bool }.

Record MemoryNodeOptions : Type := MkMemOptions {
  mo_NodeID : string; mo_DisplayName : string; mo_Schema : list MemoryNodeField; mo_PathPrefix : string; mo_DefaultLimit : Z; mo_MaxLimit : Z;
  mo_RequireAuth : bool; mo_DefaultTokenBudget : Z; mo_CgnLimit : Z; mo_ReputationPolicy : option ReputationPolicy; mo_TrustAnchors : list string
}.

(** [Query] and, for a streaming provider, the pages of [Stream] and its error. *)
Record IMemoryNodeProvider : Type := MkMemProvider {
  mp_Query : QueryFrame -> MemoryNodeOptions -> result string MemoryNodeQueryResult;
  mp_Stream : option (QueryFrame -> MemoryNodeOptions -> list (option (list dict)) * option string)
}.

(** What the handler does to the outside. *)
Inductive mem_act : Type :=
| MAskReputation (agent : string)
| MQuery (f : QueryFrame)
| MStream (f : QueryFrame)
| MRespond (status : Z) (headers : list (string * string)) (body : resp_body)
| MChunk (d : dict).

Definition rows_value (rows : option (list dict)) : any := match rows with Some l => VMaps l | None => VNil end.

(** [math.Min]. *)
Definition float_Min (x y : float64) : float64 :=
  match x, y with
  | S754_nan, _ | _, S754_nan => S754_nan
  | _, _ => if SFltb x y then x else y
  end.

Definition queryFrameFromJSON (d : dict) (opts : MemoryNodeOptions) : QueryFrame :=
  MkQuery (default "" (as_string (dict_at d "anchor_ref"))) (dict_at d "filter") (dict_at d "order") [] VNil None None None None None None VNil
    (match dict_at d "limit" with VFloat64 x => Some (uint64_of_float (float_Min x (float64_of_Z (mo_MaxLimit opts)))) | _ => Some (mo_DefaultLimit opts) end)
    (match dict_at d "offset" with VFloat64 x => Some (uint64_of_float x) | _ => None end) None.

(** [fmt.Sscanf(raw, "%d", &n)]: the number at the start, and 0 where there is none
    or it does not fit. *)
Fixpoint take_digits (s : string) : string :=
  match s with
  | String c r => if (48 <=? Z.of_N (Ascii.N_of_ascii c)) && (Z.of_N (Ascii.N_of_ascii c) <=? 57) then String c (take_digits r) else EmptyString
  | EmptyString => EmptyString
  end.

Definition Sscanf_d (raw : string) : Z :=
  let s := trim_left raw in
  let tok := match s with
             | String c r => if Ascii.eqb c (chr 45) || Ascii.eqb c (chr 43) then String c (take_digits r) else take_digits s
             | EmptyString => EmptyString
             end in
  let '(n, ok) := Number_Int64 tok in if ok then n else 0.

Definition parseBudget (r : request) : Z := let raw := rq_Header r HeaderBudget in if String.eqb raw "" then 0 else Sscanf_d raw.

Definition effectiveBudget (agentBudget cgnLimit : Z) : Z :=
  if cgnLimit =? 0 then agentBudget
  else if agentBudget =? 0 then cgnLimit
  else if cgnLimit <? agentBudget then cgnLimit else agentBudget.

(** [int(math.Ceil(float64(n) / 4))]. *)
Definition quarter (n : nat) : Z := (Z.of_nat n + 3) / 4.

Section Server.
Context (Marshal : any -> list byte) (marshal_schema : list MemoryNodeField -> list byte) (sha256_hex : list byte -> string).
Context (unmarshal_map : list byte -> option dict).

Definition measureRows (rows : option (list dict)) : Z := quarter (length (Marshal (rows_value rows))).

(** The rows kept and what they cost. *)
Fixpoint trim_loop (rows : list dict) (budget acc : Z) : list dict * Z :=
  match rows with
  | [] => ([], acc)
  | row :: r =>
      let tok := quarter (length (Marshal (VMap row))) in
      if budget <? acc + tok then ([], acc) else let '(kept, total) := trim_loop r budget (acc + tok) in (row :: kept, total)
  end.

Definition trimToBudget (rows : list dict) (budget : Z) : option (list dict) * Z :=
  let '(kept, total) := trim_loop rows budget 0 in (match kept with [] => None | _ => Some kept end, total).

Context (provider : IMemoryNodeProvider) (given : MemoryNodeOptions).

(** [NewMemoryNodeServer]: the options with their defaults, and the prefix. *)
Definition mem_opts : MemoryNodeOptions :=
  MkMemOptions (mo_NodeID given) (mo_DisplayName given) (mo_Schema given) (mo_PathPrefix given)
    (if mo_DefaultLimit given =? 0 then 20 else mo_DefaultLimit given) (if mo_MaxLimit given =? 0 then 1000 else mo_MaxLimit given)
    (mo_RequireAuth given) (mo_DefaultTokenBudget given) (mo_CgnLimit given) (mo_ReputationPolicy given) (mo_TrustAnchors given).

Definition mem_prefix : string := trim_slashes (mo_PathPrefix given).

Definition schemaJSON : list byte := marshal_schema (mo_Schema given).
Definition anchorID : string := "sha256:" +:+ sha256_hex schemaJSON.

Definition mem_nwm : dict :=
  let identity := if mo_RequireAuth given then "nip-cert" else "none" in
  [("nwp", VString "0.4"); ("node_id", VString (mo_NodeID given)); ("node_type", VString "memory"); ("display_name", VString (mo_DisplayName given));
   ("wire_formats", VStrings ["json"]); ("preferred_format", VString "json"); ("schema_anchors", VMap [("default", VString anchorID)]);
   ("capabilities", VMap [("query", VBool true); ("stream", VBool true); ("token_budget_hint", VBool true)]);
   ("auth", VMap [("required", VBool (mo_RequireAuth given)); ("identity_type", VString identity)]);
   ("endpoints", VMap [("query", VString (mem_prefix +:+ "/query")); ("stream", VString (mem_prefix +:+ "/stream")); ("schema", VString (mem_prefix +:+ "/.schema"))])] ++
  (if 0 <? mo_CgnLimit given then [("token_budget", VMap [("cgn_limit", VInt KUint64 (mo_CgnLimit given)); ("profile", VString "cgn.v1")])] else []) ++
  match mo_TrustAnchors given with [] => [] | l => [("trust_anchors", VStrings l)] end.

Definition mem_error (status : Z) (npsStatus code message : string) (extra : list (string * string)) : mem_act :=
  MRespond status (extra ++ [("Content-Type", "application/json; charset=utf-8")])
    (JsonBody [("frame", VString "0xFE"); ("status", VString npsStatus); ("error", VString code); ("message", VString message)]).

Definition notFound : mem_act := MRespond 404 [("Content-Type", "text/plain; charset=utf-8")] NoBody.

(** The frame of a request, or the answer that refuses it. *)
Definition read_frame (r : request) : result mem_act QueryFrame :=
  match rq_Body r with
  | Err _ => Err (mem_error 400 "NPS-CLIENT-BAD-REQUEST" "NWP-QUERY-FILTER-INVALID" "Failed to read request body." [])
  | Ok body =>
      match unmarshal_map body with
      | None => Err (mem_error 400 "NPS-CLIENT-BAD-REQUEST" "NWP-QUERY-FILTER-INVALID" "Invalid QueryFrame JSON." [])
      | Some d => Ok (queryFrameFromJSON d mem_opts)
      end
  end.

(** The rows of an answer and their cost, within the budget. *)
Definition within_budget (r : request) (rows : option (list dict)) : option (list dict) * Z :=
  let tokenEst := measureRows rows in
  let budget := effectiveBudget (parseBudget r) (i64 (mo_CgnLimit mem_opts)) in
  if (0 <? budget) && (budget <? tokenEst) then trimToBudget (default [] rows) budget else (rows, tokenEst).

Definition mem_handleQuery (r : request) : list mem_act :=
  match read_frame r with
  | Err a => [a]
  | Ok frame =>
      MQuery frame ::
      match mp_Query provider frame mem_opts with
      | Err e => [mem_error 500 "NPS-SERVER-INTERNAL" "NWP-NODE-UNAVAILABLE" e []]
      | Ok result =>
          let '(rows, tokenEst) := within_budget r (Rows result) in
          [MRespond 200 [("Content-Type", "application/json; charset=utf-8"); ("X-NWP-Schema", anchorID); ("X-NWP-Tokens", fmt_d tokenEst); ("X-NWP-Node-Type", "memory")]
             (JsonBody [("frame", VString "0x04"); ("anchor_ref", VString anchorID); ("count", VInt KInt (Z.of_nat (length (default [] rows)))); ("data", rows_value rows);
                        ("next_cursor", VString (NextCursor result)); ("token_est", VInt KInt tokenEst)])]
      end
  end.

Section Chunks.
Context (streamID : string).

Definition writeChunk (seq : Z) (isLast : bool) (anchorRef : string) (data : option (list dict)) : mem_act :=
  MChunk ([("frame", VString "0x03"); ("stream_id", VString streamID); ("seq", VInt KInt seq); ("is_last", VBool isLast); ("data", rows_value data)] ++
          (if String.eqb anchorRef "" then [] else [("anchor_ref", VString anchorRef)])).

Definition error_chunk (seq : Z) : mem_act :=
  MChunk [("frame", VString "0x03"); ("stream_id", VString streamID); ("seq", VInt KInt seq); ("is_last", VBool true); ("data", VSlice []);
          ("error_code", VString "NWP-NODE-UNAVAILABLE")].

(** The chunks of the pages, and the next number. *)
Fixpoint page_chunks (seq : Z) (pages : list (option (list dict))) : list mem_act * Z :=
  match pages with
  | [] => ([], seq)
  | page :: r => let '(l, n) := page_chunks (seq + 1) r in (writeChunk seq false (if seq =? 0 then anchorID else "") page :: l, n)
  end.

Definition mem_handleStream (r : request) : list mem_act :=
  match read_frame r with
  | Err a => [a]
  | Ok frame =>
      MRespond 200 [("Content-Type", "application/x-ndjson"); ("X-NWP-Schema", anchorID); ("X-NWP-Node-Type", "memory")] NoBody ::
      match mp_Stream provider with
      | Some stream =>
          let '(pages, err) := stream frame mem_opts in
          let '(chunks, seq) := page_chunks 0 pages in
          MStream frame :: chunks ++ [match err with Some _ => error_chunk seq | None => writeChunk seq true "" None end]
      | None =>
          MQuery frame ::
          match mp_Query provider frame mem_opts with
          | Err _ => [error_chunk 0]
          | Ok result => [writeChunk 0 false anchorID (Rows result); writeChunk 1 true "" None]
          end
      end
  end.
End Chunks.

(** The verdict on an agent when the policy asks for one. *)
Definition mem_reputation (verdict : string -> ReputationPolicy -> ReputationOutcome) (r : request) : list mem_act * option mem_act :=
  let agent := rq_Header r HeaderAgent in
  match mo_ReputationPolicy mem_opts with
  | None => ([], None)
  | Some policy =>
      if String.eqb agent "" then ([], None)
      else
        ([MAskReputation agent],
         match verdict agent policy with
         | RepBan | RepReject => Some (mem_error 403 "NPS-AUTH-FORBIDDEN" "NWP-AUTH-REPUTATION-BLOCKED" "Request rejected by reputation policy." [])
         | RepThrottle => Some (mem_error 429 "NPS-LIMIT-RATE" "NWP-AUTH-REPUTATION-BLOCKED" "Request throttled by reputation policy." [("Retry-After", "60")])
         | RepAccept => None
         end)
  end.

Definition mem_route (streamID : string) (norm : string) (r : request) : list mem_act :=
  let get := String.eqb (rq_Method r) "GET" in let post := String.eqb (rq_Method r) "POST" in
  if String.eqb norm "/.nwm" && get then
    [MRespond 200 [("Content-Type", "application/json; charset=utf-8"); ("X-NWP-Node-Type", "memory")] (RawBody (Marshal (VMap mem_nwm)))]
  else if String.eqb norm "/.schema" && get then
    [MRespond 200 [("Content-Type", "application/json; charset=utf-8"); ("X-NWP-Schema", anchorID)] (RawBody schemaJSON)]
  else if String.eqb norm "/query" then if post then mem_handleQuery r else [MRespond 405 [] NoBody]
  else if String.eqb norm "/stream" then if post then mem_handleStream streamID r else [MRespond 405 [] NoBody]
  else [notFound].

Definition mem_ServeHTTP (verdict : string -> ReputationPolicy -> ReputationOutcome) (streamID : string) (r : request) : list mem_act :=
  match cut_prefix mem_prefix (rq_Path r) with
  | None => [notFound]
  | Some sub =>
      if mo_RequireAuth mem_opts && String.eqb (rq_Header r HeaderAgent) "" then
        [mem_error 401 "NPS-CLIENT-UNAUTHORIZED" "NWP-AUTH-REQUIRED" "X-NWP-Agent header is required." []]
      else
        let '(asked, refused) := mem_reputation verdict r in
        asked ++ match refused with
                 | Some a => [a]
                 | None => let norm := trim_slashes sub in mem_route streamID (if String.eqb norm "" then "/" else norm) r
                 end
  end.
End Server.
