(* ===== verification/NwpMemoryProof.v ===== *)
(** * What memory nodes in memory guarantee

    The order of values, the answer of a query, the independence of a filter from the
    order of its members, the gates of the handler, budgets and the shape of streams. *)

From S2P Require Import Prelude GoValue GoSort GoFloat NwpReputation NwpAnchor NwpSql NwpMemory.

(** ** The order of values *)

Definition numeric (v : any) : Prop := exists f, toFloat v = Some f /\ f <> S754_nan.
Definition textual (v : any) : Prop := exists s, v = VString s.

(** Values that are compared by rank. *)
Record ranked (P : any -> Prop) : Prop := {
  rk_sym : forall a b, P a -> P b -> compareValues b a = - compareValues a b;
  rk_trans : forall a b c, P a -> P b -> P c -> compareValues a b <= 0 -> compareValues b c <= 0 -> compareValues a c <= 0
}.

Lemma ranked_numeric : ranked numeric.
Proof.
  assert (H : forall a b, numeric a -> numeric b -> exists f g, toFloat a = Some f /\ toFloat b = Some g /\
            (compareValues a b = -1 /\ key_lt (float_key f) (float_key g) \/ compareValues a b = 1 /\ key_lt (float_key g) (float_key f) \/
             compareValues a b = 0 /\ float_key f = float_key g)).
  { intros a b (f & Ef & Hf) (g & Eg & Hg). exists f, g. split_and!; [done|done|]. unfold compareValues. rewrite Ef, Eg.
    pose proof (SFltb_key f g Hf Hg) as H1. pose proof (SFltb_key g f Hg Hf) as H2.
    destruct (SFltb f g); [left; split; [done|by apply H1]|]. destruct (SFltb g f); [right; left; split; [done|by apply H2]|]. right; right. split; [done|].
    destruct (float_key f) as [[x y] z], (float_key g) as [[x' y'] z']. unfold key_lt in *.
    assert (~ (x < x' \/ x = x' /\ (y < y' \/ y = y' /\ z < z'))) by (intros E; by apply H1 in E).
    assert (~ (x' < x \/ x' = x /\ (y' < y \/ y' = y /\ z' < z))) by (intros E; by apply H2 in E).
    assert (x = x') by lia. assert (y = y') by lia. assert (z = z') by lia. by subst. }
  split.
  - intros a b Ha Hb. destruct (H a b Ha Hb) as (f & g & Ef & Eg & C1), (H b a Hb Ha) as (g' & f' & Eg' & Ef' & C2).
    rewrite Ef in Ef'. rewrite Eg in Eg'. injection Ef' as <-. injection Eg' as <-.
    destruct (float_key f) as [[x y] z], (float_key g) as [[x' y'] z']. unfold key_lt in *.
    destruct C1 as [[-> ?]|[[-> ?]|[-> E]]], C2 as [[-> ?]|[[-> ?]|[-> E']]]; try done; try lia; simplify_eq; lia.
  - intros a b c Ha Hb Hc. destruct (H a b Ha Hb) as (f & g & Ef & Eg & C1), (H b c Hb Hc) as (g' & h & Eg' & Eh & C2), (H a c Ha Hc) as (f' & h' & Ef' & Eh' & C3).
    rewrite Ef in Ef'. rewrite Eg in Eg'. rewrite Eh in Eh'. injection Ef' as <-. injection Eg' as <-. injection Eh' as <-.
    destruct (float_key f) as [[x y] z], (float_key g) as [[x' y'] z'], (float_key h) as [[x'' y''] z'']. unfold key_lt in *.
    destruct C1 as [[-> ?]|[[-> ?]|[-> E]]], C2 as [[-> ?]|[[-> ?]|[-> E']]], C3 as [[-> ?]|[[-> ?]|[-> E'']]]; simplify_eq; lia.
Qed.

Lemma ranked_textual : ranked textual.
Proof.
  assert (Hle : forall s t, String.leb s t = true <-> String.le s t) by (intros s t; unfold String.le; by rewrite Is_true_true).
  split.
  - intros a b (s & ->) (t & ->). unfold compareValues. cbn [toFloat]. rewrite !ltb_leb.
    destruct (String.leb t s) eqn:E1, (String.leb s t) eqn:E2; try done. destruct (String.leb_total s t); congruence.
  - intros a b c (s & ->) (t & ->) (u & ->). unfold compareValues. cbn [toFloat]. rewrite !ltb_leb.
    assert (Hno : forall v w, String.leb v w = false -> String.leb w v = true) by (intros v w E; destruct (String.leb_total v w); congruence).
    destruct (String.leb s t) eqn:E1; [|rewrite (Hno _ _ E1); cbn; lia]. destruct (String.leb t u) eqn:E2; [|rewrite (Hno _ _ E2); cbn; lia].
    assert (String.leb s u = true) as E3; [|rewrite E3; cbn; destruct (String.leb u s); cbn; lia]. apply Hle. transitivity t; by apply Hle.
Qed.

(** ** Clauses *)

(** Every row has a number under the field of the clause, or every row a string. *)
Definition uniform (rows : list dict) (c : orderClause) : Prop :=
  (forall r, r ∈ rows -> numeric (dict_at r (oc_field c))) \/ (forall r, r ∈ rows -> textual (dict_at r (oc_field c))).

(** The clauses in turn, as one comparison. *)
Fixpoint lex_cmp (clauses : list orderClause) (a b : dict) : Z :=
  match clauses with
  | [] => 0
  | c :: r =>
      let cmp := compareValues (dict_at a (oc_field c)) (dict_at b (oc_field c)) in
      if cmp =? 0 then lex_cmp r a b else if oc_desc c then - cmp else cmp
  end.

Lemma order_less_lex clauses a b : order_less clauses a b = (lex_cmp clauses a b <? 0).
Proof.
  induction clauses as [|c r IH]; [done|]. cbn [order_less lex_cmp]. destruct (_ =? 0); [done|]. destruct (oc_desc c); [|done].
  match goal with |- (0 <? ?x) = (- ?x <? 0) => destruct (Z.ltb_spec 0 x), (Z.ltb_spec (- x) 0); lia end.
Qed.

Lemma lex_ranked rows clauses : Forall (uniform rows) clauses ->
  (forall a b, a ∈ rows -> b ∈ rows -> lex_cmp clauses b a = - lex_cmp clauses a b) /\
  (forall a b c, a ∈ rows -> b ∈ rows -> c ∈ rows -> lex_cmp clauses a b <= 0 -> lex_cmp clauses b c <= 0 -> lex_cmp clauses a c <= 0).
Proof.
  induction 1 as [|c r Hc _ [IHs IHt]]; [by split|].
  assert (Hf : exists P, ranked P /\ forall x, x ∈ rows -> P (dict_at x (oc_field c))).
  { destruct Hc as [H|H]; [exists numeric; split; [apply ranked_numeric|done]|exists textual; split; [apply ranked_textual|done]]. }
  destruct Hf as (P & [Hs Ht] & HP). cbn [lex_cmp]. split.
  - intros x y Hx Hy. rewrite (Hs _ _ (HP x Hx) (HP y Hy)).
    set (v := compareValues (dict_at x (oc_field c)) (dict_at y (oc_field c))). rewrite (IHs x y Hx Hy).
    destruct (Z.eqb_spec v 0), (Z.eqb_spec (- v) 0); try lia. destruct (oc_desc c); lia.
  - intros x y z Hx Hy Hz. pose proof (IHt x y z Hx Hy Hz) as IH. apply HP in Hx, Hy, Hz.
    pose proof (Ht _ _ _ Hx Hy Hz) as T1. pose proof (Ht _ _ _ Hz Hy Hx) as T2. pose proof (Ht _ _ _ Hy Hz Hx) as T3.
    pose proof (Ht _ _ _ Hz Hx Hy) as T4. pose proof (Ht _ _ _ Hy Hx Hz) as T5. pose proof (Ht _ _ _ Hx Hz Hy) as T6.
    rewrite (Hs _ _ Hx Hy), (Hs _ _ Hx Hz), (Hs _ _ Hy Hz) in *.
    set (p := compareValues (dict_at x _) (dict_at y _)) in *. set (q := compareValues (dict_at y _) (dict_at z _)) in *. set (w := compareValues (dict_at x _) (dict_at z _)) in *.
    destruct (Z.eqb_spec p 0), (Z.eqb_spec q 0), (Z.eqb_spec w 0); destruct (oc_desc c); lia.
Qed.

Lemma order_weak rows clauses : Forall (uniform rows) clauses -> weak_order (order_less clauses) rows.
Proof.
  intros H. destruct (lex_ranked rows clauses H) as [Hs Ht]. split; intros; rewrite !order_less_lex, ?Z.ltb_lt, ?Z.ltb_ge in *.
  - pose proof (Hs a a ltac:(done) ltac:(done)). lia.
  - pose proof (Ht b c a ltac:(done) ltac:(done) ltac:(done)) as T. rewrite (Hs a b), (Hs a c) in T by done. lia.
  - pose proof (Ht c b a ltac:(done) ltac:(done) ltac:(done)) as T. rewrite (Hs a b), (Hs b c), (Hs a c) in T by done. lia.
Qed.

(** ** Queries *)

(** What remains of [l] from [offset] on, at most [limit] where that is positive. *)
Definition page {A} (offset limit : Z) (l : list A) : list A :=
  let l := drop (Z.to_nat offset) l in if 0 <? limit then take (Z.to_nat limit) l else l.

Lemma mem_query_cases `{StableSort} rows frame dl :
  let offset := match q_Offset frame with Some x => i64 x | None => 0 end in
  let limit := match q_Limit frame with Some x => i64 x | None => i64 dl end in
  let matching := List.filter (fun row => matchFilter row (q_Filter frame)) rows in
  mem_Query rows frame dl =
    if offset <? 0 then Err (ErrPanic "slice bounds out of range")
    else Ok (MkQueryResult (Some ((match q_Fields frame with [] => fun r => r | fields => project fields end) <$>
                                  page offset limit (applyOrder matching (q_Order frame)))) "").
Proof.
  cbv zeta. unfold mem_Query, page. set (l := applyOrder _ _). set (off := match q_Offset frame with Some x => i64 x | None => 0 end).
  set (lim := match q_Limit frame with Some x => i64 x | None => i64 dl end).
  assert (E : (if Z.of_nat (length l) <? off then Z.of_nat (length l) else off) <? 0 = (off <? 0)).
  { destruct (Z.ltb_spec (Z.of_nat (length l)) off); [|done]. destruct (Z.ltb_spec (Z.of_nat (length l)) 0), (Z.ltb_spec off 0); lia. }
  rewrite E. destruct (Z.ltb_spec off 0) as [|Hoff]; [done|].
  assert (Hdrop : drop (Z.to_nat (if Z.of_nat (length l) <? off then Z.of_nat (length l) else off)) l = drop (Z.to_nat off) l).
  { destruct (Z.ltb_spec (Z.of_nat (length l)) off); [|done]. rewrite !drop_ge by lia. done. }
  rewrite Hdrop. set (d := drop (Z.to_nat off) l).
  assert (Htake : (if (0 <? lim) && (lim <? Z.of_nat (length d)) then take (Z.to_nat lim) d else d) = if 0 <? lim then take (Z.to_nat lim) d else d).
  { destruct (Z.ltb_spec 0 lim); [|done]. cbn [andb]. destruct (Z.ltb_spec lim (Z.of_nat (length d))); [done|]. rewrite take_ge by lia. done. }
  rewrite Htake. destruct (q_Fields frame); [by rewrite list_fmap_id|done].
Qed.

Lemma applyOrder_perm `{StableSort} rows order : applyOrder rows order ≡ₚ rows.
Proof. unfold applyOrder. destruct (parseOrder order); [done|apply SliceStable_perm]. Qed.

(** C20. Queries in memory.  Where the fields that a query orders by hold numbers in
    every matching row, or strings in every one, the answer is the page of the matching
    rows sorted by the clauses in turn, rows that the clauses do not tell apart in
    their old order, each reduced to the requested fields.  In any case the rows
    sorted are the matching ones; a query panics exactly if its offset does not fit
    an int64, and a limit that does not, or is 0, is none. *)
Theorem query_answers `{StableSort} rows frame dl :
  let offset := match q_Offset frame with Some x => i64 x | None => 0 end in
  let limit := match q_Limit frame with Some x => i64 x | None => i64 dl end in
  let matching := List.filter (fun row => matchFilter row (q_Filter frame)) rows in
  let clauses := parseOrder (q_Order frame) in
  (mem_Query rows frame dl = Err (ErrPanic "slice bounds out of range") <-> offset < 0) /\
  (0 <= offset -> exists sorted, sorted ≡ₚ matching /\
     mem_Query rows frame dl = Ok (MkQueryResult (Some ((match q_Fields frame with [] => fun r => r | fields => project fields end) <$> page offset limit sorted)) "") /\
     (Forall (uniform matching) clauses ->
        StronglySorted (fun a b => 0 <= lex_cmp clauses b a) sorted /\
        forall a, a ∈ matching -> List.filter (tied (order_less clauses) a) sorted = List.filter (tied (order_less clauses) a) matching)).
Proof.
  intros offset limit matching clauses. pose proof (mem_query_cases rows frame dl) as E. cbv zeta in E. fold offset limit matching in E. rewrite E.
  destruct (Z.ltb_spec offset 0); [split; [done|lia]|]. split; [split; [done|lia]|]. intros _.
  exists (applyOrder matching (q_Order frame)). split_and!; [apply applyOrder_perm|done|].
  intros Hu. apply order_weak in Hu. unfold applyOrder. fold clauses.
  assert (Hlex : forall l, StronglySorted (fun a b => order_less clauses b a = false) l -> StronglySorted (fun a b => 0 <= lex_cmp clauses b a) l).
  { intros l. apply strongly_sorted_weaken. intros a b Hab. rewrite order_less_lex in Hab. by apply Z.ltb_ge in Hab. }
  destruct clauses as [|c r] eqn:Ec.
  - split; [|done]. clear. induction matching as [|x l IH]; constructor; [done|]. apply Forall_forall. intros y _. cbn. lia.
  - split; [apply Hlex; by apply SliceStable_sorted|]. intros a Ha. by apply SliceStable_ties.
Qed.

(** ** Filters *)

Lemma match_ops_known actual cond ops : (forall op want, (op, want) ∈ ops -> op_test actual op want <> None) ->
  match_ops actual cond ops = forallb (fun e => default true (op_test actual e.1 e.2)) ops.
Proof.
  induction ops as [|[op want] r IH]; intros H; [done|]. cbn [match_ops forallb fst snd].
  destruct (op_test actual op want) as [b|] eqn:E; [|by destruct (H op want ltac:(by left))]. rewrite IH by (intros ? ? ?; apply H; by right). by destruct b.
Qed.

Lemma match_ops_unequal actual cond ops : valuesEqual actual cond = false ->
  match_ops actual cond ops = forallb (fun e => default false (op_test actual e.1 e.2)) ops.
Proof.
  intros Hv. induction ops as [|[op want] r IH]; [done|]. cbn [match_ops forallb fst snd].
  destruct (op_test actual op want) as [b|]; [|by rewrite Hv]. rewrite IH. by destruct b.
Qed.

Lemma forallb_perm {A} (f : A -> bool) l l' : l ≡ₚ l' -> forallb f l = forallb f l'.
Proof. induction 1; cbn [forallb]; [done|congruence|by rewrite !andb_assoc, (andb_comm (f y))|congruence]. Qed.

Lemma not_a_map actual ops : (forall m, actual <> VMap m) -> valuesEqual actual (VMap ops) = false.
Proof. intros H. unfold valuesEqual. cbn [toFloat]. destruct (toFloat actual); destruct actual; try done; by destruct (H m). Qed.

(** Filters.  The verdict of a filter does not depend on the order in which the
    runtime ranges over its members, nor that of a condition on a field, as long as
    its operators are known or the value it is asked of is not itself a map. *)
Theorem filter_order_independent row m m' actual ops ops' (Hm : m ≡ₚ m') (Hops : ops ≡ₚ ops')
    (Hknown : (forall op want, (op, want) ∈ ops -> op_test actual op want <> None) \/ (forall d, actual <> VMap d)) :
  matchFilter row (VMap m) = matchFilter row (VMap m') /\ matchField actual (VMap ops) = matchField actual (VMap ops').
Proof.
  split; [by apply forallb_perm|]. unfold matchField. destruct Hknown as [H|H].
  - rewrite !match_ops_known; [by apply forallb_perm| |done]. intros op want. rewrite <- Hops. apply H.
  - rewrite !match_ops_unequal by (by apply not_a_map). by apply forallb_perm.
Qed.

Lemma unknown_operator_depends_on_order :
  exists actual ops ops', ops ≡ₚ ops' /\ matchField actual (VMap ops) = true /\ matchField actual (VMap ops') = false.
Proof.
  exists (VMap [("eq", VBool true); ("unit", VString "m")]), [("unit", VString "m"); ("eq", VBool true)], [("eq", VBool true); ("unit", VString "m")].
  split; [constructor|]. split; vm_compute; reflexivity.
Qed.

(** ** The handler *)

Section Handler.
Context (Marshal : any -> list byte) (marshal_schema : list MemoryNodeField -> list byte) (sha256_hex : list byte -> string).
Context (unmarshal_map : list byte -> option dict).
Context (provider : IMemoryNodeProvider) (given : MemoryNodeOptions).

Abbreviation opts := (mem_opts given).
Abbreviation serve := (mem_ServeHTTP Marshal marshal_schema sha256_hex unmarshal_map provider given).

Definition asks (f : QueryFrame) (acts : list mem_act) : Prop := MQuery f ∈ acts \/ MStream f ∈ acts.
Definition is_respond (a : mem_act) : bool := match a with MRespond _ _ _ => true | _ => false end.
Definition chunk_of (a : mem_act) : option dict := match a with MChunk d => Some d | _ => None end.
Definition responses (acts : list mem_act) : nat := length (List.filter is_respond acts).

(** What a request must be for the provider to be asked [f]. *)
Definition mem_admitted (verdict : string -> ReputationPolicy -> ReputationOutcome) (r : request) (f : QueryFrame) : Prop :=
  exists sub body d, cut_prefix (mem_prefix given) (rq_Path r) = Some sub /\
    (mo_RequireAuth given = true -> rq_Header r HeaderAgent <> "") /\
    (forall policy, mo_ReputationPolicy given = Some policy -> rq_Header r HeaderAgent <> "" -> verdict (rq_Header r HeaderAgent) policy = RepAccept) /\
    (trim_slashes sub = "/query" \/ trim_slashes sub = "/stream") /\ rq_Method r = "POST" /\
    rq_Body r = Ok body /\ unmarshal_map body = Some d /\ f = queryFrameFromJSON d opts.

Lemma page_chunks_shape id seq pages :
  let '(l, n) := page_chunks marshal_schema sha256_hex given id seq pages in
  n = seq + Z.of_nat (length pages) /\
  l = imap (fun i page => writeChunk id (seq + Z.of_nat i) false (if seq + Z.of_nat i =? 0 then anchorID marshal_schema sha256_hex given else "") page) pages.
Proof.
  revert seq. induction pages as [|page r IH]; intros seq; cbn [page_chunks]; [split; [simpl; lia|done]|]. specialize (IH (seq + 1)).
  destruct (page_chunks _ _ _ _ _ _) as [l n]. destruct IH as [-> ->]. split; [simpl length; lia|]. rewrite imap_cons. f_equal.
  - rewrite Z.add_0_r. done.
  - apply imap_ext. intros i page' _. simpl. replace (seq + 1 + Z.of_nat i) with (seq + Z.of_nat (S i)) by lia. done.
Qed.

Lemma handleQuery_frame r : match read_frame unmarshal_map given r with
  | Err a => mem_handleQuery Marshal marshal_schema sha256_hex unmarshal_map provider given r = [a] /\ is_respond a = true
  | Ok f => exists a, mem_handleQuery Marshal marshal_schema sha256_hex unmarshal_map provider given r = [MQuery f; a] /\ is_respond a = true
  end.
Proof.
  unfold mem_handleQuery. unfold read_frame. destruct (rq_Body r); [|by split]. destruct (unmarshal_map _); [|by split].
  destruct (mp_Query _ _ _); [|by eexists]. destruct (within_budget _ _ _ _). by eexists.
Qed.

Lemma chunk_not_asks f (l : list mem_act) : Forall (fun a => is_Some (chunk_of a)) l -> ~ asks f l.
Proof. rewrite Forall_forall. intros H [Hin|Hin]; apply H in Hin as [? ?]; done. Qed.

Lemma chunk_not_respond (l : list mem_act) : Forall (fun a => is_Some (chunk_of a)) l -> List.filter is_respond l = [].
Proof. induction 1 as [|a l [d Hd] _ IH]; [done|]. cbn [List.filter]. by destruct a. Qed.

Lemma handleStream_frame id r : match read_frame unmarshal_map given r with
  | Err a => mem_handleStream marshal_schema sha256_hex unmarshal_map provider given id r = [a] /\ is_respond a = true
  | Ok f => exists a b chunks, mem_handleStream marshal_schema sha256_hex unmarshal_map provider given id r = a :: b :: chunks /\ is_respond a = true /\
             (b = MQuery f \/ b = MStream f) /\ Forall (fun a => is_Some (chunk_of a)) chunks
  end.
Proof.
  unfold mem_handleStream. unfold read_frame. destruct (rq_Body r); [|by split]. destruct (unmarshal_map _) as [d|]; [|by split].
  destruct (mp_Stream provider) as [stream|].
  - destruct (stream _ _) as [pages err]. pose proof (page_chunks_shape id 0 pages) as H. destruct (page_chunks _ _ _ _ _ _) as [l n]. destruct H as [_ ->].
    eexists _, _, _. split_and!; [done|done|by right|]. apply Forall_app. split; [|destruct err; repeat constructor; by eexists].
    apply Forall_lookup. intros i x. rewrite list_lookup_imap. destruct (pages !! i); [|done]. intros [= <-]. by eexists.
  - destruct (mp_Query _ _ _); eexists _, _, _; (split_and!; [done|done|by left|]); repeat constructor; by eexists.
Qed.

Lemma asks_pair f g a : is_respond a = true -> asks f [MQuery g; a] <-> f = g.
Proof. intros Ha. unfold asks. destruct a; try done. rewrite !elem_of_cons, !elem_of_nil. naive_solver. Qed.

Lemma asks_stream f g a b chunks : is_respond a = true -> b = MQuery g \/ b = MStream g -> Forall (fun a => is_Some (chunk_of a)) chunks ->
  asks f (a :: b :: chunks) <-> f = g.
Proof.
  intros Ha Hb Hc. pose proof (chunk_not_asks f chunks Hc) as Hn. unfold asks in *. destruct a; try done. rewrite !elem_of_cons. destruct Hb as [-> | ->]; naive_solver.
Qed.

Lemma asks_one f a : is_respond a = true -> ~ asks f [a].
Proof. intros Ha [H%list_elem_of_singleton|H%list_elem_of_singleton]; subst; done. Qed.

Lemma asks_refused f k a : is_respond a = true -> ~ asks f [MAskReputation k; a].
Proof. intros Ha. unfold asks. destruct a; try done. rewrite !elem_of_cons, !elem_of_nil. naive_solver. Qed.

Definition route_ok (r : request) (norm : string) (acts : list mem_act) : Prop :=
  responses acts = 1%nat /\ forall f, asks f acts <->
    (norm = "/query" \/ norm = "/stream") /\ rq_Method r = "POST" /\ exists body d, rq_Body r = Ok body /\ unmarshal_map body = Some d /\ f = queryFrameFromJSON d opts.

Lemma read_frame_ok r f : read_frame unmarshal_map given r = Ok f <-> exists body d, rq_Body r = Ok body /\ unmarshal_map body = Some d /\ f = queryFrameFromJSON d opts.
Proof.
  unfold read_frame. split.
  - intros E. destruct (rq_Body r) as [body|]; [|done]. destruct (unmarshal_map body) as [d|] eqn:Ed; [|done]. injection E as <-. by exists body, d.
  - by intros (body & d & -> & -> & ->).
Qed.

Lemma route_refused r norm a : is_respond a = true -> ~ ((norm = "/query" \/ norm = "/stream") /\ rq_Method r = "POST") -> route_ok r norm [a].
Proof. intros Ha Hn. split; [by unfold responses; cbn; rewrite Ha|]. intros f. split; [by intros ?%asks_one|tauto]. Qed.

Lemma route_spec id norm r : route_ok r norm (mem_route Marshal marshal_schema sha256_hex unmarshal_map provider given id norm r).
Proof.
  unfold mem_route. destruct (String.eqb_spec norm "/.nwm") as [->|H1]; [destruct (String.eqb (rq_Method r) "GET"); by apply route_refused; [|intros [[|] _]]|].
  destruct (String.eqb_spec norm "/.schema") as [->|H2]; [destruct (String.eqb (rq_Method r) "GET"); by apply route_refused; [|intros [[|] _]]|]. cbn [andb].
  destruct (String.eqb_spec (rq_Method r) "POST") as [Hp|Hp].
  2:{ destruct (String.eqb norm "/query"); [|destruct (String.eqb norm "/stream")]; (apply route_refused; [done|by intros [_ ?]]). }
  destruct (String.eqb_spec norm "/query") as [->|H3].
  { pose proof (handleQuery_frame r) as H. pose proof (read_frame_ok r) as Hr. destruct (read_frame unmarshal_map given r) as [g|a].
    - destruct H as (a & -> & Ha). split; [by unfold responses; cbn; rewrite Ha|]. intros f. rewrite asks_pair by done. specialize (Hr f). split.
      + intros ->. split_and!; [by left|done|by apply Hr].
      + intros (_ & _ & Hx). apply Hr in Hx. congruence.
    - destruct H as [-> Ha]. split; [by unfold responses; cbn; rewrite Ha|]. intros f. split; [by intros ?%asks_one|]. intros (_ & _ & Hx). by apply Hr in Hx. }
  destruct (String.eqb_spec norm "/stream") as [->|H4]; [|apply route_refused; [done|by intros [[|] _]]].
  pose proof (handleStream_frame id r) as H. pose proof (read_frame_ok r) as Hr. destruct (read_frame unmarshal_map given r) as [g|a].
  - destruct H as (a & b & chunks & -> & Ha & Hb & Hc). split.
    { unfold responses. cbn [List.filter]. rewrite Ha. assert (is_respond b = false) as -> by (by destruct Hb as [-> | ->]). by rewrite chunk_not_respond. }
    intros f. rewrite (asks_stream f g) by done. specialize (Hr f). split.
    + intros ->. split_and!; [by right|done|by apply Hr].
    + intros (_ & _ & Hx). apply Hr in Hx. congruence.
  - destruct H as [-> Ha]. split; [by unfold responses; cbn; rewrite Ha|]. intros f. split; [by intros ?%asks_one|]. intros (_ & _ & Hx). by apply Hr in Hx.
Qed.

(** Admission at a memory node.  Every request is answered once.  The provider is
    asked exactly for a POST to one of the two query paths that names its agent where
    that is required, passes the reputation policy where there is one, and holds a
    JSON document; and it is asked for the frame that the document describes. *)
Theorem memory_admission verdict streamID r :
  let acts := serve verdict streamID r in
  responses acts = 1%nat /\ forall f, asks f acts <-> mem_admitted verdict r f.
Proof.
  cbv zeta. unfold mem_ServeHTTP. destruct (cut_prefix _ _) as [sub|] eqn:Esub.
  2:{ split; [done|]. intros f. split; [by intros ?%asks_one|]. intros (? & ? & ? & ? & _). congruence. }
  change (mo_RequireAuth (mem_opts given)) with (mo_RequireAuth given).
  destruct (mo_RequireAuth given && String.eqb (rq_Header r HeaderAgent) "") eqn:Ea.
  { apply andb_true_iff in Ea as [Ea1 Ea2%String.eqb_eq]. split; [done|]. intros f. split; [by intros ?%asks_one|]. intros (? & ? & ? & _ & H & _). by destruct (H Ea1). }
  assert (Hauth : mo_RequireAuth given = true -> rq_Header r HeaderAgent <> "").
  { intros E. rewrite E in Ea. by apply String.eqb_neq in Ea. }
  set (norm := if String.eqb (trim_slashes sub) "" then "/" else trim_slashes sub).
  assert (Hnorm : (norm = "/query" \/ norm = "/stream") <-> (trim_slashes sub = "/query" \/ trim_slashes sub = "/stream")).
  { subst norm. destruct (String.eqb_spec (trim_slashes sub) "") as [->|]; [|done]. split; by intros [|]. }
  destruct (route_spec streamID norm r) as [Hone Hasks]. unfold mem_reputation. change (mo_ReputationPolicy (mem_opts given)) with (mo_ReputationPolicy given).
  assert (Hadm : (forall policy, mo_ReputationPolicy given = Some policy -> rq_Header r HeaderAgent <> "" -> verdict (rq_Header r HeaderAgent) policy = RepAccept) ->
    responses (mem_route Marshal marshal_schema sha256_hex unmarshal_map provider given streamID norm r) = 1%nat /\
    forall f, asks f (mem_route Marshal marshal_schema sha256_hex unmarshal_map provider given streamID norm r) <-> mem_admitted verdict r f).
  { intros Hv. split; [done|]. intros f. rewrite Hasks, Hnorm. unfold mem_admitted. rewrite Esub. split.
    - intros (Hn & Hp & body & d & Hb & Hd & Hf). by exists sub, body, d.
    - intros (sub' & body & d & [= <-] & _ & _ & Hn & Hp & Hb & Hd & Hf). split_and!; [done|done|eauto 10]. }
  destruct (mo_ReputationPolicy given) as [policy|] eqn:Ep; [|by apply Hadm].
  destruct (String.eqb_spec (rq_Header r HeaderAgent) "") as [Hag|Hag]; [apply Hadm; by intros ? _ ?|].
  destruct (verdict (rq_Header r HeaderAgent) policy) eqn:Ev.
  1:{ destruct Hadm as [H1 H2]; [by intros ? [= <-]|]. split; [done|]. intros f. rewrite <- H2. unfold asks. cbn [app]. rewrite !elem_of_cons. naive_solver. }
  all: split; [done|]; intros f; split; [by intros ?%asks_refused|]; intros (? & ? & ? & _ & _ & H & _); specialize (H policy Ep Hag); congruence.
Qed.

(** *** Budgets *)

Definition row_cost (row : dict) : Z := quarter (length (Marshal (VMap row))).
Definition cost (rows : list dict) : Z := foldr (fun row z => row_cost row + z) 0 rows.

Lemma row_cost_nonneg row : 0 <= row_cost row.
Proof. unfold row_cost, quarter. apply Z.div_pos; lia. Qed.

Lemma trim_loop_spec rows budget acc : acc <= budget ->
  let '(kept, total) := trim_loop Marshal rows budget acc in
  exists rest, rows = kept ++ rest /\ total = acc + cost kept /\ total <= budget /\ forall row, head rest = Some row -> budget < total + row_cost row.
Proof.
  revert acc. induction rows as [|row rows IH]; intros acc Hacc; cbn [trim_loop]; [exists []; cbn; split_and!; [done|lia|done|done]|].
  fold (row_cost row). destruct (Z.ltb_spec budget (acc + row_cost row)).
  - exists (row :: rows). cbn. split_and!; [done|lia|done|by intros ? [= <-]].
  - specialize (IH (acc + row_cost row) ltac:(lia)). destruct (trim_loop _ rows budget _) as [kept total]. destruct IH as (rest & -> & -> & Hb & Hr).
    exists rest. cbn [cost foldr]. fold (cost kept). split_and!; [done|lia|lia|intros x Hx; specialize (Hr x Hx); lia].
Qed.

Definition mem_budget (r : request) : Z := effectiveBudget (parseBudget r) (i64 (mo_CgnLimit given)).

(** C21. Budgets.  A query is answered with the rows of the provider, or, where they
    cost more than a positive budget (the lower of the node's limit and the agent's,
    where both are set), with the longest prefix of them whose cost is within it; the
    reported cost never exceeds the budget.  A budget that is negative is none. *)
Theorem budget_respected r f res (Hframe : read_frame unmarshal_map given r = Ok f) (Hquery : mp_Query provider f opts = Ok res) :
  exists kept est headers,
    mem_handleQuery Marshal marshal_schema sha256_hex unmarshal_map provider given r =
      [MQuery f; MRespond 200 headers
        (JsonBody [("frame", VString "0x04"); ("anchor_ref", VString (anchorID marshal_schema sha256_hex given)); ("count", VInt KInt (Z.of_nat (length (default [] kept))));
                   ("data", rows_value kept); ("next_cursor", VString (NextCursor res)); ("token_est", VInt KInt est)])] /\
    (mem_budget r <= 0 \/ measureRows Marshal (Rows res) <= mem_budget r -> kept = Rows res /\ est = measureRows Marshal (Rows res)) /\
    (0 < mem_budget r < measureRows Marshal (Rows res) -> est = cost (default [] kept) /\
       exists rest, default [] (Rows res) = default [] kept ++ rest /\ forall row, head rest = Some row -> mem_budget r < est + row_cost row) /\
    (0 < mem_budget r -> est <= mem_budget r).
Proof.
  unfold mem_handleQuery. rewrite Hframe, Hquery. unfold within_budget. change (mo_CgnLimit opts) with (mo_CgnLimit given). fold (mem_budget r).
  set (B := mem_budget r). set (m := measureRows Marshal (Rows res)).
  destruct (Z.ltb_spec 0 B) as [HB|HB]; cbn [andb]; [destruct (Z.ltb_spec B m) as [Hm|Hm]|].
  - unfold trimToBudget. pose proof (trim_loop_spec (default [] (Rows res)) B 0 ltac:(lia)) as H.
    destruct (trim_loop Marshal (default [] (Rows res)) B 0) as [kept total]. destruct H as (rest & Hr & -> & Hb & Hn).
    eexists (match kept with [] => None | _ => Some kept end), _, _. split; [reflexivity|].
    assert (E : default [] (match kept with [] => None | _ => Some kept end) = kept) by (by destruct kept). rewrite E.
    split_and!; [lia|intros _; split; [lia|by exists rest]|lia].
  - eexists (Rows res), m, _. split; [reflexivity|]. split_and!; [done|lia|lia].
  - eexists (Rows res), m, _. split; [reflexivity|]. split_and!; [done|lia|lia].
Qed.

(** The agent's header lifts the node's limit. *)
Lemma negative_budget_lifts_limit r rows : rq_Header r HeaderBudget = "-1" -> 0 <= i64 (mo_CgnLimit given) ->
  within_budget Marshal given r rows = (rows, measureRows Marshal rows).
Proof.
  intros Hr Hc. unfold within_budget. change (mo_CgnLimit opts) with (mo_CgnLimit given). unfold parseBudget. rewrite Hr. cbn [String.eqb].
  change (if String.eqb "-1" "" then 0 else Sscanf_d "-1") with (-1). unfold effectiveBudget.
  assert (Sscanf_d "-1" = -1) as -> by (vm_compute; reflexivity). destruct (i64 (mo_CgnLimit given) =? 0); [done|]. cbn [Z.eqb]. by destruct (Z.ltb_spec (i64 (mo_CgnLimit given)) (-1)); [lia|].
Qed.

(** *** Streams *)

Lemma omap_chunks (l : list mem_act) : Forall (fun a => is_Some (chunk_of a)) l ->
  length (omap chunk_of l) = length l /\ forall i d, omap chunk_of l !! i = Some d -> l !! i = Some (MChunk d).
Proof.
  induction 1 as [|a l [d Hd] _ [IHl IH]]; [done|]. csimpl. rewrite Hd. split; [simpl; by rewrite IHl|].
  intros [|i] d'; cbn; [|apply IH]. intros [= ->]. destruct a; try done. by injection Hd as ->.
Qed.

(** Streams of a memory node.  The chunks of an answer are numbered from 0 without
    a gap under one stream id, exactly the last is marked so, and those before it carry
    the pages of a streaming provider, or the one answer of another, in order. *)
Theorem memory_stream id r f (Hframe : read_frame unmarshal_map given r = Ok f) :
  let chunks := omap chunk_of (mem_handleStream marshal_schema sha256_hex unmarshal_map provider given id r) in
  let pages := match mp_Stream provider with
               | Some stream => (stream f opts).1
               | None => match mp_Query provider f opts with Ok res => [Rows res] | Err _ => [] end
               end in
  length chunks = S (length pages) /\
  forall i d, chunks !! i = Some d ->
    dict_at d "stream_id" = VString id /\ dict_at d "seq" = VInt KInt (Z.of_nat i) /\ dict_at d "is_last" = VBool (bool_decide (i = length pages)) /\
    forall page, pages !! i = Some page -> dict_at d "data" = rows_value page.
Proof.
  cbv zeta. unfold mem_handleStream. rewrite Hframe.
  assert (Hgo : forall pages last, (dict_at last "stream_id" = VString id /\ dict_at last "seq" = VInt KInt (Z.of_nat (length pages)) /\ dict_at last "is_last" = VBool true) ->
    forall l, l = imap (fun i page => writeChunk id (0 + Z.of_nat i) false (if 0 + Z.of_nat i =? 0 then anchorID marshal_schema sha256_hex given else "") page) pages ->
    length (omap chunk_of (l ++ [MChunk last])) = S (length pages) /\
    forall i d, omap chunk_of (l ++ [MChunk last]) !! i = Some d ->
      dict_at d "stream_id" = VString id /\ dict_at d "seq" = VInt KInt (Z.of_nat i) /\ dict_at d "is_last" = VBool (bool_decide (i = length pages)) /\
      forall page, pages !! i = Some page -> dict_at d "data" = rows_value page).
  { intros pages last (L1 & L2 & L3) l El.
    assert (Hc : Forall (fun a => is_Some (chunk_of a)) (l ++ [MChunk last])).
    { apply Forall_app. split; [|by repeat constructor]. subst l. apply Forall_lookup. intros i x. rewrite list_lookup_imap. destruct (pages !! i); [|done]. intros [= <-]. by eexists. }
    destruct (omap_chunks _ Hc) as [Hlen Hat]. assert (Hll : length l = length pages) by (subst l; apply length_imap). split; [rewrite Hlen, length_app, Hll; simpl; lia|].
    intros i d Hd%Hat. apply lookup_app_Some in Hd as [Hd|[Hge Hd]].
    - pose proof (lookup_lt_Some _ _ _ Hd) as Hlt. subst l. rewrite list_lookup_imap in Hd. destruct (pages !! i) as [page|] eqn:Ep; [|done].
      injection Hd as <-. rewrite bool_decide_false by lia. split_and!; [done|done|done|by intros ? [= <-]].
    - apply list_lookup_singleton_Some in Hd as [Hi [= <-]]. assert (i = length pages) as -> by lia. rewrite bool_decide_true by done.
      split_and!; [done|done|done|]. intros page Hp. apply lookup_lt_Some in Hp. lia. }
  destruct (mp_Stream provider) as [stream|].
  - destruct (stream f opts) as [pages err]. cbn [fst]. pose proof (page_chunks_shape id 0 pages) as H. destruct (page_chunks _ _ _ _ _ _) as [l n]. destruct H as [-> Hl].
    destruct err; apply (Hgo pages); done.
  - destruct (mp_Query provider f opts) as [res|e]; [|refine (Hgo [] _ _ [] _); done].
    refine (Hgo [Rows res] _ _ [writeChunk id 0 false (anchorID marshal_schema sha256_hex given) (Rows res)] _); done.
Qed.
End Handler.

(** ** Concrete inputs *)

Definition num (z : Z) : any := VFloat64 (float64_of_Z z).
Definition toy_rows : list dict :=
  [[("id", num 1); ("age", num 40)]; [("id", num 2); ("age", num 20)]; [("id", num 3); ("age", num 40)]; [("id", num 4); ("age", num 7)]].
Definition toy_query : dict :=
  [("filter", VMap [("age", VMap [("gte", num 10)])]); ("order", VMap [("field", VString "age"); ("dir", VString "desc")]); ("limit", num 2)].
Definition toy_mem_opts : MemoryNodeOptions := MkMemOptions "m" "" [] "" 0 0 false 0 3 None [].
Definition toy_mem_frame : QueryFrame := queryFrameFromJSON toy_query (mem_opts toy_mem_opts).
Definition toy_mem_result : MemoryNodeQueryResult := MkQueryResult (Some [[("id", num 1); ("age", num 40)]; [("id", num 3); ("age", num 40)]]) "".

(** The page of a negative limit is everything. *)
Lemma negative_limit_returns_all :
  exists all, mem_Query toy_rows (queryFrameFromJSON [("limit", num (-1))] (mem_opts toy_mem_opts)) 20 = Ok (MkQueryResult (Some all) "") /\ all = toy_rows.
Proof. eexists. split; vm_compute; reflexivity. Qed.

(** A negative offset panics. *)
Lemma negative_offset_panics : mem_Query toy_rows (queryFrameFromJSON [("offset", num (-1))] (mem_opts toy_mem_opts)) 20 = Err (ErrPanic "slice bounds out of range").
Proof. vm_compute. reflexivity. Qed.

Lemma query_answers_witness :
  mem_Query toy_rows toy_mem_frame 20 = Ok toy_mem_result /\ exists sorted, sorted ≡ₚ [[("id", num 1); ("age", num 40)]; [("id", num 2); ("age", num 20)]; [("id", num 3); ("age", num 40)]] /\
    (Ok toy_mem_result : go_result MemoryNodeQueryResult) = Ok (MkQueryResult (Some ((fun r => r) <$> page 0 2 sorted)) "").
Proof.
  assert (E : mem_Query toy_rows toy_mem_frame 20 = Ok toy_mem_result) by (vm_compute; reflexivity). split; [exact E|].
  destruct (proj2 (query_answers toy_rows toy_mem_frame 20) ltac:(vm_compute; discriminate)) as (sorted & Hp & Hq & _).
  rewrite E in Hq. exists sorted. split; [|exact Hq]. etransitivity; [exact Hp|]. vm_compute. reflexivity.
Defined.

Lemma filter_order_independent_witness :
  matchField (num 12) (VMap [("gt", num 10); ("lt", num 20)]) = matchField (num 12) (VMap [("lt", num 20); ("gt", num 10)]).
Proof.
  refine (proj2 (filter_order_independent [] [] [] (num 12) [("gt", num 10); ("lt", num 20)] [("lt", num 20); ("gt", num 10)] _ _ _)).
  - constructor.
  - constructor.
  - right. discriminate.
Defined.

Definition toy_marshal (v : any) : list byte := match v with VMaps l => repeat x00 (16 * length l) | VMap _ => repeat x00 8 | _ => [] end.
Definition toy_request : request := MkRequest "/query" "POST" (fun h => if String.eqb h HeaderBudget then "5" else "") (Ok []).
Definition toy_mem_provider : IMemoryNodeProvider := MkMemProvider (fun _ _ => Ok toy_mem_result) (Some (fun _ _ => ([Some []; Rows toy_mem_result], None))).

Lemma budget_respected_witness :
  mem_budget toy_mem_opts toy_request = 3 /\ exists kept est headers body,
    mem_handleQuery toy_marshal (fun _ => []) (fun _ => "") (fun _ => Some toy_query) toy_mem_provider toy_mem_opts toy_request = [MQuery toy_mem_frame; MRespond 200 headers body] /\
    est <= 3 /\ length (default [] kept) = 1%nat /\ est = cost toy_marshal (default [] kept).
Proof.
  split; [vm_compute; reflexivity|].
  destruct (budget_respected toy_marshal (fun _ => []) (fun _ => "") (fun _ => Some toy_query) toy_mem_provider toy_mem_opts toy_request toy_mem_frame toy_mem_result
    ltac:(reflexivity) ltac:(reflexivity)) as (kept & est & headers & E & _ & Hcut & Hle).
  assert (B : mem_budget toy_mem_opts toy_request = 3) by (vm_compute; reflexivity). rewrite B in Hcut, Hle.
  destruct (Hcut ltac:(vm_compute; split; reflexivity)) as (Hest & rest & Hrows & Hnext).
  exists kept, est, headers. eexists. split; [exact E|]. split; [apply Hle; reflexivity|]. split; [|exact Hest].
  destruct kept as [[|a [|b [|c l]]]|]; cbn in Hrows, Hest, Hnext |- *; try reflexivity; try discriminate.
  all: exfalso; subst est; try (subst rest; specialize (Hnext _ eq_refl); vm_compute in Hnext; discriminate).
  all: specialize (Hle ltac:(reflexivity)); injection Hrows as <- <- ->; vm_compute in Hle; by apply Hle.
Defined.

Lemma memory_stream_witness :
  omap chunk_of (mem_handleStream (fun _ => []) (fun _ => "h") (fun _ => Some toy_query) toy_mem_provider toy_mem_opts "s" toy_request) !! 2%nat <> None /\
  length (omap chunk_of (mem_handleStream (fun _ => []) (fun _ => "h") (fun _ => Some toy_query) toy_mem_provider toy_mem_opts "s" toy_request)) = 3%nat.
Proof.
  split; [vm_compute; discriminate|].
  exact (proj1 (memory_stream (fun _ => []) (fun _ => "h") (fun _ => Some toy_query) toy_mem_provider toy_mem_opts "s" toy_request toy_mem_frame ltac:(reflexivity))).
Defined.
