(* ===== verification/NwpComplex.v ===== *)
(** * The complex node server

    nwp/complex_node_server.go: a node that answers queries with its own rows and, down
    to the depth that the request allows, with the answers of its child nodes; and that
    runs actions.

    What a handler does to the outside is the list of [cx_act]s it returns.  The HTTP
    client, [json.Unmarshal], hashes, [url.Parse] and the provider are parameters; the
    children are fetched concurrently, each answer has its own place. *)

From S2P Require Import Prelude GoValue CoreCodec CoreCache NopExecute NwpAnchor NwpSql NwpAction NwpMemory.

Definition AbsoluteMaxDepth : Z := 5.
Definition HeaderDepth : string := "X-NWP-Depth".
Definition HeaderTrace : string := "X-NWP-Trace".
Definition MimeFrame : string := "application/nwp-frame".
Definition ErrDepthExceeded : string := "NWP-DEPTH-EXCEEDED".
Definition ErrGraphCycle : string := "NWP-GRAPH-CYCLE".

(** ** Options *)

Record ComplexGraphRef : Type := MkGraphRef { Rel : string; NodeURL : string }.

Record ComplexNodeOptions : Type := MkComplexOptions {
  co_NodeID : string; co_DisplayName : string; co_PathPrefix : string; co_Schema : option (list MemoryNodeField); co_Actions : gmap string ActionSpec;
  Graph : list ComplexGraphRef; GraphMaxDepth : Z; AllowedChildURLPrefixes : list string; RejectPrivateChildURLs : option bool;
  AllowHTTPChildURLs : bool; co_RequireAuth : bool; co_DefaultLimit : Z; co_MaxLimit : Z; co_DefaultTimeoutMs : Z; co_MaxTimeoutMs : Z;
  ChildFetchTimeout : Z
}.

Definition rejectPrivateChildren (o : ComplexNodeOptions) : bool := default true (RejectPrivateChildURLs o).
Definition graphMaxDepth (o : ComplexNodeOptions) : Z := if GraphMaxDepth o =? 0 then 2 else GraphMaxDepth o.
Definition childFetchTimeout (o : ComplexNodeOptions) : Z := if 0 <? ChildFetchTimeout o then ChildFetchTimeout o else 10 * second.

(** [NewComplexNodeServer] panics on the options it refuses. *)
Definition check_options (o : ComplexNodeOptions) : go_result unit :=
  if bool_decide (is_Some (co_Actions o !! SystemTaskStatus)) then
    Err (ErrPanic ("reserved action id '" +:+ SystemTaskStatus +:+ "' MUST NOT be registered on a Complex Node"))
  else if bool_decide (is_Some (co_Actions o !! SystemTaskCancel)) then
    Err (ErrPanic ("reserved action id '" +:+ SystemTaskCancel +:+ "' MUST NOT be registered on a Complex Node"))
  else if AbsoluteMaxDepth <? graphMaxDepth o then Err (ErrPanic "GraphMaxDepth exceeds NPS-2 §11 absolute cap")
  else Ok tt.

(** ** Child URLs *)

Section ChildURL.
Context (url_Parse : string -> option URL) (parseIPv6 : string -> option (list Z)) (strings_ToLower : string -> string).

Definition parseAbsURL (raw : string) : option URL :=
  match url_Parse raw with
  | Some u => if String.eqb (Scheme u) "" || String.eqb (Host u) "" then None else Some u
  | None => None
  end.

Definition ValidateComplexChildURL (childURL : string) (allowedPrefixes : list string) (rejectPrivate allowHTTP : bool) : string :=
  if String.eqb (trim_space childURL) "" then "child node URL must not be empty."
  else
    match parseAbsURL childURL with
    | None => "child node URL '" +:+ childURL +:+ "' is not a valid absolute URI."
    | Some u =>
        if negb (EqualFold (Scheme u) "https") && negb (allowHTTP && EqualFold (Scheme u) "http") then
          "child node URL MUST use the https:// scheme (got '" +:+ Scheme u +:+ "://')."
        else if negb (bool_decide (allowedPrefixes = [])) && negb (existsb (fun p => has_prefix (strings_ToLower p) (strings_ToLower childURL)) allowedPrefixes) then
          "child node URL '" +:+ childURL +:+ "' is not in the allowed prefix list."
        else if rejectPrivate && isPrivateHost parseIPv6 (Hostname u) then
          "child node host '" +:+ Hostname u +:+ "' resolves to a private or loopback address (SSRF guard)."
        else ""
    end.
End ChildURL.

(** ** Headers *)

(** The depth asked for, or the reason to refuse. *)
Definition cx_parseDepth (o : ComplexNodeOptions) (r : request) : result string Z :=
  let raw := rq_Header r HeaderDepth in
  if String.eqb raw "" then Ok 0
  else
    match ParseUint raw with
    | Some depth =>
        if 2 ^ 32 <=? depth then Err ("X-NWP-Depth '" +:+ raw +:+ "' is not a non-negative integer.")
        else if graphMaxDepth o <? depth then Err ("X-NWP-Depth " +:+ raw +:+ " exceeds node max_depth " +:+ FormatUint (graphMaxDepth o) +:+ ".")
        else if AbsoluteMaxDepth <? depth then Err ("X-NWP-Depth " +:+ raw +:+ " exceeds NPS-2 §11 absolute cap " +:+ FormatUint AbsoluteMaxDepth +:+ ".")
        else Ok depth
    | None => Err ("X-NWP-Depth '" +:+ raw +:+ "' is not a non-negative integer.")
    end.

Definition parseTrace (r : request) : list string :=
  let raw := rq_Header r HeaderTrace in
  if String.eqb raw "" then [] else List.filter (fun p => negb (String.eqb p "")) (trim_space <$> split_on (chr 44) raw).

Definition cx_clampTimeout (o : ComplexNodeOptions) (requested : Z) (spec : ActionSpec) : Z :=
  let maxOpt := if co_MaxTimeoutMs o =? 0 then 300000 else co_MaxTimeoutMs o in
  let specMax := if as_TimeoutMsMax spec =? 0 then maxOpt else as_TimeoutMsMax spec in
  let hardMax := if maxOpt <? specMax then maxOpt else specMax in
  if requested =? 0 then
    if 0 <? as_TimeoutMsDefault spec then as_TimeoutMsDefault spec
    else if 0 <? co_DefaultTimeoutMs o then co_DefaultTimeoutMs o else 5000
  else if hardMax <? requested then hardMax else requested.

Definition truncate (str : string) : string := if str_len str <=? 256 then str else String.substring 0 256 str +:+ "…".

(** ** The server *)

Record IComplexNodeProvider (S : Type) : Type := MkComplexProvider {
  cp_Query : QueryFrame -> ComplexNodeOptions -> result string (option MemoryNodeQueryResult);
  cp_Execute : ActionFrame -> ActionContext -> result string (option (ActionExecutionResult S))
}.
Arguments MkComplexProvider {S}.
Arguments cp_Query {S}.
Arguments cp_Execute {S}.

Definition NullComplexNodeProvider {S} : IComplexNodeProvider S :=
  MkComplexProvider (fun _ _ => Ok (Some (MkQueryResult (Some []) ""))) (fun _ _ => Err "NullComplexNodeProvider does not handle actions.").

Inductive cx_act : Type :=
| CQuery (f : QueryFrame)
| CExecute (f : ActionFrame) (ac : ActionContext)
| CFetch (url : string) (headers : list (string * string)) (body : list byte) (timeout : Z)
| CRespond (status : Z) (headers : list (string * string)) (body : resp_body).

(** An error of the client: its text and whether the deadline had passed. *)
Record fetch_error : Type := MkFetchError { fe_text : string; fe_timeout : bool }.

Section Server.
Context `{GoJSON} {S : Type}.
Context (unmarshal_map : list byte -> option dict) (unmarshal_any : list byte -> option any) (unmarshal_frame : list byte -> result string ActionFrameWire).
Context (raw_json : list byte -> result string any) (marshal_schema : list MemoryNodeField -> list byte) (sha256_hex : list byte -> string).
Context (url_Parse : string -> option URL) (parseIPv6 : string -> option (list Z)) (strings_ToLower : string -> string).
Context (NewRequest : string -> option string) (http_Do : string -> list (string * string) -> list byte -> result fetch_error (Z * list byte)).
Context (provider : IComplexNodeProvider S) (o : ComplexNodeOptions).

Definition cx_prefix : string := trim_slashes (co_PathPrefix o).

Definition cx_schemaJSON : list byte := match co_Schema o with Some fields => marshal_schema fields | None => bytes_of_string "{}" end.
Definition cx_anchorID : string := match co_Schema o with Some _ => "sha256:" +:+ sha256_hex cx_schemaJSON | None => "" end.

Definition cx_nwm : dict :=
  let some {A} (l : list A) := negb (match l with [] => true | _ => false end) in
  [("nwp", VString "0.4"); ("node_id", VString (co_NodeID o)); ("node_type", VString "complex"); ("wire_formats", VStrings ["ncp-capsule"; "json"]);
   ("preferred_format", VString "json");
   ("capabilities", VMap [("query", VBool (match co_Schema o with Some _ => true | None => some (Graph o) end)); ("stream", VBool false); ("token_budget_hint", VBool true)]);
   ("auth", VMap [("required", VBool (co_RequireAuth o)); ("identity_type", VString (if co_RequireAuth o then "nip-cert" else "none"))]);
   ("endpoints", VMap ([("query", VString (cx_prefix +:+ "/query")); ("schema", VString (cx_prefix +:+ "/.schema"))] ++
      (if bool_decide (co_Actions o = ∅) then [] else [("invoke", VString (cx_prefix +:+ "/invoke"))])))] ++
  (if String.eqb (co_DisplayName o) "" then [] else [("display_name", VString (co_DisplayName o))]) ++
  (match co_Schema o with Some _ => [("schema_anchors", VMap [("default", VString cx_anchorID)])] | None => [] end) ++
  (if some (Graph o) then
     [("graph", VMap [("refs", VMaps ((fun g => [("rel", VString (Rel g)); ("node_url", VString (NodeURL g))]) <$> Graph o)); ("max_depth", VInt KUint64 (graphMaxDepth o))])]
   else []).

Definition cx_actions : dict := [("actions", VMap ((fun '(k, v) => (k, VMap (spec_map v))) <$> map_to_list (co_Actions o)))].

Definition cx_error (status : Z) (npsStatus errorCode message : string) : cx_act :=
  CRespond status [("Content-Type", "application/json")] (JsonBody [("status", VString npsStatus); ("error", VString errorCode); ("message", VString message)]).

Definition schema_header : list (string * string) := if String.eqb cx_anchorID "" then [] else [(HeaderSchema, cx_anchorID)].

(** *** Children *)

Definition fetch_headers (r : request) (childDepth : Z) (nextTrace : list string) : list (string * string) :=
  let pass h := if String.eqb (rq_Header r h) "" then [] else [(h, rq_Header r h)] in
  [("Content-Type", MimeFrame); (HeaderDepth, FormatUint childDepth); (HeaderTrace, join "," nextTrace)] ++ pass HeaderAgent ++ pass HeaderBudget.

Definition child_error (base : dict) (code message : string) : dict := base ++ [("error", VMap [("code", VString code); ("message", VString message)])].

Definition fetchChild (r : request) (g : ComplexGraphRef) (frameBody : list byte) (childDepth : Z) (nextTrace : list string) : list cx_act * dict :=
  let base := [("rel", VString (Rel g)); ("node", VString (NodeURL g))] in
  let ssrf := ValidateComplexChildURL url_Parse parseIPv6 strings_ToLower (NodeURL g) (AllowedChildURLPrefixes o) (rejectPrivateChildren o) (AllowHTTPChildURLs o) in
  if negb (String.eqb ssrf "") then ([], child_error base ErrAuthNidScopeViolation ssrf)
  else
    let childURL := trim_slashes (NodeURL g) +:+ "/query" in
    match NewRequest childURL with
    | Some e => ([], child_error base ErrNodeUnavailable e)
    | None =>
        let headers := fetch_headers r childDepth nextTrace in
        ([CFetch childURL headers frameBody (childFetchTimeout o)],
         match http_Do childURL headers frameBody with
         | Err e => child_error base ErrNodeUnavailable (if fe_timeout e then "child '" +:+ Rel g +:+ "' fetch timed out." else fe_text e)
         | Ok (status, body) =>
             if (status <? 200) || (300 <=? status) then
               child_error base ErrNodeUnavailable
                 ("child '" +:+ Rel g +:+ "' returned " +:+ fmt_d status +:+ ": " +:+ truncate (string_of_bytes body))
             else match raw_json body with
                  | Err e => child_error base ErrNodeUnavailable ("child '" +:+ Rel g +:+ "' returned non-JSON body: " +:+ e)
                  | Ok capsule => base ++ [("data", capsule)]
                  end
         end)
    end.

Definition fetchChildren (r : request) (frameBody : list byte) (childDepth : Z) (nextTrace : list string) : list cx_act * list dict :=
  let l := (fun g => fetchChild r g frameBody childDepth nextTrace) <$> Graph o in (mjoin l.*1, l.*2).

Definition cx_memory_options : MemoryNodeOptions := MkMemOptions "" "" [] "" (co_DefaultLimit o) (co_MaxLimit o) false 0 0 None [].

(** A query that passed its checks. *)
Definition answer_query (r : request) (raw : list byte) (frame : QueryFrame) (depth : Z) (trace : list string) : list cx_act :=
  CQuery frame ::
  match cp_Query provider frame o with
  | Err _ => [cx_error 500 "NPS-SERVER-INTERNAL" ErrNodeUnavailable "local query failed."]
  | Ok local =>
      let local := default (MkQueryResult None "") local in
      let localData := default [] (Rows local) in
      let '(acts, graph) := if (0 <? depth) && negb (bool_decide (length (Graph o) = 0%nat))
                            then let '(acts, l) := fetchChildren r raw (depth - 1) (trace ++ [co_NodeID o]) in (acts, [("graph", VMaps l)])
                            else ([], []) in
      acts ++
      [CRespond 200 ([("Content-Type", MimeCapsule); (HeaderNodeType, "complex")] ++ schema_header)
         (JsonBody ([("count", VInt KInt (Z.of_nat (length localData))); ("data", VMaps localData)] ++
                    (if String.eqb cx_anchorID "" then [] else [("anchor_ref", VString cx_anchorID)]) ++
                    (if String.eqb (NextCursor local) "" then [] else [("next_cursor", VString (NextCursor local))]) ++ graph))]
  end.

Definition cx_handleQuery (r : request) : list cx_act :=
  match rq_Body r with
  | Err e => [cx_error 400 "NPS-CLIENT-BAD-REQUEST" ErrQueryFilterInvalid e]
  | Ok raw =>
      match unmarshal_map raw with
      | None => [cx_error 400 "NPS-CLIENT-BAD-REQUEST" ErrQueryFilterInvalid "invalid QueryFrame JSON."]
      | Some d =>
          match cx_parseDepth o r with
          | Err e => [cx_error 400 "NPS-CLIENT-BAD-REQUEST" ErrDepthExceeded e]
          | Ok depth =>
              let trace := parseTrace r in
              if mem_string (co_NodeID o) trace then
                [cx_error 422 "NPS-CLIENT-UNPROCESSABLE" ErrGraphCycle ("graph cycle detected at '" +:+ co_NodeID o +:+ "'.")]
              else answer_query r raw (queryFrameFromJSON d cx_memory_options) depth trace
          end
      end
  end.

(** *** Actions *)

(** A result that is not JSON cannot be encoded: the body stays empty.
    [expired]: whether the deadline of the context has passed when [Execute] returns. *)
Definition run_action (expired : bool) (r : request) (f : ActionFrameWire) (spec : ActionSpec) : list cx_act :=
  let timeoutMs := cx_clampTimeout o (fw_TimeoutMs f) spec in
  let frame := toActionFrame unmarshal_any f in
  let ac := MkActionContext (rq_Header r HeaderAgent) (fw_RequestID f) "" spec timeoutMs (if String.eqb (fw_Priority f) "" then "normal" else fw_Priority f) 0 in
  CExecute frame ac ::
  match cp_Execute provider frame ac with
  | Err _ => [if expired then cx_error 504 "NPS-SERVER-TIMEOUT" ErrNodeUnavailable "action execution timed out."
              else cx_error 500 "NPS-SERVER-INTERNAL" ErrNodeUnavailable "action execution failed."]
  | Ok result =>
      let result := default (MkExecResult [] None "" 0) result in
      let anchorRef := if String.eqb (er_AnchorRef result) "" then as_ResultAnchor spec else er_AnchorRef result in
      let data := match er_Result result with [] => Ok [] | b => match raw_json b with Ok v => Ok [v] | Err e => Err e end end in
      [CRespond 200 ([("Content-Type", MimeCapsule); (HeaderNodeType, "complex")] ++
                     (if String.eqb anchorRef "" then [] else [(HeaderSchema, anchorRef)]) ++
                     (if 0 <? TokenEst result then [(HeaderTokens, FormatUint (TokenEst result))] else []) ++
                     (if String.eqb (fw_RequestID f) "" then [] else [(HeaderRequestID, fw_RequestID f)]))
         (match data with
          | Ok data => JsonBody [("anchor_ref", VString anchorRef); ("count", VInt KInt (Z.of_nat (length data))); ("data", VSlice data); ("token_est", VInt KUint32 (TokenEst result))]
          | Err _ => NoBody
          end)]
  end.

Definition cx_handleInvoke (expired : bool) (r : request) : list cx_act :=
  let invalid := cx_error 400 "NPS-CLIENT-BAD-REQUEST" ErrActionParamsInvalid in
  match rq_Body r with
  | Err e => [invalid e]
  | Ok raw =>
      match unmarshal_frame raw with
      | Err _ => [invalid "invalid ActionFrame: missing action_id."]
      | Ok f =>
          if String.eqb (fw_ActionID f) "" then [invalid "invalid ActionFrame: missing action_id."]
          else
            match co_Actions o !! fw_ActionID f with
            | None => [cx_error 404 "NPS-CLIENT-NOT-FOUND" ErrActionNotFound ("Unknown action_id '" +:+ fw_ActionID f +:+ "'.")]
            | Some spec =>
                if fw_Async f then [invalid "Complex Node does not support async actions; invoke a downstream Action Node instead."]
                else if negb (mem_string (fw_Priority f) [""; "low"; "normal"; "high"]) then
                  [invalid ("priority '" +:+ fw_Priority f +:+ "' is invalid (allowed: low/normal/high).")]
                else run_action expired r f spec
            end
      end
  end.

(** *** Routing *)

Definition cx_ServeHTTP (expired : bool) (r : request) : list cx_act :=
  match cut_prefix cx_prefix (rq_Path r) with
  | None => [CRespond 404 [] NoBody]
  | Some sub =>
      if co_RequireAuth o && String.eqb (rq_Header r HeaderAgent) "" then
        [cx_error 401 "NPS-CLIENT-UNAUTHORIZED" ErrAuthNidScopeViolation "X-NWP-Agent header is required."]
      else if mem_string sub ["/.nwm"; "/.nwm/"] then
        [CRespond 200 [("Content-Type", MimeManifest); (HeaderNodeType, "complex")] (RawBody (marshal_or_nil cx_nwm))]
      else if mem_string sub ["/.schema"; "/.schema/"] then
        [CRespond 200 ([("Content-Type", "application/json")] ++ schema_header) (RawBody cx_schemaJSON)]
      else if mem_string sub ["/actions"; "/actions/"] then
        [CRespond 200 [("Content-Type", "application/json")] (RawBody (marshal_or_nil cx_actions))]
      else if mem_string sub ["/query"; "/query/"] then
        if String.eqb (rq_Method r) "POST" then cx_handleQuery r else [CRespond 405 [] NoBody]
      else if mem_string sub ["/invoke"; "/invoke/"] then
        if String.eqb (rq_Method r) "POST" then cx_handleInvoke expired r else [CRespond 405 [] NoBody]
      else [CRespond 404 [] NoBody]
  end.
End Server.
