(* ===== verification/NwpComplexProof.v ===== *)
(** * What complex nodes guarantee

    The gates of a node, the requests it sends to its children, and networks of nodes:
    requests that nodes send one another end, and never meet a node twice. *)

From S2P Require Import Prelude GoValue CoreCodec CoreCache NcpHandshake NopExecute NdpRegistry NwpAnchor NwpSql NwpAction NwpMemory NwpComplex.

(** ** One node *)

Definition lookup_header (headers : list (string * string)) (h : string) : string := default "" (assoc_get h headers).

Section Node.
Context `{GoJSON} {S : Type}.
Context (unmarshal_map : list byte -> option dict) (unmarshal_any : list byte -> option any) (unmarshal_frame : list byte -> result string ActionFrameWire).
Context (raw_json : list byte -> result string any) (marshal_schema : list MemoryNodeField -> list byte) (sha256_hex : list byte -> string).
Context (url_Parse : string -> option URL) (parseIPv6 : string -> option (list Z)) (strings_ToLower : string -> string).
Context (NewRequest : string -> option string).

Abbreviation serve := (cx_ServeHTTP unmarshal_map unmarshal_any unmarshal_frame raw_json marshal_schema sha256_hex url_Parse parseIPv6 strings_ToLower NewRequest).
Abbreviation handleQuery := (cx_handleQuery unmarshal_map raw_json marshal_schema sha256_hex url_Parse parseIPv6 strings_ToLower NewRequest).
Abbreviation valid_child := (fun o g => ValidateComplexChildURL url_Parse parseIPv6 strings_ToLower (NodeURL g) (AllowedChildURLPrefixes o) (rejectPrivateChildren o) (AllowHTTPChildURLs o)).

(** The requests that reach [handleQuery]. *)
Definition query_route (o : ComplexNodeOptions) (r : request) : Prop :=
  exists sub, cut_prefix (cx_prefix o) (rq_Path r) = Some sub /\ (co_RequireAuth o = true -> rq_Header r HeaderAgent <> "") /\
    (sub = "/query" \/ sub = "/query/") /\ rq_Method r = "POST".

(** A request that the checks of [handleQuery] let pass, with its depth. *)
Definition query_passes (o : ComplexNodeOptions) (r : request) (raw : list byte) (d : dict) (depth : Z) : Prop :=
  query_route o r /\ rq_Body r = Ok raw /\ unmarshal_map raw = Some d /\ cx_parseDepth o r = Ok depth /\ co_NodeID o ∉ parseTrace r.

(** [a] is the request to a child that the guard of child URLs lets pass. *)
Definition to_child (o : ComplexNodeOptions) (r : request) (raw : list byte) (depth : Z) (trace : list string) (a : cx_act) : Prop :=
  exists g, g ∈ Graph o /\ valid_child o g = "" /\ NewRequest (trim_slashes (NodeURL g) +:+ "/query") = None /\
    a = CFetch (trim_slashes (NodeURL g) +:+ "/query") (fetch_headers r (depth - 1) (trace ++ [co_NodeID o])) raw (childFetchTimeout o).

Lemma fetchChild_acts http_Do o r g raw depth trace :
  (fetchChild raw_json url_Parse parseIPv6 strings_ToLower NewRequest http_Do o r g raw (depth - 1) (trace ++ [co_NodeID o])).1 =
    if String.eqb (valid_child o g) "" then
      match NewRequest (trim_slashes (NodeURL g) +:+ "/query") with
      | Some _ => []
      | None => [CFetch (trim_slashes (NodeURL g) +:+ "/query") (fetch_headers r (depth - 1) (trace ++ [co_NodeID o])) raw (childFetchTimeout o)]
      end
    else [].
Proof. unfold fetchChild. destruct (String.eqb _ ""); [|done]. cbn [negb]. by destruct (NewRequest _). Qed.

Lemma fetchChildren_acts http_Do o r raw depth trace a :
  a ∈ (fetchChildren raw_json url_Parse parseIPv6 strings_ToLower NewRequest http_Do o r raw (depth - 1) (trace ++ [co_NodeID o])).1 <->
    to_child o r raw depth trace a.
Proof.
  unfold fetchChildren. cbn [fst]. rewrite list_elem_of_join. split.
  - intros (l & Ha & (p & -> & (g & -> & Hg)%list_elem_of_fmap)%list_elem_of_fmap). rewrite fetchChild_acts in Ha. exists g.
    destruct (String.eqb_spec (valid_child o g) ""); [|by apply elem_of_nil in Ha]. destruct (NewRequest _); [by apply elem_of_nil in Ha|].
    by apply list_elem_of_singleton in Ha.
  - intros (g & Hg & Hv & Hr & ->). eexists. split; [|apply list_elem_of_fmap; eexists; split; [reflexivity|]; apply list_elem_of_fmap; eexists; split; [reflexivity|exact Hg]].
    rewrite fetchChild_acts, Hv, Hr. cbn. by left.
Qed.

(** What [answer_query] asks, sends and answers. *)
Lemma answer_query_acts http_Do provider o r raw frame depth trace :
  exists fetches resp, answer_query raw_json marshal_schema sha256_hex url_Parse parseIPv6 strings_ToLower NewRequest http_Do (S := S) provider o r raw frame depth trace =
      CQuery frame :: fetches ++ [resp] /\ (exists st h b, resp = CRespond st h b) /\
    forall a, a ∈ fetches <-> 0 < depth /\ (exists res, cp_Query provider frame o = Ok res) /\ to_child o r raw depth trace a.
Proof.
  unfold answer_query. destruct (cp_Query provider frame o) as [local|e]; [|exists [], (cx_error 500 "NPS-SERVER-INTERNAL" ErrNodeUnavailable "local query failed.");
    split_and!; [done|by eexists _, _, _|]; intros a; split; [by intros ?%elem_of_nil|by intros (_ & [? ?] & _)]].
  destruct (Z.ltb_spec 0 depth) as [Hd|Hd]; [destruct (Graph o) as [|g0 gs] eqn:Eg|]; cbn [andb length negb].
  - rewrite bool_decide_true by done. eexists [], _. split_and!; [reflexivity|by eexists _, _, _|]. intros a. split; [by intros ?%elem_of_nil|].
    intros (_ & _ & g & Hg & _). rewrite Eg in Hg. by apply elem_of_nil in Hg.
  - rewrite bool_decide_false by done. cbn [negb]. pose proof (fetchChildren_acts http_Do o r raw depth trace) as Hf. 
    destruct (fetchChildren _ _ _ _ _ _ _ _ _ _ _) as [acts l]. eexists acts, _. split_and!; [reflexivity|by eexists _, _, _|]. intros a. rewrite Hf. cbn [fst]. naive_solver.
  - eexists [], _. split_and!; [reflexivity|by eexists _, _, _|]. intros a. split; [by intros ?%elem_of_nil|]. intros (? & _). lia.
Qed.

Definition cx_responses (acts : list cx_act) : nat := length (List.filter (fun a => match a with CRespond _ _ _ => true | _ => false end) acts).

Definition outward (a : cx_act) : bool := match a with CQuery _ | CFetch _ _ _ _ => true | _ => false end.
Definition executes (a : cx_act) : bool := match a with CExecute _ _ => true | _ => false end.

(** The requests that reach [handleInvoke] and pass its checks. *)
Definition invoke_passes (o : ComplexNodeOptions) (r : request) (f : ActionFrameWire) (spec : ActionSpec) : Prop :=
  exists sub raw, cut_prefix (cx_prefix o) (rq_Path r) = Some sub /\ (co_RequireAuth o = true -> rq_Header r HeaderAgent <> "") /\
    (sub = "/invoke" \/ sub = "/invoke/") /\ rq_Method r = "POST" /\ rq_Body r = Ok raw /\ unmarshal_frame raw = Ok f /\ fw_ActionID f <> "" /\
    co_Actions o !! fw_ActionID f = Some spec /\ fw_Async f = false /\ (fw_Priority f = "" \/ fw_Priority f = "low" \/ fw_Priority f = "normal" \/ fw_Priority f = "high").

Lemma fetches_no_response (l : list cx_act) o r raw depth trace : (forall a, a ∈ l -> to_child o r raw depth trace a) -> cx_responses l = 0%nat.
Proof.
  intros Hl. induction l as [|a l IH]; [done|]. unfold cx_responses. cbn [List.filter]. destruct (Hl a ltac:(by left)) as (g & _ & _ & _ & ->). apply IH. intros b Hb. apply Hl. by right.
Qed.

Lemma handleQuery_spec http_Do (provider : IComplexNodeProvider S) o r :
  let acts := handleQuery http_Do provider o r in
  cx_responses acts = 1%nat /\ (forall a, a ∈ acts -> executes a = false) /\
  forall a, outward a = true -> a ∈ acts <->
    exists raw d depth, rq_Body r = Ok raw /\ unmarshal_map raw = Some d /\ cx_parseDepth o r = Ok depth /\ co_NodeID o ∉ parseTrace r /\
      (a = CQuery (queryFrameFromJSON d (cx_memory_options o)) \/
       0 < depth /\ (exists res, cp_Query provider (queryFrameFromJSON d (cx_memory_options o)) o = Ok res) /\ to_child o r raw depth (parseTrace r) a).
Proof.
  cbv zeta. unfold cx_handleQuery.
  assert (Hone : forall st n c m (P : cx_act -> Prop), (forall a, ~ P a) -> let acts := [cx_error st n c m] in
    cx_responses acts = 1%nat /\ (forall a, a ∈ acts -> executes a = false) /\ forall a, outward a = true -> a ∈ acts <-> P a).
  { intros st n c m P HP. split_and!; [done|by intros a ->%list_elem_of_singleton|]. intros a Ha. split; [by intros ->%list_elem_of_singleton|by intros ?%HP]. }
  destruct (rq_Body r) as [raw|e]; [|apply Hone; intros a (? & ? & ? & ? & _); done].
  destruct (unmarshal_map raw) as [d|] eqn:Ed; [|apply Hone; intros a (? & ? & ? & [= <-] & ? & _); congruence].
  destruct (cx_parseDepth o r) as [depth|e]; [|apply Hone; intros a (? & ? & ? & _ & _ & ? & _); done].
  destruct (mem_string (co_NodeID o) (parseTrace r)) eqn:Em.
  { apply mem_string_true in Em. apply Hone. by intros a (? & ? & ? & _ & _ & _ & ? & _). }
  apply mem_string_false in Em.
  destruct (answer_query_acts http_Do provider o r raw (queryFrameFromJSON d (cx_memory_options o)) depth (parseTrace r)) as (fetches & resp & -> & (st & h & b & ->) & Hf).
  split_and!.
  - unfold cx_responses. cbn [List.filter]. rewrite List.filter_app, length_app. cbn. fold (cx_responses fetches).
    rewrite (fetches_no_response fetches o r raw depth (parseTrace r)); [done|]. intros a Ha. by apply Hf in Ha as (_ & _ & ?).
  - intros a [->|[Ha| ->%list_elem_of_singleton]%elem_of_app]%elem_of_cons; [done| |done]. by apply Hf in Ha as (_ & _ & g & _ & _ & _ & ->).
  - intros a Ha. rewrite elem_of_cons, elem_of_app, list_elem_of_singleton, Hf. split.
    + intros [->|[(? & ? & ?)| ->]]; [|by exists raw, d, depth; auto 10|done]. exists raw, d, depth. auto 10.
    + intros (raw' & d' & depth' & [= <-] & Ed' & [= <-] & _ & Hx). rewrite Ed in Ed'. injection Ed' as <-. destruct Hx as [->|Hx]; [by left|]. right. by left.
Qed.

Definition invoke_context (o : ComplexNodeOptions) (r : request) (f : ActionFrameWire) (spec : ActionSpec) : ActionContext :=
  MkActionContext (rq_Header r HeaderAgent) (fw_RequestID f) "" spec (cx_clampTimeout o (fw_TimeoutMs f) spec)
    (if String.eqb (fw_Priority f) "" then "normal" else fw_Priority f) 0.

Lemma handleInvoke_spec (provider : IComplexNodeProvider S) o expired r :
  let acts := cx_handleInvoke unmarshal_any unmarshal_frame raw_json provider o expired r in
  cx_responses acts = 1%nat /\ (forall a, a ∈ acts -> outward a = false) /\
  forall a, executes a = true -> a ∈ acts <->
    exists raw f spec, rq_Body r = Ok raw /\ unmarshal_frame raw = Ok f /\ fw_ActionID f <> "" /\ co_Actions o !! fw_ActionID f = Some spec /\
      fw_Async f = false /\ fw_Priority f ∈ [""; "low"; "normal"; "high"] /\ a = CExecute (toActionFrame unmarshal_any f) (invoke_context o r f spec).
Proof.
  cbv zeta. unfold cx_handleInvoke.
  assert (Hone : forall st n c m (P : cx_act -> Prop), (forall a, ~ P a) -> let acts := [cx_error st n c m] in
    cx_responses acts = 1%nat /\ (forall a, a ∈ acts -> outward a = false) /\ forall a, executes a = true -> a ∈ acts <-> P a).
  { intros st n c m P HP. split_and!; [done|by intros a ->%list_elem_of_singleton|]. intros a Ha. split; [by intros ->%list_elem_of_singleton|by intros ?%HP]. }
  destruct (rq_Body r) as [raw|e]; [|apply Hone; intros a (? & ? & ? & ? & _); done].
  destruct (unmarshal_frame raw) as [f|e] eqn:Ef; [|apply Hone; intros a (? & ? & ? & [= <-] & ? & _); congruence].
  assert (Hf : forall raw' f', Ok raw = Ok (E := string) raw' -> unmarshal_frame raw' = Ok f' -> f' = f) by (intros raw' f' [= <-] E; congruence).
  destruct (String.eqb_spec (fw_ActionID f) ""); [apply Hone; intros a (? & ? & ? & Hx & Hy & ? & _); by rewrite (Hf _ _ Hx Hy) in *|].
  destruct (co_Actions o !! fw_ActionID f) as [spec|] eqn:Es; [|apply Hone; intros a (? & ? & ? & Hx & Hy & _ & Hz & _); rewrite (Hf _ _ Hx Hy) in *; congruence].
  destruct (fw_Async f) eqn:Ea; [apply Hone; intros a (? & ? & ? & Hx & Hy & _ & _ & Hz & _); rewrite (Hf _ _ Hx Hy) in *; congruence|].
  destruct (mem_string (fw_Priority f) ["";"low";"normal";"high"]) eqn:Ep; cbn [negb].
  2:{ apply mem_string_false in Ep. apply Hone. intros a (? & ? & ? & Hx & Hy & _ & _ & _ & Hz & _). by rewrite (Hf _ _ Hx Hy) in *. }
  apply mem_string_true in Ep. unfold run_action. fold (invoke_context o r f spec).
  assert (Hlast : exists st h b, cp_Execute provider (toActionFrame unmarshal_any f) (invoke_context o r f spec) = cp_Execute provider (toActionFrame unmarshal_any f) (invoke_context o r f spec) /\
    run_action unmarshal_any raw_json provider o expired r f spec = [CExecute (toActionFrame unmarshal_any f) (invoke_context o r f spec); CRespond st h b]).
  { unfold run_action. fold (invoke_context o r f spec). destruct (cp_Execute provider _ _); [|destruct expired]; by eexists _, _, _. }
  destruct Hlast as (st & h & b & _ & E). unfold run_action in E. fold (invoke_context o r f spec) in E. rewrite E. split_and!; [done| |].
  - intros a [->| ->%list_elem_of_singleton]%elem_of_cons; done.
  - intros a Ha. rewrite elem_of_cons, list_elem_of_singleton. split.
    + intros [->| ->]; [|done]. exists raw, f, spec. auto 10.
    + intros (raw' & f' & spec' & Hx & Hy & _ & Hz & _ & _ & ->). left. rewrite (Hf _ _ Hx Hy) in *. congruence.
Qed.
(** The questions and requests that answering [r] takes, and the action that it runs. *)
Definition answering (provider : IComplexNodeProvider S) (o : ComplexNodeOptions) (r : request) (a : cx_act) : Prop :=
  exists raw d depth, query_passes o r raw d depth /\
    (a = CQuery (queryFrameFromJSON d (cx_memory_options o)) \/
     0 < depth /\ (exists res, cp_Query provider (queryFrameFromJSON d (cx_memory_options o)) o = Ok res) /\ to_child o r raw depth (parseTrace r) a).

Definition running (o : ComplexNodeOptions) (r : request) (a : cx_act) : Prop :=
  exists f spec, invoke_passes o r f spec /\ a = CExecute (toActionFrame unmarshal_any f) (invoke_context o r f spec).

Definition served (provider : IComplexNodeProvider S) (o : ComplexNodeOptions) (r : request) (acts : list cx_act) : Prop :=
  cx_responses acts = 1%nat /\ (forall a, outward a = true -> a ∈ acts <-> answering provider o r a) /\ (forall a, executes a = true -> a ∈ acts <-> running o r a).

Lemma served_one provider o r st h b : ~ query_route o r -> (forall f spec, ~ invoke_passes o r f spec) -> served provider o r [CRespond st h b].
Proof.
  intros HQ HI. split_and!; [done| |]; intros x Hx; (split; [by intros ->%list_elem_of_singleton|]).
  - intros (? & ? & ? & (Hq & _) & _). by destruct (HQ Hq).
  - intros (f & spec & Hi & _). by destruct (HI f spec Hi).
Qed.

Lemma serve_acts http_Do (provider : IComplexNodeProvider S) o expired r : served provider o r (serve http_Do provider o expired r).
Proof.
  unfold cx_ServeHTTP. destruct (cut_prefix (cx_prefix o) (rq_Path r)) as [sub|] eqn:Esub.
  2:{ apply served_one; [intros (? & ? & _); congruence|intros f spec (? & ? & ? & _); congruence]. }
  destruct (co_RequireAuth o && String.eqb (rq_Header r HeaderAgent) "") eqn:Ea.
  { apply andb_true_iff in Ea as [Ea1 Ea2%String.eqb_eq].
    apply served_one; [by intros (? & _ & Hau & _); destruct (Hau Ea1)|by intros f spec (? & ? & _ & Hau & _); destruct (Hau Ea1)]. }
  assert (Hauth : co_RequireAuth o = true -> rq_Header r HeaderAgent <> "") by (intros E; rewrite E in Ea; by apply String.eqb_neq in Ea).
  assert (Hnq : sub ∉ ["/query"; "/query/"] -> ~ query_route o r) by (intros Hn (s & E & _ & [-> | ->] & _); set_solver).
  assert (Hni : sub ∉ ["/invoke"; "/invoke/"] -> forall f spec, ~ invoke_passes o r f spec) by (intros Hn f spec (s & raw & E & _ & [-> | ->] & _); set_solver).
  assert (Hstatic : forall l, mem_string sub l = true -> "/query" ∉ l -> "/query/" ∉ l -> "/invoke" ∉ l -> "/invoke/" ∉ l -> forall st h b, served provider o r [CRespond st h b]).
  { intros l Hl%mem_string_true ? ? ? ?. intros. apply served_one; [apply Hnq; set_solver|apply Hni; set_solver]. }
  destruct (mem_string sub ["/.nwm"; "/.nwm/"]) eqn:E1; [eapply Hstatic; [exact E1|set_solver..]|].
  destruct (mem_string sub ["/.schema"; "/.schema/"]) eqn:E2; [eapply Hstatic; [exact E2|set_solver..]|].
  destruct (mem_string sub ["/actions"; "/actions/"]) eqn:E3; [eapply Hstatic; [exact E3|set_solver..]|].
  destruct (mem_string sub ["/query"; "/query/"]) eqn:E4.
  { apply mem_string_true in E4. assert (Hi : forall f spec, ~ invoke_passes o r f spec) by (apply Hni; set_solver).
    destruct (String.eqb_spec (rq_Method r) "POST") as [Ep|Ep]; [|apply served_one; [by intros (? & _ & _ & _ & ?)|done]].
    destruct (handleQuery_spec http_Do provider o r) as (H1 & H2 & H3). split_and!; [done| |].
    - intros a Ha. rewrite (H3 a Ha). unfold answering, query_passes.
      assert (query_route o r) by (exists sub; split_and!; [done|done|set_solver|done]). naive_solver.
    - intros a Ha. split; [intros Hin; apply H2 in Hin; congruence|]. intros (f & spec & Hx & _). by destruct (Hi f spec Hx). }
  assert (Hq : ~ query_route o r) by (apply Hnq; by apply mem_string_false).
  destruct (mem_string sub ["/invoke"; "/invoke/"]) eqn:E5; [|apply served_one; [done|apply Hni; by apply mem_string_false]].
  apply mem_string_true in E5. destruct (String.eqb_spec (rq_Method r) "POST") as [Ep|Ep]; [|apply served_one; [done|by intros f spec (? & ? & _ & _ & _ & ? & _)]].
  destruct (handleInvoke_spec provider o expired r) as (H1 & H2 & H3). split_and!; [done| |].
  - intros a Ha. split; [intros Hin; apply H2 in Hin; congruence|]. by intros (? & ? & ? & (? & _) & _).
  - intros a Ha. rewrite (H3 a Ha). unfold running, invoke_passes. split.
    + intros (raw & f & spec & Hb & Hu & Hid & Hs & Has & Hp & ->). exists f, spec. split; [|done]. exists sub, raw. split_and!; try done; set_solver.
    + intros (f & spec & (s & raw & _ & _ & _ & _ & Hb & Hu & Hid & Hs & Has & Hp) & ->). exists raw, f, spec. split_and!; try done; set_solver.
Qed.
(** Admission at a complex node.  Every request is answered once.  The provider is
    asked a query exactly for a POST to the query path that names its agent where that
    is required and holds a JSON document, with a depth within the node's and no trace
    of the node itself; and it runs an action exactly for an invocation of a registered
    action, not asynchronous and of a known priority, with the time limit clamped. *)
Theorem complex_admission http_Do (provider : IComplexNodeProvider S) o expired r :
  let acts := serve http_Do provider o expired r in
  cx_responses acts = 1%nat /\
  (forall f, CQuery f ∈ acts <-> exists raw d depth, query_passes o r raw d depth /\ f = queryFrameFromJSON d (cx_memory_options o)) /\
  (forall f ac, CExecute f ac ∈ acts <-> exists w spec, invoke_passes o r w spec /\ f = toActionFrame unmarshal_any w /\ ac = invoke_context o r w spec).
Proof.
  cbv zeta. destruct (serve_acts http_Do provider o expired r) as (H1 & H2 & H3). split_and!; [done| |].
  - intros f. rewrite H2 by done. unfold answering, to_child. split.
    + intros (raw & d & depth & Hq & [[= ->]|(_ & _ & g & _ & _ & _ & ?)]); [by exists raw, d, depth|done].
    + intros (raw & d & depth & Hq & ->). exists raw, d, depth. auto.
  - intros f ac. rewrite H3 by done. unfold running. split; [intros (w & spec & ? & [= -> ->])|intros (w & spec & ? & -> & ->)]; eauto.
Qed.

Lemma parseDepth_ok o r depth : cx_parseDepth o r = Ok depth -> 0 <= depth <= graphMaxDepth o \/ depth = 0.
Proof.
  unfold cx_parseDepth. destruct (String.eqb _ ""); [intros [= <-]; by right|]. destruct (ParseUint _) as [d|] eqn:E; [|done].
  apply NcpHandshake.ParseUint_range in E. destruct (2 ^ 32 <=? d); [done|]. destruct (Z.ltb_spec (graphMaxDepth o) d); [done|].
  destruct (AbsoluteMaxDepth <? d); [done|]. intros [= <-]. left. lia.
Qed.

Lemma parseDepth_absolute o r depth : cx_parseDepth o r = Ok depth -> 0 <= depth <= AbsoluteMaxDepth.
Proof.
  unfold cx_parseDepth, AbsoluteMaxDepth. destruct (String.eqb _ ""); [intros [= <-]; lia|]. destruct (ParseUint _) as [d|] eqn:E; [|done].
  apply NcpHandshake.ParseUint_range in E. destruct (2 ^ 32 <=? d); [done|]. destruct (graphMaxDepth o <? d); [done|].
  destruct (Z.ltb_spec 5 d); [done|]. intros [= <-]. lia.
Qed.

Lemma fetch_headers_lookup r depth trace :
  lookup_header (fetch_headers r depth trace) HeaderDepth = FormatUint depth /\ lookup_header (fetch_headers r depth trace) HeaderTrace = join "," trace /\
  lookup_header (fetch_headers r depth trace) HeaderAgent = rq_Header r HeaderAgent /\ lookup_header (fetch_headers r depth trace) HeaderBudget = rq_Header r HeaderBudget.
Proof.
  unfold fetch_headers, lookup_header. split_and!; [done|done| |].
  - cbn -[HeaderAgent]. destruct (String.eqb_spec (rq_Header r HeaderAgent) "") as [E|E]; [|done].
    cbn. destruct (String.eqb (rq_Header r HeaderBudget) ""); cbn; by rewrite E.
  - cbn -[HeaderAgent HeaderBudget]. destruct (String.eqb (rq_Header r HeaderAgent) ""), (String.eqb_spec (rq_Header r HeaderBudget) "") as [E|E]; cbn; by rewrite ?E.
Qed.

(** Requests to children.  A node only sends the query it was sent, to a child it
    declares whose URL is absolute, within the allowed prefixes if there are any, by
    https unless http is allowed and, unless that is switched off, not to a private
    host; with a depth one lower, its own id at the end of a trace where it was not yet,
    and the agent and the budget as they were. *)
Theorem child_requests_guarded http_Do (provider : IComplexNodeProvider S) o expired r url headers body timeout
    (Hsent : CFetch url headers body timeout ∈ serve http_Do provider o expired r) :
  rq_Body r = Ok body /\ timeout = childFetchTimeout o /\ co_NodeID o ∉ parseTrace r /\
  (exists depth, cx_parseDepth o r = Ok depth /\ 0 < depth <= 5 /\ depth <= graphMaxDepth o /\ lookup_header headers HeaderDepth = FormatUint (depth - 1)) /\
  lookup_header headers HeaderTrace = join "," (parseTrace r ++ [co_NodeID o]) /\
  lookup_header headers HeaderAgent = rq_Header r HeaderAgent /\ lookup_header headers HeaderBudget = rq_Header r HeaderBudget /\
  exists g u, g ∈ Graph o /\ url = trim_slashes (NodeURL g) +:+ "/query" /\ url_Parse (NodeURL g) = Some u /\ Host u <> "" /\
    (EqualFold (Scheme u) "https" = true \/ AllowHTTPChildURLs o = true /\ EqualFold (Scheme u) "http" = true) /\
    (rejectPrivateChildren o = true -> isPrivateHost parseIPv6 (Hostname u) = false) /\
    (AllowedChildURLPrefixes o <> [] -> exists p, p ∈ AllowedChildURLPrefixes o /\ has_prefix (strings_ToLower p) (strings_ToLower (NodeURL g)) = true).
Proof.
  destruct (serve_acts http_Do provider o expired r) as (_ & H2 & _). apply H2 in Hsent as (raw & d & depth & (Hroute & Hb & _ & Hdepth & Htr) & [|(Hpos & _ & g & Hg & Hv & _ & Hact)]); [done| |done].
  injection Hact as -> -> -> ->. destruct (fetch_headers_lookup r (depth - 1) (parseTrace r ++ [co_NodeID o])) as (L1 & L2 & L3 & L4).
  pose proof (parseDepth_absolute o r depth Hdepth) as Hd. unfold AbsoluteMaxDepth in Hd. pose proof (parseDepth_ok o r depth Hdepth) as Hd'.
  split_and!; [done|done|done|exists depth; split_and!; [done|lia|lia|lia|done]|done|done|done|]. exists g.
  unfold ValidateComplexChildURL, parseAbsURL in Hv. destruct (String.eqb (trim_space (NodeURL g)) ""); [done|].
  destruct (url_Parse (NodeURL g)) as [u|]; [|done]. exists u. destruct (String.eqb_spec (Scheme u) ""), (String.eqb_spec (Host u) ""); cbn [orb] in Hv; try done.
  destruct (negb (EqualFold (Scheme u) "https") && _) eqn:E1 in Hv; [done|]. destruct (negb (bool_decide _) && _) eqn:E2 in Hv; [done|].
  destruct (rejectPrivateChildren o && _) eqn:E3 in Hv; [done|]. split_and!; [done|done|done|done| | |].
  - apply andb_false_iff in E1 as [E1|E1]; apply negb_false_iff in E1; [by left|right; by apply andb_true_iff].
  - intros Er. by rewrite Er in E3.
  - intros Hne. rewrite bool_decide_false in E2 by done. cbn [negb andb] in E2. apply negb_false_iff, existsb_exists in E2 as (p & Hp & Hpre).
    exists p. split; [by apply list_elem_of_In|done].
Qed.
(** *** Networks *)

Lemma parseTrace_clean r : Forall clean_hop (parseTrace r).
Proof. exact (parse_clean (rq_Header r HeaderTrace)). Qed.

Lemma clean_nonempty h : clean_hop h -> h <> "".
Proof. by intros (? & _). Qed.

Lemma parseTrace_join r l : Forall clean_hop l -> rq_Header r HeaderTrace = join "," l -> parseTrace r = l.
Proof.
  intros Hc E. unfold parseTrace. rewrite E. destruct l as [|h l]; [done|].
  destruct (String.eqb_spec (join "," (h :: l)) "") as [E'|_].
  { exfalso. apply Forall_cons in Hc as [(Hne & _) _]. destruct h; [done|]. by destruct l. }
  change "," with (String (chr 44) ""). rewrite split_on_join; [|done|by eapply Forall_impl; [exact Hc|]; intros x (_ & ? & _)].
  assert ((trim_space <$> h :: l) = h :: l) as ->.
  { rewrite <- (list_fmap_id (h :: l)) at 2. apply list_fmap_ext. intros i x Hx. by apply (Forall_lookup_1 _ _ _ _ Hc) in Hx as (_ & _ & ->). }
  apply filter_all_in. eapply Forall_impl; [exact Hc|]. intros x (Hx & _). by apply negb_true_iff, String.eqb_neq.
Qed.

Section Network.
Context (net : string -> option (IComplexNodeProvider S * ComplexNodeOptions)) (url_path : string -> string).

(** The request that arrives at the node with the URL. *)
Definition child_request (url : string) (headers : list (string * string)) (body : list byte) : request :=
  MkRequest (url_path url) "POST" (lookup_header headers) (Ok body).

(** A chain of requests: each node, reached by the request before, sends the next. *)
Inductive chain : string -> request -> list ComplexNodeOptions -> Prop :=
| chain_end url r : chain url r []
| chain_node url r provider o http_Do expired url' headers body timeout os :
    net url = Some (provider, o) -> CFetch url' headers body timeout ∈ serve http_Do provider o expired r ->
    chain url' (child_request url' headers body) os -> chain url r (o :: os).

Definition asked_depth (r : request) : Z := default 0 (ParseUint (rq_Header r HeaderDepth)).

Lemma parseDepth_asked o r depth : cx_parseDepth o r = Ok depth -> depth = asked_depth r.
Proof.
  unfold cx_parseDepth, asked_depth. destruct (String.eqb_spec (rq_Header r HeaderDepth) "") as [->|]; [by intros [= <-]|].
  destruct (ParseUint _) as [d|]; [|done]. repeat (destruct (_ : bool); [done|]). by intros [= <-].
Qed.

Lemma sent_child http_Do (provider : IComplexNodeProvider S) o expired r url headers body timeout :
  CFetch url headers body timeout ∈ serve http_Do provider o expired r ->
  co_NodeID o ∉ parseTrace r /\ 0 < asked_depth r <= 5 /\ lookup_header headers HeaderDepth = FormatUint (asked_depth r - 1) /\
  lookup_header headers HeaderTrace = join "," (parseTrace r ++ [co_NodeID o]).
Proof.
  intros Hsent. destruct (serve_acts http_Do provider o expired r) as (_ & H2 & _).
  apply H2 in Hsent as (raw & d & depth & (_ & _ & _ & Hdepth & Htr) & [|(Hpos & _ & g & _ & _ & _ & Hact)]); [done| |done].
  injection Hact as -> -> -> ->. destruct (fetch_headers_lookup r (depth - 1) (parseTrace r ++ [co_NodeID o])) as (L1 & L2 & _).
  pose proof (parseDepth_absolute o r depth Hdepth) as Hd. unfold AbsoluteMaxDepth in Hd. rewrite <- (parseDepth_asked _ _ _ Hdepth). split_and!; [done|lia|lia|done|done].
Qed.

Lemma asked_child url headers body d : lookup_header headers HeaderDepth = FormatUint d -> 0 <= d < 2 ^ 64 -> asked_depth (child_request url headers body) = d.
Proof. intros E Hd. unfold asked_depth. cbn [child_request rq_Header]. rewrite E, ParseUint_FormatUint by done. done. Qed.

(** Paths through a network.  Where nodes have ids that survive a header (not empty,
    without comma or outer space), a path of requests from node to node never meets an
    id twice, nor one that the first trace names, and is no longer than the depth asked
    for; in any case it is no longer than that, which is at most 5 where any request is
    sent. *)
Theorem network_paths url r os (Hchain : chain url r os) :
  (length os <= Z.to_nat (asked_depth r))%nat /\ (os <> [] -> asked_depth r <= 5) /\
  (Forall (fun o => clean_hop (co_NodeID o)) os -> NoDup (parseTrace r) -> NoDup (parseTrace r ++ (co_NodeID <$> os))).
Proof.
  induction Hchain as [url r|url r provider o http_Do expired url' headers body timeout os Hnet Hsent _ (IH1 & _ & IH2)].
  { split_and!; [simpl; lia|done|]. intros _ Hnd. csimpl. by rewrite app_nil_r. }
  apply sent_child in Hsent as (Htr & Hd & Hdepth & Htrace).
  rewrite (asked_child _ _ _ (asked_depth r - 1)) in IH1 by (done || lia). split_and!; [simpl; lia|lia|].
  intros [Ho Hos]%Forall_cons Hnd. specialize (IH2 Hos).
  rewrite (parseTrace_join _ (parseTrace r ++ [co_NodeID o])) in IH2; [|apply Forall_app; split; [apply parseTrace_clean|by constructor]|done].
  rewrite <- app_assoc in IH2. apply IH2. apply NoDup_app. split_and!; [done| |apply NoDup_singleton]. by intros x Hx ->%list_elem_of_singleton.
Qed.
(** The answer of the network to a request; the units bound the nodes on a path. *)
Definition net_response (acts : list cx_act) : result fetch_error (Z * list byte) :=
  match List.find (fun a => match a with CRespond _ _ _ => true | _ => false end) acts with
  | Some (CRespond st _ b) => Ok (st, match b with JsonBody d => marshal_or_nil d | RawBody b => b | _ => [] end)
  | _ => Err (MkFetchError "EOF" false)
  end.

Fixpoint net_Do (fuel : nat) (url : string) (headers : list (string * string)) (body : list byte) : result fetch_error (Z * list byte) :=
  match fuel with
  | O => Err (MkFetchError "too many requests" true)
  | Datatypes.S f =>
      match net url with
      | None => Err (MkFetchError "no such host" false)
      | Some (provider, o) => net_response (serve (net_Do f) provider o false (child_request url headers body))
      end
  end.

Abbreviation client := (string -> list (string * string) -> list byte -> result fetch_error (Z * list byte)).

Lemma fetchChild_ext (do1 do2 : client) o r g raw depth trace :
  (forall u h b t, CFetch u h b t ∈ (fetchChild raw_json url_Parse parseIPv6 strings_ToLower NewRequest do1 o r g raw depth trace).1 -> do1 u h b = do2 u h b) ->
  fetchChild raw_json url_Parse parseIPv6 strings_ToLower NewRequest do1 o r g raw depth trace = fetchChild raw_json url_Parse parseIPv6 strings_ToLower NewRequest do2 o r g raw depth trace.
Proof.
  unfold fetchChild. destruct (negb _); [done|]. destruct (NewRequest _); [done|]. cbn [fst]. intros Hd. by rewrite (Hd _ _ _ (childFetchTimeout o)) by (by left).
Qed.

Lemma fetchChildren_ext (do1 do2 : client) o r raw depth trace :
  (forall u h b t, CFetch u h b t ∈ (fetchChildren raw_json url_Parse parseIPv6 strings_ToLower NewRequest do1 o r raw depth trace).1 -> do1 u h b = do2 u h b) ->
  fetchChildren raw_json url_Parse parseIPv6 strings_ToLower NewRequest do1 o r raw depth trace = fetchChildren raw_json url_Parse parseIPv6 strings_ToLower NewRequest do2 o r raw depth trace.
Proof.
  unfold fetchChildren. cbn [fst]. intros Hd.
  assert (E : forall l : list ComplexGraphRef, (forall g, g ∈ l -> g ∈ Graph o) ->
    map (fun g => fetchChild raw_json url_Parse parseIPv6 strings_ToLower NewRequest do1 o r g raw depth trace) l =
    map (fun g => fetchChild raw_json url_Parse parseIPv6 strings_ToLower NewRequest do2 o r g raw depth trace) l).
  { intros l Hl. apply map_ext_in. intros g Hg%list_elem_of_In. apply fetchChild_ext. intros u h b t Hin. apply (Hd u h b t). apply list_elem_of_join. eexists. split; [exact Hin|].
    apply list_elem_of_fmap. eexists. split; [reflexivity|]. apply list_elem_of_fmap. exists g. split; [done|]. by apply Hl. }
  specialize (E (Graph o) (fun g Hg => Hg)). change (@map ComplexGraphRef (list cx_act * dict)) with (@fmap list _ ComplexGraphRef (list cx_act * dict)) in E. by rewrite E.
Qed.

Lemma serve_ext (do1 do2 : client) (provider : IComplexNodeProvider S) o r :
  (forall u h b t, CFetch u h b t ∈ serve do1 provider o false r -> do1 u h b = do2 u h b) -> serve do1 provider o false r = serve do2 provider o false r.
Proof.
  unfold cx_ServeHTTP. destruct (cut_prefix _ _) as [sub|]; [|done]. destruct (co_RequireAuth o && _); [done|]. do 3 (destruct (mem_string sub _); [done|]).
  destruct (mem_string sub _); [|done]. destruct (String.eqb _ "POST"); [|done]. unfold cx_handleQuery. destruct (rq_Body r) as [raw|]; [|done].
  destruct (unmarshal_map raw) as [d|]; [|done]. destruct (cx_parseDepth o r) as [depth|]; [|done]. destruct (mem_string _ _); [done|]. unfold answer_query.
  destruct (cp_Query provider _ o) as [local|]; [|done]. destruct ((0 <? depth) && _); [|done]. intros Hd.
  rewrite (fetchChildren_ext do1 do2); [done|]. intros u h b t Hin. apply (Hd u h b t).
  destruct (fetchChildren _ _ _ _ _ do1 _ _ _ _ _) as [acts l]. cbn [fst] in Hin. set_solver.
Qed.

(** C19. Networks answer.  Whatever cycles the declarations of the nodes form, answering
    a request takes requests of bounded nesting: one more unit than the depth asked for
    is enough, more change nothing, and 6 are enough for every request. *)
Theorem network_terminates url headers body n :
  ((Z.to_nat (asked_depth (child_request url headers body)) < n)%nat ->
     net_Do n url headers body = net_Do (Datatypes.S (Z.to_nat (asked_depth (child_request url headers body)))) url headers body) /\
  ((6 <= n)%nat -> net_Do n url headers body = net_Do 6 url headers body).
Proof.
  assert (Hfuel : forall n m url headers body, (forall k, (k = n \/ k = m) -> (Z.to_nat (asked_depth (child_request url headers body)) < k \/ 6 <= k)%nat) ->
            net_Do n url headers body = net_Do m url headers body).
  { intros k. induction k as [|k IH]; intros m url' headers' body' Hk.
    - destruct (Hk 0%nat); [by left|lia|lia].
    - destruct m as [|m]; [destruct (Hk 0%nat); [by right|lia|lia]|]. cbn [net_Do]. destruct (net url') as [[provider o]|]; [|done].
      f_equal. apply serve_ext. intros u h b t Hin. apply sent_child in Hin as (_ & Hd & Hdepth & _).
      apply IH. rewrite (asked_child _ _ _ (asked_depth (child_request url' headers' body') - 1)) by (done || lia).
      intros j [-> | ->]; left; [destruct (Hk (Datatypes.S k))|destruct (Hk (Datatypes.S m))]; auto; lia. }
  split; intros Hn; apply Hfuel; intros k [-> | ->]; auto; left; lia.
Qed.
End Network.
End Node.

(** ** Concrete inputs *)

Definition toy_json : GoJSON := {| json_Marshal := fun _ => Ok []; json_Unmarshal := fun _ => Ok [] |}.
Definition toy_complex (id : string) (children : list string) : ComplexNodeOptions :=
  MkComplexOptions id "" "" None ∅ ((fun c => MkGraphRef c ("https://" +:+ c)) <$> children) 0 [] None false false 0 0 0 0 0.
(** Two nodes that declare each other. *)
Definition toy_net (url : string) : option (IComplexNodeProvider unit * ComplexNodeOptions) :=
  if String.eqb url "https://a/query" then Some (NullComplexNodeProvider, toy_complex "a" ["b"])
  else if String.eqb url "https://b/query" then Some (NullComplexNodeProvider, toy_complex "b" ["a"]) else None.
Definition toy_ask : request := MkRequest "/query" "POST" (fun h => if String.eqb h HeaderDepth then "2" else "") (Ok []).
Definition toy_serve (id : string) (children : list string) (r : request) : list cx_act :=
  @cx_ServeHTTP toy_json unit (fun _ => Some []) (fun _ => None) (fun _ => Err "") (fun _ => Err "") (fun _ => []) (fun _ => "") (fun _ => Some (MkURL "https" "h" "h"))
    (fun _ => None) (fun s => s) (fun _ => None) (fun _ _ _ => Err (MkFetchError "" false)) NullComplexNodeProvider (toy_complex id children) false r.
Definition toy_sent (r : request) (trace : list string) (depth : Z) (to : string) : cx_act :=
  CFetch ("https://" +:+ to +:+ "/query") (fetch_headers r depth trace) [] (10 * second).
Definition toy_child (to : string) (trace : list string) (depth : Z) (r : request) : request :=
  child_request (fun _ => "/query") ("https://" +:+ to +:+ "/query") (fetch_headers r depth trace) [].

Lemma toy_first : toy_sent toy_ask ["a"] 1 "b" ∈ toy_serve "a" ["b"] toy_ask.
Proof. apply (list_elem_of_lookup_2 _ 1). vm_compute. reflexivity. Qed.
Lemma toy_second : toy_sent (toy_child "b" ["a"] 1 toy_ask) ["a"; "b"] 0 "a" ∈ toy_serve "b" ["a"] (toy_child "b" ["a"] 1 toy_ask).
Proof. apply (list_elem_of_lookup_2 _ 1). vm_compute. reflexivity. Qed.

Lemma child_requests_guarded_witness :
  lookup_header (fetch_headers toy_ask 1 ["a"]) HeaderTrace = "a" /\ "a" ∉ parseTrace toy_ask.
Proof.
  destruct (@child_requests_guarded toy_json unit (fun _ => Some []) (fun _ => None) (fun _ => Err "") (fun _ => Err "") (fun _ => []) (fun _ => "")
    (fun _ => Some (MkURL "https" "h" "h")) (fun _ => None) (fun s => s) (fun _ => None) (fun _ _ _ => Err (MkFetchError "" false)) NullComplexNodeProvider (toy_complex "a" ["b"]) false
    toy_ask _ _ _ _ toy_first) as (_ & _ & Hn & _ & Ht & _).
  split; [exact Ht|exact Hn].
Defined.

Lemma network_paths_witness : asked_depth toy_ask = 2 /\ NoDup ["a"; "b"] /\ (length [toy_complex "a" ["b"]; toy_complex "b" ["a"]] <= 2)%nat.
Proof.
  assert (Hc : @chain toy_json unit (fun _ => Some []) (fun _ => None) (fun _ => Err "") (fun _ => Err "") (fun _ => []) (fun _ => "") (fun _ => Some (MkURL "https" "h" "h"))
    (fun _ => None) (fun s => s) (fun _ => None) toy_net (fun _ => "/query") "https://a/query" toy_ask [toy_complex "a" ["b"]; toy_complex "b" ["a"]]).
  { eapply (chain_node) with (expired := false); [reflexivity|exact toy_first|]. eapply (chain_node) with (expired := false); [reflexivity|exact toy_second|]. apply chain_end. }
  split; [vm_compute; reflexivity|].
  destruct (@network_paths _ _ _ _ _ _ _ _ _ _ _ _ _ _ _ _ _ Hc) as (H1 & _ & H3). split; [|exact H1].
  refine (H3 _ _); [repeat constructor; vm_compute; discriminate|constructor].
Defined.
