(* ===== verification/NipDer.v ===== *)
(** * DER values, as encoding/asn1 reads them

    [readTLV] of nip/phase3.go calls asn1.Unmarshal on an asn1.RawValue; this is
    that reader of the Go standard library (tags up to 31 bits in minimal form,
    definite lengths in minimal form below 2^31), the encoder of its inverse, and
    their round trip. *)

From S2P Require Import Prelude.

Record RawValue : Type := MkRaw { Class : Z; Tag : Z; IsCompound : bool; Bytes : list byte }.

Definition ClassUniversal : Z := 0.
Definition ClassContextSpecific : Z := 2.
Definition TagOctetString : Z := 4.
Definition TagUTF8String : Z := 12.
Definition TagSequence : Z := 16.
Definition TagGeneralizedTime : Z := 24.

(** ** Reading *)

Fixpoint parseBase128Int (shifted : nat) (ret : Z) (l : list byte) : option (Z * list byte) :=
  match l with
  | [] => None
  | b :: r =>
      if (shifted =? 5)%nat then None
      else if (shifted =? 0)%nat && (byte_z b =? 0x80) then None
      else
        let ret := Z.lor (Z.shiftl ret 7) (Z.land (byte_z b) 0x7f) in
        if Z.land (byte_z b) 0x80 =? 0 then if 2 ^ 31 - 1 <? ret then None else Some (ret, r)
        else parseBase128Int (S shifted) ret r
  end.

(** The [n] bytes of a long length. *)
Fixpoint length_bytes (n : nat) (len : Z) (l : list byte) : option (Z * list byte) :=
  match n with
  | O => Some (len, l)
  | S n =>
      match l with
      | [] => None
      | b :: r =>
          if Z.shiftl 1 23 <=? len then None
          else
            let len := Z.lor (Z.shiftl len 8) (byte_z b) in
            if len =? 0 then None else length_bytes n len r
      end
  end.

Definition parse_length (l : list byte) : option (Z * list byte) :=
  match l with
  | [] => None
  | b :: r =>
      if Z.land (byte_z b) 0x80 =? 0 then Some (Z.land (byte_z b) 0x7f, r)
      else
        let numBytes := Z.land (byte_z b) 0x7f in
        if numBytes =? 0 then None
        else match length_bytes (Z.to_nat numBytes) 0 r with
             | Some (len, r) => if len <? 0x80 then None else Some (len, r)
             | None => None
             end
  end.

Definition parse_tag (b : byte) (r : list byte) : option (Z * list byte) :=
  let tag := Z.land (byte_z b) 0x1f in
  if tag =? 0x1f then
    match parseBase128Int 0 0 r with
    | Some (tag, r) => if tag <? 0x1f then None else Some (tag, r)
    | None => None
    end
  else Some (tag, r).

(** The value at the front and the rest; [None] is an error. *)
Definition readTLV (l : list byte) : option (RawValue * list byte) :=
  match l with
  | [] => None
  | b :: r =>
      match parse_tag b r with
      | None => None
      | Some (tag, r) =>
          match parse_length r with
          | None => None
          | Some (len, r) =>
              if Z.of_nat (length r) <? len then None
              else Some (MkRaw (Z.shiftr (byte_z b) 6) tag (Z.land (byte_z b) 0x20 =? 0x20) (take (Z.to_nat len) r),
                         drop (Z.to_nat len) r)
          end
      end
  end.

(** ** Writing *)

Definition der_length (n : Z) : list byte :=
  if n <? 0x80 then [z_byte n]
  else let k := if n <? 2 ^ 8 then 1%nat else if n <? 2 ^ 16 then 2%nat else if n <? 2 ^ 24 then 3%nat else 4%nat in
       z_byte (0x80 + Z.of_nat k) :: put_be k n.

Definition writeTLV (v : RawValue) : list byte :=
  z_byte (Class v * 64 + (if IsCompound v then 32 else 0) + Tag v)
  :: der_length (Z.of_nat (length (Bytes v))) ++ Bytes v.

(** Values with a tag in the first byte and a length that the reader accepts. *)
Definition raw_ok (v : RawValue) : Prop :=
  0 <= Class v < 4 /\ 0 <= Tag v < 31 /\ Z.of_nat (length (Bytes v)) < 2 ^ 31.

(** ** Bits of a byte *)

Lemma byte_high b : (Z.land (byte_z b) 0x80 =? 0) = (byte_z b <? 128).
Proof. by destruct b. Qed.
Lemma byte_low b : Z.land (byte_z b) 0x7f = byte_z b mod 128.
Proof. by destruct b. Qed.
Lemma byte_tag b : Z.land (byte_z b) 0x1f = byte_z b mod 32.
Proof. by destruct b. Qed.
Lemma byte_compound b : (Z.land (byte_z b) 0x20 =? 0x20) = (byte_z b / 32 mod 2 =? 1).
Proof. by destruct b. Qed.
Lemma byte_class b : Z.shiftr (byte_z b) 6 = byte_z b / 64.
Proof. by destruct b. Qed.

Lemma z_byte_small z : 0 <= z < 256 -> byte_z (z_byte z) = z.
Proof. intros. rewrite byte_z_z_byte. by apply wrapu_small. Qed.

Lemma lor_shift8 n b : 0 <= n -> Z.lor (Z.shiftl n 8) (byte_z b) = n * 256 + byte_z b.
Proof.
  intros Hn. pose proof (byte_z_range b). rewrite Z.shiftl_mul_pow2 by lia.
  rewrite <- Z.add_nocarry_lor; [by change (2 ^ 8) with 256|].
  apply Z.bits_inj'. intros i Hi. rewrite Z.land_spec, Z.bits_0. destruct (Z.ltb_spec i 8).
  - by rewrite Z.mul_pow2_bits_low.
  - rewrite (Z.bits_above_log2 (byte_z b)), andb_false_r; [done|lia|].
    destruct (Z.eq_dec (byte_z b) 0) as [->|]; [simpl; lia|]. apply Z.log2_lt_pow2; [lia|].
    assert (2 ^ 8 <= 2 ^ i) by (apply Z.pow_le_mono_r; lia). lia.
Qed.

Lemma get_be_cons b l : get_be (b :: l) = byte_z b * 256 ^ Z.of_nat (length l) + get_be l.
Proof.
  induction l as [|x l IH] using rev_ind; [unfold get_be; simpl; lia|].
  rewrite app_comm_cons, !get_be_snoc, IH, length_app. simpl length.
  replace (Z.of_nat (length l + 1)) with (Z.succ (Z.of_nat (length l))) by lia.
  rewrite Z.pow_succ_r by lia. lia.
Qed.

(** ** Round trip *)

Lemma length_bytes_spec bs len rest :
  0 <= len -> (0 < len \/ exists b r, bs = b :: r /\ 0 < byte_z b) ->
  len * 256 ^ Z.of_nat (length bs) + get_be bs < 2 ^ 31 ->
  length_bytes (length bs) len (bs ++ rest) = Some (len * 256 ^ Z.of_nat (length bs) + get_be bs, rest).
Proof.
  revert len. induction bs as [|b bs IH]; intros len Hl Hnz Hb; cbn [length_bytes length app].
  { change (256 ^ Z.of_nat 0) with 1. unfold get_be. simpl. do 2 f_equal. lia. }
  pose proof (byte_z_range b). rewrite get_be_cons in *. cbn [length] in *.
  rewrite Nat2Z.inj_succ, Z.pow_succ_r in * by lia.
  set (p := 256 ^ Z.of_nat (length bs)) in *.
  assert (Hp : 0 < p) by (apply Z.pow_pos_nonneg; lia).
  pose proof (get_be_range bs). change (Z.shiftl 1 23) with 8388608.
  rewrite (proj2 (Z.leb_gt _ _)) by nia. rewrite lor_shift8 by done.
  assert (Hpos : 0 < len * 256 + byte_z b) by (destruct Hnz as [|(? & ? & [= <- <-] & ?)]; lia).
  rewrite (proj2 (Z.eqb_neq _ _)) by lia. rewrite IH; [|lia|by left|fold p; nia].
  fold p. do 2 f_equal. lia.
Qed.

Lemma put_be_nz k n : 256 ^ Z.of_nat k <= n < 256 ^ Z.of_nat (S k) -> exists b r, put_be (S k) n = b :: r /\ 0 < byte_z b.
Proof.
  intros Hn. pose proof (get_put_be (S k) n) as Hg. pose proof (length_put_be (S k) n) as Hl.
  destruct (put_be (S k) n) as [|b r]; [done|]. exists b, r. split; [done|].
  rewrite get_be_cons in Hg. cbn [length] in Hl. injection Hl as Hl. rewrite Hl in Hg.
  assert (0 < 256 ^ Z.of_nat k) by (apply Z.pow_pos_nonneg; lia).
  pose proof (get_be_range r) as Hr. rewrite Hl in Hr. pose proof (byte_z_range b). specialize (Hg ltac:(lia)). nia.
Qed.

Lemma parse_length_spec n rest : 0 <= n < 2 ^ 31 -> parse_length (der_length n ++ rest) = Some (n, rest).
Proof.
  intros Hn. unfold der_length. destruct (Z.ltb_spec n 0x80) as [Hs|Hs].
  { simpl. rewrite byte_high, byte_low, z_byte_small by lia.
    rewrite (proj2 (Z.ltb_lt _ _)) by lia. rewrite Z.mod_small by lia. done. }
  cbv zeta. set (k := if n <? 2 ^ 8 then 1%nat else _).
  assert (exists j, k = S j /\ (j < 4)%nat /\ 256 ^ Z.of_nat j <= n < 256 ^ Z.of_nat (S j)) as (j & Hk & Hj & Hr).
  { subst k. destruct (Z.ltb_spec n (2 ^ 8)); [exists 0%nat; simpl; lia|].
    destruct (Z.ltb_spec n (2 ^ 16)); [exists 1%nat; simpl; lia|].
    destruct (Z.ltb_spec n (2 ^ 24)); [exists 2%nat; simpl; lia|exists 3%nat; simpl; lia]. }
  rewrite Hk. cbn [app parse_length]. rewrite byte_high, byte_low, z_byte_small by lia.
  rewrite (proj2 (Z.ltb_ge _ _)) by lia.
  replace ((0x80 + Z.of_nat (S j)) mod 128) with (Z.of_nat (S j))
    by (rewrite <- (Z.mul_1_l 0x80), Z.add_comm, Z.mod_add, Z.mod_small; lia).
  rewrite (proj2 (Z.eqb_neq _ _)) by lia. rewrite Nat2Z.id.
  pose proof (length_bytes_spec (put_be (S j) n) 0 rest) as H. rewrite length_put_be, get_put_be in H by lia.
  rewrite H; [|lia|right; by apply put_be_nz|lia]. rewrite Z.mul_0_l, Z.add_0_l.
  by rewrite (proj2 (Z.ltb_ge _ _)) by lia.
Qed.

(** The reader recovers every value the encoder writes, and what follows it. *)
Lemma read_write v rest : raw_ok v -> readTLV (writeTLV v ++ rest) = Some (v, rest).
Proof.
  destruct v as [c t comp body]. intros (Hc & Ht & Hl). simpl in *. unfold writeTLV, readTLV. cbn [Class Tag IsCompound Bytes app].
  set (z := c * 64 + (if comp then 32 else 0) + t).
  assert (Hz : 0 <= z < 256) by (subst z; destruct comp; lia).
  unfold parse_tag. rewrite byte_tag, byte_compound, byte_class, z_byte_small by done.
  assert (z mod 32 = t) as ->
    by (subst z; destruct comp; [replace (c * 64 + 32 + t) with (t + (2 * c + 1) * 32) by lia|
                                 replace (c * 64 + 0 + t) with (t + (2 * c) * 32) by lia]; rewrite Z.mod_add, Z.mod_small; lia).
  rewrite (proj2 (Z.eqb_neq _ _)) by lia. rewrite <- app_assoc, parse_length_spec by lia.
  rewrite length_app, (proj2 (Z.ltb_ge _ _)) by lia. rewrite Nat2Z.id, take_app_length, drop_app_length.
  do 3 f_equal.
  - subst z. symmetry. apply Z.div_unique with (r := (if comp then 32 else 0) + t); destruct comp; lia.
  - subst z. destruct comp.
    + assert ((c * 64 + 32 + t) / 32 = 2 * c + 1) as -> by (symmetry; apply Z.div_unique with (r := t); lia).
      apply Z.eqb_eq. rewrite Z.add_comm, Z.mul_comm, Z.mod_add; [done|lia].
    + assert ((c * 64 + 0 + t) / 32 = 2 * c) as -> by (symmetry; apply Z.div_unique with (r := t); lia).
      apply Z.eqb_neq. rewrite Z.mul_comm, Z.mod_mul; lia.
Qed.

Lemma read_write_end v : raw_ok v -> readTLV (writeTLV v) = Some (v, []).
Proof. intros H. rewrite <- (app_nil_r (writeTLV v)). by apply read_write. Qed.

(** What the reader returns is a prefix of its input, and it consumes at least two bytes. *)
Lemma read_shrinks l v rest : readTLV l = Some (v, rest) -> (length rest + 2 <= length l)%nat.
Proof.
  destruct l as [|b r]; [done|]. cbn [readTLV].
  assert (H128 : forall l s ret x, parseBase128Int s ret l = Some x -> (length x.2 <= length l)%nat).
  { induction l as [|c l IH]; intros s ret x H; [done|]. cbn [parseBase128Int] in H.
    destruct (s =? 5)%nat; [done|]. destruct (_ && _); [done|]. cbv zeta in H. destruct (_ =? 0).
    - destruct (_ <? _); [done|]. injection H as <-. simpl. lia.
    - apply IH in H. simpl. lia. }
  assert (Hlb : forall n len l x, length_bytes n len l = Some x -> (length x.2 <= length l)%nat).
  { induction n as [|n IH]; intros len l0 x; cbn [length_bytes]; [intros [= <-]; done|].
    destruct l0; [done|]. destruct (_ <=? _); [done|]. cbv zeta. destruct (_ =? 0); [done|].
    intros H%IH. simpl. lia. }
  destruct (parse_tag b r) as [[t r1]|] eqn:Et; [|done].
  assert (length r1 <= length r)%nat.
  { unfold parse_tag in Et. destruct (_ =? 0x1f); [|by injection Et as _ <-].
    destruct (parseBase128Int 0 0 r) as [[t' r']|] eqn:E; [|done]. destruct (_ <? _); [done|]. injection Et as _ <-.
    by apply H128 in E. }
  destruct (parse_length r1) as [[len r2]|] eqn:El; [|done].
  assert (length r2 + 1 <= length r1)%nat.
  { destruct r1 as [|c r1]; [done|]. cbn [parse_length] in El. destruct (_ =? 0); [injection El as _ <-; simpl; lia|].
    cbv zeta in El. destruct (_ =? 0); [done|]. destruct (length_bytes _ _ r1) as [[n' r']|] eqn:E; [|done].
    destruct (_ <? _); [done|]. injection El as _ <-. apply Hlb in E. simpl in *. lia. }
  destruct (_ <? _); [done|]. intros [= _ <-]. rewrite length_drop. simpl. lia.
Qed.
