(* ===== verification/NipPhase3.v ===== *)
(** * NIP Phase-3 enforcement: attested roles, capabilities and the OCSP staple

    nip/phase3.go over the DER reader of NipDer.v.  [x509.ParseCertificate] and
    [time.Parse] with its layouts are parameters; a certificate is its extensions. *)

From S2P Require Import Prelude GoValue GoBase64 NipFrames NipDer.

(** ** Results *)

Record IdentVerifyResult : Type := MkVerify { Valid : bool; StepFailed : Z; v_ErrorCode : string; v_Message : string }.

Definition verify_ok : IdentVerifyResult := MkVerify true 0 "" "".
Definition verify_fail (step : Z) (code msg : string) : IdentVerifyResult := MkVerify false step code msg.

(** An extension is its object identifier and its value. *)
Record Certificate : Type := MkCert { Extensions : list (list Z * list byte) }.

Definition OidIdNpsNodeRoles : list Z := [1; 3; 6; 1; 4; 1; 65715; 2; 2].
Definition OidIdNpsCapabilities : list Z := [1; 3; 6; 1; 4; 1; 65715; 2; 3].
Definition Phase3Step : Z := 3.

(** ** Extensions *)

(** Every item consumes at least two bytes ([read_shrinks]). *)
Fixpoint utf8_items (fuel : nat) (rest : list byte) : option (list string) :=
  match fuel with
  | O => None
  | S f =>
      match rest with
      | [] => Some []
      | _ =>
          match readTLV rest with
          | None => None
          | Some (item, rest) =>
              if negb (Class item =? ClassUniversal) || negb (Tag item =? TagUTF8String) then None
              else match utf8_items f rest with
                   | Some out => Some (string_of_bytes (Bytes item) :: out)
                   | None => None
                   end
          end
      end
  end.

Definition parseUtf8Sequence (der : list byte) : option (list string) :=
  match readTLV der with
  | None => None
  | Some (seq, _) =>
      if negb (Class seq =? ClassUniversal) || negb (Tag seq =? TagSequence) || negb (IsCompound seq) then None
      else utf8_items (S (length (Bytes seq))) (Bytes seq)
  end.

Definition ReadUtf8SequenceExtension (cert : Certificate) (oid : list Z) : option (list string) :=
  match List.find (fun e => bool_decide (e.1 = oid)) (Extensions cert) with
  | Some (_, value) => Some (default [] (parseUtf8Sequence value))
  | None => None
  end.

(** [seen] are the names already reported. *)
Fixpoint excess_loop (attested seen claimed : list string) : list string :=
  match claimed with
  | [] => []
  | c :: r =>
      if mem_string c attested then excess_loop attested seen r
      else if mem_string c seen then excess_loop attested seen r
      else c :: excess_loop attested (c :: seen) r
  end.

Definition subsetExcess (claimed attested : list string) : list string := excess_loop attested [] claimed.

(** ** The OCSP walk *)

Section Ocsp.
(** [time.Parse] of a layout. *)
Context (time_Parse : string -> string -> option Z).

Fixpoint first_layout (layouts : list string) (s : string) : option Z :=
  match layouts with
  | [] => None
  | layout :: r => match time_Parse layout s with Some t => Some t | None => first_layout r s end
  end.

Definition parseGeneralizedTime (s : string) : option Z :=
  first_layout ["20060102150405Z0700"; "20060102150405.999999999Z0700"; "20060102150405"] s.

(** A value that satisfies a test, and what follows it. *)
Definition expect (P : RawValue -> bool) (l : list byte) : option (RawValue * list byte) :=
  match readTLV l with Some (v, r) => if P v then Some (v, r) else None | None => None end.

Definition skip (l : list byte) : option (list byte) := snd <$> readTLV l.

Definition is_tag (t : Z) (v : RawValue) : bool := Tag v =? t.
Definition is_context (t : Z) (v : RawValue) : bool := (Class v =? ClassContextSpecific) && (Tag v =? t).

(** Skip an optional value: the same input when the test fails. *)
Definition skip_if (P : RawValue -> bool) (l : list byte) : option (list byte) :=
  match readTLV l with Some (v, r) => Some (if P v then r else l) | None => None end.

Definition TryGetOcspNextUpdate (der : list byte) : option Z :=
  '(outer, _) ← expect (fun v => is_tag TagSequence v && IsCompound v) der;
  rest ← skip (Bytes outer);
  '(respBytes, _) ← expect (is_context 0) rest;
  '(inner, _) ← expect (is_tag TagSequence) (Bytes respBytes);
  r ← skip (Bytes inner);
  '(octet, _) ← expect (is_tag TagOctetString) r;
  '(basic, _) ← expect (is_tag TagSequence) (Bytes octet);
  '(tbs, _) ← expect (is_tag TagSequence) (Bytes basic);
  c ← skip_if (fun v => is_context 0 v && IsCompound v) (Bytes tbs);
  c ← skip_if (fun v => Class v =? ClassContextSpecific) c;
  c ← skip c;
  '(responses, _) ← expect (is_tag TagSequence) c;
  '(single, _) ← expect (is_tag TagSequence) (Bytes responses);
  s ← skip (Bytes single);
  s ← skip s;
  s ← skip s;
  '(nu, _) ← expect (is_context 0) s;
  '(gt, _) ← expect (is_tag TagGeneralizedTime) (Bytes nu);
  parseGeneralizedTime (string_of_bytes (Bytes gt)).

(** ** Staples and chains *)

(** [strings.TrimRight(s, "=")]. *)
Fixpoint trim_equals (s : string) : string :=
  match s with
  | EmptyString => EmptyString
  | String c r =>
      match trim_equals r with
      | EmptyString => if Ascii.eqb c (chr 61) then EmptyString else String c EmptyString
      | t => String c t
      end
  end.

Definition decodeBase64UrlLoose (s : string) : option (list byte) :=
  RawStd_Decode (string_of (std_char <$> chars_of (trim_equals (trim_space s)))).

Context (ParseCertificate : list byte -> option Certificate).

(** [None] is an error. *)
Definition DecodeCertChainLeaf (chain : list string) : option Certificate :=
  match chain with
  | [] => None
  | leaf :: _ => match decodeBase64UrlLoose leaf with Some der => ParseCertificate der | None => None end
  end.

(** ** Phase3Enforce

    [now] is the zero time when it is [None]; [clock] is [time.Now] and
    [fmt_time] formats an instant. *)
Context (fmt_time : Z -> string) (clock : Z).

(** A claimed set against an extension, when the certificate has it. *)
Definition attest_row (leaf : Certificate) (oid : list Z) (claimed : list string) (code msg : string) :
    option IdentVerifyResult :=
  match ReadUtf8SequenceExtension leaf oid with
  | Some attested =>
      match subsetExcess claimed attested with
      | [] => None
      | excess => Some (verify_fail Phase3Step code (msg +:+ join ", " excess +:+ "."))
      end
  | None => None
  end.

Definition staple_row (staple : string) (now : Z) : IdentVerifyResult :=
  if String.eqb (trim_space staple) "" then
    verify_fail Phase3Step ErrOcspStapleExpired
      "Phase-3 enforcement requires ocsp_staple on v2-x509 IdentFrames; none was supplied."
  else
    match decodeBase64UrlLoose staple with
    | None => verify_fail Phase3Step ErrOcspStapleExpired "ocsp_staple is not valid base64url."
    | Some der =>
        match TryGetOcspNextUpdate der with
        | None => verify_fail Phase3Step ErrOcspStapleExpired
                    "ocsp_staple could not be parsed as a DER OCSPResponse with a nextUpdate."
        | Some nextUpdate =>
            if negb (after nextUpdate now) then
              verify_fail Phase3Step ErrOcspStapleExpired
                ("ocsp_staple nextUpdate " +:+ fmt_time nextUpdate +:+ " has elapsed.")
            else verify_ok
        end
    end.

Definition Phase3Enforce (frame : option IdentFrame) (leaf : option Certificate) (now : option Z) : IdentVerifyResult :=
  match frame, leaf with
  | None, _ => verify_fail Phase3Step ErrCertFormatInvalid "Phase-3 enforcement requires an IdentFrame."
  | _, None => verify_fail Phase3Step ErrCertFormatInvalid "Phase-3 enforcement requires a leaf certificate."
  | Some frame, Some leaf =>
      let now := default clock now in
      match attest_row leaf OidIdNpsNodeRoles (default [] (id_NodeRoles frame)) ErrCertNodeRolesMismatch
              "IdentFrame.node_roles claims role(s) not attested by id-nps-node-roles: " with
      | Some r => r
      | None =>
          match attest_row leaf OidIdNpsCapabilities (id_Capabilities frame) ErrCertCapabilitiesExceeded
                  "IdentFrame.capabilities claims capabilit(ies) not attested by id-nps-capabilities: " with
          | Some r => r
          | None => staple_row (id_OCSPStaple frame) now
          end
      end
  end.
End Ocsp.

(** ** Attested sets *)

Lemma excess_loop_spec attested seen claimed x :
  x ∈ excess_loop attested seen claimed <-> x ∈ claimed /\ x ∉ attested /\ x ∉ seen.
Proof.
  revert seen. induction claimed as [|c r IH]; intros seen; cbn [excess_loop].
  { split; [by intros ?%not_elem_of_nil|by intros [?%not_elem_of_nil _]]. }
  destruct (mem_string c attested) eqn:E1; [apply mem_string_true in E1; rewrite IH, elem_of_cons; naive_solver|].
  apply mem_string_false in E1. destruct (mem_string c seen) eqn:E2.
  - apply mem_string_true in E2. rewrite IH, elem_of_cons. naive_solver.
  - apply mem_string_false in E2. rewrite !elem_of_cons, IH, elem_of_cons. destruct (decide (x = c)) as [->|]; naive_solver.
Qed.

Lemma subsetExcess_nil claimed attested : subsetExcess claimed attested = [] <-> claimed ⊆ attested.
Proof.
  unfold subsetExcess. split.
  - intros E x Hx. destruct (decide (x ∈ attested)); [done|].
    assert (x ∈ excess_loop attested [] claimed) as H
      by (apply excess_loop_spec; split_and!; [done|done|apply not_elem_of_nil]).
    rewrite E in H. by apply not_elem_of_nil in H.
  - intros Hs. destruct (excess_loop attested [] claimed) as [|x l] eqn:E; [done|].
    assert (x ∈ excess_loop attested [] claimed) as H by (rewrite E; left).
    apply excess_loop_spec in H as (H1 & H2 & _). by apply Hs in H1.
Qed.

Lemma subsetExcess_nodup claimed attested : NoDup (subsetExcess claimed attested).
Proof.
  unfold subsetExcess. generalize (@nil string) as seen. induction claimed as [|c r IH]; intros seen; cbn [excess_loop]; [constructor|].
  destruct (mem_string c attested); [done|]. destruct (mem_string c seen); [done|].
  constructor; [|done]. rewrite excess_loop_spec, elem_of_cons. naive_solver.
Qed.

(** ** Extension values *)

Lemma raw_ok_body c t comp body :
  0 <= c < 4 -> 0 <= t < 31 -> Z.of_nat (length body) < 2 ^ 31 -> raw_ok (MkRaw c t comp body).
Proof. by intros. Qed.

(** A value of known class and tag. *)
Ltac raw_known := apply raw_ok_body; [vm_compute; intuition congruence|vm_compute; intuition congruence|].

Definition utf8_string (s : string) : RawValue := MkRaw ClassUniversal TagUTF8String false (bytes_of_string s).
Definition sequence (body : list byte) : RawValue := MkRaw ClassUniversal TagSequence true body.
Definition utf8_body (l : list string) : list byte := concat ((fun s => writeTLV (utf8_string s)) <$> l).

Lemma length_writeTLV v : (length (Bytes v) + 2 <= length (writeTLV v))%nat.
Proof.
  unfold writeTLV, der_length. destruct (_ <? 0x80); cbn [length app]; [rewrite ?length_app; simpl; lia|].
  cbv zeta. cbn [length app]. rewrite length_app. lia.
Qed.

Lemma bytes_of_string_length s : length (bytes_of_string s) = String.length s.
Proof. unfold bytes_of_string. induction s; simpl; [done|]. f_equal. done. Qed.

Lemma utf8_items_spec fuel l :
  Z.of_nat (length (utf8_body l)) < 2 ^ 31 -> (length (utf8_body l) < fuel)%nat -> utf8_items fuel (utf8_body l) = Some l.
Proof.
  revert fuel. induction l as [|s l IH]; intros fuel Hl Hf; (destruct fuel as [|fuel]; [lia|]); [done|].
  assert (E : utf8_body (s :: l) = writeTLV (utf8_string s) ++ utf8_body l) by done.
  pose proof (length_writeTLV (utf8_string s)) as Hw. cbn [Bytes utf8_string] in Hw.
  rewrite E, length_app in Hl, Hf. rewrite E.
  cbn [utf8_items]. destruct (writeTLV (utf8_string s) ++ utf8_body l) as [|b r] eqn:E2.
  { apply (f_equal length) in E2. rewrite length_app in E2. cbn [length] in E2. lia. }
  rewrite <- E2, read_write by (raw_known; lia).
  change (negb (Class (utf8_string s) =? ClassUniversal) || negb (Tag (utf8_string s) =? TagUTF8String)) with false.
  cbv iota. rewrite IH by lia. cbn [Bytes utf8_string]. by rewrite string_of_bytes_of_string.
Qed.

(** The strings of an extension are read back as they were encoded. *)
Lemma utf8_sequence_read l rest :
  Z.of_nat (length (utf8_body l)) < 2 ^ 31 -> parseUtf8Sequence (writeTLV (sequence (utf8_body l)) ++ rest) = Some l.
Proof.
  intros Hl. unfold parseUtf8Sequence. rewrite read_write by (by raw_known). cbn [Class Tag IsCompound sequence].
  apply utf8_items_spec; [done|]. cbn [Bytes sequence]. lia.
Qed.

(** ** OCSP responses *)

Definition context (t : Z) (body : list byte) : RawValue := MkRaw ClassContextSpecific t true body.

(** The parts of a response that the walk passes over, and the text of nextUpdate. *)
Record ocsp_parts : Type := MkOcsp {
  o_status : RawValue; o_type : RawValue; o_version : option (list byte); o_responder : RawValue; o_produced : RawValue;
  o_certID : RawValue; o_certStatus : RawValue; o_thisUpdate : RawValue; o_next : string;
  o_single_ext : list byte; o_more_responses : list byte; o_response_ext : list byte; o_signature : list byte
}.

Definition single_response (o : ocsp_parts) : list byte :=
  writeTLV (sequence (writeTLV (o_certID o) ++ writeTLV (o_certStatus o) ++ writeTLV (o_thisUpdate o) ++
    writeTLV (context 0 (writeTLV (MkRaw ClassUniversal TagGeneralizedTime false (bytes_of_string (o_next o))))) ++
    o_single_ext o)).

Definition response_data (o : ocsp_parts) : list byte :=
  match o_version o with Some v => writeTLV (context 0 v) | None => [] end ++ writeTLV (o_responder o) ++
  writeTLV (o_produced o) ++ writeTLV (sequence (single_response o ++ o_more_responses o)) ++ o_response_ext o.

Definition basic_response (o : ocsp_parts) : list byte :=
  writeTLV (sequence (writeTLV (sequence (response_data o)) ++ o_signature o)).

Definition ocsp_response (o : ocsp_parts) : list byte :=
  writeTLV (sequence (writeTLV (o_status o) ++
    writeTLV (context 0 (writeTLV (sequence (writeTLV (o_type o) ++
      writeTLV (MkRaw ClassUniversal TagOctetString false (basic_response o)))))))).

(** The encoded parts are readable, the responder is one of the context-specific
    choices [1] and [2], and the whole fits a DER length. *)
Definition ocsp_ok (o : ocsp_parts) : Prop :=
  Forall raw_ok [o_status o; o_type o; o_responder o; o_produced o; o_certID o; o_certStatus o; o_thisUpdate o] /\
  Class (o_responder o) = ClassContextSpecific /\ 1 <= Tag (o_responder o) <= 2 /\
  Z.of_nat (length (ocsp_response o)) < 2 ^ 31.

(** A length that the reader accepts; it is inherited from outside in. *)
Definition fits (l : list byte) : Prop := Z.of_nat (length l) < 2 ^ 31.

Lemma fits_app a b : fits (a ++ b) -> fits a /\ fits b.
Proof. unfold fits. rewrite length_app. lia. Qed.

Lemma fits_bytes v : fits (writeTLV v) -> fits (Bytes v).
Proof. unfold fits. pose proof (length_writeTLV v). lia. Qed.

Section Walk.
Context (v : RawValue) (rest : list byte).
Hypothesis Hclass : 0 <= Class v < 4.
Hypothesis Htag : 0 <= Tag v < 31.
Hypothesis Hfits : fits (writeTLV v ++ rest).

Lemma walk_read : readTLV (writeTLV v ++ rest) = Some (v, rest) /\ fits (Bytes v) /\ fits rest.
Proof.
  apply fits_app in Hfits as [Hv Hr]. apply fits_bytes in Hv. split_and!; [|done|done]. apply read_write. exact (conj Hclass (conj Htag Hv)).
Qed.

Lemma walk_skip : skip (writeTLV v ++ rest) = Some rest /\ fits rest.
Proof. destruct walk_read as (H & _ & Hr). unfold skip. by rewrite H. Qed.

Lemma walk_expect P : P v = true -> expect P (writeTLV v ++ rest) = Some (v, rest) /\ fits (Bytes v) /\ fits rest.
Proof. intros HP. destruct walk_read as (H & Hb & Hr). unfold expect. by rewrite H, HP. Qed.

Lemma walk_skip_if P : P v = true -> skip_if P (writeTLV v ++ rest) = Some rest /\ fits rest.
Proof. intros HP. destruct walk_read as (H & _ & Hr). unfold skip_if. by rewrite H, HP. Qed.

Lemma walk_no_skip P : P v = false -> skip_if P (writeTLV v ++ rest) = Some (writeTLV v ++ rest).
Proof. intros HP. destruct walk_read as (H & _ & _). unfold skip_if. by rewrite H, HP. Qed.
End Walk.

Lemma walk_expect_end v P :
  0 <= Class v < 4 -> 0 <= Tag v < 31 -> fits (writeTLV v) -> P v = true ->
  expect P (writeTLV v) = Some (v, []) /\ fits (Bytes v).
Proof.
  intros Hc Ht Hf HP. rewrite <- (app_nil_r (writeTLV v)) in Hf |- *.
  by destruct (walk_expect v [] Hc Ht Hf P HP) as (-> & ? & _).
Qed.

(** Enter the value that is expected next, or step over the one to be skipped. *)
Ltac known := split; [intros ?; discriminate|reflexivity].
Ltac enter Hf :=
  let E := fresh in let F := fresh in
  match goal with
  | |- context [expect ?P (writeTLV ?v ++ ?r)] =>
      destruct (walk_expect v r ltac:(known) ltac:(known) Hf P eq_refl) as (E & F & _)
  | |- context [expect ?P (writeTLV ?v)] =>
      destruct (walk_expect_end v P ltac:(known) ltac:(known) Hf eq_refl) as (E & F)
  end;
  rewrite E; clear E Hf; rename F into Hf; cbn [mbind option_bind Bytes sequence context] in Hf |- *.
Ltac over Hraw Hf :=
  let E := fresh in let F := fresh in
  match goal with
  | |- context [skip (writeTLV ?v ++ ?r)] =>
      destruct (walk_skip v r (proj1 Hraw) (proj1 (proj2 Hraw)) Hf) as (E & F)
  end;
  rewrite E; clear E Hf; rename F into Hf; cbn [mbind option_bind].

Section OcspProofs.
Context (time_Parse : string -> string -> option Z).

(** The walk finds the first nextUpdate of every well-formed response, with or
    without a version, whatever the parts it passes over hold. *)
Lemma ocsp_next_update o :
  ocsp_ok o -> TryGetOcspNextUpdate time_Parse (ocsp_response o) = parseGeneralizedTime time_Parse (o_next o).
Proof.
  intros (Hraw & Hrc & Hrt & Hf). rewrite !Forall_cons in Hraw. destruct Hraw as (H1 & H2 & H3 & H4 & H5 & H6 & H7 & _).
  change (fits (ocsp_response o)) in Hf. unfold TryGetOcspNextUpdate, ocsp_response in *.
  enter Hf. over H1 Hf. enter Hf. enter Hf. over H2 Hf. enter Hf. unfold basic_response in *. enter Hf. enter Hf.
  unfold response_data in *. set (tail := writeTLV (o_produced o) ++ _) in *.
  assert (Hc : skip_if (fun v => is_context 0 v && IsCompound v)
      (match o_version o with Some v => writeTLV (context 0 v) | None => [] end ++ writeTLV (o_responder o) ++ tail) =
      Some (writeTLV (o_responder o) ++ tail) /\ fits (writeTLV (o_responder o) ++ tail)).
  { destruct (o_version o) as [v|]; [by apply walk_skip_if; [known|known|..]|]. cbn [app] in *. split; [|done].
    apply walk_no_skip; [apply H3|apply H3|done|]. unfold is_context. rewrite (proj2 (Z.eqb_neq (Tag _) 0)) by lia.
    by rewrite andb_false_r. }
  destruct Hc as [-> Hf']. cbn [mbind option_bind].
  destruct (walk_skip_if (o_responder o) tail (proj1 H3) (proj1 (proj2 H3)) Hf' (fun v => Class v =? ClassContextSpecific))
    as [-> Hf'']; [by rewrite Hrc|]. cbn [mbind option_bind]. subst tail. clear Hf Hf'. rename Hf'' into Hf.
  over H4 Hf. enter Hf. unfold single_response in *. enter Hf. over H5 Hf. over H6 Hf. over H7 Hf. enter Hf. enter Hf.
  by rewrite string_of_bytes_of_string.
Qed.
End OcspProofs.

(** ** Loose base64 *)

Lemma loose_char v :
  0 <= v < 64 ->
  std_value (std_char (b64_char v)) = Some v /\ std_char (b64_char v) <> chr 10 /\ std_char (b64_char v) <> chr 13 /\
  printable (b64_char v) = true /\ b64_char v <> chr 61.
Proof.
  intros Hv.
  assert (forallb (fun n => let v := Z.of_nat n in bool_decide (std_value (std_char (b64_char v)) = Some v /\
      std_char (b64_char v) <> chr 10 /\ std_char (b64_char v) <> chr 13 /\ printable (b64_char v) = true /\
      b64_char v <> chr 61)) (seq 0 64) = true) as Hb by (vm_compute; done).
  rewrite forallb_forall in Hb. specialize (Hb (Z.to_nat v) ltac:(apply in_seq; lia)). cbv zeta in Hb.
  rewrite Z2Nat.id in Hb by lia. by apply bool_decide_eq_true in Hb.
Qed.

Lemma trim_equals_id s : str_contains_char (chr 61) s = false -> trim_equals s = s.
Proof.
  induction s as [|c s IH]; cbn [str_contains_char trim_equals]; [done|]. intros [Hc Hs]%orb_false_elim.
  rewrite IH by done. destruct s; [by rewrite Hc|done].
Qed.

Lemma loose_decode l : decodeBase64UrlLoose (RawURL_Encode l) = Some l.
Proof.
  pose proof (b64_encode_range l) as Hr. unfold decodeBase64UrlLoose, RawURL_Encode.
  assert (Hp : str_forall printable (string_of (b64_char <$> b64_encode l)) = true /\
    str_contains_char (chr 61) (string_of (b64_char <$> b64_encode l)) = false).
  { unfold string_of. induction Hr as [|v vs Hv _ [IH1 IH2]]; [done|]. destruct (loose_char v Hv) as (_ & _ & _ & Hp & He).
    apply Ascii.eqb_neq in He. cbn [fmap list_fmap String.string_of_list_ascii str_forall str_contains_char].
    by rewrite Hp, He, IH1, IH2. }
  destruct Hp as [Hp He]. rewrite trim_all_printable, trim_equals_id by done.
  unfold RawStd_Decode, no_newlines, chars_of, string_of. rewrite !String.list_ascii_of_string_of_list_ascii.
  assert (Hm : mapM std_value (List.filter (fun c => negb (Ascii.eqb c (chr 10)) && negb (Ascii.eqb c (chr 13)))
    (std_char <$> (b64_char <$> b64_encode l))) = Some (b64_encode l)).
  { clear Hp He. induction Hr as [|v vs Hv _ IH]; [done|]. destruct (loose_char v Hv) as (E & H1 & H2 & _).
    apply Ascii.eqb_neq in H1, H2. cbn [fmap list_fmap List.filter]. rewrite H1, H2. cbn [negb andb].
    cbn [mapM]. rewrite E. cbn [mbind option_bind]. by rewrite IH. }
  rewrite Hm. cbn [mbind option_bind]. apply b64_roundtrip.
Qed.

(** ** Enforcement *)

Section Enforce.
Context (time_Parse : string -> string -> option Z) (fmt_time : Z -> string) (clock : Z).

Abbreviation enforce := (Phase3Enforce time_Parse fmt_time clock).

(** What the CA attests under an extension: nothing is required when it is absent. *)
Definition attested (leaf : Certificate) (oid : list Z) (claimed : list string) : Prop :=
  forall l, ReadUtf8SequenceExtension leaf oid = Some l -> claimed ⊆ l.

Lemma attest_row_iff leaf oid claimed code msg : attest_row leaf oid claimed code msg = None <-> attested leaf oid claimed.
Proof.
  unfold attest_row, attested. destruct (ReadUtf8SequenceExtension leaf oid) as [l|]; [|by split].
  pose proof (subsetExcess_nil claimed l). destruct (subsetExcess claimed l); naive_solver.
Qed.

(** The staple holds a response whose nextUpdate is in the future. *)
Definition fresh_staple (staple : string) (now : Z) : Prop :=
  exists der t, decodeBase64UrlLoose staple = Some der /\ TryGetOcspNextUpdate time_Parse der = Some t /\ now < t.

Lemma staple_row_iff staple now : Valid (staple_row time_Parse fmt_time staple now) = true <-> fresh_staple staple now.
Proof.
  unfold staple_row, fresh_staple. destruct (String.eqb_spec (trim_space staple) "") as [E|_].
  { split; [done|]. intros (der & t & Hd & Ht & _). unfold decodeBase64UrlLoose in Hd. rewrite E in Hd. injection Hd as <-. done. }
  destruct (decodeBase64UrlLoose staple) as [der|]; [|split; [done|by intros (? & ? & ? & _)]].
  destruct (TryGetOcspNextUpdate _ der) as [t|] eqn:Et; [|split; [done|intros (d & t & [= <-] & Ht & _); congruence]].
  unfold after. destruct (Z.ltb_spec now t); cbn; [split; [by exists der, t|done]|].
  split; [done|]. intros (d & t' & [= <-] & Ht & ?). rewrite Et in Ht. injection Ht as <-. lia.
Qed.

Lemma attest_row_fails leaf oid claimed code msg r :
  attest_row leaf oid claimed code msg = Some r -> Valid r = false /\ StepFailed r = 3 /\ v_ErrorCode r = code.
Proof.
  unfold attest_row. destruct (ReadUtf8SequenceExtension leaf oid); [|done]. destruct (subsetExcess _ _); [done|].
  by intros [= <-].
Qed.

Lemma staple_row_fails staple now :
  let r := staple_row time_Parse fmt_time staple now in
  Valid r = true /\ v_ErrorCode r = "" \/
  Valid r = false /\ StepFailed r = 3 /\ v_ErrorCode r = ErrOcspStapleExpired.
Proof.
  cbv zeta. unfold staple_row. destruct (String.eqb _ ""); [by right|]. destruct (decodeBase64UrlLoose _); [|by right].
  destruct (TryGetOcspNextUpdate _ _); [|by right]. destruct (negb _); [by right|by left].
Qed.

Lemma phase3_fails_at_3 f leaf now :
  Valid (enforce (Some f) (Some leaf) now) = false -> StepFailed (enforce (Some f) (Some leaf) now) = 3.
Proof.
  unfold Phase3Enforce. destruct (attest_row leaf OidIdNpsNodeRoles _ _ _) eqn:E1; [by apply attest_row_fails in E1 as (_ & ? & _)|].
  destruct (attest_row leaf OidIdNpsCapabilities _ _ _) eqn:E2; [by apply attest_row_fails in E2 as (_ & ? & _)|].
  pose proof (staple_row_fails (id_OCSPStaple f) (default clock now)) as [[Hv _]|(_ & Hs & _)]; cbv zeta; [|done].
  by rewrite Hv.
Qed.

(** Phase-3 enforcement passes exactly when the claimed roles and the claimed
    capabilities are among those the leaf certificate attests (each only when the
    certificate has the extension) and the staple decodes to an OCSP response whose
    first nextUpdate is after now; every failure is attributed to step 3, with the
    code of the first check that fails. *)
Theorem phase3_iff f leaf now :
  let r := enforce (Some f) (Some leaf) now in
  let roles := attested leaf OidIdNpsNodeRoles (default [] (id_NodeRoles f)) in
  let caps := attested leaf OidIdNpsCapabilities (id_Capabilities f) in
  (Valid r = true <-> roles /\ caps /\ fresh_staple (id_OCSPStaple f) (default clock now)) /\
  (Valid r = false -> StepFailed r = 3) /\
  (v_ErrorCode r = ErrCertNodeRolesMismatch <-> ~ roles) /\
  (v_ErrorCode r = ErrCertCapabilitiesExceeded <-> roles /\ ~ caps) /\
  (v_ErrorCode r = ErrOcspStapleExpired <-> roles /\ caps /\ ~ fresh_staple (id_OCSPStaple f) (default clock now)).
Proof.
  cbv zeta. unfold Phase3Enforce.
  pose proof (attest_row_iff leaf OidIdNpsNodeRoles (default [] (id_NodeRoles f)) ErrCertNodeRolesMismatch
    "IdentFrame.node_roles claims role(s) not attested by id-nps-node-roles: ") as Hr.
  pose proof (attest_row_iff leaf OidIdNpsCapabilities (id_Capabilities f) ErrCertCapabilitiesExceeded
    "IdentFrame.capabilities claims capabilit(ies) not attested by id-nps-capabilities: ") as Hc.
  destruct (attest_row leaf OidIdNpsNodeRoles _ _ _) as [r|] eqn:E1.
  { apply attest_row_fails in E1 as (-> & -> & ->). rewrite <- Hr. naive_solver. }
  destruct (attest_row leaf OidIdNpsCapabilities _ _ _) as [r|] eqn:E2.
  { apply attest_row_fails in E2 as (-> & -> & ->). rewrite <- Hr, <- Hc. naive_solver. }
  rewrite <- Hr, <- Hc. pose proof (staple_row_iff (id_OCSPStaple f) (default clock now)) as Hs.
  pose proof (staple_row_fails (id_OCSPStaple f) (default clock now)) as Hv. cbv zeta in Hv.
  rewrite <- Hs. destruct Hv as [[-> ->]|(-> & -> & ->)]; naive_solver.
Qed.

(** The checks see what was issued: an extension written as a DER sequence of
    UTF-8 strings attests exactly those strings, and a staple written as the
    base64url of an OCSP response is fresh exactly when the nextUpdate of its first
    single response is after now. *)
Theorem phase3_reads_der o exts oid l now t :
  ocsp_ok o -> fits (utf8_body l) -> parseGeneralizedTime time_Parse (o_next o) = Some t ->
  ReadUtf8SequenceExtension (MkCert ((oid, writeTLV (sequence (utf8_body l))) :: exts)) oid = Some l /\
  (fresh_staple (RawURL_Encode (ocsp_response o)) now <-> now < t).
Proof.
  intros Ho Hl Ht. split.
  - unfold ReadUtf8SequenceExtension. cbn [Extensions List.find fst]. rewrite bool_decide_eq_true_2 by done.
    pose proof (utf8_sequence_read l [] Hl) as E. rewrite app_nil_r in E. by rewrite E.
  - unfold fresh_staple. rewrite loose_decode. split.
    + intros (der & t' & [= <-] & E & ?). rewrite ocsp_next_update, Ht in E by done. injection E as <-. done.
    + intros. exists (ocsp_response o), t. by rewrite ocsp_next_update.
Qed.
End Enforce.

(** ** Witnesses *)

Definition sample_parts : ocsp_parts :=
  MkOcsp (MkRaw 0 10 false [x00]) (MkRaw 0 6 false [x2b]) None (context 2 []) (MkRaw 0 24 false []) (sequence [])
    (MkRaw 2 0 false []) (MkRaw 0 24 false []) "20260101000000Z" [] [] [] [].
Definition sample_time (layout s : string) : option Z := if String.eqb s "20260101000000Z" then Some 100 else None.

Example phase3_reads_der_witness :
  ReadUtf8SequenceExtension (MkCert [(OidIdNpsNodeRoles, writeTLV (sequence (utf8_body ["anchor"; "memory"])))])
    OidIdNpsNodeRoles = Some ["anchor"; "memory"] /\
  (fresh_staple sample_time (RawURL_Encode (ocsp_response sample_parts)) 99 <-> 99 < 100).
Proof.
  apply (phase3_reads_der sample_time sample_parts [] OidIdNpsNodeRoles ["anchor"; "memory"] 99 100);
    [|vm_compute; reflexivity|reflexivity].
  repeat split; try (repeat constructor; vm_compute; intuition congruence); vm_compute; intuition congruence.
Defined.
