(* ===== verification/NipStore.v ===== *)
(** * NIP certificate records and the in-memory CA store

    nip/ca_store.go.  Every method holds the mutex, so it is one step on the
    store; records are copied in and out, so they are values.  Instants are
    nanoseconds. *)

From S2P Require Import Prelude.

Record NipCertRecord : Type := MkRecord {
  c_Nid : string; c_EntityType : string; c_Serial : string; c_PubKey : string; c_Capabilities : list string;
  c_ScopeJson : string; c_IssuedBy : string; c_IssuedAt : Z; c_ExpiresAt : Z; c_RevokedAt : option Z;
  c_RevokeReason : option string; c_MetadataJson : option string; c_NidRole : option string;
  c_ParentNid : option string; c_LineageJson : option string
}.

Record InMemoryNipCaStore : Type := MkStore { records : list NipCertRecord; st_serial : Z }.

Definition NewInMemoryNipCaStore : InMemoryNipCaStore := MkStore [] 0.

Definition Save (s : InMemoryNipCaStore) (record : NipCertRecord) : go_result InMemoryNipCaStore :=
  if existsb (fun r => String.eqb (c_Serial r) (c_Serial record)) (records s)
  then Err (ErrPlain ("serial already exists: " +:+ c_Serial record))
  else Ok (MkStore (records s ++ [record]) (st_serial s)).

Definition GetByNid (s : InMemoryNipCaStore) (nid : string) : option NipCertRecord :=
  List.find (fun r => String.eqb (c_Nid r) nid) (reverse (records s)).

Definition GetBySerial (s : InMemoryNipCaStore) (serial : string) : option NipCertRecord :=
  List.find (fun r => String.eqb (c_Serial r) serial) (records s).

Definition is_revoked (r : NipCertRecord) : bool := match c_RevokedAt r with Some _ => true | None => false end.

Definition mark_revoked (reason : string) (revokedAt : Z) (r : NipCertRecord) : NipCertRecord :=
  MkRecord (c_Nid r) (c_EntityType r) (c_Serial r) (c_PubKey r) (c_Capabilities r) (c_ScopeJson r) (c_IssuedBy r)
    (c_IssuedAt r) (c_ExpiresAt r) (Some revokedAt) (Some reason) (c_MetadataJson r) (c_NidRole r) (c_ParentNid r)
    (c_LineageJson r).

(** The loop from the last record down; [None] when no record qualifies. *)
Fixpoint revoke_last (nid reason : string) (revokedAt : Z) (l : list NipCertRecord) : option (list NipCertRecord) :=
  match l with
  | [] => None
  | r :: t =>
      match revoke_last nid reason revokedAt t with
      | Some t' => Some (r :: t')
      | None => if String.eqb (c_Nid r) nid && negb (is_revoked r) then Some (mark_revoked reason revokedAt r :: t) else None
      end
  end.

Definition Revoke (s : InMemoryNipCaStore) (nid reason : string) (revokedAt : Z) : bool * InMemoryNipCaStore :=
  match revoke_last nid reason revokedAt (records s) with
  | Some l => (true, MkStore l (st_serial s))
  | None => (false, s)
  end.

(** [%X]: upper-case hexadecimal digits. *)
Fixpoint format_hex (fuel : nat) (n : Z) (acc : string) : string :=
  match fuel with
  | O => acc
  | S f => let acc := hex_digit (n mod 16) +:+ acc in if n / 16 =? 0 then acc else format_hex f (n / 16) acc
  end.

Definition fmt_X (z : Z) : string :=
  let digits n := format_hex (S (Z.to_nat (Z.log2 n))) n "" in
  if z <? 0 then "-" +:+ digits (- z) else digits z.

Definition NextSerial (s : InMemoryNipCaStore) : string * InMemoryNipCaStore :=
  let next := i64 (st_serial s + 1) in ("0x" +:+ fmt_X next, MkStore (records s) next).

Definition List_ (s : InMemoryNipCaStore) : list NipCertRecord := records s.
Definition GetRevoked (s : InMemoryNipCaStore) : list NipCertRecord := List.filter is_revoked (records s).
Definition GetByParentNid (s : InMemoryNipCaStore) (parentNid : string) : list NipCertRecord :=
  List.filter (fun r => match c_ParentNid r with Some p => String.eqb p parentNid | None => false end) (records s).

(** ** Serials *)

Definition hex_value (c : Ascii.ascii) : option Z :=
  let z := char_z c in
  if (48 <=? z) && (z <=? 57) then Some (z - 48) else if (65 <=? z) && (z <=? 70) then Some (z - 55) else None.

Fixpoint parse_hex (s : string) (acc : Z) : option Z :=
  match s with
  | EmptyString => Some acc
  | String c r => match hex_value c with Some d => parse_hex r (acc * 16 + d) | None => None end
  end.

Lemma hex_digit_value d : 0 <= d < 16 -> exists c, hex_digit d = String c "" /\ hex_value c = Some d.
Proof.
  intros Hd. assert (forallb (fun n => match hex_digit (Z.of_nat n) with
      | String c "" => bool_decide (hex_value c = Some (Z.of_nat n)) | _ => false end) (seq 0 16) = true) as H by (vm_compute; done).
  rewrite forallb_forall in H. specialize (H (Z.to_nat d) ltac:(apply in_seq; lia)). rewrite Z2Nat.id in H by lia.
  destruct (hex_digit d) as [|c []]; [done| |done]. exists c. by apply bool_decide_eq_true in H.
Qed.

Lemma parse_format_hex fuel n acc a :
  0 <= n -> n < 16 ^ Z.of_nat fuel -> (0 < fuel)%nat ->
  exists k, 0 <= k /\ parse_hex (format_hex fuel n acc) a = parse_hex acc (a * 16 ^ k + n).
Proof.
  revert n acc a. induction fuel as [|f IH]; intros n acc a Hn Hb Hf; [lia|]. cbn [format_hex]. cbv zeta.
  pose proof (Z.mod_pos_bound n 16 ltac:(lia)). pose proof (Z.div_mod n 16 ltac:(lia)) as Hdm.
  destruct (hex_digit_value (n mod 16)) as (c & -> & Hc); [done|].
  destruct (Z.eqb_spec (n / 16) 0) as [E|E].
  - exists 1. split; [lia|]. cbn [parse_hex String.append]. change (String c "" +:+ acc) with (String c acc).
    cbn [parse_hex]. rewrite Hc. f_equal. lia.
  - rewrite Nat2Z.inj_succ, Z.pow_succ_r in Hb by lia. assert (0 <= n / 16) by (apply Z.div_pos; lia).
    assert (n / 16 < 16 ^ Z.of_nat f) by (apply Z.div_lt_upper_bound; lia).
    destruct f as [|f]; [change (16 ^ Z.of_nat 0) with 1 in *; lia|].
    destruct (IH (n / 16) (String c "" +:+ acc) a) as (k & Hk & ->); [lia|lia|lia|]. exists (k + 1). split; [lia|].
    change (String c "" +:+ acc) with (String c acc). cbn [parse_hex]. rewrite Hc. f_equal.
    rewrite Z.pow_add_r by lia. lia.
Qed.

Lemma hex_fuel n : 0 <= n -> n < 16 ^ Z.of_nat (S (Z.to_nat (Z.log2 n))).
Proof.
  intros Hn. destruct (Z.eq_dec n 0) as [->|]; [done|]. pose proof (Z.log2_spec n ltac:(lia)) as [_ H].
  pose proof (Z.log2_nonneg n). eapply Z.lt_le_trans; [exact H|]. rewrite Nat2Z.inj_succ, Z2Nat.id by done.
  apply Z.pow_le_mono_l. lia.
Qed.

Lemma fmt_X_inj a b : 0 <= a -> 0 <= b -> fmt_X a = fmt_X b -> a = b.
Proof.
  intros Ha Hb. unfold fmt_X. rewrite !(proj2 (Z.ltb_ge _ _)) by lia. intros E.
  destruct (parse_format_hex (S (Z.to_nat (Z.log2 a))) a "" 0 Ha (hex_fuel a Ha) ltac:(lia)) as (k & _ & Ea).
  destruct (parse_format_hex (S (Z.to_nat (Z.log2 b))) b "" 0 Hb (hex_fuel b Hb) ltac:(lia)) as (j & _ & Eb).
  rewrite E, Eb in Ea. simpl in Ea. injection Ea. lia.
Qed.

Lemma serial_inj a b : 0 <= a -> 0 <= b -> "0x" +:+ fmt_X a = "0x" +:+ fmt_X b -> a = b.
Proof. intros Ha Hb [= E]. by apply fmt_X_inj. Qed.
