(* ===== verification/NipSqlStore.v ===== *)
(** * nip/sql_ca_store.go: certificate records in a database

    [SqlNipCaStore] over an executor of statements.  What the executor does with a
    statement is the database's, so it is an argument; NipSqlStoreProof.v states what SQL
    documents of the statements the store sends.  The text of an instant and of a list of
    capabilities are arguments, instants are nanoseconds. *)

From S2P Require Import Prelude NipStore.

(** What a statement is given for a placeholder. *)
Inductive sqlval : Type := SqlNull | SqlText (s : string).

(** The columns of nip_certs; [None] is NULL. *)
Record certRow : Type := MkRow {
  r_Nid : string; r_EntityType : string; r_Serial : string; r_PubKey : string; CapJSON : string; ScopeJSON : string; r_IssuedBy : string;
  r_IssuedAt : string; r_ExpiresAt : string; r_RevokedAt : option string; r_RevokeReason : option string; MetadataJSON : option string;
  r_NidRole : option string; r_ParentNid : option string; LineageJSON : option string
}.

(** [QueryRows] calls back with each row, or with the error of scanning it, and gives the
    error it ends with. *)
Record SqlCaExecutor (W : Type) : Type := MkExecutor {
  Exec : string -> list sqlval -> W -> go_result Z * W;
  QueryRows : string -> list sqlval -> W -> list (go_result certRow) * option go_error;
  QueryScalarInt64 : string -> W -> go_result Z
}.
Arguments Exec {W}.
Arguments QueryRows {W}.
Arguments QueryScalarInt64 {W}.

(** ** Statements *)

Definition newline : string := String (chr 10) "".

Definition create_certs : string :=
  join newline
   ["CREATE TABLE IF NOT EXISTS nip_certs (";
    "                nid               TEXT NOT NULL,";
    "                entity_type       TEXT NOT NULL,";
    "                serial            TEXT NOT NULL UNIQUE,";
    "                pub_key           TEXT NOT NULL,";
    "                capabilities_json TEXT NOT NULL DEFAULT '[]',";
    "                scope_json        TEXT NOT NULL DEFAULT '{}',";
    "                issued_by         TEXT NOT NULL,";
    "                issued_at         TEXT NOT NULL,";
    "                expires_at        TEXT NOT NULL,";
    "                revoked_at        TEXT,";
    "                revoke_reason     TEXT,";
    "                metadata_json     TEXT,";
    "                nid_role          TEXT,";
    "                parent_nid        TEXT,";
    "                lineage_json      TEXT";
    "            )"].

Definition MigrationStatements : list string :=
  [create_certs;
   "CREATE INDEX IF NOT EXISTS idx_nip_certs_nid        ON nip_certs (nid)";
   "CREATE INDEX IF NOT EXISTS idx_nip_certs_serial     ON nip_certs (serial)";
   "CREATE INDEX IF NOT EXISTS idx_nip_certs_parent_nid ON nip_certs (parent_nid)";
   join newline ["CREATE TABLE IF NOT EXISTS nip_serial (";
                 "                id   INTEGER PRIMARY KEY,";
                 "                seq  INTEGER NOT NULL DEFAULT 0";
                 "            )"];
   "INSERT OR IGNORE INTO nip_serial (id, seq) VALUES (1, 0)"].

Definition insert_cert : string :=
  join newline ["INSERT INTO nip_certs";
                "                (nid, entity_type, serial, pub_key, capabilities_json, scope_json,";
                "                 issued_by, issued_at, expires_at, metadata_json,";
                "                 nid_role, parent_nid, lineage_json)";
                "            VALUES";
                "                (?, ?, ?, ?, ?, ?, ?, ?, ?, ?, ?, ?, ?)"].
Definition select_by_nid : string := "SELECT * FROM nip_certs WHERE nid = ? ORDER BY issued_at DESC LIMIT 1".
Definition select_by_serial : string := "SELECT * FROM nip_certs WHERE serial = ? LIMIT 1".
Definition update_revoked : string := "UPDATE nip_certs SET revoked_at = ?, revoke_reason = ? WHERE nid = ? AND revoked_at IS NULL".
Definition update_serial : string := "UPDATE nip_serial SET seq = seq + 1 WHERE id = 1".
Definition select_serial : string := "SELECT seq FROM nip_serial WHERE id = 1".
Definition select_all : string := "SELECT * FROM nip_certs ORDER BY issued_at DESC".
Definition select_revoked : string := "SELECT * FROM nip_certs WHERE revoked_at IS NOT NULL ORDER BY revoked_at DESC".
Definition select_by_parent : string := "SELECT * FROM nip_certs WHERE parent_nid = ? ORDER BY issued_at DESC".

Definition nullString (p : option string) : sqlval := match p with None => SqlNull | Some s => SqlText s end.

(** ** The store *)

Section Store.
Context (isoTime : Z -> string) (time_Parse : string -> go_result Z).
Context (marshal_caps : list string -> string) (unmarshal_caps : string -> go_result (list string)).
Context {W : Type} (exec : SqlCaExecutor W).

Fixpoint migrate (stmts : list string) (w : W) : go_result unit * W :=
  match stmts with
  | [] => (Ok tt, w)
  | stmt :: stmts => match Exec exec stmt [] w with (Err e, w) => (Err e, w) | (Ok _, w) => migrate stmts w end
  end.

Definition NewSqlNipCaStore (w : W) : go_result unit * W := migrate MigrationStatements w.

Definition sql_Save (record : NipCertRecord) (w : W) : go_result unit * W :=
  let '(r, w) := Exec exec insert_cert
    [SqlText (c_Nid record); SqlText (c_EntityType record); SqlText (c_Serial record); SqlText (c_PubKey record);
     SqlText (marshal_caps (c_Capabilities record)); SqlText (c_ScopeJson record); SqlText (c_IssuedBy record);
     SqlText (isoTime (c_IssuedAt record)); SqlText (isoTime (c_ExpiresAt record)); nullString (c_MetadataJson record);
     nullString (c_NidRole record); nullString (c_ParentNid record); nullString (c_LineageJson record)] w in
  (match r with Err e => Err e | Ok _ => Ok tt end, w).

(** A row as a record: a [revoked_at] that is not an instant is dropped. *)
Definition mapRow (r : certRow) : go_result NipCertRecord :=
  let? caps := (if String.eqb (CapJSON r) "" then Ok [] else unmarshal_caps (CapJSON r)) in
  let? issued := time_Parse (r_IssuedAt r) in
  let? expires := time_Parse (r_ExpiresAt r) in
  let revoked := match r_RevokedAt r with None => None | Some s => match time_Parse s with Ok t => Some t | Err _ => None end end in
  Ok (MkRecord (r_Nid r) (r_EntityType r) (r_Serial r) (r_PubKey r) caps (ScopeJSON r) (r_IssuedBy r) issued expires revoked (r_RevokeReason r)
        (MetadataJSON r) (r_NidRole r) (r_ParentNid r) (LineageJSON r)).

Definition scan_row (row : go_result certRow) : go_result NipCertRecord := let? r := row in mapRow r.

(** The first row as a record, with the error that the query ends with: rows after the
    first are not looked at, and a record that was found is returned with that error. *)
Definition queryFirst (q : string) (args : list sqlval) (w : W) : option NipCertRecord * option go_error :=
  let '(rows, err) := QueryRows exec q args w in
  match rows with
  | [] => (None, err)
  | row :: _ => match scan_row row with Err e => (None, Some e) | Ok rec => (Some rec, err) end
  end.

(** The records up to the first row that cannot be read, with the error. *)
Fixpoint scan_all (rows : list (go_result certRow)) : list NipCertRecord * option go_error :=
  match rows with
  | [] => ([], None)
  | row :: rows => match scan_row row with Err e => ([], Some e) | Ok rec => let '(out, err) := scan_all rows in (rec :: out, err) end
  end.

Definition queryMany (q : string) (args : list sqlval) (w : W) : list NipCertRecord * option go_error :=
  let '(rows, err) := QueryRows exec q args w in
  let '(out, failed) := scan_all rows in (out, match failed with Some e => Some e | None => err end).

Definition sql_GetByNid (nid : string) : W -> option NipCertRecord * option go_error := queryFirst select_by_nid [SqlText nid].
Definition sql_GetBySerial (serial : string) : W -> option NipCertRecord * option go_error := queryFirst select_by_serial [SqlText serial].

Definition sql_Revoke (nid reason : string) (revokedAt : Z) (w : W) : go_result bool * W :=
  let '(n, w) := Exec exec update_revoked [SqlText (isoTime revokedAt); SqlText reason; SqlText nid] w in
  (match n with Err e => Err e | Ok n => Ok (0 <? n) end, w).

(** The two statements of [NextSerial], each a step of its own. *)
Definition advance_serial (w : W) : go_result Z * W := Exec exec update_serial [] w.
Definition read_serial (w : W) : go_result string := let? next := QueryScalarInt64 exec select_serial w in Ok ("0x" +:+ fmt_X next).

Definition sql_NextSerial (w : W) : go_result string * W :=
  match advance_serial w with (Err e, w) => (Err e, w) | (Ok _, w) => (read_serial w, w) end.

Definition sql_List : W -> list NipCertRecord * option go_error := queryMany select_all [].
Definition sql_GetRevoked : W -> list NipCertRecord * option go_error := queryMany select_revoked [].
Definition sql_GetByParentNid (parentNid : string) : W -> list NipCertRecord * option go_error := queryMany select_by_parent [SqlText parentNid].

End Store.

(** ** The binding to database/sql

    A driver that does not report the rows it has affected is taken to have affected
    none. *)
Definition SqlDBExecutor {W} (db_Exec : string -> list sqlval -> W -> go_result (go_result Z) * W)
    (db_Query : string -> list sqlval -> W -> go_result (list (go_result certRow) * option go_error)) (db_QueryRow : string -> W -> go_result Z) : SqlCaExecutor W :=
  {| Exec := fun q args w => let '(res, w) := db_Exec q args w in (match res with Err e => Err e | Ok (Ok n) => Ok n | Ok (Err _) => Ok 0 end, w);
     QueryRows := fun q args w => match db_Query q args w with Err e => ([], Some e) | Ok x => x end;
     QueryScalarInt64 := db_QueryRow |}.
