(* ===== verification/NipSqlStoreProof.v ===== *)
(** * Properties of nip/sql_ca_store.go

    Over a database that does what SQL documents of the statements that the store sends
    (the class [SqlDatabase]), [SqlNipCaStore] refines the store in memory, as long as the
    two agree on what they promise; and where they do not. *)

From S2P Require Import Prelude GoUtf8 NipStore NipSqlStore.

(** ** What SQL documents *)

Definition text_le (a b : string) : Prop := String.leb a b = true.

(** [ORDER BY key DESC] over some rows; rows with one key come in any order. *)
Definition newest_first (key : certRow -> string) (rows l : list certRow) : Prop := l ≡ₚ rows /\ StronglySorted (fun a b => text_le (key b) (key a)) l.

Definition with_nid (nid : string) (r : certRow) : bool := String.eqb (r_Nid r) nid.
Definition with_serial (serial : string) (r : certRow) : bool := String.eqb (r_Serial r) serial.
Definition with_parent (nid : string) (r : certRow) : bool := match r_ParentNid r with Some p => String.eqb p nid | None => false end.
Definition revoked_row (r : certRow) : bool := match r_RevokedAt r with Some _ => true | None => false end.

Definition set_revoked (at_ reason : string) (r : certRow) : certRow :=
  MkRow (r_Nid r) (r_EntityType r) (r_Serial r) (r_PubKey r) (CapJSON r) (ScopeJSON r) (r_IssuedBy r) (r_IssuedAt r) (r_ExpiresAt r)
    (Some at_) (Some reason) (MetadataJSON r) (r_NidRole r) (r_ParentNid r) (LineageJSON r).

(** The values of the INSERT statement for a row. *)
Definition row_args (r : certRow) : list sqlval :=
  [SqlText (r_Nid r); SqlText (r_EntityType r); SqlText (r_Serial r); SqlText (r_PubKey r); SqlText (CapJSON r); SqlText (ScopeJSON r);
   SqlText (r_IssuedBy r); SqlText (r_IssuedAt r); SqlText (r_ExpiresAt r); nullString (MetadataJSON r); nullString (r_NidRole r);
   nullString (r_ParentNid r); nullString (LineageJSON r)].

(** A database with the table nip_certs, whose serials are UNIQUE, and the one row of
    nip_serial. *)
Class SqlDatabase {W} (exec : SqlCaExecutor W) := {
  table : W -> list certRow;
  seq : W -> Z;
  sql_insert r w : r_RevokedAt r = None -> r_RevokeReason r = None ->
    if existsb (with_serial (r_Serial r)) (table w) then exists e, Exec exec insert_cert (row_args r) w = (Err e, w)
    else exists w', Exec exec insert_cert (row_args r) w = (Ok 1, w') /\ table w' = table w ++ [r] /\ seq w' = seq w;
  sql_update at_ reason nid w : let live r := with_nid nid r && negb (revoked_row r) in
    exists w', Exec exec update_revoked [SqlText at_; SqlText reason; SqlText nid] w = (Ok (Z.of_nat (length (List.filter live (table w)))), w') /\
      table w' = (fun r => if live r then set_revoked at_ reason r else r) <$> table w /\ seq w' = seq w;
  sql_advance w : seq w + 1 < 2 ^ 63 -> exists w', Exec exec update_serial [] w = (Ok 1, w') /\ seq w' = seq w + 1 /\ table w' = table w;
  sql_seq w : QueryScalarInt64 exec select_serial w = Ok (seq w);
  sql_by_nid nid w : exists l, newest_first r_IssuedAt (List.filter (with_nid nid) (table w)) l /\
    QueryRows exec select_by_nid [SqlText nid] w = (Ok <$> take 1 l, None);
  sql_by_serial serial w : exists l, l ≡ₚ List.filter (with_serial serial) (table w) /\
    QueryRows exec select_by_serial [SqlText serial] w = (Ok <$> take 1 l, None);
  sql_all w : exists l, newest_first r_IssuedAt (table w) l /\ QueryRows exec select_all [] w = (Ok <$> l, None);
  sql_revoked w : exists l, newest_first (fun r => default "" (r_RevokedAt r)) (List.filter revoked_row (table w)) l /\
    QueryRows exec select_revoked [] w = (Ok <$> l, None);
  sql_by_parent nid w : exists l, newest_first r_IssuedAt (List.filter (with_parent nid) (table w)) l /\
    QueryRows exec select_by_parent [SqlText nid] w = (Ok <$> l, None)
}.

(** ** Records as rows *)

(** An instant in the seven digits of the format of [isoTime]. *)
Definition hundreds (t : Z) : Z := t - t mod 100.

Section Refinement.
Context (isoTime : Z -> string) (time_Parse : string -> go_result Z).
Context (marshal_caps : list string -> string) (unmarshal_caps : string -> go_result (list string)).
Context {W : Type} (exec : SqlCaExecutor W) `{DB : !SqlDatabase exec}.

(** Instants from 1970 on that are int64 nanoseconds. *)
Definition instant (t : Z) : Prop := 0 <= t < 2 ^ 63.

(** Lists of texts that are valid UTF-8. *)
Definition valid_texts (l : list string) : Prop := Forall (fun s => valid_utf8 (String.length s) s = true) l.

(** What time.Format and time.Parse document of that format, and encoding/json of lists
    of strings, which it keeps when they are valid UTF-8. *)
Hypothesis iso_roundtrip : forall t, instant t -> time_Parse (isoTime t) = Ok (hundreds t).
Hypothesis iso_order : forall t u, instant t -> instant u -> String.leb (isoTime t) (isoTime u) = (hundreds t <=? hundreds u).
Hypothesis caps_roundtrip : forall l, valid_texts l -> unmarshal_caps (marshal_caps l) = Ok l.
Hypothesis caps_text : forall l, marshal_caps l <> "".

Abbreviation Save_ := (sql_Save isoTime marshal_caps exec).
Abbreviation mapRow_ := (mapRow time_Parse unmarshal_caps).
Abbreviation GetByNid_ := (sql_GetByNid time_Parse unmarshal_caps exec).
Abbreviation GetBySerial_ := (sql_GetBySerial time_Parse unmarshal_caps exec).
Abbreviation Revoke_ := (sql_Revoke isoTime exec).
Abbreviation NextSerial_ := (sql_NextSerial exec).
Abbreviation List__ := (sql_List time_Parse unmarshal_caps exec).
Abbreviation GetRevoked_ := (sql_GetRevoked time_Parse unmarshal_caps exec).
Abbreviation GetByParentNid_ := (sql_GetByParentNid time_Parse unmarshal_caps exec).

Definition row_of (r : NipCertRecord) : certRow :=
  MkRow (c_Nid r) (c_EntityType r) (c_Serial r) (c_PubKey r) (marshal_caps (c_Capabilities r)) (c_ScopeJson r) (c_IssuedBy r)
    (isoTime (c_IssuedAt r)) (isoTime (c_ExpiresAt r)) (isoTime <$> c_RevokedAt r) (c_RevokeReason r) (c_MetadataJson r) (c_NidRole r)
    (c_ParentNid r) (c_LineageJson r).

(** The record with its instants as the database keeps them. *)
Definition stored (r : NipCertRecord) : NipCertRecord :=
  MkRecord (c_Nid r) (c_EntityType r) (c_Serial r) (c_PubKey r) (c_Capabilities r) (c_ScopeJson r) (c_IssuedBy r)
    (hundreds (c_IssuedAt r)) (hundreds (c_ExpiresAt r)) (hundreds <$> c_RevokedAt r) (c_RevokeReason r) (c_MetadataJson r) (c_NidRole r)
    (c_ParentNid r) (c_LineageJson r).

(** The instants and the capabilities are ones that their texts keep. *)
Definition dated (r : NipCertRecord) : Prop :=
  instant (c_IssuedAt r) /\ instant (c_ExpiresAt r) /\ from_option instant True (c_RevokedAt r) /\ valid_texts (c_Capabilities r).

Lemma row_roundtrip r : dated r -> mapRow_ (row_of r) = Ok (stored r).
Proof.
  intros (Hi & He & Hr & Hcaps). unfold mapRow, row_of, stored. cbn. rewrite caps_roundtrip, !iso_roundtrip by done. destruct (String.eqb_spec (marshal_caps (c_Capabilities r)) "") as [E|_]; [by destruct (caps_text _ E)|].
  destruct (c_RevokedAt r); cbn in *; [by rewrite iso_roundtrip|done].
Qed.

Lemma scan_rows l : Forall dated l -> scan_all time_Parse unmarshal_caps (Ok <$> (row_of <$> l)) = (stored <$> l, None).
Proof. induction 1 as [|r l Hr _ IH]; [done|]. rewrite !fmap_cons. cbn [scan_all scan_row]. rewrite row_roundtrip by done. by rewrite IH. Qed.

Lemma filter_rows f g l : (forall r, f (row_of r) = g r) -> List.filter f (row_of <$> l) = row_of <$> List.filter g l.
Proof. intros Hf. induction l as [|r l IH]; [done|]. rewrite fmap_cons. cbn [List.filter]. rewrite Hf, IH. by destruct (g r). Qed.

(** ** The operations, on both stores *)

Inductive op : Type :=
| OSave (r : NipCertRecord) | OGetByNid (nid : string) | OGetBySerial (serial : string) | ORevoke (nid reason : string) (revokedAt : Z)
| ONextSerial | OList | OGetRevoked | OGetByParentNid (nid : string).

(** What an operation returns; the text of an error is left out. *)
Inductive obs : Type :=
| Saved (ok : bool) | Found (r : option NipCertRecord) | Revoked (done : bool) | Serial (s : string) | Records (l : list NipCertRecord) | Failed.

Definition run_memory (o : op) (st : InMemoryNipCaStore) : obs * InMemoryNipCaStore :=
  match o with
  | OSave r => match Save st r with Ok st => (Saved true, st) | Err _ => (Saved false, st) end
  | OGetByNid nid => (Found (GetByNid st nid), st)
  | OGetBySerial serial => (Found (GetBySerial st serial), st)
  | ORevoke nid reason t => let '(b, st) := Revoke st nid reason t in (Revoked b, st)
  | ONextSerial => let '(s, st) := NextSerial st in (Serial s, st)
  | OList => (Records (List_ st), st)
  | OGetRevoked => (Records (GetRevoked st), st)
  | OGetByParentNid nid => (Records (GetByParentNid st nid), st)
  end.

(** What a query returns, with its error. *)
Definition queried {A} (f : A -> obs) (x : A * option go_error) : obs := match x.2 with None => f x.1 | Some _ => Failed end.

Definition observed {A} (f : A -> obs) (x : go_result A) : obs := match x with Ok a => f a | Err _ => Failed end.

Definition run_sql (o : op) (w : W) : obs * W :=
  match o with
  | OSave r => match Save_ r w with (Ok _, w) => (Saved true, w) | (Err _, w) => (Saved false, w) end
  | OGetByNid nid => (queried Found (GetByNid_ nid w), w)
  | OGetBySerial serial => (queried Found (GetBySerial_ serial w), w)
  | ORevoke nid reason t => let '(b, w) := Revoke_ nid reason t w in (observed Revoked b, w)
  | ONextSerial => let '(s, w) := NextSerial_ w in (observed Serial s, w)
  | OList => (queried Records (List__ w), w)
  | OGetRevoked => (queried Records (GetRevoked_ w), w)
  | OGetByParentNid nid => (queried Records (GetByParentNid_ nid w), w)
  end.

(** The database gives the same answers, with the instants it keeps, and its lists in an
    order of their own. *)
Inductive agree : obs -> obs -> Prop :=
| agree_saved b : agree (Saved b) (Saved b)
| agree_found r : agree (Found r) (Found (stored <$> r))
| agree_revoked b : agree (Revoked b) (Revoked b)
| agree_serial s : agree (Serial s) (Serial s)
| agree_records l l' : l' ≡ₚ stored <$> l -> agree (Records l) (Records l').

Definition live_of (nid : string) (r : NipCertRecord) : bool := String.eqb (c_Nid r) nid && negb (is_revoked r).

(** Where the two stores promise the same: a record that is saved is not revoked, its
    instants are int64 nanoseconds and its capabilities valid UTF-8; the newest record of
    the NID that is asked for is the one saved last, by more than the resolution of the
    text; the NID to be revoked has at most one live record; the serials have not run out. *)
Definition clean (o : op) (st : InMemoryNipCaStore) : Prop :=
  match o with
  | OSave r => c_RevokedAt r = None /\ c_RevokeReason r = None /\ dated r
  | OGetByNid nid => forall l r, List.filter (fun r => String.eqb (c_Nid r) nid) (records st) = l ++ [r] ->
      Forall (fun r' => hundreds (c_IssuedAt r') < hundreds (c_IssuedAt r)) l
  | ORevoke nid _ t => instant t /\ (length (List.filter (live_of nid) (records st)) <= 1)%nat
  | ONextSerial => 0 <= st_serial st < 2 ^ 63 - 1
  | _ => True
  end.

Definition represents (st : InMemoryNipCaStore) (w : W) : Prop :=
  table w = row_of <$> records st /\ seq w = st_serial st /\ NoDup (c_Serial <$> records st) /\ Forall dated (records st).

Lemma exists_row serial l : existsb (with_serial serial) (row_of <$> l) = existsb (fun r => String.eqb (c_Serial r) serial) l.
Proof. induction l as [|r l IH]; [done|]. rewrite fmap_cons. cbn [existsb]. by rewrite IH. Qed.

Lemma save_refines r st w : represents st w -> clean (OSave r) st ->
  agree (run_memory (OSave r) st).1 (run_sql (OSave r) w).1 /\ represents (run_memory (OSave r) st).2 (run_sql (OSave r) w).2.
Proof.
  intros (Ht & Hs & Hn & Hd) (Hr & Hrr & Hdr). cbn [run_memory run_sql]. unfold Save, sql_Save.
  change (Exec exec insert_cert _ w) with (Exec exec insert_cert (row_args (row_of r)) w).
  pose proof (sql_insert (row_of r) w) as Hi. rewrite Ht, exists_row in Hi. cbn [r_Serial row_of r_RevokedAt r_RevokeReason] in Hi. rewrite Hr, Hrr in Hi. specialize (Hi eq_refl eq_refl).
  destruct (existsb _ (records st)) eqn:Ex.
  - destruct Hi as (e & ->). split; [constructor|done].
  - destruct Hi as (w' & -> & Ht' & Hs'). split; [constructor|]. cbn [fst snd]. unfold represents. cbn [records st_serial]. split_and!.
    + by rewrite Ht', fmap_app.
    + by rewrite Hs'.
    + rewrite fmap_app. apply NoDup_app. split_and!; [done| |apply NoDup_singleton]. intros s Hin. apply list_elem_of_fmap in Hin as (r' & -> & Hin).
      intros E%list_elem_of_singleton. apply Bool.not_true_iff_false in Ex. apply Ex, existsb_exists. exists r'. split; [by apply list_elem_of_In|]. by rewrite E, String.eqb_refl.
    + apply Forall_app. split; [done|]. by apply Forall_singleton.
Qed.

Lemma live_row nid r : with_nid nid (row_of r) && negb (revoked_row (row_of r)) = live_of nid r.
Proof. unfold live_of, is_revoked, with_nid, revoked_row, row_of. cbn. by destruct (c_RevokedAt r). Qed.

(** Revoking the only live record of a NID from the last one down and in one statement. *)
Lemma revoke_one nid reason t l : (length (List.filter (live_of nid) l) <= 1)%nat ->
  match revoke_last nid reason t l with
  | Some l' => length (List.filter (live_of nid) l) = 1%nat /\ l' = (fun r => if live_of nid r then mark_revoked reason t r else r) <$> l
  | None => List.filter (live_of nid) l = []
  end.
Proof.
  induction l as [|r l IH]; [done|]. cbn [List.filter revoke_last]. rewrite !fmap_cons. change (String.eqb (c_Nid r) nid && negb (is_revoked r)) with (live_of nid r).
  destruct (live_of nid r) eqn:El; cbn [length]; intros Hl.
  - assert (E : List.filter (live_of nid) l = []) by (destruct (List.filter _ _); [done|cbn in Hl; lia]). rewrite E in IH. specialize (IH ltac:(cbn; lia)).
    destruct (revoke_last nid reason t l); [by destruct IH as [? _]|]. rewrite E. split; [done|]. f_equal. clear -E.
    induction l as [|r' l IH]; [done|]. cbn [List.filter] in E. rewrite fmap_cons. destruct (live_of nid r'); [done|]. by rewrite <- IH.
  - specialize (IH Hl). destruct (revoke_last nid reason t l); [|done]. destruct IH as [Hc ->]. by split.
Qed.

Lemma serials_kept f (l : list NipCertRecord) : (forall r, c_Serial (f r) = c_Serial r) -> c_Serial <$> (f <$> l) = c_Serial <$> l.
Proof. intros Hf. rewrite <- list_fmap_compose. apply list_fmap_ext. intros ? r _. apply Hf. Qed.

Lemma revoke_refines nid reason t st w : represents st w -> clean (ORevoke nid reason t) st ->
  agree (run_memory (ORevoke nid reason t) st).1 (run_sql (ORevoke nid reason t) w).1 /\
  represents (run_memory (ORevoke nid reason t) st).2 (run_sql (ORevoke nid reason t) w).2.
Proof.
  intros (Ht & Hs & Hn & Hd) [Hi Hc]. cbn [run_memory run_sql]. unfold Revoke, sql_Revoke.
  destruct (sql_update (isoTime t) reason nid w) as (w' & -> & Ht' & Hs'). rewrite Ht, (filter_rows _ (live_of nid)) in * by apply live_row.
  rewrite length_fmap. pose proof (revoke_one nid reason t _ Hc) as Hone.
  assert (Hrows : table w' = row_of <$> ((fun r => if live_of nid r then mark_revoked reason t r else r) <$> records st)).
  { rewrite Ht', <- !list_fmap_compose. apply list_fmap_ext. intros ? r _. cbn [compose]. unfold compose. rewrite live_row. by destruct (live_of nid r). }
  destruct (revoke_last nid reason t (records st)) as [l|].
  - destruct Hone as [-> ->]. cbn [observed fst snd]. split; [constructor|]. unfold represents. cbn [records st_serial]. rewrite serials_kept by (intros r; by destruct (live_of nid r)).
    rewrite Hs'. split_and!; [done..|]. apply Forall_fmap. eapply Forall_impl; [exact Hd|]. intros r (H1 & H2 & H3 & H4). cbn. by destruct (live_of nid r).
  - rewrite Hone. cbn [observed fst snd length]. split; [constructor|]. unfold represents. rewrite Hs'. split_and!; [|done..]. rewrite Hrows. f_equal. clear -Hone.
    induction (records st) as [|r l IH]; [done|]. cbn [List.filter] in Hone. rewrite fmap_cons. destruct (live_of nid r); [done|]. by rewrite IH.
Qed.

Lemma serial_refines st w : represents st w -> clean ONextSerial st ->
  agree (run_memory ONextSerial st).1 (run_sql ONextSerial w).1 /\ represents (run_memory ONextSerial st).2 (run_sql ONextSerial w).2.
Proof.
  intros (Ht & Hs & Hn & Hd) Hc. cbn [clean] in Hc. cbn [run_memory run_sql]. unfold NextSerial, sql_NextSerial, advance_serial, read_serial.
  assert (Hb : seq w + 1 < 2 ^ 63) by (rewrite Hs; lia). destruct (sql_advance w Hb) as (w' & -> & Hs' & Ht'). rewrite sql_seq. cbn [observed fst snd]. rewrite Hs', Hs, wraps_small by (cbn; lia).
  split; [constructor|]. unfold represents. cbn [records st_serial]. by rewrite Ht', Hs', Hs.
Qed.

(** *** Queries *)

Lemma many_refines q args w l rows : Forall dated l -> (exists sorted, sorted ≡ₚ rows /\ QueryRows exec q args w = (Ok <$> sorted, None)) -> rows = row_of <$> l ->
  exists l', queryMany time_Parse unmarshal_caps exec q args w = (l', None) /\ l' ≡ₚ stored <$> l.
Proof.
  intros Hd (sorted & Hp & Hq) ->. apply Permutation_map_inv in Hp as (l' & -> & Hp). unfold queryMany. rewrite Hq.
  change (List.map row_of l') with (row_of <$> l'). rewrite scan_rows by (by rewrite <- Hp). eexists. split; [done|]. by rewrite Hp.
Qed.

Lemma find_filter {A} (f : A -> bool) l : List.find f l = head (List.filter f l).
Proof. induction l as [|x l IH]; [done|]. cbn. by destruct (f x). Qed.

Lemma filter_reverse {A} (f : A -> bool) l : List.filter f (reverse l) = reverse (List.filter f l).
Proof.
  induction l as [|x l IH]; [done|]. rewrite reverse_cons, List.filter_app, IH. cbn [List.filter]. destruct (f x); [by rewrite reverse_cons|by rewrite app_nil_r].
Qed.

Lemma dated_filter f l : Forall dated l -> Forall dated (List.filter f l).
Proof. rewrite !Forall_forall. intros Hl r Hr%list_elem_of_In%filter_In. apply Hl, list_elem_of_In, Hr. Qed.

(** The head of the sorted rows, when the last of them is newer than the others. *)
Lemma newest_is_last l r sorted : Forall dated (l ++ [r]) -> Forall (fun r' => hundreds (c_IssuedAt r') < hundreds (c_IssuedAt r)) l ->
  newest_first r_IssuedAt (row_of <$> (l ++ [r])) sorted -> exists rest, sorted = row_of r :: rest.
Proof.
  intros Hd Hl [Hp Hs]. assert (Hin : row_of r ∈ sorted) by (rewrite Hp; apply list_elem_of_fmap; exists r; split; [done|]; apply elem_of_app; right; by left).
  destruct sorted as [|r0 rest]; [by apply not_elem_of_nil in Hin|]. apply elem_of_cons in Hin as [<-|Hin]; [by eexists|].
  assert (H0 : r0 ∈ row_of <$> (l ++ [r])) by (rewrite <- Hp; by left). apply list_elem_of_fmap in H0 as (r' & -> & H0).
  apply elem_of_app in H0 as [H0| ->%list_elem_of_singleton]; [|by eexists]. exfalso. rewrite Forall_forall in Hl. specialize (Hl _ H0).
  apply StronglySorted_inv in Hs as [_ Hs]. rewrite Forall_forall in Hs. specialize (Hs _ Hin). unfold text_le in Hs. cbn in Hs.
  rewrite Forall_forall in Hd. assert (Hdr : dated r) by (apply Hd, elem_of_app; right; by left). assert (Hdr' : dated r') by (apply Hd, elem_of_app; by left).
  rewrite iso_order in Hs by (by apply Hdr || apply Hdr'). apply Z.leb_le in Hs. lia.
Qed.

Lemma by_nid_refines nid st w : represents st w -> clean (OGetByNid nid) st -> agree (Found (GetByNid st nid)) (queried Found (GetByNid_ nid w)).
Proof.
  intros (Ht & _ & _ & Hd) Hc. cbn [clean] in Hc. assert (Hdn : Forall dated (List.filter (fun r => String.eqb (c_Nid r) nid) (records st))) by by apply dated_filter.
  destruct (sql_by_nid nid w) as (sorted & Hsort & Hq). unfold sql_GetByNid. rewrite Ht, (filter_rows _ (fun r => String.eqb (c_Nid r) nid)) in Hsort by done.
  unfold GetByNid. rewrite find_filter, filter_reverse. destruct (List.filter _ (records st)) as [|r l _] eqn:El using rev_ind.
  - destruct Hsort as [Hp%Permutation_nil_r _]. unfold queryFirst. rewrite Hq, Hp. constructor.
  - rewrite reverse_snoc. destruct (newest_is_last l r sorted Hdn (Hc _ _ eq_refl) Hsort) as [rest ->]. unfold queryFirst. rewrite Hq. cbn.
    apply Forall_app in Hdn as [_ Hdn%Forall_inv]. rewrite (row_roundtrip r Hdn). cbn. constructor.
Qed.

Lemma by_serial_refines serial st w : represents st w -> agree (Found (GetBySerial st serial)) (queried Found (GetBySerial_ serial w)).
Proof.
  intros (Ht & _ & Hn & Hd). assert (Hdn : Forall dated (List.filter (fun r => String.eqb (c_Serial r) serial) (records st))) by by apply dated_filter.
  destruct (sql_by_serial serial w) as (l & Hp & Hq). rewrite Ht, (filter_rows _ (fun r => String.eqb (c_Serial r) serial)) in Hp by done.
  unfold GetBySerial. rewrite find_filter. assert (Hone : (length (List.filter (fun r => String.eqb (c_Serial r) serial) (records st)) <= 1)%nat).
  { clear -Hn. induction (records st) as [|r rs IH]; [cbn; lia|]. rewrite fmap_cons in Hn. apply NoDup_cons in Hn as [Hr Hn]. cbn [List.filter].
    destruct (String.eqb_spec (c_Serial r) serial) as [<-|]; [|by apply IH]. cbn [length]. replace (List.filter _ rs) with (@nil NipCertRecord); [cbn; lia|].
    clear -Hr. induction rs as [|r' rs IH]; [done|]. rewrite fmap_cons in Hr. apply not_elem_of_cons in Hr as [Hne Hr]. cbn [List.filter].
    destruct (String.eqb_spec (c_Serial r') (c_Serial r)); [done|by apply IH]. }
  apply Permutation_map_inv in Hp as (l' & -> & Hp). unfold sql_GetBySerial, queryFirst. rewrite Hq.
  destruct (List.filter _ (records st)) as [|r [|r' rs]]; [|apply Permutation_length_1_inv in Hp as ->|cbn in Hone; lia].
  - apply Permutation_nil_l in Hp as <-. constructor.
  - cbn. apply Forall_inv in Hdn. rewrite (row_roundtrip r Hdn). cbn. constructor.
Qed.

Lemma revoked_of r : revoked_row (row_of r) = is_revoked r.
Proof. unfold revoked_row, is_revoked. cbn. by destruct (c_RevokedAt r). Qed.

Lemma lists_refine q args w l rows key : Forall dated l -> (exists sorted, newest_first key rows sorted /\ QueryRows exec q args w = (Ok <$> sorted, None)) -> rows = row_of <$> l ->
  agree (Records l) (queried Records (queryMany time_Parse unmarshal_caps exec q args w)).
Proof.
  intros Hd (sorted & [Hp _] & Hq) Hr. destruct (many_refines q args w l rows Hd) as (l' & -> & Hl); [by eexists|done|]. by constructor.
Qed.

(** One operation. *)
Lemma step_refines o st w : represents st w -> clean o st ->
  agree (run_memory o st).1 (run_sql o w).1 /\ represents (run_memory o st).2 (run_sql o w).2.
Proof.
  intros Hr Hc. pose proof Hr as (Ht & _ & _ & Hd). destruct o as [r|nid|serial|nid reason t| | | |nid].
  - by apply save_refines.
  - split; [by apply by_nid_refines|done].
  - split; [by apply by_serial_refines|done].
  - by apply revoke_refines.
  - by apply serial_refines.
  - split; [|done]. apply (lists_refine _ _ _ _ _ _ Hd (sql_all w)). by rewrite Ht.
  - split; [|done]. apply (lists_refine _ _ _ _ _ _ (dated_filter _ _ Hd) (sql_revoked w)). rewrite Ht. apply filter_rows, revoked_of.
  - split; [|done]. apply (lists_refine _ _ _ _ _ _ (dated_filter _ _ Hd) (sql_by_parent nid w)). rewrite Ht. by apply filter_rows.
Qed.

(** A history of operations, and what it returns. *)
Fixpoint run {S} (step : op -> S -> obs * S) (ops : list op) (s : S) : list obs * S :=
  match ops with [] => ([], s) | o :: ops => let '(x, s) := step o s in let '(l, s) := run step ops s in (x :: l, s) end.

Fixpoint clean_run (ops : list op) (st : InMemoryNipCaStore) : Prop :=
  match ops with [] => True | o :: ops => clean o st /\ clean_run ops (run_memory o st).2 end.

(** C37. Over a database that does what SQL documents of the statements sent to it, the
    store in a database refines the store in memory: a history of operations returns
    the same from both, but for the order of lists and for instants, which the database
    keeps to a hundred nanoseconds, and the table holds the records of the store in
    memory. This is for histories in which a record that is saved is not yet revoked,
    its instants are int64 nanoseconds from 1970 on and its capabilities valid UTF-8; a
    NID is looked up only when the record saved for it last is the newest one by more
    than a hundred nanoseconds; a NID is revoked, at such an instant, only while it has
    at most one live record; and the serials stay below 2^63-1. Elsewhere the two may
    differ. *)
Theorem sql_refines_memory ops st w : represents st w -> clean_run ops st ->
  Forall2 agree (run run_memory ops st).1 (run run_sql ops w).1 /\ represents (run run_memory ops st).2 (run run_sql ops w).2.
Proof.
  revert st w. induction ops as [|o ops IH]; intros st w Hr; [by split; [constructor|]|]. intros [Hc Hcs]. destruct (step_refines o st w Hr Hc) as [Ha Hr'].
  cbn [run]. destruct (run_memory o st) as [x st'], (run_sql o w) as [y w']. cbn [fst snd] in *. specialize (IH st' w' Hr' Hcs).
  destruct (run run_memory ops st'), (run run_sql ops w'). destruct IH as [IH IHr]. split; [by constructor|done].
Qed.

(** *** Where they differ *)

(** A revocation in the database reaches every record of the NID; the store in memory
    marks the newest live one. *)
Theorem sql_revokes_all nid reason t w r w' : Revoke_ nid reason t w = (r, w') -> Forall (fun row => r_Nid row = nid -> r_RevokedAt row <> None) (table w').
Proof.
  unfold sql_Revoke. destruct (sql_update (isoTime t) reason nid w) as (w1 & -> & Ht & _). intros [= _ <-]. rewrite Ht. apply Forall_fmap, Forall_forall. intros row _ Hn. cbn in *.
  unfold with_nid, revoked_row in *. destruct (String.eqb_spec (r_Nid row) nid) as [E|E]; cbn [andb] in *; [|done]. by destruct (r_RevokedAt row) eqn:Er; cbn in *; rewrite ?Er.
Qed.

(** Two calls of [NextSerial] whose statements interleave return one serial. *)
Lemma serials_race w w1 w2 a b : seq w + 2 < 2 ^ 63 -> advance_serial exec w = (a, w1) -> advance_serial exec w1 = (b, w2) ->
  read_serial exec w2 = Ok ("0x" +:+ fmt_X (seq w + 2)).
Proof.
  intros Hb Ha Hb'. assert (H1 : seq w + 1 < 2 ^ 63) by lia. destruct (sql_advance w H1) as (? & E1 & S1 & _). unfold advance_serial in *. rewrite E1 in Ha. injection Ha as _ <-.
  rewrite <- S1 in *. assert (H2 : seq x + 1 < 2 ^ 63) by lia. destruct (sql_advance x H2) as (y & E2 & S2 & _). rewrite E2 in Hb'. injection Hb' as _ <-.
  unfold read_serial. rewrite sql_seq, S2, S1. do 3 f_equal. lia.
Qed.
End Refinement.

(** ** A database in memory, for the witnesses *)

Module Toy.

Definition db : Type := list certRow * Z.

(** Rows from the newest one on. *)
Definition newer (key : certRow -> string) (a b : certRow) : Prop := text_le (key b) (key a).
#[export] Instance newer_dec key : RelDecision (newer key). Proof. intros a b. unfold newer, text_le. apply _. Defined.
#[export] Instance newer_trans key : Transitive (newer key).
Proof. unfold newer, text_le. intros a b c. rewrite <- !Is_true_true. intros Hab Hbc. change (String.le (key c) (key a)). by transitivity (key b). Qed.
#[export] Instance newer_total key : Total (newer key).
Proof. intros a b. unfold newer, text_le. destruct (String.leb_total (key b) (key a)); auto. Qed.

Definition order (key : certRow -> string) (rows : list certRow) : list certRow := merge_sort (newer key) rows.

Lemma order_newest key rows : newest_first key rows (order key rows).
Proof. split; [apply merge_sort_Permutation|apply (StronglySorted_merge_sort (newer key))]. Qed.

Definition exec_stmt (q : string) (args : list sqlval) (w : db) : go_result Z * db :=
  let '(rows, n) := w in
  if String.eqb q insert_cert then
    match args with
    | [SqlText a; SqlText b; SqlText c; SqlText d; SqlText e; SqlText f; SqlText g; SqlText h; SqlText i; j; k; l; m] =>
        let opt v := match v with SqlNull => None | SqlText s => Some s end in
        if existsb (with_serial c) rows then (Err (ErrPlain "unique"), w)
        else (Ok 1, (rows ++ [MkRow a b c d e f g h i None None (opt j) (opt k) (opt l) (opt m)], n))
    | _ => (Err (ErrPlain "arguments"), w)
    end
  else if String.eqb q update_revoked then
    match args with
    | [SqlText at_; SqlText reason; SqlText nid] =>
        let live r := with_nid nid r && negb (revoked_row r) in
        (Ok (Z.of_nat (length (List.filter live rows))), ((fun r => if live r then set_revoked at_ reason r else r) <$> rows, n))
    | _ => (Err (ErrPlain "arguments"), w)
    end
  else if String.eqb q update_serial then (Ok 1, (rows, n + 1))
  else (Ok 0, w).

Definition query (q : string) (args : list sqlval) (w : db) : list (go_result certRow) * option go_error :=
  let rows := w.1 in
  match args with
  | [SqlText x] =>
      if String.eqb q select_by_nid then (Ok <$> take 1 (order r_IssuedAt (List.filter (with_nid x) rows)), None)
      else if String.eqb q select_by_serial then (Ok <$> take 1 (List.filter (with_serial x) rows), None)
      else (Ok <$> order r_IssuedAt (List.filter (with_parent x) rows), None)
  | _ =>
      if String.eqb q select_all then (Ok <$> order r_IssuedAt rows, None)
      else (Ok <$> order (fun r => default "" (r_RevokedAt r)) (List.filter revoked_row rows), None)
  end.

Definition executor : SqlCaExecutor db := {| Exec := exec_stmt; QueryRows := query; QueryScalarInt64 := fun _ w => Ok w.2 |}.

#[global] Program Instance database : SqlDatabase executor := {| table := fst; seq := snd |}.
Next Obligation.
  intros r [rows n] Hr Hrr. cbn. destruct (existsb _ rows); [by eexists|]. eexists. split; [done|]. split; [|done]. cbn. do 2 f_equal.
  destruct r as [????????? rv rr m ro pa li]; cbn in *; subst. by destruct m, ro, pa, li.
Qed.
Next Obligation. intros at_ reason nid [rows n]. eexists. by split. Qed.
Next Obligation. intros [rows n] _. eexists. by split. Qed.
Next Obligation. done. Qed.
Next Obligation. intros nid [rows n]. eexists. split; [apply order_newest|done]. Qed.
Next Obligation. intros serial [rows n]. eexists. by split. Qed.
Next Obligation. intros [rows n]. eexists. split; [apply order_newest|done]. Qed.
Next Obligation. intros [rows n]. eexists. split; [apply order_newest|done]. Qed.
Next Obligation. intros nid [rows n]. eexists. split; [apply order_newest|done]. Qed.

(** Instants by the length of a text, lists of strings with marks. *)
Fixpoint ones (n : nat) : string := match n with O => "" | S n => String (chr 49) (ones n) end.
Definition iso (t : Z) : string := ones (Z.to_nat (t / 100)).
Definition parse_iso (s : string) : go_result Z := Ok (100 * Z.of_nat (String.length s)).

Lemma length_ones n : String.length (ones n) = n.
Proof. induction n as [|n IH]; cbn; congruence. Qed.

Lemma ones_order n m : String.leb (ones n) (ones m) = (n <=? m)%nat.
Proof. revert m. induction n as [|n IH]; intros [|m]; [done..|]. apply IH. Qed.

Lemma iso_parses t : instant t -> parse_iso (iso t) = Ok (hundreds t).
Proof. intros [Ht _]. unfold parse_iso, iso, hundreds. rewrite length_ones. f_equal. pose proof (Z.div_pos t 100). pose proof (Z.div_mod t 100). lia. Qed.

Lemma iso_sorts t u : instant t -> instant u -> String.leb (iso t) (iso u) = (hundreds t <=? hundreds u).
Proof.
  intros [Ht _] [Hu _]. unfold iso, hundreds. rewrite ones_order. pose proof (Z.div_pos t 100). pose proof (Z.div_mod t 100). pose proof (Z.div_pos u 100). pose proof (Z.div_mod u 100).
  apply Bool.eq_iff_eq_true. rewrite Nat.leb_le, Z.leb_le. lia.
Qed.

Fixpoint item (s : string) : string := match s with "" => "," | String c s => String (chr 39) (String c (item s)) end.
Definition caps_of (l : list string) : string := String (chr 91) (foldr (fun s t => item s +:+ t) "" l).

Fixpoint items (cur s : string) : list string :=
  match s with
  | "" => []
  | String mark s =>
      if Ascii.eqb mark (chr 39) then match s with String c s => items (cur +:+ String c "") s | "" => [] end
      else cur :: items "" s
  end.
Definition parse_caps (s : string) : go_result (list string) := match s with String _ s => Ok (items "" s) | "" => Ok [] end.

Lemma items_item s : forall cur rest, items cur (item s +:+ rest) = (cur +:+ s) :: items "" rest.
Proof.
  induction s as [|c s IH]; intros cur rest; [cbn; by rewrite str_app_nil_r|].
  change (items cur (item (String c s) +:+ rest)) with (items (cur +:+ String c "") (item s +:+ rest)). by rewrite IH, str_app_assoc.
Qed.

Lemma caps_parses l : valid_texts l -> parse_caps (caps_of l) = Ok l.
Proof. intros _. cbn. f_equal. induction l as [|s l IH]; [done|]. cbn [foldr]. by rewrite items_item, IH. Qed.

Lemma caps_not_empty l : caps_of l <> "". Proof. done. Qed.

Definition cert (nid serial : string) (t : Z) : NipCertRecord := MkRecord nid "agent" serial "key" ["nwp:query"] "{}" "ca" t (t + 1000) None None None None (Some "root") None.

(** Two certificates are saved, a serial used twice, the older NID is revoked, and then
    the tables are read. *)
Definition history : list op :=
  [OSave (cert "a" "0x1" 250); OSave (cert "b" "0x2" 350); OSave (cert "c" "0x2" 450); ONextSerial; ORevoke "a" "lost" 777; ORevoke "a" "lost" 888;
   OGetByNid "a"; OGetBySerial "0x2"; OList; OGetRevoked; OGetByParentNid "root"].
End Toy.

(** After the history the last answers of the database are the records from the newest
    one on. *)
Lemma sql_refines_memory_witness :
  Forall2 agree (run run_memory Toy.history NewInMemoryNipCaStore).1
    (run (run_sql Toy.iso Toy.parse_iso Toy.caps_of Toy.parse_caps Toy.executor) Toy.history ([], 0)).1 /\
  (run (run_sql Toy.iso Toy.parse_iso Toy.caps_of Toy.parse_caps Toy.executor) Toy.history ([], 0)).1 !! 8%nat =
    Some (Records [stored (Toy.cert "b" "0x2" 350); stored (mark_revoked "lost" 777 (Toy.cert "a" "0x1" 250))]).
Proof.
  split; [|vm_compute; reflexivity].
  eapply proj1, (sql_refines_memory Toy.iso Toy.parse_iso Toy.caps_of Toy.parse_caps Toy.executor (DB := Toy.database) Toy.iso_parses Toy.iso_sorts Toy.caps_parses Toy.caps_not_empty
           Toy.history NewInMemoryNipCaStore ([], 0)).
  - repeat split; constructor.
  - repeat split; try (cbn; lia); try (by apply Forall_singleton). intros l r E. vm_compute in E. destruct l as [|r0 [|r1 l]]; [constructor|discriminate E..].
Defined.

Lemma sql_revokes_all_witness : let w := ([row_of Toy.iso Toy.caps_of (Toy.cert "a" "0x1" 250); row_of Toy.iso Toy.caps_of (Toy.cert "a" "0x2" 350)], 2) in
  let w' := (sql_Revoke Toy.iso Toy.executor "a" "lost" 777 w).2 in
  Forall (fun row => r_Nid row = "a" -> r_RevokedAt row <> None) (table (exec := Toy.executor) w') /\ List.map r_RevokedAt w'.1 = [Some (Toy.iso 777); Some (Toy.iso 777)].
Proof.
  intros w w'. split; [|vm_compute; reflexivity].
  apply (sql_revokes_all Toy.iso Toy.executor "a" "lost" 777 w (Ok true)). unfold w'. vm_compute. reflexivity.
Defined.

(** A revoked certificate reads as a live one when the text of its revocation does not
    parse. *)
Lemma unparsable_revocation time_Parse unmarshal_caps r s e : r_RevokedAt r = Some s -> time_Parse s = Err e ->
  match mapRow time_Parse unmarshal_caps r with Ok rec => is_revoked rec = false | Err _ => True end.
Proof.
  intros Hr Hs. unfold mapRow. rewrite Hr, Hs. destruct (if String.eqb (CapJSON r) "" then _ else _); [|done]. cbn.
  destruct (time_Parse (r_IssuedAt r)); [|done]. cbn. by destruct (time_Parse (r_ExpiresAt r)).
Qed.

(** Over a driver that does not report the rows it has affected, [Revoke] answers that
    it has found nothing to revoke. *)
Lemma unreported_revocation {W} isoTime db_Exec db_Query db_QueryRow nid reason t (w : W) w' e :
  db_Exec update_revoked [SqlText (isoTime t); SqlText reason; SqlText nid] w = (Ok (Err e), w') ->
  sql_Revoke isoTime (SqlDBExecutor db_Exec db_Query db_QueryRow) nid reason t w = (Ok false, w').
Proof. intros E. unfold sql_Revoke. cbn [Exec SqlDBExecutor]. by rewrite E. Qed.
