(* ===== verification/NipPath.v ===== *)
(** * NIP scope patterns

    [NwpPathMatches] of nip/verifier.go.  [strings.ToLower] and [strings.EqualFold]
    have an ASCII path, written out here, and a path over the Unicode case tables,
    which are parameters. *)

From S2P Require Import Prelude.

(** ** Case *)

Definition ascii_char (c : Ascii.ascii) : bool := char_z c <? 0x80.
Definition is_ascii (s : string) : bool := str_forall ascii_char s.

Fixpoint map_string (f : Ascii.ascii -> Ascii.ascii) (s : string) : string :=
  match s with EmptyString => EmptyString | String c r => String (f c) (map_string f r) end.

Definition ascii_lower (s : string) : string := map_string lower s.

Definition has_suffix (suffix s : string) : bool := has_prefix (String.rev suffix) (String.rev s).

Section Unicode.
(** [strings.Map(unicode.ToLower, s)], and the folding comparison of runes. *)
Context (unicode_ToLower : string -> string) (unicode_EqualFold : string -> string -> bool).

Definition strings_ToLower (s : string) : string := if is_ascii s then ascii_lower s else unicode_ToLower s.

Definition strings_EqualFold (s t : string) : bool :=
  if is_ascii s && is_ascii t then String.eqb (ascii_lower s) (ascii_lower t) else unicode_EqualFold s t.

(** [path[len(prefix)]] is out of range when the path is the shorter one. *)
Definition NwpPathMatches (pattern path : string) : go_result bool :=
  if String.eqb pattern "*" then Ok true
  else if has_suffix "/*" pattern then
    let prefix := String.substring 0 (String.length pattern - 2) pattern in
    if negb (has_prefix (strings_ToLower prefix) (strings_ToLower path)) then Ok false
    else if (String.length path =? String.length prefix)%nat then Ok true
    else match String.get (String.length prefix) path with
         | Some c => Ok (Ascii.eqb c (chr 47))
         | None => Err (ErrPanic "index out of range")
         end
  else Ok (strings_EqualFold pattern path).

(** The loops over the patterns of a scope: the first match ends them. *)
Fixpoint any_match (patterns : list string) (path : string) : go_result bool :=
  match patterns with
  | [] => Ok false
  | p :: r => match NwpPathMatches p path with
              | Ok true => Ok true
              | Ok false => any_match r path
              | Err e => Err e
              end
  end.
End Unicode.

(** ** What a pattern covers *)

(** Equal up to ASCII case. *)
Definition folds (a b : string) : Prop := ascii_lower a = ascii_lower b.

(** A tail that starts at a path boundary. *)
Definition at_boundary (tail : string) : Prop := tail = "" \/ exists t, tail = String (chr 47) t.

(** The paths that a pattern covers. *)
Inductive covers : string -> string -> Prop :=
| covers_star path : covers "*" path
| covers_below prefix head tail :
    folds head prefix -> at_boundary tail -> covers (prefix +:+ "/*") (head +:+ tail)
| covers_exact pattern path :
    (forall prefix, pattern <> prefix +:+ "/*") -> folds pattern path -> covers pattern path.

(** ** Strings *)

Lemma has_prefix_iff p s : has_prefix p s = true <-> exists r, s = p +:+ r.
Proof.
  unfold has_prefix. destruct (cut_prefix p s) as [r|] eqn:E.
  - apply cut_prefix_Some in E. split; [eauto|done].
  - split; [done|]. intros [r Hr]. apply cut_prefix_Some in Hr. congruence.
Qed.

Lemma has_suffix_iff q s : has_suffix q s = true <-> exists r, s = r +:+ q.
Proof.
  unfold has_suffix. rewrite has_prefix_iff. split.
  - intros [r E]. exists (String.rev r). rewrite <- (str_rev_involutive s), E, str_rev_concat. by rewrite str_rev_involutive.
  - intros [r ->]. exists (String.rev r). by rewrite str_rev_concat.
Qed.

Lemma substring_app a b : String.substring 0 (String.length a) (a +:+ b) = a.
Proof.
  induction a as [|c a IH]; [by destruct b|]. change (String c a +:+ b) with (String c (a +:+ b)). simpl. by rewrite IH.
Qed.

Lemma get_app a c b : String.get (String.length a) (a +:+ String c b) = Some c.
Proof. induction a as [|x a IH]; [done|]. change (String x a +:+ String c b) with (String x (a +:+ String c b)). done. Qed.

Lemma map_string_length f s : String.length (map_string f s) = String.length s.
Proof. induction s; simpl; [done|]. by f_equal. Qed.

Lemma map_string_app f a b : map_string f (a +:+ b) = map_string f a +:+ map_string f b.
Proof. induction a as [|c a IH]; [done|]. exact (f_equal (String (f c)) IH). Qed.

(** A string as long as [n] plus more splits there. *)
Lemma split_at n s : (n <= String.length s)%nat -> exists a b, s = a +:+ b /\ String.length a = n.
Proof.
  revert s. induction n as [|n IH]; intros s Hn; [by exists "", s|].
  destruct s as [|c s]; [simpl in Hn; lia|]. destruct (IH s) as (a & b & -> & Ha); [simpl in Hn; lia|].
  exists (String c a), b. split; [done|]. simpl. by f_equal.
Qed.

Lemma app_inj_length a b c d : String.length a = String.length c -> a +:+ b = c +:+ d -> a = c /\ b = d.
Proof.
  revert c. induction a as [|x a IH]; intros [|y c] Hl E; try (simpl in Hl; lia); [done|].
  change (String x (a +:+ b) = String y (c +:+ d)) in E. injection E as -> E.
  destruct (IH c) as [-> ->]; [simpl in Hl; lia|done|done].
Qed.

Lemma prefix_folds prefix path :
  has_prefix (ascii_lower prefix) (ascii_lower path) = true <-> exists head tail, path = head +:+ tail /\ folds head prefix.
Proof.
  rewrite has_prefix_iff. unfold folds, ascii_lower. split.
  - intros [r E]. destruct (split_at (String.length prefix) path) as (a & b & -> & Ha).
    { apply (f_equal String.length) in E. rewrite str_length_app, !map_string_length in E. lia. }
    exists a, b. split; [done|]. rewrite map_string_app in E.
    apply app_inj_length in E as [E _]; [done|]. by rewrite !map_string_length.
  - intros (a & b & -> & E). exists (map_string lower b). by rewrite map_string_app, E.
Qed.

Lemma folds_length a b : folds a b -> String.length a = String.length b.
Proof. intros E. apply (f_equal String.length) in E. unfold ascii_lower in E. by rewrite !map_string_length in E. Qed.

Lemma suffix_not_star r : r +:+ "/*" <> "*".
Proof. intros E. apply (f_equal String.length) in E. rewrite str_length_app in E. simpl in E. lia. Qed.

(** ** Matching *)

Section Matching.
Context (unicode_ToLower : string -> string) (unicode_EqualFold : string -> string -> bool).
Abbreviation matches := (NwpPathMatches unicode_ToLower unicode_EqualFold).

Lemma covers_prefix prefix path :
  covers (prefix +:+ "/*") path <-> exists head tail, path = head +:+ tail /\ folds head prefix /\ at_boundary tail.
Proof.
  split.
  - intros H. remember (prefix +:+ "/*") as pat eqn:E. destruct H as [path|p head tail Hf Hb|pat path Hn _].
    + by destruct (suffix_not_star prefix).
    + assert (p = prefix) as ->; [|eauto]. apply (f_equal String.rev) in E. rewrite !str_rev_concat in E.
      apply app_inj_length in E as [_ E]; [|done]. apply (f_equal String.rev) in E. by rewrite !str_rev_involutive in E.
    + by destruct (Hn prefix).
  - intros (head & tail & -> & Hf & Hb). by constructor.
Qed.

(** On ASCII text a match never panics and decides the declared cover. *)
Lemma matches_ascii pattern path :
  is_ascii pattern = true -> is_ascii path = true ->
  exists b, matches pattern path = Ok b /\ (b = true <-> covers pattern path).
Proof.
  intros Hp Hq. unfold NwpPathMatches. destruct (String.eqb_spec pattern "*") as [->|Hstar].
  { exists true. split; [done|]. split; [intros _; constructor|done]. }
  destruct (has_suffix "/*" pattern) eqn:Hs.
  - apply has_suffix_iff in Hs as [prefix ->]. rewrite str_length_app.
    replace (String.length prefix + String.length "/*" - 2)%nat with (String.length prefix) by (simpl; lia).
    cbv zeta. rewrite substring_app. unfold is_ascii in Hp. rewrite str_forall_app in Hp. bool_hyps.
    change (is_ascii prefix = true) in H. unfold strings_ToLower. rewrite H, Hq.
    destruct (has_prefix (ascii_lower prefix) (ascii_lower path)) eqn:Hpre; simpl.
    + apply prefix_folds in Hpre as (head & tail & -> & Hf). pose proof (folds_length _ _ Hf) as Hl.
      rewrite str_length_app, <- Hl. destruct tail as [|c tail].
      * rewrite Nat.add_0_r, Nat.eqb_refl. exists true. split; [done|]. split; [|done]. intros _.
        constructor; [done|by left].
      * rewrite (proj2 (Nat.eqb_neq _ _)) by (simpl; lia). rewrite get_app. eexists. split; [done|].
        rewrite covers_prefix. rewrite Ascii.eqb_eq. split.
        -- intros ->. exists head, (String (chr 47) tail). split_and!; [done|done|right; eauto].
        -- intros (head' & tail' & E & Hf' & Hb). apply folds_length in Hf'.
           apply app_inj_length in E as [-> <-]; [|congruence]. by destruct Hb as [|(t & [= -> ->])].
    + exists false. split; [done|]. split; [done|]. rewrite covers_prefix. intros (head & tail & -> & Hf & _).
      assert (has_prefix (ascii_lower prefix) (ascii_lower (head +:+ tail)) = true) by (apply prefix_folds; eauto).
      congruence.
  - unfold strings_EqualFold. rewrite Hp, Hq. cbn [andb]. eexists. split; [done|]. rewrite String.eqb_eq. split.
    + intros E. apply covers_exact; [|done]. intros prefix ->.
      assert (has_suffix "/*" (prefix +:+ "/*") = true) by (apply has_suffix_iff; eauto). congruence.
    + intros H. destruct H as [|prefix head tail|]; [done| |done].
      assert (has_suffix "/*" (prefix +:+ "/*") = true) by (apply has_suffix_iff; eauto). congruence.
Qed.

Lemma any_match_ascii patterns path :
  Forall (fun p => is_ascii p = true) patterns -> is_ascii path = true ->
  exists b, any_match unicode_ToLower unicode_EqualFold patterns path = Ok b /\
    (b = true <-> Exists (fun p => covers p path) patterns).
Proof.
  intros Hp Hq. induction Hp as [|p patterns Hp _ IH]; simpl.
  { exists false. split; [done|]. split; [done|by intros ?%Exists_nil]. }
  destruct (matches_ascii p path Hp Hq) as (b & -> & Hb). destruct b.
  - exists true. split; [done|]. rewrite Exists_cons. naive_solver.
  - destruct IH as (b & -> & Hb'). exists b. split; [done|]. rewrite Exists_cons, Hb'. naive_solver.
Qed.

(** Lower-casing may shorten a string: the Kelvin sign has three bytes and its
    lower case one, so a pattern that ends in it indexes past a shorter path. *)
Lemma path_match_panics :
  (forall s, unicode_ToLower (kelvin +:+ s) = String (chr 107) (unicode_ToLower s)) -> unicode_ToLower "" = "" ->
  matches (kelvin +:+ "/*") "k" = Err (ErrPanic "index out of range").
Proof.
  intros Hk He. unfold NwpPathMatches. change (String.eqb (kelvin +:+ "/*") "*") with false.
  change (has_suffix "/*" (kelvin +:+ "/*")) with true. cbv iota zeta.
  change (String.substring 0 (String.length (kelvin +:+ "/*") - 2) (kelvin +:+ "/*")) with (kelvin +:+ "").
  unfold strings_ToLower. change (is_ascii (kelvin +:+ "")) with false. cbv iota. by rewrite Hk, He.
Qed.
End Matching.
