(* ===== verification/NipRa.v ===== *)
(** * NIP enrollment: the registration authority

    nip/ca_ra.go: the allowlist, the bootstrap tokens and the pending queue.  Each
    store method holds its mutex, so it is one step.  SHA-256, the random strings
    and the clock readings are arguments. *)

From S2P Require Import Prelude GoUtf8 CoreCache NipFrames.

(** ** Tier 1: the allowlist

    A pattern is compiled to a regular expression in which [*] is [.*], [?] is [.]
    and every other rune stands for itself; a dot is any rune but the newline. *)

Inductive glob_item : Type := GAny | GOne | GRune (r : string).

Definition glob_item_of (r : string) : glob_item :=
  if String.eqb r "*" then GAny else if String.eqb r "?" then GOne else GRune r.

Definition newline : string := String (chr 10) "".

(** The anchored match. *)
Fixpoint glob_match (p : list glob_item) (l : list string) : bool :=
  match p with
  | [] => match l with [] => true | _ => false end
  | GAny :: p' =>
      (fix star (l : list string) : bool :=
         glob_match p' l || match l with
                            | [] => false
                            | r :: l' => negb (String.eqb r newline) && star l'
                            end) l
  | GOne :: p' => match l with [] => false | r :: l' => negb (String.eqb r newline) && glob_match p' l' end
  | GRune x :: p' => match l with [] => false | r :: l' => String.eqb r x && glob_match p' l' end
  end.

(** A bare [*] compiles to an unanchored [.*], which every string matches. *)
Inductive allow_pattern : Type := AllowAll | AllowGlob (p : list glob_item).

Definition globToRegex (pattern : string) : go_result allow_pattern :=
  if String.eqb pattern "*" then Ok AllowAll
  else if valid_utf8 (String.length pattern) pattern then Ok (AllowGlob (glob_item_of <$> runes_of pattern))
  else Err (ErrPanic "regexp: Compile: invalid UTF-8").

Definition MatchString (re : allow_pattern) (s : string) : bool :=
  match re with AllowAll => true | AllowGlob p => glob_match p (runes_of s) end.

Record AllowlistPolicy : Type := MkAllowlist { compiled : list allow_pattern }.

Fixpoint NewAllowlistPolicy (patterns : list string) : go_result AllowlistPolicy :=
  match patterns with
  | [] => Ok (MkAllowlist [])
  | p :: r => match globToRegex p with
              | Err e => Err e
              | Ok re => match NewAllowlistPolicy r with
                         | Err e => Err e
                         | Ok a => Ok (MkAllowlist (re :: compiled a))
                         end
              end
  end.

Definition AllowlistPolicy_Check (p : AllowlistPolicy) (identifier : string) : go_result unit :=
  if existsb (fun re => MatchString re identifier) (compiled p) then Ok tt
  else Err (ErrNipCa ErrRaNidNotAllowed
         ("Identifier '" +:+ identifier +:+ "' does not match any enrollment allowlist pattern.")).

(** ** Tier 2: bootstrap tokens *)

Record bootstrapEntry : Type := MkEntry {
  b_id : string; b_hash : list byte; b_label : string; b_createdAt : Z; b_expiresAt : Z; b_consumed : bool; b_revoked : bool
}.

Record BootstrapTokenInfo : Type := MkTokenInfo {
  bi_Id : string; bi_Label : string; bi_CreatedAt : Z; bi_ExpiresAt : Z; bi_Consumed : bool; bi_Revoked : bool
}.

Section Tokens.
Context (sha256 : string -> list byte).

(** [rand1] and [rand2] are the two random strings, [now] the clock. *)
Definition Tokens_Create (tokens : list bootstrapEntry) (label : string) (expiresAt : Z) (rand1 rand2 : string) (now : Z) :
    string * list bootstrapEntry :=
  let raw := "nps-bootstrap-" +:+ rand1 in
  (raw, tokens ++ [MkEntry rand2 (sha256 raw) label now expiresAt false false]).

Definition consume (e : bootstrapEntry) : bootstrapEntry :=
  MkEntry (b_id e) (b_hash e) (b_label e) (b_createdAt e) (b_expiresAt e) true (b_revoked e).

(** [clock i] is the reading of the clock at entry [i]. *)
Fixpoint consume_loop (clock : nat -> Z) (i : nat) (hash : list byte) (tokens : list bootstrapEntry) :
    bool * list bootstrapEntry :=
  match tokens with
  | [] => (false, [])
  | e :: r =>
      let continue := let '(b, r') := consume_loop clock (S i) hash r in (b, e :: r') in
      if b_consumed e || b_revoked e then continue
      else if after (clock i) (b_expiresAt e) then continue
      else if negb (bool_decide (hash = b_hash e)) then continue
      else (true, consume e :: r)
  end.

Definition ValidateAndConsume (clock : nat -> Z) (tokens : list bootstrapEntry) (token : string) :
    bool * list bootstrapEntry :=
  consume_loop clock 0 (sha256 token) tokens.

Definition Tokens_List (tokens : list bootstrapEntry) : list BootstrapTokenInfo :=
  (fun e => MkTokenInfo (b_id e) (b_label e) (b_createdAt e) (b_expiresAt e) (b_consumed e) (b_revoked e)) <$> tokens.

Definition revoke_token (e : bootstrapEntry) : bootstrapEntry :=
  MkEntry (b_id e) (b_hash e) (b_label e) (b_createdAt e) (b_expiresAt e) (b_consumed e) true.

Fixpoint Tokens_Revoke (tokens : list bootstrapEntry) (tokenID : string) : bool * list bootstrapEntry :=
  match tokens with
  | [] => (false, [])
  | e :: r =>
      if negb (String.eqb (b_id e) tokenID) then let '(b, r') := Tokens_Revoke r tokenID in (b, e :: r')
      else if b_consumed e || b_revoked e then (false, tokens)
      else (true, revoke_token e :: r)
  end.

Definition BootstrapTokenPolicy_Check (clock : nat -> Z) (tokens : list bootstrapEntry) (enrollmentToken : string) :
    go_result unit * list bootstrapEntry :=
  if String.eqb enrollmentToken "" || negb (has_prefix "nps-bootstrap-" enrollmentToken) then
    (Err (ErrNipCa ErrRaTokenInvalid "A bootstrap token (prefix 'nps-bootstrap-') is required for enrollment."), tokens)
  else
    match ValidateAndConsume clock tokens enrollmentToken with
    | (true, tokens) => (Ok tt, tokens)
    | (false, tokens) =>
        (Err (ErrNipCa ErrRaTokenExpired "Bootstrap token is invalid, expired, or already consumed."), tokens)
    end.
End Tokens.

(** ** Tier 3: the pending queue *)

Inductive PendingStatus : Type := Pending | Approved | Rejected.

#[export] Instance PendingStatus_eq_dec : EqDecision PendingStatus.
Proof. solve_decision. Defined.

Definition PendingStatus_String (s : PendingStatus) : string :=
  match s with Approved => "approved" | Rejected => "rejected" | Pending => "pending" end.

Record PendingRegistration : Type := MkPending {
  pr_Id : string; pr_EntityType : string; pr_Identifier : string; pr_PubKey : string; pr_Capabilities : list string;
  pr_ScopeJson : string; pr_MetadataJson : string; pr_RequestedAt : Z; pr_Status : PendingStatus; pr_RejectReason : string
}.

Record InMemoryPendingStore : Type := MkPendingStore { pending : gmap string PendingRegistration; maxAge : Z }.

Definition NewInMemoryPendingStore (maxAge : Z) : InMemoryPendingStore := MkPendingStore ∅ maxAge.

Definition is_pending (r : PendingRegistration) : bool := bool_decide (pr_Status r = Pending).

(** A record that the sweep keeps: pending, or decided and not old. *)
Definition sweep_keeps (cutoff : Z) (r : PendingRegistration) : bool := is_pending r || negb (pr_RequestedAt r <? cutoff).

Definition sweepLocked (s : InMemoryPendingStore) (now : Z) : InMemoryPendingStore :=
  if maxAge s <=? 0 then s
  else MkPendingStore (filter (fun kr => sweep_keeps (now - maxAge s) kr.2 = true) (pending s)) (maxAge s).

Definition PendingCount (s : InMemoryPendingStore) : Z :=
  Z.of_nat (size (filter (fun kr => is_pending kr.2 = true) (pending s))).

Definition Enqueue (s : InMemoryPendingStore) (request : PendingRegistration) (now : Z) : InMemoryPendingStore :=
  let s := sweepLocked s now in MkPendingStore (<[pr_Id request := request]> (pending s)) (maxAge s).

Definition Pending_List (s : InMemoryPendingStore) : list PendingRegistration := (map_to_list (pending s)).*2.
Definition Pending_Get (s : InMemoryPendingStore) (id : string) : option PendingRegistration := pending s !! id.

Definition set_status (st : PendingStatus) (reason : string) (r : PendingRegistration) : PendingRegistration :=
  MkPending (pr_Id r) (pr_EntityType r) (pr_Identifier r) (pr_PubKey r) (pr_Capabilities r) (pr_ScopeJson r)
    (pr_MetadataJson r) (pr_RequestedAt r) st reason.

Definition decide_pending (s : InMemoryPendingStore) (id : string) (change : PendingRegistration -> PendingRegistration) :
    bool * InMemoryPendingStore :=
  match pending s !! id with
  | None => (false, s)
  | Some r => if negb (is_pending r) then (false, s)
              else (true, MkPendingStore (<[id := change r]> (pending s)) (maxAge s))
  end.

Definition Approve (s : InMemoryPendingStore) (id : string) : bool * InMemoryPendingStore :=
  decide_pending s id (fun r => set_status Approved (pr_RejectReason r) r).
Definition Reject (s : InMemoryPendingStore) (id reason : string) : bool * InMemoryPendingStore :=
  decide_pending s id (set_status Rejected reason).

(** [now1] dates the request and [now2] the sweep. *)
Definition PendingQueuePolicy_Check (s : InMemoryPendingStore) (maxSize : Z)
    (entityType identifier pubKey : string) (capabilities : list string) (scopeJSON metadataJSON : string)
    (rand : string) (now1 now2 : Z) : go_error * InMemoryPendingStore :=
  if maxSize <=? PendingCount s then
    (ErrNipCa ErrRaTokenInvalid ("Pending enrollment queue is full (max " +:+ fmt_d maxSize +:+ "). Retry later."), s)
  else
    let req := MkPending rand entityType identifier pubKey capabilities scopeJSON metadataJSON now1 Pending "" in
    (ErrRaPending rand, Enqueue s req now2).

(** ** Patterns *)

(** What a pattern stands for. *)
Inductive glob_spec : list glob_item -> list string -> Prop :=
| gs_nil : glob_spec [] []
| gs_any p l1 l2 : Forall (fun r => r <> newline) l1 -> glob_spec p l2 -> glob_spec (GAny :: p) (l1 ++ l2)
| gs_one p r l : r <> newline -> glob_spec p l -> glob_spec (GOne :: p) (r :: l)
| gs_rune p r l : glob_spec p l -> glob_spec (GRune r :: p) (r :: l).

Lemma glob_any_step p l :
  glob_match (GAny :: p) l =
  glob_match p l || match l with [] => false | r :: l' => negb (String.eqb r newline) && glob_match (GAny :: p) l' end.
Proof. by destruct l. Qed.

Lemma glob_match_iff p l : glob_match p l = true <-> glob_spec p l.
Proof.
  split.
  - revert l. induction p as [|g p IH]; intros l; [by destruct l; [constructor|]|]. destruct g as [| |x].
    + induction l as [|r l IHl]; rewrite glob_any_step; intros [H|H]%orb_true_iff.
      * apply (gs_any p [] []); [constructor|by apply IH].
      * done.
      * apply (gs_any p [] (r :: l)); [constructor|by apply IH].
      * bool_hyps. apply IHl in H0. inversion H0 as [|? l1 l2 Hf Hs| |]; subst.
        apply (gs_any p (r :: l1) l2); [by constructor|done].
    + cbn. destruct l as [|r l]; [done|]. intros H. bool_hyps. constructor; [done|by apply IH].
    + cbn. destruct l as [|r l]; [done|]. intros H. bool_hyps. subst. constructor. by apply IH.
  - induction 1 as [|p l1 l2 Hf _ IH|p r l Hr _ IH|p r l _ IH]; [done| | |].
    + induction Hf as [|r l1 Hr _ IHf]; rewrite glob_any_step; cbn [app].
      * by rewrite IH.
      * rewrite IHf, (proj2 (String.eqb_neq r newline)) by done. by rewrite orb_true_r.
    + cbn. by rewrite (proj2 (String.eqb_neq r newline)).
    + cbn. by rewrite String.eqb_refl.
Qed.

(** ** Tokens are used once *)

Inductive token_op : Type :=
| TCreate (label : string) (expiresAt : Z) (rand1 rand2 : string) (now : Z)
| TCheck (clock : nat -> Z) (token : string)
| TRevoke (id : string).

Section TokenHistory.
Context (sha256 : string -> list byte).

(** A step, and the token it accepts. *)
Definition token_step (s : list bootstrapEntry) (op : token_op) : option string * list bootstrapEntry :=
  match op with
  | TCreate label exp r1 r2 now => (None, (Tokens_Create sha256 s label exp r1 r2 now).2)
  | TCheck clock token =>
      let '(r, s) := BootstrapTokenPolicy_Check sha256 clock s token in (if is_ok r then Some token else None, s)
  | TRevoke id => (None, (Tokens_Revoke s id).2)
  end.

Fixpoint token_run (s : list bootstrapEntry) (ops : list token_op) : list string * list bootstrapEntry :=
  match ops with
  | [] => ([], s)
  | op :: r => let '(a, s) := token_step s op in let '(l, s) := token_run s r in (option_list a ++ l, s)
  end.

(** Each created token hashes to a value that no stored token has. *)
Fixpoint fresh_creates (s : list bootstrapEntry) (ops : list token_op) : Prop :=
  match ops with
  | [] => True
  | op :: r =>
      match op with TCreate _ _ r1 _ _ => sha256 ("nps-bootstrap-" +:+ r1) ∉ (b_hash <$> s) | _ => True end /\
      fresh_creates (token_step s op).2 r
  end.

Definition created (ops : list token_op) : list string :=
  omap (fun op => match op with TCreate _ _ r1 _ _ => Some ("nps-bootstrap-" +:+ r1) | _ => None end) ops.

Lemma consume_loop_spec clock i h s :
  match consume_loop clock i h s with
  | (false, s') => s' = s
  | (true, s') => exists l1 e l2, s = l1 ++ e :: l2 /\ s' = l1 ++ consume e :: l2 /\ b_hash e = h /\
                    b_consumed e = false /\ b_revoked e = false
  end.
Proof.
  revert i. induction s as [|e s IH]; intros i; [done|]. cbn [consume_loop].
  assert (Hc : match (let '(b, r') := consume_loop clock (S i) h s in (b, e :: r')) with
    | (false, s') => s' = e :: s
    | (true, s') => exists l1 e' l2, e :: s = l1 ++ e' :: l2 /\ s' = l1 ++ consume e' :: l2 /\ b_hash e' = h /\
                      b_consumed e' = false /\ b_revoked e' = false end).
  { specialize (IH (S i)). destruct (consume_loop clock (S i) h s) as [[] s']; [|by rewrite IH].
    destruct IH as (l1 & e' & l2 & -> & -> & ?). by exists (e :: l1), e', l2. }
  destruct (b_consumed e || b_revoked e) eqn:E1; [done|]. destruct (after _ _); [done|].
  case_bool_decide; cbn [negb]; [|done]. bool_hyps. by exists [], e, s.
Qed.

(** What counts for single use: the hash of each entry and whether it was consumed. *)
Definition used (s : list bootstrapEntry) : list (list byte * bool) := (fun e => (b_hash e, b_consumed e)) <$> s.

Lemma used_hash s : (used s).*1 = b_hash <$> s.
Proof. unfold used. by rewrite <- list_fmap_compose. Qed.

Lemma used_app a b : used (a ++ b) = used a ++ used b.
Proof. apply fmap_app. Qed.

Lemma used_cons e l : used (e :: l) = (b_hash e, b_consumed e) :: used l.
Proof. done. Qed.

Lemma used_Revoke s id : used (Tokens_Revoke s id).2 = used s.
Proof.
  induction s as [|e s IH]; [done|]. cbn [Tokens_Revoke]. destruct (String.eqb (b_id e) id); cbn [negb].
  - by destruct (b_consumed e || b_revoked e).
  - destruct (Tokens_Revoke s id) as [b r']. cbn in *. by f_equal.
Qed.

(** The tokens accepted so far are among the consumed entries. *)
Definition tokens_inv (made acc : list string) (s : list bootstrapEntry) : Prop :=
  NoDup ((used s).*1) /\ NoDup (sha256 <$> acc) /\ (forall h, h ∈ (sha256 <$> acc) -> (h, true) ∈ used s) /\
  (forall h, h ∈ ((used s).*1) -> h ∈ (sha256 <$> made)).

Lemma token_step_inv made acc s op :
  tokens_inv made acc s ->
  match op with TCreate _ _ r1 _ _ => sha256 ("nps-bootstrap-" +:+ r1) ∉ (b_hash <$> s) | _ => True end ->
  tokens_inv (made ++ created [op]) (acc ++ option_list (token_step s op).1) (token_step s op).2 /\
  (forall t, (token_step s op).1 = Some t -> sha256 t ∈ (sha256 <$> made)).
Proof.
  intros (Hn & Ha & Hu & Hm) Hf. destruct op as [label exp r1 r2 now|clock token|id]; cbn [token_step].
  - cbn. split; [|done]. rewrite app_nil_r. unfold tokens_inv. rewrite used_app, !fmap_app.
    rewrite used_cons. cbn [b_hash b_consumed]. split_and!.
    + rewrite NoDup_app. split_and!; [done| |apply NoDup_singleton]. intros h Hh ->%list_elem_of_singleton.
      cbn in Hf. by rewrite used_hash in Hh.
    + done.
    + intros h Hh. apply elem_of_app. left. by apply Hu.
    + intros h [Hh|Hh]%elem_of_app; rewrite elem_of_app; [left; by apply Hm|by right].
  - unfold BootstrapTokenPolicy_Check, ValidateAndConsume. cbn [created omap list_omap]. rewrite app_nil_r.
    destruct (_ || _); [cbn; by rewrite app_nil_r|].
    pose proof (consume_loop_spec clock 0 (sha256 token) s) as Hc. destruct (consume_loop clock 0 (sha256 token) s) as [[] s'].
    2: { subst. cbn. by rewrite app_nil_r. }
    destruct Hc as (l1 & e & l2 & -> & -> & He & Hcon & _). cbn [is_ok fst snd option_list].
    unfold tokens_inv in *. rewrite used_app, used_cons in *. rewrite !fmap_app in *.
    cbn [fmap list_fmap fst consume b_hash b_consumed] in *. split; [split_and!|].
    + done.
    + rewrite NoDup_app. split_and!; [done| |apply NoDup_singleton]. intros h Hh ->%list_elem_of_singleton.
      apply Hu in Hh. rewrite elem_of_app, elem_of_cons in Hh.
      apply NoDup_app in Hn as (_ & Hn1 & Hn2). rewrite NoDup_cons in Hn2. destruct Hh as [Hh|[Hh|Hh]].
      * apply (list_elem_of_fmap_2 fst) in Hh. apply (Hn1 _ Hh). cbn. rewrite He. left.
      * congruence.
      * apply (list_elem_of_fmap_2 fst) in Hh. rewrite He in Hn2. by destruct Hn2.
    + intros h Hh. rewrite elem_of_app, elem_of_cons. rewrite elem_of_app in Hh. destruct Hh as [Hh|Hh].
      * apply Hu in Hh. rewrite elem_of_app, elem_of_cons in Hh. destruct Hh as [|[E|]]; [by left| |by right; right].
        congruence.
      * apply list_elem_of_singleton in Hh as ->. right. left. by rewrite He.
    + intros h Hh. by apply Hm.
    + intros t [= <-]. apply Hm. rewrite elem_of_app, elem_of_cons, He. by right; left.
  - cbn. rewrite !app_nil_r. unfold tokens_inv. by rewrite used_Revoke.
Qed.

Lemma token_run_inv made acc s ops :
  tokens_inv made acc s -> fresh_creates s ops ->
  tokens_inv (made ++ created ops) (acc ++ (token_run s ops).1) (token_run s ops).2 /\
  (forall t, t ∈ (token_run s ops).1 -> sha256 t ∈ (sha256 <$> made ++ created ops)).
Proof.
  revert made acc s. induction ops as [|op ops IH]; intros made acc s Hi Hf.
  { cbn. rewrite !app_nil_r. split; [done|]. by intros t ?%not_elem_of_nil. }
  destruct Hf as [Hf1 Hf2]. destruct (token_step_inv made acc s op Hi Hf1) as [Hi' Ht].
  cbn [token_run]. destruct (token_step s op) as [a s1]. cbn [fst snd] in *. specialize (IH _ _ _ Hi' Hf2) as [IH1 IH2].
  destruct (token_run s1 ops) as [l s2]. cbn [fst snd] in *.
  assert (E : created (op :: ops) = created [op] ++ created ops) by (unfold created; by rewrite <- omap_app).
  rewrite E, (app_assoc made). rewrite <- (app_assoc acc) in IH1. split; [done|]. intros t [Hin|Hin]%elem_of_app; [|by apply IH2].
  destruct a as [t'|]; [|by apply not_elem_of_nil in Hin]. apply list_elem_of_singleton in Hin as ->.
  rewrite !fmap_app, !elem_of_app. left. left. by apply Ht.
Qed.

(** Bootstrap tokens are single-use: through any history of creations (whose
    hashes are fresh), enrollment checks and revocations, no token is accepted
    twice, and every accepted token is one that was created. *)
Theorem bootstrap_single_use ops :
  fresh_creates [] ops ->
  NoDup (sha256 <$> (token_run [] ops).1) /\
  (forall t, t ∈ (token_run [] ops).1 -> sha256 t ∈ (sha256 <$> created ops)).
Proof.
  intros Hf. assert (Hi : tokens_inv [] [] []).
  { split_and!; [constructor|constructor|by intros h ?%not_elem_of_nil|done]. }
  by destruct (token_run_inv [] [] [] ops Hi Hf) as [(_ & Hn & _) Ht].
Qed.
End TokenHistory.

(** ** The pending queue *)

Lemma count_insert s r :
  PendingCount (MkPendingStore (<[pr_Id r := r]> (pending s)) (maxAge s)) <= PendingCount s + 1.
Proof.
  unfold PendingCount. cbn [pending]. destruct (is_pending r) eqn:E.
  - rewrite map_filter_insert_True by done. pose proof (map_size_insert (pr_Id r) r (filter (fun kr => is_pending kr.2 = true) (pending s))) as H.
    rewrite H. destruct (_ !! _); unfold id; lia.
  - rewrite map_filter_insert_False by (cbn; congruence).
    assert (size (filter (fun kr => is_pending kr.2 = true) (delete (pr_Id r) (pending s))) <=
      size (filter (fun kr => is_pending kr.2 = true) (pending s)))%nat; [|lia].
    apply map_subseteq_size. apply map_filter_subseteq_mono. apply delete_subseteq.
Qed.

Lemma count_sweep s now : PendingCount (sweepLocked s now) = PendingCount s.
Proof.
  unfold PendingCount, sweepLocked. destruct (maxAge s <=? 0); [done|]. cbn [pending]. do 2 f_equal.
  apply map_eq. intros id. apply option_eq. intros r. rewrite !map_lookup_filter_Some. cbn. unfold sweep_keeps.
  destruct (is_pending r); naive_solver.
Qed.

Inductive queue_op : Type :=
| QCheck (entityType identifier pubKey : string) (capabilities : list string) (scopeJSON metadataJSON rand : string) (now1 now2 : Z)
| QApprove (id : string)
| QReject (id reason : string).

Definition queue_step (maxSize : Z) (s : InMemoryPendingStore) (op : queue_op) : InMemoryPendingStore :=
  match op with
  | QCheck e i k caps sc md rand now1 now2 => (PendingQueuePolicy_Check s maxSize e i k caps sc md rand now1 now2).2
  | QApprove id => (Approve s id).2
  | QReject id reason => (Reject s id reason).2
  end.

Lemma count_decide s id change :
  (forall r, is_pending (change r) = false) -> PendingCount (decide_pending s id change).2 <= PendingCount s.
Proof.
  intros Hc. unfold decide_pending. destruct (pending s !! id) as [r|]; [|done]. destruct (is_pending r); [|done]. cbn [negb snd].
  unfold PendingCount. cbn [pending]. rewrite map_filter_insert_False by (cbn; by rewrite Hc).
  apply inj_le, map_subseteq_size, map_filter_subseteq_mono, delete_subseteq.
Qed.

Lemma queue_step_count maxSize s op : PendingCount s <= maxSize -> PendingCount (queue_step maxSize s op) <= maxSize.
Proof.
  intros Hs. destruct op as [e i k caps sc md rand now1 now2|id|id reason]; cbn [queue_step].
  - unfold PendingQueuePolicy_Check. destruct (Z.leb_spec maxSize (PendingCount s)); [done|]. cbn [snd]. unfold Enqueue. cbv zeta.
    etrans; [apply count_insert|]. rewrite count_sweep. lia.
  - etrans; [by apply count_decide|done].
  - etrans; [by apply count_decide|done].
Qed.

(** A decision only changes a pending record. *)
Lemma decide_keeps s id' change id :
  pending s !! id = None \/ (exists r, pending s !! id = Some r /\ is_pending r = false) ->
  pending (decide_pending s id' change).2 !! id = pending s !! id.
Proof.
  intros Hid. unfold decide_pending. destruct (pending s !! id') as [p|] eqn:E; [|done].
  destruct (is_pending p) eqn:Ep; [|done]. cbn. apply lookup_insert_ne. intros ->. rewrite E in Hid.
  destruct Hid as [|(r & [= ->] & ?)]; congruence.
Qed.

(** A record that was decided changes no more; it may be swept. *)
Lemma queue_step_decided maxSize s op id r :
  pending s !! id = Some r -> is_pending r = false ->
  (forall e i k caps sc md rand n1 n2, op = QCheck e i k caps sc md rand n1 n2 -> rand <> id) ->
  pending (queue_step maxSize s op) !! id = Some r \/ pending (queue_step maxSize s op) !! id = None.
Proof.
  intros Hr Hd Hne. destruct op as [e i k caps sc md rand now1 now2|id'|id' reason]; cbn [queue_step].
  - unfold PendingQueuePolicy_Check. destruct (maxSize <=? PendingCount s); [by left|]. cbn [snd]. unfold Enqueue. cbn [pending pr_Id].
    rewrite lookup_insert_ne by (by eapply Hne). unfold sweepLocked. destruct (maxAge s <=? 0); [by left|]. cbn [pending].
    destruct (filter _ (pending s) !! id) as [r'|] eqn:E; [|by right]. left. apply map_lookup_filter_Some in E as [E _]. congruence.
  - left. unfold Approve. rewrite decide_keeps; eauto.
  - left. unfold Reject. rewrite decide_keeps; eauto.
Qed.

Definition queue_run (maxSize : Z) (s : InMemoryPendingStore) (ops : list queue_op) : InMemoryPendingStore :=
  fold_left (queue_step maxSize) ops s.

Definition checks_other (id : string) (op : queue_op) : bool :=
  match op with QCheck _ _ _ _ _ _ rand _ _ => negb (String.eqb rand id) | _ => true end.

(** The pending queue is bounded and its decisions are final: requests handled
    one at a time never bring the number of pending registrations above the
    configured size, and a registration that was approved or rejected is never
    decided again nor altered, whatever requests and decisions follow; at most it
    is swept. *)
Theorem pending_queue_sound maxSize age before ops id r :
  0 <= maxSize -> pending (queue_run maxSize (NewInMemoryPendingStore age) before) !! id = Some r -> is_pending r = false ->
  forallb (checks_other id) ops = true ->
  let s := queue_run maxSize (queue_run maxSize (NewInMemoryPendingStore age) before) ops in
  PendingCount s <= maxSize /\ (pending s !! id = Some r \/ pending s !! id = None) /\
  (Approve s id).1 = false /\ (forall reason, (Reject s id reason).1 = false).
Proof.
  intros Hm Hr Hd Ho. cbv zeta.
  assert (Hcount : forall ops s, PendingCount s <= maxSize -> PendingCount (queue_run maxSize s ops) <= maxSize).
  { clear. induction ops as [|op ops IH]; intros s Hs; [exact Hs|]. apply IH. by apply queue_step_count. }
  split; [do 2 apply Hcount; unfold PendingCount; cbn [pending NewInMemoryPendingStore]; by rewrite map_filter_empty, map_size_empty|]. set (s0 := queue_run maxSize (NewInMemoryPendingStore age) before) in *. clearbody s0.
  assert (Hfin : pending (queue_run maxSize s0 ops) !! id = Some r \/ pending (queue_run maxSize s0 ops) !! id = None).
  { assert (H0 : pending s0 !! id = Some r \/ pending s0 !! id = None) by (by left). clear Hr. revert s0 H0 Ho.
    induction ops as [|op ops IH]; intros s0 H0 Ho; [exact H0|]. cbn in Ho. apply andb_true_iff in Ho as [Ho Hos].
    apply (IH (queue_step maxSize s0 op)); [|done]. destruct H0 as [H0|H0].
    - apply queue_step_decided; [done|done|]. intros e i k caps sc md rand n1 n2 ->. cbn in Ho. by bool_hyps.
    - right. destruct op as [e i k caps sc md rand now1 now2|id'|id' reason]; cbn [queue_step].
      + unfold PendingQueuePolicy_Check. destruct (maxSize <=? PendingCount s0); [done|]. cbn [snd]. unfold Enqueue. cbn [pending pr_Id].
        cbn in Ho. bool_hyps. rewrite lookup_insert_ne by done. unfold sweepLocked. destruct (maxAge s0 <=? 0); [done|].
        apply map_lookup_filter_None. by left.
      + unfold Approve. rewrite decide_keeps; eauto.
      + unfold Reject. rewrite decide_keeps; eauto. }
  split; [done|]. unfold Approve, Reject, decide_pending. destruct Hfin as [-> | ->]; [|done]. by rewrite Hd.
Qed.

(** Two requests that read the count before either is queued exceed the bound: the
    check and the insertion are not one step. *)
Lemma pending_bound_races s maxSize r1 r2 n1 n2 :
  maxAge s <= 0 -> pr_Id r1 <> pr_Id r2 -> pending s !! pr_Id r1 = None -> pending s !! pr_Id r2 = None ->
  is_pending r1 = true -> is_pending r2 = true -> PendingCount s = maxSize - 1 ->
  PendingCount (Enqueue (Enqueue s r1 n1) r2 n2) = maxSize + 1.
Proof.
  intros Ha Hne H1 H2 P1 P2 Hc. unfold Enqueue, sweepLocked. rewrite !(proj2 (Z.leb_le _ _) Ha). cbn [pending maxAge].
  rewrite !(proj2 (Z.leb_le _ _) Ha). unfold PendingCount in *. cbn [pending].
  rewrite !map_filter_insert_True by done. rewrite !map_size_insert_None; [lia|..].
  - apply map_lookup_filter_None. by left.
  - rewrite lookup_insert_ne by done. apply map_lookup_filter_None. by left.
Qed.

(** ** Witnesses *)

Definition name_hash (s : string) : list byte := bytes_of_string s.

Example bootstrap_single_use_witness :
  let ops := [TCreate "ci" 10 "a" "id" 0; TCheck (fun _ => 5) "nps-bootstrap-a"; TCheck (fun _ => 5) "nps-bootstrap-a"] in
  (token_run name_hash [] ops).1 = ["nps-bootstrap-a"] /\ NoDup (name_hash <$> (token_run name_hash [] ops).1) /\
  (forall t, t ∈ (token_run name_hash [] ops).1 -> name_hash t ∈ (name_hash <$> created ops)).
Proof.
  cbv zeta. split; [reflexivity|]. apply bootstrap_single_use. cbn [fresh_creates]. split; [|done]. apply not_elem_of_nil.
Defined.

Definition one_request : queue_op := QCheck "agent" "x" "k" [] "" "" "id" 0 0.

Example pending_queue_sound_witness :
  let s := queue_run 1 (queue_run 1 (NewInMemoryPendingStore 0) [one_request; QApprove "id"]) [QReject "id" "no"] in
  PendingCount s <= 1 /\ (pending s !! "id" = Some (MkPending "id" "agent" "x" "k" [] "" "" 0 Approved "") \/ pending s !! "id" = None) /\
  (Approve s "id").1 = false /\ (forall reason, (Reject s "id" reason).1 = false).
Proof.
  apply (pending_queue_sound 1 0 [one_request; QApprove "id"] [QReject "id" "no"] "id"); [lia|reflexivity|reflexivity|reflexivity].
Defined.
