(* ===== verification/NipVerifier.v ===== *)
(** * NIP identity verification

    nip/revocation_policy.go, nip/verifier.go and nip/trust_frame_validator.go over
    the frames of NipFrames.v, the Phase-3 checks of NipPhase3.v, the scope patterns
    of NipPath.v and the records of NipStore.v.

    Ed25519, [time.Parse], [x509.ParseCertificate], the X.509 hook, the revocation
    callback and store, the HTTP client and [json.Unmarshal] of the OCSP answer are
    parameters.  An instant is [None] when it is the zero time. *)

From S2P Require Import Prelude GoValue GoBase64 CoreFrames CoreCodec CoreCache NipFrames NipDer NipPhase3 NipStore NipPath.

(** ** The revocation policy *)

Definition NipRevocationIfConfigured : string := "if_configured".
Definition NipRevocationRequired : string := "required".
Definition NipRevocationLocalCrl : string := "local_crl".
Definition NipRevocationCallback : string := "callback".
Definition NipRevocationCaStore : string := "ca_store".
Definition NipRevocationOcsp : string := "ocsp".
Definition NipRevocationGood : string := "good".
Definition NipRevocationRevoked : string := "revoked".
Definition NipRevocationUnavailable : string := "unavailable".

Record NipRevocationPolicy : Type := MkPolicy { p_mode : string; p_failOpen : bool; consultedSources : list string }.

Definition NewNipRevocationPolicy (mode : string) (ocspFailOpen : bool) : NipRevocationPolicy :=
  MkPolicy (if String.eqb mode "" then NipRevocationIfConfigured else mode) ocspFailOpen [].

Definition ConsultedSources (p : NipRevocationPolicy) : list string := consultedSources p.

Definition Observe (p : NipRevocationPolicy) (source outcome : string) : option IdentVerifyResult * NipRevocationPolicy :=
  let p := MkPolicy (p_mode p) (p_failOpen p) (consultedSources p ++ [source]) in
  if String.eqb source NipRevocationOcsp && String.eqb outcome NipRevocationUnavailable && p_failOpen p then (None, p)
  else if String.eqb outcome NipRevocationGood then (None, p)
  else if String.eqb outcome NipRevocationRevoked then
    (Some (verify_fail 4 ErrCertRevoked ("revocation source " +:+ source +:+ " reports the certificate revoked")), p)
  else (Some (verify_fail 4 ErrOcspUnavailable ("revocation source " +:+ source +:+ " is unavailable")), p).

Definition Complete (p : NipRevocationPolicy) : IdentVerifyResult :=
  if String.eqb (p_mode p) NipRevocationRequired && (length (consultedSources p) =? 0)%nat then
    verify_fail 4 ErrOcspUnavailable "revocation mode is required, but no revocation source is configured"
  else verify_ok.

(** ** Options *)

Inductive http_reply : Type :=
| HttpError (err : string)
| HttpReply (status : Z) (body : result string (list byte)).

Record VerifierOptions : Type := MkOptions {
  TrustedCaPublicKeys : gmap string string; TrustedX509Roots : list Certificate; MinAssuranceLevel : option AssuranceLevel;
  Phase3Enforcement : bool; o_Now : option Z; LocalRevokedSerials : option (gset string);
  RevocationCheck : option (IdentFrame -> option IdentVerifyResult);
  RevocationStore : option (string -> option NipCertRecord * option string);
  OcspURL : string; OcspFailOpen : bool; RevocationMode : string;
  X509Verifier : option (list string -> string -> option AssuranceLevel -> list Certificate -> bool * string * string)
}.

Record VerifyContext : Type := MkVerifyContext { RequiredCapabilities : list string; TargetNodePath : string; AsOf : option Z }.

Definition RFC3339 : string := "2006-01-02T15:04:05Z07:00".

(** [url.PathEscape]. *)
Definition path_safe (c : Ascii.ascii) : bool :=
  let z := char_z c in
  ((48 <=? z) && (z <=? 57)) || ((65 <=? z) && (z <=? 90)) || ((97 <=? z) && (z <=? 122)) ||
  str_contains_char c "-_.~$&+=:@".

Fixpoint PathEscape (s : string) : string :=
  match s with
  | EmptyString => EmptyString
  | String c r => if path_safe c then String c (PathEscape r) else "%" +:+ fmt_02X (char_z c) +:+ PathEscape r
  end.

(** The required names that are not held. *)
Definition missing_caps (required have : list string) : list string := List.filter (fun c => negb (mem_string c have)) required.

Section Verifier.
Context `{GoJSON} (ed25519_Verify : list byte -> list byte -> list byte -> bool).
Context (time_Parse : string -> string -> option Z) (fmt_time : Z -> string) (clock : Z).
Context (ParseCertificate : list byte -> option Certificate).
(** The texts of the errors of a failed base64url decoding and chain decoding. *)
Context (b64_error : string -> string) (leaf_error : list string -> string).
Context (http_get : string -> http_reply) (ocsp_Unmarshal : list byte -> result string (bool * string)).
Context (unicode_ToLower : string -> string) (unicode_EqualFold : string -> string -> bool).

(** ** Keys and signatures *)

Definition parsePubKeyString (s : string) : go_result (list byte) :=
  match cut_prefix "ed25519:" s with
  | None => Err (ErrPlain ("unsupported public key format: " +:+ s))
  | Some b64 =>
      match RawURL_Decode b64 with
      | None => Err (ErrPlain ("base64url decode: " +:+ b64_error b64))
      | Some raw => if (length raw =? 32)%nat then Ok raw
                    else Err (ErrPlain ("public key wrong size: " +:+ fmt_d (Z.of_nat (length raw))))
      end
  end.

Definition canonicalSorted (d : dict) : list byte :=
  let ordered := fold_left (fun acc k => dict_set k (dict_at d k) acc) (sort_strings (fst <$> d)) [] in
  marshal_or_nil ordered.

(** The signature checks that follow the decoding of the key. *)
Definition signature_row (step : Z) (failed : string) (frame : IdentFrame) (key : list byte) : option IdentVerifyResult :=
  match id_Signature frame ≫= cut_prefix "ed25519:" with
  | None => Some (verify_fail step ErrCertSignatureInvalid "missing or malformed signature")
  | Some sigB64 =>
      match RawURL_Decode sigB64 with
      | None => Some (verify_fail step ErrCertSignatureInvalid ("base64url decode: " +:+ b64_error sigB64))
      | Some sig =>
          if ed25519_Verify key (canonicalSorted (IdentFrame_UnsignedDict frame)) sig then None
          else Some (verify_fail step ErrCertSignatureInvalid failed)
      end
  end.

(** ** The X.509 step *)

Definition enforcePhase3 (v : VerifierOptions) (frame : IdentFrame) (now : option Z) : IdentVerifyResult :=
  match DecodeCertChainLeaf ParseCertificate (default [] (id_CertChain frame)) with
  | None => verify_fail 3 ErrCertFormatInvalid
              ("failed to decode cert_chain[0]: " +:+ leaf_error (default [] (id_CertChain frame)))
  | Some leaf =>
      let when_ := match o_Now v with Some t => Some t | None => now end in
      Phase3Enforce time_Parse fmt_time clock (Some frame) (Some leaf) when_
  end.

Definition x509_row (v : VerifierOptions) (frame : IdentFrame) (now : option Z) : option IdentVerifyResult :=
  match X509Verifier v with
  | Some verifier =>
      if negb (length (TrustedX509Roots v) =? 0)%nat && bool_decide (id_CertFormat frame = Some CertFormatV2X509) then
        let '(ok, code, msg) := verifier (default [] (id_CertChain frame)) (id_NID frame) (id_AssuranceLevel frame)
                                  (TrustedX509Roots v) in
        if negb ok then Some (verify_fail 3 (if String.eqb code "" then ErrCertFormatInvalid else code) msg)
        else if Phase3Enforcement v then
          let r := enforcePhase3 v frame now in if Valid r then None else Some r
        else None
      else None
  | None => None
  end.

(** ** Verify: the dual-trust check *)

Definition assurance_row (v : VerifierOptions) (frame : IdentFrame) : option IdentVerifyResult :=
  match MinAssuranceLevel v with
  | None => None
  | Some min =>
      let got := default AssuranceAnonymous (id_AssuranceLevel frame) in
      if MeetsOrExceeds got min then None
      else Some (verify_fail 2 ErrAssuranceMismatch
        ("assurance_level (" +:+ Wire got +:+ ") below required minimum (" +:+ Wire min +:+ ")"))
  end.

(** Continue when a check has no result. *)
Definition or_else (row : option IdentVerifyResult) (k : IdentVerifyResult) : IdentVerifyResult :=
  match row with Some r => r | None => k end.

Definition Verify (v : VerifierOptions) (frame : IdentFrame) (issuerNid : string) : IdentVerifyResult :=
  match TrustedCaPublicKeys v !! issuerNid with
  | None => verify_fail 1 ErrCertUntrustedIssuer ("no trusted CA public key for issuer: " +:+ issuerNid)
  | Some caPubKeyStr =>
      match id_Signature frame ≫= cut_prefix "ed25519:" with
      | None => verify_fail 1 ErrCertSignatureInvalid "missing or malformed signature"
      | Some _ =>
          match parsePubKeyString caPubKeyStr with
          | Err e => verify_fail 1 ErrCertSignatureInvalid (error_text e)
          | Ok key =>
              or_else (signature_row 1 "v1 Ed25519 signature did not verify against issuer CA key" frame key)
                (or_else (assurance_row v frame) (or_else (x509_row v frame None) verify_ok))
          end
      end
  end.

(** ** Step 4: revocation *)

Definition ocspTransportFailure (nid err : string) : IdentVerifyResult :=
  verify_fail 4 ErrOcspUnavailable ("OCSP call failed for NID " +:+ nid +:+ ": " +:+ err).

Definition ocspCheck (v : VerifierOptions) (nid : string) : IdentVerifyResult :=
  match http_get (trim_slashes (OcspURL v) +:+ "/" +:+ PathEscape nid) with
  | HttpError err => ocspTransportFailure nid err
  | HttpReply status body =>
      if (status <? 200) || (300 <=? status) then
        verify_fail 4 ErrOcspUnavailable ("OCSP endpoint returned " +:+ fmt_d status)
      else
        match body with
        | Err err => ocspTransportFailure nid err
        | Ok body =>
            match ocsp_Unmarshal body with
            | Err err => verify_fail 4 ErrOcspUnavailable
                           ("OCSP response parse failed for NID " +:+ nid +:+ ": " +:+ err)
            | Ok (valid, code) =>
                if negb valid then
                  verify_fail 4 (if String.eqb code "" then ErrCertRevoked else code) ("OCSP check failed for NID " +:+ nid)
                else verify_ok
            end
        end
  end.

(** What the local CRL, the store and the OCSP answer say. *)
Definition crl_outcome (revoked : gset string) (serial : string) : string :=
  if bool_decide (serial ∈ revoked) then NipRevocationRevoked else NipRevocationGood.

Definition store_outcome (answer : option NipCertRecord * option string) : string :=
  let outcome := match answer.2 with Some _ => NipRevocationUnavailable | None => NipRevocationGood end in
  match answer.1 with
  | Some record => if is_revoked record then NipRevocationRevoked else outcome
  | None => outcome
  end.

Definition ocsp_outcome (r : IdentVerifyResult) : string :=
  if Valid r then NipRevocationGood
  else if String.eqb (v_ErrorCode r) ErrCertRevoked then NipRevocationRevoked else NipRevocationUnavailable.

(** The four sources, each consulted when it is configured. *)
Definition consult : Type := option IdentVerifyResult * NipRevocationPolicy.

Definition crl_source (v : VerifierOptions) (frame : IdentFrame) (policy : NipRevocationPolicy) : consult :=
  match LocalRevokedSerials v with
  | Some crl => Observe policy NipRevocationLocalCrl (crl_outcome crl (id_Serial frame))
  | None => (None, policy)
  end.

Definition callback_source (v : VerifierOptions) (frame : IdentFrame) (policy : NipRevocationPolicy) : consult :=
  match RevocationCheck v with
  | Some check =>
      let continue := (None, (Observe policy NipRevocationCallback NipRevocationGood).2) in
      match check frame with
      | Some r => if negb (Valid r) then (Some r, policy) else continue
      | None => continue
      end
  | None => (None, policy)
  end.

Definition store_source (v : VerifierOptions) (frame : IdentFrame) (policy : NipRevocationPolicy) : consult :=
  match RevocationStore v with
  | Some get => Observe policy NipRevocationCaStore (store_outcome (get (id_Serial frame)))
  | None => (None, policy)
  end.

Definition ocsp_source (v : VerifierOptions) (frame : IdentFrame) (policy : NipRevocationPolicy) : consult :=
  if negb (String.eqb (OcspURL v) "") then Observe policy NipRevocationOcsp (ocsp_outcome (ocspCheck v (id_NID frame)))
  else (None, policy).

(** In this order; the first result ends the evaluation. *)
Fixpoint consult_all (sources : list (NipRevocationPolicy -> consult)) (policy : NipRevocationPolicy) : IdentVerifyResult :=
  match sources with
  | [] => Complete policy
  | source :: rest => match source policy with
                      | (Some r, _) => r
                      | (None, policy) => consult_all rest policy
                      end
  end.

Definition checkRevocation (v : VerifierOptions) (frame : IdentFrame) : IdentVerifyResult :=
  consult_all [crl_source v frame; callback_source v frame; store_source v frame; ocsp_source v frame]
    (NewNipRevocationPolicy (RevocationMode v) (OcspFailOpen v)).

(** ** Step 6: scope *)

Definition checkScope (frame : IdentFrame) (targetPath : string) : go_result IdentVerifyResult :=
  let missing := verify_fail 6 ErrCertScopeViolation "IdentFrame scope is missing 'nodes' field" in
  match id_Scope frame with
  | None => Ok missing
  | Some scope =>
      match stringSlice (dict_at scope "nodes") with
      | None => Ok missing
      | Some nodes =>
          match any_match unicode_ToLower unicode_EqualFold nodes targetPath with
          | Ok true => Ok verify_ok
          | Ok false => Ok (verify_fail 6 ErrCertScopeViolation
                          ("target path '" +:+ targetPath +:+ "' is not covered by the certificate scope"))
          | Err e => Err e
          end
      end
  end.

(** ** VerifyFull *)

Definition expiry_row (frame : IdentFrame) (now : Z) : option IdentVerifyResult :=
  let failed := Some (verify_fail 1 ErrCertExpired ("certificate expired at " +:+ id_ExpiresAt frame)) in
  match time_Parse RFC3339 (id_ExpiresAt frame) with
  | None => failed
  | Some expiresAt => if negb (after expiresAt now) then failed else None
  end.

(** Steps 2 and 3: the issuer, its key and the signature. *)
Definition issuer_row (v : VerifierOptions) (frame : IdentFrame) : option IdentVerifyResult :=
  match TrustedCaPublicKeys v !! id_IssuedBy frame with
  | None => Some (verify_fail 2 ErrCertUntrustedIssuer
                    ("issuer '" +:+ id_IssuedBy frame +:+ "' is not in the trusted issuers list"))
  | Some issuerPubKeyStr =>
      match parsePubKeyString issuerPubKeyStr with
      | Err e => Some (verify_fail 3 ErrCertSignatureInvalid
                         ("failed to decode public key for issuer '" +:+ id_IssuedBy frame +:+ "': " +:+ error_text e))
      | Ok key => signature_row 3 "certificate signature verification failed" frame key
      end
  end.

Definition revocation_row (v : VerifierOptions) (frame : IdentFrame) : option IdentVerifyResult :=
  let r := checkRevocation v frame in if Valid r then None else Some r.

Definition capability_row (frame : IdentFrame) (required : list string) : option IdentVerifyResult :=
  match missing_caps required (id_Capabilities frame) with
  | [] => None
  | missing => Some (verify_fail 5 ErrCertCapabilityMissing
                       ("certificate is missing required capabilities: " +:+ join ", " missing))
  end.

Definition VerifyFull (v : VerifierOptions) (frame : IdentFrame) (vctx : option VerifyContext) : go_result IdentVerifyResult :=
  let vctx := default (MkVerifyContext [] "" None) vctx in
  let now := default clock (AsOf vctx) in
  match expiry_row frame now with
  | Some r => Ok r
  | None =>
      match issuer_row v frame with
      | Some r => Ok r
      | None =>
          match x509_row v frame (Some now) with
          | Some r => Ok r
          | None =>
              match revocation_row v frame with
              | Some r => Ok r
              | None =>
                  match capability_row frame (RequiredCapabilities vctx) with
                  | Some r => Ok r
                  | None =>
                      if negb (String.eqb (TargetNodePath vctx) "") then checkScope frame (TargetNodePath vctx)
                      else Ok verify_ok
                  end
              end
          end
      end
  end.

(** ** ValidateTrustFrame *)

Record TrustFrameValidationContext : Type := MkTrustContext {
  TrustedGrantors : gset string; ExpectedGranteeCA : string; tv_RequiredCapabilities : list string;
  tv_TargetNodePath : string; tv_AsOf : option Z
}.

Definition trust_shape (frame : TrustFrame) : bool :=
  negb (existsb (String.eqb "") [GrantorNID frame; GranteeCA frame; t_IssuedAt frame; t_ExpiresAt frame; t_Serial frame;
                                 t_SignerNID frame; t_Signature frame]) &&
  negb (length (TrustScope frame) =? 0)%nat && negb (length (t_Nodes frame) =? 0)%nat.

Definition ValidateTrustFrame (frame : TrustFrame) (ctx : TrustFrameValidationContext) : go_result IdentVerifyResult :=
  if negb (trust_shape frame) then
    Ok (verify_fail 3 ErrTrustFrameInvalid
      "TrustFrame is missing grantor, grantee, issued_at, expires_at, serial, signer_nid, signature, trust_scope, or nodes")
  else
    match time_Parse RFC3339 (t_IssuedAt frame) with
    | None => Ok (verify_fail 3 ErrTrustFrameInvalid
                    ("TrustFrame issued_at is not a valid timestamp: " +:+ t_IssuedAt frame))
    | Some _ =>
        match time_Parse RFC3339 (t_ExpiresAt frame) with
        | None => Ok (verify_fail 3 ErrTrustFrameInvalid
                        ("TrustFrame expires_at is not a valid timestamp: " +:+ t_ExpiresAt frame))
        | Some expiresAt =>
            let now := default clock (tv_AsOf ctx) in
            if negb (after expiresAt now) then
              Ok (verify_fail 3 ErrTrustFrameExpired ("TrustFrame expired at " +:+ t_ExpiresAt frame))
            else if negb (bool_decide (GrantorNID frame ∈ TrustedGrantors ctx)) then
              Ok (verify_fail 3 ErrCertUntrustedIssuer
                ("TrustFrame grantor '" +:+ GrantorNID frame +:+ "' is not a trusted grantor"))
            else if negb (String.eqb (GranteeCA frame) (ExpectedGranteeCA ctx)) then
              Ok (verify_fail 3 ErrTrustFrameInvalid
                ("TrustFrame grantee '" +:+ GranteeCA frame +:+ "' does not match expected CA '" +:+
                 ExpectedGranteeCA ctx +:+ "'"))
            else
              match missing_caps (tv_RequiredCapabilities ctx) (TrustScope frame) with
              | (_ :: _) as missing =>
                  Ok (verify_fail 5 ErrTrustFrameScopeExceedsGrantor
                    ("TrustFrame is missing required capabilities: " +:+ join ", " missing))
              | [] =>
                  if negb (String.eqb (tv_TargetNodePath ctx) "") then
                    match any_match unicode_ToLower unicode_EqualFold (t_Nodes frame) (tv_TargetNodePath ctx) with
                    | Ok true => Ok verify_ok
                    | Ok false => Ok (verify_fail 6 ErrCertScopeViolation
                        ("target path '" +:+ tv_TargetNodePath ctx +:+ "' is not covered by the TrustFrame node scope"))
                    | Err e => Err e
                    end
                  else Ok verify_ok
              end
        end
    end.
End Verifier.
