(* ===== verification/NipVerifierProof.v ===== *)
(** * What identity verification decides

    The six steps of [VerifyFull] as propositions, the step it reports, and the
    same for [ValidateTrustFrame]; then two limits of the flow: an OCSP answer that
    is negative but not a revocation passes when OCSP fails open, and the X.509
    step is skipped by dropping a field that is not signed. *)

From S2P Require Import Prelude GoValue GoBase64 CoreFrames CoreCodec CoreCache NipFrames NipDer NipPhase3 NipStore NipPath NipVerifier.

(** ** Checks in sequence *)

Definition fails_at (k : Z) (r : IdentVerifyResult) : Prop := Valid r = false /\ StepFailed r = k.

(** A check that continues when [P] holds and fails at step [k] otherwise. *)
Definition decides (k : Z) (P : Prop) (row : option IdentVerifyResult) : Prop :=
  match row with None => P | Some r => ~ P /\ fails_at k r end.

(** The result of a flow of six steps: valid when all hold, and otherwise failed at
    the first that does not. *)
Definition reports (step : Z -> Prop) (r : IdentVerifyResult) : Prop :=
  (Valid r = true <-> forall k, 1 <= k <= 6 -> step k) /\
  (forall k, 1 <= k <= 6 -> (fails_at k r <-> (forall j, 1 <= j < k -> step j) /\ ~ step k)).

Lemma reports_fail (step : Z -> Prop) n r :
  1 <= n <= 6 -> (forall j, 1 <= j < n -> step j) -> ~ step n -> fails_at n r -> reports step r.
Proof.
  intros Hn Hb Hs [Hv Hf]. split.
  - rewrite Hv. split; [done|]. intros Ha. destruct (Hs (Ha n Hn)).
  - intros k Hk. split.
    + intros [_ <-]. rewrite Hf. done.
    + intros [Hj Hk']. split; [done|]. rewrite Hf. destruct (Z.lt_trichotomy n k) as [|[|]]; [|done|].
      * destruct Hs. apply Hj. lia.
      * destruct Hk'. apply Hb. lia.
Qed.

Lemma reports_valid (step : Z -> Prop) r : Valid r = true -> (forall k, 1 <= k <= 6 -> step k) -> reports step r.
Proof.
  intros Hv Ha. split; [done|]. intros k Hk. split.
  - intros [Hf _]. congruence.
  - intros [_ Hs]. destruct (Hs (Ha k Hk)).
Qed.

(** The steps below a known one, one by one. *)
Ltac below :=
  let j := fresh "j" in let H := fresh in intros j H;
  assert (j = 1 \/ j = 2 \/ j = 3 \/ j = 4 \/ j = 5 \/ j = 6) as [->|[->|[->|[->|[->| ->]]]]] by lia;
  solve [assumption|lia].

Lemma missing_caps_nil required have : missing_caps required have = [] <-> required ⊆ have.
Proof.
  unfold missing_caps. induction required as [|c r IH]; cbn [List.filter].
  { split; [intros _ x; by intros ?%not_elem_of_nil|done]. }
  destruct (mem_string c have) eqn:E; cbn [negb].
  - apply mem_string_true in E. rewrite IH. split; intros Hs x; rewrite ?elem_of_cons; [intros [->|]; eauto|].
    intros. apply Hs. rewrite elem_of_cons. by right.
  - apply mem_string_false in E. split; [done|]. intros Hs. destruct E. apply Hs. left.
Qed.

(** ** Revocation *)

Section Revocation.
Context (http_get : string -> http_reply) (ocsp_Unmarshal : list byte -> result string (bool * string)).
Abbreviation ocsp := (ocspCheck http_get ocsp_Unmarshal).
Abbreviation revocation := (checkRevocation http_get ocsp_Unmarshal).

Definition ocsp_url (v : VerifierOptions) (nid : string) : string := trim_slashes (OcspURL v) +:+ "/" +:+ PathEscape nid.

(** A 2xx answer that was read and parsed. *)
Definition ocsp_answers (v : VerifierOptions) (nid : string) (valid : bool) (code : string) : Prop :=
  exists status body, http_get (ocsp_url v nid) = HttpReply status (Ok body) /\ 200 <= status < 300 /\
    ocsp_Unmarshal body = Ok (valid, code).

Definition ocsp_revokes (v : VerifierOptions) (nid : string) : Prop :=
  exists code, ocsp_answers v nid false code /\ (code = "" \/ code = ErrCertRevoked).

Definition some_source (v : VerifierOptions) : Prop :=
  is_Some (LocalRevokedSerials v) \/ is_Some (RevocationCheck v) \/ is_Some (RevocationStore v) \/ OcspURL v <> "".

Definition not_revoked (v : VerifierOptions) (f : IdentFrame) : Prop :=
  (forall crl, LocalRevokedSerials v = Some crl -> id_Serial f ∉ crl) /\
  (forall check r, RevocationCheck v = Some check -> check f = Some r -> Valid r = true) /\
  (forall get, RevocationStore v = Some get ->
    (get (id_Serial f)).2 = None /\ forall r, (get (id_Serial f)).1 = Some r -> c_RevokedAt r = None) /\
  (OcspURL v <> "" ->
    (exists code, ocsp_answers v (id_NID f) true code) \/ OcspFailOpen v = true /\ ~ ocsp_revokes v (id_NID f)) /\
  (RevocationMode v = NipRevocationRequired -> some_source v).

Lemma ocsp_decides v nid :
  (Valid (ocsp v nid) = true <-> exists code, ocsp_answers v nid true code) /\
  (Valid (ocsp v nid) = false /\ v_ErrorCode (ocsp v nid) = ErrCertRevoked <-> ocsp_revokes v nid).
Proof.
  unfold ocspCheck, ocsp_revokes, ocsp_answers. fold (ocsp_url v nid).
  destruct (http_get (ocsp_url v nid)) as [err|status body]; [split; split; naive_solver|].
  destruct ((status <? 200) || (300 <=? status)) eqn:Es.
  { cbn [decides]. split; split; try naive_solver; apply orb_true_iff in Es.
    - intros (? & ? & ? & [= <- ->] & ? & _). lia.
    - intros (? & (? & ? & [= <- ->] & ? & _) & _). lia. }
  bool_hyps. destruct body as [body|err]; [|split; split; naive_solver].
  destruct (ocsp_Unmarshal body) as [[valid code]|err] eqn:Eu; [|cbn; split; split; try naive_solver;
    [intros (? & ? & ? & [= <- <-] & _ & ?)|intros (? & (? & ? & [= <- <-] & _ & ?) & _)]; congruence].
  assert (Hr : 200 <= status < 300) by lia. destruct valid; cbn.
  - split; split; try naive_solver. intros (? & (? & ? & [= <- <-] & _ & ?) & _). congruence.
  - split; split; [done|intros (? & ? & ? & [= <- <-] & _ & ?); congruence| |].
    + intros [_ E]. exists code. split; [eauto 10|]. destruct (String.eqb_spec code ""); [by left|by right].
    + intros (c & (? & ? & [= <- <-] & _ & E) & Hc). split; [done|]. rewrite Eu in E. injection E as ->.
      destruct Hc as [->| ->]; done.
Qed.

(** The outcomes that a source may report and the policy lets through. *)
Definition passes (p : NipRevocationPolicy) (source outcome : string) : Prop :=
  outcome = NipRevocationGood \/
  source = NipRevocationOcsp /\ outcome = NipRevocationUnavailable /\ p_failOpen p = true.

Lemma observe_spec p source outcome :
  decides 4 (passes p source outcome) (Observe p source outcome).1 /\
  (Observe p source outcome).2 = MkPolicy (p_mode p) (p_failOpen p) (consultedSources p ++ [source]).
Proof.
  unfold Observe, passes. cbn [p_failOpen]. destruct (_ && _ && _) eqn:E1.
  { bool_hyps. split; [right; by repeat split|done]. }
  destruct (String.eqb_spec outcome NipRevocationGood) as [->|Hg]; [by split; [left|]|].
  assert (Hn : ~ (outcome = NipRevocationGood \/
    source = NipRevocationOcsp /\ outcome = NipRevocationUnavailable /\ p_failOpen p = true)).
  { intros [?|(-> & -> & Hf)]; [done|]. by rewrite Hf in E1. }
  destruct (String.eqb outcome NipRevocationRevoked); by repeat split.
Qed.

Lemma crl_good crl serial : crl_outcome crl serial = NipRevocationGood <-> serial ∉ crl.
Proof. unfold crl_outcome. case_bool_decide; naive_solver. Qed.

Lemma store_good answer :
  store_outcome answer = NipRevocationGood <-> answer.2 = None /\ forall r, answer.1 = Some r -> c_RevokedAt r = None.
Proof.
  destruct answer as [[r|] [e|]]; unfold store_outcome, is_revoked; cbn [fst snd];
    [destruct (c_RevokedAt r) eqn:E..| |]; naive_solver.
Qed.

Lemma ocsp_passes p v nid :
  passes p NipRevocationOcsp (ocsp_outcome (ocsp v nid)) <->
  (exists code, ocsp_answers v nid true code) \/ p_failOpen p = true /\ ~ ocsp_revokes v nid.
Proof.
  destruct (ocsp_decides v nid) as [Hv Hr]. rewrite <- Hv, <- Hr. unfold passes, ocsp_outcome.
  destruct (Valid (ocsp v nid)); [naive_solver|]. destruct (String.eqb_spec (v_ErrorCode (ocsp v nid)) ErrCertRevoked); naive_solver.
Qed.

(** A callback that rejects says so in the terms of step 4. *)
Definition callback_step (v : VerifierOptions) (f : IdentFrame) : Prop :=
  forall check r, RevocationCheck v = Some check -> check f = Some r -> Valid r = false -> StepFailed r = 4.

Lemma complete_spec p :
  (p_mode p = NipRevocationRequired -> consultedSources p <> []) /\ Valid (Complete p) = true \/
  ~ (p_mode p = NipRevocationRequired -> consultedSources p <> []) /\ fails_at 4 (Complete p).
Proof.
  unfold Complete. destruct (String.eqb_spec (p_mode p) NipRevocationRequired), (consultedSources p) as [|x l]; cbn;
    [right|left|left|left]; (split; [|done]); [by intros Hc; destruct (Hc e)|done..].
Qed.

(** What a verdict says of a proposition. *)
Definition verdict (P : Prop) (r : IdentVerifyResult) : Prop := Valid r = true /\ P \/ fails_at 4 r /\ ~ P.

#[local] Instance verdict_proper : Proper (iff ==> eq ==> iff) verdict.
Proof. intros P Q HPQ r ? <-. unfold verdict. by rewrite HPQ. Qed.

Lemma verdict_fail (P : Prop) r : fails_at 4 r -> ~ P -> verdict P r.
Proof. by right. Qed.

Lemma new_mode mode b : p_mode (NewNipRevocationPolicy mode b) = NipRevocationRequired <-> mode = NipRevocationRequired.
Proof. cbn. destruct (String.eqb_spec mode "") as [->|]; done. Qed.

(** A source decides its condition and leaves a trace exactly when configured. *)
Definition source_ok (failOpen : bool) (source : NipRevocationPolicy -> consult) (configured P : Prop) : Prop :=
  forall p, p_failOpen p = failOpen ->
    decides 4 P (source p).1 /\
    ((source p).1 = None -> p_mode (source p).2 = p_mode p /\ p_failOpen (source p).2 = failOpen /\
      (consultedSources (source p).2 <> [] <-> consultedSources p <> [] \/ configured)).

Lemma observe_trace p source outcome configured :
  configured ->
  p_mode (Observe p source outcome).2 = p_mode p /\ p_failOpen (Observe p source outcome).2 = p_failOpen p /\
  (consultedSources (Observe p source outcome).2 <> [] <-> consultedSources p <> [] \/ configured).
Proof.
  intros Hc. rewrite (proj2 (observe_spec p source outcome)). cbn. split_and!; [done..|]. split; [by right|].
  intros _. by destruct (consultedSources p).
Qed.

Lemma unconfigured p P b (configured : Prop) :
  P -> ~ configured -> p_failOpen p = b ->
  decides 4 P (@None IdentVerifyResult, p).1 /\
  ((@None IdentVerifyResult, p).1 = None -> p_mode (@None IdentVerifyResult, p).2 = p_mode p /\
    p_failOpen (@None IdentVerifyResult, p).2 = b /\
    (consultedSources (@None IdentVerifyResult, p).2 <> [] <-> consultedSources p <> [] \/ configured)).
Proof. cbn. intros. split_and!; [done|]. intros _. split_and!; [done..|]. naive_solver. Qed.

Lemma decides_iff k P Q row : (P <-> Q) -> decides k P row -> decides k Q row.
Proof. unfold decides. destruct row; naive_solver. Qed.

Section Sources.
Context (v : VerifierOptions) (f : IdentFrame).

Lemma crl_source_ok : source_ok (OcspFailOpen v) (crl_source v f) (is_Some (LocalRevokedSerials v))
  (forall crl, LocalRevokedSerials v = Some crl -> id_Serial f ∉ crl).
Proof.
  intros p Hp. unfold crl_source. destruct (LocalRevokedSerials v) as [crl|]; [|by apply unconfigured; [..|intros []|]].
  split; [|intros _; rewrite <- Hp; apply observe_trace; eauto].
  eapply decides_iff; [|apply observe_spec]. unfold passes. rewrite crl_good.
  split; [intros [?|(Hd & _)]; [by intros ? [= <-]|discriminate Hd]|]. intros Hc. left. by apply Hc.
Qed.

Lemma callback_source_ok : callback_step v f -> source_ok (OcspFailOpen v) (callback_source v f)
  (is_Some (RevocationCheck v)) (forall check r, RevocationCheck v = Some check -> check f = Some r -> Valid r = true).
Proof.
  intros Hcb p Hp. unfold callback_source, callback_step in *.
  destruct (RevocationCheck v) as [check|]; [|by apply unconfigured; [..|intros []|]].
  pose proof (observe_trace p NipRevocationCallback NipRevocationGood (is_Some (Some check)) ltac:(eauto)) as Ht.
  destruct (check f) as [r|] eqn:Ec; [destruct (Valid r) eqn:Ev|]; cbv zeta; cbn [negb fst snd decides].
  - split; [|intros _; by rewrite <- Hp]. intros ? ? [= <-] E. congruence.
  - split; [|done]. split; [|split; [done|by apply (Hcb check r)]]. intros Hv. specialize (Hv check r eq_refl Ec). congruence.
  - split; [|intros _; by rewrite <- Hp]. intros ? ? [= <-] E. congruence.
Qed.

Lemma store_source_ok : source_ok (OcspFailOpen v) (store_source v f) (is_Some (RevocationStore v))
  (forall get, RevocationStore v = Some get ->
    (get (id_Serial f)).2 = None /\ forall r, (get (id_Serial f)).1 = Some r -> c_RevokedAt r = None).
Proof.
  intros p Hp. unfold store_source. destruct (RevocationStore v) as [get|]; [|by apply unconfigured; [..|intros []|]].
  split; [|intros _; rewrite <- Hp; apply observe_trace; eauto].
  eapply decides_iff; [|apply observe_spec]. unfold passes. rewrite store_good.
  split; [intros [?|(Hd & _)]; [by intros ? [= <-]|discriminate Hd]|]. intros Hc. left. by apply Hc.
Qed.

Lemma ocsp_source_ok : source_ok (OcspFailOpen v) (ocsp_source http_get ocsp_Unmarshal v f) (OcspURL v <> "")
  (OcspURL v <> "" ->
    (exists code, ocsp_answers v (id_NID f) true code) \/ OcspFailOpen v = true /\ ~ ocsp_revokes v (id_NID f)).
Proof.
  intros p Hp. unfold ocsp_source. destruct (String.eqb_spec (OcspURL v) "") as [E|E]; cbn [negb].
  { apply unconfigured; [done|tauto|done]. }
  split; [|intros _; rewrite <- Hp; by apply observe_trace].
  eapply decides_iff; [|apply observe_spec]. rewrite ocsp_passes, Hp. split; [done|by intros Hc; apply Hc].
Qed.
End Sources.

(** The sources together with the closing test on the mode. *)
Lemma consult_decides failOpen mode sources conds (p : NipRevocationPolicy) :
  Forall2 (fun s c => source_ok failOpen s c.1 c.2) sources conds -> p_failOpen p = failOpen -> p_mode p = mode ->
  verdict (Forall (fun c => c.2) conds /\
    (mode = NipRevocationRequired -> consultedSources p <> [] \/ Exists (fun c => c.1) conds)) (consult_all sources p).
Proof.
  intros Hs. revert p. induction Hs as [|s [cfg P] sources conds Hsrc _ IH]; intros p Hp Hm; cbn [consult_all].
  { rewrite <- Hm. unfold verdict. rewrite Forall_nil, Exists_nil. pose proof (complete_spec p). naive_solver. }
  destruct (Hsrc p Hp) as [Hd Ht]. destruct (s p) as [[r|] p']; cbn [fst snd decides] in *.
  { apply verdict_fail; [by destruct Hd|]. rewrite Forall_cons. cbn. naive_solver. }
  destruct (Ht eq_refl) as (Hm' & Hp' & Hc). destruct (IH p' Hp' ltac:(congruence)) as [[? HA]|[? HA]]; [left|right];
    (split; [done|]); rewrite Forall_cons, Exists_cons; cbn; rewrite Hc in HA; naive_solver.
Qed.

Lemma revocation_verdict v f : callback_step v f -> verdict (not_revoked v f) (revocation v f).
Proof.
  intros Hcb. set (p := NewNipRevocationPolicy (RevocationMode v) (OcspFailOpen v)).
  assert (Hv := consult_decides (OcspFailOpen v) (p_mode p)
    [crl_source v f; callback_source v f; store_source v f; ocsp_source http_get ocsp_Unmarshal v f]
    [(_, _); (_, _); (_, _); (_, _)] p
    ltac:(constructor; [exact (crl_source_ok v f)|constructor; [exact (callback_source_ok v f Hcb)|
      constructor; [exact (store_source_ok v f)|constructor; [exact (ocsp_source_ok v f)|constructor]]]]) eq_refl eq_refl).
  subst p. rewrite new_mode in Hv. unfold not_revoked, some_source. fold (revocation v f) in Hv.
  rewrite !Forall_cons, Forall_nil, !Exists_cons, Exists_nil in Hv. cbn [fst snd] in Hv. eapply verdict_proper; [|done|exact Hv]. cbn [consultedSources NewNipRevocationPolicy].
  assert (@nil string <> [] <-> False) as -> by tauto. tauto.
Qed.

(** OcspFailOpen reaches further than transport failures: when OCSP is the only
    source and fails open, a well-formed answer that says the identity is not valid
    passes step 4 unless its code is the revocation code or empty. *)
Theorem fail_open_ignores_refusal v f code :
  LocalRevokedSerials v = None -> RevocationCheck v = None -> RevocationStore v = None -> OcspURL v <> "" ->
  OcspFailOpen v = true -> ocsp_answers v (id_NID f) false code -> code <> "" -> code <> ErrCertRevoked ->
  Valid (revocation v f) = true.
Proof.
  intros H1 H2 H3 H4 H5 Ha Hc Hr. assert (Hcb : callback_step v f) by (intros ? ? E; congruence).
  destruct (revocation_verdict v f Hcb) as [[? _]|[_ Hn]]; [done|]. destruct Hn. unfold not_revoked.
  rewrite H1, H2, H3. split_and!; [done..| |intros _; by do 3 right]. intros _. right. split; [done|].
  intros (c & Ha' & Hc'). destruct Ha as (s & b & E1 & _ & E2), Ha' as (s' & b' & E1' & _ & E2').
  rewrite E1 in E1'. injection E1' as <- <-. rewrite E2 in E2'. injection E2' as <-. naive_solver.
Qed.

End Revocation.

(** ** Trust frames *)

Section Trust.
Context (time_Parse : string -> string -> option Z) (clock : Z).
Context (unicode_ToLower : string -> string) (unicode_EqualFold : string -> string -> bool).
Abbreviation validate_trust := (ValidateTrustFrame time_Parse clock unicode_ToLower unicode_EqualFold).

(** What a trust frame must satisfy, in the order of the checks. *)
Definition trust_step (f : TrustFrame) (c : TrustFrameValidationContext) (k : Z) : Prop :=
  match k with
  | 3 => (Forall (fun s => s <> "") [GrantorNID f; GranteeCA f; t_IssuedAt f; t_ExpiresAt f; t_Serial f; t_SignerNID f; t_Signature f] /\
          TrustScope f <> [] /\ t_Nodes f <> []) /\
         is_Some (time_Parse RFC3339 (t_IssuedAt f)) /\
         (exists t, time_Parse RFC3339 (t_ExpiresAt f) = Some t /\ default clock (tv_AsOf c) < t) /\
         GrantorNID f ∈ TrustedGrantors c /\ GranteeCA f = ExpectedGranteeCA c
  | 5 => tv_RequiredCapabilities c ⊆ TrustScope f
  | 6 => tv_TargetNodePath c = "" \/ Exists (fun p => covers p (tv_TargetNodePath c)) (t_Nodes f)
  | _ => True
  end.

Lemma trust_shape_iff f :
  trust_shape f = true <->
  Forall (fun s => s <> "") [GrantorNID f; GranteeCA f; t_IssuedAt f; t_ExpiresAt f; t_Serial f; t_SignerNID f; t_Signature f] /\
  TrustScope f <> [] /\ t_Nodes f <> [].
Proof.
  unfold trust_shape. rewrite !andb_true_iff, !negb_true_iff, !Nat.eqb_neq, !length_zero_iff_nil.
  assert (forall P Q R S : Prop, (P <-> Q) -> ((P /\ R) /\ S <-> Q /\ R /\ S)) as Hand by tauto. apply Hand.
  rewrite <- not_true_iff_false, existsb_exists, Forall_forall. split.
  - intros Hn x Hx ->. apply Hn. exists "". split; [by apply list_elem_of_In|done].
  - intros Hf (x & Hx%list_elem_of_In & E%String.eqb_eq). by apply (Hf x).
Qed.

(** ValidateTrustFrame accepts exactly the complete, unexpired frames of a
    trusted grantor for the expected CA whose scope grants the required
    capabilities and whose nodes cover the target; otherwise it reports step 3 for
    the frame itself, 5 for the capabilities or 6 for the nodes, whichever fails
    first.  No signature is checked. *)
Theorem trust_frame_decides f c :
  is_ascii (tv_TargetNodePath c) = true -> Forall (fun p => is_ascii p = true) (t_Nodes f) ->
  exists r, validate_trust f c = Ok r /\ reports (trust_step f c) r.
Proof.
  intros Ht Hp. unfold ValidateTrustFrame. pose proof (trust_shape_iff f) as Hsh. cbv zeta.
  assert (H1 : trust_step f c 1) by done. assert (H2 : trust_step f c 2) by done. assert (H4 : trust_step f c 4) by done.
  assert (Hfail : forall code msg, ~ trust_step f c 3 -> reports (trust_step f c) (verify_fail 3 code msg)).
  { intros code msg Hn. apply (reports_fail _ 3); [lia|below|done|done]. }
  destruct (trust_shape f); cbn [negb].
  2: { eexists. split; [done|]. apply Hfail. intros [Hs _]. by apply Hsh in Hs. }
  destruct (time_Parse RFC3339 (t_IssuedAt f)) eqn:Ei.
  2: { eexists. split; [done|]. apply Hfail. intros (_ & [? ?] & _). congruence. }
  destruct (time_Parse RFC3339 (t_ExpiresAt f)) as [t|] eqn:Ee.
  2: { eexists. split; [done|]. apply Hfail. intros (_ & _ & (? & ? & _) & _). congruence. }
  unfold after. destruct (Z.ltb_spec (default clock (tv_AsOf c)) t); cbn [negb].
  2: { eexists. split; [done|]. apply Hfail. intros (_ & _ & (? & E & ?) & _). rewrite Ee in E. injection E as <-. lia. }
  case_bool_decide as Hg; cbn [negb]; [|eexists; split; [done|]; apply Hfail; by intros (_ & _ & _ & ? & _)].
  destruct (String.eqb_spec (GranteeCA f) (ExpectedGranteeCA c)) as [He|He]; cbn [negb];
    [|eexists; split; [done|]; apply Hfail; by intros (_ & _ & _ & _ & ?)].
  assert (H3 : trust_step f c 3) by (split; [by apply Hsh|split_and!; eauto]).
  pose proof (missing_caps_nil (tv_RequiredCapabilities c) (TrustScope f)) as H5. destruct (missing_caps _ _) as [|x l].
  2: { eexists. split; [done|]. apply (reports_fail _ 5); [lia|below|by intros ?%H5|done]. }
  assert (H5' : trust_step f c 5) by (by apply H5). destruct (String.eqb_spec (tv_TargetNodePath c) ""); cbn [negb].
  { assert (trust_step f c 6) by (by left). eexists. split; [done|]. apply reports_valid; [done|below]. }
  destruct (any_match_ascii unicode_ToLower unicode_EqualFold (t_Nodes f) (tv_TargetNodePath c) Hp Ht) as (b & -> & Hb).
  destruct b; eexists; (split; [done|]).
  - assert (trust_step f c 6) by (right; by apply Hb). apply reports_valid; [done|below].
  - apply (reports_fail _ 6); [lia|below| |done]. intros [?|HE%Hb]; done.
Qed.

End Trust.

(** ** Identities *)

Section Decides.
Context `{GoJSON} (ed25519_Verify : list byte -> list byte -> list byte -> bool).
Context (time_Parse : string -> string -> option Z) (fmt_time : Z -> string) (clock : Z).
Context (ParseCertificate : list byte -> option Certificate).
Context (b64_error : string -> string) (leaf_error : list string -> string).
Context (http_get : string -> http_reply) (ocsp_Unmarshal : list byte -> result string (bool * string)).
Context (unicode_ToLower : string -> string) (unicode_EqualFold : string -> string -> bool).

Abbreviation parse_key := (parsePubKeyString b64_error).
Abbreviation phase3 := (enforcePhase3 time_Parse fmt_time clock ParseCertificate leaf_error).
Abbreviation x509 := (x509_row time_Parse fmt_time clock ParseCertificate leaf_error).
Abbreviation verify := (Verify ed25519_Verify time_Parse fmt_time clock ParseCertificate b64_error leaf_error).
Abbreviation verify_full := (VerifyFull ed25519_Verify time_Parse fmt_time clock ParseCertificate b64_error leaf_error
  http_get ocsp_Unmarshal unicode_ToLower unicode_EqualFold).

(** ** The steps *)

(** The signature of the frame's unsigned part verifies under a key. *)
Definition signed_by (key : list byte) (f : IdentFrame) : Prop :=
  exists raw sig, id_Signature f = Some ("ed25519:" +:+ raw) /\ RawURL_Decode raw = Some sig /\
    ed25519_Verify key (canonicalSorted (IdentFrame_UnsignedDict f)) sig = true.

(** The X.509 opt-ins of the verifier and of the frame. *)
Definition v2 (v : VerifierOptions) (f : IdentFrame) : Prop :=
  is_Some (X509Verifier v) /\ TrustedX509Roots v <> [] /\ id_CertFormat f = Some CertFormatV2X509.

Definition chain_ok (v : VerifierOptions) (f : IdentFrame) (now : option Z) : Prop :=
  v2 v f ->
  (forall verifier, X509Verifier v = Some verifier ->
    (verifier (default [] (id_CertChain f)) (id_NID f) (id_AssuranceLevel f) (TrustedX509Roots v)).1.1 = true) /\
  (Phase3Enforcement v = true -> Valid (phase3 v f now) = true).

Definition authentic (v : VerifierOptions) (f : IdentFrame) : Prop :=
  exists pk key, TrustedCaPublicKeys v !! id_IssuedBy f = Some pk /\ parse_key pk = Ok key /\ signed_by key f.

Definition in_scope (f : IdentFrame) (target : string) : Prop :=
  target = "" \/ exists scope nodes, id_Scope f = Some scope /\ stringSlice (dict_at scope "nodes") = Some nodes /\
    Exists (fun p => covers p target) nodes.

(** The steps of NPS-3 §7. *)
Definition step (v : VerifierOptions) (f : IdentFrame) (c : VerifyContext) (k : Z) : Prop :=
  let now := default clock (AsOf c) in
  match k with
  | 1 => exists t, time_Parse RFC3339 (id_ExpiresAt f) = Some t /\ now < t
  | 2 => is_Some (TrustedCaPublicKeys v !! id_IssuedBy f)
  | 3 => authentic v f /\ chain_ok v f (Some now)
  | 4 => not_revoked http_get ocsp_Unmarshal v f
  | 5 => RequiredCapabilities c ⊆ id_Capabilities f
  | 6 => in_scope f (TargetNodePath c)
  | _ => True
  end.

(** ** The rows *)

Lemma expiry_decides f now :
  decides 1 (exists t, time_Parse RFC3339 (id_ExpiresAt f) = Some t /\ now < t) (expiry_row time_Parse f now).
Proof.
  unfold expiry_row, after. destruct (time_Parse _ _) as [t|]; cbn; [|by split; [intros (? & ? & _)|]].
  destruct (Z.ltb_spec now t); cbn; [eauto|]. split; [|done]. intros (? & [= <-] & ?). lia.
Qed.

Lemma signature_decides k msg f key : decides k (signed_by key f) (signature_row ed25519_Verify b64_error k msg f key).
Proof.
  unfold signature_row, signed_by. destruct (id_Signature f) as [s|]; [|cbn; split; [by intros (? & ? & ? & _)|done]].
  cbn [mbind option_bind]. destruct (cut_prefix "ed25519:" s) as [raw|] eqn:E.
  - apply cut_prefix_Some in E as ->.
    assert (Hinj : forall r, Some ("ed25519:" +:+ raw) = Some ("ed25519:" +:+ r) -> r = raw).
    { intros r [= E]. done. }
    destruct (RawURL_Decode raw) as [sig|] eqn:Er; cbn.
    + destruct (ed25519_Verify _ _ sig) eqn:Ev; cbn; [eauto|]. split; [|done].
      intros (raw' & sig' & ->%Hinj & ? & ?). congruence.
    + split; [|done]. intros (raw' & sig' & ->%Hinj & ? & ?). congruence.
  - cbn. split; [|done]. intros (raw & sig & [= ->] & _).
    assert (cut_prefix "ed25519:" ("ed25519:" +:+ raw) = Some raw) by (by apply cut_prefix_Some). congruence.
Qed.

Lemma phase3_step v f now : Valid (phase3 v f now) = false -> StepFailed (phase3 v f now) = 3.
Proof.
  unfold enforcePhase3. destruct (DecodeCertChainLeaf _ _) as [leaf|]; [|done].
  by apply phase3_fails_at_3.
Qed.

Lemma x509_decides v f now : decides 3 (chain_ok v f now) (x509 v f now).
Proof.
  unfold x509_row, chain_ok, v2. destruct (X509Verifier v) as [ver|]; [|cbn [decides]; by intros [[? ?] _]].
  destruct (_ && _) eqn:E; [|cbn].
  - apply andb_true_iff in E as [Hr%negb_true_iff%Nat.eqb_neq Hf%bool_decide_eq_true].
    assert (Hv : is_Some (Some ver) /\ TrustedX509Roots v <> [] /\ id_CertFormat f = Some CertFormatV2X509).
    { split_and!; [eauto| |done]. intros E0. by rewrite E0 in Hr. }
    destruct (ver _ _ _ _) as [[ok code] msg] eqn:Ev. destruct ok; cbn [negb].
    + destruct (Phase3Enforcement v); [|cbn [decides]; intros _; split; [|done]; intros ? [= <-]; by rewrite Ev].
      cbv zeta. destruct (Valid (phase3 v f now)) eqn:E3; cbn [decides].
      * intros _. split; [|done]. intros ? [= <-]. by rewrite Ev.
      * split; [|split; [done|by apply phase3_step]]. intros Hc. destruct (Hc Hv) as [_ Hc']. by specialize (Hc' eq_refl).
    + cbn [decides]. split; [|done]. intros Hc. destruct (Hc Hv) as [Hc' _]. specialize (Hc' ver eq_refl). by rewrite Ev in Hc'.
  - intros (_ & Hr & Hf). rewrite bool_decide_eq_true_2 in E by done. destruct (TrustedX509Roots v); [done|]. done.
Qed.

(** ** The flow *)

Lemma issuer_decides v f c :
  match issuer_row ed25519_Verify b64_error v f with
  | None => step v f c 2 /\ authentic v f
  | Some r => ~ step v f c 2 /\ fails_at 2 r \/ step v f c 2 /\ ~ authentic v f /\ fails_at 3 r
  end.
Proof.
  unfold issuer_row, authentic. cbn [step]. destruct (TrustedCaPublicKeys v !! id_IssuedBy f) as [pk|].
  2: { left. split; [by intros [? ?]|done]. }
  destruct (parse_key pk) as [key|e] eqn:Ek.
  - pose proof (signature_decides 3 "certificate signature verification failed" f key) as Hs.
    destruct (signature_row _ _ _ _ _ _) as [r|]; cbn [decides] in Hs; [|eauto 10]. right. destruct Hs as [Hs ?].
    split_and!; [eauto| |done]. intros (? & ? & [= <-] & E & ?). rewrite Ek in E. by injection E as <-.
  - right. split_and!; [eauto| |done]. intros (? & ? & [= <-] & E & ?). congruence.
Qed.

Lemma scope_decides f target :
  is_ascii target = true ->
  (forall scope nodes, id_Scope f = Some scope -> stringSlice (dict_at scope "nodes") = Some nodes ->
    Forall (fun p => is_ascii p = true) nodes) ->
  exists r, (if negb (String.eqb target "") then checkScope unicode_ToLower unicode_EqualFold f target else Ok verify_ok) = Ok r /\
    (Valid r = true /\ in_scope f target \/ fails_at 6 r /\ ~ in_scope f target).
Proof.
  intros Ht Hp. unfold in_scope, checkScope. destruct (String.eqb_spec target "") as [->|Hne]; cbn [negb]; [eauto 10|].
  destruct (id_Scope f) as [scope|]; [|eexists; split; [done|right; split; [done|by intros [?|(? & ? & ? & _)]]]].
  destruct (stringSlice (dict_at scope "nodes")) as [nodes|] eqn:En.
  2: { eexists. split; [done|]. right. split; [done|]. intros [?|(? & ? & [= <-] & ? & _)]; congruence. }
  destruct (any_match_ascii unicode_ToLower unicode_EqualFold nodes target) as (b & -> & Hb); [by eapply Hp|done|].
  destruct b; eexists; (split; [done|]); [left; split; [done|right; naive_solver]|right; split; [done|]].
  intros [?|(? & ? & [= <-] & E & HE)]; [done|]. rewrite En in E. injection E as <-. by apply Hb in HE.
Qed.

(** Whatever else holds, a valid identity is authentic. *)
Lemma verify_full_authentic v f vctx r : verify_full v f vctx = Ok r -> Valid r = true -> authentic v f.
Proof.
  unfold VerifyFull. cbv zeta. set (c := default _ vctx). pose proof (expiry_decides f (default clock (AsOf c))) as H1.
  destruct (expiry_row _ _ _) as [r1|]. { intros [= <-]. destruct H1 as (_ & Hv & _). congruence. }
  pose proof (issuer_decides v f c) as H2. destruct (issuer_row _ _ v f) as [r2|]; [|by destruct H2].
  intros [= <-] Hv. destruct H2 as [[_ [Hf _]]|(_ & _ & Hf & _)]; congruence.
Qed.

(** C29. VerifyFull decides the six steps of NPS-3 §7: for ASCII paths and patterns
    it returns without a panic; the identity is valid exactly when it has not
    expired, its issuer is trusted, its signature (and, for a v2 frame, its chain and
    Phase-3 attestation) verifies, no configured source revokes it, it holds the
    required capabilities and a scope pattern covers the target; and otherwise the
    step that is reported is the first that does not hold. A revocation callback that
    rejects is taken to report step 4 itself. *)
Theorem verify_full_decides v f vctx :
  let c := default (MkVerifyContext [] "" None) vctx in
  callback_step v f -> is_ascii (TargetNodePath c) = true ->
  (forall scope nodes, id_Scope f = Some scope -> stringSlice (dict_at scope "nodes") = Some nodes ->
    Forall (fun p => is_ascii p = true) nodes) ->
  exists r, verify_full v f vctx = Ok r /\ reports (step v f c) r.
Proof.
  cbv zeta. intros Hcb Ht Hp. unfold VerifyFull. cbv zeta. set (c := default _ vctx) in *. set (now := default clock (AsOf c)).
  pose proof (expiry_decides f now) as H1. destruct (expiry_row _ f now) as [r|]; cbn [decides] in H1.
  { exists r. split; [done|]. apply (reports_fail _ 1); [lia|lia|by destruct H1|by destruct H1]. }
  change (step v f c 1) in H1. pose proof (issuer_decides v f c) as H2. destruct (issuer_row _ _ v f) as [r|].
  { exists r. split; [done|]. destruct H2 as [[Hn Hf]|(Hs & Hn & Hf)].
    - apply (reports_fail _ 2); [lia|below|done|done].
    - apply (reports_fail _ 3); [lia|below|by intros [? _]|done]. }
  destruct H2 as [H2 Ha]. pose proof (x509_decides v f (Some now)) as H3.
  destruct (x509 v f (Some now)) as [r|]; cbn [decides] in H3.
  { exists r. split; [done|]. apply (reports_fail _ 3); [lia|below| |by destruct H3]. intros [_ ?]. by destruct H3. }
  assert (step v f c 3) by (by split). pose proof (revocation_verdict http_get ocsp_Unmarshal v f Hcb) as H4. unfold revocation_row. cbv zeta.
  destruct H4 as [[-> H4]|[[Hv Hs] Hn]].
  2: { rewrite Hv. eexists. split; [done|]. apply (reports_fail _ 4); [lia|below|done|done]. }
  change (step v f c 4) in H4. unfold capability_row. pose proof (missing_caps_nil (RequiredCapabilities c) (id_Capabilities f)) as H5.
  destruct (missing_caps _ _) as [|x l].
  2: { eexists. split; [done|]. apply (reports_fail _ 5); [lia|below|by intros ?%H5|done]. }
  assert (step v f c 5) by (by apply H5). destruct (scope_decides f (TargetNodePath c) Ht Hp) as (r & -> & Hsc).
  exists r. split; [done|]. destruct Hsc as [[Hv Hsc]|[Hf Hn]].
  - change (step v f c 6) in Hsc. apply reports_valid; [done|below].
  - apply (reports_fail _ 6); [lia|below|done|done].
Qed.

(** ** Limits of the flow *)

(** The frame without its cert_format field. *)
Definition without_format (f : IdentFrame) : IdentFrame :=
  MkIdent (id_NID f) (id_PubKey f) (id_Meta f) (id_Signature f) (id_Scope f) (id_Lineage f) (id_IssuedBy f)
    (id_IssuedAt f) (id_ExpiresAt f) (id_Serial f) (id_AssuranceLevel f) None (id_CertChain f) (id_OCSPStaple f)
    (id_NodeRoles f) (id_Capabilities f).

(** The dual-trust check is only as strong as its v1 half: cert_format is not
    signed, so dropping it from a frame that is accepted, or that is rejected for
    its X.509 chain or Phase-3 attestation, gives a frame that is accepted. *)
Theorem x509_step_is_optional v f issuer :
  Valid (verify v f issuer) = true \/ fails_at 3 (verify v f issuer) -> Valid (verify v (without_format f) issuer) = true.
Proof using H.
  clear http_get ocsp_Unmarshal unicode_ToLower unicode_EqualFold.
  unfold Verify, signature_row. change (IdentFrame_UnsignedDict (without_format f)) with (IdentFrame_UnsignedDict f).
  change (id_Signature (without_format f)) with (id_Signature f). change (assurance_row v (without_format f)) with (assurance_row v f).
  assert (x509 v (without_format f) None = None) as ->.
  { unfold x509_row. destruct (X509Verifier v); [|done]. by rewrite andb_false_r. }
  unfold fails_at. destruct (TrustedCaPublicKeys v !! issuer); [|cbn; naive_solver].
  destruct (id_Signature f ≫= cut_prefix "ed25519:") as [sigB64|]; [|cbn; naive_solver].
  destruct (parse_key _) as [key|]; [|cbn; naive_solver]. destruct (RawURL_Decode sigB64); [|cbn; naive_solver].
  destruct (ed25519_Verify _ _ _); [|cbn; naive_solver]. cbn [or_else]. unfold assurance_row.
  destruct (MinAssuranceLevel v); [|done]. cbv zeta. destruct (MeetsOrExceeds _ _); [done|cbn; naive_solver].
Qed.
End Decides.

(** ** Witnesses *)

Definition sample_pk : string := "ed25519:AAAAAAAAAAAAAAAAAAAAAAAAAAAAAAAAAAAAAAAAAAA".
Definition sample_ident : IdentFrame :=
  MkIdent "urn:nps:agent:ca:a" sample_pk None (Some "ed25519:AAAA") (Some [("nodes", VStrings ["nwp://api/*"])]) None "ca" "t0" "t9"
    "0x1" None (Some CertFormatV2X509) None "" None ["read"].
Definition sample_options : VerifierOptions :=
  MkOptions {["ca" := sample_pk]} [MkCert []] None false None None None None "http://ocsp/" true ""
    (Some (fun _ _ _ _ => (false, "", "no chain"))).
Definition sample_rfc (layout s : string) : option Z := if String.eqb s "t9" then Some 9 else Some 0.
Definition sample_ocsp (url : string) : http_reply := HttpReply 200 (Ok []).
Definition expired_answer (b : list byte) : result string (bool * string) := Ok (false, ErrCertExpired).
Definition dot_text {A} (a : A) : string := "".

Example verify_full_decides_witness :
  exists r, VerifyFull (H := sample_json) (fun _ _ _ => true) sample_rfc dot_text 5 (fun _ => None) dot_text dot_text sample_ocsp
    expired_answer (fun s => s) (fun _ _ => false) sample_options (without_format sample_ident)
    (Some (MkVerifyContext ["read"] "nwp://API/x" None)) = Ok r /\
    reports (step (H := sample_json) (fun _ _ _ => true) sample_rfc dot_text 5 (fun _ => None) dot_text dot_text sample_ocsp
      expired_answer sample_options (without_format sample_ident) (MkVerifyContext ["read"] "nwp://API/x" None)) r.
Proof.
  apply (verify_full_decides (H := sample_json) (fun _ _ _ => true) sample_rfc dot_text 5 (fun _ => None) dot_text dot_text
    sample_ocsp expired_answer (fun s => s) (fun _ _ => false) sample_options (without_format sample_ident)
    (Some (MkVerifyContext ["read"] "nwp://API/x" None))); [intros ? ? [=]|reflexivity|].
  intros scope nodes [= <-] [= <-]. repeat constructor.
Defined.

Definition sample_trust : TrustFrame := MkTrust "root" "ca" ["read"] ["nwp://api/*"] "t0" "t9" "0x1" "root" "ed25519:AAAA".

Example trust_frame_decides_witness :
  exists r, ValidateTrustFrame sample_rfc 5 (fun s => s) (fun _ _ => false) sample_trust
    (MkTrustContext {["root"]} "ca" ["read"] "nwp://api/x" None) = Ok r /\
    reports (trust_step sample_rfc 5 sample_trust (MkTrustContext {["root"]} "ca" ["read"] "nwp://api/x" None)) r.
Proof.
  apply (trust_frame_decides sample_rfc 5 (fun s => s) (fun _ _ => false) sample_trust
    (MkTrustContext {["root"]} "ca" ["read"] "nwp://api/x" None)); [reflexivity|repeat constructor].
Defined.

Example fail_open_ignores_refusal_witness :
  Valid (checkRevocation sample_ocsp expired_answer sample_options sample_ident) = true.
Proof.
  apply (fail_open_ignores_refusal sample_ocsp expired_answer sample_options sample_ident ErrCertExpired); try reflexivity;
    try discriminate. exists 200, []. by repeat split.
Defined.

Example x509_step_is_optional_witness :
  fails_at 3 (Verify (H := sample_json) (fun _ _ _ => true) sample_rfc dot_text 5 (fun _ => None) dot_text dot_text
    sample_options sample_ident "ca") /\
  Valid (Verify (H := sample_json) (fun _ _ _ => true) sample_rfc dot_text 5 (fun _ => None) dot_text dot_text
    sample_options (without_format sample_ident) "ca") = true.
Proof.
  split; [split; reflexivity|].
  apply (x509_step_is_optional (H := sample_json) (fun _ _ _ => true) sample_rfc dot_text 5 (fun _ => None) dot_text dot_text
    sample_options sample_ident "ca"). right. split; reflexivity.
Defined.
