(* ===== verification/NipCa.v ===== *)
(** * The NIP certificate authority

    nip/ca_service.go over the in-memory store of NipStore.v and the enrollment
    policies of NipRa.v.  The service is its options, its store and its key; an
    operation takes the store and returns it.

    Clock readings and random strings are arguments of the operations.  Ed25519
    signing, [json.Marshal] and [json.Unmarshal], the formatting of instants and
    durations, [url.Parse] and [x509.CreateCertificate] are parameters.  Instants
    and durations are nanoseconds. *)

From S2P Require Import Prelude GoValue GoBase64 CoreFrames CoreCodec CoreCache NcpFrames NipFrames NipDer NipPhase3 NipStore NipRa NipPath NipVerifier.

Definition IdentLineageRoleGroup : string := "group".
Definition IdentLineageRoleSession : string := "session".

Definition oidEkuAgentIdentity : list Z := [1; 3; 6; 1; 4; 1; 65715; 1; 1].
Definition oidEkuNodeIdentity : list Z := [1; 3; 6; 1; 4; 1; 65715; 1; 2].
Definition oidNidAssuranceLevel : list Z := [1; 3; 6; 1; 4; 1; 65715; 2; 1].
Definition oidExtensionExtendedKeyUsage : list Z := [2; 5; 29; 37].

(** ** Options *)

Record NipCaOptions : Type := MkCaOptions {
  CaNid : string; ca_DisplayName : string; ca_BaseUrl : string; ca_RoutePrefix : string;
  AgentCertValidityDays : Z; NodeCertValidityDays : Z; RenewalWindowDays : Z; GroupCertValidityDays : Z;
  SessionDefaultValidity : Z; SessionMaxValidity : Z; SessionMinValidity : Z; SessionJwsClockSkew : Z;
  NormalizeOcspResponseTime : bool; ca_Algorithms : option (list string); OperatorApiKey : string;
  AllowedCapabilities : option (gmap string bool); EnrollmentTier : Z; EnrollmentAllowlistPatterns : option (list string);
  BootstrapTokenMaxTtl : Z; PendingQueueMaxSize : Z; PendingQueueMaxAge : Z
}.

Definition minute : Z := 60 * second.
Definition hour : Z := 60 * minute.
Definition day : Z := 24 * hour.

(** A number that defaults when it is zero. *)
Definition or_default (z d : Z) : Z := if z =? 0 then d else z.

Definition EnrollmentTierAllowlist : Z := 1.
Definition EnrollmentTierBootstrapToken : Z := 2.
Definition EnrollmentTierPendingQueue : Z := 3.

Definition DefaultNipCaOptions (caNid baseUrl : string) : NipCaOptions :=
  MkCaOptions caNid "" baseUrl "" 30 90 7 365 hour (24 * hour) minute (5 * minute) true (Some ["ed25519"]) "" None
    EnrollmentTierAllowlist (Some ["*"]) (24 * hour) 1000 (7 * 24 * hour).

Definition applyDefaults (o : NipCaOptions) : NipCaOptions :=
  MkCaOptions (CaNid o) (ca_DisplayName o) (ca_BaseUrl o) (ca_RoutePrefix o)
    (or_default (AgentCertValidityDays o) 30) (or_default (NodeCertValidityDays o) 90)
    (or_default (RenewalWindowDays o) 7) (or_default (GroupCertValidityDays o) 365)
    (or_default (SessionDefaultValidity o) hour) (or_default (SessionMaxValidity o) (24 * hour))
    (or_default (SessionMinValidity o) minute) (or_default (SessionJwsClockSkew o) (5 * minute))
    (NormalizeOcspResponseTime o) (Some (default ["ed25519"] (ca_Algorithms o))) (OperatorApiKey o) (AllowedCapabilities o)
    (or_default (EnrollmentTier o) EnrollmentTierAllowlist) (Some (default ["*"] (EnrollmentAllowlistPatterns o)))
    (or_default (BootstrapTokenMaxTtl o) (24 * hour)) (or_default (PendingQueueMaxSize o) 1000)
    (or_default (PendingQueueMaxAge o) (7 * 24 * hour)).

(** [t.AddDate(0, 0, n)] in UTC. *)
Definition add_days (t n : Z) : Z := t + n * day.

(** ** Certificates *)

(** The fields of the template that the service fills. *)
Record cert_template : Type := MkTemplate {
  ct_Serial : Z; ct_Subject : string; ct_Issuer : string; ct_NotBefore : Z; ct_NotAfter : Z; ct_IsCA : bool;
  ct_URIs : list string; ct_Extensions : list (list Z * bool * list byte)
}.

(** An object identifier: its first two arcs in one byte, then base 128. *)
Fixpoint base128 (fuel : nat) (n : Z) (acc : list byte) : list byte :=
  match fuel with
  | O => acc
  | S f => if n =? 0 then acc else base128 f (n / 128) (z_byte (n mod 128 + 128) :: acc)
  end.

Definition oid_arc (n : Z) : list byte := base128 (S (Z.to_nat (Z.log2 n))) (n / 128) [z_byte (n mod 128)].

Definition oid_body (oid : list Z) : list byte :=
  match oid with
  | a :: b :: r => oid_arc (a * 40 + b) ++ concat (oid_arc <$> r)
  | _ => []
  end.

(** [asn1.Marshal] of a list of identifiers. *)
Definition marshal_oids (oids : list (list Z)) : list byte :=
  writeTLV (sequence (concat ((fun o => writeTLV (MkRaw ClassUniversal 6 false (oid_body o))) <$> oids))).

(** [hex.DecodeString] followed by [big.Int.SetBytes]. *)
Definition hex_any (c : Ascii.ascii) : option Z :=
  let z := char_z c in
  if (48 <=? z) && (z <=? 57) then Some (z - 48)
  else if (97 <=? z) && (z <=? 102) then Some (z - 87)
  else if (65 <=? z) && (z <=? 70) then Some (z - 55) else None.

Fixpoint decode_hex (s : string) (acc : Z) : option Z :=
  match s with
  | EmptyString => Some acc
  | String c r => match hex_any c with Some d => decode_hex r (acc * 16 + d) | None => None end
  end.

Definition cut_0x (s : string) : string :=
  match cut_prefix "0x" s with
  | Some r => r
  | None => match cut_prefix "0X" s with Some r => r | None => s end
  end.

Definition parseSerialBytes (serial : string) : Z :=
  let hexStr := cut_0x serial in
  let hexStr := if negb (Nat.even (String.length hexStr)) then String (chr 48) hexStr else hexStr in
  match decode_hex hexStr 0 with
  | None => 1
  | Some n => if String.eqb hexStr "" then 1 else n
  end.

(** Unpadded first, then padded. *)
Definition decodeBase64Url (s : string) : option (list byte) :=
  match RawURL_Decode s with Some b => Some b | None => URL_Decode s end.

Definition base64Url (data : list byte) : string := RawURL_Encode data.

(** ** Lineage *)

Definition lineageMap (fields : list (string * string)) : dict :=
  omap (fun kv : string * string => if String.eqb kv.2 "" then None else Some (kv.1, VString kv.2)) fields.

Definition strPtr (s : string) : option string := Some s.
Definition nilStr (s : string) : option string := if String.eqb s "" then None else Some s.
Definition ptrStr (p : option string) : string := default "" p.

(** ** Results of [Verify] *)

Record NipVerifyResult : Type := MkCaVerify {
  ca_Valid : bool; ca_ErrorCode : string; ca_Message : string; ca_Record : option NipCertRecord
}.

Definition verifyOk (r : NipCertRecord) : NipVerifyResult := MkCaVerify true "" "" (Some r).
Definition verifyFail (code msg : string) : NipVerifyResult := MkCaVerify false code msg None.

Section Service.
Context `{GoJSON} (json_UnmarshalMap : string -> result string (option dict)).
Context (ed25519_Sign : list byte -> list byte) (ca_pub : list byte).
Context (isoTime : Z -> string) (fmt_duration : Z -> string).
Context (url_Parse : string -> result string string).
(** [x509.CreateCertificate] with the CA key: template, parent name, subject key. *)
Context (CreateCertificate : cert_template -> string -> list byte -> result string (list byte)).
Context (b64_error : string -> string).
Context (opts : NipCaOptions).

Abbreviation store := InMemoryNipCaStore.

Definition Sign (payload : dict) : string := "ed25519:" +:+ RawURL_Encode (ed25519_Sign (canonicalSorted payload)).
Definition GetCaPublicKey : string := "ed25519:" +:+ RawURL_Encode ca_pub.
Definition SignArtifact (artifact : dict) : string := Sign artifact.

Definition extractLineageString (lineageJSON : option string) (field : string) : string :=
  match lineageJSON with
  | None => ""
  | Some j =>
      if String.eqb j "" then ""
      else match json_UnmarshalMap j with
           | Err _ => ""
           | Ok doc => default "" (as_string (dict_at (default [] doc) field))
           end
  end.

Definition extractEd25519Raw (encoded : string) : go_result (list byte) :=
  match cut_prefix "ed25519:" encoded with
  | None => Err (ErrNipCa ErrCertFormatInvalid ("X.509 issuance requires an ed25519:* pubkey; got '" +:+ encoded +:+ "'."))
  | Some b64 =>
      match decodeBase64Url b64 with
      | None => Err (ErrNipCa ErrCertFormatInvalid ("invalid ed25519 pubkey base64url: " +:+ b64_error b64))
      | Some raw => if (length raw =? 32)%nat then Ok raw
                    else Err (ErrNipCa ErrCertFormatInvalid
                           ("Ed25519 pubkey must be 32 bytes; got " +:+ fmt_d (Z.of_nat (length raw)) +:+ "."))
      end
  end.

(** ** Issuing *)

Definition BuildNid (entityType identifier : string) : string :=
  let parts := split_on (chr 58) (CaNid opts) in
  let domain := match parts !! 3%nat with Some d => d | None => CaNid opts end in
  "urn:nps:" +:+ entityType +:+ ":" +:+ domain +:+ ":" +:+ identifier.

Definition buildSignedPayload (nid pubKey : string) (capabilities : list string) (scope : option dict)
    (issuedAt expiresAt serial : string) (assurance : option AssuranceLevel) (lineage : option dict) : dict :=
  let d := [("capabilities", VStrings capabilities); ("expires_at", VString expiresAt); ("frame", VString "0x20");
            ("issued_at", VString issuedAt); ("issued_by", VString (CaNid opts)); ("nid", VString nid);
            ("pub_key", VString pubKey); ("scope", VMap (default [] scope)); ("serial", VString serial)] in
  set_opt "lineage" VMap lineage (set_opt "assurance_level" (fun l => VString (Wire l)) assurance d).

(** A JSON object, the default when the text is empty. *)
Definition json_object (what : string) (dflt : option dict) (text : string) : go_result (option dict) :=
  if String.eqb text "" then Ok dflt
  else match json_UnmarshalMap text with
       | Err e => Err (ErrNipCa ErrCertFormatInvalid ("invalid " +:+ what +:+ " JSON: " +:+ e))
       | Ok d => Ok d
       end.

Definition issueFrame (nid pubKey : string) (capabilities : list string) (scopeJSON : string) (issuedAt expiresAt : Z)
    (serial metadataJSON : string) (assurance : option AssuranceLevel) (lineage : option dict) : go_result IdentFrame :=
  match json_object "scope" (Some []) scopeJSON with
  | Err e => Err e
  | Ok scope =>
      let payload := buildSignedPayload nid pubKey capabilities scope (isoTime issuedAt) (isoTime expiresAt) serial
                       assurance lineage in
      match json_object "metadata" None metadataJSON with
      | Err e => Err e
      | Ok meta =>
          Ok (MkIdent nid pubKey meta (Some (Sign payload)) scope lineage (CaNid opts) (isoTime issuedAt)
                (isoTime expiresAt) serial assurance None None "" None capabilities)
      end
  end.

Definition checkAllowedCaps (capabilities : list string) : go_result unit :=
  match AllowedCapabilities opts with
  | None => Ok tt
  | Some allowed =>
      match List.filter (fun c => negb (default false (allowed !! c))) capabilities with
      | [] => Ok tt
      | disallowed => Err (ErrNipCa ErrCertCapabilityMissing
                             ("Capabilities not permitted by this CA: " +:+ join ", " disallowed))
      end
  end.

Definition valid_days (entityType : string) : Z :=
  if String.eqb entityType "node" then NodeCertValidityDays opts else AgentCertValidityDays opts.

Definition already_exists (nid : string) : go_error := ErrNipCa ErrCaNidAlreadyExists ("NID already exists: " +:+ nid).

(** Save the record of an issued frame. *)
Definition save_issued (st : store) (rec : NipCertRecord) (frame : IdentFrame) : go_result IdentFrame * store :=
  match Save st rec with Err e => (Err e, st) | Ok st => (Ok frame, st) end.

Definition Register (st : store) (now : Z) (entityType identifier pubKey : string) (capabilities : list string)
    (scopeJSON metadataJSON : string) : go_result IdentFrame * store :=
  let nid := BuildNid entityType identifier in
  match GetByNid st nid with
  | Some _ => (Err (already_exists nid), st)
  | None =>
      match checkAllowedCaps capabilities with
      | Err e => (Err e, st)
      | Ok _ =>
          let expiresAt := add_days now (valid_days entityType) in
          let '(serial, st) := NextSerial st in
          match issueFrame nid pubKey capabilities scopeJSON now expiresAt serial metadataJSON None None with
          | Err e => (Err e, st)
          | Ok frame =>
              save_issued st (MkRecord nid entityType serial pubKey capabilities scopeJSON (CaNid opts) now expiresAt None
                None (nilStr metadataJSON) None None None) frame
          end
      end
  end.

(** The enrollment policies; the tokens and the queue are the policy's state. *)
Inductive EnrollmentPolicy : Type :=
| Allowlist (p : AllowlistPolicy)
| Bootstrap (sha256 : string -> list byte) (tokens : list bootstrapEntry)
| PendingQueue (queue : InMemoryPendingStore) (maxSize : Z).

(** The readings of the clock and the random string that a policy may use. *)
Record policy_env : Type := MkPolicyEnv { pe_clock : nat -> Z; pe_rand : string }.

Definition Policy_Check (env : policy_env) (policy : EnrollmentPolicy) (entityType identifier pubKey : string)
    (capabilities : list string) (scopeJSON metadataJSON enrollmentToken : string) : go_result unit * EnrollmentPolicy :=
  match policy with
  | Allowlist p => (AllowlistPolicy_Check p identifier, policy)
  | Bootstrap sha256 tokens =>
      let '(r, tokens) := BootstrapTokenPolicy_Check sha256 (pe_clock env) tokens enrollmentToken in (r, Bootstrap sha256 tokens)
  | PendingQueue queue maxSize =>
      let '(e, queue) := PendingQueuePolicy_Check queue maxSize entityType identifier pubKey capabilities scopeJSON
                           metadataJSON (pe_rand env) (pe_clock env 0%nat) (pe_clock env 1%nat) in
      (Err e, PendingQueue queue maxSize)
  end.

Definition RegisterWithRa (st : store) (now : Z) (env : policy_env) (policy : option EnrollmentPolicy)
    (entityType identifier pubKey : string) (capabilities : list string) (scopeJSON metadataJSON enrollmentToken : string) :
    go_result IdentFrame * option EnrollmentPolicy * store :=
  match policy with
  | None =>
      let '(r, st) := Register st now entityType identifier pubKey capabilities scopeJSON metadataJSON in (r, None, st)
  | Some policy =>
      match Policy_Check env policy entityType identifier pubKey capabilities scopeJSON metadataJSON enrollmentToken with
      | (Err e, policy) => (Err e, Some policy, st)
      | (Ok _, policy) =>
          let '(r, st) := Register st now entityType identifier pubKey capabilities scopeJSON metadataJSON in
          (r, Some policy, st)
      end
  end.

Definition CreateEnrollmentPolicy (o : NipCaOptions) (sha256 : string -> list byte)
    (bootstrapStore : option (list bootstrapEntry)) (pendingStore : option InMemoryPendingStore) : go_result EnrollmentPolicy :=
  let o := applyDefaults o in
  if EnrollmentTier o =? EnrollmentTierAllowlist then
    match NewAllowlistPolicy (default [] (EnrollmentAllowlistPatterns o)) with Ok p => Ok (Allowlist p) | Err e => Err e end
  else if EnrollmentTier o =? EnrollmentTierBootstrapToken then
    match bootstrapStore with
    | None => Err (ErrPlain "EnrollmentTierBootstrapToken requires a BootstrapTokenStore")
    | Some tokens => Ok (Bootstrap sha256 tokens)
    end
  else if EnrollmentTier o =? EnrollmentTierPendingQueue then
    match pendingStore with
    | None => Err (ErrPlain "EnrollmentTierPendingQueue requires a PendingStore")
    | Some queue => Ok (PendingQueue queue (PendingQueueMaxSize o))
    end
  else Err (ErrPlain ("unknown EnrollmentTier: " +:+ fmt_d (EnrollmentTier o))).

(** ** X.509 *)

Definition issueLeafCert (nid : string) (subjectPub : list byte) (entityType : string) (assurance : AssuranceLevel)
    (notBefore notAfter serial : Z) : result string (list byte) :=
  let ekuOid := if String.eqb entityType "node" then oidEkuNodeIdentity else oidEkuAgentIdentity in
  let ekuValue := marshal_oids [ekuOid] in
  let assuranceDer := [x0a; x01; z_byte (Rank assurance)] in
  match url_Parse nid with
  | Err e => Err e
  | Ok uri =>
      CreateCertificate
        (MkTemplate serial nid (CaNid opts) notBefore notAfter false [uri]
          [(oidExtensionExtendedKeyUsage, true, ekuValue); (oidNidAssuranceLevel, false, assuranceDer)])
        (CaNid opts) subjectPub
  end.

(** The random serial: sixteen bytes, positive and not starting with a zero byte. *)
Definition root_serial (rand : list byte) : Z :=
  match rand with
  | [] => 0
  | b :: r => let b := z_byte (Z.land (byte_z b) 0x7F) in
              get_be ((if byte_z b =? 0 then x01 else b) :: r)
  end.

Definition caRootCert (rand : list byte) (now tenYears : Z) : go_result (list byte) :=
  match CreateCertificate (MkTemplate (root_serial rand) (CaNid opts) (CaNid opts) now tenYears true [] []) (CaNid opts) ca_pub with
  | Err e => Err (ErrNipCa ErrCertFormatInvalid ("CA root cert generation failed: " +:+ e))
  | Ok der => Ok der
  end.

Definition with_chain (f : IdentFrame) (chain : list string) : IdentFrame :=
  MkIdent (id_NID f) (id_PubKey f) (id_Meta f) (id_Signature f) (id_Scope f) (id_Lineage f) (id_IssuedBy f)
    (id_IssuedAt f) (id_ExpiresAt f) (id_Serial f) (id_AssuranceLevel f) (Some CertFormatV2X509) (Some chain)
    (id_OCSPStaple f) (id_NodeRoles f) (id_Capabilities f).

(** [tenYears] is [now.AddDate(10, 0, 0)]. *)
Definition RegisterX509 (st : store) (now tenYears : Z) (rand : list byte) (entityType identifier pubKey : string)
    (capabilities : list string) (scopeJSON : string) (assurance : AssuranceLevel) (metadataJSON : string)
    (rootCert : option (list byte)) : go_result IdentFrame * store :=
  let nid := BuildNid entityType identifier in
  match GetByNid st nid with
  | Some _ => (Err (already_exists nid), st)
  | None =>
      match checkAllowedCaps capabilities with
      | Err e => (Err e, st)
      | Ok _ =>
          let expiresAt := add_days now (valid_days entityType) in
          let '(serial, st) := NextSerial st in
          match issueFrame nid pubKey capabilities scopeJSON now expiresAt serial metadataJSON (Some assurance) None with
          | Err e => (Err e, st)
          | Ok frame =>
              match extractEd25519Raw pubKey with
              | Err e => (Err e, st)
              | Ok subjectRaw =>
                  match issueLeafCert nid subjectRaw entityType assurance now expiresAt (parseSerialBytes serial) with
                  | Err e => (Err (ErrNipCa ErrCertFormatInvalid ("X.509 leaf issuance failed: " +:+ e)), st)
                  | Ok leaf =>
                      match (match rootCert with Some rc => Ok rc | None => caRootCert rand now tenYears end) with
                      | Err e => (Err e, st)
                      | Ok root =>
                          save_issued st (MkRecord nid entityType serial pubKey capabilities scopeJSON (CaNid opts) now
                            expiresAt None None (nilStr metadataJSON) None None None)
                            (with_chain frame [base64Url leaf; base64Url root])
                      end
                  end
              end
          end
      end
  end.

(** ** Groups and sessions *)

Definition marshal_text (d : dict) : string := string_of_bytes (marshal_or_nil d).

(** [rand] names the group when no identifier is given. *)
Definition RegisterGroup (st : store) (now : Z) (rand identifier pubKey : string) (capabilities : list string)
    (scopeJSON ownerUserId ownerKeyId metadataJSON : string) : go_result IdentFrame * store :=
  if negb (String.eqb identifier "") && negb (has_prefix "group-" identifier) then
    (Err (ErrNipCa ErrCaNidAlreadyExists
       ("Group identifier MUST start with reserved prefix 'group-' (got '" +:+ identifier +:+ "'). NPS-3 §3.1.")), st)
  else
    let identifier := if String.eqb identifier "" then "group-" +:+ rand else identifier in
    let nid := BuildNid "agent" identifier in
    match GetByNid st nid with
    | Some _ => (Err (already_exists nid), st)
    | None =>
        match checkAllowedCaps capabilities with
        | Err e => (Err e, st)
        | Ok _ =>
            let expiresAt := add_days now (GroupCertValidityDays opts) in
            let '(serial, st) := NextSerial st in
            let lineage := lineageMap [("role", IdentLineageRoleGroup); ("owner_user_id", ownerUserId);
                                       ("owner_key_id", ownerKeyId)] in
            match issueFrame nid pubKey capabilities scopeJSON now expiresAt serial metadataJSON None (Some lineage) with
            | Err e => (Err e, st)
            | Ok frame =>
                save_issued st (MkRecord nid "agent" serial pubKey capabilities scopeJSON (CaNid opts) now expiresAt None
                  None (nilStr metadataJSON) (strPtr IdentLineageRoleGroup) None (strPtr (marshal_text lineage))) frame
            end
        end
    end.

Record IssueSessionParams : Type := MkSessionParams {
  sp_Validity : Z; sp_Purpose : string; sp_Capabilities : option (list string); sp_ScopeJSON : string; sp_MetadataJSON : string
}.

(** The three readings of the clock: the expiry test, the session name, the issue time. *)
Record session_env : Type := MkSessionEnv { se_now1 : Z; se_now2 : Z; se_now3 : Z; se_rand : string }.

Definition session_id (env : session_env) : string :=
  "session-" +:+ fmt_d (se_now2 env / second) +:+ "-" +:+ se_rand env.

Definition session_nid (env : session_env) : string := BuildNid "agent" (session_id env).

(** The checks on the group. *)
Definition session_group (st : store) (now : Z) (groupNid : string) : go_result NipCertRecord :=
  match GetByNid st groupNid with
  | None => Err (ErrNipCa ErrCaParentNotFound ("Group NID not found: " +:+ groupNid +:+ "."))
  | Some group =>
      if negb (bool_decide (c_NidRole group = Some IdentLineageRoleGroup)) then
        Err (ErrNipCa ErrCaParentNotGroup ("NID '" +:+ groupNid +:+ "' is not registered as a group (role='" +:+
               default "<null>" (c_NidRole group) +:+ "')."))
      else match c_RevokedAt group with
           | Some t => Err (ErrNipCa ErrCaGroupRevoked
                              ("Group " +:+ groupNid +:+ " was revoked at " +:+ isoTime t +:+ "; cannot issue new sessions."))
           | None =>
               if after now (c_ExpiresAt group) then
                 Err (ErrNipCa ErrCertExpired ("Group " +:+ groupNid +:+ " expired at " +:+ isoTime (c_ExpiresAt group) +:+
                        "; cannot issue new sessions."))
               else Ok group
           end
  end.

Definition session_validity (p : IssueSessionParams) : go_result Z :=
  let v := if sp_Validity p =? 0 then SessionDefaultValidity opts else sp_Validity p in
  if (v <? SessionMinValidity opts) || (SessionMaxValidity opts <? v) then
    Err (ErrNipCa ErrCaSessionValidityInvalid ("Session validity must be in [" +:+ fmt_duration (SessionMinValidity opts) +:+
           ", " +:+ fmt_duration (SessionMaxValidity opts) +:+ "]; got " +:+ fmt_duration v +:+ "."))
  else Ok v.

Definition session_caps (p : IssueSessionParams) (group : NipCertRecord) : go_result (list string) :=
  match sp_Capabilities p with
  | None => Ok (c_Capabilities group)
  | Some caps =>
      match missing_caps caps (c_Capabilities group) with
      | [] => Ok caps
      | expansion => Err (ErrNipCa ErrCaScopeExpansionDenied
                            ("Session capabilities not in parent group: " +:+ join ", " expansion +:+ "."))
      end
  end.

Definition session_lineage (env : session_env) (p : IssueSessionParams) (groupNid : string) (group : NipCertRecord) : dict :=
  lineageMap [("role", IdentLineageRoleSession); ("parent_nid", groupNid); ("group_nid", groupNid);
              ("session_id", session_id env); ("purpose", sp_Purpose p);
              ("owner_user_id", extractLineageString (c_LineageJson group) "owner_user_id");
              ("owner_key_id", extractLineageString (c_LineageJson group) "owner_key_id")].

Definition IssueSession (st : store) (env : session_env) (groupNid sessionPubKey : string) (p : IssueSessionParams) :
    go_result IdentFrame * store :=
  match session_group st (se_now1 env) groupNid with
  | Err e => (Err e, st)
  | Ok group =>
      match session_validity p with
      | Err e => (Err e, st)
      | Ok v =>
          match session_caps p group with
          | Err e => (Err e, st)
          | Ok sessionCaps =>
              let scopeJSON := if String.eqb (sp_ScopeJSON p) "" then c_ScopeJson group else sp_ScopeJSON p in
              let sessionNid := session_nid env in
              let now := se_now3 env in
              let expiresAt := now + v in
              let '(serial, st) := NextSerial st in
              let lineage := session_lineage env p groupNid group in
              match issueFrame sessionNid sessionPubKey sessionCaps scopeJSON now expiresAt serial (sp_MetadataJSON p) None
                      (Some lineage) with
              | Err e => (Err e, st)
              | Ok frame =>
                  save_issued st (MkRecord sessionNid "agent" serial sessionPubKey sessionCaps scopeJSON (CaNid opts) now
                    expiresAt None None (nilStr (sp_MetadataJSON p)) (strPtr IdentLineageRoleSession) (strPtr groupNid)
                    (strPtr (marshal_text lineage))) frame
              end
          end
      end
  end.

Definition ListSessions (st : store) (groupNid : string) : list NipCertRecord := GetByParentNid st groupNid.
Definition GetCert (st : store) (nid : string) : option NipCertRecord := GetByNid st nid.

(** ** Renewal and revocation *)

Definition Renew (st : store) (now : Z) (nid : string) : go_result IdentFrame * store :=
  match GetByNid st nid with
  | None => (Err (ErrNipCa ErrCaNidNotFound ("NID not found: " +:+ nid)), st)
  | Some rec =>
      if is_revoked rec then (Err (ErrNipCa ErrCertRevoked ("NID is revoked: " +:+ nid)), st)
      else
        let windowStart := add_days (c_ExpiresAt rec) (- RenewalWindowDays opts) in
        if now <? windowStart then
          (Err (ErrNipCa ErrCaRenewalTooEarly ("Renewal window opens " +:+ isoTime windowStart +:+ ". Too early to renew.")), st)
        else
          let expiresAt := add_days now (valid_days (c_EntityType rec)) in
          let '(serial, st) := NextSerial st in
          match issueFrame nid (c_PubKey rec) (c_Capabilities rec) (c_ScopeJson rec) now expiresAt serial
                  (ptrStr (c_MetadataJson rec)) None None with
          | Err e => (Err e, st)
          | Ok frame =>
              save_issued st (MkRecord nid (c_EntityType rec) serial (c_PubKey rec) (c_Capabilities rec) (c_ScopeJson rec)
                (CaNid opts) now expiresAt None None (c_MetadataJson rec) None None None) frame
          end
  end.

(** The children are read once; the loop revokes those that were live then. *)
Definition cascade (now : Z) (st : store) (children : list NipCertRecord) : store :=
  fold_left (fun st child => if is_revoked child then st else (NipStore.Revoke st (c_Nid child) "parent_revoked" now).2)
    children st.

Definition Revoke (st : store) (now : Z) (nid reason : string) : go_result RevokeFrame * store :=
  match GetByNid st nid with
  | None => (Err (ErrNipCa ErrCaNidNotFound ("NID not found: " +:+ nid)), st)
  | Some rec =>
      match NipStore.Revoke st nid reason now with
      | (false, st) => (Err (ErrNipCa ErrCaNidNotFound ("Failed to revoke " +:+ nid +:+ ".")), st)
      | (true, st) =>
          let st := if bool_decide (c_NidRole rec = Some IdentLineageRoleGroup)
                    then cascade now st (GetByParentNid st nid) else st in
          let payload := [("frame", VString "0x22"); ("target_nid", VString nid); ("serial", VString (c_Serial rec));
                          ("reason", VString reason); ("revoked_at", VString (isoTime now)); ("signer_nid", VString (CaNid opts))] in
          (Ok (MkRevoke nid (Some (c_Serial rec)) reason (isoTime now) None (CaNid opts) (Sign payload)), st)
      end
  end.

(** [now1] and [now2] are the readings for the record and for its parent. *)
Definition Verify (st : store) (now1 now2 : Z) (nid : string) : NipVerifyResult :=
  match GetByNid st nid with
  | None => verifyFail ErrCaNidNotFound "NID not found."
  | Some rec =>
      match c_RevokedAt rec with
      | Some t => verifyFail ErrCertRevoked ("Revoked at " +:+ isoTime t +:+ ": " +:+ ptrStr (c_RevokeReason rec))
      | None =>
          if after now1 (c_ExpiresAt rec) then
            verifyFail ErrCertExpired ("Expired at " +:+ isoTime (c_ExpiresAt rec) +:+ ".")
          else
            let parentNid := ptrStr (c_ParentNid rec) in
            if String.eqb parentNid "" then verifyOk rec
            else match GetByNid st parentNid with
                 | None => verifyFail ErrCertParentRevoked ("Parent NID " +:+ parentNid +:+ " not found.")
                 | Some parent =>
                     match c_RevokedAt parent with
                     | Some t => verifyFail ErrCertParentRevoked ("Parent " +:+ parentNid +:+ " revoked at " +:+
                                   isoTime t +:+ ": " +:+ ptrStr (c_RevokeReason parent))
                     | None =>
                         if after now2 (c_ExpiresAt parent) then
                           verifyFail ErrCertParentRevoked ("Parent " +:+ parentNid +:+ " expired at " +:+
                             isoTime (c_ExpiresAt parent) +:+ ".")
                         else verifyOk rec
                     end
                 end
      end
  end.

Definition GetCrl (st : store) : list NipCertRecord := GetRevoked st.
Definition ListCertificates (st : store) : list NipCertRecord := List_ st.
End Service.
