(* ===== verification/NipCaProof.v ===== *)
(** * What the certificate authority guarantees

    The operations of NipCa.v refine a small set of effects on the store; serial
    numbers, revocation and sessions are then reasoned about on the effects.  The
    last sections show where issuing, renewal and verification do not fit
    together. *)

From S2P Require Import Prelude GoValue GoBase64 CoreFrames CoreCodec CoreCache NcpFrames NipFrames NipDer NipPhase3 NipStore NipRa NipPath NipVerifier NipVerifierProof NipCa.

(** ** The store *)

Definition latest (nid : string) (l : list NipCertRecord) : option NipCertRecord :=
  List.find (fun r => String.eqb (c_Nid r) nid) (reverse l).

Lemma list_find_app {A} (f : A -> bool) a b :
  List.find f (a ++ b) = match List.find f a with Some x => Some x | None => List.find f b end.
Proof. induction a as [|x a IH]; [done|]. simpl. by destruct (f x). Qed.

Lemma latest_app nid l1 l2 : latest nid (l1 ++ l2) = match latest nid l2 with Some x => Some x | None => latest nid l1 end.
Proof. unfold latest. by rewrite reverse_app, list_find_app. Qed.

Lemma latest_one nid r : latest nid [r] = if String.eqb (c_Nid r) nid then Some r else None.
Proof. done. Qed.

Lemma latest_cons nid r l :
  latest nid (r :: l) = match latest nid l with Some x => Some x | None => if String.eqb (c_Nid r) nid then Some r else None end.
Proof. change (r :: l) with ([r] ++ l). by rewrite latest_app, latest_one. Qed.

Lemma latest_Some nid l r : latest nid l = Some r -> r ∈ l /\ c_Nid r = nid.
Proof.
  unfold latest. intros E. apply find_some in E as [E1 E2%String.eqb_eq]. apply list_elem_of_In in E1.
  by rewrite elem_of_reverse in E1.
Qed.

Lemma latest_None nid l : latest nid l = None <-> nid ∉ (c_Nid <$> l).
Proof.
  induction l as [|r l IH]; [split; [intros _; apply not_elem_of_nil|done]|]. rewrite latest_cons, fmap_cons, elem_of_cons.
  destruct (latest nid l) as [x|] eqn:E.
  - split; [done|]. intros Hn. destruct Hn. right. apply latest_Some in E as [Hx <-]. by apply list_elem_of_fmap_2.
  - destruct (String.eqb_spec (c_Nid r) nid) as [->|Hne]; [split; [done|tauto]|].
    split; [intros _ [?|?]; [congruence|by apply IH]|done].
Qed.

(** The loop marks the last live record of the NID. *)
Lemma revoke_last_spec nid reason t l l' :
  revoke_last nid reason t l = Some l' ->
  exists l1 r l2, l = l1 ++ r :: l2 /\ l' = l1 ++ mark_revoked reason t r :: l2 /\ c_Nid r = nid /\ is_revoked r = false /\
    (forall x, x ∈ l2 -> c_Nid x = nid -> is_revoked x = true).
Proof.
  revert l'. induction l as [|r l IH]; intros l'; [done|]. cbn [revoke_last].
  destruct (revoke_last nid reason t l) as [t'|] eqn:E.
  - intros [= <-]. destruct (IH t' eq_refl) as (l1 & x & l2 & -> & -> & ?). by exists (r :: l1), x, l2.
  - destruct (String.eqb_spec (c_Nid r) nid) as [Hn|]; cbn [andb]; [|done].
    destruct (is_revoked r) eqn:Er; [done|]. intros [= <-]. exists [], r, l. split_and!; [done..|].
    clear IH Hn. induction l as [|y l IH]; intros x; [by intros ?%not_elem_of_nil|]. cbn [revoke_last] in E.
    destruct (revoke_last nid reason t l); [done|]. intros [->|Hx]%elem_of_cons Hn.
    + rewrite (proj2 (String.eqb_eq _ _) Hn) in E. by destruct (is_revoked y).
    + by apply IH.
Qed.

(** A list in which some records became revoked. *)
Definition more_revoked : list NipCertRecord -> list NipCertRecord -> Prop :=
  Forall2 (fun r r' => r' = r \/ is_revoked r = false /\ exists reason t, r' = mark_revoked reason t r).

Lemma more_revoked_refl l : more_revoked l l.
Proof. unfold more_revoked. induction l; constructor; [by left|done]. Qed.

Lemma more_revoked_serials l l' : more_revoked l l' -> c_Serial <$> l' = c_Serial <$> l.
Proof. induction 1 as [|r r' l l' Hr _ IH]; [done|]. cbn. f_equal; [|done]. by destruct Hr as [->|(_ & ? & ? & ->)]. Qed.

Lemma more_revoked_nids l l' : more_revoked l l' -> c_Nid <$> l' = c_Nid <$> l.
Proof. induction 1 as [|r r' l l' Hr _ IH]; [done|]. cbn. f_equal; [|done]. by destruct Hr as [->|(_ & ? & ? & ->)]. Qed.

Lemma more_revoked_latest nid l l' r :
  more_revoked l l' -> latest nid l = Some r -> is_revoked r = true -> latest nid l' = Some r.
Proof.
  intros Hm. revert r. induction Hm as [|x x' l l' Hx Hm IH]; intros r; [done|]. rewrite !latest_cons.
  destruct (latest nid l) as [y|] eqn:E.
  - intros [= <-] Hr. by rewrite (IH y).
  - assert (latest nid l' = None) as ->.
    { apply latest_None. rewrite (more_revoked_nids _ _ Hm). by apply latest_None. }
    destruct (String.eqb (c_Nid x) nid) eqn:En; [|done]. intros [= <-] Hr.
    destruct Hx as [->|(Hx & _)]; [by rewrite En|congruence].
Qed.

Lemma more_revoked_trans l1 l2 l3 : more_revoked l1 l2 -> more_revoked l2 l3 -> more_revoked l1 l3.
Proof.
  intros H12. revert l3. induction H12 as [|a b l1 l2 Hab _ IH]; intros l3 H23; inversion H23 as [|? c ? l3' Hbc H23']; subst; [constructor|].
  constructor; [|by apply IH]. destruct Hab as [->|(Ha & reason & t & ->)]; [done|]. right. split; [done|].
  destruct Hbc as [->|(? & _)]; [eauto|done].
Qed.

Lemma store_Revoke_spec s nid reason t :
  let '(b, s') := NipStore.Revoke s nid reason t in
  st_serial s' = st_serial s /\ more_revoked (records s) (records s') /\
  (b = true -> exists r, latest nid (records s') = Some r /\ is_revoked r = true).
Proof.
  unfold NipStore.Revoke. destruct (revoke_last nid reason t (records s)) as [l|] eqn:E.
  2: { split_and!; [done|apply more_revoked_refl|done]. }
  apply revoke_last_spec in E as (l1 & r & l2 & -> & -> & Hn & Hr & Hl2). cbn [records st_serial]. split; [done|]. split.
  - apply Forall2_app; [apply more_revoked_refl|]. constructor; [right; eauto|apply more_revoked_refl].
  - intros _. rewrite latest_app, latest_cons. destruct (latest nid l2) as [x|] eqn:E.
    + exists x. apply latest_Some in E as [Hx Hxn]. eauto.
    + cbn [mark_revoked c_Nid]. rewrite (proj2 (String.eqb_eq _ _) Hn). eauto.
Qed.

(** ** Canonical dicts *)

Lemma ordered_get d ks acc k :
  k ∉ ks -> dict_get k (fold_left (fun acc k => dict_set k (dict_at d k) acc) ks acc) = dict_get k acc.
Proof.
  revert acc. induction ks as [|x ks IH]; intros acc Hk; [done|]. rewrite elem_of_cons in Hk. cbn [fold_left].
  rewrite IH by tauto. apply assoc_get_set_ne. naive_solver.
Qed.

Lemma ordered_has d ks acc k :
  k ∈ ks -> is_Some (dict_get k (fold_left (fun acc k => dict_set k (dict_at d k) acc) ks acc)).
Proof.
  revert acc. induction ks as [|x ks IH]; intros acc Hk; [by apply not_elem_of_nil in Hk|]. cbn [fold_left].
  destruct (decide (k ∈ ks)) as [|Hn]; [by apply IH|]. apply elem_of_cons in Hk as [->|]; [|done].
  rewrite ordered_get by done. rewrite assoc_get_set_eq. eauto.
Qed.

Lemma get_key k (d : dict) : is_Some (dict_get k d) <-> k ∈ (fst <$> d).
Proof.
  induction d as [|[x v] d IH]; [cbn; rewrite is_Some_alt; split; [done|by intros ?%not_elem_of_nil]|].
  rewrite fmap_cons, elem_of_cons. cbn. destruct (String.eqb_spec x k) as [->|Hne]; [naive_solver|]. rewrite IH. naive_solver.
Qed.

Lemma get_set_opt_ne {A} k k' (inj : A -> any) o d : k' <> k -> dict_get k (set_opt k' inj o d) = dict_get k d.
Proof. destruct o; [apply assoc_get_set_ne|done]. Qed.
Lemma get_set_str_ne k k' s d : k' <> k -> dict_get k (NdpRegistry.set_str k' s d) = dict_get k d.
Proof. unfold NdpRegistry.set_str. destruct (String.eqb s ""); [done|apply assoc_get_set_ne]. Qed.
Lemma get_set_list_ne k k' l d : k' <> k -> dict_get k (NdpRegistry.set_list k' l d) = dict_get k d.
Proof. destruct l; [done|apply assoc_get_set_ne]. Qed.

Lemma unsigned_no_frame f : dict_get "frame" (IdentFrame_UnsignedDict f) = None.
Proof.
  unfold IdentFrame_UnsignedDict. cbv zeta.
  repeat first [rewrite get_set_str_ne by discriminate|rewrite get_set_list_ne by discriminate|rewrite get_set_opt_ne by discriminate].
  done.
Qed.

Lemma payload_frame opts nid k caps scope t1 t2 serial a lin :
  is_Some (dict_get "frame" (buildSignedPayload opts nid k caps scope t1 t2 serial a lin)).
Proof. unfold buildSignedPayload. cbv zeta. rewrite !get_set_opt_ne by discriminate. by eexists. Qed.

Lemma canonical_keys `{GoJSON} d d' :
  (forall d d', marshal_or_nil d = marshal_or_nil d' -> (is_Some (dict_get "frame" d) <-> is_Some (dict_get "frame" d'))) ->
  canonicalSorted d = canonicalSorted d' -> (is_Some (dict_get "frame" d) <-> is_Some (dict_get "frame" d')).
Proof.
  intros json_keys. assert (Hk : forall d, is_Some (dict_get "frame" (fold_left (fun acc k => dict_set k (dict_at d k) acc) (sort_strings (fst <$> d)) [])) <->
    is_Some (dict_get "frame" d)).
  { intros e. rewrite (get_key "frame" e).
    assert ("frame" ∈ sort_strings (fst <$> e) <-> "frame" ∈ (fst <$> e)) as Hp by (by rewrite sort_strings_perm). rewrite <- Hp.
    destruct (decide ("frame" ∈ sort_strings (fst <$> e))) as [Hin|Hn].
    - split; [done|]. intros _. by apply ordered_has.
    - rewrite ordered_get by done. split; [by intros [? [=]]|done]. }
  unfold canonicalSorted. intros E%json_keys. by rewrite !Hk in E.
Qed.

(** ** Effects *)

(** A NID is issued when it is new, or when its current record is live. *)
Definition issuable (s : InMemoryNipCaStore) (nid : string) : Prop :=
  forall r, latest nid (records s) = Some r -> is_revoked r = false.

Inductive ca_effect (s : InMemoryNipCaStore) : InMemoryNipCaStore -> Prop :=
| ce_none : ca_effect s s
| ce_draw : ca_effect s (NextSerial s).2
| ce_issue r :
    c_Serial r = (NextSerial s).1 -> c_Serial r ∉ (c_Serial <$> records s) -> is_revoked r = false ->
    issuable s (c_Nid r) -> ca_effect s (MkStore (records s ++ [r]) (st_serial (NextSerial s).2))
| ce_revoke s' :
    st_serial s' = st_serial s -> more_revoked (records s) (records s') -> ca_effect s s'.

Section Effects.
Context `{GoJSON} (json_UnmarshalMap : string -> result string (option dict)).
Context (ed25519_Sign : list byte -> list byte) (ca_pub : list byte).
Context (isoTime : Z -> string) (fmt_duration : Z -> string).
Context (url_Parse : string -> result string string).
Context (CreateCertificate : cert_template -> string -> list byte -> result string (list byte)).
Context (b64_error : string -> string).
Context (opts : NipCaOptions).

Abbreviation store := InMemoryNipCaStore.
Abbreviation register := (Register json_UnmarshalMap ed25519_Sign isoTime opts).
Abbreviation register_x509 := (RegisterX509 json_UnmarshalMap ed25519_Sign ca_pub isoTime url_Parse CreateCertificate b64_error opts).
Abbreviation register_group := (RegisterGroup json_UnmarshalMap ed25519_Sign isoTime opts).
Abbreviation issue_session := (IssueSession json_UnmarshalMap ed25519_Sign isoTime fmt_duration opts).
Abbreviation renew := (Renew json_UnmarshalMap ed25519_Sign isoTime opts).
Abbreviation revoke := (Revoke ed25519_Sign isoTime opts).
Abbreviation verify := (Verify isoTime).
Abbreviation issue := (issueFrame json_UnmarshalMap ed25519_Sign isoTime opts).

Lemma existsb_serial s l : existsb (fun r => String.eqb (c_Serial r) s) l = mem_string s (c_Serial <$> l).
Proof. unfold mem_string. induction l; [done|]. cbn. by f_equal. Qed.

Lemma Save_spec (st : store) rec :
  match Save st rec with
  | Ok st' => c_Serial rec ∉ (c_Serial <$> records st) /\ st' = MkStore (records st ++ [rec]) (st_serial st)
  | Err _ => c_Serial rec ∈ (c_Serial <$> records st)
  end.
Proof.
  unfold Save. rewrite existsb_serial. destruct (mem_string _ _) eqn:E; [by apply mem_string_true in E|].
  split; [by apply mem_string_false in E|done].
Qed.

(** Drawing a serial and saving a new live record. *)
Lemma save_issued_effect (st : store) rec frame r st' :
  save_issued (NextSerial st).2 rec frame = (r, st') -> c_Serial rec = (NextSerial st).1 -> is_revoked rec = false ->
  issuable st (c_Nid rec) ->
  ca_effect st st' /\ (forall f, r = Ok f -> f = frame /\ records st' = records st ++ [rec]).
Proof.
  unfold save_issued. intros E Hs Hr Hi. pose proof (Save_spec (NextSerial st).2 rec) as Hsv.
  destruct (Save _ rec) as [st1|e]; injection E as <- <-.
  - destruct Hsv as [Hf ->]. split; [exact (ce_issue st rec Hs Hf Hr Hi)|]. by intros f [= ->].
  - split; [constructor|done].
Qed.

Lemma issuable_new (st : store) nid : GetByNid st nid = None -> issuable st nid.
Proof. intros E r E'. change (latest nid (records st) = None) in E. congruence. Qed.

(** ** Operations *)

Inductive ca_op : Type :=
| OpRegister (now : Z) (entityType identifier pubKey : string) (caps : list string) (scopeJSON metadataJSON : string)
| OpRegisterX509 (now tenYears : Z) (rand : list byte) (entityType identifier pubKey : string) (caps : list string)
    (scopeJSON : string) (assurance : AssuranceLevel) (metadataJSON : string) (rootCert : option (list byte))
| OpGroup (now : Z) (rand identifier pubKey : string) (caps : list string) (scopeJSON owner key metadataJSON : string)
| OpSession (env : session_env) (groupNid pubKey : string) (p : IssueSessionParams)
| OpRenew (now : Z) (nid : string)
| OpRevoke (now : Z) (nid reason : string).

Definition ca_step (st : store) (op : ca_op) : store :=
  match op with
  | OpRegister now e i k caps sc md => (register st now e i k caps sc md).2
  | OpRegisterX509 now ten rand e i k caps sc a md root => (register_x509 st now ten rand e i k caps sc a md root).2
  | OpGroup now rand i k caps sc o ky md => (register_group st now rand i k caps sc o ky md).2
  | OpSession env g k p => (issue_session st env g k p).2
  | OpRenew now nid => (renew st now nid).2
  | OpRevoke now nid reason => (revoke st now nid reason).2
  end.

(** The random part of a session name makes it new. *)
Definition op_fresh (st : store) (op : ca_op) : Prop :=
  match op with OpSession env _ _ _ => GetByNid st (session_nid opts env) = None | _ => True end.

Fixpoint ops_fresh (st : store) (ops : list ca_op) : Prop :=
  match ops with [] => True | op :: r => op_fresh st op /\ ops_fresh (ca_step st op) r end.

Definition ca_run (st : store) (ops : list ca_op) : store := fold_left ca_step ops st.

(** Finish an operation that drew a serial. *)
Ltac issued st :=
  match goal with
  | |- context [save_issued _ ?rec ?frame] =>
      let E := fresh in
      destruct (save_issued (MkStore (records st) (i64 (st_serial st + 1))) rec frame) as [? ?] eqn:E;
      apply (save_issued_effect st rec frame) in E as [? _]; [assumption|reflexivity|reflexivity|]
  end.

Lemma register_effect st now e i k caps sc md : ca_effect st (register st now e i k caps sc md).2.
Proof.
  unfold Register. destruct (GetByNid st _) eqn:E; [constructor|]. destruct (checkAllowedCaps _ _); [|constructor].
  unfold NextSerial. cbv zeta. destruct (issue _ _ _ _ _ _ _ _ _ _); [|apply (ce_draw st)]. issued st. by apply issuable_new.
Qed.

Lemma register_x509_effect st now ten rand e i k caps sc a md root :
  ca_effect st (register_x509 st now ten rand e i k caps sc a md root).2.
Proof.
  unfold RegisterX509. destruct (GetByNid st _) eqn:E; [constructor|]. destruct (checkAllowedCaps _ _); [|constructor].
  unfold NextSerial. cbv zeta. destruct (issue _ _ _ _ _ _ _ _ _ _); [|apply (ce_draw st)].
  destruct (extractEd25519Raw _ _); [|apply (ce_draw st)]. destruct (issueLeafCert _ _ _ _ _ _ _ _ _ _); [|apply (ce_draw st)].
  destruct (match root with Some _ => _ | None => _ end); [|apply (ce_draw st)]. issued st. by apply issuable_new.
Qed.

Lemma register_group_effect st now rand i k caps sc o ky md : ca_effect st (register_group st now rand i k caps sc o ky md).2.
Proof.
  unfold RegisterGroup. destruct (_ && _); [constructor|]. destruct (GetByNid st _) eqn:E; [constructor|].
  destruct (checkAllowedCaps _ _); [|constructor].
  unfold NextSerial. cbv zeta. destruct (issue _ _ _ _ _ _ _ _ _ _); [|apply (ce_draw st)]. issued st. by apply issuable_new.
Qed.

Lemma session_effect st env g k p : GetByNid st (session_nid opts env) = None -> ca_effect st (issue_session st env g k p).2.
Proof.
  intros Hf. unfold IssueSession. destruct (session_group _ _ _ _); [|constructor]. destruct (session_validity _ _ _); [|constructor].
  destruct (session_caps _ _); [|constructor].
  unfold NextSerial. cbv zeta. destruct (issue _ _ _ _ _ _ _ _ _ _); [|apply (ce_draw st)]. issued st. by apply issuable_new.
Qed.

Lemma renew_effect st now nid : ca_effect st (renew st now nid).2.
Proof.
  unfold Renew. destruct (GetByNid st nid) as [rec|] eqn:E; [|constructor]. destruct (is_revoked rec) eqn:Er; [constructor|].
  cbv zeta. destruct (_ <? _); [constructor|]. unfold NextSerial. cbv zeta.
  destruct (issue _ _ _ _ _ _ _ _ _ _); [|apply (ce_draw st)]. issued st. intros x E'. cbn [c_Nid] in E'.
  change (latest nid (records st) = Some rec) in E. congruence.
Qed.

Lemma cascade_spec now st children :
  st_serial (cascade now st children) = st_serial st /\ more_revoked (records st) (records (cascade now st children)).
Proof.
  unfold cascade. revert st. induction children as [|c l IH]; intros st; cbn [fold_left]; [split; [done|apply more_revoked_refl]|].
  destruct (is_revoked c); [apply IH|]. pose proof (store_Revoke_spec st (c_Nid c) "parent_revoked" now) as Hs.
  destruct (NipStore.Revoke _ _ _ _) as [b s']. destruct Hs as (Hs & Hm & _). cbn [snd].
  destruct (IH s') as [IH1 IH2]. split; [congruence|by eapply more_revoked_trans].
Qed.

(** A successful revocation: only marks, and the target's current record is revoked. *)
Lemma revoke_spec st now nid reason :
  ca_effect st (revoke st now nid reason).2 /\
  (forall f, (revoke st now nid reason).1 = Ok f ->
    exists r, latest nid (records (revoke st now nid reason).2) = Some r /\ is_revoked r = true).
Proof.
  unfold Revoke. destruct (GetByNid st nid) as [rec|] eqn:E; [|split; [constructor|done]].
  pose proof (store_Revoke_spec st nid reason now) as Hs. destruct (NipStore.Revoke st nid reason now) as [[] s'].
  2: { split; [|done]. destruct Hs as (? & ? & _). by constructor. }
  destruct Hs as (Hs & Hm & Hr). destruct (Hr eq_refl) as (r & Hl & Hrev). cbn [fst snd].
  destruct (bool_decide _); [|split; [by constructor|eauto]]. pose proof (cascade_spec now s' (GetByParentNid s' nid)) as [Hc1 Hc2]. split.
  - constructor; [congruence|by eapply more_revoked_trans].
  - intros _ _. exists r. split; [|done]. by eapply more_revoked_latest.
Qed.

Lemma ca_step_effect st op : op_fresh st op -> ca_effect st (ca_step st op).
Proof.
  destruct op; intros Hf; cbn [ca_step]; [apply register_effect|apply register_x509_effect|apply register_group_effect|
    by apply session_effect|apply renew_effect|apply revoke_spec].
Qed.

(** ** Serial numbers *)

Definition serial_inv (s : store) : Prop :=
  0 <= st_serial s /\ NoDup (c_Serial <$> records s) /\
  (forall x, x ∈ (c_Serial <$> records s) -> exists k, 1 <= k <= st_serial s /\ x = "0x" +:+ fmt_X k).

Lemma next_serial_exact (s : store) : 0 <= st_serial s < maxInt64 ->
  NextSerial s = ("0x" +:+ fmt_X (st_serial s + 1), MkStore (records s) (st_serial s + 1)).
Proof.
  intros Hs. unfold NextSerial. rewrite (wraps_small 64) by (unfold maxInt64 in Hs; simpl; lia). done.
Qed.

Lemma next_serial_fresh (s : store) : serial_inv s -> st_serial s < maxInt64 -> (NextSerial s).1 ∉ (c_Serial <$> records s).
Proof.
  intros (H0 & _ & Hk) Hm Hin. rewrite next_serial_exact in Hin by lia. apply Hk in Hin as (k & Hk' & E).
  apply serial_inj in E; lia.
Qed.

Lemma effect_serial_inv (s s' : store) :
  serial_inv s -> st_serial s < maxInt64 -> ca_effect s s' -> serial_inv s' /\ st_serial s' <= st_serial s + 1.
Proof.
  intros (H0 & Hn & Hk) Hm He. destruct He as [| |r Hs Hf _ _|s' Hs Hr]; [by split; [|lia]|..].
  - rewrite next_serial_exact by lia. cbn. split; [|lia]. split_and!; [cbn; lia|done|]. intros x Hx.
    apply Hk in Hx as (k & ? & ->). exists k. split; [cbn; lia|done].
  - rewrite next_serial_exact in * by lia. cbn [fst snd st_serial] in *. split; [|lia]. unfold serial_inv. cbn [records st_serial].
    rewrite fmap_app. split_and!; [lia| |].
    + apply NoDup_app. split_and!; [done| |apply NoDup_singleton]. intros x Hx ->%list_elem_of_singleton. done.
    + intros x [Hx|Hx]%elem_of_app.
      * apply Hk in Hx as (k & ? & ->). exists k. split; [lia|done].
      * apply list_elem_of_singleton in Hx as ->. rewrite Hs. exists (st_serial s + 1). split; [lia|done].
  - unfold serial_inv. rewrite (more_revoked_serials _ _ Hr), Hs. split; [done|lia].
Qed.

Lemma run_serial_inv ops (s : store) :
  serial_inv s -> st_serial s + Z.of_nat (length ops) < maxInt64 -> ops_fresh s ops ->
  serial_inv (ca_run s ops) /\ st_serial (ca_run s ops) <= st_serial s + Z.of_nat (length ops).
Proof.
  revert s. induction ops as [|op ops IH]; intros s Hi Hm Hf; [by split; [|cbn; lia]|]. destruct Hf as [Hf1 Hf2]. cbn [length] in *.
  destruct (effect_serial_inv s (ca_step s op)) as [Hi' Hb]; [done|lia|by apply ca_step_effect|].
  destruct (IH (ca_step s op) Hi') as [? ?]; [lia|done|]. split; [done|]. change (ca_run s (op :: ops)) with (ca_run (ca_step s op) ops). lia.
Qed.

Lemma find_by_serial l r : NoDup (c_Serial <$> l) -> r ∈ l -> List.find (fun x => String.eqb (c_Serial x) (c_Serial r)) l = Some r.
Proof.
  induction l as [|x l IH]; [by intros _ ?%not_elem_of_nil|]. rewrite fmap_cons, NoDup_cons. intros [Hx Hn] [->|Hr]%elem_of_cons; cbn.
  - by rewrite String.eqb_refl.
  - destruct (String.eqb_spec (c_Serial x) (c_Serial r)) as [E|]; [|by apply IH]. destruct Hx. rewrite E. by apply list_elem_of_fmap_2.
Qed.

(** Serial numbers identify certificates: from the empty store, through any
    operations (fewer than 2^63), all serials are distinct, every record is found by
    its serial, and the next serial is unused, so that saving an issued record never
    fails. *)
Theorem ca_serials_unique ops :
  ops_fresh NewInMemoryNipCaStore ops -> Z.of_nat (length ops) < maxInt64 ->
  let s := ca_run NewInMemoryNipCaStore ops in
  NoDup (c_Serial <$> records s) /\ (forall r, r ∈ records s -> GetBySerial s (c_Serial r) = Some r) /\
  (forall rec, c_Serial rec = (NextSerial s).1 -> is_ok (Save (NextSerial s).2 rec) = true).
Proof.
  intros Hf Hm. cbv zeta. destruct (run_serial_inv ops NewInMemoryNipCaStore) as [Hi Hb]; [|done|done|].
  { split_and!; [done|constructor|by intros x ?%not_elem_of_nil]. }
  set (s := ca_run _ ops) in *. pose proof Hi as (_ & Hn & _). cbn in Hb. split_and!; [done|by intros; apply find_by_serial|].
  intros rec Hs. pose proof (Save_spec (NextSerial s).2 rec) as Hsv. destruct (Save _ rec); [done|].
  rewrite Hs in Hsv. destruct (next_serial_fresh s Hi ltac:(lia)). exact Hsv.
Qed.

(** ** Revocation *)

Definition revoked_now (s : store) (nid : string) : Prop := exists r, latest nid (records s) = Some r /\ is_revoked r = true.

Lemma effect_keeps_revoked (s s' : store) nid : ca_effect s s' -> revoked_now s nid -> revoked_now s' nid.
Proof.
  intros He (r & Hl & Hr). destruct He as [| |x _ _ Hx Hi|s' _ Hm]; [by exists r|by exists r| |].
  - unfold revoked_now. cbn [records]. rewrite latest_app, latest_one. destruct (String.eqb_spec (c_Nid x) nid) as [E|]; [|by exists r].
    rewrite E in Hi. apply Hi in Hl. congruence.
  - exists r. split; [by eapply more_revoked_latest|done].
Qed.

Lemma run_keeps_revoked ops (s : store) nid : ops_fresh s ops -> revoked_now s nid -> revoked_now (ca_run s ops) nid.
Proof.
  revert s. induction ops as [|op ops IH]; intros s Hf Hr; [done|]. destruct Hf as [Hf1 Hf2]. apply (IH (ca_step s op)); [done|].
  eapply effect_keeps_revoked; [by apply ca_step_effect|done].
Qed.

Lemma verify_revoked s t1 t2 nid : revoked_now s nid -> ca_Valid (verify s t1 t2 nid) = false.
Proof.
  intros (r & Hl & Hr). unfold Verify. change (GetByNid s nid) with (latest nid (records s)). rewrite Hl.
  unfold is_revoked in Hr. by destruct (c_RevokedAt r).
Qed.

(** C32. Revocation is permanent and reaches the sessions: once a NID was revoked,
    then through any later operations the CA reports it invalid at every instant,
    and with it every NID whose current record names it as its parent. The random part
    of the name of a session is taken to make it new. *)
Theorem revocation_is_permanent st now nid reason f ops :
  (revoke st now nid reason).1 = Ok f -> ops_fresh (revoke st now nid reason).2 ops -> nid <> "" ->
  let s := ca_run (revoke st now nid reason).2 ops in
  (forall t1 t2, ca_Valid (verify s t1 t2 nid) = false) /\
  (forall child r, GetByNid s child = Some r -> c_ParentNid r = Some nid ->
    forall t1 t2, ca_Valid (verify s t1 t2 child) = false).
Proof.
  intros Hok Hf Hne. cbv zeta. set (s := ca_run _ ops).
  assert (Hrev : revoked_now s nid).
  { apply run_keeps_revoked; [done|]. by eapply revoke_spec. }
  split; [intros; by apply verify_revoked|]. intros child r Hg Hp t1 t2. unfold Verify. rewrite Hg.
  destruct (c_RevokedAt r); [done|]. destruct (after t1 _); [done|]. cbv zeta. rewrite Hp. change (ptrStr (Some nid)) with nid.
  rewrite (proj2 (String.eqb_neq _ _)) by done. destruct Hrev as (p & Hl & Hr). change (GetByNid s nid) with (latest nid (records s)).
  rewrite Hl. unfold is_revoked in Hr. by destruct (c_RevokedAt p).
Qed.

(** ** Sessions *)

Lemma save_issued_ok (st : store) rec frame f :
  (save_issued st rec frame).1 = Ok f -> f = frame /\ (save_issued st rec frame).2 = MkStore (records st ++ [rec]) (st_serial st).
Proof.
  unfold save_issued. pose proof (Save_spec st rec) as Hs. destruct (Save st rec); [|done]. destruct Hs as [_ ->]. by intros [= ->].
Qed.

Lemma issue_ok nid k caps sc t1 t2 serial md a lin f :
  issue nid k caps sc t1 t2 serial md a lin = Ok f ->
  id_NID f = nid /\ id_PubKey f = k /\ id_Capabilities f = caps /\ id_ExpiresAt f = isoTime t2 /\ id_Serial f = serial /\ id_Lineage f = lin.
Proof. unfold issueFrame. destruct (json_object _ "scope" _ _); [|done]. cbv zeta. destruct (json_object _ "metadata" _ _); [|done]. by intros [= <-]. Qed.

Lemma session_group_ok st now g group :
  session_group isoTime st now g = Ok group ->
  GetByNid st g = Some group /\ c_NidRole group = Some IdentLineageRoleGroup /\ c_RevokedAt group = None /\ now <= c_ExpiresAt group.
Proof.
  unfold session_group. destruct (GetByNid st g) as [x|]; [|done]. case_bool_decide; cbn [negb]; [|done].
  destruct (c_RevokedAt x) eqn:Er; [done|]. unfold after. destruct (Z.ltb_spec (c_ExpiresAt x) now); [done|]. by intros [= ->].
Qed.

Lemma session_validity_ok p v :
  session_validity fmt_duration opts p = Ok v -> SessionMinValidity opts <= v <= SessionMaxValidity opts.
Proof. unfold session_validity. cbv zeta. destruct (_ || _) eqn:E; [done|]. intros [= <-]. bool_hyps. lia. Qed.

Lemma session_caps_ok p group caps : session_caps p group = Ok caps -> caps ⊆ c_Capabilities group.
Proof.
  unfold session_caps. destruct (sp_Capabilities p) as [l|]; [|by intros [= ->]].
  pose proof (missing_caps_nil l (c_Capabilities group)) as Hm. destruct (missing_caps _ _); [|done]. intros [= <-]. by apply Hm.
Qed.

(** The record that a session issue saves. *)
Definition session_record (env : session_env) (p : IssueSessionParams) (g k : string) (group : NipCertRecord)
    (v : Z) (caps : list string) (serial : string) : NipCertRecord :=
  MkRecord (session_nid opts env) "agent" serial k caps
    (if String.eqb (sp_ScopeJSON p) "" then c_ScopeJson group else sp_ScopeJSON p) (CaNid opts) (se_now3 env)
    (se_now3 env + v) None None (nilStr (sp_MetadataJSON p)) (strPtr IdentLineageRoleSession) (strPtr g)
    (strPtr (marshal_text (session_lineage json_UnmarshalMap env p g group))).

Lemma session_ok st env g k p f :
  (issue_session st env g k p).1 = Ok f ->
  exists group v caps, session_group isoTime st (se_now1 env) g = Ok group /\ session_validity fmt_duration opts p = Ok v /\
    session_caps p group = Ok caps /\
    (let r := session_record env p g k group v caps (NextSerial st).1 in
     issue (c_Nid r) k caps (c_ScopeJson r) (c_IssuedAt r) (c_ExpiresAt r) (c_Serial r) (sp_MetadataJSON p) None
       (Some (session_lineage json_UnmarshalMap env p g group)) = Ok f /\
     (issue_session st env g k p).2 = MkStore (records st ++ [r]) (st_serial (NextSerial st).2)).
Proof.
  unfold IssueSession. destruct (session_group _ _ _ _) as [group|]; [|done]. destruct (session_validity _ _ _) as [v|]; [|done].
  destruct (session_caps p group) as [caps|] eqn:Ec; [|done]. cbv zeta. destruct (NextSerial st) as [serial st1] eqn:En.
  assert (Hrec : records st1 = records st) by (injection En as _ <-; done).
  destruct (issue _ _ _ _ _ _ _ _ _ _) as [frame|] eqn:Ei; [|done]. intros Hs. apply save_issued_ok in Hs as [-> Hs].
  exists group, v, caps. split_and!; [done..|]. rewrite Hs, Hrec. done.
Qed.

(** A session stays within its group: it is issued only under a live, unexpired
    group, its capabilities are among the group's, its validity lies between the
    configured bounds, and it is recorded under that parent. *)
Theorem session_within_group st env g k p f :
  (issue_session st env g k p).1 = Ok f ->
  exists group r, GetByNid st g = Some group /\ c_NidRole group = Some IdentLineageRoleGroup /\ c_RevokedAt group = None /\
    se_now1 env <= c_ExpiresAt group /\
    records (issue_session st env g k p).2 = records st ++ [r] /\
    c_ParentNid r = Some g /\ c_Capabilities r ⊆ c_Capabilities group /\
    SessionMinValidity opts <= c_ExpiresAt r - c_IssuedAt r <= SessionMaxValidity opts /\
    id_NID f = c_Nid r /\ id_Capabilities f = c_Capabilities r /\ id_ExpiresAt f = isoTime (c_ExpiresAt r).
Proof.
  intros Hok. apply session_ok in Hok as (group & v & caps & Hg & Hv & Hc & Hi & ->). cbv zeta in Hi.
  apply session_group_ok in Hg as (? & ? & ? & ?). apply session_validity_ok in Hv. apply session_caps_ok in Hc.
  apply issue_ok in Hi as (? & ? & ? & ? & ? & ?). eexists group, _. split_and!; [done..|cbn; lia|cbn; lia|done|done|done].
Qed.

(** ** Where renewal loses the lineage *)

(** The same inputs are parsed the same way again. *)
Lemma issue_again nid k caps sc t1 t2 s md a lin f t1' t2' s' a' lin' :
  issue nid k caps sc t1 t2 s md a lin = Ok f -> exists f', issue nid k caps sc t1' t2' s' md a' lin' = Ok f'.
Proof. unfold issueFrame. destruct (json_object _ "scope" _ _); [|done]. cbv zeta. destruct (json_object _ "metadata" _ _); eauto. Qed.

Lemma ptr_nil s : ptrStr (nilStr s) = s.
Proof. unfold nilStr. by destruct (String.eqb_spec s "") as [->|]. Qed.

(** Renewal turns a session into an ordinary agent certificate: as soon as a
    session is issued it can be renewed (the renewal window covers its whole life),
    and the renewed certificate has the agent validity instead of the session's, no
    role and no parent, so that neither the session bound nor the group's expiry
    applies to it. *)
Theorem renewal_escapes_session st env g k p f :
  serial_inv st -> st_serial st + 1 < maxInt64 -> (issue_session st env g k p).1 = Ok f ->
  SessionMaxValidity opts <= RenewalWindowDays opts * day ->
  let '(r, st2) := renew (issue_session st env g k p).2 (se_now3 env) (session_nid opts env) in
  is_ok r = true /\
  exists rec, GetByNid st2 (session_nid opts env) = Some rec /\ c_ParentNid rec = None /\ c_NidRole rec = None /\
    c_ExpiresAt rec = add_days (se_now3 env) (AgentCertValidityDays opts).
Proof.
  intros Hinv Hm Hok Hw. pose proof Hinv as (H0 & Hnd & Hk). apply session_ok in Hok as (group & v & caps & _ & Hv & _ & Hi & ->). cbv zeta in Hi.
  rewrite next_serial_exact in Hi |- * by lia. cbn [fst snd st_serial] in Hi |- *. apply session_validity_ok in Hv. set (r := session_record _ _ _ _ _ _ _ _) in *. unfold Renew.
  assert (Hget : GetByNid (MkStore (records st ++ [r]) (st_serial st + 1)) (session_nid opts env) = Some r).
  { unfold GetByNid. cbn [records]. change (latest (session_nid opts env) (records st ++ [r]) = Some r).
    rewrite latest_app, latest_one. cbn [c_Nid r session_record]. by rewrite String.eqb_refl. }
  rewrite Hget. cbn [is_revoked r session_record c_RevokedAt c_ExpiresAt]. cbv zeta.
  rewrite (proj2 (Z.ltb_ge _ _)) by (unfold add_days; lia).
  rewrite next_serial_exact by (cbn [st_serial]; lia). cbn [st_serial records].
  destruct (issue_again _ _ _ _ _ _ _ _ _ _ _ (se_now3 env) (add_days (se_now3 env) (valid_days opts "agent"))
    ("0x" +:+ fmt_X (st_serial st + 1 + 1)) None None Hi) as [f' Hf'].
  cbn [c_PubKey c_Capabilities c_ScopeJson c_EntityType c_MetadataJson r session_record]. rewrite ptr_nil.
  change (c_Nid r) with (session_nid opts env) in Hf'. cbn [c_ScopeJson r session_record] in Hf'. rewrite Hf'.
  unfold save_issued. match goal with |- context [Save ?s ?x] => pose proof (Save_spec s x) as Hs; destruct (Save s x) as [st2|e] end.
  - destruct Hs as [_ ->]. split; [done|]. eexists. unfold GetByNid. cbn [records].
    change (List.find (fun x => String.eqb (c_Nid x) (session_nid opts env)) (reverse ?l)) with (latest (session_nid opts env) l).
    rewrite latest_app, latest_one. cbn [c_Nid]. rewrite String.eqb_refl. done.
  - exfalso. cbn [records c_Serial] in Hs. rewrite fmap_app, elem_of_app in Hs. destruct Hs as [Hs|Hs].
    + apply Hk in Hs as (j & ? & E). apply serial_inj in E; lia.
    + apply list_elem_of_singleton in Hs. cbn [c_Serial r session_record] in Hs. apply serial_inj in Hs; lia.
Qed.

Lemma revoke_last_snoc nid reason t l r :
  c_Nid r = nid -> is_revoked r = false -> revoke_last nid reason t (l ++ [r]) = Some (l ++ [mark_revoked reason t r]).
Proof.
  intros Hn Hr. induction l as [|x l IH]; cbn [app revoke_last].
  - by rewrite (proj2 (String.eqb_eq _ _) Hn), Hr.
  - by rewrite IH.
Qed.

Lemma renew_ok st now nid f :
  (renew st now nid).1 = Ok f ->
  exists r, (renew st now nid).2 = MkStore (records st ++ [r]) (st_serial (NextSerial st).2) /\ c_Nid r = nid /\
    is_revoked r = false /\ c_NidRole r = None /\ c_Serial r = (NextSerial st).1.
Proof.
  unfold Renew. destruct (GetByNid st nid) as [rec|]; [|done]. destruct (is_revoked rec); [done|]. cbv zeta. destruct (_ <? _); [done|].
  unfold NextSerial. cbv zeta. destruct (issue _ _ _ _ _ _ _ _ _ _); [|done]. intros Hs. apply save_issued_ok in Hs as [_ ->].
  eexists. split_and!; [cbn; reflexivity|done..].
Qed.

(** Revocation after a renewal leaves the older certificate live: the CA marks
    only the newest record of a NID, so the serial of the certificate that was
    renewed is still found unrevoked, which is what a verifier asks by serial. *)
Theorem renewed_serial_survives st now1 now2 nid reason old f1 f2 :
  serial_inv st -> GetByNid st nid = Some old -> is_revoked old = false ->
  (renew st now1 nid).1 = Ok f1 -> (revoke (renew st now1 nid).2 now2 nid reason).1 = Ok f2 ->
  GetBySerial (revoke (renew st now1 nid).2 now2 nid reason).2 (c_Serial old) = Some old /\
  ca_Valid (verify (revoke (renew st now1 nid).2 now2 nid reason).2 now2 now2 nid) = false.
Proof.
  intros (_ & Hnd & _) Hg Ho Hr Hv. split; [|by apply verify_revoked; eapply revoke_spec].
  apply renew_ok in Hr as (r & E & Hn & Hl & Hrole & _). rewrite E in *. unfold Revoke in *.
  set (st1 := MkStore (records st ++ [r]) _) in *.
  assert (Hg1 : GetByNid st1 nid = Some r).
  { change (latest nid (records st ++ [r]) = Some r). by rewrite latest_app, latest_one, (proj2 (String.eqb_eq _ _) Hn). }
  rewrite Hg1 in *. unfold NipStore.Revoke. cbn [records st1]. rewrite revoke_last_snoc by done. cbn [snd].
  rewrite Hrole, bool_decide_eq_false_2 by done. unfold GetBySerial. cbn [records]. rewrite list_find_app.
  rewrite (find_by_serial (records st) old); [done|done|].
  by apply (latest_Some nid (records st) old).
Qed.

(** ** What the CA signs is not what the verifier checks *)

Section Signatures.
Context (ed25519_Verify : list byte -> list byte -> list byte -> bool).
Context (time_Parse : string -> string -> option Z) (fmt_time : Z -> string) (clock : Z).
Context (ParseCertificate : list byte -> option Certificate) (leaf_error : list string -> string).
Context (http_get : string -> http_reply) (ocsp_Unmarshal : list byte -> result string (bool * string)).
Context (unicode_ToLower : string -> string) (unicode_EqualFold : string -> string -> bool).
(** A signature is of one message, and equal JSON texts have the same keys. *)
Hypothesis sign_binds : forall m m', ed25519_Verify ca_pub m' (ed25519_Sign m) = true -> m' = m.
Hypothesis json_keys : forall d d', marshal_or_nil d = marshal_or_nil d' ->
  (is_Some (dict_get "frame" d) <-> is_Some (dict_get "frame" d')).

(** No frame that this CA issues passes the package's own verifier: the CA
    signs an object with a frame member, the verifier checks the signature over the
    frame's unsigned dict, which has none, so a verifier that trusts the CA's key
    rejects every issued frame. *)
Theorem ca_frames_do_not_verify v nid k caps sc t1 t2 serial md a lin f vctx r :
  TrustedCaPublicKeys v !! CaNid opts = Some (GetCaPublicKey ca_pub) ->
  issue nid k caps sc t1 t2 serial md a lin = Ok f ->
  VerifyFull ed25519_Verify time_Parse fmt_time clock ParseCertificate b64_error leaf_error http_get ocsp_Unmarshal
    unicode_ToLower unicode_EqualFold v f vctx = Ok r ->
  Valid r = false.
Proof.
  intros Ht Hi Hv. destruct (Valid r) eqn:Er; [|done]. exfalso.
  destruct (verify_full_authentic _ _ _ _ _ _ _ _ _ _ _ _ _ _ _ Hv Er) as (pk & key & Hpk & Hkey & raw & sig & Hsig & Hraw & Hver).
  unfold issueFrame in Hi. destruct (json_object _ "scope" _ _) as [scope|]; [|done]. cbv zeta in Hi.
  destruct (json_object _ "metadata" _ _) as [meta|]; [|done]. injection Hi as <-. cbn [id_IssuedBy id_Signature] in *.
  rewrite Ht in Hpk. injection Hpk as <-.
  assert (key = ca_pub) as ->.
  { unfold parsePubKeyString, GetCaPublicKey in Hkey. change (cut_prefix "ed25519:" ("ed25519:" +:+ RawURL_Encode ca_pub)) with
      (Some (RawURL_Encode ca_pub)) in Hkey. cbv iota in Hkey. rewrite RawURL_roundtrip in Hkey. destruct (_ =? _)%nat; [|done]. congruence. }
  unfold Sign in Hsig. match type of Hsig with Some (_ +:+ ?x) = _ => assert (E : x = raw) by (injection Hsig; intros E; exact E) end.
  rewrite <- E, RawURL_roundtrip in Hraw. injection Hraw as <-.
  apply sign_binds in Hver. apply canonical_keys in Hver; [|exact json_keys]. rewrite unsigned_no_frame in Hver.
  apply proj2 in Hver. specialize (Hver (payload_frame _ _ _ _ _ _ _ _ _ _)). by destruct Hver.
Qed.
End Signatures.
End Effects.

(** ** Witnesses *)

(** A text that says whether the object has a frame member. *)
Definition toy_json : GoJSON :=
  {| json_Marshal d := Ok [match dict_get "frame" d with Some _ => x01 | None => x00 end];
     json_Unmarshal _ := Err (ErrPlain "") |}.
Definition toy_map (s : string) : result string (option dict) := Ok (Some []).
Definition toy_sign (m : list byte) : list byte := m.
Definition toy_verify (key m sig : list byte) : bool := bool_decide (m = sig).
Definition toy_pub : list byte := replicate 32 x00.
Definition toy_cert (t : cert_template) (parent : string) (key : list byte) : result string (list byte) := Ok [].
Definition toy_url (s : string) : result string string := Ok s.
Definition toy_opts : NipCaOptions := DefaultNipCaOptions "urn:nps:org:ca" "".
Definition toy_params : IssueSessionParams := MkSessionParams 0 "" (Some ["read"]) "" "".
Definition toy_group : NipCertRecord :=
  MkRecord "urn:nps:agent:ca:group-a" "agent" "0x1" "k" ["read"; "write"] "" "urn:nps:org:ca" 0 (365 * day) None None None
    (Some "group") None None.
Definition toy_store : InMemoryNipCaStore := MkStore [toy_group] 1.
Definition toy_env : session_env := MkSessionEnv 10 10 10 "beef".

Lemma toy_inv : serial_inv toy_store.
Proof.
  split_and!; [cbn; lia|apply NoDup_singleton|]. intros x ->%list_elem_of_singleton. exists 1. split; [cbn; lia|done].
Qed.

Example ca_serials_unique_witness :
  let ops := [OpGroup 0 "" "group-a" "k" ["read"] "" "" "" ""; OpSession toy_env "urn:nps:agent:ca:group-a" "k2" toy_params;
              OpRenew 20 "urn:nps:agent:ca:session-0-beef"] in
  let s := ca_run (H := toy_json) toy_map toy_sign toy_pub fmt_d fmt_d toy_url toy_cert dot_text toy_opts NewInMemoryNipCaStore ops in
  c_Serial <$> records s = ["0x1"; "0x2"; "0x3"] /\
  NoDup (c_Serial <$> records s) /\ (forall r, r ∈ records s -> GetBySerial s (c_Serial r) = Some r) /\
  (forall rec, c_Serial rec = (NextSerial s).1 -> is_ok (Save (NextSerial s).2 rec) = true).
Proof.
  cbv zeta. split; [reflexivity|].
  apply (ca_serials_unique (H := toy_json) toy_map toy_sign toy_pub fmt_d fmt_d toy_url toy_cert dot_text toy_opts);
    [repeat split|reflexivity].
Defined.

Example revocation_is_permanent_witness :
  let rv := Revoke (H := toy_json) toy_sign fmt_d toy_opts toy_store 50 "urn:nps:agent:ca:group-a" "lost" in
  let s := ca_run (H := toy_json) toy_map toy_sign toy_pub fmt_d fmt_d toy_url toy_cert dot_text toy_opts rv.2
             [OpRenew 60 "urn:nps:agent:ca:group-a"] in
  is_ok rv.1 = true /\
  (forall t1 t2, ca_Valid (Verify fmt_d s t1 t2 "urn:nps:agent:ca:group-a") = false) /\
  (forall child r, GetByNid s child = Some r -> c_ParentNid r = Some "urn:nps:agent:ca:group-a" ->
    forall t1 t2, ca_Valid (Verify fmt_d s t1 t2 child) = false).
Proof.
  cbv zeta. split; [reflexivity|].
  eapply (revocation_is_permanent (H := toy_json) toy_map toy_sign toy_pub fmt_d fmt_d toy_url toy_cert dot_text toy_opts);
    [reflexivity|repeat split|discriminate].
Defined.

Example session_within_group_witness :
  let i := IssueSession (H := toy_json) toy_map toy_sign fmt_d fmt_d toy_opts toy_store toy_env "urn:nps:agent:ca:group-a" "k2" toy_params in
  exists f group r, i.1 = Ok f /\ GetByNid toy_store "urn:nps:agent:ca:group-a" = Some group /\
    c_NidRole group = Some IdentLineageRoleGroup /\ c_RevokedAt group = None /\ se_now1 toy_env <= c_ExpiresAt group /\
    records i.2 = records toy_store ++ [r] /\ c_ParentNid r = Some "urn:nps:agent:ca:group-a" /\
    c_Capabilities r ⊆ c_Capabilities group /\
    SessionMinValidity toy_opts <= c_ExpiresAt r - c_IssuedAt r <= SessionMaxValidity toy_opts /\
    id_NID f = c_Nid r /\ id_Capabilities f = c_Capabilities r /\ id_ExpiresAt f = fmt_d (c_ExpiresAt r).
Proof.
  cbv zeta. eexists.
  destruct (session_within_group (H := toy_json) toy_map toy_sign fmt_d fmt_d toy_opts toy_store toy_env
    "urn:nps:agent:ca:group-a" "k2" toy_params _ eq_refl) as (group & r & Hw).
  exists group, r. split; [reflexivity|exact Hw].
Defined.

Example renewal_escapes_session_witness :
  let i := IssueSession (H := toy_json) toy_map toy_sign fmt_d fmt_d toy_opts toy_store toy_env "urn:nps:agent:ca:group-a" "k2" toy_params in
  let '(r, st2) := Renew (H := toy_json) toy_map toy_sign fmt_d toy_opts i.2 (se_now3 toy_env) (session_nid toy_opts toy_env) in
  is_ok r = true /\
  exists rec, GetByNid st2 (session_nid toy_opts toy_env) = Some rec /\ c_ParentNid rec = None /\ c_NidRole rec = None /\
    c_ExpiresAt rec = add_days (se_now3 toy_env) (AgentCertValidityDays toy_opts).
Proof.
  cbv zeta. eapply (renewal_escapes_session (H := toy_json) toy_map toy_sign fmt_d fmt_d toy_opts toy_store toy_env
    "urn:nps:agent:ca:group-a" "k2" toy_params); [apply toy_inv|reflexivity|reflexivity|vm_compute; discriminate].
Defined.

Example renewed_serial_survives_witness :
  let st1 := (Renew (H := toy_json) toy_map toy_sign fmt_d toy_opts toy_store (360 * day) "urn:nps:agent:ca:group-a").2 in
  let st2 := (Revoke (H := toy_json) toy_sign fmt_d toy_opts st1 (361 * day) "urn:nps:agent:ca:group-a" "lost").2 in
  GetBySerial st2 "0x1" = Some toy_group /\
  ca_Valid (Verify fmt_d st2 (361 * day) (361 * day) "urn:nps:agent:ca:group-a") = false.
Proof.
  cbv zeta. eapply (renewed_serial_survives (H := toy_json) toy_map toy_sign fmt_d toy_opts toy_store (360 * day) (361 * day)
    "urn:nps:agent:ca:group-a" "lost" toy_group); [apply toy_inv|reflexivity..].
Defined.

Example ca_frames_do_not_verify_witness :
  let opts := sample_options in
  exists f, issueFrame (H := toy_json) toy_map toy_sign fmt_d (DefaultNipCaOptions "ca" "") "n" "k" [] "" 0 9 "0x1" "" None None = Ok f /\
    forall r, VerifyFull (H := toy_json) toy_verify (fun _ _ => Some 9) fmt_d 5 (fun _ => None) dot_text dot_text sample_ocsp
      expired_answer (fun s => s) (fun _ _ => false) opts f None = Ok r -> Valid r = false.
Proof.
  cbv zeta. eexists. split; [reflexivity|]. intros r.
  assert (Hb : forall m m', toy_verify toy_pub m' (toy_sign m) = true -> m' = m)
    by (intros m m' E; unfold toy_verify in E; by apply bool_decide_eq_true in E).
  assert (Hj : forall d d', marshal_or_nil (H := toy_json) d = marshal_or_nil (H := toy_json) d' ->
    (is_Some (dict_get "frame" d) <-> is_Some (dict_get "frame" d')))
    by (intros d d'; unfold marshal_or_nil; cbn; destruct (dict_get "frame" d), (dict_get "frame" d'); naive_solver).
  apply (ca_frames_do_not_verify (H := toy_json) toy_map toy_sign toy_pub fmt_d dot_text (DefaultNipCaOptions "ca" "") toy_verify
    (fun _ _ => Some 9) fmt_d 5 (fun _ => None) dot_text sample_ocsp expired_answer (fun s => s) (fun _ _ => false) Hb Hj
    sample_options "n" "k" [] "" 0 9 "0x1" "" None None); reflexivity.
Defined.
