(* ===== verification/NipX509.v ===== *)
(** * nip/x509: issuing and verifying NID certificates

    builder.go and verifier.go around [crypto/x509]: the templates that are signed, and
    the stages that a chain of certificates passes.  [crypto/x509] itself,
    [net/url] and the texts of errors are arguments; a certificate is the fields that the
    package reads. *)

From S2P Require Import Prelude GoValue GoBase64 CoreCache NipFrames NipDer NipCa.

Definition OidEkuAgentIdentity : list Z := [1; 3; 6; 1; 4; 1; 65715; 1; 1].
Definition OidEkuNodeIdentity : list Z := [1; 3; 6; 1; 4; 1; 65715; 1; 2].
Definition OidNidAssuranceLevel : list Z := [1; 3; 6; 1; 4; 1; 65715; 2; 1].
Definition oidExtensionExtendedKeyUsage : list Z := [2; 5; 29; 37].

Definition ErrCertEkuMissing : string := "NIP-CERT-EKU-MISSING".
Definition ErrCertSubjectNidMismatch : string := "NIP-CERT-SUBJECT-NID-MISMATCH".
Definition ErrAssuranceUnknown : string := "NIP-ASSURANCE-UNKNOWN".

Record Extension : Type := MkExtension { ext_Id : list Z; ext_Critical : bool; ext_Value : list byte }.

(** What the package reads of a parsed certificate. *)
Record Certificate : Type := MkCertificate {
  crt_Raw : list byte; crt_CommonName : string; crt_URIs : list string; crt_Extensions : list Extension;
  crt_UnknownExtKeyUsage : list (list Z)
}.

(** What the package fills of a template. *)
Record Template : Type := MkX509Template {
  tp_SerialNumber : Z; tp_Subject : string; tp_Issuer : string; tp_NotBefore : Z; tp_NotAfter : Z; tp_KeyUsage : Z;
  tp_BasicConstraintsValid : bool; tp_IsCA : bool; tp_URIs : list string; tp_ExtraExtensions : list Extension
}.

Inductive LeafRole : Type := LeafRoleAgent | LeafRoleNode.

Record IssueLeafOptions : Type := MkIssueLeaf {
  SubjectNID : string; SubjectPublicKey : option (list byte); CAPrivateKey : option (list byte); IssuerNID : string;
  Role : LeafRole; il_AssuranceLevel : AssuranceLevel; il_NotBefore : Z; il_NotAfter : Z; il_SerialNumber : Z
}.

Record IssueRootOptions : Type := MkIssueRoot {
  CANID : string; ir_CAPrivateKey : option (list byte); ir_NotBefore : Z; ir_NotAfter : Z; ir_SerialNumber : Z
}.

Definition KeyUsageDigitalSignature : Z := 1.
Definition KeyUsageCertSign : Z := 32.
Definition KeyUsageCRLSign : Z := 64.

(** [crypto/x509] and its neighbours. *)
Class X509 : Type := {
  url_Parse : string -> result string string;
  CreateCertificate : Template -> Template -> list byte -> list byte -> result string (list byte);
  ParseCertificate : list byte -> result string Certificate;
  (** [None] when the signature is the parent's. *)
  CheckSignatureFrom : Certificate -> Certificate -> option string;
  PublicOf : list byte -> list byte;
  b64_error_text : string -> string;
  strconv_Quote : string -> string
}.

Section Model.
Context `{X509}.

(** ** builder.go *)

Definition eku_oid (r : LeafRole) : list Z := match r with LeafRoleAgent => OidEkuAgentIdentity | LeafRoleNode => OidEkuNodeIdentity end.

Definition leaf_template (o : IssueLeafOptions) (uri : string) : Template :=
  MkX509Template (il_SerialNumber o) (SubjectNID o) (IssuerNID o) (il_NotBefore o) (il_NotAfter o) KeyUsageDigitalSignature true false [uri]
    [MkExtension oidExtensionExtendedKeyUsage true (marshal_oids [eku_oid (Role o)]);
     MkExtension OidNidAssuranceLevel false [z_byte 10; z_byte 1; z_byte (Rank (il_AssuranceLevel o))]].

(** A parent of which only the subject is read. *)
Definition parent_template (nid : string) : Template := MkX509Template 0 nid "" 0 0 0 false false [] [].

Definition IssueLeaf (o : IssueLeafOptions) : result string Certificate :=
  match SubjectPublicKey o, CAPrivateKey o with
  | None, _ => Err "subject public key is nil"
  | _, None => Err "CA private key is nil"
  | Some pub, Some key =>
      match url_Parse (SubjectNID o) with
      | Err e => Err ("subject NID parse: " +:+ e)
      | Ok uri =>
          match CreateCertificate (leaf_template o uri) (parent_template (IssuerNID o)) pub key with
          | Err e => Err ("create leaf cert: " +:+ e)
          | Ok der => ParseCertificate der
          end
      end
  end.

Definition root_template (o : IssueRootOptions) : Template :=
  MkX509Template (ir_SerialNumber o) (CANID o) (CANID o) (ir_NotBefore o) (ir_NotAfter o)
    (Z.lor KeyUsageCertSign KeyUsageCRLSign) true true [] [].

Definition IssueRoot (o : IssueRootOptions) : result string Certificate :=
  match ir_CAPrivateKey o with
  | None => Err "CA private key is nil"
  | Some key =>
      match CreateCertificate (root_template o) (root_template o) (PublicOf key) key with
      | Err e => Err ("create root cert: " +:+ e)
      | Ok der => ParseCertificate der
      end
  end.

(** ** verifier.go *)

(** A leaf, or the code and the message. *)
Definition VerifyResult : Type := result (string * string) Certificate.
Definition fail (errorCode message : string) : VerifyResult := Err (errorCode, message).

Record VerifyOptions : Type := MkVerifyOptions {
  CertChainBase64UrlDer : list string; AssertedNID : string; AssertedAssuranceLevel : option AssuranceLevel;
  TrustedRootCerts : list Certificate
}.

Definition base64UrlDecode (s : string) : option (list byte) := URL_Decode (pad4 s).

Fixpoint decode_chain (i : Z) (l : list string) : result (string * string) (list Certificate) :=
  match l with
  | [] => Ok []
  | s :: l =>
      match base64UrlDecode s with
      | None => Err (ErrCertFormatInvalid, "chain[" +:+ fmt_d i +:+ "] base64url decode: " +:+ b64_error_text (pad4 s))
      | Some der =>
          match ParseCertificate der with
          | Err e => Err (ErrCertFormatInvalid, "chain[" +:+ fmt_d i +:+ "] DER parse: " +:+ e)
          | Ok c => match decode_chain (i + 1) l with Ok cs => Ok (c :: cs) | Err e => Err e end
          end
      end
  end.

Definition oid_eqb (a b : list Z) : bool := bool_decide (a = b).

Fixpoint checkLeafEku (leaf : Certificate) (exts : list Extension) : VerifyResult :=
  match exts with
  | [] => fail ErrCertEkuMissing "leaf has no ExtendedKeyUsage extension"
  | ext :: exts =>
      if oid_eqb (ext_Id ext) oidExtensionExtendedKeyUsage then
        if negb (ext_Critical ext) then fail ErrCertEkuMissing "ExtendedKeyUsage extension is not marked critical"
        else if existsb (fun oid => oid_eqb oid OidEkuAgentIdentity || oid_eqb oid OidEkuNodeIdentity) (crt_UnknownExtKeyUsage leaf)
        then Ok leaf
        else fail ErrCertEkuMissing "ExtendedKeyUsage does not contain agent-identity or node-identity OID"
      else checkLeafEku leaf exts
  end.

Definition checkSubjectNid (leaf : Certificate) (assertedNid : string) : VerifyResult :=
  if negb (String.eqb (crt_CommonName leaf) assertedNid) then
    fail ErrCertSubjectNidMismatch ("leaf subject CN (" +:+ strconv_Quote (crt_CommonName leaf) +:+ ") does not match asserted NID (" +:+
                                    strconv_Quote assertedNid +:+ ")")
  else if mem_string assertedNid (crt_URIs leaf) then Ok leaf
  else fail ErrCertSubjectNidMismatch "no SAN URI matches asserted NID".

(** [hex.EncodeToString]. *)
Definition hex_bytes (l : list byte) : string :=
  foldr (fun b acc => hex_lower (byte_z b / 16) +:+ hex_lower (byte_z b mod 16) +:+ acc) "" l.

Definition checkLevel (leaf : Certificate) (value : list byte) (asserted : AssuranceLevel) : VerifyResult :=
  match value with
  | [a; b; rank] =>
      if (byte_z a =? 10) && (byte_z b =? 1) then
        match AssuranceFromRank (byte_z rank) with
        | Err _ => fail ErrAssuranceUnknown ("assurance-level extension contains unknown value: " +:+ fmt_d (byte_z rank))
        | Ok certLevel =>
            if bool_decide (certLevel = asserted) then Ok leaf
            else fail ErrAssuranceMismatch ("cert assurance-level (" +:+ Wire certLevel +:+ ") does not match asserted (" +:+ Wire asserted +:+ ")")
        end
      else fail ErrCertFormatInvalid ("malformed assurance-level extension: " +:+ hex_bytes value)
  | _ => fail ErrCertFormatInvalid ("malformed assurance-level extension: " +:+ hex_bytes value)
  end.

Definition checkAssuranceLevel (leaf : Certificate) (asserted : option AssuranceLevel) : VerifyResult :=
  match asserted with
  | None => Ok leaf
  | Some asserted =>
      match List.find (fun ext => oid_eqb (ext_Id ext) OidNidAssuranceLevel) (crt_Extensions leaf) with
      | None => Ok leaf
      | Some ext => checkLevel leaf (ext_Value ext) asserted
      end
  end.

(** Every certificate is signed by its successor. *)
Fixpoint check_links (i : Z) (chain : list Certificate) : option (string * string) :=
  match chain with
  | c :: ((p :: _) as rest) =>
      match CheckSignatureFrom c p with
      | Some e => Some (ErrCertFormatInvalid, "chain link " +:+ fmt_d i +:+ " signature did not verify: " +:+ e)
      | None => check_links (i + 1) rest
      end
  | _ => None
  end.

Definition anchored (roots : list Certificate) (last : Certificate) : bool :=
  existsb (fun root => bool_decide (crt_Raw last = crt_Raw root) || bool_decide (CheckSignatureFrom last root = None)) roots.

Definition checkChainSignature (leaf : Certificate) (rest : list Certificate) (trustedRoots : list Certificate) : VerifyResult :=
  match trustedRoots with
  | [] => fail ErrCertFormatInvalid "no trusted X.509 roots configured"
  | _ =>
      match check_links 0 (leaf :: rest) with
      | Some (code, msg) => fail code msg
      | None => if anchored trustedRoots (List.last rest leaf) then Ok leaf
                else fail ErrCertFormatInvalid "chain does not anchor to any trusted root"
      end
  end.

Definition Verify (o : VerifyOptions) : VerifyResult :=
  match CertChainBase64UrlDer o with
  | [] => fail ErrCertFormatInvalid "cert_chain is empty"
  | _ =>
      match decode_chain 0 (CertChainBase64UrlDer o) with
      | Err (code, msg) => fail code msg
      | Ok [] => fail ErrCertFormatInvalid "cert_chain is empty"      (* not reached *)
      | Ok (leaf :: rest) =>
          match checkLeafEku leaf (crt_Extensions leaf) with
          | Err e => Err e
          | Ok _ =>
              match checkSubjectNid leaf (AssertedNID o) with
              | Err e => Err e
              | Ok _ =>
                  match checkAssuranceLevel leaf (AssertedAssuranceLevel o) with
                  | Err e => Err e
                  | Ok _ => match checkChainSignature leaf rest (TrustedRootCerts o) with Err e => Err e | Ok _ => Ok leaf end
                  end
              end
          end
      end
  end.
End Model.
