(* ===== verification/NipX509Proof.v ===== *)
(** * What certificates verify

    The stages of the verifier as one statement about the chain, and the leaves that the
    builder issues. *)

From S2P Require Import Prelude GoValue GoBase64 NipFrames NipDer NipCa NipX509.

Section Proofs.
Context `{X509}.

(** ** Acceptance *)

(** The first extended key usage is critical, and one of the two roles is among the
    usages that the standard library does not know. *)
Definition eku_ok (leaf : Certificate) : Prop :=
  exists before ext after, crt_Extensions leaf = before ++ ext :: after /\
    ext_Id ext = oidExtensionExtendedKeyUsage /\ Forall (fun e => ext_Id e <> oidExtensionExtendedKeyUsage) before /\
    ext_Critical ext = true /\
    exists oid, oid ∈ crt_UnknownExtKeyUsage leaf /\ (oid = OidEkuAgentIdentity \/ oid = OidEkuNodeIdentity).

Definition level_ok (leaf : Certificate) (asserted : option AssuranceLevel) : Prop :=
  match asserted, List.find (fun ext => oid_eqb (ext_Id ext) OidNidAssuranceLevel) (crt_Extensions leaf) with
  | Some level, Some ext => exists rank, ext_Value ext = [z_byte 10; z_byte 1; rank] /\ AssuranceFromRank (byte_z rank) = Ok level
  | _, _ => True
  end.

(** Each certificate is signed by its successor, and the last one is trusted or signed by
    one that is. *)
Definition links_ok (chain : list Certificate) : Prop :=
  forall i c p, chain !! i = Some c -> chain !! S i = Some p -> CheckSignatureFrom c p = None.

Definition anchor_ok (last : Certificate) (roots : list Certificate) : Prop :=
  exists root, root ∈ roots /\ (crt_Raw last = crt_Raw root \/ CheckSignatureFrom last root = None).

Definition decodes (s : string) (c : Certificate) : Prop := exists der, base64UrlDecode s = Some der /\ ParseCertificate der = Ok c.

Lemma decode_chain_iff i l chain : decode_chain i l = Ok chain <-> Forall2 decodes l chain.
Proof.
  revert i chain. induction l as [|s l IH]; intros i chain; cbn [decode_chain].
  - split; [intros [= <-]; constructor|]. intros Hf. by inversion Hf.
  - split.
    + destruct (base64UrlDecode s) as [der|] eqn:Es; [|done]. destruct (ParseCertificate der) as [c|e] eqn:Ep; [|done].
      destruct (decode_chain (i + 1) l) as [cs|e] eqn:Ec; [|done]. intros [= <-]. constructor; [by exists der|by eapply IH].
    + intros (c & cs & (der & -> & ->) & Hl & ->)%Forall2_cons_inv_l. by rewrite (proj2 (IH (i + 1) cs) Hl).
Qed.

Lemma oid_eqb_eq a b : oid_eqb a b = true <-> a = b.
Proof. unfold oid_eqb. by rewrite bool_decide_eq_true. Qed.

Lemma eku_iff leaf exts c : checkLeafEku leaf exts = Ok c <->
  c = leaf /\ exists before ext after, exts = before ++ ext :: after /\
    ext_Id ext = oidExtensionExtendedKeyUsage /\ Forall (fun e => ext_Id e <> oidExtensionExtendedKeyUsage) before /\
    ext_Critical ext = true /\ exists oid, oid ∈ crt_UnknownExtKeyUsage leaf /\ (oid = OidEkuAgentIdentity \/ oid = OidEkuNodeIdentity).
Proof.
  induction exts as [|e exts IH]; cbn [checkLeafEku].
  { split; [done|]. by intros (_ & [|? ?] & ? & ? & ? & _). }
  destruct (oid_eqb (ext_Id e) oidExtensionExtendedKeyUsage) eqn:Ei.
  - apply oid_eqb_eq in Ei. set (p := fun oid => _ || _).
    assert (Hex : existsb p (crt_UnknownExtKeyUsage leaf) = true <->
      exists oid, oid ∈ crt_UnknownExtKeyUsage leaf /\ (oid = OidEkuAgentIdentity \/ oid = OidEkuNodeIdentity)).
    { rewrite existsb_exists. unfold p. setoid_rewrite orb_true_iff. setoid_rewrite oid_eqb_eq. by setoid_rewrite list_elem_of_In. }
    split.
    + destruct (ext_Critical e) eqn:Ec; [cbn [negb]|done]. destruct (existsb p _) eqn:Ex; [|done]. intros [= <-]. split; [done|].
      exists [], e, exts. split_and!; [done|done|constructor|done|by apply Hex].
    + intros (-> & [|b before] & ext & after & Eq & Hid & Hf & Hc & Ho).
      * injection Eq as <- <-. rewrite Hc. cbn [negb]. by rewrite (proj2 Hex Ho).
      * injection Eq as <- _. apply Forall_cons_1 in Hf as [Hf _]. done.
  - assert (Hne : ext_Id e <> oidExtensionExtendedKeyUsage) by (intros E; apply oid_eqb_eq in E; congruence). rewrite IH. split.
    + intros (-> & before & ext & after & -> & H1 & H2 & H3 & H4). split; [done|]. exists (e :: before), ext, after. split_and!; try done. by constructor.
    + intros (-> & [|b before] & ext & after & Eq & Hid & Hf & Hc).
      * by injection Eq as <- _.
      * injection Eq as <- ->. apply Forall_cons_1 in Hf as [_ Hf]. split; [done|]. by exists before, ext, after.
Qed.

Lemma byte_z_eq b n : 0 <= n < 256 -> byte_z b =? n = true <-> b = z_byte n.
Proof.
  intros Hn. rewrite Z.eqb_eq. split; [intros <-; by rewrite z_byte_byte_z|intros ->]. rewrite byte_z_z_byte. by apply wrapu_small.
Qed.

Lemma level_iff leaf asserted c : checkAssuranceLevel leaf asserted = Ok c <-> c = leaf /\ level_ok leaf asserted.
Proof.
  unfold checkAssuranceLevel, level_ok. destruct asserted as [level|]; [|split; [by intros [= <-]|by intros [-> _]]].
  destruct (List.find _ _) as [ext|]; [|split; [by intros [= <-]|by intros [-> _]]]. unfold checkLevel.
  destruct (ext_Value ext) as [|a [|b [|rank [|]]]]; try (by split; [|intros (_ & ? & [=] & _)]).
  destruct ((byte_z a =? 10) && (byte_z b =? 1)) eqn:Eab.
  - apply andb_true_iff in Eab as [Ea Eb]. apply byte_z_eq in Ea as ->; [|lia]. apply byte_z_eq in Eb as ->; [|lia].
    destruct (AssuranceFromRank (byte_z rank)) as [l|e] eqn:El.
    + case_bool_decide as Hl.
      * subst l. split; [intros [= <-]; split; [done|by exists rank]|by intros [-> _]].
      * split; [done|]. intros (_ & r & [= <-] & Hr). congruence.
    + split; [done|]. intros (_ & r & [= <-] & Hr). congruence.
  - split; [done|]. intros (_ & r & [= -> -> ->] & Hr). done.
Qed.

Lemma links_iff i chain : check_links i chain = None <-> links_ok chain.
Proof.
  revert i. induction chain as [|c chain IH]; intros i; [by split|]. destruct chain as [|p chain].
  { split; [|done]. by intros _ [|j] ? ? ?. }
  cbn [check_links]. unfold links_ok. split.
  - destruct (CheckSignatureFrom c p) eqn:E; [done|]. intros Hl%IH [|j] c' p'; cbn; [by intros [= <-] [= <-]|apply Hl].
  - intros Hl. rewrite (Hl 0%nat c p eq_refl eq_refl). apply IH. intros j. apply (Hl (S j)).
Qed.

Lemma anchored_iff roots last : anchored roots last = true <-> anchor_ok last roots.
Proof.
  unfold anchored, anchor_ok. rewrite existsb_exists. setoid_rewrite orb_true_iff. setoid_rewrite bool_decide_eq_true. by setoid_rewrite list_elem_of_In.
Qed.

(** What a chain has when it is accepted. *)
Definition acceptable o leaf rest : Prop :=
  Forall2 decodes (CertChainBase64UrlDer o) (leaf :: rest) /\
  eku_ok leaf /\ crt_CommonName leaf = AssertedNID o /\ AssertedNID o ∈ crt_URIs leaf /\
  level_ok leaf (AssertedAssuranceLevel o) /\ links_ok (leaf :: rest) /\ anchor_ok (List.last rest leaf) (TrustedRootCerts o).

Lemma verify_accepted o leaf : Verify o = Ok leaf -> exists rest, acceptable o leaf rest.
Proof.
  unfold Verify. destruct (CertChainBase64UrlDer o) as [|s l] eqn:Eo; [done|].
  destruct (decode_chain 0 (s :: l)) as [[|c rest]|[code msg]] eqn:Ed; [|apply decode_chain_iff in Ed|done].
  { apply decode_chain_iff in Ed. inversion Ed. }
  destruct (checkLeafEku c _) as [x|e] eqn:E1; [|done]. destruct (checkSubjectNid c _) as [y|e] eqn:E2; [|done].
  destruct (checkAssuranceLevel c _) as [z|e] eqn:E3; [|done]. destruct (checkChainSignature c rest _) as [t|e] eqn:E4; [|done]. intros [= <-].
  apply eku_iff in E1 as [_ E1]. apply level_iff in E3 as [_ E3]. unfold checkSubjectNid in E2. destruct (String.eqb_spec (crt_CommonName c) (AssertedNID o)); [|done].
  cbn [negb] in E2. destruct (mem_string _ _) eqn:Em; [|done]. apply mem_string_true in Em. unfold checkChainSignature in E4.
  destruct (TrustedRootCerts o) as [|r roots] eqn:Er; [done|]. destruct (check_links 0 (c :: rest)) as [[]|] eqn:El; [done|]. apply links_iff in El.
  destruct (anchored _ _) eqn:Ea; [|done]. apply anchored_iff in Ea. exists rest. unfold acceptable. by rewrite Eo, Er.
Qed.

Lemma verify_accepts o leaf rest : acceptable o leaf rest -> Verify o = Ok leaf.
Proof.
  intros (Hf & He & Hcn & Hu & Hl & Hk & Ha). unfold Verify. destruct (CertChainBase64UrlDer o) as [|s l]; [inversion Hf|].
  apply (decode_chain_iff 0) in Hf. rewrite Hf.
  rewrite (proj2 (eku_iff leaf (crt_Extensions leaf) leaf)) by done. unfold checkSubjectNid. rewrite Hcn, String.eqb_refl. cbn [negb].
  rewrite (proj2 (mem_string_true _ _)) by done. rewrite (proj2 (level_iff leaf (AssertedAssuranceLevel o) leaf)) by done. unfold checkChainSignature.
  destruct (TrustedRootCerts o) as [|r roots]; [by destruct Ha as (? & ?%not_elem_of_nil & _)|]. rewrite (proj2 (links_iff 0 _)) by done.
  by rewrite (proj2 (anchored_iff _ _)).
Qed.

(** C40. The verifier of certificate chains accepts a chain exactly when every element
    decodes, its first certificate carries a critical extended key usage that names an
    agent or a node, has the asserted NID as its subject and among its URIs, and attests
    the asserted level where a level is asserted and it attests one, each certificate is
    signed by its successor, and the last one is a trusted root or signed by one; and
    the first certificate is what it returns. Nothing else is asked: neither the period
    of validity of a certificate nor the present time. *)
Theorem x509_verify_iff o leaf :
  Verify o = Ok leaf <-> exists rest,
    Forall2 decodes (CertChainBase64UrlDer o) (leaf :: rest) /\
    eku_ok leaf /\ crt_CommonName leaf = AssertedNID o /\ AssertedNID o ∈ crt_URIs leaf /\
    level_ok leaf (AssertedAssuranceLevel o) /\ links_ok (leaf :: rest) /\ anchor_ok (List.last rest leaf) (TrustedRootCerts o).
Proof. split; [apply verify_accepted|]. intros [rest Hr]. by apply (verify_accepts _ _ rest). Qed.

(** ** Issued leaves *)

(** What [crypto/x509] documents of a certificate made from a template, for a template
    whose extra extensions have identifiers of their own: they are found as they were
    given, in place of those the other fields would produce; an extended key usage that
    the library does not know is kept as such; the subject, the URIs and the raw bytes
    are read back. *)
Definition preserved (t : Template) (c : Certificate) (der : list byte) : Prop :=
  crt_Raw c = der /\ crt_CommonName c = tp_Subject t /\ crt_URIs c = tp_URIs t /\
  (forall e, e ∈ tp_ExtraExtensions t -> List.find (fun x => oid_eqb (ext_Id x) (ext_Id e)) (crt_Extensions c) = Some e) /\
  (forall r, MkExtension oidExtensionExtendedKeyUsage true (marshal_oids [eku_oid r]) ∈ tp_ExtraExtensions t ->
     eku_oid r ∈ crt_UnknownExtKeyUsage c).

Lemma find_split {A} (p : A -> bool) l x : List.find p l = Some x ->
  exists before after, l = before ++ x :: after /\ p x = true /\ Forall (fun y => p y = false) before.
Proof.
  induction l as [|y l IH]; cbn; [done|]. destruct (p y) eqn:E; [intros [= <-]; by exists [], l|].
  intros (b & a & -> & ? & ?)%IH. exists (y :: b), a. split_and!; [done|done|by constructor].
Qed.

(** A leaf that the builder issues passes the verifier, under the NID and the level it
    was issued for and a root that signed it: the two sides of the package agree. *)
Theorem issued_leaf_verifies o leaf root :
  (forall pub key der, CreateCertificate (leaf_template o (SubjectNID o)) (parent_template (IssuerNID o)) pub key = Ok der ->
     exists c, ParseCertificate der = Ok c /\ preserved (leaf_template o (SubjectNID o)) c der) ->
  url_Parse (SubjectNID o) = Ok (SubjectNID o) -> il_AssuranceLevel o ∈ assurance_levels ->
  IssueLeaf o = Ok leaf -> CheckSignatureFrom leaf root = None ->
  Verify (MkVerifyOptions [RawURL_Encode (crt_Raw leaf)] (SubjectNID o) (Some (il_AssuranceLevel o)) [root]) = Ok leaf.
Proof.
  intros Hlaw Hu Hlv. unfold IssueLeaf. destruct (SubjectPublicKey o) as [pub|]; [|done]. destruct (CAPrivateKey o) as [key|]; [|done].
  rewrite Hu. destruct (CreateCertificate _ _ pub key) as [der|e] eqn:Ec; [|done]. apply Hlaw in Ec as (c & Ep & Hraw & Hcn & Huri & Hext & Heku).
  rewrite Ep. intros [= <-] Hsig. apply verify_accepts with (rest := []). unfold acceptable. cbn [CertChainBase64UrlDer AssertedNID AssertedAssuranceLevel TrustedRootCerts].
  cbn [tp_Subject tp_URIs leaf_template tp_ExtraExtensions] in *. split_and!; [|..|by intros [|i] ? ? ?|exists root; split; [by left|by right]].
  - constructor; [|constructor]. exists der. split; [|done]. rewrite Hraw. unfold base64UrlDecode. apply URL_pad_roundtrip.
  - destruct (find_split _ _ _ (Hext _ (list_elem_of_here _ _))) as (b & a & E & _ & Hb). cbn [ext_Id] in *.
    exists b, (MkExtension oidExtensionExtendedKeyUsage true (marshal_oids [eku_oid (Role o)])), a. split_and!; [done|done| |done|].
    + eapply Forall_impl; [exact Hb|]. cbn. intros x Hx E'. apply oid_eqb_eq in E'. congruence.
    + exists (eku_oid (Role o)). split; [apply Heku; by left|]. destruct (Role o); auto.
  - done.
  - rewrite Huri. by left.
  - unfold level_ok. pose proof (Hext _ (list_elem_of_further _ _ _ (list_elem_of_here _ _))) as Hl. cbn [ext_Id] in Hl. rewrite Hl.
    exists (z_byte (Rank (il_AssuranceLevel o))). split; [done|].
    unfold assurance_levels in Hlv. rewrite !elem_of_cons in Hlv. by destruct Hlv as [->|[->|[->|[]%not_elem_of_nil]]].
Qed.
End Proofs.

(** One subject, one authority. *)
Definition toy_x509 : X509 := {|
  url_Parse := fun s => Ok s;
  CreateCertificate := fun t _ _ _ => Ok (bytes_of_string (tp_Subject t));
  ParseCertificate := fun der => Ok (MkCertificate der (string_of_bytes der) [string_of_bytes der]
    [MkExtension oidExtensionExtendedKeyUsage true (marshal_oids [OidEkuNodeIdentity]);
     MkExtension OidNidAssuranceLevel false [z_byte 10; z_byte 1; z_byte 2]] [OidEkuNodeIdentity]);
  CheckSignatureFrom := fun _ root => if String.eqb (crt_CommonName root) "ca" then None else Some "not the authority";
  PublicOf := fun key => key; b64_error_text := fun _ => ""; strconv_Quote := fun s => s |}.

Definition toy_leaf : IssueLeafOptions := MkIssueLeaf "urn:nps:node:h:a" (Some []) (Some []) "urn:nps:ca:h" LeafRoleNode AssuranceVerified 0 1 7.
Definition toy_root : Certificate := MkCertificate [] "ca" [] [] [].

Lemma issued_leaf_verifies_witness :
  let X := toy_x509 in
  exists leaf, IssueLeaf toy_leaf = Ok leaf /\
    Verify (MkVerifyOptions [RawURL_Encode (crt_Raw leaf)] "urn:nps:node:h:a" (Some AssuranceVerified) [toy_root]) = Ok leaf.
Proof.
  intros X. eexists. split; [reflexivity|]. apply (issued_leaf_verifies toy_leaf); try reflexivity.
  - intros pub key der [= <-]. eexists. split; [reflexivity|]. split_and!; try reflexivity.
    + intros e [->|[->|[]%not_elem_of_nil]%elem_of_cons]%elem_of_cons; by vm_compute.
    + intros [] [E|[E|[]%not_elem_of_nil]%elem_of_cons]%elem_of_cons; [by vm_compute in E|done|by left|done].
  - right. right. left.
Defined.
