(* ===== verification/NipAcme.v ===== *)
(** * nip/acme: the agent-01 protocol

    wire.go, messages.go, jws.go and server.go: signed requests, and the server that
    hands out accounts, orders, authorizations, challenges and certificates.

    The server's maps are [gmap]s and a request is one step; the handlers take the lock
    several times, so the interleaving of two of them is not modelled.  Random bytes
    come with the request.  [encoding/json], Ed25519, [encoding/pem], [time.Now] and
    the texts of errors are arguments, as is [crypto/x509] (NipX509.v). *)

From S2P Require Import Prelude GoValue GoBase64 CoreCache NipFrames NipCa NipX509.

(** ** wire.go, messages.go *)

Definition ContentTypeJoseJSON : string := "application/jose+json".
Definition ContentTypeProblem : string := "application/problem+json".
Definition ContentTypePemCert : string := "application/pem-certificate-chain".
Definition ChallengeAgent01 : string := "agent-01".
Definition IdentifierTypeNID : string := "nid".
Definition StatusPending : string := "pending".
Definition StatusReady : string := "ready".
Definition StatusValid : string := "valid".
Definition StatusInvalid : string := "invalid".

Definition ErrAcmeChallengeFailed : string := "NIP-ACME-CHALLENGE-FAILED".

Record Directory : Type := MkDirectory { NewNonce : string; NewAccount : string; NewOrder : string }.
Record Identifier : Type := MkIdentifier { idf_Type : string; idf_Value : string }.
Record Order : Type := MkOrder {
  o_Status : string; o_Identifiers : list Identifier; o_Authorizations : list string; o_Finalize : string; o_Certificate : string
}.
Record Challenge : Type := MkChallenge { c_Type : string; c_URL : string; c_Status : string; c_Token : string }.
Record Authorization : Type := MkAuthorization { a_Status : string; a_Identifier : Identifier; a_Challenges : list Challenge }.
Record ProblemDetail : Type := MkProblem { p_Type : string; p_Detail : string; p_Status : Z }.

(** ** jws.go *)

Definition AlgEdDSA : string := "EdDSA".
Definition KtyOkp : string := "OKP".
Definition CrvEd25519 : string := "Ed25519".
Definition PublicKeySize : nat := 32.

Record JWK : Type := MkJWK { Kty : string; Crv : string; X_ : string }.
Record ProtectedHeader : Type := MkHeader { Alg : string; Nonce : string; h_URL : string; h_JWK : option JWK; Kid : string }.
Record Envelope : Type := MkEnvelope { Protected : string; Payload : string; Signature : string }.

(** The values that go into an envelope's payload. *)
Inductive payload : Type :=
| PNewAccount (termsOfServiceAgreed : bool)
| PNewOrder (identifiers : list Identifier)
| PChallengeRespond (agentSignature : string)
| PFinalize (csr : string).

(** Bodies of answers. *)
Inductive body : Type :=
| BNone
| BDirectory (d : Directory)
| BStatus (status : string)
| BOrder (o : Order)
| BAuthorization (a : Authorization)
| BChallenge (c : Challenge)
| BProblem (p : ProblemDetail)
| BPem (text : string)
| BMoved (to : string)
| BNotFound.

Record csr : Type := MkCsr { csr_CommonName : string; csr_Ed25519 : option (list byte) }.

(** [encoding/json] on the types above, Ed25519 and the parser of certificate requests. *)
Class AcmeEnv : Type := {
  marshal_envelope : Envelope -> string;
  unmarshal_envelope : string -> result string Envelope;
  marshal_header : ProtectedHeader -> list byte;
  unmarshal_header : list byte -> result string ProtectedHeader;
  marshal_payload : payload -> list byte;
  unmarshal_order : list byte -> result string (list Identifier);
  unmarshal_respond : list byte -> result string string;
  unmarshal_finalize : list byte -> result string string;
  ed25519_Sign : list byte -> list byte -> list byte;
  ed25519_Verify : list byte -> list byte -> list byte -> bool;
  ParseCertificateRequest : list byte -> result string csr;
  pem_certificate : list byte -> string
}.

Section Jws.
Context `{X509} `{AcmeEnv}.

Definition B64uEncode (b : list byte) : string := RawURL_Encode b.
Definition B64uDecode (s : string) : result string (list byte) :=
  match URL_Decode (pad4 s) with Some b => Ok b | None => Err (b64_error_text (pad4 s)) end.

Definition JwkFromPublicKey (rawPubKey : list byte) : result string JWK :=
  if negb (length rawPubKey =? PublicKeySize)%nat
  then Err ("Ed25519 public key must be 32 bytes, got " +:+ fmt_d (Z.of_nat (length rawPubKey)))
  else Ok (MkJWK KtyOkp CrvEd25519 (B64uEncode rawPubKey)).

Definition PublicKeyFromJWK (jwk : JWK) : result string (list byte) :=
  if negb (String.eqb (Kty jwk) KtyOkp) || negb (String.eqb (Crv jwk) CrvEd25519)
  then Err ("JWK is not OKP/Ed25519: kty=" +:+ Kty jwk +:+ " crv=" +:+ Crv jwk)
  else match B64uDecode (X_ jwk) with
       | Err e => Err e
       | Ok raw => if negb (length raw =? PublicKeySize)%nat
                   then Err ("JWK x decodes to " +:+ fmt_d (Z.of_nat (length raw)) +:+ " bytes, want 32") else Ok raw
       end.

Definition signing_input (protected payload : string) : list byte := bytes_of_string (protected +:+ "." +:+ payload).

(** Marshalling these types does not fail. *)
Definition Sign (header : ProtectedHeader) (p : option payload) (privKey : list byte) : Envelope :=
  let headerB64u := B64uEncode (marshal_header header) in
  let payloadB64u := match p with None => "" | Some p => B64uEncode (marshal_payload p) end in
  MkEnvelope headerB64u payloadB64u (B64uEncode (ed25519_Sign privKey (signing_input headerB64u payloadB64u))).

Definition Verify (env : Envelope) (pubKey : list byte) : result string ProtectedHeader :=
  match B64uDecode (Signature env) with
  | Err e => Err ("signature b64u decode: " +:+ e)
  | Ok sig =>
      if negb (ed25519_Verify pubKey (signing_input (Protected env) (Payload env)) sig) then Err "JWS signature verify failed"
      else match B64uDecode (Protected env) with
           | Err e => Err ("protected header b64u decode: " +:+ e)
           | Ok headerBytes => match unmarshal_header headerBytes with
                               | Err e => Err ("protected header JSON: " +:+ e)
                               | Ok header => Ok header
                               end
           end
  end.

(** [zero] is what an empty payload leaves. *)
Definition DecodePayload {A} (zero : A) (unmarshal : list byte -> result string A) (env : Envelope) : result string A :=
  if String.eqb (Payload env) "" then Ok zero
  else match B64uDecode (Payload env) with Err e => Err e | Ok b => unmarshal b end.
End Jws.

(** ** The server's state *)

Record orderState : Type := MkOrderState {
  od_id : string; od_authzId : string; od_finalizeUrl : string; od_accountUrl : string; od_identifier : Identifier;
  od_status : string; od_certificateUrl : string
}.

Record authzState : Type := MkAuthzState {
  az_id : string; az_identifier : Identifier; az_status : string; az_challengeIds : list string; az_accountUrl : string
}.

Record challengeState : Type := MkChallengeState {
  ch_id : string; ch_typ : string; ch_status : string; ch_token : string; ch_authzId : string; ch_accountUrl : string
}.

Record Server : Type := MkServer {
  nonces : gset string; accountJwks : gmap string JWK; orders : gmap string orderState; authzs : gmap string authzState;
  challenges : gmap string challengeState; certs : gmap string string
}.

Definition NewServer : Server := MkServer ∅ ∅ ∅ ∅ ∅ ∅.

Definition with_nonces (n : gset string) (s : Server) : Server :=
  MkServer n (accountJwks s) (orders s) (authzs s) (challenges s) (certs s).
Definition with_account (url : string) (jwk : JWK) (s : Server) : Server :=
  MkServer (nonces s) (<[url := jwk]> (accountJwks s)) (orders s) (authzs s) (challenges s) (certs s).

Definition od_with_status (st : string) (o : orderState) : orderState :=
  MkOrderState (od_id o) (od_authzId o) (od_finalizeUrl o) (od_accountUrl o) (od_identifier o) st (od_certificateUrl o).
Definition az_with_status (st : string) (a : authzState) : authzState :=
  MkAuthzState (az_id a) (az_identifier a) st (az_challengeIds a) (az_accountUrl a).
Definition ch_with_status (st : string) (c : challengeState) : challengeState :=
  MkChallengeState (ch_id c) (ch_typ c) st (ch_token c) (ch_authzId c) (ch_accountUrl c).

Definition set_challenge_status (id st : string) (s : Server) : Server :=
  MkServer (nonces s) (accountJwks s) (orders s) (authzs s) (alter (ch_with_status st) id (challenges s)) (certs s).

(** ** Requests and answers *)

(** The random bytes a request may draw: identifiers, a token, a nonce, a serial number. *)
Record randoms : Type := MkRandoms {
  r_id1 : list byte; r_id2 : list byte; r_id3 : list byte; r_token : list byte; r_nonce : list byte; r_serial : list byte
}.

Record request : Type := MkRequest { Method : string; Path : string; Body : result string string; rnd : randoms; now : Z }.

Record response : Type := MkResponse {
  Status : Z; ContentType : string; Location : string; ReplayNonce : string; r_body : body
}.

Definition problem (status : Z) (typ detail : string) : response :=
  MkResponse status ContentTypeProblem "" "" (BProblem (MkProblem typ detail status)).
Definition json (status : Z) (location nonce : string) (b : body) : response := MkResponse status "application/json" location nonce b.

Definition malformed : string := "urn:ietf:params:acme:error:malformed".
Definition badNonce : string := "urn:ietf:params:acme:error:badNonce".
Definition accountDoesNotExist : string := "urn:ietf:params:acme:error:accountDoesNotExist".
Definition unauthorized : string := "urn:ietf:params:acme:error:unauthorized".
Definition badCSR : string := "urn:ietf:params:acme:error:badCSR".
Definition orderNotReady : string := "urn:ietf:params:acme:error:orderNotReady".

(** A handler returns early with an answer or goes on, over the state. *)
Definition handler (A : Type) : Type := Server -> result response A * Server.
Definition ret {A} (a : A) : handler A := fun s => (Ok a, s).
Definition stop {A} (r : response) : handler A := fun s => (Err r, s).
Definition bind {A B} (m : handler A) (k : A -> handler B) : handler B :=
  fun s => match m s with (Ok a, s) => k a s | (Err r, s) => (Err r, s) end.
Definition get : handler Server := fun s => (Ok s, s).
Definition update (f : Server -> Server) : handler unit := fun s => (Ok tt, f s).
Definition check (b : bool) (r : response) : handler unit := if b then ret tt else stop r.
Definition found {A} (o : option A) (r : response) : handler A := match o with Some a => ret a | None => stop r end.
Definition try_ {A} (x : result string A) (r : string -> response) : handler A := match x with Ok a => ret a | Err e => stop (r e) end.

#[local] Notation "x <~ m ; k" := (bind m (fun x => k)) (at level 100, m at next level, k at level 200, right associativity).

Section Server.
Context `{X509} `{AcmeEnv}.
(** [ServerOptions] and the address the server listens on. *)
Context (CaNid : string) (CaKey : option (list byte)) (CaRootRaw : list byte) (CertValidity : Z) (baseURL : string).

Definition shortId (b : list byte) : string := hex_bytes b.

Definition big_endian (b : list byte) : Z := foldl (fun n c => n * 256 + byte_z c) 0 b.
Definition randomSerial (b : list byte) : Z := if big_endian b =? 0 then 1 else big_endian b.

(** *** Helpers *)

Definition mint (r : request) : handler string :=
  let n := B64uEncode (r_nonce (rnd r)) in
  _ <~ update (fun s => with_nonces (nonces s ∪ {[ n ]}) s); ret n.

Definition consumeNonce (nonce : string) : handler bool :=
  s <~ get;
  if bool_decide (nonce ∈ nonces s) then _ <~ update (with_nonces (nonces s ∖ {[ nonce ]})); ret true else ret false.

Definition use_nonce (nonce : string) : handler unit :=
  ok <~ consumeNonce nonce; check ok (problem 400 badNonce "invalid nonce").

Definition readJoseRequest (r : request) : result response (Envelope * ProtectedHeader) :=
  match Body r with
  | Err e => Err (problem 400 malformed ("body read: " +:+ e))
  | Ok raw =>
      match unmarshal_envelope raw with
      | Err e => Err (problem 400 malformed ("body parse: " +:+ e))
      | Ok env =>
          match B64uDecode (Protected env) with
          | Err e => Err (problem 400 malformed ("malformed protected header: " +:+ e))
          | Ok headerBytes =>
              match unmarshal_header headerBytes with
              | Err e => Err (problem 400 malformed ("protected header parse: " +:+ e))
              | Ok header => Ok (env, header)
              end
          end
      end
  end.

Definition read_jose (r : request) : handler (Envelope * ProtectedHeader) := fun s => (readJoseRequest r, s).

(** The key of a header's account, when it signed the envelope. *)
Definition account_key (s : Server) (env : Envelope) (header : ProtectedHeader) : option (list byte) :=
  jwk ← accountJwks s !! Kid header;
  match PublicKeyFromJWK jwk with
  | Err _ => None
  | Ok pub => match Verify env pub with Ok _ => Some pub | Err _ => None end
  end.

Definition verifyAccount (s : Server) (env : Envelope) (header : ProtectedHeader) : bool :=
  if String.eqb (Kid header) "" then false else bool_decide (is_Some (account_key s env header)).

(** What most handlers begin with. *)
Definition authenticated (r : request) (refusal : ProtectedHeader -> response) : handler (Envelope * ProtectedHeader) :=
  eh <~ read_jose r;
  _ <~ use_nonce (Nonce eh.2);
  s <~ get;
  _ <~ check (verifyAccount s eh.1 eh.2) (refusal eh.2);
  ret eh.

Definition bad_sig (_ : ProtectedHeader) : response := problem 401 unauthorized "bad sig".

Definition trimPath (prefix : string) (r : request) : string := default (Path r) (cut_prefix prefix (Path r)).

Definition authz_url (id : string) : string := baseURL +:+ "/authz/" +:+ id.
Definition chall_url (id : string) : string := baseURL +:+ "/chall/" +:+ id.

(** *** Handlers *)

Definition handleDirectory (r : request) : handler response :=
  if negb (String.eqb (Method r) "GET") then ret (problem 405 malformed "method not allowed")
  else ret (json 200 "" "" (BDirectory (MkDirectory (baseURL +:+ "/new-nonce") (baseURL +:+ "/new-account") (baseURL +:+ "/new-order")))).

Definition handleNewNonce (r : request) : handler response :=
  n <~ mint r; ret (MkResponse (if String.eqb (Method r) "HEAD" then 200 else 204) "" "" n BNone).

Definition handleNewAccount (r : request) : handler response :=
  eh <~ read_jose r;
  jwk <~ found (h_JWK eh.2) (problem 400 malformed "newAccount must include a 'jwk' member");
  _ <~ use_nonce (Nonce eh.2);
  pub <~ try_ (PublicKeyFromJWK jwk) (problem 400 malformed);
  _ <~ try_ (Verify eh.1 pub) (fun _ => problem 400 malformed "JWS signature verify failed");
  let accountUrl := baseURL +:+ "/account/" +:+ "acc-" +:+ shortId (r_id1 (rnd r)) in
  _ <~ update (with_account accountUrl jwk);
  n <~ mint r; ret (json 201 accountUrl n (BStatus StatusValid)).

Definition new_order (r : request) (ident : Identifier) (kid : string) (s : Server) : Server :=
  let orderId := "ord-" +:+ shortId (r_id1 (rnd r)) in
  let authzId := "az-" +:+ shortId (r_id2 (rnd r)) in
  let challId := "ch-" +:+ shortId (r_id3 (rnd r)) in
  let token := B64uEncode (r_token (rnd r)) in
  let finalizeUrl := baseURL +:+ "/finalize/" +:+ orderId in
  MkServer (nonces s) (accountJwks s)
    (<[orderId := MkOrderState orderId authzId finalizeUrl kid ident StatusPending ""]> (orders s))
    (<[authzId := MkAuthzState authzId ident StatusPending [challId] kid]> (authzs s))
    (<[challId := MkChallengeState challId ChallengeAgent01 StatusPending token authzId kid]> (challenges s)) (certs s).

Definition handleNewOrder (r : request) : handler response :=
  eh <~ authenticated r (fun h => problem 401 accountDoesNotExist ("unknown kid: " +:+ Kid h));
  ident <~ match DecodePayload [] unmarshal_order eh.1 with
           | Ok (ident :: _) => ret ident
           | _ => stop (problem 400 malformed "missing identifiers")
           end;
  _ <~ update (new_order r ident (Kid eh.2));
  let orderId := "ord-" +:+ shortId (r_id1 (rnd r)) in
  n <~ mint r;
  ret (json 201 (baseURL +:+ "/order/" +:+ orderId) n
         (BOrder (MkOrder StatusPending [ident] [authz_url ("az-" +:+ shortId (r_id2 (rnd r)))] (baseURL +:+ "/finalize/" +:+ orderId) ""))).

Definition challenge_body (c : challengeState) : Challenge := MkChallenge (ch_typ c) (chall_url (ch_id c)) (ch_status c) (ch_token c).

(** [None] where the code dereferences a challenge that is not there. *)
Definition handleAuthz (r : request) : Server -> option (response * Server) := fun s =>
  match (eh <~ authenticated r bad_sig;
         s <~ get;
         az <~ found (authzs s !! trimPath "/authz/" r) (problem 404 malformed "no authz");
         ret az) s with
  | (Err resp, s) => Some (resp, s)
  | (Ok az, s) =>
      l ← mapM (fun cid => challenges s !! cid) (az_challengeIds az);
      let '(n, s) := mint r s in
      match n with
      | Ok n => Some (json 200 "" n (BAuthorization (MkAuthorization (az_status az) (az_identifier az) (challenge_body <$> l))), s)
      | Err resp => Some (resp, s)
      end
  end.

Definition challenge_failed {A} (id detail : string) : handler A :=
  _ <~ update (set_challenge_status id StatusInvalid); stop (problem 400 ErrAcmeChallengeFailed detail).

Definition challenge_passed (id : string) (ch : challengeState) (s : Server) : Server :=
  MkServer (nonces s) (accountJwks s)
    ((fun o => if String.eqb (od_authzId o) (ch_authzId ch) then od_with_status StatusReady o else o) <$> orders s)
    (alter (az_with_status StatusValid) (ch_authzId ch) (authzs s))
    (alter (ch_with_status StatusValid) id (challenges s)) (certs s).

Definition handleChallenge (r : request) : handler response :=
  eh <~ read_jose r;
  _ <~ use_nonce (Nonce eh.2);
  s <~ get;
  jwk <~ found (accountJwks s !! Kid eh.2) (problem 401 accountDoesNotExist "unknown kid");
  accountPub <~ try_ (PublicKeyFromJWK jwk) (problem 401 accountDoesNotExist);
  _ <~ try_ (Verify eh.1 accountPub) (fun _ => problem 400 malformed "JWS sig fail");
  let id := trimPath "/chall/" r in
  ch <~ found (challenges s !! id) (problem 404 malformed "no chall");
  sig <~ match DecodePayload "" unmarshal_respond eh.1 with
         | Err _ | Ok "" => challenge_failed id "missing agent_signature in challenge response"
         | Ok sig => ret sig
         end;
  sig <~ match B64uDecode sig with
         | Err e => challenge_failed id ("agent-01 verification error: " +:+ e)
         | Ok sig => ret sig
         end;
  _ <~ (if negb (ed25519_Verify accountPub (bytes_of_string (ch_token ch)) sig)
        then challenge_failed id "agent-01 signature did not verify" else ret tt);
  _ <~ update (challenge_passed id ch);
  n <~ mint r; ret (json 200 "" n (BChallenge (challenge_body (ch_with_status StatusValid ch)))).

Definition order_body (o : orderState) : Order :=
  MkOrder (od_status o) [od_identifier o] [authz_url (od_authzId o)] (od_finalizeUrl o) (od_certificateUrl o).

Definition leaf_options (r : request) (o : orderState) (pub : list byte) : IssueLeafOptions :=
  MkIssueLeaf (idf_Value (od_identifier o)) (Some pub) CaKey CaNid LeafRoleAgent AssuranceAnonymous
    (now r - 60000000000) (now r + CertValidity) (randomSerial (r_serial (rnd r))).

Definition certified (certUrl : string) (o : orderState) : orderState :=
  MkOrderState (od_id o) (od_authzId o) (od_finalizeUrl o) (od_accountUrl o) (od_identifier o) StatusValid certUrl.

Definition issue_cert (orderId certId certUrl pem : string) (s : Server) : Server :=
  MkServer (nonces s) (accountJwks s) (alter (certified certUrl) orderId (orders s)) (authzs s) (challenges s) (<[certId := pem]> (certs s)).

(** The certificate for an order that is ready, or the refusal. *)
Definition certify (r : request) (env : Envelope) (os : orderState) : result response Certificate :=
  match DecodePayload "" unmarshal_finalize env with
  | Err _ | Ok "" => Err (problem 400 malformed "missing csr")
  | Ok text =>
      match B64uDecode text with
      | Err e => Err (problem 400 badCSR ("CSR base64url: " +:+ e))
      | Ok csrDer =>
          match ParseCertificateRequest csrDer with
          | Err e => Err (problem 400 badCSR ("CSR parse: " +:+ e))
          | Ok csr =>
              if negb (String.eqb (csr_CommonName csr) (idf_Value (od_identifier os))) then
                Err (problem 400 ErrCertSubjectNidMismatch ("CSR subject CN " +:+ strconv_Quote (csr_CommonName csr) +:+
                       " does not match order identifier " +:+ strconv_Quote (idf_Value (od_identifier os))))
              else match csr_Ed25519 csr with
                   | None => Err (problem 400 badCSR "CSR public key is not Ed25519")
                   | Some pub => match IssueLeaf (leaf_options r os pub) with
                                 | Err e => Err (problem 400 badCSR ("issue leaf: " +:+ e))
                                 | Ok leaf => Ok leaf
                                 end
                   end
          end
      end
  end.

Definition handleFinalize (r : request) : handler response :=
  eh <~ authenticated r bad_sig;
  s <~ get;
  let orderId := trimPath "/finalize/" r in
  os <~ found (orders s !! orderId) (problem 404 malformed "no order");
  _ <~ check (String.eqb (od_status os) StatusReady)
         (problem 403 orderNotReady ("order is in state " +:+ strconv_Quote (od_status os) +:+ ", not 'ready'"));
  leaf <~ (fun s => (certify r eh.1 os, s));
  let certId := "crt-" +:+ shortId (r_id1 (rnd r)) in
  let certUrl := baseURL +:+ "/cert/" +:+ certId in
  _ <~ update (issue_cert orderId certId certUrl (pem_certificate (crt_Raw leaf) +:+ pem_certificate CaRootRaw));
  n <~ mint r; ret (json 200 "" n (BOrder (order_body (certified certUrl os)))).

Definition handleCert (r : request) : handler response :=
  eh <~ authenticated r bad_sig;
  s <~ get;
  pem <~ found (certs s !! trimPath "/cert/" r) (problem 404 malformed "no cert");
  n <~ mint r; ret (MkResponse 200 ContentTypePemCert "" n (BPem pem)).

Definition handleOrder (r : request) : handler response :=
  eh <~ authenticated r bad_sig;
  s <~ get;
  os <~ found (orders s !! trimPath "/order/" r) (problem 404 malformed "no order");
  n <~ mint r; ret (json 200 "" n (BOrder (order_body os))).

Definition run_handler (h : handler response) (s : Server) : response * Server :=
  match h s with (Ok r, s) => (r, s) | (Err r, s) => (r, s) end.

(** A path of the mux without its last slash is redirected to the path with it: the type
    of the answer is set for GET and HEAD, and its body for GET. *)
Definition redirect (r : request) : response :=
  let get := String.eqb (Method r) "GET" in
  MkResponse 301 (if get || String.eqb (Method r) "HEAD" then "text/html; charset=utf-8" else "") (Path r +:+ "/") ""
    (if get then BMoved (Path r +:+ "/") else BNone).

(** The routes of the mux, on clean paths: those with an empty, a dot or a double-dot
    element are redirected by [http.ServeMux] before any handler runs and are not
    modelled.  [None] is a panic. *)
Definition ServeHTTP (r : request) (s : Server) : option (response * Server) :=
  let at_ p := String.eqb (Path r) p in
  let under p := has_prefix p (Path r) in
  if at_ "/directory" then Some (run_handler (handleDirectory r) s)
  else if at_ "/new-nonce" then Some (run_handler (handleNewNonce r) s)
  else if at_ "/new-account" then Some (run_handler (handleNewAccount r) s)
  else if at_ "/new-order" then Some (run_handler (handleNewOrder r) s)
  else if under "/authz/" then handleAuthz r s
  else if under "/chall/" then Some (run_handler (handleChallenge r) s)
  else if under "/finalize/" then Some (run_handler (handleFinalize r) s)
  else if under "/cert/" then Some (run_handler (handleCert r) s)
  else if under "/order/" then Some (run_handler (handleOrder r) s)
  else if existsb at_ ["/authz"; "/chall"; "/finalize"; "/cert"; "/order"] then Some (redirect r, s)
  else Some (MkResponse 404 "text/plain; charset=utf-8" "" "" BNotFound, s).

(** A history of requests. *)
Fixpoint serve_all (rs : list request) (s : Server) : option Server :=
  match rs with [] => Some s | r :: rs => '(_, s) ← ServeHTTP r s; serve_all rs s end.
End Server.
