(* ===== verification/NipAcmeClient.v ===== *)
(** * nip/acme: the client

    client.go: the requests that get a certificate for an agent, over any transport.  The
    transport, [encoding/json] on the answers, [http.NewRequest], [io.ReadAll] and the
    maker of certificate requests are arguments; a dereference of nil and an index out
    of range are [None].  [server_transport] is the transport of a client that talks to
    the server of NipAcme.v. *)

From S2P Require Import Prelude GoValue GoBase64 NipFrames NipX509 NipAcme.

(** What answers a request: an error, or the answer with the URL it came from. *)
Class Transport (W : Type) : Type := http_Do : string -> string -> option string -> W -> result string (response * string) * W.

Class ClientEnv : Type := {
  NewRequest_error : string -> option string;
  decode_Directory : body -> result string Directory;
  decode_Order : body -> result string Order;
  decode_Authorization : body -> result string Authorization;
  read_body : body -> result string string;
  (** Subject, URIs and key of a certificate request. *)
  CreateCertificateRequest : string -> list string -> list byte -> result string (list byte)
}.

Record Client : Type := MkClient {
  DirectoryURL : string; PrivateKey : list byte; PublicKey : list byte; directory : option Directory; accountUrl : string; lastNonce : string
}.

Definition NewClient `{X509} (directoryURL : string) (priv : list byte) : Client :=
  MkClient directoryURL priv (PublicOf priv) None "" "".

Definition with_directory (d : Directory) (c : Client) : Client :=
  MkClient (DirectoryURL c) (PrivateKey c) (PublicKey c) (Some d) (accountUrl c) (lastNonce c).
Definition with_accountUrl (u : string) (c : Client) : Client :=
  MkClient (DirectoryURL c) (PrivateKey c) (PublicKey c) (directory c) u (lastNonce c).
Definition with_lastNonce (n : string) (c : Client) : Client :=
  MkClient (DirectoryURL c) (PrivateKey c) (PublicKey c) (directory c) (accountUrl c) n.

Section Client.
Context `{X509} `{AcmeEnv} `{ClientEnv} {W : Type} `{Transport W}.

(** A stage may stop with an error; [None] is a panic. *)
Definition stage (A : Type) : Type := Client * W -> option (result string A * (Client * W)).
Definition sret {A} (a : A) : stage A := fun st => Some (Ok a, st).
Definition sfail {A} (e : string) : stage A := fun st => Some (Err e, st).
Definition spanic {A} : stage A := fun _ => None.
Definition sbind {A B} (m : stage A) (k : A -> stage B) : stage B :=
  fun st => '(x, st) ← m st; match x with Ok a => k a st | Err e => Some (Err e, st) end.
Definition self : stage Client := fun st => Some (Ok st.1, st).
Definition smodify (f : Client -> Client) : stage unit := fun st => Some (Ok tt, (f st.1, st.2)).
Definition lift {A} (x : result string A) : stage A := fun st => Some (x, st).
Definition send (method url : string) (b : option string) : stage (response * string) :=
  fun st => let '(x, w) := http_Do method url b st.2 in Some (x, (st.1, w)).
Definition wrapped {A} (prefix : string) (m : stage A) : stage A :=
  fun st => '(x, st) ← m st; Some (match x with Ok a => Ok a | Err e => Err (prefix +:+ e) end, st).

#[local] Notation "x <~ m ; k" := (sbind m (fun x => k)) (at level 100, m at next level, k at level 200, right associativity).

Definition the_directory : stage Directory := c <~ self; match directory c with Some d => sret d | None => spanic end.

Definition refreshNonce : stage unit :=
  d <~ the_directory;
  _ <~ match NewRequest_error (NewNonce d) with Some e => sfail e | None => sret tt end;
  r <~ wrapped "HEAD newNonce: " (send "HEAD" (NewNonce d) None);
  _ <~ smodify (with_lastNonce (ReplayNonce r.1));
  if String.eqb (ReplayNonce r.1) "" then sfail "server omitted Replay-Nonce" else sret tt.

Definition ensureDirectory : stage unit :=
  c <~ self;
  match directory c with
  | Some _ => sret tt
  | None =>
      r <~ wrapped "get directory: " (send "GET" (DirectoryURL c) None);
      if negb (Status r.1 =? 200) then sfail ("get directory: HTTP " +:+ fmt_d (Status r.1))
      else
        dir <~ wrapped "decode directory: " (lift (decode_Directory (r_body r.1)));
        _ <~ smodify (with_directory dir);
        refreshNonce
  end.

Definition post (url : string) (env : Envelope) : stage (response * string) :=
  _ <~ match NewRequest_error url with Some e => sfail e | None => sret tt end;
  send "POST" url (Some (marshal_envelope env)).

Definition captureNonce (resp : response) : stage unit :=
  if String.eqb (ReplayNonce resp) "" then sret tt else smodify (with_lastNonce (ReplayNonce resp)).

Definition ensureSuccess (r : response * string) : stage unit :=
  if (200 <=? Status r.1) && (Status r.1 <? 300) then sret tt
  else sfail ("ACME " +:+ r.2 +:+ " HTTP " +:+ fmt_d (Status r.1)).

Definition newAccount : stage unit :=
  c <~ self;
  jwk <~ lift (JwkFromPublicKey (PublicKey c));
  d <~ the_directory;
  let env := Sign (MkHeader AlgEdDSA (lastNonce c) (NewAccount d) (Some jwk) "") (Some (PNewAccount true)) (PrivateKey c) in
  r <~ post (NewAccount d) env;
  _ <~ ensureSuccess r;
  _ <~ smodify (with_accountUrl (Location r.1));
  if String.eqb (Location r.1) "" then sfail "server omitted account Location header" else captureNonce r.1.

(** A signed request under the account, to its answer. *)
Definition signed_post (url : string) (p : option payload) : stage response :=
  c <~ self;
  r <~ post url (Sign (MkHeader AlgEdDSA (lastNonce c) url None (accountUrl c)) p (PrivateKey c));
  _ <~ ensureSuccess r;
  _ <~ captureNonce r.1;
  sret r.1.

Definition newOrder (nid : string) : stage Order :=
  d <~ the_directory;
  r <~ signed_post (NewOrder d) (Some (PNewOrder [MkIdentifier IdentifierTypeNID nid]));
  wrapped "decode order: " (lift (decode_Order (r_body r))).

Definition fetchAuthz (url : string) : stage Authorization :=
  r <~ signed_post url None;
  wrapped "decode authz: " (lift (decode_Authorization (r_body r))).

Definition respondAgent01 (authz : Authorization) : stage unit :=
  match List.find (fun ch => String.eqb (c_Type ch) ChallengeAgent01) (a_Challenges authz) with
  | None => sfail "authz has no agent-01 challenge"
  | Some ch =>
      c <~ self;
      let sig := ed25519_Sign (PrivateKey c) (bytes_of_string (c_Token ch)) in
      _ <~ signed_post (c_URL ch) (Some (PChallengeRespond (B64uEncode sig)));
      sret tt
  end.

Definition buildCsr (nid : string) (key : list byte) : result string (list byte) :=
  match url_Parse nid with
  | Err e => Err ("parse nid as URI: " +:+ e)
  | Ok uri => CreateCertificateRequest nid [uri] key
  end.

Definition finalizeOrder (order : Order) (nid : string) : stage Order :=
  c <~ self;
  csrDer <~ lift (buildCsr nid (PrivateKey c));
  r <~ signed_post (o_Finalize order) (Some (PFinalize (B64uEncode csrDer)));
  wrapped "decode finalized order: " (lift (decode_Order (r_body r))).

Definition downloadPem (certUrl : string) : stage string :=
  r <~ signed_post certUrl None;
  lift (read_body (r_body r)).

(** [IssueAgentCert] once there is an account. *)
Definition order_certificate (nid : string) : stage string :=
  order <~ newOrder nid;
  authzUrl <~ match o_Authorizations order with u :: _ => sret u | [] => spanic end;
  authz <~ fetchAuthz authzUrl;
  _ <~ respondAgent01 authz;
  finalized <~ finalizeOrder order nid;
  downloadPem (o_Certificate finalized).

Definition IssueAgentCert (nid : string) : stage string :=
  _ <~ ensureDirectory;
  c <~ self;
  _ <~ (if String.eqb (accountUrl c) "" then newAccount else sret tt);
  order_certificate nid.
End Client.

(** ** A client of the server *)

(** The server, and what the next requests draw, with the time of each. *)
Definition world : Type := Server * (nat -> randoms * Z) * nat.

(** Requests reach the server under its address; a handler that panics closes the
    connection. *)
Definition server_transport `{X509} `{AcmeEnv} (CaNid : string) (CaKey : option (list byte)) (CaRootRaw : list byte)
    (CertValidity : Z) (baseURL : string) : Transport world :=
  fun method url b '(s, draw, k) =>
    match cut_prefix baseURL url with
    | None => (Err "no such host", (s, draw, k))
    | Some path =>
        match ServeHTTP CaNid CaKey CaRootRaw CertValidity baseURL
                (MkRequest method path (Ok (default "" b)) (draw k).1 (draw k).2) s with
        | None => (Err "EOF", (s, draw, S k))
        | Some (resp, s) => (Ok (resp, url), (s, draw, S k))
        end
    end.
