(* ===== verification/NipAcmeToy.v ===== *)
(** * A concrete environment for nip/acme

    Instances of what nip/acme takes from its libraries, small enough to compute with:
    fields in base64 between bars for JSON, a signature that is the signer's public key,
    and a certificate authority that signs every subject but one. *)

From S2P Require Import Prelude GoValue GoBase64 NipPath NipFrames NipX509 NipAcme NipAcmeClient.

Definition toy_public (key : list byte) : list byte := resize PublicKeySize (z_byte 0) key.

#[export] Instance toy_x509 : X509 := {|
  url_Parse := fun s => if String.eqb s "bad" then Err "bad" else Ok s;
  CreateCertificate := fun t _ _ _ => Ok (bytes_of_string (tp_Subject t));
  ParseCertificate := fun der => Ok (MkCertificate der (string_of_bytes der) [string_of_bytes der] [] []);
  CheckSignatureFrom := fun _ _ => None;
  PublicOf := toy_public; b64_error_text := fun _ => ""; strconv_Quote := fun s => s |}.

(** ** Fields *)

Definition bar : Ascii.ascii := chr 124.
Definition toy_field (s : string) : string := RawURL_Encode (bytes_of_string s).
Definition toy_fields (l : list string) : string := join (String bar "") (toy_field <$> l).
Definition toy_unfields (s : string) : option (list string) := mapM (fun f => string_of_bytes <$> URL_Decode (pad4 f)) (split_on bar s).

Definition toy_marshal_header (h : ProtectedHeader) : list byte :=
  bytes_of_string (toy_fields ([Alg h; Nonce h; h_URL h; Kid h] ++ match h_JWK h with Some j => [Kty j; Crv j; X_ j] | None => [] end)).

Definition toy_unmarshal_header (b : list byte) : result string ProtectedHeader :=
  match toy_unfields (string_of_bytes b) with
  | Some [alg; nonce; url; kid] => Ok (MkHeader alg nonce url None kid)
  | Some [alg; nonce; url; kid; kty; crv; x] => Ok (MkHeader alg nonce url (Some (MkJWK kty crv x)) kid)
  | _ => Err "header"
  end.

Definition toy_marshal_payload (p : payload) : list byte :=
  bytes_of_string (match p with
                   | PNewAccount _ => "account"
                   | PNewOrder ids => String bar (toy_fields (concat ((fun i => [idf_Type i; idf_Value i]) <$> ids)))
                   | PChallengeRespond s | PFinalize s => String bar s
                   end).

Fixpoint toy_identifiers (l : list string) : list Identifier :=
  match l with t :: v :: l => MkIdentifier t v :: toy_identifiers l | _ => [] end.

Definition toy_text (b : list byte) : result string string := match string_of_bytes b with String _ s => Ok s | _ => Err "text" end.

#[export] Instance toy_acme : AcmeEnv := {|
  marshal_envelope := fun e => toy_fields [Protected e; Payload e; Signature e];
  unmarshal_envelope := fun s => match toy_unfields s with Some [a; b; c] => Ok (MkEnvelope a b c) | _ => Err "envelope" end;
  marshal_header := toy_marshal_header;
  unmarshal_header := toy_unmarshal_header;
  marshal_payload := toy_marshal_payload;
  unmarshal_order := fun b => match toy_text b with
                              | Ok s => match toy_unfields s with Some l => Ok (toy_identifiers l) | None => Err "order" end
                              | Err e => Err e
                              end;
  unmarshal_respond := toy_text;
  unmarshal_finalize := toy_text;
  ed25519_Sign := fun key _ => z_byte 1 :: toy_public key;
  ed25519_Verify := fun pub _ sig => bool_decide (sig = z_byte 1 :: pub);
  ParseCertificateRequest := fun der => Ok (MkCsr (string_of_bytes (drop PublicKeySize der)) (Some (take PublicKeySize der)));
  pem_certificate := fun der => "<" +:+ string_of_bytes der +:+ ">" |}.

#[export] Instance toy_client : ClientEnv := {|
  NewRequest_error := fun _ => None;
  decode_Directory := fun b => match b with BDirectory d => Ok d | _ => Err "directory" end;
  decode_Order := fun b => match b with BOrder o => Ok o | _ => Err "order" end;
  decode_Authorization := fun b => match b with BAuthorization a => Ok a | _ => Err "authorization" end;
  read_body := fun b => match b with BPem s => Ok s | _ => Err "body" end;
  CreateCertificateRequest := fun cn _ key => Ok (toy_public key ++ bytes_of_string cn) |}.

(** ** They are what they stand for *)

Lemma RawURL_no_bar l : str_contains_char bar (RawURL_Encode l) = false.
Proof.
  unfold RawURL_Encode, string_of. induction (b64_encode_range l) as [|v vs Hv _ IH]; [done|].
  cbn [fmap list_fmap String.string_of_list_ascii str_contains_char]. apply orb_false_iff. split; [|exact IH].
  assert (Hall : forallb (fun n => negb (Ascii.eqb (b64_char (Z.of_nat n)) bar)) (seq 0 64) = true) by (by vm_compute).
  rewrite forallb_forall in Hall. rewrite <- (Z2Nat.id v) by lia. apply negb_true_iff, Hall, in_seq. lia.
Qed.

Lemma toy_fields_kept l : l <> [] -> toy_unfields (toy_fields l) = Some l.
Proof.
  intros Hl. unfold toy_unfields, toy_fields. rewrite split_on_join.
  - clear Hl. set (f := fun _ => _). induction l as [|s l IH]; [done|].
    change (mapM f (toy_field <$> s :: l)) with (y ← f (toy_field s); k ← mapM f (toy_field <$> l); mret (y :: k)). rewrite IH.
    unfold f, toy_field. rewrite URL_pad_roundtrip. cbn [fmap option_fmap option_map mbind option_bind]. by rewrite string_of_bytes_of_string.
  - by destruct l.
  - apply Forall_fmap, Forall_true. intros s. apply RawURL_no_bar.
Qed.

(** ** A history *)

Definition toy_randoms (n id1 id2 id3 : Z) : randoms := MkRandoms [z_byte id1] [z_byte id2] [z_byte id3] [z_byte 9] [z_byte n] [z_byte n].
Definition toy_nonce (n : Z) : string := B64uEncode [z_byte n].
Definition toy_key (n : Z) : list byte := [z_byte n].
Definition toy_post (path : string) (h : ProtectedHeader) (p : option payload) (key : list byte) (rn : randoms) : request :=
  MkRequest "POST" path (Ok (marshal_envelope (Sign h p key))) rn 0.
Definition toy_register (n : Z) (key : list byte) (rn : randoms) : request :=
  toy_post "/new-account" (MkHeader AlgEdDSA (toy_nonce n) "" (Some (MkJWK KtyOkp CrvEd25519 (B64uEncode (toy_public key)))) "")
    (Some (PNewAccount true)) key rn.
Definition toy_account (n : Z) : string := "/account/acc-" +:+ hex_bytes [z_byte n].
Definition toy_as (account n : Z) (path : string) (p : option payload) (rn : randoms) : request :=
  toy_post path (MkHeader AlgEdDSA (toy_nonce n) "" None (toy_account account)) p (toy_key account) rn.

(** Two accounts; the first one orders a certificate, the second one answers the
    challenge and has the certificate made for its own key. *)
Definition toy_answer (n : Z) (rn : randoms) : request :=
  toy_as 2 n "/chall/ch-05" (Some (PChallengeRespond (B64uEncode (ed25519_Sign (toy_key 2) [])))) rn.
Definition toy_finalize (n : Z) (rn : randoms) : request :=
  toy_as 2 n "/finalize/ord-03" (Some (PFinalize (B64uEncode (toy_public (toy_key 2) ++ bytes_of_string "nid")))) rn.

Definition toy_history : list request :=
  [MkRequest "HEAD" "/new-nonce" (Ok "") (toy_randoms 0 0 0 0) 0;
   toy_register 0 (toy_key 1) (toy_randoms 1 1 0 0);
   toy_register 1 (toy_key 2) (toy_randoms 2 2 0 0);
   toy_as 1 2 "/new-order" (Some (PNewOrder [MkIdentifier IdentifierTypeNID "nid"])) (toy_randoms 3 3 4 5);
   toy_answer 3 (toy_randoms 4 0 0 0);
   toy_finalize 4 (toy_randoms 5 6 0 0)].

Abbreviation toy_serve_all := (serve_all "ca" (Some []) [] 0 "").
