(* ===== verification/NipAcmeProof.v ===== *)
(** * What the ACME server guarantees

    Nonces are used once, the server does not dereference what is not there, and a
    certificate is issued for an order that is backed by a signature on its challenge. *)

From S2P Require Import Prelude GoValue GoBase64 NipFrames NipX509 NipAcme NipAcmeToy.

Section Proofs.
Context `{X509} `{AcmeEnv}.
Context (CaNid : string) (CaKey : option (list byte)) (CaRootRaw : list byte) (CertValidity : Z) (baseURL : string).

Abbreviation serve := (ServeHTTP CaNid CaKey CaRootRaw CertValidity baseURL).
Abbreviation serve_history := (serve_all CaNid CaKey CaRootRaw CertValidity baseURL).

(** ** What a request does to the state *)

Definition minted (r : request) : string := B64uEncode (r_nonce (rnd r)).
Definition request_nonce (r : request) : option string := match readJoseRequest r with Ok (_, h) => Some (Nonce h) | Err _ => None end.

(** A registered account whose key verifies a signature on the token. *)
Definition answers (s : Server) (token : string) : Prop :=
  exists kid jwk pub sig, accountJwks s !! kid = Some jwk /\ PublicKeyFromJWK jwk = Ok pub /\
    ed25519_Verify pub (bytes_of_string token) sig = true.

Inductive change (r : request) (s : Server) : (Server -> Server) -> Prop :=
| change_account env header jwk pub h :
    readJoseRequest r = Ok (env, header) -> h_JWK header = Some jwk -> PublicKeyFromJWK jwk = Ok pub -> Verify env pub = Ok h ->
    change r s (with_account (baseURL +:+ "/account/" +:+ "acc-" +:+ shortId (r_id1 (rnd r))) jwk)
| change_order env header ident :
    readJoseRequest r = Ok (env, header) -> verifyAccount s env header = true ->
    change r s (new_order baseURL r ident (Kid header))
| change_failed id ch : challenges s !! id = Some ch -> change r s (set_challenge_status id StatusInvalid)
| change_passed id ch : challenges s !! id = Some ch -> answers s (ch_token ch) -> change r s (challenge_passed id ch)
| change_cert env header id os leaf certId certUrl pem :
    readJoseRequest r = Ok (env, header) -> verifyAccount s env header = true ->
    orders s !! id = Some os -> od_status os = StatusReady -> certify CaNid CaKey CertValidity r env os = Ok leaf ->
    pem = pem_certificate (crt_Raw leaf) +:+ pem_certificate CaRootRaw -> certId = "crt-" +:+ shortId (r_id1 (rnd r)) ->
    change r s (issue_cert id certId certUrl pem).

Definition effect (r : request) (s s' : Server) : Prop :=
  (exists N, s' = with_nonces N s /\ N ⊆ nonces s ∪ {[ minted r ]}) \/
  (exists f n N, change r s f /\ request_nonce r = Some n /\ n ∈ nonces s /\ s' = with_nonces N (f s) /\ N ⊆ nonces s ∖ {[ n ]} ∪ {[ minted r ]}).

Lemma with_nonces_same s : with_nonces (nonces s) s = s.
Proof. by destruct s. Qed.

Lemma effect_refl r s : effect r s s.
Proof. left. exists (nonces s). rewrite with_nonces_same. split; [done|set_solver]. Qed.

(** A handler up to its nonce: it stops with the state as it was, or goes on without the
    nonce. *)
Lemma use_nonce_spec n s :
  use_nonce n s = if bool_decide (n ∈ nonces s) then (Ok tt, with_nonces (nonces s ∖ {[ n ]}) s)
                  else (Err (problem 400 badNonce "invalid nonce"), s).
Proof. unfold use_nonce, consumeNonce, bind, get. by case_bool_decide. Qed.

Lemma mint_spec r s : mint r s = (Ok (minted r), with_nonces (nonces s ∪ {[ minted r ]}) s).
Proof. done. Qed.

Lemma verifyAccount_nonces N s env h : verifyAccount (with_nonces N s) env h = verifyAccount s env h.
Proof. done. Qed.

Lemma authenticated_spec r refusal s :
  match authenticated r refusal s with
  | (Ok (env, h), s') => readJoseRequest r = Ok (env, h) /\ Nonce h ∈ nonces s /\ verifyAccount s env h = true /\
                         s' = with_nonces (nonces s ∖ {[ Nonce h ]}) s
  | (Err _, s') => exists N, s' = with_nonces N s /\ N ⊆ nonces s
  end.
Proof.
  unfold authenticated, bind, read_jose, get, check, ret, stop. destruct (readJoseRequest r) as [[env h]|resp] eqn:Er; cbn [fst snd].
  - rewrite use_nonce_spec. case_bool_decide as Hn; [|exists (nonces s); by rewrite with_nonces_same].
    rewrite verifyAccount_nonces. destruct (verifyAccount s env h) eqn:Ev; [done|]. eexists. split; [done|set_solver].
  - exists (nonces s). by rewrite with_nonces_same.
Qed.

Lemma effect_spent r s N : N ⊆ nonces s -> effect r s (with_nonces N s).
Proof. intros Hn. left. exists N. split; [done|set_solver]. Qed.

Lemma effect_minted r s N : N ⊆ nonces s -> effect r s (with_nonces (N ∪ {[ minted r ]}) s).
Proof. intros Hn. left. eexists. split; [done|set_solver]. Qed.

(** The change, and after it a new nonce or none. *)
Lemma effect_change r s f n N :
  change r s f -> request_nonce r = Some n -> n ∈ nonces s -> N ⊆ nonces s ∖ {[ n ]} ∪ {[ minted r ]} -> effect r s (with_nonces N (f s)).
Proof. intros. right. by exists f, n, N. Qed.

Lemma request_nonce_ok r env h : readJoseRequest r = Ok (env, h) -> request_nonce r = Some (Nonce h).
Proof. unfold request_nonce. by intros ->. Qed.

Ltac steps := unfold run_handler, bind, get, update, ret, stop, check, found, try_; cbn beta iota; cbn [fst snd accountJwks orders authzs challenges certs with_nonces].
(** A handler after its authentication. *)
Ltac authenticated_cases env h Er Hn Hv :=
  match goal with |- context [authenticated ?r ?ref ?s] =>
    pose proof (authenticated_spec r ref s) as HA; destruct (authenticated r ref s) as [[[env h]|?] ?];
    [destruct HA as (Er & Hn & Hv & ->)|destruct HA as (? & -> & ?); cbn; by apply effect_spent]; cbn [fst snd]
  end.
Ltac spent := cbn; apply effect_spent; set_solver.
Ltac renewed := match goal with |- effect ?r ?s _ => 
  match goal with Hn : ?n ∈ nonces s |- _ =>
    change (effect r s (with_nonces (nonces s ∖ {[ n ]} ∪ {[ minted r ]}) s)); apply effect_minted; set_solver
  end end.

Lemma directory_effect r s : effect r s (run_handler (handleDirectory baseURL r) s).2.
Proof. unfold handleDirectory. destruct (negb _); apply effect_refl. Qed.

Lemma nonce_effect r s : effect r s (run_handler (handleNewNonce r) s).2.
Proof. unfold handleNewNonce. steps. rewrite mint_spec. cbn. by apply effect_minted. Qed.

Lemma account_effect r s : effect r s (run_handler (handleNewAccount baseURL r) s).2.
Proof.
  unfold handleNewAccount, read_jose. steps. destruct (readJoseRequest r) as [[env h]|resp] eqn:Er; [|apply effect_refl]. cbn [fst snd].
  destruct (h_JWK h) as [jwk|] eqn:Ej; [|apply effect_refl]. steps. rewrite use_nonce_spec. case_bool_decide as Hn; [|apply effect_refl].
  destruct (PublicKeyFromJWK jwk) as [pub|e] eqn:Ep; [|spent]. destruct (Verify env pub) as [hv|e] eqn:Ev; [|spent]. cbn.
  eapply (effect_change r s (with_account _ jwk)); [by eapply change_account|by eapply request_nonce_ok|done|set_solver].
Qed.

Lemma order_effect r s : effect r s (run_handler (handleNewOrder baseURL r) s).2.
Proof.
  unfold handleNewOrder. steps. authenticated_cases env h Er Hn Hv.
  destruct (DecodePayload _ _ env) as [[|ident l]|e]; [spent| |spent]. cbn.
  eapply (effect_change r s (new_order baseURL r ident (Kid h))); [by eapply change_order|by eapply request_nonce_ok|done|set_solver].
Qed.

Lemma challenge_effect r s : effect r s (run_handler (handleChallenge baseURL r) s).2.
Proof.
  unfold handleChallenge, read_jose. steps. destruct (readJoseRequest r) as [[env h]|resp] eqn:Er; [|apply effect_refl]. cbn [fst snd].
  rewrite use_nonce_spec. case_bool_decide as Hn; [|apply effect_refl]. steps.
  destruct (accountJwks s !! Kid h) as [jwk|] eqn:Ej; [|spent]. destruct (PublicKeyFromJWK jwk) as [pub|e] eqn:Ep; [|spent].
  destruct (Verify env pub) as [hv|e] eqn:Ev; [|spent]. steps. set (id := trimPath "/chall/" r).
  destruct (challenges s !! id) as [ch|] eqn:Ec; [|spent].
  assert (Hfail : effect r s (with_nonces (nonces s ∖ {[ Nonce h ]}) (set_challenge_status id StatusInvalid s))).
  { eapply effect_change; [by eapply change_failed|by eapply request_nonce_ok|done|set_solver]. }
  destruct (DecodePayload "" _ env) as [[|c sig]|e]; [exact Hfail| |exact Hfail].
  destruct (B64uDecode (String c sig)) as [sigb|e]; [|exact Hfail].
  destruct (ed25519_Verify pub (bytes_of_string (ch_token ch)) sigb) eqn:Es; cbn [negb]; [|exact Hfail]. cbn.
  eapply (effect_change r s (challenge_passed id ch)); [|by eapply request_nonce_ok|done|set_solver].
  apply change_passed; [done|]. by exists (Kid h), jwk, pub, sigb.
Qed.

Lemma finalize_effect r s : effect r s (run_handler (handleFinalize CaNid CaKey CaRootRaw CertValidity baseURL r) s).2.
Proof.
  unfold handleFinalize. steps. authenticated_cases env h Er Hn Hv. cbn [orders with_nonces]. set (id := trimPath "/finalize/" r).
  destruct (orders s !! id) as [os|] eqn:Eo; [|spent]. steps. destruct (String.eqb_spec (od_status os) StatusReady) as [Hst|]; [|spent]. steps.
  destruct (certify _ _ _ r env os) as [leaf|e] eqn:El; [|spent]. cbn.
  eapply (effect_change r s (issue_cert id _ _ _)); [by eapply change_cert|by eapply request_nonce_ok|done|set_solver].
Qed.

Lemma cert_effect r s : effect r s (run_handler (handleCert r) s).2.
Proof.
  unfold handleCert. steps. authenticated_cases env h Er Hn Hv. cbn [certs with_nonces].
  steps. destruct (certs s !! _); [renewed|spent].
Qed.

Lemma show_order_effect r s : effect r s (run_handler (handleOrder baseURL r) s).2.
Proof.
  unfold handleOrder. steps. authenticated_cases env h Er Hn Hv. cbn [orders with_nonces].
  steps. destruct (orders s !! _); [renewed|spent].
Qed.

Lemma authz_effect r s resp s' : handleAuthz baseURL r s = Some (resp, s') -> effect r s s'.
Proof.
  unfold handleAuthz. steps. pose proof (authenticated_spec r bad_sig s) as HA. destruct (authenticated r bad_sig s) as [[[env h]|?] ?].
  - destruct HA as (Er & Hn & Hv & ->). cbn [fst snd authzs with_nonces]. destruct (authzs s !! _) as [az|]; [|intros [= <- <-]; spent].
    steps. destruct (mapM (M:=option) _ _) as [l|]; [|done]. intros [= <- <-]. renewed.
  - destruct HA as (? & -> & ?). intros [= <- <-]. by apply effect_spent.
Qed.

(** Every request is one of a few changes, which a nonce pays for. *)
Lemma serve_effect r s resp s' : serve r s = Some (resp, s') -> effect r s s'.
Proof.
  assert (Hrun : forall h, effect r s (run_handler h s).2 -> Some (run_handler h s) = Some (resp, s') -> effect r s s').
  { intros h He [= E]. by rewrite E in He. }
  unfold ServeHTTP. repeat (destruct (_ : bool);
    [first [apply Hrun, directory_effect | apply Hrun, nonce_effect | apply Hrun, account_effect | apply Hrun, order_effect | apply authz_effect
           | apply Hrun, challenge_effect | apply Hrun, finalize_effect | apply Hrun, cert_effect | apply Hrun, show_order_effect | intros [= <- <-]; apply effect_refl]|]).
  intros [= <- <-]. apply effect_refl.
Qed.

(** ** Nonces *)

(** The request did something: the state differs in more than its nonces. *)
Definition acts (r : request) (s s' : Server) : Prop := (exists resp, serve r s = Some (resp, s')) /\ with_nonces ∅ s' <> with_nonces ∅ s.

Lemma with_nonces_twice N N' s : with_nonces N (with_nonces N' s) = with_nonces N s.
Proof. done. Qed.

Lemma acts_nonce r s s' : acts r s s' -> exists n, request_nonce r = Some n /\ n ∈ nonces s /\ (n ∈ nonces s' -> n = minted r).
Proof.
  intros [(resp & Hs) Hne]. apply serve_effect in Hs as [(N & -> & _)|(f & n & N & _ & Hn & Hin & -> & HN)].
  { by rewrite with_nonces_twice in Hne. }
  exists n. split_and!; [done|done|]. cbn [nonces with_nonces]. set_solver.
Qed.

(** The set of nonces grows by what is minted. *)
Lemma serve_nonces r s resp s' : serve r s = Some (resp, s') -> nonces s' ⊆ nonces s ∪ {[ minted r ]}.
Proof.
  intros [(N & -> & HN)|(f & n & N & _ & _ & _ & -> & HN)]%serve_effect; cbn [nonces with_nonces]; set_solver.
Qed.

Lemma history_nonces rs s s' n : serve_history rs s = Some s' -> n ∈ nonces s' -> n ∈ nonces s \/ n ∈ minted <$> rs.
Proof.
  revert s. induction rs as [|r rs IH]; intros s; cbn [serve_all].
  { intros [= <-]. by left. }
  destruct (serve r s) as [[resp s1]|] eqn:Es; cbn; [|done]. intros Hs Hn. destruct (IH _ Hs Hn) as [Hn1|Hn1]; [|right; by right].
  apply (serve_nonces _ _ _ _ Es) in Hn1. apply elem_of_union in Hn1 as [Hn1|Hn1]; [by left|]. apply elem_of_singleton in Hn1 as ->. right. by left.
Qed.

(** C35. Two requests that act on the server under one nonce have, in between, a request that
    was answered with that nonce anew: a captured request cannot be replayed, whatever
    is sent in the meantime. *)
Theorem nonce_acts_once r r' rs s s1 s2 s3 :
  acts r s s1 -> serve_history rs s1 = Some s2 -> acts r' s2 s3 -> request_nonce r = request_nonce r' ->
  exists q, q ∈ r :: rs /\ request_nonce r = Some (minted q).
Proof.
  intros (n & Hn & _ & Hs1)%acts_nonce Hh (n' & Hn' & Hin & _)%acts_nonce E. rewrite Hn, Hn' in E. injection E as <-.
  destruct (history_nonces _ _ _ _ Hh Hin) as [Hn1|(q & -> & Hq)%list_elem_of_fmap].
  - exists r. split; [by left|]. by rewrite Hn, (Hs1 Hn1).
  - exists q. split; [by right|done].
Qed.

(** ** The server always answers *)

Definition linked (s : Server) : Prop :=
  map_Forall (fun _ az => Forall (fun cid => is_Some (challenges s !! cid)) (az_challengeIds az)) (authzs s).

Lemma linked_change r s f : change r s f -> linked s -> linked (f s).
Proof.
  intros Hc Hl. unfold linked in *. destruct Hc as [| |id ch|id ch|]; cbn [authzs challenges with_account new_order set_challenge_status challenge_passed issue_cert]; try done.
  - apply map_Forall_insert_2.
    + cbn. constructor; [|constructor]. by rewrite lookup_insert_eq.
    + eapply map_Forall_impl; [exact Hl|]. cbn. intros aid az Hf. eapply Forall_impl; [exact Hf|]. cbn. intros cid Hs.
      destruct (decide (cid = "ch-" +:+ shortId (r_id3 (rnd r)))) as [->|]; [by rewrite lookup_insert_eq|by rewrite lookup_insert_ne].
  - eapply map_Forall_impl; [exact Hl|]. cbn. intros aid az Hf. eapply Forall_impl; [exact Hf|]. cbn. intros cid Hs. by rewrite lookup_alter_is_Some.
  - intros aid az Ha. apply lookup_alter_Some in Ha as [(_ & az0 & Ha & ->)|[_ Ha]]; apply Hl in Ha; cbn in *;
      (eapply Forall_impl; [exact Ha|]); cbn; intros cid Hs; by rewrite lookup_alter_is_Some.
Qed.

Lemma linked_serve r s resp s' : serve r s = Some (resp, s') -> linked s -> linked s'.
Proof.
  intros [(N & -> & _)|(f & n & N & Hc & _ & _ & -> & _)]%serve_effect Hl; [done|]. by apply (linked_change _ _ _ Hc) in Hl.
Qed.

Lemma linked_answers r s : linked s -> is_Some (serve r s).
Proof.
  intros Hl. unfold ServeHTTP. repeat case_match; try done. unfold handleAuthz. unfold bind at 1.
  pose proof (authenticated_spec r bad_sig s) as HA. destruct (authenticated r bad_sig s) as [[[env h]|?] ?]; [|done].
  destruct HA as (_ & _ & _ & ->). steps. destruct (authzs s !! _) as [az|] eqn:Ea; [|done]. steps. apply Hl in Ea.
  destruct (proj2 (mapM_is_Some (fun cid => challenges s !! cid) (az_challengeIds az)) Ea) as [l ->]. done.
Qed.

(** The server answers every request of every history: the challenges that it lists for an
    authorization, which it dereferences, are there. *)
Theorem server_answers rs : exists s, serve_history rs NewServer = Some s.
Proof.
  assert (Hall : forall s, linked s -> exists s', serve_history rs s = Some s'); [|by apply Hall].
  induction rs as [|r rs IH]; intros s Hl; cbn [serve_all]; [by exists s|].
  destruct (linked_answers r s Hl) as [[resp s1] Es]. rewrite Es. cbn. apply IH. by eapply linked_serve.
Qed.

(** ** Certificates *)

Definition account_of (r : request) : string := baseURL +:+ "/account/" +:+ "acc-" +:+ shortId (r_id1 (rnd r)).
Definition order_of (r : request) : string := "ord-" +:+ shortId (r_id1 (rnd r)).
Definition challenge_of (r : request) : string := "ch-" +:+ shortId (r_id3 (rnd r)).
Definition cert_of (r : request) : string := "crt-" +:+ shortId (r_id1 (rnd r)).

(** The identifiers that a request draws are not in use. *)
Definition fresh (r : request) (s : Server) : Prop :=
  accountJwks s !! account_of r = None /\ orders s !! order_of r = None /\ challenges s !! challenge_of r = None.

Fixpoint fresh_history (rs : list request) (s : Server) : Prop :=
  match rs with [] => True | r :: rs => fresh r s /\ forall resp s', serve r s = Some (resp, s') -> fresh_history rs s' end.

(** The token of a challenge for the order was signed with a registered account's key. *)
Definition backed (s : Server) (o : orderState) : Prop :=
  exists cid ch, challenges s !! cid = Some ch /\ ch_authzId ch = od_authzId o /\ answers s (ch_token ch).

(** The certificate of an order that is backed, under the identifier that was ordered. *)
Definition certified_by (s : Server) (pem : string) : Prop :=
  exists oid o opts leaf, orders s !! oid = Some o /\ backed s o /\ IssueLeaf opts = Ok leaf /\
    SubjectNID opts = idf_Value (od_identifier o) /\ IssuerNID opts = CaNid /\ CAPrivateKey opts = CaKey /\ Role opts = LeafRoleAgent /\
    il_AssuranceLevel opts = AssuranceAnonymous /\ pem = pem_certificate (crt_Raw leaf) +:+ pem_certificate CaRootRaw.

Definition sound (s : Server) : Prop :=
  (forall oid o, orders s !! oid = Some o -> od_status o <> StatusPending -> backed s o) /\
  (forall id pem, certs s !! id = Some pem -> certified_by s pem).

(** What later states keep: keys, tokens, and what an order is for. *)
Definition extends (s s' : Server) : Prop :=
  (forall kid jwk, accountJwks s !! kid = Some jwk -> accountJwks s' !! kid = Some jwk) /\
  (forall cid ch, challenges s !! cid = Some ch ->
     exists ch', challenges s' !! cid = Some ch' /\ ch_token ch' = ch_token ch /\ ch_authzId ch' = ch_authzId ch) /\
  (forall oid o, orders s !! oid = Some o ->
     exists o', orders s' !! oid = Some o' /\ od_authzId o' = od_authzId o /\ od_identifier o' = od_identifier o).

Lemma insert_fresh {A} (m : gmap string A) k v j x : m !! k = None -> m !! j = Some x -> <[k := v]> m !! j = Some x.
Proof. intros Hk Hj. rewrite lookup_insert_ne; [done|congruence]. Qed.

Lemma alter_keeps {A} (f : A -> A) (m : gmap string A) k j x : m !! j = Some x -> exists x', alter f k m !! j = Some x' /\ (x' = x \/ x' = f x).
Proof.
  intros Hj. destruct (decide (k = j)) as [->|].
  - rewrite lookup_alter_eq, Hj. eauto.
  - rewrite lookup_alter_ne by done. eauto.
Qed.

Lemma extends_change r s f : fresh r s -> change r s f -> extends s (f s).
Proof.
  intros (Ha & Ho & Hch) Hc. destruct Hc as [| |id ch|id ch|]; unfold extends; cbn [accountJwks challenges orders with_account new_order set_challenge_status challenge_passed issue_cert].
  - split_and!; [|by eauto..]. intros. by apply insert_fresh.
  - split_and!; [done|..]; intros; eexists; (split; [by apply insert_fresh|done]).
  - split_and!; [done| |by eauto]. intros cid c Hcid. edestruct (alter_keeps (ch_with_status StatusInvalid)) as (c' & Hc' & [->| ->]); [exact Hcid|..]; eauto.
  - split_and!; [done|..].
    + intros cid c Hcid. edestruct (alter_keeps (ch_with_status StatusValid)) as (c' & Hc' & [->| ->]); [exact Hcid|..]; eauto.
    + intros oid o Hoid. rewrite lookup_fmap, Hoid. eexists. split; [done|]. by case_match.
  - split_and!; [done|by eauto|]. intros oid o Hoid. edestruct (alter_keeps (certified certUrl)) as (o' & Ho' & [->| ->]); [exact Hoid|..]; eauto.
Qed.

Lemma answers_extends s s' token : extends s s' -> answers s token -> answers s' token.
Proof. intros (Hk & _) (kid & jwk & pub & sig & Hj & Hp). exists kid, jwk, pub, sig. split; [by apply Hk|done]. Qed.

Lemma backed_extends s s' o o' : extends s s' -> od_authzId o' = od_authzId o -> backed s o -> backed s' o'.
Proof.
  intros He E (cid & ch & Hc & Ha & Hans). destruct (proj1 (proj2 He) _ _ Hc) as (ch' & Hc' & Ht & Ha').
  exists cid, ch'. split_and!; [done|congruence|]. rewrite Ht. by eapply answers_extends.
Qed.

Lemma certified_extends s s' pem : extends s s' -> certified_by s pem -> certified_by s' pem.
Proof.
  intros He (oid & o & opts & leaf & Ho & Hb & Hi & Hs & Hrest). destruct (proj2 (proj2 He) _ _ Ho) as (o' & Ho' & Ea & Ei).
  exists oid, o', opts, leaf. split_and!; [done|by eapply backed_extends|done|congruence|apply Hrest..].
Qed.

(** An order that is not pending after a change was so before, or its challenge has
    just been answered. *)
Lemma order_change r s f oid o' : change r s f -> orders (f s) !! oid = Some o' -> od_status o' <> StatusPending ->
  (exists o, orders s !! oid = Some o /\ od_authzId o' = od_authzId o /\ od_status o <> StatusPending) \/
  (exists id ch, challenges s !! id = Some ch /\ ch_authzId ch = od_authzId o' /\ answers s (ch_token ch)).
Proof.
  intros Hc Ho Hst. destruct Hc as [| |id ch|id ch Hid Hans|env header id os leaf certId certUrl pem Er Hv Hos Hready];
    cbn [orders with_account new_order set_challenge_status challenge_passed issue_cert] in Ho; eauto.
  - apply lookup_insert_Some in Ho as [[_ <-]|[_ Ho]]; [done|eauto].
  - rewrite lookup_fmap in Ho. destruct (orders s !! oid) as [o|] eqn:Eo; [|done]. injection Ho as <-.
    destruct (String.eqb_spec (od_authzId o) (ch_authzId ch)) as [Ea|]; [|eauto]. right. by exists id, ch.
  - apply lookup_alter_Some in Ho as [(<- & o & Ho & ->)|[_ Ho]]; [|eauto]. left. exists o. split_and!; [done|done|]. rewrite Ho in Hos. injection Hos as ->. by rewrite Hready.
Qed.

Lemma certify_issues r env os leaf : certify CaNid CaKey CertValidity r env os = Ok leaf ->
  exists pub, IssueLeaf (leaf_options CaNid CaKey CertValidity r os pub) = Ok leaf.
Proof. unfold certify. repeat case_match; try done. intros [= <-]. eauto. Qed.

Lemma sound_change r s f : fresh r s -> change r s f -> sound s -> sound (f s).
Proof.
  intros Hf Hc [Ho Hp]. pose proof (extends_change r s f Hf Hc) as He. split.
  - intros oid o' Ho' Hst. destruct (order_change r s f oid o' Hc Ho' Hst) as [(o & Eo & Ea & Hs)|(id & ch & Hid & Ea & Hans)].
    + eapply backed_extends; [exact He|exact Ea|]. by eapply Ho.
    + destruct (proj1 (proj2 He) _ _ Hid) as (ch' & Hc' & Ht & Ha'). exists id, ch'.
      split_and!; [done|congruence|]. rewrite Ht. by eapply answers_extends.
  - intros cid pem Hcert. assert (Hold : certs s !! cid = Some pem -> certified_by (f s) pem) by eauto using certified_extends.
    destruct Hc as [| |id ch|id ch Hid Hans|env header id os leaf certId certUrl pem' Er Hv Hos Hready Hleaf -> ->]; try by apply Hold.
    cbn [certs issue_cert] in Hcert. apply lookup_insert_Some in Hcert as [[_ <-]|[_ Hcert]]; [|by apply Hold].
    apply certify_issues in Hleaf as [pub Hleaf]. eapply certified_extends; [exact He|].
    exists id, os. eexists _, leaf. split_and!; [done| |exact Hleaf|done..]. eapply Ho; [done|]. by rewrite Hready.
Qed.

Lemma sound_nonces N s : sound s -> sound (with_nonces N s).
Proof. done. Qed.

Lemma sound_serve r s resp s' : fresh r s -> serve r s = Some (resp, s') -> sound s -> sound s'.
Proof.
  intros Hf [(N & -> & _)|(f & n & N & Hc & _ & _ & -> & _)]%serve_effect Hs; apply sound_nonces; [done|by eapply sound_change].
Qed.

(** C34. Whatever is sent to the server, if the identifiers it draws are new ones, every
    certificate that it holds was issued by its authority, as an anonymous agent's and
    under the identifier of an order, and the token of a challenge for that order
    carries a signature under the key of a registered account. *)
Theorem certificates_backed rs s :
  serve_history rs NewServer = Some s -> fresh_history rs NewServer -> forall id pem, certs s !! id = Some pem -> certified_by s pem.
Proof.
  assert (Hall : forall s0, sound s0 -> serve_history rs s0 = Some s -> fresh_history rs s0 -> sound s).
  { induction rs as [|r rs IH]; intros s0 Hs0; cbn [serve_all fresh_history]; [by intros [= <-]|].
    destruct (serve r s0) as [[resp s1]|] eqn:Es; cbn; [|done]. intros Hh [Hf Hrest]. eapply IH; [|exact Hh|by eapply Hrest].
    by eapply sound_serve. }
  intros Hh Hf. apply (Hall NewServer); [|done|done]. split; [by intros ? ? ?|by intros ? ? ?].
Qed.
End Proofs.

(** ** Witnesses *)

(** Freshness along a history, computed. *)
Fixpoint toy_fresh (rs : list request) (s : Server) : bool :=
  match rs with
  | [] => true
  | r :: rs => bool_decide (accountJwks s !! account_of "" r = None) && bool_decide (orders s !! order_of r = None) &&
               bool_decide (challenges s !! challenge_of r = None) &&
               match ServeHTTP "ca" (Some []) [] 0 "" r s with Some (_, s) => toy_fresh rs s | None => true end
  end.

Lemma toy_fresh_history rs s : toy_fresh rs s = true -> fresh_history "ca" (Some []) [] 0 "" rs s.
Proof.
  revert s. induction rs as [|r rs IH]; intros s; cbn [toy_fresh fresh_history]; [done|]. intros Hf.
  repeat (apply andb_true_iff in Hf as [Hf ?]). split; [split_and!; by eapply bool_decide_eq_true|].
  intros resp s' Hs. rewrite Hs in *. by apply IH.
Qed.

Lemma certificates_backed_witness : exists s,
  toy_serve_all toy_history NewServer = Some s /\ certs s !! "crt-06" = Some "<nid><>" /\ certified_by "ca" (Some []) [] s "<nid><>".
Proof.
  exists (default NewServer (toy_serve_all toy_history NewServer)). split; [vm_compute; reflexivity|]. split; [vm_compute; reflexivity|].
  apply (certificates_backed "ca" (Some []) [] 0 "" toy_history) with (id := "crt-06"); [vm_compute; reflexivity|apply toy_fresh_history; vm_compute; reflexivity|].
  vm_compute. reflexivity.
Defined.

(** An account's request, and the same one when its nonce has been drawn again. *)
Definition toy_once : request := toy_register 0 (toy_key 1) (toy_randoms 0 1 0 0).
Definition toy_again : request := toy_register 0 (toy_key 1) (toy_randoms 0 2 0 0).

Definition toy_serve (r : request) (s : Server) : response * Server := default (problem 0 malformed malformed, s) (ServeHTTP "ca" (Some []) [] 0 "" r s).
Definition toy_step (r : request) (s : Server) : Server := (toy_serve r s).2.
Definition toy_start : Server := with_nonces {[ toy_nonce 0 ]} NewServer.

Lemma toy_acts r s : ServeHTTP "ca" (Some []) [] 0 "" r s = Some (toy_serve r s) -> size (accountJwks (toy_step r s)) <> size (accountJwks s) ->
  acts "ca" (Some []) [] 0 "" r s (toy_step r s).
Proof.
  intros E Hsz. split.
  - exists (toy_serve r s).1. rewrite E. unfold toy_step. by destruct (toy_serve r s).
  - intros Es. apply Hsz. by apply (f_equal (fun s => size (accountJwks s))) in Es.
Qed.

Lemma nonce_acts_once_witness :
  let s1 := toy_step toy_once toy_start in
  acts "ca" (Some []) [] 0 "" toy_once toy_start s1 /\ acts "ca" (Some []) [] 0 "" toy_again s1 (toy_step toy_again s1) /\
  exists q, q ∈ [toy_once] /\ request_nonce toy_once = Some (minted q).
Proof.
  cbv zeta.
  assert (H1 : acts "ca" (Some []) [] 0 "" toy_once toy_start (toy_step toy_once toy_start)) by (apply toy_acts; [vm_compute; reflexivity|vm_compute; discriminate]).
  assert (H2 : acts "ca" (Some []) [] 0 "" toy_again (toy_step toy_once toy_start) (toy_step toy_again (toy_step toy_once toy_start)))
    by (apply toy_acts; [vm_compute; reflexivity|vm_compute; discriminate]).
  split; [exact H1|]. split; [exact H2|].
  apply (nonce_acts_once "ca" (Some []) [] 0 "" toy_once toy_again [] _ _ _ _ H1 eq_refl H2). vm_compute. reflexivity.
Defined.
