(* ===== verification/NipAcmeClientProof.v ===== *)
(** * A client of the ACME server gets its certificate

    The client and the server of nip/acme together: a call that succeeds, and why one that
    fails is never followed by one that succeeds. *)

From S2P Require Import Prelude GoValue GoBase64 CoreCache NipPath NipFrames NipX509 NipAcme NipAcmeClient NipAcmeToy.

(** ** Text that JSON keeps *)

Lemma RawURL_ascii l : is_ascii (RawURL_Encode l) = true.
Proof.
  unfold RawURL_Encode, is_ascii, string_of. induction (b64_encode_range l) as [|v vs Hv _ IH]; [done|].
  cbn [fmap list_fmap String.string_of_list_ascii str_forall]. apply andb_true_iff. split; [|exact IH].
  assert (Hall : forallb (fun n => ascii_char (b64_char (Z.of_nat n))) (seq 0 64) = true) by (by vm_compute).
  rewrite forallb_forall in Hall. rewrite <- (Z2Nat.id v) by lia. apply Hall, in_seq. lia.
Qed.

Lemma hex_ascii l : is_ascii (hex_bytes l) = true.
Proof.
  assert (Hd : forall z, is_ascii (hex_lower z) = true).
  { intros z. unfold hex_lower. generalize (Z.to_nat z). intros n. do 16 (destruct n as [|n]; [done|]). by destruct n. }
  unfold is_ascii in *. induction l as [|b l IH]; [done|].
  change (hex_bytes (b :: l)) with (hex_lower (byte_z b / 16) +:+ hex_lower (byte_z b mod 16) +:+ hex_bytes l). by rewrite !str_forall_app, !Hd, IH.
Qed.

Lemma ascii_app a b : is_ascii a = true -> is_ascii b = true -> is_ascii (a +:+ b) = true.
Proof. unfold is_ascii. rewrite str_forall_app. by intros -> ->. Qed.

#[local] Hint Resolve RawURL_ascii hex_ascii ascii_app : acme.

Section Client.
Context `{X509} `{AcmeEnv} `{ClientEnv}.
Context (CaNid : string) (CaKey : option (list byte)) (CaRootRaw : list byte) (CertValidity : Z) (baseURL : string).

(** What [encoding/json], Ed25519 and [crypto/x509] document, on the values that client and
    server exchange: JSON keeps ASCII text. *)
Definition plain (h : ProtectedHeader) : Prop :=
  is_ascii (Alg h) = true /\ is_ascii (Nonce h) = true /\ is_ascii (h_URL h) = true /\ is_ascii (Kid h) = true /\
  (forall jwk, h_JWK h = Some jwk -> is_ascii (Kty jwk) = true /\ is_ascii (Crv jwk) = true /\ is_ascii (X_ jwk) = true).

Definition plain_identifier (i : Identifier) : Prop := is_ascii (idf_Type i) = true /\ is_ascii (idf_Value i) = true.
Definition plain_directory (d : Directory) : Prop := is_ascii (NewNonce d) = true /\ is_ascii (NewAccount d) = true /\ is_ascii (NewOrder d) = true.
Definition plain_order (o : Order) : Prop :=
  is_ascii (o_Status o) = true /\ Forall plain_identifier (o_Identifiers o) /\ Forall (fun a => is_ascii a = true) (o_Authorizations o) /\
  is_ascii (o_Finalize o) = true /\ is_ascii (o_Certificate o) = true.
Definition plain_challenge (c : Challenge) : Prop :=
  is_ascii (c_Type c) = true /\ is_ascii (c_URL c) = true /\ is_ascii (c_Status c) = true /\ is_ascii (c_Token c) = true.
Definition plain_authorization (a : Authorization) : Prop :=
  is_ascii (a_Status a) = true /\ plain_identifier (a_Identifier a) /\ Forall plain_challenge (a_Challenges a).

Record documented : Prop := {
  envelope_kept e : is_ascii (Protected e) = true -> is_ascii (Payload e) = true -> is_ascii (Signature e) = true ->
    unmarshal_envelope (marshal_envelope e) = Ok e;
  header_kept h : plain h -> unmarshal_header (marshal_header h) = Ok h;
  order_kept t v : is_ascii t = true -> is_ascii v = true ->
    unmarshal_order (marshal_payload (PNewOrder [MkIdentifier t v])) = Ok [MkIdentifier t v];
  respond_kept s : is_ascii s = true -> unmarshal_respond (marshal_payload (PChallengeRespond s)) = Ok s;
  finalize_kept s : is_ascii s = true -> unmarshal_finalize (marshal_payload (PFinalize s)) = Ok s;
  payload_text p : marshal_payload p <> [];
  signature_verifies key m : ed25519_Verify (PublicOf key) m (ed25519_Sign key m) = true;
  signature_bytes key m : ed25519_Sign key m <> [];
  public_size key : length (PublicOf key) = PublicKeySize;
  csr_kept cn uris key der : is_ascii cn = true -> CreateCertificateRequest cn uris key = Ok der ->
    der <> [] /\ ParseCertificateRequest der = Ok (MkCsr cn (Some (PublicOf key)));
  directory_read d : plain_directory d -> decode_Directory (BDirectory d) = Ok d;
  order_read o : plain_order o -> decode_Order (BOrder o) = Ok o;
  authorization_read a : plain_authorization a -> decode_Authorization (BAuthorization a) = Ok a;
  pem_read s : read_body (BPem s) = Ok s
}.

Context (Hdoc : documented) (key : list byte).

Definition account_jwk : JWK := MkJWK KtyOkp CrvEd25519 (B64uEncode (PublicOf key)).

Lemma B64u_roundtrip b : B64uDecode (B64uEncode b) = Ok b.
Proof. unfold B64uDecode, B64uEncode. by rewrite URL_pad_roundtrip. Qed.

Lemma B64u_nonempty b : b <> [] -> String.eqb (B64uEncode b) "" = false.
Proof. intros Hb. apply String.eqb_neq. destruct b as [|a b]; [done|apply RawURL_Encode_nonempty]. Qed.

Lemma account_jwk_key : PublicKeyFromJWK account_jwk = Ok (PublicOf key).
Proof. unfold PublicKeyFromJWK, account_jwk. cbn [Kty Crv X_]. cbn [String.eqb negb orb]. rewrite B64u_roundtrip, (public_size Hdoc). done. Qed.

Lemma JwkFromPublicKey_ok : JwkFromPublicKey (PublicOf key) = Ok account_jwk.
Proof. unfold JwkFromPublicKey. by rewrite (public_size Hdoc). Qed.

(** ** A signed request, as the server reads it *)

Lemma sign_ascii h p : is_ascii (Payload (Sign h p key)) = true.
Proof. unfold Sign. destruct p; cbn [Payload]; [apply RawURL_ascii|done]. Qed.

Lemma signed_read m path h p rn t : plain h ->
  readJoseRequest (MkRequest m path (Ok (marshal_envelope (Sign h p key))) rn t) = Ok (Sign h p key, h).
Proof.
  intros Hh. unfold readJoseRequest. cbn [Body]. rewrite (envelope_kept Hdoc) by (apply sign_ascii || apply RawURL_ascii).
  cbn [Protected Sign]. rewrite B64u_roundtrip. by rewrite (header_kept Hdoc).
Qed.

Lemma signed_verifies h p : plain h -> Verify (Sign h p key) (PublicOf key) = Ok h.
Proof.
  intros Hh. unfold Verify, Sign. cbn [Signature Protected Payload]. rewrite !B64u_roundtrip, (signature_verifies Hdoc). cbn [negb]. by rewrite (header_kept Hdoc).
Qed.

Lemma signed_payload {A} (zero : A) um h p a : um (marshal_payload p) = Ok a -> DecodePayload zero um (Sign h (Some p) key) = Ok a.
Proof. intros Hu. unfold DecodePayload, Sign. cbn [Payload]. by rewrite (B64u_nonempty _ (payload_text Hdoc p)), B64u_roundtrip. Qed.

(** The client's account is the server's, and it holds a nonce of the server. *)
Definition its_directory : Directory := MkDirectory (baseURL +:+ "/new-nonce") (baseURL +:+ "/new-account") (baseURL +:+ "/new-order").

Definition synced (c : Client) (s : Server) : Prop :=
  PrivateKey c = key /\ PublicKey c = PublicOf key /\ directory c = Some its_directory /\
  accountUrl c <> "" /\ is_ascii (accountUrl c) = true /\ accountJwks s !! accountUrl c = Some account_jwk /\
  is_ascii (lastNonce c) = true /\ lastNonce c ∈ nonces s.

Definition header_for (c : Client) (url : string) : ProtectedHeader := MkHeader AlgEdDSA (lastNonce c) url None (accountUrl c).

Lemma header_for_plain c s url : synced c s -> is_ascii url = true -> plain (header_for c url).
Proof. intros (_ & _ & _ & _ & Ha & _ & Hn & _) Hu. by split_and!. Qed.

Lemma authenticated_ok c s url p m path rn t ref : synced c s -> is_ascii url = true ->
  authenticated (MkRequest m path (Ok (marshal_envelope (Sign (header_for c url) p key))) rn t) ref s =
  (Ok (Sign (header_for c url) p key, header_for c url), with_nonces (nonces s ∖ {[ lastNonce c ]}) s).
Proof.
  intros Hs Hu. pose proof (header_for_plain c s url Hs Hu) as Hp. destruct Hs as (_ & _ & _ & Hne & _ & Hj & _ & Hn).
  unfold authenticated, bind, read_jose, get, check, ret, stop. rewrite signed_read by done. cbn [fst snd].
  unfold use_nonce, consumeNonce, bind, get. cbn [Nonce header_for]. rewrite bool_decide_eq_true_2 by done. cbn.
  unfold verifyAccount. cbn [Kid header_for]. apply String.eqb_neq in Hne as ->.
  assert (Hk : account_key (with_nonces (nonces s ∖ {[ lastNonce c ]}) s) (Sign (header_for c url) p key) (header_for c url) = Some (PublicOf key)).
  { unfold account_key. cbn [Kid header_for accountJwks with_nonces]. rewrite Hj. cbn [mbind option_bind]. by rewrite account_jwk_key, signed_verifies. }
  by rewrite Hk.
Qed.

(** ** What the server answers the client *)

Definition nonce_of (rn : randoms) : string := B64uEncode (r_nonce rn).

(** The server after a change, which the client's nonce paid for. *)
Definition paid (c : Client) (rn : randoms) (s : Server) : Server := with_nonces (nonces s ∖ {[ lastNonce c ]} ∪ {[ nonce_of rn ]}) s.

Abbreviation serve := (ServeHTTP CaNid CaKey CaRootRaw CertValidity baseURL).
Abbreviation client_request c url p path rn t := (MkRequest "POST" path (Ok (marshal_envelope (Sign (header_for c url) p key))) rn t).

Section Answers.
Context (c : Client) (s : Server) (url : string) (rn : randoms) (t : Z) (Hs : synced c s) (Hu : is_ascii url = true).

Lemma new_order_answer nid : is_ascii nid = true ->
  let r := client_request c url (Some (PNewOrder [MkIdentifier IdentifierTypeNID nid])) "/new-order" rn t in
  let ident := MkIdentifier IdentifierTypeNID nid in
  let orderId := "ord-" +:+ hex_bytes (r_id1 rn) in
  serve r s = Some (json 201 (baseURL +:+ "/order/" +:+ orderId) (nonce_of rn)
                      (BOrder (MkOrder StatusPending [ident] [authz_url baseURL ("az-" +:+ hex_bytes (r_id2 rn))] (baseURL +:+ "/finalize/" +:+ orderId) "")),
                    paid c rn (new_order baseURL r ident (accountUrl c) s)).
Proof.
  intros Hn. cbv zeta. unfold ServeHTTP. cbn [Path String.eqb Ascii.eqb Bool.eqb]. cbv iota. unfold run_handler, handleNewOrder, bind.
  rewrite authenticated_ok by done. cbn [fst snd]. by rewrite (signed_payload _ _ _ _ [MkIdentifier IdentifierTypeNID nid]) by by apply (order_kept Hdoc).
Qed.

Lemma authz_answer id az cid ch : authzs s !! id = Some az -> az_challengeIds az = [cid] -> challenges s !! cid = Some ch ->
  serve (client_request c url None ("/authz/" +:+ id) rn t) s =
  Some (json 200 "" (nonce_of rn) (BAuthorization (MkAuthorization (az_status az) (az_identifier az) [challenge_body baseURL ch])), paid c rn s).
Proof.
  intros Ha Hids Hc. change (serve (client_request c url None ("/authz/" +:+ id) rn t) s) with (handleAuthz baseURL (client_request c url None ("/authz/" +:+ id) rn t) s).
  unfold handleAuthz, bind. rewrite authenticated_ok by done. unfold get, found. cbn [authzs with_nonces].
  change (trimPath "/authz/" _) with id. rewrite Ha. cbn [ret]. rewrite Hids. cbn [mapM challenges with_nonces]. by rewrite Hc.
Qed.

Lemma challenge_answer id ch : challenges s !! id = Some ch ->
  serve (client_request c url (Some (PChallengeRespond (B64uEncode (ed25519_Sign key (bytes_of_string (ch_token ch)))))) ("/chall/" +:+ id) rn t) s =
  Some (json 200 "" (nonce_of rn) (BChallenge (challenge_body baseURL (ch_with_status StatusValid ch))), paid c rn (challenge_passed id ch s)).
Proof.
  intros Hc. set (p := Some (PChallengeRespond _)). set (r := client_request c url p ("/chall/" +:+ id) rn t).
  change (serve r s) with (Some (run_handler (handleChallenge baseURL r) s)). pose proof (header_for_plain c s url Hs Hu) as Hh.
  unfold run_handler, handleChallenge, bind, read_jose. unfold r at 1. rewrite signed_read by done. cbn [fst snd].
  destruct Hs as (_ & _ & _ & Hne & _ & Hj & _ & Hn). unfold use_nonce, consumeNonce, bind, get, found. cbn [Nonce header_for]. rewrite bool_decide_eq_true_2 by done.
  cbn [update ret check Kid header_for accountJwks with_nonces]. rewrite Hj. cbn [ret]. unfold try_. rewrite account_jwk_key. cbn [ret].
  rewrite signed_verifies by done. cbn [ret challenges with_nonces]. change (trimPath "/chall/" r) with id. rewrite Hc. cbn [ret]. unfold p.
  rewrite (signed_payload _ _ _ _ (B64uEncode (ed25519_Sign key (bytes_of_string (ch_token ch))))) by (apply (respond_kept Hdoc), RawURL_ascii).
  pose proof (B64u_nonempty _ (signature_bytes Hdoc key (bytes_of_string (ch_token ch)))) as Hne'.
  pose proof (B64u_roundtrip (ed25519_Sign key (bytes_of_string (ch_token ch)))) as Hr.
  destruct (B64uEncode (ed25519_Sign key _)) as [|a text]; [done|]. cbn [ret]. rewrite Hr. cbn [ret]. by rewrite (signature_verifies Hdoc).
Qed.

Lemma finalize_answer id o nid der leaf : orders s !! id = Some o -> od_status o = StatusReady -> idf_Value (od_identifier o) = nid ->
  is_ascii nid = true -> CreateCertificateRequest nid [nid] key = Ok der ->
  let r := client_request c url (Some (PFinalize (B64uEncode der))) ("/finalize/" +:+ id) rn t in
  IssueLeaf (leaf_options CaNid CaKey CertValidity r o (PublicOf key)) = Ok leaf ->
  let certId := "crt-" +:+ hex_bytes (r_id1 rn) in
  let certUrl := baseURL +:+ "/cert/" +:+ certId in
  serve r s = Some (json 200 "" (nonce_of rn) (BOrder (order_body baseURL (certified certUrl o))),
                    paid c rn (issue_cert id certId certUrl (pem_certificate (crt_Raw leaf) +:+ pem_certificate CaRootRaw) s)).
Proof.
  intros Ho Hst Hid Hnid (Hne & Hcsr)%(csr_kept Hdoc nid [nid] key der Hnid) r Hleaf certId certUrl.
  change (serve r s) with (Some (run_handler (handleFinalize CaNid CaKey CaRootRaw CertValidity baseURL r) s)).
  unfold run_handler, handleFinalize, bind. unfold r at 1. rewrite authenticated_ok by done. unfold get, found. cbn [orders with_nonces].
  change (trimPath "/finalize/" r) with id. rewrite Ho. cbn [ret]. rewrite Hst, String.eqb_refl. cbn [check ret fst snd].
  assert (Hce : certify CaNid CaKey CertValidity r (Sign (header_for c url) (Some (PFinalize (B64uEncode der))) key) o = Ok leaf).
  { unfold certify. rewrite (signed_payload _ _ _ _ (B64uEncode der)) by (apply (finalize_kept Hdoc), RawURL_ascii).
    pose proof (B64u_nonempty _ Hne) as Hne'. pose proof (B64u_roundtrip der) as Hr. destruct (B64uEncode der) as [|a text]; [done|].
    rewrite Hr, Hcsr. cbn [csr_CommonName csr_Ed25519]. rewrite Hid, String.eqb_refl. cbn [negb]. by rewrite Hleaf. }
  by rewrite Hce.
Qed.

Lemma cert_answer id pem : certs s !! id = Some pem ->
  serve (client_request c url None ("/cert/" +:+ id) rn t) s = Some (MkResponse 200 ContentTypePemCert "" (nonce_of rn) (BPem pem), paid c rn s).
Proof.
  intros Hc. set (r := client_request c url None ("/cert/" +:+ id) rn t). change (serve r s) with (Some (run_handler (handleCert r) s)).
  unfold run_handler, handleCert, bind. unfold r at 1. rewrite authenticated_ok by done. unfold get, found. cbn [certs with_nonces].
  change (trimPath "/cert/" r) with id. by rewrite Hc.
Qed.
End Answers.

(** ** The client's stages *)

#[local] Instance transport : Transport world := server_transport CaNid CaKey CaRootRaw CertValidity baseURL.

(** Characters that need no escape in a URL. *)
Definition path_char (a : Ascii.ascii) : bool :=
  let z := char_z a in ((97 <=? z) && (z <=? 122)) || ((48 <=? z) && (z <=? 57)) || (z =? 45) || (z =? 47).
Definition path_ok (s : string) : bool := str_forall path_char s.

Context (Hbase : is_ascii baseURL = true) (Hurl : forall path, path_ok path = true -> NewRequest_error (baseURL +:+ path) = None).

Lemma path_ascii s : path_ok s = true -> is_ascii s = true.
Proof. apply str_forall_impl. intros a. unfold path_char, ascii_char. intros Ha. bool_hyps. apply Z.ltb_lt. lia. Qed.

Lemma hex_path p l : path_ok p = true -> path_ok (p +:+ hex_bytes l) = true.
Proof.
  intros Hp. unfold path_ok in *. rewrite str_forall_app, Hp. cbn [andb].
  assert (Hd : forall z, str_forall path_char (hex_lower z) = true \/ hex_lower z = "?").
  { intros z. unfold hex_lower. generalize (Z.to_nat z). intros n. do 16 (destruct n as [|n]; [by left|]). right. by destruct n. }
  assert (Hb : forall b, str_forall path_char (hex_lower (byte_z b / 16)) = true /\ str_forall path_char (hex_lower (byte_z b mod 16)) = true).
  { intros b. assert (Hall : forallb (fun n => str_forall path_char (hex_lower (Z.of_nat n))) (seq 0 16) = true) by (by vm_compute).
    rewrite forallb_forall in Hall. pose proof (byte_z_range b).
    assert (Hz : forall z, 0 <= z < 16 -> str_forall path_char (hex_lower z) = true).
    { intros z Hz. rewrite <- (Z2Nat.id z) by lia. apply Hall, in_seq. lia. }
    split; apply Hz; [|by apply Z.mod_pos_bound]. split; [by apply Z.div_pos; lia|]. apply Z.div_lt_upper_bound; lia. }
  induction l as [|b l IH]; [done|].
  change (hex_bytes (b :: l)) with (hex_lower (byte_z b / 16) +:+ hex_lower (byte_z b mod 16) +:+ hex_bytes l).
  destruct (Hb b) as [E1 E2]. by rewrite !str_forall_app, E1, E2, IH.
Qed.

Lemma id_path p q l : path_ok p = true -> path_ok q = true -> path_ok (p +:+ q +:+ hex_bytes l) = true.
Proof. intros Hp Hq. unfold path_ok in *. rewrite str_forall_app, Hp. by apply hex_path. Qed.

Lemma sbind_ok {A B} (m : stage (W := world) A) (k : A -> stage (W := world) B) st a st' : m st = Some (Ok a, st') -> sbind m k st = k a st'.
Proof. unfold sbind. by intros ->. Qed.

Lemma sbind_self {B} (k : Client -> stage (W := world) B) c w : sbind self k (c, w) = k c (c, w).
Proof. done. Qed.

Lemma send_ok c s draw k method path b resp s' :
  serve (MkRequest method path (Ok (default "" b)) (draw k).1 (draw k).2) s = Some (resp, s') ->
  send method (baseURL +:+ path) b (c, (s, draw, k)) = Some (Ok (resp, baseURL +:+ path), (c, (s', draw, S k))).
Proof.
  intros Hs. unfold send, http_Do, transport, server_transport. cbn [snd fst]. rewrite (proj2 (cut_prefix_Some baseURL _ path) eq_refl). by rewrite Hs.
Qed.

Lemma post_ok c s draw k path env resp s' : path_ok path = true ->
  serve (MkRequest "POST" path (Ok (marshal_envelope env)) (draw k).1 (draw k).2) s = Some (resp, s') ->
  post (baseURL +:+ path) env (c, (s, draw, k)) = Some (Ok (resp, baseURL +:+ path), (c, (s', draw, S k))).
Proof. intros Hp Hs. unfold post. rewrite Hurl by done. erewrite sbind_ok by done. by apply send_ok. Qed.

Lemma success_ok r (st : Client * world) : 200 <= Status r.1 < 300 -> ensureSuccess r st = Some (Ok tt, st).
Proof. intros Hst. unfold ensureSuccess. by rewrite (proj2 (Z.leb_le _ _)), (proj2 (Z.ltb_lt _ _)) by lia. Qed.

Lemma capture_ok resp c (w : world) : ReplayNonce resp <> "" -> captureNonce resp (c, w) = Some (Ok tt, (with_lastNonce (ReplayNonce resp) c, w)).
Proof. intros Hn. unfold captureNonce. by apply String.eqb_neq in Hn as ->. Qed.

Lemma signed_post_ok c s draw k path p resp s' : synced c s -> path_ok path = true ->
  serve (client_request c (baseURL +:+ path) p path (draw k).1 (draw k).2) s = Some (resp, s') ->
  200 <= Status resp < 300 -> ReplayNonce resp <> "" ->
  signed_post (baseURL +:+ path) p (c, (s, draw, k)) = Some (Ok resp, (with_lastNonce (ReplayNonce resp) c, (s', draw, S k))).
Proof.
  intros Hsy Hp Hs Hst Hn. unfold signed_post. rewrite sbind_self, (proj1 Hsy).
  erewrite sbind_ok by by eapply post_ok. erewrite sbind_ok by by apply success_ok. erewrite sbind_ok by by apply capture_ok. done.
Qed.

(** ** A call that succeeds *)

Section Flow.
Context (draw : nat -> randoms * Z) (Hdraw : forall k, r_nonce (draw k).1 <> []).
Context (nid : string) (der : list byte) (Hnid : is_ascii nid = true) (Hparse : url_Parse nid = Ok nid)
  (Hcsr : CreateCertificateRequest nid [nid] key = Ok der).

Definition after (c : Client) (k : nat) : Client := with_lastNonce (nonce_of (draw k).1) c.

Lemma drawn_nonce k : nonce_of (draw k).1 <> "".
Proof. apply String.eqb_neq, B64u_nonempty, Hdraw. Qed.

Lemma synced_after c s s1 k : synced c s -> accountJwks s1 = accountJwks s -> synced (after c k) (paid c (draw k).1 s1).
Proof.
  intros (H1' & H2' & H3' & H4' & H5' & H6' & H7' & H8') E. unfold after, paid. split_and!; try done.
  - cbn [accountJwks with_nonces accountUrl with_lastNonce]. by rewrite E.
  - apply RawURL_ascii.
  - cbn [nonces with_nonces lastNonce with_lastNonce]. set_solver.
Qed.

Definition order_id (k : nat) : string := "ord-" +:+ hex_bytes (r_id1 (draw k).1).
Definition authz_id (k : nat) : string := "az-" +:+ hex_bytes (r_id2 (draw k).1).
Definition chall_id (k : nat) : string := "ch-" +:+ hex_bytes (r_id3 (draw k).1).
Definition cert_id (k : nat) : string := "crt-" +:+ hex_bytes (r_id1 (draw k).1).
Definition the_identifier : Identifier := MkIdentifier IdentifierTypeNID nid.
Definition request_at (k : nat) : request := MkRequest "" "" (Ok "") (draw k).1 (draw k).2.

Lemma the_directory_ok c (w : world) : directory c = Some its_directory -> the_directory (c, w) = Some (Ok its_directory, (c, w)).
Proof. intros Hd. unfold the_directory. rewrite sbind_self. by rewrite Hd. Qed.

Lemma newOrder_ok c s k : synced c s ->
  newOrder nid (c, (s, draw, k)) =
  Some (Ok (MkOrder StatusPending [the_identifier] [authz_url baseURL (authz_id k)] (baseURL +:+ "/finalize/" +:+ order_id k) ""),
        (after c k, (paid c (draw k).1 (new_order baseURL (request_at k) the_identifier (accountUrl c) s), draw, S k))).
Proof.
  intros Hs. unfold newOrder. erewrite sbind_ok by by apply the_directory_ok, Hs. cbn [NewOrder its_directory].
  erewrite sbind_ok;
    [|eapply signed_post_ok; [done|done|apply new_order_answer; [done|by apply ascii_app|done]|done|apply drawn_nonce]].
  unfold wrapped, lift. cbn [r_body json]. rewrite (order_read Hdoc); [done|].
  unfold plain_order, plain_identifier. cbn [o_Status o_Identifiers o_Authorizations o_Finalize o_Certificate]. split_and!; [done| | | |done].
  - by apply Forall_singleton.
  - apply Forall_singleton, ascii_app; [done|]. apply path_ascii. by apply (id_path "/authz/" "az-").
  - apply ascii_app; [done|]. apply path_ascii. by apply (id_path "/finalize/" "ord-").
Qed.

Lemma fetchAuthz_ok c s k id az cid ch : synced c s -> path_ok ("/authz/" +:+ id) = true ->
  authzs s !! id = Some az -> az_challengeIds az = [cid] -> challenges s !! cid = Some ch ->
  plain_authorization (MkAuthorization (az_status az) (az_identifier az) [challenge_body baseURL ch]) ->
  fetchAuthz (authz_url baseURL id) (c, (s, draw, k)) =
  Some (Ok (MkAuthorization (az_status az) (az_identifier az) [challenge_body baseURL ch]), (after c k, (paid c (draw k).1 s, draw, S k))).
Proof.
  intros Hs Hp Ha Hids Hc Hpl. unfold fetchAuthz, authz_url.
  erewrite sbind_ok;
    [|eapply signed_post_ok; [done|done|eapply authz_answer; [done|by apply ascii_app, path_ascii|done..]|done|apply drawn_nonce]].
  unfold wrapped, lift. cbn [r_body json]. by rewrite (authorization_read Hdoc _ Hpl).
Qed.

Lemma respondAgent01_ok c s k st idf ch : synced c s -> path_ok ("/chall/" +:+ ch_id ch) = true ->
  challenges s !! ch_id ch = Some ch -> ch_typ ch = ChallengeAgent01 ->
  respondAgent01 (MkAuthorization st idf [challenge_body baseURL ch]) (c, (s, draw, k)) =
  Some (Ok tt, (after c k, (paid c (draw k).1 (challenge_passed (ch_id ch) ch s), draw, S k))).
Proof.
  intros Hs Hp Hc Ht. unfold respondAgent01. cbn [a_Challenges List.find challenge_body c_Type]. rewrite Ht, String.eqb_refl. 
  rewrite sbind_self, (proj1 Hs). cbn [c_URL c_Token challenge_body]. unfold chall_url.
  erewrite sbind_ok;
    [|eapply signed_post_ok; [done|done|apply challenge_answer; [done|by apply ascii_app, path_ascii|done]|done|apply drawn_nonce]].
  done.
Qed.

Lemma finalizeOrder_ok c s k id o order leaf : synced c s -> path_ok ("/finalize/" +:+ id) = true ->
  is_ascii (od_authzId o) = true -> is_ascii (od_finalizeUrl o) = true -> plain_identifier (od_identifier o) ->
  o_Finalize order = baseURL +:+ "/finalize/" +:+ id -> orders s !! id = Some o -> od_status o = StatusReady -> idf_Value (od_identifier o) = nid ->
  IssueLeaf (leaf_options CaNid CaKey CertValidity (request_at k) o (PublicOf key)) = Ok leaf ->
  let certUrl := baseURL +:+ "/cert/" +:+ cert_id k in
  finalizeOrder order nid (c, (s, draw, k)) =
  Some (Ok (order_body baseURL (certified certUrl o)),
        (after c k, (paid c (draw k).1 (issue_cert id (cert_id k) certUrl (pem_certificate (crt_Raw leaf) +:+ pem_certificate CaRootRaw) s), draw, S k))).
Proof.
  intros Hs Hp Haz Hfu Hpi Hf Ho Hst Hid Hl certUrl. unfold finalizeOrder. rewrite sbind_self, (proj1 Hs). unfold buildCsr. rewrite Hparse, Hcsr.
  erewrite sbind_ok by done. rewrite Hf.
  erewrite sbind_ok;
    [|eapply signed_post_ok; [done|done|eapply finalize_answer; [done|by apply ascii_app, path_ascii|done..]|done|apply drawn_nonce]].
  unfold wrapped, lift. cbn [r_body json]. rewrite (order_read Hdoc); [done|].
  unfold plain_order. cbn [order_body certified o_Status o_Identifiers o_Authorizations o_Finalize o_Certificate od_status od_identifier od_authzId od_finalizeUrl
    od_certificateUrl]. split_and!; [done|by apply Forall_singleton| |done|].
  - by apply Forall_singleton, ascii_app, ascii_app.
  - apply ascii_app; [done|]. apply path_ascii. by apply (id_path "/cert/" "crt-").
Qed.

Lemma downloadPem_ok c s k id pem : synced c s -> path_ok ("/cert/" +:+ id) = true -> certs s !! id = Some pem ->
  downloadPem (baseURL +:+ "/cert/" +:+ id) (c, (s, draw, k)) = Some (Ok pem, (after c k, (paid c (draw k).1 s, draw, S k))).
Proof.
  intros Hs Hp Hc. unfold downloadPem. erewrite sbind_ok;
    [|eapply signed_post_ok; [done|done|eapply cert_answer; [done|by apply ascii_app, path_ascii|done]|done|apply drawn_nonce]].
  unfold lift. cbn [r_body]. by rewrite (pem_read Hdoc).
Qed.

(** The certificate that a call returns. *)
Definition issued (pem : string) : Prop :=
  exists opts leaf, IssueLeaf opts = Ok leaf /\ SubjectNID opts = nid /\ SubjectPublicKey opts = Some (PublicOf key) /\
    IssuerNID opts = CaNid /\ CAPrivateKey opts = CaKey /\ pem = pem_certificate (crt_Raw leaf) +:+ pem_certificate CaRootRaw.

Context (Hleaf : forall r o, idf_Value (od_identifier o) = nid ->
  exists leaf, IssueLeaf (leaf_options CaNid CaKey CertValidity r o (PublicOf key)) = Ok leaf).

Lemma plain_authz k acc : let ch := MkChallengeState (chall_id k) ChallengeAgent01 StatusPending (B64uEncode (r_token (draw k).1)) (authz_id k) acc in
  plain_authorization (MkAuthorization StatusPending the_identifier [challenge_body baseURL ch]).
Proof.
  split_and!; [done|by split|]. apply Forall_singleton. split_and!; [done| |done|apply RawURL_ascii].
  apply ascii_app; [done|]. apply path_ascii. by apply (id_path "/chall/" "ch-").
Qed.

Lemma order_certificate_ok c s k : synced c s ->
  exists pem c' s', order_certificate nid (c, (s, draw, k)) = Some (Ok pem, (c', (s', draw, 5 + k)%nat)) /\ issued pem /\ synced c' s'.
Proof.
  intros Hs. unfold order_certificate. rewrite (sbind_ok _ _ _ _ _ (newOrder_ok c s k Hs)). cbn [o_Authorizations].
  set (s1 := paid c _ _). assert (Hs1 : synced (after c k) s1) by (by eapply synced_after). erewrite sbind_ok by done.
  erewrite sbind_ok; [|eapply (fetchAuthz_ok _ s1); [done|by apply id_path|apply lookup_insert_eq|done|apply lookup_insert_eq|apply plain_authz]].
  set (s2 := paid _ _ s1). assert (Hs2 : synced (after (after c k) (S k)) s2) by (by eapply synced_after).
  cbn [az_status az_identifier]. set (ch := MkChallengeState _ _ _ _ _ _).
  erewrite sbind_ok; [|eapply (respondAgent01_ok _ s2 _ _ _ ch); [done|by apply id_path|apply lookup_insert_eq|done]].
  set (s3 := paid _ _ (challenge_passed _ _ s2)). assert (Hs3 : synced (after (after (after c k) (S k)) (S (S k))) s3) by (by eapply synced_after).
  set (o := MkOrderState (order_id k) (authz_id k) (baseURL +:+ "/finalize/" +:+ order_id k) (accountUrl c) the_identifier StatusReady "").
  assert (Ho : orders s3 !! order_id k = Some o).
  { unfold s3, paid. cbn [orders with_nonces challenge_passed]. rewrite lookup_fmap. change (orders s2) with (orders s1). unfold s1, paid. cbn [orders with_nonces new_order].
    rewrite lookup_insert_eq. cbn [fmap option_fmap option_map od_authzId ch_authzId ch]. by rewrite String.eqb_refl. }
  destruct (Hleaf (request_at (3 + k)) o eq_refl) as [leaf Hl].
  assert (Haz : is_ascii (od_authzId o) = true) by (by apply path_ascii, (hex_path "az-")).
  assert (Hfu : is_ascii (od_finalizeUrl o) = true) by (apply ascii_app; [done|]; apply path_ascii; by apply (id_path "/finalize/" "ord-")).
  erewrite sbind_ok; [|eapply (finalizeOrder_ok _ s3 _ (order_id k) o); [done|by apply id_path|done|done|by split|done|done|done|done|exact Hl]].
  set (s4 := paid _ _ (issue_cert _ _ _ _ s3)). cbn [o_Certificate order_body od_certificateUrl certified].
  assert (Hs4 : synced (after (after (after (after c k) (S k)) (S (S k))) (S (S (S k)))) s4) by (by eapply synced_after).
  eexists _, _, _. split_and!; [eapply (downloadPem_ok _ s4); [done|by apply id_path|apply lookup_insert_eq]| |by eapply synced_after].
  by eexists _, leaf.
Qed.

(** *** The first call *)

Definition new_client : Client := NewClient (baseURL +:+ "/directory") key.

Lemma ensureDirectory_ok s k :
  ensureDirectory (new_client, (s, draw, k)) =
  Some (Ok tt, (with_lastNonce (nonce_of (draw (S k)).1) (with_directory its_directory new_client),
                (with_nonces (nonces s ∪ {[ nonce_of (draw (S k)).1 ]}) s, draw, 2 + k)%nat)).
Proof.
  unfold ensureDirectory. rewrite sbind_self. cbn [directory new_client NewClient DirectoryURL].
  erewrite sbind_ok; [|unfold wrapped; by erewrite send_ok]. cbn [fst Status json Z.eqb Pos.eqb negb r_body].
  erewrite sbind_ok; [|unfold wrapped, lift; by rewrite (directory_read Hdoc) by by split_and!; apply ascii_app]. erewrite sbind_ok by done. cbn [fst snd].
  unfold refreshNonce. erewrite sbind_ok by by apply the_directory_ok. cbn [NewNonce its_directory]. rewrite Hurl by done. erewrite sbind_ok by done.
  erewrite sbind_ok; [|unfold wrapped; by erewrite send_ok]. erewrite sbind_ok by done.
  match goal with |- (if ?b then _ else _) _ = _ => change b with (String.eqb (nonce_of (draw (S k)).1) "") end.
  by rewrite (proj2 (String.eqb_neq _ _) (drawn_nonce (S k))).
Qed.

Definition account_url (k : nat) : string := baseURL +:+ "/account/" +:+ "acc-" +:+ hex_bytes (r_id1 (draw k).1).

Lemma app_nonempty a b c : a +:+ String b c <> "".
Proof. by destruct a. Qed.

Lemma account_url_nonempty k : account_url k <> "".
Proof. apply app_nonempty. Qed.

Lemma newAccount_ok c s k :
  PrivateKey c = key -> PublicKey c = PublicOf key -> directory c = Some its_directory -> is_ascii (lastNonce c) = true -> lastNonce c ∈ nonces s ->
  exists s', newAccount (c, (s, draw, k)) = Some (Ok tt, (with_lastNonce (nonce_of (draw k).1) (with_accountUrl (account_url k) c), (s', draw, S k))) /\
    synced (with_lastNonce (nonce_of (draw k).1) (with_accountUrl (account_url k) c)) s'.
Proof.
  intros Hk Hpub Hd Ha Hn. eexists. split.
  - unfold newAccount. rewrite sbind_self, Hpub, JwkFromPublicKey_ok. erewrite sbind_ok by done. erewrite sbind_ok by by apply the_directory_ok.
    rewrite Hk. set (h := MkHeader _ _ _ _ _). assert (Hh : plain h).
    { unfold plain, h. cbn [Alg Nonce h_URL Kid h_JWK]. split_and!; try done; [by apply ascii_app|]. intros jwk [= <-]. split_and!; [done|done|apply RawURL_ascii]. }
    erewrite sbind_ok; [|eapply post_ok; [done|]].
    2: { cbn [NewAccount its_directory]. set (r := MkRequest _ _ _ _ _). change (serve r s) with (Some (run_handler (handleNewAccount baseURL r) s)).
         unfold run_handler, handleNewAccount, bind, read_jose. unfold r at 1. rewrite signed_read by done. unfold found. cbn [fst snd h_JWK h ret].
         unfold use_nonce, consumeNonce, bind, get. cbn [Nonce h]. rewrite bool_decide_eq_true_2 by done. cbn [update ret check].
         unfold try_. rewrite account_jwk_key. cbn [ret]. rewrite signed_verifies by done. reflexivity. }
    erewrite sbind_ok by by apply success_ok. erewrite sbind_ok by done. cbn [fst snd Location json rnd].
    match goal with |- (if ?b then _ else _) _ = _ => change b with (String.eqb (account_url k) "") end.
    rewrite (proj2 (String.eqb_neq _ _) (account_url_nonempty k)). apply capture_ok, drawn_nonce.
  - split_and!; [done|done|done|apply account_url_nonempty| |apply lookup_insert_eq|apply RawURL_ascii|].
    + cbn [accountUrl with_lastNonce with_accountUrl]. apply ascii_app; [done|]. apply path_ascii. by apply (id_path "/account/" "acc-").
    + cbn. set_solver.
Qed.

(** A client of the server: a new one, or one that has been served before. *)
Definition usable (c : Client) (s : Server) : Prop := c = new_client \/ synced c s.

(** A new client asks for the directory, a nonce and an account first. *)
Definition requests_of (c : Client) : nat := match directory c with None => 8 | Some _ => 5 end.

Lemma agent_cert_ok c s k : usable c s ->
  exists pem c' s', IssueAgentCert nid (c, (s, draw, k)) = Some (Ok pem, (c', (s', draw, requests_of c + k)%nat)) /\ issued pem /\ synced c' s'.
Proof.
  intros [-> | Hs]; unfold IssueAgentCert.
  - erewrite sbind_ok by apply ensureDirectory_ok. rewrite sbind_self. cbn [accountUrl with_lastNonce with_directory new_client NewClient String.eqb].
    edestruct newAccount_ok as (s1 & E & Hs1); [..|erewrite sbind_ok by exact E]; try done; [apply RawURL_ascii|cbn; set_solver|].
    destruct (order_certificate_ok _ _ (3 + k) Hs1) as (pem & c' & s' & E' & Hi & Hs'). eauto 10.
  - unfold requests_of. rewrite (proj1 (proj2 (proj2 Hs))). erewrite sbind_ok; [|unfold ensureDirectory; rewrite sbind_self; by rewrite (proj1 (proj2 (proj2 Hs)))].
    rewrite sbind_self. rewrite (proj2 (String.eqb_neq _ _) (proj1 (proj2 (proj2 (proj2 Hs))))). erewrite sbind_ok by done.
    destruct (order_certificate_ok _ _ k Hs) as (pem & c' & s' & E' & Hi & Hs'). eauto 10.
Qed.
End Flow.

(** C36. A client that talks to the server gets a certificate for the NID that it asks for,
    from its first call or a later one. A new client sends eight requests: one for the
    directory, one for a nonce, and six under its signature, which carry it through its
    account, an order, the authorization, the challenge, the signing request and the
    download; a client that was served before sends the last five. What it returns is
    the leaf that the authority issued for its key, with the root; and the client and
    the server are left in a state where the next call succeeds too. This is for an
    ASCII NID that parses as a URL, an ASCII base address under which the client can
    build its requests, a server whose random nonces are not empty and whose authority
    issues a leaf for the NID and the key, and a client that can create the signing
    request; JSON keeps the ASCII values that are exchanged, and signatures verify
    ([documented]). *)
Theorem client_gets_certificate draw nid der c s k :
  (forall k, r_nonce (draw k).1 <> []) -> is_ascii nid = true -> url_Parse nid = Ok nid -> CreateCertificateRequest nid [nid] key = Ok der ->
  (forall r o, idf_Value (od_identifier o) = nid -> exists leaf, IssueLeaf (leaf_options CaNid CaKey CertValidity r o (PublicOf key)) = Ok leaf) ->
  usable c s ->
  exists pem c' s' k', IssueAgentCert nid (c, (s, draw, k)) = Some (Ok pem, (c', (s', draw, k'))) /\ issued nid pem /\ usable c' s' /\
    (c = new_client -> k' = k + 8)%nat /\ (c <> new_client -> k' = k + 5)%nat.
Proof.
  intros Hd Hn Hp Hc Hl Hu. destruct (agent_cert_ok draw Hd nid der Hn Hp Hc Hl c s k Hu) as (pem & c' & s' & E & Hi & Hs').
  exists pem, c', s', (requests_of c + k)%nat. split_and!; [done|done|by right| |].
  - intros ->. cbn. lia.
  - destruct Hu as [->|(_ & _ & Hdir & _)]; [done|]. intros _. unfold requests_of. rewrite Hdir. lia.
Qed.

(** *** A call that fails *)

Definition refused_nonce : response := problem 400 badNonce "invalid nonce".

Lemma new_order_refused r env h s : Path r = "/new-order" -> readJoseRequest r = Ok (env, h) -> Nonce h ∉ nonces s -> serve r s = Some (refused_nonce, s).
Proof.
  intros Hp Er Hn. unfold ServeHTTP. rewrite Hp. cbn [String.eqb Ascii.eqb Bool.eqb]. cbv iota.
  unfold run_handler, handleNewOrder, authenticated, bind, read_jose. rewrite Er. cbn [fst snd]. unfold use_nonce, consumeNonce, bind, get.
  by rewrite bool_decide_eq_false_2.
Qed.

Lemma new_account_refused r env h s : Path r = "/new-account" -> readJoseRequest r = Ok (env, h) -> is_Some (h_JWK h) -> Nonce h ∉ nonces s ->
  serve r s = Some (refused_nonce, s).
Proof.
  intros Hp Er [jwk Hj] Hn. unfold ServeHTTP. rewrite Hp. cbn [String.eqb Ascii.eqb Bool.eqb]. cbv iota.
  unfold run_handler, handleNewAccount, bind, read_jose. rewrite Er. cbn [fst snd]. rewrite Hj. cbn [found ret]. unfold use_nonce, consumeNonce, bind, get.
  by rewrite bool_decide_eq_false_2.
Qed.

Lemma sbind_err {A B} (m : stage (W := world) A) (k : A -> stage (W := world) B) st e st' : m st = Some (Err e, st') -> sbind m k st = Some (Err e, st').
Proof. unfold sbind. by intros ->. Qed.

Definition refusal (path : string) : string := "ACME " +:+ (baseURL +:+ path) +:+ " HTTP " +:+ fmt_d 400.

Lemma refused_call draw c s k nid :
  PrivateKey c = key -> PublicKey c = PublicOf key -> directory c = Some its_directory ->
  is_ascii (lastNonce c) = true -> is_ascii (accountUrl c) = true -> lastNonce c ∉ nonces s ->
  exists e, IssueAgentCert nid (c, (s, draw, k)) = Some (Err e, (c, (s, draw, S k))).
Proof.
  intros Hk Hpub Hd Ha Hu Hn. unfold IssueAgentCert. erewrite sbind_ok; [|unfold ensureDirectory; rewrite sbind_self; by rewrite Hd]. rewrite sbind_self.
  destruct (String.eqb_spec (accountUrl c) "") as [E|E].
  - exists (refusal "/new-account"). apply sbind_err. unfold newAccount. rewrite sbind_self, Hpub, JwkFromPublicKey_ok.
    erewrite sbind_ok by done. erewrite sbind_ok by by apply the_directory_ok. rewrite Hk.
    erewrite sbind_ok; [|eapply post_ok; [done|eapply new_account_refused; [done|apply signed_read|by eexists|done]]].
    + by apply sbind_err.
    + unfold plain. cbn [Alg Nonce h_URL Kid h_JWK]. split_and!; try done; [by apply ascii_app|]. intros jwk [= <-]. split_and!; [done|done|apply RawURL_ascii].
  - exists (refusal "/new-order"). erewrite sbind_ok by done. unfold order_certificate. apply sbind_err. unfold newOrder.
    erewrite sbind_ok by by apply the_directory_ok. apply sbind_err. unfold signed_post. rewrite sbind_self, Hk.
    erewrite sbind_ok; [|eapply post_ok; [done|eapply new_order_refused; [done|apply signed_read|done]]].
    + by apply sbind_err.
    + unfold plain. cbn [Alg Nonce h_URL Kid h_JWK header_for]. split_and!; try done. by apply ascii_app.
Qed.

(** The errors of successive calls, as long as there are only errors. *)
Inductive failing : list string -> Client * world -> Client * world -> Prop :=
| failing_nil st : failing [] st st
| failing_cons nid nids st st1 st2 e : IssueAgentCert nid st = Some (Err e, st1) -> failing nids st1 st2 -> failing (nid :: nids) st st2.

(** A client whose nonce is spent never gets another certificate: every further call, for
    whatever NIDs, is refused for its nonce, and as a refusal carries no new nonce and
    the client asks for one only once, nothing changes. *)
Theorem spent_nonce_sticks draw c s k nids :
  PrivateKey c = key -> PublicKey c = PublicOf key -> directory c = Some its_directory ->
  is_ascii (lastNonce c) = true -> is_ascii (accountUrl c) = true -> lastNonce c ∉ nonces s ->
  failing nids (c, (s, draw, k)) (c, (s, draw, length nids + k)%nat).
Proof.
  intros Hk Hpub Hd Ha Hu Hn. revert k. induction nids as [|nid nids IH]; intros k; [constructor|].
  destruct (refused_call draw c s k nid Hk Hpub Hd Ha Hu Hn) as [e He]. econstructor; [exact He|].
  cbn [length]. rewrite Nat.add_succ_comm. apply IH.
Qed.

(** *** Whose order it is *)

Definition answer_request (c : Client) (cid : string) (ch : challengeState) (rn : randoms) (t : Z) : request :=
  client_request c (chall_url baseURL cid) (Some (PChallengeRespond (B64uEncode (ed25519_Sign key (bytes_of_string (ch_token ch)))))) ("/chall/" +:+ cid) rn t.
Definition finalize_request (c : Client) (id : string) (der : list byte) (rn : randoms) (t : Z) : request :=
  client_request c (baseURL +:+ "/finalize/" +:+ id) (Some (PFinalize (B64uEncode der))) ("/finalize/" +:+ id) rn t.

(** Whoever has an account is given a certificate under the identifier of any order, for
    a key of its own, with two requests: neither the account that placed the order nor
    the state the order is in is looked at, and a signature with the key of the
    account that sends it answers the challenge. *)
Theorem any_account_is_certified c s id o cid ch der rn t rn' t' leaf :
  let c' := with_lastNonce (nonce_of rn) c in
  let r := answer_request c cid ch rn t in
  let r' := finalize_request c' id der rn' t' in
  synced c s -> orders s !! id = Some o -> challenges s !! cid = Some ch -> ch_authzId ch = od_authzId o ->
  is_ascii id = true -> is_ascii cid = true -> is_ascii (idf_Value (od_identifier o)) = true ->
  CreateCertificateRequest (idf_Value (od_identifier o)) [idf_Value (od_identifier o)] key = Ok der ->
  IssueLeaf (leaf_options CaNid CaKey CertValidity r' (od_with_status StatusReady o) (PublicOf key)) = Ok leaf ->
  exists resp s1 resp' s2, serve r s = Some (resp, s1) /\ serve r' s1 = Some (resp', s2) /\ Status resp' = 200 /\
    certs s2 !! ("crt-" +:+ hex_bytes (r_id1 rn')) = Some (pem_certificate (crt_Raw leaf) +:+ pem_certificate CaRootRaw).
Proof.
  clear Hurl. intros c' r r' Hs Ho Hc Ha Hid Hcid Hval Hcsr Hl. eexists _, _, _, _. split.
  { apply challenge_answer; [done|by apply ascii_app, ascii_app|done]. }
  split.
  { eapply finalize_answer with (c := c') (o := od_with_status StatusReady o); [| | |done|done|exact Hval|exact Hcsr|exact Hl].
    - destruct Hs as (H1' & H2' & H3' & H4' & H5' & H6' & H7' & H8'). unfold synced, paid. split_and!; try done; [apply RawURL_ascii|]. cbn. set_solver.
    - by apply ascii_app, ascii_app.
    - unfold paid. cbn [orders with_nonces challenge_passed]. rewrite lookup_fmap, Ho. cbn [fmap option_fmap option_map]. by rewrite Ha, String.eqb_refl. }
  split; [done|]. apply lookup_insert_eq.
Qed.
End Client.

(** ** Witnesses *)

Lemma split_take_drop {A} n (l l' : list A) : length l = n -> take n (l ++ l') = l /\ drop n (l ++ l') = l'.
Proof. intros <-. by rewrite take_app_length, drop_app_length. Qed.

Lemma toy_documented : documented.
Proof.
  split; try done; try by (intros; done).
  - intros [a b c] _ _ _. cbn [unmarshal_envelope marshal_envelope toy_acme]. by rewrite toy_fields_kept.
  - intros [alg nonce url jwk kid] _. cbn [unmarshal_header marshal_header toy_acme]. unfold toy_unmarshal_header, toy_marshal_header.
    rewrite string_of_bytes_of_string. destruct jwk as [[kty crv x]|]; by rewrite toy_fields_kept.
  - intros t v _ _. cbn [unmarshal_order marshal_payload toy_acme]. unfold toy_text, toy_marshal_payload. rewrite string_of_bytes_of_string.
    cbn [fmap list_fmap concat app idf_Type idf_Value]. by rewrite toy_fields_kept.
  - intros s _. cbn [unmarshal_respond marshal_payload toy_acme]. unfold toy_text, toy_marshal_payload. by rewrite string_of_bytes_of_string.
  - intros s _. cbn [unmarshal_finalize marshal_payload toy_acme]. unfold toy_text, toy_marshal_payload. by rewrite string_of_bytes_of_string.
  - by intros [].
  - intros key m. cbn [ed25519_Verify ed25519_Sign toy_acme PublicOf toy_x509]. by apply bool_decide_eq_true_2.
  - intros key. apply length_resize.
  - intros cn uris key der _ [= <-]. split; [by destruct key|]. cbn [ParseCertificateRequest toy_acme].
    destruct (split_take_drop PublicKeySize (toy_public key) (bytes_of_string cn) (length_resize _ _ _)) as [-> ->]. by rewrite string_of_bytes_of_string.
Qed.

Definition toy_draw (k : nat) : randoms * Z := (toy_randoms (Z.of_nat k) (Z.of_nat k) (Z.of_nat k) (Z.of_nat k), 0).

Lemma toy_leaf_issued r o : idf_Value (od_identifier o) = "nid" ->
  exists leaf, IssueLeaf (leaf_options "ca" (Some []) 0 r o (PublicOf (toy_key 1))) = Ok leaf.
Proof. intros E. unfold leaf_options, IssueLeaf. cbn [SubjectNID SubjectPublicKey CAPrivateKey]. rewrite E. by eexists. Qed.

Lemma client_gets_certificate_witness : exists pem c s k,
  IssueAgentCert (H2 := transport "ca" (Some []) [] 0 "") "nid" (NewClient "/directory" (toy_key 1), (NewServer, toy_draw, 0%nat)) = Some (Ok pem, (c, (s, toy_draw, k))) /\
  issued "ca" (Some []) [] (toy_key 1) "nid" pem /\ usable "" (toy_key 1) c s /\ k = 8%nat.
Proof.
  destruct (client_gets_certificate "ca" (Some []) [] 0 "" toy_documented (toy_key 1) eq_refl (fun _ _ => eq_refl) toy_draw "nid"
           (toy_public (toy_key 1) ++ bytes_of_string "nid")
           (NewClient "/directory" (toy_key 1)) NewServer 0) as (pem & c & s & k & E & Hi & Hu & Hk & _);
    [done|done|done|done|apply toy_leaf_issued|by left|]. exists pem, c, s, k. split_and!; [done|done|done|by apply Hk].
Defined.

(** A client whose last request was refused after its nonce was taken. *)
Definition toy_spent : Client := MkClient "/directory" (toy_key 1) (toy_public (toy_key 1)) (Some (its_directory "")) (toy_account 1) (toy_nonce 7).

Lemma spent_nonce_sticks_witness :
  failing "ca" (Some []) [] 0 "" ["nid"; "another"] (toy_spent, (NewServer, toy_draw, 0%nat)) (toy_spent, (NewServer, toy_draw, 2%nat)).
Proof.
  apply (spent_nonce_sticks "ca" (Some []) [] 0 "" toy_documented (toy_key 1) eq_refl (fun _ _ => eq_refl) toy_draw toy_spent NewServer 0 ["nid"; "another"]);
    try (vm_compute; reflexivity). vm_compute. intros Hn. inversion Hn.
Defined.

(** The second account and the first one's order. *)
Definition toy_ordered : Server := default NewServer (toy_serve_all (take 4 toy_history) NewServer).
Definition toy_stranger : Client := MkClient "/directory" (toy_key 2) (toy_public (toy_key 2)) (Some (its_directory "")) (toy_account 2) (toy_nonce 3).
Definition toy_order : orderState :=
  MkOrderState "ord-03" "az-04" "/finalize/ord-03" (toy_account 1) (MkIdentifier IdentifierTypeNID "nid") StatusPending "".
Definition toy_challenge : challengeState := MkChallengeState "ch-05" ChallengeAgent01 StatusPending (B64uEncode [z_byte 9]) "az-04" (toy_account 1).
Definition toy_der : list byte := toy_public (toy_key 2) ++ bytes_of_string "nid".
Definition toy_leaf : Certificate := MkCertificate (bytes_of_string "nid") "nid" ["nid"] [] [].

Lemma any_account_is_certified_witness :
  accountUrl toy_stranger <> od_accountUrl toy_order /\
  let r := answer_request "" (toy_key 2) toy_stranger "ch-05" toy_challenge (toy_randoms 4 0 0 0) 0 in
  let r' := finalize_request "" (toy_key 2) (with_lastNonce (toy_nonce 4) toy_stranger) "ord-03" toy_der (toy_randoms 5 6 0 0) 0 in
  exists resp s1 resp' s2, ServeHTTP "ca" (Some []) [] 0 "" r toy_ordered = Some (resp, s1) /\ ServeHTTP "ca" (Some []) [] 0 "" r' s1 = Some (resp', s2) /\
    Status resp' = 200 /\ certs s2 !! "crt-06" = Some "<nid><>".
Proof.
  split; [done|].
  apply (any_account_is_certified "ca" (Some []) [] 0 "" toy_documented (toy_key 2) eq_refl toy_stranger toy_ordered "ord-03" toy_order "ch-05" toy_challenge
           toy_der (toy_randoms 4 0 0 0) 0 (toy_randoms 5 6 0 0) 0 toy_leaf); try (vm_compute; reflexivity).
  unfold synced. split_and!; try (vm_compute; reflexivity). discriminate.
Defined.
