(* ===== verification/NipRouter.v ===== *)
(** * The HTTP interface of the certificate authority

    nip/ca_router.go, with nip/group_jws.go: the routes, the operator's key, the
    requests and their validation, the enrollment stores and the answers, over the
    service of NipCa.v and in-memory stores.

    A request is its method, its decoded path, the value that [Header.Get] returns for
    each header and its body; an answer is a status and the object that is encoded.
    Clock readings and random strings come with the request.  [json.Unmarshal] into the
    request types and [ed25519.Verify] are parameters; a nil and an empty slice of a
    certificate record are not told apart. *)

From S2P Require Import Prelude GoValue GoBase64 GoSort CoreCodec NcpFrames NdpRegistry NipFrames NipPhase3 NipStore NipRa NipCa.

Definition ErrCaSerialDuplicate : string := "NIP-CA-SERIAL-DUPLICATE".
Definition ErrRaPendingRejected : string := "NIP-RA-PENDING-REJECTED".
Definition ErrCaJwsInvalid : string := "NIP-CA-JWS-INVALID".
Definition ErrCaJwsExpired : string := "NIP-CA-JWS-EXPIRED".

(** ** Requests and answers *)

Record http_request : Type := MkHttpRequest {
  Method : string; URL_Path : string; Header_Get : string -> string; req_Body : option string
}.

Record http_response : Type := MkHttpResponse { resp_Status : Z; resp_Body : dict }.

Definition writeJSON (status : Z) (body : dict) : http_response := MkHttpResponse status body.

Definition error_body (code message : string) : dict := [("error_code", VString code); ("message", VString message)].

Definition badRequestCode : string := "NIP-CA-BAD-REQUEST".
Definition writeBadRequest (msg : string) : http_response := writeJSON 400 (error_body badRequestCode msg).
Definition writeUnauthorized : http_response :=
  writeJSON 401 (error_body "NIP-CA-UNAUTHORIZED" "Valid operator Bearer token required.").

Definition caErrorStatus (code : string) : Z :=
  if mem_string code [ErrCaNidNotFound; ErrCaParentNotFound] then 404
  else if mem_string code [ErrCaNidAlreadyExists; ErrCaSerialDuplicate] then 409
  else if mem_string code [ErrCaRenewalTooEarly; ErrCaSessionValidityInvalid; ErrCaParentNotGroup] then 400
  else if mem_string code [ErrCaScopeExpansionDenied; ErrCertCapabilityMissing; ErrCaGroupRevoked; ErrRaNidNotAllowed;
                           ErrRaPendingRejected] then 403
  else if mem_string code [ErrCaJwsInvalid; ErrCaJwsExpired; ErrCertExpired; ErrCertRevoked; ErrCertParentRevoked;
                           ErrRaTokenInvalid; ErrRaTokenExpired] then 401
  else 400.

Definition writeCaError (err : go_error) : http_response :=
  match err with
  | ErrNipCa code msg => writeJSON (caErrorStatus code) (error_body code msg)
  | _ => writeBadRequest (error_text err)
  end.

(** ** Paths *)

(** [strings.HasSuffix] with [strings.TrimSuffix]. *)
Definition trimSuffix (s suffix : string) : option string :=
  match cut_prefix (String.rev suffix) (String.rev s) with Some r => Some (String.rev r) | None => None end.

(** [url.PathUnescape]. *)
Fixpoint PathUnescape (s : string) : option string :=
  match s with
  | EmptyString => Some ""
  | String c r =>
      if Ascii.eqb c (chr 37) then
        match r with
        | String a (String b r') =>
            match hex_any a, hex_any b with
            | Some x, Some y => String (chr (Z.to_N (x * 16 + y))) <$> PathUnescape r'
            | _, _ => None
            end
        | _ => None
        end
      else String c <$> PathUnescape r
  end.

Definition unescape (s : string) : string := default s (PathUnescape s).

(** ** Validation *)

Definition identifier_char (c : Ascii.ascii) : bool :=
  let z := char_z c in
  ((97 <=? z) && (z <=? 122)) || ((65 <=? z) && (z <=? 90)) || ((48 <=? z) && (z <=? 57)) ||
  (z =? 46) || (z =? 95) || (z =? 58) || (z =? 64) || (z =? 47) || (z =? 45).

Definition identifierRe (s : string) : bool := (1 <=? str_len s) && (str_len s <=? 256) && str_forall identifier_char s.

Definition validPubKey (pubKey : string) : bool := has_prefix "ed25519:" pubKey && (8 <? str_len pubKey).

Definition identifierMessage : string := "identifier contains invalid characters. Allowed: a-z A-Z 0-9 . _ : @ / -".
Definition pubKeyMessage : string := "pub_key must be 'ed25519:<base64url>'.".

(** [None] when the request is valid. *)
Definition validateRegister (identifier pubKey : string) : option string :=
  if String.eqb identifier "" || String.eqb pubKey "" then Some "identifier and pub_key are required."
  else if negb (identifierRe identifier) then Some identifierMessage
  else if negb (validPubKey pubKey) then Some pubKeyMessage
  else None.

Definition parseAssuranceLevel (raw : string) : AssuranceLevel :=
  if LowerIs raw "attested" then AssuranceAttested
  else if LowerIs raw "verified" then AssuranceVerified
  else AssuranceAnonymous.

Definition validRevocationReasons : list string :=
  ["key_compromise"; "ca_compromise"; "affiliation_changed"; "superseded"; "cessation_of_operation"; "parent_revoked"].

Definition bearer : string := "Bearer ".

Definition authorized (opts : NipCaOptions) (r : http_request) : bool :=
  if String.eqb (OperatorApiKey opts) "" then true
  else
    let header := Header_Get r "Authorization" in
    if (str_len header <=? str_len bearer) || negb (EqualFold (String.substring 0 7 header) "bearer ") then false
    else String.eqb (trim_space (String.substring 7 (String.length header - 7) header)) (OperatorApiKey opts).

(** [strings.Contains(strings.ToLower(s), want)] for a lower-case ASCII [want] that no
    other letter folds to. *)
Fixpoint lower_prefix (want s : string) : bool :=
  match want, s with
  | EmptyString, _ => true
  | String w want', String c s' => Ascii.eqb (lower c) w && lower_prefix want' s'
  | String _ _, EmptyString => false
  end.

Fixpoint lower_contains (want s : string) : bool :=
  lower_prefix want s || match s with String _ s' => lower_contains want s' | EmptyString => false end.

Definition absInt64 (v : Z) : Z := if v <? 0 then i64 (- v) else v.

(** [time.Duration.Seconds]. *)
Definition Duration_Seconds (d : Z) : float64 :=
  SFadd 53 1024 (float64_of_Z (Z.quot d second)) (SFdiv 53 1024 (float64_of_Z (Z.rem d second)) (float64_of_Z second)).

(** ** The bodies of requests *)

Record registerRequest : Type := MkRegisterRequest {
  rr_Identifier : string; rr_PubKey : string; rr_Capabilities : option (list string); rr_ScopeJson : string; rr_MetadataJson : string
}.

Record registerX509Request : Type := MkX509Request {
  rx_Identifier : string; rx_PubKey : string; rx_Capabilities : option (list string); rx_ScopeJson : string;
  rx_MetadataJson : string; rx_AssuranceLevel : string
}.

Record registerGroupRequest : Type := MkGroupRequest {
  rg_Identifier : string; rg_PubKey : string; rg_Capabilities : option (list string); rg_ScopeJson : string;
  rg_MetadataJson : string; rg_OwnerUserId : string; rg_OwnerKeyId : string
}.

Record issueSessionRequest : Type := MkSessionRequest {
  is_SessionPubKey : string; is_Purpose : string; is_ValiditySeconds : Z; is_Capabilities : option (list string);
  is_ScopeJson : string; is_MetadataJson : string
}.

Record issueSessionPayload : Type := MkSessionPayload {
  ip_SessionPubKey : string; ip_Purpose : string; ip_ValiditySeconds : Z; ip_Capabilities : option (list string);
  ip_ScopeJson : string; ip_MetadataJson : string; ip_Iat : Z
}.

Record createTokenRequest : Type := MkTokenRequest { tr_TtlSeconds : Z; tr_Label : string }.

Record FlattenedJws : Type := MkJws { Protected : string; Payload : string; jws_Signature : string }.
Record jwsHeader : Type := MkJwsHeader { Alg : string; Kid : string; NpsPurpose : string }.

(** [json.Unmarshal] into a zero value: what the value holds afterwards, and the error. *)
Definition decoded (A : Type) : Type := (A * option string)%type.

Class RequestJSON : Type := {
  json_register : string -> decoded registerRequest;
  json_x509 : string -> decoded registerX509Request;
  json_group : string -> decoded registerGroupRequest;
  json_session : string -> decoded issueSessionRequest;
  json_payload : string -> decoded issueSessionPayload;
  json_token : string -> decoded createTokenRequest;
  json_reason : string -> decoded string;
  json_jws : string -> decoded FlattenedJws;
  json_jws_header : string -> decoded jwsHeader;
  json_any : string -> result string any
}.

Definition readJSONBody {A} (unmarshal : string -> decoded A) (r : http_request) : result http_response A :=
  let invalid := Err (writeBadRequest "Invalid JSON body.") in
  match req_Body r with
  | None => invalid
  | Some raw => if String.eqb raw "" then invalid
                else match unmarshal raw with (v, None) => Ok v | (_, Some _) => invalid end
  end.

(** An optional body, its error ignored; [zero] is the zero value. *)
Definition decodeBody {A} (zero : A) (unmarshal : string -> decoded A) (r : http_request) : A :=
  match req_Body r with
  | None => zero
  | Some raw => if String.eqb raw "" then zero else (unmarshal raw).1
  end.

(** ** Frames on the wire *)

Definition frameLineage (f : IdentFrame) : option dict := id_Lineage f.

Definition identFrameWire (f : IdentFrame) : dict :=
  let d := [("frame", VString "0x20"); ("nid", VString (id_NID f)); ("pub_key", VString (id_PubKey f))] in
  let d := set_str "issued_by" (id_IssuedBy f) d in
  let d := set_str "issued_at" (id_IssuedAt f) d in
  let d := set_str "expires_at" (id_ExpiresAt f) d in
  let d := set_str "serial" (id_Serial f) d in
  let d := dict_set "capabilities" (VStrings (id_Capabilities f)) d in
  let d := set_opt "scope" VMap (id_Scope f) d in
  let d := set_opt "signature" VString (id_Signature f) d in
  let d := set_opt "metadata" VMap (id_Meta f) d in
  let d := set_opt "assurance_level" (fun l => VString (Wire l)) (id_AssuranceLevel f) d in
  let d := set_opt "cert_format" VString (id_CertFormat f) d in
  let d := set_opt "cert_chain" VStrings (id_CertChain f) d in
  set_opt "lineage" VMap (frameLineage f) d.

Definition revokeFrameWire (f : RevokeFrame) : dict :=
  let d := [("frame", VString "0x22"); ("target_nid", VString (TargetNID f)); ("reason", VString (rv_Reason f));
            ("revoked_at", VString (RevokedAt f)); ("signer_nid", VString (rv_SignerNID f));
            ("signature", VString (rv_Signature f))] in
  set_opt "serial" VString (rv_Serial f) d.

(** ** The router *)

(** The enrollment policy of [NewNipCaRouter]; the stores it uses are the router's. *)
Record NipCaRouter : Type := MkCaRouter { rt_opts : NipCaOptions; rt_policy : EnrollmentPolicy; rt_prefix : string }.

(** The stores that requests change. *)
Record ca_state : Type := MkCaState {
  cs_store : InMemoryNipCaStore; cs_tokens : option (list bootstrapEntry); cs_queue : option InMemoryPendingStore
}.

(** The policy over the stores as they are now. *)
Definition policy_now (policy : EnrollmentPolicy) (s : ca_state) : EnrollmentPolicy :=
  match policy with
  | Allowlist p => Allowlist p
  | Bootstrap hash tokens => Bootstrap hash (default tokens (cs_tokens s))
  | PendingQueue queue maxSize => PendingQueue (default queue (cs_queue s)) maxSize
  end.

(** What a check of the policy leaves in the stores. *)
Definition policy_effect (policy : option EnrollmentPolicy) (s : ca_state) : ca_state :=
  match policy with
  | Some (Bootstrap _ tokens) => MkCaState (cs_store s) (Some tokens) (cs_queue s)
  | Some (PendingQueue queue _) => MkCaState (cs_store s) (cs_tokens s) (Some queue)
  | _ => s
  end.

Definition with_store (s : ca_state) (st : InMemoryNipCaStore) : ca_state := MkCaState st (cs_tokens s) (cs_queue s).

(** The readings of the clock and the random strings that a request uses: the clock of
    the operation and of a second reading, what a policy and a session read, ten years
    from now, the bytes of a root serial, two random strings and the order in which the
    queue is ranged over. *)
Record request_env : Type := MkRequestEnv {
  en_now : Z; en_now2 : Z; en_policy : policy_env; en_session : session_env; en_tenYears : Z; en_certRand : list byte;
  en_rand : string; en_rand2 : string; en_range : list PendingRegistration -> list PendingRegistration
}.

Definition NewNipCaRouter (opts : NipCaOptions) (st : InMemoryNipCaStore) (sha256 : string -> list byte)
    (bootstrapStore : option (list bootstrapEntry)) (pendingStore : option InMemoryPendingStore) :
    go_result (NipCaRouter * ca_state) :=
  let opts := applyDefaults opts in
  match CreateEnrollmentPolicy opts sha256 bootstrapStore pendingStore with
  | Err e => Err e
  | Ok policy => Ok (MkCaRouter opts policy (trim_slashes (ca_RoutePrefix opts)), MkCaState st bootstrapStore pendingStore)
  end.

(** *** Group JWS (nip/group_jws.go) *)

Definition GroupJwsExpectedAlg : string := "EdDSA".
Definition GroupJwsExpectedPurpose : string := "session-issue".

Definition DecodePublicKey (encoded : string) : option (list byte) :=
  match cut_prefix "ed25519:" encoded with
  | None => None
  | Some b64 =>
      if String.eqb b64 "" then None
      else match decodeBase64Url b64 with
           | Some raw => if (length raw =? 32)%nat then Some raw else None
           | None => None
           end
  end.

Section Router.
Context `{GoJSON} `{RequestJSON} `{UnstableSort} (json_UnmarshalMap : string -> result string (option dict)).
Context (ed25519_Sign : list byte -> list byte) (ed25519_Verify : list byte -> list byte -> list byte -> bool).
Context (ca_pub : list byte) (isoTime : Z -> string) (fmt_duration : Z -> string).
Context (url_Parse : string -> result string string).
Context (CreateCertificate : cert_template -> string -> list byte -> result string (list byte)).
Context (b64_error : string -> string) (sha256 : string -> list byte).
(** The options of the service and the router. *)
Context (ca_opts : NipCaOptions) (rt : NipCaRouter).

(** The payload and the key name, or the error code. *)
Definition VerifyGroupJws (jws : FlattenedJws) (groupPubKey : list byte) : result string (string * string) :=
  if String.eqb (Protected jws) "" || String.eqb (Payload jws) "" || String.eqb (jws_Signature jws) "" then Err ErrCaJwsInvalid
  else match decodeBase64Url (Protected jws), decodeBase64Url (Payload jws), decodeBase64Url (jws_Signature jws) with
       | Some headerBytes, Some payloadBytes, Some sigBytes =>
           match json_jws_header (string_of_bytes headerBytes) with
           | (_, Some _) => Err ErrCaJwsInvalid
           | (header, None) =>
               if negb (String.eqb (Alg header) GroupJwsExpectedAlg) || negb (String.eqb (NpsPurpose header) GroupJwsExpectedPurpose) ||
                  String.eqb (Kid header) "" then Err ErrCaJwsInvalid
               else
                 let signingInput := bytes_of_string (Protected jws +:+ "." +:+ Payload jws) in
                 if ed25519_Verify groupPubKey signingInput sigBytes then Ok (string_of_bytes payloadBytes, Kid header)
                 else Err ErrCaJwsInvalid
           end
       | _, _, _ => Err ErrCaJwsInvalid
       end.

(** *** Discovery and revocation lists *)

Definition handleWellKnown : http_response :=
  let o := rt_opts rt in
  let base := ca_BaseUrl o +:+ rt_prefix rt in
  writeJSON 200
    [("nps_ca", VString "0.1"); ("issuer", VString (CaNid o)); ("display_name", VString (ca_DisplayName o));
     ("public_key", VString (GetCaPublicKey ca_pub)); ("algorithms", VStrings (default [] (ca_Algorithms o)));
     ("endpoints", VMap
       [("register", VString (base +:+ "/v1/agents/register")); ("verify", VString (base +:+ "/v1/agents/{nid}/verify"));
        ("ocsp", VString (base +:+ "/v1/agents/{nid}/verify")); ("node_ocsp", VString (base +:+ "/v1/nodes/{nid}/verify"));
        ("crl", VString (base +:+ "/v1/crl"))]);
     ("capabilities", VStrings ["agent"; "node"; "orchestrator-group"; "ra-tier-" +:+ fmt_d (EnrollmentTier o)]);
     ("max_cert_validity_days", VInt KInt (AgentCertValidityDays o))].

(** [time.Time{}], the first of January of year one. *)
Definition zero_time : Z := -62135596800 * second.

Definition crl_less (left right : NipCertRecord) : bool :=
  let leftTime := default zero_time (c_RevokedAt left) in
  let rightTime := default zero_time (c_RevokedAt right) in
  if negb (leftTime =? rightTime) then leftTime <? rightTime
  else if negb (String.eqb (c_Serial left) (c_Serial right)) then String.ltb (c_Serial left) (c_Serial right)
  else String.ltb (c_Nid left) (c_Nid right).

Definition iso_or_nil (t : option Z) : any := match t with Some t => VString (isoTime t) | None => VNil end.

Definition crl_entry (r : NipCertRecord) : dict :=
  [("nid", VString (c_Nid r)); ("serial", VString (c_Serial r)); ("revoked_at", iso_or_nil (c_RevokedAt r));
   ("reason", VString (ptrStr (c_RevokeReason r)))].

Definition crl_body (now : Z) (st : InMemoryNipCaStore) : dict :=
  [("issued_by", VString (CaNid (rt_opts rt))); ("issued_at", VString (isoTime now));
   ("entries", VMaps (crl_entry <$> Slice crl_less (GetCrl st)))].

Definition handleCrl (now : Z) (st : InMemoryNipCaStore) : http_response :=
  let body := crl_body now st in
  let sig := SignArtifact ed25519_Sign body in
  writeJSON 200 (body ++ [("signature", VString sig)]).

Definition cert_less (l r : NipCertRecord) : bool :=
  if negb (c_IssuedAt l =? c_IssuedAt r) then c_IssuedAt l <? c_IssuedAt r else String.ltb (c_Serial l) (c_Serial r).

Definition string_or_nil (s : option string) : any := match s with Some s => VString s | None => VNil end.

Definition cert_entry (r : NipCertRecord) : dict :=
  [("nid", VString (c_Nid r)); ("entity_type", VString (c_EntityType r)); ("serial", VString (c_Serial r));
   ("pub_key", VString (c_PubKey r)); ("capabilities", VStrings (c_Capabilities r));
   ("scope", match json_any (c_ScopeJson r) with Ok v => v | Err _ => VNil end); ("issued_by", VString (c_IssuedBy r));
   ("issued_at", VString (isoTime (c_IssuedAt r))); ("expires_at", VString (isoTime (c_ExpiresAt r)));
   ("revoked_at", iso_or_nil (c_RevokedAt r)); ("revoke_reason", string_or_nil (c_RevokeReason r));
   ("nid_role", string_or_nil (c_NidRole r)); ("parent_nid", string_or_nil (c_ParentNid r))].

Definition handleCertificates (st : InMemoryNipCaStore) (r : http_request) : http_response :=
  if negb (authorized (rt_opts rt) r) then writeUnauthorized
  else writeJSON 200 [("entries", VMaps (cert_entry <$> Slice cert_less (ListCertificates st)))].

(** *** Registration *)

Definition or_empty_object (scope : string) : string := if String.eqb scope "" then "{}" else scope.

(** The answer to an issued frame. *)
Definition issued_response (status : Z) (result : go_result IdentFrame) : http_response :=
  match result with
  | Ok frame => writeJSON status (identFrameWire frame)
  | Err err => writeCaError err
  end.

Definition handleRegister (env : request_env) (s : ca_state) (r : http_request) (entityType : string) (defaultCaps : list string) :
    http_response * ca_state :=
  if negb (authorized (rt_opts rt) r) then (writeUnauthorized, s)
  else match readJSONBody json_register r with
       | Err resp => (resp, s)
       | Ok req =>
           match validateRegister (rr_Identifier req) (rr_PubKey req) with
           | Some msg => (writeBadRequest msg, s)
           | None =>
               let caps := default defaultCaps (rr_Capabilities req) in
               let enrollToken := Header_Get r "X-NPS-Enrollment-Token" in
               let '(result, policy, st) :=
                 RegisterWithRa json_UnmarshalMap ed25519_Sign isoTime ca_opts (cs_store s) (en_now env) (en_policy env)
                   (Some (policy_now (rt_policy rt) s)) entityType (rr_Identifier req) (rr_PubKey req) caps
                   (or_empty_object (rr_ScopeJson req)) (rr_MetadataJson req) enrollToken in
               (match result with
                | Err (ErrRaPending id) => writeJSON 202 [("pending_id", VString id); ("status", VString "queued")]
                | _ => issued_response 201 result
                end, with_store (policy_effect policy s) st)
           end
       end.

Definition handleRegisterX509 (env : request_env) (s : ca_state) (r : http_request) (entityType : string)
    (defaultCaps : list string) : http_response * ca_state :=
  if negb (authorized (rt_opts rt) r) then (writeUnauthorized, s)
  else match readJSONBody json_x509 r with
       | Err resp => (resp, s)
       | Ok req =>
           match validateRegister (rx_Identifier req) (rx_PubKey req) with
           | Some msg => (writeBadRequest msg, s)
           | None =>
               let '(result, st) :=
                 RegisterX509 json_UnmarshalMap ed25519_Sign ca_pub isoTime url_Parse CreateCertificate b64_error ca_opts
                   (cs_store s) (en_now env) (en_tenYears env) (en_certRand env) entityType (rx_Identifier req) (rx_PubKey req)
                   (default defaultCaps (rx_Capabilities req)) (or_empty_object (rx_ScopeJson req))
                   (parseAssuranceLevel (rx_AssuranceLevel req)) (rx_MetadataJson req) None in
               (issued_response 201 result, with_store s st)
           end
       end.

Definition handleRegisterGroup (env : request_env) (s : ca_state) (r : http_request) : http_response * ca_state :=
  if negb (authorized (rt_opts rt) r) then (writeUnauthorized, s)
  else match readJSONBody json_group r with
       | Err resp => (resp, s)
       | Ok req =>
           if negb (String.eqb (rg_Identifier req) "") && negb (identifierRe (rg_Identifier req)) then
             (writeBadRequest identifierMessage, s)
           else if negb (validPubKey (rg_PubKey req)) then (writeBadRequest pubKeyMessage, s)
           else
             let '(result, st) :=
               RegisterGroup json_UnmarshalMap ed25519_Sign isoTime ca_opts (cs_store s) (en_now env) (en_rand env)
                 (rg_Identifier req) (rg_PubKey req) (default [] (rg_Capabilities req)) (or_empty_object (rg_ScopeJson req))
                 (rg_OwnerUserId req) (rg_OwnerKeyId req) (rg_MetadataJson req) in
             (issued_response 201 result, with_store s st)
       end.

(** *** Renewal, revocation, verification *)

Definition handleRenew (env : request_env) (s : ca_state) (r : http_request) (nid : string) : http_response * ca_state :=
  if negb (authorized (rt_opts rt) r) then (writeUnauthorized, s)
  else
    let '(result, st) := Renew json_UnmarshalMap ed25519_Sign isoTime ca_opts (cs_store s) (en_now env) nid in
    (issued_response 200 result, with_store s st).

Definition handleRevoke (env : request_env) (s : ca_state) (r : http_request) (nid : string) : http_response * ca_state :=
  if negb (authorized (rt_opts rt) r) then (writeUnauthorized, s)
  else
    let reason := decodeBody "" json_reason r in
    let reason := if String.eqb reason "" then "cessation_of_operation" else reason in
    if negb (mem_string reason validRevocationReasons) then
      (writeBadRequest ("Invalid revocation reason '" +:+ reason +:+ "'."), s)
    else
      let '(result, st) := NipCa.Revoke ed25519_Sign isoTime ca_opts (cs_store s) (en_now env) nid reason in
      (match result with Ok frame => writeJSON 200 (revokeFrameWire frame) | Err err => writeCaError err end, with_store s st).

Definition handleVerify (env : request_env) (st : InMemoryNipCaStore) (nid : string) : http_response :=
  let result := Verify isoTime st (en_now env) (en_now2 env) nid in
  match ca_Valid result, ca_Record result with
  | true, Some rec =>
      writeJSON 200 [("valid", VBool true); ("nid", VString (c_Nid rec)); ("expires_at", VString (isoTime (c_ExpiresAt rec)));
                     ("serial", VString (c_Serial rec))]
  | _, _ =>
      writeJSON (if String.eqb (ca_ErrorCode result) ErrCaNidNotFound then 404 else 200)
        [("valid", VBool false); ("error_code", VString (ca_ErrorCode result)); ("message", VString (ca_Message result))]
  end.

(** *** Sessions of groups *)

Definition jws_error (code message : string) : http_response := writeJSON 401 (error_body code message).

Definition skew_seconds : Z := int64_of_float (Duration_Seconds (SessionJwsClockSkew (rt_opts rt))).

(** [payload.Iat] against the clock, in [int64]. *)
Definition iat_outside (nowEpoch iat : Z) : bool := (iat =? 0) || (skew_seconds <? absInt64 (i64 (nowEpoch - iat))).

Definition request_of_payload (p : issueSessionPayload) : issueSessionRequest :=
  MkSessionRequest (ip_SessionPubKey p) (ip_Purpose p) (ip_ValiditySeconds p) (ip_Capabilities p) (ip_ScopeJson p) (ip_MetadataJson p).

(** The checks on a request signed by the group's key. *)
Definition session_by_jws (env : request_env) (st : InMemoryNipCaStore) (r : http_request) (groupNid : string) :
    result http_response issueSessionRequest :=
  match readJSONBody json_jws r with
  | Err resp => Err resp
  | Ok jws =>
      match GetCert st groupNid with
      | None => Err (writeCaError (ErrNipCa ErrCaParentNotFound ("Group " +:+ groupNid +:+ " not found.")))
      | Some groupRecord =>
          if negb (bool_decide (c_NidRole groupRecord = Some IdentLineageRoleGroup)) then
            Err (writeCaError (ErrNipCa ErrCaParentNotGroup ("NID " +:+ groupNid +:+ " is not a group.")))
          else if is_revoked groupRecord then
            Err (writeCaError (ErrNipCa ErrCaGroupRevoked ("Group " +:+ groupNid +:+ " revoked.")))
          else
            match DecodePublicKey (c_PubKey groupRecord) with
            | None => Err (jws_error ErrCaJwsInvalid "Group public key could not be decoded.")
            | Some pubKey =>
                match VerifyGroupJws jws pubKey with
                | Err ec => Err (jws_error ec "Group-JWS verification failed.")
                | Ok (payloadJSON, kid) =>
                    if negb (String.eqb kid groupNid) then
                      Err (jws_error ErrCaJwsInvalid ("JWS kid '" +:+ kid +:+ "' does not match URL group_nid '" +:+ groupNid +:+ "'."))
                    else
                      match json_payload payloadJSON with
                      | (_, Some _) => Err (jws_error ErrCaJwsInvalid "JWS payload is not valid JSON.")
                      | (payload, None) =>
                          if iat_outside (en_now env / second) (ip_Iat payload) then
                            Err (jws_error ErrCaJwsExpired "JWS iat outside skew window.")
                          else Ok (request_of_payload payload)
                      end
                end
            end
      end
  end.

(** The checks on a request of the operator. *)
Definition session_by_operator (r : http_request) : result http_response issueSessionRequest :=
  if negb (authorized (rt_opts rt) r) then Err writeUnauthorized else readJSONBody json_session r.

Definition isJwsBody (r : http_request) : bool := lower_contains "jose+json" (Header_Get r "Content-Type").

Definition session_params (req : issueSessionRequest) : IssueSessionParams :=
  let validity := if 0 <? is_ValiditySeconds req then i64 (is_ValiditySeconds req * second) else 0 in
  MkSessionParams validity (is_Purpose req) (is_Capabilities req) (is_ScopeJson req) (is_MetadataJson req).

Definition handleIssueSession (env : request_env) (s : ca_state) (r : http_request) (groupNid : string) :
    http_response * ca_state :=
  match (if isJwsBody r then session_by_jws env (cs_store s) r groupNid else session_by_operator r) with
  | Err resp => (resp, s)
  | Ok req =>
      if negb (validPubKey (is_SessionPubKey req)) then (writeBadRequest "session_pub_key must be 'ed25519:<base64url>'.", s)
      else
        let '(result, st) :=
          IssueSession json_UnmarshalMap ed25519_Sign isoTime fmt_duration ca_opts (cs_store s) (en_session env) groupNid
            (is_SessionPubKey req) (session_params req) in
        (issued_response 201 result, with_store s st)
  end.

Definition session_item (r : NipCertRecord) : dict :=
  [("nid", VString (c_Nid r)); ("serial", VString (c_Serial r)); ("issued_at", VString (isoTime (c_IssuedAt r)));
   ("expires_at", VString (isoTime (c_ExpiresAt r))); ("revoked_at", iso_or_nil (c_RevokedAt r));
   ("revoke_reason", VString (ptrStr (c_RevokeReason r)))].

Definition count_of {A} (l : list A) : any := VInt KInt (Z.of_nat (length l)).

Definition handleListSessions (st : InMemoryNipCaStore) (r : http_request) (groupNid : string) : http_response :=
  if negb (authorized (rt_opts rt) r) then writeUnauthorized
  else
    let sessions := ListSessions st groupNid in
    writeJSON 200 [("group_nid", VString groupNid); ("count", count_of sessions); ("sessions", VMaps (session_item <$> sessions))].

(** *** Enrollment *)

(** The lifetime of a token. *)
Definition token_ttl (req : createTokenRequest) : Z :=
  let max := BootstrapTokenMaxTtl (rt_opts rt) in
  let ttl := if 0 <? tr_TtlSeconds req then i64 (tr_TtlSeconds req * second) else max in
  if max <? ttl then max else ttl.

Definition handleCreateToken (env : request_env) (s : ca_state) (r : http_request) : http_response * ca_state :=
  if negb (authorized (rt_opts rt) r) then (writeUnauthorized, s)
  else match cs_tokens s with
       | None => (writeBadRequest "Bootstrap token enrollment is not enabled on this CA.", s)
       | Some tokens =>
           let req := decodeBody (MkTokenRequest 0 "") json_token r in
           let expiresAt := en_now env + token_ttl req in
           let '(raw, tokens) := Tokens_Create sha256 tokens (tr_Label req) expiresAt (en_rand env) (en_rand2 env) (en_now2 env) in
           (writeJSON 201 [("token", VString raw); ("expires_at", VString (isoTime expiresAt)); ("label", VString (tr_Label req))],
            MkCaState (cs_store s) (Some tokens) (cs_queue s))
       end.

Definition no_queue : http_response := writeBadRequest "Pending-queue enrollment is not enabled on this CA.".

Definition pending_item (rec : PendingRegistration) : dict :=
  [("id", VString (pr_Id rec)); ("entity_type", VString (pr_EntityType rec)); ("identifier", VString (pr_Identifier rec));
   ("pub_key", VString (pr_PubKey rec)); ("capabilities", VStrings (pr_Capabilities rec)); ("scope_json", VString (pr_ScopeJson rec));
   ("requested_at", VString (isoTime (pr_RequestedAt rec))); ("status", VString (PendingStatus_String (pr_Status rec)));
   ("reject_reason", VString (pr_RejectReason rec))].

Definition handleListPending (env : request_env) (s : ca_state) (r : http_request) : http_response :=
  if negb (authorized (rt_opts rt) r) then writeUnauthorized
  else match cs_queue s with
       | None => no_queue
       | Some queue =>
           let records := en_range env (Pending_List queue) in
           writeJSON 200 [("count", count_of records); ("items", VMaps (pending_item <$> records))]
       end.

Definition already_decided (id : string) (rec : PendingRegistration) : http_response :=
  writeJSON 409 (error_body badRequestCode ("Record '" +:+ id +:+ "' is already " +:+ PendingStatus_String (pr_Status rec) +:+ ".")).

Definition pending_not_found (code id : string) : http_response :=
  writeJSON 404 (error_body code ("Pending registration '" +:+ id +:+ "' not found.")).

Definition handleApprovePending (env : request_env) (s : ca_state) (r : http_request) (id : string) : http_response * ca_state :=
  if negb (authorized (rt_opts rt) r) then (writeUnauthorized, s)
  else match cs_queue s with
       | None => (no_queue, s)
       | Some queue =>
           match Pending_Get queue id with
           | None => (pending_not_found ErrCaNidNotFound id, s)
           | Some record =>
               if negb (is_pending record) then (already_decided id record, s)
               else
                 let '(result, st) :=
                   Register json_UnmarshalMap ed25519_Sign isoTime ca_opts (cs_store s) (en_now env) (pr_EntityType record)
                     (pr_Identifier record) (pr_PubKey record) (pr_Capabilities record) (pr_ScopeJson record) (pr_MetadataJson record) in
                 let queue := match result with Ok _ => (Approve queue id).2 | Err _ => queue end in
                 (issued_response 201 result, MkCaState st (cs_tokens s) (Some queue))
           end
       end.

Definition handleRejectPending (s : ca_state) (r : http_request) (id : string) : http_response * ca_state :=
  if negb (authorized (rt_opts rt) r) then (writeUnauthorized, s)
  else match cs_queue s with
       | None => (no_queue, s)
       | Some queue =>
           let reason := decodeBody "" json_reason r in
           let reason := if String.eqb reason "" then "rejected_by_operator" else reason in
           match Reject queue id reason with
           | (true, queue) =>
               (writeJSON 200 [("id", VString id); ("status", VString "rejected"); ("reason", VString reason)],
                MkCaState (cs_store s) (cs_tokens s) (Some queue))
           | (false, queue) =>
               (match Pending_Get queue id with
                | None => pending_not_found badRequestCode id
                | Some record => already_decided id record
                end, s)
           end
       end.

(** *** Routes *)

Inductive route : Type :=
| WellKnown | CaCert | Crl | Certificates
| RegisterAs (entityType : string) (defaultCaps : list string)
| RegisterX509As (entityType : string) (defaultCaps : list string)
| RegisterGroupRoute | CreateToken | ListPending
| RenewRoute (nid : string) | RevokeRoute (nid : string) | VerifyRoute (nid : string)
| IssueSessionRoute (groupNid : string) | ListSessionsRoute (groupNid : string)
| ApprovePending (id : string) | RejectPending (id : string).

Definition MethodGet : string := "GET".
Definition MethodPost : string := "POST".

Definition node_caps : list string := ["nwp:query"; "nwp:stream"].

(** The routes without a parameter, in the order of the cases. *)
Definition fixed_routes : list (string * string * route) :=
  let pfx := rt_prefix rt in
  [(MethodGet, "/.well-known/nps-ca", WellKnown); (MethodGet, pfx +:+ "/v1/ca/cert", CaCert); (MethodGet, pfx +:+ "/v1/crl", Crl);
   (MethodGet, pfx +:+ "/v1/certificates", Certificates);
   (MethodPost, pfx +:+ "/v1/agents/register", RegisterAs "agent" []);
   (MethodPost, pfx +:+ "/v1/nodes/register", RegisterAs "node" node_caps);
   (MethodPost, pfx +:+ "/v1/agents/register-x509", RegisterX509As "agent" []);
   (MethodPost, pfx +:+ "/v1/nodes/register-x509", RegisterX509As "node" node_caps);
   (MethodPost, pfx +:+ "/v1/orchestrators/groups/register", RegisterGroupRoute);
   (MethodPost, pfx +:+ "/v1/enrollment/tokens", CreateToken); (MethodGet, pfx +:+ "/v1/enrollment/pending", ListPending)].

(** The first suffix of [rest] whose method is the request's. *)
Fixpoint suffix_route (method rest : string) (table : list (string * string * (string -> route))) : option route :=
  match table with
  | [] => None
  | (suffix, m, mk) :: table =>
      match trimSuffix rest suffix with
      | Some param => if String.eqb method m then Some (mk (unescape param)) else suffix_route method rest table
      | None => suffix_route method rest table
      end
  end.

Definition entity_table : list (string * string * (string -> route)) :=
  [("/renew", MethodPost, RenewRoute); ("/revoke", MethodPost, RevokeRoute); ("/verify", MethodGet, VerifyRoute)].
Definition group_table : list (string * string * (string -> route)) :=
  [("/sessions/issue", MethodPost, IssueSessionRoute); ("/sessions", MethodGet, ListSessionsRoute); ("/revoke", MethodPost, RevokeRoute)].
Definition pending_table : list (string * string * (string -> route)) :=
  [("/approve", MethodPost, ApprovePending); ("/reject", MethodPost, RejectPending)].

Definition parameter_tables : list (string * list (string * string * (string -> route))) :=
  [("agents/", entity_table); ("nodes/", entity_table); ("orchestrators/groups/", group_table); ("enrollment/pending/", pending_table)].

(** The first table with the prefix of [sub] and a suffix that applies. *)
Fixpoint prefix_route (method sub : string) (tables : list (string * list (string * string * (string -> route)))) : option route :=
  match tables with
  | [] => None
  | (kind, table) :: tables =>
      match cut_prefix kind sub with
      | Some rest => match suffix_route method rest table with Some x => Some x | None => prefix_route method sub tables end
      | None => prefix_route method sub tables
      end
  end.

Definition serveParameterized (r : http_request) : option route :=
  match cut_prefix (rt_prefix rt +:+ "/v1/") (URL_Path r) with
  | None => None
  | Some sub => prefix_route (Method r) sub parameter_tables
  end.

Definition find_route (r : http_request) : option route :=
  match List.find (fun x => String.eqb (Method r) x.1.1 && String.eqb (URL_Path r) x.1.2) fixed_routes with
  | Some x => Some x.2
  | None => serveParameterized r
  end.

Definition handle (env : request_env) (s : ca_state) (r : http_request) (x : route) : http_response * ca_state :=
  match x with
  | WellKnown => (handleWellKnown, s)
  | CaCert => (writeJSON 200 [("public_key", VString (GetCaPublicKey ca_pub)); ("algorithm", VString "ed25519")], s)
  | Crl => (handleCrl (en_now env) (cs_store s), s)
  | Certificates => (handleCertificates (cs_store s) r, s)
  | RegisterAs entityType caps => handleRegister env s r entityType caps
  | RegisterX509As entityType caps => handleRegisterX509 env s r entityType caps
  | RegisterGroupRoute => handleRegisterGroup env s r
  | CreateToken => handleCreateToken env s r
  | ListPending => (handleListPending env s r, s)
  | RenewRoute nid => handleRenew env s r nid
  | RevokeRoute nid => handleRevoke env s r nid
  | VerifyRoute nid => (handleVerify env (cs_store s) nid, s)
  | IssueSessionRoute g => handleIssueSession env s r g
  | ListSessionsRoute g => (handleListSessions (cs_store s) r g, s)
  | ApprovePending id => handleApprovePending env s r id
  | RejectPending id => handleRejectPending s r id
  end.

Definition ServeHTTP (env : request_env) (s : ca_state) (r : http_request) : http_response * ca_state :=
  match find_route r with
  | Some x => handle env s r x
  | None => (writeJSON 404 (error_body "NIP-CA-NOT-FOUND" "No CA route at this path."), s)
  end.
End Router.
