(* ===== verification/NipRouterProof.v ===== *)
(** * What the HTTP interface of the certificate authority guarantees

    Who may change the stores, that a history of requests is a history of operations
    of the service, revocation as clients see it, enrollment by tokens and by the
    queue, the routes, and the window of signed session requests. *)

From S2P Require Import Prelude GoValue GoBase64 GoSort CoreCodec NcpFrames NdpRegistry NipFrames NipPhase3 NipStore NipRa NipPath NipVerifier NipVerifierProof NipCa NipCaProof NipRouter.

(** ** The order of revocation lists *)

Definition crl_le : relation NipCertRecord :=
  by_key (fun r => default zero_time (c_RevokedAt r)) (by_text c_Serial (by_text c_Nid (fun _ _ => True))).

Lemma crl_less_le a b : crl_less a b = true <-> ~ crl_le b a.
Proof.
  unfold crl_less, crl_le, by_key, by_text. cbv zeta. set (ta := default zero_time (c_RevokedAt a)). set (tb := default zero_time (c_RevokedAt b)).
  destruct (Z.eqb_spec ta tb) as [E|E]; cbn [negb]; [|rewrite Z.ltb_lt; lia]. rewrite E.
  destruct (String.eqb_spec (c_Serial a) (c_Serial b)) as [Es|Es]; cbn [negb].
  - rewrite Es. destruct (decide (c_Nid a = c_Nid b)) as [En|En]; rewrite text_ltb_le; [rewrite En|].
    + split; [intros Hn; by destruct Hn|]. intros Hn. destruct Hn. right. split; [done|]. right. split; [done|]. by right.
    + split; [intros Hn [?|[_ [[? _]|[_ [[_ ?]|[? _]]]]]]; try done; try lia; by destruct En|].
      intros Hn Hle. apply Hn. right. split; [done|]. right. split; [done|]. left. split; [by apply not_eq_sym|done].
  - rewrite text_ltb_le. split; [intros Hn [?|[_ [[_ ?]|[? _]]]]; [lia|done|by destruct Es]|].
    intros Hn Hle. apply Hn. right. split; [done|]. left. split; [by apply not_eq_sym|done].
Qed.

Lemma crl_weak l : weak_order crl_less l.
Proof.
  assert (Total (fun _ _ : NipCertRecord => True)) by (intros a b; by left). assert (Transitive (fun _ _ : NipCertRecord => True)) by done.
  apply (weak_order_total crl_less crl_le); [apply crl_less_le|apply _..].
Qed.

Lemma crl_ties a b : tied crl_less a b = true -> c_Serial a = c_Serial b.
Proof.
  unfold tied, crl_less. cbv zeta. intros E. apply andb_true_iff in E as [E1%negb_true_iff E2%negb_true_iff].
  rewrite (Z.eqb_sym (default _ (c_RevokedAt b))), (String.eqb_sym (c_Serial b)) in E2. destruct (Z.eqb_spec (default zero_time (c_RevokedAt a)) (default zero_time (c_RevokedAt b))); cbn [negb] in *; [|bool_hyps; lia].
  destruct (String.eqb_spec (c_Serial a) (c_Serial b)) as [|Hs]; [done|]. cbn [negb] in *. destruct Hs.
  assert (Hle : forall x y, String.ltb x y = false -> String.le y x).
  { intros x y Hxy. destruct (decide (String.le y x)) as [|Hn]; [done|]. apply text_ltb_le in Hn. congruence. }
  by apply (anti_symm String.le); apply Hle.
Qed.

(** The list does not depend on the algorithm of [sort.Slice] nor on the order of the
    records: it is the one list of the revoked records that is sorted. *)
Lemma crl_canonical `{UnstableSort} l l' :
  NoDup (c_Serial <$> l) -> l ≡ₚ l' -> StronglySorted (fun a b => crl_less b a = false) l' -> Slice crl_less l = l'.
Proof.
  intros Hn Hp Hs. apply (sorted_unique crl_less); [|by rewrite Slice_perm|apply Slice_sorted, crl_weak|done].
  intros a b. rewrite !Slice_perm. intros Ha Hb Ht%crl_ties.
  apply list_elem_of_lookup in Ha as [i Hi], Hb as [j Hj]. assert (i = j); [|congruence].
  eapply (NoDup_lookup _ i j (c_Serial a)); [done|by rewrite list_lookup_fmap, Hi|]. rewrite list_lookup_fmap, Hj. cbn. congruence.
Qed.

(** ** Requests *)

Section Requests.
Context `{GoJSON} `{RequestJSON} `{UnstableSort} (json_UnmarshalMap : string -> result string (option dict)).
Context (ed25519_Sign : list byte -> list byte) (ed25519_Verify : list byte -> list byte -> list byte -> bool).
Context (ca_pub : list byte) (isoTime : Z -> string) (fmt_duration : Z -> string).
Context (url_Parse : string -> result string string).
Context (CreateCertificate : cert_template -> string -> list byte -> result string (list byte)).
Context (b64_error : string -> string) (sha256 : string -> list byte).
Context (ca_opts : NipCaOptions) (rt : NipCaRouter).

Abbreviation serve := (ServeHTTP json_UnmarshalMap ed25519_Sign ed25519_Verify ca_pub isoTime fmt_duration url_Parse CreateCertificate b64_error sha256 ca_opts rt).
Abbreviation handle_route := (handle json_UnmarshalMap ed25519_Sign ed25519_Verify ca_pub isoTime fmt_duration url_Parse CreateCertificate b64_error sha256 ca_opts rt).
Abbreviation step := (ca_step json_UnmarshalMap ed25519_Sign ca_pub isoTime fmt_duration url_Parse CreateCertificate b64_error ca_opts).
Abbreviation run_ops := (ca_run json_UnmarshalMap ed25519_Sign ca_pub isoTime fmt_duration url_Parse CreateCertificate b64_error ca_opts).
Abbreviation fresh_ops := (ops_fresh json_UnmarshalMap ed25519_Sign ca_pub isoTime fmt_duration url_Parse CreateCertificate b64_error ca_opts).
Abbreviation issue_session := (IssueSession json_UnmarshalMap ed25519_Sign isoTime fmt_duration ca_opts).
Abbreviation jws_session := (session_by_jws ed25519_Verify rt).
Abbreviation key_given := (authorized (rt_opts rt)).

(** *** Who may change the stores *)

(** The request carries a JWS by the key of the live group [g], named in its header,
    with an accepted time; its payload is the session request [req]. *)
Definition signed_by_group (env : request_env) (st : InMemoryNipCaStore) (r : http_request) (g : string) (req : issueSessionRequest) : Prop :=
  exists raw jws group key head sig payload body,
    req_Body r = Some raw /\ raw <> "" /\ json_jws raw = (jws, None) /\
    Protected jws <> "" /\ Payload jws <> "" /\ jws_Signature jws <> "" /\ g <> "" /\
    GetByNid st g = Some group /\ c_NidRole group = Some IdentLineageRoleGroup /\ is_revoked group = false /\
    DecodePublicKey (c_PubKey group) = Some key /\ decodeBase64Url (jws_Signature jws) = Some sig /\
    ed25519_Verify key (bytes_of_string (Protected jws +:+ "." +:+ Payload jws)) sig = true /\
    decodeBase64Url (Protected jws) = Some head /\
    json_jws_header (string_of_bytes head) = (MkJwsHeader "EdDSA" g "session-issue", None) /\
    decodeBase64Url (Payload jws) = Some body /\ json_payload (string_of_bytes body) = (payload, None) /\
    iat_outside rt (en_now env / second) (ip_Iat payload) = false /\ req = request_of_payload payload.

(** The request has a body, and it decodes to [v]. *)
Definition posted {A} (u : string -> decoded A) (r : http_request) (v : A) : Prop :=
  exists raw, req_Body r = Some raw /\ raw <> "" /\ u raw = (v, None).

Lemma readJSONBody_iff {A} (u : string -> decoded A) r v : readJSONBody u r = Ok v <-> posted u r v.
Proof.
  unfold readJSONBody, posted. destruct (req_Body r) as [raw|]; [|split; [done|by intros (? & ? & _)]].
  destruct (String.eqb_spec raw "") as [->|Hne]; [split; [done|by intros (? & [= <-] & ? & _)]|].
  destruct (u raw) as [x [e|]] eqn:E; split; try done.
  - intros (? & [= <-] & _ & E'). congruence.
  - intros [= ->]. by exists raw.
  - intros (? & [= <-] & _ & E'). congruence.
Qed.

Lemma verify_jws_iff jws key payload kid :
  VerifyGroupJws ed25519_Verify jws key = Ok (payload, kid) <->
  (Protected jws <> "" /\ Payload jws <> "" /\ jws_Signature jws <> "" /\ kid <> "") /\
  exists head sig body, decodeBase64Url (jws_Signature jws) = Some sig /\ decodeBase64Url (Protected jws) = Some head /\
    decodeBase64Url (Payload jws) = Some body /\ payload = string_of_bytes body /\
    ed25519_Verify key (bytes_of_string (Protected jws +:+ "." +:+ Payload jws)) sig = true /\
    json_jws_header (string_of_bytes head) = (MkJwsHeader "EdDSA" kid "session-issue", None).
Proof.
  unfold VerifyGroupJws. split.
  - destruct (_ || _) eqn:E0; [done|]. apply orb_false_iff in E0 as [E0 E3]. apply orb_false_iff in E0 as [E1 E2]. bool_hyps.
    destruct (decodeBase64Url (Protected jws)) as [head|] eqn:Eh; [|done]. destruct (decodeBase64Url (Payload jws)) as [body|] eqn:Eb; [|done].
    destruct (decodeBase64Url (jws_Signature jws)) as [sig|] eqn:Es; [|done].
    destruct (json_jws_header _) as [[alg k purpose] [e|]] eqn:Ej; [done|]. cbn [Alg NpsPurpose Kid].
    destruct (String.eqb_spec alg GroupJwsExpectedAlg) as [->|]; [|done]. destruct (String.eqb_spec purpose GroupJwsExpectedPurpose) as [->|]; [|done].
    cbn [negb orb]. destruct (String.eqb_spec k ""); [done|]. destruct (ed25519_Verify _ _ _) eqn:Ev; [|done]. intros [= <- <-].
    split; [by split_and!|]. exists head, sig, body. split_and!; done.
  - intros ((H1' & H2' & H3' & H4') & head & sig & body & -> & -> & -> & -> & Hv & Hj).
    apply String.eqb_neq in H1' as ->, H2' as ->, H3' as ->. cbn [orb]. rewrite Hj. cbn [Alg NpsPurpose Kid]. apply String.eqb_neq in H4' as ->.
    unfold GroupJwsExpectedAlg, GroupJwsExpectedPurpose. rewrite !String.eqb_refl. cbn [negb orb]. by rewrite Hv.
Qed.

Lemma jws_session_iff env st r g req : jws_session env st r g = Ok req <-> signed_by_group env st r g req.
Proof.
  unfold session_by_jws, signed_by_group. split.
  - destruct (readJSONBody json_jws r) as [jws|] eqn:Er; [|done].
    apply readJSONBody_iff in Er as (raw & Hb & Hne & Hj). unfold GetCert. destruct (GetByNid st g) as [group|] eqn:Eg; [|done].
    destruct (bool_decide _) eqn:Ero; [|done]. destruct (is_revoked group) eqn:Erv; [done|]. cbn [negb].
    destruct (DecodePublicKey _) as [key|] eqn:Ek; [|done]. destruct (VerifyGroupJws _ _ _) as [[payload kid]|] eqn:Ev; [|done].
    apply verify_jws_iff in Ev as ((? & ? & ? & ?) & head & sig & body & ? & ? & ? & -> & ? & Hh). destruct (String.eqb_spec kid g) as [->|]; [|done]. cbn [negb].
    destruct (json_payload _) as [payload [e|]] eqn:Ep; [done|]. destruct (iat_outside _ _ _) eqn:Ei; [done|]. intros [= <-].
    bool_hyps. exists raw, jws, group, key, head, sig, payload, body. split_and!; done.
  - intros (raw & jws & group & key & head & sig & payload & body & Hb & Hne & Hj & H1' & H2' & H3' & H4' & Hg & Hro & Hrv & Hk & Hs & Hv & Hh & Hhj & Hp & Hpj & Hi & ->).
    rewrite (proj2 (readJSONBody_iff json_jws r jws)) by by exists raw. unfold GetCert. rewrite Hg, Hro, bool_decide_eq_true_2, Hrv, Hk by done. cbn [negb].
    rewrite (proj2 (verify_jws_iff jws key (string_of_bytes body) g)); [|split; [done|by exists head, sig, body]].
    rewrite String.eqb_refl. cbn [negb]. by rewrite Hpj, Hi.
Qed.

Lemma with_store_same s : with_store s (cs_store s) = s.
Proof. by destruct s. Qed.

(** The routes that answer without the operator's key. *)
Definition public (x : route) (r : http_request) : bool :=
  match x with
  | WellKnown | CaCert | Crl | VerifyRoute _ => true
  | IssueSessionRoute _ => isJwsBody r
  | _ => false
  end.

Lemma handle_unauthorized env s r x :
  key_given r = false -> public x r = false -> handle_route env s r x = (writeUnauthorized, s).
Proof.
  intros Ha Hp. destruct x; cbn [handle public] in *; try done;
    unfold handleCertificates, handleRegister, handleRegisterX509, handleRegisterGroup, handleCreateToken, handleListPending, handleRenew,
      handleRevoke, handleListSessions, handleApprovePending, handleRejectPending; rewrite ?Ha; try done.
  unfold handleIssueSession, session_by_operator. by rewrite Hp, Ha.
Qed.

(** C30. Only an authorized request changes the stores, or one that the key of a live group
    signed, which issues the session that was signed and does nothing else.  A request
    that is neither is answered with 401 on every route that is not public, and public
    routes change nothing. *)
Theorem request_authority env s r :
  let '(resp, s') := serve env s r in
  key_given r = true \/
  (s' = s /\ (forall x, find_route rt r = Some x -> public x r = false -> resp = writeUnauthorized)) \/
  (exists g req, find_route rt r = Some (IssueSessionRoute g) /\ signed_by_group env (cs_store s) r g req /\
    s' = with_store s (issue_session (cs_store s) (en_session env) g (is_SessionPubKey req) (session_params req)).2).
Proof.
  destruct (serve env s r) as [resp s'] eqn:E. destruct (key_given r) eqn:Ha; [by left|right]. unfold ServeHTTP in E.
  destruct (find_route rt r) as [x|]; [|injection E as <- <-; by left].
  destruct (public x r) eqn:Hp; [|rewrite handle_unauthorized in E by done; injection E as <- <-; left; split; [done|congruence]].
  destruct x; try discriminate Hp; cbn [handle] in E; try (injection E as <- <-; left; split; [done|intros ? [= <-]; by rewrite Hp]).
  cbn [public] in Hp. unfold handleIssueSession in E. rewrite Hp in E.
  destruct (jws_session env (cs_store s) r groupNid) as [req|resp'] eqn:Ej;
    [|injection E as <- <-; left; split; [done|intros ? [= <-]; cbn; by rewrite Hp]].
  destruct (negb _); [injection E as <- <-; left; split; [done|intros ? [= <-]; cbn; by rewrite Hp]|].
  right. exists groupNid, req. split_and!; [done|by apply jws_session_iff|]. destruct (issue_session _ _ _ _ _) as [res st]. by injection E as _ <-.
Qed.

(** *** Requests are operations of the service *)

Definition stated_reason (r : http_request) : string :=
  let given := decodeBody "" json_reason r in if String.eqb given "" then "cessation_of_operation" else given.

(** The operation that a request asks for, with the values that it gives: the request
    takes the route of the operation, the operator sent it (or, for a session, the key of
    the group signed it), its body decodes and is valid, and for a registration the
    enrollment policy passes it, or the operator approves one that is pending. *)
Inductive asks (env : request_env) (s : ca_state) (r : http_request) : ca_op -> Prop :=
| asks_register entityType defaultCaps req :
    let caps := default defaultCaps (rr_Capabilities req) in
    let scope := or_empty_object (rr_ScopeJson req) in
    find_route rt r = Some (RegisterAs entityType defaultCaps) -> key_given r = true -> posted json_register r req ->
    identifierRe (rr_Identifier req) = true -> validPubKey (rr_PubKey req) = true ->
    (Policy_Check (en_policy env) (policy_now (rt_policy rt) s) entityType (rr_Identifier req) (rr_PubKey req) caps scope
       (rr_MetadataJson req) (Header_Get r "X-NPS-Enrollment-Token")).1 = Ok tt ->
    asks env s r (OpRegister (en_now env) entityType (rr_Identifier req) (rr_PubKey req) caps scope (rr_MetadataJson req))
| asks_x509 entityType defaultCaps req :
    find_route rt r = Some (RegisterX509As entityType defaultCaps) -> key_given r = true -> posted json_x509 r req ->
    identifierRe (rx_Identifier req) = true -> validPubKey (rx_PubKey req) = true ->
    asks env s r (OpRegisterX509 (en_now env) (en_tenYears env) (en_certRand env) entityType (rx_Identifier req) (rx_PubKey req)
      (default defaultCaps (rx_Capabilities req)) (or_empty_object (rx_ScopeJson req)) (parseAssuranceLevel (rx_AssuranceLevel req))
      (rx_MetadataJson req) None)
| asks_group req :
    find_route rt r = Some RegisterGroupRoute -> key_given r = true -> posted json_group r req ->
    (rg_Identifier req = "" \/ identifierRe (rg_Identifier req) = true) -> validPubKey (rg_PubKey req) = true ->
    asks env s r (OpGroup (en_now env) (en_rand env) (rg_Identifier req) (rg_PubKey req) (default [] (rg_Capabilities req))
      (or_empty_object (rg_ScopeJson req)) (rg_OwnerUserId req) (rg_OwnerKeyId req) (rg_MetadataJson req))
| asks_session g req :
    find_route rt r = Some (IssueSessionRoute g) ->
    (if isJwsBody r then signed_by_group env (cs_store s) r g req else key_given r = true /\ posted json_session r req) ->
    validPubKey (is_SessionPubKey req) = true ->
    asks env s r (OpSession (en_session env) g (is_SessionPubKey req) (session_params req))
| asks_renew nid :
    find_route rt r = Some (RenewRoute nid) -> key_given r = true -> asks env s r (OpRenew (en_now env) nid)
| asks_revoke nid :
    find_route rt r = Some (RevokeRoute nid) -> key_given r = true -> stated_reason r ∈ validRevocationReasons ->
    asks env s r (OpRevoke (en_now env) nid (stated_reason r))
| asks_approve id queue rec :
    find_route rt r = Some (ApprovePending id) -> key_given r = true -> cs_queue s = Some queue -> Pending_Get queue id = Some rec ->
    pr_Status rec = Pending ->
    asks env s r (OpRegister (en_now env) (pr_EntityType rec) (pr_Identifier rec) (pr_PubKey rec) (pr_Capabilities rec) (pr_ScopeJson rec)
      (pr_MetadataJson rec)).

(** The answer to an operation: what it issued, or its error. *)
Definition answer_of (st : InMemoryNipCaStore) (op : ca_op) : http_response :=
  match op with
  | OpRegister now e i k caps sc md => issued_response 201 (Register json_UnmarshalMap ed25519_Sign isoTime ca_opts st now e i k caps sc md).1
  | OpRegisterX509 now ten rand e i k caps sc a md root =>
      issued_response 201 (RegisterX509 json_UnmarshalMap ed25519_Sign ca_pub isoTime url_Parse CreateCertificate b64_error ca_opts
        st now ten rand e i k caps sc a md root).1
  | OpGroup now rand i k caps sc o ky md =>
      issued_response 201 (RegisterGroup json_UnmarshalMap ed25519_Sign isoTime ca_opts st now rand i k caps sc o ky md).1
  | OpSession env g k p => issued_response 201 (issue_session st env g k p).1
  | OpRenew now nid => issued_response 200 (Renew json_UnmarshalMap ed25519_Sign isoTime ca_opts st now nid).1
  | OpRevoke now nid reason =>
      match (NipCa.Revoke ed25519_Sign isoTime ca_opts st now nid reason).1 with
      | Ok frame => writeJSON 200 (revokeFrameWire frame)
      | Err e => writeCaError e
      end
  end.

(** The store and the answer are those of the operation that is asked for; when none is,
    the store is left alone. *)
Definition performs (env : request_env) (s : ca_state) (r : http_request) (out : http_response * ca_state) : Prop :=
  (exists op, asks env s r op /\ cs_store out.2 = step (cs_store s) op /\ out.1 = answer_of (cs_store s) op) \/
  ((forall op, ~ asks env s r op) /\ cs_store out.2 = cs_store s).

Lemma validateRegister_iff i k : validateRegister i k = None <-> identifierRe i = true /\ validPubKey k = true.
Proof.
  unfold validateRegister. split.
  - destruct (_ || _); [done|]. destruct (identifierRe i); [|done]. by destruct (validPubKey k).
  - intros [Hi Hk]. destruct (String.eqb_spec i "") as [->|_]; [done|]. destruct (String.eqb_spec k "") as [->|_]; [done|]. cbn [orb]. by rewrite Hi, Hk.
Qed.

Lemma register_not_pending st now e i k caps sc md id : (Register json_UnmarshalMap ed25519_Sign isoTime ca_opts st now e i k caps sc md).1 <> Err (ErrRaPending id).
Proof.
  unfold Register. destruct (GetByNid st _); [done|]. unfold checkAllowedCaps.
  destruct (match AllowedCapabilities ca_opts with Some _ => _ | None => _ end) as [[]|err] eqn:Ec.
  2: { destruct (AllowedCapabilities ca_opts); [|done]. destruct (List.filter _ _) in Ec; [done|]. by injection Ec as <-. }
  unfold NextSerial. cbv zeta. unfold issueFrame, json_object. destruct (if String.eqb sc "" then _ else _) as [scope|err] eqn:Es.
  2: { destruct (String.eqb sc "") in Es; [done|]. destruct (json_UnmarshalMap sc) in Es; [done|]. by injection Es as <-. }
  destruct (if String.eqb md "" then _ else _) as [meta|err] eqn:Em.
  2: { destruct (String.eqb md "") in Em; [done|]. destruct (json_UnmarshalMap md) in Em; [done|]. by injection Em as <-. }
  unfold save_issued, Save. by destruct (existsb _ _).
Qed.

(** Pass the guards of a handler, each refusal by [t]. *)
Ltac pass_guards t :=
  repeat first
    [ destruct (negb _); [t|] | destruct (_ && _); [t|] | destruct (readJSONBody _ _) as [?req|]; [|t]
    | destruct (validateRegister _ _); [t|] | destruct (if isJwsBody _ then _ else _) as [?req|]; [|t]
    | match goal with |- context [match cs_queue ?s with _ => _ end] => is_var s; destruct (cs_queue s); [|t] end | destruct (Pending_Get _ _) as [?rec|]; [|t] ].

(** Nothing is asked for: the route is another one, or a guard refuses. *)
Ltac asked_facts :=
  repeat match goal with
         | Hp : posted _ _ _ |- _ => apply readJSONBody_iff in Hp
         | Hv : validateRegister _ _ = None |- _ => apply validateRegister_iff in Hv as [??]
         end.
Ltac nothing_asked := right; split; [|done]; intros op Ha; inversion Ha; asked_facts; simplify_eq; try congruence.

Lemma unasked env s r x : find_route rt r = Some x ->
  match x with
  | WellKnown | CaCert | Crl | Certificates | CreateToken | ListPending | VerifyRoute _ | ListSessionsRoute _ | RejectPending _ => forall op, ~ asks env s r op
  | _ => True
  end.
Proof. intros Er. destruct x; try done; intros op Ha; inversion Ha; congruence. Qed.

Lemma register_performs env s r entityType caps : find_route rt r = Some (RegisterAs entityType caps) ->
  performs env s r (handle_route env s r (RegisterAs entityType caps)).
Proof.
  intros Er. cbn [handle]. unfold performs, handleRegister. destruct (key_given r) eqn:Ek; cbn [negb]; [|nothing_asked].
  destruct (readJSONBody json_register r) as [req|resp] eqn:Eb; [|nothing_asked].
  destruct (validateRegister _ _) as [msg|] eqn:Ev.
  { nothing_asked. match goal with Hi : identifierRe _ = true, Hk : validPubKey _ = true |- _ => pose proof (proj2 (validateRegister_iff _ _) (conj Hi Hk)) end. congruence. }
  apply validateRegister_iff in Ev as [Hi Hk]. pose proof (proj1 (readJSONBody_iff _ _ _) Eb) as Hp. unfold RegisterWithRa.
  destruct (Policy_Check _ _ _ _ _ _ _ _ _) as [[[]|e] pol] eqn:Ec.
  - left. eexists. split; [eapply asks_register; try done; by rewrite Ec|]. cbn [ca_step answer_of].
    set (req1 := rr_Identifier req). pose proof (register_not_pending (cs_store s) (en_now env) entityType req1 (rr_PubKey req) (default caps (rr_Capabilities req))
      (or_empty_object (rr_ScopeJson req)) (rr_MetadataJson req)) as Hn.
    destruct (Register _ _ _ _ _ _ _ _ _ _ _ _) as [res st]. cbn [fst snd] in *. split; [done|].
    destruct res as [f|err]; [done|]. destruct err; try done. by destruct (Hn _ eq_refl).
  - right. split; [|by destruct pol]. intros op Ha. inversion Ha; asked_facts; simplify_eq; try congruence.
    assert (req0 = req) as -> by congruence. subst caps0 scope. by match goal with Hc : _ = Ok () |- _ => rewrite Ec in Hc end.
Qed.

Lemma x509_performs env s r entityType caps : find_route rt r = Some (RegisterX509As entityType caps) ->
  performs env s r (handle_route env s r (RegisterX509As entityType caps)).
Proof.
  intros Er. cbn [handle]. unfold performs, handleRegisterX509. destruct (key_given r) eqn:Ek; cbn [negb]; [|nothing_asked].
  destruct (readJSONBody json_x509 r) as [req|resp] eqn:Eb; [|nothing_asked].
  destruct (validateRegister _ _) as [msg|] eqn:Ev.
  { nothing_asked. match goal with Hi : identifierRe _ = true, Hk : validPubKey _ = true |- _ => pose proof (proj2 (validateRegister_iff _ _) (conj Hi Hk)) end. congruence. }
  apply validateRegister_iff in Ev as [Hi Hk]. pose proof (proj1 (readJSONBody_iff _ _ _) Eb) as Hp.
  left. eexists. split; [by eapply asks_x509|]. cbn [ca_step answer_of]. by destruct (RegisterX509 _ _ _ _ _ _ _ _ _ _ _ _ _ _ _ _ _ _ _ _).
Qed.

Lemma group_performs env s r : find_route rt r = Some RegisterGroupRoute -> performs env s r (handle_route env s r RegisterGroupRoute).
Proof.
  intros Er. cbn [handle]. unfold performs, handleRegisterGroup. destruct (key_given r) eqn:Ek; cbn [negb]; [|nothing_asked].
  destruct (readJSONBody json_group r) as [req|resp] eqn:Eb; [|nothing_asked]. pose proof (proj1 (readJSONBody_iff _ _ _) Eb) as Hp.
  destruct (negb (String.eqb (rg_Identifier req) "") && negb (identifierRe (rg_Identifier req))) eqn:Ei.
  { nothing_asked. apply andb_true_iff in Ei as [Ei1 Ei2]. bool_hyps. destruct_or?; congruence. }
  destruct (validPubKey (rg_PubKey req)) eqn:Ev; cbn [negb]; [|nothing_asked].
  left. eexists. split.
  - eapply asks_group; try done. destruct (String.eqb_spec (rg_Identifier req) ""); [by left|right]. cbn in Ei. by apply negb_false_iff in Ei.
  - cbn [ca_step answer_of]. by destruct (RegisterGroup _ _ _ _ _ _ _ _ _ _ _ _ _ _).
Qed.

Lemma renew_performs env s r nid : find_route rt r = Some (RenewRoute nid) -> performs env s r (handle_route env s r (RenewRoute nid)).
Proof.
  intros Er. cbn [handle]. unfold performs, handleRenew. destruct (key_given r) eqn:Ek; cbn [negb]; [|nothing_asked].
  left. eexists. split; [by apply asks_renew|]. cbn [ca_step answer_of]. by destruct (Renew _ _ _ _ _ _ _).
Qed.

Lemma revoke_performs env s r nid : find_route rt r = Some (RevokeRoute nid) -> performs env s r (handle_route env s r (RevokeRoute nid)).
Proof.
  intros Er. cbn [handle]. unfold performs, handleRevoke. destruct (key_given r) eqn:Ek; cbn [negb]; [|nothing_asked].
  cbv zeta. fold (stated_reason r). destruct (mem_string (stated_reason r) validRevocationReasons) eqn:Em; cbn [negb].
  - apply mem_string_true in Em. left. eexists. split; [by apply asks_revoke|]. cbn [ca_step answer_of]. by destruct (NipCa.Revoke _ _ _ _ _ _ _) as [[f|e] st].
  - nothing_asked. match goal with Hi : stated_reason r ∈ _ |- _ => apply mem_string_true in Hi end. congruence.
Qed.

Lemma session_performs env s r g : find_route rt r = Some (IssueSessionRoute g) -> performs env s r (handle_route env s r (IssueSessionRoute g)).
Proof.
  intros Er. cbn [handle]. unfold performs, handleIssueSession.
  assert (Hreq : forall req, (if isJwsBody r then jws_session env (cs_store s) r g else session_by_operator rt r) = Ok req <->
    (if isJwsBody r then signed_by_group env (cs_store s) r g req else key_given r = true /\ posted json_session r req)).
  { intros req. destruct (isJwsBody r); [apply jws_session_iff|]. unfold session_by_operator. destruct (key_given r); cbn [negb]; [|by split; [|intros [? _]]].
    rewrite readJSONBody_iff. tauto. }
  destruct (if isJwsBody r then jws_session _ _ _ _ else _) as [req|resp] eqn:Eq.
  - pose proof (proj1 (Hreq req) eq_refl) as Hq. destruct (validPubKey (is_SessionPubKey req)) eqn:Ev; cbn [negb].
    + left. eexists. split; [by eapply asks_session|]. cbn [ca_step answer_of]. by destruct (issue_session _ _ _ _ _).
    + right. split; [|done]. intros op Ha. inversion Ha; simplify_eq; try congruence.
      match goal with Hq' : if isJwsBody r then _ else _ |- _ => apply Hreq in Hq' end. simplify_eq. congruence.
  - right. split; [|done]. intros op Ha. inversion Ha; simplify_eq; try congruence.
    match goal with Hq' : if isJwsBody r then _ else _ |- _ => apply Hreq in Hq' end. congruence.
Qed.

Lemma approve_performs env s r id : find_route rt r = Some (ApprovePending id) -> performs env s r (handle_route env s r (ApprovePending id)).
Proof.
  intros Er. cbn [handle]. unfold performs, handleApprovePending. destruct (key_given r) eqn:Ek; cbn [negb]; [|nothing_asked].
  destruct (cs_queue s) as [queue|] eqn:Eq; [|nothing_asked]. destruct (Pending_Get queue id) as [rec|] eqn:Eg; [|nothing_asked].
  destruct (is_pending rec) eqn:Ei; cbn [negb].
  - unfold is_pending in Ei. apply bool_decide_eq_true in Ei. left. eexists. split; [by eapply asks_approve|]. cbn [ca_step answer_of].
    by destruct (Register _ _ _ _ _ _ _ _ _ _ _ _).
  - unfold is_pending in Ei. apply bool_decide_eq_false in Ei. nothing_asked.
Qed.

Lemma session_request_unique env st r g req req' :
  (if isJwsBody r then signed_by_group env st r g req else key_given r = true /\ posted json_session r req) ->
  (if isJwsBody r then signed_by_group env st r g req' else key_given r = true /\ posted json_session r req') -> req = req'.
Proof. destruct (isJwsBody r); rewrite <-?jws_session_iff, <-?readJSONBody_iff; [|intros [_ ?] [_ ?]]; congruence. Qed.

(** A request asks for one operation at most. *)
Lemma asks_at_most_one env s r op op' : asks env s r op -> asks env s r op' -> op = op'.
Proof.
  intros Ha Hb. inversion Ha; inversion Hb; asked_facts; simplify_eq; try congruence.
  - subst. repeat match goal with x := _ |- _ => subst x end. congruence.
  - assert (req = req0) as -> by (by eapply session_request_unique). done.
Qed.

Lemma serve_performs env s r : performs env s r (serve env s r).
Proof.
  unfold ServeHTTP. destruct (find_route rt r) as [x|] eqn:Er; [|right; split; [intros op Ha; inversion Ha; congruence|done]].
  pose proof (unasked env s r x Er) as Hu.
  destruct x; try (right; split; [exact Hu|done]);
    [by apply register_performs|by apply x509_performs|by apply group_performs| |by apply renew_performs|by apply revoke_performs|by apply session_performs|
     by apply approve_performs|]; cbn [handle]; (right; split; [exact Hu|]).
  - unfold handleCreateToken. destruct (negb _); [done|]. destruct (cs_tokens s); [|done]. cbv zeta. by destruct (Tokens_Create _ _ _ _ _ _ _).
  - unfold handleRejectPending. destruct (negb _); [done|]. destruct (cs_queue s); [|done]. cbv zeta. by destruct (Reject _ _ _) as [[] q].
Qed.

(** *** Histories *)

Abbreviation event := (request_env * http_request)%type.

Definition http_step (s : ca_state) (ev : event) : ca_state := (serve ev.1 s ev.2).2.
Definition http_run (s : ca_state) (evs : list event) : ca_state := fold_left http_step evs s.

(** The random part of a session name makes it new. *)
Fixpoint sessions_new (s : ca_state) (evs : list event) : Prop :=
  match evs with
  | [] => True
  | ev :: evs => GetByNid (cs_store s) (session_nid ca_opts (en_session ev.1)) = None /\ sessions_new (http_step s ev) evs
  end.

(** The operations that requests ask for, in order, each answered with its outcome; a
    request that asks for none leaves the store alone. *)
Inductive performed : ca_state -> list event -> list ca_op -> Prop :=
| performed_nil s : performed s [] []
| performed_op s ev evs op ops :
    asks ev.1 s ev.2 op -> (serve ev.1 s ev.2).1 = answer_of (cs_store s) op -> performed (http_step s ev) evs ops ->
    performed s (ev :: evs) (op :: ops)
| performed_none s ev evs ops :
    (forall op, ~ asks ev.1 s ev.2 op) -> cs_store (http_step s ev) = cs_store s -> performed (http_step s ev) evs ops ->
    performed s (ev :: evs) ops.

Lemma performed_length s evs ops : performed s evs ops -> (length ops <= length evs)%nat.
Proof. induction 1; cbn [length]; lia. Qed.

Lemma performed_unique s evs ops ops' : performed s evs ops -> performed s evs ops' -> ops = ops'.
Proof.
  intros Hp. revert ops'. induction Hp as [s|s ev evs op ops Ha Hans _ IH|s ev evs ops Hno Hst _ IH]; intros ops' Hq; inversion Hq; subst.
  - done.
  - f_equal; [by eapply asks_at_most_one|by apply IH].
  - exfalso. by match goal with Hn : forall op, ~ asks _ _ _ op |- _ => eapply Hn end.
  - exfalso. by match goal with Hn : forall op, ~ asks _ _ _ op |- _ => eapply Hn end.
  - by apply IH.
Qed.

Lemma run_is_ops s evs :
  sessions_new s evs ->
  exists ops, performed s evs ops /\ fresh_ops (cs_store s) ops /\ cs_store (http_run s evs) = run_ops (cs_store s) ops.
Proof.
  revert s. induction evs as [|ev evs IH]; intros s; [exists []; repeat split; constructor|]. intros [Hn Hr].
  destruct (IH (http_step s ev) Hr) as (ops & Hp & Hf & E). change (http_run s (ev :: evs)) with (http_run (http_step s ev) evs). rewrite E.
  destruct (serve_performs ev.1 s ev.2) as [(op & Ha & Es & Hans)|[Ha Es]]; unfold http_step in *; rewrite Es in *.
  - exists (op :: ops). split; [by constructor|]. split; [|done]. split; [|done]. by inversion Ha.
  - exists ops. split_and!; [by constructor|done|done].
Qed.

(** C31. The HTTP interface implements the service: whatever requests arrive, in whatever
    order, the records of the CA are those of the operations of the service that the
    requests ask for, in that order, and each of these requests is answered with what
    its operation returned; every other request leaves the records as they are. What the
    requests ask for is determined: a request asks for one operation at most, by its
    route and with its own values, when the operator sent it (or, for a session, the key
    of the group signed it), its body decodes and is valid, and the enrollment policy
    passes the registration; and the operator asks for the registration of a pending
    enrollment by approving it. From an empty store, and below 2^63 requests, all serials
    are distinct and every record is found by its serial. The random part of the name of
    a session is taken to make it new. *)
Theorem http_refines_service tokens queue evs :
  let s0 := MkCaState NewInMemoryNipCaStore tokens queue in
  sessions_new s0 evs -> Z.of_nat (length evs) < maxInt64 ->
  let st := cs_store (http_run s0 evs) in
  (exists ops, (forall ops', performed s0 evs ops' <-> ops' = ops) /\ fresh_ops NewInMemoryNipCaStore ops /\
    st = run_ops NewInMemoryNipCaStore ops) /\
  serial_inv st /\ (forall r, r ∈ records st -> GetBySerial st (c_Serial r) = Some r).
Proof.
  cbv zeta. intros Hn Hl. destruct (run_is_ops _ _ Hn) as (ops & Hp & Hf & E). cbn [cs_store] in *. rewrite E.
  split; [exists ops; split; [|done]; intros ops'; split; [intros Hq; by eapply performed_unique|by intros ->]|].
  pose proof (performed_length _ _ _ Hp) as Ho.
  destruct (run_serial_inv json_UnmarshalMap ed25519_Sign ca_pub isoTime fmt_duration url_Parse CreateCertificate b64_error ca_opts ops
              NewInMemoryNipCaStore) as [Hi _]; [|cbn; lia|done|].
  { split_and!; [done|constructor|by intros x ?%not_elem_of_nil]. }
  split; [done|]. intros r Hr. apply find_by_serial; [by destruct Hi as (_ & ? & _)|done].
Qed.

(** *** Revocation *)

Lemma ca_error_range code : 400 <= caErrorStatus code <= 409.
Proof. unfold caErrorStatus. repeat case_match; lia. Qed.

Lemma ca_error_status e : 400 <= resp_Status (writeCaError e) <= 409.
Proof. destruct e; cbn; try lia. apply ca_error_range. Qed.

Lemma revoke_route_ok env s r nid :
  find_route rt r = Some (RevokeRoute nid) -> resp_Status (serve env s r).1 = 200 ->
  exists reason f, reason ∈ validRevocationReasons /\
    NipCa.Revoke ed25519_Sign isoTime ca_opts (cs_store s) (en_now env) nid reason = (Ok f, cs_store (serve env s r).2).
Proof.
  intros Er. unfold ServeHTTP. rewrite Er. cbn [handle]. unfold handleRevoke. destruct (negb _); [done|].
  destruct (mem_string _ _) eqn:Em; cbn [negb]; [|done]. apply mem_string_true in Em. intros Hs.
  eexists. destruct (NipCa.Revoke _ _ _ _ _ _ _) as [[f|e] st] eqn:E; cbn [fst] in Hs; [exists f|pose proof (ca_error_status e); lia].
  split; [done|]. exact E.
Qed.

Lemma revoked_in_crl now st nid :
  revoked_now st nid -> exists r, c_Nid r = nid /\ is_revoked r = true /\
    dict_get "entries" (resp_Body (handleCrl ed25519_Sign isoTime rt now st)) = Some (VMaps (crl_entry isoTime <$> Slice crl_less (GetCrl st))) /\
    crl_entry isoTime r ∈ crl_entry isoTime <$> Slice crl_less (GetCrl st).
Proof.
  intros (r & Hl & Hr). apply latest_Some in Hl as [Hin Hn]. exists r. split_and!; [done|done|reflexivity|].
  apply list_elem_of_fmap_2. rewrite Slice_perm. unfold GetCrl, GetRevoked. apply list_elem_of_In, List.filter_In. by rewrite <- list_elem_of_In.
Qed.

(** A revocation that was acknowledged holds for every later client: after any further
    requests, a verification of the NID answers that it is revoked, and every revocation
    list names it. *)
Theorem revocation_over_http env s r nid evs :
  find_route rt r = Some (RevokeRoute nid) -> resp_Status (serve env s r).1 = 200 -> sessions_new (serve env s r).2 evs ->
  let s' := http_run (serve env s r).2 evs in
  (forall env' r', find_route rt r' = Some (VerifyRoute nid) ->
    exists msg, (serve env' s' r').1 =
      MkHttpResponse 200 [("valid", VBool false); ("error_code", VString ErrCertRevoked); ("message", VString msg)]) /\
  (forall env' r', find_route rt r' = Some Crl ->
    exists entries rec, dict_get "entries" (resp_Body (serve env' s' r').1) = Some (VMaps entries) /\
      c_Nid rec = nid /\ is_revoked rec = true /\ crl_entry isoTime rec ∈ entries).
Proof.
  intros Er Hs Hn. cbv zeta. destruct (revoke_route_ok env s r nid Er Hs) as (reason & f & _ & E).
  assert (Hrev : revoked_now (cs_store (http_run (serve env s r).2 evs)) nid).
  { destruct (run_is_ops _ _ Hn) as (ops & _ & Hf & ->). eapply run_keeps_revoked; [done|].
    destruct (revoke_spec ed25519_Sign isoTime ca_opts (cs_store s) (en_now env) nid reason) as [_ Hr].
    rewrite E in Hr. exact (Hr f eq_refl). }
  set (s' := http_run _ _) in *. clearbody s'. set (st := cs_store s') in *. split; intros env' r' Er'; unfold ServeHTTP; rewrite Er'; cbn [handle fst].
  - fold st. destruct Hrev as (rec & Hl & Hr). unfold handleVerify, Verify. change (GetByNid st nid) with (latest nid (records st)). rewrite Hl.
    unfold is_revoked in Hr. destruct (c_RevokedAt rec); [|done]. cbn [verifyFail ca_Valid ca_ErrorCode ca_Message]. by eexists.
  - fold st. destruct (revoked_in_crl (en_now env') st nid Hrev) as (rec & ? & ? & ? & ?). eexists _, rec. split_and!; done.
Qed.

(** *** Enrollment by token *)

(** The routes taken and the answers given. *)
Fixpoint http_trace (s : ca_state) (evs : list event) : list (option route * http_response) :=
  match evs with
  | [] => []
  | ev :: evs => (find_route rt ev.2, (serve ev.1 s ev.2).1) :: http_trace (http_step s ev) evs
  end.

Definition enrolled (x : option route * http_response) : bool :=
  match x.1 with Some (RegisterAs _ _) => resp_Status x.2 =? 201 | _ => false end.
Definition token_created (x : option route * http_response) : bool :=
  match x.1 with Some CreateToken => resp_Status x.2 =? 201 | _ => false end.

Definition count {A} (f : A -> bool) (l : list A) : nat := length (List.filter f l).

Lemma count_cons {A} (f : A -> bool) x l : count f (x :: l) = ((if f x then 1 else 0) + count f l)%nat.
Proof. unfold count. cbn. by destruct (f x). Qed.
Lemma count_app {A} (f : A -> bool) a b : count f (a ++ b) = (count f a + count f b)%nat.
Proof. unfold count. by rewrite List.filter_app, length_app. Qed.
Lemma count_le {A} (f : A -> bool) l : (count f l <= length l)%nat.
Proof. apply List.filter_length_le. Qed.

(** A check that passes consumes one entry; one that fails changes nothing. *)
Lemma token_check_consumes hash clock tokens token :
  let '(res, tokens') := BootstrapTokenPolicy_Check hash clock tokens token in
  length tokens' = length tokens /\ count b_consumed tokens' = ((if is_ok res then 1 else 0) + count b_consumed tokens)%nat.
Proof.
  unfold BootstrapTokenPolicy_Check, ValidateAndConsume. destruct (_ || _); [by split|].
  pose proof (consume_loop_spec clock 0 (hash token) tokens) as Hc. destruct (consume_loop _ _ _ _) as [[] tokens'].
  - destruct Hc as (l1 & e & l2 & -> & -> & _ & He & _). rewrite !length_app, !count_app, !count_cons, He. cbn. split; lia.
  - subst. by split.
Qed.

Definition enrolls (x : route) : bool := match x with RegisterAs _ _ | CreateToken => true | _ => false end.

Lemma field_of_op {A B C} (f : ca_state -> C) (c : A * InMemoryNipCaStore) (k : A -> InMemoryNipCaStore -> B * ca_state) v :
  (forall a st, f (k a st).2 = v) -> f (let '(a, st) := c in k a st).2 = v.
Proof. destruct c. intros Hk. apply Hk. Qed.

Lemma handle_keeps_tokens env s r x : enrolls x = false -> cs_tokens (handle_route env s r x).2 = cs_tokens s.
Proof.
  destruct x; try discriminate; intros _; cbn [handle snd]; try done;
    [unfold handleRegisterX509|unfold handleRegisterGroup|unfold handleRenew|unfold handleRevoke|unfold handleIssueSession
    |unfold handleApprovePending|unfold handleRejectPending]; pass_guards done; try (by apply (field_of_op cs_tokens)).
  by destruct (Reject _ _ _) as [[] q].
Qed.

Lemma not_created e : (resp_Status (writeCaError e) =? 201) = false.
Proof. pose proof (ca_error_status e). apply Z.eqb_neq. lia. Qed.

(** What a request does to the tokens, under the policy that requires them. *)
Lemma tokens_step hash ts0 env s r tokens :
  rt_policy rt = Bootstrap hash ts0 -> cs_tokens s = Some tokens ->
  let '(resp, s') := serve env s r in
  exists tokens', cs_tokens s' = Some tokens' /\
    length tokens' = ((if token_created (find_route rt r, resp) then 1 else 0) + length tokens)%nat /\
    ((if enrolled (find_route rt r, resp) then 1 else 0) + count b_consumed tokens <= count b_consumed tokens')%nat.
Proof.
  intros Hp Ht. unfold ServeHTTP. destruct (find_route rt r) as [x|]; [|by exists tokens].
  destruct (enrolls x) eqn:Ex.
  2: { destruct (handle_route env s r x) as [resp s'] eqn:E. exists tokens. split; [|by destruct x].
       rewrite <- Ht, <- (handle_keeps_tokens env s r x Ex). by rewrite E. }
  unfold token_created, enrolled. destruct x; try discriminate Ex; cbn [handle fst snd].
  - unfold handleRegister. destruct (negb _); [by exists tokens|]. destruct (readJSONBody _ _) as [req|resp] eqn:Er.
    2: { exists tokens. split_and!; [done..|]. unfold readJSONBody in Er. by repeat case_match; simplify_eq. }
    destruct (validateRegister _ _); [by exists tokens|]. unfold RegisterWithRa, policy_now. rewrite Hp, Ht. cbn [default Policy_Check].
    pose proof (token_check_consumes hash (pe_clock (en_policy env)) tokens (Header_Get r "X-NPS-Enrollment-Token")) as Hc.
    destruct (BootstrapTokenPolicy_Check _ _ _ _) as [res tokens']. destruct Hc as [Hl Hc]. destruct res as [[]|e]; cbn [is_ok] in Hc.
    + destruct (Register _ _ _ _ _ _ _ _ _ _ _ _) as [res st]. exists tokens'. cbn. split_and!; [done|done|]. case_match; lia.
    + exists tokens'. cbn [cs_tokens with_store policy_effect]. split_and!; [done|done|]. destruct e; cbn [issued_response resp_Status writeJSON];
        rewrite ?not_created; cbn; lia.
  - unfold handleCreateToken. destruct (negb _); [by exists tokens|]. rewrite Ht. unfold Tokens_Create. cbv zeta.
    eexists. cbn [cs_tokens]. split; [reflexivity|]. rewrite length_app, count_app. cbn. split; lia.
Qed.

(** Tokens back enrollment: where the policy requires bootstrap tokens, however requests
    are ordered and whatever tokens they present, no more registrations succeed than the
    operator created tokens. *)
Theorem enrollment_is_backed hash ts0 s evs :
  rt_policy rt = Bootstrap hash ts0 -> cs_tokens s = Some [] ->
  (count enrolled (http_trace s evs) <= count token_created (http_trace s evs))%nat.
Proof.
  intros Hp Hs.
  assert (H3 : forall tokens s, cs_tokens s = Some tokens ->
    (count enrolled (http_trace s evs) + count b_consumed tokens <= count token_created (http_trace s evs) + length tokens)%nat);
    [|specialize (H3 [] s Hs); cbn in H3; lia].
  clear s Hs. induction evs as [|ev evs IH]; intros tokens s Hs; [apply count_le|]. cbn [http_trace]. rewrite !count_cons.
  pose proof (tokens_step hash ts0 ev.1 s ev.2 tokens Hp Hs) as Hstep. unfold http_step. destruct (serve ev.1 s ev.2) as [resp s'].
  destruct Hstep as (tokens' & Hs' & Hl & Hc). cbn [fst snd]. specialize (IH tokens' s' Hs'). lia.
Qed.

(** *** Enrollment by approval *)

(** What a request does to the queue. *)
Definition queue_change (env : request_env) (q : InMemoryPendingStore) (o : option InMemoryPendingStore) : Prop :=
  exists q', o = Some q' /\
    (q' = q \/ exists m op, q' = queue_step m q op /\
       (forall e i k c sc md rand n1 n2, op = QCheck e i k c sc md rand n1 n2 -> rand = pe_rand (en_policy env))).

Lemma queue_same env q o : o = Some q -> queue_change env q o.
Proof. intros ->. exists q. auto. Qed.

Lemma handle_queue env s r x q : cs_queue s = Some q -> queue_change env q (cs_queue (handle_route env s r x).2).
Proof.
  intros Hq. pose proof (queue_same env q _ Hq) as Hk. destruct x; cbn [handle snd]; try exact Hk;
    [unfold handleRegister|unfold handleRegisterX509|unfold handleRegisterGroup|unfold handleCreateToken|unfold handleRenew
    |unfold handleRevoke|unfold handleIssueSession|unfold handleApprovePending; rewrite Hq|unfold handleRejectPending; rewrite Hq];
    pass_guards ltac:(exact Hk); try (apply queue_same; by apply (field_of_op cs_queue)).
  - unfold RegisterWithRa, policy_now. rewrite Hq. destruct (rt_policy rt) as [p|hash ts|q0 m]; cbn [Policy_Check].
    + destruct (AllowlistPolicy_Check _ _) as [[]|]; [|exact Hk]. by destruct (Register _ _ _ _ _ _ _ _ _ _ _ _).
    + destruct (BootstrapTokenPolicy_Check _ _ _ _) as [[[]|] ts']; [|exact Hk]. by destruct (Register _ _ _ _ _ _ _ _ _ _ _ _).
    + change (default q0 (Some q)) with q. destruct (PendingQueuePolicy_Check _ _ _ _ _ _ _ _ _ _ _) as [err q'] eqn:E. exists q'. split; [done|]. right.
      eexists m, (QCheck _ _ _ _ _ _ _ _ _). cbn [queue_step]. rewrite E. split; [done|]. by intros ? ? ? ? ? ? ? ? ? [= _ _ _ _ _ _ <- _ _].
  - by destruct (cs_tokens s).
  - destruct (Register _ _ _ _ _ _ _ _ _ _ _ _) as [[f|e] st]; [|by apply queue_same]. eexists. split; [reflexivity|]. right.
    by exists 0, (QApprove id).
  - destruct (Reject _ _ _) as [[] q'] eqn:E; [|exact Hk]. exists q'. split; [done|]. right. eexists 0, (QReject id _). cbn [queue_step].
    by rewrite E.
Qed.

Lemma serve_queue env s r q : cs_queue s = Some q -> queue_change env q (cs_queue (serve env s r).2).
Proof. intros Hq. unfold ServeHTTP. destruct (find_route rt r); [by apply handle_queue|by apply queue_same]. Qed.

(** The registration, if it is still there, is decided. *)
Definition decided (id : string) (s : ca_state) : Prop :=
  exists q, cs_queue s = Some q /\ forall rec, pending q !! id = Some rec -> is_pending rec = false.

Lemma queue_step_keeps_decided m q op id :
  (forall rec, pending q !! id = Some rec -> is_pending rec = false) ->
  (forall e i k c sc md rand n1 n2, op = QCheck e i k c sc md rand n1 n2 -> rand <> id) ->
  forall rec, pending (queue_step m q op) !! id = Some rec -> is_pending rec = false.
Proof.
  intros Hd Hne rec. destruct op as [e i k c sc md rand n1 n2|id'|id' reason]; cbn [queue_step].
  - unfold PendingQueuePolicy_Check. destruct (m <=? PendingCount q); [apply Hd|]. cbn [snd]. unfold Enqueue. cbn [pending pr_Id].
    rewrite lookup_insert_ne by (by eapply Hne). unfold sweepLocked. destruct (maxAge q <=? 0); [apply Hd|]. cbn [pending].
    intros [Hl _]%map_lookup_filter_Some. by eapply Hd.
  - unfold Approve. rewrite decide_keeps; [apply Hd|]. destruct (pending q !! id) eqn:E; eauto.
  - unfold Reject. rewrite decide_keeps; [apply Hd|]. destruct (pending q !! id) eqn:E; eauto.
Qed.

Lemma run_keeps_decided id evs s :
  Forall (fun ev : event => pe_rand (en_policy ev.1) <> id) evs -> decided id s -> decided id (http_run s evs).
Proof.
  intros Hf. revert s. induction Hf as [|ev evs Hne _ IH]; intros s Hd; [done|]. apply (IH (http_step s ev)).
  destruct Hd as (q & Hq & Hd). destruct (serve_queue ev.1 s ev.2 q Hq) as (q' & Hq' & Hc). exists q'. split; [done|].
  destruct Hc as [->|(m & op & -> & Hr)]; [done|]. apply queue_step_keeps_decided; [done|]. intros e i k c sc md rand n1 n2 ->.
  by rewrite (Hr _ _ _ _ _ _ _ _ _ eq_refl).
Qed.

(** An approval that issued a frame: the registration was pending, and what is issued is
    what it says. *)
Lemma approve_route_ok env s r id :
  find_route rt r = Some (ApprovePending id) -> resp_Status (serve env s r).1 = 201 ->
  exists q rec f, cs_queue s = Some q /\ pending q !! id = Some rec /\ is_pending rec = true /\
    Register json_UnmarshalMap ed25519_Sign isoTime ca_opts (cs_store s) (en_now env) (pr_EntityType rec) (pr_Identifier rec)
      (pr_PubKey rec) (pr_Capabilities rec) (pr_ScopeJson rec) (pr_MetadataJson rec) = (Ok f, cs_store (serve env s r).2) /\
    (serve env s r).1 = MkHttpResponse 201 (identFrameWire f) /\ cs_queue (serve env s r).2 = Some (Approve q id).2.
Proof.
  intros Er. unfold ServeHTTP. rewrite Er. cbn [handle]. unfold handleApprovePending. destruct (negb _); [done|].
  destruct (cs_queue s) as [q|]; [|done]. unfold Pending_Get. destruct (pending q !! id) as [rec|] eqn:Ep; [|done].
  destruct (is_pending rec) eqn:Ei; [|done]. cbn [negb].
  destruct (Register _ _ _ _ _ _ _ _ _ _ _ _) as [[f|e] st] eqn:E; cbn [fst issued_response writeJSON resp_Status].
  - intros _. exists q, rec, f. split_and!; done.
  - pose proof (ca_error_status e). lia.
Qed.

Lemma approve_decides q id rec : pending q !! id = Some rec -> is_pending rec = true ->
  forall rec', pending (Approve q id).2 !! id = Some rec' -> is_pending rec' = false.
Proof.
  intros Hp Hi rec'. unfold Approve, decide_pending. rewrite Hp, Hi. cbn. rewrite lookup_insert_eq. by intros [= <-].
Qed.

(** Once decided, a registration is not decided again. *)
Lemma decided_is_final env s r id :
  decided id s -> find_route rt r = Some (ApprovePending id) \/ find_route rt r = Some (RejectPending id) ->
  (serve env s r).2 = s /\ resp_Status (serve env s r).1 ∈ [401; 404; 409].
Proof.
  intros (q & Hq & Hd) Er. unfold ServeHTTP. destruct Er as [-> | ->]; cbn [handle].
  - unfold handleApprovePending. destruct (negb _); [split; [done|by constructor]|]. rewrite Hq. unfold Pending_Get.
    destruct (pending q !! id) as [rec|]; [|split; [done|by do 2 constructor]]. rewrite (Hd rec eq_refl). split; [done|by do 3 constructor].
  - unfold handleRejectPending. destruct (negb _); [split; [done|by constructor]|]. rewrite Hq. unfold Reject, decide_pending, Pending_Get.
    destruct (pending q !! id) as [rec|] eqn:E; [|rewrite E; split; [done|by do 2 constructor]]. rewrite (Hd rec eq_refl). cbn [negb]. rewrite E.
    split; [done|by do 3 constructor].
Qed.

(** Under the pending queue a registration issues nothing: it is queued as it was
    requested, or refused. *)
Lemma queued_registration q0 m env s r q e caps :
  rt_policy rt = PendingQueue q0 m -> cs_queue s = Some q -> find_route rt r = Some (RegisterAs e caps) ->
  let '(resp, s') := serve env s r in
  cs_store s' = cs_store s /\
  (400 <= resp_Status resp <= 409 \/
   exists q' rec, resp = MkHttpResponse 202 [("pending_id", VString (pr_Id rec)); ("status", VString "queued")] /\
     cs_queue s' = Some q' /\ pending q' !! pr_Id rec = Some rec /\ is_pending rec = true /\ pr_EntityType rec = e /\
     validateRegister (pr_Identifier rec) (pr_PubKey rec) = None /\ PendingCount q < m).
Proof.
  intros Hp Hq Er. unfold ServeHTTP. rewrite Er. cbn [handle]. unfold handleRegister.
  destruct (negb _); [split; [done|left; cbn; lia]|]. destruct (readJSONBody _ _) as [req|resp] eqn:Eb.
  2: { split; [done|left]. unfold readJSONBody in Eb. repeat case_match; simplify_eq; cbn; lia. }
  destruct (validateRegister _ _) eqn:Ev; [split; [done|left; cbn; lia]|]. unfold RegisterWithRa, policy_now. rewrite Hp, Hq. cbn [Policy_Check]. change (default q0 (Some q)) with q.
  unfold PendingQueuePolicy_Check. destruct (Z.leb_spec m (PendingCount q)) as [|Hm]; cbn [policy_effect with_store cs_store cs_queue].
  - split; [done|]. left. cbn. vm_compute. done.
  - split; [done|]. right. eexists _, (MkPending _ _ _ _ _ _ _ _ _ _). cbn [pr_Id pr_EntityType pr_Identifier pr_PubKey]. split; [reflexivity|].
    split; [reflexivity|]. split; [cbn [Enqueue pending]; apply lookup_insert_eq|]. done.
Qed.

(** Approval is what issues under the queue, once: a registration only waits in the
    queue; an approval that succeeds registers exactly what the record says; and from
    then on, through any requests, deciding that record again is refused and changes
    nothing. *)
Theorem approval_issues_once env s r id evs env' r' :
  find_route rt r = Some (ApprovePending id) -> resp_Status (serve env s r).1 = 201 ->
  Forall (fun ev : event => pe_rand (en_policy ev.1) <> id) evs ->
  find_route rt r' = Some (ApprovePending id) \/ find_route rt r' = Some (RejectPending id) ->
  (exists q rec f, cs_queue s = Some q /\ pending q !! id = Some rec /\ is_pending rec = true /\
    Register json_UnmarshalMap ed25519_Sign isoTime ca_opts (cs_store s) (en_now env) (pr_EntityType rec) (pr_Identifier rec)
      (pr_PubKey rec) (pr_Capabilities rec) (pr_ScopeJson rec) (pr_MetadataJson rec) = (Ok f, cs_store (serve env s r).2) /\
    (serve env s r).1 = MkHttpResponse 201 (identFrameWire f)) /\
  let s' := http_run (serve env s r).2 evs in
  (serve env' s' r').2 = s' /\ resp_Status (serve env' s' r').1 ∈ [401; 404; 409].
Proof.
  intros Er Hs Hf Er'. destruct (approve_route_ok env s r id Er Hs) as (q & rec & f & Hq & Hp & Hi & E & Hr & Hq').
  split; [exists q, rec, f; by split_and!|]. cbv zeta. apply (decided_is_final _ _ _ id); [|done]. apply run_keeps_decided; [done|].
  exists (Approve q id).2. split; [done|]. by eapply approve_decides.
Qed.
(** *** Enrollment by certificate *)

(** Registration with a certificate does not consult the enrollment policy. *)
Lemma x509_ignores_policy policy env s r e caps :
  handleRegisterX509 json_UnmarshalMap ed25519_Sign ca_pub isoTime url_Parse CreateCertificate b64_error ca_opts
    (MkCaRouter (rt_opts rt) policy (rt_prefix rt)) env s r e caps =
  handleRegisterX509 json_UnmarshalMap ed25519_Sign ca_pub isoTime url_Parse CreateCertificate b64_error ca_opts rt env s r e caps.
Proof. reflexivity. Qed.
End Requests.

(** ** Routes *)

(** Two texts that disagree at a place both have. *)
Fixpoint differ (a b : string) : bool :=
  match a, b with String x a, String y b => negb (Ascii.eqb x y) || differ a b | _, _ => false end.

Lemma differ_app a b p q : differ a b = true -> a +:+ p <> b +:+ q.
Proof.
  revert b. induction a as [|x a IH]; intros [|y b]; try done. cbn [differ]. intros [Hx|Hd]%orb_true_iff E; injection E as Ex E.
  - subst. by rewrite Ascii.eqb_refl in Hx.
  - by apply (IH b).
Qed.

Lemma tails_differ a b p q : differ (String.rev a) (String.rev b) = true -> p +:+ a <> q +:+ b.
Proof.
  intros Hd E. apply (f_equal String.rev) in E. rewrite !str_rev_concat in E. by eapply differ_app.
Qed.

Lemma trimSuffix_Some s suf raw : trimSuffix s suf = Some raw <-> s = raw +:+ suf.
Proof.
  unfold trimSuffix. destruct (cut_prefix _ _) as [u|] eqn:E.
  - apply cut_prefix_Some in E. assert (Es : s = String.rev u +:+ suf).
    { by rewrite <- (str_rev_involutive s), E, str_rev_concat, str_rev_involutive. }
    split; [by intros [= <-]|]. intros ->. rewrite str_rev_concat in E.
    assert (Hc : cut_prefix (String.rev suf) (String.rev suf +:+ u) = Some (String.rev raw)) by (rewrite <- E; by apply cut_prefix_Some).
    rewrite (proj2 (cut_prefix_Some _ _ u) eq_refl) in Hc. injection Hc as ->. by rewrite str_rev_involutive.
  - split; [done|]. intros ->. rewrite str_rev_concat in E.
    assert (cut_prefix (String.rev suf) (String.rev suf +:+ String.rev raw) = Some (String.rev raw)) by (by apply cut_prefix_Some). congruence.
Qed.

Lemma trimSuffix_other raw suf suf' : differ (String.rev suf) (String.rev suf') = true -> trimSuffix (raw +:+ suf) suf' = None.
Proof.
  intros Hd. destruct (trimSuffix _ _) as [raw'|] eqn:E; [|done]. apply trimSuffix_Some in E. by apply tails_differ in E.
Qed.

Section Routes.
Context (rt : NipCaRouter).

(** A fixed route, or one with a parameter between a prefix and a suffix. *)
Definition route_spec (r : http_request) (x : route) : Prop :=
  (Method r, URL_Path r, x) ∈ fixed_routes rt \/
  exists kind table suf mk raw, (kind, table) ∈ parameter_tables /\ (suf, Method r, mk) ∈ table /\
    URL_Path r = rt_prefix rt +:+ "/v1/" +:+ kind +:+ raw +:+ suf /\ x = mk (unescape raw).

Lemma suffix_route_sound m rest table x :
  suffix_route m rest table = Some x -> exists suf mk raw, (suf, m, mk) ∈ table /\ rest = raw +:+ suf /\ x = mk (unescape raw).
Proof.
  induction table as [|[[suf m'] mk] table IH]; [done|]. cbn [suffix_route].
  assert (Hrec : suffix_route m rest table = Some x -> exists suf0 mk0 raw, (suf0, m, mk0) ∈ (suf, m', mk) :: table /\
    rest = raw +:+ suf0 /\ x = mk0 (unescape raw)) by (intros (s & k & raw & ? & ?)%IH; exists s, k, raw; by split; [right|]).
  destruct (trimSuffix rest suf) as [raw|] eqn:E; [|done]. destruct (String.eqb_spec m m') as [->|]; [|done].
  intros [= <-]. apply trimSuffix_Some in E as ->. exists suf, mk, raw. split; [by left|done].
Qed.

Lemma prefix_route_sound m sub tables x :
  prefix_route m sub tables = Some x -> exists kind table suf mk raw, (kind, table) ∈ tables /\ (suf, m, mk) ∈ table /\
    sub = kind +:+ raw +:+ suf /\ x = mk (unescape raw).
Proof.
  induction tables as [|[kind table] tables IH]; [done|]. cbn [prefix_route].
  assert (Hrec : prefix_route m sub tables = Some x -> exists kind0 table0 suf mk raw, (kind0, table0) ∈ (kind, table) :: tables /\
    (suf, m, mk) ∈ table0 /\ sub = kind0 +:+ raw +:+ suf /\ x = mk (unescape raw)).
  { intros (k & t & s & mk & raw & ? & ?)%IH. exists k, t, s, mk, raw. by split; [right|]. }
  destruct (cut_prefix kind sub) as [rest|] eqn:E; [|done]. destruct (suffix_route m rest table) as [y|] eqn:Es; [|done].
  intros [= <-]. apply suffix_route_sound in Es as (suf & mk & raw & ? & -> & ->). apply cut_prefix_Some in E as ->.
  exists kind, table, suf, mk, raw. split; [by left|done].
Qed.

Definition prefixed (kind raw suf : string) : string := rt_prefix rt +:+ "/v1/" +:+ kind +:+ raw +:+ suf.

Lemma prefixed_tail kind raw suf : prefixed kind raw suf = (rt_prefix rt +:+ "/v1/" +:+ kind +:+ raw) +:+ suf.
Proof. unfold prefixed. by rewrite !str_app_assoc. Qed.

Lemma prefixed_cut kind raw suf : cut_prefix (rt_prefix rt +:+ "/v1/") (prefixed kind raw suf) = Some (kind +:+ raw +:+ suf).
Proof. apply cut_prefix_Some. unfold prefixed. by rewrite str_app_assoc. Qed.

(** The fixed routes: whether the path has the prefix, and what follows it. *)
Definition fixed_table : list (string * bool * string * route) :=
  [(MethodGet, false, "/.well-known/nps-ca", WellKnown); (MethodGet, true, "/v1/ca/cert", CaCert); (MethodGet, true, "/v1/crl", Crl);
   (MethodGet, true, "/v1/certificates", Certificates); (MethodPost, true, "/v1/agents/register", RegisterAs "agent" []);
   (MethodPost, true, "/v1/nodes/register", RegisterAs "node" node_caps);
   (MethodPost, true, "/v1/agents/register-x509", RegisterX509As "agent" []);
   (MethodPost, true, "/v1/nodes/register-x509", RegisterX509As "node" node_caps);
   (MethodPost, true, "/v1/orchestrators/groups/register", RegisterGroupRoute);
   (MethodPost, true, "/v1/enrollment/tokens", CreateToken); (MethodGet, true, "/v1/enrollment/pending", ListPending)].

Definition fixed_of (e : string * bool * string * route) : string * string * route :=
  let '(m, pre, tail, x) := e in (m, (if pre then rt_prefix rt else "") +:+ tail, x).

Lemma fixed_routes_table : fixed_routes rt = fixed_of <$> fixed_table.
Proof. reflexivity. Qed.

Definition apart (e e' : string * bool * string * route) : bool :=
  negb (String.eqb e.1.1.1 e'.1.1.1) || differ (String.rev e.1.2) (String.rev e'.1.2).

Fixpoint separated (l : list (string * bool * string * route)) : bool :=
  match l with [] => true | e :: l => forallb (apart e) l && separated l end.

Lemma fixed_hit l m p x :
  separated l = true -> (m, p, x) ∈ fixed_of <$> l ->
  List.find (fun y : string * string * route => String.eqb m y.1.1 && String.eqb p y.1.2) (fixed_of <$> l) = Some (m, p, x).
Proof.
  induction l as [|e l IH]; [by intros _ ?%not_elem_of_nil|]. cbn [separated]. rewrite fmap_cons, elem_of_cons.
  intros Hs Hin. apply andb_true_iff in Hs as [Hf Hs]. cbn [List.find]. destruct Hin as [<-|Hin]; [by rewrite !String.eqb_refl|].
  rewrite IH by done. apply list_elem_of_fmap in Hin as (e' & E & Hin). rewrite forallb_forall in Hf. apply list_elem_of_In, Hf in Hin.
  destruct e as [[[m1 b1] t1] x1], e' as [[[m2 b2] t2] x2]. unfold apart in Hin. cbn [fixed_of fst snd] in *. injection E as -> -> ->.
  destruct (String.eqb_spec m2 m1) as [->|]; [|done]. rewrite String.eqb_refl in Hin. cbn [negb orb andb] in *.
  rewrite (proj2 (String.eqb_neq _ _)); [done|]. intros E. symmetry in E. by apply tails_differ in E.
Qed.

Lemma not_fixed l m kind raw suf :
  forallb (fun e : string * bool * string * route => differ (String.rev suf) (String.rev e.1.2)) l = true ->
  List.find (fun x : string * string * route => String.eqb m x.1.1 && String.eqb (prefixed kind raw suf) x.1.2) (fixed_of <$> l) = None.
Proof.
  intros Hd. destruct (List.find _ _) as [y|] eqn:E; [|done]. apply find_some in E as [Hin%list_elem_of_In Hy].
  apply list_elem_of_fmap in Hin as ([[[m1 b1] t1] x1] & -> & Hin). rewrite forallb_forall in Hd. apply list_elem_of_In, Hd in Hin.
  cbn [fixed_of fst snd] in *. bool_hyps. rewrite prefixed_tail in *. by eapply tails_differ in Hin.
Qed.

Lemma suffix_route_skip m raw suf suf' m' mk table :
  differ (String.rev suf) (String.rev suf') = true ->
  suffix_route m (raw +:+ suf) ((suf', m', mk) :: table) = suffix_route m (raw +:+ suf) table.
Proof. intros Hd. cbn [suffix_route]. by rewrite trimSuffix_other. Qed.

Lemma suffix_route_hit m raw suf mk table : suffix_route m (raw +:+ suf) ((suf, m, mk) :: table) = Some (mk (unescape raw)).
Proof. cbn [suffix_route]. by rewrite (proj2 (trimSuffix_Some _ _ raw) eq_refl), String.eqb_refl. Qed.

Ltac elem_cases H := repeat (apply elem_of_cons in H as [H|H]; [|]); try (by apply not_elem_of_nil in H).

Lemma suffix_route_complete kind table suf m mk raw :
  (kind, table) ∈ parameter_tables -> (suf, m, mk) ∈ table -> suffix_route m (raw +:+ suf) table = Some (mk (unescape raw)).
Proof.
  intros Hk Hs. elem_cases Hk; injection Hk as -> ->; elem_cases Hs; injection Hs as -> -> ->;
    unfold entity_table, group_table, pending_table; rewrite ?suffix_route_skip by done; apply suffix_route_hit.
Qed.

Lemma prefix_route_complete kind table suf m mk raw :
  (kind, table) ∈ parameter_tables -> (suf, m, mk) ∈ table ->
  prefix_route m (kind +:+ raw +:+ suf) parameter_tables = Some (mk (unescape raw)).
Proof.
  intros Hk Hs. pose proof (suffix_route_complete kind table suf m mk raw Hk Hs) as E.
  elem_cases Hk; injection Hk as -> ->; cbn [prefix_route parameter_tables];
    rewrite (proj2 (cut_prefix_Some _ _ (raw +:+ suf)) eq_refl), E; done.
Qed.

(** The routes of the router: a request is handled by a route exactly when its method
    and path are those of a fixed route, or its path is the prefix of a kind of name,
    a name and the suffix of an operation that its method selects; the name is then
    decoded.  So a request has at most one route. *)
Theorem routes_exact r x : find_route rt r = Some x <-> route_spec r x.
Proof.
  unfold find_route, route_spec. split.
  - destruct (List.find _ _) as [[[m p] y]|] eqn:E.
    + intros [= <-]. left. apply find_some in E as [E1 E2]. apply list_elem_of_In in E1. cbn in E2. by bool_hyps; subst.
    + intros Hs. right. unfold serveParameterized in Hs. destruct (cut_prefix _ _) as [sub|] eqn:Ec; [|done].
      apply prefix_route_sound in Hs as (kind & table & suf & mk & raw & ? & ? & -> & ->). apply cut_prefix_Some in Ec as ->.
      exists kind, table, suf, mk, raw. by rewrite str_app_assoc.
  - intros [Hin|(kind & table & suf & mk & raw & Hk & Hs & Hp & ->)].
    + rewrite fixed_routes_table in *. by rewrite (fixed_hit _ _ _ x).
    + rewrite Hp. change (rt_prefix rt +:+ "/v1/" +:+ kind +:+ raw +:+ suf) with (prefixed kind raw suf). rewrite fixed_routes_table, not_fixed.
      * unfold serveParameterized. rewrite Hp. change (rt_prefix rt +:+ "/v1/" +:+ kind +:+ raw +:+ suf) with (prefixed kind raw suf).
        rewrite prefixed_cut. by eapply prefix_route_complete.
      * elem_cases Hk; injection Hk as -> ->; elem_cases Hs; by injection Hs as -> _ _.
Qed.
End Routes.

(** A name without percent signs is read as it was written; identifiers that pass
    validation have none. *)
Lemma unescape_plain s : str_contains_char (chr 37) s = false -> unescape s = s.
Proof.
  intros Hs. unfold unescape. assert (E : PathUnescape s = Some s); [|by rewrite E]. induction s as [|c s IH]; [done|].
  cbn [str_contains_char PathUnescape] in *. apply orb_false_iff in Hs as [Hc Hs]. by rewrite Hc, IH.
Qed.

Lemma identifier_plain s : identifierRe s = true -> str_contains_char (chr 37) s = false.
Proof.
  unfold identifierRe. intros Hs. apply andb_true_iff in Hs as [_ Hs]. induction s as [|c s IH]; [done|]. cbn [str_forall str_contains_char] in *.
  apply andb_true_iff in Hs as [Hc Hs]. rewrite IH, orb_false_r by done. apply Ascii.eqb_neq. intros ->. discriminate Hc.
Qed.

(** ** The time of a signed request *)

Lemma float64_add_zero f t : float_trunc f = Some t -> float_trunc (SFadd 53 1024 f (S754_zero false)) = Some t.
Proof. by destruct f as [[]|[]| |]. Qed.

Lemma skew_whole rt k : SessionJwsClockSkew (rt_opts rt) = k * second -> 0 <= k < 2 ^ 53 -> skew_seconds rt = k.
Proof.
  intros E Hk. unfold skew_seconds, Duration_Seconds. rewrite E. rewrite Z.quot_mul, Z.rem_mul by done.
  change (SFdiv 53 1024 (float64_of_Z 0) (float64_of_Z second)) with (S754_zero false).
  unfold int64_of_float. rewrite (float64_add_zero _ k) by (by apply float64_of_Z_trunc).
  rewrite (proj2 (Z.leb_le _ _)), (proj2 (Z.ltb_lt _ _)) by lia. done.
Qed.

(** The window of a signed session request is the configured skew on both sides for
    every time that is not too far off; but the difference is computed in 64 bits and
    its sign changed, so that a time of exactly 2^63 seconds ago passes every window. *)
Theorem iat_window rt k now :
  SessionJwsClockSkew (rt_opts rt) = k * second -> 0 <= k < 2 ^ 53 -> 0 < now < 2 ^ 62 ->
  (forall iat, 0 <= iat < 2 ^ 62 -> iat_outside rt now iat = false <-> iat <> 0 /\ Z.abs (now - iat) <= k) /\
  iat_outside rt now (now - 2 ^ 63) = false.
Proof.
  intros E Hk Hn. unfold iat_outside. rewrite (skew_whole rt k E Hk). split.
  - intros iat Hi. rewrite orb_false_iff, Z.eqb_neq, Z.ltb_ge. rewrite (wraps_small 64 (now - iat)) by (cbn; lia). unfold absInt64.
    destruct (Z.ltb_spec (now - iat) 0); [rewrite (wraps_small 64) by (cbn; lia)|]; lia.
  - replace (now - (now - 2 ^ 63)) with (2 ^ 63) by lia. change (absInt64 (i64 (2 ^ 63))) with (- 2 ^ 63).
    rewrite (proj2 (Z.eqb_neq _ _)) by lia. cbn [orb]. apply Z.ltb_ge. lia.
Qed.

(** ** Witnesses *)

Definition toy_requests : RequestJSON :=
  {| json_register _ := (MkRegisterRequest "a" "ed25519:k" None "" "", None);
     json_x509 _ := (MkX509Request "a" "ed25519:k" None "" "" "", None);
     json_group _ := (MkGroupRequest "group-a" "ed25519:k" None "" "" "" "", None);
     json_session _ := (MkSessionRequest "ed25519:k" "" 60 None "" "", None);
     json_payload _ := (MkSessionPayload "ed25519:k" "" 60 None "" "" 10, None);
     json_token _ := (MkTokenRequest 60 "ci", None);
     json_reason raw := (raw, None);
     json_jws _ := (MkJws "" "" "", None);
     json_jws_header _ := (MkJwsHeader "" "" "", None);
     json_any _ := Ok VNil |}.

Definition toy_request (m path : string) : http_request := MkHttpRequest m path (fun _ => "nps-bootstrap-a") (Some "superseded").
Definition toy_reqenv (rand : string) : request_env :=
  MkRequestEnv 10 10 (MkPolicyEnv (fun _ => 5) rand) toy_env 10 [] "a" "id" (fun l => l).
Definition toy_router (p : EnrollmentPolicy) : NipCaRouter := MkCaRouter toy_opts p "".
Definition toy_all : EnrollmentPolicy := Allowlist (MkAllowlist [AllowAll]).

Abbreviation toy_serve p :=
  (ServeHTTP (H := toy_json) (H0 := toy_requests) toy_map toy_sign toy_verify toy_pub fmt_d fmt_d toy_url toy_cert dot_text bytes_of_string toy_opts (toy_router p)).
Abbreviation toy_run p :=
  (http_run (H := toy_json) (H0 := toy_requests) toy_map toy_sign toy_verify toy_pub fmt_d fmt_d toy_url toy_cert dot_text bytes_of_string toy_opts (toy_router p)).
Abbreviation toy_trace p :=
  (http_trace (H := toy_json) (H0 := toy_requests) toy_map toy_sign toy_verify toy_pub fmt_d fmt_d toy_url toy_cert dot_text bytes_of_string toy_opts (toy_router p)).

Definition register_agent : http_request := toy_request "POST" "/v1/agents/register".
Definition toy_empty : ca_state := MkCaState NewInMemoryNipCaStore None None.

Example http_refines_service_witness :
  let st := cs_store (toy_run toy_all toy_empty [(toy_reqenv "p", register_agent); (toy_reqenv "p", register_agent)]) in
  c_Nid <$> records st = ["urn:nps:agent:ca:a"] /\ serial_inv st /\ (forall r, r ∈ records st -> GetBySerial st (c_Serial r) = Some r).
Proof.
  cbv zeta. split; [vm_compute; reflexivity|].
  refine (proj2 (http_refines_service (H := toy_json) (H0 := toy_requests) toy_map toy_sign toy_verify toy_pub fmt_d fmt_d toy_url toy_cert dot_text
    bytes_of_string toy_opts (toy_router toy_all) None None [(toy_reqenv "p", register_agent); (toy_reqenv "p", register_agent)] _ _)).
  - repeat split; vm_compute; reflexivity.
  - reflexivity.
Defined.

Example revocation_over_http_witness :
  let s := toy_run toy_all toy_empty [(toy_reqenv "p", register_agent)] in
  let revoke := toy_request "POST" "/v1/agents/urn:nps:agent:ca:a/revoke" in
  let s' := toy_run toy_all (toy_serve toy_all (toy_reqenv "p") s revoke).2 [(toy_reqenv "p", register_agent)] in
  exists msg, (toy_serve toy_all (toy_reqenv "p") s' (toy_request "GET" "/v1/agents/urn:nps:agent:ca:a/verify")).1 =
    MkHttpResponse 200 [("valid", VBool false); ("error_code", VString ErrCertRevoked); ("message", VString msg)].
Proof.
  cbv zeta.
  refine (proj1 (revocation_over_http (H := toy_json) (H0 := toy_requests) toy_map toy_sign toy_verify toy_pub fmt_d fmt_d toy_url toy_cert dot_text
    bytes_of_string toy_opts (toy_router toy_all) (toy_reqenv "p") _ (toy_request "POST" "/v1/agents/urn:nps:agent:ca:a/revoke")
    "urn:nps:agent:ca:a" [(toy_reqenv "p", register_agent)] _ _ _) _ _ _); [| |split; [|exact I]|]; vm_compute; reflexivity.
Defined.

Definition by_token : EnrollmentPolicy := Bootstrap bytes_of_string [].
Definition token_events : list (request_env * http_request) :=
  [(toy_reqenv "p", toy_request "POST" "/v1/enrollment/tokens"); (toy_reqenv "p", register_agent); (toy_reqenv "p", register_agent)].

Example enrollment_is_backed_witness :
  let trace := toy_trace by_token (MkCaState NewInMemoryNipCaStore (Some []) None) token_events in
  (resp_Status ∘ snd <$> trace) = [201; 201; 401] /\ (count enrolled trace <= count token_created trace)%nat.
Proof.
  cbv zeta. split; [vm_compute; reflexivity|].
  apply (enrollment_is_backed (H := toy_json) (H0 := toy_requests) toy_map toy_sign toy_verify toy_pub fmt_d fmt_d toy_url toy_cert dot_text
    bytes_of_string toy_opts (toy_router by_token) bytes_of_string []); reflexivity.
Defined.

Definition by_approval : EnrollmentPolicy := PendingQueue (NewInMemoryPendingStore 0) 10.

Example approval_issues_once_witness :
  let s := toy_run by_approval (MkCaState NewInMemoryNipCaStore None (Some (NewInMemoryPendingStore 0))) [(toy_reqenv "p", register_agent)] in
  let approve := toy_request "POST" "/v1/enrollment/pending/p/approve" in
  let s1 := (toy_serve by_approval (toy_reqenv "p") s approve).2 in
  let s' := toy_run by_approval s1 [(toy_reqenv "q", register_agent)] in
  length (records (cs_store s)) = 0%nat /\ length (records (cs_store s1)) = 1%nat /\
  (toy_serve by_approval (toy_reqenv "p") s' approve).2 = s' /\
  resp_Status (toy_serve by_approval (toy_reqenv "p") s' approve).1 ∈ [401; 404; 409].
Proof.
  cbv zeta. split; [vm_compute; reflexivity|]. split; [vm_compute; reflexivity|].
  refine (proj2 (approval_issues_once (H := toy_json) (H0 := toy_requests) toy_map toy_sign toy_verify toy_pub fmt_d fmt_d toy_url toy_cert dot_text
    bytes_of_string toy_opts (toy_router by_approval) (toy_reqenv "p") _ (toy_request "POST" "/v1/enrollment/pending/p/approve") "p"
    [(toy_reqenv "q", register_agent)] (toy_reqenv "p") (toy_request "POST" "/v1/enrollment/pending/p/approve") _ _ _ _)).
  - vm_compute; reflexivity.
  - vm_compute; reflexivity.
  - apply Forall_singleton. discriminate.
  - left. vm_compute; reflexivity.
Defined.

Example iat_window_witness :
  let outside := iat_outside (toy_router toy_all) 1000 in
  (forall iat, 0 <= iat < 2 ^ 62 -> outside iat = false <-> iat <> 0 /\ Z.abs (1000 - iat) <= 300) /\ outside (1000 - 2 ^ 63) = false.
Proof. cbv zeta. apply (iat_window (toy_router toy_all) 300 1000); [reflexivity|lia|lia]. Defined.
