(* ===== verification/NwpFrames.v ===== *)
(** * nwp/frames.go: queries, actions and subscriptions on the wire

    One record per frame with [ToDict] and [FromDict] as the code builds them.  Unlike in
    ncp and nop the fields of a frame may hold values of any depth, so what a peer reads
    is related to what was written by [wired], which reaches into slices and maps. *)

From S2P Require Import Prelude GoValue CoreFrames NcpFrames.

(** ** Helpers *)

Definition str (d : dict) (k : string) : string := default "" (as_string (dict_at d k)).
Definition optStr (d : dict) (k : string) : option string := as_string (dict_at d k).

Definition optUint64 (d : dict) (k : string) : option Z :=
  match dict_at d k with VInt KInt64 x => Some (u64 x) | VInt KUint64 x => Some x | VFloat64 x => Some (uint64_of_float x) | _ => None end.

(** [uint32(n)] of a float64 goes through int64. *)
Definition optUint32 (d : dict) (k : string) : option Z :=
  match dict_at d k with VFloat64 n => Some (u32 (int64_of_float n)) | VInt KUint32 n => Some n | _ => None end.

Definition optBool (d : dict) (k : string) : bool := default false (as_bool (dict_at d k)).
Definition optBoolPtr (d : dict) (k : string) : option bool := as_bool (dict_at d k).

(** [None] is the nil slice. *)
Definition stringSlice (v : any) : option (list string) := as_string_slice v.

Definition orderValue (d : dict) : any := match dict_at d "order" with VNil => dict_at d "order_by" | v => v end.

(** A key that is set only for a value that is not nil. *)
Definition set_any (k : string) (v : any) (d : dict) : dict := if not_nil v then dict_set k v d else d.

(** ** SubscribeFrame *)

Record SubscribeFrame : Type := MkSubscribe {
  sb_SubscriptionID : string; sb_Filter : any; sb_HeartbeatIntervalMs : option Z; sb_MaxEvents : option Z; sb_Cursor : option string
}.

Definition SubscribeFrame_ToDict (f : SubscribeFrame) : dict :=
  let d := [("subscription_id", VString (sb_SubscriptionID f))] in
  let d := set_any "filter" (sb_Filter f) d in
  let d := set_opt "heartbeat_interval_ms" (VInt KUint32) (sb_HeartbeatIntervalMs f) d in
  let d := set_opt "max_events" (VInt KUint32) (sb_MaxEvents f) d in
  set_opt "cursor" VString (sb_Cursor f) d.

Definition SubscribeFrameFromDict (d : dict) : SubscribeFrame :=
  MkSubscribe (str d "subscription_id") (dict_at d "filter") (optUint32 d "heartbeat_interval_ms") (optUint32 d "max_events") (optStr d "cursor").

(** ** QueryFrame *)

Record QueryFrame : Type := MkQueryFrame {
  qf_AnchorRef : string; qf_Filter : any; qf_Order : any; qf_Fields : option (list string); qf_VectorSearch : any;
  qf_Cursor : option string; qf_TokenBudget : option Z; qf_Tokenizer : option string; qf_RequestID : option string;
  qf_AutoAnchor : option bool; qf_Stream : option bool; qf_Aggregate : any; qf_Limit : option Z; qf_Offset : option Z;
  qf_Depth : option Z
}.

Definition QueryFrame_ToDict (f : QueryFrame) : dict :=
  let d := [("anchor_ref", VString (qf_AnchorRef f))] in
  let d := set_any "filter" (qf_Filter f) d in
  let d := set_any "order" (qf_Order f) d in
  let d := set_opt "fields" VStrings (qf_Fields f) d in
  let d := set_any "vector_search" (qf_VectorSearch f) d in
  let d := set_opt "cursor" VString (qf_Cursor f) d in
  let d := set_opt "token_budget" (VInt KUint64) (qf_TokenBudget f) d in
  let d := set_opt "tokenizer" VString (qf_Tokenizer f) d in
  let d := set_opt "request_id" VString (qf_RequestID f) d in
  let d := set_opt "auto_anchor" VBool (qf_AutoAnchor f) d in
  let d := set_opt "stream" VBool (qf_Stream f) d in
  let d := set_any "aggregate" (qf_Aggregate f) d in
  let d := set_opt "limit" (VInt KUint64) (qf_Limit f) d in
  let d := set_opt "offset" (VInt KUint64) (qf_Offset f) d in
  set_opt "depth" (VInt KUint64) (qf_Depth f) d.

Definition QueryFrameFromDict (d : dict) : QueryFrame :=
  MkQueryFrame (str d "anchor_ref") (dict_at d "filter") (orderValue d) (stringSlice (dict_at d "fields")) (dict_at d "vector_search")
    (optStr d "cursor") (optUint64 d "token_budget") (optStr d "tokenizer") (optStr d "request_id") (optBoolPtr d "auto_anchor")
    (optBoolPtr d "stream") (dict_at d "aggregate") (optUint64 d "limit") (optUint64 d "offset") (optUint64 d "depth").

(** ** ActionFrame *)

Record ActionFrame : Type := MkActionFrame {
  an_Action : string; an_Params : any; an_AnchorRef : option string; an_Async : bool; an_IdempotencyKey : option string;
  an_TimeoutMs : option Z; an_RequestID : option string
}.

Definition ActionFrame_ToDict (f : ActionFrame) : dict :=
  let d := [("action_id", VString (an_Action f)); ("action", VString (an_Action f)); ("async", VBool (an_Async f))] in
  let d := set_any "params" (an_Params f) d in
  let d := set_opt "anchor_ref" VString (an_AnchorRef f) d in
  let d := set_opt "request_id" VString (an_RequestID f) d in
  let d := set_opt "idempotency_key" VString (an_IdempotencyKey f) d in
  set_opt "timeout_ms" (VInt KUint32) (an_TimeoutMs f) d.

Definition ActionFrameFromDict (d : dict) : ActionFrame :=
  let action := str d "action_id" in
  MkActionFrame (if String.eqb action "" then str d "action" else action) (dict_at d "params") (optStr d "anchor_ref") (optBool d "async")
    (optStr d "idempotency_key") (optUint32 d "timeout_ms") (optStr d "request_id").

(** ** AsyncActionResponse *)

Record AsyncActionResponse : Type := MkAsync { ar_TaskID : string; StatusURL : option string; CallbackURL : option string }.

Definition AsyncActionResponseFromDict (d : dict) : AsyncActionResponse :=
  MkAsync (str d "task_id") (optStr d "status_url") (optStr d "callback_url").

(** ** What a peer reads

    The value itself; a float64 for an integer that is exact as one, which is what JSON
    makes of it; a [[]any] for a [[]string]; and so on in slices and maps. *)
Inductive wired : any -> any -> Prop :=
| wired_same v : wired v v
| wired_num k z : - 2 ^ 53 < z < 2 ^ 53 -> wired (VInt k z) (VFloat64 (float64_of_Z z))
| wired_strings l : wired (VStrings l) (VSlice (VString <$> l))
| wired_slice l l' : Forall2 wired l l' -> wired (VSlice l) (VSlice l')
| wired_map m m' : Forall2 (fun p p' => p.1 = p'.1 /\ wired p.2 p'.2) m m' -> wired (VMap m) (VMap m').

Definition dict_wired (d d' : dict) : Prop := Forall2 (fun p p' => p.1 = p'.1 /\ wired p.2 p'.2) d d'.

Lemma dict_wired_refl d : dict_wired d d.
Proof. unfold dict_wired. induction d; constructor; eauto using wired. Qed.

Lemma dict_wired_at k d d' : dict_wired d d' -> wired (dict_at d k) (dict_at d' k).
Proof.
  unfold dict_at. induction 1 as [|[k1 v] [k2 v'] d d' [Hk Hv] _ IH]; [constructor|]. cbn in Hk. subst. cbn [assoc_get].
  by destruct (String.eqb k2 k).
Qed.

(** *** Typed members *)

#[export] Instance wired_as_string : Proper (wired ==> eq) as_string.
Proof. by intros ? ? []. Qed.
#[export] Instance wired_as_bool : Proper (wired ==> eq) as_bool.
Proof. by intros ? ? []. Qed.
Lemma wired_strings_inv l v : wired (VStrings l) v -> as_string_slice v = Some l.
Proof. inversion 1; subst; [done|]. cbn. by rewrite omap_VString. Qed.
Lemma wired_nil v : wired VNil v -> v = VNil.
Proof. by inversion 1. Qed.
Lemma wired_nil_r v : wired v VNil -> v = VNil.
Proof. by inversion 1. Qed.
#[export] Instance wired_str : Proper (dict_wired ==> eq ==> eq) str.
Proof. intros d d' Hd k ? <-. unfold str. by rewrite (dict_wired_at k _ _ Hd). Qed.
#[export] Instance wired_optStr : Proper (dict_wired ==> eq ==> eq) optStr.
Proof. intros d d' Hd k ? <-. unfold optStr. by rewrite (dict_wired_at k _ _ Hd). Qed.
#[export] Instance wired_optBool : Proper (dict_wired ==> eq ==> eq) optBool.
Proof. intros d d' Hd k ? <-. unfold optBool. by rewrite (dict_wired_at k _ _ Hd). Qed.
#[export] Instance wired_optBoolPtr : Proper (dict_wired ==> eq ==> eq) optBoolPtr.
Proof. intros d d' Hd k ? <-. unfold optBoolPtr. by rewrite (dict_wired_at k _ _ Hd). Qed.

(** The members of a frame as the dict holds them. *)
Definition opt_any {A} (inj : A -> any) (o : option A) : any := match o with Some x => inj x | None => VNil end.

Lemma wired_uint64 d k o : wired (opt_any (VInt KUint64) o) (dict_at d k) -> from_option (fun z => 0 <= z) True o -> optUint64 d k = o.
Proof.
  unfold optUint64. destruct o as [z|]; cbn; intros Hw Hz; [|by rewrite (wired_nil _ Hw)].
  inversion Hw; subst; [done|]. by rewrite uint64_of_float_exact by lia.
Qed.

Lemma wired_uint32 d k o : wired (opt_any (VInt KUint32) o) (dict_at d k) -> from_option (fun z => 0 <= z < 2 ^ 32) True o -> optUint32 d k = o.
Proof.
  unfold optUint32. destruct o as [z|]; cbn; intros Hw Hz; [|by rewrite (wired_nil _ Hw)].
  inversion Hw; subst; [done|]. rewrite int64_of_float_exact by lia. by rewrite wrapu_small by lia.
Qed.

Lemma wired_slice_of d k o : wired (opt_any VStrings o) (dict_at d k) -> stringSlice (dict_at d k) = o.
Proof. destruct o as [l|]; cbn; intros Hw; [by apply wired_strings_inv|by rewrite (wired_nil _ Hw)]. Qed.

(** *** Members of the dicts that frames are written to *)

Section Members.
Context {A : Type} (inj : A -> any).

Lemma at_set_opt k o d : dict_at (set_opt k inj o d) k = match o with Some x => inj x | None => dict_at d k end.
Proof. unfold dict_at. destruct o as [x|]; cbn [set_opt]; [by rewrite assoc_get_set_eq|done]. Qed.
Lemma at_set_opt_ne k o d k' : String.eqb k k' = false -> dict_at (set_opt k inj o d) k' = dict_at d k'.
Proof. intros Hk%String.eqb_neq. unfold dict_at. destruct o as [x|]; cbn [set_opt]; [by rewrite assoc_get_set_ne|done]. Qed.
End Members.

Lemma at_set_any k v d : dict_at (set_any k v d) k = if not_nil v then v else dict_at d k.
Proof. unfold set_any, dict_at. destruct v; cbn [not_nil]; by rewrite ?assoc_get_set_eq. Qed.
Lemma at_set_any_ne k v d k' : String.eqb k k' = false -> dict_at (set_any k v d) k' = dict_at d k'.
Proof. intros Hk%String.eqb_neq. unfold set_any, dict_at. destruct (not_nil v); by rewrite ?assoc_get_set_ne. Qed.

Lemma not_nil_or v : (if not_nil v then v else VNil) = v.
Proof. by destruct v. Qed.

Ltac members :=
  repeat first [rewrite at_set_opt_ne by reflexivity | rewrite at_set_any_ne by reflexivity | rewrite at_set_opt | rewrite at_set_any];
  cbn -[not_nil]; rewrite ?not_nil_or.

Ltac member Hd k := let H := fresh "Hm" in pose proof (dict_wired_at k _ _ Hd) as H; revert H; members; intros H.

(** ** Round trips *)

Definition query_wf (f : QueryFrame) : Prop := Forall (from_option (fun z => 0 <= z) True) [qf_TokenBudget f; qf_Limit f; qf_Offset f; qf_Depth f].

(** The same query, but for the values of any type, which are as the wire carried them. *)
Definition query_agree (f g : QueryFrame) : Prop :=
  g = MkQueryFrame (qf_AnchorRef f) (qf_Filter g) (qf_Order g) (qf_Fields f) (qf_VectorSearch g) (qf_Cursor f) (qf_TokenBudget f) (qf_Tokenizer f)
        (qf_RequestID f) (qf_AutoAnchor f) (qf_Stream f) (qf_Aggregate g) (qf_Limit f) (qf_Offset f) (qf_Depth f) /\
  wired (qf_Filter f) (qf_Filter g) /\ wired (qf_Order f) (qf_Order g) /\ wired (qf_VectorSearch f) (qf_VectorSearch g) /\
  wired (qf_Aggregate f) (qf_Aggregate g).

Definition action_wf (f : ActionFrame) : Prop := from_option (fun z => 0 <= z < 2 ^ 32) True (an_TimeoutMs f).
Definition action_agree (f g : ActionFrame) : Prop :=
  g = MkActionFrame (an_Action f) (an_Params g) (an_AnchorRef f) (an_Async f) (an_IdempotencyKey f) (an_TimeoutMs f) (an_RequestID f) /\
  wired (an_Params f) (an_Params g).

Definition subscribe_wf (f : SubscribeFrame) : Prop :=
  Forall (from_option (fun z => 0 <= z < 2 ^ 32) True) [sb_HeartbeatIntervalMs f; sb_MaxEvents f].
Definition subscribe_agree (f g : SubscribeFrame) : Prop :=
  g = MkSubscribe (sb_SubscriptionID f) (sb_Filter g) (sb_HeartbeatIntervalMs f) (sb_MaxEvents f) (sb_Cursor f) /\ wired (sb_Filter f) (sb_Filter g).

(** What the typed readers find in a dict that was wired. *)
Ltac wired_member Hd :=
  first [ first [ rewrite <- (wired_str _ _ Hd _ _ eq_refl) | rewrite <- (wired_optStr _ _ Hd _ _ eq_refl)
                | rewrite <- (wired_optBool _ _ Hd _ _ eq_refl) | rewrite <- (wired_optBoolPtr _ _ Hd _ _ eq_refl) ];
          unfold str, optStr, optBool, optBoolPtr; members; by repeat case_match
        | apply wired_uint64; [|done]; match goal with |- wired _ (dict_at _ ?k) => member Hd k; by repeat case_match end
        | apply wired_uint32; [|done]; match goal with |- wired _ (dict_at _ ?k) => member Hd k; by repeat case_match end
        | apply wired_slice_of; match goal with |- wired _ (dict_at _ ?k) => member Hd k; by repeat case_match end ].

Ltac wired_value Hd := match goal with |- wired _ (dict_at _ ?k) => member Hd k; by repeat case_match end.

Lemma query_wired f d : query_wf f -> dict_wired (QueryFrame_ToDict f) d -> query_agree f (QueryFrameFromDict d).
Proof.
  intros Hwf Hd. unfold query_wf in Hwf. rewrite !Forall_cons in Hwf. destruct Hwf as (Hb & Hl & Ho & Hp & _).
  unfold QueryFrame_ToDict in Hd. split; [|split_and!].
  - unfold QueryFrameFromDict. cbn [qf_AnchorRef qf_Filter qf_Order qf_Fields qf_VectorSearch qf_Cursor qf_TokenBudget qf_Tokenizer
      qf_RequestID qf_AutoAnchor qf_Stream qf_Aggregate qf_Limit qf_Offset qf_Depth]. f_equal; wired_member Hd.
  - cbn. wired_value Hd.
  - cbn. unfold orderValue. member Hd "order". member Hd "order_by".
    revert Hm. destruct (dict_at d "order"); intros Hm; [|done..]. rewrite (wired_nil_r _ Hm), (wired_nil _ Hm0). constructor.
  - cbn. wired_value Hd.
  - cbn. wired_value Hd.
Qed.

Lemma action_wired f d : action_wf f -> dict_wired (ActionFrame_ToDict f) d -> action_agree f (ActionFrameFromDict d).
Proof.
  intros Hwf Hd. unfold action_wf in Hwf. unfold ActionFrame_ToDict in Hd. split; [|cbn; wired_value Hd].
  unfold ActionFrameFromDict. cbn [an_Action an_Params an_AnchorRef an_Async an_IdempotencyKey an_TimeoutMs an_RequestID]. f_equal; [|wired_member Hd..].
  rewrite <- !(wired_str _ _ Hd _ _ eq_refl). unfold str. members. by destruct (an_Action f).
Qed.

Lemma subscribe_wired f d : subscribe_wf f -> dict_wired (SubscribeFrame_ToDict f) d -> subscribe_agree f (SubscribeFrameFromDict d).
Proof.
  intros Hwf Hd. unfold subscribe_wf in Hwf. rewrite !Forall_cons in Hwf. destruct Hwf as (Hh & Hm & _).
  unfold SubscribeFrame_ToDict in Hd. split; [|cbn; wired_value Hd].
  unfold SubscribeFrameFromDict. cbn [sb_SubscriptionID sb_Filter sb_HeartbeatIntervalMs sb_MaxEvents sb_Cursor]. f_equal; wired_member Hd.
Qed.

(** The frames of nwp survive the wire: what a peer reads from any dict that the wire
    may have made of the one written is the same frame, but for the values of any type,
    which are as the wire carried them.  An empty list of fields stays apart from no
    list. *)
Theorem nwp_frames_roundtrip q a s dq da ds :
  query_wf q -> action_wf a -> subscribe_wf s ->
  dict_wired (QueryFrame_ToDict q) dq -> dict_wired (ActionFrame_ToDict a) da -> dict_wired (SubscribeFrame_ToDict s) ds ->
  query_agree q (QueryFrameFromDict dq) /\ action_agree a (ActionFrameFromDict da) /\ subscribe_agree s (SubscribeFrameFromDict ds).
Proof. intros. split_and!; auto using query_wired, action_wired, subscribe_wired. Qed.

Lemma nwp_frames_roundtrip_witness :
  let q := MkQueryFrame "n" (VMap [("age", VInt KInt64 7)]) VNil (Some []) VNil None (Some 40) None (Some "r-1") (Some true) None VNil (Some 5) None None in
  let dq := [("anchor_ref", VString "n"); ("filter", VMap [("age", VFloat64 (float64_of_Z 7))]); ("fields", VSlice []);
             ("token_budget", VFloat64 (float64_of_Z 40)); ("request_id", VString "r-1"); ("auto_anchor", VBool true);
             ("limit", VFloat64 (float64_of_Z 5))] in
  let a := MkActionFrame "run" VNil None true None (Some 900) None in
  let da := [("action_id", VString "run"); ("action", VString "run"); ("async", VBool true); ("timeout_ms", VFloat64 (float64_of_Z 900))] in
  let s := MkSubscribe "s" VNil None (Some 3) None in
  let ds := [("subscription_id", VString "s"); ("max_events", VInt KUint32 3)] in
  query_agree q (QueryFrameFromDict dq) /\ action_agree a (ActionFrameFromDict da) /\ subscribe_agree s (SubscribeFrameFromDict ds).
Proof.
  intros q dq a da s ds. apply nwp_frames_roundtrip; unfold query_wf, action_wf, subscribe_wf; cbn;
    repeat first [done | lia | apply Forall_cons; split; [cbn; first [done | lia]|] | apply Forall_nil; done];
    unfold dict_wired; cbn; repeat first [apply Forall2_nil; done | apply Forall2_cons; split; [split; [reflexivity|]|]]; cbn;
    first [apply wired_same | apply wired_num; lia | apply (wired_strings []) | idtac].
  apply wired_map. repeat first [apply Forall2_nil; done | apply Forall2_cons; split; [split; [reflexivity|]|]]. cbn. apply wired_num. lia.
Defined.
