(* ===== verification/NwpNative.v ===== *)
(** * nwp/native_server.go and nwp/client.go: frames without and with HTTP

    [NwpNativeNodeServer] reads frames off a connection of NcpSession.v and answers each;
    [NwpClient] posts frames over HTTP, whose exchange is an argument.  Handlers are
    functions on a state of their own.  A handler that changes the frame it is given is
    not modelled. *)

From S2P Require Import Prelude GoValue CoreFrames CoreBinaryVector CoreCodec NcpFrames NcpSession NwpFrames.

(** ** native_server.go *)

Record NwpNativeNodeServer (W : Type) : Type := MkNative {
  nn_Codec : option NpsFrameCodec; nn_Tier : Z; EnabledEncodings : list string; nn_AnchorRef : string;
  QueryHandler : option (QueryFrame -> W -> result string (option CapsFrame) * W);   (* [None] is the nil pointer *)
  ActionHandler : option (ActionFrame -> W -> result string any * W)
}.
Arguments nn_Codec {W}.
Arguments nn_Tier {W}.
Arguments EnabledEncodings {W}.
Arguments nn_AnchorRef {W}.
Arguments QueryHandler {W}.
Arguments ActionHandler {W}.

Definition NewNwpNativeNodeServer {W} : NwpNativeNodeServer W :=
  MkNative W (Some (NewNpsFrameCodec CreateFullRegistry)) EncodingTierMsgPack [] "native:nwp" None None.

Definition nativeError (status code message : string) : dict :=
  [("status", VString status); ("error", VString code); ("error_code", VString code); ("message", VString message)].

Definition encodingToken (tier : Z) : string :=
  if tier =? EncodingTierJSON then "json"
  else if tier =? EncodingTierMsgPack then "msgpack"
  else if tier =? EncodingTierBinaryVector then "binary_vector.v1"
  else "unknown:" +:+ fmt_d tier.

Definition containsEncoding (enabled : list string) (token : string) : bool := existsb (fun e => String.eqb e token) enabled.

Definition encodingAllowed (hdr : FrameHeader) (defaultTier : Z) (enabled : list string) : bool :=
  (EncodingTier hdr =? defaultTier) ||
  (EncodingTier hdr =? EncodingTierBinaryVector) && (FrameType hdr =? FrameTypeQuery) && containsEncoding enabled "binary_vector.v1".

Definition readNativeWireFrame (c : Conn) : go_result (list byte) * Conn :=
  do? header, c <- ReadFull c 4;
  let ext := negb (Z.land (byte_z (nth 1 header x00)) 0x80 =? 0) in
  do? rest, c <- (if ext then ReadFull c 4 else (Ok [], c));
  let raw := header ++ rest in
  match PeekHeader raw with
  | Err e => (Err e, c)
  | Ok hdr => do? payload, c <- ReadFull c (Z.to_nat (PayloadLength hdr)); (Ok (raw ++ payload), c)
  end.

(** [caps] with the id of the request, when there is one. *)
Definition with_RequestID (id : option string) (f : CapsFrame) : CapsFrame :=
  match id with
  | None => f
  | Some _ => MkCapsFrame (cf_NodeID f) (cf_Caps f) (cf_AnchorRef f) (cf_Count f) (cf_Data f) (cf_NextCursor f) (cf_TokenEst f) (cf_Cached f)
                (cf_TokenizerUsed f) id (cf_Payload f)
  end.

(** The answer to an action that succeeded. *)
Definition action_caps (anchorRef : string) (result : any) (id : option string) : CapsFrame :=
  let f := NewCapsFrame anchorRef (Some (if not_nil result then [result] else [])) in
  with_RequestID id (MkCapsFrame (cf_NodeID f) (cf_Caps f) (cf_AnchorRef f) (cf_Count f) (cf_Data f) (cf_NextCursor f) (Some 1) (cf_Cached f)
                       (Some "native-estimate") (cf_RequestID f) (cf_Payload f)).

Section Server.
Context `{Msgpack} `{GoJSON} {W : Type}.
Abbreviation NwpNativeNodeServer := (NwpNativeNodeServer W).

Definition anchorRef (s : NwpNativeNodeServer) : string := if String.eqb (nn_AnchorRef s) "" then "native:nwp" else nn_AnchorRef s.
Definition enabledEncodings (s : NwpNativeNodeServer) (defaultTier : Z) : list string :=
  match EnabledEncodings s with [] => [encodingToken defaultTier] | l => l end.

Definition native_codec (s : NwpNativeNodeServer) : NpsFrameCodec := default (NewNpsFrameCodec CreateFullRegistry) (nn_Codec s).
Definition native_tier (s : NwpNativeNodeServer) : Z :=
  if (nn_Tier s =? EncodingTierJSON) || (nn_Tier s =? EncodingTierMsgPack) then nn_Tier s else EncodingTierMsgPack.

Definition dispatch_failed (message : string) : go_result (Z * dict) :=
  Ok (FrameTypeError, nativeError "NPS-SERVER-INTERNAL" "NWP-NATIVE-DISPATCH-FAILED" message).

(** The type and the dict of the answer; a nil [CapsFrame] without an error panics. *)
Definition Dispatch (s : NwpNativeNodeServer) (ft : Z) (d : dict) (w : W) : go_result (Z * dict) * W :=
  if ft =? FrameTypeQuery then
    match QueryHandler s with
    | None => (dispatch_failed "No native NWP query handler configured.", w)
    | Some handler =>
        let query := QueryFrameFromDict d in
        let '(r, w) := handler query w in
        (match r with
         | Err e => dispatch_failed e
         | Ok None => Err (ErrPanic "nil pointer dereference")
         | Ok (Some caps) => Ok (FrameTypeCaps, CapsFrame_ToDict (with_RequestID (qf_RequestID query) caps))
         end, w)
    end
  else if ft =? FrameTypeAction then
    match ActionHandler s with
    | None => (dispatch_failed "No native NWP action handler configured.", w)
    | Some handler =>
        let action := ActionFrameFromDict d in
        let '(r, w) := handler action w in
        (match r with
         | Err e => dispatch_failed e
         | Ok result => Ok (FrameTypeCaps, CapsFrame_ToDict (action_caps (anchorRef s) result (an_RequestID action)))
         end, w)
    end
  else (Ok (FrameTypeError, nativeError "NPS-CLIENT-BAD-FRAME" "NWP-NATIVE-FRAME-UNSUPPORTED"
                              ("Native NWP server does not handle frame type 0x" +:+ fmt_02X ft +:+ ".")), w).

Definition decode_failed (e : go_error) : go_result (Z * dict) :=
  Ok (FrameTypeError, nativeError "NPS-SERVER-INTERNAL" "NWP-NATIVE-DECODE-FAILED" (error_text e)).

Definition encoding_refused (hdr : FrameHeader) (enabled : list string) : go_result (Z * dict) :=
  Ok (FrameTypeError, nativeError "NPS-SERVER-ENCODING-UNSUPPORTED" "NCP-ENCODING-UNSUPPORTED"
    ("Frame type 0x" +:+ fmt_02X (FrameType hdr) +:+ " used " +:+ encodingToken (EncodingTier hdr) +:+ ", but the negotiated policy allows [" +:+
     join " " enabled +:+ "].")).

(** What [DispatchWire] answers, before it is encoded. *)
Definition dispatch_wire (s : NwpNativeNodeServer) (wire : list byte) (w : W) : go_result (Z * dict) * W :=
  match PeekHeader wire with
  | Err e => (decode_failed e, w)
  | Ok hdr =>
      let enabled := enabledEncodings s (native_tier s) in
      if negb (encodingAllowed hdr (native_tier s) enabled) then (encoding_refused hdr enabled, w)
      else match Decode (native_codec s) wire with
           | Err e => (decode_failed e, w)
           | Ok (ft, d) => Dispatch s ft d w
           end
  end.

Definition encode_answer (s : NwpNativeNodeServer) (x : go_result (Z * dict)) : go_result (list byte) :=
  match x with Err e => Err e | Ok (ft, d) => Encode (native_codec s) ft d (native_tier s) true end.

Definition DispatchWire (s : NwpNativeNodeServer) (wire : list byte) (w : W) : go_result (list byte) * W :=
  let '(x, w) := dispatch_wire s wire w in (encode_answer s x, w).

(** The loop of [Serve], [None] when [fuel] frames do not suffice. *)
Fixpoint serve_loop (fuel : nat) (s : NwpNativeNodeServer) (c : Conn) (w : W) : option (go_result unit * Conn * W) :=
  match fuel with
  | O => None
  | S fuel =>
      match readNativeWireFrame c with
      | (Err ErrEOF, c) => Some (Ok tt, c, w)
      | (Err e, c) => Some (Err e, c, w)
      | (Ok wire, c) =>
          let '(out, w) := DispatchWire s wire w in
          match out with
          | Err e => Some (Err e, c, w)
          | Ok out => match Write c out with
                      | (Err e, c) => Some (Err e, c, w)
                      | (Ok _, c) => serve_loop fuel s c w
                      end
          end
      end
  end.

(** Every frame takes four bytes of what the connection delivers. *)
Definition Serve (s : NwpNativeNodeServer) (c : Conn) (w : W) : option (go_result unit * Conn * W) := serve_loop (S (length (inp c))) s c w.
End Server.

(** ** client.go *)

Record nwp_request : Type := MkNwpRequest { nr_Method : string; nr_URL : string; nr_Headers : list (string * string); nr_Body : list byte }.

(** [rs_Spare] is what lies between the length and the capacity of the slice that
    [io.ReadAll] returns. *)
Record nwp_response : Type := MkNwpResponse { StatusCode : Z; ContentType : string; rs_Body : list byte; rs_Spare : list byte }.

Record NwpClient : Type := MkNwpClient { cl_baseURL : string; cl_codec : NpsFrameCodec; cl_tier : Z }.

Definition NewNwpClientFull (baseURL : string) (tier : Z) (reg : FrameRegistry) : NwpClient :=
  MkNwpClient (trim_slashes baseURL) (NewNpsFrameCodec reg) tier.
Definition NewNwpClient (baseURL : string) : NwpClient := NewNwpClientFull baseURL EncodingTierMsgPack CreateFullRegistry.

Inductive InvokeResult : Type := InvokedFrame (d : dict) | InvokedAsync (r : AsyncActionResponse) | InvokedJSON (d : dict).

Definition checkOK (status : Z) (path : string) : go_result unit :=
  if (200 <=? status) && (status <? 300) then Ok tt else Err (ErrPlain ("NWP " +:+ path +:+ " failed: HTTP " +:+ fmt_d status)).

Definition expected (what : string) (ft : Z) : go_error := ErrPlain ("expected " +:+ what +:+ ", got 0x" +:+ fmt_02X ft).

(** [strings.Contains(s, sub)]. *)
Fixpoint str_contains (sub s : string) : bool :=
  has_prefix sub s || match s with String _ r => str_contains sub r | EmptyString => false end.

Section Client.
Context `{Msgpack} `{GoJSON} {W : Type} (http_Do : nwp_request -> W -> go_result nwp_response * W) (json_Unmarshal_any : list byte -> go_result any).

Definition mimeNwpFrame : string := "application/nwp-frame".

Definition client_post (url : string) (body : list byte) : W -> go_result nwp_response * W :=
  http_Do (MkNwpRequest "POST" url [("Content-Type", mimeNwpFrame); ("Accept", mimeNwpFrame)] body).
Definition client_get (url accept : string) : W -> go_result nwp_response * W := http_Do (MkNwpRequest "GET" url [("Accept", accept)] []).

(** One call: the frame, the path below the base address, and what is made of the
    response once its status is one of success. *)
Definition call {A} (c : NwpClient) (ft : Z) (d : dict) (path : string) (k : nwp_response -> go_result A) (w : W) : go_result A * W :=
  match Encode (cl_codec c) ft d (cl_tier c) true with
  | Err e => (Err e, w)
  | Ok wire => let '(resp, w) := client_post (cl_baseURL c +:+ path) wire w in
               (match resp with
                | Err e => Err e
                | Ok resp => let? _ := checkOK (StatusCode resp) path in k resp
                end, w)
  end.

Definition read_caps (c : NwpClient) (resp : nwp_response) : go_result CapsFrame :=
  match Decode (cl_codec c) (rs_Body resp) with
  | Err e => Err e
  | Ok (ft, d) => if ft =? FrameTypeCaps then Ok (CapsFrameFromDict d) else Err (expected "CapsFrame" ft)
  end.

Definition Query (c : NwpClient) (frame : QueryFrame) : W -> go_result CapsFrame * W :=
  call c FrameTypeQuery (QueryFrame_ToDict frame) "/query" (read_caps c).
Definition Subscribe (c : NwpClient) (frame : SubscribeFrame) : W -> go_result CapsFrame * W :=
  call c FrameTypeSubscribe (SubscribeFrame_ToDict frame) "/subscribe" (read_caps c).

(** [body[offset:offset+total]]: what is past the length is read as well, up to the
    capacity. *)
Definition body_slice (resp : nwp_response) (offset total : nat) : go_result (list byte) :=
  let whole := rs_Body resp ++ rs_Spare resp in
  if (length whole <? offset + total)%nat then Err (ErrPanic "slice bounds out of range") else Ok (take total (drop offset whole)).

(** The frames from [offset] on, [None] when [fuel] frames do not suffice. *)
Fixpoint stream_loop (fuel : nat) (c : NwpClient) (resp : nwp_response) (offset : nat) (frames : list StreamFrame) : option (go_result (list StreamFrame)) :=
  match fuel with
  | O => None
  | S fuel =>
      if (length (rs_Body resp) <=? offset)%nat then Some (Ok frames)
      else match ParseFrameHeader (drop offset (rs_Body resp)) with
           | Err e => Some (Err e)
           | Ok hdr =>
               let total := (HeaderSize hdr + Z.to_nat (PayloadLength hdr))%nat in
               match (let? wire := body_slice resp offset total in Decode (cl_codec c) wire) with
               | Err e => Some (Err e)
               | Ok (ft, d) =>
                   if negb (ft =? FrameTypeStream) then Some (Err (expected "StreamFrame" ft))
                   else let sf := StreamFrameFromDict d in
                        if sf_IsLast sf then Some (Ok (frames ++ [sf])) else stream_loop fuel c resp (offset + total) (frames ++ [sf])
               end
           end
  end.

(** Every frame takes four bytes of the body. *)
Definition read_stream (c : NwpClient) (resp : nwp_response) : go_result (list StreamFrame) :=
  default (Err (ErrPanic "unreachable")) (stream_loop (S (length (rs_Body resp))) c resp 0 []).

Definition Stream (c : NwpClient) (frame : QueryFrame) : W -> go_result (list StreamFrame) * W :=
  call c FrameTypeQuery (QueryFrame_ToDict frame) "/stream" (read_stream c).

Definition read_invoked (c : NwpClient) (async : bool) (resp : nwp_response) : go_result InvokeResult :=
  if async then let? m := json_Unmarshal (rs_Body resp) in Ok (InvokedAsync (AsyncActionResponseFromDict m))
  else if str_contains mimeNwpFrame (ContentType resp) then match Decode (cl_codec c) (rs_Body resp) with Err e => Err e | Ok (_, d) => Ok (InvokedFrame d) end
  else let? m := json_Unmarshal (rs_Body resp) in Ok (InvokedJSON m).

Definition Invoke (c : NwpClient) (frame : ActionFrame) : W -> go_result InvokeResult * W :=
  call c FrameTypeAction (ActionFrame_ToDict frame) "/invoke" (read_invoked c (an_Async frame)).

(** [getJSON] and [getAny], with the reader of the body. *)
Definition get_with {A} (read : list byte -> go_result A) (accept url : string) (w : W) : go_result A * W :=
  let '(resp, w) := client_get url accept w in
  (let? resp := resp in let? _ := checkOK (StatusCode resp) url in read (rs_Body resp), w).

Definition getJSON (url : string) : W -> go_result dict * W := get_with json_Unmarshal "application/nwp-manifest+json" url.
Definition getAny (url : string) : W -> go_result any * W := get_with json_Unmarshal_any "application/json" url.

Definition FetchManifest (c : NwpClient) : W -> go_result dict * W := getJSON (cl_baseURL c +:+ "/.nwm").
Definition FetchSchema (c : NwpClient) : W -> go_result any * W := getAny (cl_baseURL c +:+ "/.schema").
Definition ListActions (c : NwpClient) : W -> go_result any * W := getAny (cl_baseURL c +:+ "/actions").
End Client.
