(* ===== verification/NwpNativeProof.v ===== *)
(** * Properties of nwp/native_server.go and nwp/client.go

    [Serve] answers every frame it reads and ends; a session of ncp that talks to it
    receives the answers in order; a query reaches its handler as it was asked; the reader
    of stream bodies. *)

From S2P Require Import Prelude GoValue CoreFrames CoreBinaryVector CoreCodec NcpFrames NcpHandshake NcpSession NwpFrames NwpNative.

Section Server.
Context `{Msgpack} `{GoJSON} {W : Type}.
Implicit Types (s : NwpNativeNodeServer W) (w : W) (c : Conn).

(** ** The loop *)

Lemma ReadFull_shrinks c n p c' : ReadFull c n = (Ok p, c') -> length (inp c') = (length (inp c) - n)%nat /\ (n <= length (inp c))%nat /\ is_open c' = is_open c.
Proof.
  unfold ReadFull. destruct (is_open c) eqn:Eo; [|done]. cbn [negb]. destruct (n =? 0)%nat eqn:En.
  - intros [= _ <-]. apply Nat.eqb_eq in En. split_and!; [lia|lia|done].
  - destruct (inp c) as [|b l] eqn:Ei; [done|]. destruct (_ <? n)%nat eqn:El; [done|]. intros [= _ <-].
    apply Nat.ltb_ge in El. cbn [inp is_open]. rewrite length_drop. split_and!; [done|done|done].
Qed.

Lemma wire_shrinks c wire c' : readNativeWireFrame c = (Ok wire, c') -> (length (inp c') < length (inp c))%nat.
Proof.
  unfold readNativeWireFrame. destruct (ReadFull c 4) as [[h|e] c1] eqn:E1; [|done]. apply ReadFull_shrinks in E1 as (E1 & L1 & _).
  destruct (if negb _ then ReadFull c1 4 else _) as [[r|e] c2] eqn:E2; [|done]. destruct (PeekHeader _) as [hdr|]; [|done].
  destruct (ReadFull c2 _) as [[p|e] c3] eqn:E3; [|done]. apply ReadFull_shrinks in E3 as (E3 & L3 & _). intros [= _ <-].
  assert (length (inp c2) <= length (inp c1))%nat by (destruct (negb _); [apply ReadFull_shrinks in E2 as (? & _ & _); lia|injection E2 as _ ->; lia]).
  lia.
Qed.

Lemma Write_inp c bs r c' : Write c bs = (r, c') -> inp c' = inp c.
Proof. unfold Write. destruct (is_open c); by intros [= _ <-]. Qed.

Lemma Write_feed q c bs : is_open c = true -> Write (feed q c) bs = (Ok tt, feed q (MkConn (ident c) (inp c) (out c ++ bs) true)).
Proof. intros Ho. unfold Write, feed. cbn. by rewrite Ho. Qed.

(** [Serve] returns on every connection. *)
Theorem serve_total s c w : exists x, Serve s c w = Some x.
Proof.
  unfold Serve. assert (Hf : (length (inp c) < S (length (inp c)))%nat) by lia. revert Hf. generalize (S (length (inp c))) as fuel.
  intros fuel. revert c w. induction fuel as [|fuel IH]; intros c w Hf; [lia|]. cbn [serve_loop].
  destruct (readNativeWireFrame c) as [[wire|e] c1] eqn:Er; [|destruct e; by eexists].
  apply wire_shrinks in Er. destruct (DispatchWire s wire w) as [[out|e] w1]; [|by eexists].
  destruct (Write c1 out) as [[u|e] c2] eqn:Ew; [|by eexists]. apply Write_inp in Ew. apply IH. rewrite Ew. lia.
Qed.

(** ** One frame *)

(** The frame on the wire of a header and a payload of its length. *)
Definition wire_of (h : FrameHeader) (p : list byte) : list byte := ToBytes h ++ p.

Lemma read_wire h p c : header_wf h = true -> Z.of_nat (length p) = PayloadLength h -> is_open c = true ->
  readNativeWireFrame (feed (wire_of h p) c) = (Ok (wire_of h p), c).
Proof.
  intros Hwf Hp Ho. pose proof (parse_ToBytes h [] Hwf) as Hh. rewrite app_nil_r in Hh. revert Hh. unfold readNativeWireFrame, wire_of.
  rewrite feed_app. destruct (ToBytes_split h Hwf) as (b0 & b1 & rest & E & Hb & Hl). rewrite E.
  apply header_wf_spec in Hwf as (_ & _ & Hext & _).
  destruct rest as [|b2 [|b3 rest]]; [by destruct (IsExtended h)..|]. cbn [app]. intros Hh.
  change (b0 :: b1 :: b2 :: b3 :: rest) with ([b0; b1; b2; b3] ++ rest) in *. rewrite feed_app, (ReadFull_feed [b0; b1; b2; b3] (feed rest (feed p c)) 4) by done.
  cbn [nth app]. rewrite Hb, <- Hext. destruct (IsExtended h).
  - rewrite (ReadFull_feed rest) by (cbn in *; congruence || lia). unfold PeekHeader. change (b0 :: b1 :: b2 :: b3 :: rest) with ([b0; b1; b2; b3] ++ rest).
    rewrite Hh. rewrite ReadFull_feed by (done || lia). done.
  - destruct rest; [|done]. unfold feed at 1. cbn [app]. unfold PeekHeader. cbn [app] in Hh. rewrite Hh.
    replace (MkConn (ident (feed p c)) (inp (feed p c)) (out (feed p c)) (is_open (feed p c))) with (feed p c) by done.
    rewrite ReadFull_feed by (done || lia). done.
Qed.

(** Frames that the server takes: of its tier, or vector queries where it enables
    them. *)
Definition served s (m : Sent) : Prop :=
  st_tier m = native_tier s \/
  st_tier m = EncodingTierBinaryVector /\ fr_type (st_frame m) = FrameTypeQuery /\ containsEncoding (enabledEncodings s (native_tier s)) "binary_vector.v1" = true.

Lemma dispatch_carried k s m w : carried k (native_codec s) (st_frame m) (st_tier m) (st_payload m) (st_dict m) -> served s m ->
  dispatch_wire s (sent_wire m) w = Dispatch s (fr_type (st_frame m)) (st_dict m) w.
Proof.
  intros Hc Hs. destruct (carried_header _ _ _ _ _ _ (st_final m) Hc) as (Hwf & Ht & _ & Hd). unfold dispatch_wire, sent_wire.
  unfold PeekHeader. rewrite Hd. unfold frame_wire. rewrite parse_ToBytes by done. unfold encodingAllowed. rewrite Ht.
  change (FrameType (frame_header (st_frame m) (st_tier m) (st_final m) (st_payload m))) with (fr_type (st_frame m)).
  destruct Hs as [->|(-> & -> & ->)]; [by rewrite Z.eqb_refl|]. cbn. by rewrite !orb_true_r.
Qed.

(** ** Conversations *)

(** The answers of the handlers to frames in a row: each has the type and the dict that
    [Dispatch] gives, and is the last frame of its message, at the tier of the server. *)
Inductive conversation s : list Sent -> W -> list Sent -> W -> Prop :=
| conversation_end w : conversation s [] w [] w
| conversation_step m ms a l w w1 w2 :
    Dispatch s (fr_type (st_frame m)) (st_dict m) w = (Ok (fr_type (st_frame a), fr_dict (st_frame a)), w1) ->
    st_tier a = native_tier s -> st_final a = true -> conversation s ms w1 l w2 -> conversation s (m :: ms) w (a :: l) w2.

Lemma sent_wire_length m : (0 < length (sent_wire m))%nat.
Proof. unfold sent_wire, frame_wire. rewrite length_app, length_ToBytes. unfold HeaderSize. destruct (IsExtended _); lia. Qed.

Lemma wires_length ms : (length ms <= length (concat (sent_wire <$> ms)))%nat.
Proof. induction ms as [|m ms IH]; [done|]. csimpl. rewrite length_app. pose proof (sent_wire_length m). lia. Qed.

Lemma serve_conversation k s ms w l w' : conversation s ms w l w' ->
  Forall (fun m => carried k (native_codec s) (st_frame m) (st_tier m) (st_payload m) (st_dict m) /\ served s m) ms ->
  Forall (fun a => carried (native_codec s) k (st_frame a) (st_tier a) (st_payload a) (st_dict a)) l ->
  forall c fuel, is_open c = true -> inp c = [] -> (length ms < fuel)%nat ->
  serve_loop fuel s (feed (concat (sent_wire <$> ms)) c) w = Some (Ok tt, MkConn (ident c) [] (out c ++ concat (sent_wire <$> l)) true, w').
Proof.
  induction 1 as [w|m ms a l w w1 w2 Hd Ht Hf _ IH]; intros Hms Hl c fuel Ho Hi Hn; (destruct fuel as [|fuel]; [cbn in Hn; lia|]).
  - cbn. unfold readNativeWireFrame, ReadFull, feed. cbn. rewrite Ho, Hi. cbn. by rewrite app_nil_r.
  - apply Forall_cons in Hms as [[Hc Hs] Hms]. apply Forall_cons in Hl as [Ha Hl]. csimpl. rewrite feed_app.
    destruct (carried_header _ _ _ _ _ _ (st_final m) Hc) as (Hwf & _). cbn [serve_loop].
    change (sent_wire m) with (wire_of (frame_header (st_frame m) (st_tier m) (st_final m) (st_payload m)) (st_payload m)) at 1.
    rewrite read_wire by done. change (wire_of _ (st_payload m)) with (sent_wire m). unfold DispatchWire.
    rewrite (dispatch_carried k) by done. rewrite Hd. cbn [encode_answer].
    destruct (carried_header _ _ _ _ _ _ (st_final a) Ha) as (_ & _ & He & _). rewrite Hf in He. rewrite <- Ht, He, Write_feed by done.
    change (concat (list_fmap _ _ sent_wire ms)) with (concat (sent_wire <$> ms)).
    rewrite IH by first [done | cbn in Hn; lia]. cbn [out ident]. unfold sent_wire at 2. by rewrite Hf, <- app_assoc.
Qed.

(** C13. A session and a native server that talk.  Whatever frames a session sends that the
    codecs carry, the encoding policy allows and the server takes, [Serve] reads exactly
    these, hands each to its handler, in order and in the state that the ones before left,
    writes exactly the answers and returns when the stream ends; and the session receives
    the answers, one for each frame and in order. *)
Theorem native_conversation kc (session : NcpSession) s c c' ms l w w' :
  codec session = Some kc -> is_open (conn session) = true -> is_open c = true -> inp c = [] -> is_open c' = true ->
  Forall (fun m => sendable kc (native_codec s) (EncodingPolicy session) (EncodingPolicy session) m /\ served s m) ms ->
  conversation s ms w l w' -> Forall (sendable (native_codec s) kc (EncodingPolicy session) (EncodingPolicy session)) l ->
  (let '(r, t) := send_all session ms in r = Ok tt /\ out (conn t) = out (conn session) ++ concat (sent_wire <$> ms)) /\
  Serve s (feed (concat (sent_wire <$> ms)) c) w = Some (Ok tt, MkConn (ident c) [] (out c ++ concat (sent_wire <$> l)) true, w') /\
  receive_n (length ms) (with_conn session (feed (concat (sent_wire <$> l)) c')) =
    (Ok ((fun a => (fr_type (st_frame a), st_dict a)) <$> l), with_conn session c').
Proof.
  intros Hk Ho Hoc Hi Ho' Hms Hconv Hl. split_and!.
  - assert (Hs : Forall (sendable kc (native_codec s) (EncodingPolicy session) (EncodingPolicy session)) ms) by (eapply Forall_impl; [done|]; by intros m [? _]).
    pose proof (send_all_wires _ _ _ _ _ Hk Ho Hs) as Hsend. destruct (send_all session ms) as [r t]. by destruct Hsend as (-> & -> & _).
  - apply (serve_conversation kc); [done| |eapply Forall_impl; [done|]; by intros a [? _]|done|done|].
    + eapply Forall_impl; [done|]. by intros m [[? _] ?].
    + cbn [inp feed]. rewrite length_app. pose proof (wires_length ms). lia.
  - replace (length ms) with (length l) by (clear -Hconv; induction Hconv; cbn; congruence). by apply (receive_all (native_codec s) kc (EncodingPolicy session)).
Qed.

(** ** Queries and actions *)

(** A query that a peer read from the wire reaches the handler as it was asked, and its
    answer carries the id of the request. *)
Lemma query_reaches_handler s handler f d w r w' :
  QueryHandler s = Some handler -> query_wf f -> dict_wired (QueryFrame_ToDict f) d -> handler (QueryFrameFromDict d) w = (r, w') ->
  query_agree f (QueryFrameFromDict d) /\
  Dispatch s FrameTypeQuery d w =
    (match r with
     | Err e => dispatch_failed e
     | Ok None => Err (ErrPanic "nil pointer dereference")
     | Ok (Some caps) => Ok (FrameTypeCaps, CapsFrame_ToDict (with_RequestID (qf_RequestID f) caps))
     end, w').
Proof.
  intros Hh Hwf Hd Hr. pose proof (query_wired _ _ Hwf Hd) as Ha. split; [done|]. unfold Dispatch. rewrite Z.eqb_refl, Hh, Hr.
  replace (qf_RequestID (QueryFrameFromDict d)) with (qf_RequestID f); [done|]. destruct Ha as [E _]. by rewrite E.
Qed.
End Server.

(** ** Caps frames on the wire *)

(** A frame with data or a count has both, the count being the number of data when it is
    zero. *)
Definition caps_counted (f : CapsFrame) : CapsFrame :=
  if bool_decide (cf_Data f <> None) || negb (cf_Count f =? 0) then
    MkCapsFrame (cf_NodeID f) (cf_Caps f) (cf_AnchorRef f)
      (if cf_Count f =? 0 then Z.of_nat (length (default [] (cf_Data f))) else cf_Count f) (Some (default [] (cf_Data f)))
      (cf_NextCursor f) (cf_TokenEst f) (cf_Cached f) (cf_TokenizerUsed f) (cf_RequestID f) (cf_Payload f)
  else f.

(** The same frame, but for the data and the payload, which are as the wire carried
    them. *)
Definition caps_read (f g : CapsFrame) : Prop :=
  g = MkCapsFrame (cf_NodeID f) (cf_Caps f) (cf_AnchorRef f) (cf_Count f) (cf_Data g) (cf_NextCursor f) (cf_TokenEst f) (cf_Cached f)
        (cf_TokenizerUsed f) (cf_RequestID f) (cf_Payload g) /\
  option_Forall2 (Forall2 wired) (cf_Data f) (cf_Data g) /\ wired (cf_Payload f) (cf_Payload g).

Definition caps_wf (f : CapsFrame) : Prop := 0 <= cf_Count f /\ from_option (fun z => 0 <= z) True (cf_TokenEst f).

Section Dict.
Lemma at_set k v (d : dict) : dict_at (dict_set k v d) k = v.
Proof. unfold dict_at. by rewrite assoc_get_set_eq. Qed.
Lemma at_set_ne k v (d : dict) k' : String.eqb k k' = false -> dict_at (dict_set k v d) k' = dict_at d k'.
Proof. intros Hk%String.eqb_neq. unfold dict_at. by rewrite assoc_get_set_ne. Qed.
End Dict.

Ltac caps_members :=
  repeat first [rewrite at_set_opt_ne by reflexivity | rewrite at_set_any_ne by reflexivity | rewrite at_set_ne by reflexivity
               | rewrite at_set_opt | rewrite at_set_any | rewrite at_set]; cbn -[not_nil]; rewrite ?not_nil_or.

Ltac caps_member Hd k := let H := fresh "Hm" in pose proof (dict_wired_at k _ _ Hd) as H; revert H; caps_members; intros H.

Lemma wired_uint64_ptr d k o : wired (opt_any (VInt KUint64) o) (dict_at d k) -> from_option (fun z => 0 <= z) True o -> (o = None -> dict_get k d = None) ->
  optUint64Ptr d k = o.
Proof.
  unfold optUint64Ptr, dict_at. destruct o as [z|]; cbn; intros Hw Hz Hn; [|by rewrite Hn].
  destruct (dict_get k d) as [v|]; cbn in Hw; inversion Hw; subst; [done|]. cbn. by rewrite uint64_of_float_exact by lia.
Qed.

Lemma dict_wired_get k d d' : dict_wired d d' -> dict_get k d = None -> dict_get k d' = None.
Proof.
  induction 1 as [|[k1 v] [k2 v'] d d' [Hk Hv] _ IH]; [done|]. cbn in *. subst. by destruct (String.eqb k2 k).
Qed.

Lemma opt_set_ne {A} k (inj : A -> any) o (d : dict) k' : String.eqb k k' = false -> dict_get k' (set_opt k inj o d) = dict_get k' d.
Proof. intros Hk%String.eqb_neq. destruct o; cbn [set_opt]; [by rewrite assoc_get_set_ne|done]. Qed.

Lemma get_set_any_ne k v (d : dict) k' : String.eqb k k' = false -> dict_get k' (set_any k v d) = dict_get k' d.
Proof. intros Hk%String.eqb_neq. unfold set_any. destruct (not_nil v); [by rewrite assoc_get_set_ne|done]. Qed.
Lemma get_set_ne k v (d : dict) k' : String.eqb k k' = false -> dict_get k' (dict_set k v d) = dict_get k' d.
Proof. intros Hk%String.eqb_neq. by rewrite assoc_get_set_ne. Qed.

Ltac no_member := let E := fresh in intros E; rewrite E;
  repeat first [rewrite opt_set_ne by reflexivity | rewrite get_set_any_ne by reflexivity | rewrite get_set_ne by reflexivity | progress cbn [set_opt]]; done.

(** What the reader of the wire finds under the keys of a caps frame. *)
Lemma caps_at f : let d := CapsFrame_ToDict f in let g := caps_counted f in
  dict_at d "node_id" = (if String.eqb (cf_NodeID f) "" then VNil else VString (cf_NodeID f)) /\
  dict_at d "caps" = (match cf_Caps f with [] => VNil | l => VStrings l end) /\
  dict_at d "anchor_ref" = opt_any VString (cf_AnchorRef f) /\
  dict_at d "count" = (match cf_Data g with None => VNil | Some _ => VInt KUint64 (cf_Count g) end) /\
  dict_at d "data" = opt_any VSlice (cf_Data g) /\
  dict_at d "next_cursor" = opt_any VString (cf_NextCursor f) /\
  dict_at d "token_est" = opt_any (VInt KUint64) (cf_TokenEst f) /\
  dict_at d "cached" = opt_any VBool (cf_Cached f) /\
  dict_at d "tokenizer_used" = opt_any VString (cf_TokenizerUsed f) /\
  dict_at d "request_id" = opt_any VString (cf_RequestID f) /\
  dict_at d "payload" = cf_Payload f /\
  (cf_TokenEst f = None -> dict_get "token_est" d = None).
Proof.
  cbv zeta. unfold CapsFrame_ToDict, caps_counted. cbv zeta.
  change (if not_nil ?p then dict_set ?k ?p ?d else ?d) with (set_any k p d).
  destruct (bool_decide (cf_Data f <> None) || negb (cf_Count f =? 0)) eqn:Eb.
  - cbn [cf_Data cf_Count]. destruct (String.eqb (cf_NodeID f) ""), (cf_Caps f), (cf_Count f =? 0); split_and!;
      first [no_member | caps_members; by repeat case_match].
  - apply orb_false_iff in Eb as [Eb _]. apply bool_decide_eq_false in Eb. assert (En : cf_Data f = None) by (by destruct (cf_Data f); [destruct Eb|]).
    rewrite En. destruct (String.eqb (cf_NodeID f) ""), (cf_Caps f); split_and!;
      first [no_member | caps_members; by repeat case_match].
Qed.

Lemma wired_opt_string d k o : wired (opt_any VString o) (dict_at d k) -> as_string (dict_at d k) = o.
Proof. intros Hw. rewrite <- (wired_as_string _ _ Hw). by destruct o. Qed.
Lemma wired_opt_bool d k o : wired (opt_any VBool o) (dict_at d k) -> as_bool (dict_at d k) = o.
Proof. intros Hw. rewrite <- (wired_as_bool _ _ Hw). by destruct o. Qed.

Lemma wired_any_slice o v : wired (opt_any VSlice o) v -> option_Forall2 (Forall2 wired) o (anySlice v).
Proof.
  destruct o as [l|]; cbn; intros Hw; [|rewrite (wired_nil _ Hw); constructor]. inversion Hw; subst; cbn; constructor; [|done].
  clear Hw. induction l; constructor; [constructor|done].
Qed.

Lemma wired_count (b : bool) n d : 0 <= n -> wired (if b then VInt KUint64 n else VNil) (dict_at d "count") -> toUint64 (dict_at d "count") = if b then n else 0.
Proof.
  intros Hn Hw. destruct b; [|by rewrite (wired_nil _ Hw)]. inversion Hw; subst; [done|]. cbn. by rewrite uint64_of_float_exact by lia.
Qed.

(** A caps frame survives the wire. *)
Lemma caps_wired f d : caps_wf f -> dict_wired (CapsFrame_ToDict f) d -> caps_read (caps_counted f) (CapsFrameFromDict d).
Proof.
  intros [Hc Ht] Hd. destruct (caps_at f) as (E1 & E2 & E3 & E4 & E5 & E6 & E7 & E8 & E9 & E10 & E11 & E12).
  assert (Hat : forall k, wired (dict_at (CapsFrame_ToDict f) k) (dict_at d k)) by (intros k; by apply dict_wired_at).
  pose proof (Hat "node_id") as H1. pose proof (Hat "caps") as H2. pose proof (Hat "anchor_ref") as H3. pose proof (Hat "count") as H4.
  pose proof (Hat "data") as H5. pose proof (Hat "next_cursor") as H6. pose proof (Hat "token_est") as H7. pose proof (Hat "cached") as H8.
  pose proof (Hat "tokenizer_used") as H9. pose proof (Hat "request_id") as H10. pose proof (Hat "payload") as H11.
  rewrite E1 in H1. rewrite E2 in H2. rewrite E3 in H3. rewrite E4 in H4. rewrite E5 in H5. rewrite E6 in H6. rewrite E7 in H7. rewrite E8 in H8.
  rewrite E9 in H9. rewrite E10 in H10. rewrite E11 in H11. clear Hat E1 E2 E3 E4 E5 E6 E7 E8 E9 E10 E11.
  assert (F : caps_counted f = MkCapsFrame (cf_NodeID f) (cf_Caps f) (cf_AnchorRef f) (cf_Count (caps_counted f)) (cf_Data (caps_counted f))
    (cf_NextCursor f) (cf_TokenEst f) (cf_Cached f) (cf_TokenizerUsed f) (cf_RequestID f) (cf_Payload f)).
  { unfold caps_counted. destruct (_ || _); [done|by destruct f]. }
  assert (Hn : 0 <= cf_Count (caps_counted f) /\ (cf_Data (caps_counted f) = None -> cf_Count (caps_counted f) = 0)).
  { unfold caps_counted. destruct (_ || _) eqn:Eb; cbn; [|split; [done|]; by apply orb_false_iff in Eb as [_ ?%negb_false_iff%Z.eqb_eq]].
    split; [destruct (_ =? 0); lia|done]. }
  split; [|split; rewrite F; cbn; [by apply wired_any_slice|done]]. rewrite F. cbn. unfold CapsFrameFromDict. f_equal.
  - unfold NcpFrames.str. rewrite <- (wired_as_string _ _ H1). destruct (String.eqb_spec (cf_NodeID f) "") as [->|]; done.
  - revert H2. destruct (cf_Caps f); intros H2; [by rewrite (wired_nil _ H2)|]. by rewrite (wired_strings_inv _ _ H2).
  - by apply wired_opt_string.
  - destruct Hn as [Hn Hz]. revert H4. destruct (cf_Data (caps_counted f)); intros H4; [by apply (wired_count true)|]. rewrite Hz by done. by apply (wired_count false 0).
  - by apply wired_opt_string.
  - apply wired_uint64_ptr; [done|done|]. intros E. eapply dict_wired_get; [done|]. by apply E12.
  - by apply wired_opt_bool.
  - by apply wired_opt_string.
  - by apply wired_opt_string.
Qed.

(** ** The client of nodes over HTTP *)

Section Client.
Context `{Msgpack} `{GoJSON} {W : Type}.

(** A query is one exchange with the node: a POST below the base address of the client,
    in the media type of the protocol both ways, with a body that a peer reads as the
    query it was; the caps frame of a response with a status of success is the answer,
    and nothing else is. *)
Lemma query_exchange (http_Do : nwp_request -> W -> go_result nwp_response * W) (c : NwpClient) (peer : NpsFrameCodec) f pl d w :
  query_wf f -> carried (cl_codec c) peer (MkFrame FrameTypeQuery (QueryFrame_ToDict f)) (cl_tier c) pl d -> dict_wired (QueryFrame_ToDict f) d ->
  query_agree f (QueryFrameFromDict d) /\
  exists wire, Decode peer wire = Ok (FrameTypeQuery, d) /\
    let asked := MkNwpRequest "POST" (cl_baseURL c +:+ "/query") [("Content-Type", "application/nwp-frame"); ("Accept", "application/nwp-frame")] wire in
    (Query http_Do c f w).2 = (http_Do asked w).2 /\
    forall g, (Query http_Do c f w).1 = Ok g <->
      exists resp d', (http_Do asked w).1 = Ok resp /\ 200 <= StatusCode resp < 300 /\
        Decode (cl_codec c) (rs_Body resp) = Ok (FrameTypeCaps, d') /\ g = CapsFrameFromDict d'.
Proof.
  intros Hwf Hq Hd. split; [by apply query_wired|]. destruct (carried_header _ _ _ _ _ _ true Hq) as (_ & _ & He & Hdec).
  cbn [fr_type fr_dict] in *. eexists. split; [exact Hdec|]. cbv zeta. unfold Query, call. rewrite He. unfold client_post. change mimeNwpFrame with "application/nwp-frame".
  destruct (http_Do _ w) as [[resp|e] w']; (split; [done|]); intros g; cbn [fst]; [|split; [done|by intros (? & ? & [=] & _)]].
  unfold checkOK, read_caps. destruct ((200 <=? StatusCode resp) && (StatusCode resp <? 300)) eqn:Es.
  - apply andb_true_iff in Es as [H1%Z.leb_le H2%Z.ltb_lt]. destruct (Decode (cl_codec c) (rs_Body resp)) as [[ft d']|e] eqn:Ed; cbn.
    + destruct (Z.eqb_spec ft FrameTypeCaps) as [->|Hne].
      * split; [intros [= <-]; by exists resp, d'|]. intros (r & d2 & [= <-] & _ & E & ->). rewrite Ed in E. by injection E as <-.
      * split; [done|]. intros (r & d2 & [= <-] & _ & E & _). rewrite Ed in E. by injection E as ->.
    + split; [done|]. intros (r & d2 & [= <-] & _ & E & _). by rewrite Ed in E.
  - split; [done|]. intros (r & d2 & [= <-] & Hs & _). apply andb_false_iff in Es as [H1%Z.leb_gt|H1%Z.ltb_ge]; lia.
Qed.

(** ** Stream bodies *)

Implicit Types (c : NwpClient) (resp : nwp_response).

(** Stream frames that the codec of the client reads. *)
Definition streamed k c (last : bool) (m : Sent) : Prop :=
  carried k (cl_codec c) (st_frame m) (st_tier m) (st_payload m) (st_dict m) /\ fr_type (st_frame m) = FrameTypeStream /\
  sf_IsLast (StreamFrameFromDict (st_dict m)) = last.

Lemma frame_total m :
  (HeaderSize (frame_header (st_frame m) (st_tier m) (st_final m) (st_payload m)) + Z.to_nat (Z.of_nat (length (st_payload m))))%nat = length (sent_wire m).
Proof. unfold sent_wire, frame_wire. rewrite length_app, length_ToBytes. lia. Qed.

Lemma stream_step k c last m resp fuel off acc rest : streamed k c last m -> drop off (rs_Body resp) = sent_wire m ++ rest ->
  let acc' := acc ++ [StreamFrameFromDict (st_dict m)] in
  stream_loop (S fuel) c resp off acc = if last then Some (Ok acc') else stream_loop fuel c resp (off + length (sent_wire m)) acc'.
Proof.
  intros (Hc & Hf & Hl) Hd acc'. destruct (carried_header _ _ _ _ _ _ (st_final m) Hc) as (Hwf & _ & _ & Hdec). cbn [stream_loop].
  assert (Hlen : (off + length (sent_wire m) <= length (rs_Body resp))%nat).
  { pose proof (f_equal length Hd) as E. rewrite length_drop, length_app in E. pose proof (sent_wire_length m). lia. }
  rewrite (proj2 (Nat.leb_gt _ _)) by (pose proof (sent_wire_length m); lia). rewrite Hd.
  unfold sent_wire at 1, frame_wire. rewrite <- app_assoc, parse_ToBytes by done. cbv zeta. cbn [PayloadLength frame_header NewFrameHeader].
  fold (frame_header (st_frame m) (st_tier m) (st_final m) (st_payload m)). rewrite frame_total. unfold body_slice.
  rewrite length_app, (proj2 (Nat.ltb_ge _ _)) by lia. rewrite drop_app_le by lia. rewrite Hd, <- app_assoc, take_app_length.
  change (sent_wire m) with (frame_wire (st_frame m) (st_tier m) (st_final m) (st_payload m)) at 1. rewrite Hdec, Hf, Z.eqb_refl. cbn [negb]. by rewrite Hl.
Qed.

Lemma stream_prefix k c ms resp tail : Forall (streamed k c false) ms -> forall off fuel acc,
  drop off (rs_Body resp) = concat (sent_wire <$> ms) ++ tail -> (length ms <= fuel)%nat ->
  stream_loop fuel c resp off acc =
    stream_loop (fuel - length ms) c resp (off + length (concat (sent_wire <$> ms))) (acc ++ ((fun m => StreamFrameFromDict (st_dict m)) <$> ms)).
Proof.
  induction 1 as [|m ms Hm _ IH]; intros off fuel acc Hd Hn; [cbn; by rewrite Nat.sub_0_r, Nat.add_0_r, app_nil_r|].
  destruct fuel as [|fuel]; [cbn in Hn; lia|]. rewrite !fmap_cons in Hd |- *. cbn [concat length Nat.sub] in Hd |- *. rewrite <- app_assoc in Hd. rewrite (stream_step _ _ _ _ _ _ _ _ _ Hm Hd).
  rewrite IH.
  - rewrite length_app, Nat.add_assoc, <- app_assoc. done.
  - rewrite <- drop_drop, Hd. by rewrite drop_app_length.
  - cbn in Hn. lia.
Qed.

(** The reader of a stream body.  It takes the frames up to the first that is marked last
    and none after it; it also takes a body that ends between two frames, before the last
    one, for a whole stream; and a body that is cut inside the payload of a frame makes
    it panic, unless the spare capacity of the slice covers what is missing. *)
Theorem stream_is_read k c ms resp tail :
  Forall (streamed k c false) ms -> rs_Body resp = concat (sent_wire <$> ms) ++ tail ->
  let frames := (fun m => StreamFrameFromDict (st_dict m)) <$> ms in
  (tail = [] -> read_stream c resp = Ok frames) /\
  (forall m rest, tail = sent_wire m ++ rest -> streamed k c true m -> read_stream c resp = Ok (frames ++ [StreamFrameFromDict (st_dict m)])) /\
  (forall h p, tail = wire_of h p -> header_wf h = true -> Z.of_nat (length p + length (rs_Spare resp)) < PayloadLength h ->
     read_stream c resp = Err (ErrPanic "slice bounds out of range")).
Proof.
  intros Hms Hb frames. unfold read_stream. pose proof (wires_length ms) as Hlen.
  assert (Hl : length (rs_Body resp) = (length (concat (sent_wire <$> ms)) + length tail)%nat) by (by rewrite Hb, length_app).
  rewrite (stream_prefix k c ms resp tail Hms 0) by (done || lia). cbn [plus app].
  assert (Hrest : drop (length (concat (sent_wire <$> ms))) (rs_Body resp) = tail) by (by rewrite Hb, drop_app_length).
  set (n := length (concat (sent_wire <$> ms))) in *. replace (S (length (rs_Body resp)) - length ms)%nat with (S (length (rs_Body resp) - length ms)) by lia.
  split_and!.
  - intros ->. cbn [stream_loop]. rewrite (proj2 (Nat.leb_le _ _)) by (cbn in Hl; lia). done.
  - intros m rest -> Hm. by rewrite (stream_step _ _ _ _ _ _ _ _ _ Hm Hrest).
  - intros h p -> Hwf Hp. cbn [stream_loop]. unfold wire_of in *. rewrite length_app, length_ToBytes in Hl.
    assert (Hh : (4 <= HeaderSize h)%nat) by (unfold HeaderSize; destruct (IsExtended h); lia).
    rewrite (proj2 (Nat.leb_gt _ _)) by lia. rewrite Hrest, parse_ToBytes by done. cbv zeta. unfold body_slice.
    rewrite length_app, (proj2 (Nat.ltb_lt _ _)) by lia. done.
Qed.

(** [read_stream] always returns. *)
Lemma stream_total c resp : exists x, stream_loop (S (length (rs_Body resp))) c resp 0 [] = Some x.
Proof.
  assert (Hf : (length (rs_Body resp) - 0 < S (length (rs_Body resp)))%nat) by lia. revert Hf. generalize (S (length (rs_Body resp))) as fuel.
  generalize 0%nat as off. generalize (@nil StreamFrame) as acc. intros acc off fuel. revert off acc. induction fuel as [|fuel IH]; intros off acc Hf; [lia|].
  cbn [stream_loop]. destruct (_ <=? off)%nat eqn:Eo; [by eexists|]. apply Nat.leb_gt in Eo. destruct (ParseFrameHeader _) as [h|]; [|by eexists].
  destruct (let? wire := body_slice resp off (HeaderSize h + Z.to_nat (PayloadLength h)) in Decode (cl_codec c) wire) as [[ft d]|]; [|by eexists].
  destruct (negb _); [by eexists|]. destruct (sf_IsLast _); [by eexists|]. apply IH. assert (4 <= HeaderSize h)%nat by (unfold HeaderSize; destruct (IsExtended h); lia). lia.
Qed.
End Client.

(** ** A frame that is cut *)

(** A stream that ends right after the header of a frame is taken for one that ended
    before the frame. *)
Lemma cut_frame_is_end `{Msgpack} `{GoJSON} {W} (s : NwpNativeNodeServer W) h c w :
  header_wf h = true -> 0 < PayloadLength h -> is_open c = true -> inp c = [] -> Serve s (feed (ToBytes h) c) w = Some (Ok tt, c, w).
Proof.
  intros Hwf Hp Ho Hi. pose proof (parse_ToBytes h [] Hwf) as Hh. rewrite app_nil_r in Hh.
  destruct (ToBytes_split h Hwf) as (b0 & b1 & rest & E & Hb & Hl).
  apply header_wf_spec in Hwf as (_ & _ & Hext & _). unfold Serve, serve_loop at 1, readNativeWireFrame.
  destruct rest as [|b2 [|b3 rest]]; [by destruct (IsExtended h)..|]. rewrite E in *.
  change ([b0; b1] ++ b2 :: b3 :: rest) with ([b0; b1; b2; b3] ++ rest) in *. rewrite feed_app, (ReadFull_feed [b0; b1; b2; b3] (feed rest c) 4) by done.
  cbn [nth app]. rewrite Hb, <- Hext.
  assert (Hend : ReadFull c (Z.to_nat (PayloadLength h)) = (Err ErrEOF, c)).
  { unfold ReadFull. rewrite Ho, Hi. cbn [negb]. by rewrite (proj2 (Nat.eqb_neq _ _)) by lia. }
  destruct (IsExtended h).
  - rewrite (ReadFull_feed rest) by (cbn in *; congruence || lia). unfold PeekHeader. cbn [app] in Hh. rewrite Hh. by rewrite Hend.
  - destruct rest; [|done]. cbn [app] in Hh. unfold PeekHeader, feed. cbn [app ident inp out is_open].
    replace (MkConn (ident c) (inp c) (out c) (is_open c)) with c by (by destruct c). rewrite Hh. by rewrite Hend.
Qed.

(** ** Witnesses *)

(** A serialiser of one query and one answer. *)
Definition two_json (q a : dict) : GoJSON :=
  {| json_Marshal := fun d => if bool_decide (dict_get "data" d <> None) then Ok [x01] else Ok [x00];
     json_Unmarshal := fun b => if bool_decide (b = [x01]) then Ok a else Ok q |}.

Definition toy_query : QueryFrame :=
  MkQueryFrame "n" VNil VNil None VNil None None None (Some "r-1") None None VNil (Some 5) None None.
Definition toy_caps : CapsFrame := NewCapsFrame "n" (Some [VString "row"]).
Definition toy_answer : CapsFrame := with_RequestID (Some "r-1") toy_caps.
Definition toy_native : NwpNativeNodeServer nat := MkNative nat None EncodingTierJSON [] "" (Some (fun _ n => (Ok (Some toy_caps), S n))) None.
Definition toy_json : GoJSON := two_json (QueryFrame_ToDict toy_query) (CapsFrame_ToDict toy_answer).

Lemma native_conversation_witness :
  let M := one_dict_msgpack [] [] in
  let J := toy_json in
  let ask := MkSent (MkFrame FrameTypeQuery (QueryFrame_ToDict toy_query)) 0 true [x00] (QueryFrame_ToDict toy_query) in
  let ans := MkSent (MkFrame FrameTypeCaps (CapsFrame_ToDict toy_answer)) 0 true [x01] (CapsFrame_ToDict toy_answer) in
  let session := SetCodec (newNcpSession (fresh 1 []) sample_caps (MkPolicy 0 false)) full_codec in
  (let '(r, t) := send_all session [ask; ask] in r = Ok tt /\ out (conn t) = [] ++ concat (sent_wire <$> [ask; ask])) /\
  Serve toy_native (feed (concat (sent_wire <$> [ask; ask])) (fresh 2 [])) 0%nat =
    Some (Ok tt, MkConn 2 [] (concat (sent_wire <$> [ans; ans])) true, 2%nat) /\
  receive_n 2 (with_conn session (feed (concat (sent_wire <$> [ans; ans])) (fresh 3 []))) =
    (Ok ((fun a => (fr_type (st_frame a), st_dict a)) <$> [ans; ans]), with_conn session (fresh 3 [])).
Proof.
  intros M J ask ans session. apply (native_conversation full_codec session toy_native (fresh 2 []) (fresh 3 []) [ask; ask] [ans; ans] 0%nat 2%nat); try reflexivity.
  - assert (sendable full_codec (native_codec toy_native) (EncodingPolicy session) (EncodingPolicy session) ask /\ served toy_native ask)
      by (split; [split; [carry|done]|by left]). apply Forall_cons; split; [done|]. by apply Forall_singleton.
  - apply (conversation_step _ _ _ _ _ 0%nat 1%nat); [reflexivity..|]. apply (conversation_step _ _ _ _ _ 1%nat 2%nat); [reflexivity..|]. constructor.
  - assert (sendable (native_codec toy_native) full_codec (EncodingPolicy session) (EncodingPolicy session) ans) by (split; [carry|done]).
    apply Forall_cons; split; [done|]. by apply Forall_singleton.
Defined.

Lemma stream_is_read_witness :
  let M := one_dict_msgpack [] [] in
  let d := StreamFrame_ToDict (MkStreamFrame "n" 0 VNil true) in
  let J := two_json d d in
  let m := MkSent (MkFrame FrameTypeStream d) 0 true [x00] d in
  let client := NewNwpClientFull "http://n/" EncodingTierJSON CreateFullRegistry in
  read_stream client (MkNwpResponse 200 "" (sent_wire m ++ [x09]) []) = Ok [MkStreamFrame "n" 0 VNil true].
Proof.
  intros M d J m client. set (resp := MkNwpResponse 200 "" (sent_wire m ++ [x09]) []).
  apply (proj1 (proj2 (stream_is_read full_codec client [] resp (sent_wire m ++ [x09]) (Forall_nil_2 _) eq_refl)) m [x09] eq_refl).
  split; [carry|done].
Defined.
