(* ===== verification/NwpPortable.v ===== *)
(** * nwp/portable_profile.go and nwp/cgn.go

    Portable admission of a request to a node, the preflight of an outbound bridge call,
    and the estimates of a token budget.  The Unicode case tables, [url.Parse] and the
    parser of IPv6 addresses are arguments; transports and roles are strings, as in the
    code. *)

From S2P Require Import Prelude GoValue CoreStatus NipPath NopExecute NwpStatus NwpAction NwpComplex.

(** ** Requests and decisions *)

Record NwpPortableNodeRequest : Type := MkPortableNode {
  pr_Transport : string; pr_NodeRole : string; pr_Method : string; pr_Path : string; pr_ContentType : string; pr_Accept : string;
  pr_BodyBytes : Z; pr_MaxBodyBytes : Z; pr_FrameKind : string; pr_BodyValid : bool; pr_Cancelled : bool; pr_CorrelationID : string
}.

Record NwpPortableNodeDecision : Type := MkNodeDecision {
  nd_Decision : string; nd_HTTPStatus : Z; nd_ContentType : string; nd_Status : string; nd_Error : string; nd_Allow : string;
  nd_ResponseFrame : string; nd_CorrelationID : string; nd_TelemetryOutcome : string; nd_LegacyMediaTypeAccepted : bool
}.

Record BridgeLifecycleRequest : Type := MkLifecycle {
  lc_Protocol : string; lc_Endpoint : string; lc_RegisteredProtocols : list string; lc_AllowHTTP : bool; lc_RejectPrivate : bool;
  lc_AllowedPrefixes : list string; lc_TimeoutMs : Z; lc_ElapsedMs : Z; lc_Cancelled : bool; lc_CorrelationID : string; lc_TaskMode : string
}.

Record BridgeLifecycleDecision : Type := MkLifecycleDecision {
  ld_Decision : string; ld_HTTPStatus : Z; ld_Status : string; ld_Error : string; ld_CorrelationID : string; ld_TaskMode : string;
  ld_TelemetryOutcome : string
}.

Definition nodeResult (r : NwpPortableNodeRequest) (decision telemetry : string) : NwpPortableNodeDecision :=
  MkNodeDecision decision 0 "" "" "" "" "" (pr_CorrelationID r) telemetry false.

Definition methodNotAllowed (r : NwpPortableNodeRequest) (allowedMethod : string) : NwpPortableNodeDecision :=
  let d := nodeResult r "reject" "rejected" in
  MkNodeDecision (nd_Decision d) 405 (nd_ContentType d) (nd_Status d) (nd_Error d) allowedMethod (nd_ResponseFrame d) (nd_CorrelationID d)
    (nd_TelemetryOutcome d) false.

Definition nodeReject (r : NwpPortableNodeRequest) (httpStatus : Z) (status errorCode : string) : NwpPortableNodeDecision :=
  let d := nodeResult r "reject" "rejected" in
  MkNodeDecision (nd_Decision d) httpStatus "application/nwp-error+json" status errorCode (nd_Allow d) (nd_ResponseFrame d) (nd_CorrelationID d)
    (nd_TelemetryOutcome d) false.

Definition bridgeLifecycleResult (r : BridgeLifecycleRequest) (decision telemetry : string) : BridgeLifecycleDecision :=
  MkLifecycleDecision decision 0 "" "" (lc_CorrelationID r) "" telemetry.

Definition lifecycle_reject (r : BridgeLifecycleRequest) (telemetry : string) (httpStatus : Z) (status errorCode : string) : BridgeLifecycleDecision :=
  let d := bridgeLifecycleResult r "reject" telemetry in
  MkLifecycleDecision (ld_Decision d) httpStatus status errorCode (ld_CorrelationID d) (ld_TaskMode d) (ld_TelemetryOutcome d).

(** ** Media types *)

(** [strings.SplitN(value, ";", 2)[0]]. *)
Fixpoint before_semicolon (s : string) : string :=
  match s with String c r => if Ascii.eqb c (chr 59) then "" else String c (before_semicolon r) | EmptyString => "" end.

Section Portable.
Context (unicode_ToLower unicode_ToUpper : string -> string) (unicode_EqualFold : string -> string -> bool).
Context (url_Parse : string -> option URL) (parseIPv6 : string -> option (list Z)).

Abbreviation ToLower := (strings_ToLower unicode_ToLower).
Abbreviation EqualFold := (strings_EqualFold unicode_EqualFold).

Definition ascii_upper (c : Ascii.ascii) : Ascii.ascii := let z := char_z c in if (97 <=? z) && (z <=? 122) then chr (Z.to_N z - 32) else c.
Definition strings_ToUpper (s : string) : string := if is_ascii s then map_string ascii_upper s else unicode_ToUpper s.

Definition baseMediaType (value : string) : string := ToLower (trim_space (before_semicolon value)).

Definition acceptsMediaType (accept responseType : string) : bool :=
  String.eqb (trim_space accept) "" ||
  existsb (fun value => let mediaType := baseMediaType value in
             String.eqb mediaType "*/*" || String.eqb mediaType "application/*" || String.eqb mediaType responseType) (split_on (chr 44) accept).

(** ** Nodes *)

Definition runs_queries (role : string) : bool := String.eqb role "memory" || String.eqb role "complex".
Definition runs_actions (role : string) : bool := String.eqb role "action" || String.eqb role "complex".

Definition evaluateHTTPNode (r : NwpPortableNodeRequest) : NwpPortableNodeDecision :=
  let path := ToLower (pr_Path r) in
  let method := strings_ToUpper (pr_Method r) in
  if String.eqb path "/.nwm" then
    if negb (String.eqb method "GET") then methodNotAllowed r "GET"
    else let d := nodeResult r "serve_manifest" "success" in
         MkNodeDecision (nd_Decision d) 200 "application/nwp-manifest+json" (nd_Status d) (nd_Error d) (nd_Allow d) (nd_ResponseFrame d)
           (nd_CorrelationID d) (nd_TelemetryOutcome d) false
  else if negb (String.eqb path "/query") && negb (String.eqb path "/invoke") then nodeReject r 404 "NPS-CLIENT-NOT-FOUND" "NWP-HTTP-FRAME-BODY-MALFORMED"
  else if negb (String.eqb method "POST") then methodNotAllowed r "POST"
  else
    let mediaType := baseMediaType (pr_ContentType r) in
    let legacy := String.eqb mediaType "application/x-nps-frame" in
    if negb legacy && negb (String.eqb mediaType MimeFrame) then nodeReject r 400 "NPS-CLIENT-BAD-FRAME" "NWP-HTTP-CONTENT-TYPE-UNSUPPORTED"
    else if negb (acceptsMediaType (pr_Accept r) "application/nwp-capsule") then nodeReject r 400 "NPS-CLIENT-BAD-PARAM" "NWP-HTTP-ACCEPT-UNSATISFIABLE"
    else
      let maxBodyBytes := if pr_MaxBodyBytes r =? 0 then 1024 * 1024 else pr_MaxBodyBytes r in
      if maxBodyBytes <? pr_BodyBytes r then nodeReject r 413 "NPS-LIMIT-PAYLOAD" "NWP-HTTP-BODY-TOO-LARGE"
      else if negb (pr_BodyValid r) then nodeReject r 400 "NPS-CLIENT-BAD-FRAME" "NWP-HTTP-FRAME-BODY-MALFORMED"
      else
        let frameKind := ToLower (pr_FrameKind r) in
        let query := String.eqb path "/query" && runs_queries (pr_NodeRole r) && String.eqb frameKind "query" in
        let action := String.eqb path "/invoke" && runs_actions (pr_NodeRole r) && String.eqb frameKind "action" in
        if negb query && negb action then nodeReject r 400 "NPS-CLIENT-BAD-FRAME" "NWP-HTTP-FRAME-BODY-MALFORMED"
        else let d := nodeResult r (if query then "dispatch_query" else "dispatch_action") "success" in
             MkNodeDecision (nd_Decision d) 200 "application/nwp-capsule" (nd_Status d) (nd_Error d) (nd_Allow d) (nd_ResponseFrame d)
               (nd_CorrelationID d) (nd_TelemetryOutcome d) legacy.

Definition evaluateNativeNode (r : NwpPortableNodeRequest) : NwpPortableNodeDecision :=
  let frameKind := ToLower (pr_FrameKind r) in
  let query := String.eqb frameKind "query" && runs_queries (pr_NodeRole r) in
  let action := String.eqb frameKind "action" && runs_actions (pr_NodeRole r) in
  if pr_BodyValid r && (query || action) then
    let d := nodeResult r (if query then "dispatch_query" else "dispatch_action") "success" in
    MkNodeDecision (nd_Decision d) (nd_HTTPStatus d) (nd_ContentType d) (nd_Status d) (nd_Error d) (nd_Allow d) "caps" (nd_CorrelationID d)
      (nd_TelemetryOutcome d) false
  else
    let d := nodeResult r "error_frame" "rejected" in
    MkNodeDecision (nd_Decision d) (nd_HTTPStatus d) (nd_ContentType d) "NPS-CLIENT-BAD-FRAME" "NWP-NATIVE-FRAME-UNSUPPORTED" (nd_Allow d) "error"
      (nd_CorrelationID d) (nd_TelemetryOutcome d) false.

Definition EvaluatePortableNode (r : NwpPortableNodeRequest) : NwpPortableNodeDecision :=
  if pr_Cancelled r then nodeResult r "abort" "cancelled"
  else if String.eqb (pr_Transport r) "native" then evaluateNativeNode r
  else evaluateHTTPNode r.

(** ** Outbound bridges *)

(** A timeout of zero panics, when nothing before it refuses the call. *)
Definition EvaluateBridgeLifecycle (r : BridgeLifecycleRequest) : go_result BridgeLifecycleDecision :=
  if lc_Cancelled r then Ok (bridgeLifecycleResult r "abort" "cancelled")
  else if String.eqb (trim_space (lc_Protocol r)) "" || String.eqb (trim_space (lc_Endpoint r)) "" then
    Ok (lifecycle_reject r "rejected" 422 "NPS-CLIENT-UNPROCESSABLE" "NWP-BRIDGE-TARGET-INVALID")
  else if negb (existsb (fun p => EqualFold p (lc_Protocol r)) (lc_RegisteredProtocols r)) then
    Ok (lifecycle_reject r "rejected" 501 "NPS-SERVER-UNSUPPORTED" "NWP-BRIDGE-PROTOCOL-UNSUPPORTED")
  else if negb (String.eqb (ValidateComplexChildURL url_Parse parseIPv6 ToLower (lc_Endpoint r) (lc_AllowedPrefixes r) (lc_RejectPrivate r) (lc_AllowHTTP r)) "") then
    Ok (lifecycle_reject r "rejected" 422 "NPS-CLIENT-UNPROCESSABLE" "NWP-BRIDGE-ENDPOINT-INVALID")
  else if lc_TimeoutMs r =? 0 then Err (ErrPanic "timeout_ms must be positive")
  else if lc_TimeoutMs r <=? lc_ElapsedMs r then Ok (lifecycle_reject r "timeout" 504 "NPS-SERVER-TIMEOUT" "NWP-BRIDGE-UPSTREAM-FAILED")
  else
    let async := EqualFold (lc_TaskMode r) "async" in
    let d := bridgeLifecycleResult r "dispatch" "success" in
    Ok (MkLifecycleDecision (ld_Decision d) (ld_HTTPStatus d) (if async then "NPS-OK-ACCEPTED" else "NPS-OK") (ld_Error d) (ld_CorrelationID d)
          (if async then "async" else "sync") (ld_TelemetryOutcome d)).

End Portable.

(** ** cgn.go *)

Definition bytesPerCgn : Z := 4.

(** The body of [EstimateCgn] and [EstimateCgnBytes], on a length. *)
Definition cgn_of (n : Z) : Z := if n =? 0 then 0 else (n + bytesPerCgn - 1) / bytesPerCgn.
Definition EstimateCgn (s : string) : Z := cgn_of (str_len s).
Definition EstimateCgnBytes (b : list byte) : Z := cgn_of (Z.of_nat (length b)).

Section Cgn.
Context (json_Marshal_any : any -> go_result (list byte)).

Definition EstimateCgnJSON (v : any) : go_result Z := let? b := json_Marshal_any v in Ok (EstimateCgnBytes b).

Fixpoint EstimateCgnRows (rows : list any) : go_result Z :=
  match rows with
  | [] => Ok 0
  | r :: rows => let? n := EstimateCgnJSON r in let? total := EstimateCgnRows rows in Ok (n + total)
  end.
End Cgn.

Record TokenBudgetMeta : Type := MkBudgetMeta {
  CgnLimit : Z; tb_Tokenizer : string; SupportedTokenizers : list string; TokenBudgetHint : bool; Profile : string
}.

Definition DefaultProfile (t : TokenBudgetMeta) : string := if String.eqb (Profile t) "" then "cgn.v1" else Profile t.

Definition BudgetExceededError (requested limit : Z) : string := "CGN budget exceeded: " +:+ fmt_d requested +:+ " > " +:+ fmt_d limit.

(** ** Properties *)

Section Proofs.
Context (unicode_ToLower unicode_ToUpper : string -> string) (unicode_EqualFold : string -> string -> bool).
Context (url_Parse : string -> option URL) (parseIPv6 : string -> option (list Z)).

Abbreviation evaluate := (EvaluatePortableNode unicode_ToLower unicode_ToUpper).
Abbreviation lifecycle := (EvaluateBridgeLifecycle unicode_ToLower unicode_EqualFold url_Parse parseIPv6).

(** The two operations that a node is asked for: its path, its kind of frame, the roles
    that have it and the decision that runs it. *)
Inductive operation : Type := RunQuery | RunAction.
Definition op_path (o : operation) : string := match o with RunQuery => "/query" | RunAction => "/invoke" end.
Definition op_decision (o : operation) : string := match o with RunQuery => "dispatch_query" | RunAction => "dispatch_action" end.
Definition op_role (o : operation) : string -> bool := match o with RunQuery => runs_queries | RunAction => runs_actions end.
Definition op_kind (o : operation) : string := match o with RunQuery => "query" | RunAction => "action" end.

(** What HTTP asks of a request beyond what the frame says. *)
Record envelope (o : operation) (r : NwpPortableNodeRequest) : Prop := {
  ev_path : strings_ToLower unicode_ToLower (pr_Path r) = op_path o;
  ev_method : strings_ToUpper unicode_ToUpper (pr_Method r) = "POST";
  ev_media : baseMediaType unicode_ToLower (pr_ContentType r) ∈ ["application/nwp-frame"; "application/x-nps-frame"];
  ev_accept : acceptsMediaType unicode_ToLower (pr_Accept r) "application/nwp-capsule" = true;
  ev_size : pr_BodyBytes r <= (if pr_MaxBodyBytes r =? 0 then 1048576 else pr_MaxBodyBytes r)
}.

Definition over (transport : string) (r : NwpPortableNodeRequest) : NwpPortableNodeRequest :=
  MkPortableNode transport (pr_NodeRole r) (pr_Method r) (pr_Path r) (pr_ContentType r) (pr_Accept r) (pr_BodyBytes r) (pr_MaxBodyBytes r)
    (pr_FrameKind r) (pr_BodyValid r) (pr_Cancelled r) (pr_CorrelationID r).

Lemma native_dispatches o r :
  nd_Decision (evaluate (over "native" r)) = op_decision o <->
  pr_Cancelled r = false /\ pr_BodyValid r = true /\ op_role o (pr_NodeRole r) = true /\ strings_ToLower unicode_ToLower (pr_FrameKind r) = op_kind o.
Proof.
  unfold EvaluatePortableNode, evaluateNativeNode. cbn [pr_Cancelled over pr_Transport String.eqb Ascii.eqb Bool.eqb pr_FrameKind pr_NodeRole pr_BodyValid].
  destruct (pr_Cancelled r); [split; [by destruct o|by intros [? _]]|]. generalize (strings_ToLower unicode_ToLower (pr_FrameKind r)) as k. intros k.
  destruct (pr_BodyValid r); [|split; [by destruct o|by intros (_ & ? & _)]]. cbn [andb].
  destruct (String.eqb_spec k "query") as [->|Hq]; [|destruct (String.eqb_spec k "action") as [->|Ha]];
    destruct o; cbn [op_decision op_role op_kind String.eqb Ascii.eqb Bool.eqb andb orb]; rewrite ?orb_false_r;
    repeat case_match; cbn; split; try done; try (by intros (_ & _ & ? & ?)); intros _; split_and!; (done || congruence).
Qed.

(** Over HTTP a node is asked for what the same frame asks it for natively, once the
    request has the envelope of HTTP: both transports admit the same frames. *)
Theorem transports_agree o r : pr_Transport r <> "native" ->
  nd_Decision (evaluate r) = op_decision o <-> envelope o r /\ nd_Decision (evaluate (over "native" r)) = op_decision o.
Proof.
  intros Ht. rewrite native_dispatches. unfold EvaluatePortableNode. apply String.eqb_neq in Ht. rewrite Ht.
  destruct (pr_Cancelled r); [split; [by destruct o|by intros (_ & ? & _)]|].
  unfold evaluateHTTPNode, MimeFrame. change (1024 * 1024) with 1048576. split.
  - destruct (String.eqb _ "/.nwm"); [by repeat case_match; destruct o|].
    destruct (negb (String.eqb _ "/query") && _); [by destruct o|]. destruct (String.eqb_spec (strings_ToUpper unicode_ToUpper (pr_Method r)) "POST") as [Hme|]; [|by destruct o].
    destruct (negb (String.eqb _ "application/x-nps-frame") && _) eqn:Hma; [by destruct o|]. cbn [negb].
    destruct (acceptsMediaType _ _ _) eqn:Hac; [|by destruct o]. destruct (Z.ltb_spec (if pr_MaxBodyBytes r =? 0 then 1048576 else pr_MaxBodyBytes r) (pr_BodyBytes r)); [by destruct o|].
    destruct (pr_BodyValid r) eqn:Hv; [|by destruct o]. cbn [negb].
    assert (Hmedia : baseMediaType unicode_ToLower (pr_ContentType r) ∈ ["application/nwp-frame"; "application/x-nps-frame"]).
    { rewrite !elem_of_cons. apply andb_false_iff in Hma as [?%negb_false_iff%String.eqb_eq|?%negb_false_iff%String.eqb_eq]; tauto. }
    revert Hv. generalize (strings_ToLower unicode_ToLower (pr_FrameKind r)) as k. intros k Hv.
    destruct (String.eqb_spec (strings_ToLower unicode_ToLower (pr_Path r)) "/query") as [Hp|]; [|destruct (String.eqb_spec (strings_ToLower unicode_ToLower (pr_Path r)) "/invoke") as [Hp|]; [|by destruct o]].
    + rewrite Hp. cbn [String.eqb Ascii.eqb Bool.eqb andb negb]. rewrite andb_true_r. destruct (runs_queries _) eqn:Hr, (String.eqb_spec k "query") as [->|]; cbn; intros E; by destruct o.
    + cbn [andb negb]. destruct (runs_actions _) eqn:Hr, (String.eqb_spec k "action") as [->|]; cbn; intros E; by destruct o.
  - intros [[Hp Hme Hma Hac Hs] (_ & -> & Hr & ->)]. rewrite Hp, Hme, Hac. apply Z.ltb_ge in Hs. rewrite Hs.
    apply elem_of_cons in Hma as [->|Hma%list_elem_of_singleton]; [|rewrite Hma]; destruct o; cbn in *; by rewrite Hr.
Qed.

(** Every refusal over HTTP has the HTTP status that core gives to its NPS status, and a
    method that is not allowed names the one that is. *)
Theorem refusals_agree r : pr_Transport r <> "native" -> let d := evaluate r in
  nd_Decision d = "reject" ->
  (nd_Status d <> "" /\ nd_HTTPStatus d = ToHttpStatus (nd_Status d) /\ nd_Error d <> "") \/ (nd_HTTPStatus d = 405 /\ nd_Allow d <> "").
Proof.
  intros Ht. cbv zeta. unfold EvaluatePortableNode. apply String.eqb_neq in Ht. rewrite Ht. unfold evaluateHTTPNode.
  repeat case_match; cbn; try done; intros _; first [by left | by right].
Qed.

(** The preflight of a bridge call: it is dispatched exactly when it is not cancelled, has
    a registered protocol and an endpoint that the guard of child URLs admits, and has
    time left; it panics exactly when all of that holds but for a timeout of zero. *)
Theorem lifecycle_dispatches r :
  let admitted := lc_Cancelled r = false /\ trim_space (lc_Protocol r) <> "" /\ trim_space (lc_Endpoint r) <> "" /\
    (exists p, p ∈ lc_RegisteredProtocols r /\ strings_EqualFold unicode_EqualFold p (lc_Protocol r) = true) /\
    ValidateComplexChildURL url_Parse parseIPv6 (strings_ToLower unicode_ToLower) (lc_Endpoint r) (lc_AllowedPrefixes r) (lc_RejectPrivate r) (lc_AllowHTTP r) = "" in
  0 <= lc_TimeoutMs r ->
  ((exists d, lifecycle r = Ok d /\ ld_Decision d = "dispatch") <-> admitted /\ lc_ElapsedMs r < lc_TimeoutMs r /\ lc_TimeoutMs r <> 0) /\
  ((exists p, lifecycle r = Err p) <-> admitted /\ lc_TimeoutMs r = 0).
Proof.
  cbv zeta. intros Ht. unfold EvaluateBridgeLifecycle. destruct (lc_Cancelled r); [split; split; [by intros (? & [= <-] & ?)|by intros [[? _] _]|by intros [? ?]|by intros [[? _] _]]|].
  destruct (String.eqb_spec (trim_space (lc_Protocol r)) "") as [E|Hp]; [split; split; [by intros (? & [= <-] & ?)|by intros [(_ & ? & _) _]|by intros [? ?]|by intros [(_ & ? & _) _]]|].
  destruct (String.eqb_spec (trim_space (lc_Endpoint r)) "") as [E|He]; [split; split; [by intros (? & [= <-] & ?)|by intros [(_ & _ & ? & _) _]|by intros [? ?]|by intros [(_ & _ & ? & _) _]]|].
  cbn [orb]. destruct (existsb _ _) eqn:Ex; cbn [negb].
  2:{ assert (Hno : ~ exists p, p ∈ lc_RegisteredProtocols r /\ strings_EqualFold unicode_EqualFold p (lc_Protocol r) = true).
      { intros (p & Hin & E). apply Bool.not_true_iff_false in Ex. apply Ex, existsb_exists. exists p. by rewrite <- list_elem_of_In. }
      split; split; [by intros (? & [= <-] & ?)|by intros [(_ & _ & _ & ? & _) _]|by intros [? ?]|by intros [(_ & _ & _ & ? & _) _]]. }
  assert (Hreg : exists p, p ∈ lc_RegisteredProtocols r /\ strings_EqualFold unicode_EqualFold p (lc_Protocol r) = true).
  { apply existsb_exists in Ex as (p & Hin & E). exists p. by rewrite list_elem_of_In. }
  destruct (String.eqb_spec (ValidateComplexChildURL url_Parse parseIPv6 (strings_ToLower unicode_ToLower) (lc_Endpoint r) (lc_AllowedPrefixes r) (lc_RejectPrivate r) (lc_AllowHTTP r)) "") as [Hv|Hv]; cbn [negb].
  2:{ split; split; [by intros (? & [= <-] & ?)|by intros [(_ & _ & _ & _ & ?) _]|by intros [? ?]|by intros [(_ & _ & _ & _ & ?) _]]. }
  destruct (Z.eqb_spec (lc_TimeoutMs r) 0) as [E|E]; [split; split; [by intros (? & ? & ?)|by intros (_ & _ & ?)|done|by eexists]|].
  destruct (Z.leb_spec (lc_TimeoutMs r) (lc_ElapsedMs r)); (split; split; [intros (? & [= <-] & ?)|intros (_ & ? & _)|by intros [? ?]|by intros [_ ?]]); try done; try lia.
  by eexists.
Qed.
End Proofs.

(** ** Estimates *)

(** The estimate is the number of groups of four bytes that a text takes, the last one
    begun; the memory node measures its answers the same way. *)
Lemma cgn_ceiling n : 0 <= n -> n <= 4 * cgn_of n < n + 4.
Proof. unfold cgn_of, bytesPerCgn. intros Hn. destruct (Z.eqb_spec n 0); [lia|]. pose proof (Z.div_mod (n + 4 - 1) 4). pose proof (Z.mod_pos_bound (n + 4 - 1) 4). lia. Qed.

Lemma cgn_quarter n : cgn_of (Z.of_nat n) = NwpMemory.quarter n.
Proof. unfold cgn_of, NwpMemory.quarter, bytesPerCgn. destruct (Z.eqb_spec (Z.of_nat n) 0) as [->|]; [done|]. f_equal. lia. Qed.

(** The estimate of rows is what they take one by one, so never less than the estimate
    of all of them in a row, and more by less than one for each row. *)
Theorem rows_estimate json_Marshal_any rows n : EstimateCgnRows json_Marshal_any rows = Ok n ->
  exists texts, Forall2 (fun r t => json_Marshal_any r = Ok t) rows texts /\
    let all := Z.of_nat (length (concat texts)) in EstimateCgnBytes (concat texts) <= n /\ 4 * n <= all + 3 * Z.of_nat (length rows).
Proof.
  revert n. induction rows as [|r rows IH]; intros n; cbn [EstimateCgnRows].
  { intros [= <-]. exists []. by split. }
  unfold EstimateCgnJSON. destruct (json_Marshal_any r) as [b|] eqn:Eb; [|done]. destruct (EstimateCgnRows _ rows) as [total|] eqn:Et; [|done]. intros [= <-].
  destruct (IH _ eq_refl) as (texts & Hf & Hlo & Hhi). exists (b :: texts). split; [by constructor|]. revert Hlo Hhi. unfold EstimateCgnBytes. cbn [concat length]. rewrite length_app.
  set (m := length (concat texts)). pose proof (cgn_ceiling (Z.of_nat (length b))). pose proof (cgn_ceiling (Z.of_nat m)). pose proof (cgn_ceiling (Z.of_nat (length b + m))). lia.
Qed.

(** ** Witnesses *)

Definition toy_node (kind path : string) : NwpPortableNodeRequest :=
  MkPortableNode "http" "complex" "post" path "application/nwp-frame; v=1" "text/html, application/*" 10 0 kind true false "c-1".

Lemma transports_agree_witness :
  nd_Decision (EvaluatePortableNode id id (toy_node "Query" "/Query")) = "dispatch_query" <->
  envelope id id RunQuery (toy_node "Query" "/Query") /\ nd_Decision (EvaluatePortableNode id id (over "native" (toy_node "Query" "/Query"))) = "dispatch_query".
Proof. apply (transports_agree id id RunQuery (toy_node "Query" "/Query")). discriminate. Defined.

Lemma toy_dispatched : nd_Decision (EvaluatePortableNode id id (toy_node "Query" "/Query")) = "dispatch_query".
Proof. by vm_compute. Qed.

Lemma refusals_agree_witness :
  let d := EvaluatePortableNode id id (toy_node "query" "/invoke") in
  (nd_Status d <> "" /\ nd_HTTPStatus d = ToHttpStatus (nd_Status d) /\ nd_Error d <> "") \/ (nd_HTTPStatus d = 405 /\ nd_Allow d <> "").
Proof. apply (refusals_agree id id (toy_node "query" "/invoke")); [discriminate|by vm_compute]. Defined.

Definition toy_call (timeout : Z) : BridgeLifecycleRequest :=
  MkLifecycle "mcp" "https://a.example/x" ["MCP"] false true [] timeout 5 false "c-2" "ASYNC".
Definition toy_url (s : string) : option URL := Some (MkURL "https" "a.example" "a.example").

Lemma lifecycle_dispatches_witness :
  let r := toy_call 9 in
  (exists d, EvaluateBridgeLifecycle id String.eqb toy_url (fun _ => None) r = Ok d /\ ld_Decision d = "dispatch").
Proof.
  intros r. apply (lifecycle_dispatches id String.eqb toy_url (fun _ => None) r); [by vm_compute|]. split; [|by vm_compute]. split_and!; try (by vm_compute).
  exists "MCP". split; [by left|by vm_compute].
Defined.

Lemma rows_estimate_witness : exists texts, Forall2 (fun (r : any) t => Ok (E := go_error) [x7b; x7d] = Ok t) [VNil; VNil] texts /\
  EstimateCgnBytes (concat texts) <= 2 /\ 4 * 2 <= Z.of_nat (length (concat texts)) + 3 * 2.
Proof. apply (rows_estimate (fun _ => Ok [x7b; x7d]) [VNil; VNil] 2). by vm_compute. Defined.
