(* ===== verification/NwpBridge.v ===== *)
(** * nwp: the inbound bridge

    bridge_backend.go, bridge_inbound_options.go, bridge_error_map.go,
    bridge_jsonrpc.go and the protocol servers bridge_mcp_inbound.go,
    bridge_a2a_inbound.go and bridge_grpc_inbound.go: nodes behind one interface, which
    MCP, A2A and gRPC clients call.

    A backend works on a world [W], and an operation that panics answers with the text
    of the panic.  JSON texts are strings, with [encoding/json] as the class [BridgeEnv];
    the answers that are written as Go maps are values [jv]. *)

From S2P Require Import Prelude GoValue GoUtf8 NipPath.

(** ** bridge.go, error_codes.go, status_codes.go *)

Definition BridgeProtocolMCP : string := "mcp".
Definition BridgeProtocolA2A : string := "a2a".
Definition BridgeProtocolGRPC : string := "grpc".

Definition ErrBridgeDirectionUnsupported : string := "NWP-BRIDGE-DIRECTION-UNSUPPORTED".
Definition ErrBridgeUpstreamFailed : string := "NWP-BRIDGE-UPSTREAM-FAILED".
Definition ErrBridgeServerToolNotFound : string := "NWP-BRIDGE-SERVER-TOOL-NOT-FOUND".
Definition ErrBridgeServerDispatcherMissing : string := "NWP-BRIDGE-SERVER-DISPATCHER-MISSING".
Definition ErrBridgeServerDispatchFailed : string := "NWP-BRIDGE-SERVER-DISPATCH-FAILED".

Definition NpsClientBadFrame : string := "NPS-CLIENT-BAD-FRAME".
Definition NpsClientBadParam : string := "NPS-CLIENT-BAD-PARAM".
Definition NpsClientNotFound : string := "NPS-CLIENT-NOT-FOUND".
Definition NpsClientConflict : string := "NPS-CLIENT-CONFLICT".
Definition NpsClientGone : string := "NPS-CLIENT-GONE".
Definition NpsClientUnprocessable : string := "NPS-CLIENT-UNPROCESSABLE".
Definition NpsAuthUnauthenticated : string := "NPS-AUTH-UNAUTHENTICATED".
Definition NpsAuthForbidden : string := "NPS-AUTH-FORBIDDEN".
Definition NpsLimitRate : string := "NPS-LIMIT-RATE".
Definition NpsLimitBudget : string := "NPS-LIMIT-BUDGET".
Definition NpsLimitPayload : string := "NPS-LIMIT-PAYLOAD".
Definition NpsServerInternal : string := "NPS-SERVER-INTERNAL".
Definition NpsServerUnsupported : string := "NPS-SERVER-UNSUPPORTED".
Definition NpsServerUnavailable : string := "NPS-SERVER-UNAVAILABLE".
Definition NpsServerTimeout : string := "NPS-SERVER-TIMEOUT".
Definition NpsServerEncodingUnsupported : string := "NPS-SERVER-ENCODING-UNSUPPORTED".
Definition NpsDownstreamUnavailable : string := "NPS-DOWNSTREAM-UNAVAILABLE".

(** ** bridge_error_map.go *)

Definition JsonRpcParseError : Z := -32700.
Definition JsonRpcInvalidRequest : Z := -32600.
Definition JsonRpcMethodNotFound : Z := -32601.
Definition JsonRpcInvalidParams : Z := -32602.
Definition JsonRpcInternalError : Z := -32603.
Definition JsonRpcUpstreamError : Z := -32000.
Definition JsonRpcUnauthenticated : Z := -32001.
Definition JsonRpcForbidden : Z := -32003.
Definition JsonRpcConflict : Z := -32004.
Definition JsonRpcLimitExceeded : Z := -32005.

Inductive GrpcStatusCode : Type :=
| GrpcOK | GrpcCancelled | GrpcUnknown | GrpcInvalidArgument | GrpcDeadlineExceeded | GrpcNotFound | GrpcAlreadyExists
| GrpcPermissionDenied | GrpcResourceExhausted | GrpcFailedPrecondition | GrpcAborted | GrpcOutOfRange | GrpcUnimplemented
| GrpcInternal | GrpcUnavailable | GrpcDataLoss | GrpcUnauthenticated
| GrpcOther (n : Z).

#[export] Instance GrpcStatusCode_eq_dec : EqDecision GrpcStatusCode.
Proof. solve_decision. Defined.

Definition one_of (l : list string) (s : string) : bool := mem_string s l.

Definition BridgeToJsonRpc (npsStatus : string) (resourceRead : bool) : Z :=
  let among l := one_of l npsStatus in
  if among [NpsClientBadFrame] then JsonRpcInvalidRequest
  else if among [NpsClientBadParam; NpsClientUnprocessable] then JsonRpcInvalidParams
  else if among [NpsClientNotFound] then if resourceRead then JsonRpcInvalidParams else JsonRpcMethodNotFound
  else if among [NpsClientGone] then JsonRpcInvalidParams
  else if among [NpsClientConflict] then JsonRpcConflict
  else if among [NpsAuthUnauthenticated] then JsonRpcUnauthenticated
  else if among [NpsAuthForbidden] then JsonRpcForbidden
  else if among [NpsLimitRate; NpsLimitBudget; NpsLimitPayload] then JsonRpcLimitExceeded
  else if among [NpsServerUnsupported] then JsonRpcMethodNotFound
  else JsonRpcInternalError.

Definition BridgeToGrpcStatus (npsStatus : string) : GrpcStatusCode :=
  let among l := one_of l npsStatus in
  if among [NpsClientBadFrame; NpsClientBadParam; NpsClientUnprocessable] then GrpcInvalidArgument
  else if among [NpsClientNotFound; NpsClientGone] then GrpcNotFound
  else if among [NpsClientConflict] then GrpcAborted
  else if among [NpsAuthUnauthenticated] then GrpcUnauthenticated
  else if among [NpsAuthForbidden] then GrpcPermissionDenied
  else if among [NpsLimitRate; NpsLimitBudget; NpsLimitPayload] then GrpcResourceExhausted
  else if among [NpsServerUnsupported] then GrpcUnimplemented
  else if among [NpsServerInternal] then GrpcInternal
  else if among [NpsServerUnavailable; NpsDownstreamUnavailable] then GrpcUnavailable
  else if among [NpsServerTimeout] then GrpcDeadlineExceeded
  else GrpcInternal.

Definition BridgeFromHttpStatus (status : Z) : string :=
  let among l := existsb (Z.eqb status) l in
  if among [400] then NpsClientBadParam
  else if among [401] then NpsAuthUnauthenticated
  else if among [403] then NpsAuthForbidden
  else if among [404] then NpsClientNotFound
  else if among [408] then NpsServerTimeout
  else if among [409] then NpsClientConflict
  else if among [410] then NpsClientGone
  else if among [413] then NpsLimitPayload
  else if among [415] then NpsServerEncodingUnsupported
  else if among [422] then NpsClientUnprocessable
  else if among [429] then NpsLimitRate
  else if among [501] then NpsServerUnsupported
  else if among [502; 504] then NpsDownstreamUnavailable
  else if among [503] then NpsServerUnavailable
  else if 500 <=? status then NpsServerInternal
  else if 400 <=? status then NpsClientBadParam
  else "NPS-OK".

Definition BridgeFromJsonRpc (code : Z) : string :=
  let among l := existsb (Z.eqb code) l in
  if among [JsonRpcParseError; JsonRpcInvalidRequest] then NpsClientBadFrame
  else if among [JsonRpcMethodNotFound] then NpsClientNotFound
  else if among [JsonRpcInvalidParams] then NpsClientBadParam
  else if among [JsonRpcInternalError] then NpsServerInternal
  else if among [JsonRpcUnauthenticated] then NpsAuthUnauthenticated
  else if among [JsonRpcForbidden] then NpsAuthForbidden
  else if among [JsonRpcConflict] then NpsClientConflict
  else if among [JsonRpcLimitExceeded] then NpsLimitRate
  else if among [JsonRpcUpstreamError] then NpsDownstreamUnavailable
  else NpsServerInternal.

Definition BridgeFromGrpcStatus (code : GrpcStatusCode) : string :=
  match code with
  | GrpcOK => "NPS-OK"
  | GrpcInvalidArgument => NpsClientBadParam
  | GrpcFailedPrecondition => NpsClientUnprocessable
  | GrpcNotFound => NpsClientNotFound
  | GrpcAlreadyExists | GrpcAborted => NpsClientConflict
  | GrpcUnauthenticated => NpsAuthUnauthenticated
  | GrpcPermissionDenied => NpsAuthForbidden
  | GrpcResourceExhausted => NpsLimitRate
  | GrpcUnimplemented => NpsServerUnsupported
  | GrpcUnavailable => NpsServerUnavailable
  | GrpcDeadlineExceeded => NpsServerTimeout
  | _ => NpsServerInternal
  end.

Definition BridgeMustBeProtocolError (npsStatus : string) : bool :=
  one_of [NpsAuthUnauthenticated; NpsAuthForbidden; NpsLimitRate; NpsLimitBudget; NpsLimitPayload; NpsServerUnsupported;
          NpsServerInternal; NpsServerUnavailable; NpsServerTimeout; NpsDownstreamUnavailable] npsStatus.

Definition bridgeDetail (npsStatus nwpError message : string) : string :=
  npsStatus +:+ (if String.eqb nwpError "" then "" else " " +:+ nwpError) +:+ (if String.eqb message "" then "" else ": " +:+ message).

(** ** bridge_jsonrpc.go *)

(** Go maps and slices on their way to [json.Marshal]; a map lists its members. *)
Inductive jv : Type :=
| JNull
| JBool (b : bool)
| JNum (z : Z)
| JStr (s : string)
| JRaw (text : string)                     (* json.RawMessage *)
| JAny (v : any)                           (* what json.Unmarshal made *)
| JArr (l : list jv)
| JObj (l : list (string * jv)).

Definition JStrs (l : list string) : jv := JArr (JStr <$> l).

Record BridgeJsonRpcRequest : Type := MkRpcRequest { JsonRpc : string; ID : string; rq_Method : string; Params : string }.
Record BridgeJsonRpcError : Type := MkRpcError { Code : Z; e_Message : string; Data : option jv }.
Record BridgeJsonRpcResponse : Type := MkRpcResponse { rs_ID : string; Result : option jv; Error : option BridgeJsonRpcError }.

Definition jsonRpcOK (id : string) (result : jv) : BridgeJsonRpcResponse := MkRpcResponse id (Some result) None.
Definition jsonRpcErr (id : string) (code : Z) (message : string) (data : option jv) : BridgeJsonRpcResponse :=
  MkRpcResponse id None (Some (MkRpcError code message data)).
Definition jsonRpcErrObj (id : string) (e : BridgeJsonRpcError) : BridgeJsonRpcResponse := MkRpcResponse id None (Some e).

Definition nullID : string := "null".
Definition requestID (r : BridgeJsonRpcRequest) : string := if String.eqb (ID r) "" then nullID else ID r.

(** ** bridge_backend.go: data *)

Inductive NwpNodeRole : Type := NwpRoleUnknown | NwpRoleMemory | NwpRoleAction | NwpRoleComplex | NwpRoleAnchor | NwpRoleBridge.

#[export] Instance NwpNodeRole_eq_dec : EqDecision NwpNodeRole.
Proof. solve_decision. Defined.

Definition NwpNodeRole_String (r : NwpNodeRole) : string :=
  match r with
  | NwpRoleMemory => "memory" | NwpRoleAction => "action" | NwpRoleComplex => "complex" | NwpRoleAnchor => "anchor"
  | NwpRoleBridge => "bridge" | NwpRoleUnknown => "unknown"
  end.

Definition ParseNwpRole (nodeType : string) : NwpNodeRole :=
  let s := trim_space nodeType in
  if LowerIs s "memory" then NwpRoleMemory
  else if LowerIs s "action" then NwpRoleAction
  else if LowerIs s "complex" then NwpRoleComplex
  else if LowerIs s "anchor" then NwpRoleAnchor
  else if LowerIs s "bridge" then NwpRoleBridge
  else NwpRoleUnknown.

Record NwpNodeDescriptor : Type := MkDescriptor { Name : string; Role : NwpNodeRole; DisplayName : string; Description : string }.

Definition IsQueryable (d : NwpNodeDescriptor) : bool := match Role d with NwpRoleMemory | NwpRoleComplex => true | _ => false end.
Definition IsInvokable (d : NwpNodeDescriptor) : bool := match Role d with NwpRoleAction | NwpRoleComplex => true | _ => false end.

Record NwpActionDescriptor : Type := MkAction {
  ActionID : string; ac_Description : string; InputSchema : string; Async : bool; Tags : list string
}.

Definition quote : string := str_of [34]%N.
Definition quoted (s : string) : string := quote +:+ s +:+ quote.
Definition OpenObjectSchema : string :=
  "{" +:+ quoted "type" +:+ ":" +:+ quoted "object" +:+ "," +:+ quoted "additionalProperties" +:+ ":true}".
Definition EffectiveInputSchema (a : NwpActionDescriptor) : string :=
  if String.eqb (InputSchema a) "" then OpenObjectSchema else InputSchema a.

Record NwpResult : Type := MkResult { rs_Ok : bool; Payload : string; NpsStatus : string; NwpError : string; Message : string }.

Definition NwpSuccess (payload : string) : NwpResult := MkResult true payload "" "" "".
Definition NwpFailure (npsStatus nwpError message : string) : NwpResult := MkResult false "" npsStatus nwpError message.
Definition NwpDispatchFailed (message : string) : NwpResult := NwpFailure NpsServerInternal ErrBridgeServerDispatchFailed message.

Definition bridgeFailurePayload (res : NwpResult) : jv :=
  JObj [("status", JStr (NpsStatus res)); ("error", JStr (NwpError res)); ("message", JStr (Message res))].

(** *** A2A messages *)

Record A2aMessagePart : Type := MkPart { Type_ : string; Text : string; pt_Data : string; pt_Metadata : string }.
Record A2aMessage : Type := MkMessage { ms_Role : string; Parts : list A2aMessagePart; ms_Metadata : string }.
Record A2aTaskSendParams : Type := MkTask {
  tk_ID : string; SessionID : string; tk_Message : option A2aMessage; tk_Metadata : string
}.

Class BridgeEnv : Type := {
  json_Marshal : jv -> string;
  (** A value that holds raw JSON of a caller, which may be invalid. *)
  marshal_raw : jv -> result string string;
  marshal_frame : dict -> result string string;
  unmarshal_any : string -> result string any;
  (** Into [map[string]any], [map[string]json.RawMessage]. *)
  unmarshal_dict : string -> option dict;
  unmarshal_raws : string -> option (list (string * string));
  unmarshal_call : string -> result string (string * string);
  unmarshal_uri : string -> result string string;
  unmarshal_task : string -> result string A2aTaskSendParams;
  marshal_message : A2aMessage -> jv;
  (** [url.Parse], to scheme and host. *)
  url_Parse : string -> option (string * string);
  (** [unicode.IsLetter(r) || unicode.IsDigit(r)] on a rune that is not ASCII. *)
  unicode_alnum : string -> bool;
  unicode_EqualFold : string -> string -> bool
}.

(** ** The interface of a node *)

(** A computation on the world, which may panic. *)
Definition M (W A : Type) : Type := W -> result string A * W.
Definition ret {W A} (a : A) : M W A := fun w => (Ok a, w).
Definition bind {W A B} (m : M W A) (k : A -> M W B) : M W B :=
  fun w => match m w with (Ok a, w) => k a w | (Err p, w) => (Err p, w) end.

#[local] Notation "x <~ m ; k" := (bind m (fun x => k)) (at level 100, m at next level, k at level 200, right associativity).

Record NwpBackend (W : Type) : Type := MkBackend {
  GetDescriptor : M W (result string NwpNodeDescriptor);
  GetManifest : M W NwpResult;
  GetActions : M W (result string (list NwpActionDescriptor));
  b_Query : string -> M W NwpResult;
  b_Invoke : string -> string -> bool -> M W NwpResult
}.
Arguments GetDescriptor {W}.
Arguments GetManifest {W}.
Arguments GetActions {W}.
Arguments b_Query {W}.
Arguments b_Invoke {W}.

Section Bridge.
Context `{BridgeEnv} {W : Type}.
Abbreviation NwpBackend := (NwpBackend W).
Abbreviation M := (M W).

(** ** bridge_backend.go: nodes in this process *)

(** A handler's frame, its error, or its panic; [None] is the nil map. *)
Definition BridgeDispatch : Type := string -> any -> bool -> M (result string (option dict)).
Definition BridgeQuery : Type := any -> M (result string (option dict)).

Record InProcessNwpBackend : Type := NewInProcessNwpBackend {
  ip_descriptor : NwpNodeDescriptor; ip_actions : list NwpActionDescriptor; ip_invoke : option BridgeDispatch; ip_query : option BridgeQuery
}.

Definition bridgeFrameToResult (frame : option dict) : NwpResult :=
  match frame with
  | None => NwpSuccess "null"
  | Some frame =>
      let code := default "" (as_string (dict_at frame "error")) in
      if negb (String.eqb code "") then
        let status := default "" (as_string (dict_at frame "status")) in
        NwpFailure (if String.eqb status "" then NpsServerInternal else status) code (default "" (as_string (dict_at frame "message")))
      else match marshal_frame frame with Ok raw => NwpSuccess raw | Err e => NwpDispatchFailed e end
  end.

(** The deferred [recover], around what runs after it. *)
Definition recovered (m : M NwpResult) : M NwpResult :=
  fun w => match m w with (Ok r, w) => (Ok r, w) | (Err p, w) => (Ok (NwpDispatchFailed p), w) end.

Definition frame_result (x : result string (option dict)) : NwpResult :=
  match x with Err e => NwpDispatchFailed e | Ok frame => bridgeFrameToResult frame end.

Definition in_process_manifest (b : InProcessNwpBackend) : NwpResult :=
  let d := ip_descriptor b in
  NwpSuccess (json_Marshal (JObj ([("node_type", JStr (NwpNodeRole_String (Role d)))] ++
    (if String.eqb (DisplayName d) "" then [] else [("display_name", JStr (DisplayName d))]) ++
    (if String.eqb (Description d) "" then [] else [("description", JStr (Description d))])))).

Definition not_queryable (d : NwpNodeDescriptor) : NwpResult :=
  NwpFailure NpsServerUnsupported ErrBridgeServerToolNotFound
    ("Node '" +:+ Name d +:+ "' is not queryable (role: " +:+ NwpNodeRole_String (Role d) +:+ ").").

Definition in_process_query (b : InProcessNwpBackend) (query : string) : M NwpResult :=
  if negb (IsQueryable (ip_descriptor b)) then ret (not_queryable (ip_descriptor b))
  else match ip_query b with
       | None => ret (NwpFailure NpsServerInternal ErrBridgeServerDispatcherMissing
                        ("Node '" +:+ Name (ip_descriptor b) +:+ "' has no query dispatcher configured."))
       | Some run =>
           recovered
             match (if String.eqb query "" then Ok VNil else unmarshal_any query) with
             | Err e => ret (NwpFailure NpsClientBadParam "NWP-QUERY-FILTER-INVALID" e)
             | Ok filter => x <~ run filter; ret (frame_result x)
             end
       end.

Definition in_process_invoke (b : InProcessNwpBackend) (actionID arguments : string) (async : bool) : M NwpResult :=
  match ip_invoke b with
  | None => ret (NwpFailure NpsServerInternal ErrBridgeServerDispatcherMissing
                   ("Node '" +:+ Name (ip_descriptor b) +:+ "' has no action dispatcher configured."))
  | Some run =>
      recovered
        match (if String.eqb arguments "" then Ok VNil else unmarshal_any arguments) with
        | Err e => ret (NwpFailure NpsClientBadParam "NWP-ACTION-PARAMS-INVALID" e)
        | Ok params => x <~ run actionID params async; ret (frame_result x)
        end
  end.

Definition in_process (b : InProcessNwpBackend) : NwpBackend := {|
  GetDescriptor := ret (Ok (ip_descriptor b));
  GetManifest := ret (in_process_manifest b);
  GetActions := ret (Ok (if IsInvokable (ip_descriptor b) then ip_actions b else []));
  b_Query := in_process_query b;
  b_Invoke := in_process_invoke b |}.

(** ** bridge_backend.go: nodes over HTTP *)

Record NwpUpstream : Type := MkUpstream { up_Name : string; BaseURL : string; AgentNid : string; AuthHeader : string; ReadLimit : Z }.

(** What [http.Client.Do] makes of a request: an error, whether it is a timeout, or
    status and body. *)
Inductive http_outcome : Type := HttpFailed (timeout : bool) (text : string) | HttpAnswered (status : Z) (body : string).

Record http_request : Type := MkHttpRequest { hr_Method : string; hr_URL : string; hr_Headers : list (string * string); hr_Body : string }.

Section Http.
Context (NewRequest_error : string -> option string) (client_Do : http_request -> W -> http_outcome * W)
        (json_Valid : string -> bool) (unmarshal_error : string -> option string)
        (unmarshal_nwm : string -> option (string * string * string))
        (unmarshal_actions : string -> result string (list (string * (string * string)))).
(** The descriptor that a backend has cached, in the world. *)
Context (cached : W -> option NwpNodeDescriptor) (set_cached : NwpNodeDescriptor -> W -> W).

Definition do_result (o : http_outcome) : NwpResult :=
  match o with
  | HttpFailed true e => NwpFailure NpsServerTimeout ErrBridgeUpstreamFailed e
  | HttpFailed false e => NwpFailure NpsDownstreamUnavailable ErrBridgeUpstreamFailed e
  | HttpAnswered status raw =>
      if (status <? 200) || (300 <=? status) then NwpFailure (BridgeFromHttpStatus status) (default "" (unmarshal_error raw)) raw
      else if negb (json_Valid raw) then NwpFailure NpsDownstreamUnavailable ErrBridgeUpstreamFailed "upstream returned a non-JSON 2xx body."
      else NwpSuccess raw
  end.

Definition send (up : NwpUpstream) (method path : string) (headers : list (string * string)) (body : string) : W -> NwpResult * W :=
  fun w =>
    let url := trim_slashes (BaseURL up) +:+ path in
    match NewRequest_error url with
    | Some e => (NwpDispatchFailed e, w)
    | None =>
        let headers := headers ++ [("Accept", "application/json")] ++
          (if String.eqb (AgentNid up) "" then [] else [("X-NWP-Agent", AgentNid up)]) ++
          (if String.eqb (AuthHeader up) "" then [] else [("Authorization", AuthHeader up)]) in
        let '(o, w) := client_Do (MkHttpRequest method url headers body) w in (do_result o, w)
    end.

Definition http_get (up : NwpUpstream) (path : string) : W -> NwpResult * W := send up "GET" path [] "".
Definition http_post (up : NwpUpstream) (path body : string) : W -> NwpResult * W :=
  send up "POST" path [("Content-Type", "application/nwp-frame")] body.

Definition http_descriptor (up : NwpUpstream) : W -> NwpNodeDescriptor * W :=
  fun w => match cached w with
           | Some d => (d, w)
           | None =>
               let '(res, w) := http_get up "/.nwm" w in
               let unknown := MkDescriptor (up_Name up) NwpRoleUnknown "" "" in
               let d := if rs_Ok res then match unmarshal_nwm (Payload res) with
                                          | Some (nodeType, display, desc) => MkDescriptor (up_Name up) (ParseNwpRole nodeType) display desc
                                          | None => unknown
                                          end
                        else unknown in
               (d, set_cached d w)
           end.

(** The inner loop of [sortActions] carries an action to its place among those before it;
    the list is kept back to front. *)
Fixpoint sink (a : NwpActionDescriptor) (sorted : list NwpActionDescriptor) : list NwpActionDescriptor :=
  match sorted with
  | [] => [a]
  | b :: l => if String.ltb (ActionID a) (ActionID b) then b :: sink a l else a :: b :: l
  end.
Definition sortActions (l : list NwpActionDescriptor) : list NwpActionDescriptor := reverse (foldl (fun acc a => sink a acc) [] l).

Definition http_actions (up : NwpUpstream) : W -> result string (list NwpActionDescriptor) * W :=
  fun w => let '(d, w) := http_descriptor up w in
           if negb (IsInvokable d) then (Ok [], w)
           else let '(res, w) := http_get up "/actions" w in
                if negb (rs_Ok res) then (Err (Message res), w)
                else match unmarshal_actions (Payload res) with
                     | Err e => (Err e, w)
                     | Ok m => (Ok (sortActions ((fun '(id, (desc, schema)) => MkAction id desc schema false []) <$> m)), w)
                     end.

Definition http_query (up : NwpUpstream) (query : string) : W -> NwpResult * W :=
  fun w => let '(d, w) := http_descriptor up w in
           if negb (IsQueryable d) then (not_queryable d, w)
           else http_post up "/query" (if String.eqb query "" then "{}" else query) w.

Definition http_invoke (up : NwpUpstream) (actionID arguments : string) (async : bool) : W -> NwpResult * W :=
  match marshal_raw (JObj [("action_id", JStr actionID); ("params", JRaw (if String.eqb arguments "" then "{}" else arguments));
                           ("async", JBool async)]) with
  | Err e => fun w => (NwpDispatchFailed e, w)
  | Ok body => http_post up "/invoke" body
  end.

Definition no_panic {A} (f : W -> A * W) : M A := fun w => let '(a, w) := f w in (Ok a, w).

Definition http_backend (up : NwpUpstream) : NwpBackend := {|
  GetDescriptor := no_panic (fun w => let '(d, w) := http_descriptor up w in (Ok d, w));
  GetManifest := no_panic (http_get up "/.nwm");
  GetActions := no_panic (http_actions up);
  b_Query := fun q => no_panic (http_query up q);
  b_Invoke := fun id args async => no_panic (http_invoke up id args async) |}.
End Http.

(** ** bridge_inbound_options.go *)

Record BridgeInboundOptions : Type := MkInbound {
  Backends : list NwpBackend; InboundProtocols : option (list string); OutboundProtocols : option (list string);
  ServerName : string; ServerVersion : string; ResourceReadLimit : Z; in_RequireAuth : option bool
}.

Definition DefaultInboundProtocols : list string := [BridgeProtocolMCP; BridgeProtocolA2A].
Definition InboundProtocolSet (o : BridgeInboundOptions) : list string := default DefaultInboundProtocols (InboundProtocols o).
Definition OutboundProtocolSet (o : BridgeInboundOptions) : list string := default [] (OutboundProtocols o).

Definition folds_to : string -> string -> bool := strings_EqualFold unicode_EqualFold.

Definition ServesInbound (o : BridgeInboundOptions) (protocol : string) : bool := existsb (fun p => folds_to p protocol) (InboundProtocolSet o).

Definition serverName (o : BridgeInboundOptions) : string := if String.eqb (ServerName o) "" then "nps-bridge-server" else ServerName o.
Definition serverVersion (o : BridgeInboundOptions) : string := if String.eqb (ServerVersion o) "" then "0.1.0" else ServerVersion o.
Definition readLimit (o : BridgeInboundOptions) : Z := if 0 <? ResourceReadLimit o then ResourceReadLimit o else 100.
Definition in_requireAuth (o : BridgeInboundOptions) : bool := default true (in_RequireAuth o).

Definition directionHint (o : BridgeInboundOptions) : jv :=
  JObj [("bridge_inbound_protocols", JStrs (InboundProtocolSet o)); ("bridge_protocols", JStrs (OutboundProtocolSet o))].

Definition directionUnsupported (o : BridgeInboundOptions) (protocol : string) : BridgeJsonRpcError :=
  MkRpcError JsonRpcMethodNotFound ("This Bridge Node does not declare " +:+ quoted protocol +:+ " in bridge_inbound_protocols.")
    (Some (JObj [("error", JStr ErrBridgeDirectionUnsupported); ("hint", directionHint o)])).

(** *** Tool names *)

Definition ascii_alnum (c : Ascii.ascii) : bool :=
  let z := char_z c in ((97 <=? z) && (z <=? 122)) || ((65 <=? z) && (z <=? 90)) || ((48 <=? z) && (z <=? 57)).

(** Whether [mcpSanitize] keeps a rune. *)
Definition keeps (r : string) : bool :=
  match r with
  | String c EmptyString => if char_z c <? 0x80 then ascii_alnum c || Ascii.eqb c (chr 95) || Ascii.eqb c (chr 45) || Ascii.eqb c (chr 46) else unicode_alnum r
  | _ => unicode_alnum r
  end.

Fixpoint trim_underscores_left (s : string) : string :=
  match s with String c r => if Ascii.eqb c (chr 95) then trim_underscores_left r else s | EmptyString => s end.
(** [strings.Trim(s, "_")]. *)
Definition trim_underscores (s : string) : string := String.rev (trim_underscores_left (String.rev (trim_underscores_left s))).

Definition mcpSanitize (s : string) : string :=
  let out := trim_underscores (join "" ((fun r => if keeps r then r else "_") <$> runes_of (trim_space s))) in
  if String.eqb out "" then "node" else out.

(** [strings.ReplaceAll(s, ".", "_")]. *)
Definition dots_to_underscores (s : string) : string := map_string (fun c => if Ascii.eqb c (chr 46) then chr 95 else c) s.

Definition McpToolNameEncodeActionSegment (action : string) : string := dots_to_underscores (mcpSanitize action).
Definition McpToolNameEncode (node action : string) : string := mcpSanitize node +:+ "__" +:+ McpToolNameEncodeActionSegment action.

(** *** Tool resolution *)

Record BridgeToolMatch : Type := MkMatch { mt_Backend : NwpBackend; Descriptor : NwpNodeDescriptor; Action : NwpActionDescriptor; QualifiedName : string }.

(** The descriptor and the actions of a backend that is asked for them; [None] where the
    loops go on to the next backend. *)
Definition invokable_actions (b : NwpBackend) : M (option (NwpNodeDescriptor * list NwpActionDescriptor)) :=
  d <~ GetDescriptor b;
  match d with
  | Err _ => ret None
  | Ok d => if negb (IsInvokable d) then ret None
            else a <~ GetActions b; ret match a with Err _ => None | Ok actions => Some (d, actions) end
  end.

Definition match_of (b : NwpBackend) (d : NwpNodeDescriptor) (a : NwpActionDescriptor) : BridgeToolMatch :=
  MkMatch b d a (McpToolNameEncode (Name d) (ActionID a)).

(** The actions of one backend: the qualified match, or the candidates so far. *)
Fixpoint scan_actions (b : NwpBackend) (d : NwpNodeDescriptor) (toolName : string) (actions : list NwpActionDescriptor) (unqualified : list BridgeToolMatch)
    : result BridgeToolMatch (list BridgeToolMatch) :=
  match actions with
  | [] => Ok unqualified
  | a :: actions =>
      let m := match_of b d a in
      if folds_to (QualifiedName m) toolName then Err m
      else scan_actions b d toolName actions
             (if folds_to (ActionID a) toolName || folds_to (McpToolNameEncodeActionSegment (ActionID a)) toolName then unqualified ++ [m] else unqualified)
  end.

Fixpoint resolve_loop (backends : list NwpBackend) (toolName : string) (unqualified : list BridgeToolMatch) : M (result BridgeToolMatch (list BridgeToolMatch)) :=
  match backends with
  | [] => ret (Ok unqualified)
  | b :: backends =>
      x <~ invokable_actions b;
      match x with
      | None => resolve_loop backends toolName unqualified
      | Some (d, actions) => match scan_actions b d toolName actions unqualified with
                             | Err m => ret (Err m)
                             | Ok unqualified => resolve_loop backends toolName unqualified
                             end
      end
  end.

Definition BridgeResolveTool (backends : list NwpBackend) (toolName : string) : M (option BridgeToolMatch * list string) :=
  x <~ resolve_loop backends toolName [];
  ret match x with
      | Err m => (Some m, [])
      | Ok [m] => (Some m, [])
      | Ok unqualified => (None, QualifiedName <$> unqualified)
      end.

Fixpoint bridgeAllInvokableActions (backends : list NwpBackend) : M (list BridgeToolMatch) :=
  match backends with
  | [] => ret []
  | b :: backends =>
      x <~ invokable_actions b;
      rest <~ bridgeAllInvokableActions backends;
      ret (match x with None => [] | Some (d, actions) => match_of b d <$> actions end ++ rest)
  end.

Fixpoint bridgeQueryableBackends (backends : list NwpBackend) : M (list (NwpBackend * NwpNodeDescriptor)) :=
  match backends with
  | [] => ret []
  | b :: backends =>
      d <~ GetDescriptor b;
      rest <~ bridgeQueryableBackends backends;
      ret (match d with Ok d => if IsQueryable d then [(b, d)] else [] | Err _ => [] end ++ rest)
  end.

(** *** What a deployment declares *)

Record BridgeServerBackendSpec : Type := MkSpec {
  sp_Descriptor : NwpNodeDescriptor; sp_Actions : list NwpActionDescriptor; sp_Dispatch : option BridgeDispatch; sp_Query : option BridgeQuery;
  Upstreams : list NwpUpstream
}.

Definition declares_local (spec : BridgeServerBackendSpec) : bool :=
  bool_decide (is_Some (sp_Dispatch spec)) || bool_decide (is_Some (sp_Query spec)) || negb (length (sp_Actions spec) =? 0)%nat.

(** [remote] makes the backend of an upstream with the HTTP client, when there is one. *)
Definition BridgeCreateBackends (spec : BridgeServerBackendSpec) (remote : option (NwpUpstream -> NwpBackend)) : result string (list NwpBackend) :=
  let out := if declares_local spec then [in_process (NewInProcessNwpBackend (sp_Descriptor spec) (sp_Actions spec) (sp_Dispatch spec) (sp_Query spec))] else [] in
  match Upstreams spec, remote with
  | [], _ => Ok out
  | _, None => Err "upstreams are configured but no HTTP client was supplied to BridgeCreateBackends."
  | ups, Some remote => Ok (out ++ (remote <$> ups))
  end.

(** ** bridge_mcp_inbound.go *)

Definition McpRequiredMethods : list string := ["initialize"; "ping"; "tools/list"; "tools/call"; "resources/list"; "resources/read"].

Definition required : BridgeJsonRpcResponse := jsonRpcErr nullID JsonRpcInvalidRequest "JSON-RPC request is required." None.

Definition mcp_tool (m : BridgeToolMatch) : jv :=
  JObj ([("name", JStr (QualifiedName m)); ("inputSchema", JRaw (EffectiveInputSchema (Action m)))] ++
        (if String.eqb (ac_Description (Action m)) "" then [] else [("description", JStr (ac_Description (Action m)))])).

Definition toolsList (o : BridgeInboundOptions) (id : string) : M BridgeJsonRpcResponse :=
  all <~ bridgeAllInvokableActions (Backends o); ret (jsonRpcOK id (JObj [("tools", JArr (mcp_tool <$> all))])).

Definition text_content (isError : bool) (text : string) : jv :=
  JObj [("isError", JBool isError); ("content", JArr [JObj [("type", JStr "text"); ("text", JStr text)]])].

Definition failure_data (res : NwpResult) : jv := JObj [("error", JStr (NwpError res)); ("status", JStr (NpsStatus res))].

Definition projectToolResult (id : string) (res : NwpResult) (resourceRead : bool) : BridgeJsonRpcResponse :=
  if rs_Ok res then jsonRpcOK id (text_content false (Payload res))
  else if BridgeMustBeProtocolError (NpsStatus res)
  then jsonRpcErr id (BridgeToJsonRpc (NpsStatus res) resourceRead) (Message res) (Some (failure_data res))
  else jsonRpcOK id (text_content true (json_Marshal (bridgeFailurePayload res))).

Definition candidates_member (l : list string) : list (string * jv) := match l with [] => [] | _ => [("candidates", JStrs l)] end.

Definition toolsCall (o : BridgeInboundOptions) (id params : string) : M BridgeJsonRpcResponse :=
  match (if String.eqb params "" then Ok ("", "") else unmarshal_call params) with
  | Err e => ret (jsonRpcErr id JsonRpcInvalidParams e None)
  | Ok (name, arguments) =>
      if String.eqb (trim_space name) "" then ret (jsonRpcErr id JsonRpcInvalidParams "MCP tools/call requires params.name." None)
      else
        found <~ BridgeResolveTool (Backends o) name;
        match found with
        | (None, candidates) =>
            ret (jsonRpcErr id JsonRpcMethodNotFound ("MCP tool '" +:+ name +:+ "' is not exposed by this Bridge Node.")
                   (Some (JObj ([("error", JStr ErrBridgeServerToolNotFound); ("tool", JStr name)] ++ candidates_member candidates))))
        | (Some m, _) =>
            res <~ b_Invoke (mt_Backend m) (ActionID (Action m)) arguments false; ret (projectToolResult id res false)
        end
  end.

Definition resource (q : NwpBackend * NwpNodeDescriptor) : jv :=
  let d := q.2 in
  JObj [("uri", JStr ("nwp://" +:+ Name d +:+ "/"));
        ("name", JStr (if String.eqb (DisplayName d) "" then Name d else DisplayName d));
        ("description", JStr (if String.eqb (Description d) ""
                              then "NWP " +:+ NwpNodeRole_String (Role d) +:+ " Node '" +:+ Name d +:+ "' — read to query." else Description d));
        ("mimeType", JStr "application/json")].

Definition resourcesList (o : BridgeInboundOptions) (id : string) : M BridgeJsonRpcResponse :=
  l <~ bridgeQueryableBackends (Backends o); ret (jsonRpcOK id (JObj [("resources", JArr (resource <$> l))])).

Definition bad_uri (uri : string) : string := "Resource URI '" +:+ uri +:+ "' must be of the form nwp://<node>/.".

Definition resourcesRead (o : BridgeInboundOptions) (id params : string) : M BridgeJsonRpcResponse :=
  match (if String.eqb params "" then Ok "" else unmarshal_uri params) with
  | Err e => ret (jsonRpcErr id JsonRpcInvalidParams e None)
  | Ok uri =>
      if String.eqb (trim_space uri) "" then ret (jsonRpcErr id JsonRpcInvalidParams "MCP resources/read requires params.uri." None)
      else
        match url_Parse uri with
        | Some (scheme, host) =>
            if String.eqb scheme "" || negb (folds_to scheme "nwp") || String.eqb host "" then ret (jsonRpcErr id JsonRpcInvalidParams (bad_uri uri) None)
            else
              l <~ bridgeQueryableBackends (Backends o);
              match List.find (fun q => folds_to (Name q.2) host) l with
              | None => ret (jsonRpcErr id JsonRpcInvalidParams (bad_uri uri) (Some (JObj [("error", JStr ErrBridgeServerToolNotFound); ("uri", JStr uri)])))
              | Some (b, _) =>
                  res <~ b_Query b (json_Marshal (JObj [("limit", JNum (readLimit o))]));
                  ret (if negb (rs_Ok res) then projectToolResult id res true
                       else jsonRpcOK id (JObj [("contents", JArr [JObj [("uri", JStr uri); ("mimeType", JStr "application/json");
                                                                           ("text", JStr (Payload res))]])]))
              end
        | None => ret (jsonRpcErr id JsonRpcInvalidParams (bad_uri uri) None)
        end
  end.

Definition mcp_initialize (o : BridgeInboundOptions) : jv :=
  JObj [("serverInfo", JObj [("name", JStr (serverName o)); ("version", JStr (serverVersion o))]);
        ("capabilities", JObj [("tools", JObj []); ("resources", JObj [])])].

Definition unsupported_method (id protocol method : string) : BridgeJsonRpcResponse :=
  jsonRpcErr id JsonRpcMethodNotFound (protocol +:+ " method '" +:+ method +:+ "' is not supported by this Bridge Node.")
    (Some (JObj [("error", JStr ErrBridgeDirectionUnsupported)])).

Definition mcp_Dispatch (o : BridgeInboundOptions) (req : option BridgeJsonRpcRequest) : M BridgeJsonRpcResponse :=
  match req with
  | None => ret required
  | Some req =>
      let id := requestID req in
      let method s := String.eqb (rq_Method req) s in
      if negb (ServesInbound o BridgeProtocolMCP) then ret (jsonRpcErrObj id (directionUnsupported o BridgeProtocolMCP))
      else if method "initialize" then ret (jsonRpcOK id (mcp_initialize o))
      else if method "ping" then ret (jsonRpcOK id (JObj []))
      else if method "tools/list" then toolsList o id
      else if method "tools/call" then toolsCall o id (Params req)
      else if method "resources/list" then resourcesList o id
      else if method "resources/read" then resourcesRead o id (Params req)
      else ret (unsupported_method id "MCP" (rq_Method req))
  end.

(** *** Standard input and output *)

(** One line in, at most one response out. *)
Definition stdio_line (o : BridgeInboundOptions) (unmarshal_request : string -> result string BridgeJsonRpcRequest) (line : string)
    : M (option BridgeJsonRpcResponse) :=
  let line := trim_space line in
  if String.eqb line "" then ret None
  else match unmarshal_request line with
       | Err e => ret (Some (jsonRpcErr nullID JsonRpcParseError e None))
       | Ok req => if String.eqb (rq_Method req) "" && String.eqb (ID req) "" then ret (Some required)
                   else resp <~ mcp_Dispatch o (Some req); ret (Some resp)
       end.

(** The lines of the input until its end, and the responses, over a writer that does not
    fail. *)
Fixpoint RunStdio (o : BridgeInboundOptions) (unmarshal_request : string -> result string BridgeJsonRpcRequest) (lines : list string)
    : M (list BridgeJsonRpcResponse) :=
  match lines with
  | [] => ret []
  | line :: lines =>
      r <~ stdio_line o unmarshal_request line; rest <~ RunStdio o unmarshal_request lines;
      ret (match r with Some resp => resp :: rest | None => rest end)
  end.

(** ** bridge_a2a_inbound.go *)

Definition a2aSkillKeys : list string := ["action_id"; "actionId"; "skill_id"; "skillId"; "skill"].

Definition a2aLookupKeys (raw : string) (keys : list string) : string :=
  if String.eqb raw "" then ""
  else match unmarshal_dict raw with
       | None => ""
       | Some m => default "" (List.find (fun v => negb (String.eqb (trim_space v) "")) (omap (fun k => as_string (dict_at m k)) keys))
       end.

(** The first that is not empty. *)
Fixpoint first_named (l : list string) : string := match l with [] => "" | s :: l => if String.eqb s "" then first_named l else s end.

Definition message_parts (p : A2aTaskSendParams) : list A2aMessagePart := match tk_Message p with Some m => Parts m | None => [] end.

Definition a2aFindSkillName (p : A2aTaskSendParams) : string :=
  let look raw := a2aLookupKeys raw a2aSkillKeys in
  first_named ([look (tk_Metadata p)] ++ match tk_Message p with Some m => [look (ms_Metadata m)] | None => [] end ++
               concat ((fun part => [look (pt_Metadata part); look (pt_Data part)]) <$> message_parts p)).

Definition a2aLookupObject (raw : string) : string :=
  if String.eqb raw "" then ""
  else match unmarshal_raws raw with
       | None => ""
       | Some m => first_named ((fun k => let v := default "" (assoc_get k m) in if String.eqb v "null" then "" else v) <$> ["params"; "arguments"])
       end.

Definition data_part (part : A2aMessagePart) : bool := folds_to (Type_ part) "data" && negb (String.eqb (pt_Data part) "").
Definition text_part (part : A2aMessagePart) : bool := folds_to (Type_ part) "text" && negb (String.eqb (Text part) "").

(** The empty text is nil. *)
Definition a2aExtractArguments (p : A2aTaskSendParams) : string :=
  let parts := message_parts p in
  first_named ([a2aLookupObject (tk_Metadata p)] ++ match tk_Message p with Some m => [a2aLookupObject (ms_Metadata m)] | None => [] end ++
               ((fun part => a2aLookupObject (pt_Data part)) <$> parts) ++
               [match List.find data_part parts with
                | Some part => pt_Data part
                | None => match List.find text_part parts with
                          | Some part => json_Marshal (JObj [("text", JStr (Text part))])
                          | None => ""
                          end
                end]).

Definition resolveSkill (o : BridgeInboundOptions) (p : A2aTaskSendParams) : M (option BridgeToolMatch * list string) :=
  all <~ bridgeAllInvokableActions (Backends o);
  let named := a2aFindSkillName p in
  ret (if negb (String.eqb named "") then
         match List.find (fun m => folds_to (QualifiedName m) named || folds_to (ActionID (Action m)) named) all with
         | Some m => (Some m, [])
         | None => (None, QualifiedName <$> all)
         end
       else match all with [m] => (Some m, []) | _ => (None, QualifiedName <$> all) end).

(** [timestamp] is the formatted time of the answer. *)
Definition a2aToTask (timestamp : string) (p : A2aTaskSendParams) (res : NwpResult) : jv :=
  let detail := first_named [Message res; NwpError res; NpsStatus res] in
  let payload := if rs_Ok res then Payload res else json_Marshal (bridgeFailurePayload res) in
  let payloadValue := if String.eqb payload "" then VNil else match unmarshal_any payload with Ok v => v | Err _ => VNil end in
  JObj ([("id", JStr (tk_ID p));
         ("status", JObj [("state", JStr (if rs_Ok res then "completed" else "failed")); ("timestamp", JStr timestamp);
                          ("message", if rs_Ok res then JNull
                                      else JObj [("role", JStr "agent"); ("parts", JArr [JObj [("type", JStr "text"); ("text", JStr detail)]])])]);
         ("artifacts", JArr [JObj [("name", JStr (if rs_Ok res then "nps-result" else "nps-error"));
                                   ("parts", JArr [JObj [("type", JStr "data"); ("data", JAny payloadValue)]]); ("index", JNum 0)]])] ++
        (if String.eqb (SessionID p) "" then [] else [("sessionId", JStr (SessionID p))]) ++
        [("history", JArr match tk_Message p with Some m => [marshal_message m] | None => [] end)]).

Definition a2a_call (o : BridgeInboundOptions) (timestamp id : string) (p : A2aTaskSendParams) : M BridgeJsonRpcResponse :=
  found <~ resolveSkill o p;
  match found with
  | (None, candidates) =>
      ret (jsonRpcErr id JsonRpcInvalidParams "A2A task metadata must identify an exposed NPS action when more than one is available."
             (Some (JObj ([("error", JStr ErrBridgeServerToolNotFound)] ++ candidates_member candidates))))
  | (Some m, _) =>
      res <~ b_Invoke (mt_Backend m) (ActionID (Action m)) (a2aExtractArguments p) false;
      ret (if negb (rs_Ok res) && BridgeMustBeProtocolError (NpsStatus res)
           then jsonRpcErr id (BridgeToJsonRpc (NpsStatus res) false) (Message res) (Some (failure_data res))
           else jsonRpcOK id (a2aToTask timestamp p res))
  end.

Definition a2a_Dispatch (o : BridgeInboundOptions) (timestamp : string) (req : option BridgeJsonRpcRequest) : M BridgeJsonRpcResponse :=
  match req with
  | None => ret required
  | Some req =>
      let id := requestID req in
      if negb (ServesInbound o BridgeProtocolA2A) then ret (jsonRpcErrObj id (directionUnsupported o BridgeProtocolA2A))
      else if negb (String.eqb (rq_Method req) "tasks/send") then ret (unsupported_method id "A2A" (rq_Method req))
      else match (if String.eqb (Params req) "" then Ok (MkTask "" "" None "") else unmarshal_task (Params req)) with
           | Err e => ret (jsonRpcErr id JsonRpcInvalidParams e None)
           | Ok p => if String.eqb (trim_space (tk_ID p)) "" then ret (jsonRpcErr id JsonRpcInvalidParams "A2A tasks/send params.id is required." None)
                     else a2a_call o timestamp id p
           end
  end.

Definition a2a_skill (m : BridgeToolMatch) : jv :=
  let a := Action m in
  JObj ([("id", JStr (QualifiedName m)); ("name", JStr (if String.eqb (ac_Description a) "" then ActionID a else ac_Description a));
         ("description", JStr (ac_Description a)); ("inputModes", JStrs ["text"; "data"]); ("outputModes", JStrs ["data"])] ++
        match Tags a with [] => [] | tags => [("tags", JStrs tags)] end).

Definition BuildAgentCard (o : BridgeInboundOptions) (endpointURL : string) : M jv :=
  all <~ bridgeAllInvokableActions (Backends o);
  ret (JObj [("name", JStr (serverName o)); ("description", JStr "NPS Bridge Node — inbound A2A surface over the fronted NWP nodes.");
             ("url", JStr endpointURL);
             ("provider", JObj [("organization", JStr "LabAcacia / INNO LOTUS PTY LTD"); ("url", JStr "https://github.com/labacacia/nps")]);
             ("version", JStr (serverVersion o));
             ("capabilities", JObj [("streaming", JBool false); ("pushNotifications", JBool false); ("stateTransitionHistory", JBool false)]);
             ("skills", JArr (a2a_skill <$> all));
             ("authentication", if in_requireAuth o then JObj [("schemes", JStrs ["apikey"]); ("credentials", JStr "X-NWP-Agent")] else JNull)]).

(** ** bridge_grpc_inbound.go *)

Record GrpcError : Type := MkGrpcError { ge_Code : GrpcStatusCode; ge_Message : string }.
Record GrpcManifestResponse : Type := MkManifest { NwmJSON : string; NodeType : string }.
Record GrpcInvokeResponse : Type := MkInvoke { iv_HTTPStatus : Z; iv_BodyJSON : string; TaskID : string }.
Record GrpcQueryResponse : Type := MkQuery { qr_HTTPStatus : Z; qr_BodyJSON : string }.

(** The answer of an RPC, or its fault. *)
Definition rpc (A : Type) : Type := result GrpcError A.

Definition grpcFault (res : NwpResult) : GrpcError :=
  MkGrpcError (BridgeToGrpcStatus (NpsStatus res)) (bridgeDetail (NpsStatus res) (NwpError res) (Message res)).

Definition checkDirection (o : BridgeInboundOptions) : option GrpcError :=
  if ServesInbound o BridgeProtocolGRPC then None
  else Some (MkGrpcError GrpcUnimplemented (NpsServerUnsupported +:+ " " +:+ ErrBridgeDirectionUnsupported +:+
                                            ": this Bridge Node does not declare " +:+ quoted "grpc" +:+ " in bridge_inbound_protocols.")).

Fixpoint find_backend (backends : list NwpBackend) (name : string) : M (rpc (NwpBackend * NwpNodeDescriptor)) :=
  match backends with
  | [] => ret (Err (MkGrpcError GrpcNotFound (NpsClientNotFound +:+ " " +:+ ErrBridgeServerToolNotFound +:+ ": no NWP node named '" +:+ name +:+
                                              "' is fronted by this Bridge Node.")))
  | b :: backends =>
      d <~ GetDescriptor b;
      match d with
      | Ok d => if folds_to (Name d) name then ret (Ok (b, d)) else find_backend backends name
      | Err _ => find_backend backends name
      end
  end.

Definition zero_descriptor : NwpNodeDescriptor := MkDescriptor "" NwpRoleUnknown "" "".

Definition ResolveBackend (o : BridgeInboundOptions) (upstream : string) : M (rpc (NwpBackend * NwpNodeDescriptor)) :=
  let name := trim_space upstream in
  match Backends o with
  | [b] => if String.eqb name "" then d <~ GetDescriptor b; ret (Ok (b, match d with Ok d => d | Err _ => zero_descriptor end))
           else find_backend [b] name
  | backends => find_backend backends name
  end.

(** The gate and the backend, before what an RPC does with it. *)
Definition over_backend {A} (o : BridgeInboundOptions) (refused : option GrpcError) (upstream : string) (k : NwpBackend -> NwpNodeDescriptor -> M (rpc A)) : M (rpc A) :=
  match checkDirection o with
  | Some e => ret (Err e)
  | None => match refused with
            | Some e => ret (Err e)
            | None => x <~ ResolveBackend o upstream; match x with Err e => ret (Err e) | Ok (b, d) => k b d end
            end
  end.

Definition grpc_GetManifest (o : BridgeInboundOptions) (upstream : string) : M (rpc GrpcManifestResponse) :=
  over_backend o None upstream (fun b d =>
    res <~ GetManifest b;
    ret (if negb (rs_Ok res) then Err (grpcFault res)
         else Ok (MkManifest (Payload res) (if bool_decide (Role d = NwpRoleUnknown) then "" else NwpNodeRole_String (Role d))))).

Definition task_id_of (payload : string) : string :=
  match unmarshal_dict payload with Some body => default "" (as_string (dict_at body "task_id")) | None => "" end.

Definition grpc_Invoke (o : BridgeInboundOptions) (upstream actionID paramsJSON : string) : M (rpc GrpcInvokeResponse) :=
  over_backend o (if String.eqb (trim_space actionID) "" then Some (MkGrpcError GrpcInvalidArgument "action_id is required") else None) upstream (fun b _ =>
    res <~ b_Invoke b actionID paramsJSON false;
    ret (if negb (rs_Ok res) then Err (grpcFault res) else Ok (MkInvoke 200 (Payload res) (task_id_of (Payload res))))).

Definition grpc_Query (o : BridgeInboundOptions) (upstream queryJSON : string) : M (rpc GrpcQueryResponse) :=
  over_backend o None upstream (fun b _ =>
    res <~ b_Query b (if String.eqb queryJSON "" then "{}" else queryJSON);
    ret (if negb (rs_Ok res) then Err (grpcFault res) else Ok (MkQuery 200 (Payload res)))).

(** The map of descriptions, in which the last action of an id stays. *)
Definition actions_map (actions : list NwpActionDescriptor) : list (string * jv) :=
  foldl (fun m a => assoc_set (ActionID a) (JObj [("description", JStr (ac_Description a))]) m) [] actions.

Definition grpc_ListActions (o : BridgeInboundOptions) (upstream : string) : M (rpc string) :=
  over_backend o None upstream (fun b _ =>
    actions <~ GetActions b;
    ret match actions with
        | Err e => Err (grpcFault (NwpDispatchFailed e))
        | Ok actions => Ok (json_Marshal (JObj [("actions", JObj (actions_map actions))]))
        end).
End Bridge.
