(* ===== verification/NwpBridgeServer.v ===== *)
(** * nwp: the bridge over HTTP

    bridge_server.go: [BridgeServerApp] around the protocol servers of NwpBridge.v.  The
    body of a request is the list of its reads; which of the dispatch, the timeout and
    the end of the request the [select] takes comes with the request, and a dispatch that
    is not waited for has its effects all the same. *)

From S2P Require Import Prelude GoValue GoUtf8 NipPath NwpBridge.

Definition HeaderAgent : string := "X-NWP-Agent".
Definition bridgeDefaultMaxBody : Z := 1048576.
Definition bridgeDefaultTimeoutMs : Z := 30000.

Inductive race : Type := DispatchFirst | TimeoutFirst | ClientGone.

Record http_request : Type := MkRequest {
  Method : string; Path : string; agents : list string; ContentLength : string; reads : list string; TLS : bool;
  ForwardedProto : string; Host : string; timestamp : string; first : race
}.

Record BridgeServerOptions : Type := MkServerOptions {
  PathPrefix : string; McpPath : string; A2aPath : string; A2aAgentCardPath : string; RequireAuth : option bool;
  Verifier : option (string -> http_request -> bool); MaxRequestBodyBytes : Z; DispatchTimeoutMs : Z
}.

Inductive body : Type := BRpc (r : BridgeJsonRpcResponse) | BCard (card : jv).

(** [Aborted] is a panic that reaches net/http, [NoAnswer] a request that its client has
    left. *)
Inductive answer : Type := NotFound | MethodNotAllowed | Json (status : Z) (b : body) | Aborted | NoAnswer.

Definition or_default (s d : string) : string := if String.eqb s "" then d else s.

(** The options that [NewBridgeServerApp] works with. *)
Definition NewBridgeServerApp (opt : BridgeServerOptions) : BridgeServerOptions :=
  MkServerOptions (PathPrefix opt) (or_default (McpPath opt) "/mcp") (or_default (A2aPath opt) "/a2a")
    (or_default (A2aAgentCardPath opt) "/.well-known/agent.json") (RequireAuth opt) (Verifier opt)
    (if MaxRequestBodyBytes opt =? 0 then bridgeDefaultMaxBody else MaxRequestBodyBytes opt)
    (if DispatchTimeoutMs opt =? 0 then bridgeDefaultTimeoutMs else DispatchTimeoutMs opt).

(** ** Callers *)

Definition isAlnum (c : Ascii.ascii) : bool := ascii_alnum c.

Definition domain_char (c : Ascii.ascii) : bool := isAlnum c || Ascii.eqb c (chr 46) || Ascii.eqb c (chr 45).
Definition identifier_char (c : Ascii.ascii) : bool := isAlnum c || str_contains_char c "._~:@/-".

(** [strings.Index(s, ":")], with what is before and after. *)
Fixpoint cut_colon (s : string) : option (string * string) :=
  match s with
  | EmptyString => None
  | String c r => if Ascii.eqb c (chr 58) then Some ("", r)
                  else match cut_colon r with Some (a, b) => Some (String c a, b) | None => None end
  end.

(** The runes of a byte that is not ASCII are not in either class. *)
Definition BridgeIsValidAgentNid (nid : string) : bool :=
  if (512 <? String.length nid)%nat then false
  else match cut_prefix "urn:nps:agent:" nid with
       | None => false
       | Some rest =>
           match cut_colon rest with
           | None => false
           | Some (domain, identifier) =>
               negb (String.eqb domain "") && negb (String.eqb identifier "") && str_forall domain_char domain && str_forall identifier_char identifier
           end
       end.

Definition requireAuth (opt : BridgeServerOptions) : bool := default true (RequireAuth opt).

Definition authorize (opt : BridgeServerOptions) (r : http_request) : bool :=
  if negb (requireAuth opt) then true
  else match agents r with
       | [a] => let nid := trim_space a in
                negb (String.eqb nid "") && BridgeIsValidAgentNid nid && match Verifier opt with Some v => v nid r | None => false end
       | _ => false
       end.

Definition writeJsonRpcError (status code : Z) (message : string) : answer := Json status (BRpc (jsonRpcErr nullID code message None)).
Definition deny : answer := writeJsonRpcError 401 JsonRpcInvalidRequest "Caller NID is missing or not authorized.".

(** ** Bodies *)

(** The reads until the end of the body, or [None] past the limit. *)
Fixpoint accumulate (limit : Z) (out : string) (reads : list string) : option string :=
  match reads with
  | [] => Some out
  | buf :: reads => if limit <? str_len out + str_len buf then None else accumulate limit (out +:+ buf) reads
  end.

Section Server.
Context `{BridgeEnv} {W : Type} (inbound : BridgeInboundOptions (W := W)).
Context (ParseInt64 : string -> option Z) (unmarshal_request : string -> result string BridgeJsonRpcRequest).

Definition readBounded (opt : BridgeServerOptions) (r : http_request) : option string :=
  let limit := MaxRequestBodyBytes opt in
  if limit <=? 0 then Some (join "" (reads r))
  else if negb (String.eqb (ContentLength r) "") && match ParseInt64 (ContentLength r) with Some n => limit <? n | None => false end then None
  else accumulate limit "" (reads r).

Definition endpointURL (opt : BridgeServerOptions) (r : http_request) : string :=
  let scheme := if String.eqb (ForwardedProto r) "" then if TLS r then "https" else "http" else ForwardedProto r in
  scheme +:+ "://" +:+ Host r +:+ trim_slashes (PathPrefix opt) +:+ A2aPath opt.

(** ** Dispatch *)

Definition select_answer (opt : BridgeServerOptions) (r : http_request) (resp : BridgeJsonRpcResponse) : answer :=
  match first r with
  | ClientGone => NoAnswer
  | TimeoutFirst => if 0 <? DispatchTimeoutMs opt then writeJsonRpcError 504 JsonRpcUpstreamError "Bridge dispatch timed out."
                    else Json 200 (BRpc resp)
  | DispatchFirst => Json 200 (BRpc resp)
  end.

Definition serveJsonRpc (opt : BridgeServerOptions) (r : http_request) (dispatch : option BridgeJsonRpcRequest -> M W BridgeJsonRpcResponse) (w : W)
    : answer * W :=
  if negb (String.eqb (Method r) "POST") then (MethodNotAllowed, w)
  else if negb (authorize opt r) then (deny, w)
  else match readBounded opt r with
       | None => (writeJsonRpcError 413 JsonRpcInvalidRequest "Request body exceeds the configured limit.", w)
       | Some text =>
           match unmarshal_request text with
           | Err e => (writeJsonRpcError 400 JsonRpcParseError e, w)
           | Ok req =>
               let '(x, w) := dispatch (Some req) w in
               (select_answer opt r match x with
                                    | Ok resp => resp
                                    | Err _ => jsonRpcErr (requestID req) JsonRpcInternalError "Bridge server request failed." None
                                    end, w)
           end
       end.

Definition serve_card (opt : BridgeServerOptions) (r : http_request) (w : W) : answer * W :=
  if negb (String.eqb (Method r) "GET") then (MethodNotAllowed, w)
  else if negb (authorize opt r) then (deny, w)
  else match BuildAgentCard inbound (endpointURL opt r) w with
       | (Ok card, w) => (Json 200 (BCard card), w)
       | (Err _, w) => (Aborted, w)
       end.

(** The path below the prefix, without slashes at its end. *)
Definition route_path (opt : BridgeServerOptions) (r : http_request) : option string :=
  path ← cut_prefix (trim_slashes (PathPrefix opt)) (Path r); Some (or_default (trim_slashes path) "/").

Definition ServeHTTP (opt : BridgeServerOptions) (r : http_request) (w : W) : answer * W :=
  match route_path opt r with
  | None => (NotFound, w)
  | Some path =>
      if String.eqb path (A2aAgentCardPath opt) || String.eqb path (trim_slashes (A2aAgentCardPath opt)) then serve_card opt r w
      else if String.eqb path (McpPath opt) || String.eqb path (McpPath opt +:+ "/sse") then serveJsonRpc opt r (mcp_Dispatch inbound) w
      else if String.eqb path (A2aPath opt) then serveJsonRpc opt r (a2a_Dispatch inbound (timestamp r)) w
      else (NotFound, w)
  end.
End Server.
