(* ===== verification/NwpBridgeProof.v ===== *)
(** * What the inbound bridge guarantees

    Callers are authorized before a backend sees them, bodies are bounded, a tool name
    resolves to one action or to none, success means that an action ran, and errors keep
    their class.  The places where the protocol servers differ are stated too. *)

From S2P Require Import Prelude GoValue GoUtf8 CoreStatus NipPath NwpBridge NwpBridgeServer.

(** ** Callers *)

Definition agent_nid (nid : string) : Prop :=
  exists domain identifier, nid = "urn:nps:agent:" +:+ domain +:+ ":" +:+ identifier /\ domain <> "" /\ identifier <> "" /\
    str_forall domain_char domain = true /\ str_forall identifier_char identifier = true /\ (String.length nid <= 512)%nat.

Lemma app_tail_inj p a b : p +:+ a = p +:+ b -> a = b.
Proof. intros E. assert (cut_prefix p (p +:+ b) = Some a) as Ha by (by apply cut_prefix_Some). rewrite (proj2 (cut_prefix_Some p _ b) eq_refl) in Ha. by injection Ha. Qed.

Lemma cut_colon_app a b : str_contains_char (chr 58) a = false -> cut_colon (a +:+ ":" +:+ b) = Some (a, b).
Proof.
  induction a as [|c a IH]; [done|]. cbn [str_contains_char]. intros [Hc Ha]%orb_false_elim.
  change (String c a +:+ ":" +:+ b) with (String c (a +:+ ":" +:+ b)). cbn [cut_colon]. by rewrite Hc, IH.
Qed.

Lemma cut_colon_Some s a b : cut_colon s = Some (a, b) -> s = a +:+ ":" +:+ b.
Proof.
  revert a. induction s as [|c s IH]; intros a; cbn [cut_colon]; [done|].
  destruct (Ascii.eqb_spec c (chr 58)) as [->|Hne]; [by intros [= <- <-]|].
  destruct (cut_colon s) as [[a' b']|]; [|done]. intros [= <- <-]. by rewrite (IH a' eq_refl).
Qed.

Lemma domain_no_colon s : str_forall domain_char s = true -> str_contains_char (chr 58) s = false.
Proof.
  induction s as [|c s IH]; [done|]. cbn [str_forall str_contains_char]. intros Hs. apply andb_true_iff in Hs as [Hc Hs].
  rewrite IH by done. destruct (Ascii.eqb_spec c (chr 58)) as [->|]; [by vm_compute in Hc|done].
Qed.

Lemma agent_nid_iff nid : BridgeIsValidAgentNid nid = true <-> agent_nid nid.
Proof.
  unfold BridgeIsValidAgentNid, agent_nid. destruct (Nat.ltb_spec 512 (String.length nid)) as [Hl|Hl].
  { split; [done|]. intros (? & ? & _ & _ & _ & _ & _ & ?). lia. }
  destruct (cut_prefix "urn:nps:agent:" nid) as [rest|] eqn:Ep.
  - apply cut_prefix_Some in Ep as ->. destruct (cut_colon rest) as [[domain identifier]|] eqn:Ec.
    + split.
      * intros Hv. apply cut_colon_Some in Ec as ->. bool_hyps. exists domain, identifier. by split_and!.
      * intros (d & i & E%app_tail_inj & Hd & Hi & Hfd & Hfi & _). subst rest. rewrite cut_colon_app in Ec by by apply domain_no_colon.
        injection Ec as <- <-. apply String.eqb_neq in Hd as ->. apply String.eqb_neq in Hi as ->. by rewrite Hfd, Hfi.
    + split; [done|]. intros (d & i & E%app_tail_inj & _ & _ & Hfd & _). subst rest. by rewrite cut_colon_app in Ec by by apply domain_no_colon.
  - split; [done|]. intros (d & i & E & _). assert (cut_prefix "urn:nps:agent:" nid = Some (d +:+ ":" +:+ i)) by (by apply cut_prefix_Some). congruence.
Qed.

Lemma join_cons_empty s l : join "" (s :: l) = s +:+ join "" l.
Proof. cbn [join]. destruct l; [|done]. cbn [join]. by rewrite str_app_nil_r. Qed.

Section Server.
Context `{BridgeEnv} {W : Type} (inbound : BridgeInboundOptions (W := W)).
Context (ParseInt64 : string -> option Z) (unmarshal_request : string -> result string BridgeJsonRpcRequest).
Abbreviation serve := (ServeHTTP inbound ParseInt64 unmarshal_request).

(** The caller whom the deployment's verifier accepts: named once, and well formed. *)
Definition authorized (opt : BridgeServerOptions) (r : http_request) : Prop :=
  exists a verify, agents r = [a] /\ agent_nid (trim_space a) /\ Verifier opt = Some verify /\ verify (trim_space a) r = true.

Lemma authorize_iff opt r : requireAuth opt = true -> authorize opt r = true <-> authorized opt r.
Proof.
  intros Hr. unfold authorize, authorized. rewrite Hr. cbn [negb]. destruct (agents r) as [|a [|a' l]].
  - split; [done|]. by intros (? & ? & [=] & _).
  - rewrite !andb_true_iff, agent_nid_iff. split.
    + intros [[Hne Ha] Hv]. destruct (Verifier opt) as [v|]; [|done]. by exists a, v.
    + intros (? & v & [= <-] & Ha & -> & Hv). split_and!; [|done|done]. apply negb_true_iff, String.eqb_neq. intros E.
      destruct Ha as (d & i & E' & _). by rewrite E in E'.
  - split; [done|]. by intros (? & ? & [=] & _).
Qed.

(** Answers that come before any backend is asked. *)
Definition turned_away (a : answer) : Prop := a = NotFound \/ a = MethodNotAllowed \/ a = deny.

(** C38. Where authentication is required, which it is unless it is switched off, a request
    that does not come from one well-formed agent NID which the verifier accepts is
    turned away on every path, and no backend is called; without a verifier that is
    every request. *)
Theorem bridge_fails_closed opt r w :
  requireAuth opt = true -> ~ authorized opt r -> turned_away (serve opt r w).1 /\ (serve opt r w).2 = w.
Proof.
  intros Hr Ha. assert (Hno : authorize opt r = false).
  { destruct (authorize opt r) eqn:E; [|done]. by apply authorize_iff in E. }
  unfold turned_away, ServeHTTP, serve_card, serveJsonRpc. rewrite Hno. repeat case_match; try done; cbn [fst snd]; (split; [tauto|done]).
Qed.

(** ** Bodies *)

Lemma str_len_app a b : str_len (a +:+ b) = str_len a + str_len b.
Proof. unfold str_len. by rewrite str_length_app, Nat2Z.inj_add. Qed.

Lemma accumulate_spec limit out reads : str_len out <= limit ->
  accumulate limit out reads = if str_len (out +:+ join "" reads) <=? limit then Some (out +:+ join "" reads) else None.
Proof.
  revert out. induction reads as [|buf reads IH]; intros out Ho; cbn [accumulate].
  - cbn [join]. rewrite str_app_nil_r. by rewrite (proj2 (Z.leb_le _ _) Ho).
  - rewrite join_cons_empty. destruct (Z.ltb_spec limit (str_len out + str_len buf)) as [Hl|Hl].
    + rewrite !str_len_app. assert (0 <= str_len (join "" reads)) by (unfold str_len; lia).
      destruct (Z.leb_spec (str_len out + (str_len buf + str_len (join "" reads))) limit); [lia|done].
    + rewrite IH by (rewrite str_len_app; lia). by rewrite str_app_assoc.
Qed.

(** The length that a request declares, when it is a number. *)
Definition declared_length (r : http_request) : option Z := if String.eqb (ContentLength r) "" then None else ParseInt64 (ContentLength r).

(** A limited body is read as a whole when neither it nor its declared length is longer
    than the limit, and not at all otherwise: no header gets a longer one through. *)
Theorem body_is_bounded opt r :
  0 < MaxRequestBodyBytes opt ->
  readBounded ParseInt64 opt r =
  if (str_len (join "" (reads r)) <=? MaxRequestBodyBytes opt) && match declared_length r with Some n => n <=? MaxRequestBodyBytes opt | None => true end
  then Some (join "" (reads r)) else None.
Proof.
  intros Hl. unfold readBounded, declared_length. destruct (Z.leb_spec (MaxRequestBodyBytes opt) 0) as [|_]; [lia|].
  rewrite accumulate_spec by (unfold str_len; cbn; lia). change ("" +:+ join "" (reads r)) with (join "" (reads r)).
  destruct (String.eqb (ContentLength r) ""); cbn [negb andb]; [by rewrite andb_true_r|].
  destruct (ParseInt64 (ContentLength r)) as [n|]; [|by rewrite andb_true_r]. 
  destruct (Z.ltb_spec (MaxRequestBodyBytes opt) n), (Z.leb_spec n (MaxRequestBodyBytes opt)); [lia|by rewrite andb_false_r|by rewrite andb_true_r|lia].
Qed.
End Server.

Section Protocols.
Context `{BridgeEnv} {W : Type}.
Implicit Types (o : BridgeInboundOptions (W := W)) (w : W) (b : NwpBackend W) (res : NwpResult) (m : BridgeToolMatch (W := W)).

(** ** What is reported *)

Lemma bind_ok {A B} (x : M W A) (k : A -> M W B) w c w' : bind x k w = (Ok c, w') -> exists a w1, x w = (Ok a, w1) /\ k a w1 = (Ok c, w').
Proof. unfold bind. destruct (x w) as [[a|p] w1]; [|done]. eauto. Qed.

Lemma all_backends backends w l w' m : bridgeAllInvokableActions backends w = (Ok l, w') -> m ∈ l -> mt_Backend m ∈ backends.
Proof.
  revert w l w'. induction backends as [|b backends IH]; intros w l w'; cbn [bridgeAllInvokableActions]; [by intros [= <- <-] ?%not_elem_of_nil|].
  intros (x & w1 & _ & (rest & w2 & Hr & Hk)%bind_ok)%bind_ok. injection Hk as <- _. intros [Hm|Hm]%elem_of_app; [|right; by eapply IH].
  destruct x as [[d actions]|]; [|by apply not_elem_of_nil in Hm]. apply list_elem_of_fmap in Hm as (a & -> & _). by left.
Qed.

(** The failures that are reported as protocol errors, by the text of their status, and
    the code of each. *)
Definition failure_classes : list (string * Z) :=
  [("NPS-AUTH-UNAUTHENTICATED", -32001); ("NPS-AUTH-FORBIDDEN", -32003);
   ("NPS-LIMIT-RATE", -32005); ("NPS-LIMIT-BUDGET", -32005); ("NPS-LIMIT-PAYLOAD", -32005);
   ("NPS-SERVER-UNSUPPORTED", -32601); ("NPS-SERVER-INTERNAL", -32603); ("NPS-SERVER-UNAVAILABLE", -32603); ("NPS-SERVER-TIMEOUT", -32603);
   ("NPS-DOWNSTREAM-UNAVAILABLE", -32603)].

Lemma failure_class s :
  if BridgeMustBeProtocolError s then assoc_get s failure_classes = Some (BridgeToJsonRpc s false) else assoc_get s failure_classes = None.
Proof.
  destruct (BridgeMustBeProtocolError s) eqn:Em.
  - unfold BridgeMustBeProtocolError, one_of in Em. apply mem_string_true in Em. rewrite !elem_of_cons in Em. destruct_or? Em; subst; [reflexivity..|].
    by apply not_elem_of_nil in Em.
  - destruct (assoc_get s failure_classes) as [code|] eqn:Ea; [|done]. unfold failure_classes in Ea. cbn [assoc_get] in Ea.
    repeat (match type of Ea with context [String.eqb ?a s] => destruct (String.eqb_spec a s) as [<-|_] end; [by vm_compute in Em|]). done.
Qed.

Definition tool_text (isError : bool) (text : string) : jv :=
  JObj [("isError", JBool isError); ("content", JArr [JObj [("type", JStr "text"); ("text", JStr text)]])].

(** The response to the request [id] that tells the outcome [res] of an action. *)
Definition tells (id : string) res (resp : BridgeJsonRpcResponse) : Prop :=
  rs_ID resp = id /\
  if rs_Ok res then Error resp = None /\ Result resp = Some (tool_text false (Payload res))
  else match assoc_get (NpsStatus res) failure_classes with
       | Some code =>
           Result resp = None /\
           Error resp = Some (MkRpcError code (Message res) (Some (JObj [("error", JStr (NwpError res)); ("status", JStr (NpsStatus res))])))
       | None =>
           Error resp = None /\
           Result resp = Some (tool_text true (json_Marshal (JObj [("status", JStr (NpsStatus res)); ("error", JStr (NwpError res));
                                                                   ("message", JStr (Message res))])))
       end.

Lemma project_tells id res : tells id res (projectToolResult id res false).
Proof.
  unfold tells, projectToolResult. destruct (rs_Ok res); [done|]. pose proof (failure_class (NpsStatus res)) as Hc.
  destruct (BridgeMustBeProtocolError (NpsStatus res)); by rewrite Hc.
Qed.

(** A refusal of the request [id]. *)
Definition refused (id : string) (code : Z) (resp : BridgeJsonRpcResponse) : Prop :=
  rs_ID resp = id /\ Result resp = None /\ exists e, Error resp = Some e /\ Code e = code.

(** What an A2A client hears: the task, completed or failed, or a protocol error. *)
Definition tells_task (timestamp id : string) (p : A2aTaskSendParams) res (resp : BridgeJsonRpcResponse) : Prop :=
  match (if rs_Ok res then None else assoc_get (NpsStatus res) failure_classes) with
  | Some code => refused id code resp
  | None => resp = jsonRpcOK id (a2aToTask timestamp p res)
  end.

(** The task of an A2A client: the action that its skill resolves to has run, once, with
    the arguments of the message, or the request is refused. *)
Theorem tasks_send_reports o timestamp req w resp w' :
  a2a_Dispatch o timestamp (Some req) w = (Ok resp, w') ->
  (exists p m candidates w1 res, resolveSkill o p w = (Ok (Some m, candidates), w1) /\ mt_Backend m ∈ Backends o /\
     b_Invoke (mt_Backend m) (ActionID (Action m)) (a2aExtractArguments p) false w1 = (Ok res, w') /\
     tells_task timestamp (requestID req) p res resp) \/
  refused (requestID req) (-32601) resp \/ refused (requestID req) (-32602) resp.
Proof.
  cbn [a2a_Dispatch]. destruct (negb _). { intros [= <- <-]. right; left. repeat split. by eexists. }
  destruct (negb _); [intros [= <- <-]; right; left; repeat split; by eexists|].
  destruct (if String.eqb (Params req) "" then _ else _) as [p|e]; [|intros [= <- <-]; right; right; repeat split; by eexists].
  destruct (String.eqb _ _); [intros [= <- <-]; right; right; repeat split; by eexists|]. unfold a2a_call.
  intros ([[m|] candidates] & w1 & Hr & Hk)%bind_ok.
  - apply bind_ok in Hk as (res & w2 & Hi & Hk). injection Hk as <- <-. left. exists p, m, candidates, w1, res. split; [done|]. split; [|split; [done|]].
    + unfold resolveSkill in Hr. apply bind_ok in Hr as (all & w3 & Ha & Hr). injection Hr as Hr _.
      destruct (negb (String.eqb (a2aFindSkillName p) "")).
      * destruct (List.find _ all) as [m'|] eqn:Ef; [|done]. injection Hr as -> _. apply find_some in Ef as [Ef _]. apply list_elem_of_In in Ef. by eapply all_backends.
      * destruct all as [|m1 [|m2 l]]; try done. injection Hr as -> _. eapply all_backends; [done|by left].
    + unfold tells_task. destruct (rs_Ok res) eqn:Eo; cbn [negb andb]; [done|]. pose proof (failure_class (NpsStatus res)) as Hc.
      destruct (BridgeMustBeProtocolError (NpsStatus res)); rewrite Hc; [|done]. repeat split. by eexists.
  - injection Hk as <- <-. right; right. repeat split. by eexists.
Qed.

Lemma find_elem backends name w x w' : find_backend backends name w = (Ok x, w') ->
  match x with Ok (b, _) => b ∈ backends | Err e => ge_Code e = GrpcNotFound end.
Proof.
  revert w. induction backends as [|b backends IH]; intros w; cbn [find_backend]; [by intros [= <- <-]|].
  intros ([d|e] & w1 & _ & Hk)%bind_ok.
  - destruct (folds_to _ _); [injection Hk as <- <-; by left|]. apply IH in Hk. destruct x as [[b' d']|]; [by right|done].
  - apply IH in Hk. destruct x as [[b' d']|]; [by right|done].
Qed.

Lemma resolve_elem o upstream w x w' : ResolveBackend o upstream w = (Ok x, w') ->
  match x with Ok (b, _) => b ∈ Backends o | Err e => ge_Code e = GrpcNotFound end.
Proof.
  unfold ResolveBackend. destruct (Backends o) as [|b [|b' l]]; try apply find_elem.
  destruct (String.eqb _ _); [|apply find_elem]. intros (d & w1 & _ & Hk)%bind_ok. injection Hk as <- <-. by left.
Qed.

(** An RPC answers what the action has returned, under a status of its class when that is
    a failure. *)
Theorem grpc_invoke_reports o upstream id params w ans w' :
  grpc_Invoke o upstream id params w = (Ok ans, w') ->
  (exists b d w1 res, ResolveBackend o upstream w = (Ok (Ok (b, d)), w1) /\ b ∈ Backends o /\ b_Invoke b id params false w1 = (Ok res, w') /\
     match ans with
     | Ok a => rs_Ok res = true /\ iv_BodyJSON a = Payload res
     | Err e => rs_Ok res = false /\ ge_Code e = BridgeToGrpcStatus (NpsStatus res)
     end) \/
  (exists e, ans = Err e /\ ge_Code e ∈ [GrpcUnimplemented; GrpcInvalidArgument; GrpcNotFound]).
Proof.
  unfold grpc_Invoke, over_backend. unfold checkDirection. destruct (ServesInbound o BridgeProtocolGRPC).
  2: { intros [= <- <-]. right. eexists. split; [done|by left]. }
  destruct (String.eqb (trim_space id) ""); [intros [= <- <-]; right; eexists; split; [done|right; by left]|].
  intros ([[b d]|e] & w1 & Hr & Hk)%bind_ok.
  - apply bind_ok in Hk as (res & w2 & Hi & Hk). injection Hk as <- <-. left. exists b, d, w1, res. split; [done|]. split; [by apply resolve_elem in Hr|].
    split; [done|]. by destruct (rs_Ok res).
  - injection Hk as <- <-. right. exists e. split; [done|]. right. right. by apply resolve_elem in Hr as ->; left.
Qed.

(** ** Names *)

(** A backend that answers who it is and what it can do without changing the world, as
    those in this process do. *)
Definition steady b w : Prop := exists x, invokable_actions b w = (Ok x, w).

Definition exposed_by w b : list (BridgeToolMatch (W := W)) :=
  match (invokable_actions b w).1 with Ok (Some (d, actions)) => match_of b d <$> actions | _ => [] end.
(** The actions of the bridge, in the order of the backends. *)
Definition exposed o w : list (BridgeToolMatch (W := W)) := concat (exposed_by w <$> Backends o).

Definition qualified (name : string) m : bool := folds_to (QualifiedName m) name.
Definition unqualified (name : string) m : bool :=
  folds_to (ActionID (Action m)) name || folds_to (McpToolNameEncodeActionSegment (ActionID (Action m))) name.

(** The first action that has the qualified name; else the one action that has the bare
    one. *)
Definition chosen (name : string) (l : list (BridgeToolMatch (W := W))) : option (BridgeToolMatch (W := W)) * list string :=
  match List.find (qualified name) l with
  | Some m => (Some m, [])
  | None => match List.filter (unqualified name) l with [m] => (Some m, []) | ms => (None, QualifiedName <$> ms) end
  end.

Lemma scan_spec b d name actions l :
  scan_actions b d name actions l =
  match List.find (qualified name) (match_of b d <$> actions) with
  | Some m => Err m
  | None => Ok (l ++ List.filter (unqualified name) (match_of b d <$> actions))
  end.
Proof.
  revert l. induction actions as [|a actions IH]; intros l; [by rewrite app_nil_r|].
  cbn [scan_actions fmap list_fmap List.find List.filter]. unfold qualified at 1. destruct (folds_to _ name); [done|]. rewrite IH.
  change (list_fmap _ _ (match_of b d) actions) with (match_of b d <$> actions). destruct (List.find _ _); [done|].
  unfold unqualified at 2. destruct (_ || _); [by rewrite <- app_assoc|done].
Qed.

Lemma exposed_by_ok b w x : invokable_actions b w = (Ok x, w) ->
  exposed_by w b = match x with Some (d, actions) => match_of b d <$> actions | None => [] end.
Proof. unfold exposed_by. by intros ->. Qed.

Lemma resolve_loop_spec backends name w l : Forall (fun b => steady b w) backends ->
  resolve_loop backends name l w =
  (Ok match List.find (qualified name) (concat (exposed_by w <$> backends)) with
      | Some m => Err m
      | None => Ok (l ++ List.filter (unqualified name) (concat (exposed_by w <$> backends)))
      end, w).
Proof.
  intros Hb. revert l. induction Hb as [|b backends [x Hx] _ IH]; intros l; [cbn; by rewrite app_nil_r|].
  cbn [resolve_loop fmap list_fmap concat]. change (list_fmap _ _ (exposed_by w) backends) with (exposed_by w <$> backends). rewrite find_app, List.filter_app.
  unfold bind. rewrite Hx, (exposed_by_ok _ _ _ Hx). destruct x as [[d actions]|]; [|by rewrite IH]. rewrite scan_spec. destruct (List.find _ (match_of b d <$> actions)); [done|].
  rewrite IH. destruct (List.find _ _); [done|]. by rewrite <- app_assoc.
Qed.

(** A tool name is resolved to the first action with that qualified name, or to the one
    action with that bare name, over the actions of all backends: a bare name that two
    nodes expose is refused, and the candidates are named. *)
Lemma tool_is_chosen o name w : Forall (fun b => steady b w) (Backends o) -> BridgeResolveTool (Backends o) name w = (Ok (chosen name (exposed o w)), w).
Proof.
  intros Hb. unfold BridgeResolveTool, bind, chosen, exposed. rewrite resolve_loop_spec by done.
  destruct (List.find _ _) as [m|]; [done|]. cbn [app]. by destruct (List.filter _ _) as [|m1 [|m2 ms]].
Qed.

Lemma exposed_backend o w m : m ∈ exposed o w -> mt_Backend m ∈ Backends o.
Proof.
  unfold exposed. rewrite list_elem_of_In, in_concat. intros (l & Hl & Hm). apply list_elem_of_In in Hl, Hm.
  apply list_elem_of_fmap in Hl as (b & -> & Hb). unfold exposed_by in Hm.
  destruct (invokable_actions b w).1 as [[[d actions]|]|]; try by apply not_elem_of_nil in Hm. by apply list_elem_of_fmap in Hm as (a & -> & _).
Qed.

Lemma chosen_exposed name l m c : chosen name l = (Some m, c) -> m ∈ l.
Proof.
  unfold chosen. destruct (List.find _ l) as [m'|] eqn:Ef.
  - intros [= <- _]. apply find_some in Ef as [Ef _]. by apply list_elem_of_In.
  - destruct (List.filter (unqualified name) l) as [|m' [|m2 ms]] eqn:El; try done. intros [= <- _].
    assert (Hin : In m' (List.filter (unqualified name) l)) by (rewrite El; by left). apply filter_In in Hin as [Hin _]. by apply list_elem_of_In.
Qed.

Abbreviation invalid_params := (-32602).
Abbreviation method_not_found := (-32601).

(** C39. What an MCP server makes of a tools/call, over backends that answer who they are
    and what they can do without changing the world, as those in the process do. A
    bridge that does not serve MCP refuses it, a request without a tool name or with
    parameters that do not decode is refused as such, and a name that stands for no
    action, or for several, is refused with its candidates; then nothing has run. In
    every other case the one action that the name stands for is run, exactly once, by
    its own backend and with the arguments of the request; the response has the id of
    the request and tells the outcome: a success is a result, a failure is a result
    marked as an error, but one of the statuses listed in [failure_classes] is a protocol
    error under its code. A panic of the backend is a panic of the dispatch. *)
Theorem tools_call_answers o req w :
  Forall (fun b => steady b w) (Backends o) -> rq_Method req = "tools/call" ->
  let call := mcp_Dispatch o (Some req) w in let id := requestID req in
  let refused_with code := exists resp, call = (Ok resp, w) /\ refused id code resp in
  if negb (ServesInbound o "mcp") then refused_with method_not_found
  else match (if String.eqb (Params req) "" then Ok ("", "") else unmarshal_call (Params req)) with
       | Err _ => refused_with invalid_params
       | Ok (name, arguments) =>
           if String.eqb (trim_space name) "" then refused_with invalid_params
           else match chosen name (exposed o w) with
                | (None, candidates) =>
                    refused_with method_not_found /\
                    exists message, call = (Ok (MkRpcResponse id None (Some (MkRpcError method_not_found message
                      (Some (JObj ([("error", JStr "NWP-BRIDGE-SERVER-TOOL-NOT-FOUND"); ("tool", JStr name)] ++
                                   (if bool_decide (candidates = []) then [] else [("candidates", JStrs candidates)]))))))), w)
                | (Some m, _) =>
                    m ∈ exposed o w /\ mt_Backend m ∈ Backends o /\
                    match b_Invoke (mt_Backend m) (ActionID (Action m)) arguments false w with
                    | (Ok res, w') => exists resp, call = (Ok resp, w') /\ tells id res resp
                    | (Err panic, w') => call = (Err panic, w')
                    end
                end
       end.
Proof.
  intros Hb Hm call id refused_with. unfold refused_with, call, refused. clear call refused_with. cbn [mcp_Dispatch]. change BridgeProtocolMCP with "mcp".
  destruct (negb _). { eexists. split; [done|]. repeat split. by eexists. }
  rewrite Hm. cbn [String.eqb Ascii.eqb Bool.eqb]. unfold toolsCall. fold id.
  destruct (if String.eqb (Params req) "" then _ else _) as [[name arguments]|e]; [|eexists; split; [done|]; repeat split; by eexists].
  destruct (String.eqb _ _); [eexists; split; [done|]; repeat split; by eexists|]. unfold bind. rewrite (tool_is_chosen o name w Hb).
  destruct (chosen name (exposed o w)) as [[m|] candidates] eqn:Ec.
  - apply chosen_exposed in Ec. split; [done|]. split; [by eapply exposed_backend|].
    destruct (b_Invoke _ _ _ _ _) as [[res|e] w']; [|done]. eexists. split; [done|]. apply project_tells.
  - split; [eexists; split; [done|]; repeat split; by eexists|]. eexists. cbn [ret]. unfold ret, jsonRpcErr, candidates_member.
    destruct candidates; [by rewrite bool_decide_eq_true_2|by rewrite bool_decide_eq_false_2].
Qed.

Lemma all_exposed backends w : Forall (fun b => steady b w) backends -> bridgeAllInvokableActions backends w = (Ok (concat (exposed_by w <$> backends)), w).
Proof.
  induction 1 as [|b backends [x Hx] _ IH]; [done|]. cbn [bridgeAllInvokableActions fmap list_fmap concat].
  change (list_fmap _ _ (exposed_by w) backends) with (exposed_by w <$> backends). unfold bind. by rewrite Hx, IH, (exposed_by_ok _ _ _ Hx).
Qed.

Lemma in_process_steady ip w : steady (in_process (W := W) ip) w.
Proof. unfold steady, invokable_actions, bind. cbn. unfold ret. destruct (IsInvokable (ip_descriptor ip)) eqn:E; cbn; rewrite ?E; eauto. Qed.
End Protocols.

(** ** Errors *)

Definition grpc_codes : list GrpcStatusCode :=
  [GrpcInvalidArgument; GrpcNotFound; GrpcAborted; GrpcUnauthenticated; GrpcPermissionDenied; GrpcResourceExhausted; GrpcUnimplemented; GrpcInternal;
   GrpcUnavailable; GrpcDeadlineExceeded].
Definition json_codes : list Z :=
  [JsonRpcInvalidRequest; JsonRpcInvalidParams; JsonRpcMethodNotFound; JsonRpcConflict; JsonRpcUnauthenticated; JsonRpcForbidden; JsonRpcLimitExceeded;
   JsonRpcInternalError].

Ltac here := repeat (first [apply list_elem_of_here | apply list_elem_of_further]).
Ltac listed := repeat (match goal with |- context [one_of ?l ?s] => generalize (one_of l s); intros [|]; [here|] end); here.

Lemma grpc_listed s : BridgeToGrpcStatus s ∈ grpc_codes.
Proof. unfold BridgeToGrpcStatus. cbv zeta beta. listed. Qed.

Lemma json_listed s : BridgeToJsonRpc s false ∈ json_codes.
Proof. unfold BridgeToJsonRpc. cbv zeta beta. listed. Qed.

(** Translated to a foreign protocol and back, a failure keeps the code that the peer
    sees: the tables of the two directions agree. *)
Theorem error_maps_agree s :
  BridgeToGrpcStatus (BridgeFromGrpcStatus (BridgeToGrpcStatus s)) = BridgeToGrpcStatus s /\
  BridgeToJsonRpc (BridgeFromJsonRpc (BridgeToJsonRpc s false)) false = BridgeToJsonRpc s false.
Proof.
  split.
  - assert (Hall : Forall (fun c => BridgeToGrpcStatus (BridgeFromGrpcStatus c) = c) grpc_codes) by (repeat constructor).
    rewrite Forall_forall in Hall. apply Hall, grpc_listed.
  - assert (Hall : Forall (fun c => BridgeToJsonRpc (BridgeFromJsonRpc c) false = c) json_codes) by (repeat constructor).
    rewrite Forall_forall in Hall. apply Hall, json_listed.
Qed.

(** No failure looks like a success to a gRPC client. *)
Lemma grpc_failure_is_visible s : BridgeToGrpcStatus s <> GrpcOK.
Proof. pose proof (grpc_listed s) as Hl. intros E. rewrite E in Hl. unfold grpc_codes in Hl. rewrite !elem_of_cons in Hl. destruct_or?; try done. by apply not_elem_of_nil in Hl. Qed.

(** The statuses of the registry that concern the caller's rights, its limits or the
    server. *)
Definition infrastructure (s : string) : bool :=
  has_prefix "NPS-AUTH-" s || has_prefix "NPS-LIMIT-" s || has_prefix "NPS-SERVER-" s || has_prefix "NPS-DOWNSTREAM-" s.

(** Three of them are reported as failures of the tool all the same. *)
Lemma infrastructure_reported_as_domain :
  List.filter (fun s => infrastructure s && negb (BridgeMustBeProtocolError s)) HttpStatusMap.*1 =
  ["NPS-LIMIT-RESOURCE"; "NPS-SERVER-ENCODING-UNSUPPORTED"; "NPS-LIMIT-EXCEEDED"].
Proof. by vm_compute. Qed.

(** ** The alphabet of tool names *)

Section Names.
Context `{BridgeEnv}.

Definition name_char (c : Ascii.ascii) : bool := ascii_alnum c || Ascii.eqb c (chr 95) || Ascii.eqb c (chr 45) || Ascii.eqb c (chr 46).

Lemma runes_ascii n s : is_ascii s = true -> (String.length s <= n)%nat -> Forall (fun r => exists c, r = String c "" /\ char_z c < 0x80) (runes n s).
Proof.
  revert s. induction n as [|n IH]; intros s Hs Hn; cbn [runes]; [constructor|]. destruct s as [|c s]; [constructor|].
  unfold is_ascii in Hs. cbn [str_forall] in Hs. apply andb_true_iff in Hs as [Hc Hs]. unfold ascii_char in Hc. rewrite Hc. constructor.
  - exists c. split; [done|]. by apply Z.ltb_lt.
  - apply IH; [done|]. cbn in Hn. lia.
Qed.

Lemma trim_left_forall f s : str_forall f s = true -> str_forall f (trim_underscores_left s) = true.
Proof.
  induction s as [|c s IH]; [done|]. cbn [str_forall trim_underscores_left]. intros Hs. apply andb_true_iff in Hs as [Hc Hs].
  destruct (Ascii.eqb c (chr 95)); [by apply IH|]. cbn [str_forall]. by rewrite Hc, Hs.
Qed.

Lemma trim_ascii s : is_ascii s = true -> is_ascii (trim_space s) = true.
Proof.
  intros Hs. destruct (trim_space_factor s) as (p & q & E). rewrite E in Hs. unfold is_ascii in *. rewrite !str_forall_app in Hs.
  apply andb_true_iff in Hs as [_ Hs]. by apply andb_true_iff in Hs as [Hs _].
Qed.

Lemma sanitize_chars s : is_ascii s = true -> str_forall name_char (mcpSanitize s) = true /\ mcpSanitize s <> "".
Proof.
  intros Hs%trim_ascii. unfold mcpSanitize. set (out := trim_underscores _). assert (Hout : str_forall name_char out = true).
  { unfold out, trim_underscores. rewrite str_forall_rev. apply trim_left_forall. rewrite str_forall_rev. apply trim_left_forall.
    unfold runes_of. induction (runes_ascii _ _ Hs (le_n _)) as [|r rs (c & -> & Hc) _ IH]; [done|]. rewrite fmap_cons, join_cons_empty, str_forall_app, IH.
    apply Z.ltb_lt in Hc. unfold keeps. rewrite Hc. fold (name_char c). destruct (name_char c) eqn:Ec; cbn [str_forall andb]; [by rewrite Ec|done]. }
  destruct (String.eqb_spec out ""); by split.
Qed.

(** The names of tools are written with the letters, digits and marks that MCP clients
    accept, whatever ASCII names nodes and actions have, and no part is empty. *)
Theorem tool_name_alphabet node action :
  is_ascii node = true -> is_ascii action = true ->
  exists n a, McpToolNameEncode node action = n +:+ "__" +:+ a /\ n <> "" /\ a <> "" /\ str_forall name_char n = true /\
    str_forall (fun c => name_char c && negb (Ascii.eqb c (chr 46))) a = true.
Proof.
  intros Hn%sanitize_chars Ha%sanitize_chars. exists (mcpSanitize node), (McpToolNameEncodeActionSegment action).
  destruct Hn as [Hn1 Hn2], Ha as [Ha1 Ha2]. split_and!; [done|done| |done|]; unfold McpToolNameEncodeActionSegment, dots_to_underscores.
  - by destruct (mcpSanitize action).
  - clear Ha2. induction (mcpSanitize action) as [|c s IH]; [done|]. cbn [map_string str_forall] in *. apply andb_true_iff in Ha1 as [Hc Hs].
    rewrite IH by done. rewrite andb_true_r. destruct (Ascii.eqb c (chr 46)) eqn:Ed; [done|]. by rewrite Hc, Ed.
Qed.

(** Other letters are kept, where the documentation replaces them. *)
Lemma sanitize_keeps_letters : let e := str_of [0xC3; 0xA9]%N in unicode_alnum e = true -> mcpSanitize e = e.
Proof.
  cbv zeta. set (e := str_of [195; 169]%N). intros Hu. unfold mcpSanitize. change (runes_of (trim_space e)) with [e]. cbn [fmap list_fmap].
  by rewrite (Hu : keeps e = true).
Qed.
End Names.

(** ** The actions of a remote node *)

Section Http.
Context `{BridgeEnv} {W : Type}.

Lemma leb_iff s t : String.leb s t = true <-> String.le s t.
Proof. unfold String.le. by destruct (String.leb s t). Qed.
Lemma ltb_trans a b c : String.ltb a b = false -> String.ltb b c = false -> String.ltb a c = false.
Proof.
  rewrite !ltb_leb, !negb_false_iff, !leb_iff. intros H1 H2. by transitivity b.
Qed.

Lemma ltb_total a b : a <> b -> String.ltb a b = negb (String.ltb b a).
Proof.
  intros Hab. rewrite !ltb_leb, negb_involutive. destruct (String.leb b a) eqn:E1, (String.leb a b) eqn:E2; try done.
  - apply leb_iff in E1, E2. by destruct Hab; apply (anti_symm String.le).
  - destruct (total String.le a b) as [Ht|Ht]; apply leb_iff in Ht; congruence.
Qed.

Lemma sink_comm a b l : ActionID a <> ActionID b -> sink a (sink b l) = sink b (sink a l).
Proof.
  intros Hab. induction l as [|c l IH].
  - cbn [sink]. rewrite (ltb_total (ActionID a)) by done. by destruct (String.ltb (ActionID b) (ActionID a)).
  - cbn [sink]. destruct (String.ltb (ActionID a) (ActionID c)) eqn:Ea, (String.ltb (ActionID b) (ActionID c)) eqn:Eb; cbn [sink]; rewrite ?Ea, ?Eb.
    + by rewrite IH.
    + destruct (String.ltb (ActionID a) (ActionID b)) eqn:Eab; [done|]. by rewrite (ltb_trans _ _ _ Eab Eb) in Ea.
    + destruct (String.ltb (ActionID b) (ActionID a)) eqn:Eba; [done|]. by rewrite (ltb_trans _ _ _ Eba Ea) in Eb.
    + rewrite (ltb_total (ActionID a)) by done. by destruct (String.ltb (ActionID b) (ActionID a)).
Qed.

Lemma sink_all_perm l1 l2 acc : l1 ≡ₚ l2 -> NoDup (ActionID <$> l1) -> foldl (fun acc a => sink a acc) acc l1 = foldl (fun acc a => sink a acc) acc l2.
Proof.
  intros Hp. revert acc. induction Hp as [|a l1 l2 _ IH|a b l|l1 l2 l3 Hp1 IH1 Hp2 IH2]; intros acc Hnd; [done|..].
  - rewrite fmap_cons in Hnd. apply NoDup_cons in Hnd as [_ Hnd]. by apply IH.
  - cbn [foldl]. rewrite !fmap_cons in Hnd. apply NoDup_cons in Hnd as [Hn _]. f_equal. apply sink_comm. set_solver.
  - rewrite IH1 by done. apply IH2. by rewrite <- Hp1.
Qed.

(** The actions of a remote node are listed in one order, whatever the order in which the
    map of them is ranged over. *)
Theorem actions_in_one_order l1 l2 : l1 ≡ₚ l2 -> NoDup (ActionID <$> l1) -> sortActions l1 = sortActions l2.
Proof. intros Hp Hnd. unfold sortActions. by rewrite (sink_all_perm l1 l2). Qed.

Context (NewRequest_error : string -> option string) (client_Do : NwpBridge.http_request -> W -> http_outcome * W)
        (json_Valid : string -> bool) (unmarshal_error : string -> option string) (unmarshal_nwm : string -> option (string * string * string)).
Context (cached : W -> option NwpNodeDescriptor) (set_cached : NwpNodeDescriptor -> W -> W).

(** The first look at a remote node decides what it is for good: later looks ask nothing,
    and a node that could not be reached, or read, stays unknown, so that it offers
    nothing from then on. *)
Theorem first_look_decides up w d w' w'' :
  (forall d w, cached (set_cached d w) = Some d) ->
  http_descriptor NewRequest_error client_Do json_Valid unmarshal_error unmarshal_nwm cached set_cached up w = (d, w') -> cached w'' = cached w' ->
  http_descriptor NewRequest_error client_Do json_Valid unmarshal_error unmarshal_nwm cached set_cached up w'' = (d, w'') /\
  (cached w = None -> rs_Ok (http_get NewRequest_error client_Do json_Valid unmarshal_error up "/.nwm" w).1 = false ->
   IsQueryable d = false /\ IsInvokable d = false).
Proof.
  intros Hset Hd Hc. assert (Hcached : cached w' = Some d).
  { unfold http_descriptor in Hd. destruct (cached w) as [d0|] eqn:Ew; [injection Hd as <- <-; done|].
    destruct (http_get _ _ _ _ up "/.nwm" w) as [res w1]. injection Hd as <- <-. by rewrite Hset. }
  split; [unfold http_descriptor; by rewrite Hc, Hcached|]. intros Ew Hok. unfold http_descriptor in Hd. rewrite Ew in Hd.
  destruct (http_get _ _ _ _ up "/.nwm" w) as [res w1]. cbn [fst] in Hok. rewrite Hok in Hd. by injection Hd as <- _.
Qed.
End Http.

(** ** Two nodes with one action *)

(** JSON of which one member is read. *)
#[export] Instance toy_bridge : BridgeEnv := {|
  json_Marshal := fun _ => "json"; marshal_raw := fun _ => Ok "json"; marshal_frame := fun _ => Ok "frame";
  unmarshal_any := fun _ => Ok VNil; unmarshal_dict := fun s => Some [("skill", VString s)]; unmarshal_raws := fun _ => None;
  unmarshal_call := fun s => Ok (s, ""); unmarshal_uri := fun s => Ok s; unmarshal_task := fun s => Ok (MkTask "task" "" None s);
  marshal_message := fun _ => JNull; url_Parse := fun _ => None; unicode_alnum := fun _ => false; unicode_EqualFold := fun _ _ => false |}.

(** A node that notes its name when its action runs. *)
Definition toy_node (name : string) : NwpBackend (list string) :=
  in_process (NewInProcessNwpBackend (MkDescriptor name NwpRoleAction "" "") [MkAction "run" "" "" false []]
    (Some (fun _ _ _ w => (Ok (Ok (Some [])), w ++ [name]))) None).
Definition toy_inbound : BridgeInboundOptions := MkInbound [toy_node "east"; toy_node "west"] None None "" "" 0 None.
Definition toy_request (method params : string) : BridgeJsonRpcRequest := MkRpcRequest "2.0" "1" method params.

(** A bare name that two nodes expose is refused to an MCP client, with the candidates;
    an A2A client has the action of the first node run. *)
Lemma ambiguous_name :
  (exists data, mcp_Dispatch toy_inbound (Some (toy_request "tools/call" "run")) [] =
     (Ok (jsonRpcErr "1" JsonRpcMethodNotFound "MCP tool 'run' is not exposed by this Bridge Node." (Some (JObj data))), []) /\
     assoc_get "candidates" data = Some (JStrs ["east__run"; "west__run"])) /\
  (exists task, a2a_Dispatch toy_inbound "now" (Some (toy_request "tasks/send" "run")) [] = (Ok (jsonRpcOK "1" task), ["east"])).
Proof. split; [eexists; split; vm_compute; reflexivity|eexists; vm_compute; reflexivity]. Qed.

Lemma tools_call_answers_witness :
  let m := match_of (toy_node "west") (MkDescriptor "west" NwpRoleAction "" "") (MkAction "run" "" "" false []) in
  chosen "west__run" (exposed toy_inbound []) = (Some m, []) /\
  exists resp, mcp_Dispatch toy_inbound (Some (toy_request "tools/call" "west__run")) [] = (Ok resp, ["west"]) /\
    Result resp = Some (tool_text false "frame").
Proof.
  cbv zeta. split; [vm_compute; reflexivity|].
  assert (Hb : Forall (fun b => steady b []) (Backends toy_inbound)) by (repeat (constructor; [apply in_process_steady|]); constructor).
  pose proof (tools_call_answers toy_inbound (toy_request "tools/call" "west__run") [] Hb eq_refl) as Ht.
  destruct Ht as (_ & _ & resp & Hr & _ & _ & Hres). by exists resp.
Defined.

(** A deployment without a verifier. *)
Definition toy_options : BridgeServerOptions := NewBridgeServerApp (MkServerOptions "" "" "" "" None None 0 0).
Definition toy_http (path : string) : NwpBridgeServer.http_request :=
  MkRequest "POST" path ["urn:nps:agent:example.com:a"] "" ["run"] false "" "bridge" "now" DispatchFirst.
Definition toy_unmarshal (s : string) : result string BridgeJsonRpcRequest := Ok (toy_request "tools/call" s).

Lemma bridge_fails_closed_witness :
  turned_away (ServeHTTP toy_inbound (fun _ => None) toy_unmarshal toy_options (toy_http "/mcp") []).1 /\
  (ServeHTTP toy_inbound (fun _ => None) toy_unmarshal toy_options (toy_http "/mcp") []).2 = [].
Proof.
  apply (bridge_fails_closed toy_inbound (fun _ => None) toy_unmarshal toy_options (toy_http "/mcp") []); [reflexivity|].
  intros (a & v & _ & _ & E & _). discriminate E.
Defined.

Lemma body_is_bounded_witness : readBounded (fun _ => None) toy_options (toy_http "/mcp") = Some "run".
Proof. rewrite (body_is_bounded (fun _ => None) toy_options (toy_http "/mcp") eq_refl). vm_compute. reflexivity. Defined.

(** Limits of zero, which are documented to switch a limit off, become the defaults. *)
Lemma zero_is_the_default opt :
  MaxRequestBodyBytes opt = 0 -> DispatchTimeoutMs opt = 0 ->
  MaxRequestBodyBytes (NewBridgeServerApp opt) = 1048576 /\ DispatchTimeoutMs (NewBridgeServerApp opt) = 30000.
Proof. intros Hb Ht. unfold NewBridgeServerApp. cbn. by rewrite Hb, Ht. Qed.

Lemma actions_in_one_order_witness :
  let l := [MkAction "b" "" "" false []; MkAction "a" "" "" false []] in sortActions l = sortActions (reverse l).
Proof.
  cbv zeta. apply actions_in_one_order; [by rewrite reverse_Permutation|]. repeat constructor; set_solver.
Defined.

Lemma tool_name_alphabet_witness : exists n a, McpToolNameEncode "my node" "run.now" = n +:+ "__" +:+ a /\ n <> "" /\ a <> "" /\
  str_forall name_char n = true /\ str_forall (fun c => name_char c && negb (Ascii.eqb c (chr 46))) a = true.
Proof. apply (tool_name_alphabet "my node" "run.now"); reflexivity. Defined.
