(* ===== verification/NipLog.v ===== *)
(** * The reputation log: signed entries, inclusion proofs, the client

    nip/reputation_client.go.  An entry is signed and hashed over its canonical JSON,
    which is made of the map that its JSON decodes to, so that numbers are [float64]s
    and invalid UTF-8 has become U+FFFD.

    SHA-256, Ed25519, the JSON text of a decoded value, the decoding of a raw value and
    of the client's answers, and the HTTP exchange are parameters. *)

From S2P Require Import Prelude GoValue GoBase64 GoUtf8 CoreCache NcpFrames NdpRegistry.

(** ** Incidents and severities *)

Definition IncidentOther : string := "other".
Definition IncidentCertRevoked : string := "cert-revoked".
Definition IncidentRateLimitViolation : string := "rate-limit-violation".
Definition IncidentTosViolation : string := "tos-violation".
Definition IncidentScrapingPattern : string := "scraping-pattern".
Definition IncidentPaymentDefault : string := "payment-default".
Definition IncidentContractDispute : string := "contract-dispute".
Definition IncidentImpersonationClaim : string := "impersonation-claim".
Definition IncidentPositiveAttestation : string := "positive-attestation".

Definition severityWire : list (Z * string) := [(0, "info"); (1, "minor"); (2, "moderate"); (3, "major"); (4, "critical")].

Definition Severity_MarshalJSON (s : Z) : go_result string :=
  match List.find (fun p => p.1 =? s) severityWire with
  | Some p => Ok p.2
  | None => Err (ErrPlain ("nip: unknown Severity value " +:+ fmt_d s))
  end.

(** [wire] is the decoded JSON string. *)
Definition Severity_UnmarshalJSON (wire : string) : go_result Z :=
  match List.find (fun p => String.eqb p.2 wire) severityWire with
  | Some p => Ok p.1
  | None => Err (ErrPlain ("nip: unknown severity wire value " +:+ dquote +:+ wire +:+ dquote))
  end.

(** ** Entries *)

Record ObservationWindow : Type := MkWindow { win_Start : string; win_End : string }.

(** [le_Observation] is the raw JSON text, empty when there is none. *)
Record ReputationLogEntry : Type := MkLogEntry {
  le_V : Z; le_LogID : string; le_Seq : Z; le_Timestamp : string; le_SubjectNid : string; le_Incident : string; le_Severity : Z;
  le_Window : option ObservationWindow; le_Observation : string; le_EvidenceRef : string; le_EvidenceSha256 : string;
  le_IssuerNid : string; le_Signature : string
}.

Record SignedTreeHead : Type := MkSTH {
  sth_LogID : string; sth_TreeSize : Z; sth_Timestamp : string; Sha256RootHash : string; sth_Signature : string
}.

Record InclusionProof : Type := MkProof {
  ip_Seq : Z; LeafIndex : Z; ip_TreeSize : Z; LeafHash : string; AuditPath : list string
}.

(** A string after [json.Marshal] and [json.Unmarshal]: its runes, an invalid byte
    being U+FFFD. *)
Definition json_text (s : string) : string := String.concat "" (runes_of s).

Definition any_text (s : string) : any := VString (json_text s).

(** A member that [omitempty] leaves out when it is empty. *)
Definition set_text (k s : string) (d : dict) : dict := if String.eqb s "" then d else dict_set k (any_text s) d.

Definition window_map (w : ObservationWindow) : any := VMap [("start", any_text (win_Start w)); ("end", any_text (win_End w))].

Definition with_signature (e : ReputationLogEntry) (sig : string) : ReputationLogEntry :=
  MkLogEntry (le_V e) (le_LogID e) (le_Seq e) (le_Timestamp e) (le_SubjectNid e) (le_Incident e) (le_Severity e) (le_Window e)
    (le_Observation e) (le_EvidenceRef e) (le_EvidenceSha256 e) (le_IssuerNid e) sig.

Section Log.
(** The value of a raw JSON text, the JSON text of a value, SHA-256. *)
Context (json_raw : string -> result string any) (json_value : any -> result string string) (sha256 : list byte -> list byte).
Context (ed25519_Sign : list byte -> list byte) (ed25519_Verify : list byte -> list byte -> list byte -> bool).

(** *** Canonical JSON *)

Fixpoint canonical_members (first : bool) (m : dict) (keys : list string) : result string string :=
  match keys with
  | [] => Ok ""
  | k :: keys =>
      match json_value (dict_at m k) with
      | Err e => Err e
      | Ok v =>
          match canonical_members false m keys with
          | Err e => Err e
          | Ok rest => Ok ((if first then "" else ",") +:+ json_Marshal_string k +:+ ":" +:+ v +:+ rest)
          end
      end
  end.

Definition canonicalJSONMap (m : dict) : result string (list byte) :=
  match canonical_members true m (sort_strings m.*1) with
  | Err e => Err e
  | Ok body => Ok (bytes_of_string ("{" +:+ body +:+ "}"))
  end.

Definition entryToMap (e : ReputationLogEntry) : result string dict :=
  match Severity_MarshalJSON (le_Severity e) with
  | Err err => Err ("json: error calling MarshalJSON for type nip.Severity: " +:+ error_text err)
  | Ok severity =>
      match (if String.eqb (le_Observation e) "" then Ok None else match json_raw (le_Observation e) with Ok v => Ok (Some v) | Err x => Err x end) with
      | Err x => Err x
      | Ok observation =>
          let d := [("v", VFloat64 (float64_of_Z (le_V e))); ("log_id", any_text (le_LogID e)); ("seq", VFloat64 (float64_of_Z (le_Seq e)));
                    ("timestamp", any_text (le_Timestamp e)); ("subject_nid", any_text (le_SubjectNid e));
                    ("incident", any_text (le_Incident e)); ("severity", VString severity)] in
          let d := set_opt "window" window_map (le_Window e) d in
          let d := set_opt "observation" (fun v => v) observation d in
          let d := set_text "evidence_ref" (le_EvidenceRef e) d in
          let d := set_text "evidence_sha256" (le_EvidenceSha256 e) d in
          let d := dict_set "issuer_nid" (any_text (le_IssuerNid e)) d in
          Ok (dict_set "signature" (any_text (le_Signature e)) d)
      end
  end.

Definition canonical_entry (e : ReputationLogEntry) : result string (list byte) :=
  match entryToMap e with Err x => Err x | Ok m => canonicalJSONMap m end.

(** What is signed: the entry without its signature. *)
Definition signed_bytes (e : ReputationLogEntry) : result string (list byte) :=
  match entryToMap (with_signature e "") with Err x => Err ("marshal: " +:+ x) | Ok m =>
    match canonicalJSONMap (assoc_del "signature" m) with Err x => Err ("canonical: " +:+ x) | Ok b => Ok b end
  end.

Definition SignEntry (entry : ReputationLogEntry) : result string ReputationLogEntry :=
  match signed_bytes entry with
  | Err x => Err ("nip: SignEntry " +:+ x)
  | Ok canonical => Ok (with_signature entry ("ed25519:" +:+ RawURL_Encode (ed25519_Sign canonical)))
  end.

Definition SignatureSize : nat := 64.

Definition VerifyEntry (pubKey : list byte) (entry : ReputationLogEntry) : bool :=
  match cut_prefix "ed25519:" (le_Signature entry) with
  | None => false
  | Some b64 =>
      match RawURL_Decode b64 with
      | None => false
      | Some sigBytes =>
          if negb (length sigBytes =? SignatureSize)%nat then false
          else match signed_bytes entry with Err _ => false | Ok canonical => ed25519_Verify pubKey canonical sigBytes end
      end
  end.

(** *** Inclusion *)

(** [copy(buf[off:], src)]. *)
Definition copy_at (off : nat) (src buf : list byte) : list byte :=
  take off buf ++ take (length buf - off) src ++ drop (off + length src) buf.

Definition zero_buf : list byte := x01 :: replicate 64 x00.

Definition node_input (leafIndex : Z) (i : nat) (nodeHash sibling : list byte) : list byte :=
  if Z.land (Z.shiftr leafIndex (Z.of_nat i)) 1 =? 0 then copy_at 33 sibling (copy_at 1 nodeHash zero_buf)
  else copy_at 33 nodeHash (copy_at 1 sibling zero_buf).

(** The loop over the audit path; [None] when a step is not base64. *)
Fixpoint climb (leafIndex : Z) (i : nat) (nodeHash : list byte) (path : list string) : option (list byte) :=
  match path with
  | [] => Some nodeHash
  | step :: path =>
      match RawURL_Decode step with
      | None => None
      | Some sibling => climb leafIndex (S i) (sha256 (node_input leafIndex i nodeHash sibling)) path
      end
  end.

Definition leaf_hash (leafJSON : list byte) : list byte := sha256 (x00 :: leafJSON).

Definition VerifyInclusion (proof : InclusionProof) (sth : SignedTreeHead) (entry : ReputationLogEntry) : bool :=
  match canonical_entry entry with
  | Err _ => false
  | Ok leafJSON =>
      match RawURL_Decode (LeafHash proof) with
      | None => false
      | Some expectedLeaf =>
          if negb (bool_decide (leaf_hash leafJSON = expectedLeaf)) then false
          else match climb (LeafIndex proof) 0 (leaf_hash leafJSON) (AuditPath proof), RawURL_Decode (Sha256RootHash sth) with
               | Some nodeHash, Some rootHash => bool_decide (nodeHash = rootHash)
               | _, _ => false
               end
      end
  end.
End Log.

(** ** The client *)

Inductive log_error : Type :=
| LogAPI (nipErrorCode npsStatus message : string)   (* ReputationLogError *)
| LogOther (e : go_error).

Record log_request : Type := MkLogRequest { lq_Method : string; lq_URL : string; lq_Body : option string; lq_Headers : list (string * string) }.

Section Client.
(** An HTTP exchange: the status and the body, or what failed. *)
Context (exchange : log_request -> result log_error (Z * string)).
(** The members of an error envelope, absent ones empty. *)
Context (json_envelope : string -> string * string * string).
Context (json_entry : string -> result string ReputationLogEntry) (json_entries : string -> result string (list ReputationLogEntry)).
Context (json_sth : string -> result string SignedTreeHead) (json_proof : string -> result string InclusionProof).
Context (json_Marshal_entry : ReputationLogEntry -> result string string).
Context (BaseURL : string).

Definition baseURL : string := trim_slashes BaseURL.

Definition doRequest (method url : string) (body : option string) : result log_error string :=
  let headers := match body with Some _ => [("Content-Type", "application/json")] | None => [] end in
  match exchange (MkLogRequest method url body (headers ++ [("Accept", "application/json")])) with
  | Err e => Err e
  | Ok (status, data) =>
      if (status <? 200) || (300 <=? status) then
        let '(error, st, message) := json_envelope data in Err (LogAPI error st message)
      else Ok data
  end.

Definition decode_answer {A} (what : string) (decode : string -> result string A) (answer : result log_error string) : result log_error A :=
  match answer with
  | Err e => Err e
  | Ok data => match decode data with Ok a => Ok a | Err e => Err (LogOther (ErrPlain ("nip: " +:+ what +:+ " decode: " +:+ e))) end
  end.

Definition Submit (entry : ReputationLogEntry) : result log_error ReputationLogEntry :=
  match json_Marshal_entry entry with
  | Err e => Err (LogOther (ErrPlain e))
  | Ok body => decode_answer "Submit" json_entry (doRequest "POST" (baseURL +:+ "/v1/log/entries") (Some body))
  end.

Definition query_url (nid : string) (since : option Z) : string :=
  let url := baseURL +:+ "/v1/log/entries?nid=" +:+ nid in
  match since with Some seq => url +:+ "&since=" +:+ fmt_d seq | None => url end.

Definition Query (nid : string) (since : option Z) : result log_error (list ReputationLogEntry) :=
  decode_answer "Query" json_entries (doRequest "GET" (query_url nid since) None).

Definition GetSTH : result log_error SignedTreeHead :=
  decode_answer "GetSTH" json_sth (doRequest "GET" (baseURL +:+ "/v1/log/sth") None).

Definition GetProof (seq : Z) : result log_error InclusionProof :=
  decode_answer "GetProof" json_proof (doRequest "GET" (baseURL +:+ "/v1/log/proof?seq=" +:+ fmt_d seq) None).

Definition GetGossipSTH : result log_error SignedTreeHead :=
  decode_answer "GetGossipSTH" json_sth (doRequest "GET" (baseURL +:+ "/v1/log/gossip/sth") None).
End Client.
