(* ===== verification/NipLogProof.v ===== *)
(** * What the reputation log's proofs and signatures establish

    Inclusion proofs against full trees, two proofs at one place, what a proof does not
    say; signatures of entries; the addresses of queries. *)

From S2P Require Import Prelude GoValue GoBase64 GoUtf8 CoreCache NcpFrames NdpRegistry NipLog.

(** ** The input of a node *)

Lemma length_copy_at off src buf : (off <= length buf)%nat -> length (copy_at off src buf) = length buf.
Proof. intros Ho. unfold copy_at. rewrite !length_app, !length_take, length_drop. lia. Qed.

(** A hash and its sibling as the node hashes them: left child first. *)
Definition joined (right : bool) (node sibling : list byte) : list byte :=
  x01 :: (if right then sibling ++ node else node ++ sibling).

Lemma node_input_joined idx i node sibling :
  length node = 32%nat -> length sibling = 32%nat -> node_input idx i node sibling = joined (Z.testbit idx (Z.of_nat i)) node sibling.
Proof.
  intros Hn Hs. unfold node_input, joined. rewrite (Z.land_ones _ 1), <- Z.bit0_mod, Z.shiftr_spec by lia. rewrite Z.add_0_l.
  assert (Hc : forall a b : list byte, length a = 32%nat -> length b = 32%nat -> copy_at 33 b (copy_at 1 a zero_buf) = x01 :: a ++ b).
  { clear. intros a b Ha Hb. unfold copy_at at 2. change (length zero_buf) with 65%nat. change (take 1 zero_buf) with [x01].
    rewrite (take_ge a) by (rewrite Ha; lia). rewrite Ha. change (drop (1 + 32) zero_buf) with (replicate 32 x00).
    unfold copy_at. change ([x01] ++ a ++ replicate 32 x00) with ((x01 :: a) ++ replicate 32 x00).
    rewrite (take_app_length' (x01 :: a)) by (cbn; lia). rewrite (take_ge b) by (rewrite length_app, length_replicate; cbn; lia).
    rewrite drop_ge by (rewrite length_app, length_replicate; cbn; lia). by rewrite app_nil_r. }
  destruct (Z.testbit idx (Z.of_nat i)); cbn [Z.b2z]; [|by rewrite Hc]. by rewrite (Hc sibling node).
Qed.

Lemma length_node_input idx i node sibling : length (node_input idx i node sibling) = 65%nat.
Proof. unfold node_input. by destruct (_ =? 0); rewrite !length_copy_at by (rewrite ?length_copy_at; cbn; lia). Qed.

(** The place of the node in the input: it can be read back. *)
Definition node_of (idx : Z) (i : nat) (buf : list byte) : list byte :=
  if Z.land (Z.shiftr idx (Z.of_nat i)) 1 =? 0 then take 32 (drop 1 buf) else drop 33 buf.

Lemma node_of_input idx i node sibling : length node = 32%nat -> node_of idx i (node_input idx i node sibling) = node.
Proof.
  intros Hn. unfold node_of, node_input. destruct (_ =? 0).
  - unfold copy_at at 1. rewrite length_copy_at by (cbn; lia). rewrite drop_app_le by (rewrite length_take, length_copy_at; cbn; lia).
    rewrite take_app_le by (rewrite length_drop, length_take, length_copy_at; cbn; lia).
    rewrite skipn_firstn_comm, take_take. change (Nat.min 32 (33 - 1)) with 32%nat. unfold copy_at. change (length zero_buf) with 65%nat.
    change (take 1 zero_buf) with [x01]. change (drop 1 ([x01] ++ take (65 - 1) node ++ drop (1 + length node) zero_buf))
      with (take (65 - 1) node ++ drop (1 + length node) zero_buf). rewrite (take_ge node) by lia. by apply take_app_length'.
  - unfold copy_at at 1. rewrite length_copy_at by (cbn; lia). change (length zero_buf) with 65%nat.
    rewrite (take_ge node) by lia. rewrite (drop_ge _ (33 + length node)) by (rewrite length_copy_at; cbn; lia). rewrite app_nil_r.
    apply drop_app_length'. rewrite length_take, length_copy_at; cbn; lia.
Qed.

(** ** Inclusion proofs *)

Section Inclusion.
Context (json_raw : string -> result string any) (json_value : any -> result string string) (sha256 : list byte -> list byte).
(** SHA-256 has 32 bytes. *)
Context (sha256_length : forall m, length (sha256 m) = 32%nat).

Abbreviation verify := (VerifyInclusion json_raw json_value sha256).
Abbreviation canonical := (canonical_entry json_raw json_value).

(** The messages that a climb hashes, one for each step of its path. *)
Fixpoint climbed (idx : Z) (i : nat) (node : list byte) (path : list string) : list (list byte) :=
  match path with
  | [] => []
  | step :: path =>
      match RawURL_Decode step with
      | None => []
      | Some sibling => let m := node_input idx i node sibling in m :: climbed idx (S i) (sha256 m) path
      end
  end.

(** The messages that the verification of a proof hashes: the leaf, then the nodes on the
    way to the root. *)
Definition hashed (proof : InclusionProof) (leaf : list byte) : list (list byte) :=
  (x00 :: leaf) :: climbed (LeafIndex proof) 0 (leaf_hash sha256 leaf) (AuditPath proof).

(** Two lists of messages that collide at one place: different messages, one digest. *)
Definition collide_at (j : nat) (l1 l2 : list (list byte)) : Prop :=
  exists m1 m2, l1 !! j = Some m1 /\ l2 !! j = Some m2 /\ m1 <> m2 /\ sha256 m1 = sha256 m2.

(** Two climbs of one length at one index that meet started together, or hashed two
    messages to one digest on the way. *)
Lemma climb_binding idx i n1 n2 p1 p2 r :
  length n1 = 32%nat -> length n2 = 32%nat -> length p1 = length p2 ->
  climb sha256 idx i n1 p1 = Some r -> climb sha256 idx i n2 p2 = Some r ->
  n1 = n2 \/ exists j, collide_at j (climbed idx i n1 p1) (climbed idx i n2 p2).
Proof.
  revert i n1 n2 p2. induction p1 as [|s1 p1 IH]; intros i n1 n2 [|s2 p2] H1 H2 Hl; try discriminate Hl; cbn [climb climbed]; [intros [= ->] [= ->]; by left|].
  destruct (RawURL_Decode s1) as [sib1|]; [|done]. destruct (RawURL_Decode s2) as [sib2|]; [|done]. intros C1 C2.
  destruct (IH _ _ _ p2 (sha256_length _) (sha256_length _) ltac:(by injection Hl) C1 C2) as [E|(j & Hj)]; [|right; by exists (S j)].
  destruct (decide (node_input idx i n1 sib1 = node_input idx i n2 sib2)) as [En|En].
  - left. rewrite <- (node_of_input idx i n1 sib1), En by done. by apply node_of_input.
  - right. exists 0%nat. by eexists _, _.
Qed.

Lemma verify_inclusion_ok proof sth e :
  verify proof sth e = true <->
  exists leaf root, canonical e = Ok leaf /\ RawURL_Decode (LeafHash proof) = Some (leaf_hash sha256 leaf) /\
    RawURL_Decode (Sha256RootHash sth) = Some root /\ climb sha256 (LeafIndex proof) 0 (leaf_hash sha256 leaf) (AuditPath proof) = Some root.
Proof.
  unfold VerifyInclusion. split.
  - destruct (canonical e) as [leaf|]; [|done]. destruct (RawURL_Decode (LeafHash proof)) as [h|]; [|done].
    destruct (bool_decide _) eqn:E; [|done]. bool_hyps. subst h. cbn [negb]. destruct (climb _ _ _ _ _) as [node|] eqn:Ec; [|done].
    destruct (RawURL_Decode (Sha256RootHash sth)) as [root|]; [|done]. intros ->%bool_decide_eq_true. by exists leaf, root.
  - intros (leaf & root & -> & -> & -> & ->). by rewrite !bool_decide_eq_true_2.
Qed.

(** C33. One place of a tree holds one entry: whoever shows, for the same tree head, two
    entries included at the same index by paths of the same length, has shown the same
    canonical JSON twice, or the two verifications hash, at one and the same step, two
    different messages to one digest, so that a collision of SHA-256 can be read off the
    two proofs. *)
Theorem inclusion_binding sth proof1 proof2 e1 e2 leaf1 leaf2 :
  verify proof1 sth e1 = true -> verify proof2 sth e2 = true -> canonical e1 = Ok leaf1 -> canonical e2 = Ok leaf2 ->
  LeafIndex proof1 = LeafIndex proof2 -> length (AuditPath proof1) = length (AuditPath proof2) ->
  leaf1 = leaf2 \/ exists j, collide_at j (hashed proof1 leaf1) (hashed proof2 leaf2).
Proof.
  intros V1 V2 L1 L2 Ei El. apply verify_inclusion_ok in V1 as (l1 & root & E1 & _ & Hr & C1), V2 as (l2 & root2 & E2 & _ & Hr2 & C2).
  rewrite L1 in E1. rewrite L2 in E2. injection E1 as <-. injection E2 as <-. rewrite Hr in Hr2. injection Hr2 as <-. unfold hashed. rewrite Ei in *.
  destruct (climb_binding _ _ _ _ _ _ _ (sha256_length _) (sha256_length _) El C1 C2) as [E|(j & Hj)]; [|right; by exists (S j)].
  destruct (decide (leaf1 = leaf2)) as [|Hne]; [by left|]. right. exists 0%nat. eexists _, _. split_and!; [done|done|congruence|done].
Qed.

(** *** Full trees *)

(** The root of the full tree of depth [k] over the leaf hashes. *)
Fixpoint tree_root (k : nat) (leaves : list (list byte)) : list byte :=
  match k with
  | O => match leaves with h :: _ => h | [] => [] end
  | S k => let half := Nat.pow 2 k in sha256 (x01 :: tree_root k (take half leaves) ++ tree_root k (drop half leaves))
  end.

(** The siblings from leaf [i] to the root. *)
Fixpoint audit_path (k : nat) (leaves : list (list byte)) (i : nat) : list (list byte) :=
  match k with
  | O => []
  | S k =>
      let half := Nat.pow 2 k in
      if (i <? half)%nat then audit_path k (take half leaves) i ++ [tree_root k (drop half leaves)]
      else audit_path k (drop half leaves) (i - half) ++ [tree_root k (take half leaves)]
  end.

Lemma length_audit_path k leaves i : length (audit_path k leaves i) = k.
Proof. revert leaves i. induction k as [|k IH]; intros leaves i; [done|]. cbn [audit_path]. destruct (i <? _)%nat; rewrite length_app, IH; cbn; lia. Qed.

Lemma length_tree_root k leaves :
  length leaves = Nat.pow 2 k -> Forall (fun h : list byte => length h = 32%nat) leaves -> length (tree_root k leaves) = 32%nat.
Proof.
  intros Hl Hf. destruct k; [|apply sha256_length]. destruct leaves as [|h leaves]; [done|]. by inversion Hf.
Qed.

Lemma climb_app idx i node p1 p2 :
  climb sha256 idx i node (p1 ++ p2) = match climb sha256 idx i node p1 with Some n => climb sha256 idx (i + length p1) n p2 | None => None end.
Proof.
  revert i node. induction p1 as [|s p1 IH]; intros i node; cbn [climb app]; [by rewrite Nat.add_0_r|].
  destruct (RawURL_Decode s); [|done]. rewrite IH. cbn [length]. by rewrite <- Nat.add_succ_comm.
Qed.

(** A climb reads only the bits of the index that its path is long. *)
Lemma climb_bits idx idx' i node p :
  (forall j, (i <= j < i + length p)%nat -> Z.testbit idx (Z.of_nat j) = Z.testbit idx' (Z.of_nat j)) ->
  climb sha256 idx i node p = climb sha256 idx' i node p.
Proof.
  revert i node. induction p as [|s p IH]; intros i node Hb; [done|]. cbn [climb length] in *. destruct (RawURL_Decode s) as [sib|]; [|done].
  replace (node_input idx i node sib) with (node_input idx' i node sib).
  - apply IH. intros j Hj. apply Hb. lia.
  - unfold node_input. rewrite !(Z.land_ones _ 1), <- !Z.bit0_mod, !Z.shiftr_spec by lia. rewrite Z.add_0_l. by rewrite (Hb i) by lia.
Qed.

(** From a leaf, its path leads to the root. *)
Lemma climb_full k leaves i h :
  length leaves = Nat.pow 2 k -> Forall (fun h : list byte => length h = 32%nat) leaves -> leaves !! i = Some h ->
  climb sha256 (Z.of_nat i) 0 h (RawURL_Encode <$> audit_path k leaves i) = Some (tree_root k leaves).
Proof.
  revert leaves i. induction k as [|k IH]; intros leaves i Hl Hf Hi.
  { destruct leaves as [|x [|]]; try discriminate Hl. destruct i; [|done]. by injection Hi as ->. }
  set (half := Nat.pow 2 k). assert (Hk : Nat.pow 2 (S k) = (half + half)%nat) by (cbn; lia). rewrite Hk in Hl.
  assert (L1 : length (take half leaves) = half) by (rewrite length_take; lia). assert (L2 : length (drop half leaves) = half) by (rewrite length_drop; lia).
  assert (F1 : Forall (fun h : list byte => length h = 32%nat) (take half leaves)) by by apply Forall_take.
  assert (F2 : Forall (fun h : list byte => length h = 32%nat) (drop half leaves)) by by apply Forall_drop.
  assert (R1 := length_tree_root k _ L1 F1). assert (R2 := length_tree_root k _ L2 F2).
  assert (Hpow : 2 ^ Z.of_nat k = Z.of_nat half) by (unfold half; by rewrite Nat2Z.inj_pow).
  cbn [audit_path tree_root]. fold half. assert (Hlt : (i < half + half)%nat) by (rewrite <- Hl; by eapply lookup_lt_Some).
  destruct (Nat.ltb_spec i half) as [Hb|Hb]; rewrite fmap_app, climb_app.
  - rewrite IH by (try done; by rewrite lookup_take_lt). cbn [fmap list_fmap climb]. rewrite RawURL_roundtrip, length_fmap, length_audit_path.
    rewrite node_input_joined by done. rewrite Nat.add_0_l.
    assert (E : Z.testbit (Z.of_nat i) (Z.of_nat k) = false); [|by rewrite E]. apply Z.testbit_false; [lia|]. by rewrite Hpow, Z.div_small by lia.
  - rewrite (climb_bits _ (Z.of_nat (i - half))).
    + rewrite IH by (try done; by rewrite lookup_drop, Nat.add_comm, Nat.sub_add). cbn [fmap list_fmap climb].
      rewrite RawURL_roundtrip, length_fmap, length_audit_path. rewrite node_input_joined by done. rewrite Nat.add_0_l.
      assert (E : Z.testbit (Z.of_nat i) (Z.of_nat k) = true); [|by rewrite E].
      apply Z.testbit_true; [lia|]. rewrite Hpow. rewrite <- (Z.div_unique (Z.of_nat i) (Z.of_nat half) 1 (Z.of_nat i - Z.of_nat half)) by lia. done.
    + intros j Hj. rewrite length_fmap, length_audit_path in Hj. rewrite <- (Z.mod_pow2_bits_low (Z.of_nat i) (Z.of_nat k)) by lia.
      rewrite <- (Z.mod_pow2_bits_low (Z.of_nat (i - half)) (Z.of_nat k)) by lia. f_equal. rewrite !Hpow, Nat2Z.inj_sub by done.
      rewrite Zminus_mod, Z.mod_same, Z.sub_0_r, Z.mod_mod by lia. done.
Qed.

(** Every entry of a full tree is shown included: over 2^k entries, the path of the
    siblings verifies against the root at the entry's index. *)
Theorem inclusion_complete k leaves i proof sth e leaf :
  length leaves = Nat.pow 2 k -> Forall (fun h : list byte => length h = 32%nat) leaves ->
  canonical e = Ok leaf -> leaves !! i = Some (leaf_hash sha256 leaf) ->
  proof = MkProof (le_Seq e) (Z.of_nat i) (Z.of_nat (length leaves)) (RawURL_Encode (leaf_hash sha256 leaf)) (RawURL_Encode <$> audit_path k leaves i) ->
  Sha256RootHash sth = RawURL_Encode (tree_root k leaves) ->
  verify proof sth e = true.
Proof.
  intros Hl Hf Hc Hi -> Hr. apply verify_inclusion_ok. exists leaf, (tree_root k leaves). cbn [LeafHash LeafIndex AuditPath].
  rewrite Hr, !RawURL_roundtrip. split_and!; [done|done|done|by apply climb_full].
Qed.

(** *** What a proof does not say *)

(** Neither the size of the tree nor the sequence number is looked at, and of the index
    only as many bits as the path is long. *)
Lemma position_unchecked seq seq' idx idx' size size' h path sth sth' e :
  Sha256RootHash sth' = Sha256RootHash sth -> idx' mod 2 ^ Z.of_nat (length path) = idx mod 2 ^ Z.of_nat (length path) ->
  verify (MkProof seq' idx' size' h path) sth' e = verify (MkProof seq idx size h path) sth e.
Proof.
  intros Hr Hi. unfold VerifyInclusion. cbn [LeafHash LeafIndex AuditPath]. rewrite Hr. destruct (canonical e) as [leaf|]; [|done].
  rewrite (climb_bits idx' idx); [done|]. intros j Hj. rewrite <- (Z.mod_pow2_bits_low idx' (Z.of_nat (length path))) by lia. rewrite Hi.
  by rewrite Z.mod_pow2_bits_low by lia.
Qed.

(** A tree of three leaves whose last leaf is joined as it is: bit zero of the third
    leaf's index says left, so its proof is accepted only if the digest of the two nodes
    is also that of the same nodes the other way round. *)
Lemma third_leaf_refused seq h sth e leaf l01 :
  canonical e = Ok leaf -> length l01 = 32%nat -> l01 <> leaf_hash sha256 leaf ->
  Sha256RootHash sth = RawURL_Encode (sha256 (x01 :: l01 ++ leaf_hash sha256 leaf)) ->
  verify (MkProof seq 2 3 h [RawURL_Encode l01]) sth e = true ->
  let node := leaf_hash sha256 leaf in l01 ++ node <> node ++ l01 /\ sha256 (x01 :: l01 ++ node) = sha256 (x01 :: node ++ l01).
Proof.
  intros Hc Hl Hne Hr V. apply verify_inclusion_ok in V as (leaf' & root & Hc' & _ & Hr' & Hclimb). rewrite Hc in Hc'. injection Hc' as <-.
  rewrite Hr, RawURL_roundtrip in Hr'. injection Hr' as <-. cbn [LeafIndex AuditPath climb] in Hclimb.
  rewrite RawURL_roundtrip, node_input_joined in Hclimb by (done || apply sha256_length). change (Z.testbit 2 (Z.of_nat 0)) with false in Hclimb.
  injection Hclimb as E. cbv zeta. split; [|symmetry; exact E]. intros Eq. destruct Hne.
  apply app_inj_1 in Eq as [Eq _]; [done|]. unfold leaf_hash. by rewrite sha256_length.
Qed.
End Inclusion.

(** ** Signatures *)

Section Signatures.
Context (json_raw : string -> result string any) (json_value : any -> result string string).
Context (ed25519_Sign : list byte -> list byte) (ed25519_Verify : list byte -> list byte -> list byte -> bool) (pubKey : list byte).

Abbreviation sign := (SignEntry json_raw json_value ed25519_Sign).
Abbreviation check := (VerifyEntry json_raw json_value ed25519_Verify pubKey).
Abbreviation signed := (signed_bytes json_raw json_value).

Lemma signed_with_signature e sig : signed (with_signature e sig) = signed e.
Proof. reflexivity. Qed.

(** Signing and verifying agree: with a key pair of Ed25519, an entry that was signed
    verifies and differs from the original in nothing but the signature; and an entry
    verifies exactly when its signature is the base64 text of 64 bytes that the key
    accepts for the entry without its signature. *)
Theorem entry_signature e :
  (forall m, length (ed25519_Sign m) = 64%nat /\ ed25519_Verify pubKey m (ed25519_Sign m) = true) ->
  (forall e', sign e = Ok e' -> check e' = true /\ with_signature e' (le_Signature e) = e) /\
  (check e = true <-> exists b64 sig m, le_Signature e = "ed25519:" +:+ b64 /\ RawURL_Decode b64 = Some sig /\ length sig = 64%nat /\
     signed e = Ok m /\ ed25519_Verify pubKey m sig = true).
Proof.
  intros Hkey. assert (Hiff : forall e, check e = true <-> exists b64 sig m, le_Signature e = "ed25519:" +:+ b64 /\ RawURL_Decode b64 = Some sig /\
    length sig = 64%nat /\ signed e = Ok m /\ ed25519_Verify pubKey m sig = true).
  { clear e. intros e. unfold VerifyEntry. split.
    - destruct (cut_prefix _ _) as [b64|] eqn:Ec; [|done]. apply cut_prefix_Some in Ec. destruct (RawURL_Decode b64) as [sig|] eqn:Ed; [|done].
      destruct (length sig =? SignatureSize)%nat eqn:El; [|done]. cbn [negb]. destruct (signed e) as [m|] eqn:Em; [|done]. intros Hv.
      apply Nat.eqb_eq in El. by exists b64, sig, m.
    - intros (b64 & sig & m & -> & Hd & Hl & -> & Hv). by rewrite (proj2 (cut_prefix_Some _ _ b64) eq_refl), Hd, Hl. }
  split; [|apply Hiff]. intros e'. unfold SignEntry. destruct (signed e) as [m|] eqn:Em; [|done]. intros [= <-]. split; [|by destruct e].
  apply Hiff. destruct (Hkey m) as [Hl Hv]. exists (RawURL_Encode (ed25519_Sign m)), (ed25519_Sign m), m.
  rewrite signed_with_signature, RawURL_roundtrip. by split_and!.
Qed.

Definition with_seq (e : ReputationLogEntry) (seq : Z) : ReputationLogEntry :=
  MkLogEntry (le_V e) (le_LogID e) seq (le_Timestamp e) (le_SubjectNid e) (le_Incident e) (le_Severity e) (le_Window e)
    (le_Observation e) (le_EvidenceRef e) (le_EvidenceSha256 e) (le_IssuerNid e) (le_Signature e).

(** A signature covers the sequence number as a [float64]: from 2^53 on, neighbours share
    their signatures and their leaf hashes. *)
Lemma signature_rounds_seq e :
  check (with_seq e (2 ^ 53)) = check (with_seq e (2 ^ 53 + 1)) /\
  canonical_entry json_raw json_value (with_seq e (2 ^ 53)) = canonical_entry json_raw json_value (with_seq e (2 ^ 53 + 1)).
Proof.
  unfold VerifyEntry, signed_bytes, canonical_entry, entryToMap. cbn [le_Signature le_Severity le_Observation le_Seq with_signature with_seq].
  change (float64_of_Z (2 ^ 53 + 1)) with (float64_of_Z (2 ^ 53)). done.
Qed.
End Signatures.

(** ** Queries *)

(** The subject is written into the address as it is, so one that contains an ampersand
    adds parameters to the query. *)
Lemma query_injection base nid seq : query_url base (nid +:+ "&since=" +:+ fmt_d seq) None = query_url base nid (Some seq).
Proof. unfold query_url. by rewrite !str_app_assoc. Qed.

(** ** Witnesses *)

Definition short_hash (m : list byte) : list byte := take 32 (m ++ replicate 32 x00).

Lemma short_hash_length m : length (short_hash m) = 32%nat.
Proof. unfold short_hash. rewrite length_take, length_app, length_replicate. lia. Qed.

Definition toy_value (v : any) : result string string := match v with VString s => Ok s | _ => Ok "0" end.
Definition toy_raw (s : string) : result string any := Ok VNil.
Definition toy_entry (subject : string) : ReputationLogEntry :=
  MkLogEntry 1 "log" 1 "t" subject IncidentOther 0 None "" "" "" "issuer" "".
Definition toy_leaf (subject : string) : list byte :=
  match canonical_entry toy_raw toy_value (toy_entry subject) with Ok b => leaf_hash short_hash b | Err _ => [] end.
Definition toy_leaves : list (list byte) := toy_leaf <$> ["a"; "b"; "c"; "d"].
Definition toy_sth : SignedTreeHead := MkSTH "log" 4 "t" (RawURL_Encode (tree_root short_hash 2 toy_leaves)) "".
Definition toy_proof (i : nat) (subject : string) : InclusionProof :=
  MkProof 1 (Z.of_nat i) 4 (RawURL_Encode (toy_leaf subject)) (RawURL_Encode <$> audit_path short_hash 2 toy_leaves i).

(** A tree of two leaves under a hash of one value. *)
Definition flat_sth : SignedTreeHead := MkSTH "log" 2 "t" (RawURL_Encode (short_hash [])) "".
Definition flat_proof (subject : string) : InclusionProof := MkProof 1 0 2 (RawURL_Encode (short_hash [])) [RawURL_Encode (short_hash [])].

Example inclusion_complete_witness : VerifyInclusion toy_raw toy_value short_hash (toy_proof 2 "c") toy_sth (toy_entry "c") = true.
Proof.
  assert (Hf : Forall (fun h : list byte => length h = 32%nat) toy_leaves) by (repeat constructor).
  eapply (inclusion_complete toy_raw toy_value short_hash short_hash_length 2 toy_leaves 2); [reflexivity|exact Hf|vm_compute; reflexivity|..];
    vm_compute; reflexivity.
Defined.

(** Two entries that verify at one place under a hash of one value. *)
Example inclusion_binding_witness :
  let leaf s := match canonical_entry toy_raw toy_value (toy_entry s) with Ok b => b | Err _ => [] end in
  leaf "c" <> leaf "cc" /\
  (leaf "c" = leaf "cc" \/ exists j, collide_at (fun _ => short_hash []) j (hashed (fun _ => short_hash []) (flat_proof "c") (leaf "c"))
                                                                           (hashed (fun _ => short_hash []) (flat_proof "cc") (leaf "cc"))).
Proof.
  cbv zeta. split; [vm_compute; discriminate|].
  apply (inclusion_binding toy_raw toy_value (fun _ => short_hash []) (fun _ => short_hash_length []) flat_sth (flat_proof "c") (flat_proof "cc") (toy_entry "c") (toy_entry "cc"));
    vm_compute; reflexivity.
Defined.

Definition toy_signature (m : list byte) : list byte := short_hash m ++ short_hash m.

Example entry_signature_witness :
  exists e, SignEntry toy_raw toy_value toy_signature (toy_entry "a") = Ok e /\
    VerifyEntry toy_raw toy_value (fun _ m sig => bool_decide (sig = toy_signature m)) [] e = true.
Proof.
  eexists. split; [vm_compute; reflexivity|].
  refine (proj1 (proj1 (entry_signature toy_raw toy_value toy_signature (fun _ m sig => bool_decide (sig = toy_signature m)) [] (toy_entry "a") _) _ _)).
  - intros m. unfold toy_signature. rewrite length_app, short_hash_length. split; [reflexivity|by apply bool_decide_eq_true_2].
  - vm_compute. reflexivity.
Defined.
