(* ===== verification/Alpha19Policy.v ===== *)
(** * The policy decisions of alpha.19

    alpha19/policy.go: seven functions from a JSON object to a JSON object, one for each
    protocol, in which the members of the input choose the decision.  A decision panics
    on an input that it does not know, on a member of the wrong kind and on a broken
    time: [None].

    [fmt.Sprint] of a value that is no string, [fmt.Sscan] into a float64, [time.Parse]
    and [Time.Format] with [time.RFC3339], the capacity that [append] leaves and
    [sort.Slice] are arguments. *)

From S2P Require Import Prelude GoValue GoSort.

(** ** Values *)

Definition has (d : dict) (k : string) : bool := match dict_get k d with Some _ => true | None => false end.

Definition obj (v : any) : option dict := match v with VNil => Some [] | VMap m => Some m | _ => None end.
Definition arr (v : any) : option (list any) := match v with VNil => Some [] | VSlice l => Some l | _ => None end.
Definition num (v : any) : float64 :=
  match v with
  | VFloat64 n => n
  | VInt KInt n | VInt KInt64 n => float64_of_Z n
  | _ => S754_zero false
  end.
Definition boolean (v : any) : bool := match v with VBool b => b | _ => false end.

Definition Float (z : Z) : any := VFloat64 (float64_of_Z z).
Definition zero : float64 := S754_zero false.
Abbreviation fadd := (SFadd 53 1024).
Abbreviation fsub := (SFsub 53 1024).
Abbreviation fmul := (SFmul 53 1024).

(** [n == math.Trunc(n)]. *)
Definition is_whole (n : float64) : bool :=
  match n with
  | S754_nan => false
  | S754_finite _ m e => (0 <=? e) || (Zpos m mod 2 ^ (- e) =? 0)
  | _ => true
  end.

(** [math.Floor]. *)
Definition Floor (n : float64) : float64 :=
  match n with
  | S754_finite s m e => if 0 <=? e then n else float64_of_Z ((if s then - Zpos m else Zpos m) / 2 ^ (- e))
  | _ => n
  end.

(** An instant in nanoseconds since the zero time, and the zone it was written in. *)
Record Time : Type := MkTime { instant : Z; zone : Z }.

Class Runtime : Type := {
  Sprint : any -> string;
  Sscan : string -> float64;
  time_Parse : string -> option Time;
  time_Format : Time -> string;
  append_cap : nat -> nat;
  append_cap_le : forall n, (n <= append_cap n)%nat
}.

Section Policy.
Context `{Runtime} `{UnstableSort}.

Definition str (v : any) : string := match v with VNil => "" | VString s => s | _ => Sprint v end.
Definition parseTime (v : string) : option Time := time_Parse v.

Definition subset (want have : any) : option bool :=
  h ← arr have; w ← arr want; Some (forallb (fun v => mem_string (str v) (str <$> h)) w).

(** [t.Add(time.Duration(n) * time.Second)], in the format of the wire. *)
Definition add_lease (t : Time) (n : float64) : string :=
  time_Format (MkTime (instant t + i64 (int64_of_float n * 1000000000)) (zone t)).

Definition refused (e : string) (more : dict) : option dict := Some ([("accepted", VBool false); ("error", VString e)] ++ more).
Definition accepted : option dict := Some [("accepted", VBool true)].

(** ** NCP *)

Definition keepalive (a b : float64) : dict :=
  match List.filter (SFltb zero) [a; b] with
  | [] => [("keepalive_enabled", VBool false); ("effective_interval_ms", VNil)]
  | first :: others =>
      let v := foldl (fun v n => if SFltb n v then n else v) first others in
      let v := if SFltb v (float64_of_Z 1000) then float64_of_Z 1000 else v in
      [("keepalive_enabled", VBool true); ("effective_interval_ms", VFloat64 v)]
  end.

Fixpoint last_inbound (clock : float64) (events : list any) : option float64 :=
  match events with
  | [] => Some clock
  | raw :: events =>
      e ← obj raw;
      last_inbound (if String.eqb (str (dict_at e "event")) "valid_inbound_frame" then num (dict_at e "at_ms") else clock) events
  end.

Definition probe (due : bool) (queued : float64) : dict :=
  if due && SFeqb queued zero
  then [("enqueue", VMap [("frame", VString "0x07"); ("payload_length", Float 0)]); ("queued_probe_count", Float 1)]
  else [("queued_probe_count", VFloat64 queued)].

Definition liveness (now last interval : float64) (streams : any) : dict :=
  if SFleb (fadd last (fmul (float64_of_Z 3) interval)) now
  then [("state", VString "closing"); ("error", VString "NCP-KEEPALIVE-TIMEOUT"); ("error_count", Float 1);
        ("cancelled_streams", VFloat64 (num streams)); ("close_by_ms", VFloat64 (fadd now (float64_of_Z 500)));
        ("allow_later_application_frames", VBool false)]
  else [("state", VString "open")].

Definition migration (confirmed same : bool) (credit window : float64) : dict :=
  if negb confirmed || negb same
  then [("migration_allowed", VBool false); ("session_preserved", VBool false); ("error", VString "NCP-NID-MISMATCH")]
  else
    let send := SFltb zero credit && SFltb zero window in
    [("migration_allowed", VBool true); ("session_preserved", VBool true); ("send_allowed", VBool send)] ++
    (if send then [] else [("reason", VString (if SFleb window zero then "ncp_window_exhausted" else "carrier_credit_exhausted"))]).

Definition NCP (i : dict) : option dict :=
  let n k := num (dict_at i k) in
  let s k := str (dict_at i k) in
  if has i "client_ping_ms" then Some (keepalive (n "client_ping_ms") (n "server_ping_ms"))
  else match as_slice (dict_at i "events") with
  | Some events => clock ← last_inbound (n "last_valid_inbound_ms") events; Some [("last_valid_inbound_ms", VFloat64 clock)]
  | None =>
  if has i "queued_probe_count" then
    Some (probe (SFleb (n "effective_interval_ms") (fsub (n "evaluate_at_ms") (n "last_application_send_ms"))) (n "queued_probe_count"))
  else if has i "active_streams" then
    Some (liveness (n "evaluate_at_ms") (n "last_valid_inbound_ms") (n "effective_interval_ms") (dict_at i "active_streams"))
  else if has i "payload_length" then
    if negb (SFeqb (n "payload_length") zero)
    then refused "NCP-FRAME-PAYLOAD-TOO-LARGE" [("last_valid_inbound_ms", VFloat64 (n "last_valid_inbound_ms"))]
    else Some [("accepted", VBool true); ("last_valid_inbound_ms", VFloat64 (n "received_at_ms"))]
  else if has i "early_data" then
    if String.eqb (s "carrier") "quic" && negb (boolean (dict_at i "handshake_confirmed"))
    then refused "NCP-EARLY-DATA-REJECTED" [("retry_after_confirmation", VBool true)]
    else accepted
  else if has i "bound_nid" then
    Some (migration (boolean (dict_at i "handshake_confirmed")) (String.eqb (s "bound_nid") (s "migrated_nid"))
            (n "carrier_credit_bytes") (n "ncp_window_cgn"))
  else None
  end.

(** ** NWP metadata *)

Definition MaxUint32 : Z := 2 ^ 32 - 1.

Definition sla_latency (sla : dict) (prefix : string) : dict * list any :=
  match dict_get "p95_latency_ms" sla with
  | None => ([], [])
  | Some raw =>
      let n := num raw in
      if SFltb zero n && SFleb n (float64_of_Z MaxUint32) && is_whole n
      then ([("p95_latency_ms", VFloat64 n)], []) else ([], [VString (prefix +:+ "p95_latency_ms")])
  end.

Definition sla_availability (sla : dict) (prefix : string) : dict * list any :=
  match dict_get "availability" sla with
  | None => ([], [])
  | Some raw =>
      let n := Sscan (str raw) in
      if SFltb zero n && SFleb n (float64_of_Z 1)
      then ([("availability", VString (str raw))], []) else ([], [VString (prefix +:+ "availability")])
  end.

Definition tier_rank (tier : string) : option Z :=
  if String.eqb tier "basic" then Some 0 else if String.eqb tier "standard" then Some 1
  else if String.eqb tier "premium" then Some 2 else None.

Definition sla_tier (sla : dict) : dict :=
  match dict_get "sla_tier" sla with
  | None => []
  | Some raw =>
      match tier_rank (str raw) with
      | Some rank => [("sla_tier", VString (str raw)); ("sla_tier_rank", Float rank)]
      | None => [("sla_tier_raw", VString (str raw)); ("sla_tier_rank", VNil)]
      end
  end.

Definition normalizeSLA (sla : dict) (prefix : string) : dict * list any :=
  let '(l, d1) := sla_latency sla prefix in
  let '(a, d2) := sla_availability sla prefix in
  (l ++ a ++ sla_tier sla, d1 ++ d2).

Definition is_upper (c : Ascii.ascii) : bool := (65 <=? char_z c) && (char_z c <=? 90).
Definition is_digit (c : Ascii.ascii) : bool := (48 <=? char_z c) && (char_z c <=? 57).
Definition digits (s : string) : bool := negb (String.eqb s "") && str_forall is_digit s.

(** [^[A-Z]{3} [0-9]+(?:\.[0-9]+)?$]. *)
Definition price_ok (s : string) : bool :=
  match s with
  | String a (String b (String c (String sp r))) =>
      is_upper a && is_upper b && is_upper c && Ascii.eqb sp (chr 32) &&
      match split_on dot r with [whole] => digits whole | [whole; frac] => digits whole && digits frac | _ => false end
  | _ => false
  end.

Definition billing_price (b : dict) (price : string) : dict * list any :=
  if price_ok price then
    match dict_get "currency" b with
    | Some c => if negb (String.eqb (str c) (String.substring 0 3 price)) then ([], [VString "currency"])
                else ([("price_hint", VString price); ("currency", VString (str c))], [])
    | None => ([("price_hint", VString price)], [])
    end
  else ([], [VString "price_hint"]).

Definition normalize_billing (b : dict) : dict * list any :=
  let profile := str (dict_at b "metering_profile") in
  let profile := if negb (String.eqb profile "free") && negb (String.eqb profile "metered") then "metered" else profile in
  if String.eqb profile "free" then
    ([("metering_profile", VString profile)], VString <$> List.filter (has b) ["billing_unit"; "price_hint"; "currency"])
  else
    let unit := str (dict_at b "billing_unit") in
    let price := str (dict_at b "price_hint") in
    let '(o1, d1) := if negb (String.eqb unit "") then ([("billing_unit", VString unit)], []) else ([], [VString "billing_unit"]) in
    let '(o2, d2) := if negb (String.eqb price "") then billing_price b price else ([], []) in
    ([("metering_profile", VString profile)] ++ o1 ++ o2, d1 ++ d2).

Definition merge (base override : dict) : dict := foldl (fun base kv => dict_set kv.1 kv.2 base) base override.

Definition NWPMetadata (i : dict) : option dict :=
  match dict_get "stability" i with
  | Some VNil => Some [("normalized", VString "stable"); ("diagnostics", VSlice [])]
  | Some raw =>
      let v := str raw in
      if mem_string v ["experimental"; "stable"; "deprecated"]
      then Some [("raw", VString v); ("normalized", VString v); ("rank_as_stable", VBool (String.eqb v "stable"))]
      else Some [("raw", VString v); ("normalized", VString "experimental"); ("rank_as_stable", VBool false)]
  | None =>
  match dict_get "sla" i with
  | Some raw =>
      sla ← obj raw;
      let '(sla, d) := normalizeSLA sla "" in
      Some [("manifest_valid", VBool true); ("normalized_sla", VMap sla); ("diagnostics", VSlice d)]
  | None =>
  match dict_get "billing" i with
  | Some raw =>
      b ← obj raw;
      let '(out, d) := normalize_billing b in
      Some [("normalized_billing", VMap out); ("diagnostics", VSlice d)]
  | None =>
  if has i "top_level" then
    top ← obj (dict_at i "top_level"); top_sla ← obj (dict_at top "sla");
    action ← obj (dict_at i "action"); action_sla ← obj (dict_at action "sla");
    let '(override, d) := normalizeSLA action_sla "action.sla." in
    Some [("effective_sla", VMap (merge (normalizeSLA top_sla "").1 override)); ("diagnostics", VSlice d)]
  else None
  end end end.

(** ** NWP subscriptions *)

Definition lease_invalid : option dict := refused "NWP-SUBSCRIBE-LEASE-INVALID" [("state_mutated", VBool false)].

Definition open_lease (p r : dict) (accepted_at : string) : option dict :=
  let def := num (dict_at p "default_lease_seconds") in
  let max := num (dict_at p "max_lease_seconds") in
  let renew := num (dict_at p "renew_before_seconds") in
  if SFleb def zero || SFleb max zero || SFltb max def || SFleb max renew then lease_invalid
  else
    let lease := match dict_get "lease_seconds" r with Some v => num v | None => def end in
    if SFleb lease zero then lease_invalid
    else
      let lease := if SFltb max lease then max else lease in
      t ← parseTime accepted_at;
      Some ([("lease_seconds", VFloat64 lease); ("expires_at", VString (add_lease t lease))] ++
            if has r "lease_seconds" then [] else [("status", VString "open")]).

Definition NWPSubscription (i : dict) : option dict :=
  let s k := str (dict_at i k) in
  match dict_get "policy" i with
  | Some raw => p ← obj raw; r ← obj (dict_at i "request"); open_lease p r (s "accepted_at")
  | None =>
  if has i "owner_nid" then
    if negb (String.eqb (s "owner_nid") (s "caller_nid"))
    then refused "NWP-AUTH-NID-SCOPE-VIOLATION" [("state_disclosed", VBool false)] else accepted
  else if has i "prior_seq" then
    t ← parseTime (s "accepted_at");
    Some [("expires_at", VString (add_lease t (num (dict_at i "lease_seconds"))));
          ("seq", VFloat64 (num (dict_at i "prior_seq"))); ("cursor", dict_at i "prior_cursor")]
  else if has i "expires_at" then
    now ← parseTime (s "now"); e ← parseTime (s "expires_at");
    if negb (instant now <? instant e)
    then Some [("accepted", VBool false); ("status", VString "closed"); ("error", VString "NWP-SUBSCRIBE-LEASE-EXPIRED");
               ("terminal_event_count", Float 1)]
    else accepted
  else if (String.eqb (s "operation") "renew" || String.eqb (s "operation") "close") && existsb (has i) ["anchor_ref"; "filter"; "type"]
  then lease_invalid
  else None
  end.

(** ** NIP *)

(** [t.Sub(u)]: a duration, at the bounds of an int64. *)
Definition Sub (t u : Time) : Z := Z.max (- 2 ^ 63) (Z.min (2 ^ 63 - 1) (instant t - instant u)).
Definition week : Z := 7 * 24 * 3600 * 1000000000.

Definition renewal_scope (cur req : dict) : option dict :=
  caps ← subset (dict_at req "capabilities") (dict_at cur "capabilities");
  allowed ← (if (caps : bool) then subset (dict_at req "scope") (dict_at cur "scope") else Some false);
  Some (if (allowed : bool) then [("issued", VBool true)]
        else [("issued", VBool false); ("error", VString "NIP-CA-SCOPE-EXPANSION-DENIED")]).

Definition NIPRenewal (i : dict) : option dict :=
  let s k := str (dict_at i k) in
  if String.eqb (s "profile") "standard" then
    na ← parseTime (s "not_after"); now ← parseTime (s "now");
    let open := Sub na now <=? week in
    Some [("renewal_open", VBool open); ("error", if open then VNil else VString "NIP-CA-RENEWAL-TOO-EARLY")]
  else if String.eqb (s "profile") "short-lived-edge" then
    let w := Floor (SFdiv 53 1024 (num (dict_at i "original_validity_seconds")) (float64_of_Z 4)) in
    Some [("renewal_open", VBool (SFleb (num (dict_at i "remaining_seconds")) w)); ("window_seconds", VFloat64 w)]
  else if has i "current" then
    cur ← obj (dict_at i "current"); req ← obj (dict_at i "requested"); renewal_scope cur req
  else if has i "recorded" then
    r ← obj (dict_at i "recorded");
    if boolean (dict_at r "committed") && String.eqb (str (dict_at r "canonical_digest")) (s "canonical_digest")
    then Some [("serial", dict_at r "serial"); ("new_issue_count", Float 0)]
    else Some [("error", VString "NIP-CA-SERIAL-DUPLICATE"); ("new_issue_count", Float 0)]
  else if has i "old_ticket_not_after" then Some [("old_ticket_not_after", dict_at i "old_ticket_not_after")]
  else None.

Definition replace_cached (c n : dict) : option dict :=
  replace ← (if boolean (dict_at n "signature_valid") then
               tn ← parseTime (str (dict_at n "this_update")); tc ← parseTime (str (dict_at c "this_update"));
               Some (instant tc <? instant tn)
             else Some false);
  Some [("cache_replaced", VBool replace); ("effective_outcome", dict_at (if (replace : bool) then n else c) "outcome")].

(** Whether a source is stale; no time is no bound. *)
Definition stale (now : Time) (s : dict) : option bool :=
  match dict_at s "next_update" with
  | VNil => Some false
  | v => if instant now =? 0 then Some false else u ← parseTime (str v); Some (negb (instant now <? instant u))
  end.

(** The sources in their order, and what was consulted. *)
Fixpoint consult (mode : string) (now : Time) (consulted d : list any) (sources : list any) : option dict :=
  match sources with
  | [] =>
      if String.eqb mode "required" then Some [("valid", VBool false); ("error", VString "NIP-REVOCATION-STATE-STALE")]
      else Some [("valid", VBool true); ("consulted_sources", VSlice consulted)]
  | raw :: sources =>
      s ← obj raw;
      let name := str (dict_at s "source") in
      let outcome := str (dict_at s "outcome") in
      let consulted := consulted ++ [VString name] in
      if String.eqb outcome "unknown" then Some [("valid", VBool false); ("error", VString "NIP-OCSP-UNKNOWN")]
      else
        st ← stale now s;
        if (st : bool) then consult mode now consulted (d ++ [VString (name +:+ "_stale")]) sources
        else if String.eqb outcome "revoked" then Some [("valid", VBool false); ("error", VString "NIP-CERT-REVOKED")]
        else if String.eqb outcome "good" then
          Some ([("valid", VBool true); ("consulted_sources", VSlice consulted)] ++
                match d with [] => [] | _ => [("diagnostics", VSlice d)] end)
        else consult mode now consulted d sources
  end.

Definition NIPRevocation (i : dict) : option dict :=
  if has i "cached" then c ← obj (dict_at i "cached"); n ← obj (dict_at i "incoming"); replace_cached c n
  else
    now ← match dict_at i "now" with VNil => Some (MkTime 0 0) | v => parseTime (str v) end;
    sources ← arr (dict_at i "sources");
    consult (str (dict_at i "revocation_mode")) now [] [] sources.

(** The findings by field. *)
Definition advisory_findings (ident ext : dict) : option (list (string * string)) :=
  caps ← subset (dict_at ident "capabilities") (dict_at ext "capabilities");
  roles ← subset (dict_at ident "node_roles") (dict_at ext "node_roles");
  Some (
    (if negb (String.eqb (str (dict_at ident "assurance_level")) (str (dict_at ext "assurance_level")))
     then [("assurance_level", "NIP-ASSURANCE-MISMATCH")] else []) ++
    (if (caps : bool) then [] else [("capabilities", "NIP-CERT-CAPABILITIES-EXCEEDED")]) ++
    (if (roles : bool) then [] else [("node_roles", "NIP-CERT-NODE-ROLES-MISMATCH")]) ++
    (match dict_at ident "ocsp_staple" with VNil => [("ocsp_staple", "NIP-OCSP-STAPLE-EXPIRED")] | _ => [] end)).

Definition finding_value (f : string * string) : any := VMap [("field", VString f.1); ("error", VString f.2)].

Definition NIPAdvisory (i : dict) : option dict :=
  ident ← obj (dict_at i "ident");
  ext ← obj (dict_at i "certificate_extensions");
  findings ← advisory_findings ident ext;
  Some [("accepted_current_request", VBool (negb (boolean (dict_at i "phase3_enforcement"))));
        ("findings", VSlice (finding_value <$> Slice (fun a b => String.ltb a.1 b.1) findings));
        ("state_mutated", VBool false)].

(** ** NDP *)

Definition minus_max : float64 := S754_finite true (2 ^ 53 - 1)%positive 971.

(** The live owners, and the highest epoch among them. *)
Fixpoint live_owners (live : list dict) (top : float64) (owners : list any) : option (list dict * float64) :=
  match owners with
  | [] => Some (live, top)
  | raw :: owners =>
      o ← obj raw;
      if boolean (dict_at o "live")
      then live_owners (live ++ [o]) (if SFltb top (num (dict_at o "epoch")) then num (dict_at o "epoch") else top) owners
      else live_owners live top owners
  end.

Definition elect (live : list dict) (top : float64) : dict :=
  let leaders := sort_strings ((fun o => str (dict_at o "nid")) <$> List.filter (fun o => SFeqb (num (dict_at o "epoch")) top) live) in
  match leaders with
  | [leader] => [("resolved_nid", VString leader)]
  | _ => [("resolved_nid", VNil); ("error", VString "NDP-CLUSTER-SPLIT")]
  end.

Definition NDP (i : dict) : option dict :=
  let n k := VFloat64 (num (dict_at i k)) in
  let s k := str (dict_at i k) in
  if has i "commit" then
    if String.eqb (s "commit") "success"
    then Some [("acknowledged", VBool true); ("served_seq", n "incoming_seq"); ("persisted_seq", n "incoming_seq")]
    else Some [("acknowledged", VBool false); ("served_seq", n "persisted_seq"); ("persisted_seq", n "persisted_seq");
               ("error", VString "NDP-STATE-UNAVAILABLE")]
  else if has i "now" then
    r ← obj (dict_at i "record");
    u ← parseTime (str (dict_at r "fresh_until")); now ← parseTime (s "now");
    Some [("live_entry", VBool (instant now <? instant u)); ("highest_seq", VFloat64 (num (dict_at r "highest_seq"))); ("ready", VBool true)]
  else if has i "restored_highest_seq" then
    if SFltb (num (dict_at i "incoming_seq")) (num (dict_at i "restored_highest_seq"))
    then Some [("accepted", VBool false); ("highest_seq", n "restored_highest_seq"); ("error", VString "NDP-GRAPH-SEQ-ROLLBACK")]
    else Some [("accepted", VBool true); ("highest_seq", n "incoming_seq")]
  else if has i "owners" then
    owners ← arr (dict_at i "owners");
    '(live, top) ← live_owners [] minus_max owners;
    Some (elect live top)
  else if has i "snapshot_validation" then
    if String.eqb (s "snapshot_validation") "valid"
    then Some [("ready", VBool true); ("started_empty", VBool false)]
    else Some [("ready", VBool false); ("started_empty", VBool false); ("error", VString "NDP-STATE-CORRUPT")]
  else if has i "profiles" then
    l ← arr (dict_at i "profiles");
    Some [("recovery", VSlice ((fun x => VString (if String.eqb (str x) "local-dev" then "volatile" else "durable")) <$> l))]
  else if has i "revoked_origin" then
    r ← obj (dict_at i "record");
    Some [("live", VBool (boolean (dict_at r "live") && negb (String.eqb (str (dict_at r "origin")) (s "revoked_origin"))));
          ("highest_seq", VFloat64 (num (dict_at r "highest_seq")))]
  else None.

(** ** NOP *)

Definition same_key (r i : dict) : bool :=
  String.eqb (str (dict_at r "caller_nid")) (str (dict_at i "caller_nid")) &&
  String.eqb (str (dict_at r "task_id")) (str (dict_at i "task_id")).

Definition admit_record (capacity : float64) (records : list dict) : dict :=
  let safe := List.filter (fun r => negb (String.eqb (str (dict_at r "state")) "running")) records in
  if SFleb capacity (float64_of_Z (Z.of_nat (length records))) && match safe with [] => true | _ => false end
  then [("accepted", VBool false); ("evicted", VSlice []); ("error", VString "NOP-REPLAY-LIMIT")]
  else [("accepted", VBool true); ("evicted", VSlice match safe with [] => [] | r :: _ => [dict_at r "key"] end)].

(** A finite float64. *)
Definition score (r : dict) : option float64 :=
  match dict_at r "score" with
  | VFloat64 (S754_infinity _) | VFloat64 S754_nan => None
  | VFloat64 f => Some f
  | _ => None
  end.

(** The results, or [None] where a score is no finite number. *)
Fixpoint scored (raws : list any) : option (option (list dict)) :=
  match raws with
  | [] => Some (Some [])
  | raw :: raws =>
      r ← obj raw;
      match score r with
      | None => Some None
      | Some _ => rest ← scored raws; Some (cons r <$> rest)
      end
  end.

Definition better (x y : dict) : bool :=
  let a := num (dict_at x "score") in
  let b := num (dict_at y "score") in
  if SFeqb a b then String.ltb (str (dict_at x "node_id")) (str (dict_at y "node_id")) else SFltb b a.

(** [results[:n]]: up to the capacity of the slice, past its length with nil maps. *)
Definition slice_to (results : list dict) (n : Z) : option (list dict) :=
  _ ← guard ((0 <=? n) && (n <=? Z.of_nat (append_cap (length results))) = true);
  Some (take (Z.to_nat n) results ++ replicate (Z.to_nat n - length results) []).

Definition select (results : list dict) (min_required : float64) : option dict :=
  l ← slice_to (Slice better results) (int64_of_float min_required);
  Some [("selected_node_ids", VSlice ((fun r => dict_at r "node_id") <$> l))].

(** The results by node: the last one of a node. *)
Fixpoint by_node (by_ : list (string * dict)) (raws : list any) : option (list (string * dict)) :=
  match raws with
  | [] => Some by_
  | raw :: raws => r ← obj raw; by_node (assoc_set (str (dict_at r "node_id")) r by_) raws
  end.

Definition absorb (agg : dict) (kv : string * any) : dict :=
  dict_set kv.1 match dict_at agg kv.1, kv.2 with VSlice l, VSlice r => VSlice (l ++ r) | _, v => v end agg.

Fixpoint aggregate (by_ : list (string * dict)) (agg : dict) (order : list any) : option dict :=
  match order with
  | [] => Some agg
  | raw :: order =>
      match assoc_get (str raw) by_ with
      | None => aggregate by_ agg order
      | Some r =>
          if negb (String.eqb (str (dict_at r "state")) "completed") then aggregate by_ agg order
          else v ← obj (dict_at r "value"); aggregate by_ (foldl absorb agg v) order
      end
  end.

Definition NOP_fresh (i : dict) : option dict :=
  let n k := num (dict_at i k) in
  let s k := str (dict_at i k) in
  if has i "recorded_digest" then
    if negb (String.eqb (s "digest") (s "recorded_digest"))
    then refused "NOP-REPLAY-CONFLICT" [("record_mutated", VBool false)] else accepted
  else if has i "incoming" then
    incoming ← obj (dict_at i "incoming"); raws ← arr (dict_at i "records"); records ← mapM obj raws;
    let found := existsb (fun r => same_key r incoming) records in
    Some [("new_key", VBool (negb found)); ("accepted", VBool (negb found))]
  else if has i "terminal_commit_ms" then
    if SFleb (fadd (n "terminal_commit_ms") (fmul (float64_of_Z 1000) (n "result_ttl_seconds"))) (n "query_at_ms")
    then Some [("result", VNil); ("error", VString "NOP-TASK-RESULT-EXPIRED")]
    else Some [("result", VString "retained")]
  else if has i "result_expired_at_ms" then
    if SFltb (n "duplicate_at_ms") (fadd (n "result_expired_at_ms") (fmul (float64_of_Z 1000) (n "replay_tombstone_seconds")))
    then Some [("dispatch", VBool false); ("error", VString "NOP-TASK-RESULT-EXPIRED"); ("tombstone_retained", VBool true)]
    else Some [("dispatch", VBool true); ("tombstone_retained", VBool false)]
  else if has i "capacity" then
    raws ← arr (dict_at i "records"); records ← mapM obj raws; Some (admit_record (n "capacity") records)
  else if has i "committed" then
    c ← obj (dict_at i "committed");
    Some [("state", dict_at c "state"); ("late_event", VString "audit_only"); ("ttl_extended", VBool false)]
  else if has i "min_required" then
    raws ← arr (dict_at i "results"); results ← scored raws;
    match results with
    | None => Some [("error", VString "NOP-AGGREGATION-INVALID")]
    | Some results => select results (n "min_required")
    end
  else if has i "topology_order" then
    raws ← arr (dict_at i "results"); by_ ← by_node [] raws; order ← arr (dict_at i "topology_order");
    agg ← aggregate by_ [] order;
    Some [("aggregated", VMap agg); ("inputs_mutated", VBool false)]
  else None.

Definition NOP (i : dict) : option dict :=
  match dict_get "recorded" i with
  | Some raw =>
      r ← obj raw;
      if String.eqb (str (dict_at r "digest")) (str (dict_at i "digest"))
      then Some [("state", dict_at r "state"); ("dispatch_count", VFloat64 (num (dict_at r "dispatch_count"))); ("replayed", VBool true)]
      else NOP_fresh i
  | None => NOP_fresh i
  end.
End Policy.
