(* ===== verification/Alpha19PolicyProof.v ===== *)
(** * What the policy decisions of alpha.19 decide

    The first decisive source of revocation, the leader of a cluster, the interval of
    keep-alives, leases, renewals, the records that make room, the best results. *)

From S2P Require Import Prelude GoValue GoSort GoFloat Alpha19Policy.

Section Proofs.
Context `{Runtime} `{UnstableSort}.

(** ** Revocation sources *)

Definition outcome (s : dict) : string := str (dict_at s "outcome").
Definition source (s : dict) : string := str (dict_at s "source").
Definition is_stale (now : Time) (s : dict) : bool := default false (stale now s).

(** A source that ends the walk: unknown whatever its age, or fresh with an answer. *)
Definition decisive (now : Time) (s : dict) : bool :=
  String.eqb (outcome s) "unknown" || negb (is_stale now s) && mem_string (outcome s) ["revoked"; "good"].

Definition consulted (l : list dict) : list any := (fun s => VString (source s)) <$> l.
Definition diagnostics (now : Time) (l : list dict) : list any :=
  (fun s => VString (source s +:+ "_stale")) <$> List.filter (is_stale now) l.

(** The answer after sources that decide nothing. *)
Definition verdict (mode : string) (now : Time) (before after : list dict) : dict :=
  match after with
  | [] => if String.eqb mode "required" then [("valid", VBool false); ("error", VString "NIP-REVOCATION-STATE-STALE")]
          else [("valid", VBool true); ("consulted_sources", VSlice (consulted before))]
  | s :: _ =>
      if String.eqb (outcome s) "unknown" then [("valid", VBool false); ("error", VString "NIP-OCSP-UNKNOWN")]
      else if String.eqb (outcome s) "revoked" then [("valid", VBool false); ("error", VString "NIP-CERT-REVOKED")]
      else [("valid", VBool true); ("consulted_sources", VSlice (consulted (before ++ [s])))] ++
           match diagnostics now before with [] => [] | d => [("diagnostics", VSlice d)] end
  end.

Lemma sources_decide mode now done sources :
  Forall (fun s => is_Some (stale now s)) sources ->
  exists before after, sources = before ++ after /\ Forall (fun s => decisive now s = false) before /\
    match after with [] => True | s :: _ => decisive now s = true end /\
    consult mode now (consulted done) (diagnostics now done) (VMap <$> sources) = Some (verdict mode now (done ++ before) after).
Proof.
  revert done. induction sources as [|s sources IH]; intros done Hs.
  { exists [], []. split_and!; [done|constructor|done|]. cbn. rewrite app_nil_r. by case_match. }
  apply Forall_cons_1 in Hs as [[st Hst] Hs]. rewrite fmap_cons. cbn [consult obj mbind option_bind].
  fold (source s) (outcome s). replace (consulted done ++ [VString (source s)]) with (consulted (done ++ [s])) by (unfold consulted; by rewrite fmap_app).
  assert (Hstop : decisive now s = true -> exists before after, s :: sources = before ++ after /\ Forall (fun s => decisive now s = false) before /\
    match after with [] => True | s :: _ => decisive now s = true end /\ before = [] /\ after = s :: sources).
  { intros Hd. by exists [], (s :: sources). }
  assert (Hskip : decisive now s = false -> (exists before after, sources = before ++ after /\ Forall (fun s => decisive now s = false) before /\
    match after with [] => True | s :: _ => decisive now s = true end /\
    consult mode now (consulted (done ++ [s])) (diagnostics now (done ++ [s])) (VMap <$> sources) = Some (verdict mode now ((done ++ [s]) ++ before) after)) ->
    exists before after, s :: sources = before ++ after /\ Forall (fun s => decisive now s = false) before /\
    match after with [] => True | s :: _ => decisive now s = true end /\
    consult mode now (consulted (done ++ [s])) (diagnostics now (done ++ [s])) (VMap <$> sources) = Some (verdict mode now (done ++ before) after)).
  { intros Hd (b & a & -> & Hb & Ha & E). exists (s :: b), a. rewrite <- app_assoc in E. split_and!; [done|by constructor|done|done]. }
  specialize (IH (done ++ [s]) Hs). assert (Hd : diagnostics now (done ++ [s]) =
    if st then diagnostics now done ++ [VString (source s +:+ "_stale")] else diagnostics now done).
  { unfold diagnostics. rewrite List.filter_app, fmap_app. cbn [List.filter]. unfold is_stale at 2. rewrite Hst. cbn. by destruct st; rewrite ?app_nil_r. }
  unfold decisive, is_stale in Hstop, Hskip. rewrite Hst in Hstop, Hskip |- *. cbn [default] in Hstop, Hskip. cbn [mbind option_bind].
  destruct (String.eqb (outcome s) "unknown") eqn:Eu.
  { destruct (Hstop eq_refl) as (b & a & ? & ? & ? & -> & ->). exists [], (s :: sources). split_and!; try done. cbn. by rewrite Eu. }
  destruct st; cbn [negb andb orb] in Hstop, Hskip; [rewrite Hd in IH, Hskip; by apply Hskip|].
  unfold mem_string in Hstop, Hskip. cbn [existsb] in Hstop, Hskip. rewrite !(String.eqb_sym _ (outcome s)) in Hstop, Hskip.
  destruct (String.eqb (outcome s) "revoked") eqn:Er.
  { destruct (Hstop eq_refl) as (b & a & ? & ? & ? & -> & ->). exists [], (s :: sources). split_and!; try done. cbn. by rewrite Eu, Er. }
  destruct (String.eqb (outcome s) "good") eqn:Eg.
  { destruct (Hstop eq_refl) as (b & a & ? & ? & ? & -> & ->). exists [], (s :: sources). split_and!; try done. cbn. rewrite Eu, Er.
    rewrite app_nil_r. by destruct (diagnostics now done). }
  rewrite Hd in IH, Hskip. by apply Hskip.
Qed.

(** The clock of a request; no time is the zero time, at which nothing is stale. *)
Definition clock (i : dict) : option Time := match dict_at i "now" with VNil => Some (MkTime 0 0) | v => parseTime (str v) end.

(** Revocation is decided by the first source that is decisive, and by the mode where
    none is: everything before it is listed as consulted and, where it was stale, as a
    diagnostic.  In particular an unknown outcome is never skipped, a revoked one only
    when it is stale, and no source after the decisive one has a say. *)
Theorem revocation_decides i now sources :
  has i "cached" = false -> clock i = Some now -> dict_at i "sources" = VSlice (VMap <$> sources) ->
  Forall (fun s => is_Some (stale now s)) sources ->
  exists before after, sources = before ++ after /\ Forall (fun s => decisive now s = false) before /\
    match after with [] => True | s :: _ => decisive now s = true end /\
    NIPRevocation i = Some (verdict (str (dict_at i "revocation_mode")) now before after).
Proof.
  intros Hc Hn Hsrc Hs. destruct (sources_decide (str (dict_at i "revocation_mode")) now [] sources Hs) as (b & a & ? & ? & ? & E).
  exists b, a. split_and!; [done..|]. unfold NIPRevocation. rewrite Hc. fold (clock i). rewrite Hn, Hsrc. exact E.
Qed.

(** ** Keep-alives *)

Lemma pair_elem {A} (x a b : A) : x ∈ [a; b] -> x = a \/ x = b.
Proof. set_solver. Qed.

Lemma offers_least a b :
  match List.filter (SFltb zero) [a; b] with
  | [] => True
  | first :: others =>
      let v := foldl (fun v n => if SFltb n v then n else v) first others in
      v ∈ [a; b] /\ SFltb zero v = true /\ forall x, x ∈ [a; b] -> SFltb zero x = true -> SFltb x v = false
  end.
Proof.
  assert (Hself : forall x, SFltb x x = false).
  { intros x. destruct (decide (x = S754_nan)) as [->|Hx]; [done|]. destruct (SFltb x x) eqn:E; [|done].
    apply SFltb_key in E; [|done..]. by apply key_lt_irrefl in E. }
  assert (Hnan : forall x, SFltb zero x = true -> x <> S754_nan) by (intros x Hx ->; done).
  cbn [List.filter]. destruct (SFltb zero a) eqn:Ea, (SFltb zero b) eqn:Eb; cbn [foldl]; try done.
  - destruct (SFltb b a) eqn:E.
    + split_and!; [set_solver|done|]. intros x [-> | ->]%pair_elem _; [|by apply Hself].
      destruct (SFltb a b) eqn:E'; [|done]. apply SFltb_key in E, E'; [|by apply Hnan..]. exfalso.
      eapply key_lt_irrefl. by eapply key_lt_trans.
    + split_and!; [set_solver|done|]. by intros x [-> | ->]%pair_elem _.
  - split_and!; [set_solver|done|]. intros x [-> | ->]%pair_elem Hx; [done|congruence].
  - split_and!; [set_solver|done|]. intros x [-> | ->]%pair_elem Hx; [congruence|done].
Qed.

(** Both ends compute one interval from the two offers, whoever made which: the least
    positive offer, raised to a second; without a positive offer there are no probes. *)
Theorem keepalive_agreed i a b :
  dict_get "client_ping_ms" i = Some a ->
  dict_at i "server_ping_ms" = b ->
  match List.filter (SFltb zero) [num a; num b] with
  | [] => NCP i = Some [("keepalive_enabled", VBool false); ("effective_interval_ms", VNil)]
  | _ => exists v, v ∈ [num a; num b] /\ SFltb zero v = true /\
           (forall x, x ∈ [num a; num b] -> SFltb zero x = true -> SFltb x v = false) /\
           NCP i = Some [("keepalive_enabled", VBool true);
             ("effective_interval_ms", VFloat64 (if SFltb v (float64_of_Z 1000) then float64_of_Z 1000 else v))]
  end /\
  keepalive (num a) (num b) = keepalive (num b) (num a).
Proof.
  intros Ha <-. assert (Hd : dict_at i "client_ping_ms" = a) by (unfold dict_at; by rewrite Ha).
  unfold NCP, has. rewrite Ha. cbv zeta beta. rewrite Hd. set (x := num a). set (y := num _).
  pose proof (offers_least x y) as Hxy. pose proof (offers_least y x) as Hyx. split.
  - unfold keepalive. destruct (List.filter (SFltb zero) [x; y]) as [|f l]; [done|]. destruct Hxy as (H1 & H2 & H3). by eexists.
  - assert (Hempty : List.filter (SFltb zero) [x; y] = [] <-> List.filter (SFltb zero) [y; x] = []).
    { cbn. destruct (SFltb zero x), (SFltb zero y); naive_solver. }
    unfold keepalive. destruct (List.filter (SFltb zero) [x; y]) as [|f l], (List.filter (SFltb zero) [y; x]) as [|g m];
      [done|by pose proof (proj1 Hempty eq_refl)|by pose proof (proj2 Hempty eq_refl)|].
    destruct Hxy as (H1 & H2 & H3), Hyx as (G1 & G2 & G3). cbv zeta. set (v := foldl _ f l) in *. set (w := foldl _ g m) in *.
    assert (v = w) as ->; [|done]. assert (Hv : v <> S754_nan) by (intros E; by rewrite E in H2). assert (Hw : w <> S754_nan) by (intros E; by rewrite E in G2).
    apply positive_key_inj; [done|]. destruct (key_lt_total (float_key v) (float_key w)) as [E|[E|E]]; [|done|]; exfalso.
    + apply SFltb_key in E; [|done..]. rewrite G3 in E; [done|set_solver|done].
    + apply SFltb_key in E; [|done..]. rewrite H3 in E; [done|set_solver|done].
Qed.

(** ** Leaders *)

Definition epoch (o : dict) : float64 := num (dict_at o "epoch").
Definition live (o : dict) : bool := boolean (dict_at o "live").

(** No live owner has a higher epoch. *)
Definition leading (owners : list dict) (o : dict) : bool :=
  live o && forallb (fun o' => implb (live o') (SFleb (epoch o') (epoch o))) owners.

Definition ordinary (f : float64) : Prop := f <> S754_nan /\ SFleb minus_max f = true.

Lemma live_owners_filter owners l top :
  live_owners l top (VMap <$> owners) =
  Some (l ++ List.filter live owners, foldl (fun t o => if SFltb t (epoch o) then epoch o else t) top (List.filter live owners)).
Proof.
  revert l top. induction owners as [|o owners IH]; intros l top; [cbn; by rewrite app_nil_r|]. rewrite fmap_cons. cbn [live_owners obj mbind option_bind List.filter].
  fold (live o) (epoch o). destruct (live o); rewrite IH; [|done]. by rewrite <- app_assoc.
Qed.

Lemma top_is_max l top : ordinary top -> Forall (fun o => ordinary (epoch o)) l ->
  let t := foldl (fun t o => if SFltb t (epoch o) then epoch o else t) top l in
  ordinary t /\ (t = top \/ t ∈ epoch <$> l) /\ SFleb top t = true /\ Forall (fun o => SFleb (epoch o) t = true) l.
Proof.
  revert top. induction l as [|o l IH]; intros top Ht Hl.
  { cbn. split_and!; [done|by left| |constructor]. apply SFleb_key; [apply Ht..|]. apply key_lt_irrefl. }
  apply Forall_cons_1 in Hl as [Ho Hl]. cbn [foldl]. set (t0 := if SFltb top (epoch o) then epoch o else top).
  assert (Ht0 : ordinary t0 /\ SFleb top t0 = true /\ SFleb (epoch o) t0 = true /\ (t0 = top \/ t0 = epoch o)).
  { destruct Ht as [Hn Hm], Ho as [Hno Hmo]. subst t0. destruct (SFltb top (epoch o)) eqn:E; split_and!; try done; auto; apply SFleb_key; try done; try apply key_lt_irrefl.
    - apply SFltb_key in E; [|done..]. intros E'. eapply key_lt_irrefl. by eapply key_lt_trans.
    - intros E'. apply SFltb_key in E'; [|done..]. congruence. }
  destruct Ht0 as (H1 & H2 & H3 & H4). destruct (IH t0 H1 Hl) as (G1 & G2 & G3 & G4). cbv zeta in *. set (t := foldl _ t0 l) in *.
  assert (Htr : forall x, ordinary x -> SFleb x t0 = true -> SFleb x t = true).
  { intros x [Hx _] Hle. destruct H1 as [H1 _], G1 as [G1 _]. apply SFleb_key in Hle, G3; try done. apply SFleb_key; [done..|]. intros Hlt.
    destruct (key_lt_total (float_key x) (float_key t0)) as [E|[E|E]]; [|by rewrite <- E in G3|done]. apply G3. by eapply key_lt_trans. }
  split_and!; [done| |by apply Htr|constructor; [by apply Htr|done]].
  destruct G2 as [->|G2]; [|right; rewrite fmap_cons; by right]. destruct H4 as [->| ->]; [by left|right; rewrite fmap_cons; by left].
Qed.

Lemma filter_twice {A} (f g : A -> bool) l : List.filter f (List.filter g l) = List.filter (fun x => g x && f x) l.
Proof. induction l as [|x l IH]; [done|]. cbn. destruct (g x); cbn; by rewrite IH. Qed.

Lemma leading_at_top owners o t :
  o ∈ owners -> live o = true -> Forall (fun o => live o = true -> ordinary (epoch o)) owners ->
  t = foldl (fun t o => if SFltb t (epoch o) then epoch o else t) minus_max (List.filter live owners) ->
  SFeqb (epoch o) t = forallb (fun o' => implb (live o') (SFleb (epoch o') (epoch o))) owners.
Proof.
  intros Ho Hl Hord ->. rewrite Forall_forall in Hord. destruct (top_is_max (List.filter live owners) minus_max) as (Gt & Gin & _ & Gmax).
  { split; [done|by vm_compute]. }
  { apply Forall_forall. intros x Hx. apply list_elem_of_In, filter_In in Hx as [Hx Hlx]. apply Hord; [by apply list_elem_of_In|done]. }
  cbv zeta in *. set (t := foldl _ _ _) in *. rewrite Forall_forall in Gmax. destruct (Hord o Ho Hl) as [Hn Hm], Gt as [Gn _].
  assert (Hin : forall x, x ∈ owners -> live x = true -> SFleb (epoch x) t = true).
  { intros x Hx Hlx. apply Gmax. apply list_elem_of_In, filter_In. split; [by apply list_elem_of_In|done]. }
  apply eq_true_iff_eq. rewrite SFeqb_key, forallb_forall by done. split.
  - intros Heq x Hx%list_elem_of_In. destruct (live x) eqn:Hlx; [|done]. cbn. destruct (Hord x Hx Hlx) as [Hnx _]. pose proof (Hin x Hx Hlx) as Hle.
    apply SFleb_key in Hle; [|done..]. apply SFleb_key; [done..|]. by rewrite Heq.
  - intros Hall. pose proof (Hin o Ho Hl) as Hle. apply SFleb_key in Hle; [|done..].
    assert (Hge : ~ key_lt (float_key (epoch o)) (float_key t)).
    { destruct Gin as [->|(x & -> & Hx)%list_elem_of_fmap]; [by apply SFleb_key|]. apply list_elem_of_In, filter_In in Hx as [Hx Hlx].
      specialize (Hall x Hx). rewrite Hlx in Hall. cbn in Hall. apply SFleb_key in Hall; [done| |done]. by apply Hord; [apply list_elem_of_In|]. }
    by destruct (key_lt_total (float_key (epoch o)) (float_key t)) as [|[]].
Qed.

Lemma elect_leading owners l t :
  List.filter (fun o => SFeqb (epoch o) t) l = List.filter (leading owners) owners ->
  elect l t = match List.filter (leading owners) owners with
              | [o] => [("resolved_nid", VString (str (dict_at o "nid")))]
              | _ => [("resolved_nid", VNil); ("error", VString "NDP-CLUSTER-SPLIT")]
              end.
Proof.
  intros E. unfold elect. fold epoch. change (fun o => SFeqb (num (dict_at o "epoch")) t) with (fun o => SFeqb (epoch o) t). rewrite E.
  pose proof (Permutation_length (sort_strings_perm ((fun o => str (dict_at o "nid")) <$> List.filter (leading owners) owners))) as Hlen.
  destruct (List.filter (leading owners) owners) as [|o [|o' l']]; cbv zeta.
  - by destruct (sort_strings _).
  - cbn [fmap list_fmap]. by rewrite (proj1 (Permutation_singleton_r _ _) (sort_strings_perm [_])).
  - destruct (sort_strings _) as [|x [|y m]]; done.
Qed.

(** A cluster has the leader that is alone with the highest epoch among the live owners,
    and otherwise none: two owners of one epoch are reported as a split. *)
Theorem leader_is_alone i owners :
  has i "commit" = false -> has i "now" = false -> has i "restored_highest_seq" = false ->
  dict_at i "owners" = VSlice (VMap <$> owners) ->
  Forall (fun o => live o = true -> ordinary (epoch o)) owners ->
  NDP i = Some match List.filter (leading owners) owners with
               | [o] => [("resolved_nid", VString (str (dict_at o "nid")))]
               | _ => [("resolved_nid", VNil); ("error", VString "NDP-CLUSTER-SPLIT")]
               end.
Proof.
  intros H1 H2 H3 Ho Hord. unfold NDP. rewrite H1, H2, H3, Ho. cbv zeta. assert (E : has i "owners" = true).
  { unfold has, dict_at in *. by destruct (dict_get "owners" i). }
  rewrite E. cbn [arr mbind option_bind]. rewrite live_owners_filter. cbn [mbind option_bind app]. f_equal. apply elect_leading.
  rewrite filter_twice. apply filter_ext_in. intros o Hin%list_elem_of_In. unfold leading. destruct (live o) eqn:Hl; [|done].
  cbn [andb]. by apply leading_at_top.
Qed.

(** ** The best results *)

Definition best_key (r : dict) : Z * Z * Z := float_key (num (dict_at r "score")).

(** By score, the highest first, then by node. *)
Definition rank : relation dict :=
  by_key (fun r => - (best_key r).1.1) (by_key (fun r => - (best_key r).1.2) (by_key (fun r => - (best_key r).2)
    (by_text (fun r => str (dict_at r "node_id")) (fun _ _ => True)))).

#[local] Instance rank_total : Total rank.
Proof. unfold rank. apply by_key_total, by_key_total, by_key_total, by_text_total. intros a b. by left. Qed.
#[local] Instance rank_trans : Transitive rank.
Proof. unfold rank. apply by_key_trans, by_key_trans, by_key_trans, by_text_trans. by intros a b c. Qed.

Definition rated (r : dict) : Prop := num (dict_at r "score") <> S754_nan.

Lemma better_rank x y : rated x -> rated y -> better x y = true <-> ~ rank y x.
Proof.
  intros Hx Hy. unfold better, rank, by_key, by_text, best_key. cbv zeta. pose proof (SFeqb_key _ _ Hx Hy) as Heq. pose proof (SFltb_key _ _ Hy Hx) as Hlt.
  destruct (SFeqb _ _) eqn:E.
  - rewrite (proj1 Heq eq_refl). rewrite text_ltb_le. split.
    + intros Hn Hr. apply Hn. destruct Hr as [|[_ [|[_ [|[_ [[_ Hle]|[Hs _]]]]]]]]; [lia..|exact Hle|]. by rewrite Hs.
    + intros Hn Hle. apply Hn. right. split; [done|]. right. split; [done|]. right. split; [done|].
      destruct (decide (str (dict_at y "node_id") = str (dict_at x "node_id"))); auto.
  - assert (Hne : float_key (num (dict_at x "score")) <> float_key (num (dict_at y "score"))) by (intros E'; by apply Heq in E').
    rewrite Hlt. destruct (float_key (num (dict_at x "score"))) as [[a b] c], (float_key (num (dict_at y "score"))) as [[a' b'] c']. unfold key_lt. cbn [fst snd]. split.
    + intros Hk. intros [|[? [|[? [|[? _]]]]]]; lia.
    + intros Hn. destruct (Z.lt_trichotomy a' a) as [|[->|]]; [auto| |exfalso; apply Hn; left; lia].
      destruct (Z.lt_trichotomy b' b) as [|[->|]]; [auto| |exfalso; apply Hn; right; split; [lia|]; left; lia].
      destruct (Z.lt_trichotomy c' c) as [|[->|]]; [auto|done|exfalso; apply Hn; right; split; [lia|]; right; split; [lia|]; left; lia].
Qed.

Lemma rank_antisym x y : rank x y -> rank y x -> float_key (num (dict_at x "score")) = float_key (num (dict_at y "score")) /\
  str (dict_at x "node_id") = str (dict_at y "node_id").
Proof.
  unfold rank, by_key, by_text, best_key. destruct (float_key (num (dict_at x "score"))) as [[a b] c], (float_key (num (dict_at y "score"))) as [[a' b'] c'].
  cbn [fst snd]. intros Hxy Hyx. assert (a = a') as <- by (destruct Hxy as [|[]], Hyx as [|[]]; lia).
  assert (b = b') as <- by (destruct Hxy as [|[_ [|[]]]], Hyx as [|[_ [|[]]]]; lia).
  assert (c = c') as <- by (destruct Hxy as [|[_ [|[_ [|[]]]]]], Hyx as [|[_ [|[_ [|[]]]]]]; lia). split; [done|].
  destruct Hxy as [|[_ [|[_ [|[_ [[Hn Hle]|[? _]]]]]]]]; [lia..| |done]. destruct Hyx as [|[_ [|[_ [|[_ [[_ Hle']|[? _]]]]]]]]; [lia..| |done].
  by destruct Hn, (anti_symm String.le (str (dict_at x "node_id")) (str (dict_at y "node_id"))).
Qed.

Lemma better_weak l : Forall rated l -> weak_order better l.
Proof.
  intros Hl. rewrite Forall_forall in Hl. split.
  - intros a Ha. destruct (better a a) eqn:E; [|done]. apply better_rank in E; [|auto..]. destruct E. destruct (total rank a a); done.
  - intros a b c Ha Hb Hc H1 H2. apply better_rank in H1, H2; [|auto..]. apply better_rank; [auto..|]. intros Hca.
    destruct (total rank b c) as [Hbc|]; [|done]. apply H1. by trans c.
  - intros a b c Ha Hb Hc H1 H2. destruct (better a c) eqn:E; [|done]. apply better_rank in E; [|auto..]. exfalso.
    assert (Hba : ~ ~ rank b a) by (intros Hn; apply better_rank in Hn; [congruence|auto..]).
    assert (Hcb : ~ ~ rank c b) by (intros Hn; apply better_rank in Hn; [congruence|auto..]).
    apply Hba. intros Hba'. apply Hcb. intros Hcb'. apply E. by trans b.
Qed.

Lemma score_rated r : is_Some (score r) -> rated r.
Proof. unfold score, rated, num. destruct (dict_at r "score") as [| | | |[]| | | | | | | |]; cbn; by intros [? [=]]. Qed.

(** The results are objects with finite scores. *)
Lemma scored_exact raws :
  match scored raws with
  | Some (Some l) => raws = VMap <$> l /\ Forall (fun r => is_Some (score r)) l
  | Some None => exists r, r ∈ raws /\ (r = VNil \/ exists m, r = VMap m /\ score m = None)
  | None => exists r, r ∈ raws /\ obj r = None
  end.
Proof.
  induction raws as [|raw raws IH]; [done|]. cbn [scored]. destruct (obj raw) as [m|] eqn:Eo; cbn [mbind option_bind]; [|exists raw; split; [by left|done]].
  destruct (score m) as [x|] eqn:Es.
  - destruct (scored raws) as [[l|]|]; cbn.
    + destruct IH as [-> Hl]. destruct raw; try done; cbn in Eo; injection Eo as <-; [done|].
      split; [done|]. constructor; [by eexists|done].
    + destruct IH as (r & Hr & H'). exists r. split; [by right|done].
    + destruct IH as (r & Hr & H'). exists r. split; [by right|done].
  - exists raw. split; [by left|]. destruct raw; try done; [by left|]. cbn in Eo. injection Eo as <-. right. by eexists.
Qed.

Lemma take_beats l n x y : StronglySorted (fun a b => better b a = false) l -> x ∈ take n l -> y ∈ drop n l -> better y x = false.
Proof.
  intros Hs. revert n. induction Hs as [|a l _ IH Ha]; intros n Hx Hy; [by rewrite take_nil in Hx; apply not_elem_of_nil in Hx|].
  destruct n as [|n]; [by apply not_elem_of_nil in Hx|]. cbn in Hx, Hy. apply elem_of_cons in Hx as [->|Hx]; [|by eapply IH].
  rewrite Forall_forall in Ha. apply Ha. rewrite <- (take_drop n l). apply elem_of_app. by right.
Qed.

(** [min_required] of the results are selected where there are enough: they are results,
    none that is left out is better than one that is taken.  A number beyond the
    capacity of the slice, or below zero, panics; a score that is no finite number is
    refused. *)
Theorem best_are_selected i results n :
  has i "recorded" = false -> has i "recorded_digest" = false -> has i "incoming" = false -> has i "terminal_commit_ms" = false ->
  has i "result_expired_at_ms" = false -> has i "capacity" = false -> has i "committed" = false -> has i "min_required" = true ->
  dict_at i "results" = VSlice (VMap <$> results) -> n = int64_of_float (num (dict_at i "min_required")) ->
  if forallb (fun r => bool_decide (is_Some (score r))) results then
    (0 <= n <= Z.of_nat (length results) -> exists taken left,
      taken ++ left ≡ₚ results /\ length taken = Z.to_nat n /\ (forall x y, x ∈ taken -> y ∈ left -> better y x = false) /\
      NOP i = Some [("selected_node_ids", VSlice ((fun r => dict_at r "node_id") <$> taken))]) /\
    (n < 0 \/ Z.of_nat (append_cap (length results)) < n -> NOP i = None)
  else NOP i = Some [("error", VString "NOP-AGGREGATION-INVALID")].
Proof.
  intros H1 H2 H3 H4 H5 H6 H7 H8 Hr Hn. unfold NOP. assert (Hrec : dict_get "recorded" i = None) by (unfold has in H1; by destruct (dict_get "recorded" i)).
  rewrite Hrec. unfold NOP_fresh. rewrite H2, H3, H4, H5, H6, H7, H8, Hr. cbn [arr mbind option_bind].
  assert (Hs : scored (VMap <$> results) = Some (if forallb (fun r => bool_decide (is_Some (score r))) results then Some results else None)).
  { clear. induction results as [|r results IH]; [done|]. rewrite fmap_cons. cbn [scored obj mbind option_bind forallb].
    destruct (score r) eqn:E; [|done]. rewrite IH. rewrite bool_decide_eq_true_2 by (by eexists). cbn. by destruct (forallb _ _). }
  rewrite Hs. cbn [mbind option_bind]. destruct (forallb _ results) eqn:Hall; [|done].
  assert (Hrated : Forall rated results).
  { apply Forall_forall. intros r Hin. apply score_rated. rewrite forallb_forall in Hall. apply (bool_decide_eq_true _), Hall. by apply list_elem_of_In. }
  pose proof (Slice_perm _ better results) as Hp. pose proof (Slice_sorted _ better results (better_weak _ Hrated)) as Hsort.
  unfold select, slice_to. rewrite <- Hn, (Permutation_length Hp). split.
  - intros [Hn0 Hnl]. pose proof (append_cap_le (length results)). exists (take (Z.to_nat n) (Slice better results)), (drop (Z.to_nat n) (Slice better results)).
    split_and!.
    + by rewrite take_drop.
    + rewrite length_take, (Permutation_length Hp). lia.
    + intros x y. by apply take_beats.
    + rewrite option_guard_True by (apply andb_true_iff; rewrite !Z.leb_le; lia). cbn [mbind option_bind].
      replace (Z.to_nat n - length results)%nat with 0%nat by lia. by rewrite app_nil_r.
  - intros Hout. rewrite option_guard_False; [done|]. rewrite andb_true_iff, !Z.leb_le. lia.
Qed.

(** When nodes report once, the selection does not depend on the order in which the
    results arrived. *)
Lemma selection_order results results' n :
  Forall rated results -> NoDup ((fun r => str (dict_at r "node_id")) <$> results) -> results ≡ₚ results' ->
  select results n = select results' n.
Proof.
  intros Hr Hn Hp. unfold select. erewrite (slice_proper better results results'); [done|by apply better_weak| |done].
  intros a b Ha Hb Ht. unfold tied in Ht. apply andb_true_iff in Ht as [H1%negb_true_iff H2%negb_true_iff]. rewrite Forall_forall in Hr.
  assert (E : str (dict_at a "node_id") = str (dict_at b "node_id")).
  { destruct (decide (str (dict_at a "node_id") = str (dict_at b "node_id"))) as [|E]; [done|].
    destruct (total rank a b) as [Hle|Hle].
    - assert (better a b = true) by (apply better_rank; [auto..|]; intros Hba; by apply E, rank_antisym). congruence.
    - assert (better b a = true) by (apply better_rank; [auto..|]; intros Hab; by apply E, rank_antisym). congruence. }
  apply list_elem_of_lookup in Ha as [j Ha], Hb as [k Hb].
  assert (j = k) as <- by (eapply (NoDup_lookup _ j k _ Hn); rewrite list_lookup_fmap; [by rewrite Ha|by rewrite Hb, E]). congruence.
Qed.
End Proofs.

(** ** Leases and records *)

Section Leases.
Context `{Runtime}.

(** A granted lease is above zero and at most the maximum; it ends that many seconds
    after the request was accepted, as long as the nanoseconds fit 64 bits. *)
Lemma lease_granted p r at_ t out :
  open_lease p r at_ = Some out -> parseTime at_ = Some t -> dict_get "accepted" out = None ->
  exists lease e, dict_get "lease_seconds" out = Some (VFloat64 lease) /\
    SFleb lease zero = false /\ SFltb (num (dict_at p "max_lease_seconds")) lease = false /\
    dict_get "expires_at" out = Some (VString (time_Format (MkTime e (zone t)))) /\
    (- 9223372036 <= int64_of_float lease <= 9223372036 -> e = instant t + int64_of_float lease * 1000000000).
Proof.
  unfold open_lease, lease_invalid, refused. cbv zeta. set (def := num (dict_at p "default_lease_seconds")). set (max := num (dict_at p "max_lease_seconds")).
  destruct (SFleb def zero); [intros Ho _ Hx; by rewrite <- (Some_inj _ _ Ho) in Hx|]. destruct (SFleb max zero) eqn:Em; [intros Ho _ Hx; by rewrite <- (Some_inj _ _ Ho) in Hx|].
  destruct (SFltb max def); [intros Ho _ Hx; by rewrite <- (Some_inj _ _ Ho) in Hx|]. destruct (SFleb max (num (dict_at p "renew_before_seconds"))); [intros Ho _ Hx; by rewrite <- (Some_inj _ _ Ho) in Hx|]. cbn [orb].
  set (lease := match dict_get "lease_seconds" r with Some v => num v | None => def end).
  destruct (SFleb lease zero) eqn:El; [intros Ho _ Hx; by rewrite <- (Some_inj _ _ Ho) in Hx|]. intros Ho Ht _. rewrite Ht in Ho. cbn [mbind option_bind] in Ho. injection Ho as <-.
  set (l := if SFltb max lease then max else lease). exists l, (instant t + i64 (int64_of_float l * 1000000000)). split_and!; [done| | |done|].
  - unfold l. by destruct (SFltb max lease).
  - unfold l. destruct (SFltb max lease) eqn:E; [|done]. destruct (SFltb max max) eqn:E'; [|done].
    assert (Hn : max <> S754_nan) by (intros Hm; by rewrite Hm in E). apply SFltb_key in E'; [|done..]. by apply key_lt_irrefl in E'.
  - intros Hl. rewrite wraps_small; [done|lia|]. change (64 - 1) with 63. lia.
Qed.

(** Beyond that the product wraps around: a lease of 2^34 seconds, within its policy,
    ends before it was granted. *)
Lemma lease_wraps at_ t : parseTime at_ = Some t ->
  let p := [("default_lease_seconds", Float (2 ^ 34)); ("max_lease_seconds", Float (2 ^ 34))] in
  exists out e, open_lease p [] at_ = Some out /\ e < instant t /\ dict_get "expires_at" out = Some (VString (time_Format (MkTime e (zone t)))).
Proof.
  intros Ht p. assert (Hp : exists lease, int64_of_float lease = 2 ^ 34 /\
    open_lease p [] at_ = Some [("lease_seconds", VFloat64 lease); ("expires_at", VString (add_lease t lease)); ("status", VString "open")]).
  { exists (float64_of_Z (2 ^ 34)). split; [by vm_compute|]. unfold open_lease. rewrite Ht.
    replace (num (dict_at p "default_lease_seconds")) with (float64_of_Z (2 ^ 34)) by done.
    replace (num (dict_at p "max_lease_seconds")) with (float64_of_Z (2 ^ 34)) by done.
    replace (num (dict_at p "renew_before_seconds")) with zero by done. cbn [dict_get assoc_get mbind option_bind].
    replace (SFleb (float64_of_Z (2 ^ 34)) zero) with false by done. by replace (SFltb (float64_of_Z (2 ^ 34)) (float64_of_Z (2 ^ 34))) with false by done. }
  destruct Hp as (lease & Hl & ->). unfold add_lease. rewrite Hl.
  replace (i64 (2 ^ 34 * 1000000000)) with (-1266874889709551616) by reflexivity.
  eexists _, (instant t + -1266874889709551616). split_and!; [done|lia|done].
Qed.

(** A record is refused exactly when the capacity is reached by running tasks; a running
    one is never evicted. *)
Lemma admission_exact capacity records :
  let full := SFleb capacity (float64_of_Z (Z.of_nat (length records))) in
  let running := fun r => String.eqb (str (dict_at r "state")) "running" in
  match admit_record capacity records with
  | [("accepted", VBool true); ("evicted", VSlice l)] =>
      (full = false \/ exists r, r ∈ records /\ running r = false) /\
      forall k, k ∈ l -> exists r, r ∈ records /\ running r = false /\ k = dict_at r "key"
  | out => full = true /\ (forall r, r ∈ records -> running r = true) /\ dict_get "error" out = Some (VString "NOP-REPLAY-LIMIT")
  end.
Proof.
  intros full running. unfold admit_record. fold full. change (fun r => negb (String.eqb _ _)) with (fun r => negb (running r)).
  destruct (List.filter (fun r => negb (running r)) records) as [|r l] eqn:E.
  - assert (Hall : forall r, r ∈ records -> running r = true).
    { intros r Hr. destruct (running r) eqn:Er; [done|]. assert (Hin : In r (List.filter (fun r => negb (running r)) records)).
      { apply filter_In. rewrite Er. split; [by apply list_elem_of_In|done]. } by rewrite E in Hin. }
    destruct full; cbn; [done|]. split; [by left|]. by intros k ?%not_elem_of_nil.
  - assert (Hr : r ∈ records /\ running r = false).
    { assert (Hin : In r (List.filter (fun r => negb (running r)) records)) by (rewrite E; by left). apply filter_In in Hin as [Hin Hn%negb_true_iff].
      split; [by apply list_elem_of_In|done]. }
    rewrite andb_false_r. cbn. destruct Hr as [Hr Hn]. split; [right; by exists r|]. intros k ->%list_elem_of_singleton. by exists r.
Qed.

(** A record is evicted although there is room for two more. *)
Lemma evicts_with_room :
  admit_record (float64_of_Z 3) [[("key", VString "k"); ("state", VString "done")]] =
  [("accepted", VBool true); ("evicted", VSlice [VString "k"])].
Proof. by vm_compute. Qed.
End Leases.

(** ** Instances *)

(** Times as decimal seconds. *)
Definition toy_runtime : Runtime := {|
  Sprint := fun _ => "?"; Sscan := fun _ => zero;
  time_Parse := fun s => n ← parse_digits s 0; Some (MkTime (n * 1000000000) 0);
  time_Format := fun t => FormatUint (instant t / 1000000000);
  append_cap := fun n => n; append_cap_le := fun n => Nat.le_refl n |}.

(** A stale revocation, then a fresh good answer; what follows has no say. *)
Lemma revocation_decides_witness :
  let H := toy_runtime in
  let s1 := [("source", VString "crl"); ("outcome", VString "revoked"); ("next_update", VString "90")] in
  let s2 := [("source", VString "ocsp"); ("outcome", VString "good"); ("next_update", VString "200")] in
  let s3 := [("source", VString "staple"); ("outcome", VString "revoked")] in
  exists before after, [s1; s2; s3] = before ++ after /\ Forall (fun s => decisive (MkTime 100000000000 0) s = false) before /\
    match after with [] => True | s :: _ => decisive (MkTime 100000000000 0) s = true end /\
    NIPRevocation [("now", VString "100"); ("sources", VSlice (VMap <$> [s1; s2; s3]))] =
      Some (verdict "" (MkTime 100000000000 0) before after).
Proof.
  intros H s1 s2 s3. apply (revocation_decides [("now", VString "100"); ("sources", VSlice (VMap <$> [s1; s2; s3]))]); try done.
  repeat constructor; by eexists.
Defined.

Lemma leader_is_alone_witness :
  let H := toy_runtime in
  let o n e := [("nid", VString n); ("live", VBool true); ("epoch", Float e)] in
  let owners := [o "a" 3; o "b" 5; [("nid", VString "c"); ("epoch", Float 9)]] in
  NDP [("owners", VSlice (VMap <$> owners))] =
  Some match List.filter (leading owners) owners with
       | [o] => [("resolved_nid", VString (str (dict_at o "nid")))]
       | _ => [("resolved_nid", VNil); ("error", VString "NDP-CLUSTER-SPLIT")]
       end.
Proof.
  intros H o owners. apply (leader_is_alone [("owners", VSlice (VMap <$> owners))] owners); try done.
  repeat constructor; try (by intros [=]); by vm_compute.
Defined.

Lemma keepalive_agreed_witness :
  let H := toy_runtime in
  exists v, v ∈ [float64_of_Z 500; float64_of_Z 2000] /\ SFltb zero v = true /\
    (forall x, x ∈ [float64_of_Z 500; float64_of_Z 2000] -> SFltb zero x = true -> SFltb x v = false) /\
    NCP [("client_ping_ms", Float 500); ("server_ping_ms", Float 2000)] =
      Some [("keepalive_enabled", VBool true); ("effective_interval_ms", VFloat64 (if SFltb v (float64_of_Z 1000) then float64_of_Z 1000 else v))].
Proof.
  intros H. exact (proj1 (keepalive_agreed [("client_ping_ms", Float 500); ("server_ping_ms", Float 2000)] (Float 500) (Float 2000) eq_refl eq_refl)).
Defined.

(** Two of three; ties by node. *)
Lemma best_are_selected_witness :
  let H := toy_runtime in
  let r n s := [("node_id", VString n); ("score", Float s)] in
  let results := [r "c" 7; r "a" 2; r "b" 7] in
  exists taken left, taken ++ left ≡ₚ results /\ length taken = 2%nat /\ (forall x y, x ∈ taken -> y ∈ left -> better y x = false) /\
    NOP [("min_required", Float 2); ("results", VSlice (VMap <$> results))] = Some [("selected_node_ids", VSlice ((fun r => dict_at r "node_id") <$> taken))].
Proof.
  intros H r results.
  pose proof (best_are_selected [("min_required", Float 2); ("results", VSlice (VMap <$> results))] results 2 eq_refl eq_refl eq_refl eq_refl eq_refl
    eq_refl eq_refl eq_refl eq_refl eq_refl) as B.
  replace (forallb _ results) with true in B by (by vm_compute). apply (proj1 B). cbn. lia.
Defined.
