(* ===== verification/Alpha20Features.v ===== *)
(** * The feature wire of alpha.20

    alpha20/feature_wire_parser.go: the parser of a native feature offer (JSON) and of
    the HTTP header of required features.  The code panics with one value where the
    syntax is wrong and recovers it as one error, so a parser is an [option].

    [json.Decoder] is a parameter: the tokens that [Token] returns until it fails, and
    whether it failed with [io.EOF].  [More] is then the test for a token that is not a
    closing delimiter. *)

From S2P Require Import Prelude GoValue GoUtf8.

Definition ErrNativeFeatureInvalid : string := "NCP-FEATURE-NEGOTIATION-INVALID".
Definition ErrHTTPFeatureInvalid : string := "NWP-FEATURE-REQUIREMENTS-INVALID".

Record FeatureRevision : Type := MkRevision { fr_Revision : Z; fr_Lifecycle : string }.
Record FeatureSelection : Type := MkSelection { fs_ID : string; fs_Revision : Z }.
Record FeatureOffer : Type := MkOffer { features : gmap string (list FeatureRevision); required : list string }.

Definition need (ok : bool) : option unit := if ok then Some tt else None.

(** ** Names and numbers *)

Definition is_lower (c : Ascii.ascii) : bool := (97 <=? char_z c) && (char_z c <=? 122).
Definition is_digit (c : Ascii.ascii) : bool := (48 <=? char_z c) && (char_z c <=? 57).
Definition head_char (c : Ascii.ascii) : bool := is_lower c || is_digit c.
Definition tail_char (c : Ascii.ascii) : bool := head_char c || (char_z c =? 95) || (char_z c =? 45).

(** A lower-case letter, then characters of a class. *)
Definition part_ok (class : Ascii.ascii -> bool) (s : string) : bool :=
  match s with String c r => is_lower c && str_forall class r | EmptyString => false end.

(** [idPattern]: parts between dots, at least two. *)
Definition idPattern (s : string) : bool :=
  match split_on dot s with
  | first :: ((_ :: _) as others) => part_ok head_char first && forallb (part_ok tail_char) others
  | _ => false
  end.

Definition name_ok (id : string) : bool := (str_len id <=? 96) && idPattern id.

Definition name (value : any) : option string :=
  match value with VString id => _ ← need (name_ok id); Some id | _ => None end.

(** [digitsPattern]: one to five digits, the first not zero. *)
Definition digitsPattern (s : string) : bool :=
  match s with
  | String c r => is_digit c && negb (char_z c =? 48) && str_forall is_digit r && (String.length r <=? 4)%nat
  | EmptyString => false
  end.

(** [strconv.ParseUint(value, 10, 16)] of what the pattern accepts. *)
Definition integer (value : string) : option Z :=
  _ ← need (digitsPattern value);
  n ← parse_digits value 0;
  _ ← need (n <? 2 ^ 16);
  Some n.

(** ** Objects and arrays *)

Definition members (value : any) (allowed : list string) : option dict :=
  match value with
  | VMap object => _ ← need (forallb (fun kv => mem_string kv.1 allowed) object); Some object
  | _ => None
  end.

Definition array (value : any) (minimum maximum : nat) : option (list any) :=
  match value with
  | VSlice items => _ ← need ((minimum <=? length items)%nat && (length items <=? maximum)%nat); Some items
  | _ => None
  end.

(** ** Escapes *)

Definition hex16 (c : Ascii.ascii) : option Z :=
  let z := char_z c in
  if (48 <=? z) && (z <=? 57) then Some (z - 48)
  else if (97 <=? z) && (z <=? 102) then Some (z - 87)
  else if (65 <=? z) && (z <=? 70) then Some (z - 55) else None.

(** Four hexadecimal digits, and what follows them. *)
Definition four_hex (s : string) : option (Z * string) :=
  match s with
  | String a (String b (String c (String d r))) =>
      x ← hex16 a; y ← hex16 b; z ← hex16 c; w ← hex16 d; Some (((x * 16 + y) * 16 + z) * 16 + w, r)
  | _ => None
  end.

(** The escape after [\u]: a code that is no lone surrogate, and what follows. *)
Definition unicode_escape (s : string) : option string :=
  '(code, r) ← four_hex s;
  _ ← need ((code <? 0xdc00) || (0xdfff <? code));
  if (0xd800 <=? code) && (code <=? 0xdbff) then
    match r with
    | String a (String b r') =>
        _ ← need (Ascii.eqb a (chr 92) && Ascii.eqb b (chr 117));
        '(low, r') ← four_hex r';
        _ ← need ((0xdc00 <=? low) && (low <=? 0xdfff));
        Some r'
    | _ => None
    end
  else Some r.

(** The scan; every step drops at least one byte. *)
Fixpoint scan_escapes (fuel : nat) (inString : bool) (s : string) : option unit :=
  match fuel, s with
  | _, EmptyString => Some tt
  | O, _ => None
  | S f, String c r =>
      if Ascii.eqb c (chr 34) then scan_escapes f (negb inString) r
      else if negb inString || negb (Ascii.eqb c (chr 92)) then scan_escapes f inString r
      else match r with
           | EmptyString => None
           | String e r => if negb (Ascii.eqb e (chr 117)) then scan_escapes f inString r
                           else r ← unicode_escape r; scan_escapes f inString r
           end
  end.

Definition strictUnicode (raw : string) : option unit :=
  _ ← need (valid_utf8 (String.length raw) raw); scan_escapes (String.length raw) false raw.

(** ** Values *)

Inductive json_token : Type :=
| TDelim (c : Ascii.ascii) | TString (s : string) | TNumber (lit : string) | TBool (b : bool) | TNull.

Definition open_brace : Ascii.ascii := chr 123.
Definition close_brace : Ascii.ascii := chr 125.
Definition open_bracket : Ascii.ascii := chr 91.
Definition close_bracket : Ascii.ascii := chr 93.

(** Every call takes a token. *)
Fixpoint readValue (fuel : nat) (depth : Z) (ts : list json_token) : option (any * list json_token) :=
  match fuel with
  | O => None
  | S f =>
      _ ← need (depth <=? 64);
      match ts with
      | [] => None
      | TDelim c :: ts =>
          if Ascii.eqb c open_brace then readMembers f depth [] ts
          else if Ascii.eqb c open_bracket then readItems f depth [] ts
          else None
      | TNumber lit :: ts => n ← integer lit; Some (VInt KUint16 n, ts)
      | TString s :: ts => Some (VString s, ts)
      | TBool b :: ts => Some (VBool b, ts)
      | TNull :: ts => Some (VNil, ts)
      end
  end
with readMembers (fuel : nat) (depth : Z) (object : dict) (ts : list json_token) : option (any * list json_token) :=
  match fuel with
  | O => None
  | S f =>
      match ts with
      | TDelim c :: ts => if Ascii.eqb c close_brace then Some (VMap object, ts) else None
      | TString key :: ts =>
          _ ← need (negb (mem_string key object.*1));
          '(value, ts) ← readValue f (depth + 1) ts;
          readMembers f depth (object ++ [(key, value)]) ts
      | _ => None
      end
  end
with readItems (fuel : nat) (depth : Z) (items : list any) (ts : list json_token) : option (any * list json_token) :=
  match fuel with
  | O => None
  | S f =>
      let more := '(value, rest) ← readValue f (depth + 1) ts; readItems f depth (items ++ [value]) rest in
      match ts with
      | [] => None
      | TDelim c :: rest =>
          if Ascii.eqb c close_bracket then Some (VSlice items, rest)
          else if Ascii.eqb c close_brace then None else more
      | _ => more
      end
  end.

Definition value_fuel (ts : list json_token) : nat := S (2 * length ts).

(** ** Offers *)

Definition lifecycles : list string := ["experimental"; "stable"; "deprecated"].

Fixpoint read_revisions (last : Z) (items : list any) : option (list FeatureRevision) :=
  match items with
  | [] => Some []
  | value :: items =>
      entry ← members value ["revision"; "lifecycle"];
      match dict_at entry "revision", dict_at entry "lifecycle" with
      | VInt KUint16 revision, VString lifecycle =>
          _ ← need (last <? revision);
          _ ← need (mem_string lifecycle lifecycles);
          rest ← read_revisions revision items;
          Some (MkRevision revision lifecycle :: rest)
      | _, _ => None
      end
  end.

Fixpoint read_offer (offer : gmap string (list FeatureRevision)) (items : list any) : option (gmap string (list FeatureRevision)) :=
  match items with
  | [] => Some offer
  | value :: items =>
      item ← members value ["id"; "revisions"];
      id ← name (dict_at item "id");
      _ ← need (negb (bool_decide (is_Some (offer !! id))));
      entries ← array (dict_at item "revisions") 1 16;
      revisions ← read_revisions 0 entries;
      read_offer (<[id := revisions]> offer) items
  end.

Fixpoint read_required (offer : gmap string (list FeatureRevision)) (seen : list string) (items : list any) : option (list string) :=
  match items with
  | [] => Some []
  | value :: items =>
      id ← name value;
      _ ← need (bool_decide (is_Some (offer !! id)) && negb (mem_string id seen));
      rest ← read_required offer (id :: seen) items;
      Some (id :: rest)
  end.

Definition block_members : list string := ["feature_negotiation"; "feature_offer"; "required_features"].

(** An optional array of at most 32 elements. *)
Definition optional_array (block : dict) (key : string) : option (list any) :=
  match dict_get key block with None => Some [] | Some value => array value 0 32 end.

Definition is_one (v : any) : bool := match v with VInt KUint16 n => n =? 1 | _ => false end.

(** The block as a value. *)
Definition parse_block (value : any) : option FeatureOffer :=
  block ← members value block_members;
  _ ← need (match block with [] => true | _ => is_one (dict_at block "feature_negotiation") end);
  items ← optional_array block "feature_offer";
  offer ← read_offer ∅ items;
  names ← optional_array block "required_features";
  required ← read_required offer [] names;
  Some (MkOffer offer required).

Section Offer.
Context (json_tokens : string -> list json_token * bool).

(** A failing [members] and a text that goes on after the block are one error, so their
    order does not show. *)
Definition parse_offer (raw : string) : option FeatureOffer :=
  _ ← need (str_len raw <=? 16384);
  _ ← strictUnicode raw;
  let '(ts, eof) := json_tokens raw in
  '(value, rest) ← readValue (value_fuel ts) 0 ts;
  _ ← need (match rest with [] => eof | _ => false end);
  parse_block value.

Definition ParseFeatureOffer (raw : string) : result string FeatureOffer :=
  match parse_offer raw with Some offer => Ok offer | None => Err ErrNativeFeatureInvalid end.
End Offer.

(** ** The header *)

Fixpoint read_pairs (previous : string) (pairs : list string) : option (list FeatureSelection) :=
  match pairs with
  | [] => Some []
  | p :: pairs =>
      match split_on (chr 61) p with
      | [key; value] =>
          id ← name (VString key);
          _ ← need (String.ltb previous id);
          revision ← integer value;
          rest ← read_pairs id pairs;
          Some (MkSelection id revision :: rest)
      | _ => None
      end
  end.

Definition parse_header (instances : list string) : option (list FeatureSelection) :=
  match instances with
  | [] => Some []
  | [raw] =>
      _ ← need (str_len raw <=? 4096);
      _ ← need (str_forall (fun c => char_z c <=? 127) raw);
      let pairs := split_on (chr 44) raw in
      _ ← need (length pairs <=? 32)%nat;
      read_pairs "" pairs
  | _ => None
  end.

Definition ParseRequiredFeatureHeader (instances : list string) : result string (list FeatureSelection) :=
  match parse_header instances with Some l => Ok l | None => Err ErrHTTPFeatureInvalid end.
