(* ===== verification/Alpha20FeaturesProof.v ===== *)
(** * What the feature parsers accept

    The header parser is the inverse of a printer on well-formed selections; an offer
    that is accepted is well formed; the reader of values ends, refuses duplicate keys
    and numbers that are not revisions. *)

From S2P Require Import Prelude GoValue GoUtf8 Alpha20Features.

Lemma need_Some b : need b = Some tt <-> b = true.
Proof. by destruct b. Qed.

Lemma need_bind {A} b (k : option A) x : (need b ≫= fun _ => k) = Some x <-> b = true /\ k = Some x.
Proof. destruct b; cbn; naive_solver. Qed.

(** ** Numbers *)

Lemma is_digit_char c : is_digit c = true <-> exists d, char_digit c = Some d /\ 0 <= d < 10 /\ char_z c = d + 48.
Proof.
  unfold is_digit, char_digit. split.
  - intros E. rewrite E. apply andb_true_iff in E as [? ?]. bool_hyps. eexists. split; [reflexivity|]. lia.
  - intros (d & E & ? & ?). apply andb_true_iff. by rewrite !Z.leb_le; lia.
Qed.

Lemma char_digit_inj c c' d : char_digit c = Some d -> char_digit c' = Some d -> c = c'.
Proof.
  unfold char_digit. cbv zeta. intros H1 H2. case_match; [|done]. case_match; [|done]. simplify_eq.
  assert (E : char_z c = char_z c') by lia. unfold char_z in E. apply N2Z.inj in E.
  by rewrite <- (Ascii.ascii_N_embedding c), E, Ascii.ascii_N_embedding.
Qed.

Lemma parse_digits_bounds s a n : 0 <= a -> parse_digits s a = Some n ->
  a * 10 ^ Z.of_nat (String.length s) <= n < (a + 1) * 10 ^ Z.of_nat (String.length s).
Proof.
  revert a. induction s as [|c s IH]; intros a Ha; cbn [parse_digits String.length].
  - intros [= ->]. change (10 ^ Z.of_nat 0) with 1. lia.
  - destruct (char_digit c) as [d|] eqn:E; [|done]. unfold char_digit in E. cbv zeta in E. case_match; [|done]. bool_hyps. injection E as E.
    intros Hp. apply IH in Hp; [|lia]. rewrite Nat2Z.inj_succ, Z.pow_succ_r by lia.
    pose proof (Z.pow_pos_nonneg 10 (Z.of_nat (String.length s)) ltac:(lia) ltac:(lia)). nia.
Qed.

Lemma parse_digits_same s1 s2 a1 a2 n : String.length s1 = String.length s2 ->
  parse_digits s1 a1 = Some n -> parse_digits s2 a2 = Some n -> a1 = a2 /\ s1 = s2.
Proof.
  revert s2 a1 a2. induction s1 as [|c1 s1 IH]; intros [|c2 s2] a1 a2 Hl; try discriminate Hl; cbn [parse_digits]; [intros [= ->] [= ->]; done|].
  destruct (char_digit c1) as [d1|] eqn:E1; [|done]. destruct (char_digit c2) as [d2|] eqn:E2; [|done]. intros P1 P2.
  destruct (IH s2 _ _ ltac:(by injection Hl) P1 P2) as [Ea ->].
  assert (Hd : 0 <= d1 < 10 /\ 0 <= d2 < 10).
  { unfold char_digit in E1, E2. cbv zeta in E1, E2. repeat case_match; try done. bool_hyps. simplify_eq. lia. }
  assert (d1 = d2) as <- by lia. split; [lia|]. f_equal. by eapply char_digit_inj.
Qed.

(** A positive number has one text without leading zeros. *)
Lemma digits_canonical s1 s2 n :
  digitsPattern s1 = true -> digitsPattern s2 = true -> parse_digits s1 0 = Some n -> parse_digits s2 0 = Some n -> s1 = s2.
Proof.
  assert (Hb : forall s, digitsPattern s = true -> parse_digits s 0 = Some n ->
    10 ^ (Z.of_nat (String.length s) - 1) <= n < 10 ^ Z.of_nat (String.length s)).
  { intros [|c s]; [done|]. cbn [digitsPattern parse_digits String.length]. intros Hd. bool_hyps.
    assert (exists d, char_digit c = Some d /\ 1 <= d < 10) as (d & -> & Hdr).
    { match goal with H : is_digit c = true |- _ => apply is_digit_char in H as (d & ? & ? & ?) end. exists d. split; [done|lia]. }
    intros Hp. apply parse_digits_bounds in Hp; [|lia]. rewrite Nat2Z.inj_succ, Z.pow_succ_r by lia.
    replace (Z.succ (Z.of_nat (String.length s)) - 1) with (Z.of_nat (String.length s)) by lia.
    pose proof (Z.pow_pos_nonneg 10 (Z.of_nat (String.length s)) ltac:(lia) ltac:(lia)). nia. }
  intros D1 D2 P1 P2. pose proof (Hb s1 D1 P1). pose proof (Hb s2 D2 P2).
  assert (Hlen : String.length s1 = String.length s2).
  { destruct (Nat.lt_trichotomy (String.length s1) (String.length s2)) as [Hlt|[|Hlt]]; [|done|].
    - assert (10 ^ Z.of_nat (String.length s1) <= 10 ^ (Z.of_nat (String.length s2) - 1)) by (apply Z.pow_le_mono_r; lia). lia.
    - assert (10 ^ Z.of_nat (String.length s2) <= 10 ^ (Z.of_nat (String.length s1) - 1)) by (apply Z.pow_le_mono_r; lia). lia. }
  by eapply parse_digits_same.
Qed.

Lemma format_digits_shape fuel n acc : 0 < n < 2 ^ Z.of_nat fuel -> str_forall is_digit acc = true ->
  exists c r, format_digits fuel n acc = String c r /\ is_digit c = true /\ char_z c <> 48 /\ str_forall is_digit r = true.
Proof.
  revert n acc. induction fuel as [|f IH]; intros n acc Hn Ha; [change (2 ^ Z.of_nat 0) with 1 in Hn; lia|]. cbn [format_digits]. cbv zeta.
  pose proof (Z.mod_pos_bound n 10 ltac:(lia)) as Hm. pose proof (char_digit_char _ Hm) as Hc.
  assert (Hd : is_digit (digit_char (n mod 10)) = true /\ char_z (digit_char (n mod 10)) = n mod 10 + 48).
  { unfold char_digit in Hc. cbv zeta in Hc. unfold is_digit. case_match; [|done]. injection Hc as Hc. split; [done|lia]. }
  destruct Hd as [Hd Hz]. destruct (Z.eqb_spec (n / 10) 0) as [E|E].
  - exists (digit_char (n mod 10)), acc. split_and!; [done|done| |done]. rewrite Hz. pose proof (Z.div_mod n 10). lia.
  - apply IH; [|cbn [str_forall]; by rewrite Hd, Ha]. rewrite Nat2Z.inj_succ, Z.pow_succ_r in Hn by lia.
    assert (0 <= n / 10) by (apply Z.div_pos; lia). split; [lia|]. apply Z.div_lt_upper_bound; lia.
Qed.

Lemma FormatUint_pattern n : 1 <= n < 2 ^ 16 -> digitsPattern (FormatUint n) = true.
Proof.
  intros Hn. assert (Hf : 0 < n < 2 ^ Z.of_nat (S (Z.to_nat (Z.log2 n)))).
  { split; [lia|]. rewrite Nat2Z.inj_succ, Z2Nat.id by apply Z.log2_nonneg. apply Z.log2_spec. lia. }
  destruct (format_digits_shape _ n "" Hf eq_refl) as (c & r & E & Hc & Hz & Hr). unfold FormatUint. rewrite E. cbn [digitsPattern].
  rewrite Hc, Hr, (proj2 (Z.eqb_neq _ _)) by done. cbn [negb andb]. apply Nat.leb_le.
  assert (Hp : parse_digits (FormatUint n) 0 = Some n) by (apply parse_FormatUint; lia). unfold FormatUint in Hp. rewrite E in Hp. cbn [parse_digits] in Hp.
  apply is_digit_char in Hc as (d & Hd & ? & ?). rewrite Hd in Hp. apply parse_digits_bounds in Hp; [|lia].
  destruct (Nat.le_gt_cases (String.length r) 4) as [|Hgt]; [done|].
  assert (10 ^ 5 <= 10 ^ Z.of_nat (String.length r)) by (apply Z.pow_le_mono_r; lia). nia.
Qed.

Lemma integer_exact s n : integer s = Some n <-> s = FormatUint n /\ 1 <= n < 2 ^ 16.
Proof.
  unfold integer. rewrite need_bind. split.
  - intros [Hd Hn]. destruct (parse_digits s 0) as [m|] eqn:E; [|done]. cbn in Hn. apply need_bind in Hn as [Hm [= ->]]. bool_hyps.
    assert (1 <= n).
    { destruct s as [|c s]; [done|]. cbn [digitsPattern parse_digits] in *. bool_hyps.
      match goal with H : is_digit c = true |- _ => apply is_digit_char in H as (d & Ed & ? & ?) end. rewrite Ed in E.
      apply parse_digits_bounds in E; [|lia]. pose proof (Z.pow_pos_nonneg 10 (Z.of_nat (String.length s)) ltac:(lia) ltac:(lia)). nia. }
    split; [|lia]. eapply digits_canonical; [done|apply FormatUint_pattern; lia|done|apply parse_FormatUint; lia].
  - intros [-> Hn]. split; [by apply FormatUint_pattern|]. rewrite parse_FormatUint by lia. cbn. apply need_bind. split; [apply Z.ltb_lt; lia|done].
Qed.

Lemma integer_char n c : 1 <= n < 2 ^ 16 -> is_digit c = false -> str_contains_char c (FormatUint n) = false.
Proof.
  intros Hn Hc. assert (Hd := FormatUint_pattern n Hn). assert (Hall : str_forall is_digit (FormatUint n) = true).
  { destruct (FormatUint n) as [|x r]; [done|]. cbn [digitsPattern str_forall] in *. bool_hyps. by apply andb_true_iff. }
  clear Hd. induction (FormatUint n) as [|x r IH]; [done|]. cbn [str_forall str_contains_char] in *. bool_hyps. apply orb_false_iff. split; [|by apply IH].
  apply Ascii.eqb_neq. intros ->. congruence.
Qed.

(** ** Names *)

Definition name_char (c : Ascii.ascii) : bool := tail_char c || Ascii.eqb c dot.

Lemma str_forall_join f l : f dot = true -> Forall (fun s => str_forall f s = true) l -> str_forall f (join (String dot "") l) = true.
Proof.
  intros Hd. induction 1 as [|s l Hs Hl IH]; [done|]. cbn [join]. destruct l; [done|]. rewrite !str_forall_app, Hs. cbn [str_forall andb].
  by rewrite Hd.
Qed.

Lemma part_ok_chars f s : (forall c, f c = true -> tail_char c = true) -> part_ok f s = true -> str_forall name_char s = true.
Proof.
  intros Hf. destruct s as [|c s]; [done|]. cbn [part_ok str_forall]. intros Hp. apply andb_true_iff in Hp as [Hc Hs]. apply andb_true_iff. split.
  - unfold name_char, tail_char, head_char. by rewrite Hc.
  - eapply str_forall_impl; [|exact Hs]. intros x Hx. unfold name_char. by rewrite Hf.
Qed.

Lemma name_chars id : name_ok id = true -> str_forall name_char id = true.
Proof.
  unfold name_ok, idPattern. intros Hn. apply andb_true_iff in Hn as [_ Hn]. rewrite <- (join_split dot id). apply str_forall_join; [done|].
  destruct (split_on dot id) as [|p [|q l]]; [done..|]. apply andb_true_iff in Hn as [Hp Hl]. constructor.
  - eapply part_ok_chars; [|exact Hp]. intros c Hc. unfold tail_char. by rewrite Hc.
  - apply Forall_forall. intros x Hx. rewrite forallb_forall in Hl. apply list_elem_of_In, Hl in Hx. by eapply part_ok_chars.
Qed.

Lemma name_no_char id c : name_ok id = true -> name_char c = false -> str_contains_char c id = false.
Proof.
  intros Hn%name_chars Hc. induction id as [|x id IH]; [done|]. cbn [str_forall str_contains_char] in *. bool_hyps. apply orb_false_iff. split; [|by apply IH].
  apply Ascii.eqb_neq. intros ->. congruence.
Qed.

Lemma name_nonempty id : name_ok id = true -> String.ltb "" id = true.
Proof. by destruct id. Qed.

(** ** The header *)

Definition print_selection (s : FeatureSelection) : string := fs_ID s +:+ "=" +:+ FormatUint (fs_Revision s).
Definition print_header (sel : list FeatureSelection) : string := join "," (print_selection <$> sel).

Definition selection_ok (s : FeatureSelection) : Prop := name_ok (fs_ID s) = true /\ 1 <= fs_Revision s < 2 ^ 16.

Fixpoint increasing (previous : string) (sel : list FeatureSelection) : Prop :=
  match sel with [] => True | s :: sel => String.ltb previous (fs_ID s) = true /\ increasing (fs_ID s) sel end.

Lemma split_two c p a b : split_on c p = [a; b] <-> p = a +:+ String c b /\ str_contains_char c a = false /\ str_contains_char c b = false.
Proof.
  split.
  - intros E. pose proof (split_on_clean c p) as Hf. rewrite E in Hf. inversion Hf as [|? ? Ha Hf']; subst. inversion Hf' as [|? ? Hb _]; subst.
    split; [|done]. rewrite <- (join_split c p), E. done.
  - intros (-> & Ha & Hb). by apply split_on_pair.
Qed.

Lemma read_pairs_exact prev pairs sel :
  read_pairs prev pairs = Some sel <-> pairs = print_selection <$> sel /\ Forall selection_ok sel /\ increasing prev sel.
Proof.
  revert prev sel. induction pairs as [|p pairs IH]; intros prev sel.
  { split; [intros [= <-]; by repeat constructor|]. intros (E & _). by destruct sel. }
  cbn [read_pairs]. split.
  - destruct (split_on (chr 61) p) as [|key [|value [|]]] eqn:Es; try done. apply split_two in Es as (-> & _ & _). cbn [name].
    intros Hr. destruct (name_ok key) eqn:Hn; [|done]. cbn in Hr. apply need_bind in Hr as [Hlt Hr].
    destruct (integer value) as [n|] eqn:Ei; [|done]. apply integer_exact in Ei as [-> Hi]. cbn in Hr.
    destruct (read_pairs key pairs) as [rest|] eqn:Er; [|done]. injection Hr as <-. apply IH in Er as (-> & Hf & Hinc).
    split; [done|]. split; [by constructor|done].
  - intros (E & Hf & Hinc). destruct sel as [|[id n] sel]; [done|]. rewrite fmap_cons in E. injection E as -> ->.
    inversion Hf as [|? ? [Hn Hi] Hf']; subst. destruct Hinc as [Hlt Hinc]. cbn [fs_ID fs_Revision] in *.
    change (print_selection (MkSelection id n)) with (id +:+ String (chr 61) (FormatUint n)).
    rewrite split_on_pair; [|apply name_no_char; [done|reflexivity]|apply integer_char; [done|reflexivity]]. rewrite (proj2 (integer_exact (FormatUint n) n)) by done.
    cbn [name]. rewrite Hn. cbn. rewrite Hlt. cbn. by rewrite (proj2 (IH id sel)) by done.
Qed.

Lemma print_selection_comma s : selection_ok s -> str_contains_char (chr 44) (print_selection s) = false.
Proof.
  intros [Hn Hi]. unfold print_selection. rewrite !contains_char_app. rewrite name_no_char by done. rewrite integer_char by done. done.
Qed.

Lemma str_forall_join_any f sep l : str_forall f sep = true -> Forall (fun s => str_forall f s = true) l -> str_forall f (join sep l) = true.
Proof.
  intros Hd. induction 1 as [|s l Hs Hl IH]; [done|]. cbn [join]. destruct l; [done|]. by rewrite !str_forall_app, Hs, Hd.
Qed.

Definition ascii (c : Ascii.ascii) : bool := char_z c <=? 127.

Lemma name_char_ascii c : name_char c = true -> ascii c = true.
Proof.
  unfold name_char, tail_char, head_char, is_lower, is_digit, ascii. intros Hc. apply Z.leb_le.
  apply orb_true_iff in Hc as [Hc|Hc]; [|apply Ascii.eqb_eq in Hc; subst c; done].
  repeat (apply orb_true_iff in Hc as [Hc|Hc]); bool_hyps; lia.
Qed.

Lemma print_selection_ascii s : selection_ok s -> str_forall ascii (print_selection s) = true.
Proof.
  intros [Hn Hi]. unfold print_selection. rewrite !str_forall_app. apply andb_true_iff. split; [|apply andb_true_iff; split; [done|]].
  - eapply str_forall_impl; [apply name_char_ascii|by apply name_chars].
  - pose proof (FormatUint_pattern _ Hi) as Hd. destruct (FormatUint _) as [|c r]; [done|]. cbn [digitsPattern str_forall] in *. bool_hyps.
    assert (Ha : forall x, is_digit x = true -> ascii x = true) by (intros x Hx; unfold is_digit, ascii in *; bool_hyps; apply Z.leb_le; lia).
    apply andb_true_iff. split; [by apply Ha|]. eapply str_forall_impl; [exact Ha|done].
Qed.

(** What a header may select: up to 32 features with names and revisions in range, in
    increasing order of their names, in at most 4096 bytes. *)
Definition header_ok (sel : list FeatureSelection) : Prop :=
  sel <> [] /\ (length sel <= 32)%nat /\ Forall selection_ok sel /\ increasing "" sel /\ str_len (print_header sel) <= 4096.

(** The header of required features has one text for each selection and nothing else:
    the parser accepts a header exactly when it is the printed form of a well-formed
    selection, which it returns; no header selects nothing, and two are refused. *)
Theorem header_exact raw sel :
  (ParseRequiredFeatureHeader [raw] = Ok sel <-> header_ok sel /\ raw = print_header sel) /\
  ParseRequiredFeatureHeader [] = Ok [] /\
  (forall a b l, ParseRequiredFeatureHeader (a :: b :: l) = Err ErrHTTPFeatureInvalid).
Proof.
  split; [|done]. assert (E : ParseRequiredFeatureHeader [raw] = Ok sel <-> parse_header [raw] = Some sel).
  { unfold ParseRequiredFeatureHeader. destruct (parse_header [raw]); naive_solver. }
  rewrite E. unfold parse_header, header_ok. rewrite !need_bind, read_pairs_exact, !Z.leb_le, Nat.leb_le. split.
  - intros (Hlen & Ha & Hn & Hp & Hf & Hi). assert (Hraw : raw = print_header sel).
    { rewrite <- (join_split (chr 44) raw), Hp. done. }
    rewrite Hp, length_fmap in Hn. rewrite <- Hraw. split_and!; try done. intros ->. by apply (split_on_nonempty (chr 44) raw).
  - intros ((Hne & Hn & Hf & Hi & Hl) & ->).
    assert (Hs : split_on (chr 44) (print_header sel) = print_selection <$> sel).
    { apply (split_on_join (chr 44)); [by destruct sel|]. apply Forall_fmap. eapply Forall_impl; [exact Hf|]. intros s Hs. by apply print_selection_comma. }
    rewrite Hs, length_fmap. split_and!; try done. apply str_forall_join_any; [done|]. apply Forall_fmap.
    eapply Forall_impl; [exact Hf|]. intros s Hs'. by apply print_selection_ascii.
Qed.

(** ** The reader of values *)

(** Values without duplicate keys, whose numbers are revisions. *)
Inductive strict : any -> Prop :=
| strict_nil : strict VNil
| strict_bool b : strict (VBool b)
| strict_string s : strict (VString s)
| strict_int n : 1 <= n < 2 ^ 16 -> strict (VInt KUint16 n)
| strict_slice l : Forall strict l -> strict (VSlice l)
| strict_map m : NoDup m.*1 -> Forall strict m.*2 -> strict (VMap m).

(** The tokens of a value. *)
Fixpoint tokens_of (v : any) : list json_token :=
  match v with
  | VNil => [TNull]
  | VBool b => [TBool b]
  | VString s => [TString s]
  | VInt _ n => [TNumber (FormatUint n)]
  | VSlice l => TDelim open_bracket :: concat (List.map tokens_of l) ++ [TDelim close_bracket]
  | VMap m => TDelim open_brace :: concat (List.map (fun kv => TString kv.1 :: tokens_of kv.2) m) ++ [TDelim close_brace]
  | _ => []
  end.

(** How deep the values inside a value are. *)
Fixpoint height (v : any) : Z :=
  match v with
  | VSlice l => foldr Z.max 0 (List.map (fun x => 1 + height x) l)
  | VMap m => foldr Z.max 0 (List.map (fun kv => 1 + height kv.2) m)
  | _ => 0
  end.

Abbreviation item_tokens l := (concat (List.map tokens_of l)).
Abbreviation member_tokens m := (concat (List.map (fun kv : string * any => TString kv.1 :: tokens_of kv.2) m)).

Lemma foldr_max_app l x : 0 <= x -> foldr Z.max 0 (l ++ [x]) = Z.max x (foldr Z.max 0 l).
Proof. intros Hx. induction l as [|y l IH]; cbn; [lia|]. rewrite IH. lia. Qed.

Lemma height_nonneg v : 0 <= height v.
Proof. destruct v; cbn; try done; [induction l|induction m]; cbn; lia. Qed.

(** What a call returns, and the tokens it took. *)
Lemma reader_sound f :
  (forall d ts v rest, readValue f d ts = Some (v, rest) -> ts = tokens_of v ++ rest /\ strict v /\ d + height v <= 64) /\
  (forall d m ts v rest, readMembers f d m ts = Some (v, rest) -> NoDup m.*1 -> Forall strict m.*2 -> d + height (VMap m) <= 64 ->
    exists m', v = VMap (m ++ m') /\ ts = member_tokens m' ++ TDelim close_brace :: rest /\ strict v /\ d + height v <= 64) /\
  (forall d l ts v rest, readItems f d l ts = Some (v, rest) -> Forall strict l -> d + height (VSlice l) <= 64 ->
    exists l', v = VSlice (l ++ l') /\ ts = item_tokens l' ++ TDelim close_bracket :: rest /\ strict v /\ d + height v <= 64).
Proof.
  induction f as [|f (IHv & IHm & IHi)]; [by split_and!|]. split_and!.
  - intros d ts v rest. cbn [readValue]. rewrite need_bind. intros [Hd Hr]. apply Z.leb_le in Hd. destruct ts as [|[c|s|lit|b|] ts]; [done|..].
    + destruct (Ascii.eqb_spec c open_brace) as [->|].
      * apply IHm in Hr as (m' & -> & -> & ? & ?); [|constructor|constructor|cbn; lia]. cbn [tokens_of app]. by rewrite <- app_assoc.
      * destruct (Ascii.eqb_spec c open_bracket) as [->|]; [|done]. apply IHi in Hr as (l' & -> & -> & ? & ?); [|constructor|cbn; lia].
        cbn [tokens_of app]. by rewrite <- app_assoc.
    + injection Hr as <- <-. cbn. split_and!; [done|constructor|lia].
    + destruct (integer lit) as [n|] eqn:E; [|done]. injection Hr as <- <-. apply integer_exact in E as [-> ?]. cbn. split_and!; [done|by constructor|lia].
    + injection Hr as <- <-. cbn. split_and!; [done|constructor|lia].
    + injection Hr as <- <-. cbn. split_and!; [done|constructor|lia].
  - intros d m ts v rest Hr Hn Hs Hd. cbn [readMembers] in Hr. destruct ts as [|[c|key|lit|b|] ts]; try done.
    + destruct (Ascii.eqb_spec c close_brace) as [->|]; [|done]. injection Hr as <- <-. exists []. rewrite app_nil_r. split_and!; [done|done|by constructor|done].
    + apply need_bind in Hr as [Hk Hr]. destruct (readValue f (d + 1) ts) as [[x ts1]|] eqn:Ev; [|done]. cbn in Hr.
      apply IHv in Ev as (-> & Hx & Hh). apply IHm in Hr as (m' & -> & -> & ? & ?).
      * exists ((key, x) :: m'). rewrite <- app_assoc in *. cbn [List.map concat fst snd app]. rewrite <- app_assoc. by split_and!.
      * rewrite fmap_app. apply NoDup_app. split_and!; [done| |apply NoDup_singleton]. apply negb_true_iff, mem_string_false in Hk.
        intros y Hy ->%list_elem_of_singleton. done.
      * rewrite fmap_app. apply Forall_app. split; [done|]. by constructor.
      * cbn [height] in *. rewrite List.map_app. cbn [List.map]. rewrite foldr_max_app by (cbn; pose proof (height_nonneg x); lia). cbn. lia.
  - intros d l ts v rest Hr Hs Hd. cbn [readItems] in Hr. cbv zeta in Hr.
    assert (Hmore : ('(value, rest) ← readValue f (d + 1) ts; readItems f d (l ++ [value]) rest) = Some (v, rest) ->
      exists l', v = VSlice (l ++ l') /\ ts = item_tokens l' ++ TDelim close_bracket :: rest /\ strict v /\ d + height v <= 64).
    { clear Hr. intros Hr. destruct (readValue f (d + 1) ts) as [[x ts1]|] eqn:Ev; [|done]. cbn in Hr. apply IHv in Ev as (-> & Hx & Hh).
      apply IHi in Hr as (l' & -> & -> & ? & ?).
      - exists (x :: l'). rewrite <- app_assoc in *. cbn [List.map concat]. rewrite <- app_assoc. by split_and!.
      - apply Forall_app. split; [done|by constructor].
      - cbn [height] in *. rewrite List.map_app. cbn [List.map]. rewrite foldr_max_app by (pose proof (height_nonneg x); lia). lia. }
    destruct ts as [|[c|s|lit|b|] ts]; try (by apply Hmore); destruct (Ascii.eqb_spec c close_bracket) as [->|].
    + injection Hr as <- <-. exists []. rewrite app_nil_r. split_and!; [done|done|by constructor|done].
    + destruct (Ascii.eqb c close_brace); [done|]. by apply Hmore.
Qed.

Lemma tokens_nonempty v : strict v -> (1 <= length (tokens_of v))%nat.
Proof. destruct 1; cbn; rewrite ?length_app; cbn; lia. Qed.

Lemma reader_shrinks f d ts v rest : readValue f d ts = Some (v, rest) -> (length rest < length ts)%nat.
Proof. intros E. apply (proj1 (reader_sound f)) in E as (-> & Hs & _). rewrite length_app. apply tokens_nonempty in Hs. lia. Qed.

(** Enough fuel: more changes nothing. *)
Lemma reader_fuel n f f' :
  (forall d ts, (length ts <= n)%nat -> (2 * n + 1 <= f)%nat -> (2 * n + 1 <= f')%nat -> readValue f d ts = readValue f' d ts) /\
  (forall d m ts, (length ts <= n)%nat -> (2 * n + 1 <= f)%nat -> (2 * n + 1 <= f')%nat -> readMembers f d m ts = readMembers f' d m ts) /\
  (forall d l ts, (length ts <= n)%nat -> (2 * n + 2 <= f)%nat -> (2 * n + 2 <= f')%nat -> readItems f d l ts = readItems f' d l ts).
Proof.
  revert f f'. induction n as [n IH] using lt_wf_ind. intros f f'.
  assert (Hv : forall f f' d ts, (length ts <= n)%nat -> (2 * n + 1 <= f)%nat -> (2 * n + 1 <= f')%nat -> readValue f d ts = readValue f' d ts).
  { clear f f'. intros [|f] [|f'] d ts Hl Hf Hf'; try lia. cbn [readValue]. destruct (need (d <=? 64)); [|done]. cbn.
    destruct ts as [|[c|s|lit|b|] ts]; try done. cbn [length] in Hl. destruct (IH (n - 1)%nat ltac:(lia) f f') as (_ & Hm & Hi).
    destruct (Ascii.eqb c _); [apply Hm; lia|]. destruct (Ascii.eqb c _); [apply Hi; lia|done]. }
  split_and!; [apply Hv|..].
  - intros d m ts Hl Hf Hf'. destruct f as [|f], f' as [|f']; try lia. cbn [readMembers]. destruct ts as [|[c|key|lit|b|] ts]; try done.
    destruct (need _); [|done]. cbn. cbn [length] in Hl. destruct (IH (n - 1)%nat ltac:(lia) f f') as (Hv' & Hm & _).
    rewrite (Hv' (d + 1) ts) by lia. destruct (readValue f' (d + 1) ts) as [[x rest]|] eqn:Ev; [|done]. cbn.
    apply reader_shrinks in Ev as Hlt. apply Hm; lia.
  - intros d l ts Hl Hf Hf'. destruct f as [|f], f' as [|f']; try lia. cbn [readItems]. cbv zeta.
    assert (Hmore : ('(value, rest) ← readValue f (d + 1) ts; readItems f d (l ++ [value]) rest) =
                    ('(value, rest) ← readValue f' (d + 1) ts; readItems f' d (l ++ [value]) rest)).
    { rewrite (Hv f f' (d + 1) ts) by lia. destruct (readValue f' (d + 1) ts) as [[x rest]|] eqn:Ev; [|done]. cbn.
      apply reader_shrinks in Ev as Hlt. destruct (IH (n - 1)%nat ltac:(lia) f f') as (_ & _ & Hi). apply Hi; lia. }
    by rewrite Hmore.
Qed.

(** The reader needs no more fuel than it is given. *)
Lemma reader_complete f d ts : (value_fuel ts <= f)%nat -> readValue f d ts = readValue (value_fuel ts) d ts.
Proof. unfold value_fuel. intros Hf. apply (proj1 (reader_fuel (length ts) f (S (2 * length ts)))); lia. Qed.

Lemma foldr_max_cons_le d x l : d + foldr Z.max 0 (x :: l) <= 64 -> d + x <= 64 /\ d + foldr Z.max 0 l <= 64.
Proof. cbn. lia. Qed.

Lemma reads_items n f d acc l rest :
  (forall v d f rest, (length (tokens_of v) <= n)%nat -> (length (tokens_of v) <= f)%nat -> strict v -> d + height v <= 64 ->
    readValue f d (tokens_of v ++ rest) = Some (v, rest)) ->
  (length (item_tokens l) <= n)%nat -> (length (item_tokens l) < f)%nat -> Forall strict l -> d + height (VSlice l) <= 64 ->
  readItems f d acc (item_tokens l ++ TDelim close_bracket :: rest) = Some (VSlice (acc ++ l), rest).
Proof.
  intros Hv. revert f acc. induction l as [|x l IH]; intros f acc Hl Hf Hs Hd; (destruct f as [|f]; [cbn in Hf; lia|]); [cbn; by rewrite app_nil_r|].
  inversion Hs as [|? ? Hx Hs']; subst. cbn [height List.map] in Hd. apply foldr_max_cons_le in Hd as [Hdx Hdl].
  cbn [List.map concat length] in *. rewrite length_app in Hl, Hf. pose proof (tokens_nonempty x Hx). rewrite <- app_assoc.
  assert (Hmore : ('(value, rest') ← readValue f (d + 1) (tokens_of x ++ item_tokens l ++ TDelim close_bracket :: rest);
    readItems f d (acc ++ [value]) rest') = Some (VSlice (acc ++ x :: l), rest)).
  { rewrite Hv by (done || lia). cbn. rewrite IH by (done || lia). by rewrite <- app_assoc. }
  cbn [readItems]. cbv zeta. rewrite Hmore. by inversion Hx.
Qed.

Lemma reads_members n f d acc m rest :
  (forall v d f rest, (length (tokens_of v) <= n)%nat -> (length (tokens_of v) <= f)%nat -> strict v -> d + height v <= 64 ->
    readValue f d (tokens_of v ++ rest) = Some (v, rest)) ->
  (length (member_tokens m) <= n)%nat -> (length (member_tokens m) < f)%nat -> NoDup (acc ++ m).*1 -> Forall strict m.*2 -> d + height (VMap m) <= 64 ->
  readMembers f d acc (member_tokens m ++ TDelim close_brace :: rest) = Some (VMap (acc ++ m), rest).
Proof.
  intros Hv. revert f acc. induction m as [|[k x] m IH]; intros f acc Hl Hf Hn Hs Hd; (destruct f as [|f]; [cbn in Hf; lia|]); [cbn; by rewrite app_nil_r|].
  cbn [fmap list_fmap snd] in Hs. inversion Hs as [|? ? Hx Hs']; subst. cbn [height List.map snd] in Hd. apply foldr_max_cons_le in Hd as [Hdx Hdl].
  cbn [List.map concat length fst snd app] in *. rewrite length_app in Hl, Hf. rewrite <- app_assoc. cbn [readMembers].
  assert (Hk : mem_string k acc.*1 = false).
  { apply mem_string_false. intros Hk. rewrite fmap_app in Hn. apply NoDup_app in Hn as (_ & Hn & _). apply (Hn _ Hk). cbn. by left. }
  rewrite Hk. cbn. rewrite Hv by (done || lia). cbn. rewrite IH; [by rewrite <- app_assoc|lia|lia| |done|done]. by rewrite <- app_assoc.
Qed.

Lemma reader_reads n : forall v d f rest, (length (tokens_of v) <= n)%nat -> (length (tokens_of v) <= f)%nat -> strict v -> d + height v <= 64 ->
  readValue f d (tokens_of v ++ rest) = Some (v, rest).
Proof.
  induction n as [n IH] using lt_wf_ind. intros v d [|f] rest Hl Hf Hs Hd; [apply tokens_nonempty in Hs; lia|]. cbn [readValue]. pose proof (height_nonneg v) as H0.
  rewrite (proj2 (Z.leb_le d 64)) by lia. cbn [need mbind option_bind]. destruct Hs as [|b|s|k Hk|l Hs|m Hn Hs]; cbn [tokens_of app]; [done..| | |].
  - by rewrite (proj2 (integer_exact (FormatUint k) k)).
  - cbn [tokens_of length] in Hl, Hf. rewrite length_app in Hl, Hf. cbn [length] in Hl, Hf. rewrite <- app_assoc.
    apply (reads_items (n - 2)); [apply IH; lia|lia|lia|done|done].
  - cbn [tokens_of length] in Hl, Hf. rewrite length_app in Hl, Hf. cbn [length] in Hl, Hf. rewrite <- app_assoc.
    apply (reads_members (n - 2)); [apply IH; lia|lia|lia|done|done|done].
Qed.

(** The reader takes the tokens of one value that has no duplicate keys, whose numbers
    are revisions, and that is at most 64 levels deep; it returns the value and what
    follows, and takes nothing else. *)
Theorem reader_exact d ts v rest :
  readValue (value_fuel ts) d ts = Some (v, rest) <-> ts = tokens_of v ++ rest /\ strict v /\ d + height v <= 64.
Proof.
  split; [apply (proj1 (reader_sound _))|]. intros (-> & Hs & Hd). unfold value_fuel.
  apply (reader_reads (length (tokens_of v ++ rest))); [| |done|done]; rewrite ?length_app; lia.
Qed.

(** ** Offers *)

(** Up to 16 revisions, each in range and more than the one before, with lifecycles that
    are known. *)
Fixpoint revisions_ok (last : Z) (l : list FeatureRevision) : Prop :=
  match l with
  | [] => True
  | r :: l => last < fr_Revision r < 2 ^ 16 /\ fr_Lifecycle r ∈ lifecycles /\ revisions_ok (fr_Revision r) l
  end.

Definition feature_ok (id : string) (l : list FeatureRevision) : Prop :=
  name_ok id = true /\ (1 <= length l <= 16)%nat /\ revisions_ok 0 l.

Record offer_ok (offer : FeatureOffer) : Prop := {
  ok_features : map_Forall feature_ok (features offer);
  ok_count : (size (features offer) <= 32)%nat;
  ok_required : (length (required offer) <= 32)%nat /\ NoDup (required offer);
  ok_offered : Forall (fun id => is_Some (features offer !! id)) (required offer) }.

(** What the reader returns: every number fits 16 bits. *)
Lemma members_strict v allowed m : members v allowed = Some m -> strict v -> v = VMap m /\ Forall strict m.*2 /\ NoDup m.*1.
Proof. destruct v; try done. cbn. rewrite need_bind. intros [_ [= ->]] Hs. by inversion Hs. Qed.

Lemma dict_strict m k : Forall strict m.*2 -> strict (dict_at m k).
Proof.
  intros Hs. unfold dict_at. induction m as [|[k' x] m IH]; [constructor|]. cbn [fmap list_fmap snd] in Hs. inversion Hs as [|? ? Hx Hs']; subst.
  cbn. destruct (String.eqb k' k); [exact Hx|by apply IH].
Qed.

Lemma array_spec v lo hi l : array v lo hi = Some l -> v = VSlice l /\ (lo <= length l <= hi)%nat.
Proof. destruct v; try done. cbn. rewrite need_bind. intros [Hl [= ->]]. apply andb_true_iff in Hl as [?%Nat.leb_le ?%Nat.leb_le]. done. Qed.

Lemma array_strict v l : strict v -> v = VSlice l -> Forall strict l.
Proof. intros Hs ->. by inversion Hs. Qed.

Lemma name_spec v id : name v = Some id -> v = VString id /\ name_ok id = true.
Proof. destruct v; try done. cbn. rewrite need_bind. by intros [? [= ->]]. Qed.

Lemma revision_entry last v m n s :
  members v ["revision"; "lifecycle"] = Some m -> strict v -> dict_at m "revision" = VInt KUint16 n -> need (last <? n) = Some tt ->
  need (mem_string s lifecycles) = Some tt -> last < n < 2 ^ 16 /\ s ∈ lifecycles.
Proof.
  intros Em Hv Er Hlt%need_Some Hs%need_Some. apply (members_strict _ _ _ Em) in Hv as (_ & Hm & _). pose proof (dict_strict m "revision" Hm) as Hn.
  rewrite Er in Hn. inversion Hn; subst. apply Z.ltb_lt in Hlt. apply mem_string_true in Hs. by split; [lia|].
Qed.

Lemma read_revisions_sound items last l : read_revisions last items = Some l -> Forall strict items -> length l = length items /\ revisions_ok last l.
Proof.
  revert last l. induction items as [|v items IH]; intros last l; cbn [read_revisions]; [by intros [= <-]|].
  intros Hr Hst. apply Forall_cons_1 in Hst as [Hv Hst]. apply bind_Some in Hr as (m & Em & Hr).
  case_match eqn:Er; try done. case_match; try done. case_match eqn:El; try done. subst.
  apply bind_Some in Hr as ([] & Hlt & Hr). apply bind_Some in Hr as ([] & Hs & Hr). apply bind_Some in Hr as (rest & Hrest & Hr). injection Hr as <-.
  destruct (IH _ _ Hrest Hst) as [Hlen Hok]. destruct (revision_entry _ _ _ _ _ Em Hv Er Hlt Hs). cbn. by rewrite Hlen.
Qed.

Lemma read_offer_sound offer items offer' : read_offer offer items = Some offer' -> Forall strict items ->
  map_Forall feature_ok offer -> map_Forall feature_ok offer' /\ (size offer' = size offer + length items)%nat.
Proof.
  revert offer. induction items as [|v items IH]; intros offer; cbn [read_offer]; [intros [= <-] _ Ho; cbn; by rewrite Nat.add_0_r|].
  intros Hr Hst Ho. apply Forall_cons_1 in Hst as [Hv Hst]. apply bind_Some in Hr as (m & Em & Hr).
  apply bind_Some in Hr as (id & Hid & Hr). apply name_spec in Hid as [_ Hid]. apply bind_Some in Hr as ([] & Hnew & Hr).
  apply bind_Some in Hr as (entries & Ha & Hr). apply bind_Some in Hr as (revs & Hrevs & Hr). apply array_spec in Ha as [Ha Hlen].
  apply (members_strict _ _ _ Em) in Hv as (_ & Hm & _). apply (array_strict _ _ (dict_strict m _ Hm)) in Ha.
  destruct (read_revisions_sound _ _ _ Hrevs Ha) as [Hl Hok]. apply IH in Hr as [Hf Hsize]; [|done|].
  - split; [done|]. rewrite Hsize, map_size_insert_None; [cbn; lia|]. apply need_Some, negb_true_iff, bool_decide_eq_false in Hnew.
    by apply eq_None_not_Some.
  - apply map_Forall_insert_2; [|done]. split; [done|]. by rewrite Hl.
Qed.

Lemma read_required_sound offer seen items l : read_required offer seen items = Some l ->
  length l = length items /\ NoDup l /\ Forall (fun id => id ∉ seen /\ is_Some (offer !! id)) l.
Proof.
  revert seen l. induction items as [|v items IH]; intros seen l; cbn [read_required]; [intros [= <-]; by repeat constructor|].
  intros Hr. apply bind_Some in Hr as (id & _ & Hr). apply bind_Some in Hr as ([] & Hn & Hr). apply bind_Some in Hr as (rest & Hrest & Hr).
  injection Hr as <-. apply need_Some, andb_true_iff in Hn as [Ho%bool_decide_eq_true Hs%negb_true_iff%mem_string_false].
  apply IH in Hrest as (Hl & Hnd & Hf). split_and!; [cbn; by rewrite Hl| |].
  - constructor; [|done]. intros Hin. rewrite Forall_forall in Hf. apply Hf in Hin as [Hin _]. apply Hin. by left.
  - constructor; [done|]. eapply Forall_impl; [exact Hf|]. intros x [Hx ?]. split; [|done]. intros ?. apply Hx. by right.
Qed.

Lemma optional_array_spec m key items : optional_array m key = Some items -> Forall strict m.*2 -> Forall strict items /\ (length items <= 32)%nat.
Proof.
  unfold optional_array. pose proof (dict_strict m key) as Hd. unfold dict_at in Hd. destruct (dict_get key m) as [v|] eqn:E; intros Ha Hm.
  - apply array_spec in Ha as [-> Hl]. specialize (Hd Hm). cbn in Hd. inversion Hd; subst. by split; [|lia].
  - injection Ha as <-. split; [constructor|cbn; lia].
Qed.

Lemma parse_block_sound v offer : parse_block v = Some offer -> strict v -> offer_ok offer.
Proof.
  intros Hp Hv. apply bind_Some in Hp as (m & Em & Hp). apply bind_Some in Hp as ([] & _ & Hp). apply bind_Some in Hp as (items & Hi & Hp).
  apply bind_Some in Hp as (feats & Hf & Hp). apply bind_Some in Hp as (names & Hn & Hp). apply bind_Some in Hp as (req & Hr & Hp).
  injection Hp as <-. apply (members_strict _ _ _ Em) in Hv as (_ & Hm & _).
  destruct (optional_array_spec _ _ _ Hi Hm) as [Hsi Hli]. destruct (optional_array_spec _ _ _ Hn Hm) as [_ Hln].
  destruct (read_offer_sound _ _ _ Hf Hsi (map_Forall_empty _)) as [Hfo Hsz]. destruct (read_required_sound _ _ _ _ Hr) as (Hlr & Hnd & Hoff).
  rewrite map_size_empty in Hsz. split; cbn; [done|lia|split; [lia|done]|]. eapply Forall_impl; [exact Hoff|]. by intros ? [].
Qed.

(** The block an offer is printed as. *)
Definition revision_value (r : FeatureRevision) : any :=
  VMap [("revision", VInt KUint16 (fr_Revision r)); ("lifecycle", VString (fr_Lifecycle r))].
Definition feature_value (f : string * list FeatureRevision) : any :=
  VMap [("id", VString f.1); ("revisions", VSlice (revision_value <$> f.2))].
Definition offer_value (offer : FeatureOffer) : any :=
  VMap [("feature_negotiation", VInt KUint16 1); ("feature_offer", VSlice (feature_value <$> map_to_list (features offer)));
        ("required_features", VSlice (VString <$> required offer))].

Lemma read_revisions_prints last l : revisions_ok last l -> read_revisions last (revision_value <$> l) = Some l.
Proof.
  revert last. induction l as [|[n s] l IH]; intros last; [done|]. cbn [revisions_ok fr_Revision fr_Lifecycle]. intros (Hn & Hs & Hl).
  rewrite fmap_cons. cbn [read_revisions revision_value fr_Revision fr_Lifecycle].
  change (members _ _) with (Some [("revision", VInt KUint16 n); ("lifecycle", VString s)]). cbn [mbind option_bind].
  change (dict_at _ "revision") with (VInt KUint16 n). change (dict_at _ "lifecycle") with (VString s). cbn iota.
  rewrite (proj2 (Z.ltb_lt last n)) by lia. rewrite (proj2 (mem_string_true _ _) Hs). cbn [need mbind option_bind]. by rewrite IH.
Qed.

Lemma array_prints l lo hi : (lo <= length l <= hi)%nat -> array (VSlice l) lo hi = Some l.
Proof. intros [H1 H2]. cbn. by rewrite (proj2 (Nat.leb_le _ _) H1), (proj2 (Nat.leb_le _ _) H2). Qed.

Lemma read_offer_prints acc l : NoDup l.*1 -> Forall (fun f => feature_ok f.1 f.2 /\ acc !! f.1 = None) l ->
  read_offer acc (feature_value <$> l) = Some (list_to_map l ∪ acc).
Proof.
  revert acc. induction l as [|[id revs] l IH]; intros acc Hn Hf; [cbn; by rewrite (left_id_L ∅ (∪))|].
  rewrite fmap_cons in *. apply NoDup_cons in Hn as [Hid Hn]. apply Forall_cons_1 in Hf as [[(Hname & Hlen & Hr) Hacc] Hf]. cbn [fst snd] in *.
  cbn [read_offer feature_value fst snd fmap list_fmap].
  change (members _ _) with (Some [("id", VString id); ("revisions", VSlice (revision_value <$> revs))]). cbn [mbind option_bind].
  change (dict_at _ "id") with (VString id). change (dict_at _ "revisions") with (VSlice (revision_value <$> revs)).
  cbn [name]. rewrite Hname. cbn [need mbind option_bind]. rewrite Hacc. cbn [need mbind option_bind bool_decide is_Some_dec negb].
  rewrite array_prints by (rewrite length_fmap; lia). cbn [mbind option_bind]. rewrite read_revisions_prints by done. cbn [mbind option_bind].
  rewrite IH; [|done|].
  - cbn. f_equal. rewrite <- insert_union_l. symmetry. apply insert_union_r. by apply not_elem_of_list_to_map_1.
  - apply Forall_forall. intros [id' r'] Hin. rewrite Forall_forall in Hf. destruct (Hf _ Hin) as [? Hl]. split; [done|].
    rewrite lookup_insert_ne; [done|]. cbn. intros ->. apply Hid. by apply (list_elem_of_fmap_2 fst) in Hin.
Qed.

Lemma read_required_prints offer seen l : NoDup l -> Forall (fun id => is_Some (offer !! id) /\ name_ok id = true /\ id ∉ seen) l ->
  read_required offer seen (VString <$> l) = Some l.
Proof.
  revert seen. induction l as [|id l IH]; intros seen Hn Hf; [done|]. apply NoDup_cons in Hn as [Hid Hn]. apply Forall_cons_1 in Hf as [(Ho & Hname & Hs) Hf].
  rewrite fmap_cons. cbn [read_required name]. rewrite Hname. cbn [need mbind option_bind].
  rewrite (bool_decide_eq_true_2 _ Ho), (proj2 (mem_string_false id seen) Hs). cbn [need mbind option_bind andb negb].
  rewrite IH; [done|done|]. apply Forall_forall. intros x Hx. rewrite Forall_forall in Hf. destruct (Hf x Hx) as (? & ? & ?). split_and!; [done..|].
  apply not_elem_of_cons. split; [|done]. by intros ->.
Qed.

Lemma height_slice l h : 0 <= h -> Forall (fun v => height v <= h) l -> height (VSlice l) <= 1 + h.
Proof. intros Hh. induction 1 as [|v l Hv _ IH]; cbn in *; lia. Qed.

(** An object with distinct keys, written out. *)
Ltac object_strict := apply strict_map; [by apply (bool_decide_unpack _); vm_compute|];
  cbn [fmap list_fmap snd]; repeat (apply Forall_cons_2 || apply Forall_nil_2).

Lemma revision_strict r : 1 <= fr_Revision r < 2 ^ 16 -> strict (revision_value r) /\ height (revision_value r) <= 1.
Proof.
  intros Hr. split; [|cbn; lia]. object_strict; by constructor.
Qed.

Lemma revisions_range last l : 0 <= last -> revisions_ok last l -> Forall (fun r => 1 <= fr_Revision r < 2 ^ 16) l.
Proof.
  revert last. induction l as [|r l IH]; intros last H0; [constructor|]. intros (Hr & _ & Hl). constructor; [lia|]. apply (IH (fr_Revision r)); [lia|done].
Qed.

Lemma feature_strict id l : revisions_ok 0 l -> strict (feature_value (id, l)) /\ height (feature_value (id, l)) <= 3.
Proof.
  intros Hl%revisions_range; [|done]. assert (Hr : Forall (fun v => strict v /\ height v <= 1) (revision_value <$> l)).
  { apply Forall_fmap. eapply Forall_impl; [exact Hl|]. apply revision_strict. }
  apply Forall_and in Hr as [Hs Hh]. apply (height_slice _ 1) in Hh; [|done]. split.
  - object_strict; by constructor.
  - cbn [height feature_value List.map snd foldr fst] in *. lia.
Qed.

Lemma offer_strict offer : offer_ok offer -> strict (offer_value offer) /\ height (offer_value offer) <= 64.
Proof.
  intros [Hf _ _ _]. assert (Hr : Forall (fun v => strict v /\ height v <= 3) (feature_value <$> map_to_list (features offer))).
  { apply Forall_fmap, Forall_forall. intros [id l] Hin%elem_of_map_to_list. destruct (Hf _ _ Hin) as (_ & _ & Hl). by apply feature_strict. }
  apply Forall_and in Hr as [Hs Hh]. apply (height_slice _ 3) in Hh; [|done].
  assert (Hq : Forall (fun v => strict v /\ height v <= 0) (VString <$> required offer)).
  { apply Forall_fmap, Forall_true. intros x. by repeat constructor. }
  apply Forall_and in Hq as [Hqs Hqh]. apply (height_slice _ 0) in Hqh; [|done]. split.
  - object_strict; by constructor.
  - unfold offer_value. cbn [height List.map snd foldr] in *. lia.
Qed.

Lemma parse_block_prints offer : offer_ok offer -> parse_block (offer_value offer) = Some offer.
Proof.
  intros [Hf Hc [Hr Hnd] Ho]. unfold parse_block, offer_value. set (m := [_; _; _]).
  change (members (VMap m) block_members) with (Some m). cbn [mbind option_bind].
  change (need _) with (Some tt). cbn [mbind option_bind]. unfold optional_array.
  change (dict_get "feature_offer" m) with (Some (VSlice (feature_value <$> map_to_list (features offer)))).
  change (dict_get "required_features" m) with (Some (VSlice (VString <$> required offer))).
  cbv beta iota. rewrite !array_prints by (rewrite length_fmap, ?length_map_to_list; lia). cbn [mbind option_bind].
  rewrite read_offer_prints; [|apply NoDup_fst_map_to_list|].
  - cbn [mbind option_bind]. rewrite list_to_map_to_list, (right_id_L ∅ (∪)). rewrite read_required_prints; [by destruct offer|done|].
    eapply Forall_impl; [exact Ho|]. intros id [l Hl]. split_and!; [by eexists|by apply Hf in Hl as (? & _)|by apply not_elem_of_nil].
  - apply Forall_forall. intros [id l] Hin%elem_of_map_to_list. split; [by apply Hf|apply lookup_empty].
Qed.

(** C16. An accepted offer is well formed, whatever the decoder returned: at most 32 features
    with names, each with 1 to 16 increasing revisions of known lifecycles, and the
    required ones offered and without repetition.  Conversely every well-formed offer
    is the result of parsing any text of at most 16384 bytes without broken escapes
    whose tokens are those of its block.  So the parser loses nothing and its only
    failures are the one error. *)
Theorem offer_exact json_tokens raw :
  match ParseFeatureOffer json_tokens raw with
  | Ok offer => offer_ok offer /\ str_len raw <= 16384 /\ valid_utf8 (String.length raw) raw = true
  | Err e => e = ErrNativeFeatureInvalid
  end /\
  (forall offer, offer_ok offer -> json_tokens raw = (tokens_of (offer_value offer), true) ->
     str_len raw <= 16384 -> strictUnicode raw = Some tt -> ParseFeatureOffer json_tokens raw = Ok offer).
Proof.
  unfold ParseFeatureOffer. split.
  - destruct (parse_offer json_tokens raw) as [offer|] eqn:E; [|done]. apply bind_Some in E as ([] & Hl & E). apply bind_Some in E as ([] & Hu & E).
    destruct (json_tokens raw) as [ts eof]. apply bind_Some in E as ([v rest] & Hv & E). apply bind_Some in E as ([] & _ & E).
    apply (proj1 (reader_sound _)) in Hv as (_ & Hs & _). apply need_Some, Z.leb_le in Hl. apply bind_Some in Hu as ([] & Hu & _). apply need_Some in Hu.
    split; [by eapply parse_block_sound|done].
  - intros offer Hok Ht Hl Hu. unfold parse_offer. rewrite (proj2 (Z.leb_le _ _) Hl), Hu, Ht. cbn [need mbind option_bind].
    destruct (offer_strict offer Hok) as [Hs Hh]. unfold value_fuel. set (f := S _).
    assert (Hr : readValue f 0 (tokens_of (offer_value offer) ++ []) = Some (offer_value offer, [])).
    { apply (reader_reads (length (tokens_of (offer_value offer)))); [done|unfold f; lia|done|lia]. }
    rewrite app_nil_r in Hr. rewrite Hr. cbn [need mbind option_bind]. by rewrite parse_block_prints.
Qed.

(** A block of one feature, which it requires. *)
Lemma offer_exact_witness :
  let offer := MkOffer {["code.search" := [MkRevision 1 "deprecated"; MkRevision 3 "stable"]]} ["code.search"] in
  ParseFeatureOffer (fun _ => (tokens_of (offer_value offer), true)) "{}" = Ok offer /\
  ParseFeatureOffer (fun _ => ([TDelim open_brace; TDelim close_brace], true)) "{}" = Ok (MkOffer ∅ []) /\
  ParseFeatureOffer (fun _ => ([TDelim open_brace; TDelim close_brace], false)) "{}" = Err ErrNativeFeatureInvalid.
Proof.
  intros offer. split; [|by vm_compute]. apply (proj2 (offer_exact _ _)); [|done|done|by vm_compute]. split.
  - apply map_Forall_singleton. repeat split; try (reflexivity || (cbn; lia) || done); apply mem_string_true; reflexivity.
  - cbn. rewrite map_size_singleton. lia.
  - cbn. split; [lia|apply NoDup_singleton].
  - cbn. constructor; [|constructor]. rewrite lookup_singleton. by eexists.
Defined.
